(* ===== verification/_CoqProject ===== *)
-Q . S2P
Prelude.v
Memcheck.v
MemcheckSpec.v
Dosmem.v
DosmemSpec.v
Emm.v
EmmInv.v
EmmMap.v
EmmAlloc.v
EmmRealloc.v
EmmSafe.v
EmmFn.v
EmmSpec.v
EmmContext.v
EmmMove.v
EmmExample.v
Interfaces.v
Smalloc.v
SmallocInv.v
SmallocAlloc.v
SmallocPlace.v
SmallocFree.v
SmallocRealloc.v
SmallocSpec.v
Pgalloc.v
Pic.v
PicSpec.v
Instances.v
Hlt.v
Xms.v
XmsInv.v
XmsSpec.v
Dma.v
DmaSpec.v
Rtc.v
RtcSpec.v
Ringbuf.v
RingbufSpec.v
Seqbuf.v
UmbMap.v
Machine.v
SimFlags.v
SimFlagsSpec.v
SimCpu.v
SimAlu.v
SimMem.v
SimExec.v
SimAluSpec.v
SimMulDiv.v
SimShift.v
SimMemSpec.v
SimStack.v
SimExample.v
Marks.v
MarksInv.v
MarksQuery.v
MarksPages.v
MarksProt.v
MarksMark.v
MarksFetch.v
MarksFind.v
Tlb.v
TlbSpec.v
TlbExample.v
MarksRange.v
Fhmap.v
Trees.v
TreesLinks.v
TreesInv.v
TreesRemove.v
TreesSpec.v
TreesAdd.v
TreesDirty.v
TlbTrees.v
Produce.v
ProduceSpec.v
CloseSpec.v
TreesSteps.v
TreesExample.v
SimPeephole.v
