(* ===== verification/Prelude.v ===== *)
(** * Verification of the dosemu2 core

    This library models parts of dosemu2, a DOS emulator in C, as Rocq functions
    and proves what makes them correct.  Source paths are relative to the
    repository root; the C sources are under src/.

    ** Method

    Stateful C code is a function in the state-and-fault monad [M] below: a
    computation takes the component's state (a record with the C variables'
    names) and returns a value and a new state, or a [fault] where the C program
    would fail an [assert], follow a bad pointer, index an array out of bounds,
    divide by zero or leave the emulator.  Integers are [Z]; every store into a
    C integer goes through [u8], [u16], [u32], [u64] or [i32], so wrap-around is
    part of the model.  [wp c s Q] is total correctness: [c] started in [s]
    does not fault and ends in [Q].  Loops that are not structural take fuel,
    which the definitions compute from the state (a number of nodes, array
    elements or pages, plus one); the theorems show that it is never exhausted,
    except where the C loop itself does not end.

    Code outside the component (callbacks, the mapping layer, host time) is
    a parameter: a function of the trace of earlier calls, or an argument.
    Calls that leave a component are recorded in its trace.

    ** Components

    - Prelude.v (this file): record update, machine integers, the monad and
      its rules, arrays with C bounds, bit lemmas.
    - Memcheck.v: the map of the first megabyte,
      src/src/base/init/memcheck.c: one letter per kilobyte, reservations,
      holes, the e820 table. MemcheckSpec.v: properties.
    - Dosmem.v: DOS memory as a table of 4K pages in host memory,
      [update_aliasmap] and [dosaddr_to_unixaddr] of
      src/src/base/lib/mapping/mapping.c, block copies of
      src/src/base/misc/dos2linux.c, stack macros of src/src/include/cpu.h,
      [fake_call] and [fake_retf] of src/src/base/core/int.c. DosmemSpec.v:
      properties.
    - Emm.v: the EMS driver, src/src/dosext/misc/emm.c, from [ems_init] and
      [ems_helper] to the dispatcher [ems_fn], on the memory of Dosmem.v and
      the map of Memcheck.v. EmmInv.v has the invariant [Inv]; EmmMap.v,
      EmmAlloc.v, EmmRealloc.v prove the operations, EmmSafe.v and EmmFn.v
      every request, the boot sequence and the steps [ems_step]; EmmSpec.v,
      EmmContext.v and EmmMove.v state the properties, EmmExample.v
      instantiates them and shows faults of the code.
    - Smalloc.v: the small allocator, src/src/base/lib/misc/smalloc.c. A
      pool's node list is a list of [memnode]s with identities for pointers;
      [smalloc], [smalloc_fixed], [smalloc_aligned], [smalloc_topdown],
      [smalloc_aligned_topdown], [smfree], [smrealloc], [smrealloc_aligned],
      [smfree_all], [sminit*] carry the C names. SmallocInv.v has the
      well-formedness invariant [pool_ok] and the abstract heap [allocated];
      SmallocAlloc.v, SmallocPlace.v, SmallocFree.v and SmallocRealloc.v
      prove the operations; SmallocSpec.v states the properties.
    - Pgalloc.v: the page allocator, src/src/base/lib/misc/pgalloc.c, on its
      [int] array.
    - Hlt.v: the table of HLT handlers, src/src/base/core/hlt.c.
    - Xms.v: the XMS driver, src/src/dosext/misc/xms.c and set_a20 of
      src/src/base/misc/hma.c: handles, blocks locked into windows of the
      page allocator, UMBs kept in pools of Smalloc.v, HMA and A20, and the
      dispatcher [xms_control] on the client's registers. XmsInv.v has its
      invariant [xms_ok], which carries a bound on lock counts, XmsSpec.v
      the properties.
    - Pic.v: the two 8259 interrupt controllers,
      src/src/base/dev/pic/i8259.c, i8259_common.c and pic.c. PicSpec.v:
      properties.
    - Dma.v: the two 8237 DMA controllers, src/src/base/dev/dma/dma.c and
      dmaregs.h. DmaSpec.v: properties.
    - Rtc.v: CMOS RAM and real-time clock, src/src/base/dev/misc/cmos.c,
      rtc.c and src/src/include/cmos.h. RtcSpec.v: properties.
    - UmbMap.v: the set-up of UMBs in the XMS driver ([umb_setup] of Xms.v)
      run on the memory map of Memcheck.v.
    - Machine.v: little-endian bytes, computations that may leave by
      longjmp, and the interface of guest memory ([Bus], [BusLaws]).
      SimFlags.v, SimCpu.v, SimAlu.v, SimMem.v and SimExec.v: the CPU
      simulator of src/src/base/emu-i386/simx86 (codegen-sim.c with
      codegen-sim.h, codegen.h, syncpu.h): the lazy flags, the image
      [TheCPU] with the intermediate instructions and their address
      generation, the operations on registers, those on memory (one
      definition per case of [Gen_sim], under the name of the opcode), and
      the loop [Gen_sim]. SimFlagsSpec.v, SimAluSpec.v, SimMulDiv.v,
      SimShift.v, SimMemSpec.v, SimStack.v: properties; SimExample.v: a flat
      memory, instances, and departures from the x86.
    - Marks.v: the marks of translated code,
      src/src/base/emu-i386/simx86/memory.c, with the code fetches of
      codegen.c: maps of marks and block starts per megabyte ([tMpMap]),
      page copies, the cache of fetched pages. MarksInv.v has the maps as
      predicates on addresses ([marked], [starts], [copy_of]) with the
      invariant [marks_ok] and the interface of guest memory ([CodeMem],
      [CodeMemLaws]); MarksQuery.v, MarksPages.v, MarksProt.v, MarksMark.v,
      MarksFetch.v and MarksFind.v prove the operations. Tlb.v: guest memory
      through the cache of unprotected pages, src/src/base/misc/dos2linux.c,
      with the page fault handlers of codegen-sim.c. TlbSpec.v shows that it
      is the memory the marks and the CPU simulator are proved against;
      TlbExample.v instantiates both. TlbTrees.v puts the tree of Trees.v
      behind the page fault handler of the simulator.
    - Fhmap.v: the linked list of src/src/include/ulist.h, with its
      pointers, and the hash map of src/src/base/lib/misc/fhmap.h; [fh_ok]
      says which finite map the buckets hold. Trees.v: the tree of
      translated blocks, src/src/base/emu-i386/simx86/trees.c, with the
      checks for dirty pages of memory.c: nodes and their lists in a store
      of pointers, code buffers as a function from addresses to intermediate
      instructions. TreesLinks.v proves the linker on the invariant [net_ok]
      of links and code; TreesInv.v has the invariant [trees_ok], which ties
      the nodes to the hash map and to the marks; TreesRemove.v, TreesSpec.v
      (ranges), TreesDirty.v (memory and dirty pages) and TreesAdd.v prove
      the operations. MarksRange.v has what these need of the marks.
    - Produce.v: from translated instructions to a block, codegen.c and
      interp.c of the same directory: the peephole optimizer, [ProduceCode],
      [Close] and [DoClose]. ProduceSpec.v and CloseSpec.v prove them
      against [trees_ok]; SimPeephole.v relates the optimizer to the
      operations of SimMem.v. TreesSteps.v: the entry points as requests,
      the states they lead to. TreesExample.v: two blocks made and linked,
      and inputs on which the code fails.
    - Ringbuf.v: ring buffers, the rng_ functions of
      src/src/base/lib/misc/ringbuf.c. RingbufSpec.v: properties. Seqbuf.v:
      the seqbuf_ functions of the same file, with their properties.

    ** Interfaces

    Interfaces.v states what one component promises another as type classes:
    [PageAlloc] with [PageAllocLaws] (used by the XMS driver, implemented by
    pgalloc in Instances.v) and [IrqSink] with [IrqSinkLaws] (used by the
    real-time clock, implemented by the PIC there).  The clients' theorems
    are proved against the classes.

    ** What the theorems show

    - TlbSpec.v: an access through the cache is the access through the page
      table, a write to a protected page runs the handler before its bytes
      change, remapping keeps the cache correct. MarksMark.v: marking and
      unmarking blocks, and that they undo each other; MarksQuery.v,
      MarksFind.v and MarksFetch.v: queries, searches and code fetches. The
      page loops run with fuel for the number of pages, m_findnode for the
      number of words of its range, the walk back to a block start for the
      address.
    - TlbTrees.v: a write of the simulated CPU drops exactly the blocks it
      writes into before the bytes change. TreesSteps.v: the invariant of
      the tree in every reachable state, and that every request completes.
      TreesSpec.v, TreesRemove.v, TreesAdd.v, TreesDirty.v: exactly which
      blocks an invalidation, a fault, a write or a dirty page drops, that
      the block that runs is kept and stopped, which exits are linked.
      ProduceSpec.v and CloseSpec.v: the code, the exits (with their offsets
      and targets) and the tables of a new block, what its exits are linked
      to, and its place in the tree. SimPeephole.v: merged pushes do what
      the pushes do. Fhmap.v: the hash map is a finite map. The loop over a
      range has fuel for its bytes, those over pages for their number, the
      search in a bucket for the entries there are.
    - MemcheckSpec.v: exact effect of a reservation, release undoes
      reservation, the hole search is correct, complete and terminating, the
      e820 table stays sorted. DosmemSpec.v: page-by-page copies equal
      byte-by-byte ones.
    - EmmSpec.v, EmmContext.v, EmmMove.v: every request from boot on is
      safe; a physical page shows the logical page of the table; handle and
      page accounting; mapping, allocation, release, reallocation, save and
      restore, move and exchange of regions.
    - SmallocSpec.v: every entry point against the abstract heap (which
      block appears or disappears, which bytes change, when it may fail),
      safety of arbitrary call sequences, termination of [smfree_all], page
      bounds of [sm_uncommit], and three faults of the code.
    - Pgalloc.v: leftmost fit, exact free, allocation and free cancel,
      largest request, reverse map.
    - Hlt.v: registration takes the leftmost free block, unregistration
      frees exactly that block.
    - XmsSpec.v: safety of request sequences up to the first move that wraps
      32 bits, disjointness of locked windows, allocation, UMBs, block
      moves; and what happens outside the stated bounds.
    - PicSpec.v: the priority rule, safety of arbitrary operation sequences,
      the vector given to the CPU, end of interrupt.
    - DmaSpec.v: termination of a channel's loop, the exact effect of a
      block transfer, the register protocol, and the case that never ends.
    - RtcSpec.v: the calendar, IRQ 8 follows the IRQ flag over arbitrary
      sequences, BCD access, ticks since midnight.
    - UmbMap.v: [umb_setup] terminates and turns the free holes of the map
      into UMB pools.
    - SimFlagsSpec.v: the lazy flags mean six flags of EFLAGS and convert
      both ways. SimAluSpec.v, SimMulDiv.v, SimShift.v: every arithmetic,
      logical, multiply, divide, shift and rotate operation equals the x86
      definition on result, flags and frame, errors included; the conditions
      of Jcc and SETcc mean what they should after a comparison.
      SimMemSpec.v and SimStack.v: string moves and fills, with the wrap of
      a 64K segment, and the stack, over any memory with the interface laws.
    - RingbufSpec.v: the byte buffer refines a bounded double-ended queue
      over arbitrary sequences. Seqbuf.v: a sequential buffer is a queue of
      messages as long as writes leave the slack the code needs.

    ** Not modelled

    - Text output and diagnostics (smdump, debug prints, error notifiers)
      and locking between threads.
    - xms_init, xms_done, pgadone, rtc_init: allocation and registration at
      start-up.
    - In the CPU simulator: the FPU, the rare instructions of Sim_helper,
      loading a selector in protected mode and the lookup of linked blocks
      are parameters; debug output and watchpoints are left out.
    - In the tree of translated blocks: the mutex, statistics and the
      sampling of CollectStat, and prejit threads. Code is that of the
      simulator, the x86 code generator is not modelled. The theorems are
      about blocks below 2^31, where keys do not change sign; calloc and
      mspace_malloc are parameters that return new memory ([calloc_new],
      [malloc_new]). The choice of operations for each instruction
      (InterpOne) and the execution loop are left out, so a request to close
      a block comes with its instructions.
    - The remaining subsystems of the emulator: the other CPU back ends,
      DPMI host, redirector, video, sound, host devices. They are mostly
      system calls, generated code, code emission or context switching, or
      are left for later extensions. *)

From stdpp Require Import base numbers list gmap.
From Stdlib Require Import ZArith Lia.

Local Open Scope Z_scope.

(** ** Functional record update

    [r <| f := v |>] is the C assignment [r->f = v] on a record value and
    [r <| f ::= g |>] is [r->f = g(r->f)].  A record opts in by giving its
    eta-expansion as an [Eta] instance; the setter of each projection is then
    derived during type-class resolution. *)

Class Eta (R : Type) := eta : R -> R.

Class Setter {R T : Type} (proj : R -> T) := upd : (T -> T) -> R -> R.
Arguments upd {R T} proj {_} f r /.

Ltac derive_setter :=
  lazymatch goal with
  | |- @Setter ?R ?T ?proj =>
      let r := fresh "r" in let f := fresh "f" in
      let e := constr:(_ : Eta R) in
      let e := eval red in e in
      refine (fun f r => _);
      let b := eval cbv beta in (e r) in
      let b := eval pattern (proj r) in b in
      lazymatch b with
      | ?g (proj r) => let res := eval cbv beta in (g (f (proj r))) in exact res
      end
  end.

#[export] Hint Extern 1 (Setter _) => derive_setter : typeclass_instances.

Declare Scope dosemu_scope.
Delimit Scope dosemu_scope with dosemu.

Notation "r <| p := v |>" := (upd p (fun _ => v) r)
  (at level 1, p at level 9, left associativity) : dosemu_scope.
Notation "r <| p ::= f |>" := (upd p f r)
  (at level 1, p at level 9, left associativity) : dosemu_scope.

(** ** Machine-width integers

    A C integer of width [w] is a [Z]; every store into it goes through one of
    these truncations, so wrap-around is explicit in the models. *)

Definition u8 (x : Z) : Z := x mod 2 ^ 8.
Definition u16 (x : Z) : Z := x mod 2 ^ 16.
Definition u32 (x : Z) : Z := x mod 2 ^ 32.
Definition u64 (x : Z) : Z := x mod 2 ^ 64.
Definition i32 (x : Z) : Z := (x + 2 ^ 31) mod 2 ^ 32 - 2 ^ 31.

(** [!x] and the truth value of a C integer. *)
Definition truth (x : Z) : bool := negb (x =? 0).
Definition of_bool (b : bool) : Z := if b then 1 else 0.

(** Complement of a [w]-bit mask: [~x] truncated to [w] bits. *)
Definition not8 (x : Z) : Z := u8 (Z.lnot x).
Definition not64 (x : Z) : Z := u64 (Z.lnot x).

(** Parts of a 32-bit client register. *)
Definition LWORD (r : Z) : Z := r mod 2 ^ 16.
Definition HI (r : Z) : Z := (r / 2 ^ 8) mod 2 ^ 8.
Definition LO (r : Z) : Z := r mod 2 ^ 8.
Definition set_LWORD (v r : Z) : Z := r - r mod 2 ^ 16 + u16 v.
Definition set_LO (v r : Z) : Z := r - r mod 2 ^ 8 + u8 v.
Definition set_HI (v r : Z) : Z := r - r mod 2 ^ 16 + u8 v * 2 ^ 8 + r mod 2 ^ 8.

(** ** Faults and the state monad

    [Fault] is what the C program does when an [assert] fails, a dangling
    pointer is used, an array is indexed out of bounds, a divisor is 0, the emulator is left
    ([leavedos]), or (for loops run with fuel) when the fuel is exhausted. *)

Inductive fault := AssertFailed | BadPointer | OutOfBounds | DivisionByZero | LeaveDos | OutOfFuel.

Inductive result (A : Type) :=
| Ok (a : A)
| Fault (e : fault).
Arguments Ok {A} a.
Arguments Fault {A} e.

Definition rbind {A B} (r : result A) (k : A -> result B) : result B :=
  match r with Ok a => k a | Fault e => Fault e end.

Definition M (S A : Type) : Type := S -> result (A * S).

Section monad.
Context {S : Type}.

Definition ret {A} (a : A) : M S A := fun s => Ok (a, s).
Definition bind {A B} (c : M S A) (k : A -> M S B) : M S B :=
  fun s => match c s with Ok (a, s') => k a s' | Fault e => Fault e end.
Definition get : M S S := fun s => Ok (s, s).
Definition gets {A} (f : S -> A) : M S A := fun s => Ok (f s, s).
Definition modify (f : S -> S) : M S unit := fun s => Ok (tt, f s).
Definition throw {A} (e : fault) : M S A := fun _ => Fault e.
Definition assert (b : bool) : M S unit := if b then ret tt else throw AssertFailed.

(** Total correctness: [c] started in [s] does not fault and ends in [Q]. *)
Definition wp {A} (c : M S A) (s : S) (Q : A -> S -> Prop) : Prop :=
  match c s with Ok (a, s') => Q a s' | Fault _ => False end.

Lemma wp_ret {A} (a : A) s (Q : A -> S -> Prop) : Q a s -> wp (ret a) s Q.
Proof. auto. Qed.

Lemma wp_bind {A B} (c : M S A) (k : A -> M S B) s (Q : B -> S -> Prop) :
  wp c s (fun a s' => wp (k a) s' Q) -> wp (bind c k) s Q.
Proof. unfold wp, bind. destruct (c s) as [[a s']|e]; auto. Qed.

Lemma wp_get s (Q : S -> S -> Prop) : Q s s -> wp get s Q.
Proof. auto. Qed.

Lemma wp_gets {A} (f : S -> A) s (Q : A -> S -> Prop) : Q (f s) s -> wp (gets f) s Q.
Proof. auto. Qed.

Lemma wp_modify f s (Q : unit -> S -> Prop) : Q tt (f s) -> wp (modify f) s Q.
Proof. auto. Qed.

Lemma wp_assert b s (Q : unit -> S -> Prop) : b = true -> Q tt s -> wp (assert b) s Q.
Proof. intros ->. auto. Qed.

Lemma wp_mono {A} (c : M S A) s (Q Q' : A -> S -> Prop) :
  wp c s Q -> (forall a s', Q a s' -> Q' a s') -> wp c s Q'.
Proof. unfold wp. destruct (c s) as [[a s']|e]; auto. Qed.

Lemma wp_inv {A} (c : M S A) s (Q : A -> S -> Prop) :
  wp c s Q -> exists a s', c s = Ok (a, s') /\ Q a s'.
Proof. unfold wp. destruct (c s) as [[a s']|e]; [eauto|done]. Qed.

Lemma wp_intro {A} (c : M S A) s a s' (Q : A -> S -> Prop) :
  c s = Ok (a, s') -> Q a s' -> wp c s Q.
Proof. unfold wp. intros ->. auto. Qed.

(** Add what is known of the result from the equation itself. *)
Lemma wp_with_eq {A} (c : M S A) s (Q : A -> S -> Prop) :
  wp c s Q -> wp c s (fun a s' => Q a s' /\ c s = Ok (a, s')).
Proof. unfold wp. destruct (c s) as [[a s']|e]; auto. Qed.

Lemma wp_both {A} (c : M S A) s (Q Q' : A -> S -> Prop) :
  wp c s Q -> wp c s Q' -> wp c s (fun a s' => Q a s' /\ Q' a s').
Proof. unfold wp. destruct (c s) as [[a s']|e]; auto. Qed.

(** An observation of a run; evaluating it does not build the final state. *)
Definition outcome {A B} (f : A -> S -> B) (c : M S A) (s : S) : option B :=
  match c s with Ok (a, s') => Some (f a s') | Fault _ => None end.

Lemma outcome_eq {A B} (f : A -> S -> B) (c : M S A) s a s' b :
  c s = Ok (a, s') -> outcome f c s = Some b -> f a s' = b.
Proof. unfold outcome. intros ->. congruence. Qed.

(** A computation on a part of the state. *)
Definition zoom {T A} (part : S -> T) (put : T -> S -> S) (c : M T A) : M S A :=
  fun s => match c (part s) with Ok (a, t) => Ok (a, put t s) | Fault e => Fault e end.

(** The state a run ends in, [d] when it faults. *)
Definition final {A} (d : S) (c : M S A) (s : S) : S :=
  match c s with Ok (_, s') => s' | Fault _ => d end.

Lemma final_ok (d : S) (c : M S unit) s (Q : unit -> S -> Prop) :
  wp c s Q -> c s = Ok (tt, final d c s) /\ Q tt (final d c s).
Proof. unfold wp, final. destruct (c s) as [[[] s']|e]; done. Qed.

End monad.

Lemma wp_zoom {S T A} (part : S -> T) (put : T -> S -> S) (c : M T A) s (Q : A -> S -> Prop) :
  wp c (part s) (fun a t => Q a (put t s)) -> wp (zoom part put c) s Q.
Proof. unfold wp, zoom. by destruct (c (part s)) as [[a t]|e]. Qed.

Notation "'let!' x := c 'in' k" := (bind c (fun x => k))
  (at level 10, x pattern, c at level 100, k at level 200)
  : dosemu_scope.
Notation "c ;; k" := (bind c (fun _ => k))
  (at level 100, k at level 200, right associativity) : dosemu_scope.

#[global] Open Scope dosemu_scope.

Create HintDb dosemu.

(** Symbolic execution of the monadic combinators. *)
Ltac wp_step :=
  lazymatch goal with
  | |- wp (bind _ _) _ _ => apply wp_bind
  | |- wp (ret _) _ _ => apply wp_ret
  | |- wp get _ _ => apply wp_get
  | |- wp (gets _) _ _ => apply wp_gets
  | |- wp (modify _) _ _ => apply wp_modify
  | |- wp (assert _) _ _ => apply wp_assert
  end.

(** Case analysis on the integer tests of the code. *)
Ltac zbool :=
  repeat match goal with
  | H : context [?a =? ?b] |- _ => destruct (Z.eqb_spec a b)
  | H : context [?a <? ?b] |- _ => destruct (Z.ltb_spec a b)
  | H : context [?a <=? ?b] |- _ => destruct (Z.leb_spec a b)
  | |- context [?a =? ?b] => destruct (Z.eqb_spec a b)
  | |- context [?a <? ?b] => destruct (Z.ltb_spec a b)
  | |- context [?a <=? ?b] => destruct (Z.leb_spec a b)
  end.

(** ** Loops

    [for (k = i; k < i + n; k++) body(k)], without and with an early exit
    ([Some] leaves the loop). *)

Section loops.
Context {S : Type}.

Fixpoint mfor (n : nat) (i : Z) (body : Z -> M S unit) : M S unit :=
  match n with
  | O => ret tt
  | Datatypes.S n => bind (body i) (fun _ => mfor n (i + 1) body)
  end.

Fixpoint mfor_exit {R} (n : nat) (i : Z) (body : Z -> M S (option R)) : M S (option R) :=
  match n with
  | O => ret None
  | Datatypes.S n =>
      bind (body i) (fun r => match r with Some _ => ret r | None => mfor_exit n (i + 1) body end)
  end.

Lemma wp_mfor (I : Z -> S -> Prop) n i body s (Q : unit -> S -> Prop) :
  I i s ->
  (forall k s, i <= k < i + Z.of_nat n -> I k s -> wp (body k) s (fun _ s' => I (k + 1) s')) ->
  (forall s', I (i + Z.of_nat n) s' -> Q tt s') ->
  wp (mfor n i body) s Q.
Proof.
  revert i s. induction n as [|n IH]; intros i s Hi Hb HQ; simpl.
  - apply wp_ret, HQ. by rewrite Z.add_0_r.
  - apply wp_bind. eapply wp_mono; [apply Hb; [lia|done]|]. intros [] s' H. apply IH; [done| |].
    + intros k s1 Hk. apply Hb. lia.
    + intros s1. replace (i + 1 + Z.of_nat n) with (i + Z.of_nat (Datatypes.S n)) by lia. apply HQ.
Qed.

Lemma wp_mfor_exit {R} (I : Z -> S -> Prop) (E : R -> S -> Prop) n i body s (Q : option R -> S -> Prop) :
  I i s ->
  (forall k s, i <= k < i + Z.of_nat n -> I k s ->
     wp (body k) s (fun r s' => match r with Some x => E x s' | None => I (k + 1) s' end)) ->
  (forall s', I (i + Z.of_nat n) s' -> Q None s') ->
  (forall x s', E x s' -> Q (Some x) s') ->
  wp (mfor_exit n i body) s Q.
Proof.
  intros Hi Hb HQ HE. revert i s Hi Hb HQ. induction n as [|n IH]; intros i s Hi Hb HQ; simpl.
  - apply wp_ret, HQ. by rewrite Z.add_0_r.
  - apply wp_bind. eapply wp_mono; [apply Hb; [lia|done]|]. intros [x|] s' H.
    + apply wp_ret, HE, H.
    + apply IH; [done| |].
      * intros k s1 Hk. apply Hb. lia.
      * intros s1. replace (i + 1 + Z.of_nat n) with (i + Z.of_nat (Datatypes.S n)) by lia. apply HQ.
Qed.

End loops.

(** ** Lemmas on widths *)

Lemma u8_small x : 0 <= x < 2 ^ 8 -> u8 x = x.
Proof. apply Z.mod_small. Qed.
Lemma u16_small x : 0 <= x < 2 ^ 16 -> u16 x = x.
Proof. apply Z.mod_small. Qed.
Lemma u32_small x : 0 <= x < 2 ^ 32 -> u32 x = x.
Proof. apply Z.mod_small. Qed.
Lemma u64_small x : 0 <= x < 2 ^ 64 -> u64 x = x.
Proof. apply Z.mod_small. Qed.
Lemma i32_small x : - 2 ^ 31 <= x < 2 ^ 31 -> i32 x = x.
Proof. intros H. unfold i32. rewrite Z.mod_small; lia. Qed.

Lemma u8_range x : 0 <= u8 x < 2 ^ 8.
Proof. apply Z.mod_pos_bound. lia. Qed.
Lemma u16_range x : 0 <= u16 x < 2 ^ 16.
Proof. apply Z.mod_pos_bound. lia. Qed.
Lemma u32_range x : 0 <= u32 x < 2 ^ 32.
Proof. apply Z.mod_pos_bound. lia. Qed.
Lemma u64_range x : 0 <= u64 x < 2 ^ 64.
Proof. apply Z.mod_pos_bound. lia. Qed.
Lemma i32_range x : - 2 ^ 31 <= i32 x < 2 ^ 31.
Proof. unfold i32. pose proof (Z.mod_pos_bound (x + 2 ^ 31) (2 ^ 32)). lia. Qed.

Lemma LWORD_range r : 0 <= LWORD r < 65536.
Proof. apply Z.mod_pos_bound. lia. Qed.

#[export] Hint Resolve u8_range u16_range u32_range u64_range i32_range : dosemu.

(** A [size_t] difference stored in an [int] is the signed difference. *)
Lemma i32_u64 x : - 2 ^ 31 <= x < 2 ^ 31 -> i32 (u64 x) = x.
Proof.
  intros H. unfold i32, u64.
  rewrite <- Zplus_mod_idemp_l, Z.mod_mod_divide by (exists (2 ^ 32); reflexivity).
  rewrite Zplus_mod_idemp_l, Z.mod_small; lia.
Qed.

Lemma u64_of_i32 x : 0 <= x < 2 ^ 31 -> u64 (i32 x) = x.
Proof. intros H. rewrite i32_small, u64_small; lia. Qed.

(** Remove truncations whose argument is known to be in range. *)
Ltac nowrap :=
  repeat match goal with
  | |- context [i32 (u64 ?x)] => rewrite (i32_u64 x) by lia
  | |- context [u8 ?x] => rewrite (u8_small x) by lia
  | |- context [u16 ?x] => rewrite (u16_small x) by lia
  | |- context [u32 ?x] => rewrite (u32_small x) by lia
  | |- context [u64 ?x] => rewrite (u64_small x) by lia
  | |- context [i32 ?x] => rewrite (i32_small x) by lia
  end.

(** ** Bits *)

Lemma land_ones_range x n : 0 <= n -> 0 <= Z.land x (Z.ones n) < 2 ^ n.
Proof. intros H. rewrite Z.land_ones by done. apply Z.mod_pos_bound. lia. Qed.

Lemma land_le_r x m : 0 <= m -> 0 <= Z.land x m <= m.
Proof.
  intros H. split; [apply Z.land_nonneg; auto|].
  apply Z.ldiff_le; [done|]. apply Z.bits_inj'. intros i Hi.
  rewrite Z.ldiff_spec, Z.land_spec, Z.bits_0.
  destruct (Z.testbit x i), (Z.testbit m i); done.
Qed.

(** ** Decision by exhaustive evaluation over a register's range *)

Definition zrange (n : nat) : list Z := Z.of_nat <$> seq 0 n.

Lemma elem_of_zrange n x : 0 <= x < Z.of_nat n -> In x (zrange n).
Proof.
  intros H. unfold zrange. apply list_elem_of_In, list_elem_of_fmap.
  exists (Z.to_nat x). split; [lia|]. apply elem_of_seq. lia.
Qed.

Definition all_below (n : nat) (P : Z -> bool) : bool := forallb P (zrange n).

Lemma all_below_spec n P x :
  all_below n P = true -> 0 <= x < Z.of_nat n -> P x = true.
Proof.
  intros H Hx. unfold all_below in H. rewrite forallb_forall in H.
  apply H, elem_of_zrange, Hx.
Qed.

(** ** Arrays with C's integer indices

    [aget]/[aset] are [None] out of bounds: the models turn that into the
    fault [OutOfBounds]. *)

Definition aget {A} (l : list A) (i : Z) : option A :=
  if i <? 0 then None else l !! Z.to_nat i.

Definition aset {A} (l : list A) (i : Z) (v : A) : option (list A) :=
  if (0 <=? i) && (i <? Z.of_nat (length l)) then Some (<[Z.to_nat i := v]> l) else None.

(** The store itself, for indices known to be in range. *)
Definition astore {A} (l : list A) (i : Z) (v : A) : list A :=
  if i <? 0 then l else <[Z.to_nat i := v]> l.

Section arrays.
Context {A : Type}.
Implicit Types (l : list A) (i j : Z).

Lemma aget_Some_lt l i x : aget l i = Some x -> 0 <= i < Z.of_nat (length l).
Proof.
  unfold aget. destruct (Z.ltb_spec i 0); [done|]. intros Hl%lookup_lt_Some. lia.
Qed.

Lemma aget_lt l i : 0 <= i < Z.of_nat (length l) -> is_Some (aget l i).
Proof.
  intros H. unfold aget. rewrite (proj2 (Z.ltb_ge i 0)) by lia. apply lookup_lt_is_Some. lia.
Qed.

Lemma aget_None l i : ~ 0 <= i < Z.of_nat (length l) -> aget l i = None.
Proof.
  intros H. unfold aget. destruct (Z.ltb_spec i 0); [done|]. apply lookup_ge_None_2. lia.
Qed.

Lemma aset_lt l i v : 0 <= i < Z.of_nat (length l) -> aset l i v = Some (astore l i v).
Proof.
  intros H. unfold aset, astore. rewrite (proj2 (Z.leb_le 0 i)), (proj2 (Z.ltb_lt i _)),
    (proj2 (Z.ltb_ge i 0)) by lia. done.
Qed.

Lemma astore_length l i v : length (astore l i v) = length l.
Proof. unfold astore. destruct (i <? 0); [done|]. apply length_insert. Qed.

Lemma aget_astore l i v j :
  0 <= i < Z.of_nat (length l) -> aget (astore l i v) j = if j =? i then Some v else aget l j.
Proof.
  intros H. unfold aget, astore. rewrite (proj2 (Z.ltb_ge i 0)) by lia.
  destruct (Z.eqb_spec j i) as [->|Hne].
  - rewrite (proj2 (Z.ltb_ge i 0)) by lia. apply list_lookup_insert_eq. lia.
  - destruct (Z.ltb_spec j 0); [done|]. apply list_lookup_insert_ne. lia.
Qed.

Lemma astore_astore l i v w : astore (astore l i v) i w = astore l i w.
Proof. unfold astore. destruct (i <? 0); [done|]. apply list_insert_insert_eq. Qed.

Lemma aget_ext l l' : (forall i, aget l i = aget l' i) -> l = l'.
Proof.
  intros H. apply list_eq. intros i. specialize (H (Z.of_nat i)). unfold aget in H.
  rewrite (proj2 (Z.ltb_ge _ 0)), Nat2Z.id in H by lia. done.
Qed.

End arrays.

(** The array after [for (k = i; k < i + n; k++) p[k] = f(k)]. *)
Fixpoint fill {A} (n : nat) (i : Z) (f : Z -> A) (p : list A) : list A :=
  match n with
  | O => p
  | S n => fill n (i + 1) f (astore p i (f i))
  end.

Lemma fill_length {A} n i (f : Z -> A) p : length (fill n i f p) = length p.
Proof. revert i p. induction n as [|n IH]; intros i p; simpl; [done|]. by rewrite IH, astore_length. Qed.

Lemma aget_fill {A} n i (f : Z -> A) p k :
  0 <= i -> i + Z.of_nat n <= Z.of_nat (length p) ->
  aget (fill n i f p) k =
    if (i <=? k) && (k <? i + Z.of_nat n) then Some (f k) else aget p k.
Proof.
  revert i p. induction n as [|n IH]; intros i p Hi Hn; simpl.
  { destruct (Z.leb_spec i k), (Z.ltb_spec k (i + Z.of_nat 0)); simpl; try done; lia. }
  rewrite IH by (rewrite ?astore_length; lia). rewrite aget_astore by lia.
  destruct (Z.leb_spec i k), (Z.leb_spec (i + 1) k), (Z.eqb_spec k i),
    (Z.ltb_spec k (i + 1 + Z.of_nat n)), (Z.ltb_spec k (i + Z.of_nat (S n)));
    simpl; subst; try done; lia.
Qed.

Lemma fill_ext {A} n i (f g : Z -> A) p :
  (forall k, i <= k < i + Z.of_nat n -> f k = g k) -> fill n i f p = fill n i g p.
Proof.
  revert i p. induction n as [|n IH]; intros i p H; simpl; [done|].
  rewrite (H i) by lia. apply IH. intros k Hk. apply H. lia.
Qed.

(** ** Sums over arrays *)

Definition zsum {A} (f : A -> Z) (l : list A) : Z := foldr (fun x acc => f x + acc) 0 l.

Lemma zsum_insert {A} (f : A -> Z) (l : list A) (i : nat) (x y : A) :
  l !! i = Some x -> zsum f (<[i := y]> l) = zsum f l - f x + f y.
Proof.
  revert i. induction l as [|z l IH]; intros [|i] H; simpl in *; [done|done| |].
  - injection H as ->. lia.
  - rewrite (IH i) by done. lia.
Qed.

Lemma zsum_astore {A} (f : A -> Z) (l : list A) (i : Z) (x y : A) :
  aget l i = Some x -> zsum f (astore l i y) = zsum f l - f x + f y.
Proof.
  unfold aget, astore. destruct (i <? 0); [done|]. apply zsum_insert.
Qed.

Lemma zsum_nonneg {A} (f : A -> Z) (l : list A) : (forall x, 0 <= f x) -> 0 <= zsum f l.
Proof. intros H. induction l as [|x l IH]; simpl; [lia|]. specialize (H x). lia. Qed.

Lemma zsum_elem {A} (f : A -> Z) (l : list A) (i : Z) (x : A) :
  (forall y, 0 <= f y) -> aget l i = Some x -> f x <= zsum f l.
Proof.
  intros H. unfold aget. destruct (i <? 0); [done|]. generalize (Z.to_nat i).
  induction l as [|z l IH]; intros [|n] E; simpl in *; try done.
  - injection E as ->. pose proof (zsum_nonneg f l H). lia.
  - specialize (IH n E). specialize (H z). lia.
Qed.

(** ** 8-bit registers *)

Definition byte (x : Z) : Prop := 0 <= x < 256.

Lemma byte_u8 x : byte (u8 x).
Proof. apply u8_range. Qed.

Lemma byte_land x y : byte x -> byte (Z.land x y).
Proof. intros [H1 H2]. rewrite Z.land_comm. pose proof (land_le_r y x H1). unfold byte. lia. Qed.

Lemma byte_land_r x y : byte y -> byte (Z.land x y).
Proof. rewrite Z.land_comm. apply byte_land. Qed.

Lemma byte_248 : byte 248.
Proof. by split. Qed.

Lemma land7_range x : 0 <= Z.land x 7 < 8.
Proof. pose proof (land_le_r x 7). lia. Qed.

Lemma land7_mod x : Z.land x 7 = x mod 8.
Proof. change 7 with (Z.ones 3). by rewrite Z.land_ones. Qed.

#[export] Hint Resolve byte_u8 byte_248 byte_land byte_land_r land7_range : dosemu.

(** A test of one bit, as the code writes it. *)
Lemma land_shiftl_bit x i : 0 <= i -> truth (Z.land x (Z.shiftl 1 i)) = Z.testbit x i.
Proof.
  intros Hi. unfold truth. destruct (Z.eqb_spec (Z.land x (Z.shiftl 1 i)) 0) as [E|E]; simpl.
  - assert (Z.testbit (Z.land x (Z.shiftl 1 i)) i = false) as H by (rewrite E; apply Z.bits_0).
    rewrite Z.land_spec, Z.shiftl_spec, Z.sub_diag in H by lia. by destruct (Z.testbit x i).
  - destruct (Z.testbit x i) eqn:Hb; [done|]. exfalso. apply E. apply Z.bits_inj'. intros j Hj.
    rewrite Z.land_spec, Z.shiftl_spec, Z.bits_0 by lia.
    destruct (Z.eq_dec j i) as [->|Hne]; [by rewrite Hb|].
    replace (Z.testbit 1 (j - i)) with false; [apply andb_false_r|].
    symmetry. destruct (Z.lt_ge_cases j i); [apply Z.testbit_neg_r; lia|].
    apply (Z.bits_above_log2 1); simpl; lia.
Qed.

Lemma testbit_u8 x i : 0 <= i < 8 -> Z.testbit (u8 x) i = Z.testbit x i.
Proof. intros H. unfold u8. apply Z.mod_pow2_bits_low. lia. Qed.

Lemma testbit_bit i j : 0 <= i -> 0 <= j -> Z.testbit (Z.shiftl 1 i) j = (j =? i).
Proof.
  intros Hi Hj. rewrite Z.shiftl_spec by lia. destruct (Z.eqb_spec j i) as [->|Hne].
  - by rewrite Z.sub_diag.
  - destruct (Z.lt_ge_cases j i); [apply Z.testbit_neg_r; lia|].
    apply (Z.bits_above_log2 1); simpl; lia.
Qed.

Lemma testbit_set x i j : 0 <= i < 8 -> 0 <= j < 8 ->
  Z.testbit (u8 (Z.lor x (Z.shiftl 1 i))) j = (j =? i) || Z.testbit x j.
Proof. intros Hi Hj. rewrite testbit_u8, Z.lor_spec, testbit_bit by lia. by destruct (j =? i), (Z.testbit x j). Qed.

Lemma testbit_clear x i j : 0 <= i < 8 -> 0 <= j < 8 ->
  Z.testbit (u8 (Z.land x (Z.lnot (Z.shiftl 1 i)))) j = negb (j =? i) && Z.testbit x j.
Proof.
  intros Hi Hj. rewrite testbit_u8, Z.land_spec, Z.lnot_spec, testbit_bit by lia.
  by destruct (j =? i), (Z.testbit x j).
Qed.

Lemma byte_zero_bits x : byte x -> (forall i, 0 <= i < 8 -> Z.testbit x i = false) -> x = 0.
Proof.
  intros Hx H. apply Z.bits_inj'. intros i Hi. rewrite Z.bits_0.
  destruct (Z.lt_ge_cases i 8); [by apply H|].
  destruct (Z.eq_dec x 0) as [->|]; [apply Z.bits_0|].
  apply Z.bits_above_log2; [unfold byte in Hx; lia|].
  assert (Z.log2 x < 8); [|lia]. apply Z.log2_lt_pow2; unfold byte in Hx; lia.
Qed.
