(* ===== verification/Memcheck.v ===== *)
(** * The map of the first megabyte (src/src/base/init/memcheck.c)

    One type letter per kilobyte of DOS memory, 0 for an unused one; the
    reservations made by the drivers, the table of memory regions handed to
    the BIOS (e820), and the search for holes from which UMBs are made. *)

From stdpp Require Import base numbers list strings.
From Stdlib Require Import ZArith Lia.
From S2P Require Import Prelude.

Local Open Scope Z_scope.

Definition GRAN_SIZE : Z := 1024.
Definition MAX_PAGE : Z := 1024.

(** ASCII codes of the map types. *)
Definition ch_d : Z := 100.
Definition ch_r : Z := 114.
Definition ch_b : Z := 98.
Definition ch_h : Z := 104.
Definition ch_v : Z := 118.
Definition ch_e : Z := 101.
Definition ch_R : Z := 82.
Definition ch_U : Z := 85.
Definition ch_X : Z := 88.
Definition ch_H : Z := 72.
Definition ch_E : Z := 69.

(** [struct system_memory_map]: the high words are always 0. *)
Record e820_entry := MkE820 { e_base : Z; e_length : Z; e_type : Z }.

Record memcheck := MkMemcheck {
  mem_map : list Z;                    (* [MAX_PAGE] *)
  mem_names : list (option string);    (* [256] *)
  system_memory_map : list e820_entry;
  exitearly : bool;                    (* config.exitearly *)
  types_added : bool;                  (* once, of memcheck_type_init *)
  protected : list (Z * Z);            (* mprotect_mapping calls *)
}.
#[export] Instance eta_memcheck : Eta memcheck :=
  fun s => MkMemcheck s.(mem_map) s.(mem_names) s.(system_memory_map) s.(exitearly)
    s.(types_added) s.(protected).

Definition blank_memcheck : memcheck :=
  MkMemcheck (replicate 1024 0) (replicate 256 None) [] false false [].

Abbreviation C := (M memcheck).

(** An [int] or [unsigned] array access of the map. *)
Definition map_at (cntr : Z) : C Z := fun s =>
  match aget (mem_map s) cntr with Some c => Ok (c, s) | None => Fault OutOfBounds end.

Definition round_addr (a : Z) : Z := u32 (u32 (a + GRAN_SIZE - 1) / GRAN_SIZE * GRAN_SIZE).

Definition memcheck_addtype (map_char : Z) (name : string) : C Z :=
  let! s := get in
  match aget (mem_names s) map_char with
  | None => throw OutOfBounds
  | Some (Some old) =>
      if negb (String.eqb old name) then modify (fun s => s <| exitearly := true |>) ;; ret 0
      else ret 0
  | Some None => modify (fun s => s <| mem_names ::= fun l => astore l map_char (Some name) |>) ;; ret 0
  end.

Fixpoint map_reserve_loop (n : nat) (first cntr map_char : Z) : C Z :=
  match n with
  | O => ret 0
  | S n =>
      let! c := map_at cntr in
      if truth c then
        if negb (cntr =? first) then modify (fun s => s <| exitearly := true |>) ;; ret (-2)
        else if c =? map_char then ret (-2)
        else ret (-1)
      else
        modify (fun s => s <| mem_map ::= fun l => astore l cntr map_char |>) ;;
        map_reserve_loop n first (cntr + 1) map_char
  end.

(** First page and number of pages of [cntr < addr_end / GRAN_SIZE && cntr < MAX_PAGE]. *)
Definition first_page (addr_start : Z) : Z := addr_start / GRAN_SIZE.
Definition end_page (addr_start size : Z) : Z := round_addr (u32 (addr_start + size)) / GRAN_SIZE.

Definition memcheck_map_reserve (map_char addr_start size : Z) : C Z :=
  map_reserve_loop (Z.to_nat (Z.min (end_page addr_start size) MAX_PAGE - first_page addr_start))
    (first_page addr_start) (first_page addr_start) map_char.

(** [memmove] of the entries from the first one above, then the store. *)
Fixpoint e820_insert (e : e820_entry) (l : list e820_entry) : list e820_entry :=
  match l with
  | [] => [e]
  | x :: l => if e_base e <? e_base x then e :: x :: l else x :: e820_insert e l
  end.

Definition memcheck_e820_reserve (addr_start size : Z) (reserved : bool) : C unit :=
  modify (fun s => s <| system_memory_map ::=
    e820_insert (MkE820 addr_start size (of_bool reserved + 1)) |>).

Definition LOWMEM_SIZE : Z := 1048576.

Definition memcheck_is_rom (addr : Z) : C bool :=
  if LOWMEM_SIZE <=? addr then ret false
  else let! c := map_at (addr / GRAN_SIZE) in ret (c =? ch_R).

Definition memcheck_is_hardware_ram (addr : Z) : C bool :=
  if LOWMEM_SIZE <=? addr then ret false
  else let! c := map_at (addr / GRAN_SIZE) in ret ((c =? ch_e) || (c =? ch_v) || (c =? ch_h)).

Definition memcheck_is_system_ram (addr : Z) : C bool :=
  let! rom := memcheck_is_rom addr in
  if rom : bool then ret false
  else let! hw := memcheck_is_hardware_ram addr in ret (negb hw).

Definition memcheck_reserve (map_char addr_start size : Z) : C unit :=
  let! err := memcheck_map_reserve map_char addr_start size in
  if truth err then
    if err =? -1 then modify (fun s => s <| exitearly := true |>) else ret tt
  else
    memcheck_e820_reserve addr_start size
      (negb ((map_char =? ch_d) || (map_char =? ch_U) || (map_char =? ch_X) ||
             (map_char =? ch_H) || (map_char =? ch_r))) ;;
    let! rom := memcheck_is_rom addr_start in
    if rom : bool then modify (fun s => s <| protected ::= cons (addr_start, size) |>) else ret tt.

Definition memcheck_map_free (map_char : Z) : C unit :=
  modify (fun s => s <| mem_map ::= fmap (fun c => if c =? map_char then 0 else c) |>).

Definition memcheck_type_init : C unit :=
  let! s := get in
  if types_added s then ret tt
  else
    modify (fun s => s <| types_added := true |>) ;;
    memcheck_addtype ch_d "Base DOS memory (first 640K)" ;;
    memcheck_addtype ch_r "Dosemu reserved area" ;;
    memcheck_addtype ch_b "BIOS" ;;
    memcheck_addtype ch_h "Direct-mapped hardware page frame" ;;
    memcheck_addtype ch_v "Video memory" ;;
    ret tt.

(** The constants come from the configuration and the linked BIOS image. *)
Definition memcheck_init (mem_size lmheap_off lmheap_size bios_start bios_size : Z) : C unit :=
  memcheck_type_init ;;
  memcheck_reserve ch_d 0 (u32 (mem_size * 1024)) ;;
  memcheck_reserve ch_r (983040 + lmheap_off) lmheap_size ;;
  assert (lmheap_off + lmheap_size =? bios_start) ;;
  memcheck_reserve ch_b (983040 + bios_start) bios_size.

Fixpoint isfree_loop (n : nat) (cntr : Z) : C bool :=
  match n with
  | O => ret true
  | S n =>
      let! c := map_at cntr in
      if truth c then ret false else isfree_loop n (cntr + 1)
  end.

Definition memcheck_isfree (addr_start size : Z) : C bool :=
  isfree_loop (Z.to_nat (end_page addr_start size - first_page addr_start)) (first_page addr_start).

Fixpoint is_reserved_loop (n : nat) (cntr map_char : Z) : C bool :=
  match n with
  | O => ret true
  | S n =>
      let! c := map_at cntr in
      if negb (c =? map_char) then ret false else is_reserved_loop n (cntr + 1) map_char
  end.

Definition memcheck_is_reserved (addr_start size map_char : Z) : C bool :=
  is_reserved_loop (Z.to_nat (end_page addr_start size - first_page addr_start))
    (first_page addr_start) map_char.

(** The first used page of [n] pages from [cntr2]. *)
Fixpoint next_used (n : nat) (cntr2 : Z) : C (option Z) :=
  match n with
  | O => ret None
  | S n =>
      let! c := map_at cntr2 in
      if truth c then ret (Some cntr2) else next_used n (cntr2 + 1)
  end.

(** [None] is the return value 0; [Some (start, size)] the new [*start_addr]
    and the size. *)
Fixpoint findhole_loop (fuel : nat) (cntr min_size max_size : Z) : C (option (Z * Z)) :=
  if MAX_PAGE <=? cntr then ret None
  else
    match fuel with
    | O => throw OutOfFuel
    | S fuel =>
        if (MAX_PAGE - cntr) * GRAN_SIZE <? min_size then ret None
        else
          let! c := map_at cntr in
          if truth c then findhole_loop fuel (cntr + 1) min_size max_size
          else
            let end_page := Z.min (cntr + max_size / GRAN_SIZE) MAX_PAGE in
            let! u := next_used (Z.to_nat (end_page - (cntr + 1))) (cntr + 1) in
            match u with
            | Some cntr2 =>
                if min_size <=? (cntr2 - cntr) * GRAN_SIZE
                then ret (Some (cntr * GRAN_SIZE, (cntr2 - cntr) * GRAN_SIZE))
                else findhole_loop fuel (cntr2 + 1) min_size max_size
            | None => findhole_loop fuel (cntr + 1) min_size max_size
            end
    end.

Definition memcheck_findhole (start_addr min_size max_size : Z) : C (option (Z * Z)) :=
  findhole_loop (Z.to_nat MAX_PAGE) (start_addr / GRAN_SIZE) min_size max_size.
