(* ===== verification/MemcheckSpec.v ===== *)
(** * Properties of the memory map

    Reservations mark exactly the free pages of their range and are undone by
    [memcheck_map_free]; a hole that is found is a maximal free range of the
    requested size, and none is missed; the e820 table stays sorted. *)

From stdpp Require Import base numbers list strings sorting.
From Stdlib Require Import ZArith Lia.
From S2P Require Import Prelude Memcheck.

Local Open Scope Z_scope.

(** ** The map as a function of the page number *)

Definition map_ok (s : memcheck) : Prop := length (mem_map s) = 1024%nat.
Definition page (s : memcheck) (i : Z) : Z := default 0 (aget (mem_map s) i).

(** [lo <= i < hi] are all unused. *)
Definition free_range (s : memcheck) (lo hi : Z) : Prop := forall i, lo <= i < hi -> page s i = 0.

Lemma map_ok_range s i : map_ok s -> 0 <= i < MAX_PAGE -> aget (mem_map s) i = Some (page s i).
Proof.
  unfold map_ok, page, MAX_PAGE. intros Hl Hi. destruct (aget_lt (mem_map s) i) as [x Hx]; [lia|].
  by rewrite Hx.
Qed.

Lemma page_out s i : map_ok s -> ~ 0 <= i < MAX_PAGE -> page s i = 0.
Proof. unfold map_ok, page, MAX_PAGE. intros Hl Hi. rewrite aget_None by lia. done. Qed.

Lemma wp_map_at s i (Q : Z -> memcheck -> Prop) :
  map_ok s -> 0 <= i < MAX_PAGE -> Q (page s i) s -> wp (map_at i) s Q.
Proof. intros Hs Hi HQ. unfold wp, map_at. by rewrite (map_ok_range s i). Qed.

Lemma truth_false x : truth x = false <-> x = 0.
Proof. unfold truth. destruct (Z.eqb_spec x 0); simpl; split; auto; lia. Qed.
Lemma truth_true x : truth x = true <-> x <> 0.
Proof. unfold truth. destruct (Z.eqb_spec x 0); simpl; split; auto; lia. Qed.

(** Store one letter over a range. *)
Definition painted (ch lo hi : Z) (s s' : memcheck) : Prop :=
  map_ok s' /\ forall i, page s' i = if (lo <=? i) && (i <? hi) then ch else page s i.

Lemma painted_empty ch lo s : map_ok s -> painted ch lo lo s s.
Proof.
  intros Hs. split; [done|]. intros i. destruct (Z.leb_spec lo i), (Z.ltb_spec i lo); simpl; done || lia.
Qed.

Lemma painted_store ch lo s :
  map_ok s -> 0 <= lo < MAX_PAGE ->
  painted ch lo (lo + 1) s (s <| mem_map ::= fun l => astore l lo ch |>).
Proof.
  unfold map_ok, MAX_PAGE. intros Hs Hlo. split; [unfold map_ok; simpl; by rewrite astore_length|].
  intros i. unfold page; simpl. rewrite aget_astore by lia.
  destruct (Z.eqb_spec i lo), (Z.leb_spec lo i), (Z.ltb_spec i (lo + 1)); simpl; done || lia.
Qed.

Lemma painted_trans ch lo mid hi s1 s2 s3 :
  lo <= mid <= hi -> painted ch lo mid s1 s2 -> painted ch mid hi s2 s3 -> painted ch lo hi s1 s3.
Proof.
  intros Hm [_ H1] [Hs3 H2]. split; [done|]. intros i. rewrite H2, H1.
  destruct (Z.leb_spec mid i), (Z.ltb_spec i hi), (Z.leb_spec lo i), (Z.ltb_spec i mid); simpl; done || lia.
Qed.

Lemma painted_free ch lo hi s s' j k :
  painted ch lo hi s s' -> hi <= j -> free_range s' j k -> free_range s j k.
Proof.
  intros [_ H] Hj Hf i Hi. specialize (Hf i Hi). rewrite H in Hf.
  destruct (Z.leb_spec lo i), (Z.ltb_spec i hi); simpl in Hf; done || lia.
Qed.

Lemma free_range_cons s lo hi :
  page s lo = 0 -> free_range s (lo + 1) hi -> free_range s lo hi.
Proof. intros H0 Hf i Hi. destruct (Z.eq_dec i lo) as [->|]; [done|]. apply Hf. lia. Qed.

(** ** Reservation *)

(** What a reservation of the pages [lo .. hi-1] with letter [ch] answers. *)
Definition reserve_spec (ch lo hi : Z) (s : memcheck) (r : Z) (s' : memcheck) : Prop :=
  (r = 0 /\ free_range s lo hi /\ painted ch lo hi s s' /\ exitearly s' = exitearly s) \/
  (r = -1 /\ lo < hi /\ page s lo <> 0 /\ page s lo <> ch /\ s' = s) \/
  (r = -2 /\ lo < hi /\ page s lo <> 0 /\ page s lo = ch /\ s' = s) \/
  (r = -2 /\ exists j, lo < j < hi /\ free_range s lo j /\ page s j <> 0 /\
     painted ch lo j s s' /\ exitearly s' = true).

Lemma wp_reserve_loop n first cntr ch s :
  map_ok s -> 0 <= first <= cntr -> cntr + Z.of_nat n <= MAX_PAGE ->
  wp (map_reserve_loop n first cntr ch) s (fun r s' =>
    (r = 0 /\ free_range s cntr (cntr + Z.of_nat n) /\
       painted ch cntr (cntr + Z.of_nat n) s s' /\ exitearly s' = exitearly s) \/
    (exists j, cntr <= j < cntr + Z.of_nat n /\ free_range s cntr j /\ page s j <> 0 /\
       painted ch cntr j s s' /\
       ((j <> first /\ r = -2 /\ exitearly s' = true) \/
        (j = first /\ r = (if page s j =? ch then -2 else -1) /\ (cntr = first -> s' = s))))).
Proof.
  revert cntr s. induction n as [|n IH]; intros cntr s Hs Hf Hn; simpl map_reserve_loop.
  { wp_step. left. rewrite Z.add_0_r.
    split; [done|]. split; [intros i; lia|]. split; [by apply painted_empty|done]. }
  wp_step. apply wp_map_at; [done|lia|]. destruct (truth (page s cntr)) eqn:Ht.
  - apply truth_true in Ht. destruct (Z.eqb_spec cntr first) as [->|Hne]; simpl.
    + destruct (page s first =? ch) eqn:He; wp_step; right; exists first; rewrite He;
        (split; [lia|]; split; [intros i; lia|]; split; [done|]; split; [by apply painted_empty|]; auto).
    + repeat wp_step. right. exists cntr. split; [lia|]. split; [intros i; lia|]. split; [done|].
      split; [exact (painted_empty ch cntr s Hs)|auto].
  - apply truth_false in Ht. repeat wp_step.
    pose proof (painted_store ch cntr s Hs ltac:(lia)) as Hp.
    eapply wp_mono; [apply IH; [apply Hp|lia|lia]|]. simpl. intros r s' H.
    replace (cntr + Z.of_nat (S n)) with (cntr + 1 + Z.of_nat n) by lia.
    destruct H as [(-> & Hfree & Hpp & He) | (j & Hj & Hfree & Hu & Hpp & Hr)].
    + left. split; [done|]. split; [|split; [eapply painted_trans; [|exact Hp|exact Hpp]; lia|done]].
      apply free_range_cons; [done|]. eapply painted_free; [exact Hp|lia|done].
    + assert (page s j = page (s <| mem_map ::= fun l => astore l cntr ch |>) j) as Ej.
      { rewrite (proj2 Hp). destruct (Z.leb_spec cntr j), (Z.ltb_spec j (cntr + 1)); simpl; done || lia. }
      right. exists j. split; [lia|]. rewrite Ej.
      split; [apply free_range_cons; [done|]; eapply painted_free; [exact Hp|lia|done]|].
      split; [done|]. split; [eapply painted_trans; [|exact Hp|exact Hpp]; lia|].
      destruct Hr as [(H1 & H2 & H3) | (H1 & H2 & H3)]; [left; auto|lia].
Qed.

(** Pages of a byte range that does not reach the end of the address space. *)
Lemma end_page_eq a size :
  0 <= a -> 0 <= size -> a + size + 1023 < 2 ^ 32 ->
  end_page a size = (a + size + 1023) / 1024.
Proof.
  intros Ha Hs Hw. unfold end_page, round_addr, GRAN_SIZE.
  rewrite (u32_small (a + size)), (u32_small (a + size + 1024 - 1)) by lia.
  pose proof (Z.div_mod (a + size + 1024 - 1) 1024 ltac:(lia)) as E.
  pose proof (Z.mod_pos_bound (a + size + 1024 - 1) 1024 ltac:(lia)).
  rewrite u32_small by lia. rewrite Z.div_mul by lia. f_equal. lia.
Qed.

Definition last_page (a size : Z) : Z := Z.min (end_page a size) MAX_PAGE.

Lemma first_page_nonneg a : 0 <= a -> 0 <= first_page a.
Proof. intros. unfold first_page, GRAN_SIZE. apply Z.div_pos; lia. Qed.

(** Memcheck_map_reserve marks exactly the pages of a free range; on a
    conflict in the first page nothing changes, on a later one the pages
    before it stay marked and the emulator is told to exit. *)
Theorem memcheck_map_reserve_correct ch a size s :
  map_ok s -> 0 <= a -> first_page a <= last_page a size ->
  wp (memcheck_map_reserve ch a size) s
    (reserve_spec ch (first_page a) (last_page a size) s).
Proof.
  intros Hs Ha Hle. unfold memcheck_map_reserve. fold (last_page a size).
  pose proof (first_page_nonneg a Ha) as H0.
  assert (last_page a size <= MAX_PAGE) as Hl by (unfold last_page; lia).
  eapply wp_mono; [apply wp_reserve_loop; [done|lia|lia]|]. intros r s' H.
  replace (first_page a + Z.of_nat (Z.to_nat (last_page a size - first_page a)))
    with (last_page a size) in H by lia.
  unfold reserve_spec. destruct H as [H | (j & Hj & Hf & Hu & Hp & [(H1 & -> & H3) | (-> & -> & H3)])].
  - by left.
  - do 3 right. split; [done|]. exists j. split; [lia|]. auto.
  - rewrite (H3 eq_refl). destruct (Z.eqb_spec (page s (first_page a)) ch).
    + right. right. left. repeat split; auto. lia.
    + right. left. repeat split; auto. lia.
Qed.

(** ** Reserving and freeing *)

(** [s'] differs from [s] only in unused pages that now carry [ch]. *)
Definition claimed (ch : Z) (s s' : memcheck) : Prop :=
  map_ok s' /\ forall i, page s' i = page s i \/ (page s i = 0 /\ page s' i = ch).

Lemma claimed_refl ch s : map_ok s -> claimed ch s s.
Proof. split; auto. Qed.

Lemma claimed_trans ch s1 s2 s3 : claimed ch s1 s2 -> claimed ch s2 s3 -> claimed ch s1 s3.
Proof.
  intros [_ H1] [Hs3 H2]. split; [done|]. intros i.
  destruct (H1 i) as [E1 | [E1 E1']], (H2 i) as [E2 | [E2 E2']];
    rewrite E1, ?E1' in *; rewrite ?E2, ?E2' in *; auto.
Qed.

Lemma painted_claimed ch lo hi s s' : free_range s lo hi -> painted ch lo hi s s' -> claimed ch s s'.
Proof.
  intros Hf [Hs Hp]. split; [done|]. intros i. rewrite Hp.
  destruct (Z.leb_spec lo i), (Z.ltb_spec i hi); simpl; auto.
Qed.

Lemma reserve_claims ch lo hi s r s' :
  map_ok s -> reserve_spec ch lo hi s r s' -> claimed ch s s'.
Proof.
  intros Hs [(_ & Hf & Hp & _) | [(_ & _ & _ & _ & ->) | [(_ & _ & _ & _ & ->) | (_ & j & _ & Hf & _ & Hp & _)]]];
    eauto using claimed_refl, painted_claimed.
Qed.

Fixpoint reserve_all (ch : Z) (l : list (Z * Z)) : C (list Z) :=
  match l with
  | [] => ret []
  | (a, size) :: l =>
      let! r := memcheck_map_reserve ch a size in
      let! rs := reserve_all ch l in
      ret (r :: rs)
  end.

Definition in_map (x : Z * Z) : Prop := 0 <= x.1 /\ first_page x.1 <= last_page x.1 x.2.

Lemma wp_reserve_all ch l s :
  map_ok s -> Forall in_map l -> wp (reserve_all ch l) s (fun _ s' => claimed ch s s').
Proof.
  intros Hs Hl. revert s Hs. induction Hl as [|[a size] l [Ha Hp] _ IH]; intros s Hs; simpl.
  { wp_step. by apply claimed_refl. }
  wp_step. eapply wp_mono; [by apply memcheck_map_reserve_correct|].
  intros r s1 H1%reserve_claims; [|done]. wp_step.
  eapply wp_mono; [apply IH, H1|]. intros rs s2 H2. wp_step. by eapply claimed_trans.
Qed.

(** Freeing a letter undoes every reservation made with it, failed ones
    included, when the letter was not in the map before. *)
Theorem reserve_free_roundtrip ch l s :
  map_ok s -> Forall in_map l -> ~ In ch (mem_map s) ->
  wp (reserve_all ch l ;; memcheck_map_free ch) s (fun _ s' => mem_map s' = mem_map s).
Proof.
  intros Hs Hl Hch. wp_step. eapply wp_mono; [by apply wp_reserve_all|].
  intros _ s1 [Hs1 Hc]. unfold memcheck_map_free. wp_step. simpl.
  assert (forall i x, aget (mem_map s) i = Some x -> x <> ch) as Hne.
  { intros i x Hi ->. apply Hch. unfold aget in Hi. destruct (i <? 0); [done|].
    by apply list_elem_of_lookup_2, list_elem_of_In in Hi. }
  apply list_eq. intros i. rewrite list_lookup_fmap. specialize (Hc (Z.of_nat i)).
  unfold page, aget in Hc. specialize (Hne (Z.of_nat i)). unfold aget in Hne.
  rewrite (proj2 (Z.ltb_ge _ 0)), Nat2Z.id in Hc, Hne by lia.
  unfold map_ok in Hs, Hs1. destruct (mem_map s !! i) as [x|] eqn:E.
  - destruct (lookup_lt_is_Some_2 (mem_map s1) i) as [y Ey].
    { apply lookup_lt_Some in E. lia. }
    specialize (Hne x eq_refl). rewrite Ey in Hc |- *. simpl in *. f_equal.
    destruct (Z.eqb_spec y ch), Hc as [Hc | [Hc Hc']]; congruence.
  - apply lookup_ge_None in E. by rewrite (lookup_ge_None_2 (mem_map s1)) by lia.
Qed.

(** ** Holes *)

(** [k] unused pages from [c], delimited by a used one. *)
Definition hole (s : memcheck) (c k : Z) : Prop :=
  0 <= c /\ 0 < k /\ c + k < MAX_PAGE /\ free_range s c (c + k) /\ page s (c + k) <> 0.

Lemma wp_next_used n lo s :
  map_ok s -> 0 <= lo -> lo + Z.of_nat n <= MAX_PAGE ->
  wp (next_used n lo) s (fun u s' => s' = s /\
    match u with
    | Some j => lo <= j < lo + Z.of_nat n /\ free_range s lo j /\ page s j <> 0
    | None => free_range s lo (lo + Z.of_nat n)
    end).
Proof.
  intros Hs. revert lo. induction n as [|n IH]; intros lo Hlo Hn; simpl next_used.
  { wp_step. split; [done|]. intros i. lia. }
  wp_step. apply wp_map_at; [done|lia|]. destruct (truth (page s lo)) eqn:Ht.
  - wp_step. apply truth_true in Ht. split; [done|]. split; [lia|]. split; [intros i; lia|done].
  - apply truth_false in Ht. eapply wp_mono; [apply IH; lia|]. intros [j|] s' [-> H]; (split; [done|]).
    + destruct H as (H1 & H2 & H3). split; [lia|]. split; [by apply free_range_cons|done].
    + replace (lo + Z.of_nat (S n)) with (lo + 1 + Z.of_nat n) by lia. by apply free_range_cons.
Qed.

(** A hole smaller than the maximum, at or after page [cntr]. *)
Definition wanted (s : memcheck) (cntr min_size max_size c k : Z) : Prop :=
  cntr <= c /\ hole s c k /\ min_size <= k * GRAN_SIZE /\ k < max_size / GRAN_SIZE.

Definition leftmost (s : memcheck) (cntr min_size max_size c : Z) : Prop :=
  forall c' k, wanted s cntr min_size max_size c' k -> c <= c'.

Lemma wanted_skip s cntr cntr' min_size max_size c k :
  (forall k', cntr <= c < cntr' -> ~ wanted s cntr min_size max_size c k') ->
  wanted s cntr min_size max_size c k -> wanted s cntr' min_size max_size c k.
Proof.
  intros Hno H. destruct (Z.lt_ge_cases c cntr').
  - destruct (Hno k); [|done]. destruct H. lia.
  - destruct H as (_ & H). split; [lia|exact H].
Qed.

Lemma hole_unique s c k k' : hole s c k -> hole s c k' -> k = k'.
Proof.
  intros (H1 & H2 & H3 & H4 & H5) (H1' & H2' & H3' & H4' & H5').
  destruct (Z.lt_trichotomy k k') as [|[|]]; [|done|].
  - destruct H5. apply H4'. lia.
  - destruct H5'. apply H4. lia.
Qed.

Lemma wp_findhole_loop fuel cntr min_size max_size s :
  map_ok s -> 0 <= cntr -> MAX_PAGE - cntr <= Z.of_nat fuel ->
  wp (findhole_loop fuel cntr min_size max_size) s (fun r s' => s' = s /\
    match r with
    | Some (a, size) => exists c k, a = c * GRAN_SIZE /\ size = k * GRAN_SIZE /\
        wanted s cntr min_size max_size c k /\ leftmost s cntr min_size max_size c
    | None => forall c k, ~ wanted s cntr min_size max_size c k
    end).
Proof.
  intros Hs. revert cntr. induction fuel as [|fuel IH]; intros cntr Hc Hf; unfold findhole_loop;
    fold findhole_loop; destruct (Z.leb_spec MAX_PAGE cntr); [|lia| |].
  1, 2: wp_step; split; [done|]; intros c k (H1 & (H2 & H3 & H4 & _) & _); lia.
  destruct (Z.ltb_spec ((MAX_PAGE - cntr) * GRAN_SIZE) min_size).
  { wp_step. split; [done|]. intros c k (H1 & (H2 & H3 & H4 & _) & H5 & _). unfold GRAN_SIZE in *. lia. }
  assert (forall cntr', cntr < cntr' ->
    (forall c k, cntr <= c < cntr' -> ~ wanted s cntr min_size max_size c k) ->
    wp (findhole_loop fuel cntr' min_size max_size) s (fun r s' => s' = s /\
      match r with
      | Some (a, size) => exists c k, a = c * GRAN_SIZE /\ size = k * GRAN_SIZE /\
          wanted s cntr min_size max_size c k /\ leftmost s cntr min_size max_size c
      | None => forall c k, ~ wanted s cntr min_size max_size c k
      end)) as Hnext.
  { intros cntr' Hlt Hno. eapply wp_mono; [apply IH; lia|]. intros [[a size]|] s' [-> H1]; (split; [done|]).
    - destruct H1 as (c & k & -> & -> & [Hle H1] & Hleft). exists c, k. do 2 (split; [done|]).
      split; [split; [lia|exact H1]|]. intros c' k' Hw. apply (Hleft c' k').
      eapply wanted_skip; [|exact Hw]. intros k''. apply Hno.
    - intros c k Hw. apply (H1 c k). eapply wanted_skip; [|exact Hw]. intros k'. apply Hno. }
  wp_step. apply wp_map_at; [done|lia|]. destruct (truth (page s cntr)) eqn:Ht.
  { apply truth_true in Ht. apply Hnext; [lia|]. intros c k Hr (_ & (_ & Hk & _ & Hfr & _) & _).
    apply Ht, Hfr. lia. }
  apply truth_false in Ht. set (end_page := Z.min _ _). wp_step.
  assert (end_page <= MAX_PAGE) as Hend by (unfold end_page; lia).
  destruct (Z.le_gt_cases end_page (cntr + 1)) as [Hle|Hgt].
  { replace (Z.to_nat (end_page - (cntr + 1))) with O by lia. simpl. wp_step.
    apply Hnext; [lia|]. intros c k Hr (_ & (_ & Hk & Hin & _) & _ & Hm). unfold end_page in Hle. lia. }
  eapply wp_mono; [apply wp_next_used; [done|lia|lia]|].
  replace (cntr + 1 + Z.of_nat (Z.to_nat (end_page - (cntr + 1)))) with end_page by lia.
  intros [cntr2|] s' [-> Hu].
  - destruct Hu as (Hin & Hfr & Hused).
    assert (hole s cntr (cntr2 - cntr)) as Hh.
    { repeat split; [lia|lia|lia| |]; replace (cntr + (cntr2 - cntr)) with cntr2 by lia; [|done].
      by apply free_range_cons. }
    destruct (Z.leb_spec min_size ((cntr2 - cntr) * GRAN_SIZE)) as [Hm|Hm].
    + wp_step. split; [done|]. exists cntr, (cntr2 - cntr).
      do 2 (split; [done|]). split; [|intros c' k' Hw; apply Hw].
      repeat split; try apply Hh; [lia..|]. unfold end_page in Hin. lia.
    + apply Hnext; [lia|]. intros c k Hr (_ & (H1 & Hk & H2 & H3 & H4) & Hmin & _).
      unfold GRAN_SIZE in *. destruct (Z.eq_dec c cntr2) as [->|Hne]; [apply Hused, H3; lia|].
      assert (c + k <= cntr2); [|nia].
      destruct (Z.le_gt_cases (c + k) cntr2); [done|]. destruct Hused. apply H3. lia.
  - apply Hnext; [lia|]. intros c k Hr (_ & (_ & Hk & H2 & _ & Hx) & _ & Hm).
    assert (c = cntr) as -> by lia. apply Hx.
    apply (free_range_cons s cntr end_page Ht Hu). unfold end_page. lia.
Qed.

(** C29: memcheck_findhole terminates, returns a maximal free range between
    the two sizes after which a used page follows, and answers 0 only when no
    such range starts at or after the given address. *)
Theorem memcheck_findhole_correct start min_size max_size s :
  map_ok s -> 0 <= start ->
  wp (memcheck_findhole start min_size max_size) s (fun r s' => s' = s /\
    match r with
    | Some (a, size) => exists c k, a = c * GRAN_SIZE /\ size = k * GRAN_SIZE /\
        wanted s (first_page start) min_size max_size c k /\ leftmost s (first_page start) min_size max_size c
    | None => forall c k, ~ wanted s (first_page start) min_size max_size c k
    end).
Proof.
  intros Hs Hstart. unfold memcheck_findhole. apply wp_findhole_loop; [done| |].
  - by apply first_page_nonneg.
  - pose proof (first_page_nonneg start Hstart). unfold first_page, MAX_PAGE in *. lia.
Qed.

(** ** The e820 table *)

Definition base_le (x y : e820_entry) : Prop := e_base x <= e_base y.

Lemma e820_insert_perm e l : Permutation (e820_insert e l) (e :: l).
Proof.
  induction l as [|x l IH]; simpl; [done|]. destruct (e_base e <? e_base x); [done|].
  rewrite IH. apply Permutation_swap.
Qed.

Lemma e820_insert_sorted e l : StronglySorted base_le l -> StronglySorted base_le (e820_insert e l).
Proof.
  induction 1 as [|x l Hs IH Hx]; simpl; [by repeat constructor|].
  destruct (Z.ltb_spec (e_base e) (e_base x)).
  - constructor; [by constructor|]. constructor; [unfold base_le; lia|].
    eapply Forall_impl; [exact Hx|]. unfold base_le. simpl. lia.
  - constructor; [done|]. rewrite e820_insert_perm. constructor; [unfold base_le; lia|done].
Qed.

(** [memcheck_e820_reserve] adds one entry and keeps the table sorted by base. *)
Theorem e820_stays_sorted a size reserved s :
  StronglySorted base_le (system_memory_map s) ->
  wp (memcheck_e820_reserve a size reserved) s (fun _ s' =>
    StronglySorted base_le (system_memory_map s') /\
    Permutation (system_memory_map s') (MkE820 a size (of_bool reserved + 1) :: system_memory_map s) /\
    mem_map s' = mem_map s).
Proof.
  intros Hs. unfold memcheck_e820_reserve. wp_step. simpl.
  split; [by apply e820_insert_sorted|]. split; [apply e820_insert_perm|done].
Qed.

(** ** The theorems at a start-up map: 640K of DOS memory and a BIOS at F000 *)

Definition ex_map : memcheck := final blank_memcheck (memcheck_init 640 32768 16384 49152 16384) blank_memcheck.

Lemma ex_map_ok : map_ok ex_map.
Proof. unfold map_ok. vm_compute. reflexivity. Qed.

Lemma memcheck_map_reserve_correct_witness :
  wp (memcheck_map_reserve ch_X 851968 65536) ex_map
    (reserve_spec ch_X (first_page 851968) (last_page 851968 65536) ex_map).
Proof. apply memcheck_map_reserve_correct; [apply ex_map_ok|lia|vm_compute; discriminate]. Defined.

Lemma reserve_free_roundtrip_witness :
  wp (reserve_all ch_U [(917504, 32768); (851968, 16384)] ;; memcheck_map_free ch_U) ex_map
    (fun _ s' => mem_map s' = mem_map ex_map).
Proof.
  apply reserve_free_roundtrip.
  - apply ex_map_ok.
  - constructor; [split; [simpl; lia|vm_compute; discriminate]|].
    constructor; [split; [simpl; lia|vm_compute; discriminate]|constructor].
  - rewrite <- list_elem_of_In. apply (bool_decide_unpack (ch_U ∉ mem_map ex_map)). vm_compute. exact I.
Defined.

Lemma memcheck_findhole_correct_witness :
  wp (memcheck_findhole 655360 1024 1048576) ex_map (fun r s' => s' = ex_map /\
    match r with
    | Some (a, size) => exists c k, a = c * GRAN_SIZE /\ size = k * GRAN_SIZE /\
        wanted ex_map (first_page 655360) 1024 1048576 c k /\ leftmost ex_map (first_page 655360) 1024 1048576 c
    | None => forall c k, ~ wanted ex_map (first_page 655360) 1024 1048576 c k
    end).
Proof. apply memcheck_findhole_correct; [apply ex_map_ok|lia]. Defined.

Lemma e820_stays_sorted_witness :
  wp (memcheck_e820_reserve 786432 65536 true) ex_map (fun _ s' =>
    StronglySorted base_le (system_memory_map s') /\
    Permutation (system_memory_map s') (MkE820 786432 65536 (of_bool true + 1) :: system_memory_map ex_map) /\
    mem_map s' = mem_map ex_map).
Proof. apply e820_stays_sorted. vm_compute. repeat constructor; discriminate. Defined.
