(* ===== verification/Dosmem.v ===== *)
(** * DOS memory as the drivers see it (src/src/base/lib/mapping/mapping.c,
    src/src/base/misc/dos2linux.c, the stack macros of src/src/include/cpu.h,
    fake_call and fake_retf of src/src/base/core/int.c)

    The first megabyte and the HMA are a table of 4K pages, each an address in
    host memory; several pages may be the same host page, which is how
    expanded memory appears in the page frame.  Host memory is one byte per
    address.  What lies above the table, and the emulated VGA windows, are an
    environment. *)

From stdpp Require Import base numbers list.
From Stdlib Require Import ZArith Lia.
From S2P Require Import Prelude.

Local Open Scope Z_scope.

Definition PAGE_SIZE : Z := 4096.
Definition ALIAS_SIZE : Z := 1114112.    (* LOWMEM_SIZE + HMASIZE *)

Record dosmem := MkDosmem {
  host : Z -> Z;                 (* one byte per host address *)
  lowmem_aliasmap : Z -> Z;      (* host address of each page below ALIAS_SIZE *)
}.
#[export] Instance eta_dosmem : Eta dosmem :=
  fun d => MkDosmem d.(host) d.(lowmem_aliasmap).

Record mem_env := MkMemEnv {
  lowmem_base : Z;
  above_alias : Z -> Z;          (* dosaddr_to_unixaddr from ALIAS_SIZE on *)
  vga_read_access : Z -> bool;
  vga_write_access : Z -> bool;
  memcpy_from_vga : Z -> Z -> Z -> dosmem -> dosmem;
  memcpy_to_vga : Z -> Z -> Z -> dosmem -> dosmem;
  vga_memcpy : Z -> Z -> Z -> dosmem -> dosmem;
  memcpy_dos_from_vga : Z -> Z -> Z -> dosmem -> dosmem;
  memcpy_dos_to_vga : Z -> Z -> Z -> dosmem -> dosmem;
}.

(** Client registers of a real-mode call. *)
Record vm86_regs := MkVm86 {
  eax : Z; ebx : Z; ecx : Z; edx : Z; esi : Z; edi : Z; esp : Z;
  ds : Z; es : Z; ss : Z; cs : Z;
  eip : Z;
  cf : bool;
}.
#[export] Instance eta_vm86 : Eta vm86_regs :=
  fun r => MkVm86 r.(eax) r.(ebx) r.(ecx) r.(edx) r.(esi) r.(edi) r.(esp)
    r.(ds) r.(es) r.(ss) r.(cs) r.(eip) r.(cf).

Definition SEGOFF2LINEAR (seg off : Z) : Z := u32 (seg * 16 + off).
Definition FP_SEG16 (fp : Z) : Z := fp / 65536.
Definition FP_OFF16 (fp : Z) : Z := fp mod 65536.

(** ** Host memory *)

Definition hwrite (p v : Z) (d : dosmem) : dosmem :=
  d <| host ::= fun h q => if q =? p then u8 v else h q |>.

Definition hword (d : dosmem) (p : Z) : Z := host d p + 256 * host d (p + 1).
Definition hdword (d : dosmem) (p : Z) : Z := hword d p + 65536 * hword d (p + 2).
Definition hwrite_word (p v : Z) (d : dosmem) : dosmem := hwrite (p + 1) (v / 256) (hwrite p v d).

(** [memmove(dest, src, n)] *)
Definition hmove (dest src n : Z) (d : dosmem) : dosmem :=
  d <| host ::= fun h p => if (dest <=? p) && (p <? dest + n) then h (src + (p - dest)) else h p |>.

(** ** Pages *)

(** [update_aliasmap], the effect of [alias_mapping] on the page table. *)
Definition update_aliasmap (dosaddr mapsize unixaddr : Z) (d : dosmem) : dosmem :=
  if ALIAS_SIZE <=? dosaddr then d
  else d <| lowmem_aliasmap ::= fun m pg =>
    let i := pg - dosaddr / PAGE_SIZE in
    if (0 <=? i) && (i <? mapsize / PAGE_SIZE) then unixaddr + i * PAGE_SIZE else m pg |>.

Section env.
Context (env : mem_env).

Definition LOWMEM (addr : Z) : Z := lowmem_base env + addr.

Definition dosaddr_to_unixaddr (d : dosmem) (addr : Z) : Z :=
  if addr <? ALIAS_SIZE then lowmem_aliasmap d (addr / PAGE_SIZE) + addr mod PAGE_SIZE
  else above_alias env addr.

Abbreviation LINEAR2UNIX := dosaddr_to_unixaddr.

Definition MK_FP32 (d : dosmem) (seg off : Z) : Z := LINEAR2UNIX d (SEGOFF2LINEAR seg off).

Definition READ_BYTE (d : dosmem) (addr : Z) : Z := host d (LINEAR2UNIX d addr).
Definition WRITE_BYTE (addr v : Z) (d : dosmem) : dosmem := hwrite (LINEAR2UNIX d addr) v d.
Definition READ_WORD (d : dosmem) (addr : Z) : Z := hword d (LINEAR2UNIX d addr).

(** ** The client's stack *)

Definition pushw (base ptr val : Z) (d : dosmem) : Z * dosmem :=
  let ptr := u16 (ptr - 1) in
  let d := WRITE_BYTE (u32 (base + ptr)) (val / 256) d in
  let ptr := u16 (ptr - 1) in
  (ptr, WRITE_BYTE (u32 (base + ptr)) val d).

Definition popw (base ptr : Z) (d : dosmem) : Z * Z :=
  let res0 := READ_BYTE d (u32 (base + ptr)) in
  let ptr := u16 (ptr + 1) in
  let res1 := READ_BYTE d (u32 (base + ptr)) in
  let ptr := u16 (ptr + 1) in
  (res1 * 256 + res0, ptr).

Definition fake_call (c ip : Z) (x : vm86_regs * dosmem) : vm86_regs * dosmem :=
  let '(r, d) := x in
  let ssp := SEGOFF2LINEAR (ss r) 0 in
  let '(sp, d) := pushw ssp (LWORD (esp r)) c d in
  let '(sp, d) := pushw ssp sp ip d in
  (r <| esp := set_LWORD (LWORD (esp r) - 4) (esp r) |>, d).

Definition fake_call_to (c ip : Z) (x : vm86_regs * dosmem) : vm86_regs * dosmem :=
  let '(r, d) := fake_call (cs (fst x)) (LWORD (eip (fst x))) x in
  (r <| cs := c |> <| eip := ip |>, d).

Definition fake_retf (x : vm86_regs * dosmem) : vm86_regs * dosmem :=
  let '(r, d) := x in
  let ssp := SEGOFF2LINEAR (ss r) 0 in
  let '(ip, sp) := popw ssp (LWORD (esp r)) d in
  let '(c, sp) := popw ssp sp d in
  (r <| eip := set_LWORD ip (eip r) |> <| cs := c |>
     <| esp := set_LWORD (LWORD (esp r) + 4) (esp r) |>, d).

(** ** Bulk transfers, page by page *)

(** Bytes to the end of the page. *)
Definition to_bound (addr : Z) : Z := PAGE_SIZE - addr mod PAGE_SIZE.

Fixpoint memcpy_2unix_loop (fuel : nat) (dest src n : Z) (d : dosmem) : dosmem :=
  match fuel with
  | O => d
  | S fuel =>
      if n <=? 0 then d
      else
        let to_copy := Z.min n (to_bound src) in
        memcpy_2unix_loop fuel (dest + to_copy) (u32 (src + to_copy)) (n - to_copy)
          (hmove dest (LINEAR2UNIX d src) to_copy d)
  end.

Definition memcpy_2unix (dest src n : Z) (d : dosmem) : dosmem :=
  if vga_read_access env src then memcpy_from_vga env dest src n d
  else memcpy_2unix_loop (Z.to_nat n) dest src n d.

Fixpoint memcpy_2dos_loop (fuel : nat) (dest src n : Z) (d : dosmem) : dosmem :=
  match fuel with
  | O => d
  | S fuel =>
      if n <=? 0 then d
      else
        let to_copy := Z.min n (to_bound dest) in
        memcpy_2dos_loop fuel (u32 (dest + to_copy)) (src + to_copy) (n - to_copy)
          (hmove (LINEAR2UNIX d dest) src to_copy d)
  end.

Definition memcpy_2dos (dest src n : Z) (d : dosmem) : dosmem :=
  if vga_write_access env dest then memcpy_to_vga env dest src n d
  else memcpy_2dos_loop (Z.to_nat n) dest src n d.

Fixpoint memmove_dos2dos_loop (fuel : nat) (dest src n : Z) (d : dosmem) : dosmem :=
  match fuel with
  | O => d
  | S fuel =>
      if n <=? 0 then d
      else
        let to_copy := Z.min n (Z.min (to_bound src) (to_bound dest)) in
        memmove_dos2dos_loop fuel (u32 (dest + to_copy)) (u32 (src + to_copy)) (n - to_copy)
          (hmove (LINEAR2UNIX d dest) (LINEAR2UNIX d src) to_copy d)
  end.

Definition memmove_dos2dos (dest src n : Z) (d : dosmem) : dosmem :=
  if vga_read_access env src then
    if vga_write_access env dest then vga_memcpy env dest src n d
    else memcpy_dos_from_vga env dest src n d
  else if vga_write_access env dest then memcpy_dos_to_vga env dest src n d
  else memmove_dos2dos_loop (Z.to_nat n) dest src n d.

End env.
