(* ===== verification/DosmemSpec.v ===== *)
(** * Properties of the access to DOS memory

    The page-by-page transfers are the byte-by-byte copy of what the client
    sees; a far call pushes what a far return pops. *)

From stdpp Require Import base numbers list.
From Stdlib Require Import ZArith Lia.
From S2P Require Import Prelude Dosmem.

Local Open Scope Z_scope.

Section spec.
Context (env : mem_env).

Abbreviation LINEAR2UNIX := (dosaddr_to_unixaddr env).

Lemma to_bound_pos a : 0 < to_bound a <= PAGE_SIZE.
Proof. unfold to_bound, PAGE_SIZE. pose proof (Z.mod_pos_bound a 4096). lia. Qed.

(** Addresses in one page are contiguous in host memory. *)
Lemma linear_in_page d a j :
  0 <= a -> 0 <= j < to_bound a -> a + j < ALIAS_SIZE -> LINEAR2UNIX d (a + j) = LINEAR2UNIX d a + j.
Proof.
  intros Ha Hj Hlt. unfold dosaddr_to_unixaddr.
  rewrite (proj2 (Z.ltb_lt (a + j) _)), (proj2 (Z.ltb_lt a _)) by lia.
  unfold to_bound, PAGE_SIZE in *. pose proof (Z.div_mod a 4096 ltac:(lia)). pose proof (Z.mod_pos_bound a 4096 ltac:(lia)).
  assert ((a + j) / 4096 = a / 4096) as ->.
  { symmetry. apply (Z.div_unique_pos (a + j) 4096 (a / 4096) (a mod 4096 + j)); lia. }
  assert ((a + j) mod 4096 = a mod 4096 + j) as ->; [|lia].
  symmetry. apply (Z.mod_unique_pos (a + j) 4096 (a / 4096)); lia.
Qed.

(** What one chunk of a copy to the host leaves. *)
Definition copied_to_host (dest src n : Z) (d d' : dosmem) : Prop :=
  lowmem_aliasmap d' = lowmem_aliasmap d /\
  forall p, host d' p = if (dest <=? p) && (p <? dest + n) then READ_BYTE env d (src + (p - dest)) else host d p.

Lemma same_pages d d' a : lowmem_aliasmap d' = lowmem_aliasmap d -> LINEAR2UNIX d' a = LINEAR2UNIX d a.
Proof. intros E. unfold dosaddr_to_unixaddr. by rewrite E. Qed.

Lemma copy_to_host_loop fuel dest src n d :
  n <= Z.of_nat fuel -> 0 <= src -> src + n <= ALIAS_SIZE ->
  (forall k, 0 <= k < n -> ~ dest <= LINEAR2UNIX d (src + k) < dest + n) ->
  copied_to_host dest src n d (memcpy_2unix_loop env fuel dest src n d).
Proof.
  revert dest src n d. induction fuel as [|fuel IH]; intros dest src n d Hf Hs Hn Hdis.
  { split; [done|]. intros p. simpl. destruct (Z.leb_spec dest p), (Z.ltb_spec p (dest + n)); simpl; done || lia. }
  simpl. destruct (Z.leb_spec n 0).
  { split; [done|]. intros p. destruct (Z.leb_spec dest p), (Z.ltb_spec p (dest + n)); simpl; done || lia. }
  set (c := Z.min n (to_bound src)). pose proof (to_bound_pos src) as Hb.
  set (d1 := hmove dest (LINEAR2UNIX d src) c d).
  assert (0 < c <= n) as Hc by (unfold c; lia). assert (c <= to_bound src) as Hc' by (unfold c; lia).
  rewrite u32_small by (unfold ALIAS_SIZE in Hn; lia).
  assert (forall a, LINEAR2UNIX d1 a = LINEAR2UNIX d a) as Hpg by (intros a; by apply same_pages).
  assert (forall k, 0 <= k < n -> READ_BYTE env d1 (src + k) = READ_BYTE env d (src + k)) as Hrd.
  { intros k Hk. unfold READ_BYTE. rewrite Hpg. unfold d1. simpl. specialize (Hdis k Hk).
    destruct (Z.leb_spec dest (LINEAR2UNIX d (src + k))), (Z.ltb_spec (LINEAR2UNIX d (src + k)) (dest + c)); simpl; done || lia. }
  destruct (IH (dest + c) (src + c) (n - c) d1) as [E1 E2]; [lia|lia|lia| |].
  { intros k Hk. rewrite Hpg. replace (src + c + k) with (src + (c + k)) by lia. specialize (Hdis (c + k) ltac:(lia)). lia. }
  split; [done|]. intros p. rewrite E2. replace (dest + c + (n - c)) with (dest + n) by lia.
  destruct (Z.leb_spec (dest + c) p), (Z.ltb_spec p (dest + n)), (Z.leb_spec dest p); simpl; try lia; try done.
  - replace (src + c + (p - (dest + c))) with (src + (p - dest)) by lia. apply Hrd. lia.
  - unfold d1. simpl. rewrite (proj2 (Z.leb_le dest p)), (proj2 (Z.ltb_ge p (dest + c))) by lia. done.
  - unfold d1. simpl. rewrite (proj2 (Z.leb_le dest p)), (proj2 (Z.ltb_lt p (dest + c))) by lia. simpl.
    unfold READ_BYTE. by rewrite linear_in_page by lia.
  - unfold d1. simpl. rewrite (proj2 (Z.leb_gt dest p)) by lia. done.
Qed.

(** The page-by-page copy from DOS memory equals the byte-by-byte read through
    the page table. *)
Theorem memcpy_2unix_correct dest src n d :
  0 <= src -> src + n <= ALIAS_SIZE -> vga_read_access env src = false ->
  (forall k, 0 <= k < n -> ~ dest <= LINEAR2UNIX d (src + k) < dest + n) ->
  copied_to_host dest src n d (memcpy_2unix env dest src n d).
Proof.
  intros Hs Hn Hv Hdis. unfold memcpy_2unix. rewrite Hv. apply copy_to_host_loop; try done. lia.
Qed.

(** A copy from the host, seen through the page table. *)
Definition copied_to_dos (dest src n : Z) (d d' : dosmem) : Prop :=
  lowmem_aliasmap d' = lowmem_aliasmap d /\
  (forall k, 0 <= k < n -> READ_BYTE env d' (dest + k) = host d (src + k)) /\
  (forall p, (forall k, 0 <= k < n -> LINEAR2UNIX d (dest + k) <> p) -> host d' p = host d p).

Lemma copy_to_dos_loop fuel dest src n d :
  n <= Z.of_nat fuel -> 0 <= dest -> dest + n <= ALIAS_SIZE ->
  (forall k, 0 <= k < n -> ~ src <= LINEAR2UNIX d (dest + k) < src + n) ->
  (forall j k, 0 <= j < n -> 0 <= k < n -> LINEAR2UNIX d (dest + j) = LINEAR2UNIX d (dest + k) -> j = k) ->
  copied_to_dos dest src n d (memcpy_2dos_loop env fuel dest src n d).
Proof.
  revert dest src n d. induction fuel as [|fuel IH]; intros dest src n d Hf Hd Hn Hdis Hinj.
  { split; [done|]. split; [intros k; lia|done]. }
  simpl. destruct (Z.leb_spec n 0); [split; [done|]; split; [intros k; lia|done]|].
  set (c := Z.min n (to_bound dest)). pose proof (to_bound_pos dest) as Hb.
  set (d1 := hmove (LINEAR2UNIX d dest) src c d).
  assert (0 < c <= n) as Hc by (unfold c; lia). assert (c <= to_bound dest) as Hc' by (unfold c; lia).
  rewrite u32_small by (unfold ALIAS_SIZE in Hn; lia).
  assert (forall a, LINEAR2UNIX d1 a = LINEAR2UNIX d a) as Hpg by (intros a; by apply same_pages).
  assert (forall k, 0 <= k < c -> LINEAR2UNIX d (dest + k) = LINEAR2UNIX d dest + k) as Hlin
    by (intros k Hk; apply linear_in_page; lia).
  assert (forall p, (forall k, 0 <= k < c -> LINEAR2UNIX d (dest + k) <> p) -> host d1 p = host d p) as Hout.
  { intros p Hp. unfold d1. simpl.
    destruct (Z.leb_spec (LINEAR2UNIX d dest) p), (Z.ltb_spec p (LINEAR2UNIX d dest + c)); simpl; try done.
    exfalso. apply (Hp (p - LINEAR2UNIX d dest)); [lia|]. rewrite Hlin by lia. lia. }
  destruct (IH (dest + c) (src + c) (n - c) d1) as (E1 & E2 & E3); [lia|lia|lia| | |].
  { intros k Hk. rewrite Hpg. replace (dest + c + k) with (dest + (c + k)) by lia. specialize (Hdis (c + k) ltac:(lia)). lia. }
  { intros j k Hj Hk. rewrite !Hpg. replace (dest + c + j) with (dest + (c + j)) by lia.
    replace (dest + c + k) with (dest + (c + k)) by lia. intros E%Hinj; lia. }
  split; [done|]. split.
  - intros k Hk. destruct (Z.lt_ge_cases k c) as [Hlt|Hge].
    + unfold READ_BYTE. rewrite (same_pages d1 _ _ E1), Hpg. rewrite E3.
      * rewrite Hlin by lia. unfold d1. simpl.
        rewrite (proj2 (Z.leb_le _ _)), (proj2 (Z.ltb_lt _ _)) by lia. simpl. f_equal. lia.
      * intros j Hj. rewrite Hpg. replace (dest + c + j) with (dest + (c + j)) by lia. intros E%Hinj; lia.
    + replace (dest + k) with (dest + c + (k - c)) by lia. rewrite E2 by lia.
      replace (src + c + (k - c)) with (src + k) by lia. apply Hout. intros j Hj E.
      specialize (Hdis j ltac:(lia)). lia.
  - intros p Hp. rewrite E3; [apply Hout; intros k Hk; apply Hp; lia|].
    intros k Hk. rewrite Hpg. replace (dest + c + k) with (dest + (c + k)) by lia. apply Hp. lia.
Qed.

(** The page-by-page copy to DOS memory equals the byte-by-byte copy
    through the page table, also when the pages are not contiguous in host
    memory. *)
Theorem memcpy_2dos_correct dest src n d :
  0 <= dest -> dest + n <= ALIAS_SIZE -> vga_write_access env dest = false ->
  (forall k, 0 <= k < n -> ~ src <= LINEAR2UNIX d (dest + k) < src + n) ->
  (forall j k, 0 <= j < n -> 0 <= k < n -> LINEAR2UNIX d (dest + j) = LINEAR2UNIX d (dest + k) -> j = k) ->
  copied_to_dos dest src n d (memcpy_2dos env dest src n d).
Proof.
  intros Hd Hn Hv Hdis Hinj. unfold memcpy_2dos. rewrite Hv. apply copy_to_dos_loop; try done. lia.
Qed.

End spec.

(** ** The transfers through a page table with one remapped page *)

Definition ex_mem_env : mem_env :=
  MkMemEnv 268435456 (fun a => a) (fun _ => false) (fun _ => false) (fun _ _ _ d => d) (fun _ _ _ d => d)
    (fun _ _ _ d => d) (fun _ _ _ d => d) (fun _ _ _ d => d).

(** Page 2 of DOS memory shows the host page at 0x20000000. *)
Definition ex_dosmem : dosmem :=
  update_aliasmap 8192 4096 536870912
    (MkDosmem (fun p => p mod 251) (fun pg => 268435456 + pg * PAGE_SIZE)).

(** Where three pages from 4096 on are: none of it near [lo .. lo + n - 1]. *)
Lemma ex_pages k : 0 <= k < 12288 ->
  dosaddr_to_unixaddr ex_mem_env ex_dosmem (4096 + k) =
    if (4096 <=? k) && (k <? 8192) then 536870912 + (k - 4096) else 268435456 + 4096 + k.
Proof.
  intros Hk. unfold dosaddr_to_unixaddr, ex_dosmem, update_aliasmap. simpl.
  rewrite (proj2 (Z.ltb_lt _ _)) by (unfold ALIAS_SIZE; lia). simpl.
  unfold PAGE_SIZE. pose proof (Z.div_mod (4096 + k) 4096 ltac:(lia)). pose proof (Z.mod_pos_bound (4096 + k) 4096 ltac:(lia)).
  change (8192 / 4096) with 2. change (4096 / 4096) with 1.
  destruct (Z.leb_spec 4096 k), (Z.ltb_spec k 8192), (Z.leb_spec 0 ((4096 + k) / 4096 - 2)),
    (Z.ltb_spec ((4096 + k) / 4096 - 2) 1); simpl; lia.
Qed.

Lemma memcpy_2unix_correct_witness :
  copied_to_host ex_mem_env 805306368 4196 9000 ex_dosmem
    (memcpy_2unix ex_mem_env 805306368 4196 9000 ex_dosmem).
Proof.
  apply memcpy_2unix_correct; [lia|unfold ALIAS_SIZE; lia|reflexivity|].
  intros k Hk. replace (4196 + k) with (4096 + (100 + k)) by lia. rewrite ex_pages by lia.
  destruct (_ && _); lia.
Defined.

Lemma memcpy_2dos_correct_witness :
  copied_to_dos ex_mem_env 4196 805306368 9000 ex_dosmem
    (memcpy_2dos ex_mem_env 4196 805306368 9000 ex_dosmem).
Proof.
  apply memcpy_2dos_correct; [lia|unfold ALIAS_SIZE; lia|reflexivity| |].
  - intros k Hk. replace (4196 + k) with (4096 + (100 + k)) by lia. rewrite ex_pages by lia.
    destruct (_ && _); lia.
  - intros j k Hj Hk. replace (4196 + j) with (4096 + (100 + j)) by lia.
    replace (4196 + k) with (4096 + (100 + k)) by lia. rewrite !ex_pages by lia.
    destruct (Z.leb_spec 4096 (100 + j)), (Z.ltb_spec (100 + j) 8192),
      (Z.leb_spec 4096 (100 + k)), (Z.ltb_spec (100 + k) 8192); simpl; lia.
Defined.
