(* ===== verification/Emm.v ===== *)
(** * The EMS driver (src/src/dosext/misc/emm.c)

    Expanded memory to the LIM 4.0 specification: handles that own 16K logical
    pages (an object in host memory each), the table [emm_map] of physical
    pages in the page frame and in conventional memory, the mapping contexts
    saved by the clients, and the dispatcher [ems_fn] of INT 67h.

    A mapped physical page is an alias in the page table of [Dosmem], so a
    client that touches the frame reaches the bytes of the object.  The mapping
    layer is an environment that answers from the log of the earlier calls. *)

From stdpp Require Import base numbers list strings.
From Stdlib Require Import ZArith Lia.
From S2P Require Import Prelude Memcheck Dosmem.

Local Open Scope Z_scope.

(** ** Constants *)

Definition MAX_HANDLES : Z := 255.
Definition EMM_PAGE_SIZE : Z := 16384.
Definition EMM_UMA_MAX_PHYS : Z := 12.
Definition EMM_CNV_MAX_PHYS : Z := 24.
Definition EMM_MAX_PHYS : Z := 36.
Definition EMM_MAX_SAVED_PHYS : Z := 4.
Definition NULL_HANDLE : Z := 65535.
Definition NULL_PAGE : Z := 65535.
Definition OS_HANDLE : Z := 0.
Definition EMM_VERS : Z := 64.
Definition EMM_ERROR : Z := -1.

Definition EMM_NO_ERR : Z := 0.
Definition EMM_INV_HAN : Z := 131.
Definition EMM_FUNC_NOSUP : Z := 132.
Definition EMM_OUT_OF_HAN : Z := 133.
Definition EMM_HAVE_SAVED : Z := 134.
Definition EMM_OUT_OF_PHYS : Z := 135.
Definition EMM_OUT_OF_LOG : Z := 136.
Definition EMM_ZERO_PAGES : Z := 137.
Definition EMM_LOG_OUT_RAN : Z := 138.
Definition EMM_ILL_PHYS : Z := 139.
Definition EMM_ALREADY_SAVED : Z := 141.
Definition EMM_NOT_SAVED : Z := 142.
Definition EMM_INVALID_SUB : Z := 143.
Definition EMM_FEAT_NOSUP : Z := 145.
Definition EMM_MOVE_OVLAP : Z := 146.
Definition EMM_MOVE_SIZE : Z := 147.
Definition EMM_MOVE_1MB_LIM : Z := 150.
Definition EMM_MOVE_OVLAPI : Z := 151.
Definition EMM_NOT_FOUND : Z := 160.
Definition EMM_HAN_NO_NAME : Z := 161.
Definition EMM_ARR_CORRUPT : Z := 163.
Definition EMM_DENIED : Z := 164.

(** ** State *)

Record emm_record := MkEmmRecord { handle : Z; logical_page : Z; phys_seg : Z }.
#[export] Instance eta_emm_record : Eta emm_record :=
  fun r => MkEmmRecord r.(handle) r.(logical_page) r.(phys_seg).

Record handle_record := MkHandleRecord {
  active : Z;
  numpages : Z;
  object : Z;                         (* void *, 0 = NULL *)
  name : list Z;                      (* char[9] *)
  saved_mappings_handle : list Z;     (* [EMM_MAX_SAVED_PHYS] *)
  saved_mappings_logical : list Z;
  saved_mapping : Z;
}.
#[export] Instance eta_handle_record : Eta handle_record :=
  fun r => MkHandleRecord r.(active) r.(numpages) r.(object) r.(name)
    r.(saved_mappings_handle) r.(saved_mappings_logical) r.(saved_mapping).

Record ems_config := MkEmsConfig {
  ems_size : Z;                 (* config.ems_size, KB *)
  ems_frame : Z;                (* config.ems_frame, EMM_SEGMENT *)
  ems_uma_pages : Z;
  ems_cnv_pages : Z;
  win3x_RM : bool;              (* win3x_mode == RM *)
  EMSControl_SEG : Z;
  EMSAPMAP_ret_OFF : Z;         (* of hlt_register_handler_vm86 *)
}.

(** Calls into the mapping layer. *)
Inductive ecall :=
| AllocMapping (size : Z) (res : option Z)
| ReallocMapping (optr osize size : Z) (res : option Z)
| FreeMapping (ptr size : Z)
| AliasMapping (targ size src : Z) (ok : bool).

Record ems_env := MkEmsEnv {
  menv : mem_env;
  alloc_mapping : list ecall -> Z -> option Z;              (* None: MAP_FAILED *)
  realloc_mapping : list ecall -> Z -> Z -> Z -> option Z;
  realloc_contents : Z -> Z -> Z -> Z -> dosmem -> dosmem;  (* old ptr, size, new ptr, size *)
  alias_mapping : list ecall -> Z -> Z -> bool;             (* false: -1 *)
  malloc_garbage : Z -> list (Z * Z);                       (* an array2 that was not filled *)
}.

Record emm := MkEmm {
  handle_total : Z;
  emm_allocated : Z;
  phys_pages : Z;
  emm_map : list emm_record;            (* [EMM_MAX_PHYS] *)
  handle_info : list handle_record;     (* [MAX_HANDLES] *)
  os_inuse : bool;
  os_allow : bool;
  save_es : Z;
  save_di : Z;
  emm_error : Z;
  rg : vm86_regs;
  mem : dosmem;
  mc : memcheck;
  elog : list ecall;
}.
#[export] Instance eta_emm : Eta emm :=
  fun s => MkEmm s.(handle_total) s.(emm_allocated) s.(phys_pages) s.(emm_map) s.(handle_info)
    s.(os_inuse) s.(os_allow) s.(save_es) s.(save_di) s.(emm_error) s.(rg) s.(mem) s.(mc) s.(elog).

Definition os_key1 : Z := 65518.
Definition os_key2 : Z := 56780.

(** [CLEAR_HANDLE_NAME] *)
Definition CLEAR_HANDLE_NAME : list Z := replicate 9 0.
(** ["SYSTEM  "] *)
Definition system_name : list Z := [83; 89; 83; 84; 69; 77; 32; 32; 0].

Definition blank_handle : handle_record :=
  MkHandleRecord 0 0 0 CLEAR_HANDLE_NAME (replicate 4 0) (replicate 4 0) 0.

(** Static storage at program start. *)
Definition blank_emm (r : vm86_regs) (d : dosmem) (c : memcheck) : emm :=
  MkEmm 0 0 0 (replicate 36 (MkEmmRecord 0 0 0)) (replicate 255 blank_handle)
    false true 0 0 0 r d c [].

Section emm.
Context (config : ems_config) (env : ems_env).
Abbreviation E := (M emm).

Definition EMM_TOTAL : Z := Z.shiftr (ems_size config) 4 + ems_cnv_pages config.
Definition saved_phys_pages : Z := Z.min (ems_uma_pages config) EMM_MAX_SAVED_PHYS.
Definition cnv_start_seg : Z := 40960 - 1024 * ems_cnv_pages config.
Definition cnv_pages_start : Z := ems_uma_pages config.
Definition EMM_SEGMENT : Z := ems_frame config.
Definition PAGE_MAP_SIZE (np : Z) : Z := 4 * np.
Definition PART_PAGE_MAP_SIZE (np : Z) : Z := 6 * np.

(** ** Access to the state *)

Definition get_map (i : Z) : E emm_record := fun s =>
  match aget (emm_map s) i with Some x => Ok (x, s) | None => Fault OutOfBounds end.

Definition upd_map (i : Z) (f : emm_record -> emm_record) : E unit := fun s =>
  match aget (emm_map s) i with
  | Some x => Ok (tt, s <| emm_map ::= fun l => astore l i (f x) |>)
  | None => Fault OutOfBounds
  end.

Definition get_info (h : Z) : E handle_record := fun s =>
  match aget (handle_info s) h with Some x => Ok (x, s) | None => Fault OutOfBounds end.

Definition upd_info (h : Z) (f : handle_record -> handle_record) : E unit := fun s =>
  match aget (handle_info s) h with
  | Some x => Ok (tt, s <| handle_info ::= fun l => astore l h (f x) |>)
  | None => Fault OutOfBounds
  end.

(** One element of an array of the model, an index of which is in range. *)
Definition nth_of (l : list Z) (i : Z) : E Z := fun s =>
  match aget l i with Some x => Ok (x, s) | None => Fault OutOfBounds end.

Definition note (c : ecall) : E unit := modify (fun s => s <| elog ::= cons c |>).
Definition set_mem (f : dosmem -> dosmem) : E unit := modify (fun s => s <| mem ::= f |>).
Definition set_regs (f : vm86_regs -> vm86_regs) : E unit := modify (fun s => s <| rg ::= f |>).

Definition on_memcheck {A} (c : M memcheck A) : E A := fun s =>
  match c (mc s) with
  | Ok (a, m) => Ok (a, s <| mc := m |>)
  | Fault e => Fault e
  end.

Definition on_stack (f : vm86_regs * dosmem -> vm86_regs * dosmem) : E unit :=
  modify (fun s => let x := f (rg s, mem s) in s <| rg := fst x |> <| mem := snd x |>).

Definition SETHI_AX (v : Z) : E unit := set_regs (fun r => r <| eax ::= set_HI v |>).
Definition SETLO_AX (v : Z) : E unit := set_regs (fun r => r <| eax ::= set_LO v |>).
Definition SET_BX (v : Z) : E unit := set_regs (fun r => r <| ebx ::= set_LWORD v |>).
Definition SET_CX (v : Z) : E unit := set_regs (fun r => r <| ecx ::= set_LWORD v |>).
Definition SET_DX (v : Z) : E unit := set_regs (fun r => r <| edx ::= set_LWORD v |>).
Definition SET_CF (b : bool) : E unit := set_regs (fun r => r <| cf := b |>).

(** Host memory, through a pointer. *)
Definition rd_word (p : Z) : E Z := gets (fun s => hword (mem s) p).
Definition wr_word (p v : Z) : E unit := set_mem (hwrite_word p v).

(** [Addr(state, seg, reg)] *)
Definition Addr (seg off : vm86_regs -> Z) : E Z :=
  gets (fun s => MK_FP32 (menv env) (mem s) (seg (rg s)) (LWORD (off (rg s)))).

(** ** Memory objects *)

Definition new_memory_object (bytes : Z) : E Z :=
  if negb (truth bytes) then ret 0
  else
    let! s := get in
    let r := alloc_mapping env (elog s) bytes in
    note (AllocMapping bytes r) ;;
    ret (match r with Some p => p | None => 0 end).

Definition destroy_memory_object (obj length : Z) : E unit :=
  if negb (truth obj) then ret tt else note (FreeMapping obj length).

Definition realloc_memory_object (obj oldsize bytes : Z) : E Z :=
  let! s := get in
  let r := realloc_mapping env (elog s) obj oldsize bytes in
  note (ReallocMapping obj oldsize bytes r) ;;
  match r with
  | Some p => set_mem (realloc_contents env obj oldsize p bytes) ;; ret p
  | None => ret 0
  end.

(** ** Mapping of one page *)

Definition alias (targ size src : Z) : E bool :=
  let! s := get in
  let ok := alias_mapping env (elog s) targ src in
  note (AliasMapping targ size src ok) ;;
  (if ok then set_mem (update_aliasmap targ size src) else ret tt) ;;
  ret ok.

Definition do_map_page (dst src size : Z) : E unit :=
  let! ok := alias dst size src in
  if ok : bool then ret tt else throw LeaveDos.

Definition do_unmap_page (base size : Z) : E unit :=
  alias base size (LOWMEM (menv env) base) ;; ret tt.

Definition PHYS_PAGE_ADDR (r : emm_record) : Z := Z.shiftl (phys_seg r) 4.

(** [__map_page]: map again what the table says. *)
Definition map_page_again (physical_page : Z) : E bool :=
  let! s := get in
  if (physical_page <? 0) || (phys_pages s <=? physical_page) then ret false
  else
    let! r := get_map physical_page in
    if handle r =? NULL_HANDLE then ret false
    else
      let! h := get_info (handle r) in
      do_map_page (PHYS_PAGE_ADDR r) (object h + logical_page r * EMM_PAGE_SIZE) EMM_PAGE_SIZE ;;
      ret true.

(** [__unmap_page] *)
Definition unmap_page_only (physical_page : Z) : E bool :=
  let! s := get in
  if (physical_page <? 0) || (phys_pages s <=? physical_page) then ret false
  else
    let! r := get_map physical_page in
    if handle r =? NULL_HANDLE then ret false
    else do_unmap_page (PHYS_PAGE_ADDR r) EMM_PAGE_SIZE ;; ret true.

Definition unmap_page (physical_page : Z) : E bool :=
  let! done := unmap_page_only physical_page in
  if done : bool then
    upd_map physical_page (fun r => r <| handle := NULL_HANDLE |> <| logical_page := NULL_PAGE |>) ;;
    ret true
  else ret false.

Definition reunmap_page (physical_page : Z) : E bool := unmap_page_only physical_page.
Definition remap_page (physical_page : Z) : E bool := map_page_again physical_page.

(** The debug print of the previous handle, which reads [emm_map] before the
    range is checked, is left out as all of them are. *)
Definition map_page (h physical_page logical : Z) : E bool :=
  let! s := get in
  if (physical_page <? 0) || (phys_pages s <=? physical_page) then ret false
  else if h =? NULL_HANDLE then ret false
  else
    let! i := get_info h in
    if numpages i <=? logical then ret false
    else
      let! r := get_map physical_page in
      do_map_page (PHYS_PAGE_ADDR r) (object i + logical * EMM_PAGE_SIZE) EMM_PAGE_SIZE ;;
      upd_map physical_page (fun r => r <| handle := h |> <| logical_page := logical |>) ;;
      ret true.

(** ** Handles *)

(** First inactive handle of [l], the handles from [i] on. *)
Fixpoint first_inactive (l : list handle_record) (i : Z) : option Z :=
  match l with
  | [] => None
  | x :: l => if active x =? 0 then Some i else first_inactive l (i + 1)
  end.

Definition set_error (e : Z) : E Z := modify (fun s => s <| emm_error := e |>) ;; ret EMM_ERROR.

Definition fill_prefix (n : Z) (v : Z) (l : list Z) : list Z := fill (Z.to_nat n) 0 (fun _ => v) l.

Definition emm_allocate_handle (pages_needed : Z) : E Z :=
  let! s := get in
  if MAX_HANDLES <=? handle_total s then set_error EMM_OUT_OF_HAN
  else if EMM_TOTAL <? pages_needed then set_error EMM_OUT_OF_PHYS
  else if EMM_TOTAL - emm_allocated s <? pages_needed then set_error EMM_OUT_OF_LOG
  else
    match first_inactive (drop 1 (handle_info s)) 1 with
    | None => set_error EMM_OUT_OF_HAN
    | Some i =>
        let! obj := new_memory_object (pages_needed * EMM_PAGE_SIZE) in
        if (obj =? 0) && (0 <? pages_needed) then set_error EMM_OUT_OF_LOG
        else
          upd_info i (fun x => x <| object := obj |> <| numpages := pages_needed |>
            <| name := CLEAR_HANDLE_NAME |>) ;;
          modify (fun s => s <| handle_total ::= Z.add 1 |>
            <| emm_allocated ::= Z.add pages_needed |>) ;;
          upd_info i (fun x => x <| saved_mappings_logical ::= fill_prefix saved_phys_pages NULL_PAGE |>
            <| saved_mapping := 0 |> <| active := 1 |>) ;;
          ret i
    end.

Definition emm_deallocate_handle (h : Z) : E unit :=
  let! s := get in
  mfor (Z.to_nat (phys_pages s)) 0 (fun i =>
    let! r := get_map i in
    if handle r =? h then
      unmap_page i ;; upd_map i (fun r => r <| handle := NULL_HANDLE |>)
    else ret tt) ;;
  let! x := get_info h in
  destroy_memory_object (object x) (numpages x * EMM_PAGE_SIZE) ;;
  upd_info h (fun x => x <| numpages := 0 |> <| active := 0 |> <| object := 0 |>) ;;
  (* [i] is [phys_pages] here *)
  upd_info (phys_pages s) (fun x => x <| name := CLEAR_HANDLE_NAME |>) ;;
  modify (fun s => s <| handle_total ::= fun n => n - 1 |>
    <| emm_allocated ::= fun n => n - numpages x |>).

Definition handle_pages (h : Z) : E Z := let! x := get_info h in ret (numpages x).

(** ** Saved page maps *)

Definition emm_save_handle_state (h : Z) : E unit :=
  mfor (Z.to_nat saved_phys_pages) 0 (fun i =>
    let! r := get_map i in
    if negb (handle r =? NULL_HANDLE) then
      upd_info h (fun x => x <| saved_mappings_logical ::= fun l => astore l i (logical_page r) |>
        <| saved_mappings_handle ::= fun l => astore l i (handle r) |>)
    else upd_info h (fun x => x <| saved_mappings_logical ::= fun l => astore l i NULL_PAGE |>)).

Definition emm_restore_handle_state (h : Z) : E unit :=
  mfor (Z.to_nat saved_phys_pages) 0 (fun i =>
    let! x := get_info h in
    let! saved := nth_of (saved_mappings_logical x) i in
    let! saved_handle := nth_of (saved_mappings_handle x) i in
    if negb (saved =? NULL_PAGE) then map_page saved_handle i saved ;; ret tt
    else unmap_page i ;; ret tt).

(** ** Mapping requests *)

Definition handle_active (h : Z) : E bool :=
  if (h <? 0) || (MAX_HANDLES <=? h) then ret false
  else let! x := get_info h in ret (negb (active x =? 0)).

Definition do_map_unmap (h physical_page logical : Z) : E Z :=
  let! s := get in
  if (physical_page <? 0) || (phys_pages s <=? physical_page) then ret EMM_ILL_PHYS
  else if logical =? NULL_PAGE then unmap_page physical_page ;; ret EMM_NO_ERR
  else
    let! ok := handle_active h in
    if negb ok then ret EMM_INV_HAN
    else
      let! x := get_info h in
      if numpages x <=? logical then ret EMM_LOG_OUT_RAN
      else map_page h physical_page logical ;; ret EMM_NO_ERR.

(** First physical page of [l], from [i] on, that holds the segment. *)
Fixpoint seg_to_phys_loop (l : list emm_record) (i segaddr : Z) : Z :=
  match l with
  | [] => -1
  | r :: l =>
      if (phys_seg r <=? segaddr) && (segaddr <? phys_seg r + EMM_PAGE_SIZE / 16) then i
      else seg_to_phys_loop l (i + 1) segaddr
  end.

Definition SEG_TO_PHYS (segaddr : Z) (s : emm) : Z :=
  seg_to_phys_loop (take (Z.to_nat (phys_pages s)) (emm_map s)) 0 segaddr.

Fixpoint emm_map_unmap_multi (array : list (Z * Z)) (h : Z) : E Z :=
  match array with
  | [] => ret EMM_NO_ERR
  | (log, phys) :: array =>
      let! r := do_map_unmap h phys log in
      if negb (r =? EMM_NO_ERR) then ret r else emm_map_unmap_multi array h
  end.

(** [array2] of the page number method: one copy of the client's array. *)
Fixpoint logphys_array (n : nat) (p : Z) (d : dosmem) : list (Z * Z) :=
  match n with
  | O => []
  | S n => (hword d p, hword d (p + 2)) :: logphys_array n (p + 4) d
  end.

(** [array2] of the segment method; [None] when a segment is not mappable. *)
Fixpoint logseg_array (n : nat) (a : Z) (s : emm) : option (list (Z * Z)) :=
  match n with
  | O => Some []
  | S n =>
      let log := READ_WORD (menv env) (mem s) (u32 a) in
      let phys := SEG_TO_PHYS (READ_WORD (menv env) (mem s) (u32 (a + 2))) s in
      if phys =? -1 then None
      else
        match logseg_array n (a + 4) s with
        | Some l => Some ((log, phys) :: l)
        | None => None
        end
  end.

Definition do_map_unmap_multi (method array h map_len : Z) : E Z :=
  let! s := get in
  let n := Z.to_nat map_len in
  if method =? 0 then
    emm_map_unmap_multi (logphys_array n (dosaddr_to_unixaddr (menv env) (mem s) array) (mem s)) h
  else if method =? 1 then
    match logseg_array n array s with
    | None => ret EMM_ILL_PHYS
    | Some l => emm_map_unmap_multi l h
    end
  else emm_map_unmap_multi (take n (malloc_garbage env map_len)) h.

Definition map_unmap_multiple : E unit :=
  let! s := get in
  let h := LWORD (edx (rg s)) in
  let method := LO (eax (rg s)) in
  let! ok := handle_active h in
  if negb ok then SETHI_AX EMM_INV_HAN
  else if (method =? 0) || (method =? 1) then
    let! r := do_map_unmap_multi method
      (SEGOFF2LINEAR (ds (rg s)) (LWORD (esi (rg s)))) h (LWORD (ecx (rg s))) in
    SETHI_AX r
  else SETHI_AX EMM_INVALID_SUB.

(** ** Page map registers *)

Definition get_map_registers (buf pages : Z) : E Z :=
  mfor (Z.to_nat pages) 0 (fun i =>
    let! r := get_map i in
    wr_word (buf + 4 * i) (handle r) ;;
    wr_word (buf + 4 * i + 2) (logical_page r)) ;;
  ret EMM_NO_ERR.

Definition emm_get_map_registers (ptr : Z) : E unit :=
  if negb (truth (ems_size config)) then ret tt
  else
    let! s := get in
    get_map_registers ptr (phys_pages s) ;; ret tt.

Definition set_map_registers (buf pages : Z) : E Z :=
  let! e := mfor_exit (Z.to_nat pages) 0 (fun i =>
    let! h := rd_word (buf + 4 * i) in
    if MAX_HANDLES <=? h then ret (Some EMM_INV_HAN)
    else
      let! x := get_info h in
      if active x =? 0 then ret (Some EMM_INV_HAN)
      else
        let! logical := rd_word (buf + 4 * i + 2) in
        (if negb (logical =? NULL_PAGE) then map_page h i logical else unmap_page i) ;;
        ret None) in
  ret (default EMM_NO_ERR e).

Definition emm_set_map_registers (ptr : Z) : E Z :=
  if negb (truth (ems_size config)) then ret EMM_NO_ERR
  else
    let! s := get in
    set_map_registers ptr (phys_pages s).

Definition emm_get_partial_map_registers (ptr segs : Z) : E Z :=
  if negb (truth (ems_size config)) then ret EMM_NO_ERR
  else
    let! pages := rd_word segs in
    wr_word ptr pages ;;
    let! e := mfor_exit (Z.to_nat pages) 0 (fun i =>
      let! seg := rd_word (segs + 2 + 2 * i) in
      let! phy := gets (SEG_TO_PHYS seg) in
      if phy =? -1 then ret (Some EMM_ILL_PHYS)
      else
        let! r := get_map phy in
        wr_word (ptr + 2 + 6 * i) (handle r) ;;
        wr_word (ptr + 2 + 6 * i + 2) (logical_page r) ;;
        wr_word (ptr + 2 + 6 * i + 4) phy ;;
        ret None) in
    ret (default EMM_NO_ERR e).

Definition emm_set_partial_map_registers (ptr : Z) : E Z :=
  if negb (truth (ems_size config)) then ret EMM_NO_ERR
  else
    let! pages := rd_word ptr in
    let! e := mfor_exit (Z.to_nat pages) 0 (fun i =>
      let! h := rd_word (ptr + 2 + 6 * i) in
      let! logical := rd_word (ptr + 2 + 6 * i + 2) in
      let! phy := rd_word (ptr + 2 + 6 * i + 4) in
      if MAX_HANDLES <=? h then ret (Some EMM_ARR_CORRUPT)
      else
        let! x := get_info h in
        if active x =? 0 then ret (Some EMM_INV_HAN)
        else
          (if negb (logical =? NULL_PAGE) then map_page h phy logical else unmap_page phy) ;;
          ret None) in
    ret (default EMM_NO_ERR e).

Definition emm_get_size_for_partial_page_map (pages : Z) (s : emm) : Z :=
  if negb (truth (ems_size config)) || (pages <? 0) || (phys_pages s <? pages) then -1
  else 2 + PART_PAGE_MAP_SIZE pages.

Definition partial_map_registers : E unit :=
  let! s := get in
  let sub := LO (eax (rg s)) in
  if sub =? 0 then
    let! p := Addr es edi in
    let! q := Addr ds esi in
    let! r := emm_get_partial_map_registers p q in SETHI_AX r
  else if sub =? 1 then
    let! q := Addr ds esi in
    let! r := emm_set_partial_map_registers q in SETHI_AX r
  else if sub =? 2 then
    let r := emm_get_size_for_partial_page_map (LWORD (ebx (rg s))) s in
    if r =? -1 then SETHI_AX EMM_ILL_PHYS
    else SETLO_AX r ;; SETHI_AX EMM_NO_ERR
  else SETHI_AX EMM_INVALID_SUB.

(** ** Reallocation *)

(** Give the handle a block of [newcount] pages; the new object, or 0. *)
Definition reallocate_object (h newcount : Z) : E unit :=
  let! x := get_info h in
  if truth newcount && truth (object x) then
    let! obj := realloc_memory_object (object x) (numpages x * EMM_PAGE_SIZE) (newcount * EMM_PAGE_SIZE) in
    if obj =? 0 then SETHI_AX EMM_OUT_OF_LOG
    else upd_info h (fun x => x <| object := obj |> <| numpages := newcount |>) ;; SETHI_AX EMM_NO_ERR
  else if truth (object x) then
    destroy_memory_object (object x) (numpages x * EMM_PAGE_SIZE) ;;
    upd_info h (fun x => x <| object := 0 |> <| numpages := 0 |>) ;;
    SETHI_AX EMM_NO_ERR
  else
    let! obj := if truth newcount then new_memory_object (newcount * EMM_PAGE_SIZE) else ret 0 in
    if obj =? 0 then SETHI_AX EMM_OUT_OF_LOG
    else upd_info h (fun x => x <| object := obj |> <| numpages := newcount |>) ;; SETHI_AX EMM_NO_ERR.

Definition reallocate_pages : E unit :=
  let! s := get in
  let h := LWORD (edx (rg s)) in
  let newcount := LWORD (ebx (rg s)) in
  let! ok := handle_active h in
  if negb ok then SETHI_AX EMM_INV_HAN
  else
    let! x := get_info h in
    if newcount =? numpages x then SETHI_AX EMM_NO_ERR
    else if h =? OS_HANDLE then SETHI_AX EMM_INV_HAN
    else
      let diff := newcount - numpages x in
      if EMM_TOTAL <? emm_allocated s + diff then SETHI_AX EMM_OUT_OF_PHYS
      else
        modify (fun s => s <| emm_allocated ::= Z.add diff |>) ;;
        mfor (Z.to_nat (phys_pages s)) 0 (fun i =>
          let! r := get_map i in
          if handle r =? h then reunmap_page i ;; ret tt else ret tt) ;;
        reallocate_object h newcount ;;
        mfor (Z.to_nat (phys_pages s)) 0 (fun i =>
          let! r := get_map i in
          if handle r =? h then
            if newcount <=? logical_page r then
              upd_map i (fun r => r <| handle := NULL_HANDLE |> <| logical_page := NULL_PAGE |>)
            else remap_page i ;; ret tt
          else ret tt).

(** ** Attributes, names, directory *)

Definition handle_attribute : E unit :=
  let! s := get in
  let sub := LO (eax (rg s)) in
  if sub =? 0 then SETLO_AX 0 ;; SETHI_AX EMM_NO_ERR
  else if sub =? 1 then SETHI_AX EMM_FEAT_NOSUP
  else if sub =? 2 then SETHI_AX EMM_NO_ERR ;; SETLO_AX 0
  else SETHI_AX EMM_INVALID_SUB.

(** Store the bytes [l] at [p], and read [n] bytes from [p]. *)
Fixpoint hwrite_bytes (p : Z) (l : list Z) (d : dosmem) : dosmem :=
  match l with
  | [] => d
  | x :: l => hwrite_bytes (p + 1) l (hwrite p x d)
  end.

Fixpoint hread_bytes (n : nat) (p : Z) (d : dosmem) : list Z :=
  match n with
  | O => []
  | S n => host d p :: hread_bytes n (p + 1) d
  end.

Definition handle_name : E unit :=
  let! s := get in
  let sub := LO (eax (rg s)) in
  let h := LWORD (edx (rg s)) in
  if sub =? 0 then
    let! array := Addr es edi in
    let! ok := handle_active h in
    if negb ok then SETHI_AX EMM_INV_HAN
    else
      upd_info h (fun x => x <| name ::= fun l => astore l 8 0 |>) ;;
      let! x := get_info h in
      set_mem (hwrite_bytes array (take 8 (name x))) ;;
      SETHI_AX EMM_NO_ERR
  else if sub =? 1 then
    let! array := Addr ds esi in
    let! ok := handle_active h in
    if negb ok then SETHI_AX EMM_INV_HAN
    else
      let! s := get in
      upd_info h (fun x => x <| name := hread_bytes 8 array (mem s) ++ [0] |>) ;;
      SETHI_AX EMM_NO_ERR
  else SETHI_AX EMM_INVALID_SUB.

(** [strncmp(name, array, n) == 0] *)
Fixpoint strncmp_eq (n : nat) (l : list Z) (p : Z) (d : dosmem) : bool :=
  match n, l with
  | S n, x :: l => (x =? host d p) && ((x =? 0) || strncmp_eq n l (p + 1) d)
  | _, _ => true
  end.

Fixpoint dir_loop (l : list handle_record) (h count array : Z) (d : dosmem) : Z * dosmem :=
  match l with
  | [] => (count, d)
  | x :: l =>
      if truth (active x) then
        dir_loop l (h + 1) (count + 1) (array + 10)
          (hwrite_bytes (array + 2) (take 8 (name x)) (hwrite_word array h d))
      else dir_loop l (h + 1) count array d
  end.

(** First active handle with that name. *)
Fixpoint search_named (l : list handle_record) (h array : Z) (d : dosmem) : option (Z * handle_record) :=
  match l with
  | [] => None
  | x :: l =>
      if truth (active x) && strncmp_eq 8 (name x) array d then Some (h, x)
      else search_named l (h + 1) array d
  end.

Definition handle_dir : E unit :=
  let! s := get in
  let sub := LO (eax (rg s)) in
  if sub =? 0 then
    let! array := Addr es edi in
    let '(count, d) := dir_loop (handle_info s) 0 0 array (mem s) in
    set_mem (fun _ => d) ;;
    SETHI_AX EMM_NO_ERR ;;
    SETLO_AX count
  else if sub =? 1 then
    let! array := Addr ds esi in
    match search_named (handle_info s) 0 array (mem s) with
    | Some (h, x) =>
        SETHI_AX (if default 0 (head (name x)) =? 0 then EMM_HAN_NO_NAME else EMM_NO_ERR) ;;
        SET_DX h
    | None => SETHI_AX EMM_NOT_FOUND
    end
  else if sub =? 2 then SET_BX MAX_HANDLES ;; SETHI_AX EMM_NO_ERR
  else SETHI_AX EMM_INVALID_SUB.

(** ** Alter page map and jump, or call *)

(** [map_len] and [array] of a [struct alter_map_struct] at [p]. *)
Record alter_map_struct := MkAlterMap { map_len : Z; array : Z }.
Definition read_alter_map (d : dosmem) (p : Z) : alter_map_struct :=
  MkAlterMap (host d p) (hdword d (p + 1)).

Definition alter_map (method h : Z) (a : alter_map_struct) : E Z :=
  do_map_unmap_multi method (SEGOFF2LINEAR (FP_SEG16 (array a)) (FP_OFF16 (array a))) h (map_len a).

Definition alter_map_and_jump : E unit :=
  let! s := get in
  let method := LO (eax (rg s)) in
  if (method =? 0) || (method =? 1) then
    let p := MK_FP32 (menv env) (mem s) (ds (rg s)) (LWORD (esi (rg s))) in
    let jmp_addr := hdword (mem s) p in
    let a := read_alter_map (mem s) (p + 4) in
    let h := LWORD (edx (rg s)) in
    let! ok := handle_active h in
    if negb ok then SETHI_AX EMM_INV_HAN
    else
      let! r := alter_map method h a in
      SETHI_AX r ;;
      if negb (r =? EMM_NO_ERR) then ret tt
      else set_regs (fun r => r <| eip := FP_OFF16 jmp_addr |> <| cs := FP_SEG16 jmp_addr |>)
  else SETHI_AX EMM_INVALID_SUB.

Definition ALTER_STACK_SIZE : Z := 8.
Definition old_map_offset : Z := 9.

(** The four parameters pushed for the return path. *)
Definition push_alter_params (method h : Z) (x : vm86_regs * dosmem) : vm86_regs * dosmem :=
  let '(r, d) := x in
  let ssp := SEGOFF2LINEAR (ss r) 0 in
  let '(sp, d) := pushw (menv env) ssp (LWORD (esp r)) method d in
  let '(sp, d) := pushw (menv env) ssp sp h d in
  let '(sp, d) := pushw (menv env) ssp sp (ds r) d in
  let '(sp, d) := pushw (menv env) ssp sp (LWORD (esi r) + old_map_offset) d in
  (r <| esp := set_LWORD (LWORD (esp r) - ALTER_STACK_SIZE) (esp r) |>, d).

Definition alter_map_and_call : E unit :=
  let! s := get in
  let method := LO (eax (rg s)) in
  if (method =? 0) || (method =? 1) then
    let h := LWORD (edx (rg s)) in
    let p := MK_FP32 (menv env) (mem s) (ds (rg s)) (LWORD (esi (rg s))) in
    let call_addr := hdword (mem s) p in
    let a := read_alter_map (mem s) (p + 4) in
    let! ok := handle_active h in
    if negb ok then SETHI_AX EMM_INV_HAN
    else
      let! r := alter_map method h a in
      SETHI_AX r ;;
      if negb (r =? EMM_NO_ERR) then ret tt
      else
        on_stack (push_alter_params method h) ;;
        on_stack (fake_call_to (menv env) (EMSControl_SEG config) (EMSAPMAP_ret_OFF config)) ;;
        on_stack (fake_call_to (menv env) (FP_SEG16 call_addr) (FP_OFF16 call_addr))
  else if method =? 2 then SET_BX (ALTER_STACK_SIZE + 8) ;; SETHI_AX EMM_NO_ERR
  else SETHI_AX EMM_INVALID_SUB.

(** The HLT handler on the return path of the call. *)
Definition emm_apmap_ret_hlt : E unit :=
  on_stack (fake_retf (menv env)) ;;
  let! s := get in
  let ssp := SEGOFF2LINEAR (ss (rg s)) 0 in
  let '(off, sp) := popw (menv env) ssp (LWORD (esp (rg s))) (mem s) in
  let '(seg, sp) := popw (menv env) ssp sp (mem s) in
  let '(h, sp) := popw (menv env) ssp sp (mem s) in
  let '(method, sp) := popw (menv env) ssp sp (mem s) in
  set_regs (fun r => r <| esp := set_LWORD (LWORD (esp r) + ALTER_STACK_SIZE) (esp r) |>) ;;
  let a := read_alter_map (mem s) (MK_FP32 (menv env) (mem s) seg off) in
  let! r := alter_map method h a in
  SETHI_AX r.

(** ** Move and exchange *)

Record mem_move_struct := MkMove {
  mv_size : Z;               (* int *)
  source_type : Z; source_handle : Z; source_offset : Z; source_segment : Z;
  dest_type : Z; dest_handle : Z; dest_offset : Z; dest_segment : Z;
}.

Definition read_move (d : dosmem) (p : Z) : mem_move_struct :=
  MkMove (i32 (hdword d p))
    (host d (p + 4)) (hword d (p + 5)) (hword d (p + 7)) (hword d (p + 9))
    (host d (p + 11)) (hword d (p + 12)) (hword d (p + 14)) (hword d (p + 16)).

(** The checks on an expanded memory end of a move: its address, or the error. *)
Definition move_end (h segment offset size : Z) : E (Z + Z) :=
  if MAX_HANDLES <=? h then ret (inr EMM_INV_HAN)
  else
    let! x := get_info h in
    if active x =? 0 then ret (inr EMM_INV_HAN)
    else if numpages x <=? segment then ret (inr EMM_LOG_OUT_RAN)
    else
      let p := object x + segment * EMM_PAGE_SIZE + offset in
      if object x + numpages x * EMM_PAGE_SIZE <? p + size then ret (inr EMM_MOVE_SIZE)
      else ret (inl p).

(** A negative [int] is a length of almost 2^64 for memmove and malloc. *)
Definition transfer (size : Z) (f : dosmem -> dosmem) : E unit :=
  if size <? 0 then throw BadPointer else set_mem f.

Definition move_overlap (source dest size : Z) : bool :=
  ((source <? dest) && (dest <? source + size)) || ((dest <=? source) && (source <? dest + size)).

(** [src + size] and [dst + size] are unsigned in conventional memory. *)
Definition conv_overlap (src dst size : Z) : bool :=
  ((src <? dst) && (dst <? u32 (src + size))) || ((dst <=? src) && (src <? u32 (dst + size))).

Definition read_request : E mem_move_struct :=
  gets (fun s => read_move (mem s) (MK_FP32 (menv env) (mem s) (ds (rg s)) (LWORD (esi (rg s))))).

(** The move between two checked ends, [inr] for a conventional address. *)
Definition do_move (source dest : Z + Z) (size : Z) : E bool :=
  match source, dest with
  | inl source, inr dst => transfer size (memcpy_2dos (menv env) dst source size) ;; ret false
  | inr src, inr dst =>
      transfer size (memmove_dos2dos (menv env) dst src size) ;; ret (conv_overlap src dst size)
  | inl source, inl dest => transfer size (hmove dest source size) ;; ret (move_overlap source dest size)
  | inr src, inl dest => transfer size (memcpy_2unix (menv env) dest src size) ;; ret false
  end.

(** An end of a move, [inl (inl host)], [inl (inr linear)] or an error. *)
Definition any_end (type h segment offset size : Z) : E ((Z + Z) + Z) :=
  if type =? 0 then ret (inl (inr (SEGOFF2LINEAR segment offset)))
  else
    let! r := move_end h segment offset size in
    ret (match r with inl p => inl (inl p) | inr e => inr e end).

Definition move_memory_region : E Z :=
  let! m := read_request in
  let size := mv_size m in
  if 1048576 <? size then ret EMM_MOVE_1MB_LIM
  else
    let! source := any_end (source_type m) (source_handle m) (source_segment m) (source_offset m) size in
    match source with
    | inr e => ret e
    | inl source =>
        let! dest := any_end (dest_type m) (dest_handle m) (dest_segment m) (dest_offset m) size in
        match dest with
        | inr e => ret e
        | inl dest =>
            let! overlap := do_move source dest size in
            ret (if overlap : bool then EMM_MOVE_OVLAP else 0)
        end
    end.

(** Conventional ends of an exchange are host pointers. *)
Definition xchng_end (type h segment offset size : Z) : E (Z + Z) :=
  if type =? 0 then let! s := get in ret (inl (MK_FP32 (menv env) (mem s) segment offset))
  else move_end h segment offset size.

(** The three [memmove]s through [tmp]. *)
Definition hswap (source dest n : Z) (d : dosmem) : dosmem :=
  (hmove source dest n d) <| host ::= fun h p =>
    if (dest <=? p) && (p <? dest + n) then host d (source + (p - dest)) else h p |>.

Definition exchange_memory_region : E Z :=
  let! m := read_request in
  let size := mv_size m in
  if 1048576 <? size then ret EMM_MOVE_1MB_LIM
  else
    let! source := xchng_end (source_type m) (source_handle m) (source_segment m) (source_offset m) size in
    match source with
    | inr e => ret e
    | inl source =>
        let! dest := xchng_end (dest_type m) (dest_handle m) (dest_segment m) (dest_offset m) size in
        match dest with
        | inr e => ret e
        | inl dest =>
            if if source <? dest then dest <? source + size else source <? dest + size
            then ret EMM_MOVE_OVLAPI
            else transfer size (hswap source dest size) ;; ret 0
        end
    end.

(** ** Mappable pages, hardware information *)

(** Order of the physical pages in the array of GET_MPA (WINDOWS_HACKS). *)
Definition zseq (lo hi : Z) : list Z := (fun i => lo + Z.of_nat i) <$> seq 0 (Z.to_nat (hi - lo)).

Definition mpa_order (s : emm) : list Z :=
  (if win3x_RM config && (4 <? ems_cnv_pages config) then
     zseq cnv_pages_start (phys_pages s - 4) ++ zseq (phys_pages s - 2) (phys_pages s) ++
     zseq (phys_pages s - 4) (phys_pages s - 2)
   else zseq cnv_pages_start (phys_pages s)) ++ zseq 0 cnv_pages_start.

Fixpoint write_mpa (l : list Z) (ptr : Z) : E unit :=
  match l with
  | [] => ret tt
  | i :: l =>
      let! r := get_map i in
      wr_word ptr (phys_seg r) ;;
      wr_word (ptr + 2) i ;;
      write_mpa l (ptr + 4)
  end.

Definition get_mpa_array : E unit :=
  let! s := get in
  let sub := LO (eax (rg s)) in
  if sub =? 0 then
    let! ptr := Addr es edi in
    write_mpa (mpa_order s) ptr ;;
    SETHI_AX EMM_NO_ERR ;; SET_CX (phys_pages s)
  else if sub =? 1 then SETHI_AX EMM_NO_ERR ;; SET_CX (phys_pages s)
  else SETHI_AX EMM_INVALID_SUB.

Definition get_ems_hardinfo : E unit :=
  let! s := get in
  let sub := LO (eax (rg s)) in
  if os_allow s then
    if sub =? 0 then
      let! ptr := Addr es edi in
      wr_word ptr (16 * 1024 / 16) ;;
      wr_word (ptr + 2) 0 ;;
      wr_word (ptr + 4) (PAGE_MAP_SIZE (phys_pages s)) ;;
      wr_word (ptr + 6) 0 ;;
      wr_word (ptr + 8) 0 ;;
      SETHI_AX EMM_NO_ERR
    else if sub =? 1 then
      SETHI_AX EMM_NO_ERR ;;
      SET_BX (u16 (EMM_TOTAL - emm_allocated s)) ;;
      SET_DX (u16 EMM_TOTAL)
    else SETHI_AX EMM_INVALID_SUB
  else SETHI_AX EMM_DENIED.

Definition allocate_std_pages : E unit :=
  let! s := get in
  let! h := emm_allocate_handle (LWORD (ebx (rg s))) in
  if h =? EMM_ERROR then let! s := get in SETHI_AX (emm_error s)
  else SETHI_AX EMM_NO_ERR ;; SET_DX h.

(** ** Alternate map register sets, operating system access *)

Definition alternate_map_register : E unit :=
  let! s := get in
  let sub := LO (eax (rg s)) in
  let bl := LO (ebx (rg s)) in
  if negb (os_allow s) then SETHI_AX EMM_DENIED
  else if sub =? 0 then
    if truth (save_es s) then
      emm_get_map_registers (MK_FP32 (menv env) (mem s) (save_es s) (save_di s)) ;;
      set_regs (fun r => r <| es := u16 (save_es s) |> <| edi ::= set_LWORD (save_di s) |>) ;;
      SETHI_AX EMM_NO_ERR
    else
      set_regs (fun r => r <| es := 0 |> <| edi ::= set_LWORD 0 |>) ;;
      SETHI_AX EMM_NO_ERR
  else if sub =? 2 then SETHI_AX EMM_NO_ERR ;; SET_DX (PAGE_MAP_SIZE (phys_pages s))
  else if sub =? 3 then SETHI_AX EMM_NO_ERR ;; set_regs (fun r => r <| ebx ::= set_LO 0 |>)
  else if sub =? 5 then SETHI_AX EMM_NO_ERR
  else if truth bl then SETHI_AX EMM_INVALID_SUB
  else if sub =? 1 then
    let! err := (if truth (es (rg s)) then
                   let! p := Addr es edi in emm_set_map_registers p
                 else ret EMM_NO_ERR) in
    SETHI_AX err ;;
    modify (fun s => s <| save_es := es (rg s) |> <| save_di := LWORD (edi (rg s)) |>)
  else if sub =? 4 then SETHI_AX EMM_NO_ERR
  else if (sub =? 6) || (sub =? 7) || (sub =? 8) then
    if 0 <? bl then SETHI_AX EMM_INVALID_SUB else SETHI_AX EMM_NO_ERR
  else SETHI_AX EMM_INVALID_SUB.

Definition has_keys (r : vm86_regs) : bool := (LWORD (ebx r) =? os_key1) && (LWORD (ecx r) =? os_key2).

(** Subfunctions 0 and 1: open or disable the access. *)
Definition os_access (allow : bool) : E unit :=
  let! s := get in
  if os_inuse s then
    if has_keys (rg s) then
      modify (fun s => s <| os_allow := allow |>) ;; SETHI_AX EMM_NO_ERR
    else SETHI_AX EMM_DENIED
  else
    modify (fun s => s <| os_allow := allow |> <| os_inuse := true |>) ;;
    SETHI_AX EMM_NO_ERR ;; SET_BX os_key1 ;; SET_CX os_key2.

Definition os_set_function : E unit :=
  let! s := get in
  let sub := LO (eax (rg s)) in
  if sub =? 0 then os_access true
  else if sub =? 1 then os_access false
  else if sub =? 2 then
    if has_keys (rg s) then
      modify (fun s => s <| os_allow := true |> <| os_inuse := false |>) ;; SETHI_AX EMM_NO_ERR
    else SETHI_AX EMM_DENIED
  else ret tt.

(** ** Reset *)

Definition ems_reset2 : E unit :=
  if negb (truth (ems_size config)) then ret tt
  else
    modify (fun s => s <| emm_allocated := ems_cnv_pages config |>
      <| emm_map ::= fmap (fun r => r <| handle := NULL_HANDLE |> <| logical_page := NULL_PAGE |>) |>
      <| handle_info ::= fmap (fun x => x <| numpages := 0 |> <| active := 0 |>) |>) ;;
    upd_info OS_HANDLE (fun x => x <| numpages := ems_cnv_pages config |>
      <| object := LOWMEM (menv env) (Z.shiftl cnv_start_seg 4) |> <| active := 255 |>
      <| saved_mappings_logical ::= fill_prefix saved_phys_pages NULL_PAGE |>) ;;
    mfor (Z.to_nat (ems_cnv_pages config)) 0 (fun i =>
      upd_map (i + cnv_pages_start) (fun r => r <| handle := OS_HANDLE |> <| logical_page := i |>)) ;;
    modify (fun s => s <| handle_total := 1 |>) ;;
    upd_info OS_HANDLE (fun x => x <| name := system_name |>) ;;
    modify (fun s => s <| phys_pages := 0 |>).

Definition ems_reset : E unit :=
  mfor (Z.to_nat (MAX_HANDLES - 1)) 1 (fun i =>
    let! x := get_info i in
    if truth (active x) then emm_deallocate_handle i else ret tt) ;;
  on_memcheck (memcheck_map_free ch_E) ;;
  ems_reset2.

Definition set_exitearly : E unit := on_memcheck (modify (fun m => m <| exitearly := true |>)).

(** [hlt_register_handler_vm86] is a parameter: its result is [EMSAPMAP_ret_OFF]. *)
Definition ems_init : E unit :=
  if negb (truth (ems_size config)) then ret tt
  else if EMM_UMA_MAX_PHYS <? ems_uma_pages config then set_exitearly
  else if EMM_CNV_MAX_PHYS <? ems_cnv_pages config then set_exitearly
  else
    on_memcheck (memcheck_addtype ch_E "EMS page frame") ;;
    mfor (Z.to_nat (ems_uma_pages config)) 0 (fun i =>
      upd_map i (fun r => r <| phys_seg := u16 (EMM_SEGMENT + 1024 * i) |>) ;;
      let! r := get_map i in
      on_memcheck (memcheck_e820_reserve (PHYS_PAGE_ADDR r) EMM_PAGE_SIZE true)) ;;
    mfor (Z.to_nat (ems_cnv_pages config)) 0 (fun i =>
      upd_map (i + cnv_pages_start) (fun r => r <| phys_seg := u16 (cnv_start_seg + 1024 * i) |>)) ;;
    ems_reset2.

Definition DOSEMU_EMS_DRIVER_MIN_VERSION : Z := 9.

(** The console messages on an old driver are not modelled. *)
Definition ems_helper : E unit :=
  let! s := get in
  if LWORD (ebx (rg s)) =? 0 then
    if negb (truth (ems_size config)) then SET_CF true ;; SET_BX 1
    else if truth (phys_pages s) then SET_CF true ;; SET_BX 4
    else if HI (eax (rg s)) <? DOSEMU_EMS_DRIVER_MIN_VERSION then SET_CF true ;; SET_BX 2
    else
      let! err := mfor_exit (Z.to_nat (ems_uma_pages config)) 0 (fun i =>
        let! r := get_map i in
        let! e := on_memcheck (memcheck_map_reserve ch_E (PHYS_PAGE_ADDR r) EMM_PAGE_SIZE) in
        ret (if truth e then Some e else None)) in
      match err with
      | Some _ => SET_CF true ;; SET_BX 3
      | None =>
          modify (fun s => s <| phys_pages := ems_cnv_pages config + ems_uma_pages config |>) ;;
          SET_CF false ;; SET_BX 0
      end
  else SET_CF true.

(** ** The dispatcher *)

(** Function 0x43 *)
Definition get_handle_and_allocate : E unit :=
  let! s := get in
  let pages_needed := LWORD (ebx (rg s)) in
  if pages_needed =? 0 then SETHI_AX EMM_ZERO_PAGES
  else allocate_std_pages.

(** Function 0x45 *)
Definition deallocate_handle : E unit :=
  let! s := get in
  let h := LWORD (edx (rg s)) in
  if h =? OS_HANDLE then SETHI_AX EMM_INV_HAN
  else if (h <? 0) || (MAX_HANDLES <=? h) then SETHI_AX EMM_INV_HAN
  else
    let! x := get_info h in
    if negb (active x =? 1) then SETHI_AX EMM_INV_HAN
    else if truth (saved_mapping x) then SETHI_AX EMM_HAVE_SAVED
    else emm_deallocate_handle h ;; SETHI_AX EMM_NO_ERR.

(** Function 0x47 *)
Definition save_page_map : E unit :=
  let! s := get in
  let h := LWORD (edx (rg s)) in
  let! ok := handle_active h in
  if negb ok then SETHI_AX EMM_INV_HAN
  else
    let! x := get_info h in
    if truth (saved_mapping x) then SETHI_AX EMM_ALREADY_SAVED
    else
      emm_save_handle_state h ;;
      upd_info h (fun x => x <| saved_mapping ::= Z.add 1 |>) ;;
      SETHI_AX EMM_NO_ERR.

(** Function 0x48 *)
Definition restore_page_map : E unit :=
  let! s := get in
  let h := LWORD (edx (rg s)) in
  let! ok := handle_active h in
  if negb ok then SETHI_AX EMM_INV_HAN
  else
    let! x := get_info h in
    if negb (truth (saved_mapping x)) then SETHI_AX EMM_NOT_SAVED
    else
      emm_restore_handle_state h ;;
      upd_info h (fun x => x <| saved_mapping ::= fun n => n - 1 |>) ;;
      SETHI_AX EMM_NO_ERR.

(** Function 0x4c *)
Definition get_pages_owned : E unit :=
  let! s := get in
  let h := LWORD (edx (rg s)) in
  let! ok := handle_active h in
  if negb ok then SETHI_AX EMM_INV_HAN ;; SET_BX 0
  else
    let! pages := handle_pages h in
    SETHI_AX EMM_NO_ERR ;; SET_BX (u16 pages).

(** Function 0x4d: [total] is [handle_total]; the number of handles seen. *)
Fixpoint pages_for_all_loop (l : list handle_record) (i total tot_handles ptr : Z) (d : dosmem)
    : Z * dosmem :=
  match l with
  | [] => (tot_handles, d)
  | x :: l =>
      if (i =? 0) || negb (active x =? 0) then
        let d := hwrite_word (ptr + 2) (numpages x) (hwrite_word ptr (Z.land i 255) d) in
        if tot_handles + 1 =? total then (tot_handles + 1, d)
        else pages_for_all_loop l (i + 1) total (tot_handles + 1) (ptr + 4) d
      else pages_for_all_loop l (i + 1) total tot_handles ptr d
  end.

Definition get_pages_for_all : E unit :=
  let! s := get in
  let! ptr := Addr es edi in
  let '(tot_handles, d) := pages_for_all_loop (handle_info s) 0 (handle_total s) 0 ptr (mem s) in
  set_mem (fun _ => d) ;;
  SETHI_AX EMM_NO_ERR ;; SET_BX tot_handles.

(** Function 0x4e *)
Definition page_map_registers : E unit :=
  let! s := get in
  let sub := LO (eax (rg s)) in
  if sub =? 0 then
    let! p := Addr es edi in emm_get_map_registers p ;; SETHI_AX EMM_NO_ERR
  else if sub =? 1 then
    let! q := Addr ds esi in emm_set_map_registers q ;; SETHI_AX EMM_NO_ERR
  else if sub =? 2 then
    let! p := Addr es edi in emm_get_map_registers p ;;
    let! q := Addr ds esi in emm_set_map_registers q ;;
    SETHI_AX EMM_NO_ERR
  else if sub =? 3 then SETHI_AX EMM_NO_ERR ;; SETLO_AX (PAGE_MAP_SIZE (phys_pages s))
  else SETHI_AX EMM_INVALID_SUB.

(** Function 0x57 *)
Definition mod_memory_region : E unit :=
  let! s := get in
  let sub := LO (eax (rg s)) in
  if sub =? 0 then let! r := move_memory_region in SETHI_AX r
  else if sub =? 1 then let! r := exchange_memory_region in SETHI_AX r
  else SETHI_AX EMM_INVALID_SUB.

Definition ems_functions (fn : Z) : E unit :=
  let! s := get in
  match fn with
  | 64 => SETHI_AX EMM_NO_ERR
  | 65 => SETHI_AX EMM_NO_ERR ;; SET_BX EMM_SEGMENT
  | 66 =>
      SETHI_AX EMM_NO_ERR ;; SET_BX (u16 (EMM_TOTAL - emm_allocated s)) ;; SET_DX (u16 EMM_TOTAL)
  | 67 => get_handle_and_allocate
  | 68 =>
      let! r := do_map_unmap (LWORD (edx (rg s))) (LO (eax (rg s))) (LWORD (ebx (rg s))) in
      SETHI_AX r
  | 69 => deallocate_handle
  | 70 => SETHI_AX EMM_NO_ERR ;; SETLO_AX EMM_VERS
  | 71 => save_page_map
  | 72 => restore_page_map
  | 75 => SETHI_AX EMM_NO_ERR ;; SET_BX (u16 (handle_total s))
  | 76 => get_pages_owned
  | 77 => get_pages_for_all
  | 78 => page_map_registers
  | 79 => partial_map_registers
  | 80 => map_unmap_multiple
  | 81 => reallocate_pages
  | 82 => handle_attribute
  | 83 => handle_name
  | 84 => handle_dir
  | 85 => alter_map_and_jump
  | 86 => alter_map_and_call
  | 87 => mod_memory_region
  | 88 => get_mpa_array
  | 89 => get_ems_hardinfo
  | 90 => let sub := LO (eax (rg s)) in
          if (sub =? 0) || (sub =? 1) then allocate_std_pages else ret tt
  | 91 => alternate_map_register
  | 92 => ems_reset ;; SETHI_AX EMM_NO_ERR
  | 93 => os_set_function
  | _ => SETHI_AX EMM_FUNC_NOSUP
  end.

Definition ems_fn : E Z :=
  let! s := get in
  if negb (truth (phys_pages s)) then ret 0
  else ems_functions (HI (eax (rg s))) ;; ret 1.

(** ** The page frame, as the UMB set-up asks for it *)

Fixpoint in_frame (n : nat) (i addr : Z) : bool :=
  match n with
  | O => false
  | S n =>
      let frame := SEGOFF2LINEAR (EMM_SEGMENT + 1024 * i) 0 in
      ((frame <=? addr) && (addr <? u32 (frame + EMM_PAGE_SIZE))) || in_frame n (i + 1) addr
  end.

(** The answer and the new [*size]. *)
Definition emm_is_pframe_addr (addr size : Z) : bool * Z :=
  if negb (truth (ems_size config)) || negb (truth (ems_uma_pages config)) then (false, size)
  else if in_frame (Z.to_nat (ems_uma_pages config)) 0 addr then (true, size)
  else
    let frame0 := Z.shiftl EMM_SEGMENT 4 in
    if (addr <? frame0) && (frame0 <? u32 (addr + size)) then (false, u32 (frame0 - addr))
    else (false, size).

End emm.
