(* ===== verification/EmmInv.v ===== *)
(** * Invariant of the EMS driver

    The tables are well formed, every mapped physical page names an active
    handle and one of its logical pages, the counters agree with the handles,
    and the page table shows in each window of the frame exactly the logical
    page that [emm_map] says.  The lemmas carry this through the primitives. *)

From stdpp Require Import base numbers list.
From Stdlib Require Import ZArith Lia.
From S2P Require Import Prelude Memcheck Dosmem Emm.

Local Open Scope Z_scope.

(** ** Assumptions on the configuration and the layers below *)

(** A frame of whole 16K pages between 640K and 1M. *)
Record config_ok (c : ems_config) : Prop := {
  c_size : 0 < ems_size c;
  c_uma : 0 <= ems_uma_pages c <= EMM_UMA_MAX_PHYS;
  c_cnv : 0 <= ems_cnv_pages c <= EMM_CNV_MAX_PHYS;
  c_low : 40960 <= ems_frame c;
  c_high : ems_frame c + 1024 * ems_uma_pages c <= 65536;
  c_align : ems_frame c mod 1024 = 0;
}.

Definition bytes_ok (d : dosmem) : Prop := forall p, 0 <= host d p < 256.

(** A transfer changes bytes, not the page table. *)
Definition transfers (f : dosmem -> dosmem) : Prop :=
  forall d, lowmem_aliasmap (f d) = lowmem_aliasmap d /\ (bytes_ok d -> bytes_ok (f d)).

Record env_ok (e : ems_env) : Prop := {
  e_alias : forall log targ src, alias_mapping e log targ src = true;
  e_lowmem : 0 < lowmem_base (menv e);
  e_realloc : forall p osize q size, transfers (realloc_contents e p osize q size);
  e_garbage : forall n, Forall (fun x => 0 <= x.1 /\ 0 <= x.2) (malloc_garbage e n);
  e_from_vga : forall a b n, transfers (memcpy_from_vga (menv e) a b n);
  e_to_vga : forall a b n, transfers (memcpy_to_vga (menv e) a b n);
  e_vga : forall a b n, transfers (vga_memcpy (menv e) a b n);
  e_dos_from_vga : forall a b n, transfers (memcpy_dos_from_vga (menv e) a b n);
  e_dos_to_vga : forall a b n, transfers (memcpy_dos_to_vga (menv e) a b n);
}.

(** Host memory never runs out. *)
Definition no_failure (e : ems_env) : Prop :=
  (forall log n, exists p, alloc_mapping e log n = Some p /\ p <> 0) /\
  (forall log p o n, exists q, realloc_mapping e log p o n = Some q /\ q <> 0).

Section inv.
Context (config : ems_config) (env : ems_env).

Definition total_phys : Z := ems_uma_pages config + ems_cnv_pages config.

(** Segment of a physical page. *)
Definition seg_of (i : Z) : Z :=
  if i <? ems_uma_pages config then ems_frame config + 1024 * i
  else cnv_start_seg config + 1024 * (i - ems_uma_pages config).

(** ** The invariant *)

Definition rec_ok (info : list handle_record) (r : emm_record) : Prop :=
  handle r = NULL_HANDLE \/
  exists x, aget info (handle r) = Some x /\ 0 <= logical_page r < numpages x.

Record hand_ok (h : Z) (x : handle_record) : Prop := {
  h_name : length (name x) = 9%nat;
  h_saved_h : length (saved_mappings_handle x) = 4%nat;
  h_saved_l : length (saved_mappings_logical x) = 4%nat;
  h_pages : 0 <= numpages x <= 65535;
  h_inactive : active x = 0 -> numpages x = 0;
  h_object : object x = 0 -> numpages x = 0;
  h_os : h = 0 -> active x = 255;
  h_user : h <> 0 -> active x = 0 \/ active x = 1;
  h_saved : forall j l g, aget (saved_mappings_logical x) j = Some l ->
    aget (saved_mappings_handle x) j = Some g -> 0 <= l /\ (l <> NULL_PAGE -> 0 <= g < MAX_HANDLES);
}.

Definition is_active (x : handle_record) : Z := of_bool (truth (active x)).

Record tables_ok (s : emm) : Prop := {
  t_map : length (emm_map s) = 36%nat;
  t_info : length (handle_info s) = 255%nat;
  t_phys : phys_pages s = 0 \/ phys_pages s = total_phys;
  t_rec : forall i r, aget (emm_map s) i = Some r -> rec_ok (handle_info s) r;
  t_seg : forall i r, aget (emm_map s) i = Some r -> i < total_phys -> phys_seg r = seg_of i;
  t_rest : forall i r, aget (emm_map s) i = Some r -> phys_pages s <= i ->
    handle r = NULL_HANDLE \/ handle r = OS_HANDLE;
  t_hand : forall h x, aget (handle_info s) h = Some x -> hand_ok h x;
  t_total : handle_total s = zsum is_active (handle_info s);
  t_quota : emm_allocated s <= EMM_TOTAL config;
  t_bytes : bytes_ok (mem s);
}.

(** The four 4K pages of a 16K window. *)
Definition win (m : Z -> Z) (base v : Z) : Prop :=
  forall j, 0 <= j < 4 -> m (base / PAGE_SIZE + j) = v + j * PAGE_SIZE.

Definition target (info : list handle_record) (r : emm_record) : Z :=
  match aget info (handle r) with
  | Some x => object x + logical_page r * EMM_PAGE_SIZE
  | None => LOWMEM (menv env) (PHYS_PAGE_ADDR r)
  end.

Definition window_ok (s : emm) (i : Z) : Prop :=
  forall r, aget (emm_map s) i = Some r ->
    win (lowmem_aliasmap (mem s)) (PHYS_PAGE_ADDR r) (target (handle_info s) r).

Definition windows_ok (s : emm) : Prop := forall i, 0 <= i < phys_pages s -> window_ok s i.

(** The page count is exact as long as host memory never ran out. *)
Definition accounted (s : emm) : Prop :=
  no_failure env -> emm_allocated s = zsum numpages (handle_info s).

Definition Inv (s : emm) : Prop := tables_ok s /\ windows_ok s /\ accounted s.

(** ** Access *)

Lemma wp_get_map i s r (Q : emm_record -> emm -> Prop) :
  aget (emm_map s) i = Some r -> Q r s -> wp (get_map i) s Q.
Proof. intros H HQ. unfold wp, get_map. by rewrite H. Qed.

Lemma wp_upd_map i f s r (Q : unit -> emm -> Prop) :
  aget (emm_map s) i = Some r ->
  Q tt (s <| emm_map ::= fun l => astore l i (f r) |>) -> wp (upd_map i f) s Q.
Proof. intros H HQ. unfold wp, upd_map. by rewrite H. Qed.

Lemma wp_get_info h s x (Q : handle_record -> emm -> Prop) :
  aget (handle_info s) h = Some x -> Q x s -> wp (get_info h) s Q.
Proof. intros H HQ. unfold wp, get_info. by rewrite H. Qed.

Lemma wp_upd_info h f s x (Q : unit -> emm -> Prop) :
  aget (handle_info s) h = Some x ->
  Q tt (s <| handle_info ::= fun l => astore l h (f x) |>) -> wp (upd_info h f) s Q.
Proof. intros H HQ. unfold wp, upd_info. by rewrite H. Qed.

Lemma map_at_some s i : tables_ok s -> 0 <= i < 36 -> exists r, aget (emm_map s) i = Some r.
Proof. intros Ht Hi. apply aget_lt. rewrite (t_map s Ht). lia. Qed.

Lemma info_at_some s h : tables_ok s -> 0 <= h < 255 -> exists x, aget (handle_info s) h = Some x.
Proof. intros Ht Hh. apply aget_lt. rewrite (t_info s Ht). lia. Qed.

Lemma map_range s i r : tables_ok s -> aget (emm_map s) i = Some r -> 0 <= i < 36.
Proof. intros Ht H%aget_Some_lt. rewrite (t_map s Ht) in H. lia. Qed.

Lemma info_range s h x : tables_ok s -> aget (handle_info s) h = Some x -> 0 <= h < 255.
Proof. intros Ht H%aget_Some_lt. rewrite (t_info s Ht) in H. lia. Qed.

Lemma info_null s : tables_ok s -> aget (handle_info s) NULL_HANDLE = None.
Proof. intros Ht. apply aget_None. rewrite (t_info s Ht). unfold NULL_HANDLE. lia. Qed.

(** ** Steps that leave the tables alone *)

Record same (s s' : emm) : Prop := {
  s_map : emm_map s' = emm_map s;
  s_info : handle_info s' = handle_info s;
  s_total : handle_total s' = handle_total s;
  s_alloc : emm_allocated s' = emm_allocated s;
  s_phys : phys_pages s' = phys_pages s;
  s_alias : lowmem_aliasmap (mem s') = lowmem_aliasmap (mem s);
  s_bytes : bytes_ok (mem s) -> bytes_ok (mem s');
}.

Lemma same_refl s : same s s.
Proof. by split. Qed.

Lemma same_trans s1 s2 s3 : same s1 s2 -> same s2 s3 -> same s1 s3.
Proof. intros [] []. split; try congruence. auto. Qed.

Lemma same_tables s s' : same s s' -> tables_ok s -> tables_ok s'.
Proof.
  intros [E1 E2 E3 E4 E5 E6 E7] []. split; rewrite ?E1, ?E2, ?E3, ?E4, ?E5; auto.
Qed.

Lemma same_inv s s' : same s s' -> Inv s -> Inv s'.
Proof.
  intros Hs (Ht & Hw & Hc). split; [by eapply same_tables|].
  destruct Hs as [E1 E2 E3 E4 E5 E6 E7]. split; [|unfold accounted; by rewrite E2, E4]. intros i Hi r. unfold window_ok in Hw.
  rewrite E1, E2, E6. rewrite E5 in Hi. by apply Hw.
Qed.

Definition neutral {A} (c : M emm A) : Prop := forall s, Inv s -> wp c s (fun _ s' => same s s').
Definition safe {A} (c : M emm A) : Prop := forall s, Inv s -> wp c s (fun _ s' => Inv s').

Lemma neutral_safe {A} (c : M emm A) : neutral c -> safe c.
Proof. intros H s Hs. eapply wp_mono; [by apply H|]. intros a s' H1. exact (same_inv s s' H1 Hs). Qed.

Lemma neutral_ret {A} (a : A) : neutral (ret a).
Proof. intros s _. apply wp_ret, same_refl. Qed.

Lemma neutral_get : neutral (get (S := emm)).
Proof. intros s _. apply wp_get, same_refl. Qed.

Lemma neutral_gets {A} (f : emm -> A) : neutral (gets f).
Proof. intros s _. apply wp_gets, same_refl. Qed.

Lemma neutral_bind {A B} (c : M emm A) (k : A -> M emm B) :
  neutral c -> (forall a, neutral (k a)) -> neutral (bind c k).
Proof.
  intros Hc Hk s Hs. apply wp_bind. eapply wp_mono; [by apply Hc|]. intros a s1 H1.
  eapply wp_mono; [apply Hk; exact (same_inv s s1 H1 Hs)|]. intros b s2 H2. exact (same_trans s s1 s2 H1 H2).
Qed.

Lemma safe_bind {A B} (c : M emm A) (k : A -> M emm B) :
  safe c -> (forall a, safe (k a)) -> safe (bind c k).
Proof.
  intros Hc Hk s Hs. apply wp_bind. eapply wp_mono; [by apply Hc|]. intros a s1 H1. by apply Hk.
Qed.

Lemma neutral_modify f : (forall s, same s (f s)) -> neutral (modify f).
Proof. intros H s _. apply wp_modify, H. Qed.

Lemma safe_mfor n i body : (forall k, i <= k < i + Z.of_nat n -> safe (body k)) -> safe (mfor n i body).
Proof.
  intros H s Hs. apply (wp_mfor (fun _ s => Inv s)); [done| |done]. intros k s1 Hk H1. by apply H.
Qed.

Lemma safe_mfor_exit {R} n i (body : Z -> M emm (option R)) :
  (forall k, i <= k < i + Z.of_nat n -> safe (body k)) -> safe (mfor_exit n i body).
Proof.
  intros H s Hs. apply (wp_mfor_exit (fun _ s => Inv s) (fun _ s => Inv s)); [done| |done|done].
  intros k s1 Hk H1. eapply wp_mono; [by apply H|]. by intros [x|] s2.
Qed.

Lemma neutral_mfor n i body :
  (forall k, i <= k < i + Z.of_nat n -> neutral (body k)) -> neutral (mfor n i body).
Proof.
  intros H s Hs. apply (wp_mfor (fun _ s' => same s s')); [apply same_refl| |done].
  intros k s1 Hk H1. eapply wp_mono; [apply H; [done|exact (same_inv s s1 H1 Hs)]|].
  intros [] s2 H2. exact (same_trans s s1 s2 H1 H2).
Qed.

(** Registers, log and flags are not part of the invariant. *)
Lemma same_regs s f : same s (s <| rg ::= f |>).
Proof. by split. Qed.

Lemma neutral_set_regs f : neutral (set_regs f).
Proof. apply neutral_modify. intros s. apply same_regs. Qed.

Lemma neutral_note c : neutral (note c).
Proof. apply neutral_modify. by split. Qed.

Lemma same_mem s f : transfers f -> same s (s <| mem ::= f |>).
Proof. intros H. destruct (H (mem s)). by split. Qed.

Lemma neutral_set_mem f : transfers f -> neutral (set_mem f).
Proof. intros H. apply neutral_modify. intros s. by apply same_mem. Qed.

(** ** Transfers *)

Lemma transfers_id : transfers (fun d => d).
Proof. by split. Qed.

Lemma transfers_compose f g : transfers f -> transfers g -> transfers (fun d => g (f d)).
Proof. intros Hf Hg d. destruct (Hf d), (Hg (f d)). split; [congruence|auto]. Qed.

Lemma transfers_hwrite p v : transfers (hwrite p v).
Proof.
  intros d. split; [done|]. intros Hd q. simpl. pose proof (u8_range v).
  destruct (q =? p); [lia|apply Hd].
Qed.

Lemma transfers_hmove dest src n : transfers (hmove dest src n).
Proof. intros d. split; [done|]. intros Hd q. simpl. case_match; apply Hd. Qed.

Lemma transfers_hwrite_word p v : transfers (hwrite_word p v).
Proof.
  exact (transfers_compose (hwrite p v) (hwrite (p + 1) (v / 256))
    (transfers_hwrite _ _) (transfers_hwrite _ _)).
Qed.

Lemma transfers_hswap a b n : transfers (hswap a b n).
Proof. intros d. split; [done|]. intros Hd q. simpl. repeat case_match; apply Hd. Qed.

Lemma transfers_hwrite_bytes p l : transfers (hwrite_bytes p l).
Proof.
  revert p. induction l as [|x l IH]; intros p; simpl; [apply transfers_id|].
  apply (transfers_compose (hwrite p x)); [apply transfers_hwrite|apply IH].
Qed.

Lemma hword_range d p : bytes_ok d -> 0 <= hword d p < 65536.
Proof. intros H. unfold hword. pose proof (H p). pose proof (H (p + 1)). lia. Qed.

Lemma hdword_range d p : bytes_ok d -> 0 <= hdword d p < 2 ^ 32.
Proof.
  intros H. unfold hdword. pose proof (hword_range d p H). pose proof (hword_range d (p + 2) H). lia.
Qed.

Context (Henv : env_ok env).

(** The loops move bytes chunk by chunk. *)
Lemma transfers_2unix dest src n : transfers (memcpy_2unix (menv env) dest src n).
Proof.
  unfold memcpy_2unix. destruct (vga_read_access (menv env) src); [apply (e_from_vga env Henv)|].
  generalize (Z.to_nat n) as fuel. intros fuel. revert dest src n.
  induction fuel as [|fuel IH]; intros dest src n d; simpl; [by apply transfers_id|].
  destruct (n <=? 0); [by apply transfers_id|].
  apply (transfers_compose (fun d => hmove dest (dosaddr_to_unixaddr (menv env) d src) _ d)); [|apply IH].
  intros d'. apply transfers_hmove.
Qed.

Lemma transfers_2dos dest src n : transfers (memcpy_2dos (menv env) dest src n).
Proof.
  unfold memcpy_2dos. destruct (vga_write_access (menv env) dest); [apply (e_to_vga env Henv)|].
  generalize (Z.to_nat n) as fuel. intros fuel. revert dest src n.
  induction fuel as [|fuel IH]; intros dest src n d; simpl; [by apply transfers_id|].
  destruct (n <=? 0); [by apply transfers_id|].
  apply (transfers_compose (fun d => hmove (dosaddr_to_unixaddr (menv env) d dest) src _ d)); [|apply IH].
  intros d'. apply transfers_hmove.
Qed.

Lemma transfers_dos2dos dest src n : transfers (memmove_dos2dos (menv env) dest src n).
Proof.
  unfold memmove_dos2dos. destruct (vga_read_access (menv env) src), (vga_write_access (menv env) dest);
    [apply (e_vga env Henv)|apply (e_dos_from_vga env Henv)|apply (e_dos_to_vga env Henv)|].
  generalize (Z.to_nat n) as fuel. intros fuel. revert dest src n.
  induction fuel as [|fuel IH]; intros dest src n d; simpl; [by apply transfers_id|].
  destruct (n <=? 0); [by apply transfers_id|].
  apply (transfers_compose (fun d => hmove (dosaddr_to_unixaddr (menv env) d dest)
    (dosaddr_to_unixaddr (menv env) d src) _ d)); [|apply IH].
  intros d'. apply transfers_hmove.
Qed.

(** ** Geometry of the physical pages *)

Context (Hcfg : config_ok config).

Lemma total_phys_range : 0 <= total_phys <= 36.
Proof.
  pose proof (c_uma config Hcfg). pose proof (c_cnv config Hcfg).
  unfold total_phys, EMM_UMA_MAX_PHYS, EMM_CNV_MAX_PHYS in *. lia.
Qed.

Lemma seg_of_align i : 0 <= i < total_phys -> seg_of i mod 1024 = 0 /\ 0 <= seg_of i < 65536.
Proof.
  intros Hi. destruct Hcfg as [Hsz Hu Hc Hl Hh Ha].
  unfold seg_of, cnv_start_seg, total_phys, EMM_UMA_MAX_PHYS, EMM_CNV_MAX_PHYS in *.
  destruct (Z.ltb_spec i (ems_uma_pages config)).
  - split; [|lia]. by rewrite Z.mul_comm, Z_mod_plus_full.
  - split; [|lia]. replace (40960 - _ + _) with ((40 - ems_cnv_pages config + (i - ems_uma_pages config)) * 1024) by lia.
    apply Z.mod_mul. lia.
Qed.

Lemma seg_of_inj i k : 0 <= i < total_phys -> 0 <= k < total_phys -> seg_of i = seg_of k -> i = k.
Proof.
  intros Hi Hk. destruct Hcfg as [Hsz Hu Hc Hl Hh Ha].
  unfold seg_of, cnv_start_seg, total_phys, EMM_UMA_MAX_PHYS, EMM_CNV_MAX_PHYS in *.
  destruct (Z.ltb_spec i (ems_uma_pages config)), (Z.ltb_spec k (ems_uma_pages config)); lia.
Qed.

(** First 4K page of a window. *)
Definition wpage (i : Z) : Z := seg_of i / 256.

Lemma base_page i r : 0 <= i < total_phys -> phys_seg r = seg_of i ->
  PHYS_PAGE_ADDR r / PAGE_SIZE = wpage i /\ PHYS_PAGE_ADDR r < ALIAS_SIZE.
Proof.
  intros Hi Hr. destruct (seg_of_align i Hi) as [_ H].
  unfold PHYS_PAGE_ADDR, wpage, PAGE_SIZE, ALIAS_SIZE. rewrite Hr, Z.shiftl_mul_pow2 by lia.
  split; [|lia]. change (2 ^ 4) with 16. change 4096 with (256 * 16).
  by rewrite Z.div_mul_cancel_r by lia.
Qed.

Lemma wpage_apart i k j j' :
  0 <= i < total_phys -> 0 <= k < total_phys -> i <> k -> 0 <= j < 4 -> 0 <= j' < 4 ->
  wpage i + j <> wpage k + j'.
Proof.
  intros Hi Hk Hne Hj Hj' E. destruct (seg_of_align i Hi) as [Ai _], (seg_of_align k Hk) as [Ak _].
  apply Hne, seg_of_inj; [done..|].
  unfold wpage in E. pose proof (Z.div_mod (seg_of i) 1024 ltac:(lia)). pose proof (Z.div_mod (seg_of k) 1024 ltac:(lia)).
  rewrite Ai in *. rewrite Ak in *.
  replace (seg_of i / 256) with (4 * (seg_of i / 1024)) in E
    by (rewrite H at 2; replace (1024 * (seg_of i / 1024) + 0) with (4 * (seg_of i / 1024) * 256) by lia; by rewrite Z.div_mul).
  replace (seg_of k / 256) with (4 * (seg_of k / 1024)) in E
    by (rewrite H0 at 2; replace (1024 * (seg_of k / 1024) + 0) with (4 * (seg_of k / 1024) * 256) by lia; by rewrite Z.div_mul).
  lia.
Qed.

(** Mapping one window changes that window and no other. *)
Lemma update_window i k r v d :
  0 <= i < total_phys -> 0 <= k < total_phys -> phys_seg r = seg_of i ->
  forall j, 0 <= j < 4 ->
  lowmem_aliasmap (update_aliasmap (PHYS_PAGE_ADDR r) EMM_PAGE_SIZE v d) (wpage k + j) =
    if k =? i then v + j * PAGE_SIZE else lowmem_aliasmap d (wpage k + j).
Proof.
  intros Hi Hk Hr j Hj. destruct (base_page i r Hi Hr) as [Hb Ha]. unfold update_aliasmap.
  rewrite (proj2 (Z.leb_gt _ _)) by lia. simpl. rewrite Hb.
  change (EMM_PAGE_SIZE / PAGE_SIZE) with 4. destruct (Z.eqb_spec k i) as [->|Hne].
  - replace (wpage i + j - wpage i) with j by lia.
    rewrite (proj2 (Z.leb_le 0 j)), (proj2 (Z.ltb_lt j 4)) by lia. done.
  - destruct (Z.leb_spec 0 (wpage k + j - wpage i)), (Z.ltb_spec (wpage k + j - wpage i) 4); simpl; try done.
    exfalso. apply (wpage_apart k i j (wpage k + j - wpage i)); [done..|lia|lia].
Qed.

End inv.
