(* ===== verification/EmmMap.v ===== *)
(** * The EMS driver: mapping requests keep the invariant

    Mapping and unmapping one page, exactly; then the requests built from
    them: map/unmap, the multiple forms, the page map registers, the saved
    page maps. *)

From stdpp Require Import base numbers list.
From Stdlib Require Import ZArith Lia.
From S2P Require Import Prelude Memcheck Dosmem Emm EmmInv.

Local Open Scope Z_scope.

Section map.
Context (config : ems_config) (env : ems_env).
Context (Hcfg : config_ok config) (Henv : env_ok env).

Abbreviation Inv := (Inv config env).
Abbreviation tables_ok := (tables_ok config).
Abbreviation windows_ok := (windows_ok env).
Abbreviation target := (target env).
Abbreviation neutral := (neutral config env).
Abbreviation safe := (safe config env).
Abbreviation total_phys := (total_phys config).

(** ** One page *)

(** Entry [i] becomes [r] and its window shows what [r] says. *)
Record remapped (i : Z) (r : emm_record) (s s' : emm) : Prop := {
  m_map : emm_map s' = astore (emm_map s) i r;
  m_info : handle_info s' = handle_info s;
  m_total : handle_total s' = handle_total s;
  m_alloc : emm_allocated s' = emm_allocated s;
  m_phys : phys_pages s' = phys_pages s;
  m_mem : mem s' = update_aliasmap (PHYS_PAGE_ADDR r) EMM_PAGE_SIZE (target (handle_info s) r) (mem s);
  m_regs : rg s' = rg s;
}.

Lemma phys_range s i : tables_ok s -> 0 <= i < phys_pages s -> 0 <= i < total_phys.
Proof. intros Ht Hi. destruct (t_phys config s Ht) as [E|E]; lia. Qed.

Lemma update_bytes targ n v d : bytes_ok d -> bytes_ok (update_aliasmap targ n v d).
Proof. intros H. unfold update_aliasmap. by destruct (ALIAS_SIZE <=? targ). Qed.

(** Aliasing the window of page [i] to [v] leaves the other windows. *)
Lemma win_update i k r q v w d :
  0 <= i < total_phys -> 0 <= k < total_phys -> phys_seg r = seg_of config i -> phys_seg q = seg_of config k ->
  (if k =? i then w = v else win (lowmem_aliasmap d) (PHYS_PAGE_ADDR q) w) ->
  win (lowmem_aliasmap (update_aliasmap (PHYS_PAGE_ADDR r) EMM_PAGE_SIZE v d)) (PHYS_PAGE_ADDR q) w.
Proof.
  intros Hi Hk Hr Hq Hw j Hj. destruct (base_page config Hcfg k q Hk Hq) as [Hb _]. rewrite Hb.
  rewrite (update_window config Hcfg i k r _ _ Hi Hk Hr j Hj).
  destruct (k =? i); [by subst|]. specialize (Hw j Hj). by rewrite Hb in Hw.
Qed.

Lemma entry_seg s i r : tables_ok s -> 0 <= i < phys_pages s -> aget (emm_map s) i = Some r ->
  phys_seg r = seg_of config i.
Proof. intros Ht Hi Hr. apply (t_seg config s Ht i r Hr). pose proof (phys_range s i Ht Hi). lia. Qed.

Lemma remapped_window i r s s' k : tables_ok s -> 0 <= i < phys_pages s -> phys_seg r = seg_of config i ->
  remapped i r s s' -> 0 <= k < phys_pages s -> k = i \/ window_ok env s k -> window_ok env s' k.
Proof.
  intros Ht Hi Hseg [E1 E2 E3 E4 E5 E6 E7] Hk Hor q Hq.
  pose proof (phys_range s i Ht Hi) as Hi'. pose proof (phys_range s k Ht Hk) as Hk'.
  pose proof (total_phys_range config Hcfg) as Htot.
  rewrite E1, aget_astore in Hq by (rewrite (t_map config s Ht); lia). rewrite E2, E6.
  assert (phys_seg q = seg_of config k) as Hsegq.
  { destruct (Z.eqb_spec k i) as [->|]; [congruence|]. by apply (entry_seg s k q Ht Hk). }
  apply (win_update i k); [done..|]. destruct (Z.eqb_spec k i) as [->|Hne]; [by injection Hq as <-|].
  destruct Hor as [->|Hw]; [done|]. by apply Hw.
Qed.

Lemma remapped_tables i r s s' : tables_ok s -> 0 <= i < phys_pages s -> phys_seg r = seg_of config i ->
  rec_ok (handle_info s) r -> remapped i r s s' -> tables_ok s'.
Proof.
  intros Ht Hi Hseg Hrec [E1 E2 E3 E4 E5 E6 E7]. pose proof (t_map config s Ht) as Hlen.
  pose proof (phys_range s i Ht Hi). pose proof (total_phys_range config Hcfg). destruct Ht.
  split; rewrite ?E1, ?E2, ?E3, ?E4, ?E5; auto.
  - by rewrite astore_length.
  - intros k q. rewrite aget_astore by lia. destruct (Z.eqb_spec k i); [by intros [= <-]|eauto].
  - intros k q. rewrite aget_astore by lia. destruct (Z.eqb_spec k i) as [->|]; [by intros [= <-]|eauto].
  - intros k q. rewrite aget_astore by lia. destruct (Z.eqb_spec k i) as [->|]; [lia|eauto].
  - rewrite E6. by apply update_bytes.
Qed.

Lemma remapped_inv i r s s' : Inv s -> 0 <= i < phys_pages s -> phys_seg r = seg_of config i ->
  rec_ok (handle_info s) r -> remapped i r s s' -> Inv s'.
Proof.
  intros (Ht & Hw & Hc) Hi Hseg Hrec Hm. split; [by eapply remapped_tables|].
  split; [|unfold accounted; by rewrite (m_info _ _ _ _ Hm), (m_alloc _ _ _ _ Hm)].
  intros k Hk. rewrite (m_phys _ _ _ _ Hm) in Hk. eapply (remapped_window i r s s' k); eauto.
Qed.

Lemma wp_alias targ n v s (Q : bool -> emm -> Prop) :
  (forall s', s' = s <| elog ::= cons (AliasMapping targ n v true) |> <| mem ::= update_aliasmap targ n v |> ->
     Q true s') ->
  wp (alias env targ n v) s Q.
Proof.
  intros HQ. unfold alias. repeat wp_step. rewrite (e_alias env Henv). unfold note, set_mem. repeat wp_step.
  by apply HQ.
Qed.

Definition in_phys (p : Z) (s : emm) : bool := (0 <=? p) && (p <? phys_pages s).

Lemma in_phys_test p s : (p <? 0) || (phys_pages s <=? p) = negb (in_phys p s).
Proof. unfold in_phys. destruct (Z.ltb_spec p 0), (Z.leb_spec (phys_pages s) p), (Z.leb_spec 0 p), (Z.ltb_spec p (phys_pages s)); simpl; done || lia. Qed.

Lemma in_phys_spec p s : in_phys p s = true <-> 0 <= p < phys_pages s.
Proof. unfold in_phys. destruct (Z.leb_spec 0 p), (Z.ltb_spec p (phys_pages s)); simpl; split; done || lia. Qed.

Definition mapped_entry (h l : Z) (r : emm_record) : emm_record := r <| handle := h |> <| logical_page := l |>.

(** [map_page], on every branch. *)
Lemma wp_map_page h p l s (Q : bool -> emm -> Prop) :
  tables_ok s -> h = NULL_HANDLE \/ 0 <= h < 255 ->
  (forall r x s', 0 <= p < phys_pages s -> aget (emm_map s) p = Some r -> aget (handle_info s) h = Some x ->
     l < numpages x -> remapped p (mapped_entry h l r) s s' -> Q true s') ->
  (in_phys p s = false \/ h = NULL_HANDLE \/ (exists x, aget (handle_info s) h = Some x /\ numpages x <= l) ->
     Q false s) ->
  wp (map_page env h p l) s Q.
Proof.
  intros Ht Hh Hok Hno. unfold map_page. repeat wp_step. rewrite in_phys_test.
  destruct (in_phys p s) eqn:Hp; simpl; [|wp_step; apply Hno; auto].
  destruct (Z.eqb_spec h NULL_HANDLE) as [->|Hne]; [wp_step; apply Hno; auto|].
  destruct Hh as [?|Hh]; [done|]. destruct (info_at_some config s h Ht Hh) as [x Hx].
  wp_step. apply (wp_get_info h s x); [done|].
  destruct (Z.leb_spec (numpages x) l) as [Hl|Hl]; [wp_step; apply Hno; eauto|].
  apply in_phys_spec in Hp. pose proof (phys_range s p Ht Hp). pose proof (total_phys_range config Hcfg).
  destruct (map_at_some config s p Ht ltac:(lia)) as [r Hr].
  wp_step. apply (wp_get_map p s r); [done|]. wp_step. unfold do_map_page. wp_step.
  apply wp_alias. intros s' ->. simpl. repeat wp_step. eapply wp_upd_map; [exact Hr|]. wp_step.
  apply (Hok r x); [done..|]. split; try done. simpl. unfold target. simpl. by rewrite Hx.
Qed.

Lemma wp_unmap_only p s (Q : bool -> emm -> Prop) :
  tables_ok s ->
  (forall r s', 0 <= p < phys_pages s -> aget (emm_map s) p = Some r -> handle r <> NULL_HANDLE ->
     s' = s <| elog ::= cons (AliasMapping (PHYS_PAGE_ADDR r) EMM_PAGE_SIZE (LOWMEM (menv env) (PHYS_PAGE_ADDR r)) true) |>
            <| mem ::= update_aliasmap (PHYS_PAGE_ADDR r) EMM_PAGE_SIZE (LOWMEM (menv env) (PHYS_PAGE_ADDR r)) |> ->
     Q true s') ->
  (in_phys p s = false \/ (exists r, aget (emm_map s) p = Some r /\ handle r = NULL_HANDLE) -> Q false s) ->
  wp (unmap_page_only env p) s Q.
Proof.
  intros Ht Hok Hno. unfold unmap_page_only. repeat wp_step. rewrite in_phys_test.
  destruct (in_phys p s) eqn:Hp; simpl; [|wp_step; apply Hno; auto].
  apply in_phys_spec in Hp. pose proof (phys_range s p Ht Hp). pose proof (total_phys_range config Hcfg).
  destruct (map_at_some config s p Ht ltac:(lia)) as [r Hr].
  wp_step. apply (wp_get_map p s r); [done|].
  destruct (Z.eqb_spec (handle r) NULL_HANDLE) as [E|E]; [wp_step; apply Hno; eauto|].
  unfold do_unmap_page. repeat wp_step. apply wp_alias. intros s' ->. repeat wp_step. by apply (Hok r).
Qed.

Lemma wp_unmap_page p s (Q : bool -> emm -> Prop) :
  tables_ok s ->
  (forall r s', 0 <= p < phys_pages s -> aget (emm_map s) p = Some r -> handle r <> NULL_HANDLE ->
     remapped p (mapped_entry NULL_HANDLE NULL_PAGE r) s s' -> Q true s') ->
  (in_phys p s = false \/ (exists r, aget (emm_map s) p = Some r /\ handle r = NULL_HANDLE) -> Q false s) ->
  wp (unmap_page env p) s Q.
Proof.
  intros Ht Hok Hno. unfold unmap_page. wp_step. apply wp_unmap_only; [done| |].
  - intros r s' Hp Hr Hn ->. wp_step. eapply wp_upd_map; [exact Hr|]. wp_step.
    apply (Hok r); [done..|]. split; try done. simpl. unfold target. simpl. by rewrite (info_null config s Ht).
  - intros H. wp_step. auto.
Qed.

Lemma rec_ok_null info r l : rec_ok info (mapped_entry NULL_HANDLE l r).
Proof. by left. Qed.

Lemma safe_map_page h p l : h = NULL_HANDLE \/ 0 <= h < 255 -> 0 <= l -> safe (map_page env h p l).
Proof.
  intros Hh Hl s Hs. apply wp_map_page; [apply Hs|done| |done].
  intros r x s' Hp Hr Hx Hlt Hm. apply (remapped_inv p (mapped_entry h l r) s s' Hs Hp); [|right; by eauto|done].
  simpl. apply (entry_seg s p r); [apply Hs|done..].
Qed.

Lemma safe_unmap_page p : safe (unmap_page env p).
Proof.
  intros s Hs. apply wp_unmap_page; [apply Hs| |done].
  intros r s' Hp Hr Hn Hm. apply (remapped_inv p (mapped_entry NULL_HANDLE NULL_PAGE r) s s' Hs Hp); [|apply rec_ok_null|done].
  simpl. apply (entry_seg s p r); [apply Hs|done..].
Qed.

(** ** Requests on handles *)

Lemma wp_handle_active h s (Q : bool -> emm -> Prop) :
  tables_ok s ->
  (forall x, 0 <= h < 255 -> aget (handle_info s) h = Some x -> active x <> 0 -> Q true s) ->
  (~ 0 <= h < 255 \/ (exists x, aget (handle_info s) h = Some x /\ active x = 0) -> Q false s) ->
  wp (handle_active h) s Q.
Proof.
  intros Ht Hok Hno. unfold handle_active, MAX_HANDLES.
  destruct (Z.ltb_spec h 0), (Z.leb_spec 255 h); simpl; try (wp_step; apply Hno; left; lia).
  destruct (info_at_some config s h Ht ltac:(lia)) as [x Hx]. wp_step.
  apply (wp_get_info h s x); [done|]. wp_step. destruct (Z.eqb_spec (active x) 0); simpl; eauto.
Qed.

(** A request that first checks its handle. *)
Lemma safe_handle_active {A} h (k : bool -> M emm A) :
  (0 <= h < 255 -> safe (k true)) -> safe (k false) -> safe (bind (handle_active h) k).
Proof.
  intros H1 H2 s Hs. wp_step. apply wp_handle_active; [apply Hs| |].
  - intros x Hh _ _. by apply H1.
  - intros _. by apply H2.
Qed.

Lemma safe_do_map_unmap h p l : 0 <= l -> safe (do_map_unmap env h p l).
Proof.
  intros Hl s Hs. unfold do_map_unmap. repeat wp_step. rewrite in_phys_test.
  destruct (in_phys p s); simpl; [|by wp_step].
  destruct (Z.eqb_spec l NULL_PAGE).
  { wp_step. eapply wp_mono; [by apply safe_unmap_page|]. intros b s' Hs'. by wp_step. }
  wp_step. apply wp_handle_active; [apply Hs| |intros _; simpl; by wp_step].
  intros x Hh Hx Ha. simpl. wp_step. apply (wp_get_info h s x); [done|].
  destruct (Z.leb_spec (numpages x) l); [by wp_step|]. wp_step.
  eapply wp_mono; [apply safe_map_page; auto|]. intros b s' Hs'. by wp_step.
Qed.

Lemma safe_ret {A} (a : A) : safe (ret a).
Proof. apply neutral_safe, neutral_ret. Qed.

Lemma safe_multi array h : Forall (fun x => 0 <= x.1) array -> safe (emm_map_unmap_multi env array h).
Proof.
  induction 1 as [|[log phys] array Hl _ IH]; simpl; [apply safe_ret|].
  apply safe_bind; [by apply safe_do_map_unmap|]. intros r. destruct (negb (r =? EMM_NO_ERR)); [apply safe_ret|done].
Qed.

Lemma logphys_ok n p d : bytes_ok d -> Forall (fun x => 0 <= x.1) (logphys_array n p d).
Proof.
  intros Hd. revert p. induction n as [|n IH]; intros p; simpl; constructor; [|done].
  simpl. by apply hword_range.
Qed.

Lemma logseg_ok n a s l : bytes_ok (mem s) -> logseg_array env n a s = Some l -> Forall (fun x => 0 <= x.1) l.
Proof.
  intros Hd. revert a l. induction n as [|n IH]; intros a l; simpl; [by intros [= <-]|].
  repeat case_match; try done. intros [= <-]. constructor; [|by eapply IH].
  simpl. by apply hword_range.
Qed.

Lemma safe_do_multi method a h n : safe (do_map_unmap_multi env method a h n).
Proof.
  intros s Hs. unfold do_map_unmap_multi. repeat wp_step.
  pose proof (t_bytes config s (proj1 Hs)) as Hd.
  destruct (method =? 0); [apply safe_multi; [by apply logphys_ok|done]|]. destruct (method =? 1).
  - destruct (logseg_array env _ a s) as [l|] eqn:E; [|by wp_step].
    apply safe_multi; [by eapply logseg_ok|done].
  - apply safe_multi; [|done]. apply Forall_take. eapply Forall_impl; [apply (e_garbage env Henv)|]. by intros x [].
Qed.

Lemma safe_alter_map method h a : safe (alter_map env method h a).
Proof. apply safe_do_multi. Qed.

(** ** Words read from the client *)

Lemma safe_rd_word {A} p (k : Z -> M emm A) :
  (forall v, 0 <= v < 65536 -> safe (k v)) -> safe (bind (rd_word p) k).
Proof.
  intros H s Hs. unfold rd_word. repeat wp_step. apply H; [|done].
  apply hword_range, (t_bytes config s (proj1 Hs)).
Qed.

(** The common step of SET and partial SET. *)
Lemma safe_set_entry h p l : 0 <= h < 255 -> 0 <= l ->
  safe (if negb (l =? NULL_PAGE) then map_page env h p l else unmap_page env p).
Proof. intros Hh Hl. destruct (negb _); [apply safe_map_page; auto|apply safe_unmap_page]. Qed.

Lemma safe_active_entry {A} h (c : M emm A) e (k : A -> M emm (option Z)) :
  0 <= h -> (0 <= h < 255 -> safe (bind c k)) ->
  safe (if MAX_HANDLES <=? h then ret (Some e)
        else let! x := get_info h in if active x =? 0 then ret (Some EMM_INV_HAN) else bind c k).
Proof.
  intros Hh Hk s Hs. unfold MAX_HANDLES. destruct (Z.leb_spec 255 h); [by wp_step|].
  destruct (info_at_some config s h (proj1 Hs) ltac:(lia)) as [x Hx]. wp_step.
  apply (wp_get_info h s x); [done|]. destruct (active x =? 0); [by wp_step|]. apply Hk; [lia|done].
Qed.

Lemma safe_set_map_registers buf n : safe (set_map_registers env buf n).
Proof.
  apply safe_bind; [|intros e; apply safe_ret]. apply safe_mfor_exit. intros i _.
  apply safe_rd_word. intros h Hh. apply safe_active_entry; [lia|]. intros Hh'.
  apply safe_rd_word. intros l Hl. apply safe_bind; [apply safe_set_entry; lia|]. intros b. apply safe_ret.
Qed.

Lemma safe_emm_set_map_registers p : safe (emm_set_map_registers config env p).
Proof.
  unfold emm_set_map_registers. destruct (negb _); [apply safe_ret|].
  apply safe_bind; [apply neutral_safe, neutral_get|]. intros s. apply safe_set_map_registers.
Qed.

Lemma safe_set_partial p : safe (emm_set_partial_map_registers config env p).
Proof.
  unfold emm_set_partial_map_registers. destruct (negb _); [apply safe_ret|].
  apply safe_rd_word. intros n Hn. apply safe_bind; [|intros e; apply safe_ret]. apply safe_mfor_exit.
  intros i _. apply safe_rd_word. intros h Hh. apply safe_rd_word. intros l Hl. apply safe_rd_word. intros phy Hp.
  apply safe_active_entry; [lia|]. intros Hh'.
  apply safe_bind; [apply safe_set_entry; lia|]. intros b. apply safe_ret.
Qed.

(** ** Changes of the handle table *)

(** An update that keeps the pages and the object of the handle. *)
Lemma inv_upd_info h f s x :
  Inv s -> aget (handle_info s) h = Some x -> hand_ok h (f x) ->
  numpages (f x) = numpages x -> object (f x) = object x -> active (f x) = active x ->
  Inv (s <| handle_info ::= fun l => astore l h (f x) |>).
Proof.
  intros (Ht & Hw & Hc) Hx Hf Hn Ho Ha. pose proof (info_range config s h x Ht Hx) as Hh.
  pose proof (t_info config s Ht) as Hlen.
  assert (forall k, aget (astore (handle_info s) h (f x)) k =
    if k =? h then Some (f x) else aget (handle_info s) k) as Hget by (intros k; apply aget_astore; lia).
  split; [|split].
  - destruct Ht. split; simpl; auto.
    + by rewrite astore_length.
    + intros i r Hr. destruct (t_rec i r Hr) as [?|(y & Hy & Hl)]; [by left|right].
      rewrite Hget. destruct (Z.eqb_spec (handle r) h) as [E|E]; [|eauto].
      exists (f x). split; [done|]. rewrite E in Hy. assert (y = x) as -> by congruence. lia.
    + intros k y. rewrite Hget. destruct (Z.eqb_spec k h) as [->|]; [by intros [= <-]|eauto].
    + rewrite t_total. rewrite (zsum_astore is_active (handle_info s) h x (f x) Hx).
      unfold is_active. rewrite Ha. lia.
  - intros i Hi r Hr. specialize (Hw i Hi r Hr). simpl in *.
    replace (target (astore (handle_info s) h (f x)) r) with (target (handle_info s) r); [done|].
    unfold target. rewrite Hget. destruct (Z.eqb_spec (handle r) h) as [->|]; [|done]. by rewrite Hx, Ho.
  - intros Hno. simpl. rewrite (Hc Hno). rewrite (zsum_astore numpages (handle_info s) h x (f x) Hx). lia.
Qed.

Lemma safe_upd_info h f : 0 <= h < 255 ->
  (forall x, hand_ok h x -> hand_ok h (f x) /\ numpages (f x) = numpages x /\ object (f x) = object x /\
     active (f x) = active x) ->
  safe (upd_info h f).
Proof.
  intros Hh Hf s Hs. destruct (info_at_some config s h (proj1 Hs) Hh) as [x Hx].
  eapply wp_upd_info; [exact Hx|].
  destruct (Hf x (t_hand config s (proj1 Hs) h x Hx)) as (H1 & H2 & H3 & H4).
  by eapply inv_upd_info.
Qed.

(** ** Saved page maps *)

Lemma hand_ok_saved h x ls hs :
  hand_ok h x -> length ls = 4%nat -> length hs = 4%nat ->
  (forall j l g, aget ls j = Some l -> aget hs j = Some g -> 0 <= l /\ (l <> NULL_PAGE -> 0 <= g < MAX_HANDLES)) ->
  hand_ok h (x <| saved_mappings_logical := ls |> <| saved_mappings_handle := hs |>).
Proof. intros [] H1 H2 H3. by split. Qed.

Lemma saved_range : 0 <= saved_phys_pages config <= 4.
Proof.
  pose proof (c_uma config Hcfg). unfold saved_phys_pages, EMM_MAX_SAVED_PHYS, EMM_UMA_MAX_PHYS in *. lia.
Qed.

Lemma safe_save_step h i : 0 <= h < 255 -> 0 <= i < saved_phys_pages config ->
  safe (let! r := get_map i in
    if negb (handle r =? NULL_HANDLE) then
      upd_info h (fun x => x <| saved_mappings_logical ::= fun l => astore l i (logical_page r) |>
        <| saved_mappings_handle ::= fun l => astore l i (handle r) |>)
    else upd_info h (fun x => x <| saved_mappings_logical ::= fun l => astore l i NULL_PAGE |>)).
Proof.
  intros Hh Hi s Hs. pose proof saved_range as Hsv.
  destruct (map_at_some config s i (proj1 Hs) ltac:(lia)) as [r Hr].
  wp_step. apply (wp_get_map i s r); [done|].
  destruct (Z.eqb_spec (handle r) NULL_HANDLE) as [E|E]; simpl; apply safe_upd_info; try done; intros x Hx;
    pose proof (h_saved_l h x Hx) as Hl; pose proof (h_saved_h h x Hx) as Hg.
  - split; [|done]. apply (hand_ok_saved h x (astore (saved_mappings_logical x) i NULL_PAGE) (saved_mappings_handle x)); [done|by rewrite astore_length|done|].
    intros j l g. rewrite aget_astore by (rewrite Hl; lia). destruct (j =? i); [|by apply (h_saved h x Hx)].
    intros [= <-] _. unfold NULL_PAGE. lia.
  - split; [|done]. apply (hand_ok_saved h x (astore (saved_mappings_logical x) i (logical_page r))
      (astore (saved_mappings_handle x) i (handle r))); [done|by rewrite astore_length|by rewrite astore_length|].
    intros j l g. rewrite !aget_astore by (rewrite ?Hl, ?Hg; lia).
    destruct (j =? i); [|by apply (h_saved h x Hx)]. intros [= <-] [= <-].
    destruct (t_rec config s (proj1 Hs) i r Hr) as [?|(y & Hy & Hlg)]; [done|].
    apply (info_range config s _ y (proj1 Hs)) in Hy. unfold MAX_HANDLES. lia.
Qed.

Lemma safe_save h : 0 <= h < 255 -> safe (emm_save_handle_state config h).
Proof.
  intros Hh. apply safe_mfor. intros i Hi. pose proof saved_range. apply safe_save_step; [done|lia].
Qed.

Lemma wp_nth_of l i v s (Q : Z -> emm -> Prop) : aget l i = Some v -> Q v s -> wp (nth_of l i) s Q.
Proof. intros H HQ. unfold wp, nth_of. by rewrite H. Qed.

Lemma safe_restore h : 0 <= h < 255 -> safe (emm_restore_handle_state config env h).
Proof.
  intros Hh. apply safe_mfor. intros i Hi s Hs. pose proof saved_range as Hsv.
  destruct (info_at_some config s h (proj1 Hs) Hh) as [x Hx].
  pose proof (t_hand config s (proj1 Hs) h x Hx) as Hok.
  destruct (aget_lt (saved_mappings_logical x) i) as [l Hl]; [rewrite (h_saved_l h x Hok); lia|].
  destruct (aget_lt (saved_mappings_handle x) i) as [g Hg]; [rewrite (h_saved_h h x Hok); lia|].
  destruct (h_saved h x Hok i l g Hl Hg) as [Hl0 Hg0]. unfold MAX_HANDLES in Hg0.
  wp_step. apply (wp_get_info h s x); [done|]. wp_step. eapply wp_nth_of; [done|].
  wp_step. eapply wp_nth_of; [done|]. destruct (Z.eqb_spec l NULL_PAGE); simpl; wp_step.
  - eapply wp_mono; [by apply safe_unmap_page|]. intros b s' H. by wp_step.
  - eapply wp_mono; [apply safe_map_page; auto|]. intros b s' H. by wp_step.
Qed.

End map.
