(* ===== verification/EmmAlloc.v ===== *)
(** * The EMS driver: allocation, release, reallocation and reset of handles *)

From stdpp Require Import base numbers list.
From Stdlib Require Import ZArith Lia.
From S2P Require Import Prelude Memcheck Dosmem Emm EmmInv EmmMap.

Local Open Scope Z_scope.

Section alloc.
Context (config : ems_config) (env : ems_env).
Context (Hcfg : config_ok config) (Henv : env_ok env).

Abbreviation Inv := (Inv config env).
Abbreviation tables_ok := (tables_ok config).
Abbreviation windows_ok := (windows_ok env).
Abbreviation target := (target env).
Abbreviation safe := (safe config env).
Abbreviation total_phys := (total_phys config).

(** ** Replacing a handle that nothing is mapped to *)

Record replaced (h : Z) (y : handle_record) (s s' : emm) : Prop := {
  p_map : emm_map s' = emm_map s;
  p_info : handle_info s' = astore (handle_info s) h y;
  p_phys : phys_pages s' = phys_pages s;
  p_mem : mem s' = mem s;
}.

Lemma aget_replaced s h x y k : aget (handle_info s) h = Some x ->
  aget (astore (handle_info s) h y) k = if k =? h then Some y else aget (handle_info s) k.
Proof. intros Hx%aget_Some_lt. by apply aget_astore. Qed.

Lemma replaced_inv h x y s s' :
  Inv s -> aget (handle_info s) h = Some x -> hand_ok h y ->
  (forall i r, aget (emm_map s) i = Some r -> handle r <> h) ->
  replaced h y s s' ->
  handle_total s' = handle_total s - is_active x + is_active y ->
  emm_allocated s' = emm_allocated s - numpages x + numpages y ->
  emm_allocated s' <= EMM_TOTAL config ->
  Inv s'.
Proof.
  intros (Ht & Hw & Hc) Hx Hy Hmap [E1 E2 E3 E4] Etot Eall Hq.
  pose proof (fun k => aget_replaced s h x y k Hx) as Hget. split; [|split].
  - destruct Ht. split; rewrite ?E1, ?E2, ?E3, ?E4, ?Etot; auto.
    + by rewrite astore_length.
    + intros i r Hr. destruct (t_rec i r Hr) as [?|(z & Hz & Hl)]; [by left|right].
      rewrite Hget, (proj2 (Z.eqb_neq _ _)) by (by eapply Hmap). eauto.
    + intros k z. rewrite Hget. destruct (Z.eqb_spec k h) as [->|]; [by intros [= <-]|eauto].
    + rewrite t_total. by rewrite (zsum_astore is_active (handle_info s) h x y Hx).
  - intros i Hi r. rewrite E3 in Hi. rewrite E1, E2, E4. intros Hr. specialize (Hw i Hi r Hr).
    unfold EmmInv.target in *. rewrite Hget, (proj2 (Z.eqb_neq _ _)) by (by eapply Hmap). done.
  - intros Hno. rewrite Eall, E2, (Hc Hno). by rewrite (zsum_astore numpages (handle_info s) h x y Hx).
Qed.

(** ** Allocation *)

Lemma first_inactive_spec l k :
  match first_inactive l k with
  | Some i => exists j x, i = k + Z.of_nat j /\ l !! j = Some x /\ active x = 0
  | None => Forall (fun x => active x <> 0) l
  end.
Proof.
  revert k. induction l as [|x l IH]; intros k; simpl; [constructor|].
  destruct (Z.eqb_spec (active x) 0); [exists O, x; simpl; split; [lia|done]|].
  specialize (IH (k + 1)). destruct (first_inactive l (k + 1)) as [i|]; [|by constructor].
  destruct IH as (j & y & -> & Hj & Hy). exists (S j), y. split; [lia|done].
Qed.

Lemma free_handle s : tables_ok s ->
  match first_inactive (drop 1 (handle_info s)) 1 with
  | Some i => exists x, 1 <= i < 255 /\ aget (handle_info s) i = Some x /\ active x = 0
  | None => handle_total s = 255
  end.
Proof.
  intros Ht. pose proof (first_inactive_spec (drop 1 (handle_info s)) 1) as H.
  destruct (first_inactive _ _) as [i|].
  - destruct H as (j & x & -> & Hj & Hx). rewrite lookup_drop in Hj. exists x.
    assert (aget (handle_info s) (1 + Z.of_nat j) = Some x) as E.
    { unfold aget. rewrite (proj2 (Z.ltb_ge _ 0)) by lia.
      by replace (Z.to_nat (1 + Z.of_nat j)) with (1 + j)%nat by lia. }
    pose proof (info_range config s _ x Ht E). split; [lia|done].
  - pose proof (t_total config s Ht) as E. pose proof (t_info config s Ht) as Hlen.
    destruct (info_at_some config s 0 Ht ltac:(lia)) as [x0 H0].
    pose proof (h_os _ _ (t_hand config s Ht 0 x0 H0) eq_refl) as Hos.
    destruct (handle_info s) as [|y l]; [done|]. unfold aget in H0. simpl in H0, H, Hlen.
    injection H0 as ->. rewrite drop_0 in H. rewrite E. simpl.
    unfold is_active at 1. rewrite Hos. change (of_bool (truth 255)) with 1.
    assert (zsum is_active l = Z.of_nat (length l)) as ->; [|lia].
    clear -H. induction H as [|z l Hz _ IH]; simpl; [done|].
    unfold is_active at 1. unfold truth. rewrite (proj2 (Z.eqb_neq _ _)) by done. simpl. lia.
Qed.

(** What is seen of a new handle. *)
Definition fresh_handle (obj n : Z) (x : handle_record) : handle_record :=
  MkHandleRecord 1 n obj CLEAR_HANDLE_NAME (saved_mappings_handle x)
    (fill_prefix (saved_phys_pages config) NULL_PAGE (saved_mappings_logical x)) 0.

(** The effect of a successful allocation. *)
Record allocated (h n : Z) (s s' : emm) : Prop := {
  a_handle : 1 <= h < 255;
  a_free : exists x obj, aget (handle_info s) h = Some x /\ active x = 0 /\ (n <> 0 -> obj <> 0) /\
    handle_info s' = astore (handle_info s) h (fresh_handle obj n x);
  a_map : emm_map s' = emm_map s;
  a_mem : mem s' = mem s;
  a_total : handle_total s' = handle_total s + 1;
  a_alloc : emm_allocated s' = emm_allocated s + n;
  a_quota : n <= EMM_TOTAL config - emm_allocated s;
}.

(** A refused one: only the error code and the log change. *)
Definition refused (n : Z) (s s' : emm) : Prop :=
  same s s' /\
  ((emm_error s' = EMM_OUT_OF_HAN /\ handle_total s = 255) \/
   (emm_error s' = EMM_OUT_OF_PHYS /\ EMM_TOTAL config < n) \/
   (emm_error s' = EMM_OUT_OF_LOG /\ EMM_TOTAL config - emm_allocated s < n <= EMM_TOTAL config) \/
   (emm_error s' = EMM_OUT_OF_LOG /\ 0 < n /\ ~ no_failure env)).

Lemma unmapped_inactive s h x : tables_ok s -> aget (handle_info s) h = Some x -> numpages x = 0 ->
  forall i r, aget (emm_map s) i = Some r -> handle r <> h.
Proof.
  intros Ht Hx Hn i r Hr E. destruct (t_rec config s Ht i r Hr) as [E'|(z & Hz & Hl)].
  - by rewrite <- E, E', (info_null config s Ht) in Hx.
  - rewrite E in Hz. assert (z = x) as -> by congruence. lia.
Qed.

Lemma fresh_handle_ok h obj n x : hand_ok h x -> h <> 0 -> 0 <= n <= 65535 -> (n <> 0 -> obj <> 0) ->
  hand_ok h (fresh_handle obj n x).
Proof.
  intros Hx Hh Hn Ho. pose proof (saved_range config Hcfg) as Hsv. unfold fresh_handle, fill_prefix.
  destruct Hx. split; simpl; auto; try done.
  - by rewrite fill_length.
  - intros ->. destruct (Z.eq_dec n 0); [done|]. by destruct Ho.
  - intros j l g Hl Hg. rewrite aget_fill in Hl by lia. destruct (_ && _); [|eauto].
    injection Hl as <-. unfold NULL_PAGE. split; [lia|done].
Qed.

Lemma allocated_inv h n s s' : Inv s -> 0 <= n <= 65535 -> allocated h n s s' ->
  phys_pages s' = phys_pages s -> Inv s'.
Proof.
  intros Hs Hn [Hh (x & obj & Hx & Ha & Ho & E2) E1 E4 E5 E6 Hq] E3. pose proof (proj1 Hs) as Ht.
  pose proof (t_hand config s Ht h x Hx) as Hok. pose proof (h_inactive h x Hok Ha) as Hn0.
  apply (replaced_inv h x (fresh_handle obj n x) s s' Hs Hx).
  - apply fresh_handle_ok; auto; lia.
  - by apply (unmapped_inactive s h x).
  - by split.
  - unfold is_active. rewrite Ha. simpl. rewrite E5. change (of_bool (truth 0)) with 0. change (of_bool (truth 1)) with 1. lia.
  - rewrite E6, Hn0. simpl. lia.
  - lia.
Qed.

Lemma wp_set_error e s (Q : Z -> emm -> Prop) : Q EMM_ERROR (s <| emm_error := e |>) -> wp (set_error e) s Q.
Proof. intros H. unfold set_error. by repeat wp_step. Qed.

Lemma wp_new_object bytes s (Q : Z -> emm -> Prop) :
  (bytes = 0 -> Q 0 s) ->
  (forall obj l, bytes <> 0 -> (no_failure env -> obj <> 0) -> Q obj (s <| elog := l |>)) ->
  wp (new_memory_object env bytes) s Q.
Proof.
  intros H0 H1. unfold new_memory_object, truth. destruct (Z.eqb_spec bytes 0); simpl; [wp_step; auto|].
  unfold note. repeat wp_step. apply H1; [done|]. intros [Hno _].
  destruct (Hno (elog s) bytes) as (p & -> & Hp). done.
Qed.

(** [emm_allocate_handle], on every branch. *)
Lemma wp_allocate n s :
  tables_ok s -> 0 <= n ->
  wp (emm_allocate_handle config env n) s (fun h s' => rg s' = rg s /\ phys_pages s' = phys_pages s /\
    ((h = EMM_ERROR /\ refused n s s') \/ allocated h n s s')).
Proof.
  intros Ht Hn. unfold emm_allocate_handle. repeat wp_step.
  assert (forall e, same s (s <| emm_error := e |>)) as Hsame by by split.
  destruct (Z.leb_spec MAX_HANDLES (handle_total s)) as [H1|H1].
  { apply wp_set_error. split; [done|]. split; [done|]. left. split; [done|]. split; [apply Hsame|]. left.
    split; [done|]. pose proof (t_total config s Ht) as E. pose proof (t_info config s Ht) as Hlen.
    assert (zsum is_active (handle_info s) <= Z.of_nat (length (handle_info s))).
    { generalize (handle_info s). intros l. induction l as [|x l IH]; simpl; [lia|].
      unfold is_active at 1, of_bool. destruct (truth _); lia. }
    unfold MAX_HANDLES in H1. lia. }
  destruct (Z.ltb_spec (EMM_TOTAL config) n) as [H2|H2].
  { apply wp_set_error. split; [done|]. split; [done|]. left. split; [done|]. split; [apply Hsame|]. right. by left. }
  destruct (Z.ltb_spec (EMM_TOTAL config - emm_allocated s) n) as [H3|H3].
  { apply wp_set_error. split; [done|]. split; [done|]. left. split; [done|]. split; [apply Hsame|]. right. right. left.
    split; [done|lia]. }
  pose proof (free_handle s Ht) as Hfree. destruct (first_inactive _ _) as [i|].
  2: { apply wp_set_error. split; [done|]. split; [done|]. left. split; [done|]. split; [apply Hsame|]. by left. }
  destruct Hfree as (x & Hi & Hx & Ha).
  assert (forall obj l, (n <> 0 -> obj <> 0) ->
    wp (upd_info i (fun x => x <| object := obj |> <| numpages := n |> <| name := CLEAR_HANDLE_NAME |>) ;;
        modify (fun s => s <| handle_total ::= Z.add 1 |> <| emm_allocated ::= Z.add n |>) ;;
        upd_info i (fun x => x <| saved_mappings_logical ::= fill_prefix (saved_phys_pages config) NULL_PAGE |>
            <| saved_mapping := 0 |> <| active := 1 |>) ;;
        ret i) (s <| elog := l |>) (fun h s' => rg s' = rg s /\ phys_pages s' = phys_pages s /\
    ((h = EMM_ERROR /\ refused n s s') \/ allocated h n s s'))) as Hgood.
  { intros obj l Ho. wp_step. eapply wp_upd_info; [exact Hx|]. repeat wp_step.
    pose proof (aget_Some_lt _ _ _ Hx) as Hlt.
    eapply wp_upd_info; [simpl; rewrite aget_astore, Z.eqb_refl by lia; done|]. wp_step.
    split; [done|]. split; [done|]. right.
    split; [done| |done|done|simpl; lia|simpl; lia|lia].
    exists x, obj. split; [done|]. split; [done|]. split; [done|]. simpl. by rewrite astore_astore. }
  wp_step. apply wp_new_object.
  - intros E. assert (n = 0) as -> by (unfold EMM_PAGE_SIZE in E; lia). simpl.
    by apply (Hgood 0 (elog s)).
  - intros obj l Hb Hno. destruct (Z.eqb_spec obj 0) as [->|Hne]; simpl.
    + destruct (Z.ltb_spec 0 n); [|exfalso; unfold EMM_PAGE_SIZE in Hb; lia].
      apply wp_set_error. split; [done|]. split; [done|]. left. split; [done|]. split; [by split|]. do 3 right.
      split; [done|]. split; [done|]. intros Hf. by destruct (Hno Hf).
    + by apply Hgood.
Qed.

Lemma safe_allocate n : 0 <= n <= 65535 -> safe (emm_allocate_handle config env n).
Proof.
  intros Hn s Hs. eapply wp_mono; [apply wp_allocate; [apply Hs|lia]|].
  intros h s' (_ & Hp & [[_ [Hsame _]] | Ha]); [exact (same_inv config env s s' Hsame Hs)|].
  by eapply allocated_inv.
Qed.

End alloc.

(** ** The EMS driver: release, reallocation and reset *)

Section free.
Context (config : ems_config) (env : ems_env).
Context (Hcfg : config_ok config) (Henv : env_ok env).

Abbreviation Inv := (Inv config env).
Abbreviation tables_ok := (tables_ok config).
Abbreviation safe := (safe config env).
Abbreviation total_phys := (total_phys config).

(** *** Release *)

(** The table entry after the handle [h] is gone. *)
Definition dropped (h : Z) (r : emm_record) : emm_record :=
  if handle r =? h then mapped_entry NULL_HANDLE NULL_PAGE r else r.

(** The pages [0 .. k-1] are unmapped from [h]. *)
Record unmapped_upto (h k : Z) (s s' : emm) : Prop := {
  u_inv : Inv s';
  u_info : handle_info s' = handle_info s;
  u_total : handle_total s' = handle_total s;
  u_alloc : emm_allocated s' = emm_allocated s;
  u_phys : phys_pages s' = phys_pages s;
  u_regs : rg s' = rg s;
  u_host : host (mem s') = host (mem s);
  u_entry : forall i r, aget (emm_map s) i = Some r ->
    aget (emm_map s') i = Some (if i <? k then dropped h r else r);
}.

Lemma host_update a n v d : host (update_aliasmap a n v d) = host d.
Proof. unfold update_aliasmap. by destruct (ALIAS_SIZE <=? a). Qed.

Lemma wp_unmap_entry h k s0 s : h <> NULL_HANDLE -> 0 <= k < phys_pages s0 -> length (emm_map s0) = 36%nat ->
  unmapped_upto h k s0 s ->
  wp (let! r := get_map k in
      if handle r =? h then unmap_page env k ;; upd_map k (fun r => r <| handle := NULL_HANDLE |>)
      else ret tt) s (fun _ s' => unmapped_upto h (k + 1) s0 s').
Proof.
  intros Hh Hk Hlen0 [Hi E1 E2 E3 E4 E5 E6 He]. rewrite <- E4 in Hk.
  pose proof (phys_range config s k (proj1 Hi) Hk) as Hk'. pose proof (total_phys_range config Hcfg).
  destruct (aget_lt (emm_map s0) k) as [r Hr]; [lia|].
  pose proof (He k r Hr) as Hr'. rewrite Z.ltb_irrefl in Hr'.
  pose proof (t_map config s (proj1 Hi)) as Hlen.
  wp_step. apply (wp_get_map k s r); [done|]. destruct (Z.eqb_spec (handle r) h) as [E|E].
  - wp_step. apply (wp_unmap_page config env Hcfg Henv); [apply Hi| |].
    + intros q s1 _ Hq Hn Hm. assert (q = r) as -> by congruence.
      assert (Inv s1) as Hs1.
      { apply (remapped_inv config env Hcfg k (mapped_entry NULL_HANDLE NULL_PAGE r) s s1 Hi Hk);
          [|by left|done]. simpl. apply (entry_seg config s k r (proj1 Hi) Hk Hr'). }
      destruct Hm as [M1 M2 M3 M4 M5 M6 M7].
      assert (aget (emm_map s1) k = Some (mapped_entry NULL_HANDLE NULL_PAGE r)) as Hk1.
      { rewrite M1, aget_astore, Z.eqb_refl by lia. done. }
      assert (s1 <| emm_map ::= fun l => astore l k (mapped_entry NULL_HANDLE NULL_PAGE r <| handle := NULL_HANDLE |>) |> = s1) as Hid.
      { destruct s1. simpl in *. f_equal. subst. by rewrite astore_astore. }
      eapply wp_upd_map; [exact Hk1|].
      match goal with |- unmapped_upto _ _ _ ?t => replace t with s1 by (symmetry; exact Hid) end. split; try congruence; [by rewrite M6, host_update|].
      intros i p Hp. rewrite M1, aget_astore by lia. destruct (Z.eqb_spec i k) as [->|Hne].
      * assert (p = r) as -> by congruence. rewrite (proj2 (Z.ltb_lt k (k + 1))) by lia.
        unfold dropped. by rewrite (proj2 (Z.eqb_eq _ _) E).
      * rewrite (He i p Hp). do 2 f_equal. destruct (Z.ltb_spec i k), (Z.ltb_spec i (k + 1)); done || lia.
    + intros [Hp | (q & Hq & Hn)]; [apply in_phys_spec in Hk; congruence|]. congruence.
  - wp_step. split; try done. intros i p Hp. rewrite (He i p Hp). destruct (Z.eq_dec i k) as [->|Hne].
    + rewrite Z.ltb_irrefl, (proj2 (Z.ltb_lt k (k + 1))) by lia. assert (p = r) as -> by congruence.
      unfold dropped. by rewrite (proj2 (Z.eqb_neq _ _) E).
    + do 2 f_equal. destruct (Z.ltb_spec i k), (Z.ltb_spec i (k + 1)); done || lia.
Qed.

(** The record of the handle after its release. *)
Definition free_handle_record (x : handle_record) : handle_record :=
  x <| numpages := 0 |> <| active := 0 |> <| object := 0 |>.

Definition clear_name (x : handle_record) : handle_record := x <| name := CLEAR_HANDLE_NAME |>.

(** What [emm_deallocate_handle] leaves: the name cleared is that of handle
    number [phys_pages]. *)
Record released (h : Z) (x : handle_record) (s s' : emm) : Prop := {
  d_inv : Inv s';
  d_other : forall k y, k <> h -> aget (handle_info s) k = Some y ->
    aget (handle_info s') k = Some (if k =? phys_pages s then clear_name y else y);
  d_this : exists y, aget (handle_info s') h = Some y /\ active y = 0 /\ numpages y = 0;
  d_map : forall i r, aget (emm_map s) i = Some r -> i < phys_pages s ->
    aget (emm_map s') i = Some (dropped h r);
  d_total : handle_total s' = handle_total s - 1;
  d_alloc : emm_allocated s' = emm_allocated s - numpages x;
  d_phys : phys_pages s' = phys_pages s;
  d_regs : rg s' = rg s;
  d_host : host (mem s') = host (mem s);
}.

Lemma clear_name_ok h x : hand_ok h x -> hand_ok h (clear_name x).
Proof. intros []. by split. Qed.

Lemma free_record_ok h x : h <> 0 -> hand_ok h x -> hand_ok h (free_handle_record x).
Proof. intros Hh []. split; simpl; auto; lia. Qed.

Lemma wp_deallocate h x s :
  Inv s -> 1 <= h < 255 -> aget (handle_info s) h = Some x -> active x <> 0 ->
  wp (emm_deallocate_handle env h) s (fun _ s' => released h x s s').
Proof.
  intros Hs Hh Hx Ha. unfold emm_deallocate_handle. repeat wp_step.
  pose proof (t_map config s (proj1 Hs)) as Hlen. pose proof (total_phys_range config Hcfg) as Htot.
  assert (0 <= phys_pages s <= 36) as Hp by (destruct (t_phys config s (proj1 Hs)); lia).
  apply (wp_mfor (fun k s' => unmapped_upto h k s s')).
  { split; try done. intros i r Hr. rewrite Hr. destruct (Z.ltb_spec i 0); [|done].
    apply aget_Some_lt in Hr. lia. }
  { intros k s1 Hk H1. apply wp_unmap_entry; try done; [unfold NULL_HANDLE|]; lia. }
  intros s1 [Hi E1 E2 E3 E4 E5 E6 He].
  replace (0 + Z.of_nat (Z.to_nat (phys_pages s))) with (phys_pages s) in He by lia.
  wp_step. apply (wp_get_info h s1 x); [congruence|].
  assert (forall l, wp (upd_info h (fun x => x <| numpages := 0 |> <| active := 0 |> <| object := 0 |>) ;;
    upd_info (phys_pages s) (fun x => x <| name := CLEAR_HANDLE_NAME |>) ;;
    modify (fun s => s <| handle_total ::= fun n => n - 1 |> <| emm_allocated ::= fun n => n - numpages x |>))
    (s1 <| elog := l |>) (fun _ s' => released h x s s')) as Hrest.
  { intros l. wp_step. eapply wp_upd_info; [simpl; rewrite E1; exact Hx|].
    pose proof (info_range config s h x (proj1 Hs) Hx). pose proof (t_info config s (proj1 Hs)) as Hli.
    set (s2 := (s1 <| elog := l |>) <| handle_info ::= _ |>).
    destruct (info_at_some config s (phys_pages s) (proj1 Hs) ltac:(lia)) as [z Hz].
    assert (exists z', aget (handle_info s2) (phys_pages s) = Some z' /\
      z' = if phys_pages s =? h then free_handle_record x else z) as (z' & Hz' & Ez').
    { eexists. split; [|done]. unfold s2. simpl. rewrite E1, aget_astore by lia.
      by destruct (phys_pages s =? h). }
    wp_step. eapply wp_upd_info; [exact Hz'|]. wp_step.
    assert (forall k, aget (astore (handle_info s2) (phys_pages s) (clear_name z')) k =
      if k =? phys_pages s then Some (clear_name z') else
      if k =? h then Some (free_handle_record x) else aget (handle_info s) k) as Hget.
    { intros k. rewrite aget_astore by (unfold s2; simpl; rewrite astore_length, E1; lia).
      destruct (k =? phys_pages s); [done|]. unfold s2. simpl. rewrite E1, aget_astore by lia. done. }
    pose proof (t_hand config s (proj1 Hs) h x Hx) as Hok.
    assert (Inv (s2 <| handle_total ::= fun n => n - 1 |> <| emm_allocated ::= fun n => n - numpages x |>)) as Hs2.
    { apply (replaced_inv config env h x (free_handle_record x) s1).
      - done.
      - congruence.
      - apply free_record_ok; [lia|done].
      - intros i r Hr E. destruct (map_at_some config s i (proj1 Hs)) as [q Hq].
        { eapply (map_range config s1); [apply Hi|done]. }
        pose proof (He i q Hq) as Hr'. rewrite Hr in Hr'. injection Hr' as ->.
        destruct (Z.ltb_spec i (phys_pages s)) as [Hlt|Hge].
        + unfold dropped in E. destruct (Z.eqb_spec (handle q) h); simpl in E; [|done]. unfold NULL_HANDLE in E. lia.
        + destruct (t_rest config s (proj1 Hs) i q Hq Hge) as [E'|E']; rewrite E in E';
            unfold NULL_HANDLE, OS_HANDLE in E'; lia.
      - split; try done.
      - unfold s2, is_active. simpl. rewrite E2. unfold truth. rewrite (proj2 (Z.eqb_neq (active x) 0)) by done.
        simpl. lia.
      - unfold s2. simpl. rewrite E3. lia.
      - unfold s2. simpl. rewrite E3. pose proof (t_quota config s (proj1 Hs)). pose proof (h_pages h x Hok). lia. }
    split; [ | | | |unfold s2; simpl; lia|unfold s2; simpl; lia|done|done|done].
    - assert (hand_ok (phys_pages s) z') as Hzok.
      { subst z'. destruct (Z.eqb_spec (phys_pages s) h) as [->|]; [apply free_record_ok; [lia|done]|].
        by apply (t_hand config s (proj1 Hs)). }
      exact (inv_upd_info config env (phys_pages s) clear_name _ z' Hs2 Hz' (clear_name_ok _ _ Hzok) eq_refl eq_refl eq_refl).
    - intros k y Hne Hy. simpl. rewrite Hget, (proj2 (Z.eqb_neq k h)) by done.
      destruct (Z.eqb_spec k (phys_pages s)) as [->|]; [|done].
      rewrite Ez', (proj2 (Z.eqb_neq _ _)) by done. congruence.
    - simpl. rewrite Hget. rewrite Z.eqb_refl. destruct (Z.eqb_spec h (phys_pages s)) as [E|]; [|by eexists].
      rewrite Ez', <- E, Z.eqb_refl. by eexists.
    - intros i r Hr Hlt. simpl. rewrite (He i r Hr). by rewrite (proj2 (Z.ltb_lt _ _)). }
  unfold destroy_memory_object, note. wp_step. destruct (negb (truth (object x))); wp_step.
  - apply (Hrest (elog s1)).
  - apply Hrest.
Qed.

Lemma safe_deallocate_handle : safe (deallocate_handle env).
Proof.
  intros s Hs. unfold deallocate_handle. repeat wp_step. set (h := LWORD (edx (rg s))).
  assert (forall v s, Inv s -> wp (SETHI_AX v) s (fun _ s' => Inv s')) as Hax.
  { intros v. apply (neutral_safe config env). apply neutral_set_regs. }
  destruct (Z.eqb_spec h OS_HANDLE) as [|Hos]; [by apply Hax|].
  unfold MAX_HANDLES, OS_HANDLE in *.
  destruct (Z.ltb_spec h 0), (Z.leb_spec 255 h); simpl; try (by apply Hax).
  destruct (info_at_some config s h (proj1 Hs) ltac:(lia)) as [x Hx].
  wp_step. apply (wp_get_info h s x); [done|].
  destruct (Z.eqb_spec (active x) 1); simpl; [|by apply Hax].
  destruct (truth (saved_mapping x)); [by apply Hax|]. wp_step.
  eapply wp_mono; [apply (wp_deallocate h x); try done; lia|]. intros [] s' Hr. apply Hax, (d_inv _ _ _ _ Hr).
Qed.

End free.
