(* ===== verification/EmmRealloc.v ===== *)
(** * The EMS driver: reallocation of a handle *)

From stdpp Require Import base numbers list.
From Stdlib Require Import ZArith Lia.
From S2P Require Import Prelude Memcheck Dosmem Emm EmmInv EmmMap EmmAlloc.

Local Open Scope Z_scope.

Section realloc.
Context (config : ems_config) (env : ems_env).
Context (Hcfg : config_ok config) (Henv : env_ok env).

Abbreviation Inv := (Inv config env).
Abbreviation tables_ok := (tables_ok config).
Abbreviation safe := (safe config env).
Abbreviation total_phys := (total_phys config).
Abbreviation target := (target env).

Definition low (r : emm_record) : Z := LOWMEM (menv env) (PHYS_PAGE_ADDR r).

(** ** First loop: the pages of the handle show DOS memory again *)

Record mid (h k : Z) (s0 s : emm) : Prop := {
  n_map : emm_map s = emm_map s0;
  n_info : handle_info s = handle_info s0;
  n_total : handle_total s = handle_total s0;
  n_alloc : emm_allocated s = emm_allocated s0;
  n_phys : phys_pages s = phys_pages s0;
  n_regs : rg s = rg s0;
  n_host : host (mem s) = host (mem s0);
  n_win : forall i r, 0 <= i < phys_pages s0 -> aget (emm_map s0) i = Some r ->
    (handle r <> h -> win (lowmem_aliasmap (mem s)) (PHYS_PAGE_ADDR r) (target (handle_info s0) r)) /\
    (handle r = h -> i < k -> win (lowmem_aliasmap (mem s)) (PHYS_PAGE_ADDR r) (low r));
}.

Lemma wp_reunmap_entry h k s0 s : h <> NULL_HANDLE -> tables_ok s0 -> 0 <= k < phys_pages s0 -> mid h k s0 s ->
  tables_ok s ->
  wp (let! r := get_map k in
      if handle r =? h then reunmap_page env k ;; ret tt else ret tt) s (fun _ s' => mid h (k + 1) s0 s' /\ tables_ok s').
Proof.
  intros Hh Ht0 Hk [E1 E2 E3 E4 E5 E6 E7 Hw] Ht.
  pose proof (phys_range config s0 k Ht0 Hk) as Hk'. pose proof (total_phys_range config Hcfg).
  destruct (map_at_some config s0 k Ht0 ltac:(lia)) as [r Hr].
  pose proof (entry_seg config s0 k r Ht0 Hk Hr) as Hseg.
  wp_step. apply (wp_get_map k s r); [congruence|]. destruct (Z.eqb_spec (handle r) h) as [E|E].
  - wp_step. apply (wp_unmap_only config env Hcfg Henv); [done| |].
    + intros q s1 _ Hq Hn ->. assert (q = r) as -> by congruence. wp_step. split.
      2: { destruct Ht. split; simpl; auto. by apply update_bytes. }
      split; try done; [simpl; by rewrite host_update|]. intros i p Hi Hp. simpl.
      pose proof (entry_seg config s0 i p Ht0 Hi Hp) as Hsegp.
      pose proof (phys_range config s0 i Ht0 Hi) as Hi'.
      destruct (Hw i p Hi Hp) as [W1 W2].
      split; intros Hp1; [|intros Hlt]; apply (win_update config Hcfg k i); try done;
        destruct (Z.eqb_spec i k) as [->|Hne].
      * assert (p = r) as -> by congruence. done.
      * by apply W1.
      * assert (p = r) as -> by congruence. done.
      * apply W2; [done|lia].
    + intros [Hp | (q & Hq & Hn)]; [|congruence].
      assert (in_phys k s = true) by (apply in_phys_spec; lia). congruence.
  - wp_step. split; [|done]. split; try done. intros i p Hi Hp. destruct (Hw i p Hi Hp) as [W1 W2].
    split; [done|]. intros Hp1 Hlt. destruct (Z.eq_dec i k) as [->|]; [|apply W2; [done|lia]].
    congruence.
Qed.

(** ** The object *)

Definition resized (o n : Z) (x : handle_record) : handle_record := x <| object := o |> <| numpages := n |>.

(** The handle after the attempt; it fails only when host memory runs out. *)
Definition attempt (n : Z) (x y : handle_record) : Prop :=
  (exists o, (o = 0 -> n = 0) /\ y = resized o n x) \/ (y = x /\ ~ no_failure env).

Record reallocated (h n : Z) (x : handle_record) (s s' : emm) : Prop := {
  r_info : exists y, attempt n x y /\ handle_info s' = astore (handle_info s) h y;
  r_map : emm_map s' = emm_map s;
  r_total : handle_total s' = handle_total s;
  r_alloc : emm_allocated s' = emm_allocated s;
  r_phys : phys_pages s' = phys_pages s;
  r_alias : lowmem_aliasmap (mem s') = lowmem_aliasmap (mem s);
  r_bytes : bytes_ok (mem s) -> bytes_ok (mem s');
}.

Lemma astore_same {A} (l : list A) i x : aget l i = Some x -> astore l i x = l.
Proof.
  unfold aget, astore. destruct (i <? 0); [done|]. apply list_insert_id.
Qed.

Lemma failed_attempt h n x s s' : aget (handle_info s) h = Some x -> ~ no_failure env -> same s s' ->
  reallocated h n x s s'.
Proof.
  intros Hx Hf []. split; auto. exists x. split; [by right|]. by rewrite (astore_same _ _ _ Hx).
Qed.

Lemma wp_reallocate_object h n x s :
  aget (handle_info s) h = Some x -> hand_ok h x -> 0 <= n <= 65535 -> n <> numpages x ->
  wp (reallocate_object env h n) s (fun _ s' => reallocated h n x s s').
Proof.
  intros Hx Hok Hn Hne. unfold reallocate_object. wp_step. apply (wp_get_info h s x); [done|].
  assert (forall v s1, reallocated h n x s s1 -> wp (SETHI_AX v) s1 (fun _ s' => reallocated h n x s s')) as Hax.
  { intros v s1 []. apply wp_modify. by split. }
  assert (forall o s1, (o = 0 -> n = 0) -> same s s1 ->
    wp (upd_info h (fun x => x <| object := o |> <| numpages := n |>) ;; SETHI_AX EMM_NO_ERR) s1
      (fun _ s' => reallocated h n x s s')) as Hset.
  { intros o s1 Ho []. wp_step. eapply wp_upd_info; [rewrite s_info; exact Hx|]. apply Hax.
    split; simpl; auto. exists (resized o n x). split; [left; eauto|]. by rewrite s_info. }
  destruct (truth n && truth (object x)) eqn:Hb.
  - apply andb_prop in Hb as [Hb1 Hb2]. unfold truth in Hb1. destruct (Z.eqb_spec n 0); [done|].
    wp_step. unfold realloc_memory_object. repeat wp_step. unfold note. wp_step.
    destruct (realloc_mapping env (elog s) (object x) _ _) as [p|] eqn:E.
    + unfold set_mem. repeat wp_step.
      destruct (Z.eqb_spec p 0) as [->|Hp].
      * apply Hax, failed_attempt; [done| |].
        -- intros [_ Hf]. destruct (Hf (elog s) (object x) (numpages x * EMM_PAGE_SIZE) (n * EMM_PAGE_SIZE)) as (q & Hq & Hq0). congruence.
        -- split; try done; simpl; by apply (e_realloc env Henv).
      * apply Hset; [done|]. split; try done; simpl; by apply (e_realloc env Henv).
    + wp_step. apply Hax, failed_attempt; [done| |by split].
      intros [_ Hf]. destruct (Hf (elog s) (object x) (numpages x * EMM_PAGE_SIZE) (n * EMM_PAGE_SIZE)) as (q & Hq & Hq0). congruence.
  - destruct (truth (object x)) eqn:Ho.
    + rewrite andb_true_r in Hb. unfold truth in Hb. destruct (Z.eqb_spec n 0) as [->|]; [|done].
      unfold destroy_memory_object. rewrite Ho. simpl. unfold note. wp_step. apply wp_modify.
      apply (Hset 0 (s <| elog ::= cons (FreeMapping (object x) (numpages x * EMM_PAGE_SIZE)) |>)); [done|by split].
    + assert (n <> 0) as Hn0.
      { intros ->. unfold truth in Ho. destruct (Z.eqb_spec (object x) 0) as [E|]; [|done].
        pose proof (h_object h x Hok E). lia. }
      unfold truth. rewrite (proj2 (Z.eqb_neq n 0)) by done. simpl. wp_step. apply wp_new_object.
      { unfold EMM_PAGE_SIZE. lia. }
      intros o l _ Hno. destruct (Z.eqb_spec o 0) as [->|Hp].
      * apply Hax, failed_attempt; [done| |by split]. intros Hf. by apply Hno.
      * apply Hset; [done|by split].
Qed.

(** ** Second loop: remap what is still in range *)

Definition trimmed (h n : Z) (r : emm_record) : emm_record :=
  if (handle r =? h) && (n <=? logical_page r) then mapped_entry NULL_HANDLE NULL_PAGE r else r.

Record fin (h n k : Z) (s2 s : emm) : Prop := {
  f_info : handle_info s = handle_info s2;
  f_total : handle_total s = handle_total s2;
  f_alloc : emm_allocated s = emm_allocated s2;
  f_phys : phys_pages s = phys_pages s2;
  f_host : host (mem s) = host (mem s2);
  f_regs : rg s = rg s2;
  f_len : length (emm_map s) = length (emm_map s2);
  f_entry : forall i r, aget (emm_map s2) i = Some r ->
    aget (emm_map s) i = Some (if i <? k then trimmed h n r else r);
  f_win : forall i r, 0 <= i < phys_pages s2 -> aget (emm_map s2) i = Some r ->
    win (lowmem_aliasmap (mem s)) (PHYS_PAGE_ADDR r)
      (if (handle r =? h) && ((k <=? i) || (n <=? logical_page r)) then low r else target (handle_info s2) r);
}.

Lemma wp_remap_entry h n k y s2 s :
  h <> NULL_HANDLE -> aget (handle_info s2) h = Some y ->
  (forall i r, aget (emm_map s2) i = Some r -> i < total_phys -> phys_seg r = seg_of config i) ->
  length (emm_map s2) = 36%nat ->
  (phys_pages s2 = 0 \/ phys_pages s2 = total_phys) ->
  0 <= k < phys_pages s2 -> fin h n k s2 s ->
  wp (let! r := get_map k in
      if handle r =? h then
        if n <=? logical_page r then
          upd_map k (fun r => r <| handle := NULL_HANDLE |> <| logical_page := NULL_PAGE |>)
        else remap_page env k ;; ret tt
      else ret tt) s (fun _ s' => fin h n (k + 1) s2 s').
Proof.
  intros Hh Hy Hseg Hlen Hph Hk [E1 E2 E3 E4 E5 E6 E7 He Hw].
  pose proof (total_phys_range config Hcfg) as Htot.
  destruct (aget_lt (emm_map s2) k) as [r Hr]; [lia|].
  pose proof (He k r Hr) as Hr'. rewrite Z.ltb_irrefl in Hr'.
  assert (forall i, i <> k -> (i <? k + 1) = (i <? k) /\ (k + 1 <=? i) = (k <=? i)) as Hcmp.
  { intros i Hi. destruct (Z.ltb_spec i k), (Z.ltb_spec i (k + 1)), (Z.leb_spec k i), (Z.leb_spec (k + 1) i); done || lia. }
  wp_step. apply (wp_get_map k s r); [done|]. destruct (Z.eqb_spec (handle r) h) as [E|E].
  - destruct (Z.leb_spec n (logical_page r)) as [Hl|Hl].
    + eapply wp_upd_map; [exact Hr'|]. split; try done; simpl.
      * by rewrite astore_length.
      * intros i p Hp. rewrite aget_astore by lia. destruct (Z.eqb_spec i k) as [->|Hne].
        -- assert (p = r) as -> by congruence. rewrite (proj2 (Z.ltb_lt k (k + 1))) by lia.
           unfold trimmed. by rewrite (proj2 (Z.eqb_eq _ _) E), (proj2 (Z.leb_le _ _) Hl).
        -- rewrite (He i p Hp). by rewrite (proj1 (Hcmp i Hne)).
      * intros i p Hi Hp. specialize (Hw i p Hi Hp). destruct (Z.eq_dec i k) as [->|Hne].
        -- assert (p = r) as -> by congruence. rewrite (proj2 (Z.leb_le _ _) Hl), orb_true_r in *. done.
        -- by rewrite (proj2 (Hcmp i Hne)).
    + unfold remap_page, map_page_again. repeat wp_step.
      assert (in_phys k s = true) as Hin by (apply in_phys_spec; lia).
      rewrite in_phys_test, Hin. simpl. wp_step. apply (wp_get_map k s r); [done|].
      rewrite (proj2 (Z.eqb_neq _ _)) by congruence. wp_step. apply (wp_get_info _ s y); [congruence|].
      unfold do_map_page. repeat wp_step. apply (wp_alias env Henv). intros s' ->. repeat wp_step.
      split; try done; simpl; [by rewrite host_update| |].
      * intros i p Hp. rewrite (He i p Hp). destruct (Z.eq_dec i k) as [->|Hne]; [|by rewrite (proj1 (Hcmp i Hne))].
        assert (p = r) as -> by congruence. rewrite Z.ltb_irrefl, (proj2 (Z.ltb_lt k (k + 1))) by lia.
        unfold trimmed. rewrite (proj2 (Z.leb_gt _ _) Hl), andb_false_r. done.
      * intros i p Hi Hp. specialize (Hw i p Hi Hp).
        assert (0 <= i < total_phys) as Hi' by lia. assert (0 <= k < total_phys) as Hk' by lia.
        apply (win_update config Hcfg k i); [done|done|apply Hseg; [done|lia]|apply Hseg; [done|lia]|].
        destruct (Z.eqb_spec i k) as [->|Hne].
        -- assert (p = r) as -> by congruence. rewrite (proj2 (Z.leb_gt _ _) Hl), (proj2 (Z.leb_gt (k + 1) k)) by lia.
           rewrite andb_false_r. unfold EmmInv.target. by rewrite E, Hy.
        -- by rewrite (proj2 (Hcmp i Hne)).
  - wp_step. split; try done.
    + intros i p Hp. rewrite (He i p Hp). destruct (Z.eq_dec i k) as [->|Hne]; [|by rewrite (proj1 (Hcmp i Hne))].
      assert (p = r) as -> by congruence. rewrite Z.ltb_irrefl, (proj2 (Z.ltb_lt k (k + 1))) by lia.
      unfold trimmed. by rewrite (proj2 (Z.eqb_neq _ _) E).
    + intros i p Hi Hp. specialize (Hw i p Hi Hp). destruct (Z.eq_dec i k) as [->|Hne]; [|by rewrite (proj2 (Hcmp i Hne))].
      assert (p = r) as -> by congruence. by rewrite (proj2 (Z.eqb_neq _ _) E) in *.
Qed.

(** ** The whole request *)

Lemma attempt_ok h n x y : hand_ok h x -> h <> 0 -> active x <> 0 -> 0 <= n <= 65535 -> attempt n x y -> hand_ok h y.
Proof.
  intros Hx Hh Ha Hn [(o & Ho & ->) | [-> _]]; [|done]. destruct Hx. unfold resized. split; simpl; auto; done.
Qed.

Lemma attempt_active n x y : attempt n x y -> active y = active x.
Proof. by intros [(o & Ho & ->) | [-> _]]. Qed.

Lemma attempt_pages n x y : attempt n x y -> numpages y = n \/ (y = x /\ ~ no_failure env).
Proof. intros [(o & Ho & ->) | H]; auto. Qed.

(** The state after both loops, for a state [s2] in which the attempt is made. *)
Lemma final_inv h n x y s s2 s3 :
  Inv s -> 1 <= h < 255 -> aget (handle_info s) h = Some x -> active x <> 0 -> hand_ok h y -> attempt n x y ->
  emm_allocated s + (n - numpages x) <= EMM_TOTAL config ->
  handle_info s2 = astore (handle_info s) h y -> emm_map s2 = emm_map s -> handle_total s2 = handle_total s ->
  emm_allocated s2 = n - numpages x + emm_allocated s -> phys_pages s2 = phys_pages s ->
  (bytes_ok (mem s) -> bytes_ok (mem s2)) ->
  fin h n (phys_pages s2) s2 s3 ->
  Inv s3 /\ phys_pages s3 = phys_pages s /\ emm_allocated s3 = emm_allocated s + (n - numpages x) /\
  (exists y, attempt n x y /\ handle_info s3 = astore (handle_info s) h y) /\
  (forall i r, aget (emm_map s) i = Some r -> i < phys_pages s -> aget (emm_map s3) i = Some (trimmed h n r)).
Proof.
  intros Hs Hh Hx Ha Hyok Hy Hq F1 F2 F3 F4 F5 F7 [G1 G2 G3 G4 G5 G6 G7 Ge Gw].
  destruct Hs as (Ht & Hw & Hc). pose proof (total_phys_range config Hcfg) as Htot.
  pose proof (t_map config s Ht) as Hlen.
  assert (forall k, aget (handle_info s3) k = if k =? h then Some y else aget (handle_info s) k) as Hget.
  { intros k. rewrite G1, F1. by apply (aget_replaced s h x y k). }
  assert (forall i r, aget (emm_map s) i = Some r -> i < phys_pages s -> aget (emm_map s3) i = Some (trimmed h n r)) as Htrim.
  { intros i r Hr Hi. rewrite <- F2 in Hr. rewrite (Ge i r Hr). by rewrite F5, (proj2 (Z.ltb_lt _ _) Hi). }
  assert (forall i q, aget (emm_map s3) i = Some q -> exists r, aget (emm_map s) i = Some r /\
    q = if i <? phys_pages s then trimmed h n r else r) as Hback.
  { intros i q Hq3. destruct (aget_lt (emm_map s) i) as [r Hr].
    { apply aget_Some_lt in Hq3. rewrite G7, F2 in Hq3. lia. }
    exists r. split; [done|]. rewrite <- F2 in Hr. rewrite (Ge i r Hr), F5 in Hq3. congruence. }
  assert (forall r, phys_seg (trimmed h n r) = phys_seg r) as Hsegt.
  { intros r. unfold trimmed. by destruct (_ && _). }
  split; [split; [|split]|split; [congruence|split; [lia|split; [|exact Htrim]]]].
  - destruct Ht. split; rewrite ?G2, ?F3; auto.
    + by rewrite G7, F2.
    + by rewrite G1, F1, astore_length.
    + by rewrite G4, F5.
    + intros i q Hq3. destruct (Hback i q Hq3) as (r & Hr & ->).
      assert (rec_ok (handle_info s3) (trimmed h n r) /\ (phys_pages s <= i -> handle r <> h)) as [H1 H2].
      { split.
        - unfold trimmed. destruct (Z.eqb_spec (handle r) h) as [E|E]; simpl.
          + destruct (Z.leb_spec n (logical_page r)); [by left|]. right. exists y. rewrite Hget, E, Z.eqb_refl.
            split; [done|]. destruct (t_rec i r Hr) as [E'|(z & Hz & Hl)]; [exfalso; rewrite E in E'; unfold NULL_HANDLE in E'; lia|].
            destruct (attempt_pages n x y Hy) as [->|[-> _]]; [lia|]. rewrite E in Hz. assert (z = x) as -> by congruence. lia.
          + destruct (t_rec i r Hr) as [E'|(z & Hz & Hl)]; [by left|right]. exists z.
            by rewrite Hget, (proj2 (Z.eqb_neq _ _)).
        - intros Hge E. destruct (t_rest i r Hr Hge) as [E'|E']; rewrite E in E'; unfold NULL_HANDLE, OS_HANDLE in E'; lia. }
      destruct (Z.ltb_spec i (phys_pages s)) as [|Hge]; [done|].
      unfold trimmed in H1. by rewrite (proj2 (Z.eqb_neq _ _)) in H1 by (by apply H2).
    + intros i q Hq3 Hi. destruct (Hback i q Hq3) as (r & Hr & ->).
      destruct (i <? phys_pages s); rewrite ?Hsegt; by apply t_seg.
    + intros i q Hq3 Hi. destruct (Hback i q Hq3) as (r & Hr & ->). rewrite G4, F5 in Hi.
      rewrite (proj2 (Z.ltb_ge _ _)) by lia. by apply (t_rest i).
    + intros k z. rewrite Hget. destruct (Z.eqb_spec k h) as [->|]; [by intros [= <-]|eauto].
    + rewrite G1, F1, t_total. rewrite (zsum_astore is_active (handle_info s) h x y Hx).
      unfold is_active. rewrite (attempt_active n x y Hy). lia.
    + rewrite G3, F4. lia.
    + intros p. rewrite G5. apply (F7 t_bytes p).
  - intros i Hi q Hq3. rewrite G4, F5 in Hi. destruct (Hback i q Hq3) as (r & Hr & ->).
    rewrite (proj2 (Z.ltb_lt _ _)) by lia. pose proof Hr as Hr2. rewrite <- F2 in Hr2.
    specialize (Gw i r ltac:(lia) Hr2). rewrite F5, (proj2 (Z.leb_gt (phys_pages s) i)) in Gw by lia. simpl in Gw.
    unfold trimmed. destruct ((handle r =? h) && (n <=? logical_page r)).
    + unfold EmmInv.target. simpl. rewrite G1, F1.
      rewrite aget_None; [done|]. rewrite astore_length, (t_info config s Ht). unfold NULL_HANDLE. lia.
    + by rewrite G1.
  - intros Hno. rewrite G3, F4, G1, F1. rewrite (zsum_astore numpages (handle_info s) h x y Hx).
    rewrite (Hc Hno). destruct (attempt_pages n x y Hy) as [->|[_ Hf]]; [lia|done].
  - exists y. split; [done|]. by rewrite G1, F1.
Qed.

(** The two loops around the attempt. *)
Lemma wp_reallocate_loops h n x s :
  Inv s -> 1 <= h < 255 -> aget (handle_info s) h = Some x -> active x <> 0 -> 0 <= n <= 65535 ->
  n <> numpages x -> emm_allocated s + (n - numpages x) <= EMM_TOTAL config ->
  wp (modify (fun s => s <| emm_allocated ::= Z.add (n - numpages x) |>) ;;
      mfor (Z.to_nat (phys_pages s)) 0 (fun i =>
        let! r := get_map i in
        if handle r =? h then reunmap_page env i ;; ret tt else ret tt) ;;
      reallocate_object env h n ;;
      mfor (Z.to_nat (phys_pages s)) 0 (fun i =>
        let! r := get_map i in
        if handle r =? h then
          if n <=? logical_page r then
            upd_map i (fun r => r <| handle := NULL_HANDLE |> <| logical_page := NULL_PAGE |>)
          else remap_page env i ;; ret tt
        else ret tt)) s
    (fun _ s' => Inv s' /\ phys_pages s' = phys_pages s /\ emm_allocated s' = emm_allocated s + (n - numpages x) /\
       (exists y, attempt n x y /\ handle_info s' = astore (handle_info s) h y) /\
       (forall i r, aget (emm_map s) i = Some r -> i < phys_pages s -> aget (emm_map s') i = Some (trimmed h n r))).
Proof.
  intros Hs Hh Hx Ha Hn Hne Hq. pose proof (proj1 Hs) as Ht. pose proof (proj1 (proj2 Hs)) as Hw.
  pose proof (t_hand config s Ht h x Hx) as Hok. pose proof (total_phys_range config Hcfg) as Htot.
  assert (h <> NULL_HANDLE) as Hhn by (unfold NULL_HANDLE; lia).
  assert (0 <= phys_pages s <= 36) as Hp by (destruct (t_phys config s Ht); lia).
  repeat wp_step. set (s0 := s <| emm_allocated ::= _ |>).
  assert (tables_ok s0) as Ht0 by (destruct Ht; split; simpl; auto; lia).
  apply (wp_mfor (fun k s' => mid h k s0 s' /\ tables_ok s')).
  { split; [|done]. split; try done. intros i r Hi Hr. split; [|lia]. intros _. exact (Hw i Hi r Hr). }
  { intros k s1 Hk [Hm H1]. apply wp_reunmap_entry; try done. simpl. lia. }
  intros s1 [Hm H1]. destruct Hm as [E1 E2 E3 E4 E5 E6 E7 Hw1]. wp_step.
  eapply wp_mono; [apply (wp_reallocate_object h n x); [by rewrite E2|done..]|].
  intros [] s2 [(y & Hy & F1) F2 F3 F4 F5 F6 F7].
  pose proof (attempt_ok h n x y Hok ltac:(lia) Ha Hn Hy) as Hyok.
  rewrite E2 in F1. rewrite E1 in F2. rewrite E3 in F3. rewrite E4 in F4. rewrite E5 in F5.
  assert (forall k, aget (handle_info s2) k = if k =? h then Some y else aget (handle_info s) k) as Hget.
  { intros k. rewrite F1. by apply (aget_replaced s h x y k). }
  apply (wp_mfor (fun k s' => fin h n k s2 s')).
  { split; try done.
    - intros i r Hr. rewrite Hr. destruct (Z.ltb_spec i 0); [apply aget_Some_lt in Hr; lia|done].
    - intros i r Hi Hr. rewrite F2 in Hr. rewrite F5 in Hi. rewrite F6.
      destruct (Hw1 i r Hi Hr) as [W1 W2]. rewrite (proj2 (Z.leb_le 0 i)) by lia. rewrite andb_true_r.
      destruct (Z.eqb_spec (handle r) h) as [E|E]; [apply W2; [done|simpl in Hi; lia]|].
      specialize (W1 E). unfold EmmInv.target in *. by rewrite Hget, (proj2 (Z.eqb_neq _ _)). }
  { intros k s3 Hk Hf. apply (wp_remap_entry h n k y); try done.
    - by rewrite Hget, Z.eqb_refl.
    - rewrite F2. apply (t_seg config s Ht).
    - rewrite F2. apply (t_map config s Ht).
    - rewrite F5. apply (t_phys config s Ht).
    - rewrite F5. simpl. lia. }
  intros s3 Hf. apply (final_inv h n x y s s2 s3); try done.
  { intros _. apply F7, (t_bytes config s1 H1). }
  replace (phys_pages s2) with (0 + Z.of_nat (Z.to_nat (phys_pages s))); [done|]. rewrite F5. simpl. lia.
Qed.

End realloc.
