(* ===== verification/EmmSafe.v ===== *)
(** * The EMS driver: every request keeps the invariant *)

From stdpp Require Import base numbers list.
From Stdlib Require Import ZArith Lia.
From S2P Require Import Prelude Memcheck Dosmem Emm EmmInv EmmMap EmmAlloc EmmRealloc.

Local Open Scope Z_scope.

Section reset.
Context (config : ems_config) (env : ems_env).
Context (Hcfg : config_ok config) (Henv : env_ok env).

Abbreviation Inv := (Inv config env).
Abbreviation tables_ok := (tables_ok config).
Abbreviation safe := (safe config env).
Abbreviation neutral := (neutral config env).
Abbreviation total_phys := (total_phys config).

(** ** Reset *)

(** What a reset relies on: arrays of the right size. *)
Record shape_ok (s : emm) : Prop := {
  sh_map : length (emm_map s) = 36%nat;
  sh_info : length (handle_info s) = 255%nat;
  sh_seg : forall i r, aget (emm_map s) i = Some r -> i < total_phys -> phys_seg r = seg_of config i;
  sh_hand : forall h x, aget (handle_info s) h = Some x ->
    length (name x) = 9%nat /\ length (saved_mappings_handle x) = 4%nat /\
    length (saved_mappings_logical x) = 4%nat /\
    (forall j l g, aget (saved_mappings_logical x) j = Some l ->
       aget (saved_mappings_handle x) j = Some g -> 0 <= l /\ (l <> NULL_PAGE -> 0 <= g < MAX_HANDLES));
  sh_bytes : bytes_ok (mem s);
}.

Lemma tables_shape s : tables_ok s -> shape_ok s.
Proof. intros []. split; auto. intros h x Hx. destruct (t_hand h x Hx). auto. Qed.

Definition cleared (x : handle_record) : handle_record := x <| numpages := 0 |> <| active := 0 |>.

Definition os_record (x : handle_record) : handle_record :=
  MkHandleRecord 255 (ems_cnv_pages config) (LOWMEM (menv env) (Z.shiftl (cnv_start_seg config) 4)) system_name
    (saved_mappings_handle x)
    (fill_prefix (saved_phys_pages config) NULL_PAGE (saved_mappings_logical x)) (saved_mapping x).

Lemma aget_fmap {A B} (f : A -> B) l i : aget (f <$> l) i = f <$> aget l i.
Proof. unfold aget. destruct (i <? 0); [done|]. apply list_lookup_fmap. Qed.

Lemma zsum_fmap_0 {A B} (f : A -> B) g l : (forall x, g (f x) = 0) -> zsum g (f <$> l) = 0.
Proof. intros H. induction l as [|x l IH]; [done|].
  change (g (f x) + zsum g (f <$> l) = 0). by rewrite H, IH. Qed.

(** The table after [k] conventional pages have been given to the system. *)
Record reset_upto (k : Z) (s0 s : emm) : Prop := {
  rs_info : handle_info s = handle_info s0;
  rs_alloc : emm_allocated s = emm_allocated s0;
  rs_mem : mem s = mem s0;
  rs_mc : mc s = mc s0;
  rs_len : length (emm_map s) = 36%nat;
  rs_entry : forall i r, aget (emm_map s) i = Some r ->
    (i < total_phys -> phys_seg r = seg_of config i) /\
    (handle r = NULL_HANDLE \/
     (handle r = OS_HANDLE /\ ems_uma_pages config <= i < ems_uma_pages config + k /\
      logical_page r = i - ems_uma_pages config));
}.

(** Every page of the frame stands for the DOS memory below it. *)
Definition home (s : emm) : Prop :=
  forall i r, 0 <= i < total_phys -> aget (emm_map s) i = Some r ->
    target env (handle_info s) r = LOWMEM (menv env) (PHYS_PAGE_ADDR r).

Lemma wp_reset2 s : shape_ok s -> wp (ems_reset2 config env) s (fun _ s' =>
  (Inv s' /\ home s') /\ handle_total s' = 1 /\ emm_allocated s' = ems_cnv_pages config /\ phys_pages s' = 0 /\ mem s' = mem s /\ mc s' = mc s).
Proof.
  intros [H1 H2 H3 H4 H5]. unfold ems_reset2. pose proof (total_phys_range config Hcfg) as Htot.
  pose proof (c_cnv config Hcfg) as Hcnv. pose proof (c_uma config Hcfg) as Huma.
  pose proof (saved_range config Hcfg) as Hsv.
  unfold EMM_UMA_MAX_PHYS, EMM_CNV_MAX_PHYS in *.
  unfold truth at 1. rewrite (proj2 (Z.eqb_neq _ 0)) by (pose proof (c_size config Hcfg); lia). simpl.
  destruct (aget_lt (handle_info s) 0) as [x Hx]; [lia|].
  wp_step. apply wp_modify. match goal with |- wp _ ?t _ => set (s1 := t) end.
  assert (aget (handle_info s1) OS_HANDLE = Some (cleared x)) as Hx1.
  { unfold s1, OS_HANDLE. simpl. by rewrite aget_fmap, Hx. }
  wp_step. eapply wp_upd_info; [exact Hx1|]. pose (y := (os_record x) <| name := name x |>).
  set (s2 := s1 <| handle_info ::= fun l => astore l OS_HANDLE y |>).
  match goal with |- wp _ ?t _ => change t with s2 end. wp_step.
  apply (wp_mfor (fun k s' => reset_upto k s2 s')).
  { split; try done; [simpl; by rewrite length_fmap|]. intros i r. simpl. rewrite aget_fmap.
    destruct (aget (emm_map s) i) as [q|] eqn:E; [|done]. intros [= <-]. simpl. split; [|by left].
    by apply H3. }
  { intros k s' Hk [E1 E2 E3 Emc E4 E5].
    destruct (aget_lt (emm_map s') (k + ems_uma_pages config)) as [q Hq]; [lia|].
    eapply wp_upd_map; [exact Hq|]. split; try done; simpl; [by rewrite astore_length|].
    intros i r. rewrite aget_astore by (unfold cnv_pages_start; lia). unfold cnv_pages_start.
    destruct (Z.eqb_spec i (k + ems_uma_pages config)) as [->|Hne].
    - intros [= <-]. simpl. split; [intros Hlt; by apply (E5 _ q Hq)|]. right. repeat split; lia.
    - intros Hr. destruct (E5 i r Hr) as [Ha Hb]. split; [done|].
      destruct Hb as [Hb|(Hb & Hc & Hd)]; [by left|right]. repeat split; auto; lia. }
  intros s3 [E1 E2 E3 Emc E4 E5]. wp_step. apply wp_modify. wp_step.
  assert (aget (handle_info s3) OS_HANDLE = Some y) as Hy.
  { rewrite E1. unfold s2, OS_HANDLE. simpl. rewrite aget_astore, Z.eqb_refl by (rewrite length_fmap; lia). done. }
  eapply wp_upd_info; [exact Hy|]. apply wp_modify. simpl.
  assert (forall h, aget (astore (handle_info s3) OS_HANDLE (y <| name := system_name |>)) h =
    if h =? 0 then Some (os_record x) else cleared <$> aget (handle_info s) h) as Hget.
  { intros h. rewrite aget_astore by (apply aget_Some_lt in Hy; done). unfold OS_HANDLE.
    destruct (Z.eqb_spec h 0); [done|]. rewrite E1. unfold s2, s1. simpl.
    rewrite aget_astore by (rewrite length_fmap; unfold OS_HANDLE; lia). unfold OS_HANDLE.
    rewrite (proj2 (Z.eqb_neq _ _)) by done. by rewrite aget_fmap. }
  assert (length (astore (handle_info s3) OS_HANDLE (y <| name := system_name |>)) = 255%nat) as Hlen.
  { rewrite astore_length, E1. unfold s2, s1. simpl. by rewrite astore_length, length_fmap. }
  assert (forall f : handle_record -> Z, (forall z, f (cleared z) = 0) ->
    zsum f (astore (handle_info s3) OS_HANDLE (y <| name := system_name |>)) = f (os_record x)) as Hsum.
  { intros f Hf. rewrite (zsum_astore f (handle_info s3) OS_HANDLE y) by done.
    assert (handle_info s3 = astore (cleared <$> handle_info s) OS_HANDLE y) as -> by exact E1.
    rewrite (zsum_astore f _ OS_HANDLE (cleared x)) by (unfold OS_HANDLE; by rewrite aget_fmap, Hx).
    rewrite (zsum_fmap_0 cleared f (handle_info s)) by done. rewrite Hf.
    change (y <| name := system_name |>) with (os_record x). lia. }
  split; [|by rewrite E2, E3, Emc].
  split.
  2: { intros i r Hi Hr. destruct (E5 i r Hr) as [Hs [Hb|(Hb & Hc & Hd)]]; unfold target; rewrite Hb; simpl;
      [rewrite aget_None; [done|simpl in Hlen; rewrite Hlen; unfold NULL_HANDLE; lia]|].
    pose proof (Hget OS_HANDLE) as Hos. simpl in Hos. rewrite Hos. simpl. unfold LOWMEM, PHYS_PAGE_ADDR. rewrite Hs, Hd by lia.
    unfold seg_of, EMM_PAGE_SIZE. rewrite (proj2 (Z.ltb_ge _ _)), !Z.shiftl_mul_pow2 by lia. lia. }
  split; [|split].
  - split; simpl; auto.
    + intros i r Hr. destruct (E5 i r Hr) as [_ [Hb|(Hb & Hc & Hd)]]; [by left|right].
      exists (os_record x). rewrite Hget, Hb. split; [done|]. simpl. lia.
    + intros i r Hr. by apply E5.
    + intros i r Hr _. destruct (E5 i r Hr) as [_ [Hb|(Hb & _)]]; auto.
    + intros h z. rewrite Hget. destruct (Z.eqb_spec h 0) as [->|Hh].
      * intros [= <-]. destruct (H4 0 x Hx) as (L1 & L2 & L3 & L4).
        split; simpl; auto; try done; try lia; [unfold fill_prefix; by rewrite fill_length| | ].
        -- unfold LOWMEM, cnv_start_seg. rewrite Z.shiftl_mul_pow2 by lia. pose proof (e_lowmem env Henv). lia.
        -- intros j l g Hl Hg. unfold fill_prefix in Hl. rewrite aget_fill in Hl by lia.
           destruct (_ && _); [|eauto]. injection Hl as <-. unfold NULL_PAGE. split; [lia|done].
      * destruct (aget (handle_info s) h) as [q|] eqn:Hq; [|done]. intros [= <-].
        destruct (H4 h q Hq) as (L1 & L2 & L3 & L4). split; simpl; auto; try done; lia.
    + symmetry. exact (Hsum is_active (fun _ => eq_refl)).
    + rewrite E2. simpl. unfold EMM_TOTAL. pose proof (c_size config Hcfg).
      assert (0 <= Z.shiftr (ems_size config) 4) by (apply Z.shiftr_nonneg; lia). lia.
    + by rewrite E3.
  - intros i Hi. simpl in Hi. lia.
  - intros _. simpl. rewrite E2. symmetry. exact (Hsum numpages (fun _ => eq_refl)).
Qed.

Lemma safe_reset : safe (ems_reset config env).
Proof.
  apply safe_bind; [|intros []; apply safe_bind].
  - apply safe_mfor. intros h Hh s Hs. unfold MAX_HANDLES in Hh.
    destruct (info_at_some config s h (proj1 Hs) ltac:(lia)) as [x Hx].
    wp_step. apply (wp_get_info h s x); [done|]. unfold truth.
    destruct (Z.eqb_spec (active x) 0); simpl; [by wp_step|].
    eapply wp_mono; [apply (wp_deallocate config env Hcfg Henv h x); try done; lia|].
    intros [] s' Hr. apply (d_inv _ _ _ _ _ _ Hr).
  - apply neutral_safe. intros s _. unfold on_memcheck, memcheck_map_free, wp. simpl. by split.
  - intros [] s Hs. eapply wp_mono; [by apply wp_reset2, tables_shape, Hs|]. by intros [] s' [[H _] _].
Qed.

(** ** Requests that read or write the client *)

Ltac neut :=
  repeat first
    [ apply neutral_ret | apply neutral_get | apply neutral_gets | apply neutral_set_regs
    | apply neutral_note
    | apply neutral_set_mem
    | apply neutral_bind; [|intros ?] | progress simpl
    | match goal with |- EmmInv.neutral _ _ (if ?b then _ else _) => destruct b end ].

Lemma neutral_ax v : neutral (SETHI_AX v).
Proof. apply neutral_set_regs. Qed.

Lemma neutral_wr_word p v : neutral (wr_word p v).
Proof. apply neutral_set_mem, transfers_hwrite_word. Qed.

Lemma neutral_get_map i : 0 <= i < 36 -> neutral (get_map i).
Proof.
  intros Hi s Hs. destruct (map_at_some config s i (proj1 Hs) Hi) as [r Hr].
  by apply (wp_get_map i s r), same_refl.
Qed.

Lemma neutral_get_info h : 0 <= h < 255 -> neutral (get_info h).
Proof.
  intros Hi s Hs. destruct (info_at_some config s h (proj1 Hs) Hi) as [r Hr].
  by apply (wp_get_info h s r), same_refl.
Qed.

Lemma phys_le s : Inv s -> 0 <= phys_pages s <= 36.
Proof. intros [Ht _]. pose proof (total_phys_range config Hcfg). destruct (t_phys config s Ht); lia. Qed.

Lemma neutral_get_map_registers buf n : 0 <= n <= 36 -> neutral (get_map_registers buf n).
Proof.
  intros Hn. unfold get_map_registers. neut. apply neutral_mfor. intros k Hk.
  apply neutral_bind; [apply neutral_get_map; lia|]. intros r. neut; apply transfers_hwrite_word.
Qed.

Lemma neutral_emm_get_map_registers p : neutral (emm_get_map_registers config p).
Proof.
  unfold emm_get_map_registers. destruct (negb _); [apply neutral_ret|]. intros s Hs. repeat wp_step.
  eapply wp_mono; [apply neutral_get_map_registers; [by apply phys_le|done]|]. intros z s' H. by wp_step.
Qed.

Lemma seg_to_phys_lt l i seg :
  seg_to_phys_loop l i seg = -1 \/ i <= seg_to_phys_loop l i seg < i + Z.of_nat (length l).
Proof.
  revert i. induction l as [|r l IH]; intros i; simpl; [by left|]. destruct (_ && _); [right; lia|].
  destruct (IH (i + 1)); [by left|right; lia].
Qed.

Lemma neutral_get_partial p q : neutral (emm_get_partial_map_registers config p q).
Proof.
  unfold emm_get_partial_map_registers. destruct (negb _); [apply neutral_ret|].
  apply neutral_bind; [apply neutral_gets|]. intros n. apply neutral_bind; [apply neutral_wr_word|]. intros [].
  apply neutral_bind; [|intros e; apply neutral_ret]. generalize 0.
  intros i s Hs. apply (wp_mfor_exit (fun _ s' => same s s') (fun _ s' => same s s')); [apply same_refl| |done|done].
  intros k s1 _ H1. pose proof (same_inv config env s s1 H1 Hs) as Hs1.
  eapply (wp_mono _ _ (fun _ s' => same s1 s')).
  2: { intros [e|] s2 H2; exact (same_trans s s1 s2 H1 H2). }
  repeat wp_step. unfold rd_word. repeat wp_step.
  destruct (Z.eqb_spec (SEG_TO_PHYS (hword (mem s1) (q + 2 + 2 * k)) s1) (-1)) as [E|E]; [wp_step; apply same_refl|].
  assert (0 <= SEG_TO_PHYS (hword (mem s1) (q + 2 + 2 * k)) s1 < 36) as Hr.
  { unfold SEG_TO_PHYS in *. pose proof (seg_to_phys_lt (take (Z.to_nat (phys_pages s1)) (emm_map s1)) 0 (hword (mem s1) (q + 2 + 2 * k))) as [?|H]; [done|].
    rewrite length_take in H. pose proof (phys_le s1 Hs1). lia. }
  destruct (map_at_some config s1 _ (proj1 Hs1) Hr) as [r Hget].
  wp_step. apply (wp_get_map _ s1 r); [done|].
  enough (neutral (wr_word (p + 2 + 6 * k) (handle r) ;; wr_word (p + 2 + 6 * k + 2) (logical_page r) ;;
    wr_word (p + 2 + 6 * k + 4) (SEG_TO_PHYS (hword (mem s1) (q + 2 + 2 * k)) s1) ;; ret (@None Z))) as HN by by apply HN.
  neut; apply transfers_hwrite_word.
Qed.

Lemma neutral_Addr seg off : neutral (Addr env seg off).
Proof. apply neutral_gets. Qed.

Lemma safe_partial : safe (partial_map_registers config env).
Proof.
  intros s Hs. unfold partial_map_registers. repeat wp_step. revert s Hs.
  enough (forall sub r, safe (if sub =? 0 then
    let! p := Addr env es edi in let! q := Addr env ds esi in
    let! r := emm_get_partial_map_registers config p q in SETHI_AX r
  else if sub =? 1 then let! q := Addr env ds esi in let! r := emm_set_partial_map_registers config env q in SETHI_AX r
  else if sub =? 2 then if r =? -1 then SETHI_AX EMM_ILL_PHYS else SETLO_AX r ;; SETHI_AX EMM_NO_ERR
  else SETHI_AX EMM_INVALID_SUB)) as H by (intros s Hs; by apply H).
  intros sub r. destruct (sub =? 0).
  { apply neutral_safe. neut. apply neutral_get_partial. }
  destruct (sub =? 1); [|apply neutral_safe; neut].
  apply safe_bind; [apply neutral_safe, neutral_Addr|]. intros q. apply safe_bind; [by apply safe_set_partial|].
  intros e. apply neutral_safe, neutral_ax.
Qed.

Lemma safe_multiple : safe (map_unmap_multiple env).
Proof.
  intros s Hs. unfold map_unmap_multiple. wp_step. apply wp_get.
  apply (safe_handle_active config env); [|apply neutral_safe; neut|done].
  intros _. simpl. destruct (_ || _); [|apply neutral_safe; neut].
  apply safe_bind; [by apply safe_do_multi|]. intros r. apply neutral_safe, neutral_ax.
Qed.

Lemma neutral_attribute : neutral handle_attribute.
Proof. unfold handle_attribute. neut. Qed.

Lemma neutral_hardinfo : neutral (get_ems_hardinfo config env).
Proof. unfold get_ems_hardinfo. neut; apply transfers_hwrite_word. Qed.

Lemma write_mpa_ok l p : Forall (fun i => 0 <= i < 36) l -> neutral (write_mpa l p).
Proof.
  intros Hl. revert p. induction Hl as [|i l Hi _ IH]; intros p; simpl; [apply neutral_ret|].
  apply neutral_bind; [by apply neutral_get_map|]. intros r.
  apply neutral_bind; [apply neutral_wr_word|]. intros []. apply neutral_bind; [apply neutral_wr_word|]. intros []. apply IH.
Qed.

Lemma zseq_range lo hi a b : a <= lo -> hi <= b -> Forall (fun i => a <= i < b) (zseq lo hi).
Proof.
  intros Ha Hb. apply Forall_forall. intros x. unfold zseq. rewrite list_elem_of_fmap.
  intros (j & -> & [_ Hj]%elem_of_seq). lia.
Qed.

Lemma mpa_range s : Inv s -> phys_pages s <> 0 -> Forall (fun i => 0 <= i < 36) (mpa_order config s).
Proof.
  intros Hs Hp. destruct (t_phys config s (proj1 Hs)) as [?|E]; [done|].
  pose proof (total_phys_range config Hcfg). pose proof (c_uma config Hcfg). pose proof (c_cnv config Hcfg).
  unfold mpa_order, cnv_pages_start. rewrite E. unfold EmmInv.total_phys in *.
  apply Forall_app. split; [|apply zseq_range; lia].
  destruct (win3x_RM config && (4 <? ems_cnv_pages config)) eqn:Hw; [|apply zseq_range; lia].
  apply andb_prop in Hw as [_ Hw%Z.ltb_lt].
  repeat (apply Forall_app; split); apply zseq_range; lia.
Qed.

(** The dispatcher calls this only when the driver is active. *)
Lemma safe_mpa s : Inv s -> phys_pages s <> 0 -> wp (get_mpa_array config env) s (fun _ s' => Inv s').
Proof.
  intros Hs Hp. unfold get_mpa_array. repeat wp_step. pose proof (mpa_range s Hs Hp) as Hr. revert Hs.
  enough (forall sub p, safe (if sub =? 0 then
      let! ptr := Addr env es edi in
      write_mpa (mpa_order config s) ptr ;; SETHI_AX EMM_NO_ERR ;; SET_CX p
    else if sub =? 1 then SETHI_AX EMM_NO_ERR ;; SET_CX p
    else SETHI_AX EMM_INVALID_SUB)) as H by apply H.
  intros sub p. apply neutral_safe. destruct (sub =? 0); [|neut].
  apply neutral_bind; [apply neutral_Addr|]. intros ptr. apply neutral_bind; [by apply write_mpa_ok|]. intros []. neut.
Qed.

End reset.
