(* ===== verification/EmmFn.v ===== *)
(** * The EMS driver: the dispatcher, start-up and reachable states *)

From stdpp Require Import base numbers list strings relations.
From Stdlib Require Import ZArith Lia.
From S2P Require Import Prelude Memcheck MemcheckSpec Dosmem Emm EmmInv EmmMap EmmAlloc EmmRealloc EmmSafe.

Local Open Scope Z_scope.

Section fn.
Context (config : ems_config) (env : ems_env).
Context (Hcfg : config_ok config) (Henv : env_ok env).

Abbreviation Inv := (Inv config env).
Abbreviation tables_ok := (tables_ok config).
Abbreviation safe := (safe config env).
Abbreviation neutral := (neutral config env).
Abbreviation total_phys := (total_phys config).

Ltac neut :=
  repeat first
    [ apply neutral_ret | apply neutral_get | apply neutral_gets | apply neutral_set_regs
    | apply neutral_note
    | apply neutral_set_mem
    | apply neutral_bind; [|intros ?] | progress simpl
    | match goal with |- EmmInv.neutral _ _ (if ?b then _ else _) => destruct b end ].

(** A request that only sets registers from here on. *)
Ltac regs_only := apply neutral_safe; neut.

Lemma safe_get {A} (k : emm -> M emm A) : (forall s, Inv s -> wp (k s) s (fun _ s' => Inv s')) -> safe (bind get k).
Proof. intros H s Hs. repeat wp_step. by apply H. Qed.

(** ** Allocation and handles *)

Lemma safe_allocate_std : safe (allocate_std_pages config env).
Proof.
  apply safe_get. intros s Hs. cbv beta zeta. pose proof (LWORD_range (ebx (rg s))).
  wp_step. eapply wp_mono; [apply safe_allocate; [done|lia|done]|]. intros h s' Hs'. revert s' Hs'.
  destruct (h =? EMM_ERROR); [|regs_only]. apply safe_get. intros s' Hs'. by apply (neutral_safe config env); [neut|].
Qed.

Lemma safe_allocate_handle : safe (get_handle_and_allocate config env).
Proof.
  apply safe_get. intros s Hs. cbv beta zeta. destruct (_ =? 0); [|by apply safe_allocate_std].
  by apply (neutral_safe config env); [neut|].
Qed.

Lemma safe_reallocate : safe (reallocate_pages config env).
Proof.
  apply safe_get. intros s Hs. cbv beta zeta. pose proof (LWORD_range (ebx (rg s))).
  wp_step. apply (wp_handle_active config); [apply Hs| |intros _; simpl; by apply (neutral_safe config env); [neut|]].
  intros x Hh Hx Ha. simpl. wp_step. apply (wp_get_info _ s x); [done|].
  destruct (Z.eqb_spec (LWORD (ebx (rg s))) (numpages x)); [by apply (neutral_safe config env); [neut|]|].
  destruct (Z.eqb_spec (LWORD (edx (rg s))) OS_HANDLE) as [|Hos]; [by apply (neutral_safe config env); [neut|]|].
  unfold OS_HANDLE in Hos.
  destruct (Z.ltb_spec (EMM_TOTAL config) (emm_allocated s + (LWORD (ebx (rg s)) - numpages x)));
    [by apply (neutral_safe config env); [neut|]|].
  eapply wp_mono; [apply (wp_reallocate_loops config env Hcfg Henv _ _ x); try done; lia|]. by intros [] s' [H1 _].
Qed.

Lemma safe_name : safe (handle_name env).
Proof.
  apply safe_get. intros s Hs. cbv beta zeta. revert s Hs.
  enough (forall sub h, safe (if sub =? 0 then
    let! array := Addr env es edi in
    let! ok := handle_active h in
    if negb ok then SETHI_AX EMM_INV_HAN
    else
      upd_info h (fun x => x <| name ::= fun l => astore l 8 0 |>) ;;
      let! x := get_info h in
      set_mem (hwrite_bytes array (take 8 (name x))) ;; SETHI_AX EMM_NO_ERR
  else if sub =? 1 then
    let! array := Addr env ds esi in
    let! ok := handle_active h in
    if negb ok then SETHI_AX EMM_INV_HAN
    else
      let! s := get in
      upd_info h (fun x => x <| name := hread_bytes 8 array (mem s) ++ [0] |>) ;; SETHI_AX EMM_NO_ERR
  else SETHI_AX EMM_INVALID_SUB)) as H by (intros s Hs; by apply H).
  intros sub h. destruct (sub =? 0); [|destruct (sub =? 1)]; [..|regs_only].
  - apply safe_bind; [apply neutral_safe, neutral_gets|]. intros a. apply safe_handle_active; [|regs_only].
    intros Hh. simpl. apply safe_bind.
    + apply safe_upd_info; [done|]. intros x []. split; [|done]. split; simpl; auto. by rewrite astore_length.
    + intros []. apply neutral_safe, neutral_bind; [by apply (neutral_get_info config env)|]. intros x. neut. apply transfers_hwrite_bytes.
  - apply safe_bind; [apply neutral_safe, neutral_gets|]. intros a. apply safe_handle_active; [|regs_only].
    intros Hh. simpl. apply safe_bind; [apply neutral_safe, neutral_get|]. intros s.
    apply safe_bind; [|intros []; regs_only]. apply safe_upd_info; [done|]. intros x []. split; [|done].
    by split.
Qed.

(** Loops that write the client's memory. *)
Definition writes (d d' : dosmem) : Prop :=
  lowmem_aliasmap d' = lowmem_aliasmap d /\ (bytes_ok d -> bytes_ok d').

Lemma writes_trans d1 d2 d3 : writes d1 d2 -> writes d2 d3 -> writes d1 d3.
Proof. intros [] []. split; [congruence|auto]. Qed.

Lemma writes_same s d : writes (mem s) d -> same s (s <| mem := d |>).
Proof. by intros []. Qed.

Lemma dir_writes l h c a d : writes d (dir_loop l h c a d).2.
Proof.
  revert h c a d. induction l as [|x l IH]; intros h c a d; simpl; [by split|].
  destruct (truth (active x)); [|apply IH].
  eapply writes_trans; [|apply IH]. eapply writes_trans; [apply transfers_hwrite_word|apply transfers_hwrite_bytes].
Qed.

Lemma for_all_writes l i t c a d : writes d (pages_for_all_loop l i t c a d).2.
Proof.
  revert i c a d. induction l as [|x l IH]; intros i c a d; simpl; [by split|].
  assert (forall v w, writes d (hwrite_word (a + 2) v (hwrite_word a w d))) as Hw.
  { intros v w. eapply writes_trans; apply transfers_hwrite_word. }
  destruct (_ || _); [|apply IH]. destruct (_ =? t); [apply Hw|]. eapply writes_trans; [apply Hw|apply IH].
Qed.

Lemma wp_put_mem d s (Q : unit -> emm -> Prop) : Q tt (s <| mem := d |>) -> wp (set_mem (fun _ => d)) s Q.
Proof. auto. Qed.

Lemma after_writes d (c : M emm unit) s : Inv s -> writes (mem s) d -> neutral c ->
  wp (set_mem (fun _ => d) ;; c) s (fun _ s' => Inv s').
Proof.
  intros Hs Hd Hc. wp_step. apply wp_put_mem. apply (neutral_safe config env); [done|].
  apply (same_inv config env s); [by apply writes_same|done].
Qed.

Lemma safe_dir : safe (handle_dir env).
Proof.
  apply safe_get. intros s Hs. cbv beta zeta. destruct (_ =? 0).
  { unfold Addr. repeat wp_step. pose proof (dir_writes (handle_info s) 0 0 (MK_FP32 (menv env) (mem s) (es (rg s)) (LWORD (edi (rg s)))) (mem s)) as Hw.
    destruct (dir_loop _ _ _ _ _) as [c d]. apply after_writes; [done|done|neut]. }
  destruct (_ =? 1).
  { unfold Addr. repeat wp_step. destruct (search_named _ _ _ _) as [[h x]|]; by apply (neutral_safe config env); [neut|]. }
  destruct (_ =? 2); by apply (neutral_safe config env); [neut|].
Qed.

Lemma safe_for_all : safe (get_pages_for_all env).
Proof.
  apply safe_get. intros s Hs. cbv beta zeta. unfold Addr. repeat wp_step.
  pose proof (for_all_writes (handle_info s) 0 (handle_total s) 0 (MK_FP32 (menv env) (mem s) (es (rg s)) (LWORD (edi (rg s)))) (mem s)) as Hw.
  destruct (pages_for_all_loop _ _ _ _ _ _) as [c d]. apply after_writes; [done|done|neut].
Qed.

Lemma safe_pages_owned : safe get_pages_owned.
Proof.
  apply safe_get. intros s Hs. cbv beta zeta. apply (safe_handle_active config env); [|regs_only|done].
  intros Hh. simpl. apply neutral_safe. unfold handle_pages.
  apply neutral_bind; [|intros; neut]. apply neutral_bind; [by apply (neutral_get_info config env)|]. intros x. neut.
Qed.

Lemma counter_ok h f : (forall x, hand_ok h x -> hand_ok h (x <| saved_mapping ::= f |>)).
Proof. intros x []. by split. Qed.

Lemma safe_save_map : safe (save_page_map config).
Proof.
  apply safe_get. intros s Hs. cbv beta zeta. apply (safe_handle_active config env); [|regs_only|done].
  intros Hh. simpl. apply safe_bind; [apply neutral_safe; by apply (neutral_get_info config env)|]. intros x.
  destruct (truth _); [regs_only|]. apply safe_bind; [by apply safe_save|]. intros [].
  apply safe_bind; [|intros []; regs_only]. apply safe_upd_info; [done|]. intros y Hy. split; [by apply counter_ok|done].
Qed.

Lemma safe_restore_map : safe (restore_page_map config env).
Proof.
  apply safe_get. intros s Hs. cbv beta zeta. apply (safe_handle_active config env); [|regs_only|done].
  intros Hh. simpl. apply safe_bind; [apply neutral_safe; by apply (neutral_get_info config env)|]. intros x.
  destruct (truth _); simpl; [|regs_only]. apply safe_bind; [by apply safe_restore|]. intros [].
  apply safe_bind; [|intros []; regs_only]. apply safe_upd_info; [done|]. intros y Hy. split; [by apply (counter_ok _ (fun n => n - 1))|done].
Qed.

(** ** Page map registers *)

Lemma safe_Addr {A} seg off (k : Z -> M emm A) : (forall p, safe (k p)) -> safe (bind (Addr env seg off) k).
Proof. intros H. apply safe_bind; [apply neutral_safe, neutral_gets|done]. Qed.

Lemma safe_page_map : safe (page_map_registers config env).
Proof.
  apply safe_get. intros s Hs. cbv beta zeta. revert s Hs.
  enough (forall sub n, safe (if sub =? 0 then
    let! p := Addr env es edi in emm_get_map_registers config p ;; SETHI_AX EMM_NO_ERR
  else if sub =? 1 then
    let! q := Addr env ds esi in emm_set_map_registers config env q ;; SETHI_AX EMM_NO_ERR
  else if sub =? 2 then
    let! p := Addr env es edi in emm_get_map_registers config p ;;
    let! q := Addr env ds esi in emm_set_map_registers config env q ;; SETHI_AX EMM_NO_ERR
  else if sub =? 3 then SETHI_AX EMM_NO_ERR ;; SETLO_AX n
  else SETHI_AX EMM_INVALID_SUB)) as H by (intros s Hs; by apply H).
  intros sub n.
  assert (forall q, safe (emm_set_map_registers config env q ;; SETHI_AX EMM_NO_ERR)) as Hset.
  { intros q. apply safe_bind; [by apply safe_emm_set_map_registers|]. intros e. regs_only. }
  repeat (match goal with |- EmmInv.safe _ _ (if ?b then _ else _) => destruct b end); [..|regs_only|regs_only].
  - apply safe_Addr. intros p. apply neutral_safe, neutral_bind; [by apply neutral_emm_get_map_registers|]. intros []. neut.
  - by apply safe_Addr.
  - apply safe_Addr. intros p. apply safe_bind; [by apply neutral_safe, neutral_emm_get_map_registers|]. intros [].
    by apply safe_Addr.
Qed.

Lemma neutral_alter_get es0 di0 : neutral
  (let! s := get in emm_get_map_registers config (MK_FP32 (menv env) (mem s) es0 di0)).
Proof. apply neutral_bind; [apply neutral_get|]. intros s. by apply neutral_emm_get_map_registers. Qed.

Lemma neutral_save_es : neutral (modify (fun s => s <| save_es := es (rg s) |> <| save_di := LWORD (edi (rg s)) |>)).
Proof. apply neutral_modify. by split. Qed.

Lemma safe_alternate : safe (alternate_map_register config env).
Proof.
  apply safe_get. intros s Hs. cbv beta zeta. destruct (os_allow s); simpl; [|by apply (neutral_safe config env); [neut|]].
  destruct (_ =? 0).
  { destruct (truth (save_es s)); [|by apply (neutral_safe config env); [neut|]].
    enough (safe (emm_get_map_registers config (MK_FP32 (menv env) (mem s) (save_es s) (save_di s)) ;;
      set_regs (fun r => r <| es := u16 (save_es s) |> <| edi ::= set_LWORD (save_di s) |>) ;;
      SETHI_AX EMM_NO_ERR)) as H by by apply H.
    apply neutral_safe, neutral_bind; [by apply neutral_emm_get_map_registers|]. intros []. neut. }
  do 3 (match goal with |- wp (if ?b then _ else _) _ _ => destruct b end; [by apply (neutral_safe config env); [neut|]|]).
  destruct (truth (LO (ebx (rg s)))); [by apply (neutral_safe config env); [neut|]|].
  match goal with |- wp (if ?b then _ else _) _ _ => destruct b end.
  { revert s Hs. enough (forall b, safe (let! err := (if b : bool then let! p := Addr env es edi in emm_set_map_registers config env p
                 else ret EMM_NO_ERR) in
      SETHI_AX err ;; modify (fun s => s <| save_es := es (rg s) |> <| save_di := LWORD (edi (rg s)) |>))) as H
      by (intros s Hs; by apply H).
    intros b. apply safe_bind.
    - destruct b; [|apply neutral_safe, neutral_ret]. apply safe_Addr. intros p. by apply safe_emm_set_map_registers.
    - intros e. apply neutral_safe, neutral_bind; [apply neutral_set_regs|]. intros []. apply neutral_save_es. }
  by apply (neutral_safe config env); [neut|].
Qed.

Lemma neutral_flags f : (forall s, same s (f s)) -> neutral (modify f).
Proof. apply neutral_modify. Qed.

Lemma safe_os_access b : safe (os_access b).
Proof.
  apply neutral_safe. unfold os_access. apply neutral_bind; [apply neutral_get|]. intros s.
  destruct (os_inuse s); [destruct (has_keys (rg s))|]; try (neut; fail);
    (apply neutral_bind; [apply neutral_modify; by split|]; intros []; neut).
Qed.

Lemma safe_os_set : safe os_set_function.
Proof.
  apply safe_get. intros s Hs. cbv beta zeta. destruct (_ =? 0); [by apply safe_os_access|].
  destruct (_ =? 1); [by apply safe_os_access|].
  assert (neutral (modify (fun s => s <| os_allow := true |> <| os_inuse := false |>))) as Hm
    by (apply neutral_modify; by split).
  destruct (_ =? 2); [|by apply (neutral_safe config env); [neut|]].
  destruct (has_keys (rg s)); [|by apply (neutral_safe config env); [neut|]].
  apply (neutral_safe config env); [|done]. apply neutral_bind; [done|]. intros []. neut.
Qed.

(** ** Alter page map *)

Lemma pushw_writes base p v d : writes d (pushw (menv env) base p v d).2.
Proof. unfold pushw. simpl. eapply writes_trans; apply transfers_hwrite. Qed.

Lemma fake_call_writes c ip x : writes x.2 (fake_call (menv env) c ip x).2.
Proof.
  destruct x as [r d]. unfold fake_call.
  pose proof (pushw_writes (SEGOFF2LINEAR (ss r) 0) (LWORD (esp r)) c d) as H1.
  destruct (pushw _ _ _ _ d) as [sp d1].
  pose proof (pushw_writes (SEGOFF2LINEAR (ss r) 0) sp ip d1) as H2.
  destruct (pushw _ _ _ _ d1) as [sp2 d2]. by eapply writes_trans.
Qed.

Lemma fake_call_to_writes c ip x : writes x.2 (fake_call_to (menv env) c ip x).2.
Proof.
  unfold fake_call_to. pose proof (fake_call_writes (cs x.1) (LWORD (eip x.1)) x) as H.
  by destruct (fake_call _ _ _ x).
Qed.

Lemma params_writes m h x : writes x.2 (push_alter_params env m h x).2.
Proof.
  destruct x as [r d]. unfold push_alter_params.
  pose proof (pushw_writes (SEGOFF2LINEAR (ss r) 0) (LWORD (esp r)) m d) as H1.
  destruct (pushw _ _ _ m d) as [sp d1].
  pose proof (pushw_writes (SEGOFF2LINEAR (ss r) 0) sp h d1) as H2.
  destruct (pushw _ _ sp h d1) as [sp2 d2].
  pose proof (pushw_writes (SEGOFF2LINEAR (ss r) 0) sp2 (ds r) d2) as H3.
  destruct (pushw _ _ sp2 _ d2) as [sp3 d3].
  pose proof (pushw_writes (SEGOFF2LINEAR (ss r) 0) sp3 (LWORD (esi r) + old_map_offset) d3) as H4.
  destruct (pushw _ _ sp3 _ d3) as [sp4 d4].
  eauto using writes_trans.
Qed.

Lemma neutral_stack f : (forall x, writes x.2 (f x).2) -> neutral (on_stack f).
Proof. intros H. apply neutral_modify. intros s. destruct (H (rg s, mem s)). by split. Qed.

Lemma safe_jump : safe (alter_map_and_jump env).
Proof.
  apply safe_get. intros s Hs. cbv beta zeta. destruct (_ || _); [|by apply (neutral_safe config env); [neut|]].
  apply (safe_handle_active config env); [|regs_only|done]. intros Hh. simpl.
  apply safe_bind; [by apply safe_alter_map|]. intros r. regs_only.
Qed.

Lemma safe_call : safe (alter_map_and_call config env).
Proof.
  apply safe_get. intros s Hs. cbv beta zeta. destruct (_ || _).
  - apply (safe_handle_active config env); [|regs_only|done]. intros Hh. simpl.
    apply safe_bind; [by apply safe_alter_map|]. intros r. apply neutral_safe.
    apply neutral_bind; [apply neutral_set_regs|]. intros []. destruct (negb _); [apply neutral_ret|].
    apply neutral_bind; [apply neutral_stack, params_writes|]. intros [].
    apply neutral_bind; [apply neutral_stack, fake_call_to_writes|]. intros [].
    apply neutral_stack, fake_call_to_writes.
  - destruct (_ =? 2); by apply (neutral_safe config env); [neut|].
Qed.

Lemma safe_ret_hlt : safe (emm_apmap_ret_hlt env).
Proof.
  apply safe_bind.
  - apply neutral_safe, neutral_stack. intros [r d]. unfold fake_retf.
    destruct (popw _ _ _ d) as [ip sp]. destruct (popw _ _ sp d) as [c sp2]. by split.
  - intros []. apply safe_get. intros s Hs. cbv beta zeta.
    destruct (popw _ _ _ (mem s)) as [off sp]. destruct (popw _ _ sp (mem s)) as [seg sp2].
    destruct (popw _ _ sp2 (mem s)) as [h sp3]. destruct (popw _ _ sp3 (mem s)) as [m sp4].
    enough (safe (set_regs (fun r => r <| esp := set_LWORD (LWORD (esp r) + ALTER_STACK_SIZE) (esp r) |>) ;;
      let! r := alter_map env m h (read_alter_map (mem s) (MK_FP32 (menv env) (mem s) seg off)) in SETHI_AX r)) as H
      by by apply H.
    apply safe_bind; [apply neutral_safe, neutral_set_regs|]. intros [].
    apply safe_bind; [by apply safe_alter_map|]. intros e. regs_only.
Qed.

(** ** Moves *)

(** The request a move or exchange would act on has a negative length. *)
Definition negative_move (s : emm) : Prop :=
  HI (eax (rg s)) = 87 /\
  mv_size (read_move (mem s) (MK_FP32 (menv env) (mem s) (ds (rg s)) (LWORD (esi (rg s))))) < 0.

Lemma neutral_transfer size f : 0 <= size -> transfers f -> neutral (transfer size f).
Proof. intros Hs Hf. unfold transfer. rewrite (proj2 (Z.ltb_ge _ _)) by lia. by apply neutral_set_mem. Qed.

Lemma neutral_move_end h seg off size : 0 <= h -> neutral (move_end h seg off size).
Proof.
  intros Hh. unfold move_end, MAX_HANDLES. destruct (Z.leb_spec 255 h); [neut|].
  apply neutral_bind; [apply (neutral_get_info config env); lia|]. intros x. neut.
Qed.

Lemma neutral_any_end t h seg off size : 0 <= h -> neutral (any_end t h seg off size).
Proof.
  intros Hh. unfold any_end. destruct (t =? 0); [neut|].
  apply neutral_bind; [by apply neutral_move_end|]. intros r. neut.
Qed.

Lemma neutral_do_move a b size : 0 <= size -> neutral (do_move env a b size).
Proof.
  intros Hs. unfold do_move. destruct a, b; (apply neutral_bind; [|intros []; neut]); apply neutral_transfer; try done.
  - apply transfers_hmove.
  - by apply transfers_2dos.
  - by apply transfers_2unix.
  - by apply transfers_dos2dos.
Qed.

Lemma neutral_move m : 0 <= source_handle m -> 0 <= dest_handle m -> 0 <= mv_size m ->
  neutral (if 1048576 <? mv_size m then ret EMM_MOVE_1MB_LIM
  else
    let! source := any_end (source_type m) (source_handle m) (source_segment m) (source_offset m) (mv_size m) in
    match source with
    | inr e => ret e
    | inl source =>
        let! dest := any_end (dest_type m) (dest_handle m) (dest_segment m) (dest_offset m) (mv_size m) in
        match dest with
        | inr e => ret e
        | inl dest =>
            let! overlap := do_move env source dest (mv_size m) in
            ret (if overlap : bool then EMM_MOVE_OVLAP else 0)
        end
    end).
Proof.
  intros H1 H2 H3. destruct (_ <? _); [neut|].
  apply neutral_bind; [by apply neutral_any_end|]. intros [a|e]; [|neut].
  apply neutral_bind; [by apply neutral_any_end|]. intros [b|e]; [|neut].
  apply neutral_bind; [by apply neutral_do_move|]. intros o. neut.
Qed.

Lemma neutral_xchng_end t h seg off size : 0 <= h -> neutral (xchng_end env t h seg off size).
Proof. intros Hh. unfold xchng_end. destruct (t =? 0); [neut|by apply neutral_move_end]. Qed.

Lemma neutral_exchange m : 0 <= source_handle m -> 0 <= dest_handle m -> 0 <= mv_size m ->
  neutral (if 1048576 <? mv_size m then ret EMM_MOVE_1MB_LIM
  else
    let! source := xchng_end env (source_type m) (source_handle m) (source_segment m) (source_offset m) (mv_size m) in
    match source with
    | inr e => ret e
    | inl source =>
        let! dest := xchng_end env (dest_type m) (dest_handle m) (dest_segment m) (dest_offset m) (mv_size m) in
        match dest with
        | inr e => ret e
        | inl dest =>
            if if source <? dest then dest <? source + mv_size m else source <? dest + mv_size m
            then ret EMM_MOVE_OVLAPI
            else transfer (mv_size m) (hswap source dest (mv_size m)) ;; ret 0
        end
    end).
Proof.
  intros H1 H2 H3. destruct (_ <? _); [neut|].
  apply neutral_bind; [by apply neutral_xchng_end|]. intros [a|e]; [|neut].
  apply neutral_bind; [by apply neutral_xchng_end|]. intros [b|e]; [|neut].
  destruct (if a <? b then _ else _); [neut|].
  apply neutral_bind; [|intros []; neut]. apply neutral_transfer; [done|apply transfers_hswap].
Qed.

Lemma wp_mod_region s : Inv s -> HI (eax (rg s)) = 87 -> ~ negative_move s ->
  wp (mod_memory_region env) s (fun _ s' => Inv s').
Proof.
  intros Hs Hfn Hneg. unfold mod_memory_region. repeat wp_step.
  pose proof (t_bytes config s (proj1 Hs)) as Hb.
  set (m := read_move (mem s) (MK_FP32 (menv env) (mem s) (ds (rg s)) (LWORD (esi (rg s))))).
  assert (0 <= mv_size m) as H3.
  { destruct (Z.lt_ge_cases (mv_size m) 0); [|done]. destruct Hneg. by split. }
  assert (0 <= source_handle m /\ 0 <= dest_handle m) as [H1 H2].
  { unfold m. simpl. split; by apply hword_range. }
  destruct (_ =? 0).
  { wp_step. unfold move_memory_region, read_request. repeat wp_step. fold m.
    eapply wp_mono; [by apply neutral_move|]. intros e s' Hsame.
    apply (neutral_safe config env); [neut|]. exact (same_inv config env s s' Hsame Hs). }
  destruct (_ =? 1); [|by apply (neutral_safe config env); [neut|]].
  wp_step. unfold exchange_memory_region, read_request. repeat wp_step. fold m.
  eapply wp_mono; [by apply neutral_exchange|]. intros e s' Hsame.
  apply (neutral_safe config env); [neut|]. exact (same_inv config env s s' Hsame Hs).
Qed.

(** ** The dispatcher *)

Lemma safe_map_unmap s : Inv s ->
  wp (let! r := do_map_unmap env (LWORD (edx (rg s))) (LO (eax (rg s))) (LWORD (ebx (rg s))) in SETHI_AX r) s
    (fun _ s' => Inv s').
Proof.
  intros Hs. pose proof (LWORD_range (ebx (rg s))). wp_step.
  eapply wp_mono; [apply safe_do_map_unmap; try done; lia|]. intros r s' Hs'.
  by apply (neutral_safe config env); [neut|].
Qed.

Create HintDb ems.
#[local] Hint Resolve safe_allocate_handle safe_allocate_std safe_map_unmap safe_deallocate_handle
  safe_save_map safe_restore_map safe_pages_owned safe_for_all safe_page_map safe_partial safe_multiple
  safe_reallocate safe_name safe_dir safe_jump safe_call safe_mpa safe_alternate safe_os_set safe_reset : ems.

Lemma wp_functions s : Inv s -> phys_pages s <> 0 -> ~ negative_move s ->
  wp (ems_functions config env (HI (eax (rg s)))) s (fun _ s' => Inv s').
Proof.
  intros Hs Hp Hneg. destruct (Z.eq_dec (HI (eax (rg s))) 87) as [E|Hne].
  { rewrite E. unfold ems_functions. repeat wp_step. by apply wp_mod_region. }
  unfold ems_functions. repeat wp_step. generalize dependent (HI (eax (rg s))). intros fn Hne.
  assert (safe (ems_reset config env ;; SETHI_AX EMM_NO_ERR)) as Hreset.
  { apply safe_bind; [by apply safe_reset|]. intros []. regs_only. }
  repeat first
    [ solve [auto with ems]
    | exfalso; by apply Hne
    | solve [apply (neutral_safe config env); [solve [neut | apply neutral_attribute | by apply neutral_hardinfo]|done]]
    | by apply safe_alternate | by apply safe_partial | by apply safe_deallocate_handle | by apply safe_multiple
    | match goal with
      | |- wp (match ?z with _ => _ end) _ _ => destruct z
      | |- wp (let _ := _ in _) _ _ => cbv zeta
      end ].
Qed.
End fn.

(** ** The EMS driver: start-up and reachable states *)

Section boot.
Context (config : ems_config) (env : ems_env).
Context (Hcfg : config_ok config) (Henv : env_ok env).

Abbreviation Inv := (Inv config env).
Abbreviation total_phys := (total_phys config).

(** *** ems_init *)

(** The memory map has its two tables. *)
Definition mc_ok (c : memcheck) : Prop := map_ok c /\ length (mem_names c) = 256%nat.

(** The segments of the physical pages below [k] are set. *)
Record seg_upto (k : Z) (s0 s : emm) : Prop := {
  g_info : handle_info s = handle_info s0;
  g_mem : mem s = mem s0;
  g_phys : phys_pages s = phys_pages s0;
  g_mc : mc_ok (mc s);
  g_len : length (emm_map s) = 36%nat;
  g_seg : forall i r, aget (emm_map s) i = Some r -> i < k -> phys_seg r = seg_of config i;
}.

Lemma wp_on_memcheck {A} (c : M memcheck A) s (Q : A -> emm -> Prop) :
  wp c (mc s) (fun a m => Q a (s <| mc := m |>)) -> wp (on_memcheck c) s Q.
Proof. unfold wp, on_memcheck. by destruct (c (mc s)) as [[a m]|e]. Qed.

Lemma addtype_ok ch nm c : mc_ok c -> 0 <= ch < 256 -> wp (memcheck_addtype ch nm) c (fun _ c' => mc_ok c').
Proof.
  intros [H1 H2] Hch. unfold memcheck_addtype. repeat wp_step.
  destruct (aget_lt (mem_names c) ch) as [[old|] Hx]; [lia|..]; rewrite Hx.
  - destruct (negb _); repeat wp_step; by split.
  - repeat wp_step. split; [done|]. simpl. by rewrite astore_length.
Qed.

Lemma seg_of_u16 i : 0 <= i < total_phys -> u16 (seg_of config i) = seg_of config i.
Proof. intros Hi. apply u16_small. by apply (seg_of_align config Hcfg). Qed.

(** The step of the two loops. *)
Lemma seg_step k f s0 s :
  0 <= k < total_phys -> seg_upto k s0 s -> (forall r, phys_seg (f r) = seg_of config k) ->
  exists r, aget (emm_map s) k = Some r /\
    seg_upto (k + 1) s0 (s <| emm_map ::= fun l => astore l k (f r) |>).
Proof.
  intros Hk [E1 E2 E3 E4 E5 E6] Hf. pose proof (total_phys_range config Hcfg).
  destruct (aget_lt (emm_map s) k) as [r Hr]; [lia|]. exists r. split; [done|]. split; try done; simpl.
  - by rewrite astore_length.
  - intros i q. rewrite aget_astore by lia. destruct (Z.eqb_spec i k) as [->|]; [by intros [= <-]|].
    intros Hq Hi. apply (E6 i q Hq). lia.
Qed.

Lemma wp_init r d c : bytes_ok d -> mc_ok c ->
  wp (ems_init config env) (blank_emm r d c) (fun _ s' =>
    (Inv s' /\ home config env s') /\ handle_total s' = 1 /\ emm_allocated s' = ems_cnv_pages config /\
    phys_pages s' = 0 /\ mem s' = d /\ mc_ok (mc s')).
Proof.
  intros Hd Hc. pose proof (total_phys_range config Hcfg) as Htot. unfold ems_init.
  pose proof (c_size config Hcfg). pose proof (c_uma config Hcfg) as Hu. pose proof (c_cnv config Hcfg) as Hn.
  unfold truth. rewrite (proj2 (Z.eqb_neq (ems_size config) 0)) by lia. simpl.
  rewrite (proj2 (Z.ltb_ge EMM_UMA_MAX_PHYS _)), (proj2 (Z.ltb_ge EMM_CNV_MAX_PHYS _)) by lia.
  wp_step. apply wp_on_memcheck. eapply wp_mono; [by apply addtype_ok|]. intros ? c1 Hc1.
  set (s1 := (blank_emm r d c) <| mc := c1 |>). wp_step.
  apply (wp_mfor (fun k s' => seg_upto k s1 s')).
  { split; try done. intros i q Hq Hi. apply aget_Some_lt in Hq. lia. }
  { intros k s Hk Hs.
    assert (seg_of config k = ems_frame config + 1024 * k) as Eseg.
    { unfold seg_of. by rewrite (proj2 (Z.ltb_lt _ _)) by lia. }
    destruct (seg_step k (fun r => r <| phys_seg := u16 (EMM_SEGMENT config + 1024 * k) |>) s1 s) as (q & Hq & Hs').
    { unfold EmmInv.total_phys. lia. } { done. }
    { intros q. simpl. unfold EMM_SEGMENT. rewrite <- Eseg. apply seg_of_u16. unfold EmmInv.total_phys. lia. }
    wp_step. eapply wp_upd_map; [exact Hq|]. wp_step. eapply wp_get_map.
    { simpl. rewrite aget_astore, Z.eqb_refl by (by apply aget_Some_lt in Hq). done. }
    apply wp_on_memcheck. apply wp_modify. by destruct Hs'. }
  intros s2 Hs2. wp_step. apply (wp_mfor (fun k s' => seg_upto (k + ems_uma_pages config) s1 s')).
  { by replace (0 + ems_uma_pages config) with (0 + Z.of_nat (Z.to_nat (ems_uma_pages config))) by lia. }
  { intros k s Hk Hs.
    assert (seg_of config (k + ems_uma_pages config) = cnv_start_seg config + 1024 * k) as Eseg.
    { unfold seg_of. rewrite (proj2 (Z.ltb_ge _ _)) by lia. f_equal. lia. }
    destruct (seg_step (k + ems_uma_pages config)
      (fun r => r <| phys_seg := u16 (cnv_start_seg config + 1024 * k) |>) s1 s) as (q & Hq & Hs').
    { unfold EmmInv.total_phys. lia. } { done. }
    { intros q. simpl. rewrite <- Eseg. apply seg_of_u16. unfold EmmInv.total_phys. lia. }
    eapply wp_upd_map; [exact Hq|]. by replace (k + 1 + ems_uma_pages config) with (k + ems_uma_pages config + 1) by lia. }
  intros s3 [F1 F2 F3 F4 F5 F6].
  assert (shape_ok config s3) as Hshape.
  { split; [done|by rewrite F1| |rewrite F1|by rewrite F2].
    - intros i q Hq Hi. apply (F6 i q Hq). unfold EmmInv.total_phys in Hi. lia.
    - intros h x Hx. simpl in Hx.
      assert (x = blank_handle) as ->.
      { unfold aget in Hx. destruct (h <? 0); [done|]. apply (list_elem_of_lookup_2 _ _ _) in Hx.
        change (x ∈ replicate 255 blank_handle) in Hx. by apply elem_of_replicate in Hx as [-> _]. }
      split; [done|]. split; [done|]. split; [done|]. intros j l g Hl Hg.
      assert (forall v, aget (replicate 4 0) j = Some v -> v = 0) as Hz.
      { intros v. unfold aget. destruct (j <? 0); [done|]. rewrite lookup_replicate. tauto. }
      apply Hz in Hl, Hg. subst. unfold MAX_HANDLES. lia. }
  eapply wp_mono; [by apply (wp_reset2 config env Hcfg Henv)|].
  intros [] s' (H1 & H2 & H3 & H4 & H5 & H6). rewrite H5, F2, H6. by do 5 (split; [done|]).
Qed.

(** *** ems_helper *)

(** The page table shows every page of the frame where it is. *)
Definition identity (d : dosmem) : Prop :=
  forall i, 0 <= i < total_phys -> win (lowmem_aliasmap d) (16 * seg_of config i) (LOWMEM (menv env) (16 * seg_of config i)).

Lemma phys_addr r i : phys_seg r = seg_of config i -> PHYS_PAGE_ADDR r = 16 * seg_of config i.
Proof. intros E. unfold PHYS_PAGE_ADDR. rewrite E, Z.shiftl_mul_pow2 by lia. change (2 ^ 4) with 16. lia. Qed.

Lemma home_windows s p : tables_ok config s -> home config env s -> identity (mem s) ->
  p = total_phys -> windows_ok env (s <| phys_pages := p |>).
Proof.
  intros Ht Hh Hid -> i Hi r Hr. simpl in *. rewrite (Hh i r Hi Hr).
  rewrite (phys_addr r i) by (apply (t_seg config s Ht i r Hr); lia). by apply Hid.
Qed.

Lemma neutral_on_memcheck {A} (c : M memcheck A) s (P : memcheck -> Prop) :
  wp c (mc s) (fun _ m => P m) -> wp (on_memcheck c) s (fun _ s' => same s s' /\ P (mc s')).
Proof. intros H. apply wp_on_memcheck. eapply wp_mono; [exact H|]. intros a m Hm. by split. Qed.

Lemma reserve_page_ok i c : map_ok c -> 0 <= i < total_phys ->
  wp (memcheck_map_reserve ch_E (16 * seg_of config i) EMM_PAGE_SIZE) c (fun _ c' => map_ok c').
Proof.
  intros Hc Hi. destruct (seg_of_align config Hcfg i Hi) as [_ H].
  eapply wp_mono; [apply memcheck_map_reserve_correct; [done|lia|]|].
  - unfold last_page. rewrite end_page_eq by (unfold EMM_PAGE_SIZE; lia). unfold first_page, GRAN_SIZE, MAX_PAGE, EMM_PAGE_SIZE.
    apply Z.min_glb; [apply Z.div_le_mono; lia|]. apply Z.lt_le_incl, Z.div_lt_upper_bound; lia.
  - intros r c' Hr%reserve_claims; [|done]. apply Hr.
Qed.

Lemma wp_helper s : Inv s -> home config env s -> identity (mem s) -> map_ok (mc s) -> phys_pages s = 0 ->
  wp (ems_helper config) s (fun _ s' => Inv s').
Proof.
  intros Hs Hh Hid Hc Hp. unfold ems_helper. repeat wp_step.
  assert (forall v s, Inv s -> wp (SET_CF true ;; SET_BX v) s (fun _ s' => Inv s')) as Herr.
  { intros v s1 H1. apply (neutral_safe config env); [|done].
    apply neutral_bind; [apply neutral_set_regs|]. intros []. apply neutral_set_regs. }
  destruct (_ =? 0); [|by apply (neutral_safe config env); [apply neutral_set_regs|]].
  destruct (negb _); [by apply Herr|]. rewrite Hp. change (truth 0) with false. simpl.
  destruct (_ <? _); [by apply Herr|]. wp_step.
  pose proof (total_phys_range config Hcfg) as Htot. pose proof (c_uma config Hcfg) as Hu. pose proof (c_cnv config Hcfg) as Hn.
  apply (wp_mfor_exit (fun _ s' => same s s' /\ map_ok (mc s')) (fun _ s' => same s s')).
  { split; [apply same_refl|done]. }
  { intros k s1 Hk [H1 Hc1]. assert (0 <= k < total_phys) as Hk' by (unfold EmmInv.total_phys; lia).
    pose proof (same_inv config env s s1 H1 Hs) as Hs1.
    destruct (map_at_some config s1 k (proj1 Hs1) ltac:(lia)) as [r Hr].
    wp_step. apply (wp_get_map k s1 r); [done|]. rewrite (phys_addr r k) by (apply (t_seg config s1 (proj1 Hs1) k r Hr); lia).
    wp_step. eapply wp_mono; [by apply (neutral_on_memcheck _ s1 map_ok), reserve_page_ok|].
    intros e s2 [H2 Hc2]. pose proof (same_trans s s1 s2 H1 H2). wp_step. by destruct (truth e). }
  - intros s1 [H1 Hc1]. pose proof (same_inv config env s s1 H1 Hs) as Hs1. wp_step. apply wp_modify.
    apply (neutral_safe config env); [apply neutral_bind; [apply neutral_set_regs|]; intros []; apply neutral_set_regs|].
    destruct Hs1 as ([] & Hw & Ha). destruct Hs as (Ht & _). split; [|split; [|done]].
    + split; simpl; auto.
      * right. unfold EmmInv.total_phys. lia.
      * intros i r Hr _. apply (t_rest i r Hr). destruct H1. rewrite s_phys, Hp. apply aget_Some_lt in Hr. lia.
    + assert (ems_cnv_pages config + ems_uma_pages config = total_phys) as -> by (unfold EmmInv.total_phys; lia).
      destruct H1. intros i Hi r. simpl. rewrite s_map, s_info, s_alias. intros Hr.
      by apply (home_windows s total_phys Ht Hh Hid eq_refl i Hi r).
  - intros e s1 H1. apply Herr. exact (same_inv config env s s1 H1 Hs).
Qed.

(** Start of the driver: program start, then the helper call of ems.sys with
    the registers [r]. *)
Definition boot (r : vm86_regs) : M emm unit :=
  ems_init config env ;; set_regs (fun _ => r) ;; ems_helper config.

Lemma wp_boot r0 r d c : bytes_ok d -> identity d -> mc_ok c ->
  wp (boot r) (blank_emm r0 d c) (fun _ s' => Inv s').
Proof.
  intros Hd Hid Hc. unfold boot. wp_step. eapply wp_mono; [by apply wp_init|].
  intros [] s1 ((H1 & H2) & _ & _ & H3 & H4 & [H5 _]). wp_step. apply wp_modify.
  apply wp_helper; simpl; try done; [|by rewrite H4].
  exact (same_inv config env s1 _ (same_regs s1 (fun _ => r)) H1).
Qed.

(** *** Reachable states *)

(** Fit for [ems_helper] to start the driver: every window shows the DOS memory
    below it. *)
Definition at_home (s : emm) : Prop := home config env s /\ identity (mem s) /\ map_ok (mc s).

(** What the client can do: call INT 67h with any registers, return from an
    alter-map-and-call, call the helper of ems.sys, write to its memory.  After
    a reset (function 0x5c) the helper starts the driver again; that is a step
    only where no page of the system handle has been left in a window. *)
Inductive ems_step : emm -> emm -> Prop :=
| step_request r s s' v :
    ~ negative_move env (s <| rg := r |>) ->
    ems_fn config env (s <| rg := r |>) = Ok (v, s') -> ems_step s s'
| step_return r s s' :
    emm_apmap_ret_hlt env (s <| rg := r |>) = Ok (tt, s') -> ems_step s s'
| step_helper r s s' :
    (phys_pages s = 0 -> at_home s) ->
    ems_helper config (s <| rg := r |>) = Ok (tt, s') -> ems_step s s'
| step_write a v s : ems_step s (s <| mem ::= WRITE_BYTE (menv env) a v |>).

Lemma wp_ems_fn s : Inv s -> ~ negative_move env s -> wp (ems_fn config env) s (fun _ s' => Inv s').
Proof.
  intros Hs Hn. unfold ems_fn. repeat wp_step. unfold truth. destruct (Z.eqb_spec (phys_pages s) 0); simpl; [by wp_step|].
  wp_step. eapply wp_mono; [by apply wp_functions|]. intros [] s' H. by wp_step.
Qed.

Lemma inv_regs s r : Inv s -> Inv (s <| rg := r |>).
Proof. exact (same_inv config env s _ (same_regs s (fun _ => r))). Qed.

Lemma helper_inv s : Inv s -> (phys_pages s = 0 -> at_home s) -> wp (ems_helper config) s (fun _ s' => Inv s').
Proof.
  intros Hs Hh. destruct (Z.eq_dec (phys_pages s) 0) as [E|E]; [destruct (Hh E) as (H1 & H2 & H3); by apply wp_helper|].
  assert (forall v, wp (SET_CF true ;; SET_BX v) s (fun _ s' => Inv s')) as Herr.
  { intros v. apply (neutral_safe config env); [|done]. apply neutral_bind; [apply neutral_set_regs|]. intros []. apply neutral_set_regs. }
  unfold ems_helper. repeat wp_step. destruct (_ =? 0); [|by apply (neutral_safe config env); [apply neutral_set_regs|]].
  destruct (negb _); [by apply Herr|]. unfold truth at 1. rewrite (proj2 (Z.eqb_neq _ _) E). by apply Herr.
Qed.

Lemma step_inv s s' : ems_step s s' -> Inv s -> Inv s'.
Proof.
  intros Hstep Hs. destruct Hstep as [r s s' v Hn E | r s s' E | r s s' Hh E | a v s].
  - pose proof (wp_ems_fn _ (inv_regs s r Hs) Hn) as H. unfold wp in H. by rewrite E in H.
  - pose proof (safe_ret_hlt config env Hcfg Henv _ (inv_regs s r Hs)) as H. unfold wp in H. by rewrite E in H.
  - pose proof (helper_inv (s <| rg := r |>) (inv_regs s r Hs) Hh) as H. unfold wp in H. by rewrite E in H.
  - apply (same_inv config env s); [|done]. apply (same_mem s (WRITE_BYTE (menv env) a v)).
    intros d. apply transfers_hwrite.
Qed.

Definition ems_reachable (s : emm) : Prop :=
  exists r0 r d c s0, bytes_ok d /\ identity d /\ mc_ok c /\
    boot r (blank_emm r0 d c) = Ok (tt, s0) /\ rtc ems_step s0 s.

Lemma booted_reachable r0 r d c s : bytes_ok d -> identity d -> mc_ok c ->
  boot r (blank_emm r0 d c) = Ok (tt, s) -> ems_reachable s.
Proof. intros Hd Hid Hc E. exists r0, r, d, c, s. do 4 (split; [done|]). apply rtc_refl. Qed.

Lemma reachable_inv s : ems_reachable s -> Inv s.
Proof.
  intros (r0 & r & d & c & s0 & Hd & Hid & Hc & E & Hsteps).
  assert (Inv s0) as H0.
  { pose proof (wp_boot r0 r d c Hd Hid Hc) as H. unfold wp in H. by rewrite E in H. }
  clear E. induction Hsteps as [s|s1 s2 s3 Hst _ IH]; [done|]. apply IH. by eapply step_inv.
Qed.

End boot.
