(* ===== verification/EmmSpec.v ===== *)
(** * Properties of the EMS driver *)

From stdpp Require Import base numbers list strings relations.
From Stdlib Require Import ZArith Lia.
From S2P Require Import Prelude Memcheck MemcheckSpec Dosmem Emm EmmInv EmmMap EmmAlloc EmmRealloc EmmSafe EmmFn.

Local Open Scope Z_scope.

Section spec.
Context (config : ems_config) (env : ems_env).
Context (Hcfg : config_ok config) (Henv : env_ok env).

Abbreviation Inv := (Inv config env).
Abbreviation total_phys := (total_phys config).

(** ** What the client sees in a window *)

Definition window_byte (s : emm) (i k : Z) : Z := READ_BYTE (menv env) (mem s) (16 * seg_of config i + k).

Lemma window_reads s i r k :
  Inv s -> 0 <= i < phys_pages s -> aget (emm_map s) i = Some r -> 0 <= k < EMM_PAGE_SIZE ->
  window_byte s i k = host (mem s) (target env (handle_info s) r + k).
Proof.
  intros (Ht & Hw & _) Hi Hr Hk. pose proof (phys_range config s i Ht Hi) as Hi'.
  destruct (seg_of_align config Hcfg i Hi') as [Ha Hs]. unfold EMM_PAGE_SIZE in Hk.
  pose proof (Z.div_mod (seg_of config i) 1024 ltac:(lia)) as E. rewrite Ha in E.
  set (q := seg_of config i / 1024) in *.
  assert (0 <= k / PAGE_SIZE < 4) as Hj.
  { unfold PAGE_SIZE. split; [apply Z.div_pos; lia|apply Z.div_lt_upper_bound; lia]. }
  assert ((16 * seg_of config i + k) / PAGE_SIZE = PHYS_PAGE_ADDR r / PAGE_SIZE + k / PAGE_SIZE) as Ediv.
  { rewrite (phys_addr config r i) by (by apply (entry_seg config s i r)). unfold PAGE_SIZE. rewrite E.
    replace (16 * (1024 * q + 0) + k) with (k + (4 * q) * 4096) by lia.
    replace (16 * (1024 * q + 0)) with ((4 * q) * 4096) by lia.
    rewrite Z.div_add, Z.div_mul by lia. lia. }
  assert ((16 * seg_of config i + k) mod PAGE_SIZE = k mod PAGE_SIZE) as Emod.
  { unfold PAGE_SIZE. rewrite E. replace (16 * (1024 * q + 0) + k) with (k + (4 * q) * 4096) by lia.
    by rewrite Z_mod_plus_full. }
  unfold window_byte, READ_BYTE, dosaddr_to_unixaddr.
  rewrite (proj2 (Z.ltb_lt _ ALIAS_SIZE)) by (unfold ALIAS_SIZE; lia).
  rewrite Ediv, Emod, (Hw i Hi r Hr (k / PAGE_SIZE) Hj). f_equal.
  pose proof (Z.div_mod k PAGE_SIZE ltac:(unfold PAGE_SIZE; lia)). lia.
Qed.

(** C23: When alias_mapping never fails (its failure ends the emulator), in
    every state reached from boot by requests, returns, guest writes and
    helper calls the invariant of the driver holds (tables, windows,
    accounting); every EMS request with any client registers, other than a
    move of negative length, and every call of ems_helper, when the driver is
    set up already or every window shows the DOS memory below it and the
    memory map is well formed (so after a reset not while a page is left in a
    window), ends without a fault or an index out of a table and leads to such
    a state again. *)
Theorem ems_requests_safe s :
  ems_reachable config env s ->
  Inv s /\
  (forall r, ~ negative_move env (s <| rg := r |>) ->
    exists v s', ems_fn config env (s <| rg := r |>) = Ok (v, s') /\ ems_reachable config env s') /\
  (forall r, (phys_pages s = 0 -> at_home config env s) ->
    exists s', ems_helper config (s <| rg := r |>) = Ok (tt, s') /\ ems_reachable config env s').
Proof.
  intros Hs. pose proof (reachable_inv config env Hcfg Henv s Hs) as Hi. split; [done|]. split.
  2: { intros r Hh. destruct (wp_inv _ _ _ (helper_inv config env Hcfg _ (inv_regs config env s r Hi) Hh)) as ([] & s' & E & _).
    exists s'. split; [done|]. destruct Hs as (r0 & r1 & d & c & s0 & Hd & Hid & Hc & Eb & Hst).
    exists r0, r1, d, c, s0. do 4 (split; [done|]). eapply rtc_r; [exact Hst|]. by eapply step_helper. }
  intros r Hn.
  destruct (wp_inv _ _ _ (wp_ems_fn config env Hcfg Henv _ (inv_regs config env s r Hi) Hn)) as (v & s' & E & _).
  exists v, s'. split; [done|]. destruct Hs as (r0 & r1 & d & c & s0 & Hd & Hid & Hc & Eb & Hst).
  exists r0, r1, d, c, s0. do 4 (split; [done|]).
  eapply rtc_r; [exact Hst|]. by eapply step_request.
Qed.

(** C24: When alias_mapping never fails, in every state reached from boot by
    requests other than moves of negative length, returns, guest writes and
    calls of ems_helper (after a reset only when every window shows the DOS
    memory below it: a page of the system handle left in a window stays there,
    see the findings), a byte of a physical page is the byte of the logical
    page that emm_map names, which belongs to an active handle, and the byte
    of DOS memory below when nothing is mapped. *)
Theorem ems_window_shows_page s i r k :
  ems_reachable config env s -> 0 <= i < phys_pages s -> aget (emm_map s) i = Some r -> 0 <= k < EMM_PAGE_SIZE ->
  (handle r = NULL_HANDLE /\ window_byte s i k = host (mem s) (LOWMEM (menv env) (16 * seg_of config i + k))) \/
  (exists x, aget (handle_info s) (handle r) = Some x /\ active x <> 0 /\ 0 <= logical_page r < numpages x /\
     window_byte s i k = host (mem s) (object x + logical_page r * EMM_PAGE_SIZE + k)).
Proof.
  intros Hs Hi Hr Hk. pose proof (reachable_inv config env Hcfg Henv s Hs) as Hinv. pose proof (proj1 Hinv) as Ht.
  rewrite (window_reads s i r k) by done. destruct (t_rec config s Ht i r Hr) as [E|(x & Hx & Hl)].
  - left. split; [done|]. unfold target. rewrite E, (info_null config s Ht).
    rewrite (phys_addr config r i) by (by apply (entry_seg config s i r)). unfold LOWMEM. f_equal. lia.
  - right. exists x. unfold target. rewrite Hx. repeat split; try done; try lia.
    intros Ha. pose proof (h_inactive _ x (t_hand config s Ht _ x Hx) Ha). lia.
Qed.

(** When the mapping layer does not refuse memory, handle_total is the
    number of active handles, emm_allocated the sum of their pages, and it
    stays within EMM_TOTAL. *)
Theorem ems_accounting s :
  ems_reachable config env s -> no_failure env ->
  handle_total s = zsum is_active (handle_info s) /\
  emm_allocated s = zsum numpages (handle_info s) /\ emm_allocated s <= EMM_TOTAL config.
Proof.
  intros Hs Hno. destruct (reachable_inv config env Hcfg Henv s Hs) as (Ht & _ & Hc).
  split; [apply (t_total config s Ht)|]. split; [by apply Hc|apply (t_quota config s Ht)].
Qed.

(** ** Mapping *)

(** The other windows and all of host memory are as before. *)
Definition elsewhere_same (p : Z) (s s' : emm) : Prop :=
  host (mem s') = host (mem s) /\
  (forall i, i <> p -> aget (emm_map s') i = aget (emm_map s) i) /\
  (forall i k, i <> p -> 0 <= i < phys_pages s -> 0 <= k < EMM_PAGE_SIZE -> window_byte s' i k = window_byte s i k).

Lemma remapped_elsewhere p r s s' : Inv s -> Inv s' -> 0 <= p < phys_pages s ->
  remapped env p r s s' -> elsewhere_same p s s'.
Proof.
  intros Hs Hs' Hp [E1 E2 E3 E4 E5 E6 E7].
  pose proof (t_map config s (proj1 Hs)) as Hlen. pose proof (phys_range config s p (proj1 Hs) Hp).
  pose proof (total_phys_range config Hcfg).
  assert (forall i, i <> p -> aget (emm_map s') i = aget (emm_map s) i) as Hmap.
  { intros i Hi. rewrite E1, aget_astore by lia. by rewrite (proj2 (Z.eqb_neq _ _)). }
  assert (host (mem s') = host (mem s)) as Hh by (by rewrite E6, host_update).
  split; [done|]. split; [done|]. intros i k Hne Hi Hk.
  pose proof (phys_range config s i (proj1 Hs) Hi).
  destruct (map_at_some config s i (proj1 Hs) ltac:(lia)) as [q Hq].
  rewrite (window_reads s i q), (window_reads s' i q); try done; [by rewrite Hh, E2|by rewrite E5|by rewrite Hmap].
Qed.

(** C25: MAP_UNMAP shows exactly the requested logical page in the physical
    page, or the DOS memory below for 0xffff, leaves every other window and
    all contents alone, and on each of its three errors changes nothing. *)
Theorem ems_map_unmap_correct h p l s :
  Inv s -> 0 <= l ->
  wp (do_map_unmap env h p l) s (fun e s' =>
    (e = EMM_NO_ERR /\ 0 <= p < phys_pages s /\ l <> NULL_PAGE /\ elsewhere_same p s s' /\
       handle_info s' = handle_info s /\
       exists x, aget (handle_info s) h = Some x /\ active x <> 0 /\ l < numpages x /\
         forall k, 0 <= k < EMM_PAGE_SIZE -> window_byte s' p k = host (mem s) (object x + l * EMM_PAGE_SIZE + k)) \/
    (e = EMM_NO_ERR /\ 0 <= p < phys_pages s /\ l = NULL_PAGE /\ elsewhere_same p s s' /\
       handle_info s' = handle_info s /\
       forall k, 0 <= k < EMM_PAGE_SIZE -> window_byte s' p k = host (mem s) (LOWMEM (menv env) (16 * seg_of config p + k))) \/
    (s' = s /\ ((e = EMM_ILL_PHYS /\ ~ 0 <= p < phys_pages s) \/
       (e = EMM_INV_HAN /\ (~ 0 <= h < 255 \/ exists x, aget (handle_info s) h = Some x /\ active x = 0)) \/
       (e = EMM_LOG_OUT_RAN /\ exists x, aget (handle_info s) h = Some x /\ numpages x <= l)))).
Proof.
  intros Hs Hl. pose proof (proj1 Hs) as Ht. unfold do_map_unmap. repeat wp_step. rewrite in_phys_test.
  destruct (in_phys p s) eqn:Hp; simpl.
  2: { wp_step. right. right. split; [done|]. left. split; [done|]. rewrite <- in_phys_spec. congruence. }
  apply in_phys_spec in Hp. pose proof (phys_range config s p Ht Hp). pose proof (total_phys_range config Hcfg).
  destruct (Z.eqb_spec l NULL_PAGE) as [->|Hnull].
  - wp_step. apply (wp_unmap_page config env Hcfg Henv); [done| |].
    + intros r s' _ Hr Hn Hm. wp_step. right. left.
      pose proof (entry_seg config s p r Ht Hp Hr) as Hseg.
      assert (Inv s') as Hs' by (apply (remapped_inv config env Hcfg p (mapped_entry NULL_HANDLE NULL_PAGE r) s s' Hs Hp Hseg (rec_ok_null _ r _) Hm)).
      split; [done|]. split; [done|]. split; [done|]. split; [by eapply remapped_elsewhere|].
      destruct Hm as [E1 E2 E3 E4 E5 E6 E7]. split; [done|]. intros k Hk.
      rewrite (window_reads s' p (mapped_entry NULL_HANDLE NULL_PAGE r)); try done; [|by rewrite E5|].
      * rewrite E6, host_update. unfold target. rewrite E2. simpl. rewrite (info_null config s Ht).
        unfold PHYS_PAGE_ADDR. simpl. rewrite Hseg, Z.shiftl_mul_pow2 by lia. unfold LOWMEM. f_equal.
        change (2 ^ 4) with 16. lia.
      * rewrite E1, aget_astore, Z.eqb_refl by (rewrite (t_map config s Ht); lia). done.
    + intros [Hc|(r & Hr & Hn)]; [apply in_phys_spec in Hp; congruence|]. wp_step. right. left.
      split; [done|]. split; [done|]. split; [done|]. split; [by repeat split|]. split; [done|]. intros k Hk.
      rewrite (window_reads s p r) by done. unfold target. rewrite Hn, (info_null config s Ht).
      rewrite (phys_addr config r p) by (by apply (entry_seg config s p r)). unfold LOWMEM. f_equal. lia.
  - wp_step. apply (wp_handle_active config); [done| |].
    2: { intros Hc. simpl. wp_step. right. right. split; [done|]. right. left. split; [done|]. exact Hc. }
    intros x Hh Hx Ha. simpl. wp_step. apply (wp_get_info h s x); [done|].
    destruct (Z.leb_spec (numpages x) l).
    { wp_step. right. right. split; [done|]. right. right. split; [done|]. by exists x. }
    wp_step. apply (wp_map_page config env Hcfg Henv); [done|by right| |].
    + intros r y s' _ Hr Hy Hlt Hm. assert (y = x) as -> by congruence. wp_step. left.
      pose proof (entry_seg config s p r Ht Hp Hr) as Hseg.
      assert (Inv s') as Hs'.
      { apply (remapped_inv config env Hcfg p (mapped_entry h l r) s s' Hs Hp Hseg); [right; by eauto|done]. }
      split; [done|]. split; [done|]. split; [done|]. split; [by eapply remapped_elsewhere|].
      destruct Hm as [E1 E2 E3 E4 E5 E6 E7]. split; [done|]. exists x. do 3 (split; [done|]). intros k Hk.
      rewrite (window_reads s' p (mapped_entry h l r)); try done; [|by rewrite E5|].
      * rewrite E6, host_update. unfold target. rewrite E2. simpl. by rewrite Hx.
      * rewrite E1, aget_astore, Z.eqb_refl by (rewrite (t_map config s Ht); lia). done.
    + intros [Hc|[Hc|(y & Hy & Hc)]]; [apply in_phys_spec in Hp; congruence| |].
      * unfold NULL_HANDLE in Hc. lia.
      * assert (y = x) as -> by congruence. lia.
Qed.

(** ** Allocation, release, reallocation *)

Lemma active_count l : zsum is_active l <= Z.of_nat (length l).
Proof.
  induction l as [|z l IH]; [done|]. change (is_active z + zsum is_active l <= Z.of_nat (S (length l))).
  assert (is_active z <= 1) by (unfold is_active, of_bool; destruct (truth _); lia). lia.
Qed.

Lemma allocated_nonneg s : Inv s -> no_failure env -> 0 <= emm_allocated s.
Proof.
  intros (Ht & _ & Hc) Hno. rewrite (Hc Hno).
  assert (Forall (fun x => 0 <= numpages x) (handle_info s)) as H.
  { apply Forall_lookup. intros i x Hx. apply (h_pages (Z.of_nat i) x), (t_hand config s Ht).
    unfold aget. by rewrite (proj2 (Z.ltb_ge _ 0)), Nat2Z.id by lia. }
  induction H as [|x l Hx _ IH]; simpl; lia.
Qed.

(** C26: When the mapping layer gives memory, emm_allocate_handle succeeds
    exactly when a handle and enough pages are left; it then activates one
    inactive handle with that many pages and counts them, and otherwise
    changes neither handles, map nor counters. *)
Theorem ems_allocate_correct n s :
  Inv s -> 0 <= n <= 65535 -> no_failure env ->
  wp (emm_allocate_handle config env n) s (fun h s' => Inv s' /\
    ((h <> EMM_ERROR <-> handle_total s < 255 /\ n <= EMM_TOTAL config - emm_allocated s) /\
     (h <> EMM_ERROR ->
        1 <= h < 255 /\ emm_map s' = emm_map s /\ mem s' = mem s /\
        handle_total s' = handle_total s + 1 /\ emm_allocated s' = emm_allocated s + n /\
        (exists x y, aget (handle_info s) h = Some x /\ active x = 0 /\
           aget (handle_info s') h = Some y /\ active y = 1 /\ numpages y = n /\ (n <> 0 -> object y <> 0)) /\
        forall k, k <> h -> aget (handle_info s') k = aget (handle_info s) k) /\
     (h = EMM_ERROR -> same s s'))).
Proof.
  intros Hs Hn Hno. pose proof (proj1 Hs) as Ht.
  eapply wp_mono; [apply (wp_both _ _ _ _ (wp_allocate config env n s Ht ltac:(lia)) (safe_allocate config env Hcfg n Hn s Hs))|].
  intros h s' [(_ & _ & [[-> [Hsame Hr]] | Ha]) Hs']; (split; [done|]).
  - split; [|by split]. split; [done|]. intros [H1 H2].
    pose proof (allocated_nonneg s Hs Hno).
    destruct Hr as [[_ ?]|[[_ ?]|[[_ ?]|(_ & _ & ?)]]]; try lia; done.
  - destruct Ha as [Hh (x & obj & Hx & Hact & Ho & E2) E1 E4 E5 E6 Hq].
    pose proof (fun k => aget_replaced s h x (fresh_handle config obj n x) k Hx) as Hget.
    split; [|split; [intros _|unfold EMM_ERROR; lia]].
    + split; [intros _|unfold EMM_ERROR; lia]. split; [|lia].
      assert (handle_total s' <= 255); [|lia]. rewrite (t_total config s' (proj1 Hs')).
      pose proof (t_info config s' (proj1 Hs')) as Hlen. pose proof (active_count (handle_info s')). lia.
    + split; [done|]. split; [done|]. split; [done|]. split; [done|]. split; [done|]. rewrite E2. split.
      * exists x, (fresh_handle config obj n x). rewrite Hget, Z.eqb_refl. done.
      * intros k Hk. by rewrite Hget, (proj2 (Z.eqb_neq _ _)).
Qed.

(** Deallocating an active handle frees it, gives its pages back, removes
    it from every window, and keeps the memory of the other handles and what
    the other windows show. *)
Theorem ems_deallocate_correct h x s :
  Inv s -> 1 <= h < 255 -> aget (handle_info s) h = Some x -> active x <> 0 ->
  wp (emm_deallocate_handle env h) s (fun _ s' =>
    Inv s' /\ (exists y, aget (handle_info s') h = Some y /\ active y = 0 /\ numpages y = 0) /\
    handle_total s' = handle_total s - 1 /\ emm_allocated s' = emm_allocated s - numpages x /\
    host (mem s') = host (mem s) /\
    (forall k y, k <> h -> aget (handle_info s) k = Some y -> exists z, aget (handle_info s') k = Some z /\
       active z = active y /\ numpages z = numpages y /\ object z = object y) /\
    (forall i r, aget (emm_map s') i = Some r -> handle r <> h) /\
    (forall i r k, 0 <= i < phys_pages s -> aget (emm_map s) i = Some r -> handle r <> h -> 0 <= k < EMM_PAGE_SIZE ->
       aget (emm_map s') i = Some r /\ window_byte s' i k = window_byte s i k)).
Proof.
  intros Hs Hh Hx Ha. eapply wp_mono; [by apply (wp_deallocate config env Hcfg Henv h x s)|].
  intros [] s' [D1 D2 D3 D4 D5 D6 D7 D8 D9]. split; [done|]. split; [done|]. split; [done|]. split; [done|]. split; [done|].
  assert (forall k y, k <> h -> aget (handle_info s) k = Some y -> exists z, aget (handle_info s') k = Some z /\
       active z = active y /\ numpages z = numpages y /\ object z = object y) as Hother.
  { intros k y Hne Hy. rewrite (D2 k y Hne Hy). eexists. split; [done|]. by destruct (k =? phys_pages s). }
  split; [done|]. split.
  - destruct D3 as (y & Hy & _ & Hn). exact (unmapped_inactive config s' h y (proj1 D1) Hy Hn).
  - intros i r k Hi Hr Hne Hk. assert (aget (emm_map s') i = Some r) as Hr'.
    { rewrite (D4 i r Hr) by lia. unfold dropped. by rewrite (proj2 (Z.eqb_neq _ _)). }
    split; [done|]. rewrite (window_reads s i r), (window_reads s' i r) by (by rewrite ?D7).
    rewrite D9. f_equal. f_equal. unfold target. destruct (aget (handle_info s) (handle r)) as [y|] eqn:Hy.
    + destruct (Hother _ y Hne Hy) as (z & -> & _ & _ & ->). done.
    + destruct (t_rec config s (proj1 Hs) i r Hr) as [E|(z & Hz & _)]; [|congruence].
      by rewrite E, (info_null config s' (proj1 D1)).
Qed.

End spec.
