(* ===== verification/EmmContext.v ===== *)
(** * The EMS driver: saved page maps, reallocation, names *)

From stdpp Require Import base numbers list strings relations.
From Stdlib Require Import ZArith Lia.
From S2P Require Import Prelude Memcheck MemcheckSpec Dosmem Emm EmmInv EmmMap EmmAlloc EmmRealloc EmmSafe EmmFn EmmSpec.

Local Open Scope Z_scope.

Section context.
Context (config : ems_config) (env : ems_env).
Context (Hcfg : config_ok config) (Henv : env_ok env).

Abbreviation Inv := (Inv config env).
Abbreviation total_phys := (total_phys config).
Abbreviation saved_pages := (saved_phys_pages config).

(** ** Reallocation *)

(** Reallocation gives the handle the new number of pages (or keeps it
    when the mapping layer refuses), unmaps the windows whose page is gone,
    and makes the others show their page in the new object. *)
Theorem ems_reallocate_correct s h n x :
  Inv s -> h = LWORD (edx (rg s)) -> n = LWORD (ebx (rg s)) ->
  1 <= h < 255 -> aget (handle_info s) h = Some x -> active x <> 0 -> n <> numpages x ->
  emm_allocated s + (n - numpages x) <= EMM_TOTAL config ->
  wp (reallocate_pages config env) s (fun _ s' => Inv s' /\
    exists y, aget (handle_info s') h = Some y /\ active y = active x /\
      (numpages y = n \/ (y = x /\ ~ no_failure env)) /\
      (forall k, k <> h -> aget (handle_info s') k = aget (handle_info s) k) /\
      (forall i r, 0 <= i < phys_pages s -> aget (emm_map s) i = Some r ->
         if (handle r =? h) && (n <=? logical_page r)
         then exists q, aget (emm_map s') i = Some q /\ handle q = NULL_HANDLE
         else aget (emm_map s') i = Some r) /\
      (forall i r k, 0 <= i < phys_pages s -> aget (emm_map s) i = Some r -> handle r = h ->
         logical_page r < n -> 0 <= k < EMM_PAGE_SIZE ->
         window_byte config env s' i k = host (mem s') (object y + logical_page r * EMM_PAGE_SIZE + k))).
Proof.
  intros Hs Eh En Hh Hx Ha Hne Hq. pose proof (LWORD_range (ebx (rg s))) as Hn. rewrite <- En in Hn.
  unfold reallocate_pages. repeat wp_step. rewrite <- Eh, <- En.
  apply (wp_handle_active config); [apply Hs| |].
  2: { intros [?|(z & Hz & Hc)]; [lia|]. congruence. }
  intros z _ Hz _. assert (z = x) as -> by congruence. simpl. wp_step. apply (wp_get_info h s x); [done|].
  rewrite (proj2 (Z.eqb_neq n _)) by done. unfold OS_HANDLE. rewrite (proj2 (Z.eqb_neq h 0)) by lia.
  rewrite (proj2 (Z.ltb_ge (EMM_TOTAL config) _)) by done.
  eapply wp_mono; [by apply (wp_reallocate_loops config env Hcfg Henv h n x); try lia|].
  intros [] s' (Hs' & Ep & _ & (y & Hy & Ey) & Htrim). split; [done|].
  assert (forall k, aget (handle_info s') k = if k =? h then Some y else aget (handle_info s) k) as Hget.
  { intros k. rewrite Ey. by apply (aget_replaced s h x y k). }
  exists y. rewrite Hget, Z.eqb_refl. split; [done|]. split; [exact (attempt_active env n x y Hy)|].
  split; [exact (attempt_pages env n x y Hy)|].
  split; [intros k Hk; by rewrite Hget, (proj2 (Z.eqb_neq _ _))|]. split.
  - intros i r Hi Hr. rewrite (Htrim i r Hr) by lia. unfold trimmed.
    destruct ((handle r =? h) && (n <=? logical_page r)); [by eexists|done].
  - intros i r k Hi Hr E Hl Hk. assert (aget (emm_map s') i = Some r) as Hr'.
    { rewrite (Htrim i r Hr) by lia. unfold trimmed. by rewrite (proj2 (Z.leb_gt _ _) Hl), andb_false_r. }
    rewrite (window_reads config env Hcfg s' i r) by (by rewrite ?Ep). unfold target. by rewrite E, Hget, Z.eqb_refl.
Qed.

(** ** Saved page maps *)

(** The saved arrays of [x] describe entry [i] of the table. *)
Definition saved_entry (x : handle_record) (i : Z) (r : emm_record) : Prop :=
  if handle r =? NULL_HANDLE then aget (saved_mappings_logical x) i = Some NULL_PAGE
  else aget (saved_mappings_logical x) i = Some (logical_page r) /\
       aget (saved_mappings_handle x) i = Some (handle r).

Definition same_handle (x y : handle_record) : Prop :=
  active y = active x /\ numpages y = numpages x /\ object y = object x.

(** After the first [k] pages of [s0] are saved in handle [h]. *)
Record saved_upto (h k : Z) (s0 s : emm) : Prop := {
  v_inv : Inv s;
  v_map : emm_map s = emm_map s0;
  v_phys : phys_pages s = phys_pages s0;
  v_mem : mem s = mem s0;
  v_handles : forall g x, aget (handle_info s0) g = Some x ->
    exists y, aget (handle_info s) g = Some y /\ same_handle x y;
  v_saved : forall i r, 0 <= i < k -> aget (emm_map s0) i = Some r ->
    exists x, aget (handle_info s) h = Some x /\ saved_entry x i r;
}.

(** Storing one entry. *)
Definition save_entry (i : Z) (r : emm_record) (x : handle_record) : handle_record :=
  if handle r =? NULL_HANDLE then x <| saved_mappings_logical ::= fun l => astore l i NULL_PAGE |>
  else x <| saved_mappings_logical ::= fun l => astore l i (logical_page r) |>
         <| saved_mappings_handle ::= fun l => astore l i (handle r) |>.

Lemma save_entry_other h i r x k q : hand_ok h x -> 0 <= i < 4 -> 0 <= k < 4 -> k <> i ->
  saved_entry x k q -> saved_entry (save_entry i r x) k q.
Proof.
  intros Hx Hi Hk Hne. pose proof (h_saved_h h x Hx). pose proof (h_saved_l h x Hx).
  unfold saved_entry, save_entry. destruct (handle r =? NULL_HANDLE), (handle q =? NULL_HANDLE); simpl;
    rewrite ?aget_astore by lia; by rewrite ?(proj2 (Z.eqb_neq k i)).
Qed.

Lemma save_entry_this h i r x : hand_ok h x -> 0 <= i < 4 -> saved_entry (save_entry i r x) i r.
Proof.
  intros Hx Hi. pose proof (h_saved_h h x Hx). pose proof (h_saved_l h x Hx).
  unfold saved_entry, save_entry. destruct (handle r =? NULL_HANDLE); simpl;
    rewrite !aget_astore, !Z.eqb_refl by lia; done.
Qed.

Lemma wp_save_entry h k s0 s : 0 <= h < 255 -> 0 <= k < saved_pages -> saved_upto h k s0 s ->
  wp (let! r := get_map k in
    if negb (handle r =? NULL_HANDLE) then
      upd_info h (fun x => x <| saved_mappings_logical ::= fun l => astore l k (logical_page r) |>
        <| saved_mappings_handle ::= fun l => astore l k (handle r) |>)
    else upd_info h (fun x => x <| saved_mappings_logical ::= fun l => astore l k NULL_PAGE |>)) s
    (fun _ s' => Inv s' -> saved_upto h (k + 1) s0 s').
Proof.
  intros Hh Hk [Hi E1 E2 E3 Hhs Hsv]. pose proof (saved_range config Hcfg) as H4.
  destruct (map_at_some config s k (proj1 Hi) ltac:(lia)) as [r Hr].
  destruct (info_at_some config s h (proj1 Hi) Hh) as [x Hx].
  pose proof (t_hand config s (proj1 Hi) h x Hx) as Hok.
  wp_step. apply (wp_get_map k s r); [done|].
  assert (wp (upd_info h (save_entry k r)) s (fun _ s' => Inv s' -> saved_upto h (k + 1) s0 s')) as H.
  { eapply wp_upd_info; [exact Hx|]. intros Hi'.
    pose proof (fun g => aget_replaced s h x (save_entry k r x) g Hx) as Hget.
    split; try done; simpl.
    - intros g y Hy. destruct (Hhs g y Hy) as (z & Hz & Hsame). rewrite Hget.
      destruct (Z.eqb_spec g h) as [->|]; [|eauto]. assert (z = x) as -> by congruence.
      eexists. split; [done|]. unfold save_entry. by destruct (handle r =? NULL_HANDLE).
    - intros i q Hik Hq. exists (save_entry k r x). rewrite Hget, Z.eqb_refl. split; [done|].
      destruct (Z.eq_dec i k) as [->|Hne].
      + assert (q = r) as -> by congruence. eapply save_entry_this; [done|lia].
      + destruct (Hsv i q ltac:(lia) Hq) as (y & Hy & Hs). assert (y = x) as -> by congruence.
        eapply save_entry_other; try done; lia. }
  unfold save_entry in H. by destruct (handle r =? NULL_HANDLE).
Qed.

Lemma wp_save h s : Inv s -> 0 <= h < 255 ->
  wp (emm_save_handle_state config h) s (fun _ s' => saved_upto h saved_pages s s').
Proof.
  intros Hs Hh. pose proof (saved_range config Hcfg). unfold emm_save_handle_state.
  apply (wp_mfor (fun k s' => saved_upto h k s s')).
  - split; try done; [|lia]. intros g x Hx. exists x. by repeat split.
  - intros k s1 Hk H1.
    pose proof (wp_save_entry h k s s1 Hh ltac:(lia) H1) as Hw.
    pose proof (safe_save_step config env Hcfg h k Hh ltac:(lia) s1 (v_inv _ _ _ _ H1)) as Hsafe.
    eapply wp_mono; [exact (wp_both _ _ _ _ Hw Hsafe)|]. intros [] s' [H2 H3]. auto.
  - intros s'. by replace (0 + Z.of_nat (Z.to_nat saved_pages)) with saved_pages by lia.
Qed.

(** Steps that only touch the table and the page table. *)
Record same_handles (s s' : emm) : Prop := {
  z_inv : Inv s';
  z_info : handle_info s' = handle_info s;
  z_phys : phys_pages s' = phys_pages s;
  z_host : host (mem s') = host (mem s);
}.

Lemma same_handles_trans s1 s2 s3 : same_handles s1 s2 -> same_handles s2 s3 -> same_handles s1 s3.
Proof. intros [] []. split; congruence. Qed.

Lemma remapped_handles p q r s s' : Inv s -> 0 <= p < phys_pages s -> aget (emm_map s) p = Some q ->
  phys_seg r = phys_seg q -> rec_ok (handle_info s) r -> remapped env p r s s' ->
  same_handles s s' /\ forall i, 0 <= i -> aget (emm_map s') i = if i =? p then Some r else aget (emm_map s) i.
Proof.
  intros Hs Hp Hq Hseg Hrec Hm. pose proof (phys_range config s p (proj1 Hs) Hp). pose proof (total_phys_range config Hcfg).
  assert (Inv s').
  { apply (remapped_inv config env Hcfg p r s s'); try done. rewrite Hseg. by apply (entry_seg config s p q (proj1 Hs)). }
  destruct Hm. split; [split; try done; by rewrite m_mem, host_update|].
  intros i Hi. rewrite m_map. apply aget_astore. rewrite (t_map config s (proj1 Hs)). lia.
Qed.

(** Map and unmap with their effect on the table. *)
Lemma wp_map_entry h p l s : Inv s -> h = NULL_HANDLE \/ 0 <= h < 255 -> 0 <= l ->
  wp (map_page env h p l) s (fun b s' => same_handles s s' /\
    (forall i, 0 <= i -> i <> p -> aget (emm_map s') i = aget (emm_map s) i) /\
    (b = true -> exists r, aget (emm_map s) p = Some r /\ aget (emm_map s') p = Some (mapped_entry h l r)) /\
    (b = false -> in_phys p s = false \/ h = NULL_HANDLE \/ exists x, aget (handle_info s) h = Some x /\ numpages x <= l)).
Proof.
  intros Hs Hh Hl. apply (wp_map_page config env Hcfg Henv); [apply Hs|done| |].
  - intros r x s' Hp Hr Hx Hlt Hm.
    destruct (remapped_handles p r (mapped_entry h l r) s s' Hs Hp Hr eq_refl) as [H1 H2];
      [right; by eauto|done|]. split; [done|]. split.
    + intros i Hi Hne. by rewrite H2, (proj2 (Z.eqb_neq _ _)).
    + split; [|done]. intros _. exists r. by rewrite H2, Z.eqb_refl by lia.
  - intros H. split; [by split|]. split; [done|]. by split.
Qed.

Lemma wp_unmap_entry_at p s : Inv s ->
  wp (unmap_page env p) s (fun b s' => same_handles s s' /\
    (forall i, 0 <= i -> i <> p -> aget (emm_map s') i = aget (emm_map s) i) /\
    (in_phys p s = true -> exists r, aget (emm_map s') p = Some r /\ handle r = NULL_HANDLE)).
Proof.
  intros Hs. apply (wp_unmap_page config env Hcfg Henv); [apply Hs| |].
  - intros r s' Hp Hr Hn Hm.
    destruct (remapped_handles p r (mapped_entry NULL_HANDLE NULL_PAGE r) s s' Hs Hp Hr eq_refl) as [H1 H2];
      [by left|done|]. split; [done|]. split.
    + intros i Hi Hne. by rewrite H2, (proj2 (Z.eqb_neq _ _)).
    + intros _. eexists. by rewrite H2, Z.eqb_refl by lia.
  - intros H. split; [by split|]. split; [done|]. intros Hp. destruct H as [H|(r & Hr & Hn)]; [congruence|eauto].
Qed.

(** Any mapping requests between the save and the restore. *)
Fixpoint map_requests (l : list (Z * Z * Z)) : M emm unit :=
  match l with
  | [] => ret tt
  | (h, p, log) :: l => do_map_unmap env h p log ;; map_requests l
  end.

Lemma wp_request h p l s : Inv s -> 0 <= l -> wp (do_map_unmap env h p l) s (fun _ s' => same_handles s s').
Proof.
  intros Hs Hl. assert (same_handles s s) as Hrefl by by split. unfold do_map_unmap. repeat wp_step. rewrite in_phys_test.
  destruct (in_phys p s); simpl; [|by wp_step]. destruct (l =? NULL_PAGE).
  { wp_step. eapply wp_mono; [by apply wp_unmap_entry_at|]. intros b s' [H _]. by wp_step. }
  wp_step. apply (wp_handle_active config); [apply Hs| |intros _; simpl; by wp_step].
  intros x Hh Hx Ha. simpl. wp_step. apply (wp_get_info h s x); [done|].
  destruct (numpages x <=? l); [by wp_step|]. wp_step.
  eapply wp_mono; [apply wp_map_entry; auto|]. intros b s' [H _]. by wp_step.
Qed.

Lemma wp_requests l s : Inv s -> Forall (fun x => 0 <= x.2) l -> wp (map_requests l) s (fun _ s' => same_handles s s').
Proof.
  intros Hs Hl. revert s Hs. induction Hl as [|[[h p] log] l Hlog _ IH]; intros s Hs; simpl; [wp_step; by split|].
  wp_step. eapply wp_mono; [by apply wp_request|]. intros e s1 H1.
  eapply wp_mono; [apply IH, (z_inv _ _ H1)|]. intros [] s2 H2. exact (same_handles_trans s s1 s2 H1 H2).
Qed.

(** The pages below [k] are as in [s0] again. *)
Definition restored (k : Z) (s0 s : emm) : Prop :=
  forall i r, 0 <= i < k -> aget (emm_map s0) i = Some r ->
    exists q, aget (emm_map s) i = Some q /\ handle q = handle r /\ (handle r <> NULL_HANDLE -> logical_page q = logical_page r).

Lemma wp_restore h s0 s1 s : Inv s0 -> phys_pages s0 = total_phys -> 0 <= h < 255 ->
  saved_upto h saved_pages s0 s1 -> same_handles s1 s ->
  wp (emm_restore_handle_state config env h) s (fun _ s' => same_handles s1 s' /\ restored saved_pages s0 s').
Proof.
  intros Hs0 Hp0 Hh [V1 V2 V3 V4 V5 V6] Hs. pose proof (saved_range config Hcfg) as Hsv.
  assert (saved_pages <= total_phys) as Hle.
  { pose proof (c_cnv config Hcfg). unfold saved_phys_pages, EmmInv.total_phys in *. lia. }
  unfold emm_restore_handle_state.
  apply (wp_mfor (fun k s' => same_handles s1 s' /\ restored k s0 s')).
  { split; [done|]. intros i r Hi. lia. }
  2: { intros s'. by replace (0 + Z.of_nat (Z.to_nat saved_pages)) with saved_pages by lia. }
  intros k s2 Hk [H2 Hr2]. pose proof (z_inv _ _ H2) as Hi2. assert (0 <= k < saved_pages) as Hk' by lia.
  destruct (map_at_some config s0 k (proj1 Hs0) ltac:(lia)) as [r Hr].
  destruct (V6 k r Hk' Hr) as (x & Hx & Hsaved). rewrite <- (z_info _ _ H2) in Hx.
  pose proof (t_hand config s2 (proj1 Hi2) h x Hx) as Hok.
  destruct (aget_lt (saved_mappings_logical x) k) as [l Hl]; [rewrite (h_saved_l h x Hok); lia|].
  destruct (aget_lt (saved_mappings_handle x) k) as [g Hg]; [rewrite (h_saved_h h x Hok); lia|].
  assert (in_phys k s2 = true) as Hin.
  { apply in_phys_spec. rewrite (z_phys _ _ H2), V3. lia. }
  assert (forall s3, same_handles s2 s3 -> (forall i, 0 <= i -> i <> k -> aget (emm_map s3) i = aget (emm_map s2) i) ->
    (exists q, aget (emm_map s3) k = Some q /\ handle q = handle r /\ (handle r <> NULL_HANDLE -> logical_page q = logical_page r)) ->
    same_handles s1 s3 /\ restored (k + 1) s0 s3) as Hnext.
  { intros s3 H3 Hmap Hq. split; [exact (same_handles_trans s1 s2 s3 H2 H3)|]. intros i p Hi Hp.
    destruct (Z.eq_dec i k) as [->|Hne]; [by assert (p = r) as -> by congruence|].
    destruct (Hr2 i p ltac:(lia) Hp) as (q & Hq' & H). exists q. by rewrite Hmap by lia. }
  wp_step. apply (wp_get_info h s2 x); [done|]. wp_step. eapply wp_nth_of; [done|]. wp_step. eapply wp_nth_of; [done|].
  unfold saved_entry in Hsaved. destruct (Z.eqb_spec (handle r) NULL_HANDLE) as [E|E].
  - assert (l = NULL_PAGE) as -> by congruence. simpl. wp_step.
    eapply wp_mono; [by apply wp_unmap_entry_at|]. intros b s3 (H3 & Hm & Hq). wp_step.
    apply Hnext; [done|done|]. destruct (Hq Hin) as (q & Hq' & Hn). exists q. split; [done|]. split; [congruence|done].
  - destruct Hsaved as [Hsl Hsg]. assert (l = logical_page r) as -> by congruence. assert (g = handle r) as -> by congruence.
    destruct (t_rec config s0 (proj1 Hs0) k r Hr) as [?|(y & Hy & Hlog)]; [done|].
    destruct (V5 _ y Hy) as (z & Hz & _ & Hn & _). rewrite <- (z_info _ _ H2) in Hz.
    pose proof (h_pages _ y (t_hand config s0 (proj1 Hs0) _ y Hy)) as Hpages.
    rewrite (proj2 (Z.eqb_neq (logical_page r) NULL_PAGE)) by (unfold NULL_PAGE; lia). simpl. wp_step.
    pose proof (info_range config s0 _ y (proj1 Hs0) Hy) as Hrange.
    eapply wp_mono; [apply wp_map_entry; [done|by right|lia]|]. intros b s3 (H3 & Hm & Hq & Hno). wp_step.
    apply Hnext; [done|done|]. destruct b.
    + destruct (Hq eq_refl) as (q & _ & Hq'). eexists. by split.
    + exfalso. destruct (Hno eq_refl) as [?|[?|(w & Hw & Hle')]]; [congruence|done|].
      assert (w = z) as -> by congruence. lia.
Qed.

(** C27: After saving the page map, any sequence of mapping requests, and
    restoring it, each saved physical page has its old entry and shows its old
    contents. *)
Theorem ems_save_restore_roundtrip h l s :
  Inv s -> phys_pages s <> 0 -> 0 <= h < 255 -> Forall (fun x => 0 <= x.2) l ->
  wp (emm_save_handle_state config h ;; map_requests l ;; emm_restore_handle_state config env h) s (fun _ s' =>
    Inv s' /\ forall i, 0 <= i < saved_pages ->
      (exists r q, aget (emm_map s) i = Some r /\ aget (emm_map s') i = Some q /\ handle q = handle r /\
         (handle r <> NULL_HANDLE -> logical_page q = logical_page r)) /\
      (forall k, 0 <= k < EMM_PAGE_SIZE -> window_byte config env s' i k = window_byte config env s i k)).
Proof.
  intros Hs Hp Hh Hl. assert (phys_pages s = total_phys) as Hp' by (destruct (t_phys config s (proj1 Hs)); done).
  pose proof (saved_range config Hcfg) as Hsv.
  assert (saved_pages <= total_phys) as Hle.
  { pose proof (c_cnv config Hcfg). unfold saved_phys_pages, EmmInv.total_phys in *. lia. }
  wp_step. eapply wp_mono; [by apply wp_save|]. intros [] s1 H1. wp_step.
  eapply wp_mono; [apply wp_requests; [apply (v_inv _ _ _ _ H1)|done]|]. intros [] s2 H2.
  eapply wp_mono; [by apply (wp_restore h s s1 s2)|]. intros [] s3 [H3 Hr]. pose proof (z_inv _ _ H3) as Hi3.
  split; [done|]. intros i Hi. destruct (map_at_some config s i (proj1 Hs) ltac:(lia)) as [r Hr0].
  destruct (Hr i r Hi Hr0) as (q & Hq & Eh & El). split; [by exists r, q|]. intros k Hk.
  rewrite (window_reads config env Hcfg s i r), (window_reads config env Hcfg s3 i q); try done; try lia.
  2: { rewrite (z_phys _ _ H3), (v_phys _ _ _ _ H1). lia. }
  rewrite (z_host _ _ H3), (v_mem _ _ _ _ H1). f_equal. f_equal. unfold target. rewrite Eh, (z_info _ _ H3).
  destruct (t_rec config s (proj1 Hs) i r Hr0) as [E|(x & Hx & Hlog)].
  - rewrite E, (info_null config s1 (proj1 (v_inv _ _ _ _ H1))), (info_null config s (proj1 Hs)).
    rewrite (phys_addr config q i), (phys_addr config r i); try done.
    + apply (t_seg config s (proj1 Hs) i r Hr0). lia.
    + apply (t_seg config s3 (proj1 Hi3) i q Hq). lia.
  - destruct (v_handles _ _ _ _ H1 _ x Hx) as (y & Hy & _ & _ & Ho). rewrite Hx, Hy, Ho, El; [done|].
    intros E. by rewrite E, (info_null config s (proj1 Hs)) in Hx.
Qed.

End context.
