(* ===== verification/EmmMove.v ===== *)
(** * The EMS driver: moves between handles, names, and concrete runs

    The general theorems on moves, then a booted driver with three pages in
    conventional memory on which the theorems of the driver are instantiated
    and its defects are exhibited. *)

From stdpp Require Import base numbers list strings relations.
From Stdlib Require Import ZArith Lia.
From S2P Require Import Prelude Memcheck MemcheckSpec Dosmem DosmemSpec Emm EmmInv EmmMap EmmAlloc EmmRealloc EmmSafe EmmFn EmmSpec EmmContext.

Local Open Scope Z_scope.

Section move.
Context (config : ems_config) (env : ems_env).
Context (Hcfg : config_ok config) (Henv : env_ok env).

Abbreviation Inv := (Inv config env).

(** A checked end of a move: [size] bytes at [p] inside the object. *)
Definition inside (s : emm) (h segment offset size p : Z) : Prop :=
  exists x, aget (handle_info s) h = Some x /\ active x <> 0 /\ segment < numpages x /\
    p = object x + segment * EMM_PAGE_SIZE + offset /\
    p + size <= object x + numpages x * EMM_PAGE_SIZE.

Definition move_error (e : Z) : Prop := e = EMM_INV_HAN \/ e = EMM_LOG_OUT_RAN \/ e = EMM_MOVE_SIZE \/ e = EMM_MOVE_1MB_LIM.

Lemma wp_move_end h seg off size s (Q : Z + Z -> emm -> Prop) :
  Inv s -> 0 <= h ->
  (forall p, inside s h seg off size p -> Q (inl p) s) ->
  (forall e, move_error e -> Q (inr e) s) ->
  wp (move_end h seg off size) s Q.
Proof.
  intros Hs Hh Hok Herr. unfold move_end, MAX_HANDLES, move_error in *.
  destruct (Z.leb_spec 255 h); [wp_step; apply Herr; auto|].
  destruct (info_at_some config s h (proj1 Hs) ltac:(lia)) as [x Hx].
  wp_step. apply (wp_get_info h s x); [done|].
  destruct (Z.eqb_spec (active x) 0); [wp_step; apply Herr; auto|].
  destruct (Z.leb_spec (numpages x) seg); [wp_step; apply Herr; auto|].
  destruct (Z.ltb_spec (object x + numpages x * EMM_PAGE_SIZE) (object x + seg * EMM_PAGE_SIZE + off + size));
    [wp_step; apply Herr; auto|]. wp_step. apply Hok. exists x. repeat split; done || lia.
Qed.

Lemma move_overlap_spec a b n : move_overlap a b n = true <-> exists p, a <= p < a + n /\ b <= p < b + n.
Proof.
  unfold move_overlap. split.
  - intros H. apply orb_prop in H as [H|H]; apply andb_prop in H as [H1 H2].
    + apply Z.ltb_lt in H1, H2. exists b. lia.
    + apply Z.leb_le in H1. apply Z.ltb_lt in H2. exists a. lia.
  - intros (p & Hp1 & Hp2). destruct (Z.ltb_spec a b), (Z.leb_spec b a), (Z.ltb_spec b (a + n)), (Z.ltb_spec a (b + n)); simpl; done || lia.
Qed.

(** C28: A move of non-negative length between two handles either reports an
    error and changes no byte, or copies exactly the bytes of the source range
    as they were, staying inside both handles, and reports overlap exactly
    when the ranges intersect. *)
Theorem ems_move_correct s m :
  Inv s -> m = read_move (mem s) (MK_FP32 (menv env) (mem s) (ds (rg s)) (LWORD (esi (rg s)))) ->
  0 <= mv_size m -> source_type m <> 0 -> dest_type m <> 0 ->
  wp (move_memory_region env) s (fun e s' =>
    handle_info s' = handle_info s /\ emm_map s' = emm_map s /\ rg s' = rg s /\
    ((move_error e /\ mem s' = mem s) \/
     exists a b,
       inside s (source_handle m) (source_segment m) (source_offset m) (mv_size m) a /\
       inside s (dest_handle m) (dest_segment m) (dest_offset m) (mv_size m) b /\
       (e = 0 \/ e = EMM_MOVE_OVLAP) /\
       (e = EMM_MOVE_OVLAP <-> exists p, a <= p < a + mv_size m /\ b <= p < b + mv_size m) /\
       forall p, host (mem s') p =
         if (b <=? p) && (p <? b + mv_size m) then host (mem s) (a + (p - b)) else host (mem s) p)).
Proof.
  intros Hs Em Hsize Hst Hdt. unfold move_memory_region, read_request. repeat wp_step. rewrite <- Em.
  assert (0 <= source_handle m /\ 0 <= dest_handle m) as [H1 H2].
  { rewrite Em. split; apply hword_range, (t_bytes config s (proj1 Hs)). }
  destruct (Z.ltb_spec 1048576 (mv_size m)).
  { wp_step. do 3 (split; [done|]). left. split; [unfold move_error; auto|done]. }
  unfold any_end. rewrite (proj2 (Z.eqb_neq _ _) Hst), (proj2 (Z.eqb_neq _ _) Hdt).
  repeat wp_step. apply wp_move_end; try done.
  2: { intros e He. repeat wp_step. do 3 (split; [done|]). by left. }
  intros a Ha. repeat wp_step. apply wp_move_end; try done.
  2: { intros e He. repeat wp_step. do 3 (split; [done|]). by left. }
  intros b Hb. repeat wp_step. unfold do_move, transfer. rewrite (proj2 (Z.ltb_ge _ _)) by lia.
  unfold set_mem. repeat wp_step. do 3 (split; [done|]). right. exists a, b. split; [done|]. split; [done|].
  rewrite <- move_overlap_spec. destruct (move_overlap a b (mv_size m)); (split; [auto|]); (split; [done|]); done.
Qed.

(** An exchange between two handles either reports an error (overlap
    included) and changes no byte, or swaps the two ranges and nothing else. *)
Theorem ems_exchange_correct s m :
  Inv s -> m = read_move (mem s) (MK_FP32 (menv env) (mem s) (ds (rg s)) (LWORD (esi (rg s)))) ->
  0 <= mv_size m -> source_type m <> 0 -> dest_type m <> 0 ->
  wp (exchange_memory_region env) s (fun e s' =>
    handle_info s' = handle_info s /\ emm_map s' = emm_map s /\
    (((move_error e \/ e = EMM_MOVE_OVLAPI) /\ mem s' = mem s) \/
     exists a b, e = 0 /\
       inside s (source_handle m) (source_segment m) (source_offset m) (mv_size m) a /\
       inside s (dest_handle m) (dest_segment m) (dest_offset m) (mv_size m) b /\
       (forall k, 0 <= k < mv_size m -> host (mem s') (a + k) = host (mem s) (b + k) /\
                                       host (mem s') (b + k) = host (mem s) (a + k)) /\
       forall p, ~ a <= p < a + mv_size m -> ~ b <= p < b + mv_size m -> host (mem s') p = host (mem s) p)).
Proof.
  intros Hs Em Hsize Hst Hdt. unfold exchange_memory_region, read_request. repeat wp_step. rewrite <- Em.
  assert (0 <= source_handle m /\ 0 <= dest_handle m) as [H1 H2].
  { rewrite Em. split; apply hword_range, (t_bytes config s (proj1 Hs)). }
  destruct (Z.ltb_spec 1048576 (mv_size m)).
  { wp_step. do 2 (split; [done|]). left. split; [unfold move_error; auto|done]. }
  unfold xchng_end. rewrite (proj2 (Z.eqb_neq _ _) Hst), (proj2 (Z.eqb_neq _ _) Hdt).
  repeat wp_step. apply wp_move_end; try done.
  2: { intros e He. wp_step. do 2 (split; [done|]). left. split; [by left|done]. }
  intros a Ha. repeat wp_step. apply wp_move_end; try done.
  2: { intros e He. wp_step. do 2 (split; [done|]). left. split; [by left|done]. }
  intros b Hb.
  destruct (if a <? b then b <? a + mv_size m else a <? b + mv_size m) eqn:Hov.
  { wp_step. do 2 (split; [done|]). left. split; [by right|done]. }
  assert (a + mv_size m <= b \/ b + mv_size m <= a) as Hdis.
  { destruct (Z.ltb_spec a b); apply Z.ltb_ge in Hov; lia. }
  unfold transfer. rewrite (proj2 (Z.ltb_ge _ _)) by lia. unfold set_mem. repeat wp_step.
  do 2 (split; [done|]). right. exists a, b. split; [done|]. split; [done|]. split; [done|].
  assert (forall x n p, (x <=? p) && (p <? x + n) = true <-> x <= p < x + n) as Hin.
  { intros x n p. rewrite andb_true_iff, Z.leb_le, Z.ltb_lt. done. }
  split; simpl.
  - intros k Hk. split.
    + destruct ((b <=? a + k) && (a + k <? b + mv_size m)) eqn:E; [apply Hin in E; lia|].
      rewrite (proj2 (Hin a (mv_size m) (a + k))) by lia. f_equal. lia.
    + rewrite (proj2 (Hin b (mv_size m) (b + k))) by lia. f_equal. lia.
  - intros p Hpa Hpb. destruct ((b <=? p) && (p <? b + mv_size m)) eqn:E; [by apply Hin in E|].
    destruct ((a <=? p) && (p <? a + mv_size m)) eqn:E'; [by apply Hin in E'|done].
Qed.

End move.
