(* ===== verification/EmmExample.v ===== *)
(** * The EMS driver on a concrete machine

    A booted driver with a page frame of four pages at E000h and three pages
    in conventional memory: the instances of the general theorems, and runs
    that show where the code departs from its intention. *)

From stdpp Require Import base numbers list strings relations.
From Stdlib Require Import ZArith Lia.
From S2P Require Import Prelude Memcheck MemcheckSpec Dosmem DosmemSpec Emm EmmInv EmmMap EmmAlloc EmmRealloc EmmSafe EmmFn EmmSpec EmmContext EmmMove.

Local Open Scope Z_scope.

(** ** The machine *)

Definition ex_config : ems_config := MkEmsConfig 256 57344 4 3 false 62464 16.

Definition ex_mem_env : mem_env :=
  MkMemEnv 4096 (fun a => 4096 + a) (fun _ => false) (fun _ => false)
    (fun _ _ _ d => d) (fun _ _ _ d => d) (fun _ _ _ d => d) (fun _ _ _ d => d) (fun _ _ _ d => d).

(** Every object gets 16M of host memory of its own. *)
Definition ex_place (log : list ecall) : Z := 16777216 * (1 + Z.of_nat (length log)).

Definition ex_env : ems_env :=
  MkEmsEnv ex_mem_env (fun log _ => Some (ex_place log)) (fun log _ _ _ => Some (ex_place log))
    (fun p osize q size d => hmove q p (Z.min osize size) d) (fun _ _ _ => true) (fun _ => []).

Definition ex_mem : dosmem := MkDosmem (fun p => p mod 256) (fun pg => 4096 + pg * 4096).

Definition ex_regs (a b c d : Z) : vm86_regs := MkVm86 a b c d 0 0 65534 0 0 8192 4096 0 false.

Lemma ex_ems_config_ok : config_ok ex_config.
Proof. by split. Qed.

Lemma ex_env_ok : env_ok ex_env.
Proof.
  split; try done. intros p osize q size. apply transfers_hmove.
Qed.

Lemma ex_place_pos log : ex_place log <> 0.
Proof. unfold ex_place. lia. Qed.

Lemma ex_no_failure : no_failure ex_env.
Proof. split; intros; eexists; (split; [done|]); apply ex_place_pos. Qed.

Lemma ex_bytes : bytes_ok ex_mem.
Proof. intros p. apply Z.mod_pos_bound. lia. Qed.

Lemma ex_identity : identity ex_config ex_env ex_mem.
Proof.
  intros i Hi j Hj. destruct (seg_of_align ex_config ex_ems_config_ok i Hi) as [Ha _]. simpl.
  unfold LOWMEM, PAGE_SIZE. simpl. pose proof (Z.div_mod (seg_of ex_config i) 1024 ltac:(lia)) as E.
  rewrite Ha in E. set (q := seg_of ex_config i / 1024) in *. rewrite E.
  replace (16 * (1024 * q + 0)) with ((4 * q) * 4096) by lia. rewrite Z.div_mul by lia. lia.
Qed.

Lemma ex_mc_ok : mc_ok blank_memcheck.
Proof. by split. Qed.

Definition ex_blank : emm := blank_emm (ex_regs 0 0 0 0) ex_mem blank_memcheck.

(** The state after the helper call of ems.sys (AH = 9, BX = 0). *)
Definition ex_state : emm := final ex_blank (boot ex_config ex_env (ex_regs 2304 0 0 0)) ex_blank.

Lemma ex_booted : boot ex_config ex_env (ex_regs 2304 0 0 0) ex_blank = Ok (tt, ex_state).
Proof.
  exact (proj1 (final_ok ex_blank _ _ _ (wp_boot ex_config ex_env ex_ems_config_ok ex_env_ok (ex_regs 0 0 0 0)
    (ex_regs 2304 0 0 0) ex_mem blank_memcheck ex_bytes ex_identity ex_mc_ok))).
Qed.

(** Only [vm_compute] runs the driver. *)
#[local] Opaque ex_state.

Lemma ex_reachable : ems_reachable ex_config ex_env ex_state.
Proof. exact (booted_reachable _ _ _ _ _ _ _ ex_bytes ex_identity ex_mc_ok ex_booted). Qed.

Lemma ex_inv : Inv ex_config ex_env ex_state.
Proof. exact (reachable_inv ex_config ex_env ex_ems_config_ok ex_env_ok ex_state ex_reachable). Qed.

(** An INT 67h call: AX, BX, CX, DX in, AX, BX, DX out. *)
Definition call (a b c d : Z) : M emm (Z * Z * Z) :=
  set_regs (fun r => r <| eax := a |> <| ebx := b |> <| ecx := c |> <| edx := d |>) ;;
  ems_fn ex_config ex_env ;;
  gets (fun s => (eax (rg s), ebx (rg s), edx (rg s))).

(** Seven physical pages, sixteen pages of expanded memory and three of
    conventional memory. *)
Example ex_counts : outcome (fun a _ => a) (call 16896 0 0 0) ex_state = Some (0 + 16896 mod 256, 16, 19).
Proof. vm_compute. reflexivity. Qed.

(** Allocate two pages, map page 1 at E000h, write through the window, map
    page 1 at E400h as well, read the byte there. *)
Example ex_window :
  outcome (fun a s => (a, READ_BYTE ex_mem_env (mem s) (16 * 58368 + 5)))
    (call 17152 2 0 0 ;; call 17408 1 0 1 ;;
     set_mem (WRITE_BYTE ex_mem_env (16 * 57344 + 5) 77) ;; call 17409 1 0 1) ex_state
  = Some ((1, 1, 1), 77).
Proof. vm_compute. reflexivity. Qed.

(** ** Instances of the theorems *)

Lemma ex_phys : phys_pages ex_state = 7.
Proof. apply (outcome_eq (fun _ s => phys_pages s) _ _ _ _ _ ex_booted). vm_compute. reflexivity. Qed.

Lemma ex_entry : aget (emm_map ex_state) 4 = Some (MkEmmRecord 0 0 37888).
Proof. apply (outcome_eq (fun _ s => aget (emm_map s) 4) _ _ _ _ _ ex_booted). vm_compute. reflexivity. Qed.

Lemma ems_requests_safe_witness :
  exists v s', ems_fn ex_config ex_env (ex_state <| rg := ex_regs 17152 2 0 0 |>) = Ok (v, s') /\
    ems_reachable ex_config ex_env s'.
Proof.
  destruct (ems_requests_safe ex_config ex_env ex_ems_config_ok ex_env_ok ex_state ex_reachable) as (_ & H & _).
  apply H. intros [E _]. vm_compute in E. discriminate E.
Defined.

Lemma ems_window_shows_page_witness :
  (0 = NULL_HANDLE /\ window_byte ex_config ex_env ex_state 4 9 = host (mem ex_state) (LOWMEM ex_mem_env (16 * seg_of ex_config 4 + 9))) \/
  (exists x, aget (handle_info ex_state) 0 = Some x /\ active x <> 0 /\ 0 <= 0 < numpages x /\
     window_byte ex_config ex_env ex_state 4 9 = host (mem ex_state) (object x + 0 * EMM_PAGE_SIZE + 9)).
Proof.
  apply (ems_window_shows_page ex_config ex_env ex_ems_config_ok ex_env_ok ex_state 4 (MkEmmRecord 0 0 37888) 9);
    [exact ex_reachable|rewrite ex_phys; lia|exact ex_entry|unfold EMM_PAGE_SIZE; lia].
Defined.

Lemma ems_accounting_witness :
  handle_total ex_state = zsum is_active (handle_info ex_state) /\
  emm_allocated ex_state = zsum numpages (handle_info ex_state) /\ emm_allocated ex_state <= EMM_TOTAL ex_config.
Proof. exact (ems_accounting ex_config ex_env ex_ems_config_ok ex_env_ok ex_state ex_reachable ex_no_failure). Defined.

(** Page 1 of the system handle at E000h. *)
Lemma ems_map_unmap_correct_witness :
  exists s' x, do_map_unmap ex_env 0 0 1 ex_state = Ok (EMM_NO_ERR, s') /\
    aget (handle_info ex_state) 0 = Some x /\
    window_byte ex_config ex_env s' 0 7 = host (mem ex_state) (object x + 1 * EMM_PAGE_SIZE + 7).
Proof.
  destruct (wp_inv _ _ _ (ems_map_unmap_correct ex_config ex_env ex_ems_config_ok ex_env_ok 0 0 1 ex_state ex_inv ltac:(lia)))
    as (e & s' & E & H).
  assert (e = EMM_NO_ERR) as ->.
  { apply (outcome_eq (fun e _ => e) _ _ _ _ _ E). vm_compute. reflexivity. }
  destruct H as [(_ & _ & _ & _ & _ & x & Hx & _ & _ & Hb) | [(_ & _ & Hn & _) | (_ & H)]].
  - exists s', x. split; [exact E|]. split; [exact Hx|]. apply Hb. unfold EMM_PAGE_SIZE. lia.
  - discriminate Hn.
  - destruct H as [[He _]|[[He _]|[He _]]]; discriminate He.
Defined.

Lemma ems_allocate_correct_witness :
  exists h s', emm_allocate_handle ex_config ex_env 2 ex_state = Ok (h, s') /\ h = 1 /\
    exists y, aget (handle_info s') h = Some y /\ active y = 1 /\ numpages y = 2.
Proof.
  destruct (wp_inv _ _ _ (ems_allocate_correct ex_config ex_env ex_ems_config_ok 2 ex_state ex_inv ltac:(lia) ex_no_failure))
    as (h & s' & E & _ & _ & H & _).
  assert (h = 1) as ->.
  { apply (outcome_eq (fun h _ => h) _ _ _ _ _ E). vm_compute. reflexivity. }
  exists 1, s'. split; [exact E|]. split; [reflexivity|].
  destruct H as (_ & _ & _ & _ & _ & (x & y & _ & _ & Hy & Ha & Hn & _) & _); [intros He; discriminate He|].
  exists y. split; [exact Hy|]. split; [exact Ha|exact Hn].
Defined.

(** The machine with a handle of two pages. *)
Definition ex_state2 : emm := final ex_blank (emm_allocate_handle ex_config ex_env 2 ;; ret tt) ex_state.

Lemma ex_allocated : (emm_allocate_handle ex_config ex_env 2 ;; ret tt) ex_state = Ok (tt, ex_state2) /\ Inv ex_config ex_env ex_state2.
Proof.
  refine (final_ok ex_blank _ ex_state (fun _ s => Inv ex_config ex_env s) _).
  wp_step. eapply wp_mono; [apply (safe_allocate ex_config ex_env ex_ems_config_ok 2 ltac:(lia) ex_state ex_inv)|].
  intros h s' H. wp_step. exact H.
Qed.

#[local] Opaque ex_state2.

Definition ex_handle : handle_record :=
  MkHandleRecord 1 2 16777216 CLEAR_HANDLE_NAME (replicate 4 0) (replicate 4 65535) 0.

Lemma ex_handle_at : aget (handle_info ex_state2) 1 = Some ex_handle.
Proof. apply (outcome_eq (fun _ s => aget (handle_info s) 1) _ _ _ _ _ (proj1 ex_allocated)). vm_compute. reflexivity. Qed.

Lemma ems_deallocate_correct_witness :
  wp (emm_deallocate_handle ex_env 1) ex_state2 (fun _ s' =>
    emm_allocated s' = emm_allocated ex_state2 - 2 /\
    forall i r, aget (emm_map s') i = Some r -> handle r <> 1).
Proof.
  eapply wp_mono.
  - apply (ems_deallocate_correct ex_config ex_env ex_ems_config_ok ex_env_ok 1 ex_handle ex_state2 (proj2 ex_allocated));
      [lia|exact ex_handle_at|discriminate].
  - intros [] s' (_ & _ & _ & Ha & _ & _ & Hm & _). split; [exact Ha|exact Hm].
Defined.

Lemma ems_reallocate_correct_witness :
  wp (reallocate_pages ex_config ex_env) (ex_state2 <| rg := ex_regs 20736 5 0 1 |>) (fun _ s' =>
    exists y, aget (handle_info s') 1 = Some y /\ (numpages y = 5 \/ (y = ex_handle /\ ~ no_failure ex_env))).
Proof.
  eapply wp_mono.
  - apply (ems_reallocate_correct ex_config ex_env ex_ems_config_ok ex_env_ok (ex_state2 <| rg := ex_regs 20736 5 0 1 |>) 1 5 ex_handle);
      [exact (inv_regs ex_config ex_env ex_state2 _ (proj2 ex_allocated))|reflexivity|reflexivity|lia|exact ex_handle_at
      |discriminate|discriminate|].
    assert (emm_allocated ex_state2 = 5) as E.
    { apply (outcome_eq (fun _ s => emm_allocated s) _ _ _ _ _ (proj1 ex_allocated)). vm_compute. reflexivity. }
    simpl. rewrite E. discriminate.
  - intros [] s' (_ & y & Hy & _ & Hn & _). exists y. split; [exact Hy|exact Hn].
Defined.

Lemma ems_save_restore_roundtrip_witness :
  wp (emm_save_handle_state ex_config 0 ;; map_requests ex_env [(0, 1, 2); (0, 0, 0)] ;; emm_restore_handle_state ex_config ex_env 0)
    ex_state (fun _ s' => window_byte ex_config ex_env s' 1 100 = window_byte ex_config ex_env ex_state 1 100).
Proof.
  eapply wp_mono.
  - apply (ems_save_restore_roundtrip ex_config ex_env ex_ems_config_ok ex_env_ok 0 [(0, 1, 2); (0, 0, 0)] ex_state ex_inv);
      [rewrite ex_phys; discriminate|lia|].
    apply Forall_cons_2; [simpl; lia|]. apply Forall_cons_2; [simpl; lia|]. apply Forall_nil_2.
  - intros [] s' [_ H]. destruct (H 1) as [_ Hw]; [vm_compute; split; [discriminate|reflexivity]|].
    apply Hw. unfold EMM_PAGE_SIZE. lia.
Defined.

(** Move 16 bytes from page 0 to offset 8 of page 1 of handle 1; the request
    is at 0000:0000. *)
Definition ex_request : list Z := [16; 0; 0; 0; 1; 1; 0; 0; 0; 0; 0; 1; 1; 0; 8; 0; 1; 0].
Definition ex_state3 : emm := ex_state2 <| rg := ex_regs 22272 0 0 0 |> <| mem ::= hwrite_bytes 4096 ex_request |>.

Lemma ex_inv3 : Inv ex_config ex_env ex_state3.
Proof.
  refine (same_inv ex_config ex_env (ex_state2 <| rg := ex_regs 22272 0 0 0 |>) ex_state3 _ _).
  - apply (same_mem _ (hwrite_bytes 4096 ex_request)), transfers_hwrite_bytes.
  - exact (inv_regs ex_config ex_env ex_state2 _ (proj2 ex_allocated)).
Qed.

Definition ex_move : mem_move_struct :=
  read_move (mem ex_state3) (MK_FP32 ex_mem_env (mem ex_state3) (ds (rg ex_state3)) (LWORD (esi (rg ex_state3)))).

Lemma ex_move_is : ex_move = MkMove 16 1 1 0 0 1 1 8 1.
Proof. vm_compute. reflexivity. Qed.

Lemma ems_move_correct_witness :
  wp (move_memory_region ex_env) ex_state3 (fun e s' => move_error e \/
    exists a b, inside ex_state3 1 0 0 16 a /\ inside ex_state3 1 1 8 16 b /\ (e = 0 \/ e = EMM_MOVE_OVLAP)).
Proof.
  eapply wp_mono.
  - apply (ems_move_correct ex_config ex_env ex_state3 ex_move ex_inv3); [reflexivity|rewrite ex_move_is; discriminate..].
  - rewrite ex_move_is. intros e s' (_ & _ & _ & [[H _]|(a & b & Ha & Hb & He & _)]); [left; exact H|right].
    exists a, b. split; [exact Ha|]. split; [exact Hb|exact He].
Defined.

Lemma ems_exchange_correct_witness :
  wp (exchange_memory_region ex_env) ex_state3 (fun e s' => (move_error e \/ e = EMM_MOVE_OVLAPI) \/
    exists a b, e = 0 /\ inside ex_state3 1 0 0 16 a /\ inside ex_state3 1 1 8 16 b).
Proof.
  eapply wp_mono.
  - apply (ems_exchange_correct ex_config ex_env ex_state3 ex_move ex_inv3); [reflexivity|rewrite ex_move_is; discriminate..].
  - rewrite ex_move_is. intros e s' (_ & _ & [[H _]|(a & b & He & Ha & Hb & _)]); [left; exact H|right].
    exists a, b. split; [exact He|]. split; [exact Ha|exact Hb].
Defined.

(** ** Where the code departs from its intention *)

Definition AH (x : Z * Z * Z) : Z := HI (x.1.1).

(** Releasing handle 1 clears the name of handle number [phys_pages]. *)
Example ems_deallocate_clears_other_name :
  outcome (fun _ s => (name <$> aget (handle_info s) 7, active <$> aget (handle_info s) 7))
    (call 17152 1 0 0 ;; call 17152 1 0 0 ;; call 17152 1 0 0 ;; call 17152 1 0 0 ;;
     call 17152 1 0 0 ;; call 17152 1 0 0 ;; call 17152 1 0 0 ;;
     call 21249 0 0 7 ;;                      (* set the name of handle 7 *)
     call 17664 0 0 1) ex_state               (* release handle 1 *)
  = Some (Some (replicate 9 0), Some 1).
Proof. vm_compute. reflexivity. Qed.

(** A page map that was saved while page 0 was unmapped is not set back: the
    request reports success and page 0 stays mapped. *)
Example ems_set_registers_keeps_mapping :
  outcome (fun a s => (AH a, handle <$> aget (emm_map s) 0))
    (call 17152 1 0 0 ;;
     call 19968 0 0 0 ;;                      (* get registers to 0000:0000 *)
     call 17408 0 0 1 ;;                      (* map page 0 of handle 1 at page 0 *)
     call 19969 0 0 0) ex_state               (* set registers from 0000:0000 *)
  = Some (0, Some 1).
Proof. vm_compute. reflexivity. Qed.

(** A move of length -1 passes the checks and reaches memmove. *)
Example ems_negative_move_faults :
  match (set_mem (hwrite_bytes 4096 [255; 255; 255; 255; 1; 1; 0; 0; 0; 0; 0; 1; 1; 0; 8; 0; 1; 0]) ;;
         call 22272 0 0 0) ex_state2 with
  | Ok _ => None
  | Fault e => Some e
  end = Some BadPointer.
Proof. vm_compute. reflexivity. Qed.

(** The reset does not unmap a page of the system handle: the table says that
    page 0 is unmapped while the window still shows conventional memory. *)
Example ems_reset_leaves_window :
  outcome (fun _ s => (handle <$> aget (emm_map s) 0, dosaddr_to_unixaddr ex_mem_env (mem s) (16 * 57344) - 4096))
    (call 17408 0 0 0 ;; call 23552 0 0 0) ex_state
  = Some (Some NULL_HANDLE, 16 * 37888).
Proof. vm_compute. reflexivity. Qed.

(** The driver is then started again: by the table nothing is mapped at page 0,
    and the window still shows conventional memory. *)
Example ems_restart_window_stale :
  outcome (fun _ s => (phys_pages s, handle <$> aget (emm_map s) 0, dosaddr_to_unixaddr ex_mem_env (mem s) (16 * 57344) - 4096))
    (call 17408 0 0 0 ;; call 23552 0 0 0 ;; set_regs (fun _ => ex_regs 2304 0 0 0) ;; ems_helper ex_config) ex_state
  = Some (7, Some NULL_HANDLE, 16 * 37888).
Proof. vm_compute. reflexivity. Qed.

(** When the host has no memory, a refused reallocation stays charged. *)
Definition poor_env : ems_env :=
  MkEmsEnv ex_mem_env (fun log _ => Some (ex_place log)) (fun _ _ _ _ => None)
    (fun p osize q size d => d) (fun _ _ _ => true) (fun _ => []).

Example ems_failed_reallocation_leaks :
  outcome (fun _ s => (HI (eax (rg s)), emm_allocated s, numpages <$> aget (handle_info s) 1))
    (set_regs (fun _ => ex_regs 20736 10 0 1) ;; ems_fn ex_config poor_env) ex_state2
  = Some (EMM_OUT_OF_LOG, 13, Some 2).
Proof. vm_compute. reflexivity. Qed.

(** An overlapping upward move in conventional memory that crosses a page
    copies bytes it has already overwritten. *)
Example ems_overlapping_move_corrupts :
  let d := MkDosmem (fun p => if p <? 8192 then 1 else 2) (fun pg => 4096 + pg * 4096) in
  (READ_BYTE ex_mem_env d 4098, READ_BYTE ex_mem_env (memmove_dos2dos ex_mem_env 4098 4092 10 d) 4104) = (2, 1).
Proof. vm_compute. reflexivity. Qed.
