(* ===== verification/Interfaces.v ===== *)
(** * Interfaces between components

    What a component promises to its clients, as type classes: the client's
    definitions use the operations and its theorems only the laws; the file of
    the implementation provides the instances. *)

From stdpp Require Import base numbers list.
From Stdlib Require Import ZArith Lia.
From S2P Require Import Prelude.

Local Open Scope Z_scope.

(** ** The page allocator, as XMS uses it (pgalloc.h) *)

Class PageAlloc (P : Type) := {
  pa_alloc : Z -> Z -> M P Z;           (* pgaalloc(pool, npages, id) *)
  pa_free : Z -> M P unit;              (* pgafree(pool, page) *)
  pa_largest : M P Z;                   (* pgaavail_largest(pool) *)
  pa_reset : M P unit;                  (* pgareset(pool) *)
}.

(** [pa_block p r n id]: pages [r .. r+n-1] are one block allocated for [id]. *)
Class PageAllocLaws (P : Type) `{PageAlloc P} := {
  pa_ok : P -> Prop;
  pa_pages : P -> Z;
  pa_block : P -> Z -> Z -> Z -> Prop;
  pa_pages_bound p : pa_ok p -> 0 <= pa_pages p < 2 ^ 31;
  pa_block_bound p r n id : pa_block p r n id -> 0 <= r /\ 0 < n /\ r + n <= pa_pages p;
  pa_block_disjoint p r n id r' n' id' :
    pa_block p r n id -> pa_block p r' n' id' ->
    (r = r' /\ n = n' /\ id = id') \/ r + n <= r' \/ r' + n' <= r;
  pa_alloc_law p n id : pa_ok p -> 1 <= n < 2 ^ 32 -> 0 <= id < 2 ^ 31 ->
    wp (pa_alloc n id) p (fun r p' => pa_ok p' /\ pa_pages p' = pa_pages p /\
      ((0 <= r /\ pa_block p' r n id /\
        forall r' n' id', pa_block p r' n' id' -> pa_block p' r' n' id' /\ r' <> r) \/
       (r < 0 /\ p' = p)));
  pa_free_law p r n id : pa_ok p -> pa_block p r n id ->
    wp (pa_free r) p (fun _ p' => pa_ok p' /\ pa_pages p' = pa_pages p /\
      forall r' n' id', r' <> r -> pa_block p r' n' id' -> pa_block p' r' n' id');
  pa_largest_law p : pa_ok p ->
    wp pa_largest p (fun m p' => p' = p /\ 0 <= m <= pa_pages p);
  pa_reset_law p : pa_ok p ->
    wp pa_reset p (fun _ p' => pa_ok p' /\ pa_pages p' = pa_pages p);
}.

(** ** Interrupt lines, as the devices use them (pic.h) *)

Class IrqSink (P : Type) := {
  irq_request : Z -> M P unit;          (* pic_request(irq) *)
  irq_untrigger : Z -> M P unit;        (* pic_untrigger(irq) *)
}.

(** [irq_asserted p i]: the input line [i] is high. *)
Class IrqSinkLaws (P : Type) `{IrqSink P} := {
  irq_ok : P -> Prop;
  irq_asserted : P -> Z -> bool;
  irq_request_law p i : irq_ok p -> 8 <= i < 16 ->
    wp (irq_request i) p (fun _ p' => irq_ok p' /\ irq_asserted p' i = true /\
      forall j, 8 <= j < 16 -> j <> i -> irq_asserted p' j = irq_asserted p j);
  irq_untrigger_law p i : irq_ok p -> 8 <= i < 16 ->
    wp (irq_untrigger i) p (fun _ p' => irq_ok p' /\ irq_asserted p' i = false /\
      forall j, 8 <= j < 16 -> j <> i -> irq_asserted p' j = irq_asserted p j);
}.
