(* ===== verification/Smalloc.v ===== *)
(** * The small memory allocator (src/src/base/lib/misc/smalloc.c)

    A pool is a singly linked list of [memnode]s that tile one address range.
    The list is a Rocq list whose head is the node embedded in the pool
    ([mp->mn]); a pointer to a node is the node's identity [nid], so that a
    pointer kept across a call stays meaningful when the list changes, and a
    dereference of a freed node is the fault [BadPointer].

    The [commit] callback of a pool is foreign code: it is the section
    parameter [commit_cb], which may answer differently on every call (it sees
    the trace of all earlier calls).  DOS memory is a total function. *)

From stdpp Require Import base numbers list gmap.
From Stdlib Require Import ZArith Lia.
From S2P Require Import Prelude.

Local Open Scope Z_scope.

(** ** Data *)

Record memnode := MkNode {
  nid : nat;            (* the address of the node itself *)
  m_size : Z;           (* size_t *)
  m_used : bool;
  mem_area : Z;         (* dosaddr_t *)
}.
#[export] Instance eta_memnode : Eta memnode :=
  fun n => MkNode n.(nid) n.(m_size) n.(m_used) n.(mem_area).

Record mempool := MkPool {
  mp_size : Z;
  mp_avail : Z;
  mp_flags : Z;
  mp_nodes : list memnode;    (* &mp->mn and its successors *)
  mp_commit : bool;           (* mp->commit != NULL *)
  mp_uncommit : bool;         (* mp->uncommit != NULL *)
  mp_fresh : nat;             (* identity the next malloc'ed node gets *)
}.
#[export] Instance eta_mempool : Eta mempool :=
  fun p => MkPool p.(mp_size) p.(mp_avail) p.(mp_flags) p.(mp_nodes)
             p.(mp_commit) p.(mp_uncommit) p.(mp_fresh).

(** Calls that leave the allocator, oldest last. *)
Inductive call :=
| CallCommit (area size : Z) (ok : bool)
| CallUncommit (area size : Z)
| CallSmerr                    (* smerror(mp, ...) *)
| CallDump.                    (* do_smerror(pr, mp, ...) *)

Record smstate := MkSm {
  sm_pool : mempool;
  sm_mem : Z -> Z;              (* DOS memory, one byte per address *)
  sm_calls : list call;
}.
#[export] Instance eta_smstate : Eta smstate :=
  fun s => MkSm s.(sm_pool) s.(sm_mem) s.(sm_calls).

Definition SMFLG_NOMEMSET : Z := 1.
Definition SM_PAGE_SIZE : Z := 4096.

(** [(dosaddr_t)-1], the failure value of the allocation entry points. *)
Definition SM_FAILED : Z := 2 ^ 32 - 1.

(** [PAGE_ALIGN] and [& _PAGE_MASK]: the mask is the sign-extended [int]
    [~4095], so both act on the operand's own width. *)
Definition page_mask (x : Z) : Z := Z.land x (Z.lnot (SM_PAGE_SIZE - 1)).
Definition page_align (x : Z) : Z := page_mask (x + SM_PAGE_SIZE - 1).

(** ** Pointers into the node list *)

Fixpoint split_at (p : nat) (l : list memnode)
  : option (list memnode * memnode * list memnode) :=
  match l with
  | [] => None
  | n :: l' =>
      if decide (nid n = p) then Some ([], n, l')
      else match split_at p l' with
           | Some (l1, m, l2) => Some (n :: l1, m, l2)
           | None => None
           end
  end.

Definition set_nodes (l : list memnode) (s : smstate) : smstate :=
  s <| sm_pool ::= fun p => p <| mp_nodes := l |> |>.

Definition nodes_of (s : smstate) : list memnode := mp_nodes (sm_pool s).

(** [*p] for a node pointer. *)
Definition deref (p : nat) : M smstate memnode := fun s =>
  match split_at p (nodes_of s) with
  | Some (_, n, _) => Ok (n, s)
  | None => Fault BadPointer
  end.

(** [p->next], dereferenced when it is not NULL. *)
Definition next_of (p : nat) : M smstate (option memnode) := fun s =>
  match split_at p (nodes_of s) with
  | Some (_, _, l2) => Ok (head l2, s)
  | None => Fault BadPointer
  end.

(** [p->used = b]. *)
Definition set_used (p : nat) (b : bool) : M smstate unit := fun s =>
  match split_at p (nodes_of s) with
  | Some (l1, n, l2) => Ok (tt, set_nodes (l1 ++ n <| m_used := b |> :: l2) s)
  | None => Fault BadPointer
  end.

Definition log_call (c : call) : M smstate unit :=
  modify (fun s => s <| sm_calls ::= cons c |>).

(** ** Queries that do not change the pool *)

Definition POOL_USED (p : mempool) : bool :=
  match mp_nodes p with
  | [] => false
  | n :: l => m_used n || bool_decide (l <> [])
  end.

Fixpoint largest_free (size : Z) (l : list memnode) : Z :=
  match l with
  | [] => size
  | n :: l' => largest_free (if negb (m_used n) && (size <? m_size n) then m_size n else size) l'
  end.

Definition smget_largest_free_area (p : mempool) : Z := largest_free 0 (mp_nodes p).

Definition get_oom_pr (p : mempool) (size : Z) : Z :=
  if size <=? smget_largest_free_area p then -1
  else if mp_size p <? size then 2
  else if mp_avail p <? size then 1
  else 0.

Definition oom_pr (p : mempool) (size : Z) : Z :=
  let pr := get_oom_pr p size in if pr <? 0 then 0 else pr.

Definition smget_free_space (p : mempool) : Z := mp_avail p.

(** The counter is an [int]; the result is converted back to [size_t]. *)
Fixpoint free_upto (cnt top : Z) (l : list memnode) : Z :=
  match l with
  | [] => cnt
  | n :: l' =>
      if top <? u64 (mem_area n + m_size n) then
        if negb (m_used n) && (mem_area n <? top)
        then i32 (cnt + u32 (top - mem_area n)) else cnt
      else free_upto (if negb (m_used n) then i32 (cnt + m_size n) else cnt) top l'
  end.

Definition smget_free_space_upto (p : mempool) (top : Z) : Z :=
  u64 (free_upto 0 top (mp_nodes p)).

Definition smget_base_addr (p : mempool) : Z :=
  match mp_nodes p with [] => 0 | n :: _ => mem_area n end.

(** The loop of [find_mn]: the node at [ptr] and its predecessor. *)
Fixpoint find_loop (pmn : option memnode) (ptr : Z) (l : list memnode)
  : option (option memnode * memnode) :=
  match l with
  | [] => None
  | mn :: l' =>
      if ptr <? mem_area mn then None
      else if mem_area mn =? ptr then Some (pmn, mn)
      else find_loop (Some mn) ptr l'
  end.

Definition smerror : M smstate unit := log_call CallSmerr.

Definition do_smerror (prio : Z) : M smstate unit :=
  assert (negb (prio =? -1)) ;; log_call CallDump.

Definition find_mn (ptr : Z) : M smstate (option (option memnode * memnode)) :=
  let! mp := gets sm_pool in
  if negb (POOL_USED mp) then smerror ;; ret None
  else ret (find_loop None ptr (mp_nodes mp)).

Fixpoint find_mn_at (ptr : Z) (l : list memnode) : option memnode :=
  match l with
  | [] => None
  | mn :: l' =>
      if ptr <? mem_area mn then None
      else if ptr <? u64 (mem_area mn + m_size mn) then Some mn
      else find_mn_at ptr l'
  end.

Definition smget_area_size (ptr : Z) : M smstate Z :=
  let! r := find_mn ptr in
  match r with
  | None => smerror ;; ret (-1)
  | Some (_, mn) => ret (i32 (m_size mn))
  end.

(** [align] is a mask (alignment minus one). *)
Definition align_delta (addr align : Z) : Z :=
  Z.land (u64 (Z.lor addr align - addr + 1)) align.

Fixpoint smfind_free_area (align size : Z) (l : list memnode) : option memnode :=
  match l with
  | [] => None
  | mn :: l' =>
      if negb (m_used mn) && (u64 (size + align_delta (mem_area mn) align) <=? m_size mn)
      then Some mn else smfind_free_area align size l'
  end.

(** The upper end of the block carved out of [mn] below the ceiling [top]. *)
Definition topdown_min_top (top : Z) (mn : memnode) : Z :=
  let min_top := u32 (mem_area mn + m_size mn) in
  if top =? SM_FAILED then min_top else Z.min min_top top.

Fixpoint smfind_free_area_topdown (mn1 : option memnode) (top align size : Z)
    (l : list memnode) : option memnode :=
  match l with
  | [] => mn1
  | mn :: l' =>
      if negb (top =? SM_FAILED) && (top <? u64 (mem_area mn + size)) then mn1
      else if m_used mn || (m_size mn <? size)
      then smfind_free_area_topdown mn1 top align size l'
      else
        let min_top := topdown_min_top top mn in
        if min_top <? size then smfind_free_area_topdown mn1 top align size l'
        else if mem_area mn <=? Z.land (u64 (min_top - size)) (not64 align)
        then smfind_free_area_topdown (Some mn) top align size l'
        else smfind_free_area_topdown mn1 top align size l'
  end.

(** ** Operations *)

(** The body of [mntruncate] on the node [pmn] and its successors [rest];
    [fresh] is the identity of the node that may be malloc'ed. *)
Definition truncate_step (fresh : nat) (pmn : memnode) (rest : list memnode) (size : Z)
  : result (memnode * list memnode) :=
  let delta := i32 (u64 (m_size pmn - size)) in
  if delta =? 0 then Ok (pmn, rest)
  else
    let split :=
      if size <? m_size pmn then
        let new_mn := MkNode fresh (u64 delta) false (u32 (mem_area pmn + size)) in
        Ok (pmn <| m_size := size |>, new_mn :: rest)
      else Fault AssertFailed in
    match rest with
    | nmn :: rest' =>
        if m_used nmn then split
        else if (0 <? size) && (0 <=? u64 (m_size nmn + delta)) then
          let nmn := nmn <| m_size ::= fun x => u64 (x + delta) |>
                         <| mem_area ::= fun x => u32 (x - delta) |> in
          let pmn := pmn <| m_size ::= fun x => u64 (x - delta) |> in
          if m_size nmn =? 0 then
            match rest' with
            | n :: _ => if m_used n then Ok (pmn, rest') else Fault AssertFailed
            | [] => Ok (pmn, rest')
            end
          else Ok (pmn, nmn :: rest')
        else Fault AssertFailed
    | [] => split
    end.

Definition mntruncate (pmn : nat) (size : Z) : M smstate unit := fun s =>
  match split_at pmn (nodes_of s) with
  | None => Fault BadPointer
  | Some (l1, n, l2) =>
      match truncate_step (mp_fresh (sm_pool s)) n l2 size with
      | Fault e => Fault e
      | Ok (n', l2') =>
          Ok (tt, s <| sm_pool ::= fun p =>
                    p <| mp_nodes := l1 ++ n' :: l2' |> <| mp_fresh ::= S |> |>)
      end
  end.

Definition mem_set (m : Z -> Z) (dst val n : Z) : Z -> Z :=
  fun a => if (dst <=? a) && (a <? dst + n) then val else m a.

Definition mem_move (m : Z -> Z) (dst src n : Z) : Z -> Z :=
  fun a => if (dst <=? a) && (a <? dst + n) then m (src + (a - dst)) else m a.

Definition MEMSET_DOS (dst val n : Z) : M smstate unit :=
  modify (fun s => s <| sm_mem ::= fun m => mem_set m dst val n |>).

Definition MEMMOVE_DOS2DOS (dst src n : Z) : M smstate unit :=
  modify (fun s => s <| sm_mem ::= fun m => mem_move m dst src n |>).

(** [mp->avail = f(mp->avail)], a [size_t]. *)
Definition upd_avail (f : Z -> Z) : M smstate unit :=
  modify (fun s => s <| sm_pool ::= fun p => p <| mp_avail ::= fun x => u64 (f x) |> |>).

Definition memset_if_wanted (dst n : Z) : M smstate unit :=
  let! mp := gets sm_pool in
  if Z.land (mp_flags mp) SMFLG_NOMEMSET =? 0 then MEMSET_DOS dst 0 n else ret tt.

Definition sm_uncommit (addr comb_size : Z) : M smstate unit :=
  let aa := u32 (page_align addr) in
  let aligned_size := page_mask (u64 (comb_size - u32 (aa - addr))) in
  let! mp := gets sm_pool in
  if negb (mp_uncommit mp) || (aligned_size =? 0) then ret tt
  else log_call (CallUncommit aa aligned_size).

Section allocator.
Context (commit_cb : list call -> Z -> Z -> bool).

Definition __sm_commit (addr size e_addr e_size : Z) : M smstate bool :=
  let! s := get in
  if negb (mp_commit (sm_pool s)) then ret true
  else
    let ok := commit_cb (sm_calls s) addr size in
    log_call (CallCommit addr size ok) ;;
    if ok then ret true
    else
      smerror ;;
      (if truth e_size
       then upd_avail (fun x => x + e_size) ;; sm_uncommit e_addr e_size
       else ret tt) ;;
      ret false.

Definition sm_commit (addr size e_addr e_size : Z) : M smstate bool :=
  let aa := page_mask addr in
  let aligned_size := u64 (page_align (u64 (size + u32 (addr - aa)))) in
  let! ok := __sm_commit aa aligned_size e_addr e_size in
  if ok then
    let! mp := gets sm_pool in
    assert (size <=? mp_avail mp) ;;
    upd_avail (fun x => x - size) ;;
    ret true
  else ret false.

Definition sm_commit_simple (addr size : Z) : M smstate bool :=
  sm_commit addr size SM_FAILED 0.

(** The common tail of the three allocation routines: commit the node, mark
    it used, give the excess back to the free list, clear it. *)
Definition sm_take (mn : nat) (size : Z) : M smstate (option nat) :=
  let! n := deref mn in
  let! ok := sm_commit_simple (mem_area n) size in
  if negb ok then ret None
  else
    set_used mn true ;;
    mntruncate mn size ;;
    let! n := deref mn in
    assert (m_size n =? size) ;;
    memset_if_wanted (mem_area n) size ;;
    ret (Some mn).

(** [mntruncate(mn, delta); mn = mn->next; assert(!mn->used && mn->size >= size)]
    when [delta] is not zero. *)
Definition sm_skip (mn : nat) (delta size : Z) : M smstate nat :=
  if delta =? 0 then ret mn
  else
    mntruncate mn (u64 delta) ;;
    let! nx := next_of mn in
    match nx with
    | None => throw BadPointer
    | Some n => assert (negb (m_used n) && (size <=? m_size n)) ;; ret (nid n)
    end.

Definition sm_alloc_fixed (ptr size : Z) : M smstate (option nat) :=
  if negb (truth size) || negb (truth ptr) then smerror ;; ret None
  else
    let! mp := gets sm_pool in
    match find_mn_at ptr (mp_nodes mp) with
    | None => smerror ;; ret None
    | Some mn =>
        if m_used mn then do_smerror 0 ;; ret None
        else
          let delta := u32 (ptr - mem_area mn) in
          assert (0 <=? delta) ;;
          if m_size mn <? u64 (size + delta) then
            do_smerror (oom_pr mp size) ;; ret None
          else
            let! mn := sm_skip (nid mn) delta size in
            sm_take mn size
    end.

(** [__builtin_popcount(x) == 1]. *)
Definition is_pow2 (x : Z) : bool :=
  (0 <? x) && (Z.land x (x - 1) =? 0).

Definition sm_alloc_aligned (align size : Z) : M smstate (option nat) :=
  if negb (truth size) then smerror ;; ret None
  else
    assert (is_pow2 (u32 align)) ;;
    let align := u64 (align - 1) in
    let! mp := gets sm_pool in
    match smfind_free_area align size (mp_nodes mp) with
    | None => do_smerror (oom_pr mp size) ;; ret None
    | Some mn =>
        let delta := i32 (align_delta (mem_area mn) align) in
        let! mn := sm_skip (nid mn) delta size in
        sm_take mn size
    end.

Definition sm_alloc_mn (size : Z) : M smstate (option nat) := sm_alloc_aligned 1 size.

Definition sm_alloc_aligned_topdown (top align size : Z) : M smstate (option nat) :=
  if negb (truth size) then smerror ;; ret None
  else
    assert (is_pow2 (u32 align)) ;;
    let align := u64 (align - 1) in
    let! mp := gets sm_pool in
    match smfind_free_area_topdown None top align size (mp_nodes mp) with
    | None => do_smerror (oom_pr mp size) ;; ret None
    | Some mn =>
        let min_top := topdown_min_top top mn in
        let iptr := u32 (Z.land (u64 (min_top - size)) (not64 align)) in
        let iend := u32 (iptr + size) in
        let delta := i32 (u64 (mem_area mn + m_size mn - iend)) in
        (if delta =? 0 then ret tt else mntruncate (nid mn) (u64 (m_size mn - delta))) ;;
        assert (mem_area mn <=? iptr) ;;
        let delta := i32 (u32 (iptr - mem_area mn)) in
        let! mn := sm_skip (nid mn) delta size in
        sm_take mn size
    end.

Definition sm_alloc_topdown (size : Z) : M smstate (option nat) :=
  sm_alloc_aligned_topdown SM_FAILED 1 size.

(** Turn a node pointer into the address the entry points return. *)
Definition area_or_fail (r : option nat) : M smstate Z :=
  match r with
  | None => ret SM_FAILED
  | Some mn => let! n := deref mn in ret (mem_area n)
  end.

Definition smalloc (size : Z) : M smstate Z :=
  let! r := sm_alloc_mn size in area_or_fail r.

Definition smalloc_fixed (ptr size : Z) : M smstate Z :=
  let! r := sm_alloc_fixed ptr size in
  match r with
  | None => ret SM_FAILED
  | Some mn =>
      let! n := deref mn in
      assert (mem_area n =? ptr) ;;
      ret (mem_area n)
  end.

Definition aligned_or_fail (align : Z) (r : option nat) : M smstate Z :=
  match r with
  | None => ret SM_FAILED
  | Some mn =>
      let! n := deref mn in
      assert (Z.land (mem_area n) (u64 (align - 1)) =? 0) ;;
      ret (mem_area n)
  end.

Definition smalloc_aligned (align size : Z) : M smstate Z :=
  let! r := sm_alloc_aligned align size in aligned_or_fail align r.

Definition smalloc_topdown (size : Z) : M smstate Z :=
  let! r := sm_alloc_topdown size in area_or_fail r.

Definition smalloc_aligned_topdown (top align size : Z) : M smstate Z :=
  let! r := sm_alloc_aligned_topdown top align size in aligned_or_fail align r.

Definition smfree (ptr : Z) : M smstate Z :=
  if ptr =? SM_FAILED then ret (-1)
  else
    let! r := find_mn ptr in
    match r with
    | None => smerror ;; ret (-1)
    | Some (pmn, mn) =>
        if negb (m_used mn) then smerror ;; ret (-1)
        else
          assert (0 <? m_size mn) ;;
          upd_avail (fun x => x + m_size mn) ;;
          let! mp := gets sm_pool in
          assert (mp_avail mp <=? mp_size mp) ;;
          set_used (nid mn) false ;;
          (* merge with next *)
          let! nx := next_of (nid mn) in
          (match nx with
           | Some n =>
               if negb (m_used n) then
                 assert (mem_area mn <=? mem_area n) ;;
                 mntruncate (nid mn) (u64 (m_size mn + m_size n))
               else ret tt
           | None => ret tt
           end) ;;
          (* merge with prev *)
          let! mn' := deref (nid mn) in
          let! mn :=
            match pmn with
            | Some p =>
                if negb (m_used p) then
                  assert (mem_area p <=? mem_area mn') ;;
                  mntruncate (nid p) (u64 (m_size p + m_size mn')) ;;
                  deref (nid p)
                else ret mn'
            | None => ret mn'
            end in
          (* uncommit combined area *)
          assert (negb (m_used mn)) ;;
          sm_uncommit (mem_area mn) (m_size mn) ;;
          ret 0
    end.

Definition free_size (n : option memnode) : Z :=
  match n with
  | Some n => if m_used n then 0 else m_size n
  | None => 0
  end.

(** After the commits: [p] becomes the block, [n] and its free successor
    become the gap behind it. *)
Definition move_down (p mn : memnode) (nmn : option memnode) (size : Z) : M smstate (option nat) :=
  set_used (nid p) true ;;
  MEMMOVE_DOS2DOS (mem_area p) (mem_area mn) (m_size mn) ;;
  memset_if_wanted (u32 (mem_area p + m_size mn)) (u64 (size - m_size mn)) ;;
  set_used (nid mn) false ;;
  (if size <? u64 (m_size p + m_size mn) then
     let overl := if m_size p <? size then u64 (size - m_size p) else 0 in
     upd_avail (fun x => x + (m_size mn - overl)) ;;
     let! mp := gets sm_pool in
     assert (mp_avail mp <=? mp_size mp)
   else ret tt) ;;
  (match nmn with
   | Some n =>
       if negb (m_used n) then mntruncate (nid mn) (u64 (m_size mn + m_size n))
       else ret tt
   | None => ret tt
   end) ;;
  mntruncate (nid p) size ;;
  let! nx := next_of (nid p) in
  (match nx with
   | Some n =>
       if negb (m_used n) then sm_uncommit (mem_area n) (m_size n) else ret tt
   | None => ret tt
   end) ;;
  ret (Some (nid p)).

Definition relocate (mn : memnode) (size : Z) : M smstate (option nat) :=
  let! r := sm_alloc_mn size in
  match r with
  | None =>
      let! mp := gets sm_pool in
      do_smerror (oom_pr mp size) ;; ret None
  | Some new_mn =>
      let! n := deref new_mn in
      MEMMOVE_DOS2DOS (mem_area n) (mem_area mn) (m_size mn) ;;
      smfree (mem_area mn) ;;
      ret (Some new_mn)
  end.

(** The part of [smrealloc] that needs another node: move down into the free
    predecessor, or relocate. *)
Definition sm_realloc_alloc_mn (pmn : option memnode) (mn : memnode)
    (nmn : option memnode) (size : Z) : M smstate (option nat) :=
  match pmn with
  | None => relocate mn size
  | Some p =>
      if negb (m_used p) && (size <=? u64 (m_size p + m_size mn + free_size nmn)) then
        (* move to prev memnode *)
        let psize := Z.min size (m_size p) in
        let! ok := sm_commit_simple (mem_area p) psize in
        if negb ok then ret None
        else
          let! ok :=
            if u64 (m_size p + m_size mn) <? size then
              match nmn with
              | None => throw BadPointer
              | Some n =>
                  sm_commit (mem_area n) (u64 (size - m_size p - m_size mn))
                    (mem_area p) psize
              end
            else ret true in
          if negb ok then ret None
          else
            move_down p mn nmn size
      else relocate mn size
  end.

(** [assert(mn->size == size); return mn->mem_area;] *)
Definition realloc_return (mn : nat) (size : Z) : M smstate Z :=
  let! n := deref mn in
  assert (m_size n =? size) ;;
  ret (mem_area n).

(** The shrinking branch shared by both reallocation routines. *)
Definition realloc_shrink (mn : memnode) (size : Z) : M smstate unit :=
  upd_avail (fun x => x + (m_size mn - size)) ;;
  let! mp := gets sm_pool in
  assert (mp_avail mp <=? mp_size mp) ;;
  mntruncate (nid mn) size ;;
  let! nx := next_of (nid mn) in
  match nx with
  | None => throw AssertFailed
  | Some nmn =>
      assert (negb (m_used nmn)) ;;
      sm_uncommit (mem_area nmn) (m_size nmn)
  end.

(** The in-place growing branch: [None] when the commit fails. *)
Definition realloc_expand (mn nmn : memnode) (size : Z) : M smstate bool :=
  let! ok := sm_commit_simple (mem_area nmn) (u64 (size - m_size mn)) in
  if negb ok then ret false
  else
    memset_if_wanted (mem_area nmn) (u64 (size - m_size mn)) ;;
    mntruncate (nid mn) size ;;
    ret true.

Definition smrealloc (ptr size : Z) : M smstate Z :=
  if negb (truth ptr) then smalloc size
  else
    let! r := find_mn ptr in
    match r with
    | None => smerror ;; ret SM_FAILED
    | Some (pmn, mn) =>
        if negb (m_used mn) then smerror ;; ret SM_FAILED
        else if size =? 0 then smfree ptr ;; ret SM_FAILED
        else if size =? m_size mn then ret ptr
        else if size <? m_size mn then
          realloc_shrink mn size ;; realloc_return (nid mn) size
        else
          let! nmn := next_of (nid mn) in
          let grow_elsewhere :=
            let! r := sm_realloc_alloc_mn pmn mn nmn size in
            match r with
            | None => ret SM_FAILED
            | Some mn => realloc_return mn size
            end in
          match nmn with
          | Some n =>
              if negb (m_used n) && (size <=? u64 (m_size mn + m_size n)) then
                let! ok := realloc_expand mn n size in
                if ok then realloc_return (nid mn) size else ret SM_FAILED
              else grow_elsewhere
          | None => grow_elsewhere
          end
    end.

(** In the relocating branch the source keeps using the old node [mn], not
    [new_mn], after freeing it; so does this definition. *)
Definition smrealloc_aligned (ptr align size : Z) : M smstate Z :=
  assert (is_pow2 (u32 align)) ;;
  if negb (truth ptr) then smalloc_aligned align size
  else
    let! r := find_mn ptr in
    match r with
    | None => smerror ;; ret SM_FAILED
    | Some (pmn, mn) =>
        if negb (m_used mn) then smerror ;; ret SM_FAILED
        else if size =? 0 then smfree ptr ;; ret SM_FAILED
        else if size =? m_size mn then ret ptr
        else if truth (Z.land (mem_area mn) (u32 (align - 1))) then smerror ;; ret SM_FAILED
        else if size <? m_size mn then
          realloc_shrink mn size ;; realloc_return (nid mn) size
        else
          let! nmn := next_of (nid mn) in
          let lazy :=
            let! r := sm_alloc_aligned align size in
            match r with
            | None => ret SM_FAILED
            | Some new_mn =>
                let! n := deref new_mn in
                MEMMOVE_DOS2DOS (mem_area n) (mem_area mn) (m_size mn) ;;
                smfree (mem_area mn) ;;
                realloc_return (nid mn) size
            end in
          match nmn with
          | Some n =>
              if negb (m_used n) && (size <=? u64 (m_size mn + m_size n)) then
                let! ok := realloc_expand mn n size in
                if ok then realloc_return (nid mn) size else ret SM_FAILED
              else lazy
          | None => lazy
          end
    end.

(** [while (POOL_USED(mp)) ...] with fuel. *)
Fixpoint smfree_all_loop (fuel : nat) : M smstate unit :=
  match fuel with
  | O => throw OutOfFuel
  | S fuel =>
      let! mp := gets sm_pool in
      if POOL_USED mp then
        match mp_nodes mp with
        | [] => throw BadPointer
        | mn :: rest =>
            let! mn :=
              if negb (m_used mn) then
                match rest with
                | [] => throw AssertFailed
                | n :: _ => ret n
                end
              else ret mn in
            assert (m_used mn) ;;
            smfree (mem_area mn) ;;
            smfree_all_loop fuel
        end
      else ret tt
  end.

Definition smfree_all : M smstate unit :=
  let! mp := gets sm_pool in
  smfree_all_loop (S (length (mp_nodes mp))) ;;
  let! mp := gets sm_pool in
  assert (bool_decide (tail (mp_nodes mp) = [])).

Definition smdestroy : M smstate Z :=
  let! mp := gets sm_pool in
  let avail := u32 (mp_avail mp) in
  smfree_all ;;
  let! mp := gets sm_pool in
  match mp_nodes mp with
  | [] => throw BadPointer
  | mn :: _ => assert (avail <=? m_size mn) ;; ret (i32 (m_size mn - avail))
  end.

End allocator.

(** ** Initialisation *)

Definition do_sminit (start size flags : Z) : mempool :=
  MkPool size size flags [MkNode 0 size false start] false false 1.

Definition sminit (start size : Z) : mempool := do_sminit start size 0.
Definition sminit_f (start size flags : Z) : mempool := do_sminit start size flags.

(** [commit] and [uncommit] say whether the callbacks are given. *)
Definition do_sminit_com (start size : Z) (commit uncommit do_uncommit : bool)
    (flags : Z) (calls : list call) : mempool * list call :=
  let mp := do_sminit start size flags in
  let mp := mp <| mp_commit := commit |> <| mp_uncommit := uncommit |> in
  (mp, if uncommit && do_uncommit then CallUncommit start size :: calls else calls).

Definition sminit_com (start size : Z) (commit uncommit : bool) (flags : Z)
    (calls : list call) : mempool * list call :=
  do_sminit_com start size commit uncommit true flags calls.

Definition sminit_comu (start size : Z) (commit uncommit : bool) (flags : Z)
    (calls : list call) : mempool * list call :=
  do_sminit_com start size commit uncommit false flags calls.
