(* ===== verification/SmallocInv.v ===== *)
(** * smalloc: the pool invariant and the effect of the list surgery

    [pool_ok] says that the nodes tile the pool's range, that the byte counter
    [avail] is the number of free bytes, and that node pointers are distinct.
    [coalesced] says that no two free nodes are adjacent.  The lemmas here
    describe [mntruncate], the primitive all operations are built from, by the
    closed form [regap]. *)

From stdpp Require Import base numbers list gmap.
From Stdlib Require Import ZArith Lia.
From S2P Require Import Prelude Smalloc.

Local Open Scope Z_scope.

(** ** Invariant *)

Fixpoint tiles (b : Z) (l : list memnode) (e : Z) : Prop :=
  match l with
  | [] => b = e
  | n :: l' => mem_area n = b /\ 0 < m_size n /\ tiles (b + m_size n) l' e
  end.

Fixpoint free_bytes (l : list memnode) : Z :=
  match l with
  | [] => 0
  | n :: l' => (if m_used n then 0 else m_size n) + free_bytes l'
  end.

(** The allocated blocks: address and size. *)
Fixpoint blocks (l : list memnode) : list (Z * Z) :=
  match l with
  | [] => []
  | n :: l' => if m_used n then (mem_area n, m_size n) :: blocks l' else blocks l'
  end.

Definition head_used (l : list memnode) : Prop :=
  match l with [] => True | n :: _ => m_used n = true end.

Fixpoint coalesced (l : list memnode) : Prop :=
  match l with
  | [] => True
  | n :: l' => (m_used n = false -> head_used l') /\ coalesced l'
  end.

Definition ids (l : list memnode) : list nat := nid <$> l.

(** Well-formed node list over the range [b, e). *)
Record nodes_ok (b e : Z) (fresh : nat) (l : list memnode) : Prop := {
  no_tiles : tiles b l e;
  no_base : 0 <= b;
  no_end : e < 2 ^ 32;
  no_size : e - b < 2 ^ 31;
  no_nodup : NoDup (ids l);
  no_fresh : Forall (fun i => (i < fresh)%nat) (ids l);
}.

Record pool_ok (p : mempool) : Prop := {
  po_nodes : nodes_ok (smget_base_addr p) (smget_base_addr p + mp_size p)
               (mp_fresh p) (mp_nodes p);
  po_nonempty : 0 < mp_size p;
  po_avail : mp_avail p = free_bytes (mp_nodes p);
}.

(** ** Closed form of [mntruncate] *)

Definition free_head (l : list memnode) : Z :=
  match l with [] => 0 | n :: _ => if m_used n then 0 else m_size n end.

Definition drop_free (l : list memnode) : list memnode :=
  match l with [] => [] | n :: l' => if m_used n then l else l' end.

Definition gap_id (fresh : nat) (l : list memnode) : nat :=
  match l with [] => fresh | n :: _ => if m_used n then fresh else nid n end.

(** Successors of a node after truncation: a free gap of [gap] bytes at [a]
    replaces the free head of [l]. *)
Definition regap (fresh : nat) (l : list memnode) (a gap : Z) : list memnode :=
  if gap =? 0 then drop_free l
  else MkNode (gap_id fresh l) gap false a :: drop_free l.

(** ** Lemmas *)

Lemma tiles_app b l1 l2 e :
  tiles b (l1 ++ l2) e <-> exists m, tiles b l1 m /\ tiles m l2 e.
Proof.
  revert b. induction l1 as [|n l1 IH]; intros b; simpl.
  - split; [intros H; eauto|]. intros (m & -> & H). done.
  - rewrite IH. split.
    + intros (? & ? & m & ? & ?). eauto 10.
    + intros (m & (? & ? & ?) & ?). eauto 10.
Qed.

Lemma tiles_le b l e : tiles b l e -> b <= e.
Proof.
  revert b. induction l as [|n l IH]; simpl; intros b; [lia|].
  intros (_ & ? & H). apply IH in H. lia.
Qed.

Lemma free_bytes_app l1 l2 : free_bytes (l1 ++ l2) = free_bytes l1 + free_bytes l2.
Proof. induction l1 as [|n l1 IH]; simpl; lia. Qed.

Lemma blocks_app l1 l2 : blocks (l1 ++ l2) = blocks l1 ++ blocks l2.
Proof. induction l1 as [|n l1 IH]; simpl; [done|]. destruct (m_used n); simpl; congruence. Qed.

Lemma free_bytes_bound b l e : tiles b l e -> 0 <= free_bytes l <= e - b.
Proof.
  revert b. induction l as [|n l IH]; simpl; intros b; [lia|].
  intros (_ & ? & H). apply IH in H. destruct (m_used n); lia.
Qed.

Lemma coalesced_app l1 l2 : coalesced (l1 ++ l2) -> coalesced l1 /\ coalesced l2.
Proof.
  induction l1 as [|n l1 IH]; simpl; [done|]. intros [H1 H2].
  destruct (IH H2). split_and!; try done. intros Hf. destruct l1; simpl in *; auto.
Qed.

Lemma head_used_app l1 n l2 : head_used (l1 ++ n :: l2) -> m_used n = true \/ l1 <> [].
Proof. destruct l1; simpl; [by left|by right]. Qed.

(** Replacing a suffix keeps coalescing when the seam stays as good. *)
Lemma coalesced_app_intro l1 l2 :
  coalesced l1 -> coalesced l2 -> (head_used l2 \/ head_used (reverse l1)) -> coalesced (l1 ++ l2).
Proof.
  induction l1 as [|n l1 IH]; simpl; [done|]. intros [H1 H2] H3 H4.
  rewrite reverse_cons in H4. split.
  - intros Hf. specialize (H1 Hf). destruct l1; simpl in *; [|done].
    destruct H4; [done|]. congruence.
  - apply IH; try done. destruct H4 as [|H4]; [by left|right].
    destruct (reverse l1) eqn:E; [done|]. done.
Qed.

Lemma coalesced_replace l1 n l2 n' l2' :
  coalesced (l1 ++ n :: l2) ->
  (m_used n = true -> m_used n' = true) \/ head_used (reverse l1) ->
  coalesced (n' :: l2') ->
  coalesced (l1 ++ n' :: l2').
Proof.
  intros H Hu H'. induction l1 as [|m l1 IH]; [done|]. simpl in *.
  destruct H as [H1 H2]. rewrite reverse_cons in Hu. split.
  - intros Hf. specialize (H1 Hf). destruct l1; simpl in *; [|done].
    destruct Hu as [Hu|Hu]; [auto|congruence].
  - apply IH; try done. destruct Hu as [|Hu]; [by left|right].
    by destruct (reverse l1).
Qed.

Lemma ids_app l1 l2 : ids (l1 ++ l2) = ids l1 ++ ids l2.
Proof. apply fmap_app. Qed.

Lemma ids_cons n l : ids (n :: l) = nid n :: ids l.
Proof. done. Qed.

Lemma split_at_app l1 n l2 :
  nid n ∉ ids l1 -> split_at (nid n) (l1 ++ n :: l2) = Some (l1, n, l2).
Proof.
  induction l1 as [|m l1 IH]; simpl; intros H.
  - by rewrite decide_True.
  - change (nid n ∉ nid m :: ids l1) in H. apply not_elem_of_cons in H as [??].
    rewrite decide_False by done. by rewrite IH.
Qed.

Lemma NoDup_mid l1 n l2 : NoDup (ids (l1 ++ n :: l2)) -> nid n ∉ ids l1.
Proof.
  unfold ids. rewrite fmap_app, fmap_cons. intros H.
  apply NoDup_app in H as (_ & H & _). intros Hin. apply (H _ Hin). left.
Qed.

Lemma free_head_nonneg b l e : tiles b l e -> 0 <= free_head l.
Proof. destruct l as [|n l]; simpl; [done|]. intros (_ & ? & _). destruct (m_used n); lia. Qed.

Lemma free_head_le b l e : tiles b l e -> free_head l <= e - b.
Proof.
  destruct l as [|n l]; simpl; [lia|]. intros (_ & ? & H). apply tiles_le in H.
  destruct (m_used n); lia.
Qed.

Lemma truncate_step_spec fresh n l2 size b e :
  tiles b (n :: l2) e -> 0 <= b -> e < 2 ^ 32 -> e - b < 2 ^ 31 -> coalesced l2 ->
  0 < size <= m_size n + free_head l2 ->
  truncate_step fresh n l2 size =
    Ok (n <| m_size := size |>,
        regap fresh l2 (mem_area n + size) (m_size n + free_head l2 - size)).
Proof.
  intros (Ha & Hp & Ht) Hb He Hs Hc Hsz.
  pose proof (tiles_le _ _ _ Ht). pose proof (free_head_le _ _ _ Ht).
  unfold truncate_step. nowrap. destruct (Z.eqb_spec (m_size n - size) 0) as [E|E].
  - assert (size = m_size n) as -> by lia. clear E Hsz.
    replace (m_size n + free_head l2 - m_size n) with (free_head l2) by lia.
    unfold regap. destruct n as [i sz u a]; simpl in *. subst a.
    destruct l2 as [|[i2 sz2 u2 a2] l2]; simpl in *; [done|].
    destruct u2; simpl; [done|]. destruct Ht as (-> & ? & ?).
    rewrite (proj2 (Z.eqb_neq _ _)) by lia. done.
  - destruct l2 as [|m l3]; simpl in *.
    + rewrite (proj2 (Z.ltb_lt _ _)) by lia. nowrap. unfold regap. simpl.
      rewrite (proj2 (Z.eqb_neq _ _)) by lia. repeat f_equal. lia.
    + destruct (m_used m) eqn:Hm; simpl in *.
      * rewrite (proj2 (Z.ltb_lt _ _)) by lia. nowrap. unfold regap. simpl.
        rewrite Hm, (proj2 (Z.eqb_neq _ _)) by lia. repeat f_equal. lia.
      * destruct Ht as (Hma & Hmp & Ht). destruct Hc as [Hc1 Hc2].
        pose proof (tiles_le _ _ _ Ht).
        nowrap. rewrite (proj2 (Z.ltb_lt 0 size)), (proj2 (Z.leb_le 0 _)) by lia. simpl.
        unfold regap. simpl. rewrite Hm.
        replace (m_size m + (m_size n - size)) with (m_size n + m_size m - size) by lia.
        replace (m_size n - (m_size n - size)) with size by lia.
        destruct (Z.eqb_spec (m_size n + m_size m - size) 0).
        -- specialize (Hc1 eq_refl). destruct l3 as [|k l3]; simpl in *; [done|].
           by rewrite Hc1.
        -- destruct m as [i2 sz2 u2 a2]; simpl in *. subst. repeat f_equal. lia.
Qed.

Lemma tiles_base b l e : tiles b l e -> b < e -> exists n l', l = n :: l' /\ mem_area n = b.
Proof. destruct l as [|n l]; simpl; [lia|]. intros (? & _) _. eauto. Qed.

Lemma pool_ok_intro b e sz av fl l c u fr :
  nodes_ok b e fr l -> sz = e - b -> b < e -> av = free_bytes l ->
  pool_ok (MkPool sz av fl l c u fr).
Proof.
  intros Hn -> Hlt ->. destruct (tiles_base _ _ _ (no_tiles _ _ _ _ Hn) Hlt) as (n & l' & -> & Hb).
  assert (smget_base_addr (MkPool (e - b) (free_bytes (n :: l')) fl (n :: l') c u fr) = b)
    as E by done.
  split; rewrite ?E; simpl; try lia. by replace (b + (e - b)) with e by lia.
Qed.

Lemma pool_ok_elim sz av fl l c u fr :
  pool_ok (MkPool sz av fl l c u fr) ->
  exists b e, nodes_ok b e fr l /\ sz = e - b /\ b < e /\ av = free_bytes l /\
    smget_base_addr (MkPool sz av fl l c u fr) = b.
Proof.
  intros [H1 H2 H3]. simpl in H1, H2, H3. eexists _, _.
  split; [exact H1|]. split; [lia|]. split; [lia|]. by split.
Qed.

Lemma tiles_drop_free b l e : tiles b l e -> tiles (b + free_head l) (drop_free l) e.
Proof.
  destruct l as [|n l]; simpl.
  - intros ->. lia.
  - intros (Ha & Hp & H). destruct (m_used n) eqn:E; simpl; rewrite ?E.
    + by rewrite Z.add_0_r.
    + done.
Qed.

Lemma tiles_regap fr b l e a gap size :
  tiles b l e -> a + gap = b + free_head l -> 0 <= gap -> a = size ->
  tiles size (regap fr l a gap) e.
Proof.
  intros H1 H2 H3 <-. apply tiles_drop_free in H1. rewrite <- H2 in H1.
  unfold regap. destruct (Z.eqb_spec gap 0) as [->|]; simpl.
  - by rewrite Z.add_0_r in H1.
  - split_and!; [done|lia|done].
Qed.

Lemma blocks_regap fr l a gap : blocks (regap fr l a gap) = blocks l.
Proof.
  unfold regap. destruct l as [|n l]; simpl.
  - by destruct (gap =? 0).
  - destruct (m_used n) eqn:E, (gap =? 0); simpl; rewrite ?E; done.
Qed.

Lemma free_bytes_regap fr l a gap :
  free_bytes (regap fr l a gap) = free_bytes l - free_head l + gap.
Proof.
  unfold regap. destruct l as [|n l]; simpl.
  - destruct (Z.eqb_spec gap 0); simpl; lia.
  - destruct (m_used n) eqn:E, (Z.eqb_spec gap 0); simpl; rewrite ?E; lia.
Qed.

Lemma head_used_drop_free l : coalesced l -> head_used (drop_free l).
Proof.
  destruct l as [|n l]; simpl; [done|]. intros [H _].
  destruct (m_used n) eqn:E; simpl; auto.
Qed.

Lemma coalesced_drop_free l : coalesced l -> coalesced (drop_free l).
Proof. destruct l as [|n l]; simpl; [done|]. intros [H1 H2]. destruct (m_used n) eqn:E; simpl; rewrite ?E; auto. Qed.

Lemma coalesced_regap fr l a gap : coalesced l -> coalesced (regap fr l a gap).
Proof.
  intros H. unfold regap. destruct (gap =? 0); simpl; auto using coalesced_drop_free.
  split; auto using coalesced_drop_free, head_used_drop_free.
Qed.

Lemma head_used_regap fr l a : coalesced l -> head_used (regap fr l a 0).
Proof. intros H. unfold regap. simpl. by apply head_used_drop_free. Qed.

(** Identities after truncation: no new ones but [fr]. *)
Lemma ids_regap fr l a gap i : i ∈ ids (regap fr l a gap) -> i = fr \/ i ∈ ids l.
Proof.
  unfold regap. destruct l as [|n l]; simpl.
  - destruct (gap =? 0); unfold ids; simpl; [by rewrite elem_of_nil|].
    rewrite list_elem_of_singleton. by left.
  - unfold ids. destruct (m_used n), (gap =? 0); simpl; rewrite ?elem_of_cons; tauto.
Qed.

Lemma NoDup_regap fr l a gap : NoDup (ids l) -> fr ∉ ids l -> NoDup (ids (regap fr l a gap)).
Proof.
  unfold regap. destruct l as [|n l]; simpl.
  - intros _ _. destruct (gap =? 0); unfold ids; simpl; [constructor|]. apply NoDup_singleton.
  - unfold ids. destruct (m_used n), (gap =? 0); simpl; intros H1 H2;
      rewrite ?NoDup_cons in *; tauto.
Qed.

Lemma used_regap fr l a gap n : m_used n = true -> n ∈ l -> n ∈ regap fr l a gap.
Proof.
  intros Hu Hin. assert (n ∈ drop_free l) as Hd.
  { destruct l as [|m l]; simpl; [done|]. destruct (m_used m) eqn:E; [done|].
    apply elem_of_cons in Hin as [->|]; [congruence|done]. }
  unfold regap. destruct (gap =? 0); [done|]. by right.
Qed.

Lemma nodes_ok_mono b e fr fr' l : nodes_ok b e fr l -> (fr <= fr')%nat -> nodes_ok b e fr' l.
Proof.
  intros [] Hle. split; try done. eapply Forall_impl; [done|]. simpl. lia.
Qed.

(** Changing only the [used] flag of a node. *)
Lemma nodes_ok_flip b e fr l1 n n' l2 :
  nodes_ok b e fr (l1 ++ n :: l2) ->
  nid n' = nid n -> mem_area n' = mem_area n -> m_size n' = m_size n ->
  nodes_ok b e fr (l1 ++ n' :: l2).
Proof.
  intros [Ht Hb He Hs Hn Hf] H1 H2 H3. rewrite tiles_app in Ht.
  destruct Ht as (m & Ht1 & Ht2). simpl in Ht2.
  split; try done.
  - rewrite tiles_app. exists m. split; [done|]. simpl. by rewrite H2, H3.
  - rewrite ids_app, ids_cons in *. by rewrite H1.
  - rewrite ids_app, ids_cons in *. by rewrite H1.
Qed.

Lemma nodes_ok_truncate b e fr l1 n n' l2 size :
  nodes_ok b e fr (l1 ++ n :: l2) ->
  0 < size <= m_size n + free_head l2 ->
  nid n' = nid n -> mem_area n' = mem_area n -> m_size n' = size ->
  nodes_ok b e (S fr)
    (l1 ++ n' :: regap fr l2 (mem_area n + size) (m_size n + free_head l2 - size)).
Proof.
  intros [Ht Hb He Hs Hn Hf] Hsz H1 H2 H3. rewrite tiles_app in Ht.
  destruct Ht as (m & Ht1 & Ht2). simpl in Ht2. destruct Ht2 as (Ha & Hp & Ht2).
  rewrite ids_app, ids_cons in Hn, Hf.
  apply NoDup_app in Hn as (Hn1 & Hn2 & Hn3). apply NoDup_cons in Hn3 as [Hn3 Hn4].
  rewrite Forall_app, Forall_cons in Hf. destruct Hf as (Hf1 & Hf2 & Hf3).
  assert (fr ∉ ids l2) as Hfr.
  { intros Hin. rewrite Forall_forall in Hf3. specialize (Hf3 _ Hin). simpl in Hf3. lia. }
  split; try done.
  - rewrite tiles_app. exists m. split; [done|]. simpl. split_and!; [congruence|lia|].
    eapply tiles_regap; [exact Ht2| |lia|congruence]. lia.
  - rewrite ids_app, ids_cons, NoDup_app, NoDup_cons, H1. split_and!; auto using NoDup_regap.
    + intros i Hi Hi'. rewrite elem_of_cons in Hi'. destruct Hi' as [->|Hi'].
      * apply (Hn2 _ Hi). left.
      * apply ids_regap in Hi' as [->|Hi'].
        -- rewrite Forall_forall in Hf1. specialize (Hf1 _ Hi). simpl in Hf1. lia.
        -- apply (Hn2 _ Hi). by right.
    + intros Hi. apply ids_regap in Hi as [Hi|Hi]; [lia|done].
  - rewrite ids_app, ids_cons, H1, Forall_app, Forall_cons. split_and!; [|lia|].
    + eapply Forall_impl; [done|]. simpl. lia.
    + apply Forall_forall. intros i Hi. apply ids_regap in Hi as [->|Hi]; [lia|].
      rewrite Forall_forall in Hf3. specialize (Hf3 _ Hi). simpl in Hf3. lia.
Qed.
