(* ===== verification/SmallocAlloc.v ===== *)
(** * smalloc: allocation

    Weakest-precondition rules for the pool primitives and the correctness of
    the allocation entry points: they never fault on a well-formed coalesced
    pool, hand out a block that lies inside a free area with the requested
    alignment, and change nothing else. *)

From stdpp Require Import base numbers list gmap.
From Stdlib Require Import ZArith Lia.
From S2P Require Import Prelude Smalloc SmallocInv.

Local Open Scope Z_scope.

(** ** The abstract heap: address to size of every allocated block *)

Definition allocated (s : smstate) : gmap Z Z := list_to_map (blocks (nodes_of s)).

Definition disjoint_from (a size : Z) (h : gmap Z Z) : Prop :=
  forall a' n, h !! a' = Some n -> a + size <= a' \/ a' + n <= a.

(** The areas an aligned request of [size] bytes can be served from. *)
Definition fits_aligned (k size : Z) (l : list memnode) : Prop :=
  exists n, n ∈ l /\ m_used n = false /\ size + (- mem_area n) mod 2 ^ k <= m_size n.

Lemma blocks_range b l e a n :
  tiles b l e -> (a, n) ∈ blocks l -> b <= a /\ 0 < n /\ a + n <= e.
Proof.
  revert b. induction l as [|m l IH]; simpl; intros b; [by rewrite elem_of_nil|].
  intros (Ha & Hp & Ht) Hin. pose proof (tiles_le _ _ _ Ht).
  assert ((a, n) ∈ blocks l -> b <= a /\ 0 < n /\ a + n <= e) as Hl.
  { intros H'. specialize (IH _ Ht H'). lia. }
  destruct (m_used m); [|auto]. rewrite elem_of_cons in Hin. destruct Hin as [[= -> ->]|]; auto.
  lia.
Qed.

Lemma blocks_NoDup b l e : tiles b l e -> NoDup (blocks l).*1.
Proof.
  revert b. induction l as [|m l IH]; simpl; intros b; [constructor|].
  intros (Ha & Hp & Ht). destruct (m_used m); simpl; [|eauto]. constructor; [|eauto].
  intros Hin. apply list_elem_of_fmap in Hin as ([a n] & E & Hin). simpl in E.
  apply (blocks_range _ _ _ _ _ Ht) in Hin. lia.
Qed.

Lemma blocks_disjoint b l e a1 n1 a2 n2 :
  tiles b l e -> (a1, n1) ∈ blocks l -> (a2, n2) ∈ blocks l -> a1 <> a2 ->
  a1 + n1 <= a2 \/ a2 + n2 <= a1.
Proof.
  revert b. induction l as [|m l IH]; simpl; intros b; [by rewrite elem_of_nil|].
  intros (Ha & Hp & Ht) H1 H2 Hne. destruct (m_used m); [|eauto].
  rewrite elem_of_cons in H1, H2.
  destruct H1 as [[= -> ->]|H1], H2 as [[= -> ->]|H2]; [done|..|eauto].
  - apply (blocks_range _ _ _ _ _ Ht) in H2. lia.
  - apply (blocks_range _ _ _ _ _ Ht) in H1. lia.
Qed.

Lemma pool_ok_tiles p : pool_ok p ->
  tiles (smget_base_addr p) (mp_nodes p) (smget_base_addr p + mp_size p).
Proof. intros H. eapply no_tiles, po_nodes, H. Qed.

Lemma allocated_lookup s a n :
  pool_ok (sm_pool s) -> allocated s !! a = Some n <-> (a, n) ∈ blocks (nodes_of s).
Proof.
  intros H. unfold allocated. symmetry. apply elem_of_list_to_map.
  eapply blocks_NoDup, pool_ok_tiles, H.
Qed.

(** Adding one block to the list adds one binding to the map. *)
Lemma allocated_cons s B a size :
  pool_ok (sm_pool s) -> blocks (nodes_of s) ≡ₚ (a, size) :: B ->
  allocated s = <[a := size]> (list_to_map B) /\
  (list_to_map B : gmap Z Z) !! a = None /\ disjoint_from a size (list_to_map B).
Proof.
  intros H Hp. pose proof (pool_ok_tiles _ H) as Ht.
  assert (NoDup ((a, size) :: B).*1) as Hnd.
  { rewrite <- Hp. eapply blocks_NoDup, Ht. }
  assert ((list_to_map B : gmap Z Z) !! a = None) as Hnone.
  { apply not_elem_of_list_to_map. by inversion Hnd. }
  split_and!; [|done|].
  - unfold allocated. change (<[a:=size]> (list_to_map B : gmap Z Z)) with
      (list_to_map ((a, size) :: B) : gmap Z Z).
    apply list_to_map_proper; [|done]. eapply blocks_NoDup, Ht.
  - intros a' n Ha'. assert (a <> a') as Hne by congruence.
    apply elem_of_list_to_map in Ha'; [|by inversion Hnd].
    eapply (blocks_disjoint _ (nodes_of s)); [exact Ht| | |done];
      rewrite Hp, elem_of_cons; auto.
Qed.

Lemma allocated_insert s s' a size :
  pool_ok (sm_pool s') ->
  blocks (nodes_of s') ≡ₚ (a, size) :: blocks (nodes_of s) ->
  allocated s' = <[a := size]> (allocated s) /\ allocated s !! a = None /\
  disjoint_from a size (allocated s).
Proof. intros H' Hp. by apply allocated_cons. Qed.

(** ** Primitives *)

Lemma wp_deref_at sz av fl l1 n l2 c u fr m cs (Q : memnode -> smstate -> Prop) :
  nid n ∉ ids l1 ->
  Q n (MkSm (MkPool sz av fl (l1 ++ n :: l2) c u fr) m cs) ->
  wp (deref (nid n)) (MkSm (MkPool sz av fl (l1 ++ n :: l2) c u fr) m cs) Q.
Proof. intros H. unfold wp, deref, nodes_of. simpl. by rewrite split_at_app. Qed.

Lemma wp_deref n s (Q : memnode -> smstate -> Prop) :
  NoDup (ids (nodes_of s)) -> n ∈ nodes_of s -> Q n s -> wp (deref (nid n)) s Q.
Proof.
  intros Hn Hin. apply list_elem_of_split in Hin as (l1 & l2 & E).
  unfold wp, deref. rewrite E in *. rewrite split_at_app; eauto using NoDup_mid.
Qed.

Lemma wp_next_of sz av fl l1 n l2 c u fr m cs (Q : option memnode -> smstate -> Prop) :
  nid n ∉ ids l1 ->
  Q (head l2) (MkSm (MkPool sz av fl (l1 ++ n :: l2) c u fr) m cs) ->
  wp (next_of (nid n)) (MkSm (MkPool sz av fl (l1 ++ n :: l2) c u fr) m cs) Q.
Proof. intros H. unfold wp, next_of, nodes_of. simpl. by rewrite split_at_app. Qed.

Lemma wp_set_used sz av fl l1 n l2 c u fr m cs b (Q : unit -> smstate -> Prop) :
  nid n ∉ ids l1 ->
  Q tt (MkSm (MkPool sz av fl (l1 ++ n <| m_used := b |> :: l2) c u fr) m cs) ->
  wp (set_used (nid n) b) (MkSm (MkPool sz av fl (l1 ++ n :: l2) c u fr) m cs) Q.
Proof. intros H. unfold wp, set_used, nodes_of. simpl. by rewrite split_at_app. Qed.

Lemma wp_mntruncate sz av fl l1 n l2 c u fr m cs size b e (Q : unit -> smstate -> Prop) :
  nodes_ok b e fr (l1 ++ n :: l2) -> coalesced l2 ->
  0 < size <= m_size n + free_head l2 ->
  Q tt (MkSm (MkPool sz av fl
          (l1 ++ n <| m_size := size |> ::
             regap fr l2 (mem_area n + size) (m_size n + free_head l2 - size))
          c u (S fr)) m cs) ->
  wp (mntruncate (nid n) size) (MkSm (MkPool sz av fl (l1 ++ n :: l2) c u fr) m cs) Q.
Proof.
  intros [Ht Hb He Hs Hn Hf] Hc Hsz HQ. unfold wp, mntruncate, nodes_of. simpl.
  rewrite split_at_app by eauto using NoDup_mid.
  apply tiles_app in Ht as (k & Ht1 & Ht2). pose proof (tiles_le _ _ _ Ht1).
  rewrite (truncate_step_spec _ _ _ _ k e) by (done || lia). done.
Qed.

Lemma wp_upd_avail sz av fl l c u fr m cs f (Q : unit -> smstate -> Prop) :
  Q tt (MkSm (MkPool sz (u64 (f av)) fl l c u fr) m cs) ->
  wp (upd_avail f) (MkSm (MkPool sz av fl l c u fr) m cs) Q.
Proof. done. Qed.

Lemma wp_log_call k p m cs (Q : unit -> smstate -> Prop) :
  Q tt (MkSm p m (k :: cs)) -> wp (log_call k) (MkSm p m cs) Q.
Proof. done. Qed.

Lemma wp_sm_uncommit a n p m cs (Q : unit -> smstate -> Prop) :
  (forall cs', Q tt (MkSm p m cs')) -> wp (sm_uncommit a n) (MkSm p m cs) Q.
Proof.
  intros H. unfold sm_uncommit. wp_step. wp_step.
  destruct (negb _ || _); [by wp_step|by apply wp_log_call].
Qed.

Lemma wp_memset_if_wanted a n p m cs (Q : unit -> smstate -> Prop) :
  Q tt (MkSm p (if Z.land (mp_flags p) SMFLG_NOMEMSET =? 0 then mem_set m a 0 n else m) cs) ->
  wp (memset_if_wanted a n) (MkSm p m cs) Q.
Proof.
  intros H. unfold memset_if_wanted. wp_step. wp_step. simpl.
  by destruct (_ =? 0).
Qed.

Lemma wp_do_smerror pr p m cs (Q : unit -> smstate -> Prop) :
  pr <> -1 -> (forall cs', Q tt (MkSm p m cs')) -> wp (do_smerror pr) (MkSm p m cs) Q.
Proof.
  intros Hp H. unfold do_smerror. wp_step. wp_step.
  - apply negb_true_iff. by apply Z.eqb_neq.
  - by apply wp_log_call.
Qed.

Lemma oom_pr_ok p size : oom_pr p size <> -1.
Proof. unfold oom_pr, get_oom_pr. zbool; lia. Qed.

(** ** Commit *)

Section with_cb.
Context (cb : list call -> Z -> Z -> bool).

(** Some call of the commit callback can be refused. *)
Definition may_refuse (c : bool) : Prop := c = true /\ exists cs a n, cb cs a n = false.

Lemma wp_sm_commit_simple a n sz av fl l c u fr m cs (Q : bool -> smstate -> Prop) :
  0 <= n <= av -> av < 2 ^ 64 ->
  (forall cs', Q true (MkSm (MkPool sz (av - n) fl l c u fr) m cs')) ->
  (may_refuse c -> forall cs', Q false (MkSm (MkPool sz av fl l c u fr) m cs')) ->
  wp (sm_commit_simple cb a n) (MkSm (MkPool sz av fl l c u fr) m cs) Q.
Proof.
  intros Hn Hav HQ1 HQ2. unfold sm_commit_simple, sm_commit. wp_step.
  assert (forall cs', wp (let! mp := gets sm_pool in
      assert (n <=? mp_avail mp) ;; upd_avail (fun x => x - n) ;; ret true)
      (MkSm (MkPool sz av fl l c u fr) m cs') Q) as Hok.
  { intros cs'. wp_step. wp_step. wp_step. wp_step; [apply Z.leb_le; simpl; lia|].
    wp_step. apply wp_upd_avail. wp_step. nowrap. apply HQ1. }
  unfold __sm_commit. wp_step. wp_step. simpl. destruct c; simpl; [|by wp_step; apply Hok].
  wp_step. apply wp_log_call. destruct (cb cs _ _) eqn:E; [by wp_step; apply Hok|].
  wp_step. apply wp_log_call. wp_step. wp_step. wp_step. wp_step. apply HQ2.
  split; eauto.
Qed.

(** ** Taking a block out of a free node *)

(** What an allocation that returns the node [i] does to the state. *)
Record alloc_post (s s' : smstate) (i : nat) (a size : Z) : Prop := {
  ap_ok : pool_ok (sm_pool s');
  ap_coalesced : coalesced (nodes_of s');
  ap_blocks : blocks (nodes_of s') ≡ₚ (a, size) :: blocks (nodes_of s);
  ap_node : MkNode i size true a ∈ nodes_of s';
  ap_keep : forall n, n ∈ nodes_of s -> m_used n = true -> n ∈ nodes_of s';
  ap_room : exists n, n ∈ nodes_of s /\ m_used n = false /\
              mem_area n <= a /\ a + size <= mem_area n + m_size n;
  ap_base : smget_base_addr (sm_pool s') = smget_base_addr (sm_pool s);
  ap_size : mp_size (sm_pool s') = mp_size (sm_pool s);
  ap_avail : mp_avail (sm_pool s') = mp_avail (sm_pool s) - size;
  ap_flags : mp_flags (sm_pool s') = mp_flags (sm_pool s);
  ap_cb : mp_commit (sm_pool s') = mp_commit (sm_pool s);
  ap_mem : sm_mem s' =
    if Z.land (mp_flags (sm_pool s)) SMFLG_NOMEMSET =? 0
    then mem_set (sm_mem s) a 0 size else sm_mem s;
}.

(** A pool on which nothing happened. *)
Definition same_pool (s s' : smstate) : Prop :=
  sm_pool s' = sm_pool s /\ sm_mem s' = sm_mem s.

Lemma base_addr_tiles sz av fl l c u fr b e :
  tiles b l e -> b < e -> smget_base_addr (MkPool sz av fl l c u fr) = b.
Proof. intros H1 H2. destruct (tiles_base _ _ _ H1 H2) as (n & l' & -> & ?). done. Qed.

Lemma wp_sm_take sz av fl l1 n l2 c u fr m cs size b e (Q : option nat -> smstate -> Prop) :
  nodes_ok b e fr (l1 ++ n :: l2) -> coalesced l2 -> av = free_bytes (l1 ++ n :: l2) ->
  m_used n = false -> 0 < size <= m_size n ->
  (forall cs', Q (Some (nid n)) (MkSm (MkPool sz (av - size) fl
      (l1 ++ MkNode (nid n) size true (mem_area n) ::
         regap fr l2 (mem_area n + size) (m_size n + free_head l2 - size)) c u (S fr))
      (if Z.land fl SMFLG_NOMEMSET =? 0 then mem_set m (mem_area n) 0 size else m) cs')) ->
  (may_refuse c -> forall cs',
     Q None (MkSm (MkPool sz av fl (l1 ++ n :: l2) c u fr) m cs')) ->
  wp (sm_take cb (nid n) size) (MkSm (MkPool sz av fl (l1 ++ n :: l2) c u fr) m cs) Q.
Proof.
  intros Hok Hc Hav Hu Hsz HQ1 HQ2.
  pose proof (NoDup_mid _ _ _ (no_nodup _ _ _ _ Hok)) as Hi.
  pose proof (no_tiles _ _ _ _ Hok) as Ht. pose proof (free_bytes_bound _ _ _ Ht).
  pose proof (no_base _ _ _ _ Hok). pose proof (no_end _ _ _ _ Hok).
  rewrite free_bytes_app in *. simpl in *. rewrite Hu in *.
  apply tiles_app in Ht as (k & Ht1 & (Hk & Hp & Ht2)).
  pose proof (free_bytes_bound _ _ _ Ht1). pose proof (free_bytes_bound _ _ _ Ht2).
  pose proof (free_head_nonneg _ _ _ Ht2).
  unfold sm_take. wp_step. apply wp_deref_at; [done|]. wp_step.
  apply wp_sm_commit_simple; [lia|lia| |intros; simpl; wp_step; eauto].
  intros cs'. simpl. wp_step. apply wp_set_used; [done|]. wp_step.
  change (nid n) with (nid (n <| m_used := true |>)).
  eapply wp_mntruncate; [eapply nodes_ok_flip; [exact Hok|done..]|done|simpl; lia|].
  wp_step. change (nid (n <| m_used := true |>)) with
    (nid (n <| m_used := true |> <| m_size := size |>)).
  apply wp_deref_at; [done|]. wp_step. wp_step; [apply Z.eqb_refl|].
  wp_step. apply wp_memset_if_wanted. wp_step. apply HQ1.
Qed.

Lemma alloc_coalesced l1 n l2 pre i size a r :
  coalesced (l1 ++ n :: l2) -> m_used n = false -> coalesced r ->
  (pre = [] \/ exists k, pre = [k] /\ m_used k = false) ->
  coalesced (l1 ++ pre ++ MkNode i size true a :: r).
Proof.
  intros H Hu Hr Hpre. destruct Hpre as [->|(k & -> & Hk)]; simpl.
  - eapply coalesced_replace; [exact H|left; auto|]. simpl. split; [done|done].
  - eapply coalesced_replace; [exact H|left; congruence|]. simpl. by split_and!.
Qed.

(** A refused allocation leaves the blocks and the memory alone; when nothing
    had to be skipped it leaves the whole pool alone. *)
Record refused_post (s s' : smstate) (off : Z) : Prop := {
  rp_ok : pool_ok (sm_pool s');
  rp_blocks : blocks (nodes_of s') = blocks (nodes_of s);
  rp_mem : sm_mem s' = sm_mem s;
  rp_same : off = 0 -> same_pool s s';
}.

Lemma head_used_free_head l : head_used l ->
  free_head l = 0 /\ drop_free l = l /\ forall fr, gap_id fr l = fr.
Proof. destruct l as [|n l]; simpl; [done|]. by intros ->. Qed.

Lemma alloc_post_intro sz av fl l1 n l2 c u fr m cs b e pre i size a gap fr' fr'' cs' :
  let s := MkSm (MkPool sz av fl (l1 ++ n :: l2) c u fr) m cs in
  let l' := l1 ++ pre ++ MkNode i size true a :: regap fr' l2 (a + size) gap in
  nodes_ok b e fr (l1 ++ n :: l2) -> coalesced (l1 ++ n :: l2) ->
  sz = e - b -> b < e -> av = free_bytes (l1 ++ n :: l2) -> m_used n = false ->
  0 < size -> mem_area n <= a -> a + size <= mem_area n + m_size n ->
  (pre = [] \/ exists k, pre = [k] /\ m_used k = false) ->
  nodes_ok b e fr'' l' -> free_bytes pre + gap + size = m_size n + free_head l2 ->
  alloc_post s (MkSm (MkPool sz (av - size) fl l' c u fr'')
    (if Z.land fl SMFLG_NOMEMSET =? 0 then mem_set m a 0 size else m) cs') i a size.
Proof.
  intros s l' Hok Hc Hsz Hbe Hav Hu Hpos Ha1 Ha2 Hpre Hok' Hgap.
  assert (coalesced l2) as Hc2.
  { apply coalesced_app in Hc as [_ Hc]. apply Hc. }
  assert (blocks pre = []) as Hbp.
  { destruct Hpre as [->|(k & -> & Hk)]; simpl; by rewrite ?Hk. }
  assert (forall x, x ∈ l1 ++ n :: l2 -> m_used x = true -> x ∈ l1 \/ x ∈ l2) as Hin.
  { intros x Hx Hxu. rewrite elem_of_app, elem_of_cons in Hx.
    destruct Hx as [?|[->|?]]; [auto|congruence|auto]. }
  split; unfold s, l', nodes_of; simpl; try done.
  - eapply pool_ok_intro; eauto.
    rewrite Hav, !free_bytes_app. simpl. rewrite free_bytes_regap, Hu. lia.
  - eapply alloc_coalesced; eauto using coalesced_regap.
  - rewrite !blocks_app. simpl. rewrite blocks_regap, Hu, Hbp. simpl.
    by rewrite Permutation_middle.
  - rewrite !elem_of_app, elem_of_cons. auto.
  - intros x Hx Hxu. rewrite !elem_of_app, elem_of_cons.
    destruct (Hin x Hx Hxu); [auto|]. right. right. right. by apply used_regap.
  - exists n. rewrite elem_of_app, elem_of_cons. auto.
  - by rewrite !(base_addr_tiles _ _ _ _ _ _ _ b e) by (done || apply no_tiles in Hok, Hok'; done).
Qed.

(** Taking [n2], the upper part of the free node [n] after [off] bytes of it
    were split off as [n1]. *)
Lemma wp_carve_tail sz av fl l1 n l2 c u fr m cs fr1 i cs1 off size b e
    (Q : option nat -> smstate -> Prop) :
  let s := MkSm (MkPool sz av fl (l1 ++ n :: l2) c u fr) m cs in
  let n1 := n <| m_size := off |> in
  let n2 := MkNode i (m_size n - off) false (mem_area n + off) in
  nodes_ok b e fr (l1 ++ n :: l2) -> nodes_ok b e fr1 (l1 ++ n1 :: n2 :: l2) ->
  coalesced (l1 ++ n :: l2) -> sz = e - b -> b < e -> av = free_bytes (l1 ++ n :: l2) ->
  m_used n = false -> 0 < off -> 0 < size -> off + size <= m_size n ->
  (forall i s', alloc_post s s' i (mem_area n + off) size -> Q (Some i) s') ->
  (may_refuse c -> forall s', refused_post s s' off -> Q None s') ->
  wp (sm_take cb i size)
     (MkSm (MkPool sz av fl (l1 ++ n1 :: n2 :: l2) c u fr1) m cs1) Q.
Proof.
  intros s n1 n2 Hok Hok1 Hc Hsz Hbe Hav Hu Hoff Hpos Hfit HQ1 HQ2.
  pose proof (coalesced_app _ _ Hc) as [_ [Hh Hc2]].
  destruct (head_used_free_head _ (Hh Hu)) as (Hf0 & _ & _).
  assert (l1 ++ n1 :: n2 :: l2 = (l1 ++ [n1]) ++ n2 :: l2) as El by by rewrite <- app_assoc.
  rewrite El in *. change i with (nid n2).
  assert (av = free_bytes ((l1 ++ [n1]) ++ n2 :: l2)) as Hav1.
  { rewrite Hav, !free_bytes_app. simpl. rewrite Hu. lia. }
  eapply (wp_sm_take _ _ _ _ n2); [exact Hok1|done|done|done|simpl; lia| |].
  - intros cs'. rewrite <- app_assoc. apply HQ1.
    eapply (alloc_post_intro _ _ _ _ _ _ _ _ _ _ _ b e [n1]); eauto; try lia.
    + change (nodes_ok b e (S fr1) (l1 ++ [n1] ++ MkNode (nid n2) size true (mem_area n2) ::
        regap fr1 l2 (mem_area n2 + size) (m_size n2 + free_head l2 - size))).
      rewrite app_assoc. by eapply nodes_ok_truncate; [exact Hok1|simpl; lia|..].
    + simpl. rewrite Hu. lia.
  - intros Hr cs'. apply HQ2; [done|]. split; unfold nodes_of; simpl; try done.
    + by eapply pool_ok_intro.
    + rewrite !blocks_app. simpl. rewrite Hu. by rewrite app_nil_r.
    + lia.
Qed.

Lemma wp_carve sz av fl l1 n l2 c u fr m cs off size b e (Q : option nat -> smstate -> Prop) :
  let s := MkSm (MkPool sz av fl (l1 ++ n :: l2) c u fr) m cs in
  nodes_ok b e fr (l1 ++ n :: l2) -> coalesced (l1 ++ n :: l2) ->
  sz = e - b -> b < e -> av = free_bytes (l1 ++ n :: l2) -> m_used n = false ->
  0 <= off -> 0 < size -> off + size <= m_size n ->
  (forall i s', alloc_post s s' i (mem_area n + off) size -> Q (Some i) s') ->
  (may_refuse c -> forall s', refused_post s s' off -> Q None s') ->
  wp (let! mn := sm_skip (nid n) off size in sm_take cb mn size) s Q.
Proof.
  intros s Hok Hc Hsz Hbe Hav Hu Hoff Hpos Hfit HQ1 HQ2.
  pose proof (coalesced_app _ _ Hc) as [_ [Hh Hc2]].
  destruct (head_used_free_head _ (Hh Hu)) as (Hf0 & Hd & Hg).
  pose proof (NoDup_mid _ _ _ (no_nodup _ _ _ _ Hok)) as Hi.
  unfold s. wp_step. unfold sm_skip. destruct (Z.eqb_spec off 0) as [->|Hne].
  - wp_step. eapply wp_sm_take; [exact Hok|done..|lia| |].
    + intros cs'. apply HQ1. rewrite Z.add_0_r.
      eapply (alloc_post_intro _ _ _ _ _ _ _ _ _ _ _ b e []); eauto; try (simpl; lia).
      by eapply nodes_ok_truncate; [exact Hok|lia|..].
    + intros Hr cs'. apply HQ2; [done|]. split; simpl; try done.
      by eapply pool_ok_intro.
  - pose proof (no_tiles _ _ _ _ Hok) as Ht. pose proof (no_end _ _ _ _ Hok).
    pose proof (no_base _ _ _ _ Hok). apply tiles_app in Ht as (k & Ht1 & (Hk & Hp & Ht2)).
    pose proof (tiles_le _ _ _ Ht1). pose proof (tiles_le _ _ _ Ht2).
    pose proof (nodes_ok_truncate b e fr l1 n (n <| m_size := off |>) l2 off
                  Hok ltac:(lia) ltac:(done) ltac:(done) ltac:(done)) as Hok1.
    wp_step. nowrap. eapply wp_mntruncate; eauto; [lia|].
    rewrite Hf0, Z.add_0_r in *. unfold regap in *.
    rewrite (proj2 (Z.eqb_neq _ _)) in * by lia. rewrite Hd, Hg in *.
    set (n1 := n <| m_size := off |>) in *. set (n2 := MkNode fr (m_size n - off) false _) in *.
    wp_step. change (nid n) with (nid n1).
    apply wp_next_of; [done|]. cbn [head hd_error]. cbv iota. wp_step.
    wp_step; [simpl; apply Z.leb_le; lia|]. wp_step.
    eapply wp_carve_tail; [exact Hok|exact Hok1|done..|lia|lia|lia|done|done].
Qed.

(** ** Searching and alignment *)

Lemma smfind_free_area_Some align size l n :
  smfind_free_area align size l = Some n ->
  n ∈ l /\ m_used n = false /\ u64 (size + align_delta (mem_area n) align) <= m_size n.
Proof.
  intros H. induction l as [|m l IH]; simpl in *; [done|]. rewrite elem_of_cons.
  destruct (m_used m) eqn:E; simpl in *; [destruct (IH H) as (? & ? & ?); auto|].
  destruct (Z.leb_spec (u64 (size + align_delta (mem_area m) align)) (m_size m)).
  - injection H as <-. auto.
  - destruct (IH H) as (? & ? & ?). auto.
Qed.

Lemma smfind_free_area_None align size l n :
  smfind_free_area align size l = None -> n ∈ l -> m_used n = false ->
  m_size n < u64 (size + align_delta (mem_area n) align).
Proof.
  induction l as [|m l IH]; simpl; [by rewrite elem_of_nil|].
  destruct (m_used m) eqn:E; simpl; rewrite elem_of_cons.
  - intros H [->|]; [congruence|auto].
  - destruct (Z.leb_spec (u64 (size + align_delta (mem_area m) align)) (m_size m)); [done|].
    intros H' [->|]; auto.
Qed.

Lemma lor_ones a k : 0 <= k -> Z.lor a (Z.ones k) = a - a mod 2 ^ k + Z.ones k.
Proof.
  intros Hk.
  assert (Z.land (Z.ldiff a (Z.ones k)) (Z.ones k) = 0) as H0.
  { apply Z.bits_inj'. intros i Hi. rewrite Z.land_spec, Z.ldiff_spec, Z.bits_0.
    destruct (Z.testbit a i), (Z.testbit (Z.ones k) i); done. }
  assert (Z.lor a (Z.ones k) = Z.ldiff a (Z.ones k) + Z.ones k) as ->.
  { rewrite (Z.add_nocarry_lxor _ _ H0), (Z.lxor_lor _ _ H0).
    apply Z.bits_inj'. intros i Hi. rewrite !Z.lor_spec, Z.ldiff_spec.
    destruct (Z.testbit a i), (Z.testbit (Z.ones k) i); done. }
  rewrite Z.ldiff_ones_r, Z.shiftl_mul_pow2, Z.shiftr_div_pow2 by done.
  pose proof (Z.div_mod a (2 ^ k)). lia.
Qed.

Lemma align_delta_spec a k :
  0 <= a < 2 ^ 32 -> 0 <= k <= 31 -> align_delta a (2 ^ k - 1) = (- a) mod 2 ^ k.
Proof.
  intros Ha Hk. unfold align_delta.
  pose proof (Z.pow_le_mono_r 2 k 31). pose proof (Z.pow_pos_nonneg 2 k).
  pose proof (Z.mod_pos_bound a (2 ^ k)).
  replace (2 ^ k - 1) with (Z.ones k) by (rewrite Z.ones_equiv; lia).
  rewrite lor_ones by lia. rewrite Z.ones_equiv at 1.
  replace (a - a mod 2 ^ k + Z.pred (2 ^ k) - a + 1) with (2 ^ k - a mod 2 ^ k) by lia.
  nowrap. rewrite Z.land_ones by lia.
  destruct (Z.eq_dec (a mod 2 ^ k) 0) as [E|E].
  - rewrite E, Z.sub_0_r, Z_mod_same_full. symmetry. apply Z_mod_zero_opp_full, E.
  - rewrite (Z_mod_nz_opp_full a) by done. apply Z.mod_small. lia.
Qed.

Lemma align_delta_aligned a k : 0 <= k -> (a + (- a) mod 2 ^ k) mod 2 ^ k = 0.
Proof.
  intros Hk. pose proof (Z.pow_pos_nonneg 2 k). rewrite Zplus_mod_idemp_r.
  replace (a + - a) with 0 by lia. apply Z.mod_0_l. lia.
Qed.

Lemma is_pow2_pow k : 0 <= k -> is_pow2 (2 ^ k) = true.
Proof.
  intros Hk. unfold is_pow2. pose proof (Z.pow_pos_nonneg 2 k).
  rewrite (proj2 (Z.ltb_lt _ _)) by lia. simpl. apply Z.eqb_eq.
  replace (2 ^ k - 1) with (Z.ones k) by (rewrite Z.ones_equiv; lia).
  rewrite Z.land_ones by lia. apply Z_mod_same_full.
Qed.

(** ** Bottom-up allocation *)

Lemma pow2_mask k : 0 <= k <= 31 -> u32 (2 ^ k) = 2 ^ k /\ u64 (2 ^ k - 1) = 2 ^ k - 1.
Proof.
  intros Hk. pose proof (Z.pow_le_mono_r 2 k 31). pose proof (Z.pow_pos_nonneg 2 k).
  by split; nowrap.
Qed.

Lemma wp_sm_alloc_aligned k size s (Q : option nat -> smstate -> Prop) :
  pool_ok (sm_pool s) -> coalesced (nodes_of s) -> 0 <= k <= 31 -> 0 <= size < 2 ^ 32 ->
  (forall i a s', 0 < size -> alloc_post s s' i a size -> a mod 2 ^ k = 0 -> Q (Some i) s') ->
  (forall s', same_pool s s' -> size = 0 \/ ~ fits_aligned k size (nodes_of s) -> Q None s') ->
  (forall s' off, may_refuse (mp_commit (sm_pool s)) -> refused_post s s' off ->
     (k = 0 -> off = 0) -> Q None s') ->
  wp (sm_alloc_aligned cb (2 ^ k) size) s Q.
Proof.
  intros Hok Hc Hk Hsz HQ1 HQ2 HQ3. destruct (pow2_mask k Hk) as [Hp1 Hp2].
  destruct s as [[sz av fl l c u fr] m cs]. unfold nodes_of in *. simpl in *.
  destruct (pool_ok_elim _ _ _ _ _ _ _ Hok) as (b & e & Hn & Hse & Hbe & Hav & _).
  unfold sm_alloc_aligned, truth. destruct (Z.eqb_spec size 0) as [->|Hnz]; simpl.
  { wp_step. apply wp_log_call. wp_step. apply HQ2; [done|by left]. }
  wp_step. wp_step; [rewrite Hp1; apply is_pow2_pow; lia|]. rewrite Hp2.
  wp_step. wp_step. simpl.
  assert (forall n, n ∈ l -> 0 <= mem_area n < 2 ^ 32) as Hrng.
  { intros n Hin. apply list_elem_of_split in Hin as (l1 & l2 & ->).
    pose proof (no_tiles _ _ _ _ Hn) as Ht. pose proof (no_end _ _ _ _ Hn).
    pose proof (no_base _ _ _ _ Hn). apply tiles_app in Ht as (x & Ht1 & (Hx & Hp & Ht2)).
    pose proof (tiles_le _ _ _ Ht1). pose proof (tiles_le _ _ _ Ht2). lia. }
  assert (forall n, n ∈ l -> align_delta (mem_area n) (2 ^ k - 1) = (- mem_area n) mod 2 ^ k /\
      0 <= (- mem_area n) mod 2 ^ k < 2 ^ 31) as Hdelta.
  { intros n Hin. rewrite align_delta_spec by auto. split; [done|].
    pose proof (Z.pow_le_mono_r 2 k 31). pose proof (Z.pow_pos_nonneg 2 k).
    pose proof (Z.mod_pos_bound (- mem_area n) (2 ^ k)). lia. }
  destruct (smfind_free_area (2 ^ k - 1) size l) as [n|] eqn:Hf.
  - apply smfind_free_area_Some in Hf as (Hin & Hu & Hfit).
    destruct (Hdelta n Hin) as [Hd Hd']. rewrite Hd in *.
    rewrite u64_small in Hfit by lia. rewrite (i32_small ((- mem_area n) mod 2 ^ k)) by lia.
    apply list_elem_of_split in Hin as (l1 & l2 & ->).
    eapply (wp_carve _ _ _ l1 n l2); try done; try lia.
    + intros i s' Hs'. eapply HQ1; [lia|exact Hs'|]. apply align_delta_aligned. lia.
    + intros Hr s' Hs'. eapply HQ3; [done|exact Hs'|]. intros ->. apply Z.mod_1_r.
  - wp_step. apply wp_do_smerror; [apply oom_pr_ok|]. intros cs'. wp_step.
    apply HQ2; [done|]. right. intros (n & Hin & Hu & Hfit).
    pose proof (smfind_free_area_None _ _ _ _ Hf Hin Hu) as Hlt.
    destruct (Hdelta n Hin) as [Hd Hd']. rewrite Hd in Hlt.
    rewrite u64_small in Hlt by lia. lia.
Qed.

Lemma wp_area_or_fail_Some s s' i a size (Q : Z -> smstate -> Prop) :
  alloc_post s s' i a size -> Q a s' -> wp (area_or_fail (Some i)) s' Q.
Proof.
  intros [] HQ. unfold area_or_fail. wp_step.
  change i with (nid (MkNode i size true a)). apply wp_deref; [|done|by wp_step].
  eapply no_nodup, po_nodes. done.
Qed.

(** ** What the entry points promise *)

(** One abstract allocation step. *)
Record heap_alloc (s s' : smstate) (a size : Z) : Prop := {
  ha_ok : pool_ok (sm_pool s') /\ coalesced (nodes_of s');
  ha_map : allocated s' = <[a := size]> (allocated s);
  ha_fresh : allocated s !! a = None;
  ha_disjoint : disjoint_from a size (allocated s);
  ha_range : smget_base_addr (sm_pool s) <= a /\
             a + size <= smget_base_addr (sm_pool s) + mp_size (sm_pool s);
  ha_avail : smget_free_space (sm_pool s') = smget_free_space (sm_pool s) - size;
  ha_geometry : smget_base_addr (sm_pool s') = smget_base_addr (sm_pool s) /\
                mp_size (sm_pool s') = mp_size (sm_pool s) /\
                mp_commit (sm_pool s') = mp_commit (sm_pool s);
  ha_frame : forall x, ~ a <= x < a + size -> sm_mem s' x = sm_mem s x;
  ha_zero : Z.land (mp_flags (sm_pool s)) SMFLG_NOMEMSET = 0 ->
            forall x, a <= x < a + size -> sm_mem s' x = 0;
}.

Lemma alloc_post_heap s s' i a size :
  pool_ok (sm_pool s) -> 0 < size -> alloc_post s s' i a size ->
  heap_alloc s s' a size /\ a <> SM_FAILED.
Proof.
  intros Hok Hpos H. destruct (allocated_insert s s' a size (ap_ok _ _ _ _ _ H)
    (ap_blocks _ _ _ _ _ H)) as (H1 & H2 & H3).
  assert ((a, size) ∈ blocks (nodes_of s')) as Hin.
  { rewrite (ap_blocks _ _ _ _ _ H). left. }
  pose proof (blocks_range _ _ _ _ _ (pool_ok_tiles _ (ap_ok _ _ _ _ _ H)) Hin) as Hr.
  rewrite (ap_base _ _ _ _ _ H), (ap_size _ _ _ _ _ H) in Hr.
  pose proof (no_end _ _ _ _ (po_nodes _ Hok)). split; [|unfold SM_FAILED; lia].
  destruct H. split; try done; try lia.
  - intros x Hx. rewrite ap_mem0. destruct (_ =? 0); [|done]. unfold mem_set.
    destruct (Z.leb_spec a x), (Z.ltb_spec x (a + size)); simpl; lia || done.
  - intros Hfl x Hx. rewrite ap_mem0, Hfl. simpl. unfold mem_set.
    rewrite (proj2 (Z.leb_le _ _)), (proj2 (Z.ltb_lt _ _)) by lia. done.
Qed.

(** Outcome of an allocation request that can be served when [fits] holds. *)
Definition alloc_outcome (s : smstate) (size : Z) (fits : Prop) (good : Z -> Prop)
    (a : Z) (s' : smstate) : Prop :=
  (a <> SM_FAILED /\ 0 < size /\ good a /\ heap_alloc s s' a size) \/
  (a = SM_FAILED /\ same_pool s s' /\ (size = 0 \/ ~ fits)) \/
  (a = SM_FAILED /\ may_refuse (mp_commit (sm_pool s)) /\ exists off, refused_post s s' off).

Lemma wp_smalloc_aligned k size s :
  pool_ok (sm_pool s) -> coalesced (nodes_of s) -> 0 <= k <= 31 -> 0 <= size < 2 ^ 32 ->
  wp (smalloc_aligned cb (2 ^ k) size) s
     (alloc_outcome s size (fits_aligned k size (nodes_of s)) (fun a => a mod 2 ^ k = 0)).
Proof.
  intros Hok Hc Hk Hsz. unfold smalloc_aligned. wp_step.
  apply wp_sm_alloc_aligned; try done.
  - intros i a s' Hpos Hp Ha. destruct (alloc_post_heap _ _ _ _ _ Hok Hpos Hp).
    unfold aligned_or_fail. wp_step. change i with (nid (MkNode i size true a)).
    apply wp_deref; [eapply no_nodup, po_nodes, Hp|apply Hp|].
    wp_step. wp_step; [|wp_step; left; by split_and!].
    destruct (pow2_mask k Hk) as [_ ->]. simpl.
    replace (2 ^ k - 1) with (Z.ones k) by (rewrite Z.ones_equiv; lia).
    rewrite Z.land_ones by lia. by apply Z.eqb_eq.
  - intros s' Hs Hn. apply wp_ret. right; left. done.
  - intros s' off Hr Hp _. apply wp_ret. right; right. eauto.
Qed.

Lemma wp_smalloc size s :
  pool_ok (sm_pool s) -> coalesced (nodes_of s) -> 0 <= size < 2 ^ 32 ->
  wp (smalloc cb size) s (fun a s' =>
     (a <> SM_FAILED /\ 0 < size /\ heap_alloc s s' a size) \/
     (a = SM_FAILED /\ same_pool s s' /\
        (size = 0 \/ ~ fits_aligned 0 size (nodes_of s) \/ may_refuse (mp_commit (sm_pool s))))).
Proof.
  intros Hok Hc Hsz. unfold smalloc, sm_alloc_mn. wp_step. change 1 with (2 ^ 0) at 1.
  apply wp_sm_alloc_aligned; try done.
  - intros i a s' Hpos Hp Ha. destruct (alloc_post_heap _ _ _ _ _ Hok Hpos Hp).
    eapply wp_area_or_fail_Some; [done|]. left. by split_and!.
  - intros s' Hs Hn. apply wp_ret. right. split_and!; [done|done|]. tauto.
  - intros s' off Hr Hp Hoff. apply wp_ret. right. split_and!; [done| |tauto].
    apply (rp_same _ _ _ Hp). auto.
Qed.

End with_cb.
