(* ===== verification/SmallocPlace.v ===== *)
(** * smalloc: allocation at a fixed address and from the top

    Correctness of [smalloc_fixed], [smalloc_topdown] and
    [smalloc_aligned_topdown]. *)

From stdpp Require Import base numbers list gmap.
From Stdlib Require Import ZArith Lia.
From S2P Require Import Prelude Smalloc SmallocInv SmallocAlloc.

Local Open Scope Z_scope.

(** ** Fixed address *)

Definition fits_fixed (ptr size : Z) (l : list memnode) : Prop :=
  ptr <> 0 /\ exists n, n ∈ l /\ m_used n = false /\
    mem_area n <= ptr /\ ptr + size <= mem_area n + m_size n.

Lemma find_mn_at_spec b l e ptr :
  tiles b l e -> 0 <= b -> e < 2 ^ 32 ->
  match find_mn_at ptr l with
  | Some n => n ∈ l /\ mem_area n <= ptr < mem_area n + m_size n
  | None => forall n, n ∈ l -> ~ mem_area n <= ptr < mem_area n + m_size n
  end.
Proof.
  revert b. induction l as [|m l IH]; simpl; intros b; [by intros; rewrite elem_of_nil in *|].
  intros (Ha & Hp & Ht) Hb He. pose proof (tiles_le _ _ _ Ht).
  assert (forall n, n ∈ l -> b + m_size m <= mem_area n) as Hl.
  { intros n Hin. apply list_elem_of_split in Hin as (l1 & l2 & ->).
    apply tiles_app in Ht as (x & Ht1 & (Hx & _)). apply tiles_le in Ht1. lia. }
  destruct (Z.ltb_spec ptr (mem_area m)).
  { intros n Hin. rewrite elem_of_cons in Hin. destruct Hin as [->|Hin]; [lia|].
    specialize (Hl _ Hin). lia. }
  nowrap. destruct (Z.ltb_spec ptr (mem_area m + m_size m)).
  { rewrite elem_of_cons. split; [by left|lia]. }
  specialize (IH _ Ht ltac:(lia) He). destruct (find_mn_at ptr l) as [n|].
  - rewrite elem_of_cons. destruct IH. auto.
  - intros n Hin. rewrite elem_of_cons in Hin. destruct Hin as [->|Hin]; [lia|auto].
Qed.

(** Two nodes that share an address are the same node. *)
Lemma tiles_inj b l e n1 n2 x :
  tiles b l e -> n1 ∈ l -> n2 ∈ l ->
  mem_area n1 <= x < mem_area n1 + m_size n1 ->
  mem_area n2 <= x < mem_area n2 + m_size n2 -> n1 = n2.
Proof.
  intros Ht H1 H2. revert b Ht. induction l as [|m l IH]; intros b; [by rewrite elem_of_nil in H1|].
  simpl. intros (Ha & Hp & Ht) Hx1 Hx2.
  assert (forall n, n ∈ l -> b + m_size m <= mem_area n) as Hl.
  { intros n Hin. apply list_elem_of_split in Hin as (l1 & l2 & ->).
    apply tiles_app in Ht as (y & Ht1 & (Hy & _)). apply tiles_le in Ht1. lia. }
  rewrite elem_of_cons in H1, H2. destruct H1 as [->|H1], H2 as [->|H2]; [done|..|eauto].
  - specialize (Hl _ H2). lia.
  - specialize (Hl _ H1). lia.
Qed.

Lemma tiles_elem b l e n : tiles b l e -> n ∈ l ->
  b <= mem_area n /\ 0 < m_size n /\ mem_area n + m_size n <= e.
Proof.
  intros Ht Hin. apply list_elem_of_split in Hin as (l1 & l2 & ->).
  apply tiles_app in Ht as (x & Ht1 & (Hx & Hp & Ht2)).
  apply tiles_le in Ht1, Ht2. lia.
Qed.

(** ** Top-down *)

(** Upper limit of a block carved from the top of [n], and its start. *)
Definition ceiling (top : Z) (n : memnode) : Z :=
  let e := mem_area n + m_size n in if top =? SM_FAILED then e else Z.min e top.

Definition topdown_start (k top size : Z) (n : memnode) : Z :=
  let x := ceiling top n - size in x - x mod 2 ^ k.

Definition topdown_cand (k top size : Z) (n : memnode) : Prop :=
  m_used n = false /\ size <= m_size n /\ size <= ceiling top n /\
  mem_area n <= topdown_start k top size n.

Definition fits_topdown (k top size : Z) (l : list memnode) : Prop :=
  exists n, n ∈ l /\ topdown_cand k top size n.

Lemma land_not64 x k :
  0 <= x < 2 ^ 64 -> 0 <= k <= 31 -> Z.land x (not64 (2 ^ k - 1)) = x - x mod 2 ^ k.
Proof.
  intros Hx Hk. unfold not64, u64.
  replace (2 ^ k - 1) with (Z.ones k) by (rewrite Z.ones_equiv; lia).
  rewrite <- Z.land_ones, (Z.land_comm (Z.lnot _)), Z.land_assoc, Z.land_ones by lia.
  rewrite (Z.mod_small x) by lia. rewrite <- Z.ldiff_land, Z.ldiff_ones_r by lia.
  rewrite Z.shiftl_mul_pow2, Z.shiftr_div_pow2 by lia.
  pose proof (Z.div_mod x (2 ^ k)). pose proof (Z.pow_pos_nonneg 2 k). lia.
Qed.

Lemma topdown_start_bounds k top size n :
  0 <= k -> topdown_start k top size n <= ceiling top n - size.
Proof.
  intros Hk. unfold topdown_start. pose proof (Z.pow_pos_nonneg 2 k).
  pose proof (Z.mod_pos_bound (ceiling top n - size) (2 ^ k)). lia.
Qed.

Lemma topdown_search b l e k top size mn1 :
  tiles b l e -> 0 <= b -> e < 2 ^ 32 -> 0 <= k <= 31 -> 0 <= size < 2 ^ 32 -> 0 <= top < 2 ^ 32 ->
  match smfind_free_area_topdown mn1 top (2 ^ k - 1) size l with
  | Some n => Some n = mn1 \/ (n ∈ l /\ topdown_cand k top size n)
  | None => mn1 = None /\ ~ fits_topdown k top size l
  end.
Proof.
  intros Ht Hb He Hk Hsz Htop. revert b mn1 Ht Hb.
  induction l as [|m l IH]; simpl; intros b mn1 Ht Hb.
  { destruct mn1; [by left|]. split; [done|]. intros (n & Hin & _). by rewrite elem_of_nil in Hin. }
  destruct Ht as (Ha & Hp & Ht). pose proof (tiles_le _ _ _ Ht).
  assert (topdown_min_top top m = ceiling top m) as Hmt.
  { unfold topdown_min_top, ceiling. by nowrap. }
  assert (ceiling top m <= mem_area m + m_size m /\ (top <> SM_FAILED -> ceiling top m <= top) /\
    0 <= ceiling top m) as Hceil.
  { unfold ceiling. destruct (Z.eqb_spec top SM_FAILED); lia. }
  (* skipping a node that is no candidate *)
  assert (forall mn1', (~ topdown_cand k top size m \/ mn1' = Some m) -> 
    match smfind_free_area_topdown mn1' top (2 ^ k - 1) size l with
    | Some n => Some n = mn1' \/ (n ∈ m :: l /\ topdown_cand k top size n)
    | None => mn1' = None /\ ~ fits_topdown k top size (m :: l)
    end) as Hskip.
  { intros mn1' Hnc. specialize (IH _ mn1' Ht ltac:(lia)).
    destruct (smfind_free_area_topdown mn1' top (2 ^ k - 1) size l) as [n|].
    - rewrite elem_of_cons. destruct IH as [?|[??]]; auto.
    - destruct IH as [-> IH]. split; [done|]. intros (n & Hin & Hcd).
      destruct Hnc as [Hnc|?]; [|done].
      rewrite elem_of_cons in Hin. destruct Hin as [->|Hin]; [done|]. apply IH. by exists n. }
  nowrap. destruct (Z.eqb_spec top SM_FAILED) as [Et|Et]; simpl.
  2: destruct (Z.ltb_spec top (mem_area m + size)) as [Hbrk|Hbrk]; simpl.
  2: { destruct mn1; [by left|]. split; [done|]. intros (n & Hin & _ & _ & _ & Hlo).
    pose proof (topdown_start_bounds k top size n ltac:(lia)).
    assert (ceiling top n <= top).
    { unfold ceiling. destruct (Z.eqb_spec top SM_FAILED); lia. }
    assert (mem_area m <= mem_area n); [|lia].
    pose proof (tiles_elem b (m :: l) e n) as Hel. simpl in Hel.
    destruct (Hel ltac:(auto) Hin). lia. }
  all: destruct (m_used m) eqn:Hu; simpl;
    [apply Hskip; left; intros (? & _); congruence|].
  all: destruct (Z.ltb_spec (m_size m) size);
    [apply Hskip; left; intros (_ & ? & _); lia|].
  all: rewrite Hmt; destruct (Z.ltb_spec (ceiling top m) size);
    [apply Hskip; left; intros (_ & _ & ? & _); lia|].
  all: nowrap; rewrite land_not64 by lia.
  all: change (ceiling top m - size - (ceiling top m - size) mod 2 ^ k) with
    (topdown_start k top size m).
  all: destruct (Z.leb_spec (mem_area m) (topdown_start k top size m));
    [|apply Hskip; left; intros (_ & _ & _ & ?); lia].
  all: specialize (Hskip (Some m) ltac:(auto));
    destruct (smfind_free_area_topdown (Some m) top (2 ^ k - 1) size l) as [n|];
    [|by destruct Hskip].
  all: right; destruct Hskip as [[= ->]|?]; [|done].
  all: rewrite elem_of_cons; split; [by left|]; by split_and!.
Qed.

Section with_cb.
Context (cb : list call -> Z -> Z -> bool).

Lemma wp_sm_alloc_fixed ptr size s (Q : option nat -> smstate -> Prop) :
  pool_ok (sm_pool s) -> coalesced (nodes_of s) -> 0 <= ptr < 2 ^ 32 -> 0 <= size < 2 ^ 32 ->
  (forall i s', 0 < size -> alloc_post s s' i ptr size -> Q (Some i) s') ->
  (forall s', same_pool s s' -> size = 0 \/ ~ fits_fixed ptr size (nodes_of s) -> Q None s') ->
  (forall s' off, may_refuse cb (mp_commit (sm_pool s)) -> refused_post s s' off -> Q None s') ->
  wp (sm_alloc_fixed cb ptr size) s Q.
Proof.
  intros Hok Hc Hptr Hsz HQ1 HQ2 HQ3.
  destruct s as [[sz av fl l c u fr] m cs]. unfold nodes_of in *. simpl in *.
  destruct (pool_ok_elim _ _ _ _ _ _ _ Hok) as (b & e & Hn & Hse & Hbe & Hav & _).
  pose proof (no_tiles _ _ _ _ Hn) as Ht. pose proof (no_end _ _ _ _ Hn) as He.
  pose proof (no_base _ _ _ _ Hn) as Hb.
  unfold sm_alloc_fixed, truth.
  destruct (Z.eqb_spec size 0) as [->|Hnz]; simpl.
  { wp_step. apply wp_log_call. wp_step. apply HQ2; [done|by left]. }
  destruct (Z.eqb_spec ptr 0) as [->|Hnp]; simpl.
  { wp_step. apply wp_log_call. wp_step. apply HQ2; [done|]. right. by intros [? _]. }
  wp_step. wp_step. simpl. pose proof (find_mn_at_spec b l e ptr Ht Hb He) as Hf.
  assert (forall n0, n0 ∈ l -> mem_area n0 <= ptr < mem_area n0 + m_size n0 ->
    m_used n0 = true \/ mem_area n0 + m_size n0 < ptr + size -> ~ fits_fixed ptr size l) as Hno.
  { intros n0 Hin0 Hx Hbad (_ & n & Hin & Hu & H1 & H2).
    assert (n = n0) as -> by (eapply tiles_inj; eauto; lia). destruct Hbad; [congruence|lia]. }
  destruct (find_mn_at ptr l) as [n|].
  - destruct Hf as [Hin Hx]. pose proof (tiles_elem _ _ _ _ Ht Hin).
    destruct (m_used n) eqn:Hu.
    { wp_step. apply wp_do_smerror; [done|]. intros cs'. wp_step.
      apply HQ2; [done|]. right. apply (Hno n); auto. }
    nowrap. wp_step. wp_step; [apply Z.leb_le; lia|]. nowrap.
    destruct (Z.ltb_spec (m_size n) (size + (ptr - mem_area n))).
    { wp_step. apply wp_do_smerror; [apply oom_pr_ok|]. intros cs'. wp_step.
      apply HQ2; [done|]. right. apply (Hno n); auto. right. lia. }
    apply list_elem_of_split in Hin as (l1 & l2 & ->).
    eapply (wp_carve _ _ _ _ l1 n l2); try done; try lia.
    + intros i s' Hs'. replace (mem_area n + (ptr - mem_area n)) with ptr in Hs' by lia.
      eapply HQ1; [lia|exact Hs'].
    + intros Hr s' Hs'. by eapply HQ3.
  - wp_step. apply wp_log_call. wp_step. apply HQ2; [done|]. right.
    intros (_ & n & Hin & Hu & H1 & H2). apply (Hf n Hin). lia.
Qed.

Lemma wp_smalloc_fixed ptr size s :
  pool_ok (sm_pool s) -> coalesced (nodes_of s) -> 0 <= ptr < 2 ^ 32 -> 0 <= size < 2 ^ 32 ->
  wp (smalloc_fixed cb ptr size) s
     (alloc_outcome cb s size (fits_fixed ptr size (nodes_of s)) (fun a => a = ptr)).
Proof.
  intros Hok Hc Hp Hsz. unfold smalloc_fixed. wp_step. apply wp_sm_alloc_fixed; try done.
  - intros i s' Hpos Ha. destruct (alloc_post_heap _ _ _ _ _ Hok Hpos Ha).
    wp_step. change i with (nid (MkNode i size true ptr)).
    apply wp_deref; [eapply no_nodup, po_nodes, Ha|apply Ha|].
    wp_step. wp_step; [apply Z.eqb_refl|]. wp_step. left. by split_and!.
  - intros s' Hs Hn. apply wp_ret. right; left. done.
  - intros s' off Hr Ha. apply wp_ret. right; right. eauto.
Qed.

(** Carving [size] bytes at [iptr] out of the free node [n], trimming the
    part above the block first. *)
Lemma wp_carve_topdown sz av fl l1 n l2 c u fr m cs iptr size b e
    (Q : option nat -> smstate -> Prop) :
  let s := MkSm (MkPool sz av fl (l1 ++ n :: l2) c u fr) m cs in
  let delta := mem_area n + m_size n - (iptr + size) in
  nodes_ok b e fr (l1 ++ n :: l2) -> coalesced (l1 ++ n :: l2) ->
  sz = e - b -> b < e -> av = free_bytes (l1 ++ n :: l2) -> m_used n = false ->
  mem_area n <= iptr -> 0 < size -> iptr + size <= mem_area n + m_size n ->
  (forall i s', alloc_post s s' i iptr size -> Q (Some i) s') ->
  (may_refuse cb c -> forall s' off, refused_post s s' off -> Q None s') ->
  wp ((if delta =? 0 then ret tt else mntruncate (nid n) (u64 (m_size n - delta))) ;;
      assert (mem_area n <=? iptr) ;;
      let! mn := sm_skip (nid n) (i32 (u32 (iptr - mem_area n))) size in
      sm_take cb mn size) s Q.
Proof.
  intros s delta Hok Hc Hsz Hbe Hav Hu Hlo Hpos Hhi HQ1 HQ2. unfold s.
  pose proof (no_tiles _ _ _ _ Hok) as Ht. pose proof (no_end _ _ _ _ Hok).
  pose proof (no_base _ _ _ _ Hok). pose proof (no_size _ _ _ _ Hok).
  apply tiles_app in Ht as (k & Ht1 & (Hk & Hp & Ht2)).
  pose proof (tiles_le _ _ _ Ht1). pose proof (tiles_le _ _ _ Ht2).
  pose proof (NoDup_mid _ _ _ (no_nodup _ _ _ _ Hok)) as Hi.
  pose proof (coalesced_app _ _ Hc) as [_ [Hh Hc2]].
  destruct (head_used_free_head _ (Hh Hu)) as (Hf0 & Hd & Hg). nowrap.
  set (off := iptr - mem_area n). replace iptr with (mem_area n + off) in * by lia.
  wp_step. destruct (Z.eqb_spec delta 0) as [E|E].
  { wp_step. wp_step. wp_step; [apply Z.leb_le; lia|]. subst delta.
    eapply wp_carve; try done; try lia. intros Hr s' Hs'. by eapply HQ2. }
  replace (m_size n - delta) with (off + size) by lia. nowrap.
  pose proof (nodes_ok_truncate b e fr l1 n (n <| m_size := off + size |>) l2 (off + size)
    Hok ltac:(lia) ltac:(done) ltac:(done) ltac:(done)) as Hok1.
  eapply wp_mntruncate; [exact Hok|done|lia|].
  rewrite Hf0 in *. unfold regap in *. rewrite (proj2 (Z.eqb_neq _ _)) in * by lia.
  rewrite Hd, Hg in *. wp_step. wp_step; [apply Z.leb_le; lia|]. wp_step.
  set (n1 := n <| m_size := off + size |>) in *. change (nid n) with (nid n1).
  set (g := MkNode fr (m_size n + 0 - (off + size)) false (mem_area n + (off + size))) in *.
  unfold sm_skip. destruct (Z.eqb_spec off 0) as [E0|E0].
  - wp_step. assert (av = free_bytes (l1 ++ n1 :: g :: l2)) as Hav1.
    { rewrite Hav, !free_bytes_app. simpl. rewrite Hu. lia. }
    eapply wp_sm_take; [exact Hok1|by split; [intros _; apply Hh|]|done|done|simpl; lia| |].
    + intros cs'. apply HQ1. unfold regap. simpl.
      replace (off + size + (m_size n + 0 - (off + size)) - size)
        with (m_size n - size) by lia.
      rewrite (proj2 (Z.eqb_neq _ _)) by lia. rewrite E0, Z.add_0_r.
      replace (MkNode fr (m_size n - size) false (mem_area n + size) :: l2)
        with (regap fr l2 (mem_area n + size) (m_size n - size))
        by (unfold regap; rewrite (proj2 (Z.eqb_neq _ _)), Hd, Hg by lia; done).
      eapply (alloc_post_intro _ _ _ _ _ _ _ _ _ _ _ b e []); eauto; try (simpl; lia).
      replace (m_size n - size) with (m_size n + free_head l2 - size) by lia.
      eapply nodes_ok_mono; [by eapply nodes_ok_truncate; [exact Hok|lia|..]|lia].
    + intros Hr cs'. apply (HQ2 Hr _ delta). split; unfold nodes_of; simpl; try done.
      * by eapply pool_ok_intro.
      * rewrite !blocks_app. simpl. by rewrite Hu.
  - wp_step. nowrap.
    pose proof (nodes_ok_truncate b e (S fr) l1 n1 (n <| m_size := off |>) (g :: l2) off
      Hok1 ltac:(simpl; lia) ltac:(done) ltac:(done) ltac:(done)) as Hok2.
    eapply wp_mntruncate; [exact Hok1|by split; [intros _; apply Hh|]|simpl; lia|].
    unfold regap in *. simpl in Hok2. cbn [free_head m_used gap_id drop_free g].
    replace (m_size n1 + m_size g - off) with (m_size n - off) by (simpl; lia).
    replace (off + size + (m_size n + 0 - (off + size)) - off) with (m_size n - off) in * by lia.
    rewrite (proj2 (Z.eqb_neq _ _)) in * by lia.
    wp_step. change (nid n1) with (nid (n1 <| m_size := off |>)).
    apply wp_next_of; [done|]. cbn [head hd_error]. cbv iota. wp_step.
    wp_step; [simpl; apply Z.leb_le; lia|]. wp_step.
    change (n1 <| m_size := off |>) with (n <| m_size := off |>).
    change (mem_area n1 + off) with (mem_area n + off). change (nid g) with fr.
    eapply wp_carve_tail; [exact Hok|exact Hok2|done..|lia|lia|lia|done|].
    intros Hr s' Hs'. by eapply HQ2.
Qed.

Lemma wp_sm_alloc_aligned_topdown k top size s (Q : option nat -> smstate -> Prop) :
  pool_ok (sm_pool s) -> coalesced (nodes_of s) -> 0 <= k <= 31 ->
  0 <= size < 2 ^ 32 -> 0 <= top < 2 ^ 32 ->
  (forall i s' n, 0 < size -> n ∈ nodes_of s -> topdown_cand k top size n ->
     alloc_post s s' i (topdown_start k top size n) size -> Q (Some i) s') ->
  (forall s', same_pool s s' -> size = 0 \/ ~ fits_topdown k top size (nodes_of s) -> Q None s') ->
  (forall s' off, may_refuse cb (mp_commit (sm_pool s)) -> refused_post s s' off -> Q None s') ->
  wp (sm_alloc_aligned_topdown cb top (2 ^ k) size) s Q.
Proof.
  intros Hok Hc Hk Hsz Htop HQ1 HQ2 HQ3. destruct (pow2_mask k Hk) as [Hp1 Hp2].
  destruct s as [[sz av fl l c u fr] m cs]. unfold nodes_of in *. simpl in *.
  destruct (pool_ok_elim _ _ _ _ _ _ _ Hok) as (b & e & Hn & Hse & Hbe & Hav & _).
  unfold sm_alloc_aligned_topdown, truth. destruct (Z.eqb_spec size 0) as [->|Hnz]; simpl.
  { wp_step. apply wp_log_call. wp_step. apply HQ2; [done|by left]. }
  wp_step. wp_step; [rewrite Hp1; apply is_pow2_pow; lia|]. rewrite Hp2.
  wp_step. wp_step. simpl. pose proof (no_tiles _ _ _ _ Hn) as Ht.
  pose proof (no_end _ _ _ _ Hn). pose proof (no_base _ _ _ _ Hn). pose proof (no_size _ _ _ _ Hn).
  pose proof (topdown_search b l e k top size None Ht) as Hsearch.
  destruct (smfind_free_area_topdown None top (2 ^ k - 1) size l) as [n|].
  - destruct Hsearch as [?|[Hin Hcand]]; try done. destruct (Hcand) as (Hu & Hs1 & Hs2 & Hs3).
    pose proof (tiles_elem _ _ _ _ Ht Hin).
    pose proof (topdown_start_bounds k top size n ltac:(lia)).
    assert (topdown_min_top top n = ceiling top n) as ->.
    { unfold topdown_min_top, ceiling. by nowrap. }
    assert (ceiling top n <= mem_area n + m_size n).
    { unfold ceiling. destruct (top =? SM_FAILED); lia. }
    nowrap. rewrite land_not64 by lia.
    change (ceiling top n - size - (ceiling top n - size) mod 2 ^ k) with
      (topdown_start k top size n).
    set (iptr := topdown_start k top size n) in *.
    rewrite (u32_small iptr), (u32_small (iptr + size)) by lia.
    rewrite (i32_u64 (mem_area n + m_size n - (iptr + size))) by lia.
    pose proof Hin as Hin'. apply list_elem_of_split in Hin as (l1 & l2 & ->).
    eapply wp_carve_topdown; try done; try lia.
    + intros i s' Hs'. eapply HQ1; [lia|exact Hin'|done|exact Hs'].
    + intros Hr s' off Hs'. by eapply HQ3.
  - destruct Hsearch as [_ Hnf]; try done.
    wp_step. apply wp_do_smerror; [apply oom_pr_ok|]. intros cs'. wp_step.
    apply HQ2; [done|]. by right.
Qed.

(** Where a top-down block may lie. *)
Definition below_top (top a size : Z) : Prop := top <> SM_FAILED -> a + size <= top.

Lemma topdown_start_good k top size n :
  0 <= k -> topdown_start k top size n mod 2 ^ k = 0 /\
  below_top top (topdown_start k top size n) size.
Proof.
  intros Hk. pose proof (Z.pow_pos_nonneg 2 k). split.
  - unfold topdown_start. rewrite Zminus_mod_idemp_r, Z.sub_diag. apply Z.mod_0_l. lia.
  - intros Hne. pose proof (topdown_start_bounds k top size n Hk).
    assert (ceiling top n <= top); [|lia].
    unfold ceiling. destruct (Z.eqb_spec top SM_FAILED); lia.
Qed.

Lemma wp_smalloc_aligned_topdown k top size s :
  pool_ok (sm_pool s) -> coalesced (nodes_of s) -> 0 <= k <= 31 ->
  0 <= size < 2 ^ 32 -> 0 <= top < 2 ^ 32 ->
  wp (smalloc_aligned_topdown cb top (2 ^ k) size) s
     (alloc_outcome cb s size (fits_topdown k top size (nodes_of s))
        (fun a => a mod 2 ^ k = 0 /\ below_top top a size)).
Proof.
  intros Hok Hc Hk Hsz Htop. unfold smalloc_aligned_topdown. wp_step.
  apply wp_sm_alloc_aligned_topdown; try done.
  - intros i s' n Hpos Hin Hcand Ha.
    destruct (alloc_post_heap _ _ _ _ _ Hok Hpos Ha).
    destruct (topdown_start_good k top size n) as [Hg1 Hg2]; [lia|].
    set (a := topdown_start k top size n) in *.
    unfold aligned_or_fail. wp_step. change i with (nid (MkNode i size true a)).
    apply wp_deref; [eapply no_nodup, po_nodes, Ha|apply Ha|].
    wp_step. wp_step; [|wp_step; left; by split_and!].
    destruct (pow2_mask k Hk) as [_ ->]. simpl.
    replace (2 ^ k - 1) with (Z.ones k) by (rewrite Z.ones_equiv; lia).
    rewrite Z.land_ones by lia. by apply Z.eqb_eq.
  - intros s' Hs Hn. apply wp_ret. right; left. done.
  - intros s' off Hr Hp. apply wp_ret. right; right. eauto.
Qed.

End with_cb.
