(* ===== verification/SmallocFree.v ===== *)
(** * smalloc: freeing

    [smfree] removes exactly the block it is given, coalesces the free areas
    around it and never fails an assertion; anything that is not the start of
    an allocated block is rejected without effect.  [smfree_all] terminates
    and leaves one free area. *)

From stdpp Require Import base numbers list gmap.
From Stdlib Require Import ZArith Lia.
From S2P Require Import Prelude Smalloc SmallocInv SmallocAlloc SmallocPlace.

Local Open Scope Z_scope.

Lemma find_loop_spec b l e ptr p0 :
  tiles b l e ->
  match find_loop p0 ptr l with
  | Some (p, n) => exists l1 l2, l = l1 ++ n :: l2 /\ mem_area n = ptr /\
      p = match last l1 with Some x => Some x | None => p0 end
  | None => forall n, n ∈ l -> mem_area n <> ptr
  end.
Proof.
  revert b p0. induction l as [|m l IH]; simpl; intros b p0.
  { intros _ n Hin. by rewrite elem_of_nil in Hin. }
  intros (Ha & Hp & Ht). destruct (Z.ltb_spec ptr (mem_area m)).
  { intros n Hin. rewrite elem_of_cons in Hin. destruct Hin as [->|Hin]; [lia|].
    pose proof (tiles_elem _ _ _ _ Ht Hin). lia. }
  destruct (Z.eqb_spec (mem_area m) ptr) as [E|E]; [by exists [], l|].
  specialize (IH _ (Some m) Ht). destruct (find_loop (Some m) ptr l) as [[p n]|].
  - destruct IH as (l1 & l2 & -> & E' & ->). exists (m :: l1), l2. split_and!; [done..|].
    rewrite last_cons. by destruct (last l1).
  - intros n Hin. rewrite elem_of_cons in Hin. destruct Hin as [->|]; auto.
Qed.

Definition unused_pool (s : smstate) : Prop := POOL_USED (sm_pool s) = false.

(** An unused pool has no block. *)
Lemma unused_blocks p : POOL_USED p = false -> blocks (mp_nodes p) = [].
Proof.
  unfold POOL_USED. destruct (mp_nodes p) as [|n l]; [done|].
  intros [Hu Hl]%orb_false_iff. apply bool_decide_eq_false in Hl.
  assert (l = []) as -> by (destruct l; [done|exfalso; by apply Hl]). simpl. by rewrite Hu.
Qed.

Lemma wp_find_mn ptr s (Q : option (option memnode * memnode) -> smstate -> Prop) :
  pool_ok (sm_pool s) ->
  (forall l1 n l2, nodes_of s = l1 ++ n :: l2 -> mem_area n = ptr -> Q (Some (last l1, n)) s) ->
  (forall s', same_pool s s' ->
     (forall n, n ∈ nodes_of s -> m_used n = true -> mem_area n <> ptr) -> Q None s') ->
  wp (find_mn ptr) s Q.
Proof.
  intros Hok HQ1 HQ2. unfold find_mn. wp_step. wp_step.
  destruct (POOL_USED (sm_pool s)) eqn:Hp; simpl.
  - wp_step. pose proof (find_loop_spec _ _ _ ptr None (pool_ok_tiles _ Hok)) as Hf.
    destruct (find_loop None ptr (mp_nodes (sm_pool s))) as [[p n]|].
    + destruct Hf as (l1 & l2 & El & Ha & ->). specialize (HQ1 l1 n l2 El Ha).
      by destruct (last l1).
    + apply HQ2; [done|]. auto.
  - wp_step. apply wp_log_call. wp_step. apply HQ2; [done|].
    intros n Hin Hu. apply unused_blocks in Hp. exfalso.
    apply list_elem_of_split in Hin as (l1 & l2 & El). unfold nodes_of in El.
    rewrite El, blocks_app in Hp. simpl in Hp. rewrite Hu in Hp. by destruct (blocks l1).
Qed.

(** Effect of freeing the node [n]. *)
Record free_post (s s' : smstate) (n : memnode) : Prop := {
  fp_ok : pool_ok (sm_pool s');
  fp_coalesced : coalesced (nodes_of s');
  fp_blocks : blocks (nodes_of s) ≡ₚ (mem_area n, m_size n) :: blocks (nodes_of s');
  fp_keep : forall x, x ∈ nodes_of s -> m_used x = true -> x <> n -> x ∈ nodes_of s';
  fp_base : smget_base_addr (sm_pool s') = smget_base_addr (sm_pool s);
  fp_size : mp_size (sm_pool s') = mp_size (sm_pool s);
  fp_avail : mp_avail (sm_pool s') = mp_avail (sm_pool s) + m_size n;
  fp_flags : mp_flags (sm_pool s') = mp_flags (sm_pool s);
  fp_cb : mp_commit (sm_pool s') = mp_commit (sm_pool s);
  fp_mem : sm_mem s' = sm_mem s;
}.

(** The merge with the successor: its free bytes join the node.  [pre] is
    what the code checks before the merge. *)
Lemma wp_merge_next_with (pre : memnode -> M smstate unit) sz av fl l1 n l2 c u fr m cs b e
    (Q : unit -> smstate -> Prop) :
  let n0 := n <| m_used := false |> in
  let n1 := MkNode (nid n) (m_size n + free_head l2) false (mem_area n) in
  let s := MkSm (MkPool sz av fl (l1 ++ n0 :: l2) c u fr) m cs in
  nodes_ok b e fr (l1 ++ n0 :: l2) -> coalesced l2 ->
  (forall x R, mem_area n <= mem_area x -> R tt s -> wp (pre x) s R) ->
  (forall fr', nodes_ok b e fr' (l1 ++ n1 :: drop_free l2) ->
     Q tt (MkSm (MkPool sz av fl (l1 ++ n1 :: drop_free l2) c u fr') m cs)) ->
  wp (match head l2 with
      | Some x =>
          if negb (m_used x) then
            pre x ;; mntruncate (nid n) (u64 (m_size n + m_size x))
          else ret tt
      | None => ret tt
      end) s Q.
Proof.
  intros n0 n1 s Hok Hc Hpre HQ. pose proof (no_tiles _ _ _ _ Hok) as Ht.
  pose proof (no_end _ _ _ _ Hok). pose proof (no_base _ _ _ _ Hok).
  apply tiles_app in Ht as (k & Ht1 & (Hk & Hp & Ht2)). simpl in Hk, Hp.
  pose proof (tiles_le _ _ _ Ht1).
  assert (free_head l2 = 0 -> drop_free l2 = l2 -> wp (ret tt) s Q) as Hnone.
  { intros Hf Hd. wp_step. assert (n1 = n0) as E1.
    { unfold n1, n0. rewrite Hf, Z.add_0_r. by destruct n. }
    rewrite E1, Hd in HQ. by apply HQ. }
  destruct l2 as [|x l2]; [by apply Hnone|]. change (head (x :: l2)) with (Some x). cbv iota.
  destruct (m_used x) eqn:Hx; simpl; [by apply Hnone; simpl; rewrite Hx|].
  simpl in Ht2. destruct Ht2 as (Hxa & Hxp & Ht2). pose proof (tiles_le _ _ _ Ht2).
  wp_step. apply Hpre; [lia|]. nowrap. change (nid n) with (nid n0).
  eapply wp_mntruncate; [exact Hok|done|simpl; rewrite Hx; lia|].
  assert (n1 = MkNode (nid n) (m_size n + m_size x) false (mem_area n)) as E1.
  { unfold n1. simpl. by rewrite Hx. }
  clearbody n1. subst n1.
  pose proof (nodes_ok_truncate b e fr l1 n0
    (MkNode (nid n) (m_size n + m_size x) false (mem_area n)) (x :: l2) (m_size n + m_size x) Hok)
    as Hok1.
  unfold regap in *. simpl in Hok1, HQ |- *. rewrite Hx in *.
  replace (m_size n + m_size x - (m_size n + m_size x)) with 0 in * by lia. simpl in *.
  apply HQ, Hok1; done || lia.
Qed.

Lemma free_post_intro sz av fl l1 n l2 c u fr m cs b e l' fr' cs' :
  nodes_ok b e fr (l1 ++ n :: l2) -> nodes_ok b e fr' l' -> coalesced l' ->
  sz = e - b -> b < e -> m_used n = true -> av = free_bytes (l1 ++ n :: l2) ->
  free_bytes l' = av + m_size n -> blocks l' = blocks l1 ++ blocks l2 ->
  (forall x, x ∈ l1 \/ x ∈ l2 -> m_used x = true -> x ∈ l') ->
  free_post (MkSm (MkPool sz av fl (l1 ++ n :: l2) c u fr) m cs)
            (MkSm (MkPool sz (av + m_size n) fl l' c u fr') m cs') n.
Proof.
  intros Hok Hok' Hc Hsz Hbe Hu Hav Hav' Hbl Hkeep.
  split; unfold nodes_of; simpl; try done.
  - by eapply pool_ok_intro.
  - rewrite Hbl, blocks_app. simpl. rewrite Hu. by rewrite Permutation_middle.
  - intros x. rewrite elem_of_app, elem_of_cons. intros Hx Hxu Hne.
    apply Hkeep; [|done]. destruct Hx as [?|[?|?]]; [auto|done|auto].
  - by rewrite !(base_addr_tiles _ _ _ _ _ _ _ b e)
      by (done || apply no_tiles in Hok, Hok'; done).
Qed.

Lemma used_drop_free l x : m_used x = true -> x ∈ l -> x ∈ drop_free l.
Proof. intros Hu Hin. apply (used_regap 0%nat l 0 0 x Hu) in Hin. done. Qed.

Lemma blocks_drop_free l : blocks (drop_free l) = blocks l.
Proof. apply (blocks_regap 0%nat l 0 0). Qed.

Lemma free_bytes_drop_free l : free_bytes (drop_free l) = free_bytes l - free_head l.
Proof. pose proof (free_bytes_regap 0%nat l 0 0) as H. unfold regap in H. simpl in H. lia. Qed.

(** The merge with the predecessor and the final uncommit. *)
Lemma wp_merge_prev sz av fl l1 n l2 c u fr m cs b e (Q : Z -> smstate -> Prop) :
  nodes_ok b e fr (l1 ++ n :: l2) -> m_used n = false -> head_used l2 -> coalesced l2 ->
  coalesced l1 ->
  (forall l' fr' cs', nodes_ok b e fr' l' -> coalesced l' ->
     free_bytes l' = free_bytes (l1 ++ n :: l2) -> blocks l' = blocks l1 ++ blocks l2 ->
     (forall x, x ∈ l1 \/ x ∈ l2 -> m_used x = true -> x ∈ l') ->
     Q 0 (MkSm (MkPool sz av fl l' c u fr') m cs')) ->
  wp (let! mn' := deref (nid n) in
      let! mn :=
        match last l1 with
        | Some p =>
            if negb (m_used p) then
              assert (mem_area p <=? mem_area mn') ;;
              mntruncate (nid p) (u64 (m_size p + m_size mn')) ;;
              deref (nid p)
            else ret mn'
        | None => ret mn'
        end in
      assert (negb (m_used mn)) ;;
      sm_uncommit (mem_area mn) (m_size mn) ;;
      ret 0) (MkSm (MkPool sz av fl (l1 ++ n :: l2) c u fr) m cs) Q.
Proof.
  intros Hok Hu Hh Hc2 Hc1 HQ.
  pose proof (NoDup_mid _ _ _ (no_nodup _ _ _ _ Hok)) as Hi.
  wp_step. apply wp_deref_at; [done|].
  assert (head_used (reverse l1) -> Q 0 (MkSm (MkPool sz av fl (l1 ++ n :: l2) c u fr) m cs) /\
    forall cs', Q 0 (MkSm (MkPool sz av fl (l1 ++ n :: l2) c u fr) m cs')) as Hstay.
  { intros Hr. assert (forall cs', Q 0 (MkSm (MkPool sz av fl (l1 ++ n :: l2) c u fr) m cs')) as H'.
    { intros cs'. apply HQ; try done.
      - apply coalesced_app_intro; [done|by split|by right].
      - rewrite blocks_app. simpl. by rewrite Hu.
      - intros x Hx Hxu. rewrite elem_of_app, elem_of_cons. tauto. }
    split; auto. }
  destruct l1 as [|p l0 _] using rev_ind.
  { simpl last. wp_step. wp_step. wp_step. wp_step; [by rewrite Hu|].
    wp_step. apply wp_sm_uncommit. intros cs'. wp_step. by apply Hstay. }
  rewrite last_snoc. rewrite reverse_snoc in Hstay. destruct (m_used p) eqn:Hp.
  { wp_step. simpl. wp_step. wp_step. wp_step; [by rewrite Hu|].
    wp_step. apply wp_sm_uncommit. intros cs'. wp_step. by apply Hstay. }
  clear Hstay. rewrite <- app_assoc in *. simpl in Hok, HQ |- *.
  pose proof (no_tiles _ _ _ _ Hok) as Ht. pose proof (no_end _ _ _ _ Hok).
  pose proof (no_base _ _ _ _ Hok). apply tiles_app in Ht as (k & Ht1 & Ht2).
  simpl in Ht2. destruct Ht2 as (Hpa & Hpp & Hna & Hnp & Ht2).
  pose proof (tiles_le _ _ _ Ht1). pose proof (tiles_le _ _ _ Ht2).
  wp_step. wp_step. wp_step; [apply Z.leb_le; lia|]. nowrap. wp_step.
  eapply wp_mntruncate; [exact Hok|by split|simpl; rewrite Hu; lia|].
  pose proof (nodes_ok_truncate b e fr l0 p (p <| m_size := m_size p + m_size n |>)
    (n :: l2) (m_size p + m_size n) Hok ltac:(simpl; rewrite Hu; lia)
    ltac:(done) ltac:(done) ltac:(done)) as Hok1.
  unfold regap in *. simpl in Hok1 |- *. rewrite Hu in *.
  replace (m_size p + m_size n - (m_size p + m_size n)) with 0 in * by lia. simpl in *.
  set (q := MkNode (nid p) (m_size p + m_size n) (m_used p) (mem_area p)) in *.
  change (nid p) with (nid q).
  apply wp_deref_at; [exact (NoDup_mid _ _ _ (no_nodup _ _ _ _ Hok1))|].
  wp_step. wp_step; [simpl; by rewrite Hp|]. wp_step. apply wp_sm_uncommit. intros cs'. wp_step.
  apply HQ; try done.
  - eapply (coalesced_replace _ p []); [exact Hc1|left; simpl; congruence|]. by split.
  - rewrite !free_bytes_app. simpl. rewrite Hp, Hu. lia.
  - rewrite !blocks_app. simpl. rewrite Hp. by rewrite app_nil_r.
  - intros x Hx Hxu. rewrite !elem_of_app, list_elem_of_singleton in Hx.
    rewrite elem_of_app, elem_of_cons. destruct Hx as [[? | ->]|?]; [auto|congruence|auto].
Qed.

Lemma tiles_addr_inj b l e n1 n2 :
  tiles b l e -> n1 ∈ l -> n2 ∈ l -> mem_area n1 = mem_area n2 -> n1 = n2.
Proof.
  intros Ht H1 H2 E. pose proof (tiles_elem _ _ _ _ Ht H1). pose proof (tiles_elem _ _ _ _ Ht H2).
  eapply (tiles_inj _ _ _ _ _ (mem_area n1)); eauto; lia.
Qed.

Lemma split_unique (l1 l2 k1 k2 : list memnode) n :
  NoDup (ids (l1 ++ n :: l2)) -> l1 ++ n :: l2 = k1 ++ n :: k2 -> k1 = l1 /\ k2 = l2.
Proof.
  intros Hn E. pose proof (split_at_app l1 n l2 (NoDup_mid _ _ _ Hn)) as H1.
  rewrite E in Hn, H1. rewrite (split_at_app k1 n k2 (NoDup_mid _ _ _ Hn)) in H1.
  by injection H1 as <- <-.
Qed.

Lemma wp_smfree_used s l1 n l2 (Q : Z -> smstate -> Prop) :
  pool_ok (sm_pool s) -> coalesced (nodes_of s) ->
  nodes_of s = l1 ++ n :: l2 -> m_used n = true ->
  (forall s', free_post s s' n -> Q 0 s') ->
  wp (smfree (mem_area n)) s Q.
Proof.
  intros Hok Hc El Hu HQ. unfold smfree.
  destruct s as [[sz av fl l c u fr] m cs]. unfold nodes_of in *. simpl in El, Hc. subst l.
  destruct (pool_ok_elim _ _ _ _ _ _ _ Hok) as (b & e & Hn & Hse & Hbe & Hav & _).
  pose proof (no_tiles _ _ _ _ Hn) as Ht. pose proof (no_end _ _ _ _ Hn).
  pose proof (no_base _ _ _ _ Hn). pose proof Ht as Ht0.
  apply tiles_app in Ht as (k & Ht1 & (Hk & Hp & Ht2)).
  pose proof (tiles_le _ _ _ Ht1). pose proof (tiles_le _ _ _ Ht2).
  pose proof (free_bytes_bound _ _ _ Ht1). pose proof (free_bytes_bound _ _ _ Ht2).
  pose proof (NoDup_mid _ _ _ (no_nodup _ _ _ _ Hn)) as Hi.
  pose proof (coalesced_app _ _ Hc) as [Hc1 [_ Hc2]].
  assert (av = free_bytes l1 + free_bytes l2) as Hav'.
  { rewrite Hav, free_bytes_app. simpl. rewrite Hu. lia. }
  rewrite (proj2 (Z.eqb_neq _ _)) by (unfold SM_FAILED; lia).
  wp_step. apply wp_find_mn; [done| |].
  2: { intros s' _ Hno. exfalso. apply (Hno n); [|done|done].
       unfold nodes_of. simpl. rewrite elem_of_app, elem_of_cons. auto. }
  intros k1 n' k2 El Ha. unfold nodes_of in El. simpl in El.
  assert (n' = n) as ->.
  { eapply (tiles_addr_inj _ _ _ _ _ Ht0); [|rewrite elem_of_app, elem_of_cons; auto|done].
    rewrite El, elem_of_app, elem_of_cons. auto. }
  destruct (split_unique _ _ _ _ _ (no_nodup _ _ _ _ Hn) El) as [-> ->].
  rewrite Hu. simpl. wp_step. wp_step; [apply Z.ltb_lt; lia|].
  wp_step. apply wp_upd_avail. wp_step. wp_step. wp_step. nowrap.
  wp_step; [simpl; apply Z.leb_le; lia|].
  wp_step. apply wp_set_used; [done|]. wp_step.
  pose proof (nodes_ok_flip _ _ _ _ n (n <| m_used := false |>) _ Hn
    ltac:(done) ltac:(done) ltac:(done)) as Hn0.
  change (nid n) with (nid (n <| m_used := false |>)) at 1.
  apply wp_next_of; [done|]. wp_step.
  eapply (wp_merge_next_with (fun x => assert (mem_area n <=? mem_area x)));
    [exact Hn0|done|intros x R Hx HR; wp_step; [by apply Z.leb_le|done]|].
  intros fr' Hn1.
  set (n1 := MkNode (nid n) (m_size n + free_head l2) false (mem_area n)) in *.
  change (nid n) with (nid n1).
  eapply wp_merge_prev; [exact Hn1|done|by apply head_used_drop_free|
    by apply coalesced_drop_free|done|].
  intros l' fr'' cs' Hok' Hc' Hfb Hbl Hkeep. apply HQ.
  eapply free_post_intro; try done.
  - rewrite Hfb, free_bytes_app. simpl. rewrite free_bytes_drop_free. lia.
  - by rewrite Hbl, blocks_drop_free.
  - intros x Hx Hxu. apply Hkeep; [|done]. destruct Hx; auto using used_drop_free.
Qed.

(** ** What [smfree] promises *)

(** One abstract release step. *)
Record heap_free (s s' : smstate) (a size : Z) : Prop := {
  hf_ok : pool_ok (sm_pool s') /\ coalesced (nodes_of s');
  hf_block : allocated s !! a = Some size;
  hf_map : allocated s' = delete a (allocated s);
  hf_avail : smget_free_space (sm_pool s') = smget_free_space (sm_pool s) + size;
  hf_frame : sm_mem s' = sm_mem s;
  hf_geometry : smget_base_addr (sm_pool s') = smget_base_addr (sm_pool s) /\
                mp_size (sm_pool s') = mp_size (sm_pool s) /\
                mp_commit (sm_pool s') = mp_commit (sm_pool s);
}.

Lemma allocated_used s n :
  pool_ok (sm_pool s) -> n ∈ nodes_of s -> m_used n = true ->
  allocated s !! mem_area n = Some (m_size n).
Proof.
  intros Hok Hin Hu. apply allocated_lookup; [done|].
  apply list_elem_of_split in Hin as (l1 & l2 & ->). rewrite blocks_app. simpl. rewrite Hu.
  rewrite elem_of_app, elem_of_cons. auto.
Qed.

Lemma allocated_node s a size :
  pool_ok (sm_pool s) -> allocated s !! a = Some size ->
  exists n, n ∈ nodes_of s /\ m_used n = true /\ mem_area n = a /\ m_size n = size.
Proof.
  intros Hok H. apply allocated_lookup in H; [|done]. revert H. generalize (nodes_of s).
  intros l. induction l as [|n l IH]; simpl; [by rewrite elem_of_nil|].
  destruct (m_used n) eqn:E; rewrite ?elem_of_cons.
  - intros [[= -> ->]|H].
    + exists n. rewrite elem_of_cons. auto.
    + destruct (IH H) as (x & ? & ? & ? & ?). exists x. rewrite elem_of_cons. auto.
  - intros H. destruct (IH H) as (x & ? & ? & ? & ?). exists x. rewrite elem_of_cons. auto.
Qed.

Lemma free_post_heap s s' n :
  pool_ok (sm_pool s) -> free_post s s' n -> heap_free s s' (mem_area n) (m_size n).
Proof.
  intros Hok H. destruct (allocated_insert s' s (mem_area n) (m_size n)
    Hok (fp_blocks _ _ _ H)) as (H1 & H2 & H3). destruct H. split; try done.
  - rewrite H1. apply lookup_insert_eq.
  - rewrite H1. by rewrite delete_insert_id.
Qed.

Lemma wp_smfree ptr s :
  pool_ok (sm_pool s) -> coalesced (nodes_of s) ->
  wp (smfree ptr) s (fun r s' =>
    (r = 0 /\ exists size, heap_free s s' ptr size) \/
    (r = -1 /\ allocated s !! ptr = None /\ same_pool s s')).
Proof.
  intros Hok Hc. destruct (allocated s !! ptr) as [size|] eqn:E.
  - destruct (allocated_node _ _ _ Hok E) as (n & Hin & Hu & <- & <-).
    apply list_elem_of_split in Hin as (l1 & l2 & El).
    eapply wp_smfree_used; try done. intros s' Hs'. left. eauto using free_post_heap.
  - unfold smfree. destruct (Z.eqb_spec ptr SM_FAILED) as [Ef|Ef]; [wp_step; by right|].
    wp_step. apply wp_find_mn; [done|..].
    + intros l1 n l2 El <-. destruct (m_used n) eqn:Hu; simpl.
      * exfalso. assert (n ∈ nodes_of s) as Hin.
        { rewrite El, elem_of_app, elem_of_cons. auto. }
        pose proof (allocated_used _ _ Hok Hin Hu). congruence.
      * wp_step. apply wp_modify. wp_step. by right.
    + intros s' [Hp Hm] _. wp_step. apply wp_modify. wp_step. by right.
Qed.

(** ** Freeing everything *)

Lemma POOL_USED_single p : pool_ok p -> POOL_USED p = false ->
  exists n, mp_nodes p = [n] /\ m_used n = false /\ mem_area n = smget_base_addr p /\
    m_size n = mp_size p /\ mp_avail p = mp_size p.
Proof.
  intros Hok Hp. pose proof (pool_ok_tiles _ Hok) as Ht. pose proof (po_nonempty _ Hok).
  pose proof (po_avail _ Hok) as Hav. unfold POOL_USED in Hp.
  destruct (mp_nodes p) as [|n l]; [simpl in Ht; lia|].
  apply orb_false_iff in Hp as [Hu Hl]. apply bool_decide_eq_false in Hl.
  destruct l; [|exfalso; by apply Hl]. simpl in Ht, Hav. rewrite Hu in Hav.
  exists n. split_and!; done || lia.
Qed.

(** The node the loop of [smfree_all] picks is an allocated one. *)
Lemma pick_used p : POOL_USED p = true -> coalesced (mp_nodes p) ->
  exists l1 n l2, mp_nodes p = l1 ++ n :: l2 /\ m_used n = true /\
  exists mn rest, mp_nodes p = mn :: rest /\
    forall s (Q : memnode -> smstate -> Prop), Q n s ->
      wp (if negb (m_used mn) then
            match rest with [] => throw AssertFailed | x :: _ => ret x end
          else ret mn) s Q.
Proof.
  unfold POOL_USED. intros Hp Hc.
  destruct (mp_nodes p) as [|n [|n2 l]]; [done|..]; destruct (m_used n) eqn:Hu; simpl in *.
  - exists [], n, []. split_and!; [done..|]. exists n, []. split; [done|]. by rewrite Hu.
  - done.
  - exists [], n, (n2 :: l). split_and!; [done..|]. exists n, (n2 :: l).
    split; [done|]. by rewrite Hu.
  - destruct Hc as (H1 & _). exists [n], n2, l. split_and!; [done|by apply H1|].
    exists n, (n2 :: l). split; [done|]. by rewrite Hu.
Qed.

Lemma wp_smfree_all_loop fuel s :
  pool_ok (sm_pool s) -> coalesced (nodes_of s) -> (length (blocks (nodes_of s)) < fuel)%nat ->
  wp (smfree_all_loop fuel) s (fun _ s' =>
    pool_ok (sm_pool s') /\ POOL_USED (sm_pool s') = false /\ sm_mem s' = sm_mem s /\
    smget_base_addr (sm_pool s') = smget_base_addr (sm_pool s) /\
    mp_size (sm_pool s') = mp_size (sm_pool s)).
Proof.
  revert s. induction fuel as [|fuel IH]; intros s Hok Hc Hf; [lia|].
  simpl. wp_step. wp_step. destruct (POOL_USED (sm_pool s)) eqn:Hp; [|by wp_step].
  destruct (pick_used _ Hp Hc) as (l1 & n & l2 & El & Hu & mn & rest & El' & Hsel).
  rewrite El'. wp_step. apply Hsel. wp_step. wp_step; [done|]. wp_step.
  eapply wp_smfree_used; try done.
  - intros s' Hs'. eapply wp_mono; [apply IH; apply Hs' || idtac|].
    + pose proof (Permutation_length (fp_blocks _ _ _ Hs')) as Hl. simpl in Hl. lia.
    + destruct Hs'. simpl. intros _ s'' (H1 & H2 & H3 & H4 & H5). split_and!; congruence.
Qed.

Lemma wp_smfree_all s :
  pool_ok (sm_pool s) -> coalesced (nodes_of s) ->
  wp smfree_all s (fun _ s' =>
    pool_ok (sm_pool s') /\ POOL_USED (sm_pool s') = false /\ sm_mem s' = sm_mem s /\
    smget_base_addr (sm_pool s') = smget_base_addr (sm_pool s) /\
    mp_size (sm_pool s') = mp_size (sm_pool s)).
Proof.
  intros Hok Hc. unfold smfree_all. wp_step. wp_step. wp_step.
  eapply wp_mono; [apply wp_smfree_all_loop; try done|].
  - assert (forall l, (length (blocks l) <= length l)%nat) as Hl.
    { intros l. induction l as [|n l IH]; simpl; [lia|]. destruct (m_used n); simpl; lia. }
    specialize (Hl (nodes_of s)). unfold nodes_of in *. lia.
  - intros [] s' (H1 & H2 & H3). wp_step. wp_step. wp_step; [|done].
    destruct (POOL_USED_single _ H1 H2) as (n & -> & _). done.
Qed.
