(* ===== verification/SmallocRealloc.v ===== *)
(** * smalloc: reallocation

    [smrealloc] keeps the contents of the block up to the smaller of the two
    sizes, on each of its four ways (shrink, grow in place, move down into the
    free predecessor, relocate), and touches no other byte. *)

From stdpp Require Import base numbers list gmap.
From Stdlib Require Import ZArith Lia.
From S2P Require Import Prelude Smalloc SmallocInv SmallocAlloc SmallocPlace SmallocFree.

Local Open Scope Z_scope.

(** The block of node [n] became the block of [size] bytes at [a], held by
    the node with identity [i]. *)
Record realloc_post (s s' : smstate) (n : memnode) (i : nat) (a size : Z) : Prop := {
  rl_ok : pool_ok (sm_pool s');
  rl_coalesced : coalesced (nodes_of s');
  rl_blocks : exists B, blocks (nodes_of s) ≡ₚ (mem_area n, m_size n) :: B /\
                        blocks (nodes_of s') ≡ₚ (a, size) :: B;
  rl_node : MkNode i size true a ∈ nodes_of s';
  rl_base : smget_base_addr (sm_pool s') = smget_base_addr (sm_pool s);
  rl_size : mp_size (sm_pool s') = mp_size (sm_pool s);
  rl_avail : mp_avail (sm_pool s') = mp_avail (sm_pool s) + m_size n - size;
  rl_content : forall x, 0 <= x < Z.min (m_size n) size ->
                 sm_mem s' (a + x) = sm_mem s (mem_area n + x);
  rl_frame : forall x, ~ a <= x < a + size -> sm_mem s' x = sm_mem s x;
}.

Lemma mem_set_out m dst v n x : ~ dst <= x < dst + n -> mem_set m dst v n x = m x.
Proof.
  intros H. unfold mem_set. destruct (Z.leb_spec dst x), (Z.ltb_spec x (dst + n)); simpl; lia || done.
Qed.

Lemma mem_move_out m dst src n x : ~ dst <= x < dst + n -> mem_move m dst src n x = m x.
Proof.
  intros H. unfold mem_move. destruct (Z.leb_spec dst x), (Z.ltb_spec x (dst + n)); simpl; lia || done.
Qed.

Lemma mem_move_in m dst src n x : 0 <= x < n -> mem_move m dst src n (dst + x) = m (src + x).
Proof.
  intros H. unfold mem_move. rewrite (proj2 (Z.leb_le _ _)), (proj2 (Z.ltb_lt _ _)) by lia.
  simpl. f_equal. lia.
Qed.

(** A truncation of a used node that keeps it used, seen as a reallocation in
    place. *)
Lemma realloc_in_place sz av fl l1 n l2 c u fr m cs b e size m' cs' :
  nodes_ok b e fr (l1 ++ n :: l2) -> coalesced (l1 ++ n :: l2) ->
  sz = e - b -> b < e -> av = free_bytes (l1 ++ n :: l2) -> m_used n = true ->
  0 < size <= m_size n + free_head l2 ->
  (forall x, mem_area n <= x < mem_area n + Z.min (m_size n) size -> m' x = m x) ->
  (forall x, ~ mem_area n <= x < mem_area n + size -> m' x = m x) ->
  realloc_post (MkSm (MkPool sz av fl (l1 ++ n :: l2) c u fr) m cs)
    (MkSm (MkPool sz (av + m_size n - size) fl
       (l1 ++ n <| m_size := size |> ::
          regap fr l2 (mem_area n + size) (m_size n + free_head l2 - size)) c u (S fr)) m' cs')
    n (nid n) (mem_area n) size.
Proof.
  intros Hok Hc Hsz Hbe Hav Hu Hs Hm1 Hm2.
  pose proof (coalesced_app _ _ Hc) as [_ [_ Hc2]].
  pose proof (nodes_ok_truncate b e fr l1 n (n <| m_size := size |>) l2 size Hok Hs
    ltac:(done) ltac:(done) ltac:(done)) as Hok1.
  split; unfold nodes_of; simpl; try done.
  - eapply pool_ok_intro; [exact Hok1|done..|].
    rewrite Hav, !free_bytes_app. simpl. rewrite free_bytes_regap, Hu. lia.
  - eapply coalesced_replace; [exact Hc|left; done|]. simpl. rewrite Hu.
    split; [done|by apply coalesced_regap].
  - exists (blocks l1 ++ blocks l2). rewrite !blocks_app. simpl. rewrite Hu, blocks_regap.
    by rewrite <- !Permutation_middle.
  - rewrite elem_of_app, elem_of_cons. right; left. by rewrite Hu.
  - by rewrite !(base_addr_tiles _ _ _ _ _ _ _ b e)
      by (done || apply no_tiles in Hok, Hok1; done).
  - intros x Hx. apply Hm1. lia.
Qed.

Lemma wp_realloc_return s s' n i a size (Q : Z -> smstate -> Prop) :
  realloc_post s s' n i a size -> Q a s' -> wp (realloc_return i size) s' Q.
Proof.
  intros H HQ. unfold realloc_return. wp_step. change i with (nid (MkNode i size true a)).
  apply wp_deref; [eapply no_nodup, po_nodes, H|apply H|].
  wp_step. wp_step; [apply Z.eqb_refl|]. by wp_step.
Qed.

Lemma wp_realloc_shrink s l1 n l2 size (Q : unit -> smstate -> Prop) :
  pool_ok (sm_pool s) -> coalesced (nodes_of s) -> nodes_of s = l1 ++ n :: l2 ->
  m_used n = true -> 0 < size < m_size n ->
  (forall s', realloc_post s s' n (nid n) (mem_area n) size -> Q tt s') ->
  wp (realloc_shrink n size) s Q.
Proof.
  intros Hok Hc El Hu Hsz HQ.
  destruct s as [[sz av fl l c u fr] m cs]. unfold nodes_of in *. simpl in El, Hc. subst l.
  destruct (pool_ok_elim _ _ _ _ _ _ _ Hok) as (b & e & Hn & Hse & Hbe & Hav & _).
  pose proof (no_tiles _ _ _ _ Hn) as Ht. pose proof (no_end _ _ _ _ Hn).
  pose proof (no_base _ _ _ _ Hn).
  apply tiles_app in Ht as (k & Ht1 & (Hk & Hp & Ht2)).
  pose proof (free_bytes_bound _ _ _ Ht1). pose proof (free_bytes_bound _ _ _ Ht2).
  pose proof (free_head_nonneg _ _ _ Ht2). pose proof (tiles_le _ _ _ Ht1).
  pose proof (NoDup_mid _ _ _ (no_nodup _ _ _ _ Hn)) as Hi.
  pose proof (coalesced_app _ _ Hc) as [_ [_ Hc2]].
  assert (av = free_bytes l1 + free_bytes l2) as Hav'.
  { rewrite Hav, free_bytes_app. simpl. rewrite Hu. lia. }
  unfold realloc_shrink. wp_step. apply wp_upd_avail. nowrap. wp_step. wp_step. wp_step.
  wp_step; [simpl; apply Z.leb_le; lia|]. wp_step.
  eapply wp_mntruncate; [exact Hn|done|lia|]. wp_step.
  change (nid n) with (nid (n <| m_size := size |>)). apply wp_next_of; [done|].
  assert (exists i, head (regap fr l2 (mem_area n + size) (m_size n + free_head l2 - size)) =
    Some (MkNode i (m_size n + free_head l2 - size) false (mem_area n + size))) as [i ->].
  { unfold regap. rewrite (proj2 (Z.eqb_neq _ _)) by lia. eauto. }
  wp_step. wp_step; [done|]. apply wp_sm_uncommit. intros cs'. apply HQ.
  replace (av + (m_size n - size)) with (av + m_size n - size) by lia.
  by eapply realloc_in_place; [exact Hn|done..|lia| |].
Qed.

Lemma wp_memmove dst src n p m cs (Q : unit -> smstate -> Prop) :
  Q tt (MkSm p (mem_move m dst src n) cs) -> wp (MEMMOVE_DOS2DOS dst src n) (MkSm p m cs) Q.
Proof. done. Qed.

Section with_cb.
Context (cb : list call -> Z -> Z -> bool).

Lemma wp_realloc_expand s l1 n x l2 size (Q : bool -> smstate -> Prop) :
  pool_ok (sm_pool s) -> coalesced (nodes_of s) -> nodes_of s = l1 ++ n :: x :: l2 ->
  m_used n = true -> m_used x = false -> m_size n < size <= m_size n + m_size x ->
  (forall s', realloc_post s s' n (nid n) (mem_area n) size -> Q true s') ->
  (forall s', may_refuse cb (mp_commit (sm_pool s)) -> same_pool s s' -> Q false s') ->
  wp (realloc_expand cb n x size) s Q.
Proof.
  intros Hok Hc El Hu Hx Hsz HQ1 HQ2.
  destruct s as [[sz av fl l c u fr] m cs]. unfold nodes_of in *. simpl in El, Hc. subst l.
  destruct (pool_ok_elim _ _ _ _ _ _ _ Hok) as (b & e & Hn & Hse & Hbe & Hav & _).
  pose proof (no_tiles _ _ _ _ Hn) as Ht. pose proof (no_end _ _ _ _ Hn).
  pose proof (no_base _ _ _ _ Hn).
  apply tiles_app in Ht as (k & Ht1 & (Hk & Hp & Hxa & Hxp & Ht2)).
  pose proof (free_bytes_bound _ _ _ Ht1). pose proof (free_bytes_bound _ _ _ Ht2).
  pose proof (tiles_le _ _ _ Ht1). pose proof (tiles_le _ _ _ Ht2).
  pose proof (coalesced_app _ _ Hc) as [_ [_ Hc2]].
  assert (av = free_bytes l1 + m_size x + free_bytes l2) as Hav'.
  { rewrite Hav, free_bytes_app. simpl. rewrite Hu, Hx. lia. }
  unfold realloc_expand. wp_step. nowrap. apply wp_sm_commit_simple; [lia|lia| |].
  2: { intros Hr cs'. simpl. wp_step. by apply HQ2. }
  intros cs'. simpl. wp_step. apply wp_memset_if_wanted. wp_step.
  eapply wp_mntruncate; [exact Hn|done|simpl; rewrite Hx; lia|]. wp_step. apply HQ1.
  replace (av - (size - m_size n)) with (av + m_size n - size) by lia.
  eapply realloc_in_place; [exact Hn|done..|simpl; rewrite Hx; lia| |];
    intros y Hy; destruct (_ =? 0); try done; apply mem_set_out; lia.
Qed.

(** A commit whose refusal gives [e_size] bytes back. *)
Lemma wp_sm_commit_undo a n ea en sz av fl l c u fr m cs (Q : bool -> smstate -> Prop) :
  0 <= n <= av -> 0 < en -> av + en < 2 ^ 64 ->
  (forall cs', Q true (MkSm (MkPool sz (av - n) fl l c u fr) m cs')) ->
  (may_refuse cb c -> forall cs', Q false (MkSm (MkPool sz (av + en) fl l c u fr) m cs')) ->
  wp (sm_commit cb a n ea en) (MkSm (MkPool sz av fl l c u fr) m cs) Q.
Proof.
  intros Hn Hen Hav HQ1 HQ2. unfold sm_commit. wp_step.
  assert (forall cs', wp (let! mp := gets sm_pool in
      assert (n <=? mp_avail mp) ;; upd_avail (fun x => x - n) ;; ret true)
      (MkSm (MkPool sz av fl l c u fr) m cs') Q) as Hok.
  { intros cs'. wp_step. wp_step. wp_step. wp_step; [apply Z.leb_le; simpl; lia|].
    wp_step. apply wp_upd_avail. wp_step. nowrap. apply HQ1. }
  unfold __sm_commit. wp_step. wp_step. simpl. destruct c; simpl; [|by wp_step; apply Hok].
  wp_step. apply wp_log_call. destruct (cb cs _ _) eqn:E; [by wp_step; apply Hok|].
  wp_step. apply wp_log_call. unfold truth. rewrite (proj2 (Z.eqb_neq en 0)) by lia. simpl.
  wp_step. wp_step. apply wp_upd_avail. nowrap. apply wp_sm_uncommit. intros cs'.
  wp_step. wp_step. apply HQ2. split; eauto.
Qed.

(** ** Moving down into the free predecessor *)

(** Bytes returned by the move when it needs less than both nodes. *)
Definition move_refund (p n : memnode) (size : Z) : Z :=
  if size <? m_size p + m_size n
  then m_size n - (if m_size p <? size then size - m_size p else 0) else 0.

Lemma wp_move_refund sz av1 av2 fl l c u fr m cs p n size (Q : unit -> smstate -> Prop) :
  0 < m_size p < 2 ^ 32 -> 0 < m_size n < 2 ^ 32 -> m_size n < size < 2 ^ 33 ->
  0 <= av1 < 2 ^ 32 -> av2 <= sz -> av1 + move_refund p n size = av2 ->
  Q tt (MkSm (MkPool sz av2 fl l c u fr) m cs) ->
  wp (if size <? m_size p + m_size n then
        let overl := if m_size p <? size then u64 (size - m_size p) else 0 in
        upd_avail (fun x => x + (m_size n - overl)) ;;
        let! mp := gets sm_pool in assert (mp_avail mp <=? mp_size mp)
      else ret tt) (MkSm (MkPool sz av1 fl l c u fr) m cs) Q.
Proof.
  intros Hp Hn Hs Hav1 Hav2 E HQ. unfold move_refund in E.
  destruct (Z.ltb_spec size (m_size p + m_size n)).
  - assert (u64 (av1 + (m_size n - (if m_size p <? size then u64 (size - m_size p) else 0))) =
      av2) as E2.
    { destruct (Z.ltb_spec (m_size p) size); nowrap; lia. }
    cbv zeta. wp_step. apply wp_upd_avail. rewrite E2. wp_step. wp_step.
    wp_step; [simpl; apply Z.leb_le; lia|done].
  - wp_step. by rewrite <- E, Z.add_0_r in HQ.
Qed.

(** The state the move ends in. *)
Lemma move_down_post sz av fl l0 p n l2 c u fr m cs b e size fr' m' cs' :
  let n1 := MkNode (nid n) (m_size n + free_head l2) false (mem_area n) in
  let p1 := p <| m_used := true |> in
  nodes_ok b e fr (l0 ++ p :: n :: l2) -> coalesced (l0 ++ p :: n :: l2) ->
  sz = e - b -> b < e -> av = free_bytes (l0 ++ p :: n :: l2) ->
  m_used p = false -> m_used n = true ->
  m_size n < size <= m_size p + m_size n + free_head l2 ->
  nodes_ok b e fr' (l0 ++ p1 :: n1 :: drop_free l2) ->
  (forall x, 0 <= x < m_size n -> m' (mem_area p + x) = m (mem_area n + x)) ->
  (forall x, ~ mem_area p <= x < mem_area p + size -> m' x = m x) ->
  realloc_post (MkSm (MkPool sz av fl (l0 ++ p :: n :: l2) c u fr) m cs)
    (MkSm (MkPool sz (av + m_size n - size) fl
       (l0 ++ p1 <| m_size := size |> ::
          regap fr' (n1 :: drop_free l2) (mem_area p + size)
            (m_size p + (m_size n + free_head l2) - size)) c u (S fr')) m' cs')
    n (nid p) (mem_area p) size.
Proof.
  intros n1 p1 Hok Hc Hsz Hbe Hav Hp Hu Hs Hok1 Hm1 Hm2.
  pose proof (no_tiles _ _ _ _ Hok) as Ht.
  apply tiles_app in Ht as (k & _ & (_ & _ & _ & Hnp & _)).
  pose proof (coalesced_app _ _ Hc) as [_ [_ [_ Hc2]]].
  assert (coalesced (n1 :: drop_free l2)) as Hc1.
  { split; [intros _; by apply head_used_drop_free|by apply coalesced_drop_free]. }
  pose proof (nodes_ok_truncate b e fr' l0 p1 (p1 <| m_size := size |>) (n1 :: drop_free l2) size
    Hok1 ltac:(simpl; lia) ltac:(done) ltac:(done) ltac:(done)) as Hok2.
  split; unfold nodes_of; simpl; try done.
  - eapply pool_ok_intro; [exact Hok2|done..|]. rewrite Hav, !free_bytes_app. simpl.
    rewrite free_bytes_regap. simpl. rewrite free_bytes_drop_free, Hp, Hu. lia.
  - eapply coalesced_replace; [exact Hc|left; done|]. split; [done|by apply coalesced_regap].
  - exists (blocks l0 ++ blocks l2). rewrite !blocks_app. simpl.
    rewrite blocks_regap. simpl. rewrite blocks_drop_free, Hp, Hu.
    by rewrite <- !Permutation_middle.
  - rewrite elem_of_app, elem_of_cons. auto.
  - by rewrite !(base_addr_tiles _ _ _ _ _ _ _ b e)
      by (done || apply no_tiles in Hok, Hok2; done).
  - intros x Hx. apply Hm1. lia.
Qed.

Lemma wp_move_down sz av av1 fl l0 p n l2 c u fr m cs cs1 size b e
    (Q : option nat -> smstate -> Prop) :
  let s := MkSm (MkPool sz av fl (l0 ++ p :: n :: l2) c u fr) m cs in
  nodes_ok b e fr (l0 ++ p :: n :: l2) -> coalesced (l0 ++ p :: n :: l2) ->
  sz = e - b -> b < e -> av = free_bytes (l0 ++ p :: n :: l2) ->
  m_used p = false -> m_used n = true ->
  m_size n < size <= m_size p + m_size n + free_head l2 ->
  0 <= av1 < 2 ^ 32 -> av1 + move_refund p n size = av + m_size n - size ->
  (forall s', realloc_post s s' n (nid p) (mem_area p) size -> Q (Some (nid p)) s') ->
  wp (move_down p n (head l2) size)
     (MkSm (MkPool sz av1 fl (l0 ++ p :: n :: l2) c u fr) m cs1) Q.
Proof.
  intros s Hok Hc Hsz Hbe Hav Hp Hu Hs Hav0 Hav1 HQ.
  pose proof (no_tiles _ _ _ _ Hok) as Ht. pose proof (no_end _ _ _ _ Hok).
  pose proof (no_base _ _ _ _ Hok).
  apply tiles_app in Ht as (k & Ht1 & (Hpa & Hpp & Hna & Hnp & Ht2)).
  pose proof (free_bytes_bound _ _ _ Ht1). pose proof (free_bytes_bound _ _ _ Ht2).
  assert (av = free_bytes l0 + m_size p + free_bytes l2) as Hav'.
  { rewrite Hav, free_bytes_app. simpl. rewrite Hu, Hp. lia. }
  pose proof (tiles_le _ _ _ Ht1). pose proof (tiles_le _ _ _ Ht2).
  pose proof (free_head_le _ _ _ Ht2). pose proof (free_head_nonneg _ _ _ Ht2).
  pose proof (NoDup_mid _ _ _ (no_nodup _ _ _ _ Hok)) as Hip.
  pose proof (coalesced_app _ _ Hc) as [_ [_ [_ Hc2]]].
  set (p1 := p <| m_used := true |>). set (n0 := n <| m_used := false |>).
  assert (nodes_ok b e fr ((l0 ++ [p1]) ++ n :: l2)) as Hok1.
  { rewrite <- app_assoc. by eapply nodes_ok_flip; [exact Hok|..]. }
  assert (nodes_ok b e fr ((l0 ++ [p1]) ++ n0 :: l2)) as Hok0 by by eapply nodes_ok_flip.
  pose proof (NoDup_mid _ _ _ (no_nodup _ _ _ _ Hok1)) as Hin.
  unfold move_down. wp_step. apply wp_set_used; [done|].
  wp_step. apply wp_memmove. wp_step. apply wp_memset_if_wanted. nowrap.
  set (m1 := if _ =? 0 then _ else _). wp_step.
  change (p <| m_used := true |>) with p1.
  rewrite (app_assoc l0 [p1] (n :: l2) : l0 ++ p1 :: n :: l2 = _).
  apply wp_set_used; [done|]. wp_step.
  apply (wp_move_refund _ _ (av + m_size n - size)); try lia. wp_step.
  apply (wp_merge_next_with (fun _ => ret tt) _ _ _ _ n _ _ _ _ _ _ b e);
    [exact Hok0|done|intros x R _ HR; by wp_step|].
  intros fr' Hok2. rewrite <- app_assoc in Hok2 |- *. simpl app in *.
  set (n1 := MkNode (nid n) (m_size n + free_head l2) false (mem_area n)) in *.
  wp_step. change (nid p) with (nid p1).
  assert (coalesced (n1 :: drop_free l2)) as Hc1.
  { split; [intros _; by apply head_used_drop_free|by apply coalesced_drop_free]. }
  eapply wp_mntruncate; [exact Hok2|done|simpl; lia|]. wp_step.
  change (nid p1) with (nid (p1 <| m_size := size |>)). apply wp_next_of; [done|]. wp_step.
  set (s1 := fun cs' => MkSm (MkPool sz (av + m_size n - size) fl
     (l0 ++ p1 <| m_size := size |> :: regap fr' (n1 :: drop_free l2) (mem_area p1 + size)
        (m_size p1 + free_head (n1 :: drop_free l2) - size)) c u (S fr')) m1 cs').
  assert (forall cs', Q (Some (nid p)) (s1 cs')) as Hfin.
  { intros cs'. apply HQ. apply (move_down_post sz av fl l0 p n l2 c u fr m cs b e size fr' m1 cs'); try done.
    - intros x Hx. unfold m1. destruct (_ =? 0); rewrite ?mem_set_out by lia;
        apply mem_move_in; lia.
    - intros x Hx. unfold m1. destruct (_ =? 0); rewrite ?mem_set_out by lia;
        apply mem_move_out; lia. }
  change (MkSm _ m1 cs1) with (s1 cs1). destruct (head _) as [x|]; [|by wp_step; wp_step].
  destruct (m_used x); simpl; [by wp_step; wp_step|].
  apply wp_sm_uncommit. intros cs'. wp_step. apply Hfin.
Qed.

(** ** Relocation *)

Lemma relocate_post s s1 s' n i a size :
  pool_ok (sm_pool s) -> n ∈ nodes_of s -> m_used n = true -> m_size n < size ->
  alloc_post s s1 i a size ->
  free_post (s1 <| sm_mem ::= fun m => mem_move m a (mem_area n) (m_size n) |>) s' n ->
  realloc_post s s' n i a size.
Proof.
  intros Hok Hin Hu Hlt Ha Hf.
  pose proof (tiles_elem _ _ _ _ (pool_ok_tiles _ Hok) Hin) as Hne.
  assert (0 < size) as Hpos by lia.
  destruct (alloc_post_heap _ _ _ _ _ Hok Hpos Ha) as [Hh _].
  pose proof (allocated_used _ _ Hok Hin Hu) as Hall.
  pose proof (ha_disjoint _ _ _ _ Hh _ _ Hall) as Hdis.
  assert (exists B, blocks (nodes_of s) ≡ₚ (mem_area n, m_size n) :: B) as [B HB].
  { apply elem_of_Permutation. by apply allocated_lookup in Hall. }
  assert (blocks (nodes_of s') ≡ₚ (a, size) :: B) as HB'.
  { apply (Permutation_cons_inv (a := (mem_area n, m_size n))).
    pose proof (fp_blocks _ _ _ Hf) as Hb. unfold nodes_of in Hb at 1. simpl in Hb.
    fold (nodes_of s1) in Hb. rewrite <- Hb, (ap_blocks _ _ _ _ _ Ha), HB. apply perm_swap. }
  destruct Hf, Ha. simpl in *. split; try done; try congruence; try lia.
  - eauto.
  - apply fp_keep; [done..|]. intros <-. simpl in *.
    rewrite (ha_fresh _ _ _ _ Hh) in Hall. done.
  - intros x Hx. rewrite fp_mem, mem_move_in, ap_mem by lia.
    destruct (_ =? 0); [|done]. apply mem_set_out. lia.
  - intros x Hx. rewrite fp_mem, mem_move_out, ap_mem by lia.
    destruct (_ =? 0); [|done]. apply mem_set_out. lia.
Qed.

Lemma wp_relocate s n size (Q : option nat -> smstate -> Prop) :
  pool_ok (sm_pool s) -> coalesced (nodes_of s) -> n ∈ nodes_of s -> m_used n = true ->
  m_size n < size < 2 ^ 32 ->
  (forall s' i a, realloc_post s s' n i a size -> Q (Some i) s') ->
  (forall s', same_pool s s' ->
     may_refuse cb (mp_commit (sm_pool s)) \/ ~ fits_aligned 0 size (nodes_of s) -> Q None s') ->
  wp (relocate cb n size) s Q.
Proof.
  intros Hok Hc Hin Hu Hsz HQ1 HQ2.
  pose proof (tiles_elem _ _ _ _ (pool_ok_tiles _ Hok) Hin) as Hne.
  assert (forall s1, same_pool s s1 ->
     may_refuse cb (mp_commit (sm_pool s)) \/ ~ fits_aligned 0 size (nodes_of s) ->
     wp (let! mp := gets sm_pool in do_smerror (oom_pr mp size) ;; ret None) s1 Q) as Hfail.
  { intros [p1 m1 cs1] Hs1 Hwhy. wp_step. wp_step. wp_step.
    apply wp_do_smerror; [apply oom_pr_ok|]. intros cs'. wp_step. by apply HQ2. }
  unfold relocate, sm_alloc_mn. wp_step. change 1 with (2 ^ 0) at 1.
  apply wp_sm_alloc_aligned; try done; [lia|..].
  - intros i a s1 _ Ha _. wp_step. change i with (nid (MkNode i size true a)).
    apply wp_deref; [eapply no_nodup, po_nodes, Ha|apply Ha|]. wp_step. apply wp_modify. wp_step.
    pose proof (ap_keep _ _ _ _ _ Ha n Hin Hu) as Hin1.
    apply list_elem_of_split in Hin1 as (l1 & l2 & El1).
    eapply (wp_smfree_used _ l1 n l2); [apply Ha|apply Ha|done|done|].
    intros s' Hf. wp_step. eapply HQ1. eapply relocate_post; try done. lia.
  - intros s1 Hs1 [?|Hnf]; [lia|]. apply Hfail; auto.
  - intros s1 off Hr Hp Hoff. apply Hfail; [|by left]. apply (rp_same _ _ _ Hp). auto.
Qed.

Lemma wp_sm_realloc_alloc_mn s l1 n l2 size (Q : option nat -> smstate -> Prop) :
  pool_ok (sm_pool s) -> coalesced (nodes_of s) -> nodes_of s = l1 ++ n :: l2 ->
  m_used n = true -> m_size n + free_head l2 < size < 2 ^ 32 ->
  (forall s' i a, realloc_post s s' n i a size -> Q (Some i) s') ->
  (forall s', same_pool s s' ->
     may_refuse cb (mp_commit (sm_pool s)) \/ ~ fits_aligned 0 size (nodes_of s) -> Q None s') ->
  wp (sm_realloc_alloc_mn cb (last l1) n (head l2) size) s Q.
Proof.
  intros Hok Hc El Hu Hsz HQ1 HQ2. unfold sm_realloc_alloc_mn.
  assert (n ∈ nodes_of s) as Hin by (rewrite El, elem_of_app, elem_of_cons; auto).
  pose proof (pool_ok_tiles _ Hok) as Ht0. unfold nodes_of in El. rewrite El in Ht0.
  apply tiles_app in Ht0 as (k0 & _ & (_ & _ & Ht2)). apply free_head_nonneg in Ht2.
  assert (wp (relocate cb n size) s Q) as Hrel.
  { apply wp_relocate; try done. lia. }
  destruct l1 as [|p l0 _] using rev_ind; [exact Hrel|].
  rewrite last_snoc. destruct (m_used p) eqn:Hp; [exact Hrel|]. simpl negb.
  replace (free_size (head l2)) with (free_head l2) by by destruct l2.
  destruct s as [[sz av fl l c u fr] m cs]. unfold nodes_of in *. simpl in El, Hc. subst l.
  destruct (pool_ok_elim _ _ _ _ _ _ _ Hok) as (b & e & Hn & Hse & Hbe & Hav & _).
  rewrite <- app_assoc in *. simpl app in *.
  pose proof (no_tiles _ _ _ _ Hn) as Ht. pose proof (no_end _ _ _ _ Hn).
  pose proof (no_base _ _ _ _ Hn).
  apply tiles_app in Ht as (k & Ht1 & (Hpa & Hpp & Hna & Hnp & Ht3)).
  pose proof (free_bytes_bound _ _ _ Ht1). pose proof (free_bytes_bound _ _ _ Ht3).
  pose proof (tiles_le _ _ _ Ht1). pose proof (free_head_le _ _ _ Ht3).
  pose proof (tiles_le _ _ _ Ht3).
  assert (av = free_bytes l0 + m_size p + free_bytes l2) as Hav'.
  { rewrite Hav, free_bytes_app. simpl. rewrite Hu, Hp. lia. }
  assert (free_head l2 <= free_bytes l2) as Hfb.
  { destruct l2 as [|x l2]; simpl; [lia|]. destruct Ht3 as (_ & ? & Ht3).
    pose proof (free_bytes_bound _ _ _ Ht3). destruct (m_used x); lia. }
  nowrap. destruct (Z.leb_spec size (m_size p + m_size n + free_head l2)) as [Hfit|];
    [simpl|exact Hrel].
  wp_step. apply wp_sm_commit_simple; [lia|lia| |intros Hr cs'; simpl; wp_step; apply HQ2; [done|by left]].
  intros cs1. simpl. wp_step.
  destruct (Z.ltb_spec (m_size p + m_size n) size) as [Hbig|Hsmall].
  - destruct l2 as [|x l2]; [simpl in *; lia|]. change (head (x :: l2)) with (Some x). cbv iota.
    nowrap. apply wp_sm_commit_undo; [lia|lia|lia|..].
    + intros cs2. simpl negb. cbv iota.
      eapply (wp_move_down sz av _ fl l0 p n (x :: l2) c u fr m cs _ size b e); try done; try lia.
      * unfold move_refund. rewrite (proj2 (Z.ltb_ge _ _)) by lia. lia.
      * intros s' Hs'. by eapply HQ1.
    + intros Hr cs2. simpl. wp_step. apply HQ2; [|by left].
      split; [|done]. simpl. do 2 f_equal. lia.
  - wp_step. simpl. eapply (wp_move_down sz av _ fl l0 p n l2 c u fr m cs _ size b e); try done; try lia.
    + unfold move_refund. zbool; lia.
    + intros s' Hs'. by eapply HQ1.
Qed.

(** ** What [smrealloc] promises *)

(** One abstract reallocation step: the block at [ptr] of [old] bytes becomes
    the block at [a] of [size] bytes. *)
Record heap_realloc (s s' : smstate) (ptr old a size : Z) : Prop := {
  hr_ok : pool_ok (sm_pool s') /\ coalesced (nodes_of s');
  hr_block : allocated s !! ptr = Some old;
  hr_map : allocated s' = <[a := size]> (delete ptr (allocated s));
  hr_disjoint : disjoint_from a size (delete ptr (allocated s));
  hr_range : smget_base_addr (sm_pool s) <= a /\
             a + size <= smget_base_addr (sm_pool s) + mp_size (sm_pool s);
  hr_avail : smget_free_space (sm_pool s') = smget_free_space (sm_pool s) + old - size;
  hr_content : forall x, 0 <= x < Z.min old size -> sm_mem s' (a + x) = sm_mem s (ptr + x);
  hr_frame : forall x, ~ a <= x < a + size -> sm_mem s' x = sm_mem s x;
}.

Lemma realloc_post_heap s s' n i a size :
  pool_ok (sm_pool s) -> realloc_post s s' n i a size ->
  heap_realloc s s' (mem_area n) (m_size n) a size /\ a <> SM_FAILED.
Proof.
  intros Hok H. destruct (rl_blocks _ _ _ _ _ _ H) as (B & HB & HB').
  destruct (allocated_cons s B _ _ Hok HB) as (H1 & H2 & H3).
  destruct (allocated_cons s' B _ _ (rl_ok _ _ _ _ _ _ H) HB') as (H4 & H5 & H6).
  assert (delete (mem_area n) (allocated s) = list_to_map B) as Ed.
  { rewrite H1. by rewrite delete_insert_id. }
  assert ((a, size) ∈ blocks (nodes_of s')) as Hin by (rewrite HB'; left).
  pose proof (blocks_range _ _ _ _ _ (pool_ok_tiles _ (rl_ok _ _ _ _ _ _ H)) Hin) as Hr.
  rewrite (rl_base _ _ _ _ _ _ H), (rl_size _ _ _ _ _ _ H) in Hr.
  pose proof (no_end _ _ _ _ (po_nodes _ Hok)). split; [|unfold SM_FAILED; lia].
  destruct H. split; rewrite ?Ed; try done; try lia.
  rewrite H1. apply lookup_insert_eq.
Qed.

(** Outcome of [smrealloc] on an allocated block and a non-zero size. *)
Definition realloc_outcome (s : smstate) (ptr old size r : Z) (s' : smstate) : Prop :=
  (r <> SM_FAILED /\ heap_realloc s s' ptr old r size) \/
  (r = SM_FAILED /\ same_pool s s' /\ old < size /\
     (may_refuse cb (mp_commit (sm_pool s)) \/ ~ fits_aligned 0 size (nodes_of s))).

Lemma same_realloc s n i :
  pool_ok (sm_pool s) -> coalesced (nodes_of s) -> n ∈ nodes_of s -> m_used n = true ->
  i = nid n -> realloc_post s s n i (mem_area n) (m_size n).
Proof.
  intros Hok Hc Hin Hu ->. split; try done; try lia.
  - pose proof (allocated_used _ _ Hok Hin Hu) as Hall. apply allocated_lookup in Hall; [|done].
    apply elem_of_Permutation in Hall as [B HB]. eauto.
  - destruct n; simpl in *. by subst.
Qed.

Lemma wp_smrealloc_block ptr old size s :
  pool_ok (sm_pool s) -> coalesced (nodes_of s) -> ptr <> 0 ->
  allocated s !! ptr = Some old -> 0 < size < 2 ^ 32 ->
  wp (smrealloc cb ptr size) s (realloc_outcome s ptr old size).
Proof.
  intros Hok Hc Hnz Hall Hsz. unfold smrealloc, truth.
  rewrite (proj2 (Z.eqb_neq ptr 0)) by done. simpl negb. cbv iota.
  wp_step. apply wp_find_mn; [done|..].
  2: { intros s' _ Hno. destruct (allocated_node _ _ _ Hok Hall) as (n & Hin & Hu & Ha & _).
       exfalso. by apply (Hno n Hin Hu). }
  intros l1 n l2 El Ha.
  assert (n ∈ nodes_of s) as Hin by (rewrite El, elem_of_app, elem_of_cons; auto).
  destruct (allocated_node _ _ _ Hok Hall) as (n' & Hin' & Hu & Ha' & Hold).
  assert (n' = n) as -> by (eapply tiles_addr_inj; [apply pool_ok_tiles, Hok|done..|congruence]).
  subst ptr old. clear Ha'.
  assert (forall s' i, realloc_post s s' n i (mem_area n) size ->
    wp (realloc_return i size) s' (realloc_outcome s (mem_area n) (m_size n) size)) as Hret.
  { intros s' i Hs'. eapply wp_realloc_return; [done|]. left.
    destruct (realloc_post_heap _ _ _ _ _ _ Hok Hs'). done. }
  rewrite Hu. simpl negb. cbv iota. rewrite (proj2 (Z.eqb_neq size 0)) by lia.
  destruct (Z.eqb_spec size (m_size n)) as [->|Hne].
  { wp_step. left. pose proof (same_realloc s n (nid n) Hok Hc Hin Hu eq_refl) as Hs.
    by destruct (realloc_post_heap _ _ _ _ _ _ Hok Hs). }
  destruct (Z.ltb_spec size (m_size n)).
  { wp_step. eapply wp_realloc_shrink; try done; [lia|]. intros s' Hs'. auto. }
  wp_step. destruct s as [[sz av fl l c u fr] m cs]. unfold nodes_of in El. simpl in El. subst l.
  pose proof (NoDup_mid l1 n l2 (no_nodup _ _ _ _ (po_nodes _ Hok))) as Hnin.
  apply wp_next_of; [done|].
  destruct (pool_ok_elim _ _ _ _ _ _ _ Hok) as (b & e & Hn & _).
  pose proof (no_tiles _ _ _ _ Hn) as Ht. pose proof (no_end _ _ _ _ Hn).
  pose proof (no_base _ _ _ _ Hn).
  apply tiles_app in Ht as (k & Ht1 & (Hk & Hp & Ht2)). pose proof (tiles_le _ _ _ Ht1).
  set (s := MkSm _ m cs) in *.
  assert (m_size n + free_head l2 < size ->
    wp (let! r := sm_realloc_alloc_mn cb (last l1) n (head l2) size in
        match r with None => ret SM_FAILED | Some mn => realloc_return mn size end) s
      (realloc_outcome s (mem_area n) (m_size n) size)) as Helse.
  { intros Hbig. wp_step. eapply wp_sm_realloc_alloc_mn; try done; try lia.
    - intros s' i a Hs'. eapply wp_realloc_return; [done|]. left.
      by destruct (realloc_post_heap _ _ _ _ _ _ Hok Hs').
    - intros s' Hs' Hwhy. wp_step. right. split_and!; try done. lia. }
  destruct l2 as [|x l2]; [apply Helse; simpl; lia|].
  change (head (x :: l2)) with (Some x) in *. cbv iota in *. simpl in Helse, Ht2.
  destruct Ht2 as (Hxa & Hxp & Ht2). pose proof (tiles_le _ _ _ Ht2).
  destruct (m_used x) eqn:Hx; simpl negb; cbv iota; [apply Helse; lia|]. nowrap. simpl andb.
  destruct (Z.leb_spec size (m_size n + m_size x)); [|apply Helse; lia].
  wp_step. eapply wp_realloc_expand; try done; try lia; simpl.
  - auto.
  - intros s' Hr Hs'. wp_step. right. split_and!; try done; [lia|by left].
Qed.

End with_cb.
