(* ===== verification/SmallocSpec.v ===== *)
(** * smalloc: the properties of the allocator

    The entry points against the abstract heap [allocated] (address to size),
    the safety of arbitrary operation sequences, and three behaviours of the
    code that its callers have to avoid. *)

From stdpp Require Import base numbers list gmap.
From Stdlib Require Import ZArith Lia.
From S2P Require Import Prelude Smalloc SmallocInv SmallocAlloc SmallocPlace SmallocFree SmallocRealloc.

Local Open Scope Z_scope.

(** ** Operation sequences *)

Inductive sm_op :=
| OpAlloc (size : Z)
| OpAllocAligned (k size : Z)
| OpAllocFixed (ptr size : Z)
| OpAllocTopdown (k top size : Z)
| OpFree (ptr : Z)
| OpRealloc (ptr size : Z)
| OpFreeAll.

Definition run_op (cb : list call -> Z -> Z -> bool) (op : sm_op) : M smstate unit :=
  match op with
  | OpAlloc size => smalloc cb size ;; ret tt
  | OpAllocAligned k size => smalloc_aligned cb (2 ^ k) size ;; ret tt
  | OpAllocFixed ptr size => smalloc_fixed cb ptr size ;; ret tt
  | OpAllocTopdown k top size => smalloc_aligned_topdown cb top (2 ^ k) size ;; ret tt
  | OpFree ptr => smfree ptr ;; ret tt
  | OpRealloc ptr size => smrealloc cb ptr size ;; ret tt
  | OpFreeAll => smfree_all
  end.

(** Arguments within the C types the callers pass ([unsigned] sizes). *)
Definition op_in_range (op : sm_op) : Prop :=
  match op with
  | OpAlloc size => 0 <= size < 2 ^ 32
  | OpAllocAligned k size => 0 <= k <= 31 /\ 0 <= size < 2 ^ 32
  | OpAllocFixed ptr size => 0 <= ptr < 2 ^ 32 /\ 0 <= size < 2 ^ 32
  | OpAllocTopdown k top size => 0 <= k <= 31 /\ 0 <= size < 2 ^ 32 /\ 0 <= top < 2 ^ 32
  | OpFree ptr => 0 <= ptr < 2 ^ 32
  | OpRealloc ptr size => 0 <= ptr < 2 ^ 32 /\ 0 <= size < 2 ^ 32
  | OpFreeAll => True
  end.

Fixpoint run_ops (cb : list call -> Z -> Z -> bool) (ops : list sm_op) : M smstate unit :=
  match ops with
  | [] => ret tt
  | op :: ops => run_op cb op ;; run_ops cb ops
  end.

Definition sm_good (s : smstate) : Prop := pool_ok (sm_pool s) /\ coalesced (nodes_of s).

(** ** Lemmas *)

Lemma largest_free_spec size l :
  size <= largest_free size l /\
  (forall n, n ∈ l -> m_used n = false -> m_size n <= largest_free size l) /\
  (largest_free size l = size \/ exists n, n ∈ l /\ m_used n = false /\ m_size n = largest_free size l).
Proof.
  revert size. induction l as [|m l IH]; intros size; simpl.
  { split_and!; [lia| |by left]. intros n Hn. by rewrite elem_of_nil in Hn. }
  set (z := if negb (m_used m) && (size <? m_size m) then m_size m else size).
  destruct (IH z) as (H1 & H2 & H3).
  assert (size <= z) by (subst z; destruct (m_used m); simpl; [lia|]; destruct (Z.ltb_spec size (m_size m)); lia).
  split_and!; [lia|..].
  - intros n Hin Hu. rewrite elem_of_cons in Hin. destruct Hin as [->|]; [|auto].
    enough (m_size m <= z) by lia. subst z. rewrite Hu. simpl.
    destruct (Z.ltb_spec size (m_size m)); lia.
  - destruct H3 as [H3|(n & ? & ? & ?)].
    + rewrite H3. destruct (m_used m) eqn:Hu; simpl in z; [by left|].
      destruct (Z.ltb_spec size (m_size m)); subst z; [|by left].
      right. exists m. rewrite elem_of_cons. auto.
    + right. exists n. rewrite elem_of_cons. auto.
Qed.

Lemma fits_largest p size :
  0 < size -> fits_aligned 0 size (mp_nodes p) <-> size <= smget_largest_free_area p.
Proof.
  intros Hpos. unfold fits_aligned, smget_largest_free_area.
  destruct (largest_free_spec 0 (mp_nodes p)) as (_ & H2 & H3). split.
  - intros (n & Hin & Hu & Hs). specialize (H2 n Hin Hu). rewrite Z.mod_1_r in Hs. lia.
  - intros Hs. destruct H3 as [H3|(n & Hin & Hu & Hn)]; [lia|].
    exists n. rewrite Z.mod_1_r. split_and!; [done|done|lia].
Qed.

Lemma sminit_good start size flags m cs :
  0 <= start -> 0 < size < 2 ^ 31 -> start + size < 2 ^ 32 ->
  sm_good (MkSm (sminit_f start size flags) m cs).
Proof.
  intros Hs Hz He. split; [|by split].
  unfold sm_pool, sminit_f, do_sminit.
  eapply (pool_ok_intro start (start + size)); [|lia|lia|simpl; lia].
  split; simpl; try lia.
  - apply NoDup_singleton.
  - repeat constructor.
Qed.

Lemma alloc_outcome_good cb s size fits good a s' :
  sm_good s -> (forall c, ~ may_refuse cb c) ->
  alloc_outcome cb s size fits good a s' -> sm_good s'.
Proof.
  intros Hg Hnr [(_ & _ & _ & H)|[(_ & [E1 E2] & _)|(_ & H & _)]].
  - apply H.
  - unfold sm_good, nodes_of in *. by rewrite E1.
  - by apply Hnr in H.
Qed.

Lemma same_pool_good s s' : sm_good s -> same_pool s s' -> sm_good s'.
Proof. unfold sm_good, nodes_of. by intros Hg [-> _]. Qed.

Lemma wp_smrealloc_null cb s size :
  smrealloc cb 0 size s = smalloc cb size s.
Proof. done. Qed.

Lemma wp_smrealloc_zero cb ptr s :
  sm_good s -> ptr <> 0 ->
  wp (smrealloc cb ptr 0) s (fun r s' => r = SM_FAILED /\
    ((exists old, heap_free s s' ptr old) \/ (allocated s !! ptr = None /\ same_pool s s'))).
Proof.
  intros [Hok Hc] Hnz. unfold smrealloc, truth. rewrite (proj2 (Z.eqb_neq ptr 0)) by done.
  simpl negb. cbv iota. wp_step. apply wp_find_mn; [done|..].
  - intros l1 n l2 El <-. destruct (m_used n) eqn:Hu; simpl negb; cbv iota.
    + simpl Z.eqb. cbv iota. wp_step. eapply wp_smfree_used; try done.
      intros s' Hs'. wp_step. split; [done|]. left. eauto using free_post_heap.
    + wp_step. apply wp_modify. wp_step. split; [done|]. right. split; [|done].
      destruct (allocated s !! mem_area n) as [old|] eqn:E; [|done]. exfalso.
      destruct (allocated_node _ _ _ Hok E) as (n' & Hin' & Hu' & Ha & _).
      assert (n ∈ nodes_of s) as Hin by (rewrite El, elem_of_app, elem_of_cons; auto).
      assert (n' = n) as -> by (eapply tiles_addr_inj; [apply pool_ok_tiles, Hok|done..]).
      congruence.
  - intros s' Hs' Hno. wp_step. apply wp_modify. wp_step. split; [done|]. right.
    split; [|done]. destruct (allocated s !! ptr) as [old|] eqn:E; [|done]. exfalso.
    destruct (allocated_node _ _ _ Hok E) as (n' & Hin' & Hu' & Ha & _).
    by apply (Hno n' Hin' Hu').
Qed.

Lemma wp_smrealloc_bad cb ptr size s :
  sm_good s -> ptr <> 0 -> allocated s !! ptr = None ->
  wp (smrealloc cb ptr size) s (fun r s' => r = SM_FAILED /\ same_pool s s').
Proof.
  intros [Hok Hc] Hnz Hall. unfold smrealloc, truth. rewrite (proj2 (Z.eqb_neq ptr 0)) by done.
  simpl negb. cbv iota. wp_step. apply wp_find_mn; [done|..].
  - intros l1 n l2 El <-. destruct (m_used n) eqn:Hu; simpl negb; cbv iota.
    + assert (n ∈ nodes_of s) as Hin by (rewrite El, elem_of_app, elem_of_cons; auto).
      pose proof (allocated_used _ _ Hok Hin Hu). congruence.
    + wp_step. apply wp_modify. by wp_step.
  - intros s' Hs' _. wp_step. apply wp_modify. by wp_step.
Qed.

Lemma wp_run_op cb op s :
  sm_good s -> (forall c, ~ may_refuse cb c) -> op_in_range op ->
  wp (run_op cb op) s (fun _ s' => sm_good s').
Proof.
  intros Hg Hnr Hr. pose proof Hg as [Hok Hc]. destruct op; simpl in *.
  all: repeat match type of Hr with (_ <= _ < _) /\ _ => destruct Hr as [?Hr1 Hr] | (_ <= _ <= _) /\ _ => destruct Hr as [?Hr1 Hr] end.
  - wp_step. eapply wp_mono; [by apply wp_smalloc|]. intros a s' [(_ & _ & H)|(_ & H & _)]; wp_step.
    + apply H.
    + by eapply same_pool_good.
  - wp_step. eapply wp_mono; [by apply wp_smalloc_aligned|]. intros a s' H. wp_step.
    by eapply alloc_outcome_good.
  - wp_step. eapply wp_mono; [by apply wp_smalloc_fixed|]. intros a s' H. wp_step.
    by eapply alloc_outcome_good.
  - wp_step. eapply wp_mono; [by apply wp_smalloc_aligned_topdown|]. intros a s' H. wp_step.
    by eapply alloc_outcome_good.
  - wp_step. eapply wp_mono; [by apply wp_smfree|]. intros a s' H. wp_step.
    destruct H as [(_ & n & H)|(_ & _ & H)]; [apply H|by eapply same_pool_good].
  - wp_step. destruct (Z.eq_dec ptr 0) as [->|Hnz].
    { eapply wp_mono; [by apply (wp_smalloc cb size s)|].
      intros a s' [(_ & _ & H)|(_ & H & _)]; wp_step; [apply H|by eapply same_pool_good]. }
    destruct (Z.eq_dec size 0) as [->|Hsz].
    { eapply wp_mono; [by apply wp_smrealloc_zero|].
      intros a s' (_ & [(old & H)|(_ & H)]); wp_step; [apply H|by eapply same_pool_good]. }
    destruct (allocated s !! ptr) as [old|] eqn:E.
    + eapply wp_mono; [apply (wp_smrealloc_block cb ptr old size s); try done; lia|].
      intros a s' [(_ & H)|(_ & H & _)]; wp_step; [apply H|by eapply same_pool_good].
    + eapply wp_mono; [by apply wp_smrealloc_bad|].
      intros a s' (_ & H). wp_step. by eapply same_pool_good.
  - eapply wp_mono; [by apply wp_smfree_all|]. intros _ s' (H1 & H2 & _). split; [done|].
    destruct (POOL_USED_single _ H1 H2) as (n & E & _). unfold nodes_of. rewrite E. by split.
Qed.

Lemma wp_run_ops cb ops s :
  sm_good s -> (forall c, ~ may_refuse cb c) -> Forall op_in_range ops ->
  wp (run_ops cb ops) s (fun _ s' => sm_good s').
Proof.
  intros Hg Hnr Hr. revert s Hg. induction Hr as [|op ops Hop Hr IH]; intros s Hg; simpl.
  { by wp_step. }
  wp_step. eapply wp_mono; [by apply wp_run_op|]. intros [] s' Hs'. auto.
Qed.

(** ** Page arithmetic of [sm_uncommit] *)

Lemma page_mask_spec x : page_mask x = x - x mod 4096.
Proof.
  unfold page_mask, SM_PAGE_SIZE. change (4096 - 1) with (Z.ones 12).
  rewrite <- Z.ldiff_land, Z.ldiff_ones_r, Z.shiftl_mul_pow2, Z.shiftr_div_pow2 by lia.
  change (2 ^ 12) with 4096. pose proof (Z.div_mod x 4096). lia.
Qed.

Lemma page_align_spec x : page_align x = x + (- x) mod 4096.
Proof.
  unfold page_align, SM_PAGE_SIZE. rewrite page_mask_spec.
  pose proof (Z.div_mod (x + 4096 - 1) 4096). pose proof (Z.mod_pos_bound (x + 4096 - 1) 4096).
  pose proof (Z.div_mod (- x) 4096). pose proof (Z.mod_pos_bound (- x) 4096). lia.
Qed.

(** A pool used by the examples: 64K at 0x1000, byte 7 everywhere. *)
Definition example_state : smstate := MkSm (sminit 4096 65536) (fun _ => 7) [].

Definition accept_all : list call -> Z -> Z -> bool := fun _ _ _ => true.

Lemma accept_never_refuses c : ~ may_refuse accept_all c.
Proof. by intros (_ & cs & a & n & H). Qed.

Lemma example_good : sm_good example_state.
Proof. apply sminit_good; lia. Qed.

(** ** Properties *)

(** C1: [smalloc] refines the abstract heap.  On a well-formed coalesced pool
    it always returns; either it adds one block of the requested size at a
    previously free, disjoint address inside the pool (cleared unless the pool
    asks otherwise, all other bytes untouched), or it returns
    [(dosaddr_t)-1], changes nothing, and the size was 0, no free area was
    large enough, or the commit callback may refuse. *)
Theorem smalloc_correct cb size s :
  pool_ok (sm_pool s) -> coalesced (nodes_of s) -> 0 <= size < 2 ^ 32 ->
  exists a s', smalloc cb size s = Ok (a, s') /\
    ((a <> SM_FAILED /\ 0 < size /\ heap_alloc s s' a size) \/
     (a = SM_FAILED /\ same_pool s s' /\
        (size = 0 \/ smget_largest_free_area (sm_pool s) < size \/
         may_refuse cb (mp_commit (sm_pool s))))).
Proof.
  intros Hok Hc Hsz. destruct (wp_inv _ _ _ (wp_smalloc cb size s Hok Hc Hsz))
    as (a & s' & E & H). exists a, s'. split; [done|].
  destruct H as [?|(? & ? & H)]; [by left|right]. split_and!; [done..|].
  destruct (Z.eq_dec size 0) as [|Hnz]; [by left|right].
  destruct H as [?|[Hf|?]]; [done|left|by right].
  unfold nodes_of in Hf. rewrite fits_largest in Hf by lia. lia.
Qed.

Lemma smalloc_correct_witness :
  exists a s', smalloc accept_all 100 example_state = Ok (a, s') /\ a = 4096.
Proof.
  destruct (smalloc_correct accept_all 100 example_state) as (a & s' & E & _);
    [apply example_good|apply example_good|lia|].
  exists a, s'. split; [exact E|]. apply (outcome_eq (fun a _ => a) _ _ _ _ _ E). vm_compute. reflexivity.
Defined.

(** [smalloc] succeeds exactly on the non-zero sizes up to
    [smget_largest_free_area] when the pool's commits are never refused. *)
Theorem smalloc_complete cb size s :
  pool_ok (sm_pool s) -> coalesced (nodes_of s) -> 0 <= size < 2 ^ 32 ->
  (forall c, ~ may_refuse cb c) ->
  exists a s', smalloc cb size s = Ok (a, s') /\
    (a <> SM_FAILED <-> 0 < size <= smget_largest_free_area (sm_pool s)).
Proof.
  intros Hok Hc Hsz Hnr. destruct (wp_inv _ _ _ (wp_smalloc cb size s Hok Hc Hsz))
    as (a & s' & E & H). exists a, s'. split; [done|].
  destruct H as [(Ha & Hpos & Hh)|(Ha & _ & H)].
  - split; [intros _|done]. split; [done|]. apply fits_largest; [done|].
    unfold smalloc, sm_alloc_mn in E. change 1 with (2 ^ 0) in E at 1.
    pose proof (wp_sm_alloc_aligned cb 0 size s
      (fun r _ => r <> None -> fits_aligned 0 size (nodes_of s)) Hok Hc) as Hw.
    assert (wp (sm_alloc_aligned cb (2 ^ 0) size) s
      (fun r _ => r <> None -> fits_aligned 0 size (nodes_of s))) as Hfit.
    { apply Hw; try done. intros i b s1 _ Hp _ _.
      destruct (ap_room _ _ _ _ _ Hp) as (n & Hin & Hu & Hlo & Hhi).
      exists n. rewrite Z.mod_1_r. split_and!; [done|done|lia]. }
    destruct (wp_inv _ _ _ Hfit) as (r & s1 & E1 & H1). unfold bind in E. rewrite E1 in E.
    apply H1. intros ->. injection E as <- _. done.
  - split; [done|]. intros [Hpos Hle]. apply fits_largest in Hle; [|done].
    destruct H as [?|[?|Hr]]; [lia|done|by apply Hnr in Hr].
Qed.

Lemma smalloc_complete_witness :
  (exists a s', smalloc accept_all 65536 example_state = Ok (a, s') /\
    (a <> SM_FAILED <-> 0 < 65536 <= smget_largest_free_area (sm_pool example_state))) /\
  smget_largest_free_area (sm_pool example_state) = 65536.
Proof.
  split; [|reflexivity]. apply smalloc_complete;
    [apply example_good|apply example_good|lia|apply accept_never_refuses].
Defined.

(** [smalloc_aligned] with a power-of-two alignment returns an aligned
    block obtained by one abstract allocation step, and fails only when the
    size is 0, when no free area holds [size] bytes from its first aligned
    address, or when a commit is refused (then the blocks are unchanged). *)
Theorem smalloc_aligned_correct cb k size s :
  pool_ok (sm_pool s) -> coalesced (nodes_of s) -> 0 <= k <= 31 -> 0 <= size < 2 ^ 32 ->
  exists a s', smalloc_aligned cb (2 ^ k) size s = Ok (a, s') /\
    alloc_outcome cb s size (fits_aligned k size (nodes_of s)) (fun a => a mod 2 ^ k = 0) a s'.
Proof. intros Hok Hc Hk Hsz. apply wp_inv. by apply wp_smalloc_aligned. Qed.

Lemma smalloc_aligned_correct_witness :
  exists a s', smalloc_aligned accept_all (2 ^ 13) 100 example_state = Ok (a, s') /\ a = 8192.
Proof.
  destruct (smalloc_aligned_correct accept_all 13 100 example_state) as (a & s' & E & _);
    [apply example_good|apply example_good|lia|lia|].
  exists a, s'. split; [exact E|]. apply (outcome_eq (fun a _ => a) _ _ _ _ _ E). vm_compute. reflexivity.
Defined.

(** [smalloc_fixed] returns exactly the requested address, by one abstract
    allocation step, and fails only when the address or the size is 0, when
    the range is not inside one free area, or when a commit is refused. *)
Theorem smalloc_fixed_correct cb ptr size s :
  pool_ok (sm_pool s) -> coalesced (nodes_of s) -> 0 <= ptr < 2 ^ 32 -> 0 <= size < 2 ^ 32 ->
  exists a s', smalloc_fixed cb ptr size s = Ok (a, s') /\
    alloc_outcome cb s size (fits_fixed ptr size (nodes_of s)) (fun a => a = ptr) a s'.
Proof. intros Hok Hc Hp Hsz. apply wp_inv. by apply wp_smalloc_fixed. Qed.

Lemma smalloc_fixed_correct_witness :
  exists a s', smalloc_fixed accept_all 5000 100 example_state = Ok (a, s') /\ a = 5000.
Proof.
  destruct (smalloc_fixed_correct accept_all 5000 100 example_state) as (a & s' & E & _);
    [apply example_good|apply example_good|lia|lia|].
  exists a, s'. split; [exact E|]. apply (outcome_eq (fun a _ => a) _ _ _ _ _ E). vm_compute. reflexivity.
Defined.

(** [smalloc_aligned_topdown] returns an aligned block that ends at or
    below [top] (when one is given), by one abstract allocation step; it fails
    only when the size is 0, when no free area has room for such a block, or
    when a commit is refused. *)
Theorem smalloc_aligned_topdown_correct cb k top size s :
  pool_ok (sm_pool s) -> coalesced (nodes_of s) -> 0 <= k <= 31 ->
  0 <= size < 2 ^ 32 -> 0 <= top < 2 ^ 32 ->
  exists a s', smalloc_aligned_topdown cb top (2 ^ k) size s = Ok (a, s') /\
    alloc_outcome cb s size (fits_topdown k top size (nodes_of s))
      (fun a => a mod 2 ^ k = 0 /\ below_top top a size) a s'.
Proof. intros Hok Hc Hk Hsz Ht. apply wp_inv. by apply wp_smalloc_aligned_topdown. Qed.

Lemma smalloc_aligned_topdown_correct_witness :
  exists a s', smalloc_aligned_topdown accept_all 20000 (2 ^ 12) 100 example_state = Ok (a, s') /\
    a = 16384.
Proof.
  destruct (smalloc_aligned_topdown_correct accept_all 12 20000 100 example_state)
    as (a & s' & E & _); [apply example_good|apply example_good|lia|lia|lia|].
  exists a, s'. split; [exact E|]. apply (outcome_eq (fun a _ => a) _ _ _ _ _ E). vm_compute. reflexivity.
Defined.

(** One block of 100 bytes at 0x1000. *)
Definition one_block : smstate :=
  match smalloc accept_all 100 example_state with Ok (_, s) => s | Fault _ => example_state end.

Lemma one_block_good : sm_good one_block.
Proof.
  pose proof (wp_run_op accept_all (OpAlloc 100) example_state example_good
    accept_never_refuses ltac:(simpl; lia)) as H.
  destruct (wp_inv _ _ _ H) as (a & s' & E & Hs). unfold one_block.
  unfold run_op, bind in E. destruct (smalloc accept_all 100 example_state) as [[? ?]|]; [|done].
  injection E as _ <-. done.
Qed.

(** C2: On a well-formed pool with no two adjacent free areas (what
    smpool_sequences_safe guarantees as long as no commit was refused; after a
    refused commit smfree can fail an assertion) smfree returns 0 and removes
    exactly the block that starts at the pointer, merging it with its free
    neighbours; for any other pointer it returns -1 and changes nothing. *)
Theorem smfree_correct ptr s :
  pool_ok (sm_pool s) -> coalesced (nodes_of s) ->
  exists r s', smfree ptr s = Ok (r, s') /\
    ((r = 0 /\ exists size, heap_free s s' ptr size) \/
     (r = -1 /\ allocated s !! ptr = None /\ same_pool s s')).
Proof. intros Hok Hc. apply wp_inv. by apply wp_smfree. Qed.

Lemma smfree_correct_witness :
  (exists s', smfree 4096 one_block = Ok (0, s') /\ exists size, heap_free one_block s' 4096 size) /\
  exists s', smfree 5000 one_block = Ok (-1, s') /\ same_pool one_block s'.
Proof.
  split.
  - destruct (smfree_correct 4096 one_block (proj1 one_block_good) (proj2 one_block_good)) as (r & s' & E & [[-> H]|(_ & H & _)]);
      [by exists s'|vm_compute in H; discriminate H].
  - destruct (smfree_correct 5000 one_block (proj1 one_block_good) (proj2 one_block_good)) as (r & s' & E & [[-> H]|(-> & _ & H)]); [|by exists s'].
    pose proof (outcome_eq (fun r _ => r) _ _ _ _ (-1) E ltac:(vm_compute; reflexivity)) as F. discriminate F.
Defined.

(** C3: On a well-formed pool with no two adjacent free areas (a refused
    commit can leave such a pair, and then smrealloc can fail an assertion)
    smrealloc of an allocated block to a size between 1 and 2^32 - 1 either
    replaces it by one block of the new size with the old contents kept up to
    the smaller size, or fails and changes no block. *)
Theorem smrealloc_correct cb ptr old size s :
  pool_ok (sm_pool s) -> coalesced (nodes_of s) -> ptr <> 0 ->
  allocated s !! ptr = Some old -> 0 < size < 2 ^ 32 ->
  exists r s', smrealloc cb ptr size s = Ok (r, s') /\ realloc_outcome cb s ptr old size r s'.
Proof. intros Hok Hc Hp Ha Hsz. apply wp_inv. by apply wp_smrealloc_block. Qed.

Lemma smrealloc_correct_witness :
  exists r s', smrealloc accept_all 4096 200 one_block = Ok (r, s') /\ r = 4096.
Proof.
  destruct (smrealloc_correct accept_all 4096 100 200 one_block) as (r & s' & E & _);
    [exact (proj1 one_block_good)|exact (proj2 one_block_good)|lia|vm_compute; reflexivity|lia|].
  exists r, s'. split; [exact E|]. apply (outcome_eq (fun a _ => a) _ _ _ _ _ E). vm_compute. reflexivity.
Defined.

(** [smfree_all] terminates (the fuel, one more than the number of nodes,
    is enough), fails no assertion, and leaves a single free node that spans
    the whole pool, with all bytes available. *)
Theorem smfree_all_correct s :
  pool_ok (sm_pool s) -> coalesced (nodes_of s) ->
  exists s' n, smfree_all s = Ok (tt, s') /\ nodes_of s' = [n] /\ m_used n = false /\
    mem_area n = smget_base_addr (sm_pool s) /\ m_size n = mp_size (sm_pool s) /\
    smget_free_space (sm_pool s') = mp_size (sm_pool s).
Proof.
  intros Hok Hc. destruct (wp_inv _ _ _ (wp_smfree_all s Hok Hc)) as ([] & s' & E & H).
  destruct H as (H1 & H2 & _ & H4 & H5).
  destruct (POOL_USED_single _ H1 H2) as (n & En & Hu & Ha & Hz & Hav).
  exists s', n. unfold smget_free_space, nodes_of. split_and!; congruence.
Qed.

Lemma smfree_all_correct_witness :
  exists s' n, smfree_all one_block = Ok (tt, s') /\ nodes_of s' = [n] /\ m_size n = 65536.
Proof.
  destruct (smfree_all_correct one_block) as (s' & n & H1 & H2 & _ & _ & H5 & _);
    [exact (proj1 one_block_good)|exact (proj2 one_block_good)|].
  exists s', n. split; [exact H1|]. split; [exact H2|]. rewrite H5. vm_compute. reflexivity.
Defined.


Definition example_ops : list sm_op :=
  [OpAlloc 100; OpAllocAligned 12 300; OpAllocTopdown 4 40000 64; OpAllocFixed 50000 10;
   OpFree 4096; OpRealloc 8192 5000; OpRealloc 50000 0; OpFreeAll].


(** When the free area reaches the first page boundary at or above its
    start, [sm_uncommit] releases exactly the whole pages inside the area: the
    range is page aligned, contained in the area, and misses less than a page
    at either end; when there is no whole page, or no callback, nothing is
    called. *)
Theorem sm_uncommit_whole_pages addr comb_size s :
  0 <= addr -> addr + 4095 < 2 ^ 32 -> 0 <= comb_size < 2 ^ 32 ->
  (- addr) mod 4096 <= comb_size ->
  exists s', sm_uncommit addr comb_size s = Ok (tt, s') /\ sm_pool s' = sm_pool s /\
    sm_mem s' = sm_mem s /\
    ((sm_calls s' = sm_calls s /\
        (mp_uncommit (sm_pool s) = false \/ comb_size < (- addr) mod 4096 + 4096)) \/
     (exists a n, sm_calls s' = CallUncommit a n :: sm_calls s /\
        a mod 4096 = 0 /\ n mod 4096 = 0 /\ 0 < n /\
        addr <= a < addr + 4096 /\ a + n <= addr + comb_size < a + n + 4096)).
Proof.
  intros H1 H2 H3 H4. pose proof (Z.mod_pos_bound (- addr) 4096 ltac:(lia)) as Hm.
  unfold sm_uncommit. rewrite page_align_spec, page_mask_spec.
  rewrite (u32_small (addr + _)) by lia. rewrite (u32_small (_ - addr)) by lia.
  rewrite u64_small by lia.
  set (d := (- addr) mod 4096) in *. replace (addr + d - addr) with d by lia.
  pose proof (Z.mod_pos_bound (comb_size - d) 4096 ltac:(lia)) as Hr.
  pose proof (Z.div_mod (comb_size - d) 4096 ltac:(lia)) as Hd.
  unfold bind, gets. destruct (mp_uncommit (sm_pool s)) eqn:Hu; simpl negb; simpl orb.
  2: { exists s. split_and!; auto. }
  destruct (Z.eqb_spec (comb_size - d - (comb_size - d) mod 4096) 0) as [E|E].
  { exists s. split_and!; [done..|]. left. split; [done|]. right. lia. }
  eexists. split; [reflexivity|]. split; [done|]. split; [done|]. right.
  eexists _, _. split; [reflexivity|]. split_and!; try lia.
  - apply Z.mod_divide; [lia|]. unfold d. exists (- ((- addr) / 4096)).
    pose proof (Z.div_mod (- addr) 4096). lia.
  - apply Z.mod_divide; [lia|]. exists ((comb_size - d) / 4096). lia.
Qed.

Definition uncommit_pool : smstate :=
  MkSm (fst (sminit_comu 4096 65536 true true 0 [])) (fun _ => 7) [].

Lemma sm_uncommit_whole_pages_witness :
  exists s', sm_uncommit 5000 10000 uncommit_pool = Ok (tt, s') /\
    sm_calls s' = [CallUncommit 8192 4096].
Proof.
  destruct (sm_uncommit_whole_pages 5000 10000 uncommit_pool) as (s' & E & _);
    [lia|lia|lia|vm_compute; discriminate|].
  exists s'. split; [exact E|]. apply (outcome_eq (fun _ s => sm_calls s) _ _ _ _ _ E). vm_compute. reflexivity.
Defined.

(** An area that ends before the next page boundary makes [sm_uncommit]
    subtract past zero: freeing 16 bytes at 5000 with the next block right
    behind asks the callback to uncommit [2^64 - 4096] bytes. *)
Theorem sm_uncommit_underflows :
  exists s', sm_uncommit 5000 16 uncommit_pool = Ok (tt, s') /\
    sm_calls s' = [CallUncommit 8192 (2 ^ 64 - 4096)].
Proof. eexists. split; vm_compute; reflexivity. Qed.

(** Two blocks of 100 bytes each, then the free rest of the pool. *)
Definition two_blocks : smstate :=
  match smalloc accept_all 100 one_block with Ok (_, s) => s | Fault _ => one_block end.

(** [smrealloc_aligned] cannot relocate.  When the block at 0x1000 has a
    used successor, growing it copies the contents to the new place, frees the
    old node and then checks the old node's size, so the call fails its own
    assertion although there is room. *)
Theorem smrealloc_aligned_relocate_faults :
  allocated two_blocks !! 4096 = Some 100 /\
  200 <= smget_largest_free_area (sm_pool two_blocks) /\
  smrealloc_aligned accept_all 4096 16 200 two_blocks = Fault AssertFailed.
Proof. split_and!; vm_compute; first [reflexivity | discriminate]. Qed.

(** A pool with a commit callback that accepts the first call only. *)
Definition first_only : list call -> Z -> Z -> bool := fun cs _ _ => bool_decide (cs = []).

Definition after_refusal : smstate :=
  match (smalloc first_only 100 ;; smalloc_aligned first_only 4096 200) uncommit_pool with
  | Ok (_, s) => s
  | Fault _ => uncommit_pool
  end.

(** A refused commit leaves the pool uncoalesced ([sm_alloc_aligned] has
    already split the free node at the aligned address), and freeing the block in front of the two
    free nodes then fails the assertion in [smfree]. *)
Theorem refused_commit_breaks_free :
  allocated after_refusal !! 4096 = Some 100 /\
  pool_ok (sm_pool after_refusal) /\ ~ coalesced (nodes_of after_refusal) /\
  smfree 4096 after_refusal = Fault AssertFailed.
Proof.
  split_and!; [vm_compute; reflexivity| |vm_compute; intros (_ & H & _); discriminate (H eq_refl)|vm_compute; reflexivity].
  assert (sm_pool after_refusal = MkPool 65536 65436 0 [MkNode 0 100 true 4096;
    MkNode 1 3996 false 4196; MkNode 2 61440 false 8192] true true 3) as ->
    by (vm_compute; reflexivity).
  eapply (pool_ok_intro 4096 69632); [|lia|lia|reflexivity].
  split; simpl; try lia; [apply (bool_decide_unpack _); reflexivity|].
  repeat constructor; lia.
Qed.
