(* ===== verification/Pgalloc.v ===== *)
(** * The page allocator of XMS (src/src/base/lib/misc/pgalloc.c)

    The pool is the C array of [int]: element 0 holds the array's length, each
    later element describes one page (0 free, negative the first page of a
    block with the complemented id, positive the offset in its block).  The
    abstract view is the reverse map [page_of]: which block owns a page, and at
    which offset. *)

From stdpp Require Import base numbers list.
From Stdlib Require Import ZArith Lia.
From S2P Require Import Prelude.

Local Open Scope Z_scope.

(** ** Model *)

Definition pgpool := list Z.

Definition rd (i : Z) : M pgpool Z := fun p =>
  match aget p i with Some v => Ok (v, p) | None => Fault OutOfBounds end.

Definition wr (i v : Z) : M pgpool unit := fun p =>
  match aset p i v with Some p' => Ok (tt, p') | None => Fault OutOfBounds end.

(** [for (k = i; k < i + n; k++) p[k] = f(k)]. *)
Fixpoint wr_range (n : nat) (i : Z) (f : Z -> Z) : M pgpool unit :=
  match n with
  | O => ret tt
  | S n => wr i (f i) ;; wr_range n (i + 1) f
  end.

Definition pgainit (npages : Z) : pgpool := (npages + 1) :: replicate (Z.to_nat npages) 0.

Definition pgareset : M pgpool unit :=
  let! len := rd 0 in wr_range (Z.to_nat (len - 1)) 1 (fun _ => 0).

(** The inner loop of [find_free]: [(true, j)] is the return of [i]. *)
Fixpoint find_free_run (fuel : nat) (npages i j : Z) : M pgpool (bool * Z) :=
  match fuel with
  | O => throw OutOfFuel
  | S fuel =>
      let! len := rd 0 in
      if j <? len then
        let! v := rd j in
        if v =? 0 then
          if j - i + 1 =? npages then ret (true, j)
          else find_free_run fuel npages i (j + 1)
        else ret (false, j)
      else ret (false, j)
  end.

Fixpoint find_free_loop (fuel : nat) (npages i : Z) : M pgpool Z :=
  match fuel with
  | O => throw OutOfFuel
  | S fuel' =>
      let! len := rd 0 in
      if i <=? u32 (len - npages) then
        let! v := rd i in
        if v =? 0 then
          if npages =? 1 then ret i
          else
            let! r := find_free_run fuel npages i (i + 1) in
            let '(found, j) := r in
            if found : bool then ret i else find_free_loop fuel' npages (j + 1)
        else find_free_loop fuel' npages (i + 1)
      else ret (-1)
  end.

Definition find_free (npages : Z) : M pgpool Z :=
  let! len := rd 0 in
  if len <? npages then ret (-1)
  else find_free_loop (Z.to_nat (len + 1)) npages 1.

(** [ID(x)]; stored in an [int]. *)
Definition ID (x : Z) : Z := i32 (- x - 1).

Definition pgaalloc (npages id : Z) : M pgpool Z :=
  let! idx := find_free npages in
  (if 0 <? idx then
     wr idx (ID id) ;;
     wr_range (Z.to_nat (npages - 1)) (idx + 1) (fun i => i - idx)
   else ret tt) ;;
  ret (idx - 1).

(** [for (i = a; i < a + n; i++) if (p[page + i]) return -1]. *)
Fixpoint pgaresize_check (n : nat) (i : Z) : M pgpool bool :=
  match n with
  | O => ret true
  | S n =>
      let! v := rd i in
      if truth v then ret false else pgaresize_check n (i + 1)
  end.

Definition pgaresize (page oldpages newpages : Z) : M pgpool Z :=
  let page := u32 (page + 1) in
  let! len := rd 0 in
  assert (u32 (page + oldpages) <? len) ;;
  assert (u32 (page + newpages) <? len) ;;
  let! v := rd page in
  assert (v <? 0) ;;
  if newpages <=? oldpages then
    wr_range (Z.to_nat (oldpages - newpages)) (page + newpages) (fun _ => 0) ;;
    ret page
  else
    let! ok := pgaresize_check (Z.to_nat (newpages - oldpages)) (page + oldpages) in
    if ok : bool then
      wr_range (Z.to_nat (newpages - oldpages)) (page + oldpages) (fun k => k - page) ;;
      ret page
    else ret (-1).

Fixpoint pgafree_loop (fuel : nat) (page : Z) : M pgpool unit :=
  match fuel with
  | O => throw OutOfFuel
  | S fuel =>
      wr page 0 ;;
      let page := page + 1 in
      let! len := rd 0 in
      if page <? len then
        let! v := rd page in
        if 0 <? v then pgafree_loop fuel page else ret tt
      else ret tt
  end.

Definition pgafree (page : Z) : M pgpool unit :=
  let page := u32 (page + 1) in
  let! len := rd 0 in
  assert (page <? len) ;;
  let! v := rd page in
  assert (v <? 0) ;;
  pgafree_loop (Z.to_nat len) page.

(** [for (j = i + 1; j < p[0] && p[j] == 0; j++);] *)
Fixpoint skip_free (fuel : nat) (j : Z) : M pgpool Z :=
  match fuel with
  | O => throw OutOfFuel
  | S fuel =>
      let! len := rd 0 in
      if j <? len then
        let! v := rd j in
        if v =? 0 then skip_free fuel (j + 1) else ret j
      else ret j
  end.

Fixpoint pgaavail_loop (fuel : nat) (max i : Z) : M pgpool Z :=
  match fuel with
  | O => throw OutOfFuel
  | S fuel' =>
      let! len := rd 0 in
      if i <? len then
        let! v := rd i in
        if v =? 0 then
          let! j := skip_free fuel (i + 1) in
          pgaavail_loop fuel' (if max <? j - i then j - i else max) (j + 1)
        else pgaavail_loop fuel' max (i + 1)
      else ret max
  end.

Definition pgaavail_largest : M pgpool Z :=
  let! len := rd 0 in pgaavail_loop (Z.to_nat (len + 1)) 0 1.

Record pgrm := MkRm { rm_id : Z; pgoff : Z }.

Definition pgarmap (page : Z) : M pgpool pgrm :=
  let page := u32 (page + 1) in
  let! len := rd 0 in
  assert (page <? len) ;;
  let! v := rd page in
  if v =? 0 then ret (MkRm (-1) (-1))
  else if 0 <? v then
    let page' := u32 (page - v) in
    let! w := rd page' in
    assert ((0 <? page') && (w <? 0)) ;;
    ret (MkRm (ID w) v)
  else ret (MkRm (ID v) 0).

(** ** Invariant and abstract view *)

(** A page at offset [v] of a block follows the page at offset [v - 1], or the
    first page when [v = 1]. *)
Record pga_ok (p : pgpool) : Prop := {
  pga_len : aget p 0 = Some (Z.of_nat (length p));
  pga_max : Z.of_nat (length p) < 2 ^ 31;
  pga_min : forall i v, 0 < i -> aget p i = Some v -> - 2 ^ 31 <= v < 2 ^ 31;
  pga_link : forall i v, 0 < i -> aget p i = Some v -> 0 < v ->
    v < i /\ exists u, aget p (i - 1) = Some u /\ ((v = 1 /\ u < 0) \/ (1 < v /\ u = v - 1));
}.

Definition pga_pages (p : pgpool) : Z := Z.of_nat (length p) - 1.

(** The block id and offset of page [k], read directly. *)
Definition page_of (p : pgpool) (k : Z) : option (Z * Z) :=
  match aget p (k + 1) with
  | None => None
  | Some v =>
      if v =? 0 then None
      else if v <? 0 then Some (- v - 1, 0)
      else match aget p (k + 1 - v) with
           | Some w => Some (- w - 1, v)
           | None => None
           end
  end.

(** Pages [k .. k+n-1] exist and are all free. *)
Definition free_run (p : pgpool) (k n : Z) : Prop :=
  0 <= k /\ k + n <= pga_pages p /\ forall i, k <= i < k + n -> aget p (i + 1) = Some 0.

(** Pages [k .. k+n-1] are one whole block. *)
Definition block_at (p : pgpool) (k n : Z) : Prop :=
  0 <= k /\ 0 < n /\ k + n <= pga_pages p /\
  (exists v, aget p (k + 1) = Some v /\ v < 0) /\
  (forall i, 0 < i < n -> aget p (k + i + 1) = Some i) /\
  (forall v, aget p (k + n + 1) = Some v -> v <= 0).

(** ** Loops *)

Section loops.
Context (p : pgpool).
Abbreviation len := (Z.of_nat (length p)).
Hypothesis Hlen : aget p 0 = Some len.

Lemma wp_rd i v (Q : Z -> pgpool -> Prop) : aget p i = Some v -> Q v p -> wp (rd i) p Q.
Proof. unfold wp, rd. intros ->. done. Qed.

Lemma wp_rd_len (Q : Z -> pgpool -> Prop) : Q len p -> wp (rd 0) p Q.
Proof. apply wp_rd, Hlen. Qed.

Lemma wp_rd_in i (Q : Z -> pgpool -> Prop) :
  0 <= i < len -> (forall v, aget p i = Some v -> Q v p) -> wp (rd i) p Q.
Proof. intros Hi HQ. destruct (aget_lt _ _ Hi) as [v Hv]. eapply wp_rd; eauto. Qed.

Lemma wp_find_free_run fuel npages i j (Q : bool * Z -> pgpool -> Prop) :
  1 <= i < j -> j <= len -> j - i < npages -> len - j < Z.of_nat fuel ->
  (forall k, i <= k < j -> aget p k = Some 0) ->
  (i + npages <= len -> (forall k, i <= k < i + npages -> aget p k = Some 0) ->
     Q (true, i + npages - 1) p) ->
  (forall j', i < j' <= len -> j' - i < npages -> aget p j' <> Some 0 -> Q (false, j') p) ->
  wp (find_free_run fuel npages i j) p Q.
Proof.
  revert j. induction fuel as [|fuel IH]; intros j Hij Hj Hn Hf Hz Ht Hff; simpl; [lia|].
  wp_step. apply wp_rd_len. destruct (Z.ltb_spec j len) as [Hlt|Hge].
  2: { wp_step. apply Hff; [lia..|]. by rewrite aget_None by lia. }
  wp_step. apply wp_rd_in; [lia|]. intros v Hv. destruct (Z.eqb_spec v 0) as [->|Hv0].
  2: { wp_step. apply Hff; [lia..|]. congruence. }
  assert (forall k, i <= k < j + 1 -> aget p k = Some 0) as Hz'.
  { intros k Hk. destruct (Z.eq_dec k j) as [->|]; [done|]. apply Hz. lia. }
  destruct (Z.eqb_spec (j - i + 1) npages) as [E|E].
  - wp_step. replace j with (i + npages - 1) by lia. apply Ht; [lia|].
    intros k Hk. apply Hz'. lia.
  - apply IH; try done; lia.
Qed.

Lemma wp_find_free_loop fuel npages i (Q : Z -> pgpool -> Prop) :
  1 <= i -> 1 <= npages <= len -> len < 2 ^ 31 ->
  len - i + 1 < Z.of_nat fuel -> (0 < fuel)%nat ->
  (forall k, 0 <= k < i - 1 -> ~ free_run p k npages) ->
  (forall r, free_run p (r - 1) npages -> (forall k, 0 <= k < r - 1 -> ~ free_run p k npages) ->
     Q r p) ->
  ((forall k, ~ free_run p k npages) -> Q (-1) p) ->
  wp (find_free_loop fuel npages i) p Q.
Proof.
  revert i. induction fuel as [|fuel IH]; intros i Hi Hnp Hmax Hf Hf0 Hno Hq Hfail; [lia|].
  cbn [find_free_loop]. wp_step. apply wp_rd_len. rewrite u32_small by lia.
  destruct (Z.leb_spec i (len - npages)) as [Hle|Hgt].
  2: { wp_step. apply Hfail. intros k Hk. destruct (Z.le_gt_cases (i - 1) k).
       - destruct Hk as (_ & Hk & _). unfold pga_pages in Hk. lia.
       - apply (Hno k); [|done]. destruct Hk. lia. }
  assert (forall j', i < j' -> (forall k, 0 <= k < j' - 1 -> ~ free_run p k npages) ->
    wp (find_free_loop fuel npages j') p Q) as Hstep.
  { intros j' Hj Hno'. destruct (Z.le_gt_cases (len - i) 0) as [Hs|Hs]; [lia|].
    apply IH; try done; try lia. }
  wp_step. apply wp_rd_in; [lia|]. intros v Hv.
  assert (v <> 0 -> ~ free_run p (i - 1) npages) as Hnz.
  { intros Hv0 (_ & _ & Hr). specialize (Hr (i - 1) ltac:(lia)).
    replace (i - 1 + 1) with i in Hr by lia. congruence. }
  destruct (Z.eqb_spec v 0) as [->|Hv0].
  2: { apply Hstep; [lia|]. intros k Hk. destruct (Z.eq_dec k (i - 1)) as [->|]; [auto|].
       apply Hno. lia. }
  destruct (Z.eqb_spec npages 1) as [->|Hn1].
  { wp_step. apply Hq; [|done]. split_and!; [lia|unfold pga_pages; lia|].
    intros k Hk. replace (k + 1) with i by lia. done. }
  wp_step. apply wp_find_free_run; try lia.
  - intros k Hk. by replace k with i by lia.
  - intros Hb Hz. wp_step. apply Hq; [|done]. split_and!; [lia|unfold pga_pages; lia|].
    intros k Hk. apply Hz. lia.
  - intros j' Hj Hjn Hnz'. apply Hstep; [lia|]. intros k Hk.
    destruct (Z.le_gt_cases (i - 1) k) as [Hik|Hik]; [|apply Hno; lia].
    intros (_ & Hkb & Hr). unfold pga_pages in Hkb. apply Hnz'.
    specialize (Hr (j' - 1)). replace (j' - 1 + 1) with j' in Hr by lia. apply Hr. lia.
Qed.

Lemma wp_find_free npages (Q : Z -> pgpool -> Prop) :
  1 <= npages -> len < 2 ^ 31 ->
  (forall r, free_run p (r - 1) npages -> (forall k, 0 <= k < r - 1 -> ~ free_run p k npages) ->
     Q r p) ->
  ((forall k, ~ free_run p k npages) -> Q (-1) p) ->
  wp (find_free npages) p Q.
Proof.
  intros Hn Hmax Hq Hf. unfold find_free. wp_step. apply wp_rd_len.
  destruct (Z.ltb_spec len npages) as [Hlt|Hle].
  - wp_step. apply Hf. intros k (? & H & _). unfold pga_pages in H. lia.
  - apply wp_find_free_loop; try done; try lia.
Qed.

Lemma wp_skip_free fuel i j (Q : Z -> pgpool -> Prop) :
  1 <= i < j -> j <= len -> len - j < Z.of_nat fuel ->
  (forall k, i <= k < j -> aget p k = Some 0) ->
  (forall j', i < j' <= len -> (forall k, i <= k < j' -> aget p k = Some 0) ->
     aget p j' <> Some 0 -> Q j' p) ->
  wp (skip_free fuel j) p Q.
Proof.
  revert j. induction fuel as [|fuel IH]; intros j Hij Hj Hf Hz HQ; simpl; [lia|].
  wp_step. apply wp_rd_len. destruct (Z.ltb_spec j len) as [Hlt|Hge].
  2: { wp_step. apply HQ; [lia|done|]. by rewrite aget_None by lia. }
  wp_step. apply wp_rd_in; [lia|]. intros v Hv. destruct (Z.eqb_spec v 0) as [->|Hv0].
  2: { wp_step. apply HQ; [lia|done|congruence]. }
  apply IH; try done; try lia.
  intros k Hk. destruct (Z.eq_dec k j) as [->|]; [done|]. apply Hz. lia.
Qed.

Lemma wp_pgaavail_loop fuel max i (Q : Z -> pgpool -> Prop) :
  1 <= i -> 0 <= max -> len - i + 1 < Z.of_nat fuel -> (0 < fuel)%nat ->
  (max = 0 \/ exists k, free_run p k max) ->
  (forall k n, 0 < n -> free_run p k n -> k < i - 1 -> n <= max) ->
  (forall m, 0 <= m -> (m = 0 \/ exists k, free_run p k m) ->
     (forall k n, 0 < n -> free_run p k n -> n <= m) -> Q m p) ->
  wp (pgaavail_loop fuel max i) p Q.
Proof.
  revert max i. induction fuel as [|fuel IH]; intros max i Hi Hm Hf Hf0 Hw Hub HQ; [lia|].
  cbn [pgaavail_loop]. wp_step. apply wp_rd_len. destruct (Z.ltb_spec i len) as [Hlt|Hge].
  2: { wp_step. apply HQ; try done. intros k n Hn Hr. apply (Hub k n); try done.
       destruct Hr as (_ & Hr & _). unfold pga_pages in Hr. lia. }
  wp_step. apply wp_rd_in; [lia|]. intros v Hv. destruct (Z.eqb_spec v 0) as [->|Hv0].
  2: { apply IH; try done; try lia. intros k n Hn Hr Hk.
       destruct (Z.eq_dec k (i - 1)) as [->|]; [|apply (Hub k n); try done; lia].
       destruct Hr as (_ & _ & Hr). specialize (Hr (i - 1) ltac:(lia)).
       replace (i - 1 + 1) with i in Hr by lia. congruence. }
  wp_step. apply (wp_skip_free _ i); try lia.
  { intros k Hk. by replace k with i by lia. }
  intros j' Hj Hz Hnz. apply IH; try done; try lia.
  - destruct (Z.ltb_spec max (j' - i)); lia.
  - destruct (Z.ltb_spec max (j' - i)); [right|done]. exists (i - 1).
    split_and!; [lia|unfold pga_pages; lia|]. intros k Hk. apply Hz. lia.
  - intros k n Hn Hr Hk. destruct (Z.le_gt_cases (i - 1) k) as [Hik|Hik].
    + assert (k + n <= j' - 1).
      { destruct (Z.le_gt_cases (k + n) (j' - 1)); [done|]. exfalso. apply Hnz.
        destruct Hr as (_ & _ & Hr). specialize (Hr (j' - 1)).
        replace (j' - 1 + 1) with j' in Hr by lia. apply Hr. lia. }
      destruct (Z.ltb_spec max (j' - i)); lia.
    + assert (n <= max) by (apply (Hub k n); try done; lia).
      destruct (Z.ltb_spec max (j' - i)); lia.
Qed.

Lemma wp_wr_range n i f (Q : unit -> pgpool -> Prop) :
  0 <= i -> i + Z.of_nat n <= len -> Q tt (fill n i f p) -> wp (wr_range n i f) p Q.
Proof.
  clear Hlen. revert i. generalize p. clear p.
  induction n as [|n IH]; intros p i Hi Hb HQ; simpl; [done|].
  apply wp_bind. unfold wp at 1, wr. rewrite aset_lt by lia. apply IH; [lia| |done].
  rewrite astore_length. lia.
Qed.

End loops.

(** ** Structure of blocks *)

(** A page at offset [v] has the whole block in front of it. *)
Lemma pga_chain p i v : pga_ok p -> 0 < i -> aget p i = Some v -> 0 < v ->
  v < i /\ (exists w, aget p (i - v) = Some w /\ w < 0) /\
  forall j, 0 < j <= v -> aget p (i - v + j) = Some j.
Proof.
  intros Hok Hi Hv Hpos. revert i Hi Hv.
  pattern v. apply Zlt_lower_bound_ind with (z := 1); [|lia]. clear v Hpos.
  intros v IH Hv1 i Hi Hv. destruct (pga_link _ Hok _ _ Hi Hv) as [Hvi (u & Hu & H)]; [lia|].
  destruct H as [[-> Hneg]|[Hgt ->]].
  - split_and!; [done|eauto|]. intros j Hj. replace (i - 1 + j) with i by lia.
    by replace j with 1 by lia.
  - destruct (IH (v - 1) ltac:(lia) (i - 1) ltac:(lia) Hu) as (H1 & H2 & H3).
    replace (i - 1 - (v - 1)) with (i - v) in * by lia. split_and!; [lia|done|].
    intros j Hj. destruct (Z.eq_dec j v) as [->|].
    + by replace (i - v + v) with i by lia.
    + apply H3. lia.
Qed.

Lemma page_of_head p k : pga_ok p -> 0 <= k -> forall id off, page_of p k = Some (id, off) ->
  0 <= off <= k /\ aget p (k - off + 1) = Some (- id - 1) /\ 0 <= id /\
  aget p (k + 1) = Some (if off =? 0 then - id - 1 else off).
Proof.
  intros Hok Hk id off. unfold page_of. destruct (aget p (k + 1)) as [v|] eqn:Hv; [|done].
  destruct (Z.eqb_spec v 0); [done|]. destruct (Z.ltb_spec v 0) as [Hn|Hn].
  - injection 1 as <- <-. replace (k - 0 + 1) with (k + 1) by lia. rewrite Hv.
    change (0 =? 0) with true. cbv iota. split_and!; try lia; f_equal; lia.
  - destruct (pga_chain _ _ _ Hok (ltac:(lia) : 0 < k + 1) Hv) as (H1 & (w & Hw & Hw0) & _); [lia|].
    rewrite Hw. injection 1 as <- <-. replace (k - v + 1) with (k + 1 - v) by lia.
    rewrite Hw, (proj2 (Z.eqb_neq v 0)) by lia. split_and!; try lia; f_equal; lia.
Qed.

Lemma page_of_range p k r : pga_ok p -> 0 <= k -> page_of p k = Some r -> k < pga_pages p.
Proof.
  intros Hok Hk. unfold page_of. destruct (aget p (k + 1)) eqn:H; [|done].
  apply aget_Some_lt in H. unfold pga_pages. lia.
Qed.

(** ** Overwriting a whole run *)

Lemma page_of_fill_outside p a n f k :
  pga_ok p -> 0 <= a -> a + Z.of_nat n <= pga_pages p -> 0 <= k ->
  ~ a <= k < a + Z.of_nat n ->
  (forall v, aget p (k + 1) = Some v -> 0 < v -> ~ a <= k - v < a + Z.of_nat n) ->
  page_of (fill n (a + 1) f p) k = page_of p k.
Proof.
  unfold pga_pages. intros Hok Ha Hn Hk Hout Hh. unfold page_of.
  rewrite !aget_fill by lia.
  replace ((a + 1 <=? k + 1) && (k + 1 <? a + 1 + Z.of_nat n)) with false.
  2: { symmetry. apply andb_false_iff. destruct (Z.leb_spec (a + 1) (k + 1)); [right|by left].
       apply Z.ltb_ge. lia. }
  destruct (aget p (k + 1)) as [v|] eqn:Hv; [|done].
  destruct (Z.eqb_spec v 0); [done|]. destruct (Z.ltb_spec v 0); [done|].
  rewrite aget_fill by lia. specialize (Hh v eq_refl ltac:(lia)).
  replace ((a + 1 <=? k + 1 - v) && (k + 1 - v <? a + 1 + Z.of_nat n)) with false; [done|].
  symmetry. apply andb_false_iff. destruct (Z.leb_spec (a + 1) (k + 1 - v)); [right|by left].
  apply Z.ltb_ge. lia.
Qed.

Lemma pga_ok_fill p a n f :
  pga_ok p -> 0 <= a -> a + Z.of_nat n <= pga_pages p ->
  (forall k, a < k <= a + Z.of_nat n -> - 2 ^ 31 <= f k < 2 ^ 31) ->
  (forall k, a < k <= a + Z.of_nat n -> 0 < f k ->
     (a + 1 < k /\ ((f k = 1 /\ f (k - 1) < 0) \/ (1 < f k /\ f (k - 1) = f k - 1))) /\ f k < k) ->
  (forall v, aget p (a + Z.of_nat n + 1) = Some v -> v <= 0 \/ n = O) ->
  pga_ok (fill n (a + 1) f p).
Proof.
  unfold pga_pages. intros Hok Ha Hn Hrg Hf Hlast.
  assert (forall k, aget (fill n (a + 1) f p) k =
    if (a + 1 <=? k) && (k <? a + 1 + Z.of_nat n) then Some (f k) else aget p k) as Hg
    by (intros k; apply aget_fill; lia).
  split; rewrite ?fill_length.
  - rewrite Hg. rewrite (proj2 (Z.leb_gt (a + 1) 0)) by lia. apply Hok.
  - apply Hok.
  - intros i v Hi. rewrite Hg.
    destruct (Z.leb_spec (a + 1) i), (Z.ltb_spec i (a + 1 + Z.of_nat n)); simpl;
      [injection 1 as <-; apply Hrg; lia|eapply pga_min; eauto..].
  - intros i v Hi Hv Hpos. rewrite Hg in Hv.
    destruct (Z.leb_spec (a + 1) i) as [H1|H1]; simpl in Hv.
    + destruct (Z.ltb_spec i (a + 1 + Z.of_nat n)) as [H2|H2]; simpl in Hv.
      * injection Hv as <-. destruct (Hf i ltac:(lia) Hpos) as ((H3 & H4) & H5).
        split; [done|]. exists (f (i - 1)). rewrite Hg.
        rewrite (proj2 (Z.leb_le _ _)), (proj2 (Z.ltb_lt _ _)) by lia. done.
      * destruct (pga_link _ Hok i v Hi Hv Hpos) as [H3 H4]. split; [done|].
        rewrite Hg. destruct (Z.ltb_spec (i - 1) (a + 1 + Z.of_nat n)).
        { assert (i = a + Z.of_nat n + 1) as -> by lia.
          destruct (Hlast v Hv) as [? | ->]; [lia|].
          rewrite (proj2 (Z.leb_gt _ _)) by lia. done. }
        by rewrite andb_false_r.
    + destruct (pga_link _ Hok i v Hi Hv Hpos) as [H3 H4]. split; [done|].
      rewrite Hg, (proj2 (Z.leb_gt (a + 1) (i - 1))) by lia. done.
Qed.

(** Contents of a block of [id] that starts at page [k]. *)
Definition block_cells (k id i : Z) : Z := if i =? k + 1 then - id - 1 else i - (k + 1).

Definition with_block (k n id : Z) (p : pgpool) : pgpool :=
  fill (Z.to_nat n) (k + 1) (block_cells k id) p.

Definition without_pages (k n : Z) (p : pgpool) : pgpool :=
  fill (Z.to_nat n) (k + 1) (fun _ => 0) p.

Lemma ID_small id : 0 <= id < 2 ^ 31 -> ID id = - id - 1.
Proof. intros H. unfold ID. apply i32_small. lia. Qed.

Lemma wp_wr_block idx n id p (Q : unit -> pgpool -> Prop) :
  1 <= idx -> 0 < n -> idx + n <= Z.of_nat (length p) -> 0 <= id < 2 ^ 31 ->
  Q tt (with_block (idx - 1) n id p) ->
  wp (wr idx (ID id) ;; wr_range (Z.to_nat (n - 1)) (idx + 1) (fun i => i - idx)) p Q.
Proof.
  intros Hi Hn Hb Hid HQ. wp_step. unfold wp at 1, wr. rewrite aset_lt by lia.
  apply wp_wr_range; [lia|rewrite astore_length; lia|].
  revert HQ. unfold with_block. replace (Z.to_nat n) with (S (Z.to_nat (n - 1))) by lia.
  simpl. replace (idx - 1 + 1) with idx by lia. unfold block_cells at 2.
  replace (idx - 1 + 1) with idx by lia.
  rewrite Z.eqb_refl, ID_small by done.
  rewrite (fill_ext _ _ (block_cells (idx - 1) id) (fun i => i - idx)); [done|].
  intros k Hk. unfold block_cells. rewrite (proj2 (Z.eqb_neq _ _)); lia.
Qed.

(** Adding a block over free pages. *)
Lemma with_block_spec p k n id :
  pga_ok p -> 0 < n -> 0 <= id < 2 ^ 31 -> free_run p k n ->
  pga_ok (with_block k n id p) /\ block_at (with_block k n id p) k n /\
  length (with_block k n id p) = length p /\
  forall j, 0 <= j -> page_of (with_block k n id p) j =
    if (k <=? j) && (j <? k + n) then Some (id, j - k) else page_of p j.
Proof.
  intros Hok Hn Hid (Hk & Hb & Hz). pose proof (pga_max _ Hok). unfold pga_pages in Hb.
  assert (forall i, aget (with_block k n id p) i =
    if (k + 1 <=? i) && (i <? k + 1 + n) then Some (block_cells k id i) else aget p i) as Hg.
  { intros i. unfold with_block. rewrite aget_fill, Z2Nat.id by lia. done. }
  assert (forall v, aget p (k + n + 1) = Some v -> v <= 0) as Hl.
  { intros v Hv. destruct (Z.le_gt_cases v 0); [done|].
    destruct (pga_link _ Hok _ _ (ltac:(lia) : 0 < k + n + 1) Hv) as [_ (u & Hu & H3)]; [lia|].
    replace (k + n + 1 - 1) with (k + n - 1 + 1) in Hu by lia.
    rewrite Hz in Hu by lia. injection Hu as <-. lia. }
  split_and!.
  - apply pga_ok_fill; try done; unfold pga_pages; rewrite ?Z2Nat.id; try lia; unfold block_cells.
    + intros i Hi. destruct (Z.eqb_spec i (k + 1)); lia.
    + intros i Hi. destruct (Z.eqb_spec i (k + 1)); [lia|].
      destruct (Z.eqb_spec (i - 1) (k + 1)); lia.
    + intros v Hv. left. by apply Hl.
  - split_and!; try done; [unfold pga_pages, with_block; rewrite fill_length; lia|..].
    + exists (- id - 1). rewrite Hg, (proj2 (Z.leb_le _ _)), (proj2 (Z.ltb_lt _ _)) by lia.
      unfold block_cells. rewrite Z.eqb_refl. split; [done|lia].
    + intros i Hi. rewrite Hg, (proj2 (Z.leb_le _ _)), (proj2 (Z.ltb_lt _ _)) by lia.
      simpl. unfold block_cells. rewrite (proj2 (Z.eqb_neq _ _)) by lia. f_equal. lia.
    + intros v. rewrite Hg, (proj2 (Z.ltb_ge _ (k + 1 + n))), andb_false_r by lia. apply Hl.
  - apply fill_length.
  - intros j Hj. destruct (Z.leb_spec k j) as [H1|H1]; [destruct (Z.ltb_spec j (k + n)) as [H2|H2]|].
    2,3: apply page_of_fill_outside; try done; unfold pga_pages; rewrite ?Z2Nat.id; try lia;
      intros v Hv Hpos Hin; destruct (pga_chain _ _ _ Hok (ltac:(lia) : 0 < j + 1) Hv Hpos)
        as (_ & (w & Hw & Hw0) & _); replace (j + 1 - v) with (j - v + 1) in Hw by lia;
      rewrite Hz in Hw by lia; injection Hw as <-; lia.
    simpl. unfold page_of. rewrite Hg, (proj2 (Z.leb_le _ _)), (proj2 (Z.ltb_lt _ _)) by lia.
    simpl. unfold block_cells. destruct (Z.eqb_spec (j + 1) (k + 1)).
    + rewrite (proj2 (Z.eqb_neq _ 0)), (proj2 (Z.ltb_lt _ 0)) by lia. f_equal. f_equal; lia.
    + rewrite (proj2 (Z.eqb_neq _ 0)), (proj2 (Z.ltb_ge _ 0)) by lia.
      rewrite Hg, (proj2 (Z.leb_le _ _)), (proj2 (Z.ltb_lt _ _)) by lia. simpl.
      unfold block_cells. rewrite (proj2 (Z.eqb_eq _ _)) by lia. f_equal. f_equal; lia.
Qed.

(** Clearing the pages of a block from offset [m] on. *)
Lemma without_pages_spec p k n m :
  pga_ok p -> block_at p k n -> 0 <= m <= n ->
  pga_ok (without_pages (k + m) (n - m) p) /\
  length (without_pages (k + m) (n - m) p) = length p /\
  (0 < m -> block_at (without_pages (k + m) (n - m) p) k m) /\
  forall j, 0 <= j -> page_of (without_pages (k + m) (n - m) p) j =
    if (k + m <=? j) && (j <? k + n) then None else page_of p j.
Proof.
  intros Hok (Hk & Hn & Hb & (h & Hh & Hh0) & Hbl & Hl) Hm. unfold pga_pages in Hb.
  assert (forall i, aget (without_pages (k + m) (n - m) p) i =
    if (k + m + 1 <=? i) && (i <? k + n + 1) then Some 0 else aget p i) as Hg.
  { intros i. unfold without_pages. rewrite aget_fill, Z2Nat.id by lia.
    by replace (k + m + 1 + (n - m)) with (k + n + 1) by lia. }
  split_and!.
  - apply pga_ok_fill; try done; unfold pga_pages; rewrite ?Z2Nat.id; try lia.
    intros v. replace (k + m + (n - m) + 1) with (k + n + 1) by lia. eauto.
  - apply fill_length.
  - intros Hm0. split_and!; try lia; [unfold pga_pages, without_pages; rewrite fill_length; lia|..].
    + exists h. rewrite Hg, (proj2 (Z.leb_gt _ _)) by lia. done.
    + intros i Hi. rewrite Hg, (proj2 (Z.leb_gt _ _)) by lia. apply Hbl. lia.
    + intros v. destruct (Z.eq_dec m n) as [->|].
      * rewrite Hg, (proj2 (Z.ltb_ge _ (k + n + 1))), andb_false_r by lia. apply Hl.
      * rewrite Hg, (proj2 (Z.leb_le _ _)), (proj2 (Z.ltb_lt _ _)) by lia. injection 1 as <-. lia.
  - intros j Hj. destruct (Z.leb_spec (k + m) j) as [H1|H1]; [destruct (Z.ltb_spec j (k + n)) as [H2|H2]|].
    + unfold page_of. rewrite Hg, (proj2 (Z.leb_le _ _)), (proj2 (Z.ltb_lt _ _)) by lia. done.
    + apply page_of_fill_outside; try done; unfold pga_pages; rewrite ?Z2Nat.id; try lia.
      intros v Hv Hpos Hin.
      destruct (pga_chain _ _ _ Hok (ltac:(lia) : 0 < j + 1) Hv Hpos) as (_ & (w & Hw & Hw0) & Hc).
      assert (j - v = k) as E.
      { destruct (Z.eq_dec (j - v) k) as [|Hne]; [done|].
        assert (aget p (k + (j - v - k) + 1) = Some (j - v - k)) as E by (apply Hbl; lia).
        replace (k + (j - v - k) + 1) with (j + 1 - v) in E by lia.
        rewrite Hw in E. injection E as ->. lia. }
      enough (n <= 0) by lia. apply Hl. replace (k + n + 1) with (j + 1 - v + n) by lia. apply Hc. lia.
    + apply page_of_fill_outside; try done; unfold pga_pages; rewrite ?Z2Nat.id; try lia.
Qed.

(** ** Operations *)

Lemma wp_pgaalloc p npages id (Q : Z -> pgpool -> Prop) :
  pga_ok p -> 1 <= npages -> 0 <= id < 2 ^ 31 ->
  (forall r, free_run p r npages -> (forall k, 0 <= k < r -> ~ free_run p k npages) ->
     Q r (with_block r npages id p)) ->
  ((forall k, ~ free_run p k npages) -> Q (-2) p) ->
  wp (pgaalloc npages id) p Q.
Proof.
  intros Hok Hn Hid HQ Hf. unfold pgaalloc. wp_step.
  apply wp_find_free; [apply Hok|done|apply Hok|..].
  - intros r Hr Hlm. pose proof Hr as (H1 & H2 & _). unfold pga_pages in H2.
    rewrite (proj2 (Z.ltb_lt 0 r)) by lia. wp_step. apply wp_wr_block; try lia.
    wp_step. by apply HQ.
  - intros Hno. wp_step. change (0 <? -1) with false. cbv iota. wp_step. wp_step. by apply Hf.
Qed.

Lemma wp_pgafree_loop p fuel k m (Q : unit -> pgpool -> Prop) :
  pga_ok p -> 0 <= k -> 0 <= m -> k + m < pga_pages p ->
  (exists v, aget p (k + 1) = Some v /\ v < 0) ->
  (forall i, 0 < i <= m -> aget p (k + i + 1) = Some i) ->
  pga_pages p - (k + m) <= Z.of_nat fuel ->
  (forall n, block_at p k n -> Q tt (without_pages k n p)) ->
  wp (pgafree_loop fuel (k + m + 1)) (without_pages k m p) Q.
Proof.
  intros Hok Hk. revert m. induction fuel as [|fuel IH]; intros m Hm Hb Hh Hc Hf HQ.
  { unfold pga_pages in *. lia. }
  cbn [pgafree_loop]. unfold pga_pages in *. wp_step. unfold wp at 1, wr.
  assert (length (without_pages k m p) = length p) as Hl by apply fill_length.
  rewrite aset_lt by lia.
  assert (astore (without_pages k m p) (k + m + 1) 0 = without_pages k (m + 1) p) as ->.
  { apply aget_ext. intros i. rewrite aget_astore by lia. unfold without_pages.
    rewrite !aget_fill, !Z2Nat.id by lia.
    destruct (Z.eqb_spec i (k + m + 1)), (Z.leb_spec (k + 1) i),
      (Z.ltb_spec i (k + 1 + m)), (Z.ltb_spec i (k + 1 + (m + 1))); simpl; try done; lia. }
  assert (forall i, i <= 0 \/ k + m + 1 < i -> aget (without_pages k (m + 1) p) i = aget p i) as Hg.
  { intros i Hi. unfold without_pages. rewrite aget_fill, Z2Nat.id by lia.
    destruct (Z.leb_spec (k + 1) i), (Z.ltb_spec i (k + 1 + (m + 1))); simpl; try done; lia. }
  assert (forall i, 0 < i < m + 1 -> aget p (k + i + 1) = Some i) as Hc' by (intros; apply Hc; lia).
  wp_step. eapply wp_rd; [rewrite Hg by lia; apply Hok|].
  destruct (Z.ltb_spec (k + m + 1 + 1) (Z.of_nat (length p))) as [Hlt|Hge].
  - wp_step. destruct (aget_lt p (k + m + 1 + 1)) as [v Hv]; [lia|].
    eapply wp_rd; [rewrite Hg by lia; exact Hv|].
    destruct (Z.ltb_spec 0 v) as [Hpos|Hneg].
    + replace (k + m + 1 + 1) with (k + (m + 1) + 1) by lia. apply IH; try done; try lia.
      intros i Hi. destruct (Z.eq_dec i (m + 1)) as [->|]; [|apply Hc; lia].
      replace (k + (m + 1) + 1) with (k + m + 1 + 1) by lia. rewrite Hv. f_equal.
      destruct (pga_link _ Hok _ _ (ltac:(lia) : 0 < k + m + 1 + 1) Hv Hpos) as (_ & u & Hu & H).
      replace (k + m + 1 + 1 - 1) with (k + m + 1) in Hu by lia.
      destruct (Z.eq_dec m 0) as [->|].
      { destruct Hh as (w & Hw & Hw0). replace (k + 0 + 1) with (k + 1) in Hu by lia.
        rewrite Hw in Hu. injection Hu as <-. lia. }
      rewrite (Hc m) in Hu by lia. injection Hu as <-. lia.
    + wp_step. apply HQ. split_and!; try done; try lia; [unfold pga_pages; lia|].
      intros v'. replace (k + (m + 1) + 1) with (k + m + 1 + 1) by lia. rewrite Hv.
      injection 1 as <-. lia.
  - wp_step. apply HQ. split_and!; try done; try lia; [unfold pga_pages; lia|].
    intros v'. rewrite aget_None by lia. done.
Qed.

Lemma wp_pgafree p k (Q : unit -> pgpool -> Prop) :
  pga_ok p -> 0 <= k -> (exists id, page_of p k = Some (id, 0)) ->
  (forall n, block_at p k n -> Q tt (without_pages k n p)) ->
  wp (pgafree k) p Q.
Proof.
  intros Hok Hk [id Hid] HQ. pose proof (pga_max _ Hok).
  pose proof (page_of_range _ _ _ Hok Hk Hid) as Hr. unfold pga_pages in Hr.
  destruct (page_of_head _ _ Hok Hk _ _ Hid) as (_ & _ & Hid0 & Hh).
  change (0 =? 0) with true in Hh. cbv iota in Hh.
  unfold pgafree. rewrite u32_small by lia.
  wp_step. apply wp_rd_len; [apply Hok|]. wp_step. apply wp_assert; [apply Z.ltb_lt; lia|].
  wp_step. eapply wp_rd; [done|]. wp_step. apply wp_assert; [apply Z.ltb_lt; lia|].
  replace (k + 1) with (k + 0 + 1) by lia.
  change (wp (pgafree_loop (Z.to_nat (Z.of_nat (length p))) (k + 0 + 1)) (without_pages k 0 p) Q).
  apply wp_pgafree_loop; try done; unfold pga_pages; try lia.
  exists (- id - 1). split; [done|lia].
Qed.

Lemma pgarmap_spec p k : pga_ok p -> 0 <= k < pga_pages p ->
  pgarmap k p = Ok (match page_of p k with
                    | Some (id, off) => MkRm id off
                    | None => MkRm (-1) (-1)
                    end, p).
Proof.
  unfold pga_pages. intros Hok Hk. pose proof (pga_max _ Hok).
  unfold pgarmap, page_of, bind, rd, assert. rewrite u32_small by lia.
  rewrite (pga_len _ Hok). rewrite (proj2 (Z.ltb_lt _ _)) by lia. cbv iota. unfold ret at 1.
  destruct (aget p (k + 1)) as [v|] eqn:Hv.
  2: { destruct (aget_lt p (k + 1)) as [? ?]; [lia|congruence]. }
  destruct (Z.eqb_spec v 0); [done|].
  destruct (Z.ltb_spec 0 v), (Z.ltb_spec v 0); try lia.
  - destruct (pga_chain _ _ _ Hok (ltac:(lia) : 0 < k + 1) Hv) as (Hvk & (w & Hw & Hw0) & _); [lia|].
    rewrite u32_small, Hw by lia. rewrite (proj2 (Z.ltb_lt 0 _)), (proj2 (Z.ltb_lt w 0)) by lia.
    simpl. unfold ret. do 3 f_equal. apply i32_small.
    pose proof (pga_min _ Hok _ _ (ltac:(lia) : 0 < k + 1 - v) Hw). lia.
  - unfold ret. do 3 f_equal. apply i32_small.
    pose proof (pga_min _ Hok _ _ (ltac:(lia) : 0 < k + 1) Hv). lia.
Qed.

Lemma wp_pgaavail_largest p (Q : Z -> pgpool -> Prop) :
  pga_ok p ->
  (forall m, 0 <= m -> (m = 0 \/ exists k, free_run p k m) ->
     (forall k n, 0 < n -> free_run p k n -> n <= m) -> Q m p) ->
  wp pgaavail_largest p Q.
Proof.
  intros Hok HQ. unfold pgaavail_largest. wp_step. apply wp_rd_len; [apply Hok|].
  apply wp_pgaavail_loop; try done; try lia; [apply Hok|..].
  intros k n Hn (? & _). lia.
Qed.

Lemma pgainit_ok n : 0 <= n < 2 ^ 31 - 1 -> pga_ok (pgainit n).
Proof.
  intros Hn. assert (Z.of_nat (length (pgainit n)) = n + 1) as Hl.
  { unfold pgainit. simpl. rewrite length_replicate. lia. }
  assert (forall i v, 0 < i -> aget (pgainit n) i = Some v -> v = 0) as Hz.
  { intros i v Hi. unfold aget, pgainit. rewrite (proj2 (Z.ltb_ge i 0)) by lia.
    destruct (Z.to_nat i) eqn:E; [lia|]. simpl.
    by intros [-> _]%lookup_replicate. }
  split.
  - rewrite Hl. done.
  - lia.
  - intros i v Hi Hv. apply Hz in Hv; [lia|done].
  - intros i v Hi Hv. apply Hz in Hv; [lia|done].
Qed.

(** ** Properties *)

(** [pgaalloc] of [npages > 0] pages takes the leftmost run of free pages
    that is long enough: afterwards the reverse map gives [(id, offset)] on
    exactly those pages and is unchanged elsewhere; it fails (with a negative
    result and an unchanged pool) only when no such run exists. *)
Theorem pgaalloc_correct p npages id :
  pga_ok p -> 1 <= npages < 2 ^ 32 -> 0 <= id < 2 ^ 31 ->
  exists r p', pgaalloc npages id p = Ok (r, p') /\ pga_ok p' /\
    ((0 <= r /\ free_run p r npages /\ (forall k, 0 <= k < r -> ~ free_run p k npages) /\
      block_at p' r npages /\
      forall k, 0 <= k -> page_of p' k =
        if (r <=? k) && (k <? r + npages) then Some (id, k - r) else page_of p k) \/
     (r = -2 /\ p' = p /\ forall k, ~ free_run p k npages)).
Proof.
  intros Hok Hn Hid. apply wp_inv. apply wp_pgaalloc; try done; [lia|..].
  - intros r Hr Hlm. destruct (with_block_spec p r npages id) as (H1 & H2 & _ & H3); try done; [lia|].
    split; [done|]. left. split_and!; try done. apply Hr.
  - intros Hno. split; [done|]. by right.
Qed.

Definition example_pga : pgpool := [6; -8; 1; 0; 0; 0].

Lemma example_pga_ok : pga_ok example_pga.
Proof.
  assert (forall i v, 0 < i -> aget example_pga i = Some v ->
    (i = 1 /\ v = -8) \/ (i = 2 /\ v = 1) \/ v = 0) as H.
  { intros i v Hi Hv. pose proof (aget_Some_lt _ _ _ Hv) as Hl. simpl in Hl.
    assert (i = 1 \/ i = 2 \/ i = 3 \/ i = 4 \/ i = 5) as Hc by lia.
    destruct Hc as [-> | [-> | [-> | [-> | ->]]]]; injection Hv as <-; auto. }
  split; [done|simpl; lia|..]; intros i v Hi Hv;
    destruct (H i v Hi Hv) as [[-> ->]|[[-> ->]| ->]]; try lia.
  intros _. split; [lia|]. exists (-8). split; [done|lia].
Qed.

Lemma pgaalloc_correct_witness :
  exists p', pgaalloc 2 9 example_pga = Ok (2, p') /\ pga_ok p' /\ page_of p' 3 = Some (9, 1).
Proof.
  destruct (pgaalloc_correct example_pga 2 9 example_pga_ok) as (r & p' & E & Hok & _); [lia|lia|].
  vm_compute in E. injection E as <- <-. eexists. split; [reflexivity|]. split; [exact Hok|reflexivity].
Defined.

(** [pgafree] on the first page of a block frees exactly the pages of
    that block, whatever its length, and the loop ends at the block's end. *)
Theorem pgafree_correct p k id :
  pga_ok p -> 0 <= k -> page_of p k = Some (id, 0) ->
  exists n p', block_at p k n /\ pgafree k p = Ok (tt, p') /\ pga_ok p' /\
    forall j, 0 <= j -> page_of p' j =
      if (k <=? j) && (j <? k + n) then None else page_of p j.
Proof.
  intros Hok Hk Hid.
  destruct (wp_inv (pgafree k) p (fun _ p' => exists n, block_at p k n /\ p' = without_pages k n p))
    as ([] & p' & E & n & Hb & ->).
  { apply wp_pgafree; eauto. }
  exists n, (without_pages k n p). split; [done|]. split; [done|].
  destruct (without_pages_spec p k n 0 Hok Hb) as (H1 & _ & _ & H2); [destruct Hb; lia|].
  replace (k + 0) with k in * by lia. replace (n - 0) with n in * by lia. done.
Qed.

Lemma pgafree_correct_witness :
  exists n p', block_at example_pga 0 n /\ pgafree 0 example_pga = Ok (tt, p') /\
    p' = [6; 0; 0; 0; 0; 0].
Proof.
  destruct (pgafree_correct example_pga 0 7 example_pga_ok) as (n & p' & Hb & E & _); [lia|done|].
  exists n, p'. split; [exact Hb|]. split; [exact E|]. vm_compute in E. injection E as <-. reflexivity.
Defined.

(** Freeing what [pgaalloc] just returned restores the pool bit for bit. *)
Theorem pgaalloc_pgafree p npages id r p' :
  pga_ok p -> 1 <= npages < 2 ^ 32 -> 0 <= id < 2 ^ 31 ->
  pgaalloc npages id p = Ok (r, p') -> 0 <= r ->
  pgafree r p' = Ok (tt, p).
Proof.
  intros Hok Hn Hid E Hr.
  assert (wp (pgaalloc npages id) p (fun r p' => r = -2 \/
    (free_run p r npages /\ p' = with_block r npages id p))) as Hw
    by (apply wp_pgaalloc; try done; [lia|by right; eauto|by left]).
  unfold wp in Hw. rewrite E in Hw. destruct Hw as [?|[Hrun ->]]; [lia|].
  destruct (with_block_spec p r npages id) as (H1 & H2 & H3 & H4); try done; [lia|].
  destruct (wp_inv (pgafree r) (with_block r npages id p) (fun _ q =>
    exists n, block_at (with_block r npages id p) r n /\
      q = without_pages r n (with_block r npages id p))) as ([] & q & Eq & n & Hb & ->).
  { apply wp_pgafree; eauto. exists id. rewrite H4 by lia.
    rewrite (proj2 (Z.leb_le _ _)), (proj2 (Z.ltb_lt _ _)) by lia. simpl. do 2 f_equal. lia. }
  rewrite Eq. do 2 f_equal. assert (n = npages) as ->.
  { destruct H2 as (_ & _ & _ & _ & Hi1 & Hl1), Hb as (_ & ? & _ & _ & Hi2 & Hl2).
    destruct (Z.lt_trichotomy n npages) as [Hlt|[?|Hgt]]; [|done|].
    - specialize (Hl2 n). rewrite (Hi1 n) in Hl2 by lia. specialize (Hl2 eq_refl). lia.
    - specialize (Hl1 npages). rewrite (Hi2 npages) in Hl1 by lia. specialize (Hl1 eq_refl). lia. }
  destruct Hrun as (? & Hb2 & Hz). unfold pga_pages in Hb2.
  apply aget_ext. intros i. unfold without_pages. rewrite aget_fill, Z2Nat.id by lia.
  unfold with_block. rewrite aget_fill, Z2Nat.id by lia.
  destruct (Z.leb_spec (r + 1) i), (Z.ltb_spec i (r + 1 + npages)); simpl; try done.
  specialize (Hz (i - 1)). replace (i - 1 + 1) with i in Hz by lia. symmetry. apply Hz. lia.
Qed.

Lemma pgaalloc_pgafree_witness : pgafree 2 [6; -8; 1; -10; 1; 0] = Ok (tt, example_pga).
Proof.
  apply (pgaalloc_pgafree example_pga 2 9); [exact example_pga_ok|lia|lia|reflexivity|lia].
Defined.

(** [pgaavail_largest] is the largest request that succeeds: [pgaalloc]
    of [npages > 0] pages returns a page exactly when
    [npages <= pgaavail_largest]. *)
Theorem pgaavail_largest_correct p npages id :
  pga_ok p -> 1 <= npages < 2 ^ 32 -> 0 <= id < 2 ^ 31 ->
  exists m r p', pgaavail_largest p = Ok (m, p) /\ pgaalloc npages id p = Ok (r, p') /\
    (0 <= r <-> npages <= m).
Proof.
  intros Hok Hn Hid.
  destruct (wp_inv pgaavail_largest p (fun m p' => p' = p /\ (m = 0 \/ exists k, free_run p k m) /\
     (forall k n, 0 < n -> free_run p k n -> n <= m))) as (m & ? & E & -> & H1 & H2).
  { apply wp_pgaavail_largest; auto. }
  destruct (wp_inv (pgaalloc npages id) p (fun r p' =>
    (0 <= r /\ exists k, free_run p k npages) \/ (r = -2 /\ forall k, ~ free_run p k npages)))
    as (r & p' & E' & H3).
  { apply wp_pgaalloc; try done; [lia|..].
    - intros r Hr _. left. split; [apply Hr|eauto].
    - by right. }
  exists m, r, p'. split; [done|]. split; [done|]. split.
  - intros Hr. destruct H3 as [(_ & k & Hk)|[? _]]; [|lia]. eapply H2; [lia|done].
  - intros Hm. destruct H3 as [[? _]|[_ Hno]]; [done|]. exfalso.
    destruct H1 as [?|(k & Hk1 & Hk2 & Hk3)]; [lia|]. apply (Hno k).
    split_and!; [done|lia|]. intros i Hi. apply Hk3. lia.
Qed.

Lemma pgaavail_largest_correct_witness :
  exists r p', pgaavail_largest example_pga = Ok (3, example_pga) /\
    pgaalloc 3 1 example_pga = Ok (r, p') /\ 0 <= r.
Proof.
  destruct (pgaavail_largest_correct example_pga 3 1 example_pga_ok) as (m & r & p' & E1 & E2 & H);
    [lia|lia|].
  exists r, p'. assert (m = 3) as -> by (vm_compute in E1; by injection E1).
  split; [exact E1|]. split; [exact E2|]. apply H. lia.
Defined.

(** [pgarmap] computes the reverse map without failing its assertion. *)
Theorem pgarmap_correct p k :
  pga_ok p -> 0 <= k < pga_pages p ->
  pgarmap k p = Ok (match page_of p k with
                    | Some (id, off) => MkRm id off
                    | None => MkRm (-1) (-1)
                    end, p).
Proof. apply pgarmap_spec. Qed.

Lemma pgarmap_correct_witness : pgarmap 1 example_pga = Ok (MkRm 7 1, example_pga).
Proof.
  rewrite (pgarmap_correct example_pga 1 example_pga_ok); [reflexivity|].
  change (pga_pages example_pga) with 5. lia.
Defined.

(** [pgaresize] cannot resize a block that ends at the last page, not even
    to the same size, although shrinking it in place is possible: its bound
    checks are off by one. *)
Theorem pgaresize_last_page_faults :
  (let! r := pgaalloc 5 0 in pgaresize r 5 4) (pgainit 5) = Fault AssertFailed /\
  (let! r := pgaalloc 4 0 in pgaresize r 4 3) (pgainit 5) = Ok (1, [6; -1; 1; 2; 0; 0]).
Proof. split; vm_compute; reflexivity. Qed.
