(* ===== verification/Pic.v ===== *)
(** * The interrupt controllers (src/src/base/dev/pic: i8259.c, i8259_common.c,
    irq.c, pic.c)

    Two 8259s; the slave's output is wired to input 2 of the master
    ([set_irq_level]), the master's output to the CPU ([set_int_out]).  Registers
    are 8-bit [Z]s, flags are [bool]s.  The mutex of pic.c is not modelled: each
    entry point is one atomic step. *)

From stdpp Require Import base numbers list.
From Stdlib Require Import ZArith Lia.
From S2P Require Import Prelude.

Local Open Scope Z_scope.

(** ** State *)

Record PICCommonState := MkPic {
  last_irr : Z;
  irr : Z;
  imr : Z;
  isr : Z;
  priority_add : Z;
  irq_base : Z;
  read_reg_select : bool;
  poll : bool;
  special_mask : bool;
  init_state : Z;
  auto_eoi : bool;
  rotate_on_auto_eoi : bool;
  special_fully_nested_mode : bool;
  init4 : bool;
  single_mode : bool;
  elcr : Z;
  elcr_mask : Z;
  master : bool;
  fake_irr : Z;
}.
#[export] Instance eta_pic : Eta PICCommonState :=
  fun s => MkPic s.(last_irr) s.(irr) s.(imr) s.(isr) s.(priority_add) s.(irq_base)
    s.(read_reg_select) s.(poll) s.(special_mask) s.(init_state) s.(auto_eoi)
    s.(rotate_on_auto_eoi) s.(special_fully_nested_mode) s.(init4) s.(single_mode)
    s.(elcr) s.(elcr_mask) s.(master) s.(fake_irr).

Record pics := MkPics {
  pic0 : PICCommonState;
  pic1 : PICCommonState;
  int_out : Z;                 (* level of the CPU's INT line *)
  irq_level : list Z;          (* [16] *)
  irq_count : list Z;          (* [16], uint64_t *)
}.
#[export] Instance eta_pics : Eta pics :=
  fun s => MkPics s.(pic0) s.(pic1) s.(int_out) s.(irq_level) s.(irq_count).

Inductive chip := Master | Slave.

Definition chip_of (c : chip) (s : pics) : PICCommonState :=
  match c with Master => pic0 s | Slave => pic1 s end.

Definition upd_chip (c : chip) (f : PICCommonState -> PICCommonState) : M pics unit :=
  modify (fun s => match c with Master => s <| pic0 ::= f |> | Slave => s <| pic1 ::= f |> end).

(** ** Priority resolution *)

(** The [while] loop; 8 iterations are enough for a non-zero 8-bit mask. *)
Fixpoint priority_loop (fuel : nat) (add mask priority : Z) : Z :=
  match fuel with
  | O => 8
  | S fuel =>
      if Z.land mask (Z.shiftl 1 (Z.land (priority + add) 7)) =? 0
      then priority_loop fuel add mask (priority + 1) else priority
  end.

Definition get_priority (s : PICCommonState) (mask : Z) : Z :=
  if mask =? 0 then 8 else priority_loop 8 (priority_add s) mask 0.

Definition service_mask (s : PICCommonState) : Z :=
  let mask := isr s in
  let mask := if special_mask s then Z.land mask (Z.lnot (imr s)) else mask in
  if special_fully_nested_mode s && master s then Z.land mask (Z.lnot 4) else mask.

Definition pic_get_irq (s : PICCommonState) : Z :=
  let priority := get_priority s (Z.land (irr s) (Z.lnot (imr s))) in
  if priority =? 8 then -1
  else
    let cur_priority := get_priority s (service_mask s) in
    if priority <? cur_priority then Z.land (priority + priority_add s) 7 else -1.

Definition pic_get_output (s : PICCommonState) : bool := 0 <=? pic_get_irq s.

(** ** Inputs *)

Definition pic_stat_update_irq (irq level : Z) : M pics unit := fun s =>
  match aget (irq_level s) irq, aget (irq_count s) irq with
  | Some l, Some n =>
      if negb (level =? l) then
        Ok (tt, s <| irq_level ::= fun t => astore t irq level |>
                  <| irq_count ::= fun t => if level =? 1 then astore t irq (u64 (n + 1)) else t |>)
      else Ok (tt, s)
  | _, _ => Fault OutOfBounds
  end.

(** The register part of [pic_set_irq]. *)
Definition latch (irq : Z) (level : bool) (s : PICCommonState) : PICCommonState :=
  let mask := Z.shiftl 1 irq in
  if truth (Z.land (elcr s) mask) then
    if level then
      s <| irr ::= fun r => u8 (Z.lor r mask) |> <| last_irr ::= fun r => u8 (Z.lor r mask) |>
    else
      s <| irr ::= fun r => u8 (Z.land r (Z.lnot mask)) |>
        <| last_irr ::= fun r => u8 (Z.land r (Z.lnot mask)) |>
  else
    if level then
      (if Z.land (last_irr s) mask =? 0 then s <| irr ::= fun r => u8 (Z.lor r mask) |> else s)
        <| last_irr ::= fun r => u8 (Z.lor r mask) |>
    else
      s <| irr ::= fun r => u8 (Z.land r (Z.lnot mask)) |>
        <| last_irr ::= fun r => u8 (Z.land r (Z.lnot mask)) |>.

Definition set_int_out (level : Z) : M pics unit := modify (fun s => s <| int_out := level |>).

Definition pic_update_master : M pics unit :=
  let! s := get in set_int_out (of_bool (pic_get_output (pic0 s))).

(** [set_irq_level]: the slave's output drives input 2 of the master. *)
Definition set_irq_level (level : bool) : M pics unit :=
  pic_stat_update_irq 2 (of_bool level) ;;
  upd_chip Master (latch 2 level) ;;
  pic_update_master.

Definition pic_update_irq (c : chip) : M pics unit :=
  match c with
  | Master => pic_update_master
  | Slave => let! s := get in set_irq_level (pic_get_output (pic1 s))
  end.

Definition pic_set_irq (c : chip) (irq : Z) (level : bool) : M pics unit :=
  pic_stat_update_irq (match c with Master => irq | Slave => irq + 8 end) (of_bool level) ;;
  upd_chip c (latch irq level) ;;
  pic_update_irq c.

(** ** Acknowledge *)

(** The register part of [pic_intack]. *)
Definition intack (i : Z) (s : PICCommonState) : PICCommonState :=
  let s := if auto_eoi s then
             if rotate_on_auto_eoi s then s <| priority_add := Z.land (i + 1) 7 |> else s
           else s <| isr ::= fun r => u8 (Z.lor r (Z.shiftl 1 i)) |> in
  if Z.land (elcr s) (Z.shiftl 1 i) =? 0
  then s <| irr ::= fun r => u8 (Z.land r (Z.lnot (Z.shiftl 1 i))) |> else s.

Definition pic_intack (c : chip) (i : Z) : M pics unit :=
  upd_chip c (intack i) ;; pic_update_irq c.

Definition pic_read_irq : M pics Z :=
  let! s := get in
  let i := pic_get_irq (pic0 s) in
  if 0 <=? i then
    let! intno :=
      (if i =? 2 then
         let irq2 := pic_get_irq (pic1 s) in
         let! irq2 := (if 0 <=? irq2 then pic_intack Slave irq2 ;; ret irq2 else ret 7) in
         let! s := get in ret (irq_base (pic1 s) + irq2)
       else ret (irq_base (pic0 s) + i)) in
    pic_intack Master i ;;
    ret intno
  else ret (irq_base (pic0 s) + 7).

(** ** Ports *)

Definition pic_reset_common (s : PICCommonState) : PICCommonState :=
  s <| last_irr := 0 |> <| irr := Z.land (irr s) (elcr s) |> <| imr := 0 |> <| isr := 0 |>
    <| priority_add := 0 |> <| irq_base := 0 |> <| read_reg_select := false |>
    <| poll := false |> <| special_mask := false |> <| init_state := 0 |>
    <| auto_eoi := false |> <| rotate_on_auto_eoi := false |>
    <| special_fully_nested_mode := false |> <| init4 := false |> <| single_mode := false |>
    <| fake_irr := 0 |>.

Definition pic_init_reset (c : chip) : M pics unit :=
  upd_chip c pic_reset_common ;; pic_update_irq c.

Definition qemu_pic_reset (c : chip) : M pics unit :=
  upd_chip c (fun s => s <| elcr := 0 |>) ;; pic_init_reset c.

Definition clear_isr (i : Z) (s : PICCommonState) : PICCommonState :=
  s <| isr ::= fun r => u8 (Z.land r (Z.lnot (Z.shiftl 1 i))) |>.

(** OCW2: [cmd = val >> 5]. *)
Definition pic_write_ocw2 (c : chip) (val : Z) : M pics unit :=
  let! s := gets (chip_of c) in
  let cmd := Z.shiftr val 5 in
  if (cmd =? 0) || (cmd =? 4) then
    upd_chip c (fun s => s <| rotate_on_auto_eoi := truth (Z.shiftr cmd 2) |>)
  else if (cmd =? 1) || (cmd =? 5) then
    let priority := get_priority s (isr s) in
    if negb (priority =? 8) then
      let i := Z.land (priority + priority_add s) 7 in
      upd_chip c (clear_isr i) ;;
      (if cmd =? 5 then upd_chip c (fun s => s <| priority_add := Z.land (i + 1) 7 |>) else ret tt) ;;
      pic_update_irq c
    else ret tt
  else if cmd =? 3 then
    upd_chip c (clear_isr (Z.land val 7)) ;; pic_update_irq c
  else if cmd =? 6 then
    upd_chip c (fun s => s <| priority_add := Z.land (val + 1) 7 |>) ;; pic_update_irq c
  else if cmd =? 7 then
    let i := Z.land val 7 in
    upd_chip c (clear_isr i) ;;
    upd_chip c (fun s => s <| priority_add := Z.land (i + 1) 7 |>) ;;
    pic_update_irq c
  else ret tt.

(** Writes to the data port, by [init_state]. *)
Definition pic_write_data (c : chip) (val : Z) : M pics unit :=
  let! s := gets (chip_of c) in
  if init_state s =? 0 then
    upd_chip c (fun s => s <| imr := u8 val |>) ;; pic_update_irq c
  else if init_state s =? 1 then
    upd_chip c (fun s => s <| irq_base := Z.land val 248 |>
      <| init_state := if single_mode s then (if init4 s then 3 else 0) else 2 |>)
  else if init_state s =? 2 then
    upd_chip c (fun s => s <| init_state := if init4 s then 3 else 0 |>)
  else if init_state s =? 3 then
    upd_chip c (fun s => s
      <| special_fully_nested_mode := truth (Z.land (Z.shiftr val 4) 1) |>
      <| auto_eoi := truth (Z.land (Z.shiftr val 1) 1) |> <| init_state := 0 |>)
  else ret tt.

Definition pic_ioport_write (c : chip) (addr val : Z) : M pics unit :=
  let! s := gets (chip_of c) in
  if poll s then
    upd_chip c (fun s => s <| fake_irr ::= fun r => u8 (Z.land r (Z.lnot (Z.shiftl 1 val))) |>) ;;
    pic_intack c val ;;
    upd_chip c (fun s => s <| poll := false |>)
  else if addr =? 0 then
    if truth (Z.land val 16) then
      pic_init_reset c ;;
      upd_chip c (fun s => s <| init_state := 1 |> <| init4 := truth (Z.land val 1) |>
                             <| single_mode := truth (Z.land val 2) |>)
    else if truth (Z.land val 8) then
      (if truth (Z.land val 4) then upd_chip c (fun s => s <| poll := true |>) else ret tt) ;;
      (if truth (Z.land val 2) then
         upd_chip c (fun s => s <| read_reg_select := truth (Z.land val 1) |>) else ret tt) ;;
      (if truth (Z.land val 64) then
         upd_chip c (fun s => s <| special_mask := truth (Z.land (Z.shiftr val 5) 1) |>) else ret tt)
    else pic_write_ocw2 c val
  else pic_write_data c val.

Definition pic_ioport_read (c : chip) (addr : Z) : M pics Z :=
  let! s := gets (chip_of c) in
  if poll s && (addr =? 0) then
    let r := pic_get_irq s in
    let! r := (if 0 <=? r then pic_intack c r ;; ret (Z.lor r 128) else ret 0) in
    upd_chip c (fun s => s <| poll := false |>) ;;
    ret r
  else if addr =? 0 then
    if read_reg_select s then ret (isr s) else ret (Z.lor (irr s) (fake_irr s))
  else ret (imr s).

Definition elcr_ioport_write (c : chip) (val : Z) : M pics unit :=
  upd_chip c (fun s => s <| elcr := Z.land val (elcr_mask s) |>).

Definition elcr_ioport_read (c : chip) : M pics Z := gets (fun s => elcr (chip_of c s)).

(** ** Entry points of pic.c *)

Definition write_pic0 (port val : Z) : M pics unit := pic_ioport_write Master (port - 32) val.
Definition write_pic1 (port val : Z) : M pics unit := pic_ioport_write Slave (port - 160) val.
Definition read_pic0 (port : Z) : M pics Z := pic_ioport_read Master (port - 32).
Definition read_pic1 (port : Z) : M pics Z := pic_ioport_read Slave (port - 160).

Definition chip_of_port (port : Z) : chip := if truth (Z.land port 1) then Slave else Master.

Definition read_elcr (port : Z) : M pics Z := elcr_ioport_read (chip_of_port port).
Definition write_elcr (port val : Z) : M pics unit := elcr_ioport_write (chip_of_port port) val.
Definition read_firr (port : Z) : M pics Z := gets (fun s => fake_irr (chip_of (chip_of_port port) s)).
Definition write_firr (port val : Z) : M pics unit :=
  upd_chip (chip_of_port port) (fun s => s <| fake_irr := val |>).

Definition pic_request (i : Z) : M pics unit :=
  if 8 <=? i then pic_set_irq Slave (i - 8) true else pic_set_irq Master i true.

Definition pic_untrigger (i : Z) : M pics unit :=
  if 8 <=? i then pic_set_irq Slave (i - 8) false else pic_set_irq Master i false.

Definition pic_get_inum : M pics Z := pic_read_irq.

Definition pic_reset : M pics unit := qemu_pic_reset Master ;; qemu_pic_reset Slave.

Definition pic0_get_base (s : pics) : Z := irq_base (pic0 s).
Definition pic1_get_base (s : pics) : Z := irq_base (pic1 s).
Definition pic_get_isr (s : pics) : Z := Z.lor (isr (pic0 s)) (Z.shiftl (isr (pic1 s)) 8).
Definition pic_pending (s : pics) : bool := pic_get_output (pic0 s).

Definition pic_irq_active (i : Z) (s : pics) : bool :=
  let '(i, p) := if 8 <=? i then (i - 8, pic1 s) else (i, pic0 s) in
  truth (Z.land (Z.shiftl 1 i) (isr p)).

(** The state after [pic_init]. *)
Definition blank_pic (m : bool) (mask : Z) : PICCommonState :=
  MkPic 0 0 0 0 0 0 false false false 0 false false false false false 0 mask m 0.

Definition pic_init : pics :=
  MkPics (blank_pic true 248) (blank_pic false 222) 0 (replicate 16 0) (replicate 16 0).
