(* ===== verification/PicSpec.v ===== *)
(** * The interrupt controllers: priorities, acknowledge, EOI, sequences *)

From stdpp Require Import base numbers list.
From Stdlib Require Import ZArith Lia.
From S2P Require Import Prelude Pic.

Local Open Scope Z_scope.

(** ** Priorities *)

(** Position of line [i] in the current priority order (0 is the highest). *)
Definition rank (s : PICCommonState) (i : Z) : Z := (i - priority_add s) mod 8.

(** What the priority search must find, checked for every mask and rotation. *)
Definition priority_spec (m a : Z) : bool :=
  let p := if m =? 0 then 8 else priority_loop 8 a m 0 in
  if p =? 8 then m =? 0
  else (0 <=? p) && (p <? 8) && Z.testbit m ((p + a) mod 8) &&
       all_below 8 (fun i => negb (Z.testbit m i) || (p <=? (i - a) mod 8)).

Lemma priority_spec_all : all_below 256 (fun m => all_below 8 (priority_spec m)) = true.
Proof. vm_compute. reflexivity. Qed.

Lemma get_priority_spec s m :
  byte m -> 0 <= priority_add s < 8 ->
  (get_priority s m = 8 /\ m = 0) \/
  (0 <= get_priority s m < 8 /\ Z.testbit m ((get_priority s m + priority_add s) mod 8) = true /\
   forall i, 0 <= i < 8 -> Z.testbit m i = true -> get_priority s m <= rank s i).
Proof.
  intros Hm Ha.
  pose proof (all_below_spec _ _ _ (all_below_spec _ _ m priority_spec_all Hm) Ha) as H.
  unfold priority_spec in H. fold (get_priority s m) in H.
  change (if m =? 0 then 8 else priority_loop 8 (priority_add s) m 0) with (get_priority s m) in H.
  destruct (Z.eqb_spec (get_priority s m) 8) as [E|E]; [left; split; [done|by apply Z.eqb_eq]|right].
  rewrite !andb_true_iff, Z.leb_le, Z.ltb_lt in H. destruct H as (((H1 & H2) & H3) & H4).
  split; [lia|]. split; [done|]. intros i Hi Hb.
  pose proof (all_below_spec _ _ i H4 ltac:(lia)) as H. simpl in H. rewrite Hb in H. simpl in H.
  apply Z.leb_le in H. exact H.
Qed.

Definition requested (s : PICCommonState) (i : Z) : bool :=
  Z.testbit (irr s) i && negb (Z.testbit (imr s) i).
Definition in_service (s : PICCommonState) (i : Z) : bool := Z.testbit (service_mask s) i.

Record pic_ok (s : PICCommonState) : Prop := {
  pk_last : byte (last_irr s);
  pk_irr : byte (irr s);
  pk_imr : byte (imr s);
  pk_isr : byte (isr s);
  pk_add : 0 <= priority_add s < 8;
  pk_base : byte (irq_base s);
  pk_init : 0 <= init_state s <= 3;
  pk_elcr : byte (elcr s);
  pk_mask : byte (elcr_mask s);
  pk_fake : byte (fake_irr s);
}.

Lemma requested_bit s i : 0 <= i ->
  Z.testbit (Z.land (irr s) (Z.lnot (imr s))) i = requested s i.
Proof. intros H. unfold requested. by rewrite Z.land_spec, Z.lnot_spec. Qed.

Lemma service_mask_byte s : pic_ok s -> byte (service_mask s).
Proof.
  intros H. pose proof (pk_isr _ H). unfold service_mask.
  destruct (special_mask s), (special_fully_nested_mode s && master s); auto with dosemu.
Qed.

Lemma rank_of_priority s p : 0 <= p < 8 -> 0 <= priority_add s < 8 ->
  rank s ((p + priority_add s) mod 8) = p.
Proof.
  intros Hp Ha. unfold rank. rewrite Zminus_mod_idemp_l.
  replace (p + priority_add s - priority_add s) with p by lia. apply Z.mod_small. lia.
Qed.

(** [pic_get_irq] picks the best request that beats everything in service. *)
Lemma pic_get_irq_spec s : pic_ok s ->
  (pic_get_irq s = -1 /\
     forall i, 0 <= i < 8 -> requested s i = true ->
       exists j, 0 <= j < 8 /\ in_service s j = true /\ rank s j <= rank s i) \/
  (0 <= pic_get_irq s < 8 /\ requested s (pic_get_irq s) = true /\
     (forall i, 0 <= i < 8 -> requested s i = true -> rank s (pic_get_irq s) <= rank s i) /\
     (forall j, 0 <= j < 8 -> in_service s j = true -> rank s (pic_get_irq s) < rank s j)).
Proof.
  intros Hok. pose proof (pk_add _ Hok) as Ha.
  assert (byte (Z.land (irr s) (Z.lnot (imr s)))) as Hm by (apply byte_land, Hok).
  destruct (get_priority_spec s _ Hm Ha) as [[E1 E2]|(P1 & P2 & P3)];
  destruct (get_priority_spec s _ (service_mask_byte _ Hok) Ha) as [[S1 S2]|(S1 & S2 & S3)];
  unfold pic_get_irq, in_service.
  1,2: left; rewrite E1; split; [done|]; intros i Hi; rewrite <- requested_bit, E2, Z.bits_0 by lia; done.
  all: rewrite (proj2 (Z.eqb_neq (get_priority s (Z.land _ _)) 8)) by lia; rewrite !land7_mod.
  all: set (p := get_priority s (Z.land (irr s) (Z.lnot (imr s)))) in *.
  all: rewrite requested_bit in P2 by (apply Z.mod_pos_bound; lia).
  all: assert (forall i, 0 <= i < 8 -> requested s i = true -> p <= rank s i) as P4
    by (intros i Hi Hr; apply P3; [done|]; by rewrite requested_bit by lia).
  - rewrite S1. rewrite (proj2 (Z.ltb_lt p 8)) by lia. right.
    split; [apply Z.mod_pos_bound; lia|]. split; [done|]. rewrite rank_of_priority by lia.
    split; [done|]. intros j Hj. by rewrite S2, Z.bits_0.
  - set (c := get_priority s (service_mask s)) in *. destruct (Z.ltb_spec p c) as [Hlt|Hge]; [right|left].
    + split; [apply Z.mod_pos_bound; lia|]. split; [done|]. rewrite rank_of_priority by lia.
      split; [done|]. intros j Hj Hs. specialize (S3 j Hj Hs). lia.
    + split; [done|]. intros i Hi Hr. exists ((c + priority_add s) mod 8).
      split; [apply Z.mod_pos_bound; lia|]. split; [done|]. rewrite rank_of_priority by lia.
      specialize (P4 i Hi Hr). lia.
Qed.

(** ** The registers stay in range *)

Lemma latch_ok i l s : pic_ok s -> pic_ok (latch i l s).
Proof.
  intros []. unfold latch. destruct (truth _), l; try destruct (_ =? 0);
    constructor; simpl; auto with dosemu.
Qed.

Lemma intack_ok i s : pic_ok s -> pic_ok (intack i s).
Proof.
  intros []. unfold intack. destruct (auto_eoi s) eqn:E1; [destruct (rotate_on_auto_eoi s)|];
    simpl; destruct (_ =? 0); constructor; simpl; auto with dosemu.
Qed.

Lemma reset_common_ok s : pic_ok s -> pic_ok (pic_reset_common s).
Proof. intros []. constructor; simpl; auto with dosemu; unfold byte; lia. Qed.

Record pics_ok (s : pics) : Prop := {
  ps_0 : pic_ok (pic0 s);
  ps_1 : pic_ok (pic1 s);
  ps_level : length (irq_level s) = 16%nat;
  ps_count : length (irq_count s) = 16%nat;
  ps_masters : master (pic0 s) = true /\ master (pic1 s) = false;
}.

(** Operations that keep the registers in range and never fault. *)
Definition keeps {A} (c : M pics A) : Prop :=
  forall s, pics_ok s -> wp c s (fun _ s' => pics_ok s').

Lemma keeps_bind {A B} (c : M pics A) (k : A -> M pics B) :
  keeps c -> (forall a, keeps (k a)) -> keeps (bind c k).
Proof.
  intros Hc Hk s Hs. apply wp_bind. eapply wp_mono; [by apply Hc|]. intros a s' Hs'.
  by apply Hk.
Qed.

Lemma keeps_ret {A} (a : A) : keeps (ret a).
Proof. intros s Hs. by apply wp_ret. Qed.
Lemma keeps_gets {A} (f : pics -> A) : keeps (gets f).
Proof. intros s Hs. by apply wp_gets. Qed.
Lemma keeps_get : keeps get.
Proof. intros s Hs. by apply wp_get. Qed.
Lemma keeps_if {A} (b : bool) (c d : M pics A) : keeps c -> keeps d -> keeps (if b then c else d).
Proof. by destruct b. Qed.

Lemma keeps_upd_chip c f :
  (forall s, pic_ok s -> pic_ok (f s) /\ master (f s) = master s) -> keeps (upd_chip c f).
Proof.
  intros Hf s [H0 H1 H2 H3 H4]. apply wp_modify.
  destruct c; constructor; simpl; try done; try by apply Hf.
  - rewrite (proj2 (Hf _ H0)). done.
  - rewrite (proj2 (Hf _ H1)). done.
Qed.

Lemma keeps_stat i l : 0 <= i < 16 -> keeps (pic_stat_update_irq i l).
Proof.
  intros Hi s Hs. pose proof Hs as [H0 H1 H2 H3 H4]. unfold wp, pic_stat_update_irq.
  destruct (aget_lt (irq_level s) i) as [x Hx]; [lia|].
  destruct (aget_lt (irq_count s) i) as [y Hy]; [lia|]. rewrite Hx, Hy.
  destruct (negb (l =? x)); [|done]. constructor; simpl; try done.
  - by rewrite astore_length.
  - destruct (l =? 1); [by rewrite astore_length|done].
Qed.

Lemma latch_master i l s : master (latch i l s) = master s.
Proof. unfold latch. destruct (truth _), l; try destruct (_ =? 0); done. Qed.

Lemma intack_master i s : master (intack i s) = master s.
Proof.
  unfold intack. destruct (auto_eoi s); [destruct (rotate_on_auto_eoi s)|]; simpl;
    destruct (_ =? 0); done.
Qed.

Lemma keeps_update c : keeps (pic_update_irq c).
Proof.
  assert (keeps pic_update_master) as Hm.
  { apply keeps_bind; [apply keeps_get|]. intros s s' []. apply wp_modify. by constructor. }
  destruct c; [done|]. apply keeps_bind; [apply keeps_get|]. intros s.
  apply keeps_bind; [apply keeps_stat; lia|]. intros _. apply keeps_bind; [|by intros _].
  apply keeps_upd_chip. intros p Hp. split; [by apply latch_ok|apply latch_master].
Qed.

Lemma keeps_intack c i : keeps (pic_intack c i).
Proof.
  apply keeps_bind; [|intros _; apply keeps_update].
  apply keeps_upd_chip. intros p Hp. split; [by apply intack_ok|apply intack_master].
Qed.

Lemma keeps_set_irq c i l : 0 <= i < 8 -> keeps (pic_set_irq c i l).
Proof.
  intros Hi. apply keeps_bind; [apply keeps_stat; destruct c; lia|]. intros _.
  apply keeps_bind; [|intros _; apply keeps_update].
  apply keeps_upd_chip. intros p Hp. split; [by apply latch_ok|apply latch_master].
Qed.

Lemma keeps_init_reset c : keeps (pic_init_reset c).
Proof.
  apply keeps_bind; [|intros _; apply keeps_update].
  apply keeps_upd_chip. intros p Hp. split; [by apply reset_common_ok|done].
Qed.

Ltac keep_chip :=
  apply keeps_upd_chip; intros ? []; split; [constructor; simpl|done];
  auto with dosemu; unfold byte in *;
  repeat match goal with |- context [if ?b then _ else _] => destruct b end; lia.

Ltac keep_tac :=
  repeat first
    [ apply keeps_ret | apply keeps_get | apply keeps_gets | apply keeps_update
    | apply keeps_intack | apply keeps_init_reset
    | apply keeps_bind; [|intros ?] | apply keeps_if | solve [keep_chip] ].

Lemma keeps_ocw2 c v : keeps (pic_write_ocw2 c v).
Proof. unfold pic_write_ocw2, clear_isr. keep_tac. Qed.

Lemma keeps_data c v : keeps (pic_write_data c v).
Proof. unfold pic_write_data. keep_tac. Qed.

Lemma keeps_write c a v : keeps (pic_ioport_write c a v).
Proof.
  unfold pic_ioport_write. pose proof (keeps_ocw2 c v). pose proof (keeps_data c v).
  keep_tac; assumption.
Qed.

Lemma keeps_read c a : keeps (pic_ioport_read c a).
Proof. unfold pic_ioport_read. keep_tac. Qed.

Lemma keeps_read_irq : keeps pic_read_irq.
Proof. unfold pic_read_irq. keep_tac. Qed.

(** The wiring does not touch the slave. *)
Lemma set_irq_level_slave l s s' : set_irq_level l s = Ok (tt, s') -> pic1 s' = pic1 s.
Proof.
  unfold set_irq_level, bind, pic_stat_update_irq. intros E.
  destruct (aget (irq_level s) 2), (aget (irq_count s) 2); try done.
  destruct (negb _); unfold upd_chip, modify, pic_update_master, bind, get, set_int_out, modify in E;
    by injection E as <-.
Qed.

Lemma intack_slave_base i s s' :
  pic_intack Slave i s = Ok (tt, s') -> irq_base (pic1 s') = irq_base (pic1 s).
Proof.
  unfold pic_intack, upd_chip, bind, modify, pic_update_irq, get. intros E.
  apply set_irq_level_slave in E. rewrite E. simpl. unfold intack.
  destruct (auto_eoi _); [destruct (rotate_on_auto_eoi _)|]; simpl; destruct (_ =? 0); done.
Qed.

(** ** Operation sequences *)

Inductive pic_op :=
| PWrite (c : chip) (addr val : Z)      (* ports 20h/21h, a0h/a1h *)
| PRead (c : chip) (addr : Z)
| PRequest (i : Z)
| PUntrigger (i : Z)
| PGetInum
| PElcr (port val : Z)
| PFirr (port val : Z)
| PReset.

Definition pic_run_op (op : pic_op) : M pics unit :=
  match op with
  | PWrite Master a v => write_pic0 (32 + a) v
  | PWrite Slave a v => write_pic1 (160 + a) v
  | PRead Master a => read_pic0 (32 + a) ;; ret tt
  | PRead Slave a => read_pic1 (160 + a) ;; ret tt
  | PRequest i => pic_request i
  | PUntrigger i => pic_untrigger i
  | PGetInum => pic_get_inum ;; ret tt
  | PElcr p v => write_elcr p v
  | PFirr p v => write_firr p v
  | PReset => pic_reset
  end.

Definition pic_op_ok (op : pic_op) : Prop :=
  match op with
  | PRequest i | PUntrigger i => 0 <= i < 16
  | PElcr _ v | PFirr _ v => byte v
  | _ => True
  end.

Fixpoint pic_run (ops : list pic_op) : M pics unit :=
  match ops with
  | [] => ret tt
  | op :: ops => pic_run_op op ;; pic_run ops
  end.

Lemma keeps_op op : pic_op_ok op -> keeps (pic_run_op op).
Proof.
  pose proof keeps_write. pose proof keeps_read. pose proof keeps_read_irq.
  destruct op as [[] a v|[] a|i|i| |p v|p v|]; simpl; intros Hop.
  all: unfold write_pic0, write_pic1, read_pic0, read_pic1, pic_request, pic_untrigger, pic_get_inum,
    write_elcr, elcr_ioport_write, write_firr, pic_reset, qemu_pic_reset.
  all: try (destruct (Z.leb_spec 8 i); apply keeps_set_irq; lia).
  all: keep_tac; auto.
Qed.

Lemma keeps_run ops : Forall pic_op_ok ops -> keeps (pic_run ops).
Proof.
  induction 1 as [|op ops Hop _ IH]; simpl; [apply keeps_ret|].
  apply keeps_bind; [by apply keeps_op|by intros _].
Qed.

Lemma pic_init_ok : pics_ok pic_init.
Proof. constructor; try done; constructor; simpl; unfold byte; lia. Qed.

(** ** Properties *)

(** C37: [pic_get_irq] implements the 8259's priority rule.  It returns -1 only
    when every unmasked request has a line of the same or a higher priority in
    service; otherwise it returns an unmasked request of the highest priority,
    strictly above everything in service. *)
Theorem pic_get_irq_correct s : pic_ok s ->
  (pic_get_irq s = -1 /\
     forall i, 0 <= i < 8 -> requested s i = true ->
       exists j, 0 <= j < 8 /\ in_service s j = true /\ rank s j <= rank s i) \/
  (0 <= pic_get_irq s < 8 /\ requested s (pic_get_irq s) = true /\
     (forall i, 0 <= i < 8 -> requested s i = true -> rank s (pic_get_irq s) <= rank s i) /\
     (forall j, 0 <= j < 8 -> in_service s j = true -> rank s (pic_get_irq s) < rank s j)).
Proof. apply pic_get_irq_spec. Qed.

(** Lines 3 and 5 requested, line 4 in service, line 5 the highest priority. *)
Definition example_pic : PICCommonState :=
  (blank_pic true 248) <| irr := 40 |> <| isr := 16 |> <| priority_add := 5 |>.

Lemma example_pic_ok : pic_ok example_pic.
Proof. constructor; simpl; unfold byte; lia. Qed.

Lemma pic_get_irq_correct_witness :
  pic_get_irq example_pic = 5 /\
  (forall j, 0 <= j < 8 -> in_service example_pic j = true -> rank example_pic 5 < rank example_pic j).
Proof.
  assert (pic_get_irq example_pic = 5) as E by reflexivity.
  destruct (pic_get_irq_correct example_pic example_pic_ok) as [[H _]|(_ & _ & _ & H)];
    [rewrite E in H; discriminate H|].
  rewrite E in H. split; [exact E|exact H].
Defined.

(** No sequence of port accesses, requests, acknowledges, ELCR writes and
    resets drives the controllers out of range (8-bit registers, a rotation
    below 8, an initialisation state of at most 3) or out of the statistics
    tables. *)
Theorem pic_sequences_safe ops s :
  pics_ok s -> Forall pic_op_ok ops ->
  exists s', pic_run ops s = Ok (tt, s') /\ pics_ok s'.
Proof.
  intros Hs Hops. destruct (wp_inv _ _ _ (keeps_run ops Hops s Hs)) as ([] & s' & E & H). eauto.
Qed.

(** The BIOS initialisation of both controllers, a request on IRQ 12, its
    acknowledge and the two EOIs. *)
Definition example_pic_ops : list pic_op :=
  [PWrite Master 0 17; PWrite Master 1 8; PWrite Master 1 4; PWrite Master 1 1;
   PWrite Slave 0 17; PWrite Slave 1 112; PWrite Slave 1 2; PWrite Slave 1 1;
   PRequest 12; PGetInum; PUntrigger 12; PWrite Slave 0 32; PWrite Master 0 32].

Lemma pic_sequences_safe_witness :
  exists s', pic_run example_pic_ops pic_init = Ok (tt, s') /\ pics_ok s'.
Proof.
  apply pic_sequences_safe; [exact pic_init_ok|]. repeat constructor; simpl; lia.
Defined.

(** The vector the CPU gets.  [pic_get_inum] never faults; it returns the
    vector of a line chosen by the priority rule (for line 2 of the master, the
    vector of the slave's line, or the slave's spurious vector 7), and the master's
    spurious vector 7 when no line is deliverable. *)
Theorem pic_get_inum_correct s : pics_ok s ->
  exists v s', pic_get_inum s = Ok (v, s') /\ pics_ok s' /\
    v = (let i := pic_get_irq (pic0 s) in
         if i =? -1 then irq_base (pic0 s) + 7
         else if i =? 2 then
           let j := pic_get_irq (pic1 s) in irq_base (pic1 s) + (if j =? -1 then 7 else j)
         else irq_base (pic0 s) + i).
Proof.
  intros Hs. apply wp_inv. cbv zeta. unfold pic_get_inum, pic_read_irq. wp_step. apply wp_get.
  assert (forall p, pic_ok p -> (0 <=? pic_get_irq p) = negb (pic_get_irq p =? -1)) as Hn.
  { intros p Hp. destruct (pic_get_irq_spec p Hp) as [[-> _]|[H _]]; [done|].
    rewrite (proj2 (Z.leb_le _ _)), (proj2 (Z.eqb_neq _ (-1))) by lia. done. }
  rewrite (Hn _ (ps_0 _ Hs)). destruct (Z.eqb_spec (pic_get_irq (pic0 s)) (-1)) as [E|E]; simpl negb; cbv iota.
  { wp_step. done. }
  destruct (Z.eqb_spec (pic_get_irq (pic0 s)) 2) as [E2|E2].
  - rewrite (Hn _ (ps_1 _ Hs)). wp_step. wp_step.
    destruct (Z.eqb_spec (pic_get_irq (pic1 s)) (-1)) as [E3|E3]; simpl negb; cbv iota.
    + wp_step. wp_step. apply wp_get. wp_step. wp_step.
      eapply wp_mono; [apply keeps_intack, Hs|]. intros [] s' Hs'. by wp_step.
    + wp_step. eapply wp_mono; [apply wp_with_eq, keeps_intack, Hs|]. intros [] s1 [Hs1 E4].
      apply intack_slave_base in E4. rename E4 into Eb.
      wp_step. wp_step. apply wp_get. wp_step. wp_step.
      eapply wp_mono; [apply keeps_intack, Hs1|]. intros [] s' Hs'. wp_step. by rewrite Eb.
  - wp_step. wp_step. wp_step. eapply wp_mono; [apply keeps_intack, Hs|]. intros [] s' Hs'. by wp_step.
Qed.

Lemma pic_get_inum_correct_witness :
  exists v s', (pic_run (firstn 9 example_pic_ops) ;; pic_get_inum) pic_init = Ok (v, s') /\ v = 116.
Proof.
  assert (wp (pic_run (firstn 9 example_pic_ops)) pic_init (fun _ s => pics_ok s)) as Hw
    by (apply keeps_run; [repeat constructor; simpl; lia|exact pic_init_ok]).
  destruct (wp_inv _ _ _ Hw) as ([] & s & E & Hs).
  destruct (pic_get_inum_correct s Hs) as (v & s' & E' & _).
  exists v, s'. assert ((pic_run (firstn 9 example_pic_ops) ;; pic_get_inum) pic_init = Ok (v, s')) as Er
    by (unfold bind; rewrite E; exact E').
  split; [exact Er|]. apply (outcome_eq (fun v _ => v) _ _ _ _ _ Er). vm_compute. reflexivity.
Defined.

(** The non-specific EOI (OCW2 20h) ends exactly the in-service line of
    the highest priority, whatever the rotation; without a line in service it
    changes nothing. *)
Theorem pic_nonspecific_eoi_correct c s :
  pics_ok s -> poll (chip_of c s) = false ->
  exists s', pic_ioport_write c 0 32 s = Ok (tt, s') /\ pics_ok s' /\
    ((isr (chip_of c s) = 0 /\ s' = s) \/
     exists i, 0 <= i < 8 /\ Z.testbit (isr (chip_of c s)) i = true /\
       (forall j, 0 <= j < 8 -> Z.testbit (isr (chip_of c s)) j = true ->
          rank (chip_of c s) i <= rank (chip_of c s) j) /\
       (forall j, 0 <= j < 8 -> Z.testbit (isr (chip_of c s')) j =
          negb (j =? i) && Z.testbit (isr (chip_of c s)) j)).
Proof.
  intros Hs Hp.
  assert (pic_ok (chip_of c s)) as Hc by (destruct c; apply Hs).
  destruct (wp_inv _ _ _ (keeps_write c 0 32 s Hs)) as ([] & s' & E & Hs').
  exists s'. split; [done|]. split; [done|].
  unfold pic_ioport_write, bind, gets in E. rewrite Hp in E. simpl in E.
  unfold pic_write_ocw2, bind, gets in E. simpl in E.
  destruct (get_priority_spec (chip_of c s) (isr (chip_of c s)) (pk_isr _ Hc) (pk_add _ Hc))
    as [[E1 E2]|(P1 & P2 & P3)].
  { rewrite E1 in E. simpl in E. left. by injection E as <-. }
  right. rewrite (proj2 (Z.eqb_neq _ 8)) in E by lia. simpl in E. rewrite land7_mod in E.
  set (i := (get_priority (chip_of c s) (isr (chip_of c s)) + priority_add (chip_of c s)) mod 8) in *.
  assert (0 <= i < 8) as Hi by (apply Z.mod_pos_bound; lia).
  exists i. split; [done|]. split; [done|]. split.
  { intros j Hj Hb. unfold i. rewrite rank_of_priority by (lia || apply Hc). by apply P3. }
  intros j Hj. rewrite <- (testbit_clear (isr (chip_of c s)) i j) by lia. f_equal.
  unfold upd_chip, modify, pic_update_irq, bind, get, ret in E.
  destruct c; simpl in E; [by injection E as <-|].
  apply set_irq_level_slave in E. simpl. by rewrite E.
Qed.

Lemma pic_nonspecific_eoi_correct_witness :
  exists s', pic_ioport_write Master 0 32 (pic_init <| pic0 ::= fun p => p <| isr := 36 |> |>) = Ok (tt, s') /\
    pics_ok s' /\ isr (pic0 s') = 32.
Proof.
  destruct (pic_nonspecific_eoi_correct Master (pic_init <| pic0 ::= fun p => p <| isr := 36 |> |>))
    as (s' & E & Hs & _); [|reflexivity|].
  - constructor; try done; constructor; simpl; unfold byte; lia.
  - exists s'. split; [exact E|]. split; [exact Hs|].
    apply (outcome_eq (fun _ s => isr (pic0 s)) _ _ _ _ _ E). vm_compute. reflexivity.
Defined.

(** In auto-EOI mode a second pending slave interrupt is lost.  With the
    slave in auto-EOI mode and IRQ 8 and 9 requested, acknowledging IRQ 8 leaves
    IRQ 9 pending in the slave, whose output stays active; the master has consumed
    the edge on input 2 and reports nothing pending. *)
Theorem pic_slave_auto_eoi_loses_irq :
  exists s', pic_run [PWrite Master 0 17; PWrite Master 1 8; PWrite Master 1 4; PWrite Master 1 1;
      PWrite Slave 0 17; PWrite Slave 1 112; PWrite Slave 1 2; PWrite Slave 1 3;
      PRequest 8; PRequest 9; PGetInum; PWrite Master 0 32] pic_init = Ok (tt, s') /\
    pic_get_irq (pic1 s') = 1 /\ isr (pic0 s') = 0 /\ imr (pic0 s') = 0 /\ pic_pending s' = false.
Proof. eexists. split; [vm_compute; reflexivity|]. split_and!; reflexivity. Qed.
