(* ===== verification/Instances.v ===== *)
(** * The implementations of the interfaces

    pgalloc is a page allocator, the PIC a sink of interrupt lines. *)

From stdpp Require Import base numbers list.
From Stdlib Require Import ZArith Lia.
From S2P Require Import Prelude Interfaces Pgalloc Pic PicSpec.

Local Open Scope Z_scope.

#[export] Instance pgalloc_ops : PageAlloc pgpool := {
  pa_alloc := pgaalloc;
  pa_free := pgafree;
  pa_largest := pgaavail_largest;
  pa_reset := pgareset;
}.

(** A block together with the id its first page carries. *)
Definition pga_block (p : pgpool) (r n id : Z) : Prop :=
  block_at p r n /\ aget p (r + 1) = Some (- id - 1) /\ 0 <= id.

Lemma pga_block_disjoint p r n id r' n' id' :
  pga_block p r n id -> pga_block p r' n' id' ->
  (r = r' /\ n = n' /\ id = id') \/ r + n <= r' \/ r' + n' <= r.
Proof.
  intros [(Hr & Hn & Hb & _ & Hi & Hl) [Hh Hid]] [(Hr' & Hn' & Hb' & _ & Hi' & Hl') [Hh' Hid']].
  destruct (Z.lt_trichotomy r r') as [Hlt|[->|Hgt]].
  - destruct (Z.le_gt_cases (r + n) r'); [auto|]. exfalso.
    specialize (Hi (r' - r)). replace (r + (r' - r) + 1) with (r' + 1) in Hi by lia.
    rewrite Hh' in Hi. specialize (Hi ltac:(lia)). injection Hi as Hi. lia.
  - left. rewrite Hh in Hh'. injection Hh' as ?. split_and!; [done| |lia].
    destruct (Z.lt_trichotomy n n') as [Hlt|[?|Hgt]]; [|done|].
    + specialize (Hl n). rewrite (Hi' n) in Hl by lia. specialize (Hl eq_refl). lia.
    + specialize (Hl' n'). rewrite (Hi n') in Hl' by lia. specialize (Hl' eq_refl). lia.
  - destruct (Z.le_gt_cases (r' + n') r); [auto|]. exfalso.
    specialize (Hi' (r - r')). replace (r' + (r - r') + 1) with (r + 1) in Hi' by lia.
    rewrite Hh in Hi'. specialize (Hi' ltac:(lia)). injection Hi' as Hi'. lia.
Qed.

(** Blocks survive writes elsewhere. *)
Lemma pga_block_fill p k m f r n id :
  0 <= k -> k + Z.of_nat m <= pga_pages p ->
  pga_block p r n id -> r + n <= k \/ k + Z.of_nat m <= r ->
  (r + n = k -> forall v, aget (fill m (k + 1) f p) (k + 1) = Some v -> v <= 0) ->
  pga_block (fill m (k + 1) f p) r n id.
Proof.
  unfold pga_pages. intros Hk Hb [(Hr & Hn & Hbd & Hv & Hi & Hl) [Hh Hid]] Hd Hlast.
  assert (forall i, r < i <= r + n -> aget (fill m (k + 1) f p) i = aget p i) as Hg.
  { intros i Hii. rewrite aget_fill by lia.
    destruct (Z.leb_spec (k + 1) i), (Z.ltb_spec i (k + 1 + Z.of_nat m)); simpl; try done; lia. }
  split; [|split; [rewrite Hg by lia; done|done]].
  split_and!; try done; [unfold pga_pages in *; rewrite fill_length; lia|..].
  - destruct Hv as (v & Hv & Hv0). exists v. rewrite Hg by lia. done.
  - intros i Hii. rewrite Hg by lia. auto.
  - intros v. destruct (Z.eq_dec (r + n) k) as [E|Hne].
    + subst k. by apply Hlast.
    + rewrite aget_fill by lia.
      destruct (Z.leb_spec (k + 1) (r + n + 1)), (Z.ltb_spec (r + n + 1) (k + 1 + Z.of_nat m));
        simpl; try apply Hl; lia.
Qed.

Lemma pga_alloc_law p n id : pga_ok p -> 1 <= n < 2 ^ 32 -> 0 <= id < 2 ^ 31 ->
  wp (pgaalloc n id) p (fun r p' => pga_ok p' /\ pga_pages p' = pga_pages p /\
    ((0 <= r /\ pga_block p' r n id /\
      forall r' n' id', pga_block p r' n' id' -> pga_block p' r' n' id' /\ r' <> r) \/
     (r < 0 /\ p' = p))).
Proof.
  intros Hok Hn Hid. apply wp_pgaalloc; try done; [lia|..].
  2: { intros _. split_and!; try done. right. split; [lia|done]. }
  intros r Hr _. destruct (with_block_spec p r n id) as (H1 & H2 & H3 & _); try done; [lia|].
  pose proof Hr as (Hr0 & Hrb & Hz). split; [done|].
  split; [unfold pga_pages; by rewrite H3|]. left. split; [lia|].
  assert (aget (with_block r n id p) (r + 1) = Some (- id - 1)) as Hh.
  { unfold with_block, pga_pages in *. rewrite aget_fill, Z2Nat.id by lia.
    rewrite (proj2 (Z.leb_le _ _)), (proj2 (Z.ltb_lt _ _)) by lia. simpl.
    unfold block_cells. by rewrite Z.eqb_refl. }
  split; [split; [done|split; [done|lia]]|]. intros r' n' id' Hb.
  assert (r' + n' <= r \/ r + n <= r') as Hdis.
  { destruct Hb as [(? & ? & ? & _ & Hi & _) [Hbh ?]].
    destruct (Z.le_gt_cases (r' + n') r); [by left|]. destruct (Z.le_gt_cases (r + n) r'); [by right|].
    exfalso. destruct (Z.le_gt_cases r r').
    - rewrite Hz in Hbh by lia. injection Hbh as Hbh. lia.
    - specialize (Hi (r - r')). replace (r' + (r - r') + 1) with (r + 1) in Hi by lia.
      rewrite Hz in Hi by lia. specialize (Hi ltac:(lia)). injection Hi as Hi. lia. }
  split.
  - apply pga_block_fill; try done; rewrite ?Z2Nat.id; try lia.
    intros _ v Hv. unfold with_block in Hh. rewrite Hv in Hh. injection Hh as ->. lia.
  - destruct Hb as [(? & ? & _) _]. lia.
Qed.

Lemma pga_free_law p r n id : pga_ok p -> pga_block p r n id ->
  wp (pgafree r) p (fun _ p' => pga_ok p' /\ pga_pages p' = pga_pages p /\
    forall r' n' id', r' <> r -> pga_block p r' n' id' -> pga_block p' r' n' id').
Proof.
  intros Hok Hb. pose proof Hb as [Hba [Hh Hid]]. pose proof Hba as (Hr & Hn & Hbd & _).
  apply wp_pgafree; try done.
  { exists id. unfold page_of. rewrite Hh, (proj2 (Z.eqb_neq _ 0)), (proj2 (Z.ltb_lt _ 0)) by lia.
    do 2 f_equal. lia. }
  intros m Hm.
  assert (m = n) as ->.
  { assert (pga_block p r m id) as Hb' by done.
    destruct (pga_block_disjoint _ _ _ _ _ _ _ Hb Hb') as [(_ & -> & _)|H]; [done|].
    destruct Hm as (_ & ? & _). lia. }
  destruct (without_pages_spec p r n 0 Hok Hm) as (H1 & H2 & _); [lia|].
  replace (r + 0) with r in * by lia. replace (n - 0) with n in * by lia.
  split; [done|]. split; [unfold pga_pages; by rewrite H2|].
  intros r' n' id' Hne Hb'.
  destruct (pga_block_disjoint _ _ _ _ _ _ _ Hb Hb') as [(-> & _)|Hd]; [done|].
  apply pga_block_fill; try done; rewrite ?Z2Nat.id; try lia.
  intros _ v. rewrite aget_fill by (unfold pga_pages in *; lia).
  rewrite (proj2 (Z.leb_le _ _)), (proj2 (Z.ltb_lt _ _)) by lia. injection 1 as <-. lia.
Qed.

Lemma pga_reset_law p : pga_ok p ->
  wp pgareset p (fun _ p' => pga_ok p' /\ pga_pages p' = pga_pages p).
Proof.
  intros Hok. pose proof (pga_max _ Hok). pose proof (aget_Some_lt _ _ _ (pga_len _ Hok)).
  unfold pgareset. wp_step. apply wp_rd_len; [apply Hok|].
  apply wp_wr_range; [lia|lia|]. split; [|unfold pga_pages; by rewrite fill_length].
  apply (pga_ok_fill p 0); try done; unfold pga_pages; try lia.
  intros v. rewrite aget_None by lia. done.
Qed.

#[export] Instance pgalloc_laws : PageAllocLaws pgpool.
Proof.
  refine {| pa_ok := pga_ok; pa_pages := pga_pages; pa_block := pga_block |}.
  - intros p Hok. pose proof (pga_max _ Hok). pose proof (aget_Some_lt _ _ _ (pga_len _ Hok)).
    unfold pga_pages. lia.
  - intros p r n id [(? & ? & ? & _) _]. auto.
  - apply pga_block_disjoint.
  - apply pga_alloc_law.
  - apply pga_free_law.
  - intros p Hok. pose proof (aget_Some_lt _ _ _ (pga_len _ Hok)).
    apply wp_pgaavail_largest; [done|]. intros m Hm [->|(k & ? & ? & _)] _; split; try done;
      unfold pga_pages in *; lia.
  - apply pga_reset_law.
Defined.

(** ** The PIC implements the interrupt-line interface *)

#[export] Instance pic_sink : IrqSink pics := {
  irq_request := pic_request;
  irq_untrigger := pic_untrigger;
}.

(** The input level of a slave line is what edge detection remembers. *)
Definition line_level (s : pics) (i : Z) : bool := Z.testbit (last_irr (pic1 s)) (i - 8).

Lemma last_irr_latch i l s j : 0 <= i < 8 -> 0 <= j < 8 ->
  Z.testbit (last_irr (latch i l s)) j = if j =? i then l else Z.testbit (last_irr s) j.
Proof.
  intros Hi Hj. unfold latch.
  destruct (truth _), l; try destruct (_ =? 0); simpl;
    rewrite ?testbit_set, ?testbit_clear by lia; by destruct (j =? i).
Qed.

Lemma set_irq_slave_line i l s : pics_ok s -> 0 <= i < 8 ->
  wp (pic_set_irq Slave i l) s (fun _ s' => pics_ok s' /\
    forall j, 0 <= j < 8 -> Z.testbit (last_irr (pic1 s')) j =
      if j =? i then l else Z.testbit (last_irr (pic1 s)) j).
Proof.
  intros Hs Hi. eapply wp_mono; [apply wp_with_eq, keeps_set_irq; done|].
  intros [] s' [Hs' E]. split; [done|]. intros j Hj. rewrite <- (last_irr_latch i l) by lia.
  unfold pic_set_irq, bind in E.
  destruct (pic_stat_update_irq (i + 8) (of_bool l) s) as [[[] s1]|] eqn:E1; [|done].
  unfold upd_chip, modify, pic_update_irq, bind, get in E. apply set_irq_level_slave in E.
  rewrite E. simpl. do 3 f_equal. unfold pic_stat_update_irq in E1.
  destruct (aget (irq_level s) (i + 8)), (aget (irq_count s) (i + 8)); try done.
  destruct (negb _); by injection E1 as <-.
Qed.

#[export] Instance pic_sink_laws : IrqSinkLaws pics.
Proof.
  refine {| irq_ok := pics_ok; irq_asserted := line_level |}.
  - intros p i Hp Hi. simpl. unfold pic_request. rewrite (proj2 (Z.leb_le 8 i)) by lia.
    eapply wp_mono; [apply set_irq_slave_line; [done|lia]|]. intros [] p' [Hp' H].
    unfold line_level. split; [done|]. split.
    + rewrite H by lia. by rewrite Z.eqb_refl.
    + intros j Hj Hne. rewrite H by lia. by rewrite (proj2 (Z.eqb_neq _ _)) by lia.
  - intros p i Hp Hi. simpl. unfold pic_untrigger. rewrite (proj2 (Z.leb_le 8 i)) by lia.
    eapply wp_mono; [apply set_irq_slave_line; [done|lia]|]. intros [] p' [Hp' H].
    unfold line_level. split; [done|]. split.
    + rewrite H by lia. by rewrite Z.eqb_refl.
    + intros j Hj Hne. rewrite H by lia. by rewrite (proj2 (Z.eqb_neq _ _)) by lia.
Defined.
