(* ===== verification/Hlt.v ===== *)
(** * HLT handler registry (src/src/base/core/hlt.c)

    A block of HLT instructions is divided among handlers: [hlt_handler_id]
    maps each offset to the handler that owns it (0 is the default handler).
    Handler functions are foreign code, represented by a number; dispatching
    is modelled by the call that is made. *)

From stdpp Require Import base numbers list.
From Stdlib Require Import ZArith Lia.
From S2P Require Import Prelude.

Local Open Scope Z_scope.

Inductive hlt_func := HltDefault | HltFunc (f : nat).
#[export] Instance hlt_func_eq_dec : EqDecision hlt_func.
Proof. solve_decision. Defined.

Record emu_hlt_t := MkEmuHlt {
  h_func : hlt_func;
  h_len : Z;
  h_arg : Z;
  h_ret : Z;
}.
#[export] Instance eta_emu_hlt : Eta emu_hlt_t :=
  fun h => MkEmuHlt h.(h_func) h.(h_len) h.(h_arg) h.(h_ret).

Record hlt_handler := MkHandler { hh : emu_hlt_t; start_addr : Z }.
#[export] Instance eta_hlt_handler : Eta hlt_handler :=
  fun h => MkHandler h.(hh) h.(start_addr).

Definition MAX_HLT_HANDLERS : Z := 100.
Definition MAX_HLT_BLK_SIZE : Z := 4096.

Record hlt_struct := MkHlt {
  handlers : list hlt_handler;      (* hlt_handler[MAX_HLT_HANDLERS] *)
  hlt_handler_id : list Z;          (* [MAX_HLT_BLK_SIZE] *)
  hlt_handler_count : Z;
  hlt_block_size : Z;
  exitearly : bool;                 (* config.exitearly *)
}.
#[export] Instance eta_hlt_struct : Eta hlt_struct :=
  fun s => MkHlt s.(handlers) s.(hlt_handler_id) s.(hlt_handler_count)
             s.(hlt_block_size) s.(exitearly).

Definition get_id (i : Z) : M hlt_struct Z := fun s =>
  match aget (hlt_handler_id s) i with Some v => Ok (v, s) | None => Fault OutOfBounds end.

Definition set_id (i v : Z) : M hlt_struct unit := fun s =>
  match aset (hlt_handler_id s) i v with
  | Some l => Ok (tt, s <| hlt_handler_id := l |>)
  | None => Fault OutOfBounds
  end.

Definition get_handler (i : Z) : M hlt_struct hlt_handler := fun s =>
  match aget (handlers s) i with Some v => Ok (v, s) | None => Fault OutOfBounds end.

Definition set_handler (i : Z) (h : hlt_handler) : M hlt_struct unit := fun s =>
  match aset (handlers s) i h with
  | Some l => Ok (tt, s <| handlers := l |>)
  | None => Fault OutOfBounds
  end.

Fixpoint set_ids (n : nat) (i v : Z) : M hlt_struct unit :=
  match n with
  | O => ret tt
  | S n => set_id i v ;; set_ids n (i + 1) v
  end.

(** [junk_h] and [junk_id] are the uninitialised contents of the allocation. *)
Definition hlt_init (junk_h : hlt_handler) (junk_id : Z) (size : Z) : result hlt_struct :=
  if size <=? MAX_HLT_BLK_SIZE then
    Ok (MkHlt ((junk_h <| hh ::= fun h => h <| h_func := HltDefault |> |>) :: replicate 99 junk_h)
          (replicate (Z.to_nat size) 0 ++ replicate (Z.to_nat (MAX_HLT_BLK_SIZE - size)) junk_id)
          1 size false)
  else Fault AssertFailed.

(** What [hlt_handle] calls, with which offset, and what it returns. *)
Record dispatch := MkDispatch { d_func : hlt_func; d_offs : Z; d_arg : Z; d_ret : Z }.

Definition hlt_handle (offs : Z) : M hlt_struct dispatch :=
  let! id := get_id offs in
  let! h := get_handler id in
  ret (MkDispatch (h_func (hh h)) (u16 (offs - start_addr h)) (h_arg (hh h)) (h_ret (hh h))).

(** [for (j...; j < len; j++) if (hlt_handler_id[i + j]) break;] with [n] more
    iterations to go. *)
Fixpoint scan_block (n : nat) (i j : Z) : M hlt_struct Z :=
  match n with
  | O => ret j
  | S n =>
      let! v := get_id (i + j) in
      if truth v then ret j else scan_block n i (j + 1)
  end.

Fixpoint find_block (fuel : nat) (len i : Z) : M hlt_struct Z :=
  match fuel with
  | O => throw OutOfFuel
  | S fuel =>
      let! s := get in
      if i + len <=? hlt_block_size s then
        let! j := scan_block (Z.to_nat len) i 0 in
        if j =? len then ret (u16 i) else find_block fuel len (i + j + 1)
      else ret (u16 (-1))
  end.

Definition hlt_register_handler (handler : emu_hlt_t) : M hlt_struct Z :=
  let! s := get in
  assert (truth (hlt_handler_count s)) ;;
  if MAX_HLT_HANDLERS <=? hlt_handler_count s then
    modify (fun s => s <| exitearly := true |>) ;; ret (u16 (-1))
  else
    let! start := find_block (Z.to_nat (hlt_block_size s + 1)) (h_len handler) 0 in
    if start =? u16 (-1) then
      modify (fun s => s <| exitearly := true |>) ;; ret (u16 (-1))
    else
      let handle := hlt_handler_count s in
      modify (fun s => s <| hlt_handler_count ::= fun c => c + 1 |>) ;;
      set_handler handle (MkHandler handler start) ;;
      set_ids (Z.to_nat (h_len handler)) start handle ;;
      ret start.

(** The [while] that drops the unused handlers at the top. *)
Fixpoint trim_handlers (fuel : nat) : M hlt_struct unit :=
  match fuel with
  | O => throw OutOfFuel
  | S fuel =>
      let! s := get in
      if truth (hlt_handler_count s) then
        let! h := get_handler (hlt_handler_count s - 1) in
        if decide (h_func (hh h) = HltDefault) then
          modify (fun s => s <| hlt_handler_count ::= fun c => c - 1 |>) ;; trim_handlers fuel
        else ret tt
      else ret tt
  end.

Definition hlt_unregister_handler (start : Z) : M hlt_struct Z :=
  let! s := get in
  assert (start <? hlt_block_size s) ;;
  let! handle := get_id start in
  if handle =? 0 then ret (-1)
  else
    let! h := get_handler handle in
    set_ids (Z.to_nat (h_len (hh h))) start 0 ;;
    let! h := get_handler handle in
    set_handler handle (h <| hh ::= fun e => e <| h_func := HltDefault |> |>) ;;
    trim_handlers (S (Z.to_nat (hlt_handler_count s))) ;;
    ret 0.

(** ** Invariant *)

Definition owner (s : hlt_struct) (i : Z) : option hlt_handler :=
  match aget (hlt_handler_id s) i with
  | Some id => if id =? 0 then None else aget (handlers s) id
  | None => None
  end.

Record hlt_ok (s : hlt_struct) : Prop := {
  hok_ids : length (hlt_handler_id s) = 4096%nat;
  hok_handlers : length (handlers s) = 100%nat;
  hok_size : 0 <= hlt_block_size s <= MAX_HLT_BLK_SIZE;
  hok_count : 0 <= hlt_handler_count s <= MAX_HLT_HANDLERS;
  (** a mapped offset lies in the range of a live handler, and that whole
      range is mapped to it *)
  hok_map : forall i id, 0 <= i < hlt_block_size s -> aget (hlt_handler_id s) i = Some id ->
    id <> 0 -> 0 < id < hlt_handler_count s /\
    exists h, aget (handlers s) id = Some h /\ h_func (hh h) <> HltDefault /\
      0 <= start_addr h <= i /\ i < start_addr h + h_len (hh h) <= hlt_block_size s /\
      forall k, start_addr h <= k < start_addr h + h_len (hh h) ->
        aget (hlt_handler_id s) k = Some id;
}.

(** Offsets [i .. i+n-1] are inside the block and unmapped. *)
Definition free_block (s : hlt_struct) (i n : Z) : Prop :=
  0 <= i /\ i + n <= hlt_block_size s /\
  forall k, i <= k < i + n -> aget (hlt_handler_id s) k = Some 0.

(** ** Loops *)

Lemma wp_get_id s i v (Q : Z -> hlt_struct -> Prop) :
  aget (hlt_handler_id s) i = Some v -> Q v s -> wp (get_id i) s Q.
Proof. unfold wp, get_id. intros ->. done. Qed.

Lemma wp_get_handler s i h (Q : hlt_handler -> hlt_struct -> Prop) :
  aget (handlers s) i = Some h -> Q h s -> wp (get_handler i) s Q.
Proof. unfold wp, get_handler. intros ->. done. Qed.

Lemma wp_set_handler s i h (Q : unit -> hlt_struct -> Prop) :
  0 <= i < Z.of_nat (length (handlers s)) -> Q tt (s <| handlers ::= fun l => astore l i h |>) ->
  wp (set_handler i h) s Q.
Proof. intros Hi. unfold wp, set_handler. rewrite aset_lt by done. done. Qed.

Lemma wp_set_ids n i v s (Q : unit -> hlt_struct -> Prop) :
  0 <= i -> i + Z.of_nat n <= Z.of_nat (length (hlt_handler_id s)) ->
  Q tt (s <| hlt_handler_id ::= fill n i (fun _ => v) |>) -> wp (set_ids n i v) s Q.
Proof.
  revert i s. induction n as [|n IH]; intros i s Hi Hb HQ; simpl.
  { by destruct s. }
  apply wp_bind. unfold wp at 1, set_id. rewrite aset_lt by lia. apply IH; [lia| |done].
  simpl. rewrite astore_length. lia.
Qed.

Lemma wp_scan_block s n i j (Q : Z -> hlt_struct -> Prop) :
  length (hlt_handler_id s) = 4096%nat -> 0 <= i -> 0 <= j -> i + j + Z.of_nat n <= 4096 ->
  (forall k, i <= k < i + j -> aget (hlt_handler_id s) k = Some 0) ->
  ((forall k, i <= k < i + j + Z.of_nat n -> aget (hlt_handler_id s) k = Some 0) ->
     Q (j + Z.of_nat n) s) ->
  (forall j', j <= j' < j + Z.of_nat n ->
     aget (hlt_handler_id s) (i + j') <> Some 0 -> Q j' s) ->
  wp (scan_block n i j) s Q.
Proof.
  intros Hl Hi. revert j. induction n as [|n IH]; intros j Hj Hb Hz Ht Hf; cbn [scan_block].
  { wp_step. replace j with (j + Z.of_nat 0) by lia. apply Ht. intros k Hk. apply Hz. lia. }
  destruct (aget_lt (hlt_handler_id s) (i + j)) as [v Hv]; [lia|].
  wp_step. eapply wp_get_id; [done|]. unfold truth. destruct (Z.eqb_spec v 0) as [->|Hne]; simpl.
  - apply IH; try lia.
    + intros k Hk. destruct (Z.eq_dec k (i + j)) as [->|]; [done|]. apply Hz. lia.
    + intros H. replace (j + 1 + Z.of_nat n) with (j + Z.of_nat (S n)) by lia. apply Ht.
      intros k Hk. apply H. lia.
    + intros j' Hj'. apply Hf. lia.
  - wp_step. apply Hf; [lia|]. congruence.
Qed.

Lemma wp_find_block s fuel len i (Q : Z -> hlt_struct -> Prop) :
  hlt_ok s -> 1 <= len -> 0 <= i -> hlt_block_size s - i < Z.of_nat fuel -> (0 < fuel)%nat ->
  (forall k, 0 <= k < i -> ~ free_block s k len) ->
  (forall r, free_block s r len -> (forall k, 0 <= k < r -> ~ free_block s k len) -> Q r s) ->
  ((forall k, ~ free_block s k len) -> Q (u16 (-1)) s) ->
  wp (find_block fuel len i) s Q.
Proof.
  intros Hok Hlen. pose proof (hok_size _ Hok) as Hsz. unfold MAX_HLT_BLK_SIZE in Hsz.
  revert i. induction fuel as [|fuel IH]; intros i Hi Hf Hf0 Hno Hq Hfail; [lia|].
  cbn [find_block]. wp_step. apply wp_get. destruct (Z.leb_spec (i + len) (hlt_block_size s)) as [Hle|Hgt].
  2: { wp_step. apply Hfail. intros k Hk. destruct (Z.le_gt_cases i k).
       - destruct Hk as (_ & Hk & _). lia.
       - apply (Hno k); [|done]. destruct Hk. lia. }
  wp_step. apply wp_scan_block; try lia; [apply Hok|..].
  - intros Hz. replace (0 + Z.of_nat (Z.to_nat len)) with len by lia. rewrite Z.eqb_refl.
    wp_step. rewrite u16_small by lia. apply Hq; [|done]. split_and!; [done|done|].
    intros k Hk. apply Hz. lia.
  - intros j' Hj' Hnz. rewrite (proj2 (Z.eqb_neq j' len)) by lia. apply IH; try done; try lia.
    intros k Hk. destruct (Z.le_gt_cases i k) as [Hik|]; [|apply Hno; lia].
    intros (_ & _ & Hr). apply Hnz, Hr. lia.
Qed.

Lemma owner_Some s i h : hlt_ok s -> 0 <= i < hlt_block_size s -> owner s i = Some h ->
  exists id, aget (hlt_handler_id s) i = Some id /\ 0 < id < hlt_handler_count s /\
    aget (handlers s) id = Some h /\
    h_func (hh h) <> HltDefault /\ 0 <= start_addr h <= i /\
    i < start_addr h + h_len (hh h) <= hlt_block_size s /\
    forall k, start_addr h <= k < start_addr h + h_len (hh h) ->
      aget (hlt_handler_id s) k = Some id.
Proof.
  intros Hok Hi. unfold owner. destruct (aget (hlt_handler_id s) i) as [id|] eqn:E; [|done].
  destruct (Z.eqb_spec id 0) as [|Hne]; [done|]. intros Hh.
  destruct (hok_map _ Hok _ _ Hi E Hne) as (Hid & h' & Hh' & H).
  assert (h' = h) as -> by congruence. exists id. destruct H as (? & ? & ? & ?). split_and!; try done; lia.
Qed.

(** The registry after a successful registration. *)
Definition registered (s : hlt_struct) (handler : emu_hlt_t) (start : Z) : hlt_struct :=
  s <| hlt_handler_count ::= fun c => c + 1 |>
    <| handlers ::= fun l => astore l (hlt_handler_count s) (MkHandler handler start) |>
    <| hlt_handler_id ::= fill (Z.to_nat (h_len handler)) start (fun _ => hlt_handler_count s) |>.

Lemma registered_id s handler start i :
  0 <= start -> 0 <= h_len handler ->
  start + h_len handler <= Z.of_nat (length (hlt_handler_id s)) ->
  aget (hlt_handler_id (registered s handler start)) i =
    if (start <=? i) && (i <? start + h_len handler) then Some (hlt_handler_count s)
    else aget (hlt_handler_id s) i.
Proof. intros H1 H2 H3. simpl. rewrite aget_fill by lia. by rewrite Z2Nat.id by lia. Qed.

Lemma registered_ok s handler start :
  hlt_ok s -> 1 <= hlt_handler_count s < MAX_HLT_HANDLERS -> 1 <= h_len handler ->
  h_func handler <> HltDefault -> free_block s start (h_len handler) ->
  hlt_ok (registered s handler start).
Proof.
  unfold MAX_HLT_HANDLERS. intros Hok Hc Hlen Hd (Hs & Hb & Hz).
  pose proof (hok_size _ Hok) as Hsz. unfold MAX_HLT_BLK_SIZE in Hsz.
  pose proof (hok_ids _ Hok) as Hi. pose proof (hok_handlers _ Hok) as Hh.
  split.
  - simpl. by rewrite fill_length.
  - simpl. by rewrite astore_length.
  - apply Hok.
  - simpl. unfold MAX_HLT_HANDLERS. lia.
  - intros i id Hir Hid Hne. rewrite registered_id in Hid by lia.
    change (hlt_handler_count (registered s handler start)) with (hlt_handler_count s + 1).
    change (handlers (registered s handler start))
      with (astore (handlers s) (hlt_handler_count s) (MkHandler handler start)).
    change (hlt_block_size (registered s handler start)) with (hlt_block_size s) in *.
    rewrite aget_astore by lia.
    destruct ((start <=? i) && (i <? start + h_len handler)) eqn:E.
    + injection Hid as <-. split; [lia|]. rewrite Z.eqb_refl. eexists. split; [done|]. simpl.
      apply andb_true_iff in E. split_and!; try done; try lia.
      intros k Hk. rewrite (aget_fill _ _ _ (hlt_handler_id s)) by lia.
      rewrite (proj2 (Z.leb_le _ _)), (proj2 (Z.ltb_lt _ _)) by lia. done.
    + destruct (hok_map _ Hok i id Hir Hid Hne) as (H1 & h & H2 & H3 & H4 & H5 & H6).
      split; [lia|]. rewrite (proj2 (Z.eqb_neq _ _)) by lia. exists h. split_and!; try done; try lia.
      intros k Hk. rewrite registered_id by lia.
      destruct ((start <=? k) && (k <? start + h_len handler)) eqn:E'; [|by apply H6].
      apply andb_true_iff in E'. specialize (H6 k Hk). rewrite Hz in H6 by lia. congruence.
Qed.

Lemma wp_hlt_register_handler s handler (Q : Z -> hlt_struct -> Prop) :
  hlt_ok s -> 1 <= hlt_handler_count s -> 1 <= h_len handler ->
  (forall r, hlt_handler_count s < MAX_HLT_HANDLERS -> free_block s r (h_len handler) ->
     (forall k, 0 <= k < r -> ~ free_block s k (h_len handler)) -> Q r (registered s handler r)) ->
  (hlt_handler_count s = MAX_HLT_HANDLERS \/ (forall k, ~ free_block s k (h_len handler)) ->
     Q (u16 (-1)) (s <| exitearly := true |>)) ->
  wp (hlt_register_handler handler) s Q.
Proof.
  intros Hok Hc Hlen HQ Hf. pose proof (hok_count _ Hok) as Hcm.
  unfold hlt_register_handler. wp_step. apply wp_get. wp_step. apply wp_assert.
  { unfold truth. by rewrite (proj2 (Z.eqb_neq _ _)) by lia. }
  destruct (Z.leb_spec MAX_HLT_HANDLERS (hlt_handler_count s)) as [Hge|Hlt].
  { wp_step. apply wp_modify. wp_step. apply Hf. left. lia. }
  pose proof (hok_size _ Hok) as Hsz. unfold MAX_HLT_BLK_SIZE in Hsz.
  wp_step. apply wp_find_block; try done; try lia.
  - intros r Hr Hlm. pose proof Hr as (H1 & H2 & _). change (u16 (-1)) with 65535.
    rewrite (proj2 (Z.eqb_neq r 65535)) by lia. wp_step. apply wp_modify.
    wp_step. apply wp_set_handler.
    { simpl. rewrite (hok_handlers _ Hok). unfold MAX_HLT_HANDLERS in *. lia. }
    wp_step. apply wp_set_ids; [lia| |].
    { simpl. rewrite (hok_ids _ Hok). lia. }
    wp_step. by apply HQ.
  - intros Hno. rewrite Z.eqb_refl. wp_step. apply wp_modify. wp_step. auto.
Qed.

Lemma hlt_ok_exitearly s b : hlt_ok s -> hlt_ok (s <| exitearly := b |>).
Proof. intros [H1 H2 H3 H4 H5]. by constructor. Qed.

Lemma wp_trim_handlers fuel s (Q : unit -> hlt_struct -> Prop) :
  0 <= hlt_handler_count s <= Z.of_nat (length (handlers s)) ->
  hlt_handler_count s < Z.of_nat fuel ->
  (forall c, 0 <= c <= hlt_handler_count s ->
     (forall k h, c <= k < hlt_handler_count s -> aget (handlers s) k = Some h ->
        h_func (hh h) = HltDefault) -> Q tt (s <| hlt_handler_count := c |>)) ->
  wp (trim_handlers fuel) s Q.
Proof.
  revert s. induction fuel as [|fuel IH]; intros s Hc Hf HQ; [lia|]. cbn [trim_handlers].
  assert ((s <| hlt_handler_count := hlt_handler_count s |>) = s) as Es by (by destruct s).
  wp_step. apply wp_get. unfold truth. destruct (Z.eqb_spec (hlt_handler_count s) 0) as [E|E]; simpl negb; cbv iota.
  { wp_step. rewrite <- Es. apply HQ; [lia|]. intros; lia. }
  destruct (aget_lt (handlers s) (hlt_handler_count s - 1)) as [h Hh]; [lia|].
  wp_step. eapply wp_get_handler; [done|]. destruct (decide (h_func (hh h) = HltDefault)) as [Hd|Hd].
  - wp_step. apply wp_modify. apply IH; simpl; [lia|lia|]. intros c Hcc Hall.
    apply HQ; [lia|]. intros k h' Hk Hh'. destruct (Z.eq_dec k (hlt_handler_count s - 1)) as [->|].
    + congruence.
    + apply (Hall k h'); [lia|done].
  - wp_step. rewrite <- Es. apply HQ; [lia|]. intros; lia.
Qed.

(** The registry after removing handler [id], before the handlers at the top
    are trimmed to [c]. *)
Definition unregistered (s : hlt_struct) (id : Z) (h : hlt_handler) (c : Z) : hlt_struct :=
  s <| hlt_handler_id ::= fill (Z.to_nat (h_len (hh h))) (start_addr h) (fun _ => 0) |>
    <| handlers ::= fun l => astore l id (h <| hh ::= fun e => e <| h_func := HltDefault |> |>) |>
    <| hlt_handler_count := c |>.

Lemma wp_hlt_unregister_handler s start h (Q : Z -> hlt_struct -> Prop) :
  hlt_ok s -> 0 <= start < hlt_block_size s -> owner s start = Some h -> start_addr h = start ->
  (forall id c, aget (hlt_handler_id s) start = Some id -> 0 < id < hlt_handler_count s ->
     0 <= c <= hlt_handler_count s ->
     (forall k h', c <= k < hlt_handler_count s -> k <> id -> aget (handlers s) k = Some h' ->
        h_func (hh h') = HltDefault) -> Q 0 (unregistered s id h c)) ->
  wp (hlt_unregister_handler start) s Q.
Proof.
  intros Hok Hs Ho Hst HQ.
  destruct (owner_Some _ _ _ Hok Hs Ho) as (id & Hid & Hidr & Hh & Hd & H1 & H2 & H3).
  pose proof (hok_size _ Hok) as Hsz. unfold MAX_HLT_BLK_SIZE in Hsz.
  pose proof (hok_count _ Hok) as Hc. unfold MAX_HLT_HANDLERS in Hc.
  pose proof (hok_handlers _ Hok) as Hl.
  unfold hlt_unregister_handler. wp_step. apply wp_get. wp_step.
  apply wp_assert; [apply Z.ltb_lt; lia|]. wp_step. eapply wp_get_id; [done|].
  rewrite (proj2 (Z.eqb_neq id 0)) by lia. wp_step. eapply wp_get_handler; [done|].
  wp_step. apply wp_set_ids; [lia|rewrite (hok_ids _ Hok); lia|].
  wp_step. eapply wp_get_handler; [done|]. wp_step. apply wp_set_handler; [simpl; lia|].
  wp_step. apply wp_trim_handlers; simpl; [rewrite astore_length; lia|lia|].
  intros c Hcc Hall. wp_step. subst start. apply HQ; try done.
  intros k h' Hk Hne Hk'. apply (Hall k h' Hk). rewrite aget_astore by lia.
  by rewrite (proj2 (Z.eqb_neq k id)).
Qed.

Lemma unregistered_owner s start h id c i :
  hlt_ok s -> 0 <= start < hlt_block_size s -> owner s start = Some h ->
  aget (hlt_handler_id s) start = Some id -> 0 <= i < hlt_block_size s ->
  owner (unregistered s id h c) i =
    if (start_addr h <=? i) && (i <? start_addr h + h_len (hh h)) then None else owner s i.
Proof.
  intros Hok Hs Ho Hid Hi.
  destruct (owner_Some _ _ _ Hok Hs Ho) as (id' & Hid' & Hidr & Hh & Hd & H1 & H2 & H3).
  assert (id' = id) as -> by congruence.
  pose proof (hok_size _ Hok) as Hsz. unfold MAX_HLT_BLK_SIZE in Hsz.
  pose proof (hok_count _ Hok) as Hc. unfold MAX_HLT_HANDLERS in Hc.
  pose proof (hok_handlers _ Hok) as Hl. pose proof (hok_ids _ Hok).
  unfold owner. simpl. rewrite aget_fill, Z2Nat.id by lia.
  destruct ((start_addr h <=? i) && (i <? start_addr h + h_len (hh h))) eqn:E; [done|].
  destruct (aget (hlt_handler_id s) i) as [j|] eqn:Ej; [|done].
  destruct (Z.eqb_spec j 0) as [|Hj]; [done|]. rewrite aget_astore by lia.
  destruct (Z.eqb_spec j id) as [->|]; [|done]. exfalso.
  destruct (hok_map _ Hok _ _ Hi Ej Hj) as (_ & h' & Hh' & _ & Hr1 & Hr2 & _).
  assert (h' = h) as -> by congruence.
  apply andb_false_iff in E. rewrite Z.leb_gt, Z.ltb_ge in E. lia.
Qed.

Lemma unregistered_ok s start h id c :
  hlt_ok s -> 0 <= start < hlt_block_size s -> owner s start = Some h ->
  aget (hlt_handler_id s) start = Some id -> 0 <= c <= hlt_handler_count s ->
  (forall k h', c <= k < hlt_handler_count s -> k <> id -> aget (handlers s) k = Some h' ->
     h_func (hh h') = HltDefault) ->
  hlt_ok (unregistered s id h c).
Proof.
  intros Hok Hs Ho Hid Hcc Htop.
  destruct (owner_Some _ _ _ Hok Hs Ho) as (id' & Hid' & Hidr & Hh & Hd & H1 & H2 & H3).
  assert (id' = id) as -> by congruence.
  pose proof (hok_size _ Hok) as Hsz. unfold MAX_HLT_BLK_SIZE in Hsz.
  pose proof (hok_count _ Hok) as Hc. unfold MAX_HLT_HANDLERS in Hc.
  pose proof (hok_handlers _ Hok) as Hl. pose proof (hok_ids _ Hok).
  split; simpl.
  - by rewrite fill_length.
  - by rewrite astore_length.
  - apply Hok.
  - unfold MAX_HLT_HANDLERS. lia.
  - intros i j Hi Ej Hj. rewrite aget_fill, Z2Nat.id in Ej by lia.
    destruct ((start_addr h <=? i) && (i <? start_addr h + h_len (hh h))) eqn:E;
      [injection Ej as <-; done|].
    destruct (hok_map _ Hok _ _ Hi Ej Hj) as (Hjr & h' & Hh' & Hd' & Hr1 & Hr2 & Hr3).
    assert (j <> id) as Hne.
    { intros ->. assert (h' = h) as -> by congruence.
      apply andb_false_iff in E. rewrite Z.leb_gt, Z.ltb_ge in E. lia. }
    split.
    { destruct (Z.le_gt_cases c j); [|lia]. exfalso. apply Hd', (Htop j h'); try done; lia. }
    exists h'. rewrite aget_astore by lia. rewrite (proj2 (Z.eqb_neq j id)) by done.
    split_and!; try done; try lia. intros k Hk. rewrite aget_fill, Z2Nat.id by lia.
    destruct ((start_addr h <=? k) && (k <? start_addr h + h_len (hh h))) eqn:E'; [|by apply Hr3].
    apply andb_true_iff in E'. specialize (Hr3 k Hk). rewrite H3 in Hr3 by lia. congruence.
Qed.

(** ** Properties *)

(** [hlt_register_handler] gives the handler the leftmost unmapped block
    of its length: every HLT inside the block is then dispatched to it with
    the offset from the returned address, and no other offset changes owner.
    It fails, returning 0xffff and asking for an early exit, only when all
    handler slots are taken or no such block exists. *)
Theorem hlt_register_correct s handler :
  hlt_ok s -> 1 <= hlt_handler_count s -> 1 <= h_len handler -> h_func handler <> HltDefault ->
  exists r s', hlt_register_handler handler s = Ok (r, s') /\ hlt_ok s' /\
    ((free_block s r (h_len handler) /\ (forall k, 0 <= k < r -> ~ free_block s k (h_len handler)) /\
      (forall i, r <= i < r + h_len handler -> hlt_handle i s' =
         Ok (MkDispatch (h_func handler) (i - r) (h_arg handler) (h_ret handler), s')) /\
      (forall i, ~ r <= i < r + h_len handler -> 0 <= i < hlt_block_size s ->
         owner s' i = owner s i)) \/
     (r = 65535 /\ s' = s <| exitearly := true |> /\
      (hlt_handler_count s = MAX_HLT_HANDLERS \/ forall k, ~ free_block s k (h_len handler)))).
Proof.
  intros Hok Hc Hlen Hd. apply wp_inv. apply wp_hlt_register_handler; try done.
  - intros r Hcm Hr Hlm. split; [apply registered_ok; auto|]. left.
    pose proof Hr as (H1 & H2 & _). pose proof (hok_size _ Hok) as Hsz.
    unfold MAX_HLT_BLK_SIZE, MAX_HLT_HANDLERS in *.
    pose proof (hok_ids _ Hok) as Hi. pose proof (hok_handlers _ Hok) as Hh.
    split_and!; try done.
    + intros i Hir. unfold hlt_handle, bind, get_id, get_handler. rewrite registered_id by lia.
      rewrite (proj2 (Z.leb_le _ _)), (proj2 (Z.ltb_lt _ _)) by lia. simpl.
      rewrite aget_astore, Z.eqb_refl by lia. simpl. rewrite u16_small by lia. done.
    + intros i Hout Hir. unfold owner. rewrite registered_id by lia.
      replace ((r <=? i) && (i <? r + h_len handler)) with false.
      2: { symmetry. apply andb_false_iff. rewrite Z.leb_gt, Z.ltb_ge. lia. }
      destruct (aget (hlt_handler_id s) i) as [id|] eqn:E; [|done].
      destruct (Z.eqb_spec id 0) as [|Hne]; [done|].
      destruct (hok_map _ Hok _ _ Hir E Hne) as (Hid & _). simpl. rewrite aget_astore by lia.
      by rewrite (proj2 (Z.eqb_neq _ _)) by lia.
  - intros H. split; [by apply hlt_ok_exitearly|by right].
Qed.

Definition example_handler (f : nat) : emu_hlt_t := MkEmuHlt (HltFunc f) 16 5 2.

Definition no_handler : hlt_handler := MkHandler (MkEmuHlt HltDefault 0 0 0) 0.

Definition example_hlt : hlt_struct :=
  match hlt_init no_handler 0 256 with Ok s => s | Fault _ => MkHlt [] [] 0 0 false end.

Lemma example_hlt_ok : hlt_ok example_hlt.
Proof.
  assert (forall i id, aget (hlt_handler_id example_hlt) i = Some id -> id = 0) as Hz.
  { intros i id. unfold aget. destruct (i <? 0); [done|].
    change (hlt_handler_id example_hlt) with (replicate 256 0 ++ replicate (Z.to_nat (4096 - 256)) 0).
    intros [H|[_ H]]%lookup_app_Some; apply lookup_replicate in H; apply H. }
  split; try done.
  intros i id _ Hi Hne. by apply Hz in Hi.
Qed.

Lemma hlt_register_correct_witness :
  exists r s', hlt_register_handler (example_handler 3) example_hlt = Ok (r, s') /\
    hlt_handle 7 s' = Ok (MkDispatch (HltFunc 3) 7 5 2, s').
Proof.
  destruct (hlt_register_correct example_hlt (example_handler 3) example_hlt_ok)
    as (r & s' & E & _ & [(Hf & Hl & Hd & _)|(-> & _)]);
    [vm_compute; discriminate|vm_compute; discriminate|done|..].
  - exists r, s'. split; [exact E|]. assert (r = 0) as -> by (vm_compute in E; by injection E).
    apply (Hd 7). simpl. lia.
  - exfalso. vm_compute in E. discriminate E.
Defined.

(** [hlt_unregister_handler] at the start address of a handler unmaps
    exactly the offsets of that handler and keeps the registry well formed. *)
Theorem hlt_unregister_correct s start h :
  hlt_ok s -> 0 <= start < hlt_block_size s -> owner s start = Some h -> start_addr h = start ->
  exists s', hlt_unregister_handler start s = Ok (0, s') /\ hlt_ok s' /\
    forall i, 0 <= i < hlt_block_size s -> owner s' i =
      if (start <=? i) && (i <? start + h_len (hh h)) then None else owner s i.
Proof.
  intros Hok Hs Ho Hst.
  destruct (wp_inv (hlt_unregister_handler start) s (fun r s' => r = 0 /\ hlt_ok s' /\
    forall i, 0 <= i < hlt_block_size s -> owner s' i =
      if (start <=? i) && (i <? start + h_len (hh h)) then None else owner s i))
    as (r & s' & E & -> & H); [|by eauto].
  eapply wp_hlt_unregister_handler; try done. intros id c Hid Hidr Hc Htop.
  split; [done|]. split; [by eapply unregistered_ok|].
  intros i Hi. rewrite (unregistered_owner s start) by done. by rewrite Hst.
Qed.

(** Handlers 3 and 4 registered. *)
Definition two_handlers : hlt_struct :=
  match (hlt_register_handler (example_handler 3) ;; hlt_register_handler (example_handler 4))
          example_hlt with
  | Ok (_, s) => s
  | Fault _ => example_hlt
  end.

Lemma two_handlers_ok : hlt_ok two_handlers.
Proof.
  destruct (wp_inv (hlt_register_handler (example_handler 3) ;;
    hlt_register_handler (example_handler 4)) example_hlt (fun _ s => hlt_ok s))
    as (r & s & E & H).
  { apply wp_bind. apply wp_hlt_register_handler;
      [apply example_hlt_ok|vm_compute; congruence|vm_compute; congruence|..].
    - intros r Hc Hf _.
      assert (hlt_ok (registered example_hlt (example_handler 3) r)) as Hr
        by (apply registered_ok;
          [apply example_hlt_ok|vm_compute; split; congruence|vm_compute; congruence|discriminate|done]).
      apply wp_hlt_register_handler; [exact Hr|vm_compute; congruence|vm_compute; congruence|..].
      + intros r' Hc' Hf' _. apply registered_ok;
          [exact Hr|vm_compute; split; congruence|vm_compute; congruence|discriminate|done].
      + intros _. by apply hlt_ok_exitearly.
    - intros [H|H]; [vm_compute in H; discriminate H|]. destruct (H 0). split_and!; try done.
      intros k Hk. simpl in Hk. unfold aget. rewrite (proj2 (Z.ltb_ge k 0)) by lia.
      change (hlt_handler_id example_hlt) with (replicate 256 0 ++ replicate (Z.to_nat (4096 - 256)) 0).
      rewrite lookup_app_l by (rewrite length_replicate; lia). apply lookup_replicate_2. lia. }
  unfold two_handlers. by rewrite E.
Qed.

Lemma hlt_unregister_correct_witness :
  exists s', hlt_unregister_handler 16 two_handlers = Ok (0, s') /\ hlt_ok s' /\
    owner s' 20 = None /\ owner s' 5 = Some (MkHandler (example_handler 3) 0).
Proof.
  destruct (hlt_unregister_correct two_handlers 16 (MkHandler (example_handler 4) 16) two_handlers_ok)
    as (s' & E & Hok & Ho); [split; vm_compute; congruence|vm_compute; reflexivity|reflexivity|].
  exists s'. split; [exact E|]. split; [exact Hok|].
  split; rewrite Ho by (split; vm_compute; congruence); vm_compute; reflexivity.
Defined.

(** Once the last registered handler is unregistered, nothing can be
    registered any more: trimming does not stop at the default handler in slot
    0, so the count drops to 0 and the next [hlt_register_handler] fails its
    assertion. *)
Theorem hlt_unregister_last_breaks_register :
  (let! r := hlt_register_handler (example_handler 3) in
   hlt_unregister_handler r ;;
   hlt_register_handler (example_handler 4)) example_hlt = Fault AssertFailed.
Proof. vm_compute. reflexivity. Qed.
