(* ===== verification/Xms.v ===== *)
(** * The XMS driver (src/src/dosext/misc/xms.c, set_a20 and HMA_MAP of src/src/base/misc/hma.c)

    Extended memory blocks (EMBs) with their handles, the physical window they
    are locked into (pages of the page allocator, used through the interface
    [PageAlloc]), upper memory blocks (UMBs, pools of [Smalloc]), the HMA and the
    A20 gate, and the dispatcher [xms_control] on the client's registers.

    The mapping layer below is an environment: [alloc_mapping],
    [realloc_mapping], [alias_mapping_pa] and [alias_mapping] answer from an [xms_env], which
    sees all earlier calls, and every call is recorded.  Memory is one byte per
    address, DOS memory and host memory (the EMB contents) separately; a
    [void *] is a [Z], 0 is [NULL]. *)

From stdpp Require Import base numbers list.
From Stdlib Require Import ZArith Lia.
From S2P Require Import Prelude Interfaces Smalloc.

Local Open Scope Z_scope.

(** ** Registers *)

Record regs := MkRegs {
  eax : Z; ebx : Z; ecx : Z; edx : Z; esi : Z; edi : Z;    (* 32 bits each *)
  ds : Z; es : Z;
  cf : bool; zf : bool;
  eip : Z;
}.
#[export] Instance eta_regs : Eta regs :=
  fun r => MkRegs r.(eax) r.(ebx) r.(ecx) r.(edx) r.(esi) r.(edi) r.(ds) r.(es) r.(cf) r.(zf) r.(eip).

(** ** State *)

Definition NUM_HANDLES : Z := 65.
Definition FIRST_HANDLE : Z := 1.
Definition UMBS : Z := 16.
Definition UMB_NULL : Z := -1.
Definition PAGE_SHIFT : Z := 12.
Definition LOWMEM_SIZE : Z := 1048576.
Definition HMASIZE : Z := 65536.

Inductive xms_api := OLDXMS | NEWXMS.

Record Handle := MkHandle {
  num : Z;
  addr : Z;         (* void *, 0 = NULL *)
  hsize : Z;        (* unsigned int *)
  lockcount : Z;    (* int *)
  dst : Z;          (* unsigned *)
}.
#[export] Instance eta_Handle : Eta Handle :=
  fun h => MkHandle h.(num) h.(addr) h.(hsize) h.(lockcount) h.(dst).

Record xms_config := MkConfig {
  xms_size : Z;         (* config.xms_size, KB *)
  hma : bool;           (* config.hma *)
  xms_base : Z;         (* LOWMEM_SIZE + EXTMEM_SIZE *)
  main_pool_size : Z;   (* main_pool.size *)
  XMSControl_SEG : Z;
  XMSControl_OFF : Z;
}.

(** Calls into the layers below. *)
Inductive xcall :=
| AllocMapping (size : Z) (res : option Z)
| ReallocMapping (optr osize size : Z) (res : option Z)
| FreeMapping (ptr size : Z)
| AliasMapping (pa size ptr : Z) (ok : bool)
| UnaliasMapping (pa size : Z)
| AliasHMA (HMA ok : bool)
| Invalidate (a size : Z)
| SetExtmem (on : bool)
| MapReserve (a size : Z)
| MapFree.

Record xms_env := MkEnv {
  alloc_mapping : list xcall -> Z -> option Z;              (* None: MAP_FAILED *)
  realloc_mapping : list xcall -> Z -> Z -> Z -> option Z;
  alias_mapping_pa : list xcall -> Z -> Z -> Z -> bool;      (* false: -1 *)
  alias_mapping : list xcall -> bool -> bool;                (* of the HMA, to itself or to 0 *)
  findhole : list xcall -> Z -> option (Z * Z);              (* memcheck_findhole *)
  is_pframe_addr : Z -> Z -> bool * Z;                       (* emm_is_pframe_addr *)
}.

Record xms (P : Type) := MkXms {
  a20 : bool;
  a20_local : Z;                (* int *)
  a20_global : bool;
  freeHMA : bool;
  handles : list Handle;        (* [NUM_HANDLES] *)
  handle_count : Z;
  intdrv : bool;
  ext_hooked_hma : bool;
  totalBytes : Z;               (* int *)
  pgapool : P;
  umbs : list mempool;          (* umbs[0 .. umbs_used-1] *)
  rg : regs;
  dosmem : Z -> Z;
  hostmem : Z -> Z;
  xlog : list xcall;
}.
Arguments MkXms {P}.
Arguments a20 {P}. Arguments a20_local {P}. Arguments a20_global {P}.
Arguments freeHMA {P}. Arguments handles {P}. Arguments handle_count {P}.
Arguments intdrv {P}. Arguments ext_hooked_hma {P}. Arguments totalBytes {P}.
Arguments pgapool {P}. Arguments umbs {P}. Arguments rg {P}.
Arguments dosmem {P}. Arguments hostmem {P}. Arguments xlog {P}.
#[export] Instance eta_xms P : Eta (xms P) :=
  fun s => MkXms s.(a20) s.(a20_local) s.(a20_global) s.(freeHMA) s.(handles)
    s.(handle_count) s.(intdrv) s.(ext_hooked_hma) s.(totalBytes) s.(pgapool)
    s.(umbs) s.(rg) s.(dosmem) s.(hostmem) s.(xlog).

Definition umbs_used {P} (s : xms P) : Z := Z.of_nat (length (umbs s)).

(** [PAGE_ALIGN] of an [unsigned]. *)
Definition PAGE_ALIGN (x : Z) : Z := u32 (page_align x).

Definition SEGOFF2LINEAR (seg off : Z) : Z := u32 (seg * 16 + off).

Section xms.
Context {P : Type} {PA : PageAlloc P}.
Context (config : xms_config) (env : xms_env).
Abbreviation X := (M (xms P)).

Definition note (c : xcall) : X unit := modify (fun s => s <| xlog ::= cons c |>).

Definition set_regs (f : regs -> regs) : X unit := modify (fun s => s <| rg ::= f |>).

Definition get_handle (h : Z) : X Handle := fun s =>
  match aget (handles s) h with Some x => Ok (x, s) | None => Fault OutOfBounds end.

Definition upd_handle (h : Z) (f : Handle -> Handle) : X unit := fun s =>
  match aget (handles s) h with
  | Some x => Ok (tt, s <| handles ::= fun l => astore l h (f x) |>)
  | None => Fault OutOfBounds
  end.

(** Run an operation of the page allocator on [pgapool]. *)
Definition on_pgapool {A} (c : M P A) : X A := fun s =>
  match c (pgapool s) with
  | Ok (a, p) => Ok (a, s <| pgapool := p |>)
  | Fault e => Fault e
  end.

(** Run an operation of the small allocator on [&umbs[i]]; the UMB pools have
    no commit callback and live in DOS memory. *)
Definition on_umb {A} (i : Z) (c : M smstate A) : X A := fun s =>
  match aget (umbs s) i with
  | None => Fault OutOfBounds
  | Some p =>
      match c (MkSm p (dosmem s) []) with
      | Ok (a, st) =>
          Ok (a, s <| umbs ::= fun l => astore l i (sm_pool st) |> <| dosmem := sm_mem st |>)
      | Fault e => Fault e
      end
  end.

Definition no_commit : list call -> Z -> Z -> bool := fun _ _ _ => true.

(** ** Upper memory blocks *)

Fixpoint umb_setup_loop (fuel : nat) (umb_ems : bool) (addr_start : Z) : X unit :=
  match fuel with
  | O => throw OutOfFuel
  | S fuel =>
      let! s := get in
      match findhole env (xlog s) addr_start with
      | None => ret tt
      | Some (addr_start, size) =>
          let '(pf, size') := if umb_ems then (false, size)
                              else is_pframe_addr env addr_start size in
          if pf : bool then umb_setup_loop fuel umb_ems (u32 (addr_start + 16 * 1024))
          else
            note (MapReserve addr_start size') ;;
            let! s := get in
            assert (umbs_used s <? UMBS) ;;
            modify (fun s => s <| umbs ::= fun l => l ++ [sminit addr_start size'] |>) ;;
            umb_setup_loop fuel umb_ems addr_start
      end
  end.

Definition umb_setup (fuel : nat) (umb_ems : bool) : X unit := umb_setup_loop fuel umb_ems 0.

Fixpoint umb_find_loop (l : list mempool) (i addr : Z) : Z :=
  match l with
  | [] => UMB_NULL
  | p :: l =>
      let base := smget_base_addr p in
      if (base <=? addr) && (addr <? base + mp_size p) then i
      else umb_find_loop l (i + 1) addr
  end.

Definition umb_find (segbase : Z) (s : xms P) : Z :=
  umb_find_loop (umbs s) 0 (SEGOFF2LINEAR segbase 0).

(** Index of the first pool with a large enough free area. *)
Fixpoint umb_fitting (l : list mempool) (i size : Z) : option Z :=
  match l with
  | [] => None
  | p :: l => if size <=? smget_largest_free_area p then Some i else umb_fitting l (i + 1) size
  end.

Definition umb_allocate (size : Z) : X Z :=
  let! s := get in
  match umb_fitting (umbs s) 0 size with
  | Some i =>
      let! a := on_umb i (smalloc no_commit size) in
      assert (negb (a =? SM_FAILED)) ;;
      ret a
  | None => ret 0
  end.

Fixpoint umb_free_all_loop (n : nat) (i : Z) : X unit :=
  match n with
  | O => ret tt
  | S n =>
      let! s := get in
      match aget (umbs s) i with
      | None => throw OutOfBounds
      | Some p =>
          note (Invalidate (smget_base_addr p) (mp_size p)) ;;
          on_umb i smfree_all ;;
          umb_free_all_loop n (i + 1)
      end
  end.

Definition umb_free_all : X unit :=
  let! s := get in
  umb_free_all_loop (length (umbs s)) 0 ;;
  modify (fun s => s <| umbs := [] |>).

Definition umb_free (segbase : Z) : X Z :=
  let! s := get in
  let umb := umb_find segbase s in
  if negb (umb =? UMB_NULL) then on_umb umb (smfree (SEGOFF2LINEAR segbase 0))
  else ret (-1).

Fixpoint umb_query_loop (largest : Z) (l : list mempool) : Z :=
  match l with
  | [] => largest
  | p :: l =>
      let f := smget_largest_free_area p in
      umb_query_loop (if largest <? f then i32 f else largest) l
  end.

Definition umb_query (s : xms P) : Z := umb_query_loop 0 (umbs s).

(** ** Extended memory blocks *)

Definition xms_alloc (size : Z) : X Z :=
  let! s := get in
  let r := alloc_mapping env (xlog s) (PAGE_ALIGN size) in
  note (AllocMapping (PAGE_ALIGN size) r) ;;
  ret (match r with Some p => p | None => 0 end).

Definition xms_realloc (optr osize size : Z) : X Z :=
  let! s := get in
  let r := realloc_mapping env (xlog s) optr (PAGE_ALIGN osize) (PAGE_ALIGN size) in
  note (ReallocMapping optr (PAGE_ALIGN osize) (PAGE_ALIGN size) r) ;;
  ret (match r with Some p => p | None => 0 end).

Definition xms_free (a osize : Z) : X unit := note (FreeMapping a (PAGE_ALIGN osize)).

Definition map_EMB (a size handle : Z) : X Z :=
  let! page := on_pgapool (pa_alloc (Z.shiftr (PAGE_ALIGN size) PAGE_SHIFT) handle) in
  if page <? 0 then ret 0
  else
    let r := u32 (xms_base config + Z.shiftl page PAGE_SHIFT) in
    let! s := get in
    let ok := alias_mapping_pa env (xlog s) r (PAGE_ALIGN size) a in
    note (AliasMapping r (PAGE_ALIGN size) a ok) ;;
    if ok then ret r else throw LeaveDos.

Definition unmap_EMB (base size : Z) : X unit :=
  note (Invalidate base (PAGE_ALIGN size)) ;;
  note (UnaliasMapping base (PAGE_ALIGN size)) ;;
  on_pgapool (pa_free (Z.shiftr (u32 (base - xms_base config)) PAGE_SHIFT)).

Definition do_free_EMB (h : Z) : X unit :=
  let! x := get_handle h in
  (if truth (dst x) then unmap_EMB (dst x) (hsize x) else ret tt) ;;
  upd_handle h (fun x => x <| dst := 0 |>) ;;
  let! x := get_handle h in
  (if truth (addr x) then xms_free (addr x) (hsize x) else ret tt) ;;
  upd_handle h (fun x => x <| addr := 0 |>).

Fixpoint free_all_EMB (n : nat) (i : Z) : X unit :=
  match n with
  | O => ret tt
  | S n => do_free_EMB i ;; free_all_EMB n (i + 1)
  end.

Definition xms_reset : X unit :=
  let! s := get in
  (if truth (umbs_used s) then umb_free_all ;; note MapFree else ret tt) ;;
  free_all_EMB (Z.to_nat NUM_HANDLES) 0 ;;
  modify (fun s => s <| handle_count := 0 |> <| totalBytes := 0 |> <| intdrv := false |>
    <| freeHMA := false |> <| ext_hooked_hma := false |>
    <| a20_global := false |> <| a20_local := 0 |>) ;;
  on_pgapool pa_reset.

Definition xms_local_reset : X unit := modify (fun s => s <| intdrv := false |>).

Definition xms_intdrv (s : xms P) : bool := intdrv s || ext_hooked_hma s.

Definition xms_install_check (s : xms P) : Z := if intdrv s then 128 else 33152.

Definition xms_helper_init : X bool :=
  let! s := get in
  if intdrv s then ret true
  else
    modify (fun s => s <| freeHMA := hma config && negb (ext_hooked_hma s) |>
                       <| ext_hooked_hma := false |>) ;;
    if xms_size config =? 0 then ret false
    else modify (fun s => s <| intdrv := true |>) ;; ret true.

Definition xms_helper_init_ext : X bool :=
  let! s := get in
  assert (negb (intdrv s)) ;;
  let! r := xms_helper_init in
  let! s := get in
  modify (fun s => s <| ext_hooked_hma := r && freeHMA s |>) ;;
  ret (r && freeHMA s).

(** The string at [a], up to the terminating 0 or the first CR or LF. *)
Fixpoint command_line (fuel : nat) (m : Z -> Z) (a : Z) : result (list Z) :=
  match fuel with
  | O => Fault OutOfFuel
  | S fuel =>
      let c := m a in
      if (c =? 0) || (c =? 13) || (c =? 10) then Ok []
      else rbind (command_line fuel m (a + 1)) (fun l => Ok (c :: l))
  end.

Fixpoint drop_spaces (l : list Z) : list Z :=
  match l with
  | c :: l' => if c =? 32 then drop_spaces l' else l
  | [] => []
  end.

(** The characters before the first space, when there is a space. *)
Fixpoint word_before_space (l : list Z) : option (list Z) :=
  match l with
  | [] => None
  | c :: l => if c =? 32 then Some [] else (fun w => c :: w) <$> word_before_space l
  end.

Definition tolower (c : Z) : Z := if (65 <=? c) && (c <=? 90) then c + 32 else c.

Inductive umb_option := OptNone | OptFull | OptUnknown.

(** The last word of the command line; [strcasecmp] with /FULL.  A line
    without any other character than spaces makes the source scan in front of
    the buffer. *)
Definition umb_parse (cmdl : list Z) : result umb_option :=
  match drop_spaces (rev cmdl) with
  | [] => Fault OutOfBounds
  | l =>
      match word_before_space l with
      | None => Ok OptNone
      | Some w =>
          if bool_decide (tolower <$> rev w = [47; 102; 117; 108; 108]) then Ok OptFull
          else Ok OptUnknown
      end
  end.

Definition umb_init_setup (fuel : nat) (umb_ems : bool) : X unit :=
  umb_setup fuel umb_ems ;;
  let! s := get in
  set_regs (fun r => r <| eax ::= set_LWORD (umbs_used s) |>) ;;
  if umbs_used s =? 0 then
    set_regs (fun r => r <| cf := true |> <| ebx ::= set_LWORD 4 |>)
  else ret tt.

Definition xms_helper_umb_init (fuel : nat) : X unit :=
  let! s := get in
  let r := rg s in
  if LO (ebx r) <? 1 then set_regs (fun r => r <| cf := true |> <| ebx ::= set_LWORD 1 |>)
  else if truth (umbs_used s) then
    set_regs (fun r => r <| cf := true |> <| ebx ::= set_LWORD 2 |>)
  else if HI (ebx r) =? 0 then
    let rq := SEGOFF2LINEAR (es r) (LWORD (edi r)) + 18 in
    let rd16 a := dosmem s a + 256 * dosmem s (a + 1) in
    let p := SEGOFF2LINEAR (rd16 (rq + 2)) (rd16 rq) in
    match rbind (command_line fuel (dosmem s) p) umb_parse with
    | Fault e => throw e
    | Ok OptUnknown => set_regs (fun r => r <| cf := true |> <| ebx ::= set_LWORD 3 |>)
    | Ok OptFull => umb_init_setup fuel true
    | Ok OptNone => umb_init_setup fuel false
    end
  else umb_init_setup fuel false.

(** [fuel] bounds the command line and the number of UMB areas. *)
Definition xms_helper (fuel : nat) : X unit :=
  set_regs (fun r => r <| cf := false |>) ;;
  let! s := get in
  match HI (eax (rg s)) with
  | 0 =>
      let! ok := xms_helper_init in
      if ok then ret tt else set_regs (fun r => r <| cf := true |>)
  | 1 =>
      set_regs (fun r => r <| es := XMSControl_SEG config |>
        <| ebx ::= set_LWORD (XMSControl_OFF config) |> <| eax ::= set_LWORD 0 |>)
  | 2 => xms_helper_umb_init fuel
  | _ => ret tt
  end.

Definition XMS_RET (err : Z) : X unit :=
  set_regs (fun r => r <| eax ::= set_LWORD (if truth err then 0 else 1) |>) ;;
  if truth err then set_regs (fun r => r <| ebx ::= set_LO err |>) else ret tt.

(** [for (i = start; i < NUM_HANDLES && h == 0; i++)]. *)
Fixpoint find_free_handle (n : nat) (i : Z) (l : list Handle) : Z :=
  match n with
  | O => 0
  | S n =>
      match aget l i with
      | Some x => if addr x =? 0 then i else find_free_handle n (i + 1) l
      | None => 0
      end
  end.

Definition FindFreeHandle (start : Z) (s : xms P) : Z :=
  find_free_handle (Z.to_nat (NUM_HANDLES - start)) start (handles s).

Definition ValidHandle (h : Z) (s : xms P) : bool :=
  match aget (handles s) h with
  | Some x => (h <? NUM_HANDLES) && truth (addr x)
  | None => false
  end.

Definition xms_query_freemem (api : xms_api) : X unit :=
  let! s := get in
  (if negb (intdrv s) then
     match api with
     | OLDXMS => set_regs (fun r => r <| eax ::= set_LWORD 0 |> <| edx ::= set_LWORD 0 |>)
     | NEWXMS => set_regs (fun r => r <| eax := 0 |> <| edx := 0 |> <| ecx := 0 |>)
     end
   else
     let subtotal := u32 (xms_size config - Z.quot (totalBytes s) 1024) in
     let! n := on_pgapool pa_largest in
     let largest := u32 (n * 4) in
     let largest := if truth largest then Z.min largest subtotal else subtotal in
     match api with
     | OLDXMS =>
         set_regs (fun r => r <| eax ::= set_LWORD (Z.min largest 65535) |>
                              <| edx ::= set_LWORD (Z.min subtotal 65535) |>)
     | NEWXMS =>
         set_regs (fun r => r <| eax := largest |> <| edx := subtotal |>
                              <| ecx := u32 (main_pool_size config - 1) |>)
     end) ;;
  set_regs (fun r => r <| ebx ::= set_LO 0 |>).

Definition xms_allocate_EMB (api : xms_api) : X Z :=
  let! s := get in
  if negb (intdrv s) then ret 160
  else
    let kbsize := match api with OLDXMS => LWORD (edx (rg s)) | NEWXMS => edx (rg s) end in
    let h := FindFreeHandle FIRST_HANDLE s in
    if h =? 0 then ret 161
    else
      let size := u32 (kbsize * 1024) in
      if kbsize =? 0 then ret 160
      else if xms_size config * 1024 <? i32 (totalBytes s + i32 (PAGE_ALIGN size)) then ret 160
      else
        let! a := xms_alloc size in
        if a =? 0 then ret 160
        else
          modify (fun s => s <| totalBytes ::= fun t => i32 (t + PAGE_ALIGN size) |>) ;;
          upd_handle h (fun x => x <| num := h |> <| hsize := size |> <| addr := a |>
                                   <| lockcount := 0 |>) ;;
          modify (fun s => s <| handle_count ::= fun c => c + 1 |>) ;;
          set_regs (fun r => match api with
                             | OLDXMS => r <| edx ::= set_LWORD h |>
                             | NEWXMS => r <| edx := h |>
                             end) ;;
          ret 0.

Definition xms_free_EMB : X Z :=
  let! s := get in
  let h := LWORD (edx (rg s)) in
  if negb (ValidHandle h s) then ret 162
  else
    let! x := get_handle h in
    modify (fun s => s <| totalBytes ::= fun t => i32 (t - PAGE_ALIGN (hsize x)) |>) ;;
    do_free_EMB h ;;
    modify (fun s => s <| handle_count ::= fun c => c - 1 |>) ;;
    ret 0.

(** Little-endian fields of [struct EMM] at a DOS address. *)
Definition rd16 (m : Z -> Z) (a : Z) : Z := m a + 256 * m (a + 1).
Definition rd32 (m : Z -> Z) (a : Z) : Z := rd16 m a + 65536 * rd16 m (a + 2).

Record EMM := MkEMM {
  Length : Z; SourceHandle : Z; SourceOffset : Z; DestHandle : Z; DestOffset : Z;
}.

Definition read_EMM (m : Z -> Z) (a : Z) : EMM :=
  MkEMM (rd32 m a) (rd16 m (a + 4)) (rd32 m (a + 6)) (rd16 m (a + 10)) (rd32 m (a + 12)).

(** One end of a move: an address in conventional memory or in host memory,
    and how many bytes from there on belong to the area the source checks
    against (memory up to the end of the HMA, or the EMB). *)
Inductive place := InDos (a room : Z) | InHost (a room : Z).

Definition room_of (p : place) : Z := match p with InDos _ n | InHost _ n => n end.

(** The source or destination of a move, or the error code: [ebad] for a bad
    handle, [eoff] for a bad offset, 0xa7 for a bad length. *)
Definition move_end (s : xms P) (handle offset len ebad eoff : Z) : place + Z :=
  if handle =? 0 then
    let a := SEGOFF2LINEAR (Z.shiftr offset 16) (Z.land offset 65535) in
    if LOWMEM_SIZE + HMASIZE <? u32 (a + len) then inr 167 else inl (InDos a (LOWMEM_SIZE + HMASIZE - a))
  else
    match (if NUM_HANDLES <=? handle then None else aget (handles s) handle) with
    | None => inr ebad
    | Some x =>
        if addr x =? 0 then inr ebad
        else if hsize x <? offset then inr eoff
        else if hsize x <? u32 (offset + len) then inr 167
        else inl (InHost (addr x + offset) (hsize x - offset))
    end.

Definition copy_bytes (m : Z -> Z) (d : Z) (m' : Z -> Z) (s n : Z) : Z -> Z :=
  fun a => if (d <=? a) && (a <? d + n) then m' (s + (a - d)) else m a.

(** [memcpy], [memcpy_2dos], [memcpy_2unix] or [memcpy_dos2dos]; a copy that
    leaves one of the two areas is an access to foreign memory and a fault.  On
    overlapping areas, where [memcpy] promises nothing, the model copies as
    [memmove] does. *)
Definition do_move (sp dp : place) (n : Z) : X unit :=
  if (room_of sp <? n) || (room_of dp <? n) then throw BadPointer
  else modify (fun s =>
    match sp, dp with
    | InHost a _, InHost b _ => s <| hostmem := copy_bytes (hostmem s) b (hostmem s) a n |>
    | InHost a _, InDos b _ => s <| dosmem := copy_bytes (dosmem s) b (hostmem s) a n |>
    | InDos a _, InHost b _ => s <| hostmem := copy_bytes (hostmem s) b (dosmem s) a n |>
    | InDos a _, InDos b _ => s <| dosmem := copy_bytes (dosmem s) b (dosmem s) a n |>
    end).

Definition xms_move_EMB : X Z :=
  let! s := get in
  let e := read_EMM (dosmem s) (SEGOFF2LINEAR (ds (rg s)) (LWORD (esi (rg s)))) in
  if truth (Z.land (Length e) 1) then ret 167
  else
    match move_end s (SourceHandle e) (SourceOffset e) (Length e) 163 164 with
    | inr err => ret err
    | inl sp =>
        match move_end s (DestHandle e) (DestOffset e) (Length e) 165 166 with
        | inr err => ret err
        | inl dp =>
            (match (if DestHandle e =? 0 then None else aget (handles s) (DestHandle e)) with
             | Some x =>
                 if truth (dst x) then note (Invalidate (u32 (dst x + DestOffset e)) (Length e))
                 else ret tt
             | None => ret tt
             end) ;;
            do_move sp dp (Length e) ;;
            ret 0
        end
    end.

Definition xms_lock_EMB (flag : bool) : X Z :=
  let! s := get in
  let h := LWORD (edx (rg s)) in
  if ValidHandle h s then
    let! x := get_handle h in
    if negb flag then
      if truth (lockcount x) then
        upd_handle h (fun x => x <| lockcount ::= fun c => i32 (c - 1) |>) ;;
        let! x := get_handle h in
        (if negb (truth (lockcount x)) then
           unmap_EMB (dst x) (hsize x) ;;
           upd_handle h (fun x => x <| dst := 0 |>)
         else ret tt) ;;
        ret 0
      else ret 170
    else
      let! a := (if truth (lockcount x) then ret (dst x) else map_EMB (addr x) (hsize x) h) in
      if truth a then
        upd_handle h (fun x => x <| lockcount ::= fun c => i32 (c + 1) |> <| dst := a |>) ;;
        set_regs (fun r => r <| edx ::= set_LWORD (Z.shiftr a 16) |>
                             <| ebx ::= set_LWORD (Z.land a 65535) |>) ;;
        ret 0
      else ret 173
  else ret 162.

Definition xms_EMB_info (api : xms_api) : X Z :=
  let! s := get in
  let h := LWORD (edx (rg s)) in
  if ValidHandle h s then
    let! x := get_handle h in
    set_regs (fun r =>
      match api with
      | OLDXMS => r <| ebx ::= set_LO (NUM_HANDLES - FIRST_HANDLE - handle_count s) |>
                    <| edx ::= set_LWORD (hsize x / 1024) |>
      | NEWXMS => r <| ecx ::= set_LWORD (NUM_HANDLES - FIRST_HANDLE - handle_count s) |>
                    <| edx := hsize x / 1024 |>
      end) ;;
    set_regs (fun r => r <| ebx ::= set_HI (lockcount x) |>) ;;
    ret 0
  else ret 162.

Definition xms_realloc_EMB (api : xms_api) : X Z :=
  let! s := get in
  let h := LWORD (edx (rg s)) in
  if negb (ValidHandle h s) then ret 162
  else
    let! x := get_handle h in
    if truth (lockcount x) then ret 171
    else
      let newsize := u32 (match api with
                          | OLDXMS => LWORD (ebx (rg s)) * 1024
                          | NEWXMS => ebx (rg s) * 1024
                          end) in
      if newsize =? hsize x then ret 0
      else if totalBytes s <? i32 (PAGE_ALIGN (hsize x)) then ret 160
      else
        let delta := i32 (PAGE_ALIGN newsize - PAGE_ALIGN (hsize x)) in
        if xms_size config * 1024 <? i32 (totalBytes s + delta) then ret 160
        else
          let! newaddr := xms_realloc (addr x) (hsize x) newsize in
          if newaddr =? 0 then ret 160
          else
            modify (fun s => s <| totalBytes ::= fun t => i32 (t + delta) |>) ;;
            upd_handle h (fun x => x <| addr := newaddr |> <| hsize := newsize |>) ;;
            ret 0.

(** ** A20, HMA and the dispatcher *)

Definition HMA_MAP (HMA : bool) : X unit :=
  note (Invalidate LOWMEM_SIZE HMASIZE) ;;
  let! s := get in
  let ok := alias_mapping env (xlog s) HMA in
  note (AliasHMA HMA ok) ;;
  if ok then ret tt else throw LeaveDos.

Definition set_a20 (enable : bool) : X unit :=
  let! s := get in
  if negb (hma config) then ret tt
  else if Bool.eqb (a20 s) enable then ret tt
  else HMA_MAP enable ;; modify (fun s => s <| a20 := enable |>).

Definition xms_umb_functions : X bool :=
  let! s := get in
  let ah := HI (eax (rg s)) in
  if ah =? 16 then
    let size := LWORD (edx (rg s)) * 16 in
    if size =? 0 then
      let avail := umb_query s in
      XMS_RET 167 ;;
      set_regs (fun r => r <| edx ::= set_LWORD (Z.shiftr avail 4) |>) ;;
      ret false
    else
      let! a := umb_allocate size in
      (if a =? 0 then
         let! s := get in
         let avail := umb_query s in
         XMS_RET (if truth avail then 176 else 177) ;;
         set_regs (fun r => r <| edx ::= set_LWORD (Z.shiftr avail 4) |>)
       else
         XMS_RET 0 ;;
         set_regs (fun r => r <| ebx ::= set_LWORD (Z.shiftr a 4) |>) ;;
         (if 1048575 <? a then set_regs (fun r => r <| cf := true |>) else ret tt) ;;
         set_regs (fun r => r <| edx ::= set_LWORD (Z.shiftr size 4) |>)) ;;
      ret true
  else if ah =? 17 then
    let! err := umb_free (LWORD (edx (rg s))) in
    XMS_RET (if truth err then 178 else 0) ;;
    ret true
  else if ah =? 18 then XMS_RET 128 ;; ret true
  else ret false.

Definition xms_request_hma : X unit :=
  let! s := get in
  if freeHMA s then
    modify (fun s => s <| freeHMA := false |>) ;;
    note (SetExtmem false) ;;
    XMS_RET 0 ;;
    (if ext_hooked_hma s then xms_local_reset else ret tt)
  else XMS_RET 145.

Definition xms_release_hma : X unit :=
  let! s := get in
  if freeHMA s then XMS_RET 147
  else
    modify (fun s => s <| freeHMA := hma config |>) ;;
    note (SetExtmem true) ;;
    XMS_RET 0.

Definition xms_global_enable_a20 : X unit :=
  let! s := get in
  (if negb (a20_global s) then set_a20 true else ret tt) ;;
  modify (fun s => s <| a20_global := true |>) ;;
  XMS_RET 0.

Definition xms_global_disable_a20 : X unit :=
  let! s := get in
  (if a20_global s then set_a20 false else ret tt) ;;
  modify (fun s => s <| a20_global := false |>) ;;
  XMS_RET 0.

Definition xms_local_enable_a20 : X unit :=
  let! s := get in
  (if a20_local s =? 0 then set_a20 true else ret tt) ;;
  modify (fun s => s <| a20_local ::= fun c => i32 (c + 1) |>) ;;
  XMS_RET 0.

Definition xms_local_disable_a20 : X unit :=
  modify (fun s => if truth (a20_local s) then s <| a20_local ::= fun c => i32 (c - 1) |> else s) ;;
  let! s := get in
  (if (a20_local s =? 0) && negb (a20_global s) then set_a20 false else ret tt) ;;
  XMS_RET 0.

Definition xms_ret_of (c : X Z) : X unit := let! e := c in XMS_RET e.

Definition xms_functions (ah : Z) : X unit :=
  if ah =? 0 then set_regs (fun r => r <| eax ::= set_LWORD 768 |> <| ebx ::= set_LWORD 769 |>
                              <| edx ::= set_LWORD 1 |>)
  else if ah =? 1 then xms_request_hma
  else if ah =? 2 then xms_release_hma
  else if ah =? 3 then xms_global_enable_a20
  else if ah =? 4 then xms_global_disable_a20
  else if ah =? 5 then xms_local_enable_a20
  else if ah =? 6 then xms_local_disable_a20
  else if ah =? 7 then let! s := get in
         set_regs (fun r => r <| eax ::= set_LWORD (of_bool (a20 s)) |> <| ebx ::= set_LO 0 |>)
  else if ah =? 8 then xms_query_freemem OLDXMS
  else if ah =? 9 then xms_ret_of (xms_allocate_EMB OLDXMS)
  else if ah =? 10 then xms_ret_of xms_free_EMB
  else if ah =? 11 then xms_ret_of xms_move_EMB
  else if ah =? 12 then xms_ret_of (xms_lock_EMB true)
  else if ah =? 13 then xms_ret_of (xms_lock_EMB false)
  else if ah =? 14 then xms_ret_of (xms_EMB_info OLDXMS)
  else if ah =? 15 then xms_ret_of (xms_realloc_EMB OLDXMS)
  else if ah =? 136 then xms_query_freemem NEWXMS
  else if ah =? 137 then xms_ret_of (xms_allocate_EMB NEWXMS)
  else if ah =? 142 then xms_ret_of (xms_EMB_info NEWXMS)
  else if ah =? 143 then xms_ret_of (xms_realloc_EMB NEWXMS)
  else XMS_RET 128.

Definition xms_control : X unit :=
  set_regs (fun r => r <| zf := false |>) ;;
  let! is_umb_fn := xms_umb_functions in
  let! s := get in
  (if intdrv s && negb is_umb_fn then xms_functions (HI (eax (rg s))) else ret tt) ;;
  let! s := get in
  (if negb (intdrv s) && is_umb_fn then set_regs (fun r => r <| zf := true |>) else ret tt) ;;
  set_regs (fun r => r <| eip ::= set_LWORD (LWORD (eip r) + 1) |>).

End xms.
