(* ===== verification/XmsInv.v ===== *)
(** * XMS: the driver's invariant and the rules of its operations *)

From stdpp Require Import base numbers list.
From Stdlib Require Import ZArith Lia.
From S2P Require Import Prelude Interfaces Smalloc SmallocInv SmallocAlloc SmallocFree SmallocSpec Xms.

Local Open Scope Z_scope.

(** ** Page rounding *)

Lemma PAGE_ALIGN_spec x : 0 <= x <= 2 ^ 32 - 4096 ->
  PAGE_ALIGN x = x + (- x) mod 4096 /\ x <= PAGE_ALIGN x < x + 4096 /\
  PAGE_ALIGN x = Z.shiftr (PAGE_ALIGN x) PAGE_SHIFT * 4096.
Proof.
  intros H. unfold PAGE_ALIGN, PAGE_SHIFT. rewrite page_align_spec.
  pose proof (Z.mod_pos_bound (- x) 4096 ltac:(lia)).
  pose proof (Z.div_mod (- x) 4096 ltac:(lia)) as Hd.
  assert (x + (- x) mod 4096 <= 2 ^ 32 - 4096).
  { assert (x + (- x) mod 4096 = 4096 * - (- x / 4096)) by lia.
    assert (- (- x / 4096) <= 2 ^ 20 - 1); [|lia].
    enough (- (2 ^ 20 - 1) <= - x / 4096) by lia. apply Z.div_le_lower_bound; lia. }
  rewrite u32_small by lia. split_and!; try lia.
  rewrite Z.shiftr_div_pow2 by lia. change (2 ^ 12) with 4096.
  replace (x + (- x) mod 4096) with (- (- x / 4096) * 4096) by lia.
  by rewrite Z.div_mul by lia.
Qed.

Section inv.
Context {P : Type} {PA : PageAlloc P} {PL : PageAllocLaws P}.
Context (config : xms_config) (env : xms_env) (lim : Z).

Definition emb_pages (x : Handle) : Z := Z.shiftr (PAGE_ALIGN (hsize x)) PAGE_SHIFT.

(** The bytes an EMB is charged for. *)
Definition emb_bytes (x : Handle) : Z := if addr x =? 0 then 0 else PAGE_ALIGN (hsize x).
Definition emb_used (x : Handle) : Z := if addr x =? 0 then 0 else 1.

(** Size and accounting limits of the configuration. *)
Record config_ok : Prop := {
  co_size : 0 <= xms_size config <= 2 ^ 21 - 65540;
  co_base : 0 < xms_base config;
  co_align : xms_base config mod 4096 = 0;
  co_top : xms_base config + xms_size config * 1024 < 2 ^ 32;
}.

(** A used handle is locked exactly when it has a window, and the window is a
    block of the page pool allocated for that handle. *)
Definition handle_ok (p : P) (h : Z) (x : Handle) : Prop :=
  (addr x = 0 -> dst x = 0) /\
  (addr x <> 0 -> 0 < hsize x < 2 ^ 31 /\ 0 <= lockcount x <= lim /\
     (dst x = 0 <-> lockcount x = 0) /\
     (dst x <> 0 -> exists r, dst x = xms_base config + r * 4096 /\ pa_block p r (emb_pages x) h)).

Definition umb_ok (p : mempool) : Prop :=
  pool_ok p /\ coalesced (mp_nodes p) /\ mp_commit p = false /\ 0 < smget_base_addr p.

Record xms_ok (s : xms P) : Prop := {
  xo_len : length (handles s) = 65%nat;
  xo_handles : forall h x, aget (handles s) h = Some x -> handle_ok (pgapool s) h x;
  xo_total : totalBytes s = zsum emb_bytes (handles s);
  xo_limit : totalBytes s <= xms_size config * 1024;
  xo_count : handle_count s = zsum emb_used (handles s);
  xo_pool : pa_ok (pgapool s);
  xo_pages : pa_pages (pgapool s) * 4 = xms_size config;
  xo_umbs : Forall umb_ok (umbs s);
}.

(** The part of the invariant that is about handles and their windows. *)
Record windows_ok (s : xms P) : Prop := {
  wo_handles : forall h x, aget (handles s) h = Some x -> handle_ok (pgapool s) h x;
  wo_pool : pa_ok (pgapool s);
  wo_pages : pa_pages (pgapool s) * 4 = xms_size config;
}.

Lemma xms_ok_windows s : xms_ok s -> windows_ok s.
Proof. intros []. by constructor. Qed.

(** The part of the state the invariant is about is unchanged. *)
Definition same_core (s s' : xms P) : Prop :=
  handles s' = handles s /\ totalBytes s' = totalBytes s /\ handle_count s' = handle_count s /\
  pgapool s' = pgapool s /\ umbs s' = umbs s.

Lemma xms_ok_core s s' : xms_ok s -> same_core s s' -> xms_ok s'.
Proof.
  intros Hok (E1 & E2 & E3 & E4 & E5). destruct Hok.
  constructor; rewrite ?E1, ?E2, ?E3, ?E4, ?E5; auto.
Qed.

Lemma same_core_refl s : same_core s s.
Proof. done. Qed.

Lemma same_core_trans s1 s2 s3 : same_core s1 s2 -> same_core s2 s3 -> same_core s1 s3.
Proof. unfold same_core. intuition congruence. Qed.

(** An operation that leaves the core alone and does not fault. *)
Definition frame {A} (c : M (xms P) A) : Prop := forall s, wp c s (fun _ s' => same_core s s').

Lemma frame_bind {A B} (c : M (xms P) A) (k : A -> M (xms P) B) :
  frame c -> (forall a, frame (k a)) -> frame (bind c k).
Proof.
  intros Hc Hk s. apply wp_bind. eapply wp_mono; [apply Hc|]. intros a s' H.
  eapply wp_mono; [apply Hk|]. intros b s'' H'. exact (same_core_trans _ _ _ H H').
Qed.

Lemma frame_ret {A} (a : A) : frame (ret a).
Proof. intros s. by apply wp_ret. Qed.
Lemma frame_get : frame get.
Proof. intros s. by apply wp_get. Qed.
Lemma frame_modify f : (forall s, same_core s (f s)) -> frame (modify f).
Proof. intros H s. by apply wp_modify. Qed.
Lemma frame_set_regs f : frame (set_regs f).
Proof. apply frame_modify. intros s. repeat split. Qed.
Lemma frame_note c : frame (note c).
Proof. apply frame_modify. intros s. repeat split. Qed.
Lemma frame_if {A} (b : bool) (c d : M (xms P) A) : frame c -> frame d -> frame (if b then c else d).
Proof. by destruct b. Qed.

Lemma frame_XMS_RET e : frame (XMS_RET e).
Proof. apply frame_bind; [apply frame_set_regs|]. intros []. apply frame_if; [apply frame_set_regs|apply frame_ret]. Qed.

Lemma frame_ok {A} (c : M (xms P) A) s : frame c -> xms_ok s -> wp c s (fun _ s' => xms_ok s').
Proof. intros Hc Hok. eapply wp_mono; [apply Hc|]. intros a s' H. exact (xms_ok_core _ _ Hok H). Qed.

End inv.

#[export] Hint Resolve frame_ret frame_get frame_set_regs frame_note frame_XMS_RET : dosemu.
Arguments xms_ok {P PA PL} config lim s.
Arguments windows_ok {P PA PL} config lim s.

Ltac frame_tac :=
  repeat first
    [ solve [auto with dosemu]
    | apply frame_bind; [|intros ?]
    | apply frame_if
    | apply frame_modify; intros ?; repeat split ].

Lemma xms_ok_weaken {P} {PA : PageAlloc P} {PL : PageAllocLaws P} config l l' (s : xms P) :
  l <= l' -> xms_ok config l s -> xms_ok config l' s.
Proof.
  intros Hl Hok. destruct Hok. constructor; try done. intros h x Hx.
  destruct (xo_handles0 _ _ Hx) as [H1 H2]. split; [done|]. intros Ha.
  destruct (H2 Ha) as (? & ? & ? & ?). split; [done|]. split; [lia|done].
Qed.

Section rules.
Context {P : Type} {PA : PageAlloc P} {PL : PageAllocLaws P}.
Context (config : xms_config) (env : xms_env) (lim : Z).
Hypothesis Hcfg : config_ok config.
Hypothesis Hmax : 0 <= lim < 2 ^ 31.

Lemma wp_get_handle h x (s : xms P) (Q : Handle -> xms P -> Prop) :
  aget (handles s) h = Some x -> Q x s -> wp (get_handle h) s Q.
Proof. unfold wp, get_handle. intros ->. done. Qed.

Lemma wp_upd_handle h x f (s : xms P) (Q : unit -> xms P -> Prop) :
  aget (handles s) h = Some x -> Q tt (s <| handles := astore (handles s) h (f x) |>) ->
  wp (upd_handle h f) s Q.
Proof. unfold wp, upd_handle. intros ->. done. Qed.

Lemma wp_on_pgapool {A} (c : M P A) (s : xms P) (Q : A -> xms P -> Prop) :
  wp c (pgapool s) (fun a p => Q a (s <| pgapool := p |>)) -> wp (on_pgapool c) s Q.
Proof. unfold wp, on_pgapool. by destruct (c (pgapool s)) as [[a p]|e]. Qed.

Lemma ValidHandle_true h (s : xms P) :
  ValidHandle h s = true -> exists x, aget (handles s) h = Some x /\ addr x <> 0 /\ h < 65.
Proof.
  unfold ValidHandle. destruct (aget (handles s) h) as [x|]; [|done].
  intros [H1 H2]%andb_true_iff. exists x. split; [done|]. unfold truth in H2.
  destruct (Z.eqb_spec (addr x) 0); [done|]. apply Z.ltb_lt in H1. unfold NUM_HANDLES in H1. auto.
Qed.

Lemma emb_bytes_nonneg x : 0 <= emb_bytes x.
Proof. unfold emb_bytes, PAGE_ALIGN. destruct (addr x =? 0); [lia|]. apply u32_range. Qed.

Lemma emb_used_nonneg x : 0 <= emb_used x.
Proof. unfold emb_used. destruct (addr x =? 0); lia. Qed.

(** Replacing one handle. *)
Lemma xms_ok_store (s : xms P) h x x' p :
  xms_ok config lim s -> aget (handles s) h = Some x ->
  handle_ok config lim p h x' -> pa_ok p -> pa_pages p = pa_pages (pgapool s) ->
  (forall h' y, h' <> h -> aget (handles s) h' = Some y -> handle_ok config lim p h' y) ->
  totalBytes s - emb_bytes x + emb_bytes x' <= xms_size config * 1024 ->
  xms_ok config lim (s <| handles := astore (handles s) h x' |> <| pgapool := p |>
    <| totalBytes := totalBytes s - emb_bytes x + emb_bytes x' |>
    <| handle_count := handle_count s - emb_used x + emb_used x' |>).
Proof.
  intros Hok Hx Hx' Hp Hpg Hoth Hlim. pose proof (aget_Some_lt _ _ _ Hx) as Hh.
  split; simpl.
  - rewrite astore_length. apply Hok.
  - intros k y. rewrite aget_astore by done. destruct (Z.eqb_spec k h) as [->|Hne].
    + by injection 1 as <-.
    + by apply Hoth.
  - rewrite (zsum_astore _ _ _ x) by done. by rewrite (xo_total _ _ _ Hok).
  - done.
  - rewrite (zsum_astore _ _ _ x) by done. by rewrite (xo_count _ _ _ Hok).
  - done.
  - rewrite Hpg. apply Hok.
  - apply Hok.
Qed.

(** Other handles keep their window when the pool changes elsewhere. *)
Lemma handle_ok_mono p p' h x :
  handle_ok config lim p h x ->
  (forall r, dst x = xms_base config + r * 4096 -> pa_block p r (emb_pages x) h ->
     pa_block p' r (emb_pages x) h) ->
  handle_ok config lim p' h x.
Proof.
  intros [H1 H2] H. split; [done|]. intros Ha. destruct (H2 Ha) as (? & ? & ? & H5).
  do 3 (split; [done|]). intros Hd. destruct (H5 Hd) as (r & Hr & Hb). exists r. auto.
Qed.

Lemma shiftr_window r : 0 <= r -> xms_base config + r * 4096 < 2 ^ 32 ->
  Z.shiftr (u32 (xms_base config + r * 4096 - xms_base config)) PAGE_SHIFT = r.
Proof.
  intros Hr Ht. pose proof (co_base _ Hcfg). unfold PAGE_SHIFT. rewrite u32_small by lia.
  rewrite Z.shiftr_div_pow2 by lia. change (2 ^ 12) with 4096.
  replace (xms_base config + r * 4096 - xms_base config) with (r * 4096) by lia.
  by rewrite Z.div_mul by lia.
Qed.

(** The block behind a window, with its bounds. *)
Lemma window_block (s : xms P) h x : windows_ok config lim s -> aget (handles s) h = Some x -> dst x <> 0 ->
  exists r, dst x = xms_base config + r * 4096 /\ pa_block (pgapool s) r (emb_pages x) h /\
    0 <= r /\ 0 < emb_pages x /\ r + emb_pages x <= pa_pages (pgapool s) /\
    xms_base config + r * 4096 < 2 ^ 32.
Proof.
  intros Hok Hx Hd. destruct (wo_handles _ _ _ Hok _ _ Hx) as [H1 H2].
  destruct (Z.eq_dec (addr x) 0) as [Ha|Ha]; [by rewrite H1 in Hd|].
  destruct (H2 Ha) as (_ & _ & _ & H3). destruct (H3 Hd) as (r & Hr & Hb).
  pose proof (pa_block_bound _ _ _ _ Hb) as (? & ? & ?). pose proof (wo_pages _ _ _ Hok).
  pose proof (co_top _ Hcfg). exists r. split_and!; try done. lia.
Qed.

Lemma wp_unmap_block (s : xms P) h d sz r n (Q : unit -> xms P -> Prop) :
  pa_ok (pgapool s) -> d = xms_base config + r * 4096 -> 0 <= r ->
  xms_base config + r * 4096 < 2 ^ 32 -> pa_block (pgapool s) r n h ->
  (forall p' lg, pa_ok p' -> pa_pages p' = pa_pages (pgapool s) ->
     (forall h' y, h' <> h -> handle_ok config lim (pgapool s) h' y -> handle_ok config lim p' h' y) ->
     Q tt (s <| pgapool := p' |> <| xlog := lg |>)) ->
  wp (unmap_EMB config d sz) s Q.
Proof.
  intros Hp -> Hr Ht Hb HQ.
  unfold unmap_EMB. wp_step. apply wp_modify. wp_step. apply wp_modify. apply wp_on_pgapool.
  rewrite shiftr_window by done. simpl.
  eapply wp_mono; [eapply pa_free_law; [exact Hp|exact Hb]|].
  intros [] p' (Hp' & Hpg & Hkeep). eapply (HQ p'); [done|done|].
  intros h' y Hne Hy. eapply handle_ok_mono; [done|].
  intros r' Er' Hb'. apply Hkeep; [|done]. intros ->.
  destruct (pa_block_disjoint _ _ _ _ _ _ _ Hb Hb') as [(_ & _ & ?)|H]; [congruence|].
  pose proof (pa_block_bound _ _ _ _ Hb). pose proof (pa_block_bound _ _ _ _ Hb'). lia.
Qed.

Lemma wp_unmap_EMB (s : xms P) h x (Q : unit -> xms P -> Prop) :
  windows_ok config lim s -> aget (handles s) h = Some x -> dst x <> 0 ->
  (forall p' lg, pa_ok p' -> pa_pages p' = pa_pages (pgapool s) ->
     (forall h' y, h' <> h -> aget (handles s) h' = Some y -> handle_ok config lim p' h' y) ->
     Q tt (s <| pgapool := p' |> <| xlog := lg |>)) ->
  wp (unmap_EMB config (dst x) (hsize x)) s Q.
Proof.
  intros Hok Hx Hd HQ. destruct (window_block _ _ _ Hok Hx Hd) as (r & Er & Hb & Hr & Hn & Hrn & Ht).
  eapply wp_unmap_block; try done; [apply Hok|]. intros p' lg Hp' Hpg Ho. apply HQ; try done.
  intros h' y Hne Hy. apply Ho; [done|]. by eapply wo_handles.
Qed.

Lemma wp_do_free_EMB (s : xms P) h x (Q : unit -> xms P -> Prop) :
  windows_ok config lim s -> aget (handles s) h = Some x ->
  (forall p' lg, pa_ok p' -> pa_pages p' = pa_pages (pgapool s) ->
     (forall h' y, h' <> h -> aget (handles s) h' = Some y -> handle_ok config lim p' h' y) ->
     Q tt (s <| handles := astore (handles s) h (x <| dst := 0 |> <| addr := 0 |>) |>
             <| pgapool := p' |> <| xlog := lg |>)) ->
  wp (do_free_EMB config h) s Q.
Proof.
  intros Hok Hx HQ. pose proof (aget_Some_lt _ _ _ Hx) as Hh.
  assert (forall p' lg, pa_ok p' -> pa_pages p' = pa_pages (pgapool s) ->
    (forall h' y, h' <> h -> aget (handles s) h' = Some y -> handle_ok config lim p' h' y) ->
    wp (upd_handle h (fun x => x <| dst := 0 |>) ;;
        let! x := get_handle h in
        (if truth (addr x) then xms_free (addr x) (hsize x) else ret tt) ;;
        upd_handle h (fun x => x <| addr := 0 |>))
      (s <| pgapool := p' |> <| xlog := lg |>) Q) as Hrest.
  { intros p' lg Hp' Hpg Hoth. wp_step. eapply wp_upd_handle; [exact Hx|].
    wp_step. eapply wp_get_handle; [simpl; by rewrite aget_astore, Z.eqb_refl|].
    wp_step. destruct (truth _).
    - unfold xms_free, note. apply wp_modify. eapply wp_upd_handle; [simpl; by rewrite aget_astore, Z.eqb_refl|].
      simpl. rewrite astore_astore. eapply HQ; done.
    - wp_step. eapply wp_upd_handle; [simpl; by rewrite aget_astore, Z.eqb_refl|].
      simpl. rewrite astore_astore. eapply HQ; done. }
  unfold do_free_EMB. wp_step. eapply wp_get_handle; [done|]. wp_step. unfold truth.
  destruct (Z.eqb_spec (dst x) 0) as [E|E]; simpl negb; cbv iota.
  - wp_step. replace s with (s <| pgapool := pgapool s |> <| xlog := xlog s |>) by (by destruct s).
    apply Hrest; [apply Hok|done|]. intros h' y _ Hy. by eapply wo_handles.
  - eapply wp_unmap_EMB; [done|done|done|]. done.
Qed.

Lemma wp_xms_free_EMB (s : xms P) :
  xms_ok config lim s -> wp (xms_free_EMB config) s (fun _ s' => xms_ok config lim s').
Proof.
  intros Hok. unfold xms_free_EMB. wp_step. apply wp_get.
  destruct (ValidHandle (LWORD (edx (rg s))) s) eqn:E; simpl negb; cbv iota; [|by wp_step].
  destruct (ValidHandle_true _ _ E) as (x & Hx & Ha & Hh). set (h := LWORD (edx (rg s))) in *.
  assert (emb_bytes x = PAGE_ALIGN (hsize x)) as Eb by (unfold emb_bytes; by rewrite (proj2 (Z.eqb_neq _ _))).
  assert (emb_used x = 1) as Eu by (unfold emb_used; by rewrite (proj2 (Z.eqb_neq _ _))).
  pose proof (zsum_elem _ _ _ _ emb_bytes_nonneg Hx) as Hle. rewrite <- (xo_total _ _ _ Hok), Eb in Hle.
  pose proof (xo_limit _ _ _ Hok) as Hlim. pose proof (co_size _ Hcfg).
  pose proof (emb_bytes_nonneg x) as Hnn. rewrite Eb in Hnn.
  wp_step. eapply wp_get_handle; [done|]. wp_step. apply wp_modify. wp_step.
  eapply wp_do_free_EMB; [|exact Hx|].
  { destruct Hok. by constructor. }
  intros p' lg Hp' Hpg Hoth. wp_step. apply wp_modify. wp_step.
  eapply xms_ok_core; [eapply (xms_ok_store s h x (x <| dst := 0 |> <| addr := 0 |>) p');
    try done|].
  - unfold emb_bytes at 2. simpl. rewrite Eb. lia.
  - unfold same_core. simpl. rewrite Eb, Eu. unfold emb_bytes, emb_used. simpl.
    rewrite i32_small by lia. split_and!; try done; lia.
Qed.

Lemma find_free_handle_spec n i l :
  0 <= i -> find_free_handle n i l <> 0 ->
  i <= find_free_handle n i l < i + Z.of_nat n /\
  exists x, aget l (find_free_handle n i l) = Some x /\ addr x = 0.
Proof.
  revert i. induction n as [|n IH]; intros i Hi; cbn [find_free_handle]; [done|].
  destruct (aget l i) as [x|] eqn:Hx; [|done]. destruct (Z.eqb_spec (addr x) 0) as [E|E].
  - intros _. split; [lia|]. rewrite Hx. eauto.
  - intros H. destruct (IH (i + 1) ltac:(lia) H) as [H1 H2]. split; [lia|done].
Qed.

(** The requested size in KB, and when it is in range. *)
Definition requested_kb (api : xms_api) (r : Z) : Z :=
  match api with OLDXMS => LWORD r | NEWXMS => r end.

Definition kb_in_range (kb : Z) : Prop := 0 <= kb /\ kb + 4 + xms_size config <= 2 ^ 21.

Lemma old_in_range r : kb_in_range (LWORD r).
Proof. pose proof (LWORD_range r). pose proof (co_size _ Hcfg). split; lia. Qed.

Lemma kb_bytes kb : kb_in_range kb ->
  u32 (kb * 1024) = kb * 1024 /\ kb * 1024 <= PAGE_ALIGN (kb * 1024) < kb * 1024 + 4096 /\
  PAGE_ALIGN (kb * 1024) + xms_size config * 1024 < 2 ^ 31.
Proof.
  intros [H1 H2]. pose proof (co_size _ Hcfg).
  destruct (PAGE_ALIGN_spec (kb * 1024)) as (_ & H3 & _); [lia|].
  split; [apply u32_small; lia|]. split; [done|]. lia.
Qed.

(** A block that is not locked. *)
Lemma handle_ok_unlocked p h x :
  dst x = 0 -> (addr x <> 0 -> 0 < hsize x < 2 ^ 31 /\ lockcount x = 0) -> handle_ok config lim p h x.
Proof.
  intros Hd H. split; [done|]. intros Ha. destruct (H Ha) as [? ->]. do 3 (split; [lia || done|]).
  by intros.
Qed.

Lemma wp_xms_allocate_EMB api (s : xms P) (Q : Z -> xms P -> Prop) :
  xms_ok config lim s -> kb_in_range (requested_kb api (edx (rg s))) ->
  (forall r s', r = 160 \/ r = 161 -> same_core s s' -> Q r s') ->
  (forall h x a s', 1 <= h < 65 -> aget (handles s) h = Some x -> addr x = 0 -> a <> 0 ->
     0 < requested_kb api (edx (rg s)) ->
     totalBytes s + PAGE_ALIGN (requested_kb api (edx (rg s)) * 1024) <= xms_size config * 1024 ->
     handles s' = astore (handles s) h (x <| num := h |>
       <| hsize := requested_kb api (edx (rg s)) * 1024 |> <| addr := a |> <| lockcount := 0 |>) ->
     LWORD (edx (rg s')) = h -> xms_ok config lim s' -> Q 0 s') ->
  wp (xms_allocate_EMB config env api) s Q.
Proof.
  intros Hok Hkb Hfail Hsucc. unfold xms_allocate_EMB. wp_step. apply wp_get.
  destruct (intdrv s); simpl negb; cbv iota; [|wp_step; apply Hfail; auto using same_core_refl].
  fold (requested_kb api (edx (rg s))). set (kb := requested_kb api (edx (rg s))) in *.
  destruct (kb_bytes kb Hkb) as (-> & Hpa & Hpm). unfold FindFreeHandle, NUM_HANDLES, FIRST_HANDLE.
  set (h := find_free_handle (Z.to_nat (65 - 1)) 1 (handles s)).
  pose proof (find_free_handle_spec (Z.to_nat (65 - 1)) 1 (handles s) ltac:(lia)) as Hf. fold h in Hf.
  destruct (Z.eqb_spec h 0) as [Eh|Eh]; [wp_step; apply Hfail; auto using same_core_refl|].
  destruct (Hf Eh) as (Hh & x & Hx & Ha). clear Hf.
  destruct (Z.eqb_spec kb 0) as [Ek|Ek]; [wp_step; apply Hfail; auto using same_core_refl|].
  pose proof (xo_limit _ _ _ Hok) as Hlim. pose proof (co_size _ Hcfg).
  assert (0 <= totalBytes s) as Ht by (rewrite (xo_total _ _ _ Hok); apply zsum_nonneg, emb_bytes_nonneg).
  destruct Hkb as [Hkb0 _]. rewrite (i32_small (PAGE_ALIGN _)) by lia. rewrite i32_small by lia.
  destruct (Z.ltb_spec (xms_size config * 1024) (totalBytes s + PAGE_ALIGN (kb * 1024))) as [Hlt|Hge];
    [wp_step; apply Hfail; auto using same_core_refl|].
  wp_step. unfold xms_alloc. wp_step. apply wp_get. wp_step. apply wp_modify. wp_step.
  set (a := match alloc_mapping env (xlog s) (PAGE_ALIGN (kb * 1024)) with Some p => p | None => 0 end).
  destruct (Z.eqb_spec a 0) as [Ea|Ea]; [wp_step; apply Hfail; [by left|repeat split]|].
  wp_step. apply wp_modify. wp_step. eapply wp_upd_handle; [exact Hx|].
  wp_step. apply wp_modify. wp_step. apply wp_modify. wp_step.
  destruct (xo_handles _ _ _ Hok _ _ Hx) as [Hd _].
  eapply (Hsucc h x a); [lia|done|done|done|lia|lia|reflexivity|..].
  - unfold LWORD, set_LWORD. destruct api; simpl.
    + unfold u16. change (2 ^ 16) with 65536. rewrite (Z.mod_small h) by lia.
      rewrite <- Zplus_mod_idemp_l, Zminus_mod_idemp_r, Z.sub_diag. apply Z.mod_small. lia.
    + apply Z.mod_small. lia.
  - eapply xms_ok_core; [eapply (xms_ok_store s h x (x <| num := h |> <| hsize := kb * 1024 |>
      <| addr := a |> <| lockcount := 0 |>) (pgapool s)); try done|].
    + apply handle_ok_unlocked; simpl; [by apply Hd|]. intros _. split; [lia|done].
    + apply Hok.
    + intros h' y _ Hy. by eapply (xo_handles _ _ _ Hok).
    + unfold emb_bytes. simpl. rewrite Ha, (proj2 (Z.eqb_neq a 0)) by done. simpl. lia.
    + unfold same_core, emb_bytes, emb_used. simpl. rewrite Ha, (proj2 (Z.eqb_neq a 0)) by done.
      simpl. rewrite i32_small by lia. split_and!; try done; lia.
Qed.

Lemma xms_ok_same_sizes (s : xms P) h x x' p lg :
  xms_ok config lim s -> aget (handles s) h = Some x ->
  handle_ok config lim p h x' -> pa_ok p -> pa_pages p = pa_pages (pgapool s) ->
  (forall h' y, h' <> h -> aget (handles s) h' = Some y -> handle_ok config lim p h' y) ->
  emb_bytes x' = emb_bytes x -> emb_used x' = emb_used x ->
  xms_ok config lim (s <| handles := astore (handles s) h x' |> <| pgapool := p |> <| xlog := lg |>).
Proof.
  intros Hok Hx Hx' Hp Hpg Hoth Eb Eu. eapply xms_ok_core;
    [eapply (xms_ok_store s h x x' p); try done|].
  - rewrite Eb. pose proof (xo_limit _ _ _ Hok). lia.
  - unfold same_core. simpl. rewrite Eb, Eu. split_and!; try done; lia.
Qed.

Lemma handle_ok_used p h x : handle_ok config lim p h x -> addr x <> 0 ->
  0 < hsize x < 2 ^ 31 /\ 0 <= lockcount x <= lim /\ (dst x = 0 <-> lockcount x = 0) /\
  (dst x <> 0 -> exists r, dst x = xms_base config + r * 4096 /\ pa_block p r (emb_pages x) h).
Proof. intros [_ H] Ha. apply H, Ha. Qed.

Hypothesis Halias : forall lg pa n ptr, alias_mapping_pa env lg pa n ptr = true.

Lemma wp_map_EMB (s : xms P) h x (Q : Z -> xms P -> Prop) :
  xms_ok config lim s -> aget (handles s) h = Some x -> 0 <= h < 65 -> addr x <> 0 -> dst x = 0 ->
  Q 0 s ->
  (forall r p' lg, 0 <= r -> pa_ok p' -> pa_pages p' = pa_pages (pgapool s) ->
     pa_block p' r (emb_pages x) h -> xms_base config + r * 4096 < 2 ^ 32 ->
     (forall h' y, h' <> h -> aget (handles s) h' = Some y -> handle_ok config lim p' h' y) ->
     Q (xms_base config + r * 4096) (s <| pgapool := p' |> <| xlog := lg |>)) ->
  wp (map_EMB config env (addr x) (hsize x) h) s Q.
Proof.
  intros Hok Hx Hh Ha Hd Hf HQ.
  destruct (handle_ok_used _ _ _ (xo_handles _ _ _ Hok _ _ Hx) Ha) as (Hsz & _ & _ & _).
  destruct (PAGE_ALIGN_spec (hsize x)) as (_ & Hpa & Hpp); [lia|].
  pose proof (co_base _ Hcfg). pose proof (co_top _ Hcfg). pose proof (xo_pages _ _ _ Hok) as Hpg.
  unfold map_EMB. wp_step. apply wp_on_pgapool.
  eapply wp_mono; [apply pa_alloc_law; [apply Hok| |lia]|].
  { fold (emb_pages x). fold (emb_pages x) in Hpp. lia. }
  fold (emb_pages x). intros r p' (Hp' & Hpg' & [(Hr & Hb & Hkeep)|[Hr ->]]).
  - rewrite (proj2 (Z.ltb_ge r 0)) by lia.
    pose proof (pa_block_bound _ _ _ _ Hb) as (_ & Hn & Hrn).
    assert (u32 (xms_base config + Z.shiftl r PAGE_SHIFT) = xms_base config + r * 4096) as ->.
    { unfold PAGE_SHIFT. rewrite Z.shiftl_mul_pow2 by lia. change (2 ^ 12) with 4096.
      apply u32_small. lia. }
    wp_step. apply wp_get. wp_step. apply wp_modify. rewrite Halias. wp_step.
    eapply (HQ r p'); try done; [lia|]. intros h' y Hne Hy.
    eapply handle_ok_mono; [by eapply (xo_handles _ _ _ Hok)|]. intros r' _ Hb'. by apply Hkeep.
  - rewrite (proj2 (Z.ltb_lt r 0)) by lia. wp_step.
    replace (s <| pgapool := pgapool s |>) with s by (by destruct s). done.
Qed.

Lemma wp_xms_lock_EMB flag (s : xms P) :
  xms_ok config lim s ->
  (flag = true -> forall h x, aget (handles s) h = Some x -> addr x <> 0 -> lockcount x < lim) ->
  wp (xms_lock_EMB config env flag) s (fun _ s' => xms_ok config lim s').
Proof.
  intros Hok Hfree. unfold xms_lock_EMB. wp_step. apply wp_get. set (h := LWORD (edx (rg s))).
  destruct (ValidHandle h s) eqn:E; [|by wp_step].
  destruct (ValidHandle_true _ _ E) as (x & Hx & Ha & Hh).
  pose proof (LWORD_range (edx (rg s))) as Hhr. fold h in Hhr.
  pose proof (aget_Some_lt _ _ _ Hx) as Hlt.
  pose proof (xo_handles _ _ _ Hok _ _ Hx) as Hhx.
  destruct (handle_ok_used _ _ _ Hhx Ha) as (Hsz & Hlc & Hiff & Hwin).
  assert (forall h' y, h' <> h -> aget (handles s) h' = Some y -> handle_ok config lim (pgapool s) h' y)
    as Hoth by (intros h' y _ Hy; by eapply (xo_handles _ _ _ Hok)).
  wp_step. eapply wp_get_handle; [done|]. destruct flag; simpl negb; cbv iota.
  - pose proof (Hfree eq_refl _ _ Hx Ha) as Hroom. unfold truth. destruct (Z.eqb_spec (lockcount x) 0) as [El|El]; simpl negb; cbv iota.
    + wp_step. apply wp_map_EMB; try done; try lia; try tauto.
      intros r p' lg Hr Hp' Hpg Hb Ht Ho. pose proof (co_base _ Hcfg).
      rewrite (proj2 (Z.eqb_neq _ 0)) by lia. simpl negb. cbv iota.
      wp_step. eapply wp_upd_handle; [exact Hx|]. wp_step. apply wp_modify. wp_step.
      eapply xms_ok_core; [eapply (xms_ok_same_sizes s h x (x <| lockcount ::= fun c => i32 (c + 1) |>
        <| dst := xms_base config + r * 4096 |>) p' lg); try done|repeat split].
      split; simpl; [done|]. intros _. rewrite i32_small by lia. do 2 (split; [lia|]). split; [lia|]. intros _. by exists r.
    + assert (dst x <> 0) as Hd by (intros ?; apply El, Hiff; done).
      wp_step. wp_step. rewrite (proj2 (Z.eqb_neq (dst x) 0)) by done. simpl negb. cbv iota.
      wp_step. eapply wp_upd_handle; [exact Hx|]. wp_step. apply wp_modify. wp_step.
      eapply xms_ok_core; [eapply (xms_ok_same_sizes s h x (x <| lockcount ::= fun c => i32 (c + 1) |>
        <| dst := dst x |>) (pgapool s) (xlog s)); try done; [|apply Hok]|repeat split].
      split; simpl; [done|]. intros _. rewrite i32_small by lia. do 2 (split; [lia|]). split; [lia|]. by apply Hwin.
  - unfold truth. destruct (Z.eqb_spec (lockcount x) 0) as [El|El]; simpl negb; cbv iota; [by wp_step|].
    assert (dst x <> 0) as Hd by (intros ?; apply El, Hiff; done).
    wp_step. eapply wp_upd_handle; [exact Hx|]. wp_step.
    eapply wp_get_handle; [simpl; by rewrite aget_astore, Z.eqb_refl|]. wp_step.
    set (x1 := x <| lockcount ::= fun c => i32 (c - 1) |>).
    change (lockcount _) with (i32 (lockcount x - 1)) at 1. rewrite i32_small by lia.
    destruct (Z.eqb_spec (lockcount x - 1) 0) as [E1|E1]; simpl negb; cbv iota.
    + destruct (window_block _ _ _ (xms_ok_windows _ _ _ Hok) Hx Hd)
        as (r & Er & Hb & Hr & _ & _ & Ht).
      wp_step. eapply (wp_unmap_block _ h _ _ r (emb_pages x)); try done; [apply Hok|].
      intros p' lg Hp' Hpg Ho.
      eapply wp_upd_handle; [simpl; by rewrite aget_astore, Z.eqb_refl|]. wp_step.
      simpl. rewrite astore_astore.
      eapply xms_ok_core; [eapply (xms_ok_same_sizes s h x (x1 <| dst := 0 |>) p' lg); try done|
        repeat split].
      * apply handle_ok_unlocked; [done|]. intros _. split; [done|]. simpl. rewrite i32_small by lia. done.
      * intros h' y Hne Hy. apply Ho; [done|]. by apply Hoth.
    + wp_step. wp_step. 
      eapply xms_ok_core; [eapply (xms_ok_same_sizes s h x x1 (pgapool s) (xlog s)); try done;
        [|apply Hok]|repeat split].
      split; simpl; [done|]. intros _. rewrite i32_small by lia. do 2 (split; [lia|]). split; [lia|]. by apply Hwin.
Qed.

Lemma wp_xms_realloc_EMB api (s : xms P) :
  xms_ok config lim s -> kb_in_range (requested_kb api (ebx (rg s))) ->
  0 < requested_kb api (ebx (rg s)) ->
  wp (xms_realloc_EMB config env api) s (fun _ s' => xms_ok config lim s').
Proof.
  intros Hok Hkb Hpos. unfold xms_realloc_EMB. wp_step. apply wp_get. set (h := LWORD (edx (rg s))).
  destruct (ValidHandle h s) eqn:E; simpl negb; cbv iota; [|by wp_step].
  destruct (ValidHandle_true _ _ E) as (x & Hx & Ha & _).
  wp_step. eapply wp_get_handle; [done|].
  destruct (handle_ok_used _ _ _ (xo_handles _ _ _ Hok _ _ Hx) Ha) as (Hsz & _ & Hiff & _).
  unfold truth. destruct (Z.eqb_spec (lockcount x) 0) as [El|El]; simpl negb; cbv iota; [|by wp_step].
  set (kb := requested_kb api (ebx (rg s))) in *.
  destruct (kb_bytes kb Hkb) as (Eu & Hpa & Hpm). destruct Hkb as [Hkb0 _].
  replace (u32 (match api with OLDXMS => LWORD (ebx (rg s)) * 1024 | NEWXMS => ebx (rg s) * 1024 end))
    with (kb * 1024) by (rewrite <- Eu; by destruct api).
  destruct (Z.eqb_spec (kb * 1024) (hsize x)) as [Es|Es]; [by wp_step|].
  assert (emb_bytes x = PAGE_ALIGN (hsize x)) as Eb by (unfold emb_bytes; by rewrite (proj2 (Z.eqb_neq _ _))).
  pose proof (zsum_elem _ _ _ _ emb_bytes_nonneg Hx) as Hle. rewrite <- (xo_total _ _ _ Hok), Eb in Hle.
  pose proof (xo_limit _ _ _ Hok) as Hlim. pose proof (co_size _ Hcfg).
  pose proof (emb_bytes_nonneg x) as Hnn. rewrite Eb in Hnn.
  destruct (totalBytes s <? i32 (PAGE_ALIGN (hsize x))); [by wp_step|].
  rewrite !(i32_small (PAGE_ALIGN (kb * 1024) - _)) by lia. rewrite i32_small by lia.
  destruct (Z.ltb_spec (xms_size config * 1024) (totalBytes s + (PAGE_ALIGN (kb * 1024) - PAGE_ALIGN (hsize x))))
    as [Hlt|Hge]; [by wp_step|].
  wp_step. unfold xms_realloc. wp_step. apply wp_get. wp_step. apply wp_modify. wp_step.
  match goal with |- context [if ?a =? 0 then _ else _] => set (na := a) end.
  destruct (Z.eqb_spec na 0) as [En|En]; [wp_step; eapply xms_ok_core; [done|repeat split]|].
  wp_step. apply wp_modify. wp_step. eapply wp_upd_handle; [exact Hx|]. wp_step.
  eapply xms_ok_core; [eapply (xms_ok_store s h x (x <| addr := na |> <| hsize := kb * 1024 |>)
    (pgapool s)); try done|].
  - apply handle_ok_unlocked; [by apply Hiff|]. intros _. split; [simpl; lia|done].
  - apply Hok.
  - intros h' y _ Hy. by eapply (xo_handles _ _ _ Hok).
  - rewrite Eb. unfold emb_bytes. simpl. rewrite (proj2 (Z.eqb_neq na 0)) by done. lia.
  - unfold same_core. simpl. rewrite Eb. unfold emb_bytes, emb_used. simpl.
    rewrite (proj2 (Z.eqb_neq na 0)), (proj2 (Z.eqb_neq (addr x) 0)) by done.
    rewrite i32_small by lia. split_and!; try done; lia.
Qed.

Lemma wp_xms_query_freemem api (s : xms P) :
  xms_ok config lim s -> wp (xms_query_freemem config api) s (fun _ s' => xms_ok config lim s').
Proof.
  intros Hok. unfold xms_query_freemem. wp_step. apply wp_get. wp_step.
  destruct (intdrv s); simpl negb; cbv iota.
  - wp_step. apply wp_on_pgapool. eapply wp_mono; [apply pa_largest_law, Hok|].
    intros n p' [-> _]. replace (s <| pgapool := pgapool s |>) with s by (by destruct s).
    destruct api; apply wp_modify, wp_modify; eapply xms_ok_core; done || (repeat split).
  - destruct api; apply wp_modify, wp_modify; eapply xms_ok_core; done || (repeat split).
Qed.

Lemma frame_xms_EMB_info api (s : xms P) :
  wp (xms_EMB_info api) s (fun _ s' => same_core s s').
Proof.
  unfold xms_EMB_info. wp_step. apply wp_get. destruct (ValidHandle _ s) eqn:E; [|by wp_step].
  destruct (ValidHandle_true _ _ E) as (x & Hx & _). wp_step. eapply wp_get_handle; [done|].
  wp_step. apply wp_modify. wp_step. apply wp_modify. wp_step. by destruct api.
Qed.

(** ** Upper memory blocks *)

Lemma wp_on_umb {A} i (c : M smstate A) p (s : xms P) (Q : A -> xms P -> Prop) :
  aget (umbs s) i = Some p ->
  wp c (MkSm p (dosmem s) []) (fun a st =>
    Q a (s <| umbs := astore (umbs s) i (sm_pool st) |> <| dosmem := sm_mem st |>)) ->
  wp (on_umb i c) s Q.
Proof. unfold wp, on_umb. intros ->. by destruct (c _) as [[a st]|e]. Qed.

Lemma xms_ok_umb (s : xms P) i p m :
  xms_ok config lim s -> umb_ok p ->
  xms_ok config lim (s <| umbs := astore (umbs s) i p |> <| dosmem := m |>).
Proof.
  intros Hok Hp. destruct Hok. constructor; try done. simpl. unfold astore.
  destruct (i <? 0); [done|]. by apply Forall_insert.
Qed.

Lemma umb_fitting_spec l i size r :
  umb_fitting l i size = Some r ->
  i <= r /\ exists p, l !! Z.to_nat (r - i) = Some p /\ size <= smget_largest_free_area p.
Proof.
  revert i. induction l as [|p l IH]; intros i; simpl; [done|].
  destruct (Z.leb_spec size (smget_largest_free_area p)).
  - injection 1 as <-. split; [lia|]. replace (Z.to_nat (i - i)) with O by lia. eauto.
  - intros Hf. destruct (IH _ Hf) as (H1 & q & H2 & H3). split; [lia|].
    exists q. replace (Z.to_nat (r - i)) with (S (Z.to_nat (r - (i + 1)))) by lia. done.
Qed.

Lemma umb_fitting_None l i size p :
  umb_fitting l i size = None -> p ∈ l -> smget_largest_free_area p < size.
Proof.
  revert i. induction l as [|q l IH]; intros i; simpl; [by rewrite elem_of_nil|].
  destruct (Z.leb_spec size (smget_largest_free_area q)); [done|].
  intros Hn [->|Hp]%elem_of_cons; [done|]. by eapply IH.
Qed.

Lemma umb_ok_lookup (s : xms P) i p : xms_ok config lim s -> aget (umbs s) i = Some p -> umb_ok p.
Proof.
  intros Hok. unfold aget. destruct (i <? 0); [done|]. apply Forall_lookup_1, Hok.
Qed.

(** [umb_allocate] serves a request from the first pool that has room; its
    assertion on the result of [smalloc] cannot fail. *)
Lemma wp_umb_allocate (s : xms P) size (Q : Z -> xms P -> Prop) :
  xms_ok config lim s -> 0 < size < 2 ^ 32 ->
  (forall i p a st, aget (umbs s) i = Some p -> heap_alloc (MkSm p (dosmem s) []) st a size ->
     a <> 0 -> xms_ok config lim (s <| umbs := astore (umbs s) i (sm_pool st) |> <| dosmem := sm_mem st |>) ->
     Q a (s <| umbs := astore (umbs s) i (sm_pool st) |> <| dosmem := sm_mem st |>)) ->
  ((forall p, p ∈ umbs s -> smget_largest_free_area p < size) -> Q 0 s) ->
  wp (umb_allocate size) s Q.
Proof.
  intros Hok Hsz HQ Hf. unfold umb_allocate. wp_step. apply wp_get.
  destruct (umb_fitting (umbs s) 0 size) as [i|] eqn:E.
  2: { wp_step. apply Hf. intros p. by eapply umb_fitting_None. }
  destruct (umb_fitting_spec _ _ _ _ E) as (Hi & p & Hp & Hroom).
  assert (aget (umbs s) i = Some p) as Hp'.
  { unfold aget. rewrite (proj2 (Z.ltb_ge i 0)) by lia. by replace i with (i - 0) by lia. }
  pose proof (umb_ok_lookup _ _ _ Hok Hp') as (Hpo & Hco & Hcm & Hb).
  wp_step. eapply wp_on_umb; [done|].
  eapply wp_mono; [apply (wp_smalloc no_commit size (MkSm p (dosmem s) []) Hpo Hco); lia|].
  intros a st [(Ha & _ & Hh)|(_ & _ & H)].
  - pose proof (ha_range _ _ _ _ Hh) as [Hr _]. simpl in Hr.
    wp_step. apply wp_assert; [by rewrite (proj2 (Z.eqb_neq a SM_FAILED))|]. wp_step.
    eapply (HQ i p a st); try done; [lia|]. apply xms_ok_umb; [done|].
    destruct (ha_ok _ _ _ _ Hh) as [H1 H2]. destruct (ha_geometry _ _ _ _ Hh) as (G1 & G2 & G3).
    split_and!; [done|done|by rewrite G3|rewrite G1; done].
  - exfalso. destruct H as [?|[H|[Hr _]]]; [lia| |simpl in Hr; congruence].
    apply H, fits_largest; [lia|done].
Qed.

Lemma umb_find_spec (s : xms P) seg : umb_find seg s <> UMB_NULL ->
  exists p, aget (umbs s) (umb_find seg s) = Some p.
Proof.
  unfold umb_find. generalize (SEGOFF2LINEAR seg 0). intros a.
  assert (forall l i, 0 <= i -> umb_find_loop l i a <> UMB_NULL ->
    i <= umb_find_loop l i a /\ exists p, l !! Z.to_nat (umb_find_loop l i a - i) = Some p) as H.
  { induction l as [|p l IH]; intros i Hi; cbn [umb_find_loop]; [done|].
    destruct (_ && _).
    - intros _. split; [lia|]. replace (Z.to_nat (i - i)) with O by lia. by exists p.
    - intros Hn. destruct (IH (i + 1) ltac:(lia) Hn) as (H1 & q & H2). split; [lia|].
      exists q. replace (Z.to_nat (umb_find_loop l (i + 1) a - i))
        with (S (Z.to_nat (umb_find_loop l (i + 1) a - (i + 1)))) by lia. done. }
  intros Hn. destruct (H (umbs s) 0 ltac:(lia) Hn) as (H1 & p & H2). exists p.
  unfold aget. rewrite (proj2 (Z.ltb_ge _ 0)) by lia. by rewrite Z.sub_0_r in H2.
Qed.

Lemma wp_umb_free (s : xms P) seg :
  xms_ok config lim s -> wp (umb_free seg) s (fun _ s' => xms_ok config lim s').
Proof.
  intros Hok. unfold umb_free. wp_step. apply wp_get.
  destruct (Z.eqb_spec (umb_find seg s) UMB_NULL) as [E|E]; simpl negb; cbv iota; [by wp_step|].
  destruct (umb_find_spec _ _ E) as [p Hp].
  pose proof (umb_ok_lookup _ _ _ Hok Hp) as (Hpo & Hco & Hcm & Hb).
  eapply wp_on_umb; [done|]. eapply wp_mono; [by apply wp_smfree|].
  intros r st H. apply xms_ok_umb; [done|]. destruct H as [(_ & size & Hh)|(_ & _ & [Es _])].
  - destruct (hf_ok _ _ _ _ Hh) as [H1 H2]. destruct (hf_geometry _ _ _ _ Hh) as (G1 & G2 & G3).
    split_and!; [done|done|by rewrite G3|rewrite G1; done].
  - rewrite Es. by split_and!.
Qed.

End rules.
