(* ===== verification/XmsSpec.v ===== *)
(** * XMS: the properties of the driver

    The dispatcher keeps the driver's invariant for every request a client can
    make (within stated size limits) and never faults; what the individual
    functions do; and the requests on which the code misbehaves. *)

From stdpp Require Import base numbers list gmap.
From Stdlib Require Import ZArith Lia.
From S2P Require Import Prelude Interfaces Smalloc SmallocInv SmallocAlloc SmallocFree SmallocSpec Pgalloc Instances Xms XmsInv.

Local Open Scope Z_scope.

(** ** Register lemmas *)

Lemma set_LWORD_split v r : exists q, set_LWORD v r = 65536 * q + u16 v.
Proof.
  exists (r / 65536). unfold set_LWORD. change (2 ^ 16) with 65536.
  pose proof (Z.div_mod r 65536). lia.
Qed.

Lemma LWORD_set_LWORD v r : LWORD (set_LWORD v r) = u16 v.
Proof.
  destruct (set_LWORD_split v r) as [q ->]. unfold LWORD. change (2 ^ 16) with 65536.
  rewrite Z.mul_comm, Z.add_comm, Z.mod_add by lia. apply Z.mod_small, u16_range.
Qed.

Lemma HI_set_LWORD v r : HI (set_LWORD v r) = u16 v / 256.
Proof.
  destruct (set_LWORD_split v r) as [q ->]. unfold HI. change (2 ^ 8) with 256.
  pose proof (u16_range v) as Hv. change (2 ^ 16) with 65536 in Hv.
  replace (65536 * q + u16 v) with (u16 v + (256 * q) * 256) by lia.
  rewrite Z.div_add, Z.mul_comm, Z.mod_add by lia. apply Z.mod_small.
  split; [apply Z.div_pos; lia|apply Z.div_lt_upper_bound; lia].
Qed.

Lemma LWORD_set_LO v r : LWORD (set_LO v r) / 256 = LWORD r / 256.
Proof.
  unfold LWORD, set_LO. change (2 ^ 16) with 65536. change (2 ^ 8) with 256.
  pose proof (u8_range v) as Hv. change (2 ^ 8) with 256 in Hv.
  pose proof (Z.mod_pos_bound r 256 ltac:(lia)).
  replace (r - r mod 256 + u8 v) with (u8 v + (r / 256) * 256) by (pose proof (Z.div_mod r 256); lia).
  change 65536 with (256 * 256). rewrite !Z.rem_mul_r by lia.
  rewrite Z.div_add, Z.mod_add by lia. rewrite (Z.div_small (u8 v)), (Z.mod_small (u8 v)) by lia.
  rewrite Z.add_0_l, !(Z.add_comm _ (256 * _)), !(Z.mul_comm 256), !Z.div_add_l by lia.
  rewrite (Z.div_small (u8 v)), (Z.div_small (r mod 256)) by lia. done.
Qed.

(** ** Moves *)

Section wraps.
Context {P : Type} (s : xms P).

(** The structure a move request points to. *)
Definition emm_of : EMM := read_EMM (dosmem s) (SEGOFF2LINEAR (ds (rg s)) (LWORD (esi (rg s)))).

(** [start + len] does not fit in 32 bits at one end of a move. *)
Definition end_wraps (handle offset len : Z) : bool :=
  let start := if handle =? 0 then SEGOFF2LINEAR (Z.shiftr offset 16) (Z.land offset 65535)
               else offset in
  negb (u32 (start + len) =? start + len).

Definition move_wraps : bool :=
  end_wraps (SourceHandle emm_of) (SourceOffset emm_of) (Length emm_of) ||
  end_wraps (DestHandle emm_of) (DestOffset emm_of) (Length emm_of).

(** The area behind an accepted end holds the whole move. *)
Lemma move_end_room handle offset len ebad eoff pl :
  move_end s handle offset len ebad eoff = inl pl -> end_wraps handle offset len = false ->
  len <= room_of pl.
Proof.
  unfold move_end, end_wraps. intros H E%negb_false_iff%Z.eqb_eq. destruct (handle =? 0).
  - rewrite E in H. destruct (Z.ltb_spec (LOWMEM_SIZE + HMASIZE)
      (SEGOFF2LINEAR (Z.shiftr offset 16) (Z.land offset 65535) + len)); [done|].
    injection H as <-. simpl. lia.
  - destruct (if NUM_HANDLES <=? handle then None else _) as [x|]; [|done].
    rewrite E in H. destruct (addr x =? 0), (hsize x <? offset); try done.
    destruct (Z.ltb_spec (hsize x) (offset + len)); [done|]. injection H as <-. simpl. lia.
Qed.

(** A move that does not wrap leaves the driver's tables alone and does not fault. *)
Lemma wp_xms_move_EMB : move_wraps = false -> wp xms_move_EMB s (fun _ s' => same_core s s').
Proof.
  unfold move_wraps, xms_move_EMB. intros [W1 W2]%orb_false_iff.
  wp_step. apply wp_get. fold emm_of. set (e := emm_of) in *.
  destruct (truth _); [by wp_step|].
  destruct (move_end s (SourceHandle e) _ _ _ _) as [sp|err] eqn:E1; [|by wp_step].
  destruct (move_end s (DestHandle e) _ _ _ _) as [dp|err] eqn:E2; [|by wp_step].
  pose proof (move_end_room _ _ _ _ _ _ E1 W1). pose proof (move_end_room _ _ _ _ _ _ E2 W2).
  wp_step. eapply (wp_mono _ _ (fun _ s' => same_core s s')).
  { match goal with |- wp ?c _ _ => assert (frame c) as Hf; [|exact (Hf s)] end. destruct (if DestHandle e =? 0 then None else _); frame_tac. }
  intros [] s1 Hs1. wp_step. unfold do_move.
  rewrite (proj2 (Z.ltb_ge (room_of sp) _)), (proj2 (Z.ltb_ge (room_of dp) _)) by done. simpl orb. cbv iota.
  apply wp_modify. wp_step. eapply same_core_trans; [exact Hs1|]. by destruct sp, dp.
Qed.

End wraps.

Section control.
Context {P : Type} {PA : PageAlloc P} {PL : PageAllocLaws P}.
Context (config : xms_config) (env : xms_env) (lim : Z).
Hypothesis Hcfg : config_ok config.
Hypothesis Hmax : 0 <= lim < 2 ^ 31.
Hypothesis Halias : forall lg pa n ptr, alias_mapping_pa env lg pa n ptr = true.
Hypothesis Hhma : forall lg b, alias_mapping env lg b = true.

(** The sizes a request may name: the 32-bit functions stay below the range
    in which the byte counts overflow, and no block is resized to 0. *)
Definition request_ok (r : regs) : Prop :=
  (HI (eax r) = 137 -> kb_in_range config (edx r)) /\
  (HI (eax r) = 15 -> 0 < LWORD (ebx r)) /\
  (HI (eax r) = 143 -> kb_in_range config (ebx r) /\ 0 < ebx r).

Lemma wp_regs_ok {A} (c : M (xms P) A) (s : xms P) f (Q : A -> xms P -> Prop) :
  xms_ok config lim s -> (forall s', xms_ok config lim s' -> rg s' = f (rg s) -> wp c s' Q) ->
  wp (set_regs f ;; c) s Q.
Proof.
  intros Hok H. apply wp_bind, wp_modify, H; [|done].
  eapply xms_ok_core; [done|repeat split].
Qed.

Lemma wp_XMS_RET_ok {A} (c : M (xms P) A) (s : xms P) e (Q : A -> xms P -> Prop) :
  xms_ok config lim s ->
  (forall s', xms_ok config lim s' -> eax (rg s') = set_LWORD (if truth e then 0 else 1) (eax (rg s)) ->
     wp c s' Q) -> wp (XMS_RET e ;; c) s Q.
Proof.
  intros Hok H. apply wp_bind. unfold XMS_RET. apply wp_bind, wp_modify.
  destruct (truth e).
  - apply wp_modify, H; [eapply xms_ok_core; [done|repeat split]|done].
  - apply wp_ret, H; [eapply xms_ok_core; [done|repeat split]|done].
Qed.

Lemma wp_ret_of (c : M (xms P) Z) (s : xms P) :
  wp c s (fun _ s' => xms_ok config lim s') -> wp (xms_ret_of c) s (fun _ s' => xms_ok config lim s').
Proof.
  intros H. apply wp_bind. eapply wp_mono; [exact H|]. intros e s' Hs'.
  apply frame_ok; [apply frame_XMS_RET|exact Hs'].
Qed.

Lemma wp_xms_umb_functions (s : xms P) :
  xms_ok config lim s ->
  wp xms_umb_functions s (fun b s' => xms_ok config lim s' /\
    (b = false -> HI (eax (rg s')) = 0 \/ s' = s)).
Proof.
  intros Hok. unfold xms_umb_functions. wp_step. apply wp_get.
  destruct (Z.eqb_spec (HI (eax (rg s))) 16) as [E1|E1].
  { pose proof (LWORD_range (edx (rg s))) as Hr.
    destruct (Z.eqb_spec (LWORD (edx (rg s)) * 16) 0) as [Ez|Ez].
    - apply wp_XMS_RET_ok; [done|]. intros s1 Hs1 Ha. apply wp_regs_ok; [done|]. intros s2 Hs2 Hr2.
      wp_step. split; [done|]. intros _. left. rewrite Hr2. simpl. rewrite Ha. by rewrite HI_set_LWORD.
    - wp_step. apply (wp_umb_allocate config lim); [done|lia|..].
      + intros i p a st Hi Hh Ha Hs'. wp_step. rewrite (proj2 (Z.eqb_neq a 0)) by done.
        apply wp_XMS_RET_ok; [done|]. intros s1 Hs1 _. apply wp_regs_ok; [done|]. intros s2 Hs2 _.
        wp_step. destruct (1048575 <? a).
        * apply wp_modify, wp_modify. wp_step. split; [|done]. eapply xms_ok_core; [done|repeat split].
        * wp_step. apply wp_modify. wp_step. split; [|done]. eapply xms_ok_core; [done|repeat split].
      + intros _. wp_step. change (0 =? 0) with true. cbv iota. wp_step. apply wp_get.
        apply wp_XMS_RET_ok; [done|]. intros s1 Hs1 _. apply wp_modify. wp_step. split; [|done].
        eapply xms_ok_core; [done|repeat split]. }
  destruct (Z.eqb_spec (HI (eax (rg s))) 17) as [E2|E2].
  { wp_step. eapply wp_mono; [by apply (wp_umb_free config lim)|]. intros r s1 Hs1.
    apply wp_XMS_RET_ok; [done|]. intros s2 Hs2 _. by wp_step. }
  destruct (Z.eqb_spec (HI (eax (rg s))) 18) as [E3|E3].
  { apply wp_XMS_RET_ok; [done|]. intros s2 Hs2 _. by wp_step. }
  wp_step. auto.
Qed.

Lemma frame_HMA_MAP b : frame (P := P) (HMA_MAP env b).
Proof.
  intros s. unfold HMA_MAP, note. wp_step. apply wp_modify. wp_step. apply wp_get. wp_step. apply wp_modify.
  rewrite Hhma. wp_step. repeat split.
Qed.

Lemma frame_set_a20 b : frame (P := P) (set_a20 config env b).
Proof. pose proof frame_HMA_MAP. unfold set_a20. frame_tac. Qed.

Lemma frame_hma_a20 :
  frame (P := P) xms_request_hma /\ frame (P := P) (xms_release_hma config) /\
  frame (P := P) (xms_global_enable_a20 config env) /\ frame (P := P) (xms_global_disable_a20 config env) /\
  frame (P := P) (xms_local_enable_a20 config env) /\ frame (P := P) (xms_local_disable_a20 config env).
Proof.
  pose proof frame_set_a20.
  unfold xms_request_hma, xms_release_hma, xms_global_enable_a20, xms_global_disable_a20,
    xms_local_enable_a20, xms_local_disable_a20, xms_local_reset.
  split_and!; frame_tac; by destruct (truth _).
Qed.

(** What one call of the dispatcher needs: sizes in range, room to count one
    more lock, no move that wraps. *)
Definition call_ok (s : xms P) : Prop :=
  request_ok (rg s) /\
  (HI (eax (rg s)) = 12 ->
     forall h x, aget (handles s) h = Some x -> addr x <> 0 -> lockcount x < lim) /\
  (HI (eax (rg s)) = 11 -> move_wraps s = false).

Lemma wp_xms_functions (s : xms P) :
  xms_ok config lim s -> call_ok s ->
  wp (xms_functions config env (HI (eax (rg s)))) s (fun _ s' => xms_ok config lim s').
Proof.
  intros Hok ((Hr1 & Hr2 & Hr3) & Hl & Hm). destruct frame_hma_a20 as (F1 & F2 & F3 & F4 & F5 & F6).
  assert (forall api, kb_in_range config (requested_kb api (edx (rg s))) ->
    wp (xms_ret_of (xms_allocate_EMB config env api)) s (fun _ s' => xms_ok config lim s')) as Halloc.
  { intros api Hkb. apply wp_ret_of, (wp_xms_allocate_EMB config env lim); try done.
    intros r s' _ Hs'. by eapply xms_ok_core. }
  assert (forall api, wp (xms_ret_of (xms_EMB_info api)) s (fun _ s' => xms_ok config lim s')) as Hinfo.
  { intros api. apply wp_ret_of. eapply wp_mono; [apply (frame_xms_EMB_info api s)|].
    intros r s' Hs'. exact (xms_ok_core _ _ _ _ Hok Hs'). }
  assert (forall c : M (xms P) unit, frame c -> wp c s (fun _ s' => xms_ok config lim s')) as Hfr
    by (intros c Hc; by apply frame_ok).
  unfold xms_functions.
  repeat (lazymatch goal with |- wp (if ?a =? ?k then _ else _) _ _ =>
    destruct (Z.eqb_spec a k) as [?E|_] end).
  all: try lazymatch goal with
    | |- wp (xms_query_freemem _ _) _ _ => apply wp_xms_query_freemem; exact Hok
    | |- wp (xms_ret_of (xms_EMB_info _)) _ _ => apply Hinfo
    | |- wp (set_regs _) _ _ => apply Hfr; auto with dosemu
    | |- wp (XMS_RET _) _ _ => apply Hfr; auto with dosemu
    end.
  - by apply Hfr.
  - by apply Hfr.
  - by apply Hfr.
  - by apply Hfr.
  - by apply Hfr.
  - by apply Hfr.
  - apply Hfr. frame_tac.
  - apply Halloc, (old_in_range config Hcfg).
  - apply wp_ret_of, (wp_xms_free_EMB config lim Hcfg), Hok.
  - apply wp_ret_of. eapply wp_mono; [by apply wp_xms_move_EMB, Hm|].
    intros e s' H. exact (xms_ok_core _ _ _ _ Hok H).
  - apply wp_ret_of, (wp_xms_lock_EMB config env lim Hcfg); try done. intros _. by apply Hl.
  - by apply wp_ret_of, (wp_xms_lock_EMB config env lim Hcfg).
  - apply wp_ret_of, (wp_xms_realloc_EMB config env lim Hcfg Hmax); [done|apply (old_in_range config Hcfg)|by apply Hr2].
  - apply Halloc. by apply Hr1.
  - apply wp_ret_of, (wp_xms_realloc_EMB config env lim Hcfg Hmax); [done|by apply Hr3|by apply Hr3].
Qed.

Lemma wp_xms_control (s : xms P) :
  xms_ok config lim s -> call_ok s ->
  wp (xms_control config env) s (fun _ s' => xms_ok config lim s').
Proof.
  intros Hok Hreq. unfold xms_control. wp_step. apply wp_modify.
  set (s1 := s <| rg ::= _ |>).
  assert (xms_ok config lim s1) as Hs1 by (eapply xms_ok_core; [exact Hok|repeat split]).
  wp_step. eapply wp_mono; [by apply wp_xms_umb_functions|]. intros b s2 [Hs2 Hb].
  wp_step. apply wp_get. wp_step.
  eapply (wp_mono _ _ (fun _ s' => xms_ok config lim s')).
  { destruct (intdrv s2), b; simpl; try by wp_step.
    destruct (Hb eq_refl) as [Hz|Hz]; apply wp_xms_functions; try done.
    - unfold call_ok, request_ok. rewrite Hz. split_and!; done.
    - rewrite Hz. exact Hreq. }
  intros [] s3 Hs3. wp_step. apply wp_get. wp_step. eapply (wp_mono _ _ (fun _ s' => xms_ok config lim s')).
  { destruct (negb (intdrv s3) && b); [|by wp_step].
    apply frame_ok; [apply frame_set_regs|done]. }
  intros [] s4 Hs4. apply frame_ok; [apply frame_set_regs|done].
Qed.

(** Locked EMBs have disjoint windows inside the XMS area. *)
Lemma windows_disjoint (s : xms P) h1 h2 x1 x2 :
  xms_ok config lim s -> h1 <> h2 ->
  aget (handles s) h1 = Some x1 -> aget (handles s) h2 = Some x2 ->
  dst x1 <> 0 -> dst x2 <> 0 ->
  xms_base config <= dst x1 /\ dst x1 + hsize x1 <= xms_base config + xms_size config * 1024 /\
  (dst x1 + hsize x1 <= dst x2 \/ dst x2 + hsize x2 <= dst x1).
Proof.
  intros Hok Hne H1 H2 Hd1 Hd2. pose proof (xms_ok_windows _ _ _ Hok) as Hw.
  destruct (window_block config lim Hcfg _ _ _ Hw H1 Hd1) as (r1 & E1 & B1 & R1 & N1 & T1 & _).
  destruct (window_block config lim Hcfg _ _ _ Hw H2 Hd2) as (r2 & E2 & B2 & R2 & N2 & T2 & _).
  assert (forall h x, aget (handles s) h = Some x -> dst x <> 0 -> hsize x <= emb_pages x * 4096) as Hs.
  { intros h x Hx Hd. destruct (xo_handles _ _ _ Hok _ _ Hx) as [Hz Hu].
    destruct (Z.eq_dec (addr x) 0) as [Ha|Ha]; [by rewrite Hz in Hd|].
    destruct (Hu Ha) as (Hsz & _). destruct (PAGE_ALIGN_spec (hsize x)) as (_ & ? & ?); [lia|].
    unfold emb_pages. lia. }
  pose proof (Hs _ _ H1 Hd1). pose proof (Hs _ _ H2 Hd2). pose proof (xo_pages _ _ _ Hok).
  split; [lia|]. split; [lia|].
  destruct (pa_block_disjoint _ _ _ _ _ _ _ B1 B2) as [(_ & _ & ?)|[?|?]]; [done|lia|lia].
Qed.

End control.

(** ** Sequences of requests *)

Section requests.
Context {P : Type} {PA : PageAlloc P} {PL : PageAllocLaws P}.
Context (config : xms_config) (env : xms_env).
Hypothesis Hcfg : config_ok config.
Hypothesis Halias : forall lg pa n ptr, alias_mapping_pa env lg pa n ptr = true.
Hypothesis Hhma : forall lg b, alias_mapping env lg b = true.

(** A client's requests, one [xms_control] call per register contents. *)
Fixpoint xms_requests (rs : list regs) : M (xms P) unit :=
  match rs with
  | [] => ret tt
  | r :: rs => set_regs (fun _ => r) ;; xms_control config env ;; xms_requests rs
  end.

(** Request [r], made in state [s], is a move that wraps. *)
Definition wrapping_request (s : xms P) (r : regs) : Prop :=
  HI (eax r) = 11 /\ move_wraps (s <| rg := r |>) = true.

(** One request: the bound on lock counts grows by one. *)
Lemma xms_request_safe lim r (s : xms P) :
  0 <= lim -> lim + 1 < 2 ^ 31 -> xms_ok config lim s -> request_ok config r ->
  (exists s', xms_control config env (s <| rg := r |>) = Ok (tt, s') /\ xms_ok config (lim + 1) s') \/
  wrapping_request s r.
Proof.
  intros Hl1 Hl2 Hok Hr.
  assert (xms_ok config (lim + 1) (s <| rg := r |>)) as Hok'.
  { eapply xms_ok_weaken; [|eapply xms_ok_core; [exact Hok|repeat split]]. lia. }
  destruct (decide (wrapping_request s r)) as [Hw|Hw]; [by right|left].
  assert (call_ok config (lim + 1) (s <| rg := r |>)) as Hcall.
  { split; [exact Hr|]. split.
    - intros _ h x Hx Ha. destruct (xo_handles _ _ _ Hok _ _ Hx) as [_ Hu].
      destruct (Hu Ha) as (_ & ? & _). lia.
    - intros He. destruct (move_wraps _) eqn:E; [|done]. by destruct Hw. }
  destruct (wp_inv _ _ _ (wp_xms_control config env (lim + 1) Hcfg ltac:(lia) Halias Hhma _ Hok' Hcall))
    as ([] & s' & E & H). eauto.
Qed.

Lemma xms_requests_run rs lim (s : xms P) :
  0 <= lim -> lim + Z.of_nat (length rs) < 2 ^ 31 ->
  xms_ok config lim s -> Forall (request_ok config) rs ->
  (exists s', xms_requests rs s = Ok (tt, s') /\ xms_ok config (lim + Z.of_nat (length rs)) s') \/
  (exists rs1 r rs2 s1, rs = rs1 ++ r :: rs2 /\ xms_requests rs1 s = Ok (tt, s1) /\
     xms_ok config (lim + Z.of_nat (length rs1)) s1 /\ wrapping_request s1 r).
Proof.
  intros Hl1 Hl2 Hok Hrs. revert lim s Hl1 Hl2 Hok.
  induction Hrs as [|r rs Hr Hrs IH]; intros lim s Hl1 Hl2 Hok.
  { left. exists s. split; [done|]. simpl. by rewrite Z.add_0_r. }
  cbn [length] in Hl2.
  destruct (xms_request_safe lim r s Hl1 ltac:(lia) Hok Hr) as [(s1 & E & Hok1)|Hw].
  2: { right. exists [], r, rs, s. split_and!; try done. simpl. by rewrite Z.add_0_r. }
  assert (forall l, xms_requests (r :: l) s = xms_requests l s1) as Hstep.
  { intros l. cbn [xms_requests]. unfold bind, set_regs, modify.
    change (s <| rg ::= fun _ => r |>) with (s <| rg := r |>). by rewrite E. }
  destruct (IH (lim + 1) s1 ltac:(lia) ltac:(lia) Hok1) as [(s' & E' & H)|(rs1 & r' & rs2 & s' & -> & E' & H & Hw)].
  - left. exists s'. rewrite Hstep. split; [done|]. cbn [length].
    by replace (lim + Z.of_nat (S (length rs))) with (lim + 1 + Z.of_nat (length rs)) by lia.
  - right. exists (r :: rs1), r', rs2, s'. rewrite Hstep. split_and!; try done. cbn [length].
    by replace (lim + Z.of_nat (S (length rs1))) with (lim + 1 + Z.of_nat (length rs1)) by lia.
Qed.

End requests.

(** ** A small machine for the examples: 64K of XMS at 0x110000, one UMB area *)

Definition ex_config : xms_config := MkConfig 64 true 1114112 33554432 61440 0.

(** Mappings succeed, each at a new host address. *)
Definition ex_env : xms_env :=
  MkEnv (fun lg n => Some (4294967296 * (1 + Z.of_nat (length lg))))
        (fun lg p _ n => Some (4294967296 * (1 + Z.of_nat (length lg))))
        (fun _ _ _ _ => true) (fun _ _ => true) (fun _ _ => None) (fun _ n => (false, n)).

Definition no_emb : Handle := MkHandle 0 0 0 0 0.

Definition no_regs : regs := MkRegs 0 0 0 0 0 0 0 0 false false 0.

Definition ex_xms : xms pgpool :=
  MkXms false 0 false true (replicate 65 no_emb) 0 true false 0 (pgainit 16)
    [sminit 851968 65536] no_regs (fun _ => 0) (fun _ => 7) [].

Lemma ex_config_ok : config_ok ex_config.
Proof. by split. Qed.

Lemma ex_xms_ok : xms_ok ex_config 0 ex_xms.
Proof.
  split; try done.
  - intros h x. unfold aget. destruct (h <? 0); [done|]. intros [-> _]%lookup_replicate.
    split; [done|]. intros H. by destruct H.
  - apply pgainit_ok. lia.
  - constructor; [|constructor]. destruct (sminit_good 851968 65536 0 (fun _ => 0) []) as [H1 H2];
      [lia|lia|lia|]. split_and!; done.
Qed.

Definition req (ax bx dx : Z) : regs := MkRegs ax bx 0 dx 0 0 0 0 false false 0.

(** The state after the requests, for the examples. *)
Definition after (rs : list regs) : option (xms pgpool) :=
  match xms_requests ex_config ex_env rs ex_xms with Ok (_, s) => Some s | Fault _ => None end.

(** Requests that carry no size, or a 16-bit size to allocate. *)
Lemma request_ok_plain config r :
  HI (eax r) <> 137 -> HI (eax r) <> 15 -> HI (eax r) <> 143 -> request_ok config r.
Proof. intros H1 H2 H3. split_and!; congruence. Qed.

Ltac plain_requests :=
  repeat (apply Forall_cons_2; [apply request_ok_plain; vm_compute; discriminate|]); apply Forall_nil_2.

(** ** Properties *)

(** C36: In a state with the invariant of the driver, for a configuration
    below 2 GiB that fits the 32-bit address space, take fewer than 2^31 XMS
    requests, any function numbers and registers, within the size limits
    (32-bit sizes below the range where byte counts overflow, no block resized
    to 0), on a machine where alias_mapping and alias_mapping_pa do not fail.
    Either all complete: no assertion of the driver, the page allocator or the
    UMB allocator fails, no table is indexed out of bounds, no copy leaves its
    block, and handles, bytes, windows and lock counts stay correct. Or all
    requests before the first move whose offset plus length does not fit in 32
    bits complete so. Proved for any page allocator with the interface laws. *)
Theorem xms_requests_safe {P} {PA : PageAlloc P} {PL : PageAllocLaws P} config env lim rs (s : xms P) :
  config_ok config -> (forall lg pa n ptr, alias_mapping_pa env lg pa n ptr = true) ->
  (forall lg b, alias_mapping env lg b = true) ->
  0 <= lim -> lim + Z.of_nat (length rs) < 2 ^ 31 ->
  xms_ok config lim s -> Forall (request_ok config) rs ->
  (exists s', xms_requests config env rs s = Ok (tt, s') /\
     xms_ok config (lim + Z.of_nat (length rs)) s') \/
  (exists rs1 r rs2 s1, rs = rs1 ++ r :: rs2 /\ xms_requests config env rs1 s = Ok (tt, s1) /\
     xms_ok config (lim + Z.of_nat (length rs1)) s1 /\ wrapping_request s1 r).
Proof. intros Hc Ha Hh. by apply xms_requests_run. Qed.

(** Allocate 3K and 8K, lock both, allocate and free a UMB, enable A20, free. *)
Definition ex_requests : list regs :=
  [req 2304 0 3; req 2304 0 8; req 3072 0 1; req 3072 0 2; req 4096 0 100; req 4352 0 53248;
   req 768 0 0; req 2048 0 0; req 2560 0 1].

Lemma ex_requests_run s' : xms_requests ex_config ex_env ex_requests ex_xms = Ok (tt, s') ->
  totalBytes s' = 8192.
Proof. intros E. apply (outcome_eq (fun _ s => totalBytes s) _ _ _ _ _ E). vm_compute. reflexivity. Qed.

Lemma xms_requests_safe_witness :
  exists s', xms_requests ex_config ex_env ex_requests ex_xms = Ok (tt, s') /\
    xms_ok ex_config 9 s' /\ totalBytes s' = 8192.
Proof.
  destruct (xms_requests_safe ex_config ex_env 0 ex_requests ex_xms)
    as [(s' & E & H)|(rs1 & r & rs2 & s1 & E & _ & _ & Hw & _)];
    [exact ex_config_ok|reflexivity|reflexivity|lia|vm_compute; reflexivity|exact ex_xms_ok|
     plain_requests|..].
  - exists s'. split; [exact E|]. split; [exact H|by apply ex_requests_run].
  - exfalso. assert (r ∈ ex_requests) as Hr by (rewrite E, elem_of_app; right; by left).
    revert Hw. unfold ex_requests in Hr. rewrite !elem_of_cons, elem_of_nil in Hr.
    by intuition (subst; discriminate).
Defined.

(** Two EMBs that are locked at the same time occupy disjoint physical
    windows, and each window lies inside the XMS area. *)
Theorem xms_locked_windows_disjoint {P} {PA : PageAlloc P} {PL : PageAllocLaws P}
    config lim (s : xms P) h1 h2 x1 x2 :
  config_ok config -> xms_ok config lim s -> h1 <> h2 ->
  aget (handles s) h1 = Some x1 -> aget (handles s) h2 = Some x2 ->
  addr x1 <> 0 -> lockcount x1 <> 0 -> addr x2 <> 0 -> lockcount x2 <> 0 ->
  xms_base config <= dst x1 /\ dst x1 + hsize x1 <= xms_base config + xms_size config * 1024 /\
  (dst x1 + hsize x1 <= dst x2 \/ dst x2 + hsize x2 <= dst x1).
Proof.
  intros Hc Hok Hne H1 H2 A1 L1 A2 L2.
  destruct (xo_handles _ _ _ Hok _ _ H1) as [_ W1]. destruct (xo_handles _ _ _ Hok _ _ H2) as [_ W2].
  eapply (windows_disjoint config lim Hc s h1 h2); try done; intros E.
  - by apply L1, (W1 A1).
  - by apply L2, (W2 A2).
Qed.

Lemma xms_locked_windows_disjoint_witness :
  exists s x1 x2, after [req 2304 0 3; req 2304 0 8; req 3072 0 1; req 3072 0 2] = Some s /\
    aget (handles s) 1 = Some x1 /\ aget (handles s) 2 = Some x2 /\
    (dst x1 + hsize x1 <= dst x2 \/ dst x2 + hsize x2 <= dst x1).
Proof.
  destruct (xms_requests_run ex_config ex_env ex_config_ok (fun _ _ _ _ => eq_refl) (fun _ _ => eq_refl)
    [req 2304 0 3; req 2304 0 8; req 3072 0 1; req 3072 0 2] 0 ex_xms)
    as [(s & E & Hok)|(rs1 & r & rs2 & s1 & E & _ & _ & Hw & _)];
    [lia|vm_compute; reflexivity|exact ex_xms_ok|plain_requests|..].
  2: { exfalso. assert (r ∈ [req 2304 0 3; req 2304 0 8; req 3072 0 1; req 3072 0 2]) as Hr
         by (rewrite E, elem_of_app; right; by left).
       revert Hw. rewrite !elem_of_cons, elem_of_nil in Hr. by intuition (subst; discriminate). }
  assert (exists x1, aget (handles s) 1 = Some x1 /\ addr x1 <> 0 /\ lockcount x1 <> 0) as (x1 & H1 & A1 & L1).
  { eexists. split; [apply (outcome_eq (fun _ s => aget (handles s) 1) _ _ _ _ _ E);
      vm_compute; reflexivity|split; discriminate]. }
  assert (exists x2, aget (handles s) 2 = Some x2 /\ addr x2 <> 0 /\ lockcount x2 <> 0) as (x2 & H2 & A2 & L2).
  { eexists. split; [apply (outcome_eq (fun _ s => aget (handles s) 2) _ _ _ _ _ E);
      vm_compute; reflexivity|split; discriminate]. }
  exists s, x1, x2. split; [unfold after; by rewrite E|]. split; [exact H1|]. split; [exact H2|].
  destruct (xms_locked_windows_disjoint ex_config 4 s 1 2 x1 x2) as (_ & _ & Hd);
    [exact ex_config_ok|exact Hok|lia|exact H1|exact H2|exact A1|exact L1|exact A2|exact L2|exact Hd].
Defined.

(** [xms_allocate_EMB].  It returns 0 only by giving a free handle (whose
    number it returns in DX) a block of exactly the requested size, charging the
    page-rounded size to the total; otherwise it returns 0xa0 or 0xa1 and the
    driver's tables are unchanged. *)
Theorem xms_allocate_EMB_correct {P} {PA : PageAlloc P} {PL : PageAllocLaws P} config env lim api (s : xms P) :
  config_ok config -> 0 <= lim < 2 ^ 31 -> xms_ok config lim s ->
  kb_in_range config (requested_kb api (edx (rg s))) ->
  exists r s', xms_allocate_EMB config env api s = Ok (r, s') /\ xms_ok config lim s' /\
    ((r = 0 /\ exists h x x', 1 <= h < 65 /\ LWORD (edx (rg s')) = h /\
        aget (handles s) h = Some x /\ addr x = 0 /\
        aget (handles s') h = Some x' /\ addr x' <> 0 /\ lockcount x' = 0 /\
        hsize x' = requested_kb api (edx (rg s)) * 1024 /\
        totalBytes s' = totalBytes s + PAGE_ALIGN (hsize x') /\
        forall k, k <> h -> aget (handles s') k = aget (handles s) k) \/
     ((r = 160 \/ r = 161) /\ same_core s s')).
Proof.
  intros Hc Hl Hok Hkb. apply wp_inv. apply (wp_xms_allocate_EMB config env lim Hc); try done.
  - intros r s' Hr Hs. split; [by eapply xms_ok_core|]. by right.
  - intros h x a s' Hh Hx Ha Hna Hpos Hlim Eh Ed Hok'. split; [done|]. left. split; [done|].
    pose proof (aget_Some_lt _ _ _ Hx) as Hlt.
    set (x' := x <| num := h |> <| hsize := requested_kb api (edx (rg s)) * 1024 |>
                 <| addr := a |> <| lockcount := 0 |>) in *.
    assert (totalBytes s' = totalBytes s + PAGE_ALIGN (hsize x')) as Et.
    { rewrite (xo_total _ _ _ Hok'), Eh, (zsum_astore _ _ _ x) by done. rewrite (xo_total _ _ _ Hok).
      unfold emb_bytes at 2 3. rewrite Ha. change (addr x') with a.
      rewrite (proj2 (Z.eqb_neq a 0)) by done. simpl Z.eqb. cbv iota. lia. }
    exists h, x, x'. split_and!; try done; try lia.
    + rewrite Eh, aget_astore by done. by rewrite Z.eqb_refl.
    + intros k Hk. rewrite Eh, aget_astore by done. by rewrite (proj2 (Z.eqb_neq k h)).
Qed.

Lemma xms_allocate_EMB_correct_witness :
  exists s', xms_allocate_EMB ex_config ex_env OLDXMS (ex_xms <| rg := req 2304 0 3 |>) = Ok (0, s') /\
    totalBytes s' = 4096.
Proof.
  destruct (xms_allocate_EMB_correct ex_config ex_env 0 OLDXMS (ex_xms <| rg := req 2304 0 3 |>))
    as (r & s' & E & _);
    [exact ex_config_ok|lia|eapply xms_ok_core; [exact ex_xms_ok|repeat split]|vm_compute; split; congruence|].
  assert (r = 0) as -> by (apply (outcome_eq (fun r _ => r) _ _ _ _ _ E); vm_compute; reflexivity).
  assert (totalBytes s' = 4096) as Ht
    by (apply (outcome_eq (fun _ s => totalBytes s) _ _ _ _ _ E); vm_compute; reflexivity).
  exists s'. split; [exact E|exact Ht].
Defined.

(** The 32-bit allocation computes the byte count modulo 2^32.  A request
    for 4 GiB + 1 KiB (EDX = 0x400001) on the 64K example machine is granted, as
    a block of 1 KiB. *)
Theorem xms_allocate_EMB_wraps :
  exists s' x, xms_control ex_config ex_env (ex_xms <| rg := req 35072 0 4194305 |>) = Ok (tt, s') /\
    LWORD (eax (rg s')) = 1 /\ edx (rg s') = 1 /\
    aget (handles s') 1 = Some x /\ hsize x = 1024.
Proof. eexists _, _. split; [vm_compute; reflexivity|]. split_and!; reflexivity. Qed.

(** A UMB allocation served from the first pool with room never trips the
    driver's own assertion: [umb_allocate] returns 0 exactly when no pool has a
    large enough free area, and otherwise an address of a fresh block that lies
    inside that pool and is disjoint from its other blocks. *)
Theorem umb_allocate_correct {P} {PA : PageAlloc P} {PL : PageAllocLaws P} config lim (s : xms P) size :
  xms_ok config lim s -> 0 < size < 2 ^ 32 ->
  exists a s', umb_allocate size s = Ok (a, s') /\ xms_ok config lim s' /\
    ((a = 0 /\ s' = s /\ forall p, p ∈ umbs s -> smget_largest_free_area p < size) \/
     (a <> 0 /\ exists i p st, aget (umbs s) i = Some p /\
        heap_alloc (MkSm p (dosmem s) []) st a size /\ aget (umbs s') i = Some (sm_pool st) /\
        (forall k, k <> i -> aget (umbs s') k = aget (umbs s) k))).
Proof.
  intros Hok Hsz. apply wp_inv. apply (wp_umb_allocate config lim); try done.
  - intros i p a st Hi Hh Ha Hok'. split; [done|]. right. split; [done|].
    pose proof (aget_Some_lt _ _ _ Hi) as Hlt. exists i, p, st. split_and!; try done.
    + simpl. rewrite aget_astore by done. by rewrite Z.eqb_refl.
    + intros k Hk. simpl. rewrite aget_astore by done. by rewrite (proj2 (Z.eqb_neq k i)).
  - intros Hno. split; [done|]. by left.
Qed.

Lemma umb_allocate_correct_witness :
  exists s', umb_allocate 1600 ex_xms = Ok (851968, s') /\ xms_ok ex_config 0 s'.
Proof.
  destruct (umb_allocate_correct ex_config 0 ex_xms 1600 ex_xms_ok) as (a & s' & E & Hok & _); [lia|].
  exists s'. split; [|exact Hok]. rewrite E. do 2 f_equal.
  apply (outcome_eq (fun a _ => a) _ _ _ _ _ E). vm_compute. reflexivity.
Defined.

(** Asking for a UMB of size 0 returns the XMS version instead of an
    error.  [XMS_RET] clears AX, so the second switch of [xms_control] sees
    function 0 (get version): the client gets AX = 0x0300, DX = 1 where the first
    switch had set the error code 0xa7. *)
Theorem umb_zero_size_returns_version {P} {PA : PageAlloc P} config env (s : xms P) :
  intdrv s = true -> HI (eax (rg s)) = 16 -> LWORD (edx (rg s)) = 0 ->
  exists s', xms_control config env s = Ok (tt, s') /\
    LWORD (eax (rg s')) = 768 /\ LWORD (ebx (rg s')) = 769 /\ LWORD (edx (rg s')) = 1.
Proof.
  destruct s as [? ? ? ? ? ? ? ? ? ? ? [ax bx cx dx si di dseg eseg c z ip] ? ? ?].
  simpl. intros -> Ha Hd. unfold xms_control, xms_umb_functions, bind, get, set_regs, modify. simpl.
  rewrite Ha, Hd. simpl. rewrite HI_set_LWORD. simpl.
  eexists. split; [reflexivity|]. simpl. rewrite !LWORD_set_LWORD. done.
Qed.

Lemma umb_zero_size_returns_version_witness :
  exists s', xms_control ex_config ex_env (ex_xms <| rg := req 4096 0 0 |>) = Ok (tt, s') /\
    LWORD (eax (rg s')) = 768 /\ LWORD (ebx (rg s')) = 769 /\ LWORD (edx (rg s')) = 1.
Proof. apply umb_zero_size_returns_version; reflexivity. Defined.

(** Local A20 requests are lost after a global disable.  Enabling A20
    globally and locally, disabling it globally and enabling it locally again
    reports success every time and leaves A20 off with a local count of 2. *)
Theorem a20_local_enable_lost :
  exists s', after [req 768 0 0; req 1280 0 0; req 1024 0 0; req 1280 0 0] = Some s' /\
    LWORD (eax (rg s')) = 1 /\ a20_local s' = 2 /\ a20 s' = false.
Proof. eexists. split; [vm_compute; reflexivity|]. split_and!; reflexivity. Qed.

(** A block resized to 0 bytes breaks the page allocator.  On the 64K
    example machine: allocate 4K, resize it to 0, allocate and lock 64K, lock the
    empty block: [find_free] is asked for 0 pages and reads one element past the
    end of the page table. *)
Theorem xms_lock_empty_block_overruns :
  xms_requests ex_config ex_env
    [req 2304 0 4; req 3840 0 1; req 2304 0 64; req 3072 0 2; req 3072 0 1] ex_xms = Fault OutOfBounds.
Proof. vm_compute. reflexivity. Qed.

(** ** Moving extended memory *)

Section move.
Context {P : Type} (s : xms P).

(** [len] bytes at [offset] of [handle] exist, and start at [pl]. *)
Definition place_ok (handle offset len : Z) (pl : place) : Prop :=
  (handle = 0 /\ (exists room, pl = InDos (offset / 65536 * 16 + offset mod 65536) room /\ len <= room) /\
     offset / 65536 * 16 + offset mod 65536 + len <= LOWMEM_SIZE + HMASIZE) \/
  (handle <> 0 /\ exists x, aget (handles s) handle = Some x /\ addr x <> 0 /\
     offset + len <= hsize x /\ pl = InHost (addr x + offset) (hsize x - offset)).

Lemma place_ok_room handle offset len pl : place_ok handle offset len pl -> len <= room_of pl.
Proof. intros [(_ & (n & -> & ?) & _)|(_ & x & _ & _ & ? & ->)]; simpl; lia. Qed.

Lemma move_end_spec handle offset len ebad eoff :
  length (handles s) = 65%nat ->
  0 <= offset -> 0 <= len -> offset + len < 2 ^ 32 -> 0 < ebad -> 0 < eoff ->
  match move_end s handle offset len ebad eoff with
  | inl pl => place_ok handle offset len pl
  | inr e => e <> 0 /\ forall pl, ~ place_ok handle offset len pl
  end.
Proof.
  intros Hl Ho Hn Hw He1 He2. unfold move_end, place_ok. destruct (Z.eqb_spec handle 0) as [->|Hh].
  - rewrite Z.shiftr_div_pow2 by lia. change 65535 with (Z.ones 16). rewrite Z.land_ones by lia.
    change (2 ^ 16) with 65536.
    pose proof (Z.div_mod offset 65536 ltac:(lia)). pose proof (Z.mod_pos_bound offset 65536 ltac:(lia)).
    pose proof (Z.div_pos offset 65536 ltac:(lia) ltac:(lia)).
    unfold SEGOFF2LINEAR. rewrite !(u32_small (offset / 65536 * 16 + _)) by lia.
    rewrite u32_small by lia.
    destruct (Z.ltb_spec (LOWMEM_SIZE + HMASIZE) (offset / 65536 * 16 + offset mod 65536 + len)).
    + split; [done|]. intros pl [(_ & _ & ?)|[? _]]; [lia|done].
    + left. split; [done|]. split; [|lia]. eexists. split; [done|]. lia.
  - destruct (Z.leb_spec NUM_HANDLES handle) as [Hb|Hb].
    { split; [lia|]. intros pl [[? _]|(_ & x & Hx & _)]; [done|].
      apply aget_Some_lt in Hx. unfold NUM_HANDLES in Hb. lia. }
    destruct (aget (handles s) handle) as [x|] eqn:Hx.
    2: { split; [lia|]. intros pl [[? _]|(_ & x & ? & _)]; done. }
    destruct (Z.eqb_spec (addr x) 0) as [Ha|Ha].
    { split; [lia|]. intros pl [[? _]|(_ & y & Hy & Hy' & _)]; [done|congruence]. }
    destruct (Z.ltb_spec (hsize x) offset).
    { split; [lia|]. intros pl [[? _]|(_ & y & Hy & _ & ? & _)]; [done|].
      injection Hy as <-. lia. }
    rewrite u32_small by lia. destruct (Z.ltb_spec (hsize x) (offset + len)).
    { split; [lia|]. intros pl [[? _]|(_ & y & Hy & _ & ? & _)]; [done|].
      injection Hy as <-. lia. }
    right. split; [done|]. eauto.
Qed.

Lemma rd16_range m a : (forall a, 0 <= m a < 256) -> 0 <= rd16 m a < 65536.
Proof. intros H. unfold rd16. pose proof (H a). pose proof (H (a + 1)). lia. Qed.

Lemma rd32_range m a : (forall a, 0 <= m a < 256) -> 0 <= rd32 m a < 2 ^ 32.
Proof.
  intros H. unfold rd32. pose proof (rd16_range m a H). pose proof (rd16_range m (a + 2) H). lia.
Qed.

End move.

(** [xms_move_EMB], when [offset + length] does not exceed 32 bits: it
    returns 0 exactly when the length is even and both ends of the move exist
    (inside the EMB, or below the end of the HMA), and then the only change of
    memory is that the destination bytes become the source bytes; otherwise
    memory is unchanged. *)
Theorem xms_move_EMB_correct {P} (s : xms P) :
  length (handles s) = 65%nat -> (forall a, 0 <= dosmem s a < 256) ->
  SourceOffset (emm_of s) + Length (emm_of s) < 2 ^ 32 ->
  DestOffset (emm_of s) + Length (emm_of s) < 2 ^ 32 ->
  exists r s', xms_move_EMB s = Ok (r, s') /\ same_core s s' /\
    ((r = 0 /\ Z.even (Length (emm_of s)) = true /\ exists sp dp,
        place_ok s (SourceHandle (emm_of s)) (SourceOffset (emm_of s)) (Length (emm_of s)) sp /\
        place_ok s (DestHandle (emm_of s)) (DestOffset (emm_of s)) (Length (emm_of s)) dp /\
        match dp with
        | InDos b _ => hostmem s' = hostmem s /\ dosmem s' = copy_bytes (dosmem s) b
            (match sp with InDos _ _ => dosmem s | InHost _ _ => hostmem s end)
            (match sp with InDos a _ => a | InHost a _ => a end) (Length (emm_of s))
        | InHost b _ => dosmem s' = dosmem s /\ hostmem s' = copy_bytes (hostmem s) b
            (match sp with InDos _ _ => dosmem s | InHost _ _ => hostmem s end)
            (match sp with InDos a _ => a | InHost a _ => a end) (Length (emm_of s))
        end) \/
     (r <> 0 /\ s' = s /\ (Z.even (Length (emm_of s)) = false \/
        (forall pl, ~ place_ok s (SourceHandle (emm_of s)) (SourceOffset (emm_of s)) (Length (emm_of s)) pl) \/
        (forall pl, ~ place_ok s (DestHandle (emm_of s)) (DestOffset (emm_of s)) (Length (emm_of s)) pl)))).
Proof.
  intros Hl Hb Hw1 Hw2. apply wp_inv. unfold xms_move_EMB. wp_step. apply wp_get. fold (emm_of s).
  assert (0 <= Length (emm_of s) /\ 0 <= SourceOffset (emm_of s) /\ 0 <= DestOffset (emm_of s)) as (H1 & H2 & H3)
    by (unfold emm_of, read_EMM; split_and!; simpl; apply rd32_range, Hb).
  set (e := emm_of s) in *.
  assert (truth (Z.land (Length e) 1) = negb (Z.even (Length e))) as ->.
  { change 1 with (Z.ones 1). rewrite Z.land_ones by lia. change (2 ^ 1) with 2.
    rewrite Zeven_mod. done. }
  destruct (Z.even (Length e)) eqn:Ev; simpl negb; cbv iota.
  2: { wp_step. split; [done|]. right. split; [done|]. auto. }
  pose proof (move_end_spec s (SourceHandle e) (SourceOffset e) (Length e) 163 164 Hl H2 H1 Hw1 eq_refl eq_refl) as Hs.
  destruct (move_end s (SourceHandle e) (SourceOffset e) (Length e) 163 164) as [sp|err].
  2: { wp_step. destruct Hs as [He Hn]. split; [done|]. right. auto. }
  pose proof (move_end_spec s (DestHandle e) (DestOffset e) (Length e) 165 166 Hl H3 H1 Hw2 eq_refl eq_refl) as Hd.
  destruct (move_end s (DestHandle e) (DestOffset e) (Length e) 165 166) as [dp|err].
  2: { wp_step. destruct Hd as [He Hn]. split; [done|]. right. auto. }
  wp_step. match goal with |- wp ?c s _ =>
    assert (wp c s (fun _ s' => exists lg, s' = s <| xlog := lg |>)) as Hinv end.
  { assert (s = s <| xlog := xlog s |>) as Es by (by destruct s).
    destruct (if DestHandle e =? 0 then None else _) as [x|]; [destruct (truth (dst x))|].
    - apply wp_modify. eexists. reflexivity.
    - apply wp_ret. eauto.
    - apply wp_ret. eauto. }
  eapply wp_mono; [exact Hinv|]. intros [] s1 [lg ->]. unfold do_move. wp_step.
  rewrite (proj2 (Z.ltb_ge (room_of sp) _)), (proj2 (Z.ltb_ge (room_of dp) _)) by (by eapply place_ok_room).
  simpl orb. cbv iota. apply wp_modify. wp_step. split; [by destruct sp, dp|]. left. split; [done|]. split; [done|]. exists sp, dp.
  split; [done|]. split; [done|]. by destruct sp, dp.
Qed.

(** Two EMBs of 1K; the move structure [bytes] is at 0:500h. *)
Definition bytes_at (a0 : Z) (bytes : list Z) (a : Z) : Z :=
  match aget bytes (a - a0) with Some b => b | None => 0 end.

Definition move_state (bytes : list Z) : xms pgpool :=
  ex_xms <| handles := astore (astore (handles ex_xms) 1 (MkHandle 1 65536 1024 0 0))
              2 (MkHandle 2 131072 1024 0 0) |>
         <| dosmem := bytes_at 1280 bytes |>
         <| hostmem := fun a => a mod 251 |>
         <| rg := no_regs <| esi := 1280 |> |>.

(** 16 bytes from offset 8 of EMB 1 to offset 100 of EMB 2. *)
Definition small_move : list Z := [16; 0; 0; 0; 1; 0; 8; 0; 0; 0; 2; 0; 100; 0; 0; 0].

Lemma small_move_bytes a : 0 <= bytes_at 1280 small_move a < 256.
Proof.
  unfold bytes_at. destruct (aget small_move (a - 1280)) as [b|] eqn:E; [|lia].
  assert (Forall (fun b => 0 <= b < 256) small_move) as H by (repeat constructor; lia).
  unfold aget in E. destruct (a - 1280 <? 0); [done|].
  by eapply (Forall_lookup_1 _ _ _ _ H).
Qed.

Lemma xms_move_EMB_correct_witness :
  exists s', xms_move_EMB (move_state small_move) = Ok (0, s') /\
    hostmem s' (131072 + 105) = (65536 + 13) mod 251 /\ hostmem s' (131072 + 99) = (131072 + 99) mod 251.
Proof.
  destruct (xms_move_EMB_correct (move_state small_move)) as (r & s' & E & _);
    [reflexivity|apply small_move_bytes|vm_compute; reflexivity|vm_compute; reflexivity|].
  assert (r = 0) as -> by (apply (outcome_eq (fun r _ => r) _ _ _ _ _ E); vm_compute; reflexivity).
  exists s'. split; [exact E|]. split.
  - apply (outcome_eq (fun _ s => hostmem s (131072 + 105)) _ _ _ _ _ E). vm_compute. reflexivity.
  - apply (outcome_eq (fun _ s => hostmem s (131072 + 99)) _ _ _ _ _ E). vm_compute. reflexivity.
Defined.

(** Length 0xfffffffe from offset 2 of EMB 1 to offset 2 of EMB 2. *)
Definition huge_move : list Z := [254; 255; 255; 255; 1; 0; 2; 0; 0; 0; 2; 0; 2; 0; 0; 0].

(** The length check of [xms_move_EMB] wraps.  For a move of 0xfffffffe bytes
    between two 1K blocks from offset 2 both ends pass the check
    (2 + 0xfffffffe = 0 modulo 2^32), and the copy then leaves the blocks. *)
Theorem xms_move_EMB_wraps :
  let s := move_state huge_move in
  emm_of s = MkEMM 4294967294 1 2 2 2 /\
  move_end s 1 2 4294967294 163 164 = inl (InHost 65538 1022) /\
  move_end s 2 2 4294967294 165 166 = inl (InHost 131074 1022) /\
  xms_move_EMB s = Fault BadPointer.
Proof. split_and!; vm_compute; reflexivity. Qed.
