(* ===== verification/Dma.v ===== *)
(** * The DMA controllers (src/src/base/dev/dma/dma.c, dmaregs.h)

    Two 8237s of four channels.  Each routine of the source works on one
    controller [dma[dma_idx]], the data bus and physical memory: that is the
    state [lstate] of the local definitions, and [on_contr] runs them on the
    array.  Which physical addresses are mapped ([physaddr_to_unixaddr]) is the
    parameter [mapped].  The call of [e_invalidate_pa] before the copy of a write
    cycle, which drops translated code at that address (Trees.v), is left out: it
    touches none of this state.  The port macros HANDLE_X are the table [dma_ports]. *)

From stdpp Require Import base numbers list.
From Stdlib Require Import ZArith Lia.
From S2P Require Import Prelude.

Local Open Scope Z_scope.

Record dma_channel := MkChan {
  base_addr : Z; base_count : Z; cur_addr : Z; cur_count : Z;    (* 16 bits *)
  page : Z; mode : Z;                                            (* 8 bits *)
}.
#[export] Instance eta_chan : Eta dma_channel :=
  fun c => MkChan c.(base_addr) c.(base_count) c.(cur_addr) c.(cur_count) c.(page) c.(mode).

Record dma_controller := MkContr {
  chans : list dma_channel;    (* [4] *)
  tmp_reg : Z; status : Z; command : Z; mask : Z; request : Z; ff : Z;
}.
#[export] Instance eta_contr : Eta dma_controller :=
  fun c => MkContr c.(chans) c.(tmp_reg) c.(status) c.(command) c.(mask) c.(request) c.(ff).

(** One controller, the bus and memory. *)
Record lstate := MkL { lc : dma_controller; lbus : list Z; lmem : Z -> Z }.
#[export] Instance eta_lstate : Eta lstate := fun s => MkL s.(lc) s.(lbus) s.(lmem).

Record dmast := MkDma { dma : list dma_controller; dma_data_bus : list Z; pmem : Z -> Z }.
#[export] Instance eta_dmast : Eta dmast :=
  fun s => MkDma s.(dma) s.(dma_data_bus) s.(pmem).

Inductive TRMODE := DEMAND | SINGLE | BLOCK | CASCADE.
#[export] Instance TRMODE_eq_dec : EqDecision TRMODE.
Proof. solve_decision. Defined.
Inductive TROP := VERIFY | WRITE | READ | INVALID.

Definition DMA_TRANSFER_MODE (m : Z) : TRMODE :=
  match Z.land (Z.shiftr m 4) 3 with 0 => DEMAND | 1 => SINGLE | 2 => BLOCK | _ => CASCADE end.
Definition DMA_TRANSFER_OP (m : Z) : TROP :=
  match Z.land m 3 with 0 => VERIFY | 1 => WRITE | 2 => READ | _ => INVALID end.
Definition DMA_ADDR_DEC (m : Z) : bool := truth (Z.land (Z.shiftr m 3) 1).
Definition DMA_AUTOINIT (m : Z) : bool := truth (Z.land (Z.shiftr m 2) 1).

Definition bit (n : Z) : Z := Z.shiftl 1 n.
Definition set_bit (n r : Z) : Z := u8 (Z.lor r (bit n)).
Definition clr_bit (n r : Z) : Z := u8 (Z.land r (Z.lnot (bit n))).

Definition HAVE_DRQ (c : dma_controller) (ch : Z) : bool := truth (Z.land (status c) (bit (ch + 4))).
Definition REACHED_TC (c : dma_controller) (ch : Z) : bool := truth (Z.land (status c) (bit ch)).
Definition MASKED (c : dma_controller) (ch : Z) : bool := truth (Z.land (mask c) (bit ch)).
Definition HAVE_SRQ (c : dma_controller) (ch : Z) : bool := truth (Z.land (request c) (bit ch)).

Section dma.
Context (mapped : Z -> bool).

Definition get_chan (ch : Z) : M lstate dma_channel := fun s =>
  match aget (chans (lc s)) ch with Some x => Ok (x, s) | None => Fault OutOfBounds end.

Definition upd_chan (ch : Z) (f : dma_channel -> dma_channel) : M lstate unit := fun s =>
  match aget (chans (lc s)) ch with
  | Some x => Ok (tt, s <| lc ::= fun c => c <| chans ::= fun l => astore l ch (f x) |> |>)
  | None => Fault OutOfBounds
  end.

Definition upd_lc (f : dma_controller -> dma_controller) : M lstate unit :=
  modify (fun s => s <| lc ::= f |>).

Definition dma_soft_reset : M lstate unit :=
  upd_lc (fun c => c <| command := 0 |> <| status := 0 |> <| request := 0 |>
                     <| tmp_reg := 0 |> <| ff := 0 |> <| mask := 15 |>).

Definition dma_poll_DRQ (ch : Z) : M lstate unit :=
  upd_lc (fun c => c <| status ::= clr_bit (ch + 4) |>).

Definition dma_update_DRQ (ch : Z) : M lstate unit :=
  let! x := get_chan ch in
  match DMA_TRANSFER_MODE (mode x) with
  | DEMAND => dma_poll_DRQ ch
  | SINGLE => upd_lc (fun c => c <| status ::= clr_bit (ch + 4) |>)
  | BLOCK =>
      let! s := get in
      if REACHED_TC (lc s) ch then dma_poll_DRQ ch else ret tt
  | CASCADE => dma_poll_DRQ ch
  end.

(** [memcpy(dma_data_bus, addr, n)] and back, [n] = 1 or 2. *)
Definition bus_to_mem (pa : Z) (n : Z) (bus : list Z) (m : Z -> Z) : Z -> Z :=
  fun a => if (pa <=? a) && (a <? pa + n) then
             match aget bus (a - pa) with Some b => b | None => m a end
           else m a.

Definition mem_to_bus (pa : Z) (n : Z) (m : Z -> Z) (bus : list Z) : list Z :=
  fill (Z.to_nat n) 0 (fun i => m (pa + i)) bus.

Definition transfer (dma_idx : Z) (x : dma_channel) : M lstate unit :=
  let pa := Z.lor (Z.shiftl (page x) 16) (Z.shiftl (cur_addr x) dma_idx) in
  let n := Z.shiftl 1 dma_idx in
  match DMA_TRANSFER_OP (mode x) with
  | VERIFY => ret tt
  | WRITE =>
      if mapped pa then modify (fun s => s <| lmem := bus_to_mem pa n (lbus s) (lmem s) |>) else ret tt
  | READ =>
      if mapped pa then modify (fun s => s <| lbus := mem_to_bus pa n (lmem s) (lbus s) |>)
      else modify (fun s => s <| lbus := [255; 255] |>)
  | INVALID => ret tt
  end.

Definition dma_process_channel (dma_idx ch : Z) : M lstate unit :=
  let! x := get_chan ch in
  transfer dma_idx x ;;
  let! s := get in
  (if negb (Z.land (command (lc s)) 3 =? 3) then
     upd_chan ch (fun x => x <| cur_addr ::= fun a => u16 (a + (if DMA_ADDR_DEC (mode x) then -1 else 1)) |>)
   else ret tt) ;;
  upd_chan ch (fun x => x <| cur_count ::= fun n => u16 (n - 1) |>) ;;
  let! x := get_chan ch in
  if cur_count x =? 65535 then
    if DMA_AUTOINIT (mode x) then
      upd_chan ch (fun x => x <| cur_addr := base_addr x |> <| cur_count := base_count x |>)
    else
      upd_lc (fun c => c <| status ::= set_bit ch |> <| request ::= clr_bit ch |>
                         <| mask ::= set_bit ch |>)
  else ret tt.

(** The loop condition without [!done]. *)
Definition active (c : dma_controller) (ch : Z) (x : dma_channel) : bool :=
  HAVE_DRQ c ch || (HAVE_SRQ c ch && bool_decide (DMA_TRANSFER_MODE (mode x) = BLOCK)).

Definition can_run (c : dma_controller) (ch : Z) (x : dma_channel) : bool :=
  negb (MASKED c ch) && negb (REACHED_TC c ch) && (Z.land (command c) 4 =? 0) &&
  negb (bool_decide (DMA_TRANSFER_MODE (mode x) = CASCADE)).

Fixpoint dma_run_loop (fuel : nat) (dma_idx ch : Z) : M lstate unit :=
  match fuel with
  | O => throw OutOfFuel
  | S fuel =>
      let! s := get in
      let! x := get_chan ch in
      if active (lc s) ch x then
        if can_run (lc s) ch x then
          dma_process_channel dma_idx ch ;; dma_update_DRQ ch ;; dma_run_loop fuel dma_idx ch
        else dma_update_DRQ ch
      else ret tt
  end.

(** A block of at most 65536 cycles, one more test, and one for the end. *)
Definition run_fuel : nat := Z.to_nat 65538.

Definition dma_run_channel (dma_idx ch : Z) : M lstate unit := dma_run_loop run_fuel dma_idx ch.

(** ** The array of controllers *)

Definition on_contr {A} (i : Z) (c : M lstate A) : M dmast A := fun s =>
  match aget (dma s) i with
  | None => Fault OutOfBounds
  | Some k =>
      match c (MkL k (dma_data_bus s) (pmem s)) with
      | Ok (a, l) => Ok (a, MkDma (astore (dma s) i (lc l)) (lbus l) (lmem l))
      | Fault e => Fault e
      end
  end.

Definition dma_process : M dmast unit :=
  on_contr 0 (dma_run_channel 0 0 ;; dma_run_channel 0 1 ;; dma_run_channel 0 2 ;; dma_run_channel 0 3) ;;
  on_contr 1 (dma_run_channel 1 0 ;; dma_run_channel 1 1 ;; dma_run_channel 1 2 ;; dma_run_channel 1 3).

Definition DI (ch : Z) : Z := Z.shiftr (Z.land ch 4) 2.
Definition CI (ch : Z) : Z := Z.land ch 3.

(** Returns DMA_DACK (true) or DMA_NO_DACK and the new contents of [buf]. *)
Definition dma_pulse_DRQ (ch : Z) (buf : list Z) : M dmast (bool * list Z) :=
  let n := Z.shiftl 1 (DI ch) in
  let! ok := on_contr (DI ch) (let! s := get in
    ret (negb (MASKED (lc s) (CI ch)) &&
         negb (truth (Z.land (status (lc s)) 240) || truth (request (lc s))))) in
  if ok : bool then
    on_contr (DI ch) (
      upd_lc (fun c => c <| status ::= set_bit (CI ch + 4) |>) ;;
      modify (fun s => s <| lbus ::= fun b => take (Z.to_nat n) buf ++ drop (Z.to_nat n) b |>) ;;
      dma_run_channel (DI ch) (CI ch)) ;;
    let! s := get in
    ret (true, take (Z.to_nat n) (dma_data_bus s) ++ drop (Z.to_nat n) buf)
  else ret (false, replicate (Z.to_nat n) 255 ++ drop (Z.to_nat n) buf).

(** ** Ports *)

Inductive dma_reg :=
| RAddr (d c : Z) | RCnt (d c : Z) | RPage (d c : Z)
| RCmdStat (d : Z) | RReq (d : Z) | RMask (d : Z) | RMode (d : Z) | RClearFF (d : Z)
| RTempReset (d : Z) | RClrMask (d : Z) | RMaskAll (d : Z).

Definition dma_ports : list (Z * dma_reg) :=
  [ (0, RAddr 0 0); (2, RAddr 0 1); (4, RAddr 0 2); (6, RAddr 0 3);
    (192, RAddr 1 0); (196, RAddr 1 1); (200, RAddr 1 2); (204, RAddr 1 3);
    (1, RCnt 0 0); (3, RCnt 0 1); (5, RCnt 0 2); (7, RCnt 0 3);
    (194, RCnt 1 0); (198, RCnt 1 1); (202, RCnt 1 2); (206, RCnt 1 3);
    (135, RPage 0 0); (131, RPage 0 1); (129, RPage 0 2); (130, RPage 0 3);
    (143, RPage 1 0); (139, RPage 1 1); (137, RPage 1 2); (138, RPage 1 3);
    (8, RCmdStat 0); (9, RReq 0); (10, RMask 0); (11, RMode 0); (12, RClearFF 0);
    (13, RTempReset 0); (14, RClrMask 0); (15, RMaskAll 0);
    (208, RCmdStat 1); (210, RReq 1); (212, RMask 1); (214, RMode 1); (216, RClearFF 1);
    (218, RTempReset 1); (220, RClrMask 1); (222, RMaskAll 1) ].

Fixpoint find_port (l : list (Z * dma_reg)) (port : Z) : option dma_reg :=
  match l with
  | [] => None
  | (p, r) :: l => if p =? port then Some r else find_port l port
  end.

(** [r.byte[i]] of the little-endian union. *)
Definition get_byte (i v : Z) : Z := if i =? 0 then v mod 256 else v / 256.
Definition put_byte (i b v : Z) : Z := if i =? 0 then v - v mod 256 + b else b * 256 + v mod 256.

Definition flip_ff : M lstate unit := upd_lc (fun c => c <| ff ::= fun f => Z.lxor f 1 |>).

Definition dma_reg_read (r : dma_reg) : M dmast Z :=
  match r with
  | RAddr d c => on_contr d (let! s := get in let! x := get_chan c in
      flip_ff ;; ret (get_byte (ff (lc s)) (cur_addr x)))
  | RCnt d c => on_contr d (let! s := get in let! x := get_chan c in
      flip_ff ;; ret (get_byte (ff (lc s)) (cur_count x)))
  | RPage d c => on_contr d (let! x := get_chan c in ret (page x))
  | RCmdStat d => on_contr d (let! s := get in
      upd_lc (fun c => c <| status ::= fun v => Z.land v 240 |>) ;; ret (status (lc s)))
  | RTempReset d => on_contr d (let! s := get in ret (tmp_reg (lc s)))
  | _ => ret 255
  end.

Definition dma_io_read (port : Z) : M dmast Z :=
  let! r := (match find_port dma_ports port with Some r => dma_reg_read r | None => ret 255 end) in
  dma_process ;;
  ret r.

Definition dma_reg_write (r : dma_reg) (value : Z) : M dmast unit :=
  match r with
  | RAddr d c => on_contr d (let! s := get in
      upd_chan c (fun x => x <| base_addr ::= put_byte (ff (lc s)) value |>
                             <| cur_addr ::= put_byte (ff (lc s)) value |>) ;; flip_ff)
  | RCnt d c => on_contr d (let! s := get in
      upd_chan c (fun x => x <| base_count ::= put_byte (ff (lc s)) value |>
                             <| cur_count ::= put_byte (ff (lc s)) value |>) ;; flip_ff)
  | RPage d c => on_contr d (upd_chan c (fun x => x <| page := value |>))
  | RMask d => on_contr d (
      let ch := Z.land value 3 in
      if truth (Z.land value 4) then upd_lc (fun c => c <| mask ::= set_bit ch |>)
      else upd_lc (fun c => c <| mask ::= clr_bit ch |> <| status ::= clr_bit ch |>))
  | RMode d => on_contr d (upd_chan (Z.land value 3) (fun x => x <| mode := Z.shiftr value 2 |>))
  | RCmdStat d => on_contr d (upd_lc (fun c => c <| command := value |>))
  | RClearFF d => on_contr d (upd_lc (fun c => c <| ff := 0 |>))
  | RTempReset d => on_contr d dma_soft_reset
  | RReq d => on_contr d (
      let ch := Z.land value 3 in
      if truth (Z.land value 4) then upd_lc (fun c => c <| request ::= set_bit ch |>)
      else upd_lc (fun c => c <| request ::= clr_bit ch |>))
  | RClrMask d => on_contr d (upd_lc (fun c => c <| mask := 0 |> <| status ::= fun v => Z.land v 240 |>))
  | RMaskAll d => on_contr d (upd_lc (fun c => c <| mask := value |> <| status ::= fun v => Z.land v 240 |>))
  end.

Definition dma_io_write (port value : Z) : M dmast unit :=
  (match find_port dma_ports port with Some r => dma_reg_write r value | None => ret tt end) ;;
  dma_process.

Definition dma_reset : M dmast unit := on_contr 0 dma_soft_reset ;; on_contr 1 dma_soft_reset.

End dma.
