(* ===== verification/DmaSpec.v ===== *)
(** * The DMA controllers: transfers, termination, register access *)

From stdpp Require Import base numbers list.
From Stdlib Require Import ZArith Lia.
From S2P Require Import Prelude Dma.

Local Open Scope Z_scope.

(** ** Bits of the status, mask and request registers *)

Lemma test_set n k r : 0 <= n < 8 -> 0 <= k < 8 ->
  truth (Z.land (set_bit n r) (bit k)) = (k =? n) || truth (Z.land r (bit k)).
Proof. intros Hn Hk. unfold bit, set_bit. rewrite !land_shiftl_bit by lia. by apply testbit_set. Qed.

Lemma test_clr n k r : 0 <= n < 8 -> 0 <= k < 8 ->
  truth (Z.land (clr_bit n r) (bit k)) = negb (k =? n) && truth (Z.land r (bit k)).
Proof. intros Hn Hk. unfold bit, clr_bit. rewrite !land_shiftl_bit by lia. by apply testbit_clear. Qed.

Section loops.
Context (mapped : Z -> bool) (idx ch : Z).
Hypothesis Hch : 0 <= ch < 4.

Lemma wp_get_chan x (s : lstate) (Q : dma_channel -> lstate -> Prop) :
  aget (chans (lc s)) ch = Some x -> Q x s -> wp (get_chan ch) s Q.
Proof. unfold wp, get_chan. intros ->. done. Qed.

Lemma wp_upd_chan x f (s : lstate) (Q : unit -> lstate -> Prop) :
  aget (chans (lc s)) ch = Some x ->
  Q tt (s <| lc := (lc s) <| chans := astore (chans (lc s)) ch (f x) |> |>) -> wp (upd_chan ch f) s Q.
Proof. unfold wp, upd_chan. intros ->. done. Qed.

(** The channel after one cycle, before the terminal count is handled. *)
Definition stepped (cmd : Z) (x : dma_channel) : dma_channel :=
  (if negb (Z.land cmd 3 =? 3)
   then x <| cur_addr ::= fun a => u16 (a + (if DMA_ADDR_DEC (mode x) then -1 else 1)) |> else x)
    <| cur_count ::= fun n => u16 (n - 1) |>.

Lemma stepped_mode cmd x : mode (stepped cmd x) = mode x.
Proof. unfold stepped. by destruct (negb _). Qed.

Lemma stepped_count cmd x : cur_count (stepped cmd x) = u16 (cur_count x - 1).
Proof. unfold stepped. by destruct (negb _). Qed.

Definition store_chan (c : dma_controller) (x : dma_channel) : dma_controller :=
  c <| chans := astore (chans c) ch x |>.

Lemma store_chan_twice c x y : store_chan (store_chan c x) y = store_chan c y.
Proof. unfold store_chan. simpl. by rewrite astore_astore. Qed.

Definition at_tc (c : dma_controller) : dma_controller :=
  c <| status ::= set_bit ch |> <| request ::= clr_bit ch |> <| mask ::= set_bit ch |>.

(** The controller after [dma_process_channel]. *)
Definition processed (c : dma_controller) (x : dma_channel) : dma_controller :=
  let x1 := stepped (command c) x in
  if cur_count x1 =? 65535 then
    if DMA_AUTOINIT (mode x) then store_chan c (x1 <| cur_addr := base_addr x1 |> <| cur_count := base_count x1 |>)
    else at_tc (store_chan c x1)
  else store_chan c x1.

(** The transfer changes the bus and memory only. *)
Lemma wp_transfer x s (Q : unit -> lstate -> Prop) :
  (forall b m, transfer mapped idx x s = Ok (tt, MkL (lc s) b m) -> Q tt (MkL (lc s) b m)) ->
  wp (transfer mapped idx x) s Q.
Proof.
  intros HQ. unfold wp. unfold transfer in *. destruct s as [c b m]. simpl in *.
  destruct (DMA_TRANSFER_OP (mode x)); try (destruct (mapped _)); apply HQ; reflexivity.
Qed.

Lemma wp_process x s (Q : unit -> lstate -> Prop) :
  aget (chans (lc s)) ch = Some x ->
  (forall b m, transfer mapped idx x s = Ok (tt, MkL (lc s) b m) ->
     Q tt (MkL (processed (lc s) x) b m)) ->
  wp (dma_process_channel mapped idx ch) s Q.
Proof.
  intros Hx HQ. pose proof (aget_Some_lt _ _ _ Hx) as Hlt. unfold dma_process_channel.
  wp_step. eapply wp_get_chan; [done|]. wp_step. apply wp_transfer. intros b m Et.
  specialize (HQ b m Et). clear Et. unfold processed in HQ.
  assert (forall x1, x1 = stepped (command (lc s)) x ->
    wp (let! x := get_chan ch in
        if cur_count x =? 65535 then
          if DMA_AUTOINIT (mode x) then
            upd_chan ch (fun x => x <| cur_addr := base_addr x |> <| cur_count := base_count x |>)
          else upd_lc (fun c => c <| status ::= set_bit ch |> <| request ::= clr_bit ch |>
                                  <| mask ::= set_bit ch |>)
        else ret tt) (MkL (store_chan (lc s) x1) b m) Q) as Hrest.
  { intros x1 ->. wp_step. eapply wp_get_chan; [simpl; by rewrite aget_astore, Z.eqb_refl|].
    rewrite stepped_mode. destruct (_ =? 65535); [destruct (DMA_AUTOINIT _)|].
    - eapply wp_upd_chan; [simpl; by rewrite aget_astore, Z.eqb_refl|].
      simpl. rewrite astore_astore. exact HQ.
    - apply wp_modify. exact HQ.
    - apply wp_ret. exact HQ. }
  wp_step. apply wp_get. wp_step. simpl lc. unfold stepped in Hrest.
  destruct (negb (Z.land (command (lc s)) 3 =? 3)).
  - eapply wp_upd_chan; [exact Hx|]. wp_step.
    eapply wp_upd_chan; [simpl; by rewrite aget_astore, Z.eqb_refl|].
    simpl. rewrite astore_astore. by apply Hrest.
  - wp_step. wp_step. eapply wp_upd_chan; [exact Hx|]. by apply Hrest.
Qed.

Lemma processed_chan c x : aget (chans c) ch = Some x ->
  exists x', aget (chans (processed c x)) ch = Some x' /\ mode x' = mode x.
Proof.
  intros Hx. pose proof (aget_Some_lt _ _ _ Hx) as Hlt. unfold processed.
  destruct (_ =? 65535); [destruct (DMA_AUTOINIT _)|]; eexists;
    (split; [simpl; rewrite aget_astore, Z.eqb_refl by done; reflexivity|]); simpl;
    apply stepped_mode.
Qed.

(** [dma_update_DRQ] when the mode is known. *)
Lemma wp_update_single x s (Q : unit -> lstate -> Prop) :
  aget (chans (lc s)) ch = Some x -> DMA_TRANSFER_MODE (mode x) <> BLOCK ->
  Q tt (s <| lc ::= fun c => c <| status ::= clr_bit (ch + 4) |> |>) ->
  wp (dma_update_DRQ ch) s Q.
Proof.
  intros Hx Hm HQ. unfold dma_update_DRQ. wp_step. eapply wp_get_chan; [done|].
  destruct (DMA_TRANSFER_MODE (mode x)); try done; by apply wp_modify.
Qed.

Lemma wp_update_block x s (Q : unit -> lstate -> Prop) :
  aget (chans (lc s)) ch = Some x -> DMA_TRANSFER_MODE (mode x) = BLOCK ->
  Q tt (if REACHED_TC (lc s) ch then s <| lc ::= fun c => c <| status ::= clr_bit (ch + 4) |> |> else s) ->
  wp (dma_update_DRQ ch) s Q.
Proof.
  intros Hx Hm HQ. unfold dma_update_DRQ. wp_step. eapply wp_get_chan; [done|]. rewrite Hm.
  wp_step. apply wp_get. destruct (REACHED_TC _ _); [by apply wp_modify|by apply wp_ret].
Qed.

(** A channel that has no request does nothing. *)
Lemma run_loop_inactive fuel x s :
  aget (chans (lc s)) ch = Some x -> active (lc s) ch x = false ->
  dma_run_loop mapped (S fuel) idx ch s = Ok (tt, s).
Proof.
  intros Hx Ha. cbn [dma_run_loop]. unfold bind, get, get_chan. rewrite Hx, Ha. done.
Qed.

(** Every mode but block: at most one cycle. *)
Lemma wp_run_single fuel x s (Q : unit -> lstate -> Prop) :
  aget (chans (lc s)) ch = Some x -> DMA_TRANSFER_MODE (mode x) <> BLOCK -> (2 <= fuel)%nat ->
  (active (lc s) ch x = false -> Q tt s) ->
  (active (lc s) ch x = true -> can_run (lc s) ch x = false ->
     Q tt (s <| lc ::= fun c => c <| status ::= clr_bit (ch + 4) |> |>)) ->
  (active (lc s) ch x = true -> can_run (lc s) ch x = true ->
     forall b m, transfer mapped idx x s = Ok (tt, MkL (lc s) b m) ->
     Q tt (MkL ((processed (lc s) x) <| status ::= clr_bit (ch + 4) |>) b m)) ->
  wp (dma_run_loop mapped fuel idx ch) s Q.
Proof.
  intros Hx Hm Hf H1 H2 H3. destruct fuel as [|[|fuel]]; [lia|lia|].
  destruct (active (lc s) ch x) eqn:Ha.
  2: { unfold wp. by rewrite (run_loop_inactive _ x) by done; apply H1. }
  remember (S fuel) as f1 eqn:Ef. cbn [dma_run_loop]. wp_step. apply wp_get. wp_step.
  eapply wp_get_chan; [done|]. rewrite Ha. destruct (can_run (lc s) ch x) eqn:Hc.
  - wp_step. apply (wp_process x); [done|]. intros b m Et.
    destruct (processed_chan (lc s) x Hx) as (x' & Hx' & Em).
    wp_step. apply (wp_update_single x'); [done|by rewrite Em|]. subst f1.
    unfold wp. rewrite (run_loop_inactive _ x').
    + by apply H3.
    + done.
    + unfold active, HAVE_DRQ. simpl. rewrite test_clr by lia. rewrite Z.eqb_refl. simpl.
      rewrite bool_decide_eq_false_2 by (by rewrite Em). apply andb_false_r.
  - apply (wp_update_single x); auto.
Qed.

Lemma can_run_tc c x : can_run c ch x = true -> REACHED_TC c ch = false.
Proof. unfold can_run. rewrite !andb_true_iff. intros [[[_ H] _] _]. by apply negb_true_iff. Qed.

(** The channel after [k] cycles. *)
Definition after_cycles (cmd : Z) (k : nat) (x : dma_channel) : dma_channel := Nat.iter k (stepped cmd) x.

Lemma after_cycles_succ cmd k x : after_cycles cmd (S k) x = after_cycles cmd k (stepped cmd x).
Proof. apply Nat.iter_succ_r. Qed.

(** A block transfer runs to its terminal count. *)
Lemma wp_run_block n : forall fuel x s (Q : unit -> lstate -> Prop),
  aget (chans (lc s)) ch = Some x -> DMA_TRANSFER_MODE (mode x) = BLOCK ->
  DMA_AUTOINIT (mode x) = false -> cur_count x = Z.of_nat n -> Z.of_nat n < 65536 ->
  active (lc s) ch x = true -> can_run (lc s) ch x = true -> (n + 2 <= fuel)%nat ->
  (forall b m, Q tt (MkL ((at_tc (store_chan (lc s) (after_cycles (command (lc s)) (S n) x)))
      <| status ::= clr_bit (ch + 4) |>) b m)) ->
  wp (dma_run_loop mapped fuel idx ch) s Q.
Proof.
  induction n as [|n IH]; intros fuel x s Q Hx Hm Hai Hcnt Hmax Ha Hc Hf HQ;
    (destruct fuel as [|fuel]; [lia|]); cbn [dma_run_loop]; wp_step; apply wp_get; wp_step;
    (eapply wp_get_chan; [done|]); rewrite Ha, Hc; wp_step; (apply (wp_process x); [done|]);
    intros b m _; destruct (processed_chan (lc s) x Hx) as (x' & Hx' & Em);
    pose proof (aget_Some_lt _ _ _ Hx) as Hlt.
  - assert (processed (lc s) x = at_tc (store_chan (lc s) (stepped (command (lc s)) x))) as Ep.
    { unfold processed. rewrite stepped_count, Hcnt, Hai. done. }
    rewrite Ep in *. wp_step. apply (wp_update_block x'); [done|by rewrite Em|].
    assert (REACHED_TC (at_tc (store_chan (lc s) (stepped (command (lc s)) x))) ch = true) as Htc.
    { unfold REACHED_TC. simpl. rewrite test_set by lia. by rewrite Z.eqb_refl. }
    simpl lc. rewrite Htc. destruct fuel as [|fuel]; [lia|]. unfold wp.
    rewrite (run_loop_inactive _ x'); [by apply HQ|done|].
    unfold active, HAVE_DRQ, HAVE_SRQ. simpl. rewrite !test_clr by lia.
    by rewrite !Z.eqb_refl.
  - assert (processed (lc s) x = store_chan (lc s) (stepped (command (lc s)) x)) as Ep.
    { unfold processed. rewrite stepped_count, Hcnt, u16_small by lia.
      by rewrite (proj2 (Z.eqb_neq _ 65535)) by lia. }
    rewrite Ep in *. assert (x' = stepped (command (lc s)) x) as ->.
    { simpl in Hx'. rewrite aget_astore, Z.eqb_refl in Hx' by done. by injection Hx'. }
    wp_step. apply (wp_update_block (stepped (command (lc s)) x)); [done|by rewrite stepped_mode|].
    change (REACHED_TC (lc (MkL (store_chan (lc s) (stepped (command (lc s)) x)) b m)) ch)
      with (REACHED_TC (lc s) ch). rewrite (can_run_tc _ _ Hc).
    apply (IH fuel (stepped (command (lc s)) x)); try done.
    + by rewrite stepped_mode.
    + by rewrite stepped_mode.
    + rewrite stepped_count, Hcnt, u16_small; lia.
    + lia.
    + unfold active in *. rewrite stepped_mode. done.
    + unfold can_run in *. rewrite stepped_mode. done.
    + lia.
    + intros b' m'. specialize (HQ b' m'). rewrite after_cycles_succ in HQ.
      cbn [lc]. rewrite store_chan_twice. exact HQ.
Qed.

(** With autoinit a running block transfer never ends. *)
Lemma run_block_autoinit_diverges fuel : forall x s,
  aget (chans (lc s)) ch = Some x -> DMA_TRANSFER_MODE (mode x) = BLOCK ->
  DMA_AUTOINIT (mode x) = true -> active (lc s) ch x = true -> can_run (lc s) ch x = true ->
  dma_run_loop mapped fuel idx ch s = Fault OutOfFuel.
Proof.
  induction fuel as [|fuel IH]; intros x s Hx Hm Hai Ha Hc; [done|]. cbn [dma_run_loop].
  assert (wp (dma_process_channel mapped idx ch) s (fun _ s' => exists x', mode x' = mode x /\
    aget (chans (lc s')) ch = Some x' /\ exists l, lc s' = (lc s) <| chans := l |>)) as Hp.
  { pose proof (aget_Some_lt _ _ _ Hx) as Hlt. apply (wp_process x); [done|]. intros b m _.
    destruct (processed_chan (lc s) x Hx) as (x' & Hx' & Em). exists x'. split; [done|].
    split; [done|]. unfold processed. rewrite Hai. destruct (_ =? 65535); eexists; reflexivity. }
  destruct (wp_inv _ _ _ Hp) as ([] & s1 & E1 & x1 & Em & Hx1 & l & El).
  assert (wp (dma_update_DRQ ch) s1 (fun _ s2 => s2 = s1)) as Hu.
  { apply (wp_update_block x1); [done|by rewrite Em|]. rewrite El.
    change (REACHED_TC ((lc s) <| chans := l |>) ch) with (REACHED_TC (lc s) ch).
    by rewrite (can_run_tc _ _ Hc). }
  destruct (wp_inv _ _ _ Hu) as ([] & s2 & E2 & ->).
  unfold bind, get, get_chan. rewrite Hx, Ha, Hc, E1, E2. apply (IH x1); try done.
  - by rewrite Em.
  - by rewrite Em.
  - rewrite El. unfold active in *. rewrite Em. exact Ha.
  - rewrite El. unfold can_run in *. rewrite Em. exact Hc.
Qed.

End loops.

(** ** Properties *)

(** A controller with four channels whose counters are 16 bits wide. *)
Definition contr_ok (c : dma_controller) : Prop :=
  length (chans c) = 4%nat /\ forall i x, aget (chans c) i = Some x -> 0 <= cur_count x < 65536.

(** C39: [dma_run_channel] terminates, within 65538 iterations of its loop, for
    every channel that is not programmed for block mode with autoinit. *)
Theorem dma_run_channel_terminates mapped idx ch x s :
  0 <= ch < 4 -> contr_ok (lc s) -> aget (chans (lc s)) ch = Some x ->
  DMA_TRANSFER_MODE (mode x) <> BLOCK \/ DMA_AUTOINIT (mode x) = false ->
  exists s', dma_run_channel mapped idx ch s = Ok (tt, s').
Proof.
  intros Hch [_ Hok] Hx Hm. pose proof (Hok _ _ Hx) as Hc. unfold dma_run_channel, run_fuel.
  set (fuel := Z.to_nat 65538). assert (Z.of_nat fuel = 65538) as Hfuel by (unfold fuel; lia).
  clearbody fuel.
  assert (wp (dma_run_loop mapped fuel idx ch) s (fun _ _ => True)) as Hw.
  { destruct (decide (DMA_TRANSFER_MODE (mode x) = BLOCK)) as [Hb|Hb].
    - destruct Hm as [?|Hai]; [done|].
      destruct (active (lc s) ch x) eqn:Ha; [destruct (can_run (lc s) ch x) eqn:Hr|].
      + apply (wp_run_block mapped idx ch Hch (Z.to_nat (cur_count x)) fuel x); try done; lia.
      + destruct fuel as [|fuel]; [lia|]. cbn [dma_run_loop]. wp_step. apply wp_get. wp_step.
        eapply wp_get_chan; [done|]. rewrite Ha, Hr. by apply (wp_update_block ch x).
      + destruct fuel as [|fuel]; [lia|]. unfold wp. by rewrite (run_loop_inactive _ _ _ _ x).
    - apply (wp_run_single mapped idx ch Hch fuel x); try done. lia. }
  destruct (wp_inv _ _ _ Hw) as ([] & s' & E & _). eauto.
Qed.

(** Channel 1: address 0x1234, count 2, page 3, the given mode. *)
Definition ex_chan (m : Z) : dma_channel := MkChan 4660 2 4660 2 3 m.
Definition no_chan : dma_channel := MkChan 0 0 0 0 0 0.
Definition ex_contr (m : Z) : dma_controller :=
  MkContr [no_chan; ex_chan m; no_chan; no_chan] 0 0 0 0 0 0.
Definition ex_dma (m : Z) : dmast := MkDma [ex_contr m; ex_contr m] [0; 0] (fun _ => 0).

Lemma ex_contr_ok m : contr_ok (ex_contr m).
Proof.
  split; [done|]. intros i x. unfold aget. destruct (i <? 0); [done|].
  destruct (Z.to_nat i) as [|[|[|[|n]]]]; simpl; try (injection 1 as <-; simpl; lia).
  by destruct n.
Qed.

(** Mode 0x21: block, write to memory; DRQ of channel 1 set. *)
Definition ex_block : lstate := MkL ((ex_contr 33) <| status := 32 |>) [170; 0] (fun _ => 0).

Lemma dma_run_channel_terminates_witness :
  exists s', dma_run_channel (fun _ => true) 0 1 ex_block = Ok (tt, s') /\ lmem s' (196608 + 4662) = 170.
Proof.
  destruct (dma_run_channel_terminates (fun _ => true) 0 1 (ex_chan 33) ex_block) as [s' E];
    [lia|split; [reflexivity|exact (proj2 (ex_contr_ok 33))]|reflexivity|right; reflexivity|].
  exists s'. split; [exact E|].
  apply (outcome_eq (fun _ s => lmem s (196608 + 4662)) _ _ _ _ _ E). vm_compute. reflexivity.
Defined.

(** A block transfer without autoinit performs exactly [cur_count + 1]
    cycles: it ends with the terminal-count bit set, the channel masked, its
    software and hardware requests cleared and the address and counter advanced
    by that many steps. *)
Theorem dma_block_transfer_correct mapped idx ch x s :
  0 <= ch < 4 -> aget (chans (lc s)) ch = Some x -> 0 <= cur_count x < 65536 ->
  DMA_TRANSFER_MODE (mode x) = BLOCK -> DMA_AUTOINIT (mode x) = false ->
  active (lc s) ch x = true -> can_run (lc s) ch x = true ->
  exists s', dma_run_channel mapped idx ch s = Ok (tt, s') /\
    REACHED_TC (lc s') ch = true /\ MASKED (lc s') ch = true /\
    HAVE_DRQ (lc s') ch = false /\ HAVE_SRQ (lc s') ch = false /\
    aget (chans (lc s')) ch = Some (after_cycles (command (lc s)) (S (Z.to_nat (cur_count x))) x).
Proof.
  intros Hch Hx Hc Hb Hai Ha Hr. pose proof (aget_Some_lt _ _ _ Hx) as Hlt.
  assert (wp (dma_run_channel mapped idx ch) s (fun _ s' =>
    REACHED_TC (lc s') ch = true /\ MASKED (lc s') ch = true /\
    HAVE_DRQ (lc s') ch = false /\ HAVE_SRQ (lc s') ch = false /\
    aget (chans (lc s')) ch = Some (after_cycles (command (lc s)) (S (Z.to_nat (cur_count x))) x))) as Hw.
  { unfold dma_run_channel, run_fuel.
    apply (wp_run_block mapped idx ch Hch (Z.to_nat (cur_count x)) _ x); try done; try lia.
    intros b m. unfold REACHED_TC, MASKED, HAVE_DRQ, HAVE_SRQ.
    cbn [lc at_tc store_chan upd status mask request chans].
    rewrite !test_clr, !test_set, !Z.eqb_refl by lia.
    rewrite (proj2 (Z.eqb_neq ch (ch + 4))) by lia. split_and!; try done.
    unfold at_tc, store_chan. simpl. rewrite aget_astore by done. by rewrite Z.eqb_refl. }
  destruct (wp_inv _ _ _ Hw) as ([] & s' & E & H). eauto.
Qed.

Lemma dma_block_transfer_correct_witness :
  exists s', dma_run_channel (fun _ => true) 0 1 ex_block = Ok (tt, s') /\
    aget (chans (lc s')) 1 = Some (MkChan 4660 2 4663 65535 3 33).
Proof.
  destruct (dma_block_transfer_correct (fun _ => true) 0 1 (ex_chan 33) ex_block)
    as (s' & E & _ & _ & _ & _ & H);
    [lia|reflexivity|simpl; lia|reflexivity|reflexivity|reflexivity|reflexivity|].
  exists s'. split; [exact E|]. rewrite H. reflexivity.
Defined.

(** Block mode with autoinit hangs the emulator: once such a channel has a
    request and may run, the loop of [dma_run_channel] never ends, whatever the
    number of iterations, since the terminal count that would end it is never
    recorded. *)
Theorem dma_block_autoinit_never_ends mapped idx ch x s fuel :
  0 <= ch < 4 -> aget (chans (lc s)) ch = Some x ->
  DMA_TRANSFER_MODE (mode x) = BLOCK -> DMA_AUTOINIT (mode x) = true ->
  active (lc s) ch x = true -> can_run (lc s) ch x = true ->
  dma_run_loop mapped fuel idx ch s = Fault OutOfFuel.
Proof. intros Hch. by apply run_block_autoinit_diverges. Qed.

(** Mode 0x25: block, autoinit, write. *)
Lemma dma_block_autoinit_never_ends_witness :
  dma_run_loop (fun _ => true) 1000 0 1 (MkL ((ex_contr 37) <| status := 32 |>) [170; 0] (fun _ => 0)) =
  Fault OutOfFuel.
Proof. apply (dma_block_autoinit_never_ends (fun _ => true) 0 1 (ex_chan 37)); try reflexivity. lia. Defined.

(** ** Register access *)

(** No channel of the controller has a request. *)
Definition idle_contr (c : dma_controller) : Prop :=
  length (chans c) = 4%nat /\ Z.land (status c) 240 = 0 /\ request c = 0.

Definition idle (s : dmast) : Prop :=
  length (dma s) = 2%nat /\ forall d c, aget (dma s) d = Some c -> idle_contr c.

Lemma idle_active c ch x : idle_contr c -> 0 <= ch < 4 -> active c ch x = false.
Proof.
  intros (_ & Hs & Hr) Hch. unfold active, HAVE_DRQ, HAVE_SRQ. rewrite Hr, Z.land_0_l. simpl.
  rewrite orb_false_r. unfold bit. rewrite land_shiftl_bit by lia.
  assert (Z.testbit (Z.land (status c) 240) (ch + 4) = false) as H by (rewrite Hs; apply Z.bits_0).
  rewrite Z.land_spec in H. apply andb_false_iff in H as [H|H]; [done|exfalso].
  assert (ch = 0 \/ ch = 1 \/ ch = 2 \/ ch = 3) as Hc by lia.
  destruct Hc as [-> | [-> | [-> | ->]]]; discriminate H.
Qed.

Lemma run_channel_idle mapped idx ch s :
  idle_contr (lc s) -> 0 <= ch < 4 -> dma_run_channel mapped idx ch s = Ok (tt, s).
Proof.
  intros Hi Hch. destruct (aget_lt (chans (lc s)) ch) as [x Hx]; [destruct Hi; lia|].
  unfold dma_run_channel, run_fuel. replace (Z.to_nat 65538) with (S (Z.to_nat 65537)) by lia.
  apply (run_loop_inactive _ _ _ _ x); [done|]. by apply idle_active.
Qed.

Lemma wp_on_contr {A} d (c : M lstate A) k (s : dmast) (Q : A -> dmast -> Prop) :
  aget (dma s) d = Some k ->
  wp c (MkL k (dma_data_bus s) (pmem s)) (fun a l => Q a (MkDma (astore (dma s) d (lc l)) (lbus l) (lmem l))) ->
  wp (on_contr d c) s Q.
Proof. unfold wp, on_contr. intros ->. by destruct (c _) as [[a l]|e]. Qed.

Lemma dma_process_idle mapped s : idle s -> dma_process mapped s = Ok (tt, s).
Proof.
  intros [Hl Hi].
  assert (forall d k, aget (dma s) d = Some k ->
    on_contr d (dma_run_channel mapped d 0 ;; dma_run_channel mapped d 1 ;;
      dma_run_channel mapped d 2 ;; dma_run_channel mapped d 3) s = Ok (tt, s)) as H.
  { intros d k Hk. pose proof (Hi _ _ Hk) as Hic. unfold on_contr. rewrite Hk. unfold bind.
    rewrite !run_channel_idle by (done || lia). simpl. destruct s as [l b m]. simpl in *. do 3 f_equal.
    apply aget_ext. intros i. rewrite aget_astore by (by eapply aget_Some_lt).
    destruct (Z.eqb_spec i d) as [->|]; done. }
  destruct (aget_lt (dma s) 0) as [k0 H0]; [lia|]. destruct (aget_lt (dma s) 1) as [k1 H1]; [lia|].
  unfold dma_process. unfold bind at 1. rewrite (H 0 k0 H0). by apply (H 1 k1).
Qed.

Lemma wp_io_write mapped p r v s (Q : unit -> dmast -> Prop) :
  find_port dma_ports p = Some r ->
  wp (dma_reg_write r v) s (fun _ s' => idle s' /\ Q tt s') -> wp (dma_io_write mapped p v) s Q.
Proof.
  intros Hp Hw. unfold dma_io_write. rewrite Hp. wp_step. eapply wp_mono; [exact Hw|].
  intros [] s' [Hi HQ]. unfold wp. by rewrite dma_process_idle.
Qed.

Lemma wp_io_read mapped p r s (Q : Z -> dmast -> Prop) :
  find_port dma_ports p = Some r ->
  wp (dma_reg_read r) s (fun v s' => idle s' /\ Q v s') -> wp (dma_io_read mapped p) s Q.
Proof.
  intros Hp Hw. unfold dma_io_read. rewrite Hp. wp_step. eapply wp_mono; [exact Hw|].
  intros v s' [Hi HQ]. unfold wp, bind. by rewrite dma_process_idle.
Qed.

Lemma idle_store s d k b m :
  idle s -> idle_contr k -> 0 <= d < 2 -> idle (MkDma (astore (dma s) d k) b m).
Proof.
  intros [Hl Hi] Hk Hd. split; simpl; [by rewrite astore_length|]. intros j c.
  rewrite aget_astore by lia. destruct (Z.eqb_spec j d) as [->|]; [by injection 1 as <-|apply Hi].
Qed.

(** Program a 16-bit register as drivers do, and read it back. *)
Definition dma_program (mapped : Z -> bool) (clear p lo hi : Z) : M dmast unit :=
  dma_io_write mapped clear 0 ;; dma_io_write mapped p lo ;; dma_io_write mapped p hi.

Definition dma_readback (mapped : Z -> bool) (clear p : Z) : M dmast (Z * Z) :=
  dma_io_write mapped clear 0 ;;
  let! a := dma_io_read mapped p in
  let! b := dma_io_read mapped p in
  ret (a, b).

Lemma put_bytes v lo hi : 0 <= lo < 256 -> 0 <= hi < 256 ->
  put_byte 1 hi (put_byte 0 lo v) = hi * 256 + lo.
Proof.
  intros Hl Hh. unfold put_byte. simpl. f_equal.
  replace (v - v mod 256 + lo) with (lo + (v / 256) * 256) by (pose proof (Z.div_mod v 256); lia).
  rewrite Z.mod_add by lia. apply Z.mod_small. lia.
Qed.

Lemma get_bytes lo hi : 0 <= lo < 256 -> 0 <= hi < 256 ->
  get_byte 0 (hi * 256 + lo) = lo /\ get_byte 1 (hi * 256 + lo) = hi.
Proof.
  intros Hl Hh. unfold get_byte. simpl. split.
  - rewrite Z.add_comm, Z.mod_add by lia. apply Z.mod_small. lia.
  - rewrite Z.div_add_l by lia. rewrite Z.div_small by lia. lia.
Qed.

Section roundtrip.
Context (mapped : Z -> bool) (clear p d c : Z) (is_cnt : bool).
Hypothesis Hclear : find_port dma_ports clear = Some (RClearFF d).
Hypothesis Hport : find_port dma_ports p = Some (if is_cnt then RCnt d c else RAddr d c).
Hypothesis Hd : 0 <= d < 2.
Hypothesis Hc : 0 <= c < 4.

Definition reg_of (x : dma_channel) : Z := if is_cnt then cur_count x else cur_addr x.
Definition base_of (x : dma_channel) : Z := if is_cnt then base_count x else base_addr x.

(** The register of channel [c] and the flip-flop of controller [d]. *)
Definition holds (s : dmast) (f v b : Z) : Prop :=
  idle s /\ exists k x, aget (dma s) d = Some k /\ aget (chans k) c = Some x /\
    ff k = f /\ reg_of x = v /\ base_of x = b.

Lemma wp_clear s v b (Q : unit -> dmast -> Prop) f :
  holds s f v b -> (forall s', holds s' 0 v b -> Q tt s') -> wp (dma_io_write mapped clear 0) s Q.
Proof.
  intros (Hi & k & x & Hk & Hx & Hf & Hv & Hb) HQ. pose proof Hi as [Hl Hall].
  apply (wp_io_write _ _ _ _ _ _ Hclear). apply (wp_on_contr _ _ k); [done|]. apply wp_modify. simpl.
  assert (idle (MkDma (astore (dma s) d (k <| ff := 0 |>)) (dma_data_bus s) (pmem s))) as Hi'
    by (apply idle_store; [done|apply (Hall d k Hk)|done]).
  split; [exact Hi'|]. apply HQ. split; [exact Hi'|]. exists (k <| ff := 0 |>), x.
  simpl. rewrite aget_astore, Z.eqb_refl by lia. done.
Qed.

Lemma wp_write_byte s f v b w (Q : unit -> dmast -> Prop) :
  holds s f v b -> (forall s', holds s' (Z.lxor f 1) (put_byte f w v) (put_byte f w b) -> Q tt s') ->
  wp (dma_io_write mapped p w) s Q.
Proof.
  intros (Hi & k & x & Hk & Hx & Hf & Hv & Hb) HQ. pose proof Hi as [Hl Hall].
  pose proof (Hall d k Hk) as (Hl4 & Hst & Hrq).
  assert (forall g, wp (let! s := get in upd_chan c (g (ff (lc s))) ;; flip_ff)
    (MkL k (dma_data_bus s) (pmem s))
    (fun _ l => l = MkL (k <| chans := astore (chans k) c (g f x) |> <| ff := Z.lxor f 1 |>)
                   (dma_data_bus s) (pmem s))) as Hw.
  { intros g. wp_step. apply wp_get. wp_step. apply (wp_upd_chan c x); [done|].
    apply wp_modify. simpl. by rewrite Hf. }
  assert (forall x', reg_of x' = put_byte f w v -> base_of x' = put_byte f w b ->
    let s' := MkDma (astore (dma s) d (k <| chans := astore (chans k) c x' |> <| ff := Z.lxor f 1 |>))
      (dma_data_bus s) (pmem s) in idle s' /\ Q tt s') as Hfin.
  { intros x' E1 E2 s'. assert (idle s') as Hi'.
    { apply idle_store; [done| |done]. split; [simpl; by rewrite astore_length|done]. }
    split; [done|]. apply HQ. split; [done|]. eexists _, x'. unfold s'. simpl.
    rewrite aget_astore, Z.eqb_refl by lia. split; [reflexivity|]. simpl.
    rewrite aget_astore, Z.eqb_refl by lia. done. }
  apply (wp_io_write _ _ _ _ _ _ Hport). unfold reg_of, base_of in *. destruct is_cnt.
  - apply (wp_on_contr _ _ k); [done|]. eapply wp_mono; [apply (Hw (fun f x => x
      <| base_count ::= put_byte f w |> <| cur_count ::= put_byte f w |>))|].
    intros [] l ->. apply Hfin; simpl; congruence.
  - apply (wp_on_contr _ _ k); [done|]. eapply wp_mono; [apply (Hw (fun f x => x
      <| base_addr ::= put_byte f w |> <| cur_addr ::= put_byte f w |>))|].
    intros [] l ->. apply Hfin; simpl; congruence.
Qed.

Lemma wp_read_byte s f v b (Q : Z -> dmast -> Prop) :
  holds s f v b -> (forall s', holds s' (Z.lxor f 1) v b -> Q (get_byte f v) s') ->
  wp (dma_io_read mapped p) s Q.
Proof.
  intros (Hi & k & x & Hk & Hx & Hf & Hv & Hb) HQ. pose proof Hi as [Hl Hall].
  set (s' := MkDma (astore (dma s) d (k <| ff := Z.lxor f 1 |>)) (dma_data_bus s) (pmem s)).
  assert (idle s' /\ Q (get_byte f v) s') as Hfin.
  { assert (idle s') as Hi' by (apply idle_store; [done|apply (Hall d k Hk)|done]).
    split; [done|]. apply HQ. split; [done|]. exists (k <| ff := Z.lxor f 1 |>), x. simpl.
    rewrite aget_astore, Z.eqb_refl by lia. done. }
  apply (wp_io_read _ _ _ _ _ Hport). unfold reg_of in Hv. destruct is_cnt.
  all: apply (wp_on_contr _ _ k); [done|]; wp_step; apply wp_get; wp_step;
    apply (wp_get_chan c x); [done|]; wp_step; apply wp_modify; wp_step; simpl; rewrite Hf, Hv; exact Hfin.
Qed.

End roundtrip.

(** The byte flip-flop protocol.  On an idle controller, clearing the
    flip-flop and writing the low and high byte of an address or count register
    loads both the base and the current register with the 16-bit value, and
    clearing the flip-flop and reading twice returns the two bytes, for all eight
    channels. *)
Theorem dma_register_roundtrip mapped clear p d c (is_cnt : bool) lo hi s :
  find_port dma_ports clear = Some (RClearFF d) ->
  find_port dma_ports p = Some (if is_cnt then RCnt d c else RAddr d c) ->
  0 <= d < 2 -> 0 <= c < 4 -> 0 <= lo < 256 -> 0 <= hi < 256 -> idle s ->
  exists s', (dma_program mapped clear p lo hi ;; dma_readback mapped clear p) s = Ok ((lo, hi), s') /\
    holds d c is_cnt s' 0 (hi * 256 + lo) (hi * 256 + lo).
Proof.
  intros Hcl Hp Hd Hc Hlo Hhi Hi.
  destruct (wp_inv (dma_program mapped clear p lo hi ;; dma_readback mapped clear p) s
    (fun r s' => r = (lo, hi) /\ holds d c is_cnt s' 0 (hi * 256 + lo) (hi * 256 + lo)))
    as (r & s' & E & -> & H); [|by eauto].
  pose proof Hi as [Hl Hall]. destruct (aget_lt (dma s) d) as [k Hk]; [lia|].
  destruct (aget_lt (chans k) c) as [x Hx]; [destruct (Hall d k Hk); lia|].
  assert (holds d c is_cnt s (ff k) (reg_of is_cnt x) (base_of is_cnt x)) as H0
    by (split; [done|]; exists k, x; done).
  unfold dma_program, dma_readback. wp_step. wp_step.
  eapply (wp_clear mapped clear d c is_cnt); try done. intros s1 H1. wp_step.
  eapply (wp_write_byte mapped p d c is_cnt); try done. intros s2 H2.
  eapply (wp_write_byte mapped p d c is_cnt); try done. intros s3 H3.
  change (Z.lxor 0 1) with 1 in H3. rewrite !put_bytes in H3 by done.
  wp_step. eapply (wp_clear mapped clear d c is_cnt); try done. intros s4 H4. wp_step.
  eapply (wp_read_byte mapped p d c is_cnt); try done. intros s5 H5. wp_step.
  eapply (wp_read_byte mapped p d c is_cnt); try done. intros s6 H6. wp_step.
  change (Z.lxor 0 1) with 1 in *. change (Z.lxor 1 1) with 0 in *.
  destruct (get_bytes lo hi Hlo Hhi) as [-> ->]. done.
Qed.

Lemma ex_dma_idle m : idle (ex_dma m).
Proof.
  split; [done|]. intros d k. unfold aget. destruct (d <? 0); [done|].
  destruct (Z.to_nat d) as [|[|n]]; simpl; [injection 1 as <-; done|injection 1 as <-; done|].
  by destruct n.
Qed.

Lemma dma_register_roundtrip_witness :
  exists s', (dma_program (fun _ => true) 216 198 52 18 ;; dma_readback (fun _ => true) 216 198) (ex_dma 33) =
    Ok ((52, 18), s').
Proof.
  destruct (dma_register_roundtrip (fun _ => true) 216 198 1 1 true 52 18 (ex_dma 33)) as (s' & E & _);
    [reflexivity|reflexivity|lia|lia|lia|lia|apply ex_dma_idle|].
  exists s'. exact E.
Defined.
