(* ===== verification/Rtc.v ===== *)
(** * CMOS RAM and real-time clock (src/src/base/dev/misc/cmos.c, rtc.c,
    src/src/include/cmos.h)

    The 64 CMOS bytes hold the clock's registers; time fields are kept in binary
    and converted to BCD on access.  The clock raises and lowers IRQ 8 through
    the interface [IrqSink].  The current time is an argument of the operations
    that read it; the [static] variables of the source are fields. *)

From stdpp Require Import base numbers list.
From Stdlib Require Import ZArith Lia.
From S2P Require Import Prelude Interfaces.

Local Open Scope Z_scope.

Definition CMOS_SEC : Z := 0.
Definition CMOS_SECALRM : Z := 1.
Definition CMOS_MIN : Z := 2.
Definition CMOS_MINALRM : Z := 3.
Definition CMOS_HOUR : Z := 4.
Definition CMOS_HOURALRM : Z := 5.
Definition CMOS_DOW : Z := 6.
Definition CMOS_DOM : Z := 7.
Definition CMOS_MONTH : Z := 8.
Definition CMOS_YEAR : Z := 9.
Definition CMOS_STATUSA : Z := 10.
Definition CMOS_STATUSB : Z := 11.
Definition CMOS_STATUSC : Z := 12.
Definition CMOS_STATUSD : Z := 13.
Definition CMOS_CHKSUMM : Z := 46.
Definition CMOS_CHKSUML : Z := 47.
Definition CMOS_CENTURY : Z := 50.

Record rtc (P : Type) := MkRtc {
  subst : list Z;               (* cmos.subst[64] *)
  flag : list bool;             (* cmos.flag[64] *)
  address : Z;                  (* cmos.address *)
  last_time : option Z;         (* static last_time of rtc_run; None is -1 *)
  q_ticks_m : Z;                (* unsigned long long *)
  last_sec : Z;                 (* static last_sec of rtc_alarm_check *)
  vtmr_raises : Z;              (* calls of vtmr_raise(VTMR_RTC) *)
  pic : P;
}.
Arguments MkRtc {P}.
Arguments subst {P}. Arguments flag {P}. Arguments address {P}. Arguments last_time {P}.
Arguments q_ticks_m {P}. Arguments last_sec {P}. Arguments vtmr_raises {P}. Arguments pic {P}.
#[export] Instance eta_rtc P : Eta (rtc P) :=
  fun s => MkRtc s.(subst) s.(flag) s.(address) s.(last_time) s.(q_ticks_m) s.(last_sec)
             s.(vtmr_raises) s.(pic).

(** [GET_CMOS] and [SET_CMOS]; the index is masked, so always in range. *)
Definition GET_CMOS {P} (s : rtc P) (b : Z) : Z :=
  match aget (subst s) (Z.land b 63) with Some v => v | None => 0 end.

Definition SET_CMOS {P} (b v : Z) : M (rtc P) unit :=
  modify (fun s => s <| subst ::= fun l => astore l (Z.land b 63) (u8 v) |>
                     <| flag ::= fun l => astore l (Z.land b 63) true |>).

Definition bcd (v : Z) : Z := if 99 <? v then 153 else Z.lor (Z.shiftl (v / 10) 4) (v mod 10).

Definition BCD {P} (s : rtc P) (binval : Z) : Z :=
  if truth (Z.land (GET_CMOS s CMOS_STATUSB) 4) then binval else bcd binval.

Definition BIN (bcdval : Z) : Z :=
  let l := Z.land bcdval 15 in
  let h := Z.land bcdval 240 in
  if (9 <? l) || (144 <? h) then 255 else Z.shiftr h 1 + Z.shiftr h 3 + l.

Definition rtc_get_rate (div : Z) : Z :=
  if div =? 0 then 0 else Z.shiftr 65536 (if div <? 3 then div + 7 else div).

(** The time and date registers that are kept in binary. *)
Definition is_time_reg (reg : Z) : bool :=
  bool_decide (reg ∈ [CMOS_SEC; CMOS_SECALRM; CMOS_MIN; CMOS_MINALRM; CMOS_DOW; CMOS_DOM;
                      CMOS_MONTH; CMOS_YEAR; CMOS_CENTURY]).
Definition is_hour_reg (reg : Z) : bool := (reg =? CMOS_HOUR) || (reg =? CMOS_HOURALRM).

Section rtc.
Context {P : Type} {SK : IrqSink P}.
Context (timer_tweaks : bool).          (* config.timer_tweaks *)
Abbreviation R := (M (rtc P)).

Definition on_pic {A} (c : M P A) : R A := fun s =>
  match c (pic s) with
  | Ok (a, p) => Ok (a, s <| pic := p |>)
  | Fault e => Fault e
  end.

Definition rtc_run (cur_time : Z) : R unit :=
  let! s := get in
  let skip := modify (fun s => s <| last_time := Some cur_time |>) in
  match last_time s with
  | None => skip
  | Some last =>
      if (cur_time <? last) || negb (truth (Z.land (GET_CMOS s CMOS_STATUSB) 64)) then skip
      else
        let rate := rtc_get_rate (Z.land (GET_CMOS s CMOS_STATUSA) 15) in
        let ticks_m := u64 ((cur_time - last) * rate) in
        modify (fun s => s <| q_ticks_m ::= fun q => u64 (q + ticks_m) |>
                           <| last_time := Some cur_time |>) ;;
        let! s := get in
        if 1000000 <=? q_ticks_m s then
          let old_c := GET_CMOS s CMOS_STATUSC in
          SET_CMOS CMOS_STATUSC (Z.lor old_c 64) ;;
          let! s := get in
          (if truth (Z.land (GET_CMOS s CMOS_STATUSB) 64) &&
              negb (truth (Z.land (GET_CMOS s CMOS_STATUSC) 128)) then
             SET_CMOS CMOS_STATUSC (Z.lor (GET_CMOS s CMOS_STATUSC) 128) ;;
             if timer_tweaks then modify (fun s => s <| vtmr_raises ::= fun n => n + 1 |>)
             else on_pic (irq_request 8)
           else ret tt) ;;
          (if negb (truth (Z.land old_c 64)) then
             modify (fun s => s <| q_ticks_m ::= fun q => u64 (q - 1000000) |>)
           else ret tt)
        else ret tt
  end.

Definition rtc_read (cur_time reg : Z) : R Z :=
  let! s := get in
  let v := GET_CMOS s reg in
  if is_time_reg reg then ret (BCD s v)
  else if is_hour_reg reg then
    let v := if negb (truth (Z.land (GET_CMOS s CMOS_STATUSB) 2)) then
               if v =? 0 then 12 else if 12 <? v then v - 12 else v
             else v in
    ret (BCD s v)
  else if reg =? CMOS_STATUSC then
    SET_CMOS CMOS_STATUSC 0 ;;
    on_pic (irq_untrigger 8) ;;
    rtc_run cur_time ;;
    ret v
  else ret v.

Definition rtc_write (reg byte : Z) : R unit :=
  (if is_time_reg reg || is_hour_reg reg then SET_CMOS reg (BIN byte)
   else if reg =? CMOS_STATUSA then SET_CMOS reg (Z.land byte 127)
   else if reg =? CMOS_STATUSB then SET_CMOS reg byte
   else if (reg =? CMOS_STATUSC) || (reg =? CMOS_STATUSD) then ret tt
   else SET_CMOS reg byte) ;;
  modify (fun s => s <| q_ticks_m := 0 |>).

(** Set a bit of status C and, when [enable] is set in status B and no
    interrupt is pending, the IRQ flag and IRQ 8. *)
Definition raise_irq (event enable : Z) : R unit :=
  let! s := get in
  SET_CMOS CMOS_STATUSC (Z.lor (GET_CMOS s CMOS_STATUSC) event) ;;
  let! s := get in
  if truth (Z.land (GET_CMOS s CMOS_STATUSB) enable) &&
     negb (truth (Z.land (GET_CMOS s CMOS_STATUSC) 128)) then
    SET_CMOS CMOS_STATUSC (Z.lor (GET_CMOS s CMOS_STATUSC) 128) ;;
    on_pic (irq_request 8)
  else ret tt.

Definition alarm_due (s : rtc P) : bool :=
  let h := GET_CMOS s CMOS_HOURALRM in
  let m := GET_CMOS s CMOS_MINALRM in
  let sec := GET_CMOS s CMOS_SECALRM in
  ((192 <=? h) || (GET_CMOS s CMOS_HOUR =? h)) &&
  ((192 <=? m) || (GET_CMOS s CMOS_MIN =? m)) &&
  ((192 <=? sec) || ((GET_CMOS s CMOS_SEC =? sec) && negb (GET_CMOS s CMOS_SEC =? last_sec s))).

Definition rtc_alarm_check : R unit :=
  let! s := get in
  if alarm_due s then
    modify (fun s => s <| last_sec := GET_CMOS s CMOS_SEC |>) ;;
    raise_irq 32 32
  else ret tt.

Definition dpm : list Z := [0; 31; 28; 31; 30; 31; 30; 31; 31; 30; 31; 30; 31].

(** Midnight: date and day of week. *)
Definition next_day : R unit :=
  let! s := get in
  let M0 := GET_CMOS s CMOS_MONTH in
  let M0 := if (12 <? M0) || (M0 <? 1) then 1 else M0 in
  let Y0 := GET_CMOS s CMOS_YEAR in
  let days := match aget dpm M0 with Some d => d | None => 0 end in
  let days := if (Z.land Y0 3 =? 0) && (M0 =? 2) then days + 1 else days in
  let D0 := u8 (GET_CMOS s CMOS_DOM + 1) in
  (if days <? D0 then
     let M0 := M0 + 1 in
     (if 12 <? M0 then
        let Y0 := u8 (Y0 + 1) in
        (if 99 <? Y0 then SET_CMOS CMOS_CENTURY (GET_CMOS s CMOS_CENTURY + 1) else ret tt) ;;
        SET_CMOS CMOS_YEAR (if 99 <? Y0 then 0 else Y0)
      else ret tt) ;;
     SET_CMOS CMOS_MONTH (if 12 <? M0 then 1 else M0)
   else ret tt) ;;
  SET_CMOS CMOS_DOM (if days <? D0 then 1 else D0) ;;
  let! s := get in
  let days := u8 (GET_CMOS s CMOS_DOW + 1) in
  SET_CMOS CMOS_DOW (if (7 <? days) || (days <? 1) then 1 else days).

(** The second, and what it carries into. *)
Definition next_second : R unit :=
  let! s := get in
  let s0 := u8 (GET_CMOS s CMOS_SEC + 1) in
  (if 59 <? s0 then
     let m0 := u8 (GET_CMOS s CMOS_MIN + 1) in
     (if 59 <? m0 then
        let h0 := u8 (GET_CMOS s CMOS_HOUR + 1) in
        (if 23 <? h0 then next_day else ret tt) ;;
        SET_CMOS CMOS_HOUR (if 23 <? h0 then 0 else h0)
      else ret tt) ;;
     SET_CMOS CMOS_MIN (if 59 <? m0 then 0 else m0)
   else ret tt) ;;
  SET_CMOS CMOS_SEC (if 59 <? s0 then 0 else s0).

Definition rtc_update : R unit :=
  let! s := get in
  if truth (Z.land (GET_CMOS s CMOS_STATUSB) 128) then ret tt
  else
    SET_CMOS CMOS_STATUSA (Z.lor (GET_CMOS s CMOS_STATUSA) 128) ;;
    next_second ;;
    rtc_alarm_check ;;
    raise_irq 16 16 ;;
    let! s := get in
    SET_CMOS CMOS_STATUSA (Z.land (GET_CMOS s CMOS_STATUSA) (Z.lnot 128)).

Definition rtc_setup : R unit :=
  SET_CMOS CMOS_HOURALRM 0 ;; SET_CMOS CMOS_MINALRM 0 ;; SET_CMOS CMOS_SECALRM 0.

Definition rtc_vint (masked : bool) : R Z :=
  (if masked then on_pic (irq_request 8) else ret tt) ;; ret 0.

(** ** The CMOS ports *)

Fixpoint cmos_sum (n : nat) (i sum : Z) (s : rtc P) : Z :=
  match n with
  | O => sum
  | S n => cmos_sum n (i + 1) (sum + GET_CMOS s i) s
  end.

(** Over the bytes 0x10 - 0x20. *)
Definition cmos_chksum (s : rtc P) : Z := cmos_sum 17 16 0 s.

Definition cmos_read (cur_time port : Z) : R Z :=
  if negb (port =? 113) then ret 255
  else
    let! s := get in
    if address s <=? 13 then rtc_read cur_time (address s)
    else if address s =? CMOS_CHKSUML then ret (Z.land (cmos_chksum s) 255)
    else if address s =? CMOS_CHKSUMM then ret (u8 (Z.shiftr (cmos_chksum s) 8))
    else ret (GET_CMOS s (address s)).

Definition cmos_write (port byte : Z) : R unit :=
  if port =? 112 then modify (fun s => s <| address := Z.land byte (Z.lnot 192) |>)
  else
    let! s := get in
    if address s <=? 13 then rtc_write (address s) byte
    else SET_CMOS (address s) byte.

(** Machine configuration read by [cmos_init]. *)
Record cmos_config := MkCmosConfig {
  fdisks : Z; fd0_cmos : Z; fd1_cmos : Z;      (* config.fdisks, disktab[i].default_cmos *)
  hdisks : Z; mathco : bool; mem_size : Z;     (* config *)
  PEXTMEM_SIZE : Z;                            (* EXTMEM_SIZE + XMS_SIZE *)
}.

Definition cmos_init (c : cmos_config) : R unit :=
  modify (fun s => s <| subst := replicate 64 0 |> <| flag := replicate 64 false |>) ;;
  rtc_setup ;;
  SET_CMOS 16 (Z.lor (if truth (fdisks c) then Z.shiftl (fd0_cmos c) 4 else 0)
                     (if 1 <? fdisks c then Z.land (fd1_cmos c) 15 else 0)) ;;
  SET_CMOS 20 (Z.lor (u8 (Z.shiftl (if truth (fdisks c) then fdisks c - 1 else 0) 6 +
                          (if truth (fdisks c) then 1 else 0))) (if mathco c then 2 else 0)) ;;
  SET_CMOS 18 ((if truth (hdisks c) then 240 else 0) + (if 1 <? hdisks c then 15 else 0)) ;;
  SET_CMOS 25 47 ;;
  SET_CMOS 26 (if hdisks c =? 2 then 47 else 0) ;;
  SET_CMOS CMOS_STATUSA 38 ;;
  SET_CMOS CMOS_STATUSB 2 ;;
  SET_CMOS CMOS_STATUSC 0 ;;
  SET_CMOS CMOS_STATUSD 128 ;;
  SET_CMOS 14 0 ;;
  SET_CMOS 21 (Z.land (mem_size c) 255) ;;
  SET_CMOS 22 (Z.shiftr (mem_size c) 8) ;;
  SET_CMOS 23 (Z.land (Z.shiftr (PEXTMEM_SIZE c) 10) 255) ;;
  SET_CMOS 24 (Z.shiftr (PEXTMEM_SIZE c) 18) ;;
  SET_CMOS 48 (Z.land (Z.shiftr (PEXTMEM_SIZE c) 10) 255) ;;
  SET_CMOS 49 (Z.shiftr (PEXTMEM_SIZE c) 18) ;;
  SET_CMOS 15 6 ;;
  SET_CMOS 51 225 ;;
  SET_CMOS 45 63.

(** ** Host time to DOS ticks *)

(** [struct tm] and the microseconds of [gettimeofday]. *)
Record tm := MkTm {
  tm_sec : Z; tm_min : Z; tm_hour : Z; tm_mday : Z; tm_mon : Z; tm_year : Z;
  tm_wday : Z; tm_yday : Z; tv_usec : Z;
}.

Definition FREEDOS_TICKS_IN_A_DAY : Z := 1573039.

(** DOS ticks since midnight. *)
Definition day_ticks (t : tm) : Z :=
  let isec := tm_sec t + 60 * (tm_min t + 60 * tm_hour t) in
  Z.quot ((isec * 100 + Z.quot (tv_usec t) 10000) * 59659) 327680.

Definition days_from_1970 (t : tm) : Z :=
  let year := 1900 + tm_year t in
  tm_yday t + (year - 1970) * 365 + Z.quot (year - 1969) 4.

(** Ticks, [day_rollover] and the static [last_ds70], which is passed and
    returned. *)
Definition linux_ticks (t : tm) (rollover_wanted : bool) (last_ds70 : Z) : Z * Z * Z :=
  let ds70 := days_from_1970 t in
  let last_ds70 := if last_ds70 =? 0 then ds70 else last_ds70 in
  let tt := day_ticks t in
  if rollover_wanted then
    let day_diff := ds70 - last_ds70 in
    if day_diff <? 0 then (0, 0, last_ds70)
    else if 0 <? day_diff then (tt, Z.min day_diff 255, ds70)
    else (tt, 0, last_ds70)
  else (tt, 0, last_ds70).

Definition set_cmos_time (t : tm) : R unit :=
  let year := 1900 + tm_year t in
  let cent := Z.quot year 100 in
  SET_CMOS CMOS_HOUR (tm_hour t) ;; SET_CMOS CMOS_MIN (tm_min t) ;; SET_CMOS CMOS_SEC (tm_sec t) ;;
  SET_CMOS CMOS_DOW (tm_wday t + 1) ;; SET_CMOS CMOS_DOM (tm_mday t) ;;
  SET_CMOS CMOS_MONTH (tm_mon t + 1) ;;
  SET_CMOS CMOS_YEAR (year - 100 * cent) ;;
  SET_CMOS CMOS_CENTURY cent.

(** [t] is the local time; its conversion from the host clock is the C library's. *)
Definition get_linux_ticks (t : tm) (set_cmos rollover_wanted : bool) (last_ds70 : Z) : R (Z * Z * Z) :=
  (if set_cmos then set_cmos_time t else ret tt) ;;
  ret (linux_ticks t rollover_wanted last_ds70).

End rtc.
