(* ===== verification/RtcSpec.v ===== *)
(** * CMOS and real-time clock: calendar, BCD access, interrupt line *)

From stdpp Require Import base numbers list sets.
From Stdlib Require Import ZArith Lia.
From S2P Require Import Prelude Interfaces Pic PicSpec Instances Rtc.

Local Open Scope Z_scope.

(** ** Register access *)

Section access.
Context {P : Type}.
Implicit Types s : rtc P.

(** The state after [SET_CMOS(b, v)]. *)
Definition put (b v : Z) (s : rtc P) : rtc P :=
  s <| subst ::= fun l => astore l (Z.land b 63) (u8 v) |>
    <| flag ::= fun l => astore l (Z.land b 63) true |>.

Lemma wp_SET b v s (Q : unit -> rtc P -> Prop) : Q tt (put b v s) -> wp (SET_CMOS b v) s Q.
Proof. apply wp_modify. Qed.

Definition shape s : Prop := length (subst s) = 64%nat.

Lemma shape_put b v s : shape s -> shape (put b v s).
Proof. unfold shape. simpl. by rewrite astore_length. Qed.

Lemma land63 b : 0 <= b < 64 -> Z.land b 63 = b.
Proof. intros H. change 63 with (Z.ones 6). rewrite Z.land_ones by lia. apply Z.mod_small. lia. Qed.

Lemma GET_put b v s b' : shape s -> 0 <= b < 64 -> 0 <= b' < 64 ->
  GET_CMOS (put b v s) b' = if b' =? b then u8 v else GET_CMOS s b'.
Proof.
  unfold shape. intros Hl Hb Hb'. unfold GET_CMOS. simpl. rewrite !land63 by done.
  rewrite aget_astore by lia. by destruct (b' =? b).
Qed.

(** Every register holds a byte. *)
Definition bytes s : Prop := forall b, 0 <= GET_CMOS s b < 256.

Lemma land63_range b : 0 <= Z.land b 63 < 64.
Proof. change 63 with (Z.ones 6). rewrite Z.land_ones by lia. apply Z.mod_pos_bound. lia. Qed.

Lemma bytes_put b v s : shape s -> bytes s -> bytes (put b v s).
Proof.
  unfold shape. intros Hl Hb b'. specialize (Hb b'). unfold GET_CMOS in *. simpl.
  pose proof (land63_range b). pose proof (land63_range b'). rewrite aget_astore by lia.
  destruct (_ =? _); [apply u8_range|done].
Qed.

End access.

#[export] Hint Resolve shape_put bytes_put : dosemu.

(** ** The calendar *)

Record date := MkDate {
  d_sec : Z; d_min : Z; d_hour : Z; d_dow : Z; d_dom : Z; d_mon : Z; d_year : Z; d_cent : Z;
}.

Definition date_of {P} (s : rtc P) : date :=
  MkDate (GET_CMOS s CMOS_SEC) (GET_CMOS s CMOS_MIN) (GET_CMOS s CMOS_HOUR) (GET_CMOS s CMOS_DOW)
    (GET_CMOS s CMOS_DOM) (GET_CMOS s CMOS_MONTH) (GET_CMOS s CMOS_YEAR) (GET_CMOS s CMOS_CENTURY).

Definition leap (y : Z) : bool := y mod 4 =? 0.

Definition month_days (lp : bool) (m : Z) : Z :=
  if m =? 2 then (if lp then 29 else 28)
  else if (m =? 4) || (m =? 6) || (m =? 9) || (m =? 11) then 30 else 31.

(** Days of the year before the first of month [m]. *)
Definition days_before_month (lp : bool) (m : Z) : Z :=
  zsum (month_days lp) (zrange (Z.to_nat m)) - month_days lp 0.

Definition year_of (d : date) : Z := 100 * d_cent d + d_year d.

(** Days since year 0 of the calendar in which every fourth year is leap. *)
Definition day_number (d : date) : Z :=
  let y := year_of d in 365 * y + (y + 3) / 4 + days_before_month (leap y) (d_mon d) + d_dom d.

Definition second_number (d : date) : Z :=
  86400 * day_number d + 3600 * d_hour d + 60 * d_min d + d_sec d.

Record valid_date (d : date) : Prop := {
  v_sec : 0 <= d_sec d <= 59;
  v_min : 0 <= d_min d <= 59;
  v_hour : 0 <= d_hour d <= 23;
  v_dow : 1 <= d_dow d <= 7;
  v_mon : 1 <= d_mon d <= 12;
  v_dom : 1 <= d_dom d <= month_days (leap (year_of d)) (d_mon d);
  v_year : 0 <= d_year d <= 99;
  v_cent : 0 <= d_cent d <= 255;
}.

(** The date after midnight, as the code computes it. *)
Definition tomorrow (d : date) : date :=
  let dow := if d_dow d =? 7 then 1 else d_dow d + 1 in
  if month_days (leap (year_of d)) (d_mon d) <? d_dom d + 1 then
    if 12 <? d_mon d + 1 then
      if 99 <? d_year d + 1 then MkDate 0 0 0 dow 1 1 0 (d_cent d + 1)
      else MkDate 0 0 0 dow 1 1 (d_year d + 1) (d_cent d)
    else MkDate 0 0 0 dow 1 (d_mon d + 1) (d_year d) (d_cent d)
  else MkDate 0 0 0 dow (d_dom d + 1) (d_mon d) (d_year d) (d_cent d).

(** The date one second later. *)
Definition tick (d : date) : date :=
  if 59 <? d_sec d + 1 then
    if 59 <? d_min d + 1 then
      if 23 <? d_hour d + 1 then tomorrow d
      else MkDate 0 0 (d_hour d + 1) (d_dow d) (d_dom d) (d_mon d) (d_year d) (d_cent d)
    else MkDate 0 (d_min d + 1) (d_hour d) (d_dow d) (d_dom d) (d_mon d) (d_year d) (d_cent d)
  else MkDate (d_sec d + 1) (d_min d) (d_hour d) (d_dow d) (d_dom d) (d_mon d) (d_year d) (d_cent d).

Lemma month_cases (m : Z) : 1 <= m <= 12 ->
  m = 1 \/ m = 2 \/ m = 3 \/ m = 4 \/ m = 5 \/ m = 6 \/ m = 7 \/ m = 8 \/ m = 9 \/ m = 10 \/ m = 11 \/ m = 12.
Proof. lia. Qed.

Ltac by_month H :=
  destruct (month_cases _ H) as [->|[->|[->|[->|[->|[->|[->|[->|[->|[->|[-> | ->]]]]]]]]]]].

Lemma days_before_next_month lp m : 1 <= m <= 11 ->
  days_before_month lp (m + 1) = days_before_month lp m + month_days lp m.
Proof. intros H. assert (1 <= m <= 12) as H' by lia. by_month H'; destruct lp; (reflexivity || lia). Qed.

Lemma days_in_year lp : days_before_month lp 12 + 31 = if lp then 366 else 365.
Proof. by destruct lp. Qed.

Lemma month_days_range lp m : 28 <= month_days lp m <= 31.
Proof. unfold month_days. destruct (m =? 2), lp, (m =? 4), (m =? 6), (m =? 9), (m =? 11); simpl; lia. Qed.

Lemma year_step y : 0 <= y ->
  365 * (y + 1) + (y + 1 + 3) / 4 = 365 * y + (y + 3) / 4 + (if leap y then 366 else 365).
Proof.
  intros Hy. unfold leap. pose proof (Z.div_mod (y + 3) 4 ltac:(lia)).
  pose proof (Z.mod_pos_bound (y + 3) 4 ltac:(lia)).
  pose proof (Z.div_mod (y + 1 + 3) 4 ltac:(lia)). pose proof (Z.mod_pos_bound (y + 1 + 3) 4 ltac:(lia)).
  pose proof (Z.div_mod y 4 ltac:(lia)). pose proof (Z.mod_pos_bound y 4 ltac:(lia)).
  destruct (Z.eqb_spec (y mod 4) 0); lia.
Qed.

Lemma tomorrow_valid d : valid_date d -> d_cent d < 255 -> valid_date (tomorrow d).
Proof.
  intros [] Hc. unfold tomorrow, year_of in *.
  pose proof (fun lp m => month_days_range lp m) as Hmd.
  assert (1 <= (if d_dow d =? 7 then 1 else d_dow d + 1) <= 7) by (destruct (Z.eqb_spec (d_dow d) 7); lia).
  destruct (Z.ltb_spec (month_days (leap (100 * d_cent d + d_year d)) (d_mon d)) (d_dom d + 1));
    [destruct (Z.ltb_spec 12 (d_mon d + 1)); [destruct (Z.ltb_spec 99 (d_year d + 1))|]|];
    constructor; simpl; unfold year_of; simpl; try lia.
  - pose proof (Hmd (leap (100 * (d_cent d + 1) + 0)) 1). lia.
  - pose proof (Hmd (leap (100 * d_cent d + (d_year d + 1))) 1). lia.
  - pose proof (Hmd (leap (100 * d_cent d + d_year d)) (d_mon d + 1)). lia.
Qed.

Lemma tomorrow_number d : valid_date d -> d_cent d < 255 ->
  day_number (tomorrow d) = day_number d + 1.
Proof.
  intros [] Hc. unfold tomorrow, day_number, year_of in *.
  set (y := 100 * d_cent d + d_year d) in *.
  assert (forall y', y' = y + 1 -> 365 * y' + (y' + 3) / 4 + days_before_month (leap y') 1 + 1 =
    365 * y + (y + 3) / 4 + (if leap y then 366 else 365) + 1) as Hy.
  { intros y' ->. rewrite year_step by (unfold y; lia). destruct (leap (y + 1)); [change (days_before_month true 1) with 0|change (days_before_month false 1) with 0]; lia. }
  destruct (Z.ltb_spec (month_days (leap y) (d_mon d)) (d_dom d + 1)) as [H1|H1].
  - assert (d_dom d = month_days (leap y) (d_mon d)) as -> by lia.
    destruct (Z.ltb_spec 12 (d_mon d + 1)) as [H2|H2].
    + assert (d_mon d = 12) as -> by lia. pose proof (days_in_year (leap y)).
      change (month_days (leap y) 12) with 31.
      destruct (Z.ltb_spec 99 (d_year d + 1)) as [H3|H3]; cbn [d_cent d_year d_mon d_dom];
        rewrite Hy by (unfold y; lia); lia.
    + cbn [d_cent d_year d_mon d_dom]. fold y. rewrite days_before_next_month by lia. lia.
  - cbn [d_cent d_year d_mon d_dom]. fold y. lia.
Qed.

Lemma tick_correct d : valid_date d -> d_cent d < 255 ->
  valid_date (tick d) /\ second_number (tick d) = second_number d + 1.
Proof.
  intros Hv Hc. pose proof (tomorrow_valid d Hv Hc) as Ht. pose proof (tomorrow_number d Hv Hc) as Hn.
  unfold tick. destruct Hv. destruct (Z.ltb_spec 59 (d_sec d + 1)); [destruct (Z.ltb_spec 59 (d_min d + 1));
    [destruct (Z.ltb_spec 23 (d_hour d + 1))|]|].
  - split; [done|]. unfold second_number. rewrite Hn.
    assert (d_hour (tomorrow d) = 0 /\ d_min (tomorrow d) = 0 /\ d_sec (tomorrow d) = 0) as (-> & -> & ->).
    { unfold tomorrow. repeat destruct (_ <? _); done. }
    lia.
  - split; [constructor; simpl; try done; lia|]. unfold second_number, day_number, year_of. simpl. lia.
  - split; [constructor; simpl; try done; lia|]. unfold second_number, day_number, year_of. simpl. lia.
  - split; [constructor; simpl; try done; lia|]. unfold second_number, day_number, year_of. simpl. lia.
Qed.

(** ** [next_second] implements [tick] *)

Ltac const_range := vm_compute; split; congruence.
Ltac regs_elem := apply (bool_decide_unpack _); vm_compute; exact I.

Section update.
Context {P : Type} {SK : IrqSink P}.
Implicit Types s : rtc P.

Definition sane s : Prop := shape s /\ bytes s.

Lemma sane_put b v s : sane s -> sane (put b v s).
Proof. intros [H1 H2]. split; auto with dosemu. Qed.

Lemma GET_put_sane b v s b' : sane s -> 0 <= b < 64 -> 0 <= b' < 64 -> 0 <= v < 256 ->
  GET_CMOS (put b v s) b' = if b' =? b then v else GET_CMOS s b'.
Proof. intros [H1 _] Hb Hb' Hv. rewrite GET_put by done. by rewrite u8_small. Qed.

(** [s'] differs from [s] at most in the registers of [l], and is sane. *)
Definition only (l : list Z) s s' : Prop :=
  sane s' /\ pic s' = pic s /\ last_sec s' = last_sec s /\
  forall b, 0 <= b < 64 -> b ∉ l -> GET_CMOS s' b = GET_CMOS s b.

Lemma only_put l b v s : sane s -> 0 <= b < 64 -> b ∈ l -> only l s (put b v s).
Proof.
  intros Hs Hb Hl. split; [by apply sane_put|]. split; [done|]. split; [done|]. intros b' Hb' Hn.
  rewrite GET_put by (done || apply Hs). destruct (Z.eqb_spec b' b) as [->|]; done.
Qed.

Lemma only_trans l s1 s2 s3 : only l s1 s2 -> only l s2 s3 -> only l s1 s3.
Proof.
  intros (_ & A1 & A2 & A3) (B0 & B1 & B2 & B3). split; [done|]. split; [congruence|].
  split; [congruence|]. intros b Hb Hn. rewrite B3 by done. by apply A3.
Qed.

Lemma only_refl l s : sane s -> only l s s.
Proof. done. Qed.

End update.

Ltac sane_tac := repeat apply sane_put; assumption.
Ltac gets :=
  repeat (rewrite GET_put_sane; [|sane_tac|const_range|const_range|lia]);
  repeat match goal with |- context [?a =? ?b] =>
    let r := eval vm_compute in (a =? b) in
    lazymatch r with true => change (a =? b) with true | false => change (a =? b) with false end
  end; cbv iota.
Ltac only_tac :=
  repeat first [ apply only_refl; sane_tac
               | eapply only_trans; [|apply only_put; [sane_tac|const_range|regs_elem]] ].

Section clock.
Context {P : Type} {SK : IrqSink P}.
Implicit Types s : rtc P.

Definition date_regs : list Z := [CMOS_DOW; CMOS_DOM; CMOS_MONTH; CMOS_YEAR; CMOS_CENTURY].

Lemma days_of_month s : valid_date (date_of s) ->
  (if (Z.land (GET_CMOS s CMOS_YEAR) 3 =? 0) && (GET_CMOS s CMOS_MONTH =? 2)
   then match aget dpm (GET_CMOS s CMOS_MONTH) with Some d => d | None => 0 end + 1
   else match aget dpm (GET_CMOS s CMOS_MONTH) with Some d => d | None => 0 end) =
  month_days (leap (year_of (date_of s))) (GET_CMOS s CMOS_MONTH).
Proof.
  intros Hv. pose proof (v_mon _ Hv) as Hm. simpl in Hm. unfold leap, year_of. simpl.
  change 3 with (Z.ones 2). rewrite Z.land_ones by lia. change (2 ^ 2) with 4.
  replace ((100 * GET_CMOS s CMOS_CENTURY + GET_CMOS s CMOS_YEAR) mod 4) with (GET_CMOS s CMOS_YEAR mod 4).
  2: { replace (100 * GET_CMOS s CMOS_CENTURY + GET_CMOS s CMOS_YEAR)
         with (GET_CMOS s CMOS_YEAR + (25 * GET_CMOS s CMOS_CENTURY) * 4) by lia.
       by rewrite Z.mod_add by lia. }
  destruct (GET_CMOS s CMOS_YEAR mod 4 =? 0); by_month Hm; reflexivity.
Qed.

Lemma wp_next_day s (Q : unit -> rtc P -> Prop) :
  sane s -> valid_date (date_of s) -> GET_CMOS s CMOS_CENTURY < 255 ->
  (forall s', only date_regs s s' ->
     GET_CMOS s' CMOS_DOW = d_dow (tomorrow (date_of s)) /\
     GET_CMOS s' CMOS_DOM = d_dom (tomorrow (date_of s)) /\
     GET_CMOS s' CMOS_MONTH = d_mon (tomorrow (date_of s)) /\
     GET_CMOS s' CMOS_YEAR = d_year (tomorrow (date_of s)) /\
     GET_CMOS s' CMOS_CENTURY = d_cent (tomorrow (date_of s)) -> Q tt s') ->
  wp next_day s Q.
Proof.
  intros Hs Hv Hc HQ. pose proof Hv as []. unfold date_of in v_mon0, v_dom0, v_year0, v_cent0, v_dow0. simpl in *.
  unfold next_day. wp_step. apply wp_get.
  rewrite (proj2 (Z.ltb_ge 12 (GET_CMOS s CMOS_MONTH))), (proj2 (Z.ltb_ge (GET_CMOS s CMOS_MONTH) 1)) by lia.
  simpl orb. cbv iota. rewrite days_of_month by done.
  pose proof (month_days_range (leap (year_of (date_of s))) (GET_CMOS s CMOS_MONTH)) as Hmd.
  set (md := month_days (leap (year_of (date_of s))) (GET_CMOS s CMOS_MONTH)) in *.
  fold (date_of s) in v_dom0. change (d_dom (date_of s)) with (GET_CMOS s CMOS_DOM) in *.
  rewrite (u8_small (GET_CMOS s CMOS_DOM + 1)) by lia.
  set (dow := if GET_CMOS s CMOS_DOW =? 7 then 1 else GET_CMOS s CMOS_DOW + 1).
  assert (1 <= dow <= 7) as Hdow by (unfold dow; destruct (Z.eqb_spec (GET_CMOS s CMOS_DOW) 7); lia).
  (* the last store, of the day of week, after the stores of the date *)
  assert (forall s1, only date_regs s s1 -> GET_CMOS s1 CMOS_DOW = GET_CMOS s CMOS_DOW ->
    GET_CMOS s1 CMOS_DOM = d_dom (tomorrow (date_of s)) ->
    GET_CMOS s1 CMOS_MONTH = d_mon (tomorrow (date_of s)) ->
    GET_CMOS s1 CMOS_YEAR = d_year (tomorrow (date_of s)) ->
    GET_CMOS s1 CMOS_CENTURY = d_cent (tomorrow (date_of s)) ->
    wp (let! s := get in
        let days := u8 (GET_CMOS s CMOS_DOW + 1) in
        SET_CMOS CMOS_DOW (if (7 <? days) || (days <? 1) then 1 else days)) s1 Q) as Hlast.
  { intros s1 Ho E1 E2 E3 E4 E5. pose proof Ho as [Hs1 _]. wp_step. apply wp_get. apply wp_SET. rewrite E1.
    rewrite (u8_small (GET_CMOS s CMOS_DOW + 1)) by lia.
    replace (if (7 <? GET_CMOS s CMOS_DOW + 1) || (GET_CMOS s CMOS_DOW + 1 <? 1) then 1
             else GET_CMOS s CMOS_DOW + 1) with dow.
    2: { unfold dow. rewrite (proj2 (Z.ltb_ge (GET_CMOS s CMOS_DOW + 1) 1)), orb_false_r by lia.
         destruct (Z.eqb_spec (GET_CMOS s CMOS_DOW) 7), (Z.ltb_spec 7 (GET_CMOS s CMOS_DOW + 1)); lia. }
    apply HQ; [eapply only_trans; [exact Ho|apply only_put; [done|const_range|regs_elem]]|].
    gets.
    split_and!; try done. unfold tomorrow. simpl. fold dow.
    repeat destruct (_ <? _); done. }
  wp_step. unfold tomorrow in Hlast. simpl in Hlast. fold md in Hlast.
  destruct (Z.ltb_spec md (GET_CMOS s CMOS_DOM + 1)) as [H1|H1].
  - wp_step. destruct (Z.ltb_spec 12 (GET_CMOS s CMOS_MONTH + 1)) as [H2|H2].
    + rewrite (u8_small (GET_CMOS s CMOS_YEAR + 1)) by lia. wp_step.
      destruct (Z.ltb_spec 99 (GET_CMOS s CMOS_YEAR + 1)) as [H3|H3].
      * apply wp_SET, wp_SET, wp_SET. wp_step. apply wp_SET. apply Hlast; [only_tac|gets..]; done.
      * wp_step. apply wp_SET, wp_SET. wp_step. apply wp_SET. apply Hlast; [only_tac|gets..]; done.
    + wp_step. apply wp_SET. wp_step. apply wp_SET. apply Hlast; [only_tac|gets..]; done.
  - wp_step. wp_step. apply wp_SET. apply Hlast; [only_tac|gets..]; done.
Qed.

(** [next_second] changes only the time and date registers, and by one tick. *)
Definition clock_regs : list Z := [CMOS_SEC; CMOS_MIN; CMOS_HOUR] ++ date_regs.

Lemma date_clock_regs : date_regs ⊆ clock_regs.
Proof. intros x Hx. by right; right; right. Qed.

Lemma only_weaken l l' s s' : l ⊆ l' -> only l s s' -> only l' s s'.
Proof. intros Hl (H1 & H2 & H3 & H4). split_and!; try done. intros b Hb Hn. apply H4; [done|].
  clear Hb. set_solver.
Qed.

Lemma wp_next_second s (Q : unit -> rtc P -> Prop) :
  sane s -> valid_date (date_of s) -> GET_CMOS s CMOS_CENTURY < 255 ->
  (forall s', only clock_regs s s' -> date_of s' = tick (date_of s) -> Q tt s') ->
  wp next_second s Q.
Proof.
  intros Hs Hv Hc HQ. pose proof Hv as []. unfold date_of in v_sec0, v_min0, v_hour0. simpl in *.
  unfold next_second. wp_step. apply wp_get. rewrite !(u8_small (GET_CMOS s CMOS_SEC + 1)) by lia.
  wp_step. unfold tick in HQ.
  change (d_sec (date_of s)) with (GET_CMOS s CMOS_SEC) in HQ.
  change (d_min (date_of s)) with (GET_CMOS s CMOS_MIN) in HQ.
  change (d_hour (date_of s)) with (GET_CMOS s CMOS_HOUR) in HQ.
  destruct (Z.ltb_spec 59 (GET_CMOS s CMOS_SEC + 1)) as [H1|H1].
  2: { wp_step. apply wp_SET, HQ; [only_tac|]. unfold date_of. gets. done. }
  wp_step. rewrite !(u8_small (GET_CMOS s CMOS_MIN + 1)) by lia.
  destruct (Z.ltb_spec 59 (GET_CMOS s CMOS_MIN + 1)) as [H2|H2].
  2: { wp_step. apply wp_SET, wp_SET, HQ; [only_tac|]. unfold date_of. gets. done. }
  rewrite !(u8_small (GET_CMOS s CMOS_HOUR + 1)) by lia. wp_step.
  destruct (Z.ltb_spec 23 (GET_CMOS s CMOS_HOUR + 1)) as [H3|H3].
  2: { wp_step. apply wp_SET, wp_SET, wp_SET, HQ; [only_tac|]. unfold date_of. gets. done. }
  apply wp_next_day; try done. intros s1 Ho (E1 & E2 & E3 & E4 & E5). pose proof Ho as [Hs1 _].
  apply wp_SET, wp_SET, wp_SET, HQ.
  - eapply only_trans; [exact (only_weaken _ _ _ _ date_clock_regs Ho)|]. only_tac.
  - unfold date_of at 1. gets.
    rewrite E1, E2, E3, E4, E5. unfold tomorrow. repeat destruct (_ <? _); done.
Qed.

End clock.

(** ** The interrupt line follows the IRQ flag *)

Section line.
Context {P : Type} {SK : IrqSink P} {SL : IrqSinkLaws P}.
Implicit Types s : rtc P.

Definition IRQF s : bool := Z.testbit (GET_CMOS s CMOS_STATUSC) 7.

Record rtc_ok s : Prop := {
  ro_sane : sane s;
  ro_pic : irq_ok (pic s);
  ro_addr : 0 <= address s < 64;
  ro_line : irq_asserted (pic s) 8 = IRQF s;
}.

(** Operations that do not fault and keep [rtc_ok]. *)
Definition holds_ok {A} (c : M (rtc P) A) : Prop := forall s, rtc_ok s -> wp c s (fun _ s' => rtc_ok s').

Lemma ho_bind {A B} (c : M (rtc P) A) (k : A -> M (rtc P) B) :
  holds_ok c -> (forall a, holds_ok (k a)) -> holds_ok (bind c k).
Proof.
  intros Hc Hk s Hs. apply wp_bind. eapply wp_mono; [by apply Hc|]. intros a s' Hs'. by apply Hk.
Qed.
Lemma ho_ret {A} (a : A) : holds_ok (ret a).
Proof. intros s Hs. by apply wp_ret. Qed.
Lemma ho_get : holds_ok get.
Proof. intros s Hs. by apply wp_get. Qed.
Lemma ho_if {A} (b : bool) (c d : M (rtc P) A) : holds_ok c -> holds_ok d -> holds_ok (if b then c else d).
Proof. by destruct b. Qed.

Lemma ho_modify f :
  (forall s, subst (f s) = subst s /\ pic (f s) = pic s /\ address (f s) = address s) -> holds_ok (modify f).
Proof.
  intros Hf s [H1 H2 H3 H4]. apply wp_modify. destruct (Hf s) as (E1 & E2 & E3).
  unfold sane, shape, bytes, IRQF, GET_CMOS in *. constructor; unfold sane, shape, bytes, IRQF, GET_CMOS;
    rewrite ?E1, ?E2, ?E3; done.
Qed.

Lemma ho_SET b v : 0 <= b < 64 -> b <> CMOS_STATUSC -> holds_ok (SET_CMOS b v).
Proof.
  intros Hb Hne s [H1 H2 H3 H4]. apply wp_SET. constructor; try done; [by apply sane_put|].
  change (pic (put b v s)) with (pic s). rewrite H4. unfold IRQF.
  rewrite GET_put; [|apply H1|done|const_range].
  by rewrite (proj2 (Z.eqb_neq CMOS_STATUSC b)) by congruence.
Qed.

Lemma test_irqf x : truth (Z.land x 128) = Z.testbit x 7.
Proof. change 128 with (Z.shiftl 1 7). apply land_shiftl_bit. lia. Qed.

Lemma wp_on_pic {A} (c : M P A) s (Q : A -> rtc P -> Prop) :
  wp c (pic s) (fun a p => Q a (s <| pic := p |>)) -> wp (on_pic c) s Q.
Proof. unfold wp, on_pic. by destruct (c (pic s)) as [[a p]|e]. Qed.

(** Only status C changes: the events [e] are recorded; the flag may change. *)
Record flagged (e : Z) s s' : Prop := {
  fl_ok : rtc_ok s';
  fl_rest : forall b, 0 <= b < 64 -> b <> CMOS_STATUSC -> GET_CMOS s' b = GET_CMOS s b;
  fl_bits : forall i, 0 <= i < 7 ->
    Z.testbit (GET_CMOS s' CMOS_STATUSC) i = Z.testbit (GET_CMOS s CMOS_STATUSC) i || Z.testbit e i;
}.

Lemma flagged_trans e s s1 s2 : flagged e s s1 -> flagged 0 s1 s2 -> flagged e s s2.
Proof.
  intros [_ A1 A2] [B0 B1 B2]. split; [done| |].
  - intros b Hb Hne. rewrite B1 by done. by apply A1.
  - intros i Hi. rewrite B2, A2 by done. by rewrite Z.testbit_0_l, orb_false_r.
Qed.

Lemma put_status_rest v s b : sane s -> 0 <= b < 64 -> b <> CMOS_STATUSC ->
  GET_CMOS (put CMOS_STATUSC v s) b = GET_CMOS s b.
Proof.
  intros Hs Hb Hne. rewrite GET_put; [|apply Hs|const_range|done].
  by rewrite (proj2 (Z.eqb_neq _ _)).
Qed.

Lemma put_status_bits v s i : sane s -> 0 <= i < 8 ->
  Z.testbit (GET_CMOS (put CMOS_STATUSC v s) CMOS_STATUSC) i = Z.testbit v i.
Proof.
  intros Hs Hi. rewrite GET_put; [|apply Hs|const_range|const_range].
  rewrite Z.eqb_refl. by apply testbit_u8.
Qed.

(** Recording an event other than the flag itself. *)
Lemma put_event s e : rtc_ok s -> Z.testbit e 7 = false ->
  flagged e s (put CMOS_STATUSC (Z.lor (GET_CMOS s CMOS_STATUSC) e) s).
Proof.
  intros [H1 H2 H3 H4] He. split.
  - constructor; try done; [by apply sane_put|].
    change (irq_asserted (pic s) 8 = IRQF (put CMOS_STATUSC (Z.lor (GET_CMOS s CMOS_STATUSC) e) s)).
    rewrite H4. unfold IRQF. rewrite put_status_bits by (done || lia).
    by rewrite Z.lor_spec, He, orb_false_r.
  - intros b Hb Hne. by apply put_status_rest.
  - intros i Hi. rewrite put_status_bits by (done || lia). apply Z.lor_spec.
Qed.

(** Setting the flag and raising the line. *)
Lemma wp_flag s (Q : unit -> rtc P -> Prop) :
  rtc_ok s -> (forall s', flagged 0 s s' -> Q tt s') ->
  wp (SET_CMOS CMOS_STATUSC (Z.lor (GET_CMOS s CMOS_STATUSC) 128) ;; on_pic (irq_request 8)) s Q.
Proof.
  intros [H1 H2 H3 H4] HQ. wp_step. apply wp_SET, wp_on_pic.
  eapply wp_mono; [apply irq_request_law; [exact H2|lia]|]. intros [] p (Hp & Ha & _).
  set (s1 := put CMOS_STATUSC (Z.lor (GET_CMOS s CMOS_STATUSC) 128) s).
  apply HQ. split.
  - constructor; simpl; try done; [by apply sane_put|]. rewrite Ha. symmetry.
    change (IRQF s1 = true). unfold IRQF, s1.
    rewrite put_status_bits by (done || lia). rewrite Z.lor_spec. apply orb_true_r.
  - intros b Hb Hne. by apply (put_status_rest _ s b).
  - intros i Hi. change (GET_CMOS (s1 <| pic := p |>) CMOS_STATUSC) with (GET_CMOS s1 CMOS_STATUSC).
    unfold s1. rewrite put_status_bits by (done || lia). rewrite Z.lor_spec.
    change 128 with (2 ^ 7). rewrite Z.pow2_bits_eqb, Z.testbit_0_l by lia.
    by rewrite (proj2 (Z.eqb_neq _ _)) by lia.
Qed.

Lemma wp_raise_irq e n s (Q : unit -> rtc P -> Prop) :
  rtc_ok s -> Z.testbit e 7 = false -> (forall s', flagged e s s' -> Q tt s') ->
  wp (raise_irq e n) s Q.
Proof.
  intros Hs He HQ. unfold raise_irq. wp_step. apply wp_get. wp_step. apply wp_SET.
  pose proof (put_event s e Hs He) as Hf. wp_step. apply wp_get.
  destruct (truth _ && _); [|by wp_step; apply HQ].
  apply wp_flag; [apply Hf|]. intros s' Hs'. apply HQ. by eapply flagged_trans.
Qed.

Lemma ho_raise_irq e n : Z.testbit e 7 = false -> holds_ok (raise_irq e n).
Proof. intros He s Hs. apply wp_raise_irq; [done..|]. by intros s' []. Qed.

Lemma ho_rtc_run t : holds_ok (rtc_run false t).
Proof.
  intros s Hs. unfold rtc_run. wp_step. apply wp_get.
  assert (forall f, (forall s, subst (f s) = subst s /\ pic (f s) = pic s /\ address (f s) = address s) ->
    forall s, rtc_ok s -> rtc_ok (f s)) as Hf.
  { intros f Hf s1 Hs1. exact (ho_modify f Hf s1 Hs1). }
  destruct (last_time s) as [last|]; [|apply wp_modify; by apply (Hf (fun s => s <| last_time := Some t |>))].
  destruct (_ || _); [apply wp_modify; by apply (Hf (fun s => s <| last_time := Some t |>))|].
  wp_step. apply wp_modify. wp_step. apply wp_get.
  match goal with |- wp _ ?st _ => set (s1 := st) end.
  assert (rtc_ok s1) as Hs1.
  { unfold s1. apply (Hf (fun s => s <| q_ticks_m ::= fun q => u64 (q + u64 ((t - last) *
      rtc_get_rate (Z.land (GET_CMOS s CMOS_STATUSA) 15))) |> <| last_time := Some t |>)); done. }
  clearbody s1. destruct (1000000 <=? q_ticks_m s1); [|by wp_step].
  wp_step. apply wp_SET. destruct (put_event s1 64 Hs1 eq_refl) as [Hs2 _ _].
  set (s2 := put CMOS_STATUSC (Z.lor (GET_CMOS s1 CMOS_STATUSC) 64) s1) in *.
  wp_step. apply wp_get. wp_step.
  assert (forall s3, rtc_ok s3 -> wp (if negb (truth (Z.land (GET_CMOS s1 CMOS_STATUSC) 64))
    then modify (fun s => s <| q_ticks_m ::= fun q => u64 (q - 1000000) |>) else ret tt) s3
    (fun _ s' => rtc_ok s')) as Hend.
  { intros s3 Hs3. destruct (negb _); [|by wp_step]. apply wp_modify.
    by apply (Hf (fun s => s <| q_ticks_m ::= fun q => u64 (q - 1000000) |>)). }
  destruct (truth _ && _); [|wp_step; by apply Hend]. apply wp_flag; [done|].
  intros s3 []. by apply Hend.
Qed.

Ltac ho_tac :=
  repeat lazymatch goal with
  | |- holds_ok (ret _) => apply ho_ret
  | |- holds_ok get => apply ho_get
  | |- holds_ok (rtc_run false _) => apply ho_rtc_run
  | |- holds_ok (raise_irq _ _) => apply ho_raise_irq; reflexivity
  | |- holds_ok (SET_CMOS _ _) => apply ho_SET; [const_range|discriminate]
  | |- holds_ok (modify _) => apply ho_modify; intros ?; split_and!; reflexivity
  | |- holds_ok (bind _ _) => apply ho_bind; [|intros ?]
  | |- holds_ok (if _ then _ else _) => apply ho_if
  | |- holds_ok (let _ := _ in _) => cbv zeta
  end.

Lemma ho_next_second : holds_ok (next_second (P := P)).
Proof. unfold next_second, next_day. ho_tac. Qed.

Lemma ho_rtc_update : holds_ok rtc_update.
Proof.
  unfold rtc_update, next_second, next_day, rtc_alarm_check. ho_tac.
Qed.

(** Reading status C clears the flag and lowers the line. *)
Lemma ho_ack t (v : Z) : holds_ok (SET_CMOS CMOS_STATUSC 0 ;; on_pic (irq_untrigger 8) ;; rtc_run false t ;; ret v).
Proof.
  intros s [H1 H2 H3 H4]. wp_step. apply wp_SET. wp_step. apply wp_on_pic.
  eapply wp_mono; [apply irq_untrigger_law; [exact H2|lia]|]. intros [] p (Hp & Ha & _).
  apply (ho_bind _ _ (ho_rtc_run t) (fun _ => ho_ret v)).
  constructor; simpl; try done; [by apply sane_put|]. rewrite Ha. symmetry.
  change (IRQF (put CMOS_STATUSC 0 s) = false). unfold IRQF.
  rewrite GET_put; [|apply H1|const_range|const_range]. done.
Qed.

Lemma ho_rtc_read t reg : holds_ok (rtc_read false t reg).
Proof.
  unfold rtc_read. apply ho_bind; [apply ho_get|]. intros s. apply ho_if; [apply ho_ret|].
  apply ho_if; [apply ho_ret|]. apply ho_if; [apply ho_ack|apply ho_ret].
Qed.

Lemma ho_rtc_write reg b : 0 <= reg < 64 -> holds_ok (rtc_write reg b).
Proof.
  intros Hr. unfold rtc_write. apply ho_bind; [|intros _; by apply ho_modify].
  destruct (Z.eqb_spec reg CMOS_STATUSC) as [->|Hne]; [exact (ho_ret tt)|].
  repeat apply ho_if; try apply ho_ret; by apply ho_SET.
Qed.

Lemma ho_cmos_read t port : holds_ok (cmos_read false t port).
Proof.
  unfold cmos_read. apply ho_if; [apply ho_ret|]. apply ho_bind; [apply ho_get|]. intros s.
  apply ho_if; [apply ho_rtc_read|]. ho_tac.
Qed.

Definition address_mask : bool := all_below 256 (fun b => let a := Z.land b (Z.lnot 192) in (0 <=? a) && (a <? 64)).

Lemma address_in_range b : 0 <= b < 256 -> 0 <= Z.land b (Z.lnot 192) < 64.
Proof.
  intros Hb. assert (address_mask = true) as H by (vm_compute; reflexivity).
  pose proof (all_below_spec _ _ b H Hb) as H'. simpl in H'. rewrite andb_true_iff, Z.leb_le, Z.ltb_lt in H'. lia.
Qed.

Lemma ho_cmos_write port b : 0 <= b < 256 -> holds_ok (cmos_write port b).
Proof.
  intros Hb. unfold cmos_write. destruct (port =? 112).
  - intros s [H1 H2 H3 H4]. apply wp_modify. constructor; simpl; try done. by apply address_in_range.
  - intros s Hs. wp_step. apply wp_get. pose proof (ro_addr _ Hs).
    destruct (Z.leb_spec (address s) 13).
    + by apply ho_rtc_write.
    + apply ho_SET; [done|unfold CMOS_STATUSC; lia|done].
Qed.

End line.

Inductive rtc_op :=
| RtcSecond                          (* rtc_update *)
| RtcRun (now : Z)                   (* rtc_run *)
| RtcIn (now port : Z)               (* cmos_read *)
| RtcOut (port byte : Z).            (* cmos_write *)

Definition rtc_run_op {P} {SK : IrqSink P} (op : rtc_op) : M (rtc P) unit :=
  match op with
  | RtcSecond => rtc_update
  | RtcRun t => rtc_run false t
  | RtcIn t p => cmos_read false t p ;; ret tt
  | RtcOut p b => cmos_write p b
  end.

Fixpoint rtc_run_ops {P} {SK : IrqSink P} (ops : list rtc_op) : M (rtc P) unit :=
  match ops with
  | [] => ret tt
  | op :: ops => rtc_run_op op ;; rtc_run_ops ops
  end.

Definition rtc_op_ok (op : rtc_op) : Prop :=
  match op with RtcOut _ b => 0 <= b < 256 | _ => True end.

Lemma ho_ops {P} {SK : IrqSink P} {SL : IrqSinkLaws P} ops :
  Forall rtc_op_ok ops -> holds_ok (rtc_run_ops ops).
Proof.
  induction 1 as [|op ops Hop _ IH]; simpl; [apply ho_ret|]. apply ho_bind; [|by intros _].
  destruct op; simpl.
  - apply ho_rtc_update.
  - apply ho_rtc_run.
  - apply ho_bind; [apply ho_cmos_read|]. intros _. apply ho_ret.
  - by apply ho_cmos_write.
Qed.

(** ** Properties *)

Lemma tick_dow d : valid_date d -> d_cent d < 255 ->
  d_dow (tick d) = (d_dow d - 1 + (day_number (tick d) - day_number d)) mod 7 + 1.
Proof.
  intros Hv Hc. pose proof (tomorrow_number d Hv Hc) as Hn. pose proof (v_dow _ Hv) as Hd.
  assert (d_dow (tomorrow d) = d_dow d mod 7 + 1) as Ht.
  { assert (d_dow (tomorrow d) = if d_dow d =? 7 then 1 else d_dow d + 1) as ->
      by (unfold tomorrow; repeat destruct (_ <? _); done).
    destruct (Z.eqb_spec (d_dow d) 7) as [->|]; [done|]. by rewrite Z.mod_small by lia. }
  unfold tick. repeat destruct (_ <? _).
  1: { rewrite Hn, Ht. do 2 f_equal. lia. }
  all: unfold day_number, year_of; simpl; rewrite Z.mod_small; lia.
Qed.

Definition bcd_inverse : bool := all_below 100 (fun v => BIN (bcd v) =? v).
Lemma BIN_bcd v : 0 <= v <= 99 -> BIN (bcd v) = v.
Proof.
  intros Hv. assert (bcd_inverse = true) as H by (vm_compute; reflexivity).
  assert (0 <= v < 100) as Hv' by lia. pose proof (all_below_spec _ _ v H Hv'). by apply Z.eqb_eq.
Qed.

Definition clock_registers : bool :=
  all_below 10 (fun r => (is_time_reg r || is_hour_reg r) && (Z.land r (Z.lnot 192) =? r)).
Lemma clock_register r : 0 <= r <= 9 ->
  is_time_reg r || is_hour_reg r = true /\ Z.land r (Z.lnot 192) = r.
Proof.
  intros Hr. assert (clock_registers = true) as H by (vm_compute; reflexivity).
  assert (0 <= r < 10) as Hr' by lia. pose proof (all_below_spec _ _ r H Hr') as H1. simpl in H1.
  by rewrite andb_true_iff, Z.eqb_eq in H1.
Qed.
Lemma time_or_hour r : 0 <= r <= 9 -> is_time_reg r || is_hour_reg r = true.
Proof. apply clock_register. Qed.
Lemma small_address r : 0 <= r <= 9 -> Z.land r (Z.lnot 192) = r.
Proof. apply clock_register. Qed.

Section properties.
Context {P : Type} {SK : IrqSink P} {SL : IrqSinkLaws P}.
Implicit Types s : rtc P.

(** The registers a date is read from. *)
Lemma date_of_ext s s' :
  (forall b, b ∈ clock_regs -> GET_CMOS s' b = GET_CMOS s b) -> date_of s' = date_of s.
Proof. intros H. unfold date_of. f_equal; apply H; regs_elem. Qed.

Lemma clock_regs_range b : b ∈ clock_regs -> 0 <= b < 64 /\ b <> CMOS_STATUSC /\ b <> CMOS_STATUSA.
Proof.
  intros H. assert (Forall (fun b => 0 <= b < 64 /\ b <> CMOS_STATUSC /\ b <> CMOS_STATUSA) clock_regs) as HF
    by (apply (bool_decide_unpack _); vm_compute; exact I).
  rewrite Forall_forall in HF. by apply HF.
Qed.

Lemma flagged_date e s s' : flagged e s s' -> date_of s' = date_of s.
Proof.
  intros [_ H _]. apply date_of_ext. intros b Hb. destruct (clock_regs_range b Hb) as (? & ? & _).
  by apply H.
Qed.

Lemma wp_alarm_check s (Q : unit -> rtc P -> Prop) :
  rtc_ok s -> (forall s', rtc_ok s' -> date_of s' = date_of s -> Q tt s') -> wp rtc_alarm_check s Q.
Proof.
  intros Hs HQ. unfold rtc_alarm_check. wp_step. apply wp_get. destruct (alarm_due s).
  - wp_step. apply wp_modify. apply wp_raise_irq; [by destruct Hs|done|]. intros s' Hf.
    apply HQ; [apply Hf|]. by rewrite (flagged_date _ _ _ Hf).
  - wp_step. by apply HQ.
Qed.

Lemma ok_put b v s : 0 <= b < 64 -> b <> CMOS_STATUSC -> rtc_ok s -> rtc_ok (put b v s).
Proof. intros Hb Hne Hs. exact (ho_SET b v Hb Hne s Hs). Qed.

(** C38: the calendar.  With a valid date in the registers and updates enabled,
    [rtc_update] does not fault and advances the clock by exactly one second:
    the new date is valid, its distance from the epoch is one second more, the day
    of the week follows, the update-ended event is recorded and
    update-in-progress is clear again. *)
Theorem rtc_update_correct s :
  rtc_ok s -> valid_date (date_of s) -> d_cent (date_of s) < 255 ->
  Z.testbit (GET_CMOS s CMOS_STATUSB) 7 = false ->
  exists s', rtc_update s = Ok (tt, s') /\ rtc_ok s' /\ valid_date (date_of s') /\
    second_number (date_of s') = second_number (date_of s) + 1 /\
    d_dow (date_of s') =
      (d_dow (date_of s) - 1 + (day_number (date_of s') - day_number (date_of s))) mod 7 + 1 /\
    Z.testbit (GET_CMOS s' CMOS_STATUSC) 4 = true /\
    Z.testbit (GET_CMOS s' CMOS_STATUSA) 7 = false.
Proof.
  intros Hs Hv Hc Hset. cut (wp rtc_update s (fun _ s' => rtc_ok s' /\ date_of s' = tick (date_of s) /\
    Z.testbit (GET_CMOS s' CMOS_STATUSC) 4 = true /\ Z.testbit (GET_CMOS s' CMOS_STATUSA) 7 = false)).
  { intros H. destruct (wp_inv _ _ _ H) as ([] & s' & E & Hs' & Hd & H1 & H2). exists s'. rewrite Hd.
    destruct (tick_correct _ Hv Hc) as [Hv' Hn]. pose proof (tick_dow _ Hv Hc). by split_and!. }
  unfold rtc_update. wp_step. apply wp_get. rewrite test_irqf, Hset. wp_step. apply wp_SET.
  set (s1 := put CMOS_STATUSA (Z.lor (GET_CMOS s CMOS_STATUSA) 128) s).
  assert (rtc_ok s1) as Hs1 by (apply ok_put; [const_range|discriminate|done]).
  assert (date_of s1 = date_of s) as Hd1.
  { apply date_of_ext. intros b Hb. destruct (clock_regs_range b Hb) as (? & _ & ?). unfold s1.
    rewrite GET_put; [|apply Hs|const_range|done]. by rewrite (proj2 (Z.eqb_neq _ _)). }
  wp_step. eapply wp_mono.
  { apply wp_both; [exact (ho_next_second s1 Hs1)|]. apply wp_next_second with (Q := fun _ s' => date_of s' = tick (date_of s1));
      [apply Hs1|by rewrite Hd1| |by intros].
    change (d_cent (date_of s1) < 255). by rewrite Hd1. }
  intros [] s2 [Hs2 Hd2]. wp_step. apply wp_alarm_check; [done|]. intros s3 Hs3 Hd3.
  wp_step. apply wp_raise_irq; [done..|]. intros s4 Hf. pose proof (fl_ok _ _ _ Hf) as Hs4.
  wp_step. apply wp_get, wp_SET. split_and!.
  - apply ok_put; [const_range|discriminate|done].
  - rewrite <- Hd1, <- Hd2, <- Hd3, <- (flagged_date _ _ _ Hf). apply date_of_ext. intros b Hb.
    destruct (clock_regs_range b Hb) as (? & _ & ?).
    rewrite GET_put; [|apply Hs4|const_range|done]. by rewrite (proj2 (Z.eqb_neq _ _)).
  - rewrite GET_put; [|apply Hs4|const_range|const_range]. change (CMOS_STATUSC =? CMOS_STATUSA) with false.
    cbv iota. rewrite (fl_bits _ _ _ Hf) by lia. apply orb_true_r.
  - rewrite GET_put; [|apply Hs4|const_range|const_range]. rewrite Z.eqb_refl, testbit_u8, Z.land_spec by lia.
    apply andb_false_r.
Qed.

(** The interrupt line.  Any sequence of seconds, timer runs and port accesses
    runs without a fault, and after it IRQ 8 is raised exactly when the IRQ flag of
    status register C is set. *)
Theorem rtc_line_follows_flag s ops :
  rtc_ok s -> Forall rtc_op_ok ops ->
  exists s', rtc_run_ops ops s = Ok (tt, s') /\ rtc_ok s' /\
    irq_asserted (pic s') 8 = Z.testbit (GET_CMOS s' CMOS_STATUSC) 7.
Proof.
  intros Hs Hops. destruct (wp_inv _ _ _ (ho_ops ops Hops s Hs)) as ([] & s' & E & Hs').
  exists s'. split_and!; [done|done|apply Hs'].
Qed.

(** BCD access.  In BCD, 24-hour mode a two-digit value written to a time,
    alarm or date register through ports 0x70 and 0x71 is stored in binary and
    read back unchanged. *)
Theorem rtc_bcd_roundtrip s now reg v :
  rtc_ok s -> 0 <= reg <= 9 -> 0 <= v <= 99 ->
  Z.testbit (GET_CMOS s CMOS_STATUSB) 2 = false -> Z.testbit (GET_CMOS s CMOS_STATUSB) 1 = true ->
  exists s', (cmos_write 112 reg ;; cmos_write 113 (bcd v) ;; cmos_read false now 113) s = Ok (bcd v, s') /\
    GET_CMOS s' reg = v.
Proof.
  intros Hs Hr Hv HB H24.
  cut (wp (cmos_write 112 reg ;; cmos_write 113 (bcd v) ;; cmos_read false now 113) s
    (fun r s' => r = bcd v /\ GET_CMOS s' reg = v)).
  { intros H. destruct (wp_inv _ _ _ H) as (r & s' & E & -> & Hg). eauto. }
  set (s2 := (put reg v (s <| address := reg |>)) <| q_ticks_m := 0 |>).
  assert (GET_CMOS s2 reg = v) as Hg.
  { change (GET_CMOS (put reg v (s <| address := reg |>)) reg = v).
    rewrite GET_put_sane by (lia || apply Hs). by rewrite Z.eqb_refl. }
  assert (GET_CMOS s2 CMOS_STATUSB = GET_CMOS s CMOS_STATUSB) as Hb.
  { change (GET_CMOS (put reg v (s <| address := reg |>)) CMOS_STATUSB = GET_CMOS s CMOS_STATUSB).
    rewrite GET_put_sane by (lia || apply Hs || const_range).
    by rewrite (proj2 (Z.eqb_neq _ _)) by (unfold CMOS_STATUSB; lia). }
  unfold cmos_write at 1. change (112 =? 112) with true. cbv iota. wp_step. apply wp_modify.
  rewrite (small_address reg Hr). unfold cmos_write. change (113 =? 112) with false. cbv iota.
  wp_step. wp_step. apply wp_get. change (address (s <| address := reg |>)) with reg.
  rewrite (proj2 (Z.leb_le reg 13)) by lia. unfold rtc_write. rewrite (time_or_hour reg Hr).
  wp_step. apply wp_SET. rewrite (BIN_bcd v Hv). apply wp_modify. fold s2.
  unfold cmos_read. change (negb (113 =? 113)) with false. cbv iota. wp_step. apply wp_get.
  change (address s2) with reg. rewrite (proj2 (Z.leb_le reg 13)) by lia.
  unfold rtc_read. wp_step. apply wp_get. rewrite Hg, Hb.
  assert (BCD s2 v = bcd v) as HBCD.
  { unfold BCD. rewrite Hb. change 4 with (Z.shiftl 1 2). rewrite land_shiftl_bit by lia. by rewrite HB. }
  change 2 with (Z.shiftl 1 1). rewrite land_shiftl_bit, H24 by lia. simpl negb. cbv iota. rewrite HBCD.
  pose proof (time_or_hour reg Hr) as Ht. destruct (is_time_reg reg); [by wp_step|].
  simpl in Ht. rewrite Ht. by wp_step.
Qed.

End properties.

(** ** Concrete runs *)

Lemma bytes_of_Forall {P} (s : rtc P) : Forall (fun v => 0 <= v < 256) (subst s) -> bytes s.
Proof.
  intros H b. unfold GET_CMOS. destruct (aget (subst s) (Z.land b 63)) as [v|] eqn:E; [|lia].
  unfold aget in E. destruct (_ <? _); [done|]. exact (Forall_lookup_1 _ _ _ _ H E).
Qed.

(** A freshly initialised CMOS at 23:59:59 on Friday, 31 December 1999, with the
    update interrupt enabled. *)
Definition new_years_eve : rtc pics :=
  let blank := MkRtc [] [] 0 None 0 255 0 pic_init in
  let boot := cmos_init (MkCmosConfig 1 4 0 1 true 640 8192) ;;
              set_cmos_time (MkTm 59 59 23 31 11 99 5 364 0) ;;
              SET_CMOS CMOS_STATUSB 18 in
  match boot blank with Ok (_, s) => s | Fault _ => blank end.

Lemma new_years_eve_ok : rtc_ok new_years_eve.
Proof.
  constructor.
  - split; [by vm_compute|]. apply bytes_of_Forall. apply (bool_decide_unpack _). vm_compute. exact I.
  - exact pic_init_ok.
  - vm_compute. split; congruence.
  - vm_compute. reflexivity.
Qed.

Lemma rtc_update_correct_witness :
  exists s', rtc_update new_years_eve = Ok (tt, s') /\ date_of s' = MkDate 0 0 0 7 1 1 0 20 /\
    second_number (date_of s') = second_number (date_of new_years_eve) + 1.
Proof.
  destruct (rtc_update_correct new_years_eve new_years_eve_ok) as (s' & E & _ & _ & Hn & _).
  - constructor; vm_compute; split; congruence.
  - vm_compute. reflexivity.
  - vm_compute. reflexivity.
  - exists s'. split; [exact E|]. split; [|exact Hn].
    apply (outcome_eq (fun _ s => date_of s) _ _ _ _ _ E). vm_compute. reflexivity.
Defined.

(** A second with the update interrupt enabled, the handler's read of status C,
    and the periodic interrupt switched on and run for half a second. *)
Definition example_rtc_ops : list rtc_op :=
  [RtcSecond; RtcOut 112 12; RtcIn 0 113; RtcOut 112 11; RtcOut 113 66; RtcRun 0; RtcRun 500000].

Lemma rtc_line_follows_flag_witness :
  exists s', rtc_run_ops example_rtc_ops new_years_eve = Ok (tt, s') /\
    irq_asserted (pic s') 8 = true /\ Z.testbit (GET_CMOS s' CMOS_STATUSC) 7 = true.
Proof.
  destruct (rtc_line_follows_flag new_years_eve example_rtc_ops new_years_eve_ok) as (s' & E & _ & H).
  - unfold example_rtc_ops. repeat (apply Forall_cons_2; [simpl; first [exact I|lia]|]). apply Forall_nil_2.
  - exists s'. split; [exact E|]. rewrite H. split.
    all: apply (outcome_eq (fun _ s => Z.testbit (GET_CMOS s CMOS_STATUSC) 7) _ _ _ _ _ E);
      vm_compute; reflexivity.
Defined.

Lemma rtc_bcd_roundtrip_witness :
  exists s', (cmos_write 112 CMOS_MIN ;; cmos_write 113 (bcd 47) ;; cmos_read false 0 113) new_years_eve =
    Ok (71, s') /\ GET_CMOS s' CMOS_MIN = 47.
Proof.
  apply (rtc_bcd_roundtrip new_years_eve 0 CMOS_MIN 47 new_years_eve_ok).
  all: vm_compute; try split; congruence.
Defined.

(** ** Ticks since midnight *)

Record valid_tm (t : tm) : Prop := {
  vt_sec : 0 <= tm_sec t <= 59;
  vt_min : 0 <= tm_min t <= 59;
  vt_hour : 0 <= tm_hour t <= 23;
  vt_mday : 1 <= tm_mday t <= 31;
  vt_mon : 0 <= tm_mon t <= 11;
  vt_year : 0 <= tm_year t <= 8099;
  vt_wday : 0 <= tm_wday t <= 6;
  vt_usec : 0 <= tv_usec t < 1000000;
}.

Lemma day_ticks_range t : valid_tm t -> 0 <= day_ticks t <= FREEDOS_TICKS_IN_A_DAY.
Proof.
  intros []. unfold day_ticks, FREEDOS_TICKS_IN_A_DAY. rewrite (Z.quot_div_nonneg (tv_usec t)) by lia.
  assert (0 <= tv_usec t / 10000 < 100) as Hu
    by (split; [apply Z.div_pos|apply Z.div_lt_upper_bound]; lia).
  set (u := tv_usec t / 10000) in *. rewrite Z.quot_div_nonneg by lia.
  split; [apply Z.div_pos; lia|]. apply Z.lt_succ_r, Z.div_lt_upper_bound; lia.
Qed.

Lemma linux_ticks_correct t wanted last : valid_tm t ->
  let '(ticks, rollover, last') := linux_ticks t wanted last in
  0 <= ticks <= FREEDOS_TICKS_IN_A_DAY /\ 0 <= rollover <= 255 /\
  (wanted = true -> last <> 0 -> days_from_1970 t < last -> ticks = 0 /\ rollover = 0 /\ last' = last) /\
  (wanted = true -> last <> 0 -> last <= days_from_1970 t ->
     ticks = day_ticks t /\ rollover = Z.min 255 (days_from_1970 t - last) /\ last' = days_from_1970 t).
Proof.
  intros Hv. pose proof (day_ticks_range t Hv) as Ht. unfold linux_ticks.
  destruct (Z.eqb_spec last 0); destruct wanted; destruct (Z.ltb_spec (days_from_1970 t - last) 0);
    destruct (Z.ltb_spec 0 (days_from_1970 t - last)); unfold FREEDOS_TICKS_IN_A_DAY in *;
    rewrite ?Z.sub_diag; simpl; try lia.
Qed.

(** The date a host time stands for. *)
Definition tm_date (t : tm) : date :=
  let year := 1900 + tm_year t in
  MkDate (tm_sec t) (tm_min t) (tm_hour t) (tm_wday t + 1) (tm_mday t) (tm_mon t + 1)
    (year mod 100) (year / 100).

Lemma wp_set_cmos_time {P} (s : rtc P) t (Q : unit -> rtc P -> Prop) : sane s -> valid_tm t ->
  (forall s', date_of s' = tm_date t -> Q tt s') -> wp (set_cmos_time t) s Q.
Proof.
  intros Hs [] HQ. unfold set_cmos_time. rewrite Z.quot_div_nonneg by lia.
  assert (1900 + tm_year t - 100 * ((1900 + tm_year t) / 100) = (1900 + tm_year t) mod 100) as -> by
    (rewrite Z.mod_eq; lia).
  pose proof (Z.mod_pos_bound (1900 + tm_year t) 100 ltac:(lia)).
  assert (0 <= (1900 + tm_year t) / 100 < 256) by
    (split; [apply Z.div_pos|apply Z.div_lt_upper_bound]; lia).
  unfold tm_date in HQ. cbv zeta in HQ.
  set (y := (1900 + tm_year t) mod 100) in *. set (c := (1900 + tm_year t) / 100) in *. clearbody y c.
  wp_step. apply wp_SET. wp_step. apply wp_SET. wp_step. apply wp_SET. wp_step. apply wp_SET.
  wp_step. apply wp_SET. wp_step. apply wp_SET. wp_step. apply wp_SET, wp_SET.
  apply HQ. unfold date_of. f_equal; gets; reflexivity.
Qed.

(** DOS time of day.  For a host time without a leap second the tick count is
    never more than FreeDOS's ticks in a day; a host clock that moves back over
    midnight reads as 0 and keeps the day; a later day reports at most 255 days;
    with [set_cmos] the clock registers hold the host's date and time. *)
Theorem get_linux_ticks_correct {P} (s : rtc P) t set_cmos wanted last : sane s -> valid_tm t ->
  exists ticks rollover last' s',
    get_linux_ticks t set_cmos wanted last s = Ok (ticks, rollover, last', s') /\
    date_of s' = (if set_cmos then tm_date t else date_of s) /\
    0 <= ticks <= FREEDOS_TICKS_IN_A_DAY /\ 0 <= rollover <= 255 /\
    (wanted = true -> last <> 0 -> days_from_1970 t < last -> ticks = 0 /\ rollover = 0 /\ last' = last) /\
    (wanted = true -> last <> 0 -> last <= days_from_1970 t ->
       ticks = day_ticks t /\ rollover = Z.min 255 (days_from_1970 t - last) /\ last' = days_from_1970 t).
Proof.
  intros Hs Hv. pose proof (linux_ticks_correct t wanted last Hv) as H.
  assert (wp (get_linux_ticks t set_cmos wanted last) s (fun r s' => r = linux_ticks t wanted last /\
    date_of s' = (if set_cmos then tm_date t else date_of s))) as Hw.
  { unfold get_linux_ticks. wp_step. destruct set_cmos.
    - apply wp_set_cmos_time; [done..|]. intros s' E. by wp_step.
    - wp_step. by wp_step. }
  destruct (wp_inv _ _ _ Hw) as ([[ticks ro] l'] & s' & E & Er & Ed). rewrite <- Er in H.
  by exists ticks, ro, l', s'.
Qed.

(** The last second of 1999: the registers are set, and a call that finds the
    host clock a day back reads 0. *)
Lemma get_linux_ticks_correct_witness :
  exists s', get_linux_ticks (MkTm 59 59 23 31 11 99 5 364 990000) true true 10957 new_years_eve =
    Ok (0, 0, 10957, s') /\ date_of s' = MkDate 59 59 23 6 31 12 99 19.
Proof.
  destruct (get_linux_ticks_correct new_years_eve (MkTm 59 59 23 31 11 99 5 364 990000) true true 10957)
    as (ticks & ro & l' & s' & E & Ed & _ & _ & Hb & _).
  - exact (ro_sane _ new_years_eve_ok).
  - constructor; vm_compute; split; congruence.
  - destruct Hb as (-> & -> & ->); [reflexivity|discriminate|vm_compute; reflexivity|].
    exists s'. split; [exact E|exact Ed].
Defined.

Fixpoint seconds (n : nat) : M (rtc pics) unit :=
  match n with O => ret tt | S n => rtc_update ;; seconds n end.

(** An alarm on a fixed second of every minute (minute and hour registers set
    to don't-care) is recorded the first time and not a minute later, although the
    program has read status C in between. *)
Theorem rtc_minute_alarm_fires_once :
  outcome (fun r _ => r)
    (cmos_write 112 CMOS_SECALRM ;; cmos_write 113 5 ;;
     SET_CMOS CMOS_MINALRM 255 ;; SET_CMOS CMOS_HOURALRM 255 ;; cmos_write 112 CMOS_STATUSC ;;
     seconds 6 ;; let! first := cmos_read false 0 113 in
     seconds 60 ;; let! second := cmos_read false 0 113 in
     let! s := get in
     ret (GET_CMOS s CMOS_SEC, Z.testbit first 5, Z.testbit second 5)) new_years_eve =
  Some (5, true, false).
Proof. vm_compute. reflexivity. Qed.

(** In binary mode (status B, bit 2) a register written with a value that is
    not a BCD numeral does not hold it: 47 reads back as 255. *)
Theorem rtc_binary_write_corrupted :
  outcome (fun r s => (r, GET_CMOS s CMOS_MIN))
    (cmos_write 112 CMOS_STATUSB ;; cmos_write 113 6 ;;
     cmos_write 112 CMOS_MIN ;; cmos_write 113 47 ;; cmos_read false 0 113) new_years_eve =
  Some (255, 255).
Proof. vm_compute. reflexivity. Qed.
