(* ===== verification/Ringbuf.v ===== *)
(** * Ring buffers (src/src/base/lib/misc/ringbuf.c, src/src/include/ringbuf.h)

    The byte-level model of [struct rng_s]: objects of [objsize] bytes in a
    circular buffer.  Objects passed in are byte lists (the caller's memory);
    a [buf] the code may be given as NULL is a boolean "wanted".  RingbufSpec
    shows that it implements a bounded double-ended queue. *)

From stdpp Require Import base numbers list.
From Stdlib Require Import ZArith Lia.
From S2P Require Import Prelude.

Local Open Scope Z_scope.

Record rng_s := MkRng {
  buffer : option (list Z);     (* unsigned char *; None is NULL *)
  objnum : Z; objsize : Z;      (* unsigned int *)
  objcnt : Z; tail : Z;
  allow_ovw : bool;
  need_free : bool;
}.
#[export] Instance eta_rng : Eta rng_s :=
  fun s => MkRng s.(buffer) s.(objnum) s.(objsize) s.(objcnt) s.(tail) s.(allow_ovw) s.(need_free).

Abbreviation G := (M rng_s).

(** Unsigned remainder; the machine traps on 0. *)
Definition umod (a b : Z) : G Z := if b =? 0 then throw DivisionByZero else ret (a mod b).

(** [memcpy] out of and into the buffer at byte [pos]. *)
Definition in_buffer (b : list Z) (pos n : Z) : bool :=
  (0 <=? pos) && (pos + n <=? Z.of_nat (length b)).

Definition read_at (pos n : Z) : G (list Z) :=
  let! s := get in
  match buffer s with
  | None => throw BadPointer
  | Some b => if in_buffer b pos n then ret (take (Z.to_nat n) (drop (Z.to_nat pos) b))
              else throw OutOfBounds
  end.

Definition overwrite (b : list Z) (pos : Z) (obj : list Z) : list Z :=
  take (Z.to_nat pos) b ++ obj ++ drop (Z.to_nat pos + length obj) b.

(** Copies [n] bytes of [obj]. *)
Definition write_at (pos n : Z) (obj : list Z) : G unit :=
  let! s := get in
  match buffer s with
  | None => throw BadPointer
  | Some b => if in_buffer b pos n && (n <=? Z.of_nat (length obj))
              then modify (fun s => s <| buffer := Some (overwrite b pos (take (Z.to_nat n) obj)) |>)
              else throw OutOfBounds
  end.

Definition rng_init_pool (num size : Z) (buf : list Z) : G unit :=
  modify (fun _ => MkRng (Some buf) (u32 num) (u32 size) 0 0 true false).

(** [calloc] returns zeroed memory of the product of its arguments. *)
Definition rng_init (num size : Z) : G unit :=
  rng_init_pool num size (replicate (Z.to_nat (num * size)) 0) ;;
  modify (fun s => s <| need_free := true |>).

Definition rng_allow_ovw (on : bool) : G unit := modify (fun s => s <| allow_ovw := on |>).

Definition rng_destroy : G Z :=
  let! s := get in
  modify (fun s => s <| buffer := None |> <| objcnt := 0 |>) ;;
  ret (i32 (objcnt s)).

(** The result is the return value and, when wanted, the object. *)
Definition rng_get (wanted : bool) : G (Z * option (list Z)) :=
  let! s := get in
  if negb (truth (objcnt s)) then ret (0, None)
  else
    let! obj := (if wanted then let! o := read_at (tail s) (objsize s) in ret (Some o) else ret None) in
    let! t := umod (u32 (tail s + objsize s)) (u32 (objsize s * objnum s)) in
    modify (fun s => s <| tail := t |> <| objcnt ::= fun c => u32 (c - 1) |>) ;;
    ret (1, obj).

(** Byte position of the object [idx] places after the tail. *)
Definition obj_pos (s : rng_s) (idx : Z) : G Z :=
  umod (u32 (tail s + u32 (idx * objsize s))) (u32 (objnum s * objsize s)).

Definition rng_peek (idx : Z) : G (Z * option (list Z)) :=
  let! s := get in
  if objcnt s <=? idx then ret (0, None)
  else
    let! pos := obj_pos s idx in
    let! o := read_at (i32 pos) (objsize s) in
    ret (1, Some o).

Definition rng_put (obj : list Z) : G Z :=
  let! s := get in
  let! head_pos := obj_pos s (objcnt s) in
  assert (head_pos <=? u32 (u32 (objnum s - 1) * objsize s)) ;;
  assert (objcnt s <=? objnum s) ;;
  if (objcnt s =? objnum s) && negb (allow_ovw s) then ret 0
  else
    write_at head_pos (objsize s) obj ;;
    modify (fun s => s <| objcnt ::= fun c => u32 (c + 1) |>) ;;
    let! s := get in
    let! r := (if objnum s <? objcnt s then rng_get false ;; ret 0 else ret 1) in
    let! s := get in
    assert (objcnt s <=? objnum s) ;;
    ret r.

(** The bytes of a little-endian [int]. *)
Definition int_bytes (v : Z) : list Z :=
  (fun i => Z.land (Z.shiftr (u32 v) (8 * i)) 255) <$> [0; 1; 2; 3].

Definition rng_put_const (value : Z) : G Z :=
  let! s := get in
  assert (objsize s <=? 4) ;;
  rng_put (int_bytes value).

Definition rng_push (obj : list Z) : G Z :=
  let! s := get in
  (if tail s <? objsize s then
     assert (negb (truth (tail s))) ;;
     modify (fun s => s <| tail := u32 (objsize s * u32 (objnum s - 1)) |>)
   else modify (fun s => s <| tail ::= fun t => u32 (t - objsize s) |>)) ;;
  let! s := get in
  write_at (tail s) (objsize s) obj ;;
  modify (fun s => s <| objcnt ::= fun c => u32 (c + 1) |>) ;;
  let! s := get in
  let! r := (if objnum s <? objcnt s
             then modify (fun s => s <| objcnt ::= fun c => u32 (c - 1) |>) ;; ret 0
             else ret 1) in
  let! s := get in
  assert (objcnt s <=? objnum s) ;;
  ret r.

Definition rng_push_const (value : Z) : G Z :=
  let! s := get in
  assert (objsize s <=? 4) ;;
  rng_push (int_bytes value).

Definition rng_poke (idx : Z) (obj : list Z) : G Z :=
  let! s := get in
  if objcnt s <=? idx then ret 0
  else
    let! pos := obj_pos s idx in
    write_at (i32 pos) (objsize s) obj ;;
    ret 1.

(** [rng_add] and [rng_remove] over an array of objects. *)
Fixpoint rng_add (objs : list (list Z)) : G Z :=
  match objs with
  | [] => ret 0
  | o :: objs => let! r := rng_put o in let! rest := rng_add objs in ret (r + rest)
  end.

Fixpoint rng_remove (num : nat) (wanted : bool) : G (Z * list (list Z)) :=
  let! s := get in
  match num with
  | S n =>
      if truth (objcnt s) then
        let! (r, o) := rng_get wanted in
        let! (rest, os) := rng_remove n wanted in
        ret (r + rest, match o with Some x => x :: os | None => os end)
      else ret (0, [])
  | O => ret (0, [])
  end.

Definition rng_count : G Z :=
  let! s := get in
  match buffer s with None => ret (-1) | Some _ => ret (i32 (objcnt s)) end.

(** [unsigned int] arithmetic, converted to [ssize_t]. *)
Definition rng_get_free_space : G Z :=
  let! s := get in
  match buffer s with
  | None => ret (-1)
  | Some _ => ret (u32 (u32 (objnum s - objcnt s) * objsize s))
  end.

Definition rng_clear : G unit := modify (fun s => s <| objcnt := 0 |>).
