(* ===== verification/RingbufSpec.v ===== *)
(** * Ring buffers implement a bounded double-ended queue *)

From stdpp Require Import base numbers list.
From Stdlib Require Import ZArith Lia.
From S2P Require Import Prelude Ringbuf.

Local Open Scope Z_scope.

(** ** Objects in a byte buffer *)

Definition object_at (b : list Z) (size pos : Z) : list Z :=
  take (Z.to_nat size) (drop (Z.to_nat pos) b).

Lemma object_at_overwrite (b o : list Z) (sz k j n : Z) :
  1 <= sz -> 0 <= k < n -> 0 <= j < n -> length o = Z.to_nat sz -> length b = Z.to_nat (n * sz) ->
  object_at (overwrite b (k * sz) o) sz (j * sz) = if j =? k then o else object_at b sz (j * sz).
Proof.
  intros Hsz Hk Hj Ho Hb. unfold object_at, overwrite. rewrite Ho.
  assert (length (take (Z.to_nat (k * sz)) b) = Z.to_nat (k * sz)) as Ht by (rewrite length_take; nia).
  destruct (Z.eqb_spec j k) as [->|Hne].
  - rewrite drop_app_length' by done. by rewrite take_app_length'.
  - destruct (Z.lt_ge_cases j k).
    + assert (Z.to_nat (j * sz) + Z.to_nat sz <= Z.to_nat (k * sz))%nat as Hle.
      { rewrite <- Z2Nat.inj_add by nia. apply Z2Nat.inj_le; nia. }
      rewrite drop_app_le by lia. rewrite take_app_le by (rewrite length_drop; lia).
      rewrite !take_drop_commute, take_take. do 2 f_equal. lia.
    + assert (Z.to_nat (k * sz) + Z.to_nat sz <= Z.to_nat (j * sz))%nat as Hle.
      { rewrite <- Z2Nat.inj_add by nia. apply Z2Nat.inj_le; nia. }
      rewrite drop_app_ge by lia. rewrite drop_app_ge by lia. rewrite drop_drop. do 2 f_equal. lia.
Qed.

Lemma overwrite_length (b o : list Z) pos :
  0 <= pos -> pos + Z.of_nat (length o) <= Z.of_nat (length b) ->
  length (overwrite b pos o) = length b.
Proof. intros H1 H2. unfold overwrite. rewrite !length_app, length_take, length_drop. lia. Qed.

(** ** Finite sequences by index *)

Definition tab {A} (n : Z) (f : Z -> A) : list A := f <$> zrange (Z.to_nat n).

Lemma tab_ext {A} n (f g : Z -> A) : (forall i, 0 <= i < n -> f i = g i) -> tab n f = tab n g.
Proof.
  intros H. unfold tab, zrange. rewrite <- !list_fmap_compose. apply list_fmap_ext. intros i x Hx.
  apply lookup_seq in Hx as [-> Hi]. apply H. simpl. lia.
Qed.
Lemma tab_0 {A} (f : Z -> A) : tab 0 f = [].
Proof. done. Qed.
Lemma tab_snoc {A} n (f : Z -> A) : 0 <= n -> tab (n + 1) f = tab n f ++ [f n].
Proof.
  intros Hn. unfold tab, zrange. rewrite Z2Nat.inj_add by lia. rewrite seq_app, !fmap_app. simpl.
  by rewrite Z2Nat.id.
Qed.
Lemma tab_cons {A} n (f : Z -> A) : 0 <= n -> tab (n + 1) f = f 0 :: tab n (fun i => f (i + 1)).
Proof.
  intros Hn. unfold tab, zrange. rewrite Z2Nat.inj_add, Nat.add_comm by lia. simpl.
  f_equal. rewrite <- fmap_S_seq, <- !list_fmap_compose. apply list_fmap_ext. intros i x _. simpl. f_equal. lia.
Qed.
Lemma tab_length {A} n (f : Z -> A) : length (tab n f) = Z.to_nat n.
Proof. unfold tab, zrange. by rewrite !length_fmap, length_seq. Qed.
Lemma tab_lookup {A} n (f : Z -> A) i : 0 <= i < n -> tab n f !! Z.to_nat i = Some (f i).
Proof.
  intros Hi. unfold tab, zrange. rewrite !list_lookup_fmap, lookup_seq_lt by lia. simpl. do 2 f_equal. lia.
Qed.

(** ** Invariant and contents *)

Definition slots (s : rng_s) : Z := tail s / objsize s.

Definition nth_object (s : rng_s) (i : Z) : list Z :=
  match buffer s with
  | Some b => object_at b (objsize s) (((slots s + i) mod objnum s) * objsize s)
  | None => []
  end.

Definition contents (s : rng_s) : list (list Z) := tab (objcnt s) (nth_object s).

Record rng_ok (s : rng_s) : Prop := {
  go_size : 1 <= objsize s;
  go_num : 1 <= objnum s;
  go_prod : objnum s * objsize s < 2 ^ 31;
  go_cnt : 0 <= objcnt s <= objnum s;
  go_tail : tail s = slots s * objsize s /\ 0 <= slots s < objnum s;
  go_buf : exists b, buffer s = Some b /\ length b = Z.to_nat (objnum s * objsize s);
}.

Lemma slot_pos n sz k : 1 <= sz -> 1 <= n -> (k * sz) mod (n * sz) = (k mod n) * sz.
Proof. intros H1 H2. by rewrite Z.mul_mod_distr_r by lia. Qed.

Lemma slot_bounds n sz k : 1 <= sz -> 0 <= k < n -> 0 <= k * sz /\ k * sz + sz <= n * sz.
Proof. nia. Qed.

Section rules.
Context (s : rng_s) (Hs : rng_ok s).

Lemma wp_obj_pos i (Q : Z -> rng_s -> Prop) s1 : 0 <= i <= objnum s ->
  Q (((slots s + i) mod objnum s) * objsize s) s1 -> wp (obj_pos s i) s1 Q.
Proof.
  destruct Hs as [H1 H2 H3 H4 [H5 H6] _]. intros Hi HQ. unfold obj_pos, umod.
  rewrite (u32_small (objnum s * objsize s)) by nia. rewrite (u32_small (i * objsize s)) by nia.
  rewrite u32_small by nia. destruct (Z.eqb_spec (objnum s * objsize s) 0); [nia|]. apply wp_ret.
  rewrite H5, <- Z.mul_add_distr_r, slot_pos by done. done.
Qed.

Lemma slot_in i : 0 <= (slots s + i) mod objnum s < objnum s.
Proof. destruct Hs. apply Z.mod_pos_bound. lia. Qed.

Lemma wp_read_slot k (Q : list Z -> rng_s -> Prop) b : buffer s = Some b -> 0 <= k < objnum s ->
  Q (object_at b (objsize s) (k * objsize s)) s -> wp (read_at (k * objsize s) (objsize s)) s Q.
Proof.
  intros Eb Hk HQ. destruct Hs as [H1 H2 H3 H4 _ (b' & Eb' & Hb)]. simplify_eq.
  destruct (slot_bounds _ _ k H1 Hk). unfold read_at. wp_step. apply wp_get. rewrite Eb. unfold in_buffer.
  rewrite (proj2 (Z.leb_le _ _)), (proj2 (Z.leb_le _ _)) by lia. by apply wp_ret.
Qed.

Lemma wp_write_slot k o (Q : unit -> rng_s -> Prop) b s1 :
  buffer s1 = Some b -> length b = Z.to_nat (objnum s * objsize s) ->
  0 <= k < objnum s -> length o = Z.to_nat (objsize s) ->
  Q tt (s1 <| buffer := Some (overwrite b (k * objsize s) o) |>) ->
  wp (write_at (k * objsize s) (objsize s) o) s1 Q.
Proof.
  intros Eb Hb Hk Ho HQ. destruct Hs as [H1 H2 H3 _ _ _].
  destruct (slot_bounds _ _ k H1 Hk). unfold write_at. wp_step. apply wp_get. rewrite Eb. unfold in_buffer.
  rewrite (proj2 (Z.leb_le 0 _)), (proj2 (Z.leb_le _ (Z.of_nat (length b)))), (proj2 (Z.leb_le _ _)) by lia.
  simpl. apply wp_modify. rewrite take_ge by lia. done.
Qed.

End rules.

(** ** The operations on the contents *)

Definition same_shape (s s' : rng_s) : Prop :=
  objnum s' = objnum s /\ objsize s' = objsize s /\ allow_ovw s' = allow_ovw s.

(** The tail moved forward by one object. *)
Definition next_tail (s : rng_s) : Z := ((slots s + 1) mod objnum s) * objsize s.

Lemma wp_next_tail s s1 (Q : Z -> rng_s -> Prop) : rng_ok s ->
  Q (next_tail s) s1 -> wp (umod (u32 (tail s + objsize s)) (u32 (objsize s * objnum s))) s1 Q.
Proof.
  intros [H1 H2 H3 H4 [H5 H6] _] HQ. unfold umod. rewrite (u32_small (objsize s * objnum s)) by nia.
  rewrite u32_small by nia. destruct (Z.eqb_spec (objsize s * objnum s) 0); [nia|]. apply wp_ret.
  rewrite H5, Z.mul_comm with (n := objsize s). replace (slots s * objsize s + objsize s) with ((slots s + 1) * objsize s) by lia.
  by rewrite slot_pos.
Qed.

Lemma slots_of n sz k t : 1 <= sz -> 0 <= k < n -> t = k * sz -> t / sz = k.
Proof. intros H1 H2 ->. by rewrite Z.div_mul by lia. Qed.

Lemma next_slot s : rng_ok s -> next_tail s / objsize s = (slots s + 1) mod objnum s.
Proof. intros Hs. unfold next_tail. rewrite Z.div_mul; [done|]. destruct Hs. lia. Qed.

Lemma mod_shift a i n : 1 <= n -> ((a + 1) mod n + i) mod n = (a + (i + 1)) mod n.
Proof. intros Hn. rewrite Z.add_mod_idemp_l by lia. f_equal. lia. Qed.

(** Dropping the oldest object. *)
Definition drop_oldest (s : rng_s) (cnt : Z) : rng_s := s <| tail := next_tail s |> <| objcnt := cnt |>.

Lemma drop_oldest_ok s cnt : rng_ok s -> 0 <= cnt <= objnum s -> rng_ok (drop_oldest s cnt).
Proof.
  intros Hs Hc. pose proof (next_slot s Hs) as Hn. destruct Hs as [H1 H2 H3 H4 [H5 H6] H7].
  constructor; simpl; try done. unfold slots at 1 2 3. simpl. rewrite Hn.
  split; [done|apply Z.mod_pos_bound; lia].
Qed.

Lemma drop_oldest_object s cnt i : rng_ok s -> nth_object (drop_oldest s cnt) i = nth_object s (i + 1).
Proof.
  intros Hs. unfold nth_object. simpl. destruct (buffer s); [|done]. unfold slots at 1. simpl.
  rewrite next_slot by done. rewrite mod_shift by (destruct Hs; lia). done.
Qed.

Lemma contents_drop_oldest s : rng_ok s -> 0 < objcnt s ->
  contents s = nth_object s 0 :: contents (drop_oldest s (objcnt s - 1)).
Proof.
  intros Hs Hc. unfold contents. simpl. replace (objcnt s) with (objcnt s - 1 + 1) at 1 by lia.
  rewrite tab_cons by lia. f_equal. apply tab_ext. intros i _. by rewrite drop_oldest_object.
Qed.

Lemma wp_rng_get s (wanted : bool) (Q : Z * option (list Z) -> rng_s -> Prop) : rng_ok s ->
  match contents s with
  | [] => Q (0, None) s
  | x :: _ => forall s', rng_ok s' -> same_shape s s' -> contents s = x :: contents s' ->
      Q (1, if wanted then Some x else None) s'
  end -> wp (rng_get wanted) s Q.
Proof.
  intros Hs HQ. pose proof (go_cnt _ Hs). unfold rng_get. wp_step. apply wp_get. unfold truth.
  destruct (Z.eqb_spec (objcnt s) 0) as [E|E]; simpl.
  { unfold contents in HQ. rewrite E in HQ. by wp_step. }
  pose proof (contents_drop_oldest s Hs ltac:(lia)) as Hc. rewrite Hc in HQ.
  assert (wp (if wanted then let! o := read_at (tail s) (objsize s) in ret (Some o) else ret None) s
    (fun (o : option (list Z)) s1 => o = (if wanted then Some (nth_object s 0) else None) /\ s1 = s)) as Hr.
  { destruct wanted; [|by wp_step]. destruct (go_buf _ Hs) as (b & Eb & _).
    destruct (go_tail _ Hs) as [-> Hsl]. wp_step. eapply wp_read_slot; [done..|]. wp_step.
    unfold nth_object. rewrite Eb, Z.add_0_r, Z.mod_small by lia. done. }
  wp_step. eapply wp_mono; [exact Hr|]. intros o s1 [-> ->].
  wp_step. apply wp_next_tail; [done|]. wp_step. apply wp_modify. wp_step.
  rewrite u32_small by (destruct Hs; nia).
  apply (HQ (drop_oldest s (objcnt s - 1))); [apply drop_oldest_ok; [done|lia]|done|done].
Qed.

(** Writing an object into a slot. *)
Lemma nth_object_write s s' k o : rng_ok s -> 0 <= k < objnum s -> length o = Z.to_nat (objsize s) ->
  same_shape s s' -> tail s' = tail s ->
  (forall b, buffer s = Some b -> buffer s' = Some (overwrite b (k * objsize s) o)) ->
  forall i, nth_object s' i = if (slots s + i) mod objnum s =? k then o else nth_object s i.
Proof.
  intros Hs Hk Ho (E1 & E2 & E3) Et Hb i. destruct (go_buf _ Hs) as (b & Eb & Hl).
  unfold nth_object, slots. rewrite (Hb b Eb), Eb, E1, E2, Et. fold (slots s).
  apply (object_at_overwrite b o _ k _ (objnum s)); try done; [apply Hs|by apply slot_in].
Qed.

Lemma write_ok s s' k o : rng_ok s -> 0 <= k < objnum s -> length o = Z.to_nat (objsize s) ->
  same_shape s s' -> tail s' = tail s -> 0 <= objcnt s' <= objnum s ->
  (forall b, buffer s = Some b -> buffer s' = Some (overwrite b (k * objsize s) o)) -> rng_ok s'.
Proof.
  intros [H1 H2 H3 H4 H5 (b & Eb & Hl)] Hk Ho (E1 & E2 & E3) Et Hc Hb.
  constructor; unfold slots; rewrite ?E1, ?E2, ?Et; try done.
  exists (overwrite b (k * objsize s) o). split; [by apply Hb|]. rewrite <- Hl.
  destruct (slot_bounds _ _ k H1 Hk). apply overwrite_length; lia.
Qed.

(** Slots at different distances below the size are different. *)
Lemma mod_inj a i j n : 0 <= i < n -> 0 <= j < n -> (a + i) mod n = (a + j) mod n -> i = j.
Proof.
  intros Hi Hj H. pose proof (Z.div_mod (a + i) n ltac:(lia)). pose proof (Z.div_mod (a + j) n ltac:(lia)).
  rewrite H in *. set (p := (a + i) / n) in *. set (q := (a + j) / n) in *. clearbody p q.
  assert (i - j = n * (p - q)) by lia. assert (p = q) by nia. lia.
Qed.

Lemma contents_length s : length (contents s) = Z.to_nat (objcnt s).
Proof. apply tab_length. Qed.

Lemma tail_contents s : rng_ok s -> 0 < objcnt s ->
  List.tl (contents s) = tab (objcnt s - 1) (fun i => nth_object s (i + 1)).
Proof.
  intros Hs Hc. unfold contents. replace (objcnt s) with (objcnt s - 1 + 1) at 1 by lia.
  by rewrite tab_cons by lia.
Qed.

(** The bytes of [rng_put] go to the slot after the newest object. *)
Definition stored (s : rng_s) (k : Z) (o : list Z) : rng_s :=
  s <| buffer ::= fun b => match b with Some b => Some (overwrite b (k * objsize s) o) | None => None end |>.

Section put.
Context (s : rng_s) (Hs : rng_ok s) (o : list Z) (Ho : length o = Z.to_nat (objsize s)).
Let k := (slots s + objcnt s) mod objnum s.

Lemma head_slot : 0 <= k < objnum s.
Proof. by apply slot_in. Qed.

Lemma stored_object i : nth_object (stored s k o) i = if (slots s + i) mod objnum s =? k then o else nth_object s i.
Proof.
  apply nth_object_write; try done; [apply head_slot|]. intros b Eb. simpl. by rewrite Eb.
Qed.

Lemma stored_ok cnt : 0 <= cnt <= objnum s -> rng_ok ((stored s k o) <| objcnt := cnt |>).
Proof.
  intros Hc. apply (write_ok s _ k o); try done; [apply head_slot|]. intros b Eb. simpl. by rewrite Eb.
Qed.

Lemma append_contents : objcnt s < objnum s ->
  contents ((stored s k o) <| objcnt := objcnt s + 1 |>) = contents s ++ [o].
Proof.
  intros Hlt. pose proof (go_cnt _ Hs). unfold contents at 1. simpl objcnt. rewrite tab_snoc by lia. f_equal.
  - apply tab_ext. intros i Hi. change (nth_object (stored s k o) i = nth_object s i). rewrite stored_object.
    destruct (Z.eqb_spec ((slots s + i) mod objnum s) k) as [E|]; [|done].
    apply mod_inj in E; lia.
  - f_equal. change (nth_object (stored s k o) (objcnt s) = o). rewrite stored_object. unfold k.
    by rewrite Z.eqb_refl.
Qed.

Lemma replace_contents : objcnt s = objnum s ->
  contents (drop_oldest (stored s k o) (objnum s)) = List.tl (contents s) ++ [o].
Proof.
  intros Hf. pose proof (go_num _ Hs). rewrite tail_contents by (done || lia). unfold contents. simpl objcnt.
  assert (rng_ok (stored s k o)) as Hst.
  { pose proof (stored_ok (objcnt s) (go_cnt _ Hs)) as []. by constructor. }
  transitivity (tab (objcnt s - 1 + 1) (nth_object (drop_oldest (stored s k o) (objnum s)))); [f_equal; lia|].
  rewrite tab_snoc by lia. f_equal.
  - apply tab_ext. intros i Hi. rewrite drop_oldest_object, stored_object by done.
    destruct (Z.eqb_spec ((slots s + (i + 1)) mod objnum s) k) as [E|]; [|done].
    replace (slots s + (i + 1)) with ((slots s + 1) + i) in E by lia. unfold k in E.
    replace (slots s + objcnt s) with ((slots s + 1) + (objcnt s - 1)) in E by lia.
    apply mod_inj in E; lia.
  - f_equal. rewrite drop_oldest_object, stored_object by done. unfold k.
    replace (objcnt s - 1 + 1) with (objcnt s) by lia. by rewrite Z.eqb_refl.
Qed.

Lemma wp_rng_put (Q : Z -> rng_s -> Prop) :
  (forall s', rng_ok s' -> same_shape s s' ->
     contents s' = (if objcnt s <? objnum s then contents s ++ [o]
                    else if allow_ovw s then List.tl (contents s) ++ [o] else contents s) ->
     Q (of_bool (objcnt s <? objnum s)) s') ->
  wp (rng_put o) s Q.
Proof.
  intros HQ. pose proof head_slot as Hk. pose proof Hs as [H1 H2 H3 H4 H5 (b & Eb & Hb)].
  unfold rng_put. wp_step. apply wp_get. wp_step. apply wp_obj_pos; [done|lia|]. fold k.
  rewrite (u32_small (objnum s - 1)), u32_small by nia.
  wp_step. apply wp_assert; [apply Z.leb_le; nia|]. wp_step. apply wp_assert; [apply Z.leb_le; lia|].
  destruct (Z.eqb_spec (objcnt s) (objnum s)) as [Hf|Hf].
  - rewrite (proj2 (Z.ltb_ge _ _)) in HQ by lia. destruct (allow_ovw s) eqn:Eo; [|by simpl; wp_step; apply HQ].
    simpl. wp_step. eapply wp_write_slot; [done..|]. wp_step. apply wp_modify. wp_step. apply wp_get.
    cbn [objnum objcnt]. simpl. rewrite (u32_small (objcnt s + 1)) by nia.
    rewrite (proj2 (Z.ltb_lt _ _)) by lia. wp_step. wp_step. unfold rng_get. wp_step. apply wp_get. simpl.
    unfold truth. destruct (Z.eqb_spec (objcnt s + 1) 0); [lia|]. simpl. wp_step. wp_step. wp_step.
    apply (wp_next_tail s); [done|]. wp_step. apply wp_modify. wp_step. wp_step.
    wp_step. apply wp_get. simpl. rewrite u32_small by nia.
    replace (objcnt s + 1 - 1) with (objnum s) by lia.
    wp_step. apply wp_assert; [apply Z.leb_refl|]. wp_step.
    assert (forall s', s' = drop_oldest (stored s k o) (objnum s) -> Q 0 s') as HQ'.
    { intros s' ->. apply HQ; [|done|by apply replace_contents]. apply drop_oldest_ok; [|simpl; lia].
      pose proof (stored_ok (objcnt s) H4) as []. by constructor. }
    apply HQ'. unfold drop_oldest, stored, next_tail, slots. simpl. by rewrite Eb.
  - rewrite (proj2 (Z.ltb_lt _ _)) in HQ by lia. simpl.
    wp_step. eapply wp_write_slot; [done..|]. wp_step. apply wp_modify. wp_step. apply wp_get. simpl.
    rewrite (u32_small (objcnt s + 1)) by nia. rewrite (proj2 (Z.ltb_ge _ _)) by lia. wp_step. wp_step.
    wp_step. apply wp_get. simpl. wp_step. apply wp_assert; [apply Z.leb_le; lia|]. wp_step.
    assert (forall s', s' = (stored s k o) <| objcnt := objcnt s + 1 |> -> Q 1 s') as HQ'.
    { intros s' ->. apply HQ; [apply stored_ok; lia|done|apply append_contents; lia]. }
    apply HQ'. unfold stored. simpl. by rewrite Eb.
Qed.

End put.

(** ** Adding at the front *)

Definition rewound (s : rng_s) : rng_s := s <| tail := ((slots s - 1) mod objnum s) * objsize s |>.

Lemma rewound_ok s : rng_ok s -> rng_ok (rewound s) /\ slots (rewound s) = (slots s - 1) mod objnum s.
Proof.
  intros [H1 H2 H3 H4 H5 H6]. assert (slots (rewound s) = (slots s - 1) mod objnum s) as E
    by (unfold slots at 1; simpl; rewrite Z.div_mul by lia; done).
  split; [|done]. constructor; try done. rewrite E. split; [done|apply Z.mod_pos_bound]. simpl. lia.
Qed.

Lemma rewound_object s i : rng_ok s -> nth_object (rewound s) (i + 1) = nth_object s i.
Proof.
  intros Hs. unfold nth_object. rewrite (proj2 (rewound_ok s Hs)). simpl. destruct (buffer s); [|done].
  do 2 f_equal. pose proof (go_num _ Hs). rewrite Z.add_mod_idemp_l by lia. f_equal. lia.
Qed.

Lemma tab_take {A} n m (f : Z -> A) : 0 <= n <= m -> tab n f = take (Z.to_nat n) (tab m f).
Proof.
  intros Hn. unfold tab, zrange. rewrite <- !list_fmap_compose, <- fmap_take. f_equal.
  rewrite take_seq. f_equal. lia.
Qed.

Section push.
Context (s : rng_s) (Hs : rng_ok s) (o : list Z) (Ho : length o = Z.to_nat (objsize s)).
Let r := rewound s.
Let k := slots r.

Lemma pushed_contents cnt : 0 <= cnt < objnum s -> cnt <= objcnt s ->
  contents ((stored r k o) <| objcnt := cnt + 1 |>) = o :: take (Z.to_nat cnt) (contents s).
Proof.
  intros Hc Hc'. destruct (rewound_ok s Hs) as [Hr Hk]. pose proof (go_tail _ Hr) as [_ Hkr].
  assert (forall i, nth_object (stored r k o) i =
    if (slots r + i) mod objnum r =? k then o else nth_object r i) as Hn.
  { intros i. apply nth_object_write; try done. intros b Eb. simpl. simpl in Eb. by rewrite Eb. }
  unfold contents at 1. simpl objcnt. rewrite tab_cons by lia. f_equal.
  - change (nth_object (stored r k o) 0 = o). rewrite Hn, Z.add_0_r, Z.mod_small by done.
    unfold k. by rewrite Z.eqb_refl.
  - unfold contents. rewrite <- tab_take by lia. apply tab_ext. intros i Hi.
    change (nth_object (stored r k o) (i + 1) = nth_object s i). rewrite Hn.
    destruct (Z.eqb_spec ((slots r + (i + 1)) mod objnum r) k) as [E|]; [|by apply rewound_object].
    exfalso. assert ((slots r + (i + 1)) mod objnum r = (slots r + 0) mod objnum r) as E'
      by (rewrite E, Z.add_0_r, Z.mod_small by done; done).
    apply mod_inj in E'; simpl; lia.
Qed.

Lemma pushed_ok cnt : 0 <= cnt <= objnum s -> rng_ok ((stored r k o) <| objcnt := cnt |>).
Proof.
  intros Hc. destruct (rewound_ok s Hs) as [Hr Hk]. pose proof (go_tail _ Hr) as [_ Hkr].
  apply (write_ok r _ k o); try done. intros b Eb. simpl. simpl in Eb. by rewrite Eb.
Qed.

(** The code moves the tail back by one object. *)
Lemma wp_rewind (Q : unit -> rng_s -> Prop) : Q tt r ->
  wp (if tail s <? objsize s then
        assert (negb (truth (tail s))) ;;
        modify (fun s => s <| tail := u32 (objsize s * u32 (objnum s - 1)) |>)
      else modify (fun s => s <| tail ::= fun t => u32 (t - objsize s) |>)) s Q.
Proof.
  intros HQ. pose proof Hs as [H1 H2 H3 H4 [H5 H6] _].
  assert (forall t, t = ((slots s - 1) mod objnum s) * objsize s -> Q tt (s <| tail := t |>)) as HQ'
    by (intros t ->; exact HQ).
  destruct (Z.ltb_spec (tail s) (objsize s)) as [Hlt|Hge].
  - assert (slots s = 0) as E by nia. rewrite E in *. rewrite H5. wp_step. apply wp_assert; [done|].
    apply wp_modify. apply HQ'. rewrite (u32_small (objnum s - 1)), u32_small by nia.
    replace ((0 - 1) mod objnum s) with (objnum s - 1); [lia|].
    apply Z.mod_unique with (q := -1); lia.
  - apply wp_modify. apply HQ'. rewrite u32_small by nia. rewrite Z.mod_small by nia. lia.
Qed.

Lemma wp_rng_push (Q : Z -> rng_s -> Prop) :
  (forall s', rng_ok s' -> same_shape s s' ->
     contents s' = o :: (if objcnt s <? objnum s then contents s
                         else take (Z.to_nat (objnum s - 1)) (contents s)) ->
     Q (of_bool (objcnt s <? objnum s)) s') ->
  wp (rng_push o) s Q.
Proof.
  intros HQ. destruct (rewound_ok s Hs) as [Hr Hk]. pose proof (go_tail _ Hr) as [Ht Hkr].
  pose proof Hs as [H1 H2 H3 H4 _ (b & Eb & Hb)].
  unfold rng_push. wp_step. apply wp_get. wp_step. apply wp_rewind. wp_step. apply wp_get.
  unfold r at 1. rewrite Ht. wp_step. apply (wp_write_slot r Hr k o _ b r); try done.
  assert (forall cnt s', s' = (r <| buffer := Some (overwrite b (k * objsize r) o) |>) <| objcnt := cnt |> ->
    s' = (stored r k o) <| objcnt := cnt |>) as Hst by (intros cnt s' ->; unfold stored; simpl; by rewrite Eb).
  wp_step. apply wp_modify. wp_step. apply wp_get.
  simpl objnum. simpl objcnt. rewrite (u32_small (objcnt s + 1)) by nia.
  destruct (Z.ltb_spec (objcnt s) (objnum s)) as [Hlt|Hge].
  - rewrite (proj2 (Z.ltb_ge _ _)) by lia. wp_step. wp_step. wp_step. apply wp_get.
    wp_step. apply wp_assert; [apply Z.leb_le; simpl; rewrite u32_small; nia|]. wp_step.
    rewrite (Hst (objcnt s + 1)) by (simpl; by rewrite u32_small by nia).
    apply HQ; [apply pushed_ok; lia|done|]. rewrite pushed_contents by lia.
    rewrite take_ge; [done|]. by rewrite contents_length.
  - rewrite (proj2 (Z.ltb_lt _ _)) by lia. wp_step. wp_step. apply wp_modify. wp_step. wp_step. apply wp_get.
    assert (u32 (u32 (objcnt s + 1) - 1) = objnum s) as Eu
      by (rewrite (u32_small (objcnt s + 1)) by nia; rewrite u32_small; nia).
    wp_step. apply wp_assert; [apply Z.leb_le; simpl; lia|]. wp_step.
    rewrite (Hst (objnum s - 1 + 1)).
    + apply HQ; [apply pushed_ok; lia|done|]. by rewrite pushed_contents by lia.
    + simpl. rewrite Eu. f_equal. lia.
Qed.

End push.

(** ** Access by index *)

Lemma nth_contents s i : 0 <= i -> contents s !! Z.to_nat i = if i <? objcnt s then Some (nth_object s i) else None.
Proof.
  intros Hi. destruct (Z.ltb_spec i (objcnt s)); [by apply tab_lookup|].
  apply lookup_ge_None_2. rewrite contents_length. lia.
Qed.

Lemma slot_int s i : rng_ok s ->
  i32 (((slots s + i) mod objnum s) * objsize s) = ((slots s + i) mod objnum s) * objsize s.
Proof. intros Hs. pose proof (slot_in s Hs i). destruct Hs. apply i32_small. nia. Qed.

Lemma wp_rng_peek s i (Q : Z * option (list Z) -> rng_s -> Prop) : rng_ok s -> 0 <= i ->
  Q (match contents s !! Z.to_nat i with Some x => (1, Some x) | None => (0, None) end) s ->
  wp (rng_peek i) s Q.
Proof.
  intros Hs Hi HQ. rewrite nth_contents in HQ by done. unfold rng_peek. wp_step. apply wp_get.
  rewrite Z.leb_antisym. destruct (Z.ltb_spec i (objcnt s)); simpl; [|by wp_step].
  pose proof (go_cnt _ Hs). destruct (go_buf _ Hs) as (b & Eb & _).
  wp_step. apply wp_obj_pos; [done|lia|]. rewrite slot_int by done. wp_step.
  eapply wp_read_slot; [done..|by apply slot_in|]. wp_step. unfold nth_object in HQ. by rewrite Eb in HQ.
Qed.

Lemma tab_insert {A} n (f g : Z -> A) i x : 0 <= i < n -> f i = x ->
  (forall j, 0 <= j < n -> j <> i -> f j = g j) -> tab n f = <[Z.to_nat i := x]> (tab n g).
Proof.
  intros Hi Hx Hf. apply list_eq. intros j. destruct (Nat.lt_ge_cases j (Z.to_nat n)) as [Hj|Hj].
  - assert (j = Z.to_nat (Z.of_nat j)) as Ej by lia. rewrite Ej. rewrite tab_lookup by lia.
    destruct (Z.eq_dec (Z.of_nat j) i) as [<-|Hne].
    + rewrite list_lookup_insert_eq by (rewrite tab_length; lia). by f_equal.
    + rewrite list_lookup_insert_ne by lia. rewrite tab_lookup by lia. f_equal. apply Hf; lia.
  - rewrite !lookup_ge_None_2; [done|rewrite length_insert, tab_length; lia|rewrite tab_length; lia].
Qed.

Lemma wp_rng_poke s i o (Q : Z -> rng_s -> Prop) : rng_ok s -> 0 <= i -> length o = Z.to_nat (objsize s) ->
  (forall s', rng_ok s' -> same_shape s s' -> contents s' = <[Z.to_nat i := o]> (contents s) ->
     Q (of_bool (i <? objcnt s)) s') ->
  wp (rng_poke i o) s Q.
Proof.
  intros Hs Hi Ho HQ. unfold rng_poke. wp_step. apply wp_get. rewrite Z.leb_antisym.
  destruct (Z.ltb_spec i (objcnt s)) as [Hlt|Hge]; simpl.
  2: { wp_step. apply HQ; [done..|]. rewrite list_insert_ge; [done|]. rewrite contents_length. lia. }
  pose proof (go_cnt _ Hs). destruct (go_buf _ Hs) as (b & Eb & Hb).
  wp_step. apply wp_obj_pos; [done|lia|]. rewrite slot_int by done. wp_step.
  set (k := (slots s + i) mod objnum s). pose proof (slot_in s Hs i) as Hk. fold k in Hk.
  apply (wp_write_slot s Hs k o _ b s); try done. wp_step.
  assert (forall s', s' = stored s k o -> Q 1 s') as HQ'.
  { intros s' ->. apply HQ; [|done|].
    - apply (write_ok s _ k o); try done. intros b' Eb'. simpl. by rewrite Eb'.
    - unfold contents. apply tab_insert; [simpl; lia| |].
      + rewrite (nth_object_write s _ k o); try done; [unfold k; by rewrite Z.eqb_refl|].
        intros b' Eb'. simpl. by rewrite Eb'.
      + intros j Hj Hne. rewrite (nth_object_write s _ k o); try done.
        2: { intros b' Eb'. simpl. by rewrite Eb'. }
        destruct (Z.eqb_spec ((slots s + j) mod objnum s) k) as [E|]; [|done].
        simpl in Hj. apply mod_inj in E; lia. }
  apply HQ'. unfold stored. simpl. by rewrite Eb.
Qed.

(** ** The abstract queue *)

Inductive rng_op :=
| RPut (o : list Z) | RPush (o : list Z) | RGet | RPeek (i : Z) | RPoke (i : Z) (o : list Z)
| RCount | RFree | RClear.

Definition rng_step (op : rng_op) : M rng_s (Z * option (list Z)) :=
  match op with
  | RPut o => let! r := rng_put o in ret (r, None)
  | RPush o => let! r := rng_push o in ret (r, None)
  | RGet => rng_get true
  | RPeek i => rng_peek i
  | RPoke i o => let! r := rng_poke i o in ret (r, None)
  | RCount => let! r := rng_count in ret (r, None)
  | RFree => let! r := rng_get_free_space in ret (r, None)
  | RClear => rng_clear ;; ret (0, None)
  end.

Fixpoint rng_ops_run (ops : list rng_op) : M rng_s (list (Z * option (list Z))) :=
  match ops with
  | [] => ret []
  | op :: ops => let! r := rng_step op in let! rs := rng_ops_run ops in ret (r :: rs)
  end.

(** A queue of at most [n] objects of [sz] bytes, oldest first. *)
Definition queue_step (n sz : Z) (ovw : bool) (op : rng_op) (q : list (list Z))
  : Z * option (list Z) * list (list Z) :=
  let room := Z.of_nat (length q) <? n in
  match op with
  | RPut o => (of_bool room, None,
               if room then q ++ [o] else if ovw then List.tl q ++ [o] else q)
  | RPush o => (of_bool room, None, o :: if room then q else take (Z.to_nat (n - 1)) q)
  | RGet => match q with [] => (0, None, []) | x :: q => (1, Some x, q) end
  | RPeek i => match q !! Z.to_nat i with Some x => (1, Some x, q) | None => (0, None, q) end
  | RPoke i o => (of_bool (i <? Z.of_nat (length q)), None, <[Z.to_nat i := o]> q)
  | RCount => (Z.of_nat (length q), None, q)
  | RFree => ((n - Z.of_nat (length q)) * sz, None, q)
  | RClear => (0, None, [])
  end.

Fixpoint queue_run (n sz : Z) (ovw : bool) (ops : list rng_op) (q : list (list Z))
  : list (Z * option (list Z)) * list (list Z) :=
  match ops with
  | [] => ([], q)
  | op :: ops =>
      let '(r, q) := queue_step n sz ovw op q in
      let '(rs, q) := queue_run n sz ovw ops q in (r :: rs, q)
  end.

Definition op_fits (s : rng_s) (op : rng_op) : Prop :=
  match op with
  | RPut o | RPush o => length o = Z.to_nat (objsize s)
  | RPeek i => 0 <= i
  | RPoke i o => 0 <= i /\ length o = Z.to_nat (objsize s)
  | _ => True
  end.

Lemma rng_step_refines s op : rng_ok s -> op_fits s op ->
  wp (rng_step op) s (fun r s' => rng_ok s' /\ same_shape s s' /\
    queue_step (objnum s) (objsize s) (allow_ovw s) op (contents s) = (r, contents s')).
Proof.
  intros Hs Hop. pose proof (go_cnt _ Hs) as Hc. pose proof (contents_length s) as Hl.
  assert (Z.of_nat (length (contents s)) = objcnt s) as Hlen by lia.
  destruct (go_buf _ Hs) as (b & Eb & _). pose proof (go_size _ Hs). pose proof (go_prod _ Hs).
  destruct op as [o|o| |i|i o| | |]; simpl in Hop; unfold rng_step, queue_step; rewrite ?Hlen.
  - wp_step. apply wp_rng_put; [done..|]. intros s' Hs' Hsh Hct. wp_step. by rewrite Hct.
  - wp_step. apply wp_rng_push; [done..|]. intros s' Hs' Hsh Hct. wp_step. by rewrite Hct.
  - apply wp_rng_get; [done|]. destruct (contents s) as [|x q] eqn:E; [done|].
    intros s' Hs' Hsh Hct. split_and!; try done. by injection Hct as <-.
  - apply wp_rng_peek; [done..|]. split_and!; try done. by destruct (contents s !! Z.to_nat i).
  - destruct Hop. wp_step. apply wp_rng_poke; [done..|]. intros s' Hs' Hsh Hct. wp_step. by rewrite Hct.
  - wp_step. unfold rng_count. wp_step. apply wp_get. rewrite Eb. wp_step. wp_step.
    rewrite i32_small by nia. done.
  - wp_step. unfold rng_get_free_space. wp_step. apply wp_get. rewrite Eb. wp_step. wp_step.
    rewrite (u32_small (objnum s - objcnt s)), u32_small by nia. done.
  - wp_step. apply wp_modify. wp_step. split_and!; try done. destruct Hs. constructor; try done. simpl. lia.
Qed.

(** C40: the ring buffer is a bounded double-ended queue.  Any sequence of puts,
    pushes, gets, peeks, pokes, counts and clears runs without a failing assertion or
    an access outside the buffer, and its results and final contents are those
    of the abstract queue, overwriting the oldest object or refusing when full. *)
Theorem rng_refines_queue s ops : rng_ok s -> Forall (op_fits s) ops ->
  exists s', rng_ops_run ops s =
      Ok (fst (queue_run (objnum s) (objsize s) (allow_ovw s) ops (contents s)), s') /\
    rng_ok s' /\
    contents s' = snd (queue_run (objnum s) (objsize s) (allow_ovw s) ops (contents s)).
Proof.
  intros Hs Hops. revert s Hs Hops. induction ops as [|op ops IH]; intros s Hs Hops; [by exists s|].
  apply Forall_cons in Hops as [Hop Hops].
  destruct (wp_inv _ _ _ (rng_step_refines s op Hs Hop)) as (r & s1 & E & Hs1 & (En & Ez & Eo) & Eq).
  destruct (IH s1 Hs1) as (s' & E' & Hs' & Ec).
  { eapply Forall_impl; [exact Hops|]. intros []; simpl; by rewrite ?Ez. }
  rewrite En, Ez, Eo in E', Ec. exists s'. simpl. rewrite Eq.
  destruct (queue_run _ _ _ ops (contents s1)) as [rs q]. simpl in *.
  split_and!; try done. unfold bind. rewrite E, E'. done.
Qed.

(** An initialised buffer is an empty queue. *)
Lemma rng_init_ok num size s : 1 <= num -> 1 <= size -> num * size < 2 ^ 31 ->
  wp (rng_init num size) s (fun _ s' => rng_ok s' /\ contents s' = [] /\
    objnum s' = num /\ objsize s' = size /\ allow_ovw s' = true).
Proof.
  intros H1 H2 H3. unfold rng_init, rng_init_pool. wp_step. apply wp_modify, wp_modify. simpl.
  rewrite !u32_small by nia. split_and!; try done. constructor; simpl; try done; [lia| |].
  - unfold slots. simpl. rewrite Z.div_0_l by lia. lia.
  - eexists. split; [done|]. by rewrite length_replicate.
Qed.

(** Three two-byte objects, one more that overwrites, a push and reads. *)
Definition example_ring : rng_s := MkRng (Some (replicate 6 0)) 3 2 0 0 true false.
Definition example_rng_ops : list rng_op :=
  [RPut [1; 1]; RPut [2; 2]; RPut [3; 3]; RPut [4; 4]; RGet; RPush [9; 9]; RPeek 2; RCount].

Lemma rng_refines_queue_witness :
  exists s', rng_ops_run example_rng_ops example_ring =
      Ok ([(1, None); (1, None); (1, None); (0, None); (1, Some [2; 2]); (1, None); (1, Some [4; 4]); (3, None)], s') /\
    contents s' = [[9; 9]; [3; 3]; [4; 4]].
Proof.
  destruct (rng_refines_queue example_ring example_rng_ops) as (s' & E & _ & H).
  - constructor; simpl; try lia; [vm_compute; split; [reflexivity|split; congruence]|]. eexists. split; reflexivity.
  - unfold example_rng_ops. repeat (apply Forall_cons_2; [simpl; first [exact I|reflexivity|lia]|]). apply Forall_nil_2.
  - exists s'. split; [exact E|exact H].
Defined.
