(* ===== verification/Seqbuf.v ===== *)
(** * Sequential buffers (src/src/base/lib/misc/ringbuf.c, src/src/base/lib/misc/ringbuf.h)

    [struct seqbuf]: messages of varying length, each behind a header of two
    [size_t] (its length and the bytes wasted after it), in a circular area of
    the caller's memory.  Addresses are [Z]; the caller's memory is the byte
    list [mem] at address [base], every access outside of it is a fault.
    Below: it implements a queue of messages. *)

From stdpp Require Import base numbers list list_numbers.
From Stdlib Require Import ZArith Lia.
From S2P Require Import Prelude Ringbuf RingbufSpec.

Local Open Scope Z_scope.

(** ** Alignment (utilities.h) *)

(** [unsigned int] arithmetic. *)
Definition roundUpToNextPowerOfTwo (x : Z) : Z :=
  let x := u32 (x - 1) in
  let x := Z.lor x (Z.shiftr x 1) in
  let x := Z.lor x (Z.shiftr x 2) in
  let x := Z.lor x (Z.shiftr x 4) in
  let x := Z.lor x (Z.shiftr x 8) in
  let x := Z.lor x (Z.shiftr x 16) in
  u32 (x + 1).

(** [x] has 64 bits and [y] is an [unsigned int], so [-y] has 32 bits and is
    extended with zeros. *)
Definition P2ALIGN (x y : Z) : Z := Z.land (u64 (x + y - 1)) (u32 (- y)).

Definition sizeof_seqitem : Z := 16.
Definition SQALIGN (x : Z) : Z := P2ALIGN x (roundUpToNextPowerOfTwo sizeof_seqitem).

(** ** State *)

Record seqbuf := MkSeq {
  base : Z;            (* where the caller's memory starts *)
  mem : list Z;
  beg : Z; tail : Z;   (* union seqiu * *)
  prev : option Z;     (* None is NULL *)
  len : Z;             (* size_t *)
}.
#[export] Instance eta_seqbuf : Eta seqbuf :=
  fun s => MkSeq s.(base) s.(mem) s.(beg) s.(tail) s.(prev) s.(len).

Abbreviation SB := (M seqbuf).

Definition SQ_END (s : seqbuf) : Z := u64 (beg s + len s).

Definition in_mem (s : seqbuf) (a n : Z) : bool :=
  (base s <=? a) && (a + n <=? base s + Z.of_nat (length (mem s))).

Definition load (a n : Z) : SB (list Z) :=
  let! s := get in
  if in_mem s a n then ret (take (Z.to_nat n) (drop (Z.to_nat (a - base s)) (mem s))) else throw OutOfBounds.

Definition store (a : Z) (bs : list Z) : SB unit :=
  let! s := get in
  if in_mem s a (Z.of_nat (length bs)) then modify (fun s => s <| mem ::= fun m => overwrite m (a - base s) bs |>)
  else throw OutOfBounds.

(** The fields [it.len] and [it.waste] of the item at [a]. *)
Definition get_len (a : Z) : SB Z := let! b := load a 8 in ret (little_endian_to_Z 8 b).
Definition get_waste (a : Z) : SB Z := let! b := load (a + 8) 8 in ret (little_endian_to_Z 8 b).
Definition set_len (a v : Z) : SB unit := store a (Z_to_little_endian 8 8 v).
Definition set_waste (a v : Z) : SB unit := store (a + 8) (Z_to_little_endian 8 8 v).

(** ** Operations *)

(** [seqbuf_init] on the [n] bytes of memory at [a]. *)
Definition seqbuf_init (a n : Z) : SB Z :=
  let b := SQALIGN a in
  modify (fun s => s <| beg := b |> <| tail := b |> <| len := u64 (n - (b - a)) |> <| prev := None |>) ;;
  ret 0.

Definition sqcalc_next (pit : Z) : SB Z :=
  let! s := get in
  let opos := u64 (pit - beg s) in
  let! l := get_len pit in
  let! w := get_waste pit in
  let pos := u64 (opos + sizeof_seqitem + l + w) in
  assert ((pos <=? len s) && ((pos =? SQALIGN pos) || (pos =? len s))) ;;
  ret (u64 (beg s + pos)).

Definition sqcalc_next_wrp (pit : Z) : SB Z :=
  let! itp := sqcalc_next pit in
  let! s := get in
  ret (if SQ_END s <=? itp then beg s else itp).

Definition sqcalc_avail : SB Z :=
  let! s := get in
  match prev s with
  | None => ret (len s)
  | Some p =>
      let! cur := sqcalc_next p in
      if cur <=? tail s then ret (u64 (tail s - cur))
      else
        let avail1 := u64 (len s - u64 (cur - beg s)) in
        let avail2 := u64 (tail s - beg s) in
        ret (if avail2 <? avail1 then avail1 else avail2)
  end.

(** [seqbuf_write(seq, buffer, n)], with the bytes at [buffer]. *)
Definition seqbuf_write (buffer : list Z) (n : Z) : SB Z :=
  let! avail := sqcalc_avail in
  let req_len := SQALIGN (u64 (n + sizeof_seqitem)) in
  if (avail <? req_len) || negb (truth n) then ret 0
  else
    let! s := get in
    let! itp := (match prev s with Some p => sqcalc_next p | None => ret (beg s) end) in
    let! itp := (if SQ_END s <? u64 (itp + req_len) then
                   match prev s with
                   | None => throw AssertFailed
                   | Some p =>
                       let! w := get_waste p in
                       set_waste p (u64 (w + u64 (SQ_END s - itp))) ;; ret (beg s)
                   end
                 else ret itp) in
    assert (u64 (itp + req_len) <=? SQ_END s) ;;
    set_waste itp (u64 (req_len - n)) ;;
    set_len itp n ;;
    (if n <=? Z.of_nat (length buffer) then store (itp + sizeof_seqitem) (take (Z.to_nat n) buffer)
     else throw OutOfBounds) ;;
    modify (fun s => s <| prev := Some itp |>) ;;
    ret (i32 n).

Definition sqadvance_tail : SB unit :=
  let! s := get in
  if bool_decide (Some (tail s) = prev s) then
    modify (fun s => s <| prev := None |> <| tail := beg s |>)
  else
    let! t := sqcalc_next_wrp (tail s) in
    modify (fun s => s <| tail := t |>).

(** The result and the bytes copied to the caller's buffer of [n] bytes. *)
Definition seqbuf_read (n : Z) : SB (Z * option (list Z)) :=
  let! s := get in
  if bool_decide (prev s = None) then ret (0, None)
  else
    let itp := tail s in
    let! l := get_len itp in
    if n <? l then ret (i32 (- l), None)
    else
      let! b := load (itp + sizeof_seqitem) l in
      sqadvance_tail ;;
      ret (i32 l, Some b).

(** The pointer to the oldest message and its length; [None] is NULL. *)
Definition seqbuf_get : SB (option (Z * Z)) :=
  let! s := get in
  if bool_decide (prev s = None) then ret None
  else let! l := get_len (tail s) in ret (Some (tail s + sizeof_seqitem, l)).

Definition seqbuf_put : SB unit :=
  let! s := get in
  assert (bool_decide (prev s <> None)) ;;
  sqadvance_tail.

Definition seqbuf_get_read_len : SB Z :=
  let! s := get in
  if bool_decide (prev s = None) then ret 0 else get_len (tail s).

(** ** Tests *)

Example align_small : SQALIGN 17 = 32 /\ SQALIGN 4294967280 = 4294967280.
Proof. vm_compute. split; reflexivity. Qed.

(** ** Sequential buffers implement a queue of messages *)

(** *** Alignment *)

Lemma SQALIGN_eq x : 0 <= x < 2 ^ 32 - 15 -> SQALIGN x = (x + 15) / 16 * 16.
Proof.
  intros Hx. unfold SQALIGN, P2ALIGN. replace (roundUpToNextPowerOfTwo sizeof_seqitem) with 16 by reflexivity.
  replace (u64 (x + 16 - 1)) with (x + 15) by (unfold u64; rewrite Z.mod_small; lia).
  change (u32 (Z.opp 16)) with (Z.shiftl (Z.ones 28) 4).
  transitivity (Z.shiftl (Z.land (Z.shiftr (x + 15) 4) (Z.ones 28)) 4).
  - apply Z.bits_inj'. intros i Hi. rewrite Z.land_spec, !Z.shiftl_spec, Z.land_spec by lia.
    destruct (Z.lt_ge_cases i 4) as [H|H].
    + rewrite (Z.testbit_neg_r (Z.ones 28)) by lia. by rewrite !andb_false_r.
    + rewrite Z.shiftr_spec by lia. by replace (i - 4 + 4) with i by lia.
  - rewrite Z.land_ones, Z.shiftl_mul_pow2, Z.shiftr_div_pow2 by lia. change (2 ^ 4) with 16.
    rewrite Z.mod_small; [done|]. split; [apply Z.div_pos; lia|]. apply Z.div_lt_upper_bound; lia.
Qed.

Lemma SQALIGN_le x : 0 <= x < 2 ^ 32 - 15 -> x <= SQALIGN x < x + 16 /\ SQALIGN x mod 16 = 0.
Proof.
  intros Hx. rewrite SQALIGN_eq by done. clear. split; [Z.to_euclidean_division_equations; lia|apply Z_mod_mult].
Qed.

Lemma SQALIGN_aligned x : 0 <= x < 2 ^ 32 - 15 -> x mod 16 = 0 -> SQALIGN x = x.
Proof. intros Hx Ha. rewrite SQALIGN_eq by done. clear Hx. Z.to_euclidean_division_equations. lia. Qed.

(** *** Bytes of the caller's memory *)

Definition size_bytes (v : Z) : list Z := Z_to_little_endian 8 8 v.

Lemma size_bytes_length v : Z.of_nat (length (size_bytes v)) = 8.
Proof. by apply length_Z_to_little_endian. Qed.

Lemma size_bytes_value v : 0 <= v < 2 ^ 64 -> little_endian_to_Z 8 (size_bytes v) = v.
Proof. intros Hv. unfold size_bytes. rewrite little_endian_to_Z_to_little_endian by lia. by apply Z.mod_small. Qed.

Definition bytes_at (s : seqbuf) (a n : Z) : list Z := object_at (mem s) n (a - base s).

Lemma object_at_overwrite_same (b o : list Z) p : 0 <= p -> p + Z.of_nat (length o) <= Z.of_nat (length b) ->
  object_at (overwrite b p o) (Z.of_nat (length o)) p = o.
Proof.
  intros Hp Hl. unfold object_at, overwrite. rewrite Nat2Z.id, drop_app_length' by (rewrite length_take; lia).
  by rewrite take_app_length'.
Qed.

Lemma object_at_overwrite_other (b o : list Z) p q n : 0 <= p -> 0 <= q -> 0 <= n ->
  p + Z.of_nat (length o) <= Z.of_nat (length b) -> q + n <= p \/ p + Z.of_nat (length o) <= q ->
  object_at (overwrite b p o) n q = object_at b n q.
Proof.
  intros Hp Hq Hn Hl Hd. unfold object_at, overwrite. destruct Hd as [Hd|Hd].
  - rewrite drop_app_le by (rewrite length_take; lia). rewrite take_app_le by (rewrite length_drop, length_take; lia).
    rewrite !take_drop_commute, take_take. do 2 f_equal. lia.
  - assert (length (take (Z.to_nat p) b) = Z.to_nat p) as Ht by (rewrite length_take; lia).
    rewrite drop_app_ge by lia. rewrite drop_app_ge by lia. rewrite drop_drop. do 2 f_equal. lia.
Qed.

(** What never changes: the memory, the area and its alignment. *)
Record area_ok (s : seqbuf) : Prop := {
  ar_base : 0 <= base s <= beg s;
  ar_beg : beg s mod 16 = 0;
  ar_len : 0 <= len s;
  ar_end : beg s + len s <= base s + Z.of_nat (length (mem s));
  ar_low : base s + Z.of_nat (length (mem s)) < 2 ^ 32 - 15;
}.

Definition fin (s : seqbuf) : Z := beg s + len s.

Definition same_area (s s' : seqbuf) : Prop :=
  base s' = base s /\ length (mem s') = length (mem s) /\ beg s' = beg s /\ len s' = len s.

Lemma same_area_ok s s' : same_area s s' -> area_ok s -> area_ok s'.
Proof. intros (E1 & E2 & E3 & E4) []. constructor; congruence || (rewrite ?E1, ?E2, ?E3, ?E4; lia). Qed.

Lemma same_area_trans s1 s2 s3 : same_area s1 s2 -> same_area s2 s3 -> same_area s1 s3.
Proof. intros (?&?&?&?) (?&?&?&?). split_and!; congruence. Qed.

(** [s'] has the bytes of [s] from [p] to [q]. *)
Definition keeps (s s' : seqbuf) (p q : Z) : Prop :=
  forall a n, p <= a -> 0 <= n -> a + n <= q -> bytes_at s' a n = bytes_at s a n.

Definition stored (s : seqbuf) (a : Z) (bs : list Z) : seqbuf := s <| mem ::= fun m => overwrite m (a - base s) bs |>.

Section memory.
Context (s : seqbuf) (Hs : area_ok s).

Lemma wp_load a n (P : list Z -> seqbuf -> Prop) : beg s <= a -> a + n <= fin s ->
  P (bytes_at s a n) s -> wp (load a n) s P.
Proof.
  intros H1 H2 HP. destruct Hs. unfold fin in *. unfold load. wp_step. apply wp_get. unfold in_mem.
  rewrite (proj2 (Z.leb_le _ _)), (proj2 (Z.leb_le _ _)) by lia. by apply wp_ret.
Qed.

Lemma wp_store a bs (P : unit -> seqbuf -> Prop) : beg s <= a -> a + Z.of_nat (length bs) <= fin s ->
  P tt (stored s a bs) -> wp (store a bs) s P.
Proof.
  intros H1 H2 HP. destruct Hs. unfold fin in *. unfold store. wp_step. apply wp_get. unfold in_mem.
  rewrite (proj2 (Z.leb_le _ _)), (proj2 (Z.leb_le _ _)) by lia. by apply wp_modify.
Qed.

Section at_address.
Context (a : Z) (bs : list Z) (Ha : beg s <= a) (He : a + Z.of_nat (length bs) <= fin s).

Lemma stored_area : same_area s (stored s a bs).
Proof. destruct Hs. unfold fin in *. unfold same_area, stored. simpl. rewrite overwrite_length by lia. done. Qed.

Lemma stored_same : bytes_at (stored s a bs) a (Z.of_nat (length bs)) = bs.
Proof. destruct Hs. unfold fin in *. apply (object_at_overwrite_same (mem s) bs (a - base s)); lia. Qed.

Lemma stored_keeps p q : beg s <= p -> q <= a \/ a + Z.of_nat (length bs) <= p -> keeps s (stored s a bs) p q.
Proof. destruct Hs. unfold fin in *. intros Hp Hd b n H1 H2 H3.
  apply (object_at_overwrite_other (mem s) bs (a - base s) (b - base s)); lia. Qed.

End at_address.
End memory.

Lemma keeps_trans s1 s2 s3 p q : keeps s1 s2 p q -> keeps s2 s3 p q -> keeps s1 s3 p q.
Proof. intros H1 H2 a n ? ? ?. rewrite H2, H1 by done. done. Qed.

Lemma keeps_part s s' p q p' q' : keeps s s' p q -> p <= p' -> q' <= q -> keeps s s' p' q'.
Proof. intros H ? ? a n ? ? ?. apply H; lia. Qed.

(** *** Items *)

Abbreviation size m := (Z.of_nat (length m)).

(** Where the item after [m] with [w] wasted bytes at [p] starts. *)
Definition next (p : Z) (m : list Z) (w : Z) : Z := p + 16 + size m + w.

Record item (s : seqbuf) (p : Z) (m : list Z) (w : Z) : Prop := {
  it_len : bytes_at s p 8 = size_bytes (size m);
  it_waste : bytes_at s (p + 8) 8 = size_bytes w;
  it_data : bytes_at s (p + 16) (size m) = m;
  it_size : 0 < size m /\ 0 <= w;
  it_pos : beg s <= p /\ p mod 16 = 0;
  it_end : next p m w <= fin s;
  it_next : next p m w mod 16 = 0 \/ next p m w = fin s;
}.

(** The items [l] follow each other from [p] to [q]. *)
Fixpoint run (s : seqbuf) (p : Z) (l : list (list Z * Z)) (q : Z) : Prop :=
  match l with
  | [] => p = q
  | (m, w) :: l => item s p m w /\ run s (next p m w) l q
  end.

Lemma item_keeps s s' p m w : same_area s s' -> keeps s s' p (p + 16 + size m) -> item s p m w -> item s' p m w.
Proof.
  intros (E1 & E2 & E3 & E4) Hk []. constructor; unfold fin in *; rewrite ?E3, ?E4; try done; rewrite Hk by lia; done.
Qed.

Lemma run_le s p l q : run s p l q -> p <= q.
Proof.
  revert p. induction l as [|[m w] l IH]; intros p; simpl; [lia|]. intros [[] Hr]. specialize (IH _ Hr).
  unfold next in IH. lia.
Qed.

Lemma run_keeps s s' p l q : same_area s s' -> keeps s s' p q -> run s p l q -> run s' p l q.
Proof.
  intros Ha. revert p. induction l as [|[m w] l IH]; intros p Hk; simpl; [done|]. intros [Hi Hr].
  assert (next p m w <= q) as Hq by (by eapply run_le).
  pose proof (it_size _ _ _ _ Hi). unfold next in *. split.
  - eapply item_keeps; [done| |done]. eapply keeps_part; [done|lia|lia].
  - apply IH; [|done]. eapply keeps_part; [done|lia|lia].
Qed.

Lemma run_cons_lt s p x l q : run s p (x :: l) q -> p < q /\ beg s <= p.
Proof. destruct x as [m w]. simpl. intros [[] Hr]. apply run_le in Hr. unfold next in Hr. lia. Qed.

Lemma run_app s p l1 l2 q : run s p (l1 ++ l2) q <-> exists r, run s p l1 r /\ run s r l2 q.
Proof.
  revert p. induction l1 as [|[m w] l1 IH]; intros p; simpl.
  - split; [intros H; by exists p|by intros (r & -> & H)].
  - rewrite IH. split; [intros (Hi & r & H1 & H2); by exists r|intros (r & (Hi & H1) & H2); eauto].
Qed.

(** *** Contents *)

(** The messages of a buffer, oldest first: none, one run of items, or one up
    to the end of the area and one from its start. *)
Inductive layout (s : seqbuf) : list (list Z) -> Prop :=
| LEmpty : prev s = None -> tail s = beg s -> layout s []
| LLinear l p m w : prev s = Some p -> run s (tail s) l p -> item s p m w -> next p m w mod 16 = 0 ->
    layout s (l.*1 ++ [m])
| LWrapped l1 l2 p m w : prev s = Some p -> l1 <> [] -> run s (tail s) l1 (fin s) -> run s (beg s) l2 p ->
    item s p m w -> next p m w <= tail s -> next p m w mod 16 = 0 -> layout s (l1.*1 ++ l2.*1 ++ [m]).

Definition holds (s : seqbuf) (q : list (list Z)) : Prop := area_ok s /\ layout s q.

(** *** Reading items *)

Section items.
Context (s : seqbuf) (Hs : area_ok s) (p : Z) (m : list Z) (w : Z) (Hi : item s p m w).

(** Everything in the area is below 4 GB. *)
Lemma item_bounds : 0 <= beg s /\ beg s <= p /\ p + 16 + size m + w <= fin s /\ fin s < 2 ^ 32 - 15 /\ 0 < size m /\ 0 <= w.
Proof. destruct Hs, Hi. unfold next, fin in *. lia. Qed.

Lemma wp_get_len (P : Z -> seqbuf -> Prop) : P (size m) s -> wp (get_len p) s P.
Proof.
  intros HP. destruct item_bounds as (?&?&?&?&?&?). unfold get_len. wp_step. apply wp_load; [done|lia|lia|].
  rewrite (it_len _ _ _ _ Hi), size_bytes_value by lia. by apply wp_ret.
Qed.

Lemma wp_get_waste (P : Z -> seqbuf -> Prop) : P w s -> wp (get_waste p) s P.
Proof.
  intros HP. destruct item_bounds as (?&?&?&?&?&?). unfold get_waste. wp_step. apply wp_load; [done|lia|lia|].
  rewrite (it_waste _ _ _ _ Hi), size_bytes_value by lia. by apply wp_ret.
Qed.

Lemma wp_sqcalc_next (P : Z -> seqbuf -> Prop) : P (next p m w) s -> wp (sqcalc_next p) s P.
Proof.
  intros HP. destruct item_bounds as (?&?&?&?&?&?). unfold sqcalc_next, sizeof_seqitem. wp_step. apply wp_get.
  wp_step. apply wp_get_len. wp_step. apply wp_get_waste.
  assert (beg s mod 16 = 0) as Hb by apply Hs. assert (fin s = beg s + len s) as Hf by done.
  nowrap. wp_step. apply wp_assert.
  - rewrite (proj2 (Z.leb_le _ _)) by lia. destruct (it_next _ _ _ _ Hi) as [Ha|He]; unfold next in *; apply orb_true_iff.
    + left. apply Z.eqb_eq. symmetry. apply SQALIGN_aligned; [lia|].
      replace (p - beg s + 16 + size m + w) with (p + 16 + size m + w - beg s) by lia.
      by rewrite Zminus_mod, Ha, Hb.
    + right. apply Z.eqb_eq. lia.
  - wp_step. unfold next in HP. nowrap. by replace (beg s + (p - beg s + 16 + size m + w)) with (p + 16 + size m + w) by lia.
Qed.

Lemma SQ_END_eq : SQ_END s = fin s.
Proof. destruct item_bounds as (?&?&?&?&?&?), Hs. unfold SQ_END, fin in *. apply u64_small. lia. Qed.

Lemma wp_sqcalc_next_wrp (P : Z -> seqbuf -> Prop) :
  P (if fin s <=? next p m w then beg s else next p m w) s -> wp (sqcalc_next_wrp p) s P.
Proof.
  intros HP. unfold sqcalc_next_wrp. wp_step. apply wp_sqcalc_next. wp_step. apply wp_get. rewrite SQ_END_eq. by apply wp_ret.
Qed.

(** The bytes of the message. *)
Lemma wp_load_item (P : list Z -> seqbuf -> Prop) : P m s -> wp (load (p + sizeof_seqitem) (size m)) s P.
Proof.
  intros HP. destruct item_bounds as (?&?&?&?&?&?). unfold sizeof_seqitem. apply wp_load; [done|lia|lia|].
  by rewrite (it_data _ _ _ _ Hi).
Qed.

End items.

(** The largest piece of the area that is free. *)
Definition room (s : seqbuf) : Z :=
  match prev s with
  | None => len s
  | Some p =>
      let p' := p + 16 + little_endian_to_Z 8 (bytes_at s p 8) + little_endian_to_Z 8 (bytes_at s (p + 8) 8) in
      if p' <=? tail s then tail s - p' else Z.max (fin s - p') (tail s - beg s)
  end.

Lemma room_item s p m w : area_ok s -> prev s = Some p -> item s p m w ->
  room s = if next p m w <=? tail s then tail s - next p m w else Z.max (fin s - next p m w) (tail s - beg s).
Proof.
  intros Hs Ep Hi. destruct (item_bounds s Hs p m w Hi) as (?&?&?&?&?&?). unfold room. rewrite Ep.
  rewrite (it_len _ _ _ _ Hi), (it_waste _ _ _ _ Hi), !size_bytes_value by lia. done.
Qed.

Lemma layout_tail s q : area_ok s -> layout s q -> beg s <= tail s <= fin s.
Proof.
  intros Hs. destruct 1 as [_ ->|l p m w Ep Hr Hi Ha|l1 l2 p m w Ep Hl Hr1 Hr2 Hi Hle Ha].
  - destruct Hs. unfold fin. lia.
  - pose proof (run_le _ _ _ _ Hr). destruct (item_bounds s Hs p m w Hi) as (?&?&?&?&?&?). split; [|lia].
    destruct l as [|x l]; [simpl in Hr; lia|]. apply run_cons_lt in Hr. lia.
  - pose proof (run_le _ _ _ _ Hr1). destruct l1 as [|x l1]; [done|]. apply run_cons_lt in Hr1. lia.
Qed.

Lemma wp_sqcalc_avail s q (P : Z -> seqbuf -> Prop) : area_ok s -> layout s q -> P (room s) s -> wp sqcalc_avail s P.
Proof.
  intros Hs Hq HP. pose proof (layout_tail s q Hs Hq) as Ht. unfold sqcalc_avail. wp_step. apply wp_get.
  assert (forall p m w, prev s = Some p -> item s p m w -> wp (let! cur := sqcalc_next p in
      if cur <=? tail s then ret (u64 (tail s - cur))
      else let avail1 := u64 (len s - u64 (cur - beg s)) in let avail2 := u64 (tail s - beg s) in
        ret (if avail2 <? avail1 then avail1 else avail2)) s P) as Hgen.
  { intros p m w Ep Hi. destruct (item_bounds s Hs p m w Hi) as (?&?&?&?&?&?). rewrite (room_item s p m w Hs Ep Hi) in HP.
    wp_step. apply (wp_sqcalc_next s Hs p m w Hi). assert (fin s = beg s + len s) as Hf by done. unfold next in *.
    destruct (Z.leb_spec (p + 16 + size m + w) (tail s)); wp_step; nowrap; [done|].
    refine (eq_ind _ (fun x => P x s) HP _ _). destruct (Z.ltb_spec (tail s - beg s) (len s - (p + 16 + size m + w - beg s))); lia. }
  inversion Hq as [Ep _|l p m w Ep _ Hi _|l1 l2 p m w Ep _ _ _ Hi _ _]; rewrite Ep; [|by eapply Hgen..].
  wp_step. unfold room in HP. by rewrite Ep in HP.
Qed.

(** *** Writing an item *)

(** The stores of [seqbuf_write] for the message [m] with [w] wasted bytes. *)
Section put_item.
Context (s : seqbuf) (Hs : area_ok s) (a : Z) (m : list Z) (w : Z).
Context (Ha : beg s <= a) (Hm : 0 < size m) (Hw : 0 <= w < 2 ^ 32) (He : a + 16 + size m <= fin s).

Let s1 := stored s (a + 8) (size_bytes w).
Let s2 := stored s1 a (size_bytes (size m)).
Let s3 := stored s2 (a + 16) m.

Lemma put_areas : same_area s s1 /\ same_area s1 s2 /\ same_area s2 s3.
Proof.
  pose proof (size_bytes_length w). pose proof (size_bytes_length (size m)).
  assert (same_area s s1) as A1 by (apply stored_area; done || lia). pose proof (same_area_ok _ _ A1 Hs) as H1.
  assert (fin s1 = fin s) as F1 by (unfold fin; destruct A1 as (_&_&->&->); done).
  assert (same_area s1 s2) as A2 by (apply stored_area; [done|simpl; lia|lia]). pose proof (same_area_ok _ _ A2 H1) as H2.
  assert (fin s2 = fin s) as F2 by (unfold fin; destruct A2 as (_&_&->&->); done).
  split_and!; [done|done|]. apply stored_area; [done|simpl; lia|lia].
Qed.

Lemma put_area : same_area s s3.
Proof. destruct put_areas as (?&?&?). eapply same_area_trans; [done|]. by eapply same_area_trans. Qed.

Lemma put_keeps p q : beg s <= p -> q <= a \/ a + 16 + size m <= p -> keeps s s3 p q.
Proof.
  intros Hp Hd. pose proof (size_bytes_length w). pose proof (size_bytes_length (size m)).
  destruct put_areas as (A1 & A2 & _). pose proof (same_area_ok _ _ A1 Hs) as H1. pose proof (same_area_ok _ _ A2 H1) as H2.
  assert (fin s1 = fin s /\ fin s2 = fin s) as [F1 F2] by done.
  eapply keeps_trans; [apply (stored_keeps s Hs (a + 8) (size_bytes w)); lia|].
  eapply keeps_trans; [apply (stored_keeps s1 H1 a (size_bytes (size m))); simpl; lia|].
  apply (stored_keeps s2 H2 (a + 16) m); simpl; lia.
Qed.

Lemma put_fields : bytes_at s3 a 8 = size_bytes (size m) /\ bytes_at s3 (a + 8) 8 = size_bytes w /\
  bytes_at s3 (a + 16) (size m) = m.
Proof.
  pose proof (size_bytes_length w) as L1. pose proof (size_bytes_length (size m)) as L2.
  destruct put_areas as (A1 & A2 & _). pose proof (same_area_ok _ _ A1 Hs) as H1. pose proof (same_area_ok _ _ A2 H1) as H2.
  assert (fin s1 = fin s /\ fin s2 = fin s /\ beg s1 = beg s /\ beg s2 = beg s) as (F1 & F2 & B1 & B2) by done.
  assert (keeps s2 s3 a (a + 16)) as K3 by (apply (stored_keeps s2 H2 (a + 16) m); lia).
  assert (keeps s1 s2 (a + 8) (a + 16)) as K2 by (apply (stored_keeps s1 H1 a (size_bytes (size m))); lia).
  split_and!.
  - rewrite K3 by lia. rewrite <- L2 at 1. apply stored_same; [done|lia|lia].
  - rewrite K3, K2 by lia. rewrite <- L1 at 1. apply stored_same; [done|lia|lia].
  - apply stored_same; [done|lia|lia].
Qed.

Lemma put_item : a mod 16 = 0 -> next a m w <= fin s -> next a m w mod 16 = 0 \/ next a m w = fin s -> item s3 a m w.
Proof.
  intros H1 H2 H3. destruct put_fields as (F1 & F2 & F3). assert (fin s3 = fin s) as F by done.
  constructor; rewrite ?F; done || lia.
Qed.

Lemma wp_put_item {A} (k : SB A) (P : A -> seqbuf -> Prop) : wp k s3 P ->
  wp (set_waste a w ;; set_len a (size m) ;;
      (if size m <=? size m then store (a + sizeof_seqitem) (take (Z.to_nat (size m)) m) else throw OutOfBounds) ;; k) s P.
Proof.
  intros Hk. pose proof (size_bytes_length w) as L1. pose proof (size_bytes_length (size m)) as L2. unfold size_bytes in *.
  destruct put_areas as (A1 & A2 & _). pose proof (same_area_ok _ _ A1 Hs) as H1. pose proof (same_area_ok _ _ A2 H1) as H2.
  assert (fin s1 = fin s /\ fin s2 = fin s /\ beg s1 = beg s /\ beg s2 = beg s) as (F1 & F2 & B1 & B2) by done.
  rewrite Z.leb_refl, Nat2Z.id, take_ge by lia. unfold set_waste, set_len, sizeof_seqitem.
  wp_step. apply wp_store; [done|lia|lia|]. wp_step. apply (wp_store s1 H1); [lia|lia|].
  wp_step. apply (wp_store s2 H2); [lia|lia|]. exact Hk.
Qed.

End put_item.

(** *** Where a message goes *)

(** What a message takes, without the 16 bytes of slack. *)
Definition required (m : list Z) : Z := SQALIGN (u64 (size m + sizeof_seqitem)).

Lemma required_bounds m : size m <= 2 ^ 32 - 32 -> size m + 16 <= required m < size m + 32 /\ required m mod 16 = 0.
Proof.
  intros H. unfold required, sizeof_seqitem. rewrite u64_small by lia. destruct (SQALIGN_le (size m + 16)); lia.
Qed.

(** The end of the newest item. *)
Definition front (s : seqbuf) : option Z :=
  match prev s with
  | None => None
  | Some p => Some (p + 16 + little_endian_to_Z 8 (bytes_at s p 8) + little_endian_to_Z 8 (bytes_at s (p + 8) 8))
  end.

(** The free piece a message that takes [req] bytes is put into. *)
Definition gap (s : seqbuf) (req : Z) : Z :=
  match front s with
  | None => len s
  | Some f => if f <=? tail s then tail s - f else if f + req <=? fin s then fin s - f else tail s - beg s
  end.

Lemma front_item s p m w : area_ok s -> prev s = Some p -> item s p m w -> front s = Some (next p m w).
Proof.
  intros Hs Ep Hi. destruct (item_bounds s Hs p m w Hi) as (?&?&?&?&?&?). unfold front. rewrite Ep.
  rewrite (it_len _ _ _ _ Hi), (it_waste _ _ _ _ Hi), !size_bytes_value by lia. done.
Qed.

Lemma gap_room s q req : area_ok s -> layout s q -> (gap s req < req <-> room s < req).
Proof.
  intros Hs Hq. unfold gap.
  assert (forall p m w, prev s = Some p -> item s p m w -> (match front s with None => len s
    | Some f => if f <=? tail s then tail s - f else if f + req <=? fin s then fin s - f else tail s - beg s end
    < req <-> room s < req)) as Hgen.
  { intros p m w Ep Hi. rewrite (front_item s p m w), (room_item s p m w) by done. zbool; lia. }
  inversion Hq as [Ep _|l p m w Ep _ Hi _|l1 l2 p m w Ep _ _ _ Hi _ _]; [|by eapply Hgen..].
  unfold room, front. by rewrite Ep.
Qed.

(** The message is refused or leaves the 16 bytes free that the code counts
    twice: [waste] includes the header, which [sqcalc_next] adds again. *)
Definition slack (s : seqbuf) (m : list Z) : bool :=
  (size m =? 0) || (gap s (required m) <? required m) || (required m + 16 <=? gap s (required m)).

Lemma slack_cases s m : slack s m = true ->
  m = [] \/ gap s (required m) < required m \/ required m + 16 <= gap s (required m).
Proof. unfold slack. zbool; try done; auto. by destruct m; auto. Qed.

Lemma area_ptrs s t o : area_ok s -> area_ok (s <| prev := o |> <| tail := t |>).
Proof. intros []. by constructor. Qed.

Lemma item_prev s p m w o : item s p m w -> item (s <| prev := o |>) p m w.
Proof. intros []. by constructor. Qed.

Definition put_state (s : seqbuf) (a : Z) (m : list Z) (w : Z) : seqbuf :=
  stored (stored (stored s (a + 8) (size_bytes w)) a (size_bytes (size m))) (a + 16) m.

(** The state [seqbuf_write] leaves when it puts [m] at [a]. *)
Definition placed (s : seqbuf) (a : Z) (m : list Z) : seqbuf :=
  (put_state s a m (required m - size m)) <| prev := Some a |>.

(** The second half of [seqbuf_write], for an item at [a]. *)
Lemma wp_write_at s a m (P : Z -> seqbuf -> Prop) : area_ok s -> beg s <= a -> a + required m <= fin s ->
  0 < size m <= 2 ^ 32 - 32 -> P (i32 (size m)) (placed s a m) ->
  wp (assert (u64 (a + required m) <=? SQ_END s) ;;
      set_waste a (u64 (required m - size m)) ;;
      set_len a (size m) ;;
      (if size m <=? size m then store (a + sizeof_seqitem) (take (Z.to_nat (size m)) m) else throw OutOfBounds) ;;
      modify (fun s => s <| prev := Some a |>) ;;
      ret (i32 (size m))) s P.
Proof.
  intros Hs Ha He Hm HP. destruct (required_bounds m ltac:(lia)) as [Hr _].
  assert (0 <= beg s /\ fin s < 2 ^ 32 - 15) as [Hb Hf] by (destruct Hs; unfold fin; lia).
  wp_step. apply wp_assert.
  { unfold SQ_END. unfold fin in *. nowrap. apply Z.leb_le. lia. }
  rewrite (u64_small (required m - size m)) by lia. apply wp_put_item; [done|lia..|].
  wp_step. by apply wp_modify, wp_ret.
Qed.

(** What the new item leaves as it was. *)
Lemma put_keeps_state s a m w o p q : area_ok s -> beg s <= a -> 0 < size m -> 0 <= w < 2 ^ 32 -> a + 16 + size m <= fin s ->
  beg s <= p -> q <= a \/ a + 16 + size m <= p -> keeps s ((put_state s a m w) <| prev := o |>) p q.
Proof. intros Hs Ha Hm Hw He Hp Hd. by apply put_keeps. Qed.

Lemma put_area_state s a m w o : area_ok s -> beg s <= a -> 0 < size m -> 0 <= w < 2 ^ 32 -> a + 16 + size m <= fin s ->
  same_area s ((put_state s a m w) <| prev := o |>).
Proof. intros Hs Ha Hm Hw He. by apply (put_area s Hs a m w). Qed.

Lemma put_item_state s a m : area_ok s -> beg s <= a -> a mod 16 = 0 -> 0 < size m <= 2 ^ 32 - 32 ->
  a + required m + 16 <= fin s ->
  let s' := placed s a m in
  item s' a m (required m - size m) /\ next a m (required m - size m) = a + required m + 16 /\
  next a m (required m - size m) mod 16 = 0.
Proof.
  intros Hs Ha Hal Hm He s'. destruct (required_bounds m ltac:(lia)) as [Hr Hr'].
  assert (next a m (required m - size m) = a + required m + 16) as En by (unfold next; lia).
  assert ((a + required m + 16) mod 16 = 0) as Hmod.
  { rewrite Z.add_mod, (Z.add_mod a), Hal, Hr' by lia. done. }
  assert (item (put_state s a m (required m - size m)) a m (required m - size m)) as Hit.
  { apply put_item; try done; try lia. rewrite En. by left. }
  split_and!; [by apply item_prev|done|by rewrite En].
Qed.

(** An item in front of the one written stays. *)
Lemma run_snoc s p l q m w r : run s p l q -> item s q m w -> next q m w = r -> run s p (l ++ [(m, w)]) r.
Proof. intros H1 H2 H3. apply run_app. exists q. done. Qed.

(** *** Adding a message *)

Section write.
Context (s : seqbuf) (m : list Z) (Hs : area_ok s) (Hm : 0 < size m <= 2 ^ 32 - 32).

(** At [a], behind items [l] that start at [t]: both stay. *)
Lemma written_run a t l p : beg s <= a -> a + 16 + size m <= fin s -> required m + size m < 2 ^ 33 ->
  beg s <= t -> p <= a \/ a + 16 + size m <= t -> run s t l p ->
  run (placed s a m) t l p.
Proof using Hs Hm.
  intros Ha He _ Ht Hd Hr. destruct (required_bounds m ltac:(lia)) as [Hq _].
  eapply run_keeps; [|eapply put_keeps_state|exact Hr]; [apply put_area_state|..]; try done; lia.
Qed.

(** The empty buffer. *)
Lemma write_empty : prev s = None -> tail s = beg s -> required m + 16 <= len s ->
  layout (placed s (beg s) m) [m].
Proof using Hs Hm.
  intros Ep Et Hl. destruct (required_bounds m ltac:(lia)) as [Hq _].
  destruct (put_item_state s (beg s) m Hs) as (Hi & En & Ha); [lia|apply Hs|done|unfold fin; lia|].
  refine (LLinear (placed s (beg s) m) [] (beg s) m (required m - size m) _ _ Hi Ha); [done|]. exact Et.
Qed.

Section behind.
Context (l : list (list Z * Z)) (p : Z) (m0 : list Z) (w0 : Z).
Context (Ep : prev s = Some p) (Hi : item s p m0 w0) (Hal : next p m0 w0 mod 16 = 0).
Let f := next p m0 w0.

(** Behind the newest item. *)
Lemma written_behind t : beg s <= t -> required m + 16 <= fin s - f -> run s t l p ->
  let s' := placed s f m in
  run s' t (l ++ [(m0, w0)]) f /\ item s' f m (required m - size m) /\
  next f m (required m - size m) = f + required m + 16 /\ next f m (required m - size m) mod 16 = 0.
Proof using Hs Hm Hi Hal.
  intros Ht Hg Hr s'. destruct (required_bounds m ltac:(lia)) as [Hq _]. destruct (item_bounds s Hs p m0 w0 Hi) as (?&?&?&?&?&?).
  assert (beg s <= f /\ p < f) as [? ?] by (unfold f, next in *; lia).
  destruct (put_item_state s f m Hs) as (Hi' & En & Ha); [done..|lia|]. split; [|done].
  apply written_run; [done|lia|lia|done|lia|]. eapply run_snoc; [exact Hr|exact Hi|done].
Qed.

(** The newest item takes the rest of the area. *)
Definition widened : seqbuf := stored s (p + 8) (size_bytes (w0 + (fin s - f))).

Lemma widened_area : same_area s widened.
Proof using Hs Hi.
  clear Hm m. destruct (item_bounds s Hs p m0 w0 Hi) as (?&?&?&?&?&?). apply stored_area; [done|lia|rewrite size_bytes_length; lia].
Qed.

Lemma widened_item : item widened p m0 (w0 + (fin s - f)).
Proof using Hs Hi.
  clear Hm m. destruct (item_bounds s Hs p m0 w0 Hi) as (?&?&?&?&?&?). pose proof (size_bytes_length (w0 + (fin s - f))) as L.
  assert (next p m0 (w0 + (fin s - f)) = fin s) as En by (unfold f, next in *; lia).
  assert (forall x y, beg s <= x -> y <= p + 8 \/ p + 16 <= x -> keeps s widened x y) as K.
  { intros x y Hx Hd. apply stored_keeps; [done|lia|lia|done|lia]. }
  assert (fin widened = fin s) as Ef by done. destruct Hi as [I1 I2 I3 I4 I5 I6 I7]. constructor.
  - rewrite (K p (p + 8)) by lia. done.
  - rewrite <- L at 1. apply stored_same; [done|lia|lia].
  - rewrite (K (p + 16) (fin s)) by (unfold next in *; lia). done.
  - unfold f, next in *. lia.
  - done.
  - rewrite Ef. lia.
  - right. by rewrite Ef.
Qed.

Lemma widened_run t : beg s <= t -> run s t l p -> run widened t (l ++ [(m0, w0 + (fin s - f))]) (fin s).
Proof using Hs Hi.
  clear Hm m. intros Ht Hr. destruct (item_bounds s Hs p m0 w0 Hi) as (?&?&?&?&?&?). pose proof (size_bytes_length (w0 + (fin s - f))) as L.
  eapply run_snoc; [|apply widened_item|unfold f, next in *; lia].
  eapply run_keeps; [apply widened_area| |exact Hr]. apply stored_keeps; [done|lia|lia|done|lia].
Qed.

End behind.
End write.

(** The three places of a message in a buffer that is not empty. *)
Section layouts.
Context (s : seqbuf) (m : list Z) (Hs : area_ok s) (Hm : 0 < size m <= 2 ^ 32 - 32).
Context (p : Z) (m0 : list Z) (w0 : Z) (Hi : item s p m0 w0) (Hal : next p m0 w0 mod 16 = 0).

Lemma placed_area a : beg s <= a -> a + required m <= fin s -> same_area s (placed s a m).
Proof using Hs Hm.
  intros Ha He. destruct (required_bounds m ltac:(lia)) as [Hq _]. apply put_area_state; done || lia.
Qed.

Lemma write_linear l : beg s <= tail s -> run s (tail s) l p -> next p m0 w0 + required m + 16 <= fin s ->
  layout (placed s (next p m0 w0) m) ((l.*1 ++ [m0]) ++ [m]).
Proof using Hs Hm Hi Hal.
  intros Ht Hr He. destruct (written_behind s m Hs Hm l p m0 w0 Hi Hal (tail s)) as (Hr' & Hi' & En & Ha); [lia|lia|done|].
  replace (l.*1 ++ [m0]) with ((l ++ [(m0, w0)]).*1) by by rewrite fmap_app.
  exact (LLinear (placed s (next p m0 w0) m) _ _ m (required m - size m) eq_refl Hr' Hi' Ha).
Qed.

Lemma write_wrapped l1 l2 : l1 <> [] -> run s (tail s) l1 (fin s) -> run s (beg s) l2 p ->
  next p m0 w0 + required m + 16 <= tail s -> layout (placed s (next p m0 w0) m) ((l1.*1 ++ l2.*1 ++ [m0]) ++ [m]).
Proof using Hs Hm Hi Hal.
  intros Hl Hr1 Hr2 He. destruct (required_bounds m ltac:(lia)) as [Hq _]. pose proof (run_le _ _ _ _ Hr1).
  destruct (item_bounds s Hs p m0 w0 Hi) as (?&?&?&?&?&?). assert (next p m0 w0 = p + 16 + size m0 + w0) as E0 by done.
  destruct (written_behind s m Hs Hm l2 p m0 w0 Hi Hal (beg s)) as (Hr' & Hi' & En & Ha); [lia|lia|done|].
  rewrite <- app_assoc. replace (l2.*1 ++ [m0]) with ((l2 ++ [(m0, w0)]).*1) by by rewrite fmap_app.
  refine (LWrapped (placed s (next p m0 w0) m) l1 (l2 ++ [(m0, w0)]) _ m (required m - size m) eq_refl Hl _ Hr' Hi' _ Ha);
    [|simpl; lia].
  apply (written_run s m Hs Hm); [lia|lia|lia|simpl; lia|simpl; lia|done].
Qed.

Lemma write_around l : beg s <= tail s -> run s (tail s) l p -> required m + 16 <= tail s - beg s ->
  let s1 := widened s p m0 w0 in
  same_area s (placed s1 (beg s) m) /\ layout (placed s1 (beg s) m) ((l.*1 ++ [m0]) ++ [m]).
Proof using Hs Hm Hi.
  intros Ht Hr He s1. destruct (required_bounds m ltac:(lia)) as [Hq _]. pose proof (run_le _ _ _ _ Hr).
  destruct (item_bounds s Hs p m0 w0 Hi) as (?&?&?&?&?&?).
  pose proof (widened_area s Hs p m0 w0 Hi) as Ha1. fold s1 in Ha1. pose proof (same_area_ok _ _ Ha1 Hs) as Hs1.
  assert (fin s1 = fin s /\ tail s1 = tail s /\ beg s1 = beg s) as (F1 & T1 & B1) by done.
  destruct (put_item_state s1 (beg s) m Hs1) as (Hi' & En & Ha); [lia|apply Hs|done|lia|].
  split; [eapply same_area_trans; [exact Ha1|apply put_area_state; done || lia]|].
  replace (l.*1 ++ [m0]) with ((l ++ [(m0, w0 + (fin s - next p m0 w0))]).*1) by by rewrite fmap_app.
  refine (LWrapped (placed s1 (beg s) m) _ [] (beg s) m (required m - size m) eq_refl _ _ eq_refl Hi' _ Ha).
  - by destruct l.
  - apply (written_run s1 m Hs1 Hm); [lia|lia|lia|simpl; lia|simpl; lia|].
    apply (widened_run s Hs l p m0 w0 Hi); [exact Ht|done].
  - simpl. lia.
Qed.

End layouts.

(** The second half of [seqbuf_write], from the choice of the place on. *)
Lemma wp_write_place s m p m0 w0 (P : Z -> seqbuf -> Prop) : area_ok s -> 0 < size m <= 2 ^ 32 - 32 ->
  prev s = Some p -> item s p m0 w0 ->
  (if fin s <? next p m0 w0 + required m
   then tail s <= fin s /\ required m <= tail s - beg s /\ let s1 := widened s p m0 w0 in
     P (i32 (size m)) (placed s1 (beg s) m)
   else P (i32 (size m)) (placed s (next p m0 w0) m)) ->
  wp (let! itp := sqcalc_next p in
      let! itp := (if SQ_END s <? u64 (itp + required m) then
                     let! w := get_waste p in
                     set_waste p (u64 (w + u64 (SQ_END s - itp))) ;; ret (beg s)
                   else ret itp) in
      assert (u64 (itp + required m) <=? SQ_END s) ;;
      set_waste itp (u64 (required m - size m)) ;;
      set_len itp (size m) ;;
      (if size m <=? size m then store (itp + sizeof_seqitem) (take (Z.to_nat (size m)) m) else throw OutOfBounds) ;;
      modify (fun s => s <| prev := Some itp |>) ;;
      ret (i32 (size m))) s P.
Proof.
  intros Hs Hm Ep Hi HP. destruct (item_bounds s Hs p m0 w0 Hi) as (?&?&?&?&?&?).
  destruct (required_bounds m ltac:(lia)) as [Hq _]. assert (SQ_END s = fin s) as Hend by (by eapply SQ_END_eq).
  wp_step. apply (wp_sqcalc_next s Hs p m0 w0 Hi). rewrite Hend.
  assert (next p m0 w0 = p + 16 + size m0 + w0) as En by done. rewrite (u64_small (_ + required m)) by lia.
  destruct (Z.ltb_spec (fin s) (next p m0 w0 + required m)) as [Hl|Hl].
  - destruct HP as (Ht & Hr & HP). wp_step. wp_step. apply (wp_get_waste s Hs p m0 w0 Hi). wp_step. unfold set_waste at 1.
    rewrite (u64_small (fin s - _)), u64_small by lia. apply wp_store; [done|lia| |].
    { pose proof (size_bytes_length (w0 + (fin s - next p m0 w0))) as L. unfold size_bytes in L. lia. }
    wp_step. pose proof (widened_area s Hs p m0 w0 Hi) as Ha.
    change (stored s (p + 8) _) with (widened s p m0 w0).
    rewrite <- Hend. apply (wp_write_at (widened s p m0 w0) (beg s) m P); [by apply (same_area_ok _ _ Ha)|done|
      unfold fin in *; simpl in *; lia|done|exact HP].
  - wp_step. rewrite <- Hend. apply wp_write_at; [done|lia|lia|done|exact HP].
Qed.

(** A write is refused for want of a large enough free piece, or appends. *)
Definition written (s : seqbuf) (q : list (list Z)) (m : list Z) (r : Z) (s' : seqbuf) : Prop :=
  same_area s s' /\
  ((r = 0 /\ s' = s /\ (m = [] \/ gap s (required m) < required m)) \/
   (r = i32 (size m) /\ m <> [] /\ required m <= gap s (required m) /\ layout s' (q ++ [m]))).

Lemma same_area_self s : same_area s s.
Proof. done. Qed.

Lemma wp_seqbuf_write s q m : holds s q -> size m <= 2 ^ 32 - 32 -> slack s m = true ->
  wp (seqbuf_write m (size m)) s (fun r s' => written s q m r s').
Proof.
  intros [Hs Hq] Hm Hslack%slack_cases. destruct (required_bounds m Hm) as [Hreq _]. pose proof (layout_tail s q Hs Hq) as Ht.
  assert (0 <= beg s /\ fin s < 2 ^ 32 - 15) as [Hb Hf] by (destruct Hs; unfold fin; lia).
  unfold seqbuf_write. wp_step. apply (wp_sqcalc_avail s q); [done..|]. fold (required m).
  pose proof (gap_room s q (required m) Hs Hq) as Hgr. unfold truth.
  destruct (Z.ltb_spec (room s) (required m)) as [Hr|Hr]; simpl; [wp_step; split; [done|left; rewrite Hgr; auto]|].
  destruct (Z.eqb_spec (size m) 0) as [E|E]; simpl.
  { wp_step. split; [done|left]. split_and!; [done..|left]. by destruct m. }
  assert (m <> []) as Hne by (by intros ->). destruct Hslack as [?|[?|Hg]]; [done|lia|].
  assert (0 < size m <= 2 ^ 32 - 32) as Hm' by lia.
  wp_step. apply wp_get. inversion Hq as [Ep Et Eq|l p m0 w0 Ep Hrun Hi Hal Eq|l1 l2 p m0 w0 Ep Hl1 Hr1 Hr2 Hi Hle Hal Eq]; rewrite Ep.
  - unfold gap, front in Hg. rewrite Ep in Hg. wp_step. wp_step. assert (SQ_END s = fin s) as Hend.
    { unfold SQ_END, fin in *. apply u64_small. lia. }
    rewrite (u64_small (beg s + required m)), Hend by (unfold fin in *; lia).
    rewrite (proj2 (Z.ltb_ge _ _)) by (unfold fin in *; lia). wp_step. wp_step. rewrite <- Hend.
    apply wp_write_at; [done|lia|unfold fin in *; lia|done|].
    split; [apply placed_area; done || unfold fin in *; lia|right].
    split_and!; [done|done|unfold gap, front; rewrite Ep; lia|]. by apply (write_empty s m).
  - assert (next p m0 w0 > tail s) as Hnt.
    { pose proof (run_le _ _ _ _ Hrun). destruct (item_bounds s Hs p m0 w0 Hi) as (?&?&?&?&?&?). unfold next. lia. }
    pose proof (front_item s p m0 w0 Hs Ep Hi) as Hfr. unfold gap in Hg |- *. rewrite Hfr in Hg.
    rewrite (proj2 (Z.leb_gt _ _)) in Hg by lia.
    apply (wp_write_place s m p m0 w0); [done..|].
    destruct (Z.ltb_spec (fin s) (next p m0 w0 + required m)) as [Hlt|Hlt].
    + rewrite (proj2 (Z.leb_gt _ _)) in Hg by lia. split; [lia|]. split; [lia|]. intros s1.
      destruct (write_around s m Hs Hm' p m0 w0 Hi l) as [Ha Hl]; [lia|done|lia|]. split; [exact Ha|right].
      split_and!; [done|done|unfold gap; rewrite Hfr; zbool; lia|exact Hl].
    + rewrite (proj2 (Z.leb_le _ _)) in Hg by lia. destruct (item_bounds s Hs p m0 w0 Hi) as (?&?&?&?&?&?).
      split; [apply placed_area; done || (unfold next in *; lia)|right].
      split_and!; [done|done|unfold gap; rewrite Hfr; zbool; lia|apply write_linear; done || lia].
  - pose proof (front_item s p m0 w0 Hs Ep Hi) as Hfr. unfold gap in Hg. rewrite Hfr in Hg.
    rewrite (proj2 (Z.leb_le _ _)) in Hg by lia.
    apply (wp_write_place s m p m0 w0); [done..|]. rewrite (proj2 (Z.ltb_ge _ _)) by lia.
    destruct (item_bounds s Hs p m0 w0 Hi) as (?&?&?&?&?&?).
    split; [apply placed_area; done || (unfold next in *; lia)|right].
    split_and!; [done|done|unfold gap; rewrite Hfr; zbool; lia|apply write_wrapped; done || lia].
Qed.

(** *** Removing a message *)

Lemma layout_head s m q : layout s (m :: q) -> exists w, item s (tail s) m w.
Proof.
  intros Hq. inversion Hq as [|l p m0 w0 Ep Hr Hi Hal El|l1 l2 p m0 w0 Ep Hl Hr1 Hr2 Hi Hle Hal El].
  - destruct l as [|[m1 w1] l]; simpl in *; simplify_eq; [by exists w0|by exists w1; apply Hr].
  - destruct l1 as [|[m1 w1] l1]; [done|]. simpl in *. simplify_eq. exists w1. apply Hr1.
Qed.

Lemma layout_prev s q : layout s q -> (prev s = None <-> q = []).
Proof.
  destruct 1 as [E|l p m w E|l1 l2 p m w E]; rewrite E; split; try done; intros Hn; [by destruct l|].
  destruct l1; [by destruct l2|done].
Qed.

Lemma item_tail s p m w t : item s p m w -> item (s <| tail := t |>) p m w.
Proof. intros []. by constructor. Qed.

Lemma run_tail s p l q t : run s p l q -> run (s <| tail := t |>) p l q.
Proof. apply run_keeps; done. Qed.

Definition advanced (s : seqbuf) (q : list (list Z)) (s' : seqbuf) : Prop := same_area s s' /\ layout s' q.

Lemma wp_sqadvance_tail s m q : area_ok s -> layout s (m :: q) ->
  wp sqadvance_tail s (fun _ s' => advanced s q s').
Proof.
  intros Hs Hq. unfold sqadvance_tail. wp_step. apply wp_get.
  inversion Hq as [|l p m0 w0 Ep Hr Hi Hal El|l1 l2 p m0 w0 Ep Hl Hr1 Hr2 Hi Hle Hal El]; rewrite Ep.
  - destruct (item_bounds s Hs p m0 w0 Hi) as (?&?&?&?&?&?). destruct l as [|[m1 w1] l].
    + simpl in El, Hr. simplify_eq. rewrite bool_decide_eq_true_2 by congruence. apply wp_modify. split; [done|by apply LEmpty].
    + rewrite fmap_cons, <- app_comm_cons in El. cbn [fst] in El. simplify_eq. destruct Hr as [Hi1 Hr]. pose proof (run_le _ _ _ _ Hr). destruct (item_bounds s Hs _ _ _ Hi1) as (?&?&?&?&?&?).
      rewrite bool_decide_eq_false_2 by (intros [= E]; unfold next in *; lia).
      wp_step. apply (wp_sqcalc_next_wrp s Hs _ _ _ Hi1). rewrite (proj2 (Z.leb_gt _ _)) by lia. apply wp_modify.
      split; [done|]. eapply (LLinear (s <| tail := next (tail s) m w1 |>) l p m0 w0); [done| | |done];
        [by apply run_tail|by apply item_tail].
  - destruct (item_bounds s Hs p m0 w0 Hi) as (?&?&?&?&?&?). assert (next p m0 w0 = p + 16 + size m0 + w0) as En by done.
    destruct l1 as [|[m1 w1] l1]; [done|]. rewrite fmap_cons, <- app_comm_cons in El. cbn [fst] in El. simplify_eq. destruct Hr1 as [Hi1 Hr1].
    rewrite bool_decide_eq_false_2 by (intros [= E]; lia). wp_step. apply (wp_sqcalc_next_wrp s Hs _ _ _ Hi1).
    destruct l1 as [|x l1].
    + simpl in Hr1. rewrite Hr1, Z.leb_refl. apply wp_modify. split; [done|].
      eapply (LLinear (s <| tail := beg s |>) l2 p m0 w0); [done| | |done]; [by apply run_tail|by apply item_tail].
    + pose proof (run_cons_lt _ _ _ _ _ Hr1). rewrite (proj2 (Z.leb_gt _ _)) by lia. apply wp_modify. split; [done|].
      destruct (item_bounds s Hs _ _ _ Hi1) as (?&?&?&?&?&?).
      eapply (LWrapped (s <| tail := next (tail s) m w1 |>) (x :: l1) l2 p m0 w0); try done;
        [by apply run_tail|by apply run_tail|by apply item_tail|simpl; unfold next in *; lia].
Qed.

(** *** The queue of messages *)

(** What a client does; [STake] is [seqbuf_get], a copy of the message, and
    [seqbuf_put]. *)
Inductive seq_op := SWrite (m : list Z) | SRead (n : Z) | STake | SLen.

Definition seq_result : Type := Z * option (list Z).

Definition seq_step (op : seq_op) : SB seq_result :=
  match op with
  | SWrite m => let! r := seqbuf_write m (size m) in ret (r, None)
  | SRead n => seqbuf_read n
  | STake =>
      let! p := seqbuf_get in
      match p with
      | None => ret (0, None)
      | Some (a, n) => let! b := load a n in seqbuf_put ;; ret (n, Some b)
      end
  | SLen => let! r := seqbuf_get_read_len in ret (r, None)
  end.

Fixpoint seq_run (ops : list seq_op) : SB (list seq_result) :=
  match ops with
  | [] => ret []
  | op :: ops => let! r := seq_step op in let! rs := seq_run ops in ret (r :: rs)
  end.

(** One step of a queue; [cap] is the size of the area. *)
Inductive fifo (cap : Z) : seq_op -> seq_result -> list (list Z) -> list (list Z) -> Prop :=
| FAppend m q : m <> [] -> fifo cap (SWrite m) (i32 (size m), None) q (q ++ [m])
| FRefuse m q : (q = [] -> m = [] \/ cap < required m) -> fifo cap (SWrite m) (0, None) q q
| FRead m q n : size m <= n -> fifo cap (SRead n) (i32 (size m), Some m) (m :: q) q
| FShort m q n : n < size m -> fifo cap (SRead n) (i32 (- size m), None) (m :: q) (m :: q)
| FReadNone n : fifo cap (SRead n) (0, None) [] []
| FTake m q : fifo cap STake (size m, Some m) (m :: q) q
| FTakeNone : fifo cap STake (0, None) [] []
| FLen m q : fifo cap SLen (size m, None) (m :: q) (m :: q)
| FLenNone : fifo cap SLen (0, None) [] [].

Inductive fifo_trace (cap : Z) : list seq_op -> list seq_result -> list (list Z) -> list (list Z) -> Prop :=
| FDone q : fifo_trace cap [] [] q q
| FStep op r ops rs q q1 q2 : fifo cap op r q q1 -> fifo_trace cap ops rs q1 q2 ->
    fifo_trace cap (op :: ops) (r :: rs) q q2.

(** Messages fit a 32-bit length, and each write leaves the slack. *)
Definition op_fits (op : seq_op) : Prop := match op with SWrite m => size m <= 2 ^ 32 - 32 | _ => True end.
Definition op_slack (s : seqbuf) (op : seq_op) : bool := match op with SWrite m => slack s m | _ => true end.

Fixpoint with_slack (ops : list seq_op) (s : seqbuf) : bool :=
  match ops with
  | [] => true
  | op :: ops => op_slack s op && match seq_step op s with Ok (_, s') => with_slack ops s' | Fault _ => true end
  end.

Section steps.
Context (s : seqbuf) (q : list (list Z)) (Hs : area_ok s) (Hq : layout s q).

Definition stepped (op : seq_op) (r : seq_result) (s' : seqbuf) : Prop :=
  same_area s s' /\ exists q', layout s' q' /\ fifo (len s) op r q q'.

Lemma step_write m : size m <= 2 ^ 32 - 32 -> slack s m = true -> wp (seq_step (SWrite m)) s (stepped (SWrite m)).
Proof using Hs Hq.
  intros Hm Hsl. simpl. wp_step. eapply wp_mono; [by apply (wp_seqbuf_write s q m)|].
  intros r s' [Ha [(-> & -> & Hr)|(-> & Hne & _ & Hq')]]; wp_step; (split; [done|]).
  - exists q. split; [done|]. apply FRefuse. intros ->. destruct Hr as [?|Hg]; [by left|right].
    pose proof (proj2 (layout_prev s [] Hq) eq_refl) as Ep. unfold gap, front in Hg. by rewrite Ep in Hg.
  - exists (q ++ [m]). split; [done|by apply FAppend].
Qed.

(** The reading operations begin with a look at the oldest message. *)
Lemma wp_oldest {A} (none some : SB A) (P : A -> seqbuf -> Prop) :
  (q = [] -> wp none s P) ->
  (forall m q' w, q = m :: q' -> item s (tail s) m w -> layout s (m :: q') -> wp some s P) ->
  wp (if bool_decide (prev s = None) then none else some) s P.
Proof using Hs Hq.
  intros Hn Hc. pose proof (layout_prev s q Hq) as Hp. destruct q as [|m q'].
  - rewrite bool_decide_eq_true_2 by (by apply Hp). by apply Hn.
  - rewrite bool_decide_eq_false_2 by (by rewrite Hp). destruct (layout_head s m q' Hq) as [w Hi]. by eapply Hc.
Qed.

Lemma step_read n : wp (seq_step (SRead n)) s (stepped (SRead n)).
Proof using Hs Hq.
  simpl. unfold seqbuf_read. wp_step. apply wp_get. apply wp_oldest.
  - intros E. wp_step. split; [done|]. exists q. rewrite E in *. split; [done|constructor].
  - intros m q' w E Hi Hq'. wp_step. apply (wp_get_len s Hs _ m w Hi). destruct (Z.ltb_spec n (size m)).
    + wp_step. split; [done|]. exists q. rewrite E. split; [done|by constructor].
    + wp_step. apply (wp_load_item s Hs _ m w Hi). wp_step. eapply wp_mono; [by apply (wp_sqadvance_tail s m q')|].
      intros [] s' [Ha Hl]. wp_step. split; [done|]. exists q'. rewrite E. split; [done|by constructor].
Qed.

Lemma step_take : wp (seq_step STake) s (stepped STake).
Proof using Hs Hq.
  simpl. unfold seqbuf_get. wp_step. wp_step. apply wp_get. apply wp_oldest.
  - intros E. wp_step. wp_step. split; [done|]. exists q. rewrite E in *. split; [done|constructor].
  - intros m q' w E Hi Hq'. wp_step. apply (wp_get_len s Hs _ m w Hi). wp_step.
    wp_step. apply (wp_load_item s Hs _ m w Hi). unfold seqbuf_put. wp_step. wp_step. apply wp_get. wp_step. apply wp_assert.
    { apply bool_decide_eq_true_2. rewrite (layout_prev s q Hq), E. done. }
    eapply wp_mono; [by apply (wp_sqadvance_tail s m q')|].
    intros [] s' [Ha Hl]. wp_step. split; [done|]. exists q'. rewrite E. split; [done|by constructor].
Qed.

Lemma step_len : wp (seq_step SLen) s (stepped SLen).
Proof using Hs Hq.
  simpl. unfold seqbuf_get_read_len. wp_step. wp_step. apply wp_get. apply wp_oldest.
  - intros E. wp_step. wp_step. split; [done|]. exists q. rewrite E in *. split; [done|constructor].
  - intros m q' w E Hi Hq'. apply (wp_get_len s Hs _ m w Hi). wp_step. split; [done|]. exists q. rewrite E.
    split; [done|by constructor].
Qed.

Lemma step_refines op : op_fits op -> op_slack s op = true -> wp (seq_step op) s (stepped op).
Proof using Hs Hq. destruct op; intros H1 H2; [by apply step_write|apply step_read|apply step_take|apply step_len]. Qed.

End steps.

(** A sequential buffer is a queue of messages.  From a state that holds a
    queue, any sequence of writes, reads, takes and length queries runs without
    a failing assertion or an access outside the area and answers as the queue
    does, as long as every write is refused or leaves 16 bytes free behind it
    (the header, which [waste] counts a second time). *)
Theorem seqbuf_refines_fifo s q ops : holds s q -> Forall op_fits ops -> with_slack ops s = true ->
  exists rs s' q', seq_run ops s = Ok (rs, s') /\ holds s' q' /\ same_area s s' /\
    fifo_trace (len s) ops rs q q'.
Proof.
  intros [Hs Hq] Hops. revert s q Hs Hq. induction Hops as [|op ops Hop _ IH]; intros s q Hs Hq Hsl.
  { exists [], s, q. split_and!; [done|by split|done|constructor]. }
  apply andb_true_iff in Hsl as [Hsl Hrest].
  destruct (wp_inv _ _ _ (step_refines s q Hs Hq op Hop Hsl)) as (r & s1 & E & Ha & q1 & Hq1 & Hf).
  rewrite E in Hrest. destruct (IH s1 q1 (same_area_ok _ _ Ha Hs) Hq1 Hrest) as (rs & s2 & q2 & E2 & Hh & Ha2 & Ht).
  assert (len s1 = len s) as El by apply Ha. rewrite El in Ht.
  exists (r :: rs), s2, q2. split; [simpl; unfold bind; by rewrite E, E2|].
  split; [done|]. split; [by eapply same_area_trans|by econstructor].
Qed.

(** Initialising an area below 4 GB gives the empty queue. *)
Lemma seqbuf_init_holds s n : 0 <= base s -> Z.of_nat (length (mem s)) = n -> 15 <= n -> base s + n < 2 ^ 32 - 15 ->
  wp (seqbuf_init (base s) n) s (fun r s' => r = 0 /\ holds s' [] /\ len s' = n - (SQALIGN (base s) - base s)).
Proof.
  intros H1 H2 H3 H4. destruct (SQALIGN_le (base s)) as [Hal Hmod]; [lia|]. unfold seqbuf_init. wp_step. apply wp_modify.
  rewrite u64_small by lia. wp_step. split_and!; [done| |done]. split; [constructor; simpl; lia|by apply LEmpty].
Qed.

(** Above 4 GB the address is cut to 32 bits and the area starts outside of
    the memory that was given. *)
Lemma seqbuf_init_truncates s n : 2 ^ 32 <= base s ->
  wp (seqbuf_init (base s) n) s (fun _ s' => beg s' < base s').
Proof.
  intros H. unfold seqbuf_init. wp_step. apply wp_modify, wp_ret. simpl. unfold SQALIGN, P2ALIGN.
  pose proof (land_le_r (u64 (base s + roundUpToNextPowerOfTwo sizeof_seqitem - 1)) (u32 (Z.opp 16)) ltac:(vm_compute; congruence)).
  change (u32 (Z.opp (roundUpToNextPowerOfTwo sizeof_seqitem))) with (u32 (Z.opp 16)) in *.
  assert (u32 (Z.opp 16) < 2 ^ 32) by reflexivity. lia.
Qed.

(** *** Without the slack *)

Lemma get_len_eq s a v : area_ok s -> beg s <= a -> a + 16 <= fin s -> 0 <= v < 2 ^ 64 ->
  bytes_at s a 8 = size_bytes v -> get_len a s = Ok (v, s).
Proof.
  intros Hs Ha He Hv Hb. destruct (wp_inv (get_len a) s (fun x s' => x = v /\ s' = s)) as (x & s' & -> & -> & ->); [|done].
  unfold get_len. wp_step. apply wp_load; [done|lia|lia|]. rewrite Hb, size_bytes_value by done. by apply wp_ret.
Qed.

Lemma get_waste_eq s a v : area_ok s -> beg s <= a -> a + 16 <= fin s -> 0 <= v < 2 ^ 64 ->
  bytes_at s (a + 8) 8 = size_bytes v -> get_waste a s = Ok (v, s).
Proof.
  intros Hs Ha He Hv Hb. destruct (wp_inv (get_waste a) s (fun x s' => x = v /\ s' = s)) as (x & s' & -> & -> & ->); [|done].
  unfold get_waste. wp_step. apply wp_load; [done|lia|lia|]. rewrite Hb, size_bytes_value by done. by apply wp_ret.
Qed.

Lemma bytes_at_prev s o a n : bytes_at (s <| prev := o |>) a n = bytes_at s a n.
Proof. done. Qed.

Lemma placed_fields s a m : area_ok s -> beg s <= a -> 0 < size m <= 2 ^ 32 - 32 -> a + required m <= fin s ->
  bytes_at (placed s a m) a 8 = size_bytes (size m) /\
  bytes_at (placed s a m) (a + 8) 8 = size_bytes (required m - size m).
Proof.
  intros Hs Ha Hm He. destruct (required_bounds m ltac:(lia)) as [Hq _].
  destruct (put_fields s Hs a m (required m - size m)) as (F1 & F2 & _); [done|lia|lia|].
  unfold placed. rewrite !bytes_at_prev. split; [exact F1|exact F2].
Qed.

(** The item put at the end of the area without slack reaches past it. *)
Lemma tight_next s a m : area_ok s -> beg s <= a -> 0 < size m <= 2 ^ 32 - 32 ->
  a + required m <= fin s < a + required m + 16 -> sqcalc_next a (placed s a m) = Fault AssertFailed.
Proof.
  intros Hs Ha Hm He. destruct (required_bounds m ltac:(lia)) as [Hq _].
  assert (0 <= beg s /\ fin s < 2 ^ 32 - 15) as [Hb Hf] by (destruct Hs; unfold fin; lia).
  destruct (placed_fields s a m Hs Ha Hm ltac:(lia)) as (F1 & F2).
  pose proof (placed_area s m Hs Hm a Ha ltac:(lia)) as Har. pose proof (same_area_ok _ _ Har Hs) as Hs'.
  assert (beg (placed s a m) = beg s /\ fin (placed s a m) = fin s /\ len (placed s a m) = len s) as (B' & F' & L') by done.
  unfold sqcalc_next, bind, get. rewrite (get_len_eq _ a (size m)) by (done || lia).
  rewrite (get_waste_eq _ a (required m - size m)) by (done || lia). rewrite B', L'. unfold sizeof_seqitem. nowrap.
  rewrite (proj2 (Z.leb_gt _ _)) by (unfold fin in *; lia). done.
Qed.

(** The place at the end of the items: the whole area when empty. *)
Definition tight (s : seqbuf) (m : list Z) : Prop :=
  let a := default (beg s) (front s) in
  (prev s = None \/ tail s < a) /\ a + required m <= fin s < a + required m + 16.

Section tight.
Context (s : seqbuf) (q : list (list Z)) (Hs : area_ok s) (Hq : layout s q).
Context (m : list Z) (Hm : 0 < size m <= 2 ^ 32 - 32).
Let a := default (beg s) (front s).
Context (Hta : prev s = None \/ tail s < a) (He : a + required m <= fin s < a + required m + 16).

(** The place is the end of an item. *)
Lemma tight_cases : (prev s = None /\ a = beg s /\ room s = len s) \/
  exists p m0 w0, prev s = Some p /\ item s p m0 w0 /\ a = next p m0 w0 /\ fin s - a <= room s.
Proof using Hs Hq Hta He.
  inversion Hq as [Ep Et|l p m0 w0 Ep _ Hi|l1 l2 p m0 w0 Ep _ _ _ Hi]; [left|right..].
  - unfold a, room, front. by rewrite Ep.
  - exists p, m0, w0. assert (a = next p m0 w0) as Ea by (unfold a; by rewrite (front_item s p m0 w0)). split_and!; try done.
    rewrite (room_item s p m0 w0) by done. destruct Hta; [congruence|]. rewrite (proj2 (Z.leb_gt _ _)); lia.
  - exists p, m0, w0. assert (a = next p m0 w0) as Ea by (unfold a; by rewrite (front_item s p m0 w0)). split_and!; try done.
    rewrite (room_item s p m0 w0) by done. destruct Hta; [congruence|]. rewrite (proj2 (Z.leb_gt _ _)); lia.
Qed.

Lemma tight_placed : beg s <= a /\ wp (seqbuf_write m (size m)) s (fun r s' => r = i32 (size m) /\ s' = placed s a m).
Proof using Hs Hq Hm Hta He.
  assert (0 <= beg s /\ fin s < 2 ^ 32 - 15) as [Hb Hf] by (destruct Hs; unfold fin; lia).
  assert (fin s = beg s + len s) as Ef by done. unfold seqbuf_write. fold (required m). pose proof He as He'.
  destruct (required_bounds m ltac:(lia)) as [Hreq _].
  assert (forall (P : Z -> seqbuf -> Prop) k, required m <= room s -> wp k s P ->
    wp (let! avail := sqcalc_avail in if (avail <? required m) || negb (truth (size m)) then ret 0 else k) s P) as Hgo.
  { intros P k Hr Hk. wp_step. apply (wp_sqcalc_avail s q); [done..|]. unfold truth.
    by rewrite (proj2 (Z.ltb_ge _ _)), (proj2 (Z.eqb_neq _ 0)) by lia. }
  destruct tight_cases as [(Ep & Ea & Er)|(p & m0 & w0 & Ep & Hi & Ea & Er)]; rewrite ?Ea in Er; rewrite Ea in He' |- *; (split; [|apply Hgo; [lia|]]).
  - lia.
  - wp_step. apply wp_get. rewrite Ep. wp_step. wp_step. assert (SQ_END s = fin s) as Hend by (apply u64_small; lia).
    rewrite (u64_small (beg s + required m)), Hend by lia.
    rewrite (proj2 (Z.ltb_ge _ _)) by lia. wp_step. wp_step. rewrite <- Hend. by apply wp_write_at; try done; lia.
  - destruct (item_bounds s Hs p m0 w0 Hi) as (?&?&?&?&?&?). unfold next. lia.
  - wp_step. apply wp_get. rewrite Ep. apply (wp_write_place s m p m0 w0); [done..|].
    by rewrite (proj2 (Z.ltb_ge _ _)) by lia.
Qed.

End tight.

(** A write that leaves less room than that is accepted, and every later
    write fails the assertion of [sqcalc_next]. *)
Theorem seqbuf_tight_write_breaks s q m : holds s q -> 0 < size m <= 2 ^ 32 - 32 -> tight s m ->
  exists s', seqbuf_write m (size m) s = Ok (i32 (size m), s') /\
    forall m', seqbuf_write m' (size m') s' = Fault AssertFailed.
Proof.
  intros [Hs Hq] Hm [Hta He]. set (a := default (beg s) (front s)) in *.
  destruct (tight_placed s q Hs Hq m Hm Hta He) as [Ha Hw]. fold a in Ha, Hw.
  destruct (wp_inv _ _ _ Hw) as (r & s' & E & -> & ->). exists (placed s a m). split; [done|]. intros m'.
  assert (sqcalc_avail (placed s a m) = Fault AssertFailed) as Ef.
  { unfold sqcalc_avail, bind at 1, get. change (prev (placed s a m)) with (Some a). cbv iota beta. unfold bind at 1.
    by rewrite (tight_next s a m Hs Ha Hm He). }
  unfold seqbuf_write, bind at 1. by rewrite Ef.
Qed.

(** *** Examples *)

(** 160 bytes at 4096. *)
Definition example_seq : seqbuf := MkSeq 4096 (replicate 160 0) 4096 4096 None 160.
Definition message (n : nat) (x : Z) : list Z := replicate n x.
Definition example_seq_ops : list seq_op :=
  [SWrite (message 16 1); SWrite (message 16 2); SWrite (message 16 3); SRead 16; SWrite (message 16 4);
   SRead 8; SRead 99; SLen; STake; STake; STake].

Lemma example_seq_holds : holds example_seq [].
Proof. split; [constructor; vm_compute; first [reflexivity|split; congruence|congruence]|by apply LEmpty]. Qed.

Lemma seqbuf_refines_fifo_witness :
  exists rs s' q', seq_run example_seq_ops example_seq = Ok (rs, s') /\ fifo_trace 160 example_seq_ops rs [] q' /\
    rs = [(16, None); (16, None); (16, None); (16, Some (message 16 1)); (16, None); (-16, None);
          (16, Some (message 16 2)); (16, None); (16, Some (message 16 3)); (16, Some (message 16 4)); (0, None)].
Proof.
  destruct (seqbuf_refines_fifo example_seq [] example_seq_ops) as (rs & s' & q' & E & _ & _ & Ht).
  - exact example_seq_holds.
  - unfold example_seq_ops. repeat (apply Forall_cons_2; [first [exact I|vm_compute; congruence]|]). apply Forall_nil_2.
  - vm_compute. reflexivity.
  - exists rs, s', q'. split; [exact E|]. split; [exact Ht|].
    assert (outcome (fun a _ => a) (seq_run example_seq_ops) example_seq = Some rs) as Ho
      by (unfold outcome; rewrite E; reflexivity).
    vm_compute in Ho. injection Ho as <-. reflexivity.
Defined.

(** A message of 144 bytes fills the area; the next write fails. *)
Lemma seqbuf_tight_write_breaks_witness :
  exists s', seqbuf_write (message 144 7) 144 example_seq = Ok (144, s') /\
    seqbuf_write [1] 1 s' = Fault AssertFailed.
Proof.
  destruct (seqbuf_tight_write_breaks example_seq [] (message 144 7)) as (s' & E & H).
  - exact example_seq_holds.
  - simpl. lia.
  - split; [left; reflexivity|]. vm_compute. split; congruence.
  - exists s'. split; [exact E|]. exact (H [1]).
Defined.

(** A message that fills the free piece in front of the oldest one: the next
    write destroys that one, and the client reads other bytes. *)
Example tight_write_corrupts :
  outcome (fun a _ => a) (seq_run [SWrite (message 16 1); SWrite (message 16 2); SWrite (message 16 3); SRead 16;
     SWrite (message 32 4); SWrite (message 16 5); SRead 99]) example_seq =
  Some [(16, None); (16, None); (16, None); (16, Some (message 16 1)); (32, None); (16, None);
        (16, Some (size_bytes 16 ++ size_bytes 16))].
Proof. vm_compute. reflexivity. Qed.
