(* ===== verification/UmbMap.v ===== *)
(** * Upper memory blocks in the memory map

    The XMS driver makes its UMB pools from the holes of the memory map, leaving
    out the page frame of the EMS driver.  Here the three models are put
    together: the environment of [umb_setup] (Xms.v) is [memcheck_findhole] on
    the map that the earlier calls leave (Memcheck.v) and [emm_is_pframe_addr]
    (Emm.v). *)

From stdpp Require Import base numbers list sorting.
From Stdlib Require Import ZArith Lia.
From S2P Require Import Prelude Memcheck MemcheckSpec Emm EmmInv Interfaces Smalloc Instances Xms XmsSpec.

Local Open Scope Z_scope.

(** ** The map behind the calls of the driver *)

Definition replay (c : xcall) (m : memcheck) : memcheck :=
  match c with
  | MapReserve a size => final m (memcheck_map_reserve ch_U a size) m
  | MapFree => final m (memcheck_map_free ch_U) m
  | _ => m
  end.

(** The log has the newest call first. *)
Definition map_after (m0 : memcheck) (log : list xcall) : memcheck := foldr replay m0 log.

Definition findhole_of (m0 : memcheck) (log : list xcall) (start : Z) : option (Z * Z) :=
  match memcheck_findhole start 1024 1048576 (map_after m0 log) with
  | Ok (r, _) => r
  | Fault _ => None
  end.

Definition umb_env (m0 : memcheck) (config : ems_config) (env : xms_env) : xms_env :=
  MkEnv (Xms.alloc_mapping env) (Xms.realloc_mapping env) (Xms.alias_mapping_pa env)
    (Xms.alias_mapping env) (findhole_of m0) (emm_is_pframe_addr config).

(** ** The page frame, in pages of the map *)

Definition frame_page (config : ems_config) (i : Z) : Prop :=
  ems_frame config / 64 <= i < ems_frame config / 64 + 16 * ems_uma_pages config.

Section frame.
Context (config : ems_config) (Hcfg : EmmInv.config_ok config).

Lemma in_frame_spec n i a :
  0 <= i -> i + Z.of_nat n <= ems_uma_pages config ->
  in_frame config n i a = true <->
  16 * (ems_frame config + 1024 * i) <= a < 16 * (ems_frame config + 1024 * (i + Z.of_nat n)).
Proof.
  pose proof (c_low config Hcfg). pose proof (c_high config Hcfg).
  revert i. induction n as [|n IH]; intros i Hi Hn; [split; [done|lia]|].
  cbn [in_frame]. rewrite orb_true_iff, IH, andb_true_iff, Z.leb_le, Z.ltb_lt by lia.
  unfold SEGOFF2LINEAR, Dosmem.SEGOFF2LINEAR, EMM_SEGMENT, EMM_PAGE_SIZE. nowrap. lia.
Qed.

(** A hole that does not start in the frame is cut where the frame begins. *)
Lemma pframe_cuts c k pf size :
  0 <= c -> 0 < k -> c + k < MAX_PAGE ->
  emm_is_pframe_addr config (c * GRAN_SIZE) (k * GRAN_SIZE) = (pf, size) ->
  pf = true \/
  exists k', size = k' * GRAN_SIZE /\ 0 < k' <= k /\ forall i, c <= i < c + k' -> ~ frame_page config i.
Proof.
  pose proof (c_low config Hcfg). pose proof (c_high config Hcfg). pose proof (c_size config Hcfg).
  pose proof (Z.div_mod (ems_frame config) 1024 ltac:(lia)) as Ef. rewrite (c_align config Hcfg) in Ef.
  pose proof (c_uma config Hcfg) as Hu.
  unfold emm_is_pframe_addr, frame_page, truth, GRAN_SIZE, MAX_PAGE, EMM_SEGMENT. intros Hc Hk Hck.
  rewrite (proj2 (Z.eqb_neq (ems_size config) 0)) by lia. simpl.
  assert (ems_frame config / 64 = 16 * (ems_frame config / 1024)) as ->.
  { symmetry. apply (Z.div_unique_pos _ _ _ 0); lia. }
  set (F := ems_frame config / 1024) in *.
  destruct (Z.eqb_spec (ems_uma_pages config) 0); simpl.
  { intros [= <- <-]. right. exists k. repeat split; lia. }
  destruct (in_frame _ _ _ _) eqn:Hin; [intros [= <- _]; by left|].
  assert (~ 16 * ems_frame config <= c * 1024 < 16 * (ems_frame config + 1024 * ems_uma_pages config)) as Hout.
  { intros Hr. enough (in_frame config (Z.to_nat (ems_uma_pages config)) 0 (c * 1024) = true) by congruence.
    apply in_frame_spec; lia. }
  rewrite Z.shiftl_mul_pow2 by lia. change (2 ^ 4) with 16. rewrite (u32_small (c * 1024 + k * 1024)) by lia.
  destruct (Z.ltb_spec (c * 1024) (ems_frame config * 16)),
    (Z.ltb_spec (ems_frame config * 16) (c * 1024 + k * 1024)); simpl; intros [= <- <-]; right.
  - exists (16 * F - c). rewrite u32_small by lia. repeat split; lia.
  - exists k. repeat split; lia.
  - exists k. repeat split; lia.
  - exists k. repeat split; lia.
Qed.

End frame.

(** ** Progress: the number of free pages *)

Definition zeros (l : list Z) : nat := length (filter (fun x => x = 0) l).
Definition free_count (m : memcheck) : nat := zeros (mem_map m).

Lemma zeros_claimed (l l' : list Z) :
  Forall2 (fun x y => y = x \/ (x = 0 /\ y <> 0)) l l' ->
  (zeros l' <= zeros l)%nat /\ (l' <> l -> (zeros l' < zeros l)%nat).
Proof.
  unfold zeros. induction 1 as [|x y l l' Hxy _ [IH1 IH2]]; [done|]. rewrite !filter_cons.
  destruct Hxy as [-> | [-> Hy]].
  - assert (x :: l' <> x :: l -> l' <> l) as Ht by (intros H ->; by apply H).
    case_decide; simpl; (split; [lia|]); intros Hne; specialize (IH2 (Ht Hne)); lia.
  - destruct (decide (y = 0)), (decide (0 = 0)); [done..| |done]. simpl. split; lia.
Qed.

Lemma claimed_count ch m m' :
  map_ok m -> ch <> 0 -> claimed ch m m' ->
  (free_count m' <= free_count m)%nat /\
  ((exists i, page m i = 0 /\ page m' i = ch) -> (free_count m' < free_count m)%nat).
Proof.
  intros Hm Hch [Hm' Hc].
  assert (forall (k : nat) s, map_ok s -> forall x, mem_map s !! k = Some x -> page s (Z.of_nat k) = x) as Hpg.
  { intros k s _ x Hx. unfold page, aget. by rewrite (proj2 (Z.ltb_ge _ 0)), Nat2Z.id, Hx by lia. }
  destruct (zeros_claimed (mem_map m) (mem_map m')) as [H1 H2].
  { apply Forall2_same_length_lookup. split; [by rewrite Hm, Hm'|]. intros k x y Hx Hy.
    specialize (Hc (Z.of_nat k)). rewrite (Hpg k m Hm x Hx), (Hpg k m' Hm' y Hy) in Hc.
    destruct Hc as [?|[? ->]]; auto. }
  split; [exact H1|]. intros (i & H0 & Hi). apply H2. intros E.
  unfold page in H0, Hi. rewrite E in Hi. congruence.
Qed.

Lemma free_count_le m : map_ok m -> (free_count m <= 1024)%nat.
Proof. intros Hm. unfold free_count, zeros. rewrite <- Hm. apply length_filter. Qed.

(** ** Areas *)

(** First page and number of pages of each area, by address. *)
Definition umb_areas (m : memcheck) (l : list (Z * Z)) : Prop :=
  Forall (fun p => 0 <= p.1 /\ 0 < p.2 /\ p.1 + p.2 < MAX_PAGE /\ free_range m p.1 (p.1 + p.2)) l /\
  StronglySorted (fun p q => p.1 + p.2 <= q.1) l.

Definition in_area (l : list (Z * Z)) (i : Z) : Prop :=
  Exists (fun p => p.1 <= i < p.1 + p.2) l.

Definition pool_of (p : Z * Z) : mempool := sminit (p.1 * GRAN_SIZE) (p.2 * GRAN_SIZE).

(** [m'] is [m] with the pages of the areas marked. *)
Definition marked (l : list (Z * Z)) (m m' : memcheck) : Prop :=
  map_ok m' /\ forall i, (in_area l i -> page m' i = ch_U) /\ (~ in_area l i -> page m' i = page m i).

Lemma in_area_snoc l p i : in_area (l ++ [p]) i <-> in_area l i \/ p.1 <= i < p.1 + p.2.
Proof. unfold in_area. rewrite Exists_app, Exists_cons, Exists_nil. tauto. Qed.

#[global] Instance in_area_dec l i : Decision (in_area l i).
Proof. unfold in_area. apply Exists_dec. intros p. apply _. Defined.

Lemma marked_snoc l p m m1 m2 :
  marked l m m1 -> painted ch_U p.1 (p.1 + p.2) m1 m2 -> marked (l ++ [p]) m m2.
Proof.
  intros [_ H1] [Hm2 H2]. split; [done|]. intros i. rewrite in_area_snoc, H2.
  destruct (Z.leb_spec p.1 i), (Z.ltb_spec i (p.1 + p.2)); simpl; destruct (H1 i) as [Ha Hb]; split; intros H'; tauto || lia || auto.
  all: try (apply Ha; destruct H' as [?|?]; [done|lia]).
Qed.

(** A free page with a used one after it starts a hole. *)
Lemma hole_exists m i j :
  0 <= i < j -> j < MAX_PAGE -> page m i = 0 -> page m j <> 0 -> exists k, hole m i k.
Proof.
  intros Hij Hj Hi Hu.
  assert (forall n : nat, i + Z.of_nat n < MAX_PAGE -> page m (i + Z.of_nat n) <> 0 -> exists k, hole m i k) as H.
  { intros n. induction (lt_wf n) as [n _ IH]. intros Hn Hun.
    destruct (decide (Exists (fun k => page m (i + Z.of_nat k) <> 0) (seq 0 n))) as [He|He].
    - apply Exists_exists in He as (k & Hk & Huk). apply elem_of_seq in Hk. apply (IH k); [lia|lia|done].
    - exists (Z.of_nat n). assert (n <> 0%nat) by (intros ->; simpl in Hun; by rewrite Z.add_0_r in Hun).
      split; [lia|]. split; [lia|]. split; [done|]. split; [|done]. intros q Hq.
      destruct (Z.eq_dec (page m q) 0) as [|Hne]; [done|]. destruct He. apply Exists_exists.
      exists (Z.to_nat (q - i)). rewrite elem_of_seq. split; [lia|]. by replace (i + Z.of_nat (Z.to_nat (q - i))) with q by lia. }
  apply (H (Z.to_nat (j - i))); replace (i + Z.of_nat (Z.to_nat (j - i))) with j by lia; done.
Qed.

(** A hole of the marked map is a free range of the original one. *)
Lemma marked_free l m m1 lo hi :
  marked l m m1 -> free_range m1 lo hi -> free_range m lo hi /\ forall i, lo <= i < hi -> ~ in_area l i.
Proof.
  intros [_ Hm] Hf.
  assert (forall i, lo <= i < hi -> ~ in_area l i) as Hout.
  { intros i Hi Ha. apply Hm in Ha. rewrite (Hf i Hi) in Ha. done. }
  split; [|done]. intros i Hi. rewrite <- (proj2 (Hm i) (Hout i Hi)). by apply Hf.
Qed.

Lemma marked_hole l m m1 i j :
  marked l m m1 -> 0 <= i < j -> j < MAX_PAGE -> page m i = 0 -> page m j <> 0 ->
  in_area l i \/ exists k, wanted m1 i 1024 1048576 i k.
Proof.
  intros [_ Hm] Hij Hj Hi Hu. destruct (decide (in_area l i)) as [|Hn]; [by left|right].
  destruct (hole_exists m1 i j) as [k Hk]; [done|done|by rewrite (proj2 (Hm i) Hn)| |].
  - destruct (decide (in_area l j)) as [Ha|Ha]; [by rewrite (proj1 (Hm j) Ha)|by rewrite (proj2 (Hm j) Ha)].
  - exists k. split; [lia|]. split; [done|]. destruct Hk as (? & ? & ? & _). unfold GRAN_SIZE, MAX_PAGE in *.
    change (1048576 / 1024) with 1024. lia.
Qed.

Lemma areas_snoc l m c k :
  umb_areas m l -> 0 <= c -> 0 < k -> c + k < MAX_PAGE -> free_range m c (c + k) ->
  Forall (fun p => p.1 <= c) l -> ~ in_area l c -> umb_areas m (l ++ [(c, k)]).
Proof.
  intros [H1 H2] Hc Hk Hm Hf Hle Hn. split.
  { apply Forall_app. split; [done|]. by repeat constructor. }
  assert (Forall (fun p => p.1 + p.2 <= c) l) as Hend.
  { apply Forall_forall. intros p Hp. rewrite Forall_forall in Hle. specialize (Hle p Hp).
    destruct (Z.le_gt_cases (p.1 + p.2) c); [done|]. destruct Hn. apply Exists_exists. exists p. split; [done|lia]. }
  clear - H2 Hend. induction H2 as [|p l Hs IH Hp]; simpl; [by repeat constructor|].
  inversion_clear Hend. constructor; [by apply IH|]. apply Forall_app. split; [done|]. by repeat constructor.
Qed.

(** Reserving a free range marks it. *)
Lemma replay_reserve c k m :
  map_ok m -> 0 <= c -> 0 < k -> c + k < MAX_PAGE -> free_range m c (c + k) ->
  painted ch_U c (c + k) m (replay (MapReserve (c * GRAN_SIZE) (k * GRAN_SIZE)) m).
Proof.
  intros Hm Hc Hk Hck Hf. unfold MAX_PAGE in Hck.
  assert (first_page (c * GRAN_SIZE) = c) as E1 by (unfold first_page, GRAN_SIZE; by rewrite Z.div_mul).
  assert (last_page (c * GRAN_SIZE) (k * GRAN_SIZE) = c + k) as E2.
  { unfold last_page, GRAN_SIZE. rewrite end_page_eq by lia.
    replace (c * 1024 + k * 1024 + 1023) with (1023 + (c + k) * 1024) by lia.
    rewrite Z.div_add by lia. change (1023 / 1024) with 0. unfold MAX_PAGE. lia. }
  pose proof (memcheck_map_reserve_correct ch_U (c * GRAN_SIZE) (k * GRAN_SIZE) m Hm) as H.
  rewrite E1, E2 in H. specialize (H ltac:(unfold GRAN_SIZE; lia) ltac:(lia)).
  destruct (wp_inv _ _ _ H) as (r & m' & E & Hr). unfold replay, final. rewrite E.
  assert (page m c = 0) as H0 by (apply Hf; lia).
  destruct Hr as [(_ & _ & Hp & _) | [(_ & _ & Hn & _) | [(_ & _ & Hn & _) | (_ & j & Hj & _ & Hn & _)]]]; try done.
  destruct Hn. apply Hf. lia.
Qed.

(** ** The set-up of the pools *)

Section setup.
Context {P : Type} {PA : PageAlloc P}.
Context (config : ems_config) (env : xms_env) (m0 : memcheck).
Context (Hcfg : EmmInv.config_ok config).

Abbreviation map_of s := (map_after m0 (xlog s)).

Definition areas_complete (m : memcheck) (l : list (Z * Z)) (upto : Z) : Prop :=
  forall i j, 0 <= i < upto -> i < j < MAX_PAGE -> page m i = 0 -> page m j <> 0 -> in_area l i.

Definition off_frame (l : list (Z * Z)) : Prop := forall i, in_area l i -> ~ frame_page config i.

(** What [umb_setup] ends in, for the map [m] it starts from. *)
Definition setup_result (m : memcheck) (umb_ems : bool) (r : result (unit * xms P)) : Prop :=
  match r with
  | Ok (_, s') => exists l, umb_areas m l /\ (length l <= 16)%nat /\ umbs s' = pool_of <$> l /\
      marked l m (map_of s') /\
      (if umb_ems then areas_complete m l MAX_PAGE else off_frame l)
  | Fault e => e = AssertFailed /\ exists l, umb_areas m l /\ length l = 17%nat
  end.

(** The loop with the areas [l] made and [a] the address to go on from. *)
Record progress (m : memcheck) (umb_ems : bool) (l : list (Z * Z)) (a : Z) (s : xms P) : Prop := {
  p_addr : 0 <= a;
  p_pools : umbs s = pool_of <$> l;
  p_count : (length l <= 16)%nat;
  p_areas : umb_areas m l;
  p_map : marked l m (map_of s);
  p_before : Forall (fun p => p.1 <= first_page a) l;
  p_which : if umb_ems then areas_complete m l (first_page a) else off_frame l;
}.

Definition measure (a : Z) (s : xms P) : nat := free_count (map_of s) + Z.to_nat (MAX_PAGE - first_page a).

Lemma progress_hole m umb_ems l a s c k k' :
  progress m umb_ems l a s -> wanted (map_of s) (first_page a) 1024 1048576 c k ->
  leftmost (map_of s) (first_page a) 1024 1048576 c ->
  0 < k' <= k -> (umb_ems = false -> forall i, c <= i < c + k' -> ~ frame_page config i) ->
  forall s', umbs s' = umbs s ++ [pool_of (c, k')] ->
  xlog s' = MapReserve (c * GRAN_SIZE) (k' * GRAN_SIZE) :: xlog s ->
  umb_areas m (l ++ [(c, k')]) /\
  ((length l < 16)%nat -> progress m umb_ems (l ++ [(c, k')]) (c * GRAN_SIZE) s') /\
  (measure (c * GRAN_SIZE) s' < measure a s)%nat.
Proof.
  intros [Ha Hp Hn Har Hm Hb Hw] (Hle & (Hc & Hk & Hck & Hf & Hu) & _) Hleft Hk' Hfr s' Es Ex.
  assert (free_range (map_of s) c (c + k')) as Hf' by (intros i Hi; apply Hf; lia).
  destruct (marked_free _ _ _ _ _ Hm Hf') as [Hfm Hout].
  assert (Forall (fun p => p.1 <= c) l) as Hb' by (eapply Forall_impl; [exact Hb|]; simpl; lia).
  pose proof (areas_snoc l m c k' Har Hc ltac:(lia) ltac:(lia) Hfm Hb' (Hout c ltac:(lia))) as Har'.
  pose proof (replay_reserve c k' (map_of s) (proj1 Hm) Hc ltac:(lia) ltac:(lia) Hf') as Hpaint.
  assert (first_page (c * GRAN_SIZE) = c) as Efp by (unfold first_page, GRAN_SIZE; by rewrite Z.div_mul).
  assert (map_of s' = replay (MapReserve (c * GRAN_SIZE) (k' * GRAN_SIZE)) (map_of s)) as Em by (by rewrite Ex).
  split; [done|]. split.
  - intros Hlen. constructor; rewrite ?Efp.
    + unfold GRAN_SIZE. lia.
    + by rewrite Es, Hp, fmap_app.
    + rewrite length_app. simpl. lia.
    + done.
    + rewrite Em. by eapply (marked_snoc l (c, k')).
    + apply Forall_app. split; [done|]. repeat constructor. simpl. lia.
    + destruct umb_ems.
      * intros i j Hi Hj H0 Hn0. apply in_area_snoc. left.
        destruct (Z.lt_ge_cases i (first_page a)); [apply (Hw i j); lia || done|].
        destruct (marked_hole l m (map_of s) i j Hm) as [|[q Hq]]; [lia|lia|done|done|done|].
        exfalso. enough (c <= i) by lia. apply (Hleft i q). split; [lia|apply Hq].
      * intros i [Hi|Hi]%in_area_snoc; [by apply Hw|]. by apply Hfr.
  - unfold measure. rewrite Em, Efp.
    destruct (claimed_count ch_U (map_of s) _ (proj1 Hm) ltac:(done) (painted_claimed _ _ _ _ _ Hf' Hpaint)) as [_ Hlt].
    assert (free_count (replay (MapReserve (c * GRAN_SIZE) (k' * GRAN_SIZE)) (map_of s)) < free_count (map_of s))%nat; [|lia].
    apply Hlt. exists c. split; [apply Hf'; lia|]. rewrite (proj2 Hpaint).
    by rewrite (proj2 (Z.leb_le _ _)), (proj2 (Z.ltb_lt _ _)) by lia.
Qed.

Lemma setup_loop fuel m umb_ems l a s :
  progress m umb_ems l a s -> (measure a s < fuel)%nat ->
  setup_result m umb_ems (umb_setup_loop (umb_env m0 config env) fuel umb_ems a s).
Proof.
  revert l a s. induction fuel as [|fuel IH]; intros l a s Hpr Hf; [lia|].
  pose proof (p_map _ _ _ _ _ Hpr) as Hm. pose proof (p_addr _ _ _ _ _ Hpr) as Ha.
  destruct (wp_inv _ _ _ (memcheck_findhole_correct a 1024 1048576 (map_of s) (proj1 Hm) Ha)) as (r & m1 & E & -> & Hr).
  cbn [umb_setup_loop]. unfold bind at 1, get at 1. cbn [findhole umb_env].
  unfold findhole_of. rewrite E. destruct r as [[a' size]|].
  2: { exists l. split; [apply Hpr|]. split; [apply Hpr|]. split; [apply Hpr|]. split; [done|].
       pose proof (p_which _ _ _ _ _ Hpr) as Hw. destruct umb_ems; [|done]. intros i j Hi Hj H0 Hn0.
       destruct (Z.lt_ge_cases i (first_page a)); [apply (Hw i j); lia || done|].
       destruct (marked_hole l m (map_of s) i j Hm) as [|[q Hq]]; [lia|lia|done|done|done|].
       destruct (Hr i q). split; [lia|apply Hq]. }
  destruct Hr as (c & k & -> & -> & Hw & Hleft).
  pose proof Hw as (Hcfp & (Hc & Hk & Hck & _) & _).
  destruct (if umb_ems then (false, k * GRAN_SIZE) else _) as [pf size'] eqn:Epf.
  assert (pf = true /\ umb_ems = false \/ pf = false /\ exists k', size' = k' * GRAN_SIZE /\ 0 < k' <= k /\
            (umb_ems = false -> forall i, c <= i < c + k' -> ~ frame_page config i)) as Hcase.
  { destruct umb_ems.
    - injection Epf as <- <-. right. split; [done|]. exists k. split; [done|]. split; [lia|done].
    - cbn [is_pframe_addr umb_env] in Epf. destruct pf; [by left|right]. split; [done|].
      destruct (pframe_cuts config Hcfg c k false size' Hc Hk Hck Epf) as [?|(k' & ? & ? & ?)]; [done|].
      exists k'. auto. }
  destruct Hcase as [[-> ->] | [-> (k' & -> & Hk' & Hfr)]].
  - rewrite u32_small by (unfold MAX_PAGE, GRAN_SIZE in *; lia).
    assert (first_page (c * GRAN_SIZE + 16 * 1024) = c + 16) as Efp.
    { unfold first_page, GRAN_SIZE. replace (c * 1024 + 16 * 1024) with ((c + 16) * 1024) by lia. by apply Z.div_mul. }
    apply (IH l); [|unfold measure in *; rewrite Efp; unfold MAX_PAGE in *; lia].
    destruct Hpr as [Q1 Q2 Q3 Q4 Q5 Q6 Q7]. constructor; try done.
    + unfold GRAN_SIZE. lia.
    + rewrite Efp. eapply Forall_impl; [exact Q6|]. simpl. lia.
  - unfold note, modify, assert, bind at 1, bind at 1, get at 1, umbs_used, UMBS. cbn [umbs xlog].
    set (s1 := s <| xlog ::= cons (MapReserve (c * GRAN_SIZE) (k' * GRAN_SIZE)) |>).
    set (s2 := s1 <| umbs ::= fun l0 => l0 ++ [sminit (c * GRAN_SIZE) (k' * GRAN_SIZE)] |>).
    destruct (progress_hole m umb_ems l a s c k k' Hpr Hw Hleft Hk' Hfr s2 eq_refl eq_refl) as (H1 & H2 & H3).
    change (umbs s1) with (umbs s). rewrite (p_pools _ _ _ _ _ Hpr), length_fmap.
    pose proof (p_count _ _ _ _ _ Hpr) as Hlen.
    destruct (Z.ltb_spec (Z.of_nat (length l)) 16).
    + apply (IH (l ++ [(c, k')])); [apply H2; lia|]. eapply Nat.lt_le_trans; [exact H3|lia].
    + split; [done|]. exists (l ++ [(c, k')]). split; [done|]. rewrite length_app. simpl. lia.
Qed.

(** Umb_setup over the memory map terminates with at most 16 UMB pools,
    which are disjoint free holes of the map and are then reserved in it with
    every other page unchanged; they are all such holes when the EMS frame may
    be used, and stay off the frame otherwise; only a 17th hole fails its
    assertion. *)
Theorem umb_setup_correct umb_ems fuel (s : xms P) :
  map_ok (map_of s) -> umbs s = [] -> (2048 < fuel)%nat ->
  setup_result (map_of s) umb_ems (umb_setup (umb_env m0 config env) fuel umb_ems s).
Proof.
  intros Hm Hu Hf. apply (setup_loop fuel (map_of s) umb_ems []).
  - constructor; simpl; try done; try lia.
    + by repeat constructor.
    + split; [done|]. intros i. split; [by intros ?%Exists_nil|done].
    + destruct umb_ems; [intros i j Hi; change (first_page 0) with 0 in Hi; lia|by intros i ?%Exists_nil].
  - unfold measure. pose proof (free_count_le (map_of s) Hm). change (first_page 0) with 0. unfold MAX_PAGE. lia.
Qed.

End setup.

(** ** A start-up map with the frame at E000h *)

Definition ex_frame : ems_config := MkEmsConfig 1024 57344 4 0 false 61440 16.

Lemma ex_frame_ok : EmmInv.config_ok ex_frame.
Proof. constructor; unfold EMM_UMA_MAX_PHYS, EMM_CNV_MAX_PHYS; simpl; lia || reflexivity. Qed.

(** Two pools: A000h to the frame, and from its end to F800h. *)
Example ex_umb_pools :
  outcome (fun _ s => umbs s) (umb_setup (umb_env ex_map ex_frame ex_env) 2049 false) (ex_xms <| umbs := [] |>)
  = Some [pool_of (640, 256); pool_of (960, 32)].
Proof. vm_compute. reflexivity. Qed.

#[local] Opaque ex_map umb_setup.

Lemma umb_setup_correct_witness :
  setup_result ex_frame ex_map ex_map false (umb_setup (umb_env ex_map ex_frame ex_env) 2049 false (ex_xms <| umbs := [] |>)).
Proof.
  assert (map_ok (map_after ex_map (xlog (ex_xms <| umbs := [] |>)))) as Hm by exact ex_map_ok.
  assert (umbs (ex_xms <| umbs := [] |>) = []) as Hu by reflexivity.
  assert (2048 < 2049)%nat as Hf by apply le_n.
  exact (umb_setup_correct ex_frame ex_env ex_map ex_frame_ok false 2049 (ex_xms <| umbs := [] |>) Hm Hu Hf).
Defined.
