(* ===== verification/Machine.v ===== *)
(** * Byte cells and non-local exits

    What the CPU simulator and the guest memory share: little-endian numbers
    in an array of bytes, and computations that may leave by [longjmp] with the
    state they have reached. *)

From stdpp Require Import base numbers list.
From Stdlib Require Import ZArith Lia.
From S2P Require Import Prelude.

Local Open Scope Z_scope.

(** ** Little-endian numbers *)

Definition bytes := Z -> Z.

Fixpoint load (n : nat) (f : bytes) (a : Z) : Z :=
  match n with O => 0 | S n => f a + 256 * load n f (a + 1) end.

Definition store (n : nat) (v a : Z) (f : bytes) : bytes :=
  fun b => if (a <=? b) && (b <? a + Z.of_nat n) then Z.shiftr v (8 * (b - a)) mod 256 else f b.

Definition bytes_ok (f : bytes) : Prop := forall a, byte (f a).

Lemma load_ext n f g a : (forall b, a <= b < a + Z.of_nat n -> f b = g b) -> load n f a = load n g a.
Proof.
  revert a. induction n as [|n IH]; intros a H; [done|]. simpl. rewrite (H a) by lia.
  rewrite (IH (a + 1)); [done|]. intros b Hb. apply H. lia.
Qed.

Lemma load_range n f a : bytes_ok f -> 0 <= load n f a < 2 ^ (8 * Z.of_nat n).
Proof.
  intros Hf. revert a. induction n as [|n IH]; intros a; [done|]. simpl load.
  pose proof (Hf a). specialize (IH (a + 1)). unfold byte in *.
  replace (8 * Z.of_nat (S n)) with (8 + 8 * Z.of_nat n) by lia. rewrite Z.pow_add_r by lia. lia.
Qed.

Lemma store_ok n v a f : bytes_ok f -> bytes_ok (store n v a f).
Proof.
  intros Hf b. unfold store. destruct (_ && _); [|apply Hf]. pose proof (Z.mod_pos_bound (Z.shiftr v (8 * (b - a))) 256).
  unfold byte. lia.
Qed.

Lemma store_hit n v a f i : 0 <= i < Z.of_nat n -> store n v a f (a + i) = v / 2 ^ (8 * i) mod 256.
Proof.
  intros Hi. unfold store. replace (a + i - a) with i by lia.
  rewrite Z.shiftr_div_pow2 by lia. zbool; simpl; lia || done.
Qed.

Lemma store_miss n v a f b : b < a \/ a + Z.of_nat n <= b -> store n v a f b = f b.
Proof. intros H. unfold store. zbool; simpl; lia || done. Qed.

Lemma load_store_digits n v a f :
  (forall i, 0 <= i < Z.of_nat n -> f (a + i) = v / 2 ^ (8 * i) mod 256) -> load n f a = v mod 2 ^ (8 * Z.of_nat n).
Proof.
  revert a v. induction n as [|n IH]; intros a v H; [by rewrite Z.mod_1_r|]. simpl load.
  rewrite (IH (a + 1) (v / 256)).
  - specialize (H 0 ltac:(lia)). rewrite Z.add_0_r in H. rewrite H. change (2 ^ (8 * 0)) with 1. rewrite Z.div_1_r.
    replace (8 * Z.of_nat (S n)) with (8 + 8 * Z.of_nat n) by lia. rewrite Z.pow_add_r by lia. change (2 ^ 8) with 256.
    by rewrite Z.rem_mul_r by lia.
  - intros i Hi. replace (a + 1 + i) with (a + (i + 1)) by lia. rewrite H by lia.
    replace (8 * (i + 1)) with (8 + 8 * i) by lia. rewrite Z.pow_add_r by lia. by rewrite Z.div_div by lia.
Qed.

Lemma load_digit n f a i : bytes_ok f -> 0 <= i < Z.of_nat n -> load n f a / 2 ^ (8 * i) mod 256 = f (a + i).
Proof.
  intros Hf. revert a i. induction n as [|n IH]; intros a i Hi; [lia|]. simpl load.
  pose proof (Hf a) as Ha. unfold byte in Ha. destruct (Z.eq_dec i 0) as [->|].
  - change (2 ^ (8 * 0)) with 1. rewrite Z.div_1_r, Z.add_0_r.
    rewrite (Z.mul_comm 256), Z.mod_add by lia. by apply Z.mod_small.
  - replace (8 * i) with (8 + 8 * (i - 1)) by lia. rewrite Z.pow_add_r by lia. change (2 ^ 8) with 256.
    rewrite <- Z.div_div by lia. rewrite (Z.mul_comm 256 (load n f (a + 1))), Z.div_add by lia.
    rewrite (Z.div_small (f a)) by lia. rewrite Z.add_0_l, IH by lia. f_equal. lia.
Qed.

Lemma load_store n v a f : load n (store n v a f) a = v mod 2 ^ (8 * Z.of_nat n).
Proof. apply load_store_digits. intros i Hi. by apply store_hit. Qed.

Lemma load_store_disjoint n m v a b f :
  a + Z.of_nat n <= b \/ b + Z.of_nat m <= a -> load n (store m v b f) a = load n f a.
Proof. intros H. apply load_ext. intros c Hc. apply store_miss. lia. Qed.

Lemma load_app n m f a : load (n + m) f a = load n f a + 2 ^ (8 * Z.of_nat n) * load m f (a + Z.of_nat n).
Proof.
  revert a. induction n as [|n IH]; intros a; [simpl; rewrite Z.add_0_r; lia|].
  simpl. rewrite IH. replace (a + Z.of_nat (S n)) with (a + 1 + Z.of_nat n) by lia.
  replace (8 * Z.of_nat (S n)) with (8 + 8 * Z.of_nat n) by lia. rewrite Z.pow_add_r by lia. lia.
Qed.

(** ** Leaving by [longjmp]

    [inl e] is a jump with the payload [e]; the state is the one at the jump. *)

Definition X (E S A : Type) : Type := M S (E + A).

Section jumps.
Context {E S : Type}.

Definition xret {A} (a : A) : X E S A := ret (inr a).
Definition jump {A} (e : E) : X E S A := ret (inl e).
Definition lift {A} (c : M S A) : X E S A := let! a := c in xret a.
Definition xbind {A B} (c : X E S A) (k : A -> X E S B) : X E S B :=
  let! r := c in match r with inl e => ret (inl e) | inr a => k a end.

(** [Q] when the computation returns, [R] when it jumps. *)
Definition wpx {A} (c : X E S A) (s : S) (Q : A -> S -> Prop) (R : E -> S -> Prop) : Prop :=
  wp c s (fun r s' => match r with inl e => R e s' | inr a => Q a s' end).

Lemma wpx_ret {A} (a : A) s Q R : Q a s -> wpx (xret a) s Q R.
Proof. auto. Qed.

Lemma wpx_jump {A} (e : E) s (Q : A -> S -> Prop) R : R e s -> wpx (jump e) s Q R.
Proof. auto. Qed.

Lemma wpx_lift {A} (c : M S A) s Q R : wp c s Q -> wpx (lift c) s Q R.
Proof. intros H. unfold wpx, lift. wp_step. eapply wp_mono; [exact H|]. intros a s' Ha. by apply wp_ret. Qed.

Lemma wpx_bind {A B} (c : X E S A) (k : A -> X E S B) s Q R :
  wpx c s (fun a s' => wpx (k a) s' Q R) R -> wpx (xbind c k) s Q R.
Proof. intros H. unfold wpx, xbind in *. wp_step. eapply wp_mono; [exact H|]. intros [e|a] s' Ha; [by apply wp_ret|exact Ha]. Qed.

Lemma wpx_mono {A} (c : X E S A) s (Q Q' : A -> S -> Prop) (R R' : E -> S -> Prop) :
  wpx c s Q R -> (forall a s', Q a s' -> Q' a s') -> (forall e s', R e s' -> R' e s') -> wpx c s Q' R'.
Proof. intros H HQ HR. eapply wp_mono; [exact H|]. intros [e|a] s' Ha; auto. Qed.

End jumps.

Notation "'let?' x := c 'in' k" := (xbind c (fun x => k))
  (at level 10, x pattern, c at level 100, k at level 200) : dosemu_scope.
Notation "c ?; k" := (xbind c (fun _ => k))
  (at level 100, k at level 200, right associativity) : dosemu_scope.

Ltac wpx_step :=
  lazymatch goal with
  | |- wpx (xbind _ _) _ _ _ => apply wpx_bind
  | |- wpx (xret _) _ _ _ => apply wpx_ret
  | |- wpx (jump _) _ _ _ => apply wpx_jump
  | |- wpx (lift (gets _)) _ _ _ => apply wpx_lift, wp_gets
  | |- wpx (lift (modify _)) _ _ _ => apply wpx_lift, wp_modify
  | |- wpx (lift _) _ _ _ => apply wpx_lift
  end.

(** ** Guest memory as the CPU uses it

    [bus_read n a] and [bus_write n a v] access [n] = 1, 2 or 4 bytes at the
    linear address [a]; a refused access leaves with the address and the error
    code of the page fault. *)

Record pagefault := MkPf { pf_addr : Z; pf_err : Z }.

Class Bus (W : Type) := {
  bus_read : nat -> Z -> X pagefault W Z;
  bus_write : nat -> Z -> Z -> X pagefault W unit;
}.

(** Where it is [mapped], the memory is an array of bytes. *)
Class BusLaws (W : Type) `{Bus W} := {
  flat : W -> bytes;
  mapped : W -> Z -> Prop;
  bus_same : W -> W -> Prop := fun w w' => (forall a, flat w' a = flat w a) /\ (forall a, mapped w' a <-> mapped w a);
  flat_ok w : bytes_ok (flat w);
  bus_read_law n a w :
    (n = 1 \/ n = 2 \/ n = 4)%nat -> 0 <= a -> a + Z.of_nat n <= 2 ^ 32 -> (forall i, a <= i < a + Z.of_nat n -> mapped w i) ->
    wpx (bus_read n a) w (fun v w' => v = load n (flat w) a /\ bus_same w w') (fun _ _ => False);
  bus_write_law n a v w :
    (n = 1 \/ n = 2 \/ n = 4)%nat -> 0 <= a -> a + Z.of_nat n <= 2 ^ 32 -> (forall i, a <= i < a + Z.of_nat n -> mapped w i) ->
    wpx (bus_write n a v) w
      (fun _ w' => (forall b, flat w' b = store n v a (flat w) b) /\ (forall b, mapped w' b <-> mapped w b))
      (fun _ _ => False);
}.
