(* ===== verification/SimFlags.v ===== *)
(** * Lazy flags of the CPU simulator
    (src/src/base/emu-i386/simx86/codegen-sim.c and codegen-sim.h)

    The back end that interprets the intermediate code does not compute the
    arithmetic flags of every instruction.  It keeps the last result [res],
    sign-extended to 32 bits, and a word [cout] with the carry out of every bit
    position (moved to the top of the word for narrow operands); the functions
    here update them and rebuild EFLAGS when it is read. *)

From stdpp Require Import base numbers list.
From Stdlib Require Import ZArith Lia.
From S2P Require Import Prelude.

Local Open Scope Z_scope.

Definition LF_BIT_PD : Z := 2.
Definition LF_BIT_AF : Z := 3.
Definition LF_BIT_SD : Z := 7.
Definition LF_BIT_CF : Z := 31.
Definition LF_BIT_PO : Z := 30.
Definition LF_BIT_RES_SF : Z := 31.
Definition LF_MASK_SD : Z := 2 ^ LF_BIT_SD.
Definition LF_MASK_AF : Z := 2 ^ LF_BIT_AF.
Definition LF_MASK_PD : Z := 2 ^ LF_BIT_PD.
Definition LF_MASK_CF : Z := 2 ^ LF_BIT_CF.
Definition LF_MASK_PO : Z := 2 ^ LF_BIT_PO.

Definition EFLAGS_CF : Z := 1.
Definition EFLAGS_PF : Z := 4.
Definition EFLAGS_AF : Z := 16.
Definition EFLAGS_ZF : Z := 64.
Definition EFLAGS_SF : Z := 128.
Definition EFLAGS_OF : Z := 2048.
Definition EFLAGS_CC : Z := 2261.
Definition X86_EFLAGS_ZF_BIT : Z := 6.
Definition X86_EFLAGS_SF_BIT : Z := 7.
Definition X86_EFLAGS_OF_BIT : Z := 11.

(** Both are [uint32_t]. *)
Record flgtmp := MkFlg { cout : Z; res : Z }.
#[export] Instance eta_flgtmp : Eta flgtmp := fun f => MkFlg f.(cout) f.(res).

(** [~x] and [x << n] of a [uint32_t]. *)
Definition not32 (x : Z) : Z := u32 (Z.lnot x).
Definition shl32 (x n : Z) : Z := u32 (Z.shiftl x n).

(** The low [w] bits of [x] as a signed number, and sign-extended to 32 bits. *)
Definition signed (w x : Z) : Z := (x + 2 ^ (w - 1)) mod 2 ^ w - 2 ^ (w - 1).
Definition sx (w x : Z) : Z := u32 (signed w x).

Definition is_zf_set (f : flgtmp) : bool := res f =? 0.
Definition is_cf_set (f : flgtmp) : Z := Z.shiftr (cout f) LF_BIT_CF.
Definition is_of_set (f : flgtmp) : Z := Z.shiftr (u32 (cout f + LF_MASK_PO)) LF_BIT_CF.
Definition is_af_set (f : flgtmp) : bool := truth (Z.land (cout f) LF_MASK_AF).

Definition SET_CF (c : Z) (f : flgtmp) : flgtmp :=
  f <| cout ::= fun x =>
    Z.lxor x (of_bool (negb (c =? is_cf_set f)) * Z.lor LF_MASK_PO LF_MASK_CF) |>.

(** The carries of a [wordsize]-bit operation, where the flags are read. *)
Definition place_cout (c wordsize : Z) : Z :=
  if wordsize =? 32 then Z.land c (not32 (Z.lor LF_MASK_SD LF_MASK_PD))
  else if wordsize =? 16 then Z.lor (shl32 c 16) (Z.land c LF_MASK_AF)
  else Z.lor (shl32 c 24) (Z.land c LF_MASK_AF).

Definition FlagHandleAdd (src1 src2 r wordsize : Z) (f : flgtmp) : flgtmp :=
  let c := Z.lor (Z.land src1 src2) (Z.land (Z.lor src1 src2) (not32 r)) in
  f <| cout := place_cout c wordsize |> <| res := r |>.

Definition FlagHandleSub (src1 src2 r wordsize : Z) (f : flgtmp) : flgtmp :=
  let c := Z.lor (Z.land (not32 src1) src2) (Z.land (Z.lxor (not32 src1) src2) r) in
  f <| cout := place_cout c wordsize |> <| res := r |>.

Definition FlagHandleIncDec (low high wordsize : Z) (f : flgtmp) : flgtmp :=
  let c := Z.land low (not32 high) in
  let oldcy := is_cf_set f in
  SET_CF oldcy (f <| cout := place_cout c wordsize |>).

Definition FlagHandleRotate (sh cy c wordsize : Z) (f : flgtmp) : flgtmp :=
  let f :=
    if sh =? 1 then
      let c := if wordsize =? 32 then Z.land c (Z.lor LF_MASK_CF LF_MASK_PO)
               else if wordsize =? 16 then shl32 c 16 else shl32 c 24 in
      f <| cout ::= fun x => Z.lor (Z.land x (not32 (Z.lor LF_MASK_CF LF_MASK_PO))) c |>
    else f in
  SET_CF cy f.

Definition FlagHandleShift (sh cy c wordsize r : Z) (f : flgtmp) : flgtmp :=
  (FlagHandleRotate sh cy c wordsize f)
    <| res := r |> <| cout ::= fun x => Z.land x (not32 (Z.lor LF_MASK_SD LF_MASK_PD)) |>.

Definition FlagSync_S (f : flgtmp) : Z :=
  Z.land (Z.lxor (Z.shiftr (res f) (LF_BIT_RES_SF - X86_EFLAGS_SF_BIT)) (cout f)) EFLAGS_SF.

Definition is_sf_set (f : flgtmp) : bool := truth (FlagSync_S f).

Definition FlagSync_O (f : flgtmp) : Z := Z.shiftl (is_of_set f) X86_EFLAGS_OF_BIT.

Definition parity : list Z :=
  [ 4; 0; 0; 4; 0; 4; 4; 0; 0; 4; 4; 0; 4; 0; 0; 4;
    0; 4; 4; 0; 4; 0; 0; 4; 4; 0; 0; 4; 0; 4; 4; 0;
    0; 4; 4; 0; 4; 0; 0; 4; 4; 0; 0; 4; 0; 4; 4; 0;
    4; 0; 0; 4; 0; 4; 4; 0; 0; 4; 4; 0; 4; 0; 0; 4;
    0; 4; 4; 0; 4; 0; 0; 4; 4; 0; 0; 4; 0; 4; 4; 0;
    4; 0; 0; 4; 0; 4; 4; 0; 0; 4; 4; 0; 4; 0; 0; 4;
    4; 0; 0; 4; 0; 4; 4; 0; 0; 4; 4; 0; 4; 0; 0; 4;
    0; 4; 4; 0; 4; 0; 0; 4; 4; 0; 0; 4; 0; 4; 4; 0;
    0; 4; 4; 0; 4; 0; 0; 4; 4; 0; 0; 4; 0; 4; 4; 0;
    4; 0; 0; 4; 0; 4; 4; 0; 0; 4; 4; 0; 4; 0; 0; 4;
    4; 0; 0; 4; 0; 4; 4; 0; 0; 4; 4; 0; 4; 0; 0; 4;
    0; 4; 4; 0; 4; 0; 0; 4; 4; 0; 0; 4; 0; 4; 4; 0;
    4; 0; 0; 4; 0; 4; 4; 0; 0; 4; 4; 0; 4; 0; 0; 4;
    0; 4; 4; 0; 4; 0; 0; 4; 4; 0; 0; 4; 0; 4; 4; 0;
    0; 4; 4; 0; 4; 0; 0; 4; 4; 0; 0; 4; 0; 4; 4; 0;
    4; 0; 0; 4; 0; 4; 4; 0; 0; 4; 4; 0; 4; 0; 0; 4 ].

Definition FlagSync_P (f : flgtmp) : Z :=
  Z.lxor (nth (Z.to_nat (Z.land (res f) 255)) parity 0) (Z.land (cout f) LF_MASK_PD).

Definition is_pf_set (f : flgtmp) : bool := truth (FlagSync_P f).

(** The sign and parity of the old result move to [cout]. *)
Definition SET_ZF (c : Z) (f : flgtmp) : flgtmp :=
  f <| cout := Z.lor (Z.land (cout f) (not32 (Z.lor LF_MASK_PD LF_MASK_SD)))
                 (Z.lxor (Z.lor (FlagSync_S f) (FlagSync_P f)) LF_MASK_PD) |>
    <| res := Z.shiftl (of_bool (c =? 0)) 8 |>.

Definition FlagSync_SZAPC (f : flgtmp) : Z :=
  Z.lor (Z.lor (Z.lor
    (Z.land (Z.lor (shl32 (cout f) 1) (Z.shiftr (cout f) 31)) (Z.lor EFLAGS_AF EFLAGS_CF))
    (Z.shiftl (of_bool (is_zf_set f)) X86_EFLAGS_ZF_BIT))
    (FlagSync_S f)) (FlagSync_P f).

Definition FlagSync_All (f : flgtmp) : Z := Z.lor (FlagSync_SZAPC f) (FlagSync_O f).

(** Encode the flags [flg] of EFLAGS. *)
Definition FlagSync_RFL (flg : Z) : flgtmp :=
  let c := Z.land (Z.lor (shl32 flg 31) (Z.shiftr flg 1)) (Z.lor LF_MASK_AF LF_MASK_CF) in
  let c := Z.lor c (Z.land (Z.lxor (Z.shiftr c 1) (shl32 flg (LF_BIT_PO - X86_EFLAGS_OF_BIT))) LF_MASK_PO) in
  MkFlg (Z.lor c (Z.lxor (Z.land flg (Z.lor EFLAGS_SF EFLAGS_PF)) EFLAGS_PF))
        (Z.shiftl (of_bool (negb (truth (Z.land flg EFLAGS_ZF)))) 8).
