(* ===== verification/SimFlagsSpec.v ===== *)
(** * The lazy flags are the flags

    The six arithmetic flags that are rebuilt from [cout] and [res] are the ones
    the x86 architecture defines for the operation, for every operand width, and
    EFLAGS survives being encoded and rebuilt. *)

From stdpp Require Import base numbers list.
From Stdlib Require Import ZArith Lia.
From S2P Require Import Prelude SimFlags.

Local Open Scope Z_scope.

(** ** The flags as booleans *)

Definition eflags (cf pf af zf sf vf : bool) : Z :=
  of_bool cf * EFLAGS_CF + of_bool pf * EFLAGS_PF + of_bool af * EFLAGS_AF +
  of_bool zf * EFLAGS_ZF + of_bool sf * EFLAGS_SF + of_bool vf * EFLAGS_OF.

(** An even number of ones in the low byte. *)
Definition parity_even (x : Z) : bool := negb (foldr xorb false ((fun i => Z.testbit x i) <$> zrange 8)).

Definition flg_ok (f : flgtmp) : Prop := 0 <= cout f < 2 ^ 32 /\ 0 <= res f < 2 ^ 32.

Definition cf_of (f : flgtmp) : bool := Z.testbit (cout f) 31.
Definition vf_of (f : flgtmp) : bool := xorb (Z.testbit (cout f) 31) (Z.testbit (cout f) 30).
Definition af_of (f : flgtmp) : bool := Z.testbit (cout f) 3.
Definition zf_of (f : flgtmp) : bool := res f =? 0.
Definition sf_of (f : flgtmp) : bool := xorb (Z.testbit (res f) 31) (Z.testbit (cout f) 7).
Definition pf_of (f : flgtmp) : bool := xorb (parity_even (res f)) (Z.testbit (cout f) 2).

Definition view (f : flgtmp) : Z := eflags (cf_of f) (pf_of f) (af_of f) (zf_of f) (sf_of f) (vf_of f).

(** ** Bits *)

Lemma land_one_bit x k : 0 <= k -> Z.land x (2 ^ k) = of_bool (Z.testbit x k) * 2 ^ k.
Proof.
  intros Hk. apply Z.bits_inj'. intros i Hi. rewrite Z.land_spec, Z.pow2_bits_eqb by done.
  destruct (Z.testbit x k) eqn:E; simpl of_bool.
  - rewrite Z.mul_1_l, Z.pow2_bits_eqb by done. destruct (Z.eqb_spec k i) as [->|]; [by rewrite E|apply andb_false_r].
  - rewrite Z.mul_0_l, Z.bits_0. destruct (Z.eqb_spec k i) as [<-|]; [by rewrite E|apply andb_false_r].
Qed.

Lemma testbit_u32 x i : 0 <= i < 32 -> Z.testbit (u32 x) i = Z.testbit x i.
Proof. intros H. unfold u32. apply Z.mod_pow2_bits_low. lia. Qed.

Lemma testbit_not32 x i : 0 <= i < 32 -> Z.testbit (not32 x) i = negb (Z.testbit x i).
Proof. intros H. unfold not32. rewrite testbit_u32 by done. apply Z.lnot_spec. lia. Qed.

Lemma testbit_shl32 x n i : 0 <= i < 32 -> Z.testbit (shl32 x n) i = Z.testbit x (i - n).
Proof. intros H. unfold shl32. rewrite testbit_u32 by done. apply Z.shiftl_spec. lia. Qed.

Lemma testbit_top x : 0 <= x < 2 ^ 32 -> Z.shiftr x 31 = of_bool (Z.testbit x 31).
Proof.
  intros H. rewrite Z.shiftr_div_pow2 by lia. pose proof (Z.div_mod x (2 ^ 31) ltac:(lia)).
  pose proof (Z.mod_pos_bound x (2 ^ 31) ltac:(lia)).
  rewrite Z.testbit_odd, Z.shiftr_div_pow2 by lia.
  assert (x / 2 ^ 31 = 0 \/ x / 2 ^ 31 = 1) as [-> | ->] by lia; done.
Qed.

Create HintDb bits.
Create Rewrite HintDb bits.
#[export] Hint Rewrite Z.land_spec Z.lor_spec Z.lxor_spec : bits.
#[export] Hint Rewrite testbit_u32 testbit_not32 testbit_shl32 Z.shiftr_spec Z.shiftl_spec using lia : bits.

Lemma u32_not32_range x : 0 <= not32 x < 2 ^ 32.
Proof. apply u32_range. Qed.

Lemma shl32_range x n : 0 <= shl32 x n < 2 ^ 32.
Proof. apply u32_range. Qed.

(** A word of 32 bits, bit by bit. *)
Definition word (x : Z) : Prop := 0 <= x < 2 ^ 32.

Lemma word_bits x : word x <-> 0 <= x /\ forall i, 32 <= i -> Z.testbit x i = false.
Proof.
  unfold word. split.
  - intros H. split; [lia|]. intros i Hi. destruct (Z.eq_dec x 0) as [->|]; [apply Z.bits_0|].
    apply Z.bits_above_log2; [lia|]. assert (Z.log2 x < 32); [|lia]. apply Z.log2_lt_pow2; lia.
  - intros [H0 Hb]. split; [done|]. apply Z.lt_nge. intros Hge.
    pose proof (Z.log2_le_pow2 x 32 ltac:(lia)) as [Hl _]. specialize (Hl Hge).
    specialize (Hb (Z.log2 x) Hl). by rewrite Z.bit_log2 in Hb by lia.
Qed.

Lemma word_land x y : word x -> word y -> word (Z.land x y).
Proof.
  rewrite !word_bits. intros [H1 H2] [H3 H4]. split; [apply Z.land_nonneg; auto|].
  intros i Hi. by rewrite Z.land_spec, H2.
Qed.
Lemma word_lor x y : word x -> word y -> word (Z.lor x y).
Proof.
  rewrite !word_bits. intros [H1 H2] [H3 H4]. split; [apply Z.lor_nonneg; auto|].
  intros i Hi. by rewrite Z.lor_spec, H2, H4.
Qed.
Lemma word_lxor x y : word x -> word y -> word (Z.lxor x y).
Proof.
  rewrite !word_bits. intros [H1 H2] [H3 H4]. split; [apply Z.lxor_nonneg; lia|].
  intros i Hi. by rewrite Z.lxor_spec, H2, H4.
Qed.
Lemma word_not32 x : word (not32 x).
Proof. apply u32_range. Qed.
Lemma word_shl32 x n : word (shl32 x n).
Proof. apply u32_range. Qed.
Lemma word_shiftr x n : 0 <= n -> word x -> word (Z.shiftr x n).
Proof.
  rewrite !word_bits. intros Hn [H1 H2]. split; [by apply Z.shiftr_nonneg|].
  intros i Hi. rewrite Z.shiftr_spec by lia. apply H2. lia.
Qed.

#[export] Hint Resolve word_land word_lor word_lxor word_not32 word_shl32 : bits.
#[export] Hint Extern 1 (word _) => (split; [discriminate|reflexivity]) : bits.

(** ** Reading the flags *)

Lemma is_cf_set_eq f : flg_ok f -> is_cf_set f = of_bool (cf_of f).
Proof. intros [H _]. by apply testbit_top. Qed.

Lemma is_of_set_eq f : flg_ok f -> is_of_set f = of_bool (vf_of f).
Proof.
  intros [H _]. unfold is_of_set, vf_of, LF_BIT_CF, LF_MASK_PO, LF_BIT_PO.
  rewrite testbit_top by apply u32_range. f_equal. rewrite testbit_u32 by lia.
  set (x := cout f) in *. pose proof (Z.div_mod x (2 ^ 30) ltac:(lia)). pose proof (Z.mod_pos_bound x (2 ^ 30) ltac:(lia)).
  rewrite !Z.testbit_odd, !Z.shiftr_div_pow2 by lia.
  assert ((x + 2 ^ 30) / 2 ^ 31 = (x / 2 ^ 30 + 1) / 2) as ->.
  { change (2 ^ 31) with (2 ^ 30 * 2). rewrite <- Z.div_div by lia. f_equal.
    rewrite <- (Z.mul_1_l (2 ^ 30)) at 1. by rewrite Z.div_add by lia. }
  assert (x / 2 ^ 31 = x / 2 ^ 30 / 2) as ->.
  { change (2 ^ 31) with (2 ^ 30 * 2). by rewrite Z.div_div by lia. }
  assert (x / 2 ^ 30 = 0 \/ x / 2 ^ 30 = 1 \/ x / 2 ^ 30 = 2 \/ x / 2 ^ 30 = 3) as [-> | [-> | [-> | ->]]] by lia; done.
Qed.

Lemma FlagSync_S_eq f : FlagSync_S f = of_bool (sf_of f) * EFLAGS_SF.
Proof.
  unfold FlagSync_S, sf_of, LF_BIT_RES_SF, X86_EFLAGS_SF_BIT. change EFLAGS_SF with (2 ^ 7).
  rewrite land_one_bit by lia. autorewrite with bits. done.
Qed.

Lemma parity_even_low x : parity_even (Z.land x 255) = parity_even x.
Proof.
  unfold parity_even. f_equal. f_equal. apply list_fmap_ext. intros k i Hk.
  apply list_elem_of_lookup_2, list_elem_of_fmap in Hk as (j & -> & Hj%elem_of_seq).
  rewrite Z.land_spec. change 255 with (Z.ones 8). rewrite Z.ones_spec_low by lia. apply andb_true_r.
Qed.

Lemma parity_table x : 0 <= x < 256 -> nth (Z.to_nat x) parity 0 = of_bool (parity_even x) * 4.
Proof.
  intros Hx. assert (forallb (fun x => nth (Z.to_nat x) parity 0 =? of_bool (parity_even x) * 4) (zrange 256) = true) as H
    by (vm_compute; reflexivity).
  rewrite forallb_forall in H. apply Z.eqb_eq, H. by apply elem_of_zrange.
Qed.

Lemma FlagSync_P_eq f : FlagSync_P f = of_bool (pf_of f) * EFLAGS_PF.
Proof.
  unfold FlagSync_P, pf_of. rewrite parity_table, parity_even_low by (pose proof (land_le_r (res f) 255); lia).
  unfold LF_MASK_PD, LF_BIT_PD. rewrite land_one_bit by lia.
  by destruct (parity_even (res f)), (Z.testbit (cout f) 2).
Qed.

Lemma cf_af_bits x : Z.land x (Z.lor EFLAGS_AF EFLAGS_CF) = of_bool (Z.testbit x 4) * 16 + of_bool (Z.testbit x 0).
Proof.
  assert (Z.land x (Z.lor EFLAGS_AF EFLAGS_CF) = Z.lor (Z.land x (2 ^ 4)) (Z.land x (2 ^ 0))) as ->
    by (by rewrite <- Z.land_lor_distr_r).
  rewrite !land_one_bit by lia. by destruct (Z.testbit x 4), (Z.testbit x 0).
Qed.

Lemma FlagSync_SZAPC_eq f :
  flg_ok f -> FlagSync_SZAPC f = eflags (cf_of f) (pf_of f) (af_of f) (zf_of f) (sf_of f) false.
Proof.
  intros [Hc _]. unfold FlagSync_SZAPC. rewrite cf_af_bits, FlagSync_S_eq, FlagSync_P_eq, !Z.lor_spec.
  rewrite !testbit_shl32, !Z.shiftr_spec by lia. change (Z.testbit (cout f) (0 - 1)) with false.
  rewrite (proj2 (proj1 (word_bits _) Hc) (4 + 31)) by lia.
  change (4 - 1) with 3. change (0 + 31) with 31. rewrite orb_false_r, orb_false_l.
  fold (af_of f) (cf_of f). unfold is_zf_set. fold (zf_of f).
  by destruct (cf_of f), (pf_of f), (af_of f), (zf_of f), (sf_of f).
Qed.

Lemma FlagSync_All_eq f : flg_ok f -> FlagSync_All f = view f.
Proof.
  intros H. unfold FlagSync_All, FlagSync_O, view. rewrite FlagSync_SZAPC_eq, is_of_set_eq by done.
  by destruct (cf_of f), (pf_of f), (af_of f), (zf_of f), (sf_of f), (vf_of f).
Qed.

(** ** Encoding EFLAGS *)

Lemma flags_of_ok flg : 0 <= flg < 2 ^ 32 -> flg_ok (FlagSync_RFL flg).
Proof.
  intros Hf. split; cbn [cout res FlagSync_RFL].
  - change (word (cout (FlagSync_RFL flg))). unfold FlagSync_RFL; cbn [cout].
    assert (word (Z.shiftr flg 1)) by (by apply word_shiftr).
    assert (word flg) by done.
    repeat first [apply word_lor | apply word_land | apply word_lxor | apply word_shiftr; [lia|] | by auto with bits].
  - by destruct (truth _).
Qed.

(** The six flags of a word. *)
Lemma land_EFLAGS_CC x :
  Z.land x EFLAGS_CC = eflags (Z.testbit x 0) (Z.testbit x 2) (Z.testbit x 4)
                         (Z.testbit x 6) (Z.testbit x 7) (Z.testbit x 11).
Proof.
  assert (Z.land x EFLAGS_CC = Z.lor (Z.lor (Z.lor (Z.lor (Z.lor (Z.land x (2 ^ 0)) (Z.land x (2 ^ 2)))
    (Z.land x (2 ^ 4))) (Z.land x (2 ^ 6))) (Z.land x (2 ^ 7))) (Z.land x (2 ^ 11))) as ->
    by (by rewrite <- !Z.land_lor_distr_r).
  rewrite !land_one_bit by lia.
  by destruct (Z.testbit x 0), (Z.testbit x 2), (Z.testbit x 4), (Z.testbit x 6), (Z.testbit x 7), (Z.testbit x 11).
Qed.

(** The encoding of six flags: the result is 0 or 256, of even parity. *)
Definition encode (cf pf af zf sf vf : bool) : flgtmp :=
  MkFlg (of_bool cf * 2 ^ 31 + of_bool (xorb cf vf) * 2 ^ 30 + of_bool sf * 128 + of_bool af * 8 + of_bool (negb pf) * 4)
        (of_bool (negb zf) * 256).

Lemma rotated_bits flg :
  0 <= flg < 2 ^ 32 ->
  Z.land (Z.lor (shl32 flg 31) (Z.shiftr flg 1)) (Z.lor LF_MASK_AF LF_MASK_CF) =
  of_bool (Z.testbit flg 0) * 2 ^ 31 + of_bool (Z.testbit flg 4) * 8.
Proof.
  intros Hf. rewrite Z.land_lor_distr_r. unfold LF_MASK_AF, LF_MASK_CF, LF_BIT_AF, LF_BIT_CF.
  rewrite !land_one_bit, !Z.lor_spec, !testbit_shl32, !Z.shiftr_spec by lia.
  change (3 - 31) with (-28). rewrite Z.testbit_neg_r by lia.
  rewrite (proj2 (proj1 (word_bits flg) Hf) (31 + 1)) by lia. change (31 - 31) with 0. change (3 + 1) with 4.
  by destruct (Z.testbit flg 0), (Z.testbit flg 4).
Qed.

Lemma FlagSync_RFL_eq flg :
  0 <= flg < 2 ^ 32 ->
  FlagSync_RFL flg = encode (Z.testbit flg 0) (Z.testbit flg 2) (Z.testbit flg 4)
                            (Z.testbit flg 6) (Z.testbit flg 7) (Z.testbit flg 11).
Proof.
  intros Hf. unfold FlagSync_RFL. rewrite rotated_bits by done. unfold encode.
  change EFLAGS_ZF with (2 ^ 6). unfold LF_MASK_PO, LF_BIT_PO, X86_EFLAGS_OF_BIT. rewrite !land_one_bit by lia.
  rewrite Z.lxor_spec, testbit_shl32 by lia. change (30 - (30 - 11)) with 11.
  change (Z.lor EFLAGS_SF EFLAGS_PF) with (Z.lor (2 ^ 7) (2 ^ 2)). rewrite (Z.land_lor_distr_r flg), !land_one_bit by lia.
  by destruct (Z.testbit flg 0), (Z.testbit flg 2), (Z.testbit flg 4), (Z.testbit flg 6), (Z.testbit flg 7), (Z.testbit flg 11).
Qed.

Lemma encode_view cf pf af zf sf vf : FlagSync_All (encode cf pf af zf sf vf) = eflags cf pf af zf sf vf.
Proof. by destruct cf, pf, af, zf, sf, vf. Qed.

(** Encoding the arithmetic flags of EFLAGS into the lazy flags of the
    CPU simulator and rebuilding them returns exactly those flags. *)
Theorem FlagSync_roundtrip flg :
  0 <= flg < 2 ^ 32 -> FlagSync_All (FlagSync_RFL flg) = Z.land flg EFLAGS_CC.
Proof. intros Hf. by rewrite FlagSync_RFL_eq, encode_view, land_EFLAGS_CC. Qed.

(** Setting one flag. *)
Lemma SET_CF_ok c f : flg_ok f -> flg_ok (SET_CF c f).
Proof.
  intros [H1 H2]. split; [|done]. cbn [cout SET_CF upd]. apply word_lxor; [done|].
  destruct (negb _); by split.
Qed.

Lemma SET_CF_view b f :
  flg_ok f ->
  view (SET_CF (of_bool b) f) = eflags b (pf_of f) (af_of f) (zf_of f) (sf_of f) (vf_of f).
Proof.
  intros Hf. unfold view, SET_CF. rewrite is_cf_set_eq by done.
  unfold cf_of, pf_of, af_of, zf_of, sf_of, vf_of. cbn [cout res upd]. rewrite !Z.lxor_spec.
  fold (cf_of f). f_equal; destruct b, (cf_of f) eqn:E; unfold cf_of in *; simpl of_bool; simpl negb;
    cbn -[Z.testbit Z.lor]; rewrite ?E, ?xorb_false_r; try done.
  all: destruct (Z.testbit (cout f) 30); done.
Qed.

Lemma SET_ZF_view b f :
  flg_ok f -> flg_ok (SET_ZF (of_bool b) f) /\
  view (SET_ZF (of_bool b) f) = eflags (cf_of f) (pf_of f) (af_of f) b (sf_of f) (vf_of f).
Proof.
  intros Hf. unfold SET_ZF. rewrite FlagSync_S_eq, FlagSync_P_eq. split.
  - split; cbn [cout res upd]; [|by destruct b]. apply word_lor; [apply word_land; [apply Hf|apply word_not32]|].
    destruct (sf_of f), (pf_of f); by split.
  - unfold view. set (g := _ <| res := _ |>).
    assert (forall i, 0 <= i < 32 -> Z.testbit (cout g) i =
      (Z.testbit (cout f) i && negb (Z.testbit 132 i)) ||
      Z.testbit (Z.lxor (of_bool (sf_of f) * 128 + of_bool (pf_of f) * 4) 4) i) as Hg.
    { intros i Hi. unfold g. cbn [cout upd]. rewrite Z.lor_spec, Z.land_spec, testbit_not32 by lia.
      by destruct (sf_of f), (pf_of f). }
    assert (zf_of g = b) as Hz by (by destruct b).
    unfold cf_of at 1. unfold pf_of at 1. unfold af_of at 1. unfold sf_of at 1. unfold vf_of at 1.
    rewrite Hz, !Hg by lia. change (res g) with (Z.shiftl (of_bool (of_bool b =? 0)) 8).
    change (Z.testbit 132 31) with false. change (Z.testbit 132 30) with false. change (Z.testbit 132 3) with false.
    change (Z.testbit 132 7) with true. change (Z.testbit 132 2) with true.
    unfold vf_of, cf_of, af_of.
    destruct b, (sf_of f), (pf_of f); cbn -[Z.testbit]; rewrite ?andb_true_r, ?andb_false_r, ?orb_false_r; reflexivity.
Qed.

(** ** Carries *)

(** The carry into bit [k] of [a + b + c], and the borrow into bit [k] of [a - b - c]. *)
Definition carry (a b c k : Z) : bool := 2 ^ k <=? a mod 2 ^ k + b mod 2 ^ k + c.
Definition borrow (a b c k : Z) : bool := a mod 2 ^ k <? b mod 2 ^ k + c.

Definition maj (x y z : bool) : bool := (x && y) || ((x || y) && z).

Lemma low_bits x k : 0 <= k -> x mod 2 ^ (k + 1) = x mod 2 ^ k + of_bool (Z.testbit x k) * 2 ^ k.
Proof.
  intros Hk. rewrite Z.testbit_odd, Z.shiftr_div_pow2, Z.pow_add_r by lia. change (2 ^ 1) with 2.
  rewrite Z.rem_mul_r by lia. rewrite Zmod_odd. destruct (Z.odd _); simpl; lia.
Qed.

Lemma carry_step a b c k :
  0 <= k -> 0 <= c <= 1 -> carry a b c (k + 1) = maj (Z.testbit a k) (Z.testbit b k) (carry a b c k).
Proof.
  intros Hk Hc. unfold carry. rewrite !low_bits by done. rewrite Z.pow_add_r by lia. change (2 ^ 1) with 2.
  pose proof (Z.mod_pos_bound a (2 ^ k) ltac:(lia)). pose proof (Z.mod_pos_bound b (2 ^ k) ltac:(lia)).
  assert (0 < 2 ^ k) by lia. generalize dependent (2 ^ k). intros p Ha Hb Hp.
  destruct (Z.testbit a k), (Z.testbit b k); simpl of_bool; unfold maj; simpl; zbool; simpl; try done; lia.
Qed.

Lemma borrow_step a b c k :
  0 <= k -> 0 <= c <= 1 -> borrow a b c (k + 1) = maj (negb (Z.testbit a k)) (Z.testbit b k) (borrow a b c k).
Proof.
  intros Hk Hc. unfold borrow. rewrite !low_bits by done.
  pose proof (Z.mod_pos_bound a (2 ^ k) ltac:(lia)). pose proof (Z.mod_pos_bound b (2 ^ k) ltac:(lia)).
  assert (0 < 2 ^ k) by lia. generalize dependent (2 ^ k). intros p Ha Hb Hp.
  destruct (Z.testbit a k), (Z.testbit b k); simpl of_bool; unfold maj; simpl; zbool; simpl; try done; lia.
Qed.

Lemma sum_bit a b c k :
  0 <= k -> 0 <= c <= 1 ->
  Z.testbit (a + b + c) k = xorb (xorb (Z.testbit a k) (Z.testbit b k)) (carry a b c k).
Proof.
  intros Hk Hc. unfold carry. rewrite !Z.testbit_odd, !Z.shiftr_div_pow2 by lia.
  pose proof (Z.div_mod a (2 ^ k) ltac:(lia)). pose proof (Z.div_mod b (2 ^ k) ltac:(lia)).
  pose proof (Z.mod_pos_bound a (2 ^ k) ltac:(lia)). pose proof (Z.mod_pos_bound b (2 ^ k) ltac:(lia)).
  assert ((a + b + c) / 2 ^ k = a / 2 ^ k + b / 2 ^ k + of_bool (2 ^ k <=? a mod 2 ^ k + b mod 2 ^ k + c)) as ->.
  { symmetry. destruct (Z.leb_spec (2 ^ k) (a mod 2 ^ k + b mod 2 ^ k + c)); simpl of_bool.
    - apply (Z.div_unique_pos _ _ _ (a mod 2 ^ k + b mod 2 ^ k + c - 2 ^ k)); lia.
    - apply (Z.div_unique_pos _ _ _ (a mod 2 ^ k + b mod 2 ^ k + c)); lia. }
  rewrite !Z.odd_add. by destruct (2 ^ k <=? _).
Qed.

Lemma diff_bit a b c k :
  0 <= k -> 0 <= c <= 1 ->
  Z.testbit (a - b - c) k = xorb (xorb (Z.testbit a k) (Z.testbit b k)) (borrow a b c k).
Proof.
  intros Hk Hc. unfold borrow. rewrite !Z.testbit_odd, !Z.shiftr_div_pow2 by lia.
  pose proof (Z.div_mod a (2 ^ k) ltac:(lia)). pose proof (Z.div_mod b (2 ^ k) ltac:(lia)).
  pose proof (Z.mod_pos_bound a (2 ^ k) ltac:(lia)). pose proof (Z.mod_pos_bound b (2 ^ k) ltac:(lia)).
  assert ((a - b - c) / 2 ^ k = a / 2 ^ k - b / 2 ^ k - of_bool (a mod 2 ^ k <? b mod 2 ^ k + c)) as ->.
  { symmetry. destruct (Z.ltb_spec (a mod 2 ^ k) (b mod 2 ^ k + c)); simpl of_bool.
    - apply (Z.div_unique_pos _ _ _ (a mod 2 ^ k - b mod 2 ^ k - c + 2 ^ k)); lia.
    - apply (Z.div_unique_pos _ _ _ (a mod 2 ^ k - b mod 2 ^ k - c)); lia. }
  rewrite !Z.odd_sub. by destruct (_ <? _).
Qed.

(** ** The reference: the flags of an addition and of a subtraction *)

(** Carry (borrow) out of the top, parity of the low byte, carry out of bit 3,
    zero, sign, and a signed result that does not fit. *)
Definition fits (w x : Z) : bool := (- 2 ^ (w - 1) <=? x) && (x <? 2 ^ (w - 1)).

Definition add_flags (w a b c : Z) : Z :=
  let r := a + b + c in
  eflags (2 ^ w <=? r) (parity_even r) (16 <=? a mod 16 + b mod 16 + c) (r mod 2 ^ w =? 0)
    (Z.testbit r (w - 1)) (negb (fits w (signed w a + signed w b + c))).

Definition sub_flags (w a b c : Z) : Z :=
  let r := a - b - c in
  eflags (a <? b + c) (parity_even r) (a mod 16 <? b mod 16 + c) (r mod 2 ^ w =? 0)
    (Z.testbit r (w - 1)) (negb (fits w (signed w a - signed w b - c))).

Definition width (w : Z) : Prop := w = 8 \/ w = 16 \/ w = 32.

Lemma signed_top w a : 1 <= w -> 0 <= a < 2 ^ w ->
  signed w a = a mod 2 ^ (w - 1) - of_bool (Z.testbit a (w - 1)) * 2 ^ (w - 1).
Proof.
  intros Hw Ha. unfold signed. set (p := 2 ^ (w - 1)).
  assert (2 ^ w = 2 * p) as E by (unfold p; rewrite <- Z.pow_succ_r by lia; f_equal; lia). rewrite E in *.
  assert (0 < p) as Hp by (unfold p; lia).
  pose proof (low_bits a (w - 1) ltac:(lia)) as Hl. replace (w - 1 + 1) with w in Hl by lia.
  rewrite E in Hl. fold p in Hl. rewrite Z.mod_small in Hl by lia.
  pose proof (Z.mod_pos_bound a p Hp). destruct (Z.testbit a (w - 1)); simpl of_bool in *.
  - replace (a + p) with (a - p + 1 * (2 * p)) by lia. rewrite Z.mod_add, Z.mod_small by lia. lia.
  - rewrite Z.mod_small by lia. lia.
Qed.

Lemma add_overflow w a b c : 1 <= w -> 0 <= a < 2 ^ w -> 0 <= b < 2 ^ w -> 0 <= c <= 1 ->
  negb (fits w (signed w a + signed w b + c)) = xorb (carry a b c w) (carry a b c (w - 1)).
Proof.
  intros Hw Ha Hb Hc. rewrite !signed_top by done. pose proof (carry_step a b c (w - 1) ltac:(lia) Hc) as E.
  replace (w - 1 + 1) with w in E by lia. rewrite E; clear E. unfold fits, carry. set (p := 2 ^ (w - 1)).
  assert (0 < p) as Hp by (unfold p; lia).
  pose proof (Z.mod_pos_bound a p Hp). pose proof (Z.mod_pos_bound b p Hp).
  destruct (Z.testbit a (w - 1)), (Z.testbit b (w - 1)); simpl of_bool; unfold maj; simpl; zbool; simpl; done || lia.
Qed.

Lemma sub_overflow w a b c : 1 <= w -> 0 <= a < 2 ^ w -> 0 <= b < 2 ^ w -> 0 <= c <= 1 ->
  negb (fits w (signed w a - signed w b - c)) = xorb (borrow a b c w) (borrow a b c (w - 1)).
Proof.
  intros Hw Ha Hb Hc. rewrite !signed_top by done. pose proof (borrow_step a b c (w - 1) ltac:(lia) Hc) as E.
  replace (w - 1 + 1) with w in E by lia. rewrite E; clear E. unfold fits, borrow. set (p := 2 ^ (w - 1)).
  assert (0 < p) as Hp by (unfold p; lia).
  pose proof (Z.mod_pos_bound a p Hp). pose proof (Z.mod_pos_bound b p Hp).
  destruct (Z.testbit a (w - 1)), (Z.testbit b (w - 1)); simpl of_bool; unfold maj; simpl; zbool; simpl; done || lia.
Qed.

(** ** Sign extension *)

Lemma signed_eq w r : 1 <= w -> signed w r = r mod 2 ^ w - of_bool (Z.testbit r (w - 1)) * 2 ^ w.
Proof.
  intros Hw. pose proof (Z.mod_pos_bound r (2 ^ w) ltac:(lia)) as Hm.
  assert (signed w r = signed w (r mod 2 ^ w)) as ->.
  { unfold signed. by rewrite Zplus_mod_idemp_l. }
  rewrite signed_top by done. rewrite Z.mod_pow2_bits_low by lia.
  pose proof (low_bits (r mod 2 ^ w) (w - 1) ltac:(lia)) as Hl. replace (w - 1 + 1) with w in Hl by lia.
  rewrite Z.mod_small, Z.mod_pow2_bits_low in Hl by lia.
  assert (2 ^ w = 2 * 2 ^ (w - 1)) as E by (rewrite <- Z.pow_succ_r by lia; f_equal; lia).
  destruct (Z.testbit r (w - 1)); simpl of_bool in *; lia.
Qed.

Lemma signed_range w r : 1 <= w -> - 2 ^ (w - 1) <= signed w r < 2 ^ (w - 1).
Proof.
  intros Hw. unfold signed. pose proof (Z.mod_pos_bound (r + 2 ^ (w - 1)) (2 ^ w) ltac:(lia)).
  assert (2 ^ w = 2 * 2 ^ (w - 1)) by (rewrite <- Z.pow_succ_r by lia; f_equal; lia). lia.
Qed.

Lemma signed_congr w x y : x mod 2 ^ w = y mod 2 ^ w -> signed w x = signed w y.
Proof. intros E. unfold signed. by rewrite <- Zplus_mod_idemp_l, E, Zplus_mod_idemp_l. Qed.

Lemma signed_small w x : 1 <= w -> - 2 ^ (w - 1) <= x < 2 ^ (w - 1) -> signed w x = x.
Proof.
  intros Hw Hx. unfold signed. assert (2 ^ w = 2 * 2 ^ (w - 1)) by (rewrite <- Z.pow_succ_r by lia; f_equal; lia).
  rewrite Z.mod_small; lia.
Qed.

Lemma signed_mod w x : 1 <= w -> signed w x mod 2 ^ w = x mod 2 ^ w.
Proof.
  intros Hw. rewrite signed_eq by done. unfold Z.sub. rewrite <- Z.mul_opp_l, Z.mod_add by lia.
  by rewrite Z.mod_mod by lia.
Qed.

Lemma signed_add w x k : 1 <= w -> signed w (x + k * 2 ^ w) = signed w x.
Proof. intros Hw. apply signed_congr. by rewrite Z.mod_add by lia. Qed.

Lemma sign_bit w r : 1 <= w -> Z.testbit r (w - 1) = (signed w r <? 0).
Proof.
  intros Hw. rewrite signed_eq by done. pose proof (Z.mod_pos_bound r (2 ^ w) ltac:(lia)).
  destruct (Z.testbit r (w - 1)); simpl of_bool; zbool; done || lia.
Qed.

Lemma sx_bit w r i : width w -> 0 <= i < w -> Z.testbit (sx w r) i = Z.testbit r i.
Proof.
  intros Hw Hi. unfold sx. rewrite testbit_u32 by (unfold width in Hw; lia). rewrite signed_eq by (unfold width in Hw; lia).
  rewrite <- (Z.mod_pow2_bits_low (_ - _) w i), <- (Z.mod_pow2_bits_low r w i) by lia. f_equal.
  unfold Z.sub. rewrite <- Z.mul_opp_l, Z.mod_add by lia. by rewrite Z.mod_mod by lia.
Qed.

Lemma sx_sign w r : width w -> Z.testbit (sx w r) 31 = Z.testbit r (w - 1).
Proof.
  intros Hw. destruct (Z.eq_dec w 32) as [->|Hne]; [by apply sx_bit|]. assert (1 <= w <= 32) by (unfold width in Hw; lia).
  unfold sx. rewrite testbit_u32 by lia. rewrite signed_eq by (unfold width in Hw; lia).
  pose proof (Z.mod_pos_bound r (2 ^ w) ltac:(lia)) as Hm.
  assert (2 ^ w <= 2 ^ 16) as Hle by (apply Z.pow_le_mono_r; unfold width in Hw; lia). change (2 ^ 16) with 65536 in Hle.
  rewrite Z.testbit_odd, Z.shiftr_div_pow2 by lia. destruct (Z.testbit r (w - 1)); simpl of_bool.
  - replace (_ / _) with (-1); [done|]. apply (Z.div_unique_pos _ _ _ (r mod 2 ^ w - 1 * 2 ^ w + 2 ^ 31)); lia.
  - rewrite Z.div_small by lia. done.
Qed.

Lemma sx_zero w r : width w -> (sx w r =? 0) = (r mod 2 ^ w =? 0).
Proof.
  intros Hw. assert (1 <= w <= 32) by (unfold width in Hw; lia).
  pose proof (signed_range w r ltac:(unfold width in Hw; lia)) as Hs.
  assert (2 ^ (w - 1) <= 2 ^ 31) as Hle by (apply Z.pow_le_mono_r; unfold width in Hw; lia). change (2 ^ 31) with 2147483648 in Hle.
  unfold sx. pose proof (signed_eq w r ltac:(unfold width in Hw; lia)) as E.
  pose proof (Z.mod_pos_bound r (2 ^ w) ltac:(lia)) as Hm.
  destruct (Z.eqb_spec (r mod 2 ^ w) 0) as [H0|H0].
  - assert (signed w r = 0) as ->; [|done].
    assert (2 ^ w = 2 * 2 ^ (w - 1)) by (rewrite <- Z.pow_succ_r by (unfold width in Hw; lia); f_equal; lia).
    destruct (Z.testbit r (w - 1)); simpl of_bool in E; lia.
  - apply Z.eqb_neq. unfold u32. destruct (Z.testbit r (w - 1)); simpl of_bool in E.
    + assert (signed w r < 0) by lia. rewrite <- (Z.mod_add _ 1) by lia. rewrite Z.mod_small; lia.
    + rewrite Z.mod_small; lia.
Qed.

Lemma parity_ext x y : (forall i, 0 <= i < 8 -> Z.testbit x i = Z.testbit y i) -> parity_even x = parity_even y.
Proof.
  intros H. unfold parity_even. f_equal. f_equal. apply list_fmap_ext. intros k i Hk.
  apply list_elem_of_lookup_2, list_elem_of_fmap in Hk as (j & -> & Hj%elem_of_seq). apply H. lia.
Qed.

Lemma sx_parity w r : width w -> parity_even (sx w r) = parity_even r.
Proof. intros Hw. apply parity_ext. intros i Hi. apply sx_bit; [done|]. unfold width in Hw. lia. Qed.

Lemma word_sx w r : word (sx w r).
Proof. apply u32_range. Qed.

(** ** Where the carries are put *)

Lemma word_place_cout c w : width w -> word c -> word (place_cout c w).
Proof. intros Hw Hc. unfold place_cout. destruct (_ =? _); [|destruct (_ =? _)]; auto 6 with bits. Qed.

Lemma place_cout_bits c w : width w ->
  Z.testbit (place_cout c w) 31 = Z.testbit c (w - 1) /\
  Z.testbit (place_cout c w) 30 = Z.testbit c (w - 2) /\
  Z.testbit (place_cout c w) 3 = Z.testbit c 3 /\
  Z.testbit (place_cout c w) 7 = false /\ Z.testbit (place_cout c w) 2 = false.
Proof.
  intros [-> | [-> | ->]]; unfold place_cout; simpl Z.eqb; cbv iota;
    rewrite ?Z.lor_spec, ?Z.land_spec, ?testbit_shl32, ?testbit_not32 by lia;
    cbn -[Z.testbit]; rewrite ?andb_true_r, ?andb_false_r, ?orb_false_r; repeat split; try done.
Qed.

(** The flags of a result with the carries [c] into [w] bits. *)
Lemma result_view c r w f :
  width w -> word c ->
  let f' := f <| cout := place_cout c w |> <| res := sx w r |> in
  flg_ok f' /\
  view f' = eflags (Z.testbit c (w - 1)) (parity_even r) (Z.testbit c 3) (r mod 2 ^ w =? 0)
              (Z.testbit r (w - 1)) (xorb (Z.testbit c (w - 1)) (Z.testbit c (w - 2))).
Proof.
  intros Hw Hc f'. split; [split; [by apply word_place_cout|apply word_sx]|].
  destruct (place_cout_bits c w Hw) as (B31 & B30 & B3 & B7 & B2).
  unfold view, cf_of, pf_of, af_of, zf_of, sf_of, vf_of, f'. cbn [cout res upd].
  by rewrite B31, B30, B3, B7, B2, sx_sign, sx_parity, sx_zero, !xorb_false_r by done.
Qed.

Lemma add_carries w a b c i :
  width w -> 0 <= c <= 1 -> 0 <= i < w ->
  Z.testbit (Z.lor (Z.land a b) (Z.land (Z.lor a b) (not32 (sx w (a + b + c))))) i = carry a b c (i + 1).
Proof.
  intros Hw Hc Hi. rewrite !Z.lor_spec, !Z.land_spec, Z.lor_spec, testbit_not32 by (unfold width in Hw; lia).
  rewrite sx_bit, sum_bit, carry_step by (done || lia). unfold maj.
  by destruct (Z.testbit a i), (Z.testbit b i), (carry a b c i).
Qed.

Lemma sub_borrows w a b c i :
  width w -> 0 <= c <= 1 -> 0 <= i < w ->
  Z.testbit (Z.lor (Z.land (not32 a) b) (Z.land (Z.lxor (not32 a) b) (sx w (a - b - c)))) i = borrow a b c (i + 1).
Proof.
  intros Hw Hc Hi. rewrite !Z.lor_spec, !Z.land_spec, Z.lxor_spec, testbit_not32 by (unfold width in Hw; lia).
  rewrite sx_bit, diff_bit, borrow_step by (done || lia). unfold maj.
  by destruct (Z.testbit a i), (Z.testbit b i), (borrow a b c i).
Qed.

Lemma word_narrow w a : width w -> 0 <= a < 2 ^ w -> word a.
Proof. intros Hw Ha. assert (2 ^ w <= 2 ^ 32) by (apply Z.pow_le_mono_r; unfold width in Hw; lia). unfold word. lia. Qed.

(** Addition. *)
Lemma add_view w a b c f :
  width w -> 0 <= a < 2 ^ w -> 0 <= b < 2 ^ w -> 0 <= c <= 1 ->
  let f' := FlagHandleAdd a b (sx w (a + b + c)) w f in
  flg_ok f' /\ FlagSync_All f' = add_flags w a b c.
Proof.
  intros Hw Ha Hb Hc f'.
  destruct (result_view (Z.lor (Z.land a b) (Z.land (Z.lor a b) (not32 (sx w (a + b + c))))) (a + b + c) w f Hw) as [Hok Hv].
  { pose proof (word_narrow w a Hw Ha). pose proof (word_narrow w b Hw Hb). auto 6 with bits. }
  split; [exact Hok|]. rewrite FlagSync_All_eq by exact Hok. unfold f', FlagHandleAdd. rewrite Hv.
  assert (3 < w - 1) by (unfold width in Hw; lia).
  rewrite !add_carries by (done || lia). unfold add_flags.
  rewrite add_overflow by (done || lia). replace (w - 1 + 1) with w by lia. replace (w - 2 + 1) with (w - 1) by lia.
  unfold carry at 1. rewrite (Z.mod_small a), (Z.mod_small b) by lia. done.
Qed.

(** Subtraction. *)
Lemma sub_view w a b c f :
  width w -> 0 <= a < 2 ^ w -> 0 <= b < 2 ^ w -> 0 <= c <= 1 ->
  let f' := FlagHandleSub a b (sx w (a - b - c)) w f in
  flg_ok f' /\ FlagSync_All f' = sub_flags w a b c.
Proof.
  intros Hw Ha Hb Hc f'.
  destruct (result_view (Z.lor (Z.land (not32 a) b) (Z.land (Z.lxor (not32 a) b) (sx w (a - b - c)))) (a - b - c) w f Hw) as [Hok Hv].
  { pose proof (word_narrow w b Hw Hb). pose proof (word_sx w (a - b - c)). auto 6 with bits. }
  split; [exact Hok|]. rewrite FlagSync_All_eq by exact Hok. unfold f', FlagHandleSub. rewrite Hv.
  assert (3 < w - 1) by (unfold width in Hw; lia).
  rewrite !sub_borrows by (done || lia). unfold sub_flags.
  rewrite sub_overflow by (done || lia). replace (w - 1 + 1) with w by lia. replace (w - 2 + 1) with (w - 1) by lia.
  unfold borrow at 1. rewrite (Z.mod_small a), (Z.mod_small b) by lia. done.
Qed.

(** ** Increment and decrement: the carry is kept *)

Definition inc_flags (w a : Z) (cf : bool) : Z :=
  eflags cf (parity_even (a + 1)) (a mod 16 =? 15) ((a + 1) mod 2 ^ w =? 0)
    (Z.testbit (a + 1) (w - 1)) (signed w a =? 2 ^ (w - 1) - 1).

Definition dec_flags (w a : Z) (cf : bool) : Z :=
  eflags cf (parity_even (a - 1)) (a mod 16 =? 0) ((a - 1) mod 2 ^ w =? 0)
    (Z.testbit (a - 1) (w - 1)) (signed w a =? - 2 ^ (w - 1)).

Lemma eflags_bits cf pf af zf sf vf :
  let x := eflags cf pf af zf sf vf in
  Z.testbit x 0 = cf /\ Z.testbit x 2 = pf /\ Z.testbit x 4 = af /\
  Z.testbit x 6 = zf /\ Z.testbit x 7 = sf /\ Z.testbit x 11 = vf.
Proof. by destruct cf, pf, af, zf, sf, vf. Qed.

Lemma eflags_inj cf pf af zf sf vf cf' pf' af' zf' sf' vf' :
  eflags cf pf af zf sf vf = eflags cf' pf' af' zf' sf' vf' ->
  cf = cf' /\ pf = pf' /\ af = af' /\ zf = zf' /\ sf = sf' /\ vf = vf'.
Proof.
  intros E. pose proof (eflags_bits cf pf af zf sf vf) as H. rewrite E in H. cbv zeta in H.
  pose proof (eflags_bits cf' pf' af' zf' sf' vf') as H'. cbv zeta in H'.
  destruct H as (<- & <- & <- & <- & <- & <-). destruct H' as (-> & -> & -> & -> & -> & ->). done.
Qed.

Lemma incdec_view w low high r f :
  width w -> flg_ok f -> word low -> word high ->
  let c := Z.land low (not32 high) in
  let f' := FlagHandleIncDec low high w (f <| res := sx w r |>) in
  flg_ok f' /\
  view f' = eflags (cf_of f) (parity_even r) (Z.testbit c 3) (r mod 2 ^ w =? 0)
              (Z.testbit r (w - 1)) (xorb (Z.testbit c (w - 1)) (Z.testbit c (w - 2))).
Proof.
  intros Hw Hf Hl Hh c f'.
  destruct (result_view c r w f Hw) as [Hok Hv]; [apply word_land; [done|apply word_not32]|].
  assert (f' = SET_CF (of_bool (cf_of f)) (f <| cout := place_cout c w |> <| res := sx w r |>)) as ->.
  { unfold f', FlagHandleIncDec. rewrite <- is_cf_set_eq by done. done. }
  split; [by apply SET_CF_ok|]. rewrite SET_CF_view by done.
  by apply eflags_inj in Hv as (_ & <- & <- & <- & <- & <-).
Qed.

Lemma inc_carries a i : 0 <= i < 32 -> forall x, Z.testbit x i = Z.testbit a i ->
  forall w, width w -> i < w ->
  Z.testbit (Z.land x (not32 (sx w (a + 1)))) i = carry a 0 1 (i + 1).
Proof.
  intros Hi x Hx w Hw Hiw. rewrite Z.land_spec, testbit_not32, sx_bit, Hx by (done || lia).
  replace (a + 1) with (a + 0 + 1) by lia. rewrite sum_bit, carry_step, Z.bits_0 by lia. unfold maj.
  by destruct (Z.testbit a i), (carry a 0 1 i).
Qed.

Lemma dec_borrows a i : 0 <= i < 32 -> forall x, Z.testbit x i = Z.testbit a i ->
  forall w, width w -> i < w ->
  Z.testbit (Z.land (sx w (a - 1)) (not32 x)) i = borrow a 0 1 (i + 1).
Proof.
  intros Hi x Hx w Hw Hiw. rewrite Z.land_spec, testbit_not32, sx_bit, Hx by (done || lia).
  replace (a - 1) with (a - 0 - 1) by lia. rewrite diff_bit, borrow_step, Z.bits_0 by lia. unfold maj.
  by destruct (Z.testbit a i), (borrow a 0 1 i).
Qed.

Lemma signed_zero w : 1 <= w -> signed w 0 = 0.
Proof.
  intros Hw. rewrite signed_top by lia. rewrite Z.bits_0. simpl of_bool. by rewrite Z.mod_0_l by lia.
Qed.

(** [x] is the operand, zero- or sign-extended. *)
Lemma inc_view w a x f :
  width w -> flg_ok f -> 0 <= a < 2 ^ w -> word x -> (forall i, 0 <= i < w -> Z.testbit x i = Z.testbit a i) ->
  let f' := FlagHandleIncDec x (sx w (a + 1)) w (f <| res := sx w (a + 1) |>) in
  flg_ok f' /\ FlagSync_All f' = inc_flags w a (cf_of f).
Proof.
  intros Hw Hf Ha Hx Hb f'. destruct (incdec_view w x (sx w (a + 1)) (a + 1) f Hw Hf Hx (word_sx _ _)) as [Hok Hv].
  split; [exact Hok|]. rewrite FlagSync_All_eq by exact Hok. unfold f'. rewrite Hv.
  assert (3 < w - 1 /\ w <= 32) by (unfold width in Hw; lia).
  rewrite !(inc_carries a) by (done || lia || apply Hb; lia). unfold inc_flags. f_equal.
  - unfold carry. change (2 ^ (3 + 1)) with 16. pose proof (Z.mod_pos_bound a 16 ltac:(lia)). change (0 mod 16) with 0.
    zbool; simpl; lia || done.
  - replace (w - 1 + 1) with w by lia. replace (w - 2 + 1) with (w - 1) by lia.
    rewrite <- add_overflow by lia. rewrite signed_zero by lia. unfold fits.
    pose proof (signed_range w a ltac:(lia)). zbool; simpl; lia || done.
Qed.

Lemma dec_view w a x f :
  width w -> flg_ok f -> 0 <= a < 2 ^ w -> word x -> (forall i, 0 <= i < w -> Z.testbit x i = Z.testbit a i) ->
  let f' := FlagHandleIncDec (sx w (a - 1)) x w (f <| res := sx w (a - 1) |>) in
  flg_ok f' /\ FlagSync_All f' = dec_flags w a (cf_of f).
Proof.
  intros Hw Hf Ha Hx Hb f'. destruct (incdec_view w (sx w (a - 1)) x (a - 1) f Hw Hf (word_sx _ _) Hx) as [Hok Hv].
  split; [exact Hok|]. rewrite FlagSync_All_eq by exact Hok. unfold f'. rewrite Hv.
  assert (3 < w - 1 /\ w <= 32) by (unfold width in Hw; lia).
  rewrite !(dec_borrows a) by (done || lia || apply Hb; lia). unfold dec_flags. f_equal.
  - unfold borrow. change (2 ^ (3 + 1)) with 16. pose proof (Z.mod_pos_bound a 16 ltac:(lia)). change (0 mod 16) with 0.
    zbool; simpl; lia || done.
  - replace (w - 1 + 1) with w by lia. replace (w - 2 + 1) with (w - 1) by lia.
    rewrite <- sub_overflow by lia. rewrite signed_zero by lia. unfold fits.
    pose proof (signed_range w a ltac:(lia)). zbool; simpl; lia || done.
Qed.

(** ** Logical operations: carry and overflow are cleared, AF is kept *)

Definition logic_flags (w r : Z) (af : bool) : Z :=
  eflags false (parity_even r) af (r mod 2 ^ w =? 0) (Z.testbit r (w - 1)) false.

Definition FlagLogic (w r : Z) (f : flgtmp) : flgtmp :=
  f <| res := sx w r |> <| cout ::= fun c => Z.land c LF_MASK_AF |>.

Lemma logic_view w r f :
  width w -> flg_ok f -> flg_ok (FlagLogic w r f) /\ FlagSync_All (FlagLogic w r f) = logic_flags w r (af_of f).
Proof.
  intros Hw [Hc _].
  assert (flg_ok (FlagLogic w r f)) as Hok.
  { split; cbn [cout res upd FlagLogic]; [|apply word_sx]. apply word_land; [done|by split]. }
  split; [done|]. rewrite FlagSync_All_eq by done. unfold view, logic_flags, FlagLogic.
  assert (forall i, Z.testbit (Z.land (cout f) LF_MASK_AF) i = Z.testbit (cout f) i && Z.testbit 8 i) as Hb
    by (intros i; by rewrite Z.land_spec).
  unfold cf_of, pf_of, af_of, zf_of, sf_of, vf_of. cbn [cout res upd]. rewrite !Hb.
  change (Z.testbit 8 31) with false. change (Z.testbit 8 30) with false. change (Z.testbit 8 7) with false.
  change (Z.testbit 8 2) with false. change (Z.testbit 8 3) with true.
  by rewrite !andb_false_r, andb_true_r, !xorb_false_r, sx_parity, sx_zero, sx_sign by done.
Qed.
