(* ===== verification/SimCpu.v ===== *)
(** * The simulated CPU (simx86/syncpu.h, codegen.h, codegen-sim.c)

    The virtual CPU image, the intermediate instructions, the working registers
    of the interpreter and its address generation unit. *)

From stdpp Require Import base numbers list.
From Stdlib Require Import ZArith Lia.
From S2P Require Import Prelude Machine SimFlags.

Local Open Scope Z_scope.

(** ** Layout of [SynCPU] *)

Definition Ofs_RZERO : Z := 0x00.
Definition Ofs_ERR : Z := 0x04.
Definition Ofs_SCP_ERR : Z := 0x08.
Definition Ofs_EDI : Z := 0x0c.
Definition Ofs_ESI : Z := 0x10.
Definition Ofs_EBP : Z := 0x14.
Definition Ofs_ESP : Z := 0x18.
Definition Ofs_EBX : Z := 0x1c.
Definition Ofs_EDX : Z := 0x20.
Definition Ofs_ECX : Z := 0x24.
Definition Ofs_EAX : Z := 0x28.
Definition Ofs_KEY : Z := 0x2c.
Definition Ofs_EFLAGS : Z := 0x30.
Definition Ofs_ES : Z := 0x34.
Definition Ofs_CS : Z := 0x36.
Definition Ofs_SS : Z := 0x38.
Definition Ofs_DS : Z := 0x3a.
Definition Ofs_FS : Z := 0x3c.
Definition Ofs_GS : Z := 0x3e.
Definition Ofs_XES : Z := 0x40.
Definition Ofs_XCS : Z := 0x48.
Definition Ofs_XSS : Z := 0x50.
Definition Ofs_XDS : Z := 0x58.
Definition Ofs_XFS : Z := 0x60.
Definition Ofs_XGS : Z := 0x68.
Definition Ofs_STACKM : Z := 0x74.
Definition Ofs_DF_INCREMENTS : Z := 0x78.
Definition Ofs_CR0 : Z := 0x80.
Definition Ofs_CR2 : Z := 0x88.
Definition Ofs_EIP : Z := 0x9c.

Definition Ofs_AL : Z := Ofs_EAX.
Definition Ofs_AH : Z := Ofs_EAX + 1.
Definition Ofs_AXH : Z := Ofs_EAX + 2.
Definition Ofs_CL : Z := Ofs_ECX.

Definition EFLAGS_TF : Z := 0x100.
Definition EFLAGS_IF : Z := 0x200.
Definition EFLAGS_DF : Z := 0x400.
Definition EFLAGS_VM : Z := 0x20000.

Definition EXCP00_DIVZ : Z := 1.
Definition EXCP0D_GPF : Z := 14.
Definition EXCP0E_PAGE : Z := 15.

(** ** Mode bits of an instruction *)

Definition ADDR16 : Z := 0x1.
Definition DATA16 : Z := 0x2.
Definition MBYTE : Z := 0x4.
Definition IMMED : Z := 0x8.
Definition RM_REG : Z := 0x10.
Definition SEGREG : Z := 0x40.
Definition MLEA : Z := 0x80.
Definition MREP : Z := 0x100.
Definition MREPNE : Z := 0x200.
Definition MEMADR : Z := 0x400.
Definition MBYTX : Z := 0x2000.
Definition MOVSSRC : Z := 0x4000.
Definition MOVSDST : Z := 0x8000.
Definition MRETISP : Z := 0x20000.
Definition CKSIGN : Z := 0x100000.
Definition MNOREG : Z := 0x200000.
Definition MPATCH : Z := 0x400000.
Definition MLINK : Z := 0x800000.
Definition MREPCOND : Z := 0x1000000.
Definition MSSTP : Z := 0x2000000.

Definition has (mode flag : Z) : bool := truth (Z.land mode flag).

(** The operand width: the three branches of most operations. *)
Definition opwidth (mode : Z) : Z :=
  if has mode MBYTE then 8 else if has mode DATA16 then 16 else 32.

Definition OPSIZE (mode : Z) : Z := nth (Z.to_nat (Z.land mode (Z.lor DATA16 MBYTE))) [4; 4; 2; 2; 1; 1; 1; 1] 0.
Definition OPSIZEBIT (mode : Z) : Z := nth (Z.to_nat (Z.land mode (Z.lor DATA16 MBYTE))) [2; 2; 1; 1; 0; 0; 0; 0] 0.
Definition BT24 (bpos mode : Z) : Z := 4 - Z.land (Z.shiftl mode (1 - bpos)) 2.

(** The instructions that run together with the one before them. *)
Definition A_SR_SH4 : Z := 8.
Definition A_SR_PROT : Z := 9.
Definition S_DI_op : Z := 23.
Definition O_PUSH2 : Z := 86.
Definition O_PUSH3 : Z := 88.
Definition O_POP2 : Z := 90.
Definition O_POP3 : Z := 91.

Record IGen := MkIGen { op : Z; mode : Z; p0 : Z; p1 : Z; p2 : Z; p3 : Z; p4 : Z; link : Z }.

(** ** State

    [cpu] is the image [TheCPU] as bytes, [int_revectored] its bitmap, [RFL] the
    lazy flags; [DR1], [mem_ref] and [P0] are the locals of [Gen_sim] that live
    across instructions, [currentIG] the instruction being run; [world] is the rest of the emulator, memory included. *)

Record sim (W : Type) := MkSim {
  cpu : bytes; int_revectored : Z -> bool; RFL : flgtmp;
  DR1 : Z; mem_ref : Z; P0 : Z; currentIG : Z; world : W;
}.
Arguments MkSim {W}.
Arguments cpu {W}. Arguments int_revectored {W}. Arguments RFL {W}. Arguments DR1 {W}.
Arguments mem_ref {W}. Arguments P0 {W}. Arguments currentIG {W}. Arguments world {W}.

#[export] Instance eta_sim W : Eta (sim W) :=
  fun s => MkSim s.(cpu) s.(int_revectored) s.(RFL) s.(DR1) s.(mem_ref) s.(P0) s.(currentIG) s.(world).

Section cpu.
Context {W : Type}.
Implicit Types s : sim W.

(** [CPUBYTE(o)], [CPUWORD(o)] and [CPULONG(o)]: the image indexed as an array
    of 8, 16 or 32-bit cells. *)
Definition cells (w : Z) : nat := Z.to_nat (w / 8).
Definition cell (w o : Z) : Z := o / (w / 8) * (w / 8).
Definition reg (w o : Z) s : Z := load (cells w) (cpu s) (cell w o).
Definition set_reg (w o v : Z) s : sim W := s <| cpu ::= store (cells w) v (cell w o) |>.

Definition CPUBYTE (o : Z) s : Z := reg 8 o s.
Definition CPUWORD (o : Z) s : Z := reg 16 o s.
Definition CPULONG (o : Z) s : Z := reg 32 o s.
Definition set_BYTE (o v : Z) s : sim W := set_reg 8 o v s.
Definition set_WORD (o v : Z) s : sim W := set_reg 16 o v s.
Definition set_LONG (o v : Z) s : sim W := set_reg 32 o v s.

(** [DR1.b.bl], [DR1.w.l] and [DR1.d]. *)
Definition dr (w : Z) s : Z := DR1 s mod 2 ^ w.
Definition put_low (w v r : Z) : Z := r - r mod 2 ^ w + v mod 2 ^ w.
Definition set_dr (w v : Z) s : sim W := s <| DR1 ::= put_low w v |>.

Definition TheCPU_err s : Z := CPULONG Ofs_ERR s.
Definition set_err (e : Z) s : sim W := set_LONG Ofs_ERR e s.
Definition LONG_CS s : Z := CPULONG Ofs_XCS s.
Definition V86MODE s : bool := truth (Z.land (CPULONG Ofs_EFLAGS s) EFLAGS_VM).

(** A segment register in real mode: the value and its base. *)
Definition e_ofsseg (ofs : Z) : Z :=
  nth (Z.to_nat (Z.shiftr (ofs - Ofs_ES) 1)) [Ofs_XES; Ofs_XCS; Ofs_XSS; Ofs_XDS; Ofs_XFS; Ofs_XGS] 0.

Definition SetSegReal (sel ofs : Z) s : sim W :=
  let sel := u16 sel in
  let sd := e_ofsseg ofs in
  let BoundL := sel * 16 in
  set_LONG (sd + 4) (BoundL + 0xffff) (set_LONG sd BoundL (set_WORD ofs sel s)).

(** ** Address generation *)

Definition check_v86_address_overflow (mode offset : Z) s : sim W :=
  if V86MODE s && (Z.land mode (Z.lor ADDR16 MLEA) =? 0) && (0xffff <? offset)
  then set_err EXCP0D_GPF s else s.

(** The base of the segment, none for LEA. *)
Definition base_of (ig : IGen) s : Z := if has (mode ig) MLEA then 0 else CPULONG (p0 ig) s.

Definition A_DI_0 (ig : IGen) s : Z * sim W :=
  let offset := u32 (p1 ig) in
  (u32 (base_of ig s + offset), check_v86_address_overflow (mode ig) offset s).

Definition A_DI_1 (ig : IGen) s : Z * sim W :=
  if has (mode ig) ADDR16 then
    (u32 (base_of ig s + Z.land (CPUWORD (p2 ig) s + p1 ig) 0xffff), s)
  else
    let offset := u32 (CPULONG (p2 ig) s + p1 ig) in
    (u32 (base_of ig s + offset), check_v86_address_overflow (mode ig) offset s).

Definition A_DI_2 (ig : IGen) s : Z * sim W :=
  if has (mode ig) ADDR16 then
    let offset := u32 (CPUWORD (p2 ig) s + CPUWORD (p3 ig) s + p1 ig) in
    (u32 (base_of ig s + Z.land offset 0xffff), s)
  else
    let sh := u8 (p4 ig) in
    let offset := u32 (CPULONG (p2 ig) s + shl32 (CPULONG (p3 ig) s) (Z.land sh 0x1f) + p1 ig) in
    (u32 (base_of ig s + offset), check_v86_address_overflow (mode ig) offset s).

Definition A_DI_2D (ig : IGen) s : Z * sim W :=
  let sh := u8 (p3 ig) in
  let offset := u32 (shl32 (CPULONG (p2 ig) s) (Z.land sh 0x1f) + p1 ig) in
  (u32 (base_of ig s + offset), check_v86_address_overflow (mode ig) offset s).

Definition O_XLAT (ig : IGen) s : Z * sim W :=
  let offset := u32 (CPULONG Ofs_EBX s + CPUBYTE Ofs_AL s) in
  let offset := if has (mode ig) ADDR16 then Z.land offset 0xffff else offset in
  (u32 (CPULONG (p0 ig) s + offset), s).

Definition O_INT (ig : IGen) s : Z * sim W :=
  let intno := u8 (p0 ig) in
  if int_revectored s intno then (u32 (-1), set_err EXCP0D_GPF s) else (intno * 4, s).

Definition O_MOVS_SetA (ig : IGen) s : Z * sim W :=
  let w := if has (mode ig) ADDR16 then 16 else 32 in
  if has (mode ig) MOVSSRC then (u32 (CPULONG (p0 ig) s + reg w Ofs_ESI s), s)
  else (u32 (CPULONG Ofs_XES s + reg w Ofs_EDI s), s).

(** The operations of [AddrGen_sim], by number. *)
Definition AddrGen_sim (ig : IGen) s : Z * sim W :=
  let o := op ig in
  if o =? 1 then A_DI_0 ig s
  else if o =? 2 then A_DI_1 ig s
  else if o =? 3 then A_DI_2 ig s
  else if o =? 5 then O_XLAT ig s
  else if o =? 6 then O_INT ig s
  else if o =? 7 then O_MOVS_SetA ig s
  else A_DI_2D ig s.

End cpu.

(** Computations of the simulator; they are left when a page fault is handed to
    the client. *)
Definition Sim (W A : Type) : Type := X unit (sim W) A.

Section memory.
Context {W : Type} `{Bus W} (FindPC : Z -> Z).

(** [emu_pagefault_handler], from where the client's exception is raised. *)
Definition emu_pagefault (f : pagefault) : Sim W unit :=
  lift (modify (fun s =>
    let s := set_LONG Ofs_CR2 (pf_addr f) (set_LONG Ofs_SCP_ERR (pf_err f) (set_err EXCP0E_PAGE s)) in
    let s := set_LONG Ofs_EIP (FindPC (currentIG s) - LONG_CS s) s in
    set_LONG Ofs_EFLAGS (Z.lor (Z.land (CPULONG Ofs_EFLAGS s) (not32 EFLAGS_CC)) (FlagSync_All (RFL s))) s)) ?;
  jump tt.

(** An access of the simulated CPU: [sim_read_byte] ... [sim_write_dword]. *)
Definition on_bus {A} (c : X pagefault W A) : Sim W (pagefault + A) :=
  fun s => match c (world s) with Ok (r, w) => Ok (inr r, s <| world := w |>) | Fault e => Fault e end.

Definition access {A} (c : X pagefault W A) : Sim W A :=
  let? r := on_bus c in
  match r with
  | inr a => xret a
  | inl f => emu_pagefault f ?; jump tt
  end.

Definition sim_read (w : Z) (x : Z) : Sim W Z := access (bus_read (cells w) x).
Definition sim_write (w : Z) (x y : Z) : Sim W unit := access (bus_write (cells w) x (y mod 2 ^ w)).

End memory.
