(* ===== verification/SimAlu.v ===== *)
(** * Data movement and arithmetic of the simulated CPU
    (the operations of [Gen_sim], simx86/codegen-sim.c)

    One definition per operation.  The source repeats each for bytes, words and
    double words; here the width is [opwidth (mode ig)].  Assigning to
    [DR1.bs.bl] or [DR1.ws.l] sign-extends the value that goes to the flags:
    [sx]. *)

From stdpp Require Import base numbers list.
From Stdlib Require Import ZArith Lia.
From S2P Require Import Prelude Machine SimFlags SimCpu.

Local Open Scope Z_scope.

Section alu.
Context {W : Type}.
Implicit Types (ig : IGen) (s : sim W).

(** ** Loads and stores between registers *)

Definition L_CR0 s : sim W := set_dr 32 (Z.land (CPULONG Ofs_CR0 s) 0x3f) s.

Definition L_REG ig s : sim W :=
  let w := if has (mode ig) (Z.lor MBYTE MBYTX) then 8 else if has (mode ig) DATA16 then 16 else 32 in
  set_dr w (reg w (p0 ig) s) s.

Definition S_REG ig s : sim W := let w := opwidth (mode ig) in set_reg w (p0 ig) (dr w s) s.

Definition L_REG2REG ig s : sim W := let w := opwidth (mode ig) in set_reg w (p1 ig) (reg w (p0 ig) s) s.

Definition S_DI_R ig s : sim W :=
  set_reg (if has (mode ig) DATA16 then 16 else 32) (p0 ig) (mem_ref s) s.

Definition L_IMM ig s : sim W := set_reg (opwidth (mode ig)) (p0 ig) (p1 ig) s.

Definition L_IMM_R1 ig s : sim W := set_dr (opwidth (mode ig)) (p0 ig) s.

Definition L_MOVZS ig s : sim W :=
  let w := if has (mode ig) MBYTX then 8 else 16 in
  let s := set_dr 32 (if truth (p0 ig) then sx w (DR1 s) else dr w s) s in
  if has (mode ig) DATA16 then set_WORD (p1 ig) (dr 16 s) s else set_LONG (p1 ig) (DR1 s) s.

Definition O_XCHG ig s : sim W :=
  let w := opwidth (mode ig) in
  let DR2 := dr w s in
  let s := set_dr w (reg w (p0 ig) s) s in set_reg w (p0 ig) DR2 s.

Definition O_XCHG_R ig s : sim W :=
  let w := opwidth (mode ig) in
  let s := set_dr w (reg w (p0 ig) s) s in
  let s := set_reg w (p0 ig) (reg w (p1 ig) s) s in set_reg w (p1 ig) (dr w s) s.

Definition O_BSWAP ig s : sim W :=
  let o1 := u8 (p0 ig) in
  let v := CPULONG o1 s in
  let v := Z.lor (Z.shiftr (Z.land v 0xff00ff00) 8) (Z.shiftl (Z.land v 0x00ff00ff) 8) in
  let v := Z.lor (Z.shiftr (Z.land v 0xffff0000) 16) (Z.shiftl (Z.land v 0x0000ffff) 16) in
  set_LONG o1 v s.

(** ** Addition and subtraction *)

Definition flags (f : flgtmp -> flgtmp) s : sim W := s <| RFL ::= f |>.

(** The second operand of [O_xxx_R]: an immediate, or a register whose offset
    is the signed low byte of the parameter. *)
Definition src_R (w : Z) ig s : Z :=
  if has (mode ig) IMMED then p0 ig mod 2 ^ w else reg w (signed 8 (p0 ig)) s.

Definition O_ADD_R ig s : sim W :=
  let w := opwidth (mode ig) in
  let S1 := dr w s in
  let S2 := src_R w ig s in
  let r := S1 + S2 in
  flags (FlagHandleAdd S1 S2 (sx w r) w) (set_dr w r s).

Definition O_SUB_R ig s : sim W :=
  let w := opwidth (mode ig) in
  let S1 := dr w s in
  let S2 := src_R w ig s in
  let r := S1 - S2 in
  flags (FlagHandleSub S1 S2 (sx w r) w) (set_dr w r s).

Definition O_CMP_R ig s : sim W :=
  let w := opwidth (mode ig) in
  let S1 := dr w s in
  let S2 := src_R w ig s in
  flags (FlagHandleSub S1 S2 (sx w (S1 - S2)) w) s.

Definition O_ADC_R ig s : sim W :=
  let w := opwidth (mode ig) in
  let cy := is_cf_set (RFL s) in
  let S1 := dr w s in
  let S2 := src_R w ig s in
  let r := S1 + S2 + cy in
  flags (FlagHandleAdd S1 S2 (sx w r) w) (set_dr w r s).

Definition O_SBB_R ig s : sim W :=
  let w := opwidth (mode ig) in
  let cy := is_cf_set (RFL s) in
  let S1 := dr w s in
  let S2 := src_R w ig s in
  let r := S1 - S2 - cy in
  flags (FlagHandleSub S1 S2 (sx w r) w) (set_dr w r s).

(** The second operand of [O_xxx_FR]. *)
Definition src_FR (w : Z) ig s : Z :=
  if has (mode ig) IMMED then p1 ig mod 2 ^ w else dr w s.

Definition O_ADD_FR ig s : sim W :=
  let w := opwidth (mode ig) in
  let S1 := reg w (p0 ig) s in
  let S2 := src_FR w ig s in
  let r := S1 + S2 in
  flags (FlagHandleAdd S1 S2 (sx w r) w) (set_reg w (p0 ig) r s).

Definition O_ADC_FR ig s : sim W :=
  let w := opwidth (mode ig) in
  let cy := is_cf_set (RFL s) in
  let S1 := reg w (p0 ig) s in
  let S2 := src_FR w ig s in
  let r := S1 + S2 + cy in
  flags (FlagHandleAdd S1 S2 (sx w r) w) (set_reg w (p0 ig) r s).

Definition O_SBB_FR ig s : sim W :=
  let w := opwidth (mode ig) in
  let cy := is_cf_set (RFL s) in
  let S1 := reg w (p0 ig) s in
  let S2 := src_FR w ig s in
  let r := S1 - S2 - cy in
  flags (FlagHandleSub S1 S2 (sx w r) w) (set_reg w (p0 ig) r s).

Definition O_SUB_FR ig s : sim W :=
  let w := opwidth (mode ig) in
  let S1 := reg w (p0 ig) s in
  let S2 := src_FR w ig s in
  let r := S1 - S2 in
  flags (FlagHandleSub S1 S2 (sx w r) w) (set_reg w (p0 ig) r s).

Definition O_CMP_FR ig s : sim W :=
  let w := opwidth (mode ig) in
  let S1 := reg w (p0 ig) s in
  let S2 := src_FR w ig s in
  flags (FlagHandleSub S1 S2 (sx w (S1 - S2)) w) s.

Definition O_NEG ig s : sim W :=
  let w := opwidth (mode ig) in
  let S2 := dr w s in
  flags (FlagHandleSub 0 S2 (sx w (- S2)) w) (set_dr w (- S2) s).

(** [RFL.res] is set first, then the carries from it. *)
Definition set_res (r : Z) : flgtmp -> flgtmp := fun f => f <| res := r |>.

Definition O_INC_R ig s : sim W :=
  let w := opwidth (mode ig) in
  let S1 := reg w (p0 ig) s in
  let r := sx w (S1 + 1) in
  flags (fun f => FlagHandleIncDec S1 r w (set_res r f)) (set_reg w (p0 ig) r s).

Definition O_DEC_R ig s : sim W :=
  let w := opwidth (mode ig) in
  let S1 := reg w (p0 ig) s in
  let r := sx w (S1 - 1) in
  flags (fun f => FlagHandleIncDec r S1 w (set_res r f)) (set_reg w (p0 ig) r s).

Definition O_INC ig s : sim W :=
  let w := opwidth (mode ig) in
  let S1 := sx w (DR1 s) in
  let r := sx w (S1 + 1) in
  flags (fun f => FlagHandleIncDec S1 r w (set_res r f)) (set_dr w r s).

Definition O_DEC ig s : sim W :=
  let w := opwidth (mode ig) in
  let S1 := sx w (DR1 s) in
  let r := sx w (S1 - 1) in
  flags (fun f => FlagHandleIncDec r S1 w (set_res r f)) (set_dr w r s).

(** ** Logical operations *)

Definition keep_AF : flgtmp -> flgtmp := fun f => f <| cout ::= fun c => Z.land c LF_MASK_AF |>.

Definition logic_R (f : Z -> Z -> Z) ig s : sim W :=
  let w := opwidth (mode ig) in
  let v := if has (mode ig) IMMED then p0 ig mod 2 ^ w else reg w (p0 ig) s in
  let r := f (dr w s) v in
  flags (fun f => keep_AF (set_res (sx w r) f)) (set_dr w r s).

Definition O_OR_R : IGen -> sim W -> sim W := logic_R Z.lor.
Definition O_AND_R : IGen -> sim W -> sim W := logic_R Z.land.
Definition O_XOR_R : IGen -> sim W -> sim W := logic_R Z.lxor.

Definition logic_FR (f : Z -> Z -> Z) ig s : sim W :=
  let w := opwidth (mode ig) in
  let r := f (reg w (p0 ig) s) (src_FR w ig s) in
  flags (fun f => keep_AF (set_res (sx w r) f)) (set_reg w (p0 ig) r s).

Definition O_OR_FR : IGen -> sim W -> sim W := logic_FR Z.lor.
Definition O_AND_FR : IGen -> sim W -> sim W := logic_FR Z.land.
Definition O_XOR_FR : IGen -> sim W -> sim W := logic_FR Z.lxor.

Definition O_NOT ig s : sim W := let w := opwidth (mode ig) in set_dr w (Z.lnot (dr w s)) s.

Definition O_CLEAR ig s : sim W :=
  flags (fun f => keep_AF (set_res 0 f)) (set_reg (opwidth (mode ig)) (p0 ig) 0 s).

Definition O_TEST ig s : sim W :=
  let w := opwidth (mode ig) in
  flags (fun f => keep_AF (set_res (sx w (reg w (p0 ig) s)) f)) s.

Definition O_SBSELF ig s : sim W :=
  let w := opwidth (mode ig) in
  let f := if truth (is_cf_set (RFL s)) then MkFlg (Z.lor LF_MASK_CF LF_MASK_AF) 0xffffffff else MkFlg 0 0 in
  set_reg w (p0 ig) (res f) (s <| RFL := f |>).

(** ** Compare and exchange *)

Definition O_CMPXCHG ig s : sim W :=
  let w := opwidth (mode ig) in
  let S1 := reg w Ofs_EAX s in
  let S2 := dr w s in
  let s := flags (FlagHandleSub S1 S2 (sx w (S1 - S2)) w) s in
  if res (RFL s) =? 0 then set_dr w (reg w (p0 ig) s) s else set_reg w Ofs_EAX (dr w s) s.

(** ** Multiplication *)

Definition mul_flags (ovf : bool) : flgtmp -> flgtmp := fun f =>
  f <| cout ::= fun c => let c := Z.land c (not32 (Z.lor LF_MASK_CF LF_MASK_PO)) in
                         if ovf then Z.lor c LF_MASK_CF else c |>.

Definition O_MUL ig s : sim W :=
  if has (mode ig) MBYTE then
    let s := set_dr 16 (CPUBYTE Ofs_AL s * dr 8 s) s in
    let s := set_WORD Ofs_EAX (dr 16 s) s in
    flags (mul_flags (truth (dr 16 s / 2 ^ 8))) s
  else if has (mode ig) DATA16 then
    let s := set_dr 32 (CPUWORD Ofs_EAX s * dr 16 s) s in
    let s := set_WORD Ofs_EDX (DR1 s / 2 ^ 16) (set_WORD Ofs_EAX (dr 16 s) s) in
    flags (mul_flags (truth (DR1 s / 2 ^ 16))) s
  else
    let v := CPULONG Ofs_EAX s * DR1 s in
    let s := set_LONG Ofs_EDX (v / 2 ^ 32) (set_LONG Ofs_EAX v s) in
    flags (mul_flags (truth (v / 2 ^ 32))) s.

(** [DR1.ds >>= n] and the test that only the sign is left. *)
Definition sar_dr (n : Z) s : sim W := set_dr 32 (Z.shiftr (signed 32 (DR1 s)) n) s.
Definition not_sign (v : Z) : bool := negb (v =? 0) && negb (v =? -1).

Definition imul_byte s : sim W :=
  let s := set_dr 32 (signed 8 (CPUBYTE Ofs_AL s) * signed 8 (DR1 s)) s in
  let s := sar_dr 7 (set_WORD Ofs_EAX (dr 16 s) s) in
  flags (mul_flags (not_sign (signed 32 (DR1 s)))) s.

Definition imul_word ig s : sim W :=
  let s :=
    if has (mode ig) IMMED then
      let s := set_dr 32 (signed 16 (DR1 s) * signed 32 (p0 ig)) s in set_WORD (p1 ig) (dr 16 s) s
    else if has (mode ig) MEMADR then
      let s := set_dr 32 (signed 16 (CPUWORD (p0 ig) s) * signed 16 (DR1 s)) s in set_WORD (p0 ig) (dr 16 s) s
    else
      let s := set_dr 32 (signed 16 (CPUWORD Ofs_EAX s) * signed 16 (DR1 s)) s in
      set_WORD Ofs_EDX (DR1 s / 2 ^ 16) (set_WORD Ofs_EAX (dr 16 s) s) in
  let s := sar_dr 15 s in
  flags (mul_flags (not_sign (signed 32 (DR1 s)))) s.

Definition imul_long ig s : sim W :=
  let '(v, s) :=
    if has (mode ig) IMMED then
      let v := signed 32 (DR1 s) * signed 32 (p0 ig) in (v, set_LONG (p1 ig) v s)
    else if has (mode ig) MEMADR then
      let v := signed 32 (DR1 s) * signed 32 (CPULONG (p0 ig) s) in (v, set_LONG (p0 ig) v s)
    else
      let v := signed 32 (CPULONG Ofs_EAX s) * signed 32 (DR1 s) in
      (v, set_LONG Ofs_EDX (Z.shiftr v 32) (set_LONG Ofs_EAX v s)) in
  flags (mul_flags (not_sign (Z.shiftr v 31))) s.

(** An immediate byte is a form of the wider operations. *)
Definition O_IMUL ig s : sim W :=
  if has (mode ig) MBYTE && negb (has (mode ig) IMMED) then imul_byte s
  else if has (mode ig) DATA16 then imul_word ig s
  else imul_long ig s.

(** ** Division

    A zero divisor and a quotient that does not fit raise the divide error; the
    host's own division traps on the most negative number divided by -1. *)

Definition O_DIV ig : M (sim W) unit :=
  modify (fun s =>
    if has (mode ig) MBYTE then
      let v := CPUWORD Ofs_EAX s in
      let S1 := dr 8 s in
      if (S1 =? 0) || (0xff <? v / S1) then set_err EXCP00_DIVZ s
      else set_BYTE Ofs_AH (v mod S1) (set_BYTE Ofs_AL (v / S1) s)
    else if has (mode ig) DATA16 then
      let v := Z.lor (Z.shiftl (CPUWORD Ofs_EDX s) 16) (CPUWORD Ofs_EAX s) in
      let S1 := dr 16 s in
      if (S1 =? 0) || (0xffff <? v / S1) then set_err EXCP00_DIVZ s
      else set_WORD Ofs_EDX (v mod S1) (set_WORD Ofs_EAX (v / S1) s)
    else
      let v := CPULONG Ofs_EDX s * 2 ^ 32 + CPULONG Ofs_EAX s in
      let S1 := dr 32 s in
      if (S1 =? 0) || truth (v / S1 / 2 ^ 32) then set_err EXCP00_DIVZ s
      else set_LONG Ofs_EDX (v mod S1) (set_LONG Ofs_EAX (v / S1) s)) ;;
  modify (fun s => if TheCPU_err s =? EXCP00_DIVZ then s <| P0 := u32 (LONG_CS s + p0 ig) |> else s).

(** The host's [v % S] and [v / S] in [n]-bit signed integers. *)
Definition host_divmod (n v S : Z) : M (sim W) (Z * Z) :=
  if (v =? - 2 ^ (n - 1)) && (S =? -1) then throw DivisionByZero else ret (Z.quot v S, Z.rem v S).

Definition O_IDIV ig : M (sim W) unit :=
  let! s := get in
  (if has (mode ig) MBYTE then
     let S := signed 8 (DR1 s) in
     let v := signed 16 (CPUWORD Ofs_EAX s) in
     if S =? 0 then modify (set_err EXCP00_DIVZ)
     else
       let! (q, rem) := host_divmod 32 v S in
       if (127 <? q) || (q <? -128) then modify (set_err EXCP00_DIVZ)
       else modify (fun s => set_BYTE Ofs_AH rem (set_BYTE Ofs_AL q s))
   else if has (mode ig) DATA16 then
     let S := signed 16 (DR1 s) in
     let v := signed 32 (Z.lor (Z.shiftl (CPUWORD Ofs_EDX s) 16) (CPUWORD Ofs_EAX s)) in
     if S =? 0 then modify (set_err EXCP00_DIVZ)
     else
       let! (q, rem) := host_divmod 32 v S in
       if (32767 <? q) || (q <? -32768) then modify (set_err EXCP00_DIVZ)
       else modify (fun s => set_WORD Ofs_EDX rem (set_WORD Ofs_EAX q s))
   else
     let S := signed 32 (DR1 s) in
     let v := signed 64 (Z.lor (CPULONG Ofs_EAX s) (Z.shiftl (CPULONG Ofs_EDX s) 32)) in
     if S =? 0 then modify (set_err EXCP00_DIVZ)
     else
       let! (q, rem) := host_divmod 64 v S in
       if (0x7fffffff <? q) || (q <? - 0x80000000) then modify (set_err EXCP00_DIVZ)
       else modify (fun s => set_LONG Ofs_EDX rem (set_LONG Ofs_EAX q s))) ;;
  modify (fun s => if TheCPU_err s =? EXCP00_DIVZ then s <| P0 := u32 (LONG_CS s + p0 ig) |> else s).

Definition O_CBWD ig s : sim W :=
  let s := set_dr 32 (CPULONG Ofs_EAX s) s in
  let sign (i : Z) := Z.testbit (DR1 s) i in
  if has (mode ig) MBYTE then
    if has (mode ig) DATA16 then set_BYTE Ofs_AH (if sign 7 then 0xff else 0) s
    else set_WORD Ofs_AXH (if sign 15 then 0xffff else 0) s
  else if has (mode ig) DATA16 then set_WORD Ofs_EDX (if sign 15 then 0xffff else 0) s
  else set_LONG Ofs_EDX (if sign 31 then 0xffffffff else 0) s.

(** ** Shifts and rotates *)

Definition shift_count ig s : Z := Z.land (if has (mode ig) IMMED then p0 ig else CPUBYTE Ofs_CL s) 31.

Definition O_ROL ig s : sim W :=
  let sh := shift_count ig s in
  if sh =? 0 then s else
  let w := opwidth (mode ig) in
  let sh := if w =? 32 then sh else Z.land sh (w - 1) in
  let rbef := dr w s in
  let raft := u32 (Z.lor (Z.shiftl rbef sh) (Z.shiftr rbef (w - sh))) in
  flags (FlagHandleRotate sh (Z.land raft 1) rbef w) (set_dr w raft s).

Definition O_RCL ig s : sim W :=
  let cy := is_cf_set (RFL s) in
  let sh := shift_count ig s in
  let w := opwidth (mode ig) in
  let sh := if w =? 32 then sh else sh mod (w + 1) in
  if sh =? 0 then s else
  let rbef := dr w s in
  let raft :=
    if w =? 32 then
      let raft := Z.lor (shl32 rbef sh) (shl32 cy (sh - 1)) in
      if 1 <? sh then Z.lor raft (Z.shiftr rbef (33 - sh)) else raft
    else u32 (Z.lor (Z.lor (Z.shiftl rbef sh) (Z.shiftr rbef (w + 1 - sh))) (Z.shiftl cy (sh - 1))) in
  let cy := Z.land (Z.shiftr rbef (w - sh)) 1 in
  flags (FlagHandleRotate sh cy rbef w) (set_dr w raft s).

Definition O_SHL ig s : sim W :=
  let sh := shift_count ig s in
  if sh =? 0 then s else
  let w := opwidth (mode ig) in
  let rbef := dr w s in
  let raft := shl32 rbef sh in
  let cy := if w =? 32 then Z.land (Z.shiftr rbef (32 - sh)) 1 else of_bool (truth (Z.land raft (2 ^ w))) in
  flags (FlagHandleShift sh cy rbef w (sx w raft)) (set_dr w raft s).

Definition O_ROR ig s : sim W :=
  let sh := shift_count ig s in
  if sh =? 0 then s else
  let w := opwidth (mode ig) in
  let sh := if w =? 32 then sh else Z.land sh (w - 1) in
  let rbef := dr w s in
  let raft := u32 (Z.lor (Z.shiftr rbef sh) (Z.shiftl rbef (w - sh))) in
  flags (FlagHandleRotate sh (of_bool (truth (Z.land raft (2 ^ (w - 1))))) raft w) (set_dr w raft s).

Definition O_RCR ig s : sim W :=
  let cy := is_cf_set (RFL s) in
  let sh := shift_count ig s in
  if sh =? 0 then s else
  let w := opwidth (mode ig) in
  let sh := if w =? 32 then sh else sh mod (w + 1) in
  let rbef := dr w s in
  let raft :=
    if w =? 32 then
      let raft := Z.lor (Z.shiftr rbef sh) (shl32 cy (32 - sh)) in
      if 1 <? sh then Z.lor raft (shl32 rbef (33 - sh)) else raft
    else u32 (Z.lor (Z.lor (Z.shiftr rbef sh) (Z.shiftl rbef (w + 1 - sh))) (Z.shiftl cy (w - sh))) in
  let cy := if (w =? 32) || truth sh then Z.land (Z.shiftr rbef (sh - 1)) 1 else cy in
  flags (FlagHandleRotate sh cy raft w) (set_dr w raft s).

Definition O_SHR ig s : sim W :=
  let sh := shift_count ig s in
  if sh =? 0 then s else
  let w := opwidth (mode ig) in
  let rbef := dr w s in
  let cy := Z.land (Z.shiftr rbef (sh - 1)) 1 in
  let raft := Z.shiftr rbef sh in
  flags (FlagHandleShift sh cy raft w (sx w raft)) (set_dr w raft s).

(** Double words are given to [FlagHandleShift] as words. *)
Definition O_SAR ig s : sim W :=
  let sh := shift_count ig s in
  if sh =? 0 then s else
  let w := opwidth (mode ig) in
  let rbef := signed w (DR1 s) in
  let cy := Z.land (Z.shiftr rbef (sh - 1)) 1 in
  let raft := Z.shiftr rbef sh in
  flags (FlagHandleShift sh cy (u32 raft) (if w =? 8 then 8 else 16) (sx w raft)) (set_dr w raft s).

(** ** Decimal adjustment *)

Definition add_bl (n : Z) s : sim W := set_dr 8 (dr 8 s + n) s.
Definition bh s : Z := dr 16 s / 2 ^ 8.
Definition set_bh (v : Z) s : sim W := set_dr 16 (v mod 2 ^ 8 * 2 ^ 8 + dr 8 s) s.
Definition sync_res s : sim W := flags (set_res (sx 8 (DR1 s))) s.
Definition set_cout (c : Z) s : sim W := flags (fun f => f <| cout := c |>) s.

Definition DAA s : sim W :=
  let cy := truth (is_cf_set (RFL s)) in
  let altmp := dr 8 s in
  let '(s, cyaf) :=
    if (9 <? Z.land altmp 0x0f) || is_af_set (RFL s) then
      (add_bl 6 s, Z.lor (Z.shiftl (of_bool (cy || (0xf9 <? altmp))) LF_BIT_CF) LF_MASK_AF)
    else (s, 0) in
  let '(s, cyaf) :=
    if (0x99 <? altmp) || cy then (add_bl 0x60 s, Z.lor cyaf LF_MASK_CF) else (s, cyaf) in
  set_cout cyaf (sync_res s).

Definition DAS s : sim W :=
  let cy := truth (is_cf_set (RFL s)) in
  let altmp := dr 8 s in
  let '(s, cyaf) :=
    if (9 <? Z.land altmp 0x0f) || is_af_set (RFL s) then
      (add_bl (-6) s, Z.lor (Z.shiftl (of_bool (cy || (altmp <? 6))) LF_BIT_CF) LF_MASK_AF)
    else (s, 0) in
  let '(s, cyaf) :=
    if (0x99 <? altmp) || cy then (add_bl (- 0x60) s, Z.lor cyaf LF_MASK_CF) else (s, cyaf) in
  set_cout cyaf (sync_res s).

Definition set_cyaf (cyaf : Z) s : sim W :=
  flags (fun f => f <| cout ::= fun c =>
    Z.lor (Z.land c (not32 (Z.lor (Z.lor LF_MASK_AF LF_MASK_CF) LF_MASK_PO))) cyaf |>) s.

Definition AAA s : sim W :=
  let icarry := of_bool (0xf9 <? dr 8 s) in
  if (9 <? Z.land (dr 8 s) 0x0f) || is_af_set (RFL s) then
    let s := set_dr 8 (Z.land (dr 8 s + 6) 0x0f) s in
    set_cyaf (Z.lor LF_MASK_CF LF_MASK_AF) (set_bh (bh s + 1 + icarry) s)
  else set_cyaf 0 (set_dr 8 (Z.land (dr 8 s) 0x0f) s).

Definition AAS s : sim W :=
  let icarry := of_bool (dr 8 s <? 6) in
  if (9 <? Z.land (dr 8 s) 0x0f) || is_af_set (RFL s) then
    let s := set_dr 8 (Z.land (dr 8 s - 6) 0x0f) s in
    set_cyaf (Z.lor LF_MASK_CF LF_MASK_AF) (set_bh (bh s - 1 - icarry) s)
  else set_cyaf 0 (set_dr 8 (Z.land (dr 8 s) 0x0f) s).

(** [base] is not checked, and AL is taken as a signed number. *)
Definition AAM ig : M (sim W) unit :=
  let! s := get in
  let tmp := signed 8 (DR1 s) in
  let base := signed 8 (p2 ig) in
  if base =? 0 then throw DivisionByZero else
  modify (fun s =>
    let s := set_bh (Z.quot tmp base) s in
    set_cout 0 (sync_res (set_dr 8 (Z.rem tmp base) s))).

Definition AAD ig s : sim W :=
  let base := signed 8 (p2 ig) in
  set_cout 0 (sync_res (set_dr 16 (Z.land (bh s * base + dr 8 s) 0xff) s)).

Definition O_OPAX ig : M (sim W) unit :=
  let subop := u8 (p1 ig) in
  modify (fun s => set_dr 32 (CPULONG Ofs_EAX s) s) ;;
  (if subop =? 0x27 then modify DAA
   else if subop =? 0x2f then modify DAS
   else if subop =? 0x37 then modify AAA
   else if subop =? 0x3f then modify AAS
   else if subop =? 0xd4 then AAM ig
   else if subop =? 0xd5 then modify (AAD ig)
   else ret tt) ;;
  modify (fun s => set_LONG Ofs_EAX (DR1 s) s).

(** ** Flags *)

Definition O_SLAHF ig s : sim W :=
  if Z.land (p0 ig) 1 =? 0 then set_BYTE Ofs_AH (FlagSync_SZAPC (RFL s)) s
  else s <| RFL := FlagSync_RFL (Z.lor (FlagSync_O (RFL s)) (CPUBYTE Ofs_AH s)) |>.

Definition O_SETFL ig s : sim W :=
  let o1 := u8 (p0 ig) in
  if o1 =? 0xf5 then flags (fun f => f <| cout ::= fun c => Z.lxor c (Z.lor LF_MASK_CF LF_MASK_PO) |>) s
  else if o1 =? 0xf8 then flags (SET_CF 0) s
  else if o1 =? 0xf9 then flags (SET_CF 1) s
  else if o1 =? 0xfc then
    set_LONG Ofs_DF_INCREMENTS 0x040201 (set_WORD Ofs_EFLAGS (Z.land (CPUWORD Ofs_EFLAGS s) 0xfbff) s)
  else if o1 =? 0xfd then
    set_LONG Ofs_DF_INCREMENTS 0xfcfeff (set_WORD Ofs_EFLAGS (Z.lor (CPUWORD Ofs_EFLAGS s) 0x400) s)
  else if o1 =? 0xfa then set_LONG Ofs_EFLAGS (Z.land (CPULONG Ofs_EFLAGS s) (not32 EFLAGS_IF)) s
  else if o1 =? 0xcd then
    set_WORD Ofs_EFLAGS (Z.land (CPUWORD Ofs_EFLAGS s) (not32 (Z.lor EFLAGS_IF EFLAGS_TF))) s
  else s.

(** The sixteen conditions of SETcc and Jcc, by the low digit of the opcode. *)
Definition condition (cc : Z) (f : flgtmp) : bool :=
  let o := truth (is_of_set f) in
  let c := truth (is_cf_set f) in
  let z := is_zf_set f in
  let sf := is_sf_set f in
  let p := is_pf_set f in
  nth (Z.to_nat cc)
    [o; negb o; c; negb c; z; negb z; c || z; negb c && negb z; sf; negb sf; p; negb p;
     xorb sf o; negb (xorb sf o); xorb sf o || z; negb (xorb sf o) && negb z] false.

Definition O_SETCC ig s : sim W :=
  let o1 := u8 (p0 ig) in
  if o1 <? 16 then set_dr 8 (of_bool (condition o1 (RFL s))) s else s.

(** ** Double shifts *)

Definition O_SHFD ig s : sim W :=
  let l_r := Z.land (u8 (p0 ig)) 8 in
  let o := p1 ig in
  let shc := Z.land (if has (mode ig) IMMED then p2 ig else CPUBYTE Ofs_CL s) 0x1f in
  if shc =? 0 then s else
  let s := flags keep_AF s in
  let or_cout c := flags (fun f => f <| cout ::= fun x => Z.lor x c |>) in
  if has (mode ig) DATA16 then
    if l_r =? 0 then
      let hi := dr 16 s in
      let d := hi * 2 ^ 16 + CPUWORD o s in
      let s := or_cout (shl32 hi 16) s in
      let d := Z.lor (shl32 d shc) (Z.shiftr d (32 - shc)) in
      let cy := Z.land d 1 in
      let s := set_dr 32 (d - d mod 2 ^ 16 + d / 2 ^ 16) s in
      flags (fun f => SET_CF cy (set_res (sx 16 (d / 2 ^ 16)) f)) s
    else
      let d := CPUWORD o s * 2 ^ 16 + dr 16 s in
      let d := Z.lor (Z.shiftr d shc) (shl32 d (32 - shc)) in
      let cy := Z.land (Z.shiftr d 31) 1 in
      let s := flags (set_res (sx 16 d)) (set_dr 32 d s) in
      flags (SET_CF cy) (or_cout (shl32 (res (RFL s)) 16) s)
  else
    if l_r =? 0 then
      let v := DR1 s * 2 ^ 32 + CPULONG o s in
      let s := or_cout (Z.land (DR1 s) (Z.lor LF_MASK_CF LF_MASK_PO)) s in
      let cy := Z.land (Z.shiftr v (64 - shc)) 1 in
      let v := u64 (Z.shiftl v shc) in
      flags (fun f => SET_CF cy (set_res (v / 2 ^ 32) f)) (set_dr 32 (v / 2 ^ 32) s)
    else
      let v := CPULONG o s * 2 ^ 32 + DR1 s in
      let cy := Z.land (Z.shiftr v (shc - 1)) 1 in
      let v := Z.shiftr v shc in
      let s := flags (set_res (u32 v)) (set_dr 32 v s) in
      flags (SET_CF cy) (or_cout (Z.land (res (RFL s)) (Z.lor LF_MASK_CF LF_MASK_PO)) s).

End alu.
