(* ===== verification/SimMem.v ===== *)
(** * Memory, stack and string operations of the simulated CPU
    (the operations of [Gen_sim], simx86/codegen-sim.c) *)

From stdpp Require Import base numbers list.
From Stdlib Require Import ZArith Lia.
From S2P Require Import Prelude Machine SimFlags SimCpu.

Local Open Scope Z_scope.

Section mem.
Context {W : Type} `{Bus W}.
(** The translated program as an array of instructions, the guest address of
    one of them, and the loading of a selector in protected mode (protmode.c). *)
Context (code : Z -> IGen) (FindPC : Z -> Z) (SetSegProt : Z -> Z -> Sim W unit).
(** The flags PUSHF shows besides the first twelve. *)
Context (eTSSMASK : Z).
Implicit Types (ig : IGen) (s : sim W).

Definition peek {A} (f : sim W -> A) : Sim W A := lift (gets f).
Definition update (f : sim W -> sim W) : Sim W unit := lift (modify f).

Definition rd (w x : Z) : Sim W Z := sim_read FindPC w x.
Definition wr (w x y : Z) : Sim W unit := sim_write FindPC w x y.

(** ** Loads and stores *)

Definition Gen_A_SR_SH4 ig (seg : Z) : Sim W unit := update (SetSegReal seg (p0 ig)).

(** The new [P0]: -1 when the selector was accepted. *)
Definition Gen_A_SR_PROT ig (seg : Z) : Sim W Z :=
  SetSegProt (p0 ig) seg ?;
  peek (fun s => if TheCPU_err s =? 0 then u32 (-1) else p1 ig).

Definition Gen_S_DI ig (addr v : Z) : Sim W unit := wr (opwidth (mode ig)) addr v.

Definition S_DI_IMM ig : Sim W unit :=
  let? m := peek mem_ref in wr (opwidth (mode ig)) m (p0 ig).

Definition L_LXS1 ig : Sim W unit :=
  let w := if has (mode ig) DATA16 then 16 else 32 in
  let? m := peek mem_ref in
  let? v := rd w m in
  update (fun s => let s := set_dr w v s in set_reg w (p0 ig) (dr w s) s).

Definition L_LXS2 ig : Sim W unit :=
  let? m := peek mem_ref in
  let? v := rd 16 (u32 (m + BT24 1 (mode ig))) in update (set_dr 32 v).

Definition L_DI_R1 ig : Sim W unit :=
  let w := if has (mode ig) (Z.lor MBYTE MBYTX) then 8 else if has (mode ig) DATA16 then 16 else 32 in
  let? m := peek mem_ref in
  let? v := rd w m in update (set_dr w v).

Definition S_DI ig : Sim W unit :=
  let? m := peek mem_ref in
  let? v := peek DR1 in Gen_S_DI ig m v.

(** ** Stack *)

(** The instructions [O_PUSH2] from [pc] on: the next instruction and [sp]. *)
Fixpoint push_loop (fuel : nat) (pc sp : Z) : Sim W (Z * Z) :=
  match fuel with
  | O => lift (throw OutOfFuel)
  | S fuel =>
    let ig := code pc in
    let? stackm := peek (CPULONG Ofs_STACKM) in
    let sp := u32 (if has (mode ig) DATA16 then sp - 2 else sp - 4) in
    let sp := Z.land sp stackm in
    let? addr := peek (fun s => u32 (CPULONG Ofs_XSS s + sp)) in
    update (fun s => s <| currentIG := pc |>) ?;
    let w := if has (mode ig) (Z.lor SEGREG DATA16) then 16 else 32 in
    let? o := peek (fun s => if has (mode ig) MNOREG then dr w s
                             else if has (mode ig) IMMED then p0 ig else reg w (p0 ig) s) in
    wr w addr o ?;
    if op (code (pc + 1)) =? O_PUSH2 then push_loop fuel (pc + 1) sp else xret (pc + 1, sp)
  end.

(** Bits of ESP that the stack mask leaves alone. *)
Definition keep_esp (sp : Z) s : sim W :=
  set_LONG Ofs_ESP (Z.lor sp (Z.land (CPULONG Ofs_ESP s) (not32 (CPULONG Ofs_STACKM s)))) s.

(** [O_PUSH1] at [pc]: the index of its [O_PUSH3]. *)
Definition O_PUSH1 (fuel : nat) (pc : Z) : Sim W Z :=
  let? sp := peek (CPULONG Ofs_ESP) in
  lift (assert (op (code (pc + 1)) =? O_PUSH2)) ?;
  let? (pc, sp) := push_loop fuel (pc + 1) sp in
  lift (assert (op (code pc) =? O_PUSH3)) ?;
  update (keep_esp sp) ?; xret pc.

Definition O_PUSH2F : Sim W unit :=
  update (fun s =>
    let ftmp := Z.lor (Z.land (CPULONG Ofs_EFLAGS s) (not32 EFLAGS_CC)) (FlagSync_All (RFL s)) in
    let RETURN_MASK := Z.lor (Z.land 0xfff (not32 EFLAGS_IF)) eTSSMASK in
    set_dr 32 (Z.land ftmp (Z.lor RETURN_MASK EFLAGS_IF)) s).

(** How the loop of [O_POP1] ends: at the [O_POP3], or at an instruction that
    leaves [ESP] alone. *)
Inductive pop_end := PopDone (pc sp v : Z) | PopQuit (pc : Z).

(** What a popped value is used for besides a register; the next instruction,
    or the one at which a refused selector ends the block. *)
Definition pop_dest (pc v : Z) : Sim W (Z + Z) :=
  let ig := code pc in
  if op ig =? A_SR_SH4 then Gen_A_SR_SH4 ig v ?; xret (inr (pc + 1))
  else if op ig =? A_SR_PROT then
    let? P := Gen_A_SR_PROT ig v in
    update (fun s => s <| P0 := P |>) ?;
    if P =? u32 (-1) then xret (inr (pc + 1)) else xret (inl pc)
  else if op ig =? S_DI_op then
    let? m := peek mem_ref in Gen_S_DI ig m v ?; xret (inr (pc + 1))
  else xret (inr pc).

Fixpoint pop_loop (fuel : nat) (pc sp : Z) : Sim W pop_end :=
  match fuel with
  | O => lift (throw OutOfFuel)
  | S fuel =>
    let ig := code pc in
    let noreg := has (mode ig) MNOREG in
    let o := if noreg then 0 else p0 ig in
    let imm16 := if has (mode ig) MRETISP then p0 ig else 0 in
    let? stackm := peek (CPULONG Ofs_STACKM) in
    let sp := Z.land sp stackm in
    let? addr := peek (fun s => u32 (CPULONG Ofs_XSS s + sp)) in
    update (fun s => s <| currentIG := pc |>) ?;
    let w := if has (mode ig) (Z.lor DATA16 SEGREG) then 16 else 32 in
    let? v := rd w addr in
    (if noreg then xret tt else update (set_reg w o v)) ?;
    if negb noreg && (o =? Ofs_ESP) && negb (op (code (pc + 1)) =? O_POP2) then xret (PopQuit pc)
    else
      let sp := u32 (sp + (if has (mode ig) DATA16 then 2 else 4) + imm16) in
      let? r := pop_dest (pc + 1) v in
      match r with
      | inl pc => xret (PopQuit pc)
      | inr pc => if op (code pc) =? O_POP2 then pop_loop fuel pc sp else xret (PopDone pc sp v)
      end
  end.

(** [O_POP1] at [pc]: the index of the last instruction it has used. *)
Definition O_POP1 (fuel : nat) (pc : Z) : Sim W Z :=
  let? sp := peek (CPULONG Ofs_ESP) in
  lift (assert (op (code (pc + 1)) =? O_POP2)) ?;
  let? e := pop_loop fuel (pc + 1) sp in
  match e with
  | PopQuit pc => xret pc
  | PopDone pc sp v =>
    update (set_dr 32 v) ?;
    lift (assert (op (code pc) =? O_POP3)) ?;
    update (fun s => keep_esp (Z.land sp (CPULONG Ofs_STACKM s)) s) ?;
    xret pc
  end.

(** ** Bits *)

Definition find_bit (x : Z) : Z := if x =? 0 then -1 else Z.log2 (Z.land x (- x)).
Definition find_bit_r (x : Z) : Z := if x =? 0 then -1 else Z.log2 x.

Definition scan_bit (o1 o2 : Z) ig s : sim W :=
  let d := dr (if has (mode ig) DATA16 then 16 else 32) s in
  let d := u32 (if o1 =? 0x1c then find_bit d else find_bit_r d) in
  let s := set_dr 32 d s in
  if d =? u32 (-1) then s <| RFL ::= SET_ZF 1 |>
  else set_reg (if has (mode ig) DATA16 then 16 else 32) o2 d (s <| RFL ::= SET_ZF 0 |>).

Definition O_BITOP ig : Sim W unit :=
  let o1 := u8 (p0 ig) in
  let o2 := p1 ig in
  let w := if has (mode ig) DATA16 then 16 else 32 in
  let in_mem := negb (has (mode ig) RM_REG) && (o1 <? 0x20) in
  let sub := Z.land o1 (Z.lnot 0x18) in
  if (o1 =? 0x1c) || (o1 =? 0x1d) then update (scan_bit o1 o2 ig)
  else
    let? DR2 := peek (fun s => if 0x20 <=? o1 then o2 else reg w o2 s) in
    (if in_mem then
       update (fun s => s <| mem_ref ::= fun m => u32 (m + (if w =? 16 then 2 * Z.shiftr DR2 4 else 4 * Z.shiftr DR2 5)) |>) ?;
       let? m := peek mem_ref in
       let? v := rd w m in update (set_dr 32 v)
     else xret tt) ?;
    update (fun s => set_dr 32 (dr w s) s) ?;
    let DR2 := Z.land DR2 (w - 1) in
    (if (sub =? 0x03) || (sub =? 0x20) then
       update (fun s =>
         let d := DR1 s in
         let s := s <| RFL ::= SET_CF (Z.land (Z.shiftr d DR2) 1) |> in
         let k := Z.land o1 0x18 in
         if k =? 0x08 then set_dr 32 (Z.lor d (Z.shiftl 1 DR2)) s
         else if k =? 0x10 then set_dr 32 (Z.land d (not32 (Z.shiftl 1 DR2))) s
         else if k =? 0x18 then set_dr 32 (Z.lxor d (Z.shiftl 1 DR2)) s
         else s)
     else xret tt) ?;
    if in_mem && negb (o1 =? 0x03) then
      let? m := peek mem_ref in
      let? v := peek DR1 in wr w m v
    else xret tt.

(** ** String operations *)

Definition df s : Z := if has (CPUWORD Ofs_EFLAGS s) EFLAGS_DF then -1 else 1.

(** [while (i--)] over [n] elements of [w] bits, [step] bytes apart. *)
Fixpoint movs_loop (w step : Z) (n : nat) (dest src : Z) : Sim W (Z * Z) :=
  match n with
  | O => xret (dest, src)
  | S n =>
    let? v := rd w src in
    wr w dest v ?; movs_loop w step n (u32 (dest + step)) (u32 (src + step))
  end.

(** How many of [i] elements fit before SI or DI leaves its segment, [None]
    when the wrap splits one: the elements now and the rest. *)
Definition pieces (mode d i minofs : Z) : option (Z * Z) :=
  let bytesbefore := u32 ((if d =? -1 then i - 1 else i) * OPSIZE mode) in
  if minofs <? bytesbefore then
    if truth (Z.land minofs (OPSIZE mode - 1)) then None
    else
      let possible := minofs / OPSIZE mode + (if d <? 0 then 1 else 0) in
      Some (possible, u32 (i - possible))
  else Some (i, 0).

(** SI (or DI) after its partner has wrapped. *)
Definition slide_down (x minofs : Z) : Z := let x := u32 (x - minofs) in if 0 <? x then x - 1 else 0xffff.
Definition slide_up (x minofs : Z) : Z := Z.land (u32 (x + minofs)) 0xffff.

Definition misaligned : Sim W unit :=
  update (fun s => set_err EXCP0D_GPF s <| P0 := FindPC (currentIG s) |>).

(** The loop of [O_MOVS_MovD]: [DR2] is SI, [SR1] is DI, [AR2] the destination;
    the source of every piece is [mem_ref]. *)
Fixpoint movd_loop (fuel : nat) ig (i DR2 SR1 AR2 : Z) : Sim W unit :=
  match fuel with
  | O => lift (throw OutOfFuel)
  | S fuel =>
    let? d := peek df in
    if i =? 0 then xret tt
    else
      let minofs := if d =? -1 then Z.min SR1 DR2 else 0x10000 - Z.max SR1 DR2 in
      match (if has (mode ig) ADDR16 then pieces (mode ig) d i minofs else Some (i, 0)) with
      | None => misaligned
      | Some (i, rest) =>
        let? src := peek mem_ref in
        let? (AR2, _) := movs_loop (opwidth (mode ig)) (d * (opwidth (mode ig) / 8)) (Z.to_nat i) AR2 src in
        if rest =? 0 then xret tt
        else
          let '(DR2, SR1, AR2) :=
            if d =? -1 then
              let '(DR2, SR1, AR2) :=
                if SR1 =? minofs then (slide_down DR2 minofs, 0xffff, u32 (AR2 + 0x10000)) else (DR2, SR1, AR2) in
              if DR2 =? minofs then (0xffff, slide_down SR1 minofs, AR2) else (DR2, SR1, AR2)
            else
              let '(DR2, SR1, AR2) :=
                if SR1 =? 0x10000 - minofs then (slide_up DR2 minofs, 0, u32 (AR2 - 0x10000)) else (DR2, SR1, AR2) in
              if DR2 =? 0x10000 - minofs then (0, slide_up SR1 minofs, AR2) else (DR2, SR1, AR2) in
          movd_loop fuel ig rest DR2 SR1 AR2
      end
  end.

Definition rep_count ig s : Z :=
  if has (mode ig) (Z.lor MREP MREPNE) then reg (if has (mode ig) ADDR16 then 16 else 32) Ofs_ECX s else 1.

Definition O_MOVS_MovD ig : Sim W unit :=
  let? s := peek id in
  let w := if has (mode ig) ADDR16 then 16 else 32 in
  let i := rep_count ig s in
  movd_loop (S (Z.to_nat i)) ig i (CPUWORD Ofs_ESI s) (CPUWORD Ofs_EDI s) (u32 (CPULONG Ofs_XES s + reg w Ofs_EDI s)).

Fixpoint lods_loop (w step : Z) (n : nat) (addr : Z) : Sim W unit :=
  match n with
  | O => xret tt
  | S n => let? v := rd w addr in update (set_dr w v) ?; lods_loop w step n (u32 (addr + step))
  end.

Definition O_MOVS_LodD ig : Sim W unit :=
  let? s := peek id in
  let w := opwidth (mode ig) in
  lods_loop w (df s * (w / 8)) (Z.to_nat (rep_count ig s)) (mem_ref s).

Fixpoint stos_loop (w step : Z) (n : nat) (addr : Z) : Sim W Z :=
  match n with
  | O => xret addr
  | S n => let? v := peek (dr w) in wr w addr v ?; stos_loop w step n (u32 (addr + step))
  end.

(** The loop of [O_MOVS_StoD]: [SR1] is DI, [AR1] the address. *)
Fixpoint stod_loop (fuel : nat) ig (i SR1 AR1 : Z) : Sim W unit :=
  match fuel with
  | O => lift (throw OutOfFuel)
  | S fuel =>
    let? d := peek df in
    let minofs := if d =? -1 then SR1 else 0x10000 - SR1 in
    let split := has (mode ig) ADDR16 && truth i in
    if split && (minofs <? u32 ((if d =? -1 then i - 1 else i) * OPSIZE (mode ig))) && truth (Z.land AR1 (OPSIZE (mode ig) - 1))
    then misaligned
    else
      let '(i, rest) :=
        if split && (minofs <? u32 ((if d =? -1 then i - 1 else i) * OPSIZE (mode ig))) then
          let possible := minofs / OPSIZE (mode ig) + (if d <? 0 then 1 else 0) in
          (possible, u32 (i - possible))
        else (i, 0) in
      let? AR1 := stos_loop (opwidth (mode ig)) (d * (opwidth (mode ig) / 8)) (Z.to_nat i) AR1 in
      if rest =? 0 then xret tt
      else stod_loop fuel ig rest (if d =? -1 then 0xffff else 0) (u32 (AR1 - 0x10000 * d))
  end.

Definition O_MOVS_StoD ig : Sim W unit :=
  let? s := peek id in
  let i := rep_count ig s in
  stod_loop (S (Z.to_nat i)) ig i (CPUWORD Ofs_EDI s) (mem_ref s).

(** One comparison of a repeated SCAS or CMPS. *)
Definition compare (w S1 S2 : Z) s : sim W := s <| RFL ::= FlagHandleSub S1 S2 (sx w (S1 - S2)) w |>.

(** [while (i && z == k)]: the count and the offset it ends with. *)
Fixpoint scas_loop (w step amask addr : Z) (k : bool) (n : nat) (di : Z) : Sim W (nat * Z) :=
  match n with
  | O => xret (n, di)
  | S m =>
    let? S1 := peek (dr w) in
    let? S2 := rd w (u32 (addr + di)) in
    update (compare w S1 S2) ?;
    let di := Z.land (u32 (di + step)) amask in
    let? z := peek (fun s => res (RFL s) =? 0) in
    if Bool.eqb z k then scas_loop w step amask addr k m di else xret (m, di)
  end.

Definition O_MOVS_ScaD ig : Sim W unit :=
  let? s := peek id in
  let w := opwidth (mode ig) in
  let aw := if has (mode ig) ADDR16 then 16 else 32 in
  let i := reg aw Ofs_ECX s in
  let di := reg aw Ofs_EDI s in
  if i =? 0 then xret tt
  else
    let k := has (mode ig) MREP in
    let? (i, di) := scas_loop w (df s * (w / 8)) (2 ^ aw - 1) (u32 (mem_ref s - di)) k (Z.to_nat i) di in
    update (fun s => set_reg aw Ofs_EDI di (set_reg aw Ofs_ECX (Z.of_nat i) s)).

Fixpoint cmps_loop (w step amask addr1 addr2 : Z) (k : bool) (n : nat) (si di : Z) : Sim W (nat * Z * Z) :=
  match n with
  | O => xret (n, si, di)
  | S m =>
    let? S1 := rd w (u32 (addr2 + si)) in
    let? S2 := rd w (u32 (addr1 + di)) in
    update (compare w S1 S2) ?;
    let si := Z.land (u32 (si + step)) amask in
    let di := Z.land (u32 (di + step)) amask in
    let? z := peek (fun s => res (RFL s) =? 0) in
    if Bool.eqb z k then cmps_loop w step amask addr1 addr2 k m si di else xret (m, si, di)
  end.

Definition O_MOVS_CmpD ig : Sim W unit :=
  let? s := peek id in
  let w := opwidth (mode ig) in
  let aw := if has (mode ig) ADDR16 then 16 else 32 in
  let addr1 := CPULONG Ofs_XES s in
  let di := reg aw Ofs_EDI s in
  if negb (has (mode ig) (Z.lor MREP MREPNE)) then
    let? S2 := rd w (u32 (addr1 + di)) in update (compare w (dr w s) S2)
  else
    let i := reg aw Ofs_ECX s in
    if i =? 0 then xret tt
    else
      let k := has (mode ig) MREP in
      let si := reg aw Ofs_ESI s in
      let? (i, si, di) :=
        cmps_loop w (df s * (w / 8)) (2 ^ aw - 1) addr1 (u32 (mem_ref s - si)) k (Z.to_nat i) si di in
      update (fun s => set_reg aw Ofs_ECX (Z.of_nat i) (set_reg aw Ofs_EDI di (set_reg aw Ofs_ESI si s))).

(** Advance SI and DI past a string operation. *)
Definition O_MOVS_SavA ig s : sim W :=
  let rep := has (mode ig) (Z.lor MREP MREPNE) in
  if negb rep || negb (has (mode ig) MREPCOND) then
    let aw := if has (mode ig) ADDR16 then 16 else 32 in
    let count := if rep then CPULONG Ofs_ECX s else 1 in
    let step := signed 8 (CPUBYTE (Ofs_DF_INCREMENTS + OPSIZEBIT (mode ig)) s) in
    let advance o s := set_reg aw o (reg aw o s + step mod 2 ^ aw * (count mod 2 ^ aw)) s in
    let s := if has (mode ig) MOVSSRC then advance Ofs_ESI s else s in
    let s := if has (mode ig) MOVSDST then advance Ofs_EDI s else s in
    if rep then set_reg aw Ofs_ECX 0 s else s
  else s.

End mem.
