(* ===== verification/SimExec.v ===== *)
(** * The interpreter loop (Gen_sim and Exec_sim, simx86/codegen-sim.c)

    [exec_op] is the switch of [Gen_sim]: it runs the instruction at [pc] and
    gives the index of the next one. *)

From stdpp Require Import base numbers list.
From Stdlib Require Import ZArith Lia.
From S2P Require Import Prelude Machine SimFlags SimCpu SimAlu SimMem.

Local Open Scope Z_scope.

Definition EXCP10_COPR : Z := 17.

Section exec.
Context {W : Type} `{Bus W}.
Context (code : Z -> IGen) (FindPC : Z -> Z) (eTSSMASK : Z).
(** Not modelled: selectors in protected mode, the FPU, the rare instructions,
    and the index of the block translated for a guest address. *)
Context (SetSegProt : Z -> Z -> Sim W unit)
        (Fp87_op : Z -> Z -> Z -> Sim W unit)
        (Sim_helper : Z -> Z -> Z -> Z -> Z -> Z -> Sim W (Z * Z))
        (FindGoodNode : Z -> Sim W (option Z)).
Implicit Types (ig : IGen) (s : sim W).

Definition exit_pending s : bool := truth (CPUWORD 0x72 s).
Definition set_P0 (v : Z) s : sim W := s <| P0 := u32 v |>.
Definition set_key (v : Z) s : sim W := set_LONG Ofs_KEY v s.

Definition exec_A_SR_PROT ig : Sim W unit :=
  let? v := peek (dr 16) in
  let? P := Gen_A_SR_PROT SetSegProt ig v in update (set_P0 P).

Definition O_FOP ig : Sim W unit :=
  let? m := peek mem_ref in
  Fp87_op (u8 (p0 ig)) (p1 ig) m ?;
  update (fun s => if TheCPU_err s =? EXCP10_COPR then set_P0 (FindPC (currentIG s)) s else s).

Definition O_SIM ig : Sim W unit :=
  let? s := peek id in
  let? (data, flags) := Sim_helper (mem_ref s) (DR1 s) (mode ig) (FlagSync_All (RFL s)) (p0 ig) (p1 ig) in
  update (fun s =>
    let s := set_dr 32 data s <| RFL := FlagSync_RFL flags |> in
    if 0 <? signed 32 (TheCPU_err s) then set_P0 (p2 ig) s else s).

(** ** Jumps *)

(** The end of a block at the instruction [pc]: go on in a linked block, or
    return the guest address. *)
Definition link_or_return (check : bool) (pc : Z) : Sim W Z :=
  let ig := code pc in
  let? pending := peek exit_pending in
  if check && has (mode ig) CKSIGN && pending then
    update (fun s => set_P0 (p0 ig) (set_key (p0 ig) s)) ?; xret (pc + 1)
  else if has (mode ig) MLINK then xret (link ig)
  else update (set_P0 (p0 ig)) ?; xret (pc + 1).

Definition JMP_TAILCODE ig : sim W -> sim W := fun s =>
  let s := set_P0 (p0 ig) s in
  if has (mode ig) MPATCH then s else set_key (P0 s) s.

Definition JMP_INDIRECT (pc : Z) : Sim W Z :=
  let ig := code pc in
  let? ePC := peek (fun s => u32 (LONG_CS s + (if has (mode ig) DATA16 then dr 16 s else DR1 s))) in
  update (set_key ePC) ?;
  let? G := FindGoodNode ePC in
  let? pending := peek exit_pending in
  match G with
  | Some addr =>
    if negb (has (mode ig) MSSTP) && negb (has (mode ig) CKSIGN && pending) then xret addr
    else update (set_P0 ePC) ?; xret (pc + 1)
  | None => update (set_P0 ePC) ?; xret (pc + 1)
  end.

(** The condition of [JF_LINK] and [JB_LINK]: Jcc 70..7f, JCXZ e3. *)
Definition jump_taken ig s : bool :=
  let opc := p0 ig in
  if (0x70 <=? opc) && (opc <=? 0x7f) then condition (opc - 0x70) (RFL s)
  else if opc =? 0xe3 then reg (if has (mode ig) ADDR16 then 16 else 32) Ofs_ECX s =? 0
  else false.

Definition JB_LINK (pc : Z) : Sim W Z :=
  let? t := peek (jump_taken (code pc)) in link_or_return true (pc + 1 + of_bool t).

Definition JLOOP_LINK (pc : Z) : Sim W Z :=
  let ig := code pc in
  let opc := p0 ig in
  let w := if has (mode ig) ADDR16 then 16 else 32 in
  update (fun s => set_reg w Ofs_ECX (reg w Ofs_ECX s - 1) s) ?;
  let? t := peek (fun s =>
    let more := truth (reg w Ofs_ECX s) in
    if opc =? 0xe2 then more
    else if opc =? 0xe1 then more && is_zf_set (RFL s)
    else if opc =? 0xe0 then more && negb (is_zf_set (RFL s))
    else false) in
  link_or_return false (pc + 1 + of_bool t).

(** ** The switch *)

Definition pure_op ig : option (sim W -> sim W) :=
  match op ig with
  | 10 => Some (L_REG ig) | 11 => Some (S_REG ig) | 12 => Some (L_REG2REG ig)
  | 13 => Some (L_IMM ig) | 14 => Some (L_IMM_R1 ig) | 16 => Some (S_DI_R ig)
  | 17 => Some (L_MOVZS ig) | 21 => Some L_CR0 | 24 => Some id
  | 30 => Some (O_ADD_R ig) | 31 => Some (O_OR_R ig) | 32 => Some (O_ADC_R ig)
  | 33 => Some (O_SBB_R ig) | 34 => Some (O_AND_R ig) | 35 => Some (O_SUB_R ig)
  | 36 => Some (O_XOR_R ig) | 37 => Some (O_CMP_R ig) | 38 => Some (O_INC_R ig)
  | 39 => Some (O_DEC_R ig) | 40 => Some (O_SBB_FR ig) | 41 => Some (O_SUB_FR ig)
  | 42 => Some (O_CMP_FR ig) | 43 => Some (O_CBWD ig) | 44 => Some (O_XCHG ig)
  | 45 => Some (O_XCHG_R ig) | 46 => Some (O_INC ig) | 47 => Some (O_DEC ig)
  | 48 => Some (O_NOT ig) | 49 => Some (O_NEG ig) | 50 => Some (O_MUL ig)
  | 51 => Some (O_IMUL ig) | 54 => Some (O_ROL ig) | 55 => Some (O_ROR ig)
  | 56 => Some (O_RCL ig) | 57 => Some (O_RCR ig) | 58 => Some (O_SHL ig)
  | 59 => Some (O_SHR ig) | 60 => Some (O_SAR ig) | 64 => Some (O_SLAHF ig)
  | 65 => Some (O_SETFL ig) | 66 => Some (O_BSWAP ig) | 67 => Some (O_SETCC ig)
  | 69 => Some (O_SHFD ig) | 70 => Some (O_CLEAR ig) | 71 => Some (O_TEST ig)
  | 72 => Some (O_SBSELF ig) | 73 => Some (O_CMPXCHG ig) | 75 => Some (O_ADD_FR ig)
  | 76 => Some (O_OR_FR ig) | 77 => Some (O_ADC_FR ig) | 78 => Some (O_AND_FR ig)
  | 79 => Some (O_XOR_FR ig) | 102 => Some (O_MOVS_SavA ig) | 112 => Some (JMP_TAILCODE ig)
  | _ => None
  end.

(** Instructions that run to the next one but use memory or can leave. *)
Definition step_op ig : option (Sim W unit) :=
  match op ig with
  | 8 => Some (let? v := peek (dr 16) in Gen_A_SR_SH4 ig v)
  | 9 => Some (exec_A_SR_PROT ig)
  | 15 => Some (S_DI_IMM FindPC ig) | 18 => Some (L_LXS1 FindPC ig) | 19 => Some (L_LXS2 FindPC ig)
  | 22 => Some (L_DI_R1 FindPC ig) | 23 => Some (S_DI FindPC ig)
  | 52 => Some (lift (O_DIV ig)) | 53 => Some (lift (O_IDIV ig)) | 61 => Some (lift (O_OPAX ig))
  | 62 => Some (O_FOP ig) | 68 => Some (O_BITOP FindPC ig) | 87 => Some (O_PUSH2F eTSSMASK)
  | 100 => Some (O_SIM ig)
  | 101 => Some (O_MOVS_MovD FindPC ig) | 103 => Some (O_MOVS_LodD FindPC ig)
  | 104 => Some (O_MOVS_StoD FindPC ig) | 105 => Some (O_MOVS_ScaD FindPC ig)
  | 106 => Some (O_MOVS_CmpD FindPC ig) | 107 => Some (xret tt)
  | _ => None
  end.

Definition exec_op (fuel : nat) (pc : Z) : Sim W Z :=
  let ig := code pc in
  match pure_op ig with
  | Some f => update f ?; xret (pc + 1)
  | None =>
    match step_op ig with
    | Some c => c ?; xret (pc + 1)
    | None =>
      let o := op ig in
      if o =? 85 then let? pc := O_PUSH1 code FindPC fuel pc in xret (pc + 1)
      else if o =? 89 then let? pc := O_POP1 code FindPC SetSegProt fuel pc in xret (pc + 1)
      else if o =? 113 then JMP_INDIRECT pc
      else if o =? 114 then link_or_return true pc
      else if (o =? 115) || (o =? 116) then JB_LINK pc
      else if o =? 117 then JLOOP_LINK pc
      else lift (throw LeaveDos)
    end
  end.

(** ** The loop *)

(** The address generation before an instruction: [None] when it faults. *)
Definition gen_address (pc : Z) : Sim W (option Z) :=
  let ig := code pc in
  if op ig <=? 7 then
    update (fun s => let '(m, s) := AddrGen_sim ig s in s <| mem_ref := m |>) ?;
    let? e := peek TheCPU_err in
    if e =? EXCP0D_GPF then
      update (set_P0 (if op ig =? 6 then p1 ig else FindPC pc)) ?; xret None
    else xret (Some (pc + 1))
  else xret (Some pc).

Fixpoint gen_loop (fuel : nat) (pc : Z) : Sim W unit :=
  match fuel with
  | O => lift (throw OutOfFuel)
  | S fuel =>
    let? a := gen_address pc in
    match a with
    | None => xret tt
    | Some pc =>
      update (fun s => s <| currentIG := pc |>) ?;
      let? pc := exec_op fuel pc in
      let? P := peek P0 in
      if P =? u32 (-1) then gen_loop fuel pc else xret tt
    end
  end.

Definition Gen_sim (fuel : nat) (pc : Z) : Sim W Z :=
  update (fun s => s <| mem_ref := 0 |> <| P0 := u32 (-1) |>) ?;
  gen_loop fuel pc ?; peek P0.

Definition Exec_sim (fuel : nat) (SeqStart : Z) : Sim W Z :=
  update (fun s => s <| RFL := FlagSync_RFL (Z.land (CPULONG Ofs_EFLAGS s) EFLAGS_CC) |>) ?;
  let? P := Gen_sim fuel SeqStart in
  update (fun s =>
    let s := set_LONG Ofs_EFLAGS (Z.lor (Z.land (CPULONG Ofs_EFLAGS s) (not32 EFLAGS_CC)) (FlagSync_All (RFL s))) s in
    if TheCPU_err s =? 0 then s else set_key P s) ?;
  xret P.

End exec.
