(* ===== verification/SimAluSpec.v ===== *)
(** * The arithmetic of the simulated CPU is that of the x86

    Results, flags and what is left alone, for every operand width. *)

From stdpp Require Import base numbers list.
From Stdlib Require Import ZArith Lia.
From S2P Require Import Prelude Machine SimFlags SimFlagsSpec SimCpu SimAlu.

Local Open Scope Z_scope.

Section regs.
Context {W : Type}.
Implicit Types (ig : IGen) (s : sim W).

(** ** Registers *)

Lemma cells_width w : width w -> 8 * Z.of_nat (cells w) = w /\ Z.of_nat (cells w) = w / 8.
Proof. by intros [-> | [-> | ->]]. Qed.

Lemma reg_range w o s : width w -> bytes_ok (cpu s) -> 0 <= reg w o s < 2 ^ w.
Proof.
  intros Hw Hs. unfold reg. pose proof (load_range (cells w) (cpu s) (cell w o) Hs) as Hr.
  by rewrite (proj1 (cells_width w Hw)) in Hr.
Qed.

Lemma reg_set_same w o v s : width w -> reg w o (set_reg w o v s) = v mod 2 ^ w.
Proof. intros Hw. unfold reg, set_reg. cbn [cpu upd]. by rewrite load_store, (proj1 (cells_width w Hw)). Qed.

(** Two registers share no byte. *)
Definition apart (w o w' o' : Z) : Prop :=
  cell w o + w / 8 <= cell w' o' \/ cell w' o' + w' / 8 <= cell w o.

Lemma reg_set_other w o w' o' v s :
  width w -> width w' -> apart w o w' o' -> reg w o (set_reg w' o' v s) = reg w o s.
Proof.
  intros Hw Hw' Ha. unfold reg, set_reg. cbn [cpu upd]. apply load_store_disjoint.
  by rewrite (proj2 (cells_width w Hw)), (proj2 (cells_width w' Hw')).
Qed.

Lemma set_reg_bytes w o v s : bytes_ok (cpu s) -> bytes_ok (cpu (set_reg w o v s)).
Proof. intros H. by apply store_ok. Qed.

(** ** The working register *)

Lemma put_low_low w v r : 0 <= w -> put_low w v r mod 2 ^ w = v mod 2 ^ w.
Proof.
  intros Hw. unfold put_low. assert (0 < 2 ^ w) by lia.
  rewrite Zplus_mod_idemp_r, (Z.mod_eq r) by lia.
  replace (r - (r - 2 ^ w * (r / 2 ^ w)) + v) with (v + r / 2 ^ w * 2 ^ w) by lia. by rewrite Z.mod_add by lia.
Qed.

Lemma put_low_high w v r : 0 <= w -> put_low w v r / 2 ^ w = r / 2 ^ w.
Proof.
  intros Hw. unfold put_low. assert (0 < 2 ^ w) by lia. rewrite (Z.mod_eq r) by lia.
  replace (r - (r - 2 ^ w * (r / 2 ^ w)) + v mod 2 ^ w) with (v mod 2 ^ w + r / 2 ^ w * 2 ^ w) by lia.
  rewrite Z.div_add by lia. rewrite Z.div_small by (apply Z.mod_pos_bound; lia). lia.
Qed.

Lemma put_low_word w v r : width w -> word r -> word (put_low w v r).
Proof.
  intros Hw Hr. assert (0 <= w <= 32) by (unfold width in Hw; lia). assert (0 < 2 ^ w) by lia.
  pose proof (put_low_low w v r ltac:(lia)) as Hl. pose proof (put_low_high w v r ltac:(lia)) as Hh.
  pose proof (Z.mod_pos_bound v (2 ^ w) ltac:(lia)). pose proof (Z.div_mod (put_low w v r) (2 ^ w) ltac:(lia)) as E.
  rewrite Hl, Hh in E. unfold word in *. pose proof (Z.div_pos r (2 ^ w) ltac:(lia) ltac:(lia)).
  assert (r / 2 ^ w <= 2 ^ (32 - w) - 1) as Hq.
  { assert (r / 2 ^ w < 2 ^ (32 - w)); [|lia]. apply Z.div_lt_upper_bound; [lia|].
    rewrite <- Z.pow_add_r by lia. replace (w + (32 - w)) with 32 by lia. lia. }
  assert (2 ^ w * 2 ^ (32 - w) = 2 ^ 32) as Ep by (rewrite <- Z.pow_add_r by lia; f_equal; lia).
  split; [nia|]. rewrite E. nia.
Qed.

Lemma dr_range w s : 0 <= w -> 0 <= dr w s < 2 ^ w.
Proof. intros Hw. apply Z.mod_pos_bound. lia. Qed.

Lemma dr_set w v s : 0 <= w -> dr w (set_dr w v s) = v mod 2 ^ w.
Proof. intros Hw. unfold dr, set_dr. cbn [DR1 upd]. by apply put_low_low. Qed.

Lemma opwidth_ok m : width (opwidth m).
Proof. unfold opwidth, width. destruct (has _ _); [lia|]. destruct (has _ _); lia. Qed.

Lemma width_pos w : width w -> 8 <= w <= 32.
Proof. unfold width. lia. Qed.

(** ** Well-formed states *)

Record sim_ok s : Prop := {
  ok_cpu : bytes_ok (cpu s);
  ok_flags : flg_ok (RFL s);
  ok_dr : word (DR1 s);
}.

Lemma ok_set_reg w o v s : sim_ok s -> sim_ok (set_reg w o v s).
Proof. intros []. constructor; [by apply set_reg_bytes|done..]. Qed.

Lemma ok_set_dr w v s : width w -> sim_ok s -> sim_ok (set_dr w v s).
Proof. intros Hw []. constructor; [done..|]. by apply put_low_word. Qed.

Lemma ok_flags_upd f s : flg_ok (f (RFL s)) -> sim_ok s -> sim_ok (flags f s).
Proof. intros Hf []. by constructor. Qed.

(** What an operation on the working register changes: its low [w] bits and
    the flags. *)
Definition only_dr (w : Z) s s' : Prop :=
  DR1 s' / 2 ^ w = DR1 s / 2 ^ w /\ cpu s' = cpu s /\ int_revectored s' = int_revectored s /\
  mem_ref s' = mem_ref s /\ P0 s' = P0 s /\ currentIG s' = currentIG s /\ world s' = world s.

(** What an operation on the register [o] changes: its bytes and the flags. *)
Definition only_reg (w o : Z) s s' : Prop :=
  (forall b, b < cell w o \/ cell w o + w / 8 <= b -> cpu s' b = cpu s b) /\
  DR1 s' = DR1 s /\ int_revectored s' = int_revectored s /\
  mem_ref s' = mem_ref s /\ P0 s' = P0 s /\ currentIG s' = currentIG s /\ world s' = world s.

Lemma only_dr_set w v f s : 0 <= w -> only_dr w s (flags f (set_dr w v s)).
Proof. intros Hw. split; [by apply put_low_high|done]. Qed.

Lemma only_reg_set w o v f s : width w -> only_reg w o s (flags f (set_reg w o v s)).
Proof.
  intros Hw. split; [|done]. intros b Hb. unfold flags, set_reg. cbn [cpu upd]. apply store_miss.
  by rewrite (proj2 (cells_width w Hw)).
Qed.

Definition cf s : bool := cf_of (RFL s).

Lemma carry_in s : sim_ok s -> is_cf_set (RFL s) = of_bool (cf s).
Proof. intros []. by apply is_cf_set_eq. Qed.

Lemma of_bool_range b : 0 <= of_bool b <= 1.
Proof. destruct b; simpl; lia. Qed.

(** ** Arithmetic *)

Inductive arith := ADD | ADC | SUB | SBB | CMP.

(** The reference. *)
Definition arith_value (op : arith) (a b : Z) (c : bool) : Z :=
  match op with
  | ADD => a + b | ADC => a + b + of_bool c
  | SUB | CMP => a - b | SBB => a - b - of_bool c
  end.

Definition arith_flags (op : arith) (w a b : Z) (c : bool) : Z :=
  match op with
  | ADD => add_flags w a b 0 | ADC => add_flags w a b (of_bool c)
  | SUB | CMP => sub_flags w a b 0 | SBB => sub_flags w a b (of_bool c)
  end.

Definition arith_R (op : arith) : IGen -> sim W -> sim W :=
  match op with ADD => O_ADD_R | ADC => O_ADC_R | SUB => O_SUB_R | SBB => O_SBB_R | CMP => O_CMP_R end.

Definition arith_FR (op : arith) : IGen -> sim W -> sim W :=
  match op with ADD => O_ADD_FR | ADC => O_ADC_FR | SUB => O_SUB_FR | SBB => O_SBB_FR | CMP => O_CMP_FR end.

Definition arith_handle (op : arith) (a b : Z) (c : bool) (w : Z) : flgtmp -> flgtmp :=
  match op with
  | ADD | ADC => FlagHandleAdd a b (sx w (arith_value op a b c)) w
  | _ => FlagHandleSub a b (sx w (arith_value op a b c)) w
  end.

Lemma arith_handle_correct op a b c w f :
  width w -> 0 <= a < 2 ^ w -> 0 <= b < 2 ^ w ->
  flg_ok (arith_handle op a b c w f) /\ FlagSync_All (arith_handle op a b c w f) = arith_flags op w a b c.
Proof.
  intros Hw Ha Hb. pose proof (of_bool_range c) as Hc.
  pose proof (add_view w a b 0 f Hw Ha Hb ltac:(lia)) as Hadd. pose proof (add_view w a b (of_bool c) f Hw Ha Hb Hc) as Hadc.
  pose proof (sub_view w a b 0 f Hw Ha Hb ltac:(lia)) as Hsub. pose proof (sub_view w a b (of_bool c) f Hw Ha Hb Hc) as Hsbb.
  rewrite Z.add_0_r in Hadd. rewrite Z.sub_0_r in Hsub. by destruct op.
Qed.

Lemma arith_R_eq op ig s :
  sim_ok s ->
  let w := opwidth (mode ig) in
  arith_R op ig s =
  flags (arith_handle op (dr w s) (src_R w ig s) (cf s) w)
    (if op is CMP then s else set_dr w (arith_value op (dr w s) (src_R w ig s) (cf s)) s).
Proof.
  intros Hs w. destruct op; cbn [arith_R]; unfold O_ADD_R, O_ADC_R, O_SUB_R, O_SBB_R, O_CMP_R;
    rewrite ?carry_in by done; done.
Qed.

Lemma arith_FR_eq op ig s :
  sim_ok s ->
  let w := opwidth (mode ig) in
  let a := reg w (p0 ig) s in
  arith_FR op ig s =
  flags (arith_handle op a (src_FR w ig s) (cf s) w)
    (if op is CMP then s else set_reg w (p0 ig) (arith_value op a (src_FR w ig s) (cf s)) s).
Proof.
  intros Hs w a. destruct op; cbn [arith_FR]; unfold O_ADD_FR, O_ADC_FR, O_SUB_FR, O_SBB_FR, O_CMP_FR;
    rewrite ?carry_in by done; done.
Qed.

Lemma src_R_range w ig s : width w -> sim_ok s -> 0 <= src_R w ig s < 2 ^ w.
Proof.
  intros Hw []. unfold src_R. destruct (has _ _); [|by apply reg_range].
  apply Z.mod_pos_bound. pose proof (width_pos w Hw). lia.
Qed.

Lemma src_FR_range w ig s : width w -> sim_ok s -> 0 <= src_FR w ig s < 2 ^ w.
Proof.
  intros Hw []. pose proof (width_pos w Hw). unfold src_FR.
  destruct (has _ _); [apply Z.mod_pos_bound|apply dr_range]; lia.
Qed.

(** C30: ADD, ADC, SUB, SBB and CMP on the working register give, for every
    operand width, the result and all six flags of the x86 definition, and
    change nothing else. *)
Theorem arith_R_correct op ig s :
  sim_ok s ->
  let w := opwidth (mode ig) in
  let a := dr w s in
  let b := src_R w ig s in
  let s' := arith_R op ig s in
  sim_ok s' /\ only_dr w s s' /\
  dr w s' = (if op is CMP then a else arith_value op a b (cf s) mod 2 ^ w) /\
  FlagSync_All (RFL s') = arith_flags op w a b (cf s).
Proof.
  intros Hs w a b s'. pose proof (opwidth_ok (mode ig)) as Hw. fold w in Hw. pose proof (width_pos w Hw).
  destruct (arith_handle_correct op a b (cf s) w (RFL s) Hw) as [Hok Hfl];
    [apply dr_range; lia|by apply src_R_range|].
  unfold s'. rewrite arith_R_eq by done. fold w a b.
  destruct op; (split; [apply ok_flags_upd; [done|]; try apply ok_set_dr; done|]);
    (split; [by (apply only_dr_set; lia) || done|]); (split; [|exact Hfl]); try (apply dr_set; lia); done.
Qed.

(** Arithmetic on a register *)
Theorem arith_FR_correct op ig s :
  sim_ok s ->
  let w := opwidth (mode ig) in
  let a := reg w (p0 ig) s in
  let b := src_FR w ig s in
  let s' := arith_FR op ig s in
  sim_ok s' /\ only_reg w (p0 ig) s s' /\
  reg w (p0 ig) s' = (if op is CMP then a else arith_value op a b (cf s) mod 2 ^ w) /\
  FlagSync_All (RFL s') = arith_flags op w a b (cf s).
Proof.
  intros Hs w a b s'. pose proof (opwidth_ok (mode ig)) as Hw. fold w in Hw. pose proof (width_pos w Hw).
  destruct (arith_handle_correct op a b (cf s) w (RFL s) Hw) as [Hok Hfl];
    [apply reg_range; [done|apply Hs]|by apply src_FR_range|].
  unfold s'. rewrite arith_FR_eq by done. fold w a b.
  destruct op; (split; [apply ok_flags_upd; [done|]; try apply ok_set_reg; done|]);
    (split; [by (apply only_reg_set; done) || done|]); (split; [|exact Hfl]); try (by apply reg_set_same); done.
Qed.

(** ** Conditions after a comparison *)

(** What the sixteen conditions mean for the operands of the comparison. *)
Definition relation (cc w a b : Z) : bool :=
  let sa := signed w a in
  let sb := signed w b in
  nth (Z.to_nat cc)
    [negb (fits w (sa - sb)); fits w (sa - sb); a <? b; b <=? a; a =? b; negb (a =? b); a <=? b; b <? a;
     Z.testbit (a - b) (w - 1); negb (Z.testbit (a - b) (w - 1)); parity_even (a - b); negb (parity_even (a - b));
     sa <? sb; sb <=? sa; sa <=? sb; sb <? sa] false.

Lemma condition_flags cc f :
  flg_ok f ->
  condition cc f =
  nth (Z.to_nat cc)
    [vf_of f; negb (vf_of f); cf_of f; negb (cf_of f); zf_of f; negb (zf_of f);
     cf_of f || zf_of f; negb (cf_of f) && negb (zf_of f); sf_of f; negb (sf_of f); pf_of f; negb (pf_of f);
     xorb (sf_of f) (vf_of f); negb (xorb (sf_of f) (vf_of f)); xorb (sf_of f) (vf_of f) || zf_of f;
     negb (xorb (sf_of f) (vf_of f)) && negb (zf_of f)] false.
Proof.
  intros Hf. unfold condition, is_sf_set, is_pf_set, is_zf_set.
  rewrite is_of_set_eq, is_cf_set_eq, FlagSync_S_eq, FlagSync_P_eq by done.
  assert (forall b, truth (of_bool b) = b) as Ht by (by intros []).
  assert (forall b, truth (of_bool b * EFLAGS_SF) = b) as Hts by (by intros []).
  assert (forall b, truth (of_bool b * EFLAGS_PF) = b) as Htp by (by intros []).
  by rewrite !Ht, Hts, Htp.
Qed.

(** The sign of a difference, corrected by its overflow. *)
Lemma signed_less w a b :
  1 <= w ->
  xorb (Z.testbit (a - b) (w - 1)) (negb (fits w (signed w a - signed w b))) = (signed w a <? signed w b).
Proof.
  intros Hw. rewrite sign_bit by done.
  assert (signed w (a - b) = signed w (signed w a - signed w b)) as ->.
  { apply signed_congr. rewrite Zminus_mod, <- (signed_mod w a), <- (signed_mod w b), <- Zminus_mod by done. done. }
  pose proof (signed_range w a Hw). pose proof (signed_range w b Hw).
  set (d := signed w a - signed w b) in *.
  assert (2 ^ w = 2 * 2 ^ (w - 1)) as E by (rewrite <- Z.pow_succ_r by lia; f_equal; lia).
  assert ((signed w a <? signed w b) = (d <? 0)) as -> by (unfold d; zbool; done || lia).
  unfold fits. destruct (Z.leb_spec (- 2 ^ (w - 1)) d); [destruct (Z.ltb_spec d (2 ^ (w - 1)))|]; simpl.
  - rewrite signed_small by lia. apply xorb_false_r.
  - rewrite <- (signed_add w d (-1)) by done. rewrite signed_small by lia. zbool; done || lia.
  - rewrite <- (signed_add w d 1) by done. rewrite signed_small by lia. zbool; done || lia.
Qed.

Lemma sub_zero w a b : 0 <= a < 2 ^ w -> 0 <= b < 2 ^ w -> ((a - b) mod 2 ^ w =? 0) = (a =? b).
Proof.
  intros Ha Hb. destruct (Z.eqb_spec a b) as [->|Hne]; [by rewrite Z.sub_diag, Z.mod_0_l by lia|].
  apply Z.eqb_neq. intros H0. apply Z.mod_divide in H0 as [k Hk]; [|lia]. assert (k = 0) by nia. lia.
Qed.

Lemma signed_equal w a b : 1 <= w -> 0 <= a < 2 ^ w -> 0 <= b < 2 ^ w -> (signed w a =? signed w b) = (a =? b).
Proof.
  intros Hw Ha Hb. destruct (Z.eqb_spec a b) as [->|Hne]; [apply Z.eqb_refl|]. apply Z.eqb_neq. intros E.
  apply (f_equal (fun x => x mod 2 ^ w)) in E. rewrite !signed_mod, !Z.mod_small in E by done. done.
Qed.

(** After a comparison each of the sixteen conditions, read from the lazy
    flags, is the signed or unsigned relation of the operands that it stands
    for. *)
Theorem cmp_condition cc ig s :
  sim_ok s -> 0 <= cc < 16 ->
  let w := opwidth (mode ig) in
  condition cc (RFL (O_CMP_R ig s)) = relation cc w (dr w s) (src_R w ig s).
Proof.
  intros Hs Hcc w. pose proof (opwidth_ok (mode ig)) as Hw. fold w in Hw. pose proof (width_pos w Hw).
  pose proof (dr_range w s ltac:(lia)) as Ha. pose proof (src_R_range w ig s Hw Hs) as Hb.
  destruct (arith_handle_correct CMP (dr w s) (src_R w ig s) (cf s) w (RFL s) Hw Ha Hb) as [Hok Hfl].
  pose proof (arith_R_eq CMP ig s Hs) as E. cbn [arith_R] in E. fold w in E. rewrite E. unfold flags. cbn [RFL upd].
  rewrite condition_flags by done. rewrite FlagSync_All_eq in Hfl by done.
  unfold arith_flags, sub_flags, view in Hfl. rewrite !Z.add_0_r, !Z.sub_0_r in Hfl.
  apply eflags_inj in Hfl as (-> & -> & _ & -> & -> & ->).
  revert Ha Hb. generalize (dr w s) (src_R w ig s). intros a b Ha Hb.
  rewrite signed_less, sub_zero, negb_involutive by (done || lia). unfold relation.
  assert (forall x y, (y <=? x) = negb (x <? y)) as Hle by (intros; zbool; done || lia).
  assert (forall x y, (x <=? y) = ((x <? y) || (x =? y))) as Hlt by (intros; zbool; done || lia).
  assert (forall x y, (y <? x) = (negb (x <? y) && negb (x =? y))) as Hgt by (intros; zbool; done || lia).
  assert (cc = 0 \/ cc = 1 \/ cc = 2 \/ cc = 3 \/ cc = 4 \/ cc = 5 \/ cc = 6 \/ cc = 7 \/ cc = 8 \/ cc = 9 \/
          cc = 10 \/ cc = 11 \/ cc = 12 \/ cc = 13 \/ cc = 14 \/ cc = 15) as Hcs by lia.
  pose proof (signed_equal w a b ltac:(lia) Ha Hb) as Hse.
  repeat destruct Hcs as [-> | Hcs]; try (subst cc); simpl nth; rewrite ?negb_involutive; try done;
    first [by rewrite Hle | by rewrite Hlt | by rewrite Hgt | by rewrite Hlt, Hse | by rewrite (Hgt (signed w a)), Hse].
Qed.

End regs.

(** ** Increments, negation and logical operations of the simulated CPU *)

Section unary.
Context {W : Type}.
Implicit Types (ig : IGen) (s : sim W).

(** *** Increment and decrement *)

Lemma sx_congr w x y : x mod 2 ^ w = y mod 2 ^ w -> sx w x = sx w y.
Proof. intros E. unfold sx. by rewrite (signed_congr w x y E). Qed.

Lemma sx_mod w x : width w -> sx w x mod 2 ^ w = x mod 2 ^ w.
Proof.
  intros Hw. pose proof (width_pos w Hw). apply Z.bits_inj'. intros i Hi.
  destruct (Z.lt_ge_cases i w).
  - rewrite !Z.mod_pow2_bits_low by lia. apply sx_bit; [done|lia].
  - by rewrite !Z.mod_pow2_bits_high by lia.
Qed.

Lemma dr_bits w s i : 0 <= i < w -> Z.testbit (dr w s) i = Z.testbit (DR1 s) i.
Proof. intros Hi. apply Z.mod_pow2_bits_low. lia. Qed.

(** [+1] or [-1]: its amount, its flags and the operations that do it. *)
Inductive incdec := INC | DEC.

Definition by_one (op : incdec) (a : Z) : Z := match op with INC => a + 1 | DEC => a - 1 end.
Definition incdec_flags (op : incdec) : Z -> Z -> bool -> Z := match op with INC => inc_flags | DEC => dec_flags end.
Definition incdec_dr (op : incdec) : IGen -> sim W -> sim W := match op with INC => O_INC | DEC => O_DEC end.
Definition incdec_reg (op : incdec) : IGen -> sim W -> sim W := match op with INC => O_INC_R | DEC => O_DEC_R end.

Definition incdec_handle (op : incdec) (w x r : Z) : flgtmp -> flgtmp := fun f =>
  match op with
  | INC => FlagHandleIncDec x r w (set_res r f)
  | DEC => FlagHandleIncDec r x w (set_res r f)
  end.

Lemma incdec_handle_correct op w a x f :
  width w -> flg_ok f -> 0 <= a < 2 ^ w -> word x -> (forall i, 0 <= i < w -> Z.testbit x i = Z.testbit a i) ->
  flg_ok (incdec_handle op w x (sx w (by_one op a)) f) /\
  FlagSync_All (incdec_handle op w x (sx w (by_one op a)) f) = incdec_flags op w a (cf_of f).
Proof. intros. destruct op; [by apply inc_view|by apply dec_view]. Qed.

Lemma by_one_mod op w x y : 1 <= w -> x mod 2 ^ w = y mod 2 ^ w -> by_one op x mod 2 ^ w = by_one op y mod 2 ^ w.
Proof.
  intros Hw E. destruct op; cbn [by_one].
  - by rewrite <- Zplus_mod_idemp_l, E, Zplus_mod_idemp_l.
  - by rewrite <- Zminus_mod_idemp_l, E, Zminus_mod_idemp_l.
Qed.

(** Increment and decrement *)
Theorem incdec_correct op ig s :
  sim_ok s ->
  let w := opwidth (mode ig) in
  let a := dr w s in
  let b := reg w (p0 ig) s in
  let s1 := incdec_dr op ig s in
  let s2 := incdec_reg op ig s in
  (sim_ok s1 /\ only_dr w s s1 /\ dr w s1 = by_one op a mod 2 ^ w /\
   FlagSync_All (RFL s1) = incdec_flags op w a (cf s)) /\
  (sim_ok s2 /\ only_reg w (p0 ig) s s2 /\ reg w (p0 ig) s2 = by_one op b mod 2 ^ w /\
   FlagSync_All (RFL s2) = incdec_flags op w b (cf s)).
Proof.
  intros Hs w a b s1 s2. pose proof (opwidth_ok (mode ig)) as Hw. fold w in Hw. pose proof (width_pos w Hw).
  pose proof (dr_range w s ltac:(lia)) as Ha. fold a in Ha.
  pose proof (reg_range w (p0 ig) s Hw (ok_cpu _ Hs)) as Hb. fold b in Hb.
  assert (a mod 2 ^ w = DR1 s mod 2 ^ w) as Ea by (by apply Z.mod_mod; lia).
  assert (s1 = flags (incdec_handle op w (sx w (DR1 s)) (sx w (by_one op a))) (set_dr w (sx w (by_one op a)) s)) as E1.
  { assert (sx w (by_one op (sx w (DR1 s))) = sx w (by_one op a)) as <-.
    { apply sx_congr, by_one_mod; [lia|]. by rewrite sx_mod. }
    by destruct op. }
  assert (s2 = flags (incdec_handle op w b (sx w (by_one op b))) (set_reg w (p0 ig) (sx w (by_one op b)) s)) as E2
    by (by destruct op).
  rewrite E1, E2. split.
  - destruct (incdec_handle_correct op w a (sx w (DR1 s)) (RFL s) Hw (ok_flags _ Hs) Ha (word_sx _ _)) as [Hok Hfl].
    { intros i Hi. by rewrite sx_bit, <- (dr_bits w s i) by done. }
    split; [apply ok_flags_upd; [done|by apply ok_set_dr]|]. split; [by apply only_dr_set; lia|]. split; [|done].
    transitivity (dr w (set_dr w (sx w (by_one op a)) s)); [done|]. by rewrite dr_set, sx_mod by (done || lia).
  - destruct (incdec_handle_correct op w b b (RFL s) Hw (ok_flags _ Hs) Hb (word_narrow w b Hw Hb)) as [Hok Hfl]; [done|].
    split; [apply ok_flags_upd; [done|by apply ok_set_reg]|]. split; [by apply only_reg_set|]. split; [|done].
    transitivity (reg w (p0 ig) (set_reg w (p0 ig) (sx w (by_one op b)) s)); [done|].
    by rewrite reg_set_same, sx_mod by done.
Qed.

(** *** Logical operations *)

Inductive logic := OR | AND | XOR.

Definition logic_value (op : logic) : Z -> Z -> Z := match op with OR => Z.lor | AND => Z.land | XOR => Z.lxor end.
Definition logic_dr (op : logic) : IGen -> sim W -> sim W :=
  match op with OR => O_OR_R | AND => O_AND_R | XOR => O_XOR_R end.
Definition logic_reg (op : logic) : IGen -> sim W -> sim W :=
  match op with OR => O_OR_FR | AND => O_AND_FR | XOR => O_XOR_FR end.

Lemma logic_range op w a b : 0 <= w -> 0 <= a < 2 ^ w -> 0 <= b < 2 ^ w -> logic_value op a b mod 2 ^ w = logic_value op a b.
Proof.
  intros Hw Ha Hb. apply Z.bits_inj'. intros i Hi. destruct (Z.lt_ge_cases i w).
  - by rewrite Z.mod_pow2_bits_low by lia.
  - rewrite Z.mod_pow2_bits_high by lia.
    assert (Z.testbit a i = false /\ Z.testbit b i = false) as [E1 E2].
    { rewrite <- (Z.mod_small a (2 ^ w)), <- (Z.mod_small b (2 ^ w)) by done. by rewrite !Z.mod_pow2_bits_high by lia. }
    destruct op; cbn [logic_value]; rewrite ?Z.lor_spec, ?Z.land_spec, ?Z.lxor_spec, E1, E2; done.
Qed.

(** The source of [O_OR_R] ...: a register offset that is not truncated. *)
Definition src_logic (w : Z) ig s : Z := if has (mode ig) IMMED then p0 ig mod 2 ^ w else reg w (p0 ig) s.

(** Logical operations *)
Theorem logic_correct op ig s :
  sim_ok s ->
  let w := opwidth (mode ig) in
  let r1 := logic_value op (dr w s) (src_logic w ig s) in
  let r2 := logic_value op (reg w (p0 ig) s) (src_FR w ig s) in
  let s1 := logic_dr op ig s in
  let s2 := logic_reg op ig s in
  let af := af_of (RFL s) in
  (sim_ok s1 /\ only_dr w s s1 /\ dr w s1 = r1 /\ FlagSync_All (RFL s1) = logic_flags w r1 af) /\
  (sim_ok s2 /\ only_reg w (p0 ig) s s2 /\ reg w (p0 ig) s2 = r2 /\ FlagSync_All (RFL s2) = logic_flags w r2 af).
Proof.
  intros Hs w r1 r2 s1 s2 af. pose proof (opwidth_ok (mode ig)) as Hw. fold w in Hw. pose proof (width_pos w Hw).
  pose proof (dr_range w s ltac:(lia)) as Ha. pose proof (reg_range w (p0 ig) s Hw (ok_cpu _ Hs)) as Hb.
  pose proof (src_FR_range w ig s Hw Hs) as Hc.
  assert (0 <= src_logic w ig s < 2 ^ w) as Hd.
  { unfold src_logic. destruct (has _ _); [apply Z.mod_pos_bound; lia|done]. }
  assert (s1 = flags (FlagLogic w r1) (set_dr w r1 s)) as E1 by (by destruct op).
  assert (s2 = flags (FlagLogic w r2) (set_reg w (p0 ig) r2 s)) as E2 by (by destruct op).
  rewrite E1, E2. split.
  - destruct (logic_view w r1 (RFL s) Hw (ok_flags _ Hs)) as [Hok Hfl].
    split; [apply ok_flags_upd; [done|by apply ok_set_dr]|]. split; [by apply only_dr_set; lia|]. split; [|done].
    transitivity (dr w (set_dr w r1 s)); [done|]. rewrite dr_set by lia. by apply logic_range; [lia|..].
  - destruct (logic_view w r2 (RFL s) Hw (ok_flags _ Hs)) as [Hok Hfl].
    split; [apply ok_flags_upd; [done|by apply ok_set_reg]|]. split; [by apply only_reg_set|]. split; [|done].
    transitivity (reg w (p0 ig) (set_reg w (p0 ig) r2 s)); [done|]. rewrite reg_set_same by done. by apply logic_range; [lia|..].
Qed.

End unary.
