(* ===== verification/SimMulDiv.v ===== *)
(** * Multiplication and division of the simulated CPU *)

From stdpp Require Import base numbers list.
From Stdlib Require Import ZArith Zbitwise Lia.
From S2P Require Import Prelude Machine SimFlags SimFlagsSpec SimCpu SimAlu SimAluSpec.

Local Open Scope Z_scope.

Create HintDb sim.
Create Rewrite HintDb sim.

Ltac apart_tac :=
  unfold apart, cell; first [left; vm_compute; intro; discriminate | right; vm_compute; intro; discriminate].

Ltac width_tac := by (unfold width; lia).

Section muldiv.
Context {W : Type}.
Implicit Types (ig : IGen) (s : sim W).

(** ** What the operations on one part of the state leave alone *)

Lemma reg_set_dr w o w' v s : reg w o (set_dr w' v s) = reg w o s.
Proof. done. Qed.
Lemma reg_flags w o f s : reg w o (flags f s) = reg w o s.
Proof. done. Qed.
Lemma RFL_set_reg w o v s : RFL (set_reg w o v s) = RFL s.
Proof. done. Qed.
Lemma RFL_set_dr w v s : RFL (set_dr w v s) = RFL s.
Proof. done. Qed.
Lemma RFL_flags f s : RFL (flags f s) = f (RFL s).
Proof. done. Qed.
Lemma DR1_set_reg w o v s : DR1 (set_reg w o v s) = DR1 s.
Proof. done. Qed.
Lemma dr_set_reg w o w' v s : dr w (set_reg w' o v s) = dr w s.
Proof. done. Qed.

(** The double-width register pair: AX, DX:AX or EDX:EAX. *)
Definition wide (w : Z) s : Z :=
  if w =? 8 then reg 16 Ofs_EAX s else reg w Ofs_EDX s * 2 ^ w + reg w Ofs_EAX s.

(** Only EAX and EDX change among the registers. *)
Definition only_eax_edx s s' : Prop :=
  (forall w o, width w -> apart w o 32 Ofs_EAX -> apart w o 32 Ofs_EDX -> reg w o s' = reg w o s) /\
  mem_ref s' = mem_ref s /\ world s' = world s.

Lemma apart_sub w o w' o' d :
  apart w o 32 d -> cell 32 d = d -> d <= cell w' o' -> cell w' o' + w' / 8 <= d + 4 -> 0 <= w' / 8 -> apart w o w' o'.
Proof. unfold apart. change (32 / 8) with 4. lia. Qed.

Lemma only_set_reg s0 w o v s :
  width w -> (exists d, (d = Ofs_EAX \/ d = Ofs_EDX) /\ d <= cell w o /\ cell w o + w / 8 <= d + 4) ->
  only_eax_edx s0 s -> only_eax_edx s0 (set_reg w o v s).
Proof.
  intros Hw (d & Hd & H1 & H2) (Hr & Hm & Hwd). split; [|done]. intros w' o' Hw' Ha He.
  rewrite reg_set_other; [by apply Hr|done..|].
  assert (apart w' o' 32 d) as Hap by (by destruct Hd as [-> | ->]).
  assert (cell 32 d = d) as Hc by (by destruct Hd as [-> | ->]).
  apply (apart_sub w' o' w o d); try done. unfold width in Hw. destruct Hw as [-> | [-> | ->]]; done.
Qed.

Lemma only_set_dr s0 w v s : only_eax_edx s0 s -> only_eax_edx s0 (set_dr w v s).
Proof. done. Qed.
Lemma only_flags s0 f s : only_eax_edx s0 s -> only_eax_edx s0 (flags f s).
Proof. done. Qed.
Lemma only_same s : only_eax_edx s s.
Proof. done. Qed.

(** ** The flags of a product: carry and overflow together *)

Definition mul_view (o : bool) (f : flgtmp) : Z := eflags o (pf_of f) (af_of f) (zf_of f) (sf_of f) o.

Lemma mul_flags_correct o f : flg_ok f -> flg_ok (mul_flags o f) /\ FlagSync_All (mul_flags o f) = mul_view o f.
Proof.
  intros [Hc Hr].
  assert (flg_ok (mul_flags o f)) as Hok.
  { split; [|done]. cbn [cout mul_flags upd].
    assert (word (Z.land (cout f) (not32 (Z.lor LF_MASK_CF LF_MASK_PO)))) by (apply word_land; [done|apply word_not32]).
    destruct o; [apply word_lor; [done|by split]|done]. }
  split; [done|]. rewrite FlagSync_All_eq by done. unfold view, mul_view.
  assert (forall i, 0 <= i < 32 -> Z.testbit (cout (mul_flags o f)) i =
    (Z.testbit (cout f) i && negb (Z.testbit (2 ^ 31 + 2 ^ 30) i)) || (o && (i =? 31))) as Hb.
  { intros i Hi. cbn [cout mul_flags upd]. destruct o.
    - rewrite Z.lor_spec, Z.land_spec, testbit_not32 by done. f_equal. unfold LF_MASK_CF, LF_BIT_CF.
      by rewrite Z.pow2_bits_eqb, Z.eqb_sym by lia.
    - rewrite Z.land_spec, testbit_not32 by done. by rewrite orb_false_r. }
  unfold cf_of at 1. unfold vf_of at 1. unfold pf_of at 1. unfold af_of at 1. unfold sf_of at 1. rewrite !Hb by lia.
  change (res (mul_flags o f)) with (res f). change (zf_of (mul_flags o f)) with (zf_of f).
  change (Z.testbit (2 ^ 31 + 2 ^ 30) 31) with true. change (Z.testbit (2 ^ 31 + 2 ^ 30) 30) with true.
  change (Z.testbit (2 ^ 31 + 2 ^ 30) 3) with false. change (Z.testbit (2 ^ 31 + 2 ^ 30) 7) with false.
  change (Z.testbit (2 ^ 31 + 2 ^ 30) 2) with false.
  simpl. rewrite ?andb_false_r, ?andb_true_r, ?orb_false_r, ?orb_false_l, ?xorb_false_r. by destruct o.
Qed.

Lemma high_zero w p : 0 <= w -> 0 <= p -> truth (p / 2 ^ w) = (2 ^ w <=? p).
Proof.
  intros Hw Hp. unfold truth. destruct (Z.leb_spec (2 ^ w) p).
  - assert (1 <= p / 2 ^ w) by (apply Z.div_le_lower_bound; lia). by destruct (Z.eqb_spec (p / 2 ^ w) 0); [lia|].
  - by rewrite Z.div_small by lia.
Qed.

Lemma product_range w a b : 0 <= w -> 0 <= a < 2 ^ w -> 0 <= b < 2 ^ w -> 0 <= a * b < 2 ^ w * 2 ^ w.
Proof. intros. nia. Qed.

Lemma dr1_set v s : sim_ok s -> DR1 (set_dr 32 v s) = u32 v.
Proof.
  intros Hs. unfold set_dr, put_low. cbn [DR1 upd]. rewrite (Z.mod_small (DR1 s)) by apply Hs. unfold u32. lia.
Qed.

Lemma wide_pair w p x y s :
  width w -> w <> 8 -> 0 <= p < 2 ^ w * 2 ^ w -> x mod 2 ^ w = p mod 2 ^ w -> y mod 2 ^ w = p / 2 ^ w mod 2 ^ w ->
  wide w (set_reg w Ofs_EDX y (set_reg w Ofs_EAX x s)) = p.
Proof.
  intros Hw H8 Hp Ex Ey. assert (apart w Ofs_EAX w Ofs_EDX) as Hap by (destruct Hw as [-> | [-> | ->]]; apart_tac).
  unfold wide. destruct (Z.eqb_spec w 8); [done|]. rewrite reg_set_same by done. rewrite reg_set_other by done.
  rewrite reg_set_same by done. pose proof (width_pos w Hw). rewrite Ex, Ey.
  rewrite (Z.mod_small (p / 2 ^ w)); [rewrite Z.mod_eq by lia; lia|].
  split; [apply Z.div_pos; lia|]. apply Z.div_lt_upper_bound; lia.
Qed.

Lemma pair_only w o v s0 s :
  width w -> o = Ofs_EAX \/ o = Ofs_EDX -> only_eax_edx s0 s -> only_eax_edx s0 (set_reg w o v s).
Proof.
  intros Hw Ho H. apply only_set_reg; [done| |done]. exists o. split; [done|].
  destruct Hw as [-> | [-> | ->]], Ho as [-> | ->]; split; vm_compute; discriminate.
Qed.

Ltac only_tac := repeat first [done | apply pair_only; [done || width_tac|by auto|]].

(** From the register pair to the whole result. *)
Lemma product_state w p s s2 :
  sim_ok s -> sim_ok s2 -> RFL s2 = RFL s -> wide w s2 = p -> only_eax_edx s s2 ->
  let o := 2 ^ w <=? p in
  let s' := flags (mul_flags o) s2 in
  sim_ok s' /\ wide w s' = p /\ only_eax_edx s s' /\ FlagSync_All (RFL s') = mul_view o (RFL s).
Proof.
  intros Hs Hs2 Er Ew Ho o s'. destruct (mul_flags_correct o (RFL s) (ok_flags _ Hs)) as [Hok Hfl].
  split; [by apply ok_flags_upd; [rewrite Er|]|]. split; [done|]. split; [done|].
  transitivity (FlagSync_All (mul_flags o (RFL s2))); [done|]. by rewrite Er.
Qed.

(** MUL leaves the full unsigned product in AX, DX:AX or EDX:EAX, changes
    no other register, and sets carry and overflow exactly when the upper half
    is not zero. *)
Theorem O_MUL_correct ig s :
  sim_ok s ->
  let w := opwidth (mode ig) in
  let p := reg w Ofs_EAX s * dr w s in
  let s' := O_MUL ig s in
  sim_ok s' /\ wide w s' = p /\ only_eax_edx s s' /\
  FlagSync_All (RFL s') = mul_view (2 ^ w <=? p) (RFL s).
Proof.
  intros Hs w p s'. pose proof (opwidth_ok (mode ig)) as Hw. fold w in Hw. pose proof (width_pos w Hw).
  pose proof (reg_range w Ofs_EAX s Hw (ok_cpu _ Hs)) as Ha. pose proof (dr_range w s ltac:(lia)) as Hb.
  pose proof (product_range w _ _ ltac:(lia) Ha Hb) as Hp. fold p in Hp.
  unfold s', O_MUL, w, opwidth, set_WORD, set_LONG, CPUBYTE, CPUWORD, CPULONG in *.
  destruct (has (mode ig) MBYTE); [|destruct (has (mode ig) DATA16)]; cbv zeta; clear s' w.
  - change (reg 8 Ofs_AL s * dr 8 s) with p.
    rewrite dr_set_reg, dr_set, Z.mod_small, high_zero by lia. apply product_state; [done|..].
    + apply ok_set_reg. by apply ok_set_dr; [width_tac|].
    + done.
    + unfold wide. simpl Z.eqb. cbv iota. rewrite reg_set_same by width_tac. by rewrite Z.mod_small by lia.
    + only_tac.
  - change (reg 16 Ofs_EAX s * dr 16 s) with p. set (s1 := set_dr 32 p s).
    assert (DR1 s1 = p) as E1 by (unfold s1; rewrite dr1_set by done; by apply Z.mod_small).
    assert (dr 16 s1 = p mod 2 ^ 16) as E2 by (unfold dr; by rewrite E1).
    rewrite !DR1_set_reg, E1, E2, high_zero by lia. apply product_state; [done|..].
    + repeat apply ok_set_reg. by apply ok_set_dr; [width_tac|].
    + done.
    + apply wide_pair; [width_tac|done|done|by rewrite Z.mod_mod|done].
    + only_tac.
  - assert (DR1 s = dr 32 s) as E1 by (by unfold dr; rewrite Z.mod_small by apply Hs).
    rewrite E1. fold p. rewrite high_zero by lia.
    apply product_state; [done|..].
    + by repeat apply ok_set_reg.
    + done.
    + apply wide_pair; [width_tac|done..].
    + only_tac.
Qed.

(** ** Signed multiplication *)

Lemma not_sign_fits w p : 1 <= w -> not_sign (Z.shiftr p (w - 1)) = negb (fits w p).
Proof.
  intros Hw. unfold not_sign, fits. rewrite Z.shiftr_div_pow2 by lia. set (h := 2 ^ (w - 1)). assert (0 < h) by (unfold h; lia).
  pose proof (Z.div_mod p h ltac:(lia)). pose proof (Z.mod_pos_bound p h ltac:(lia)).
  zbool; simpl; nia || done.
Qed.

Lemma u32_signed v : - 2 ^ 31 <= v < 2 ^ 31 -> signed 32 (u32 v) = v.
Proof.
  intros Hv. rewrite <- (signed_small 32 v) at 2 by lia. apply signed_congr. unfold u32. by rewrite Z.mod_mod by lia.
Qed.

(** The sign test after a product has been put in [DR1]. *)
Lemma sar_dr_test s p w :
  sim_ok s -> 1 <= w <= 32 -> - 2 ^ 31 <= p < 2 ^ 31 -> DR1 s = u32 p ->
  not_sign (signed 32 (DR1 (sar_dr (w - 1) s))) = negb (fits w p).
Proof.
  intros Hs Hw Hp E. unfold sar_dr. rewrite dr1_set, E, (u32_signed p) by done.
  rewrite u32_signed; [by apply not_sign_fits; lia|]. rewrite Z.shiftr_div_pow2 by lia.
  assert (0 < 2 ^ (w - 1)) by lia.
  split; [apply Z.div_le_lower_bound|apply Z.div_lt_upper_bound]; nia.
Qed.

Lemma signed_product w a b :
  1 <= w -> - 2 ^ (w - 1) * 2 ^ (w - 1) <= signed w a * signed w b <= 2 ^ (w - 1) * 2 ^ (w - 1).
Proof.
  intros Hw. pose proof (signed_range w a Hw). pose proof (signed_range w b Hw). nia.
Qed.

(** The three forms: accumulator, register by register, immediate. *)
Inductive imul_form := ImulAcc | ImulReg | ImulImm.

Definition imul_of (m : Z) : imul_form * Z :=
  if has m IMMED then (ImulImm, if has m DATA16 then 16 else 32)
  else if has m MBYTE then (ImulAcc, 8)
  else (if has m MEMADR then ImulReg else ImulAcc, if has m DATA16 then 16 else 32).

Definition imul_left (form : imul_form) (w : Z) ig s : Z :=
  match form with
  | ImulAcc => signed w (reg w Ofs_EAX s)
  | ImulReg => signed w (reg w (p0 ig) s)
  | ImulImm => signed 32 (p0 ig)
  end.

(** Where the product goes. *)
Definition imul_result (form : imul_form) (w : Z) ig p s' : Prop :=
  match form with
  | ImulAcc => signed (2 * w) (wide w s') = p
  | ImulReg => reg w (p0 ig) s' = p mod 2 ^ w
  | ImulImm => reg w (p1 ig) s' = p mod 2 ^ w
  end.

Lemma imul_state form w ig p s s2 s3 :
  sim_ok s -> sim_ok s2 -> RFL s2 = RFL s -> imul_result form w ig p s2 ->
  RFL s3 = RFL s2 -> cpu s3 = cpu s2 -> sim_ok s3 ->
  let s' := flags (mul_flags (negb (fits w p))) s3 in
  sim_ok s' /\ imul_result form w ig p s' /\ FlagSync_All (RFL s') = mul_view (negb (fits w p)) (RFL s).
Proof.
  intros Hs Hs2 Er Hi Er3 Ec3 Hs3 s'. destruct (mul_flags_correct (negb (fits w p)) (RFL s) (ok_flags _ Hs)) as [Hok Hfl].
  split; [by apply ok_flags_upd; [rewrite Er3, Er|]|]. split.
  - destruct form; unfold imul_result, wide, reg in *; unfold s', flags; cbn [cpu upd]; by rewrite Ec3.
  - transitivity (FlagSync_All (mul_flags (negb (fits w p)) (RFL s3))); [done|]. by rewrite Er3, Er.
Qed.

Lemma ok_sar_dr n s : sim_ok s -> sim_ok (sar_dr n s).
Proof. intros Hs. by apply ok_set_dr; [width_tac|]. Qed.

Lemma dr_signed w s : signed w (dr w s) = signed w (DR1 s).
Proof. apply signed_congr. unfold dr. by rewrite Zmod_mod. Qed.

(** A product in [DR1], stored, and then reduced to its sign. *)
Lemma imul_narrow form w ig p s s2 :
  sim_ok s -> sim_ok s2 -> RFL s2 = RFL s -> DR1 s2 = u32 p -> 1 <= w <= 16 -> - 2 ^ 31 <= p < 2 ^ 31 ->
  imul_result form w ig p s2 ->
  let s3 := sar_dr (w - 1) s2 in
  let s' := flags (mul_flags (not_sign (signed 32 (DR1 s3)))) s3 in
  sim_ok s' /\ imul_result form w ig p s' /\ FlagSync_All (RFL s') = mul_view (negb (fits w p)) (RFL s).
Proof.
  intros Hs Hs2 Er Ed Hw Hp Hi s3 s'. unfold s', s3. rewrite (sar_dr_test s2 p w) by (done || lia).
  by apply imul_state with s2; [done..|apply ok_sar_dr].
Qed.

Lemma put_dr_ok w o v u s :
  sim_ok s ->
  sim_ok (set_reg w o u (set_dr 32 v s)) /\ DR1 (set_reg w o u (set_dr 32 v s)) = u32 v.
Proof.
  intros Hs. split; [by apply ok_set_reg, ok_set_dr; [width_tac|]|]. rewrite DR1_set_reg. by apply dr1_set.
Qed.

Lemma dr_of_product p s : sim_ok s -> dr 16 (set_dr 32 p s) = p mod 2 ^ 16.
Proof.
  intros Hs. unfold dr. rewrite dr1_set by done. unfold u32. change (2 ^ 32) with (2 ^ 16 * 2 ^ 16).
  by rewrite Z.rem_mul_r, (Z.mul_comm (2 ^ 16)), Z.mod_add, Z.mod_mod by lia.
Qed.

Lemma signed_u64 w p : - 2 ^ (2 * w - 1) <= p < 2 ^ (2 * w - 1) -> 1 <= w -> signed (2 * w) (p mod 2 ^ (2 * w)) = p.
Proof.
  intros Hp Hw. rewrite <- (signed_small (2 * w) p) at 2 by lia. apply signed_congr. by rewrite Z.mod_mod by lia.
Qed.

Lemma imul_byte_correct ig s :
  sim_ok s ->
  let p := signed 8 (reg 8 Ofs_EAX s) * signed 8 (DR1 s) in
  sim_ok (imul_byte s) /\ imul_result ImulAcc 8 ig p (imul_byte s) /\
  FlagSync_All (RFL (imul_byte s)) = mul_view (negb (fits 8 p)) (RFL s).
Proof.
  intros Hs p. pose proof (signed_product 8 (reg 8 Ofs_EAX s) (DR1 s) ltac:(lia)) as Hp. fold p in Hp.
  unfold imul_byte, set_WORD, CPUBYTE. change (signed 8 (reg 8 Ofs_AL s) * signed 8 (DR1 s)) with p. cbv zeta.
  rewrite dr_of_product by done. change 7 with (8 - 1).
  destruct (put_dr_ok 16 Ofs_EAX p (p mod 2 ^ 16) s Hs) as [Hs2 Ed]. apply imul_narrow; try done; [lia|].
  unfold imul_result, wide. simpl Z.eqb. cbv iota. rewrite reg_set_same, Z.mod_mod by (width_tac || lia).
  apply (signed_u64 8); lia.
Qed.

Lemma imul_word_correct ig s :
  sim_ok s -> has (mode ig) DATA16 = true ->
  let form := if has (mode ig) IMMED then ImulImm else if has (mode ig) MEMADR then ImulReg else ImulAcc in
  (form = ImulImm -> - 2 ^ 15 <= signed 32 (p0 ig) < 2 ^ 15) ->
  let p := imul_left form 16 ig s * signed 16 (DR1 s) in
  sim_ok (imul_word ig s) /\ imul_result form 16 ig p (imul_word ig s) /\
  FlagSync_All (RFL (imul_word ig s)) = mul_view (negb (fits 16 p)) (RFL s).
Proof.
  intros Hs _. unfold imul_word, set_WORD, CPUWORD. destruct (has (mode ig) IMMED); [|destruct (has (mode ig) MEMADR)];
    intros Himm; set (p := imul_left _ _ _ _ * _) in *; change 15 with (16 - 1) in |- *.
  - rewrite (Z.mul_comm (signed 16 (DR1 s))). change (signed 32 (p0 ig) * signed 16 (DR1 s)) with p. cbv zeta.
    assert (- 2 ^ 31 <= p < 2 ^ 31).
    { specialize (Himm eq_refl). pose proof (signed_range 16 (DR1 s) ltac:(lia)). unfold p, imul_left. simpl in *. nia. }
    rewrite dr_of_product by done. destruct (put_dr_ok 16 (p1 ig) p (p mod 2 ^ 16) s Hs) as [Hs2 Ed].
    apply imul_narrow; try done. unfold imul_result. by rewrite reg_set_same, Z.mod_mod by (width_tac || lia).
  - pose proof (signed_product 16 (reg 16 (p0 ig) s) (DR1 s) ltac:(lia)) as Hp.
    change (signed 16 (reg 16 (p0 ig) s) * signed 16 (DR1 s)) with p in *. cbv zeta.
    rewrite dr_of_product by done. destruct (put_dr_ok 16 (p0 ig) p (p mod 2 ^ 16) s Hs) as [Hs2 Ed].
    apply imul_narrow; try done; [lia|]. unfold imul_result. by rewrite reg_set_same, Z.mod_mod by (width_tac || lia).
  - pose proof (signed_product 16 (reg 16 Ofs_EAX s) (DR1 s) ltac:(lia)) as Hp.
    change (signed 16 (reg 16 Ofs_EAX s) * signed 16 (DR1 s)) with p in *. cbv zeta.
    rewrite dr_of_product, dr1_set by done. destruct (put_dr_ok 16 Ofs_EAX p (p mod 2 ^ 16) s Hs) as [Hs2 Ed].
    apply imul_narrow; try done; [by apply ok_set_reg|lia|]. unfold imul_result.
    rewrite (wide_pair 16 (u32 p)); [apply (signed_u64 16); lia|width_tac|done|apply u32_range| |done].
    unfold u32. rewrite Z.mod_mod by lia. change (2 ^ 32) with (2 ^ 16 * 2 ^ 16).
    by rewrite Z.rem_mul_r, (Z.mul_comm (2 ^ 16)), Z.mod_add, Z.mod_mod by lia.
Qed.

Lemma imul_long_correct ig s :
  sim_ok s ->
  let form := if has (mode ig) IMMED then ImulImm else if has (mode ig) MEMADR then ImulReg else ImulAcc in
  let p := imul_left form 32 ig s * signed 32 (DR1 s) in
  sim_ok (imul_long ig s) /\ imul_result form 32 ig p (imul_long ig s) /\
  FlagSync_All (RFL (imul_long ig s)) = mul_view (negb (fits 32 p)) (RFL s).
Proof.
  intros Hs. unfold imul_long, set_LONG, CPULONG. destruct (has (mode ig) IMMED); [|destruct (has (mode ig) MEMADR)];
    rewrite ?(Z.mul_comm (signed 32 (DR1 s))); set (p := imul_left _ _ _ _ * _).
  - change (signed 32 (p0 ig) * signed 32 (DR1 s)) with p. change 31 with (32 - 1). rewrite not_sign_fits by lia.
    apply (imul_state _ _ _ _ _ (set_reg 32 (p1 ig) p s)); try done; [by apply ok_set_reg| |by apply ok_set_reg].
    unfold imul_result. by rewrite reg_set_same by width_tac.
  - change (signed 32 (reg 32 (p0 ig) s) * signed 32 (DR1 s)) with p. change 31 with (32 - 1). rewrite not_sign_fits by lia.
    apply (imul_state _ _ _ _ _ (set_reg 32 (p0 ig) p s)); try done; [by apply ok_set_reg| |by apply ok_set_reg].
    unfold imul_result. by rewrite reg_set_same by width_tac.
  - change (signed 32 (reg 32 Ofs_EAX s) * signed 32 (DR1 s)) with p. change 31 with (32 - 1). rewrite not_sign_fits by lia.
    apply (imul_state _ _ _ _ _ (set_reg 32 Ofs_EDX (Z.shiftr p 32) (set_reg 32 Ofs_EAX p s)));
      try done; [by repeat apply ok_set_reg| |by repeat apply ok_set_reg].
    pose proof (signed_product 32 (reg 32 Ofs_EAX s) (DR1 s) ltac:(lia)) as Hp.
    change (signed 32 (reg 32 Ofs_EAX s) * signed 32 (DR1 s)) with p in Hp.
    unfold imul_result. rewrite (wide_pair 32 (p mod 2 ^ (2 * 32))); [apply (signed_u64 32); lia|width_tac|done|by apply Z.mod_pos_bound| |].
    + change (2 ^ (2 * 32)) with (2 ^ 32 * 2 ^ 32). by rewrite Z.rem_mul_r, (Z.mul_comm (2 ^ 32)), Z.mod_add, Z.mod_mod by lia.
    + rewrite Z.shiftr_div_pow2 by lia. change (2 ^ (2 * 32)) with (2 ^ 32 * 2 ^ 32).
      rewrite Z.rem_mul_r, (Z.add_comm (p mod _)), (Z.mul_comm (2 ^ 32)), Z.div_add_l by lia.
      rewrite (Z.div_small (p mod 2 ^ 32)) by (apply Z.mod_pos_bound; lia). by rewrite Z.add_0_r, Z.mod_mod by lia.
Qed.

(** C31: Every form of IMUL stores the signed product, in full or cut to the
    operand width, and sets carry and overflow exactly when it does not fit
    the width. *)
Theorem O_IMUL_correct ig s :
  sim_ok s ->
  let '(form, w) := imul_of (mode ig) in
  (form = ImulImm -> - 2 ^ (w - 1) <= signed 32 (p0 ig) < 2 ^ (w - 1)) ->
  let p := imul_left form w ig s * signed w (DR1 s) in
  let s' := O_IMUL ig s in
  sim_ok s' /\ imul_result form w ig p s' /\
  FlagSync_All (RFL s') = mul_view (negb (fits w p)) (RFL s).
Proof.
  intros Hs. pose proof (imul_word_correct ig s Hs) as H16. pose proof (imul_long_correct ig s Hs) as H32.
  unfold imul_of, O_IMUL.
  destruct (has (mode ig) IMMED); [|destruct (has (mode ig) MBYTE)]; simpl negb; rewrite ?andb_false_r, ?andb_true_r;
    simpl andb; cbv iota; [|intros _; by apply imul_byte_correct|];
    (destruct (has (mode ig) DATA16); intros Himm; [by apply H16|exact H32]).
Qed.

(** ** Division *)

(** Where the quotient and the remainder go. *)
Definition quot_rem (w : Z) s : Z * Z :=
  if w =? 8 then (reg 8 Ofs_AL s, reg 8 Ofs_AH s) else (reg w Ofs_EAX s, reg w Ofs_EDX s).

(** The divide error: the registers are unchanged and the block ends at the
    faulting instruction. *)
Definition divide_error ig s s' : Prop :=
  TheCPU_err s' = EXCP00_DIVZ /\ P0 s' = u32 (LONG_CS s + p0 ig) /\
  reg 32 Ofs_EAX s' = reg 32 Ofs_EAX s /\ reg 32 Ofs_EDX s' = reg 32 Ofs_EDX s /\ RFL s' = RFL s.

Definition divided (w q r : Z) s s' : Prop :=
  quot_rem w s' = (q mod 2 ^ w, r mod 2 ^ w) /\ TheCPU_err s' = TheCPU_err s /\ P0 s' = P0 s /\
  RFL s' = RFL s /\ only_eax_edx s s'.

(** Both end with the test of [TheCPU.err]. *)
Definition div_end ig s : sim W :=
  if TheCPU_err s =? EXCP00_DIVZ then s <| P0 := u32 (LONG_CS s + p0 ig) |> else s.

Lemma div_end_error ig s : divide_error ig s (div_end ig (set_err EXCP00_DIVZ s)).
Proof.
  unfold div_end, TheCPU_err, set_err, set_LONG, CPULONG. rewrite reg_set_same by width_tac.
  change (EXCP00_DIVZ mod 2 ^ 32 =? EXCP00_DIVZ) with true. cbv iota.
  refine (conj _ (conj _ (conj _ (conj _ eq_refl)))).
  - unfold TheCPU_err, CPULONG. change (reg 32 Ofs_ERR (_ <| P0 := _ |>)) with (reg 32 Ofs_ERR (set_reg 32 Ofs_ERR EXCP00_DIVZ s)).
    by rewrite reg_set_same by width_tac.
  - cbn [P0 upd]. unfold LONG_CS, CPULONG. by rewrite reg_set_other by (width_tac || apart_tac).
  - change (reg 32 Ofs_EAX (_ <| P0 := _ |>)) with (reg 32 Ofs_EAX (set_reg 32 Ofs_ERR EXCP00_DIVZ s)).
    by rewrite reg_set_other by (width_tac || apart_tac).
  - change (reg 32 Ofs_EDX (_ <| P0 := _ |>)) with (reg 32 Ofs_EDX (set_reg 32 Ofs_ERR EXCP00_DIVZ s)).
    by rewrite reg_set_other by (width_tac || apart_tac).
Qed.

(** Storing the two results. *)
Definition set_quot_rem (w q r : Z) s : sim W :=
  if w =? 8 then set_reg 8 Ofs_AH r (set_reg 8 Ofs_AL q s) else set_reg w Ofs_EDX r (set_reg w Ofs_EAX q s).

Lemma div_end_ok w q r ig s :
  width w -> TheCPU_err s <> EXCP00_DIVZ -> divided w q r s (div_end ig (set_quot_rem w q r s)).
Proof.
  intros Hw He.
  assert (only_eax_edx s (set_quot_rem w q r s)) as Ho.
  { unfold set_quot_rem. destruct (w =? 8); [|only_tac].
    apply only_set_reg; [width_tac|exists Ofs_EAX; split; [by left|split; vm_compute; discriminate]|].
    apply only_set_reg; [width_tac|exists Ofs_EAX; split; [by left|split; vm_compute; discriminate]|done]. }
  assert (TheCPU_err (set_quot_rem w q r s) = TheCPU_err s) as Ee
    by (apply (proj1 Ho); [width_tac|apart_tac..]).
  unfold div_end. rewrite Ee. destruct (Z.eqb_spec (TheCPU_err s) EXCP00_DIVZ); [done|].
  split; [|split; [done|]]; [|split; [|split; [|done]]]; unfold quot_rem, set_quot_rem; destruct (Z.eqb_spec w 8); try done.
  - rewrite reg_set_same by width_tac. rewrite reg_set_other by (width_tac || apart_tac).
    rewrite reg_set_same by width_tac. by subst.
  - assert (apart w Ofs_EAX w Ofs_EDX) by (destruct Hw as [-> | [-> | ->]]; [done|apart_tac..]).
    rewrite reg_set_same by done. rewrite reg_set_other by done. by rewrite reg_set_same by done.
Qed.

Lemma pair_lor n hi lo : 0 <= n -> 0 <= lo < 2 ^ n -> Z.lor (Z.shiftl hi n) lo = hi * 2 ^ n + lo.
Proof.
  intros Hn Hlo. pose proof (Z.add_lor_land (Z.shiftl hi n) lo) as E.
  assert (Z.land (Z.shiftl hi n) lo = 0) as E0; [|rewrite <- Z.shiftl_mul_pow2 by done; lia].
  apply Z.bits_inj'. intros i Hi. rewrite Z.land_spec, Z.bits_0. destruct (Z.lt_ge_cases i n).
  - by rewrite Z.shiftl_spec_low by done.
  - rewrite <- (Z.mod_small lo (2 ^ n)), Z.mod_pow2_bits_high by lia. apply andb_false_r.
Qed.

Lemma O_DIV_eq ig s :
  sim_ok s ->
  let w := opwidth (mode ig) in
  let n := wide w s in
  let d := dr w s in
  O_DIV ig s = Ok (tt, div_end ig (if (d =? 0) || (2 ^ w <=? n / d) then set_err EXCP00_DIVZ s
                                   else set_quot_rem w (n / d) (n mod d) s)).
Proof.
  intros Hs w n d. pose proof (reg_range 16 Ofs_EAX s ltac:(width_tac) (ok_cpu _ Hs)) as H16.
  pose proof (reg_range 32 Ofs_EAX s ltac:(width_tac) (ok_cpu _ Hs)) as H32.
  pose proof (opwidth_ok (mode ig)) as Hw. fold w in Hw. pose proof (width_pos w Hw).
  assert (0 <= d < 2 ^ w) as Hd by (apply dr_range; lia).
  assert (0 <= n) as Hn.
  { unfold n, wide. pose proof (reg_range w Ofs_EAX s Hw (ok_cpu _ Hs)). pose proof (reg_range w Ofs_EDX s Hw (ok_cpu _ Hs)).
    destruct (w =? 8); [lia|nia]. }
  assert (0 <= n / d) as Hq by (destruct (Z.eq_dec d 0) as [->|]; [by rewrite Z.div_0_r|apply Z.div_pos; lia]).
  unfold O_DIV, bind, modify, w, opwidth, CPUWORD, CPULONG, set_BYTE, set_WORD, set_LONG in *.
  destruct (has (mode ig) MBYTE); [|destruct (has (mode ig) DATA16)]; f_equal; f_equal; f_equal; subst w.
  - change (reg 16 Ofs_EAX s) with n. fold d. change (2 ^ 8) with 256. replace (0xff <? n / d) with (256 <=? n / d); [done|].
    zbool; lia || done.
  - rewrite pair_lor by (done || lia). change (reg 16 Ofs_EDX s * 2 ^ 16 + reg 16 Ofs_EAX s) with n. fold d.
    change (2 ^ 16) with 65536. replace (0xffff <? n / d) with (65536 <=? n / d); [done|]. zbool; lia || done.
  - change (reg 32 Ofs_EDX s * 2 ^ 32 + reg 32 Ofs_EAX s) with n. fold d. by rewrite high_zero by lia.
Qed.

(** DIV stores quotient and remainder when the divisor is not 0 and the
    quotient fits, and otherwise raises the divide error with the registers
    unchanged and stops at the faulting instruction. *)
Theorem O_DIV_correct ig s :
  sim_ok s -> TheCPU_err s <> EXCP00_DIVZ ->
  let w := opwidth (mode ig) in
  let n := wide w s in
  let d := dr w s in
  wp (O_DIV ig) s (fun _ s' =>
    if (d =? 0) || (2 ^ w <=? n / d) then divide_error ig s s' else divided w (n / d) (n mod d) s s').
Proof.
  intros Hs He w n d. eapply wp_intro; [by apply O_DIV_eq|]. cbv beta.
  fold w n d. destruct (_ || _); [apply div_end_error|]. apply div_end_ok; [apply opwidth_ok|done].
Qed.

(** The only operands the host cannot divide. *)
Definition host_overflow (w n d : Z) : bool := negb (w =? 8) && (n =? - 2 ^ (2 * w - 1)) && (d =? -1).

Lemma O_IDIV_eq ig s :
  sim_ok s ->
  let w := opwidth (mode ig) in
  let n := signed (2 * w) (wide w s) in
  let d := signed w (DR1 s) in
  O_IDIV ig s =
  if host_overflow w n d then Fault DivisionByZero
  else Ok (tt, div_end ig (if (d =? 0) || negb (fits w (Z.quot n d)) then set_err EXCP00_DIVZ s
                           else set_quot_rem w (Z.quot n d) (Z.rem n d) s)).
Proof.
  intros Hs w n d. pose proof (reg_range 16 Ofs_EAX s ltac:(width_tac) (ok_cpu _ Hs)) as H16.
  pose proof (reg_range 32 Ofs_EAX s ltac:(width_tac) (ok_cpu _ Hs)) as H32.
  assert (forall h l q, (h <? q) || (q <? l) = negb ((l <=? q) && (q <? h + 1))) as Hfit by (intros; zbool; simpl; lia || done).
  unfold O_IDIV, host_divmod, bind, modify, get, ret, throw, w, opwidth, CPUWORD, CPULONG, set_BYTE, set_WORD, set_LONG in *.
  destruct (has (mode ig) MBYTE); [|destruct (has (mode ig) DATA16)]; unfold host_overflow, fits; subst w.
  - assert (- 2 ^ 15 <= n < 2 ^ 15) as Hn by (apply (signed_range 16); lia).
    change (signed 16 (reg 16 Ofs_EAX s)) with n. fold d. simpl negb. cbv iota. rewrite !andb_false_l.
    destruct (d =? 0); [done|]. replace (n =? - 2 ^ (32 - 1)) with false by (zbool; lia || done). rewrite !andb_false_l, orb_false_l.
    cbv beta iota. rewrite Hfit. change (- 2 ^ (8 - 1)) with (-128). change (2 ^ (8 - 1)) with (127 + 1). by destruct (negb _).
  - rewrite pair_lor by (done || lia). change (signed 32 (reg 16 Ofs_EDX s * 2 ^ 16 + reg 16 Ofs_EAX s)) with n.
    change (signed 16 (DR1 s)) with d. destruct (Z.eqb_spec d 0) as [E|E]; [rewrite E, !andb_false_r; done|].
    simpl negb. rewrite !andb_true_l. destruct ((n =? _) && _); [done|]. rewrite orb_false_l. cbv beta iota. rewrite Hfit.
    change (- 2 ^ (16 - 1)) with (-32768). change (2 ^ (16 - 1)) with (32767 + 1). by destruct (negb _).
  - rewrite Z.lor_comm, pair_lor by (done || lia). change (signed 64 (reg 32 Ofs_EDX s * 2 ^ 32 + reg 32 Ofs_EAX s)) with n.
    change (signed 32 (DR1 s)) with d. destruct (Z.eqb_spec d 0) as [E|E]; [rewrite E, !andb_false_r; done|].
    simpl negb. rewrite !andb_true_l. destruct ((n =? _) && _); [done|]. rewrite orb_false_l. cbv beta iota. rewrite Hfit.
    change (- 2 ^ (32 - 1)) with (- 0x80000000). change (2 ^ (32 - 1)) with (0x7fffffff + 1). by destruct (negb _).
Qed.

(** C32: IDIV stores the signed quotient and remainder or raises the divide
    error, except for the most negative dividend by -1, where the division of
    the host traps. *)
Theorem O_IDIV_correct ig s :
  sim_ok s -> TheCPU_err s <> EXCP00_DIVZ ->
  let w := opwidth (mode ig) in
  let n := signed (2 * w) (wide w s) in
  let d := signed w (DR1 s) in
  if host_overflow w n d then O_IDIV ig s = Fault DivisionByZero
  else wp (O_IDIV ig) s (fun _ s' =>
    if (d =? 0) || negb (fits w (Z.quot n d)) then divide_error ig s s'
    else divided w (Z.quot n d) (Z.rem n d) s s').
Proof.
  intros Hs He w n d. pose proof (O_IDIV_eq ig s Hs) as E. cbv zeta in E. fold w n d in E.
  destruct (host_overflow w n d); [done|]. eapply wp_intro; [exact E|]. cbv beta.
  destruct (_ || _); [apply div_end_error|]. apply div_end_ok; [apply opwidth_ok|done].
Qed.

End muldiv.
