(* ===== verification/SimShift.v ===== *)
(** * Shifts and rotates of the simulated CPU *)

From stdpp Require Import base numbers list.
From Stdlib Require Import ZArith Zbitwise Lia.
From S2P Require Import Prelude Machine SimFlags SimFlagsSpec SimCpu SimAlu SimAluSpec.

Local Open Scope Z_scope.

Lemma land_1 x : Z.land x 1 = of_bool (Z.testbit x 0).
Proof. change 1 with (2 ^ 0) at 1. rewrite land_one_bit by lia. lia. Qed.

Lemma bit_above w a i : 0 <= w -> 0 <= a < 2 ^ w -> w <= i -> Z.testbit a i = false.
Proof. intros Hw Ha Hi. rewrite <- (Z.mod_small a (2 ^ w)) by done. apply Z.mod_pow2_bits_high. lia. Qed.

(** ** The flags of a rotate and of a shift *)

Lemma rotate_bits sh cy c ws f :
  width ws -> flg_ok f -> word c ->
  let f' := FlagHandleRotate sh (of_bool cy) c ws f in
  flg_ok f' /\ cf_of f' = cy /\
  vf_of f' = (if sh =? 1 then xorb (Z.testbit c (ws - 1)) (Z.testbit c (ws - 2)) else vf_of f) /\
  pf_of f' = pf_of f /\ af_of f' = af_of f /\ zf_of f' = zf_of f /\ sf_of f' = sf_of f.
Proof.
  intros Hw Hf Hc f'. unfold f', FlagHandleRotate.
  set (c' := if ws =? 32 then _ else _).
  set (g := if sh =? 1 then _ else f).
  assert (flg_ok g /\ vf_of g = (if sh =? 1 then xorb (Z.testbit c (ws - 1)) (Z.testbit c (ws - 2)) else vf_of f) /\
    pf_of g = pf_of f /\ af_of g = af_of f /\ zf_of g = zf_of f /\ sf_of g = sf_of f) as (Hg & Hv & Hp & Ha & Hz & Hs).
  { unfold g. destruct (sh =? 1); [|done].
    assert (word c') as Hc' by (unfold c'; destruct (_ =? _); [|destruct (_ =? _)]; [apply word_land; [done|by split]|apply word_shl32..]).
    assert (forall i, 0 <= i < 32 -> Z.testbit (Z.lor (Z.land (cout f) (not32 (Z.lor LF_MASK_CF LF_MASK_PO))) c') i =
      (Z.testbit (cout f) i && negb (Z.testbit (2 ^ 31 + 2 ^ 30) i)) || Z.testbit c' i) as Hb.
    { intros i Hi. by rewrite Z.lor_spec, Z.land_spec, testbit_not32. }
    assert (Z.testbit c' 2 = false /\ Z.testbit c' 3 = false /\ Z.testbit c' 7 = false /\
      Z.testbit c' 30 = Z.testbit c (ws - 2) /\ Z.testbit c' 31 = Z.testbit c (ws - 1)) as (B2 & B3 & B7 & B30 & B31).
    { unfold c'. destruct Hw as [-> | [-> | ->]]; simpl Z.eqb; cbv iota;
        rewrite ?Z.land_spec, ?testbit_shl32 by lia; rewrite ?Z.testbit_neg_r by lia; cbn -[Z.testbit];
        rewrite ?andb_false_r, ?andb_true_r; done. }
    split; [split; cbn [cout res upd]; [|apply Hf]; apply word_lor; [apply word_land; [apply Hf|apply word_not32]|done]|].
    unfold vf_of, pf_of, af_of, zf_of, sf_of. cbn [cout res upd]. rewrite !Hb, B2, B3, B7, B30, B31 by lia.
    change (Z.testbit (2 ^ 31 + 2 ^ 30) 31) with true. change (Z.testbit (2 ^ 31 + 2 ^ 30) 30) with true.
    change (Z.testbit (2 ^ 31 + 2 ^ 30) 3) with false. change (Z.testbit (2 ^ 31 + 2 ^ 30) 7) with false.
    change (Z.testbit (2 ^ 31 + 2 ^ 30) 2) with false.
    by rewrite !andb_false_r, !andb_true_r, !orb_false_r, !orb_false_l. }
  split; [by apply SET_CF_ok|]. pose proof (SET_CF_view cy g Hg) as Hview. unfold view in Hview.
  apply eflags_inj in Hview as (-> & -> & -> & -> & -> & ->). by rewrite Hv, Hp, Ha, Hz, Hs.
Qed.

(** A shift also sets ZF, SF and PF from its result. *)
Lemma shift_view sh cy c ws w r f :
  width ws -> width w -> flg_ok f -> word c ->
  let f' := FlagHandleShift sh (of_bool cy) c ws (sx w r) f in
  flg_ok f' /\
  FlagSync_All f' = eflags cy (parity_even r) (af_of f) (r mod 2 ^ w =? 0) (Z.testbit r (w - 1))
    (if sh =? 1 then xorb (Z.testbit c (ws - 1)) (Z.testbit c (ws - 2)) else vf_of f).
Proof.
  intros Hws Hw Hf Hc f'. destruct (rotate_bits sh cy c ws f Hws Hf Hc) as (Hg & Hcf & Hv & _ & Ha & _ & _).
  unfold f', FlagHandleShift. set (g := FlagHandleRotate _ _ _ _ _) in *. clearbody g.
  set (h := upd cout _ _).
  assert (forall i, 0 <= i < 32 -> Z.testbit (cout h) i = Z.testbit (cout g) i && negb (Z.testbit 132 i)) as Hb.
  { intros i Hi. unfold h. cbn [cout upd]. by rewrite Z.land_spec, testbit_not32. }
  assert (flg_ok h) as Hok.
  { split; [unfold h; cbn [cout upd]; apply word_land; [apply Hg|apply word_not32]|apply word_sx]. }
  split; [done|]. rewrite FlagSync_All_eq by done. unfold view. rewrite <- Hv, <- Ha, <- Hcf.
  unfold cf_of, vf_of, af_of, pf_of, sf_of, zf_of. rewrite !Hb by lia. change (res h) with (sx w r).
  change (Z.testbit 132 31) with false. change (Z.testbit 132 30) with false. change (Z.testbit 132 3) with false.
  change (Z.testbit 132 7) with true. change (Z.testbit 132 2) with true.
  by rewrite !andb_true_r, !andb_false_r, !xorb_false_r, sx_parity, sx_zero, sx_sign.
Qed.

Section shifts.
Context {W : Type}.
Implicit Types (ig : IGen) (s : sim W).

Lemma shift_count_range ig s : sim_ok s -> 0 <= shift_count ig s < 32.
Proof. intros Hs. unfold shift_count. pose proof (land_ones_range (if has (mode ig) IMMED then p0 ig else CPUBYTE Ofs_CL s) 5). 
  change (Z.ones 5) with 31 in *. lia. Qed.

Lemma word_dr w s : width w -> word (dr w s).
Proof. intros Hw. apply (word_narrow w); [done|]. apply dr_range. pose proof (width_pos w Hw). lia. Qed.

(** The result of a shift or rotate in the working register. *)
Lemma dr_result w v f s f' :
  width w -> sim_ok s -> f (RFL s) = f' -> flg_ok f' ->
  let s' := flags f (set_dr w v s) in
  sim_ok s' /\ only_dr w s s' /\ dr w s' = v mod 2 ^ w /\ RFL s' = f'.
Proof.
  intros Hw Hs Ef Hok s'. pose proof (width_pos w Hw).
  split; [apply ok_flags_upd; [by rewrite <- Ef in Hok|by apply ok_set_dr]|].
  split; [by apply only_dr_set; lia|]. split; [apply dr_set; lia|done].
Qed.

(** ** Shifts *)

Inductive shift := SHL | SHR | SAR.

Definition shift_op (op : shift) : IGen -> sim W -> sim W :=
  match op with SHL => O_SHL | SHR => O_SHR | SAR => O_SAR end.

(** The result as a number, the last bit shifted out, and the overflow of a
    shift by one.  For SAR of a double word the source takes the overflow from
    bits 15 and 14 of the result, the processor clears it. *)
Definition shift_value (op : shift) (w a sh : Z) : Z :=
  match op with SHL => a * 2 ^ sh | SHR => a / 2 ^ sh | SAR => signed w a / 2 ^ sh end.

Definition shift_carry (op : shift) (w a sh : Z) : bool :=
  match op with SHL => Z.testbit a (w - sh) | SHR => Z.testbit a (sh - 1) | SAR => Z.testbit (signed w a) (sh - 1) end.

Definition shift_overflow (op : shift) (w a : Z) : bool :=
  match op with
  | SHL => xorb (Z.testbit a (w - 1)) (Z.testbit a (w - 2))
  | SHR => Z.testbit a (w - 1)
  | SAR => (w =? 32) && xorb (Z.testbit a 16) (Z.testbit a 15)
  end.

Lemma bit_signed w a i : 1 <= w -> 0 <= i -> Z.testbit (signed w a) i = Z.testbit a (Z.min i (w - 1)).
Proof.
  intros Hw Hi. destruct (Z.lt_ge_cases i w).
  - rewrite <- (Z.mod_pow2_bits_low (signed w a) w i), signed_mod, Z.mod_pow2_bits_low by lia. f_equal. lia.
  - replace (Z.min i (w - 1)) with (w - 1) by lia. pose proof (signed_range w a Hw) as Hr.
    rewrite sign_bit by done. destruct (Z.ltb_spec (signed w a) 0).
    + rewrite <- (Z.lnot_involutive (signed w a)), Z.lnot_spec by done.
      rewrite (bit_above (w - 1)); [done|lia|unfold Z.lnot; lia|lia].
    + apply (bit_above (w - 1)); lia.
Qed.

Definition shift_flags (op : shift) (w a sh : Z) (f : flgtmp) : Z :=
  let r := shift_value op w a sh in
  eflags (shift_carry op w a sh) (parity_even r) (af_of f) (r mod 2 ^ w =? 0) (Z.testbit r (w - 1))
    (if sh =? 1 then shift_overflow op w a else vf_of f).

Lemma SHL_correct ig s :
  sim_ok s -> shift_count ig s <> 0 ->
  let w := opwidth (mode ig) in
  let a := dr w s in
  let sh := shift_count ig s in
  let s' := O_SHL ig s in
  sim_ok s' /\ only_dr w s s' /\ dr w s' = shift_value SHL w a sh mod 2 ^ w /\
  FlagSync_All (RFL s') = shift_flags SHL w a sh (RFL s).
Proof.
  intros Hs Hsh w a sh s'. pose proof (opwidth_ok (mode ig)) as Hw. fold w in Hw. pose proof (width_pos w Hw).
  pose proof (shift_count_range ig s Hs) as Hr. fold sh in Hr, Hsh.
  assert (0 <= a < 2 ^ w) as Ha by (apply dr_range; lia).
  unfold s', O_SHL. fold sh w a. destruct (Z.eqb_spec sh 0); [done|].
  set (raft := shl32 a sh). set (cy := if w =? 32 then _ else _).
  assert (cy = of_bool (shift_carry SHL w a sh)) as ->.
  { unfold cy, shift_carry. destruct (Z.eqb_spec w 32) as [E|E].
    - rewrite land_1, Z.shiftr_spec by lia. by rewrite E.
    - unfold raft. rewrite land_one_bit, testbit_shl32 by lia. destruct (Z.testbit a (w - sh)); [|done].
      simpl. rewrite Z.mul_1_l. unfold truth. assert (0 < 2 ^ w) by lia. by destruct (Z.eqb_spec (2 ^ w) 0); [lia|]. }
  assert (forall x, x mod 2 ^ w = raft mod 2 ^ w -> sx w x = sx w raft) as Hsx by (intros x Hx; unfold sx; by rewrite (signed_congr w x raft)).
  assert (raft mod 2 ^ w = shift_value SHL w a sh mod 2 ^ w) as Er.
  { apply Z.bits_inj'. intros i Hi. destruct (Z.lt_ge_cases i w).
    - rewrite !Z.mod_pow2_bits_low by lia. unfold raft. rewrite testbit_shl32 by lia. simpl. by rewrite Z.mul_pow2_bits by lia.
    - by rewrite !Z.mod_pow2_bits_high by lia. }
  rewrite <- (Hsx (shift_value SHL w a sh)) by done.
  destruct (shift_view sh (shift_carry SHL w a sh) a w w (shift_value SHL w a sh) (RFL s) Hw Hw (ok_flags _ Hs) (word_dr w s Hw))
    as [Hok Hfl].
  destruct (dr_result w raft (FlagHandleShift sh (of_bool (shift_carry SHL w a sh)) a w (sx w (shift_value SHL w a sh))) s _
              Hw Hs eq_refl Hok) as (H1 & H2 & H3 & H4).
  split; [done|]. split; [done|]. split; [by rewrite H3|]. by rewrite H4, Hfl.
Qed.

Lemma SHR_correct ig s :
  sim_ok s -> shift_count ig s <> 0 ->
  let w := opwidth (mode ig) in
  let a := dr w s in
  let sh := shift_count ig s in
  let s' := O_SHR ig s in
  sim_ok s' /\ only_dr w s s' /\ dr w s' = shift_value SHR w a sh mod 2 ^ w /\
  FlagSync_All (RFL s') = shift_flags SHR w a sh (RFL s).
Proof.
  intros Hs Hsh w a sh s'. pose proof (opwidth_ok (mode ig)) as Hw. fold w in Hw. pose proof (width_pos w Hw).
  pose proof (shift_count_range ig s Hs) as Hr. fold sh in Hr, Hsh.
  assert (0 <= a < 2 ^ w) as Ha by (apply dr_range; lia).
  unfold s', O_SHR. fold sh w a. destruct (Z.eqb_spec sh 0); [done|].
  rewrite land_1, !Z.shiftr_spec, Z.add_0_l, Z.shiftr_div_pow2 by lia.
  change (Z.testbit a (sh - 1)) with (shift_carry SHR w a sh). set (raft := a / 2 ^ sh).
  assert (word raft) as Hraft.
  { pose proof (word_dr w s Hw) as Hword. fold a in Hword. unfold raft. rewrite <- Z.shiftr_div_pow2 by lia. by apply word_shiftr; [lia|]. }
  destruct (shift_view sh (shift_carry SHR w a sh) raft w w raft (RFL s) Hw Hw (ok_flags _ Hs) Hraft) as [Hok Hfl].
  destruct (dr_result w raft (FlagHandleShift sh (of_bool (shift_carry SHR w a sh)) raft w (sx w raft)) s _
              Hw Hs eq_refl Hok) as (H1 & H2 & H3 & H4).
  split; [done|]. split; [done|]. split; [done|]. rewrite H4, Hfl. unfold shift_flags. f_equal.
  destruct (Z.eqb_spec sh 1) as [E|]; [|done]. unfold raft, shift_overflow. rewrite E, !Z.div_pow2_bits by lia.
  rewrite (bit_above w) by lia. rewrite xorb_false_l. f_equal. lia.
Qed.

Lemma SAR_correct ig s :
  sim_ok s -> shift_count ig s <> 0 ->
  let w := opwidth (mode ig) in
  let a := dr w s in
  let sh := shift_count ig s in
  let s' := O_SAR ig s in
  sim_ok s' /\ only_dr w s s' /\ dr w s' = shift_value SAR w a sh mod 2 ^ w /\
  FlagSync_All (RFL s') = shift_flags SAR w a sh (RFL s).
Proof.
  intros Hs Hsh w a sh s'. pose proof (opwidth_ok (mode ig)) as Hw. fold w in Hw. pose proof (width_pos w Hw).
  pose proof (shift_count_range ig s Hs) as Hr. fold sh in Hr, Hsh.
  assert (signed w (DR1 s) = signed w a) as Ea by (apply signed_congr; unfold a, dr; by rewrite Z.mod_mod by lia).
  unfold s', O_SAR. fold sh w. destruct (Z.eqb_spec sh 0); [done|]. rewrite Ea.
  rewrite land_1, !Z.shiftr_spec, Z.add_0_l, Z.shiftr_div_pow2 by lia.
  change (Z.testbit (signed w a) (sh - 1)) with (shift_carry SAR w a sh). set (raft := signed w a / 2 ^ sh).
  set (ws := if w =? 8 then 8 else 16). assert (width ws) as Hws by (unfold ws, width; destruct (w =? 8); lia).
  destruct (shift_view sh (shift_carry SAR w a sh) (u32 raft) ws w raft (RFL s) Hws Hw (ok_flags _ Hs) (u32_range _)) as [Hok Hfl].
  destruct (dr_result w raft (FlagHandleShift sh (of_bool (shift_carry SAR w a sh)) (u32 raft) ws (sx w raft)) s _
              Hw Hs eq_refl Hok) as (H1 & H2 & H3 & H4).
  split; [done|]. split; [done|]. split; [done|]. rewrite H4, Hfl. unfold shift_flags. f_equal.
  destruct (Z.eqb_spec sh 1) as [E|]; [|done]. pose proof (width_pos ws Hws).
  rewrite !testbit_u32 by lia. unfold raft, shift_overflow, ws. rewrite E.
  destruct Hw as [Ew | [Ew | Ew]]; rewrite Ew; simpl Z.eqb; cbv iota; rewrite !Z.div_pow2_bits, !bit_signed by lia;
    cbn -[Z.testbit]; try apply xorb_nilpotent. done.
Qed.

(** C33: SHL, SHR and SAR by the masked count give the shifted operand and the
    x86 flags for every width, a count of 0 changing nothing; the overflow
    flag of SAR is stated as the code computes it. *)
Theorem shift_correct op ig s :
  sim_ok s ->
  let w := opwidth (mode ig) in
  let a := dr w s in
  let sh := shift_count ig s in
  let s' := shift_op op ig s in
  if sh =? 0 then s' = s
  else sim_ok s' /\ only_dr w s s' /\ dr w s' = shift_value op w a sh mod 2 ^ w /\
       FlagSync_All (RFL s') = shift_flags op w a sh (RFL s).
Proof.
  intros Hs w a sh s'. destruct (Z.eqb_spec sh 0) as [E|E].
  - unfold s', sh in *. destruct op; unfold shift_op, O_SHL, O_SHR, O_SAR; by rewrite E.
  - destruct op; [by apply SHL_correct|by apply SHR_correct|by apply SAR_correct].
Qed.

(** ** Rotates *)

Inductive rotate := ROL | ROR | RCL | RCR.

Definition rotate_op (op : rotate) : IGen -> sim W -> sim W :=
  match op with ROL => O_ROL | ROR => O_ROR | RCL => O_RCL | RCR => O_RCR end.

Definition through_carry (op : rotate) : bool := match op with RCL | RCR => true | _ => false end.
Definition leftwards (op : rotate) : bool := match op with ROL | RCL => true | _ => false end.

(** Rotating [n] bits by [k] places to the left. *)
Definition is_rotl (n k x y : Z) : Prop := forall i, 0 <= i < n -> Z.testbit y i = Z.testbit x ((i - k) mod n).

(** The operand with the carry above it, and the places it is rotated by. *)
Definition with_carry (w a : Z) (c : bool) : Z := a + of_bool c * 2 ^ w.
Definition places (op : rotate) (w sh : Z) : Z := if leftwards op then sh else - sh.

(** Overflow of a rotate by one: the two bits at the top, before a left
    rotate or after a right one. *)
Definition top_differs (w x : Z) : bool := xorb (Z.testbit x (w - 1)) (Z.testbit x (w - 2)).

Definition rotate_flags (o : bool) (c : bool) (f : flgtmp) : Z := eflags c (pf_of f) (af_of f) (zf_of f) (sf_of f) o.

Lemma rotate_result w v sh c x s :
  width w -> sim_ok s -> word x ->
  let s' := flags (FlagHandleRotate sh (of_bool c) x w) (set_dr w v s) in
  sim_ok s' /\ only_dr w s s' /\ dr w s' = v mod 2 ^ w /\ cf s' = c /\
  FlagSync_All (RFL s') = rotate_flags (if sh =? 1 then top_differs w x else vf_of (RFL s)) c (RFL s).
Proof.
  intros Hw Hs Hx s'. destruct (rotate_bits sh c x w (RFL s) Hw (ok_flags _ Hs) Hx) as (Hok & Hc & Hv & Hp & Ha & Hz & Hsf).
  destruct (dr_result w v (FlagHandleRotate sh (of_bool c) x w) s _ Hw Hs eq_refl Hok) as (H1 & H2 & H3 & H4).
  split; [done|]. split; [done|]. split; [done|]. unfold cf. fold s' in H4. rewrite H4. split; [done|].
  rewrite FlagSync_All_eq by done. unfold view, rotate_flags. by rewrite Hc, Hv, Hp, Ha, Hz, Hsf.
Qed.

Lemma with_carry_bits w a c i :
  0 <= w -> 0 <= a < 2 ^ w -> 0 <= i ->
  Z.testbit (with_carry w a c) i = if i <? w then Z.testbit a i else if i =? w then c else false.
Proof.
  intros Hw Ha Hi. unfold with_carry.
  assert (a + of_bool c * 2 ^ w = Z.lor (Z.shiftl (of_bool c) w) a) as ->.
  { pose proof (Z.add_lor_land (Z.shiftl (of_bool c) w) a) as E.
    assert (Z.land (Z.shiftl (of_bool c) w) a = 0) as E0; [|rewrite <- Z.shiftl_mul_pow2 by done; lia].
    apply Z.bits_inj'. intros j Hj. rewrite Z.land_spec, Z.bits_0. destruct (Z.lt_ge_cases j w).
    - by rewrite Z.shiftl_spec_low by done.
    - rewrite (bit_above w a) by done. apply andb_false_r. }
  rewrite Z.lor_spec, Z.shiftl_spec by done. destruct (Z.ltb_spec i w).
  - by rewrite Z.testbit_neg_r by lia.
  - rewrite (bit_above w a), orb_false_r by done. destruct (Z.eqb_spec i w) as [->|].
    + rewrite Z.sub_diag. by destruct c.
    + destruct c; simpl of_bool; [|apply Z.bits_0]. change 1 with (2 ^ 0). rewrite Z.pow2_bits_false by lia. done.
Qed.

Lemma mod_wrap n k : 0 < n -> - n <= k < n -> k mod n = if k <? 0 then k + n else k.
Proof.
  intros Hn Hk. destruct (Z.ltb_spec k 0); [|apply Z.mod_small; lia].
  rewrite <- (Z.mod_add k 1) by lia. rewrite Z.mul_1_l. apply Z.mod_small. lia.
Qed.

Lemma top_differs_mod w x : 2 <= w -> top_differs w (x mod 2 ^ w) = top_differs w x.
Proof. intros Hw. unfold top_differs. by rewrite !Z.mod_pow2_bits_low by lia. Qed.

(** The low bits of the word that is rotated. *)
Lemma rotl_bits w a sh i :
  0 <= sh < w -> 0 <= a < 2 ^ w -> 0 <= i < w ->
  Z.testbit (Z.lor (Z.shiftl a sh) (Z.shiftr a (w - sh))) i = Z.testbit a ((i - sh) mod w).
Proof.
  intros Hsh Ha Hi. rewrite Z.lor_spec, Z.shiftl_spec, Z.shiftr_spec, mod_wrap by lia.
  destruct (Z.ltb_spec (i - sh) 0).
  - rewrite Z.testbit_neg_r by lia. rewrite orb_false_l. f_equal. lia.
  - rewrite (bit_above w a (i + (w - sh))) by lia. apply orb_false_r.
Qed.

(** The same with the carry between the two parts. *)
Lemma rcl_bits w a sh (c : bool) i :
  1 <= sh <= w -> 0 <= a < 2 ^ w -> 0 <= i < w ->
  Z.testbit (Z.lor (Z.lor (Z.shiftl a sh) (Z.shiftr a (w + 1 - sh))) (Z.shiftl (of_bool c) (sh - 1))) i =
  Z.testbit (with_carry w a c) ((i - sh) mod (w + 1)).
Proof.
  intros Hsh Ha Hi. rewrite !Z.lor_spec, !Z.shiftl_spec, Z.shiftr_spec, mod_wrap by lia.
  assert (forall j, Z.testbit (of_bool c) j = c && (j =? 0)) as Hc.
  { intros j. destruct c; simpl of_bool; [|apply Z.bits_0]. change 1 with (2 ^ 0). rewrite Z.pow2_bits_eqb by lia.
    by rewrite Z.eqb_sym. }
  rewrite Hc. destruct (Z.ltb_spec (i - sh) 0).
  - rewrite Z.testbit_neg_r, with_carry_bits by lia. rewrite orb_false_l.
    destruct (Z.ltb_spec (i - sh + (w + 1)) w).
    + destruct (Z.eqb_spec (i - (sh - 1)) 0); [lia|]. rewrite andb_false_r, orb_false_r. f_equal. lia.
    + assert (i - sh + (w + 1) = w) as -> by lia. rewrite Z.eqb_refl. rewrite (bit_above w a) by lia.
      destruct (Z.eqb_spec (i - (sh - 1)) 0); [|lia]. by rewrite orb_false_l, andb_true_r.
  - rewrite with_carry_bits by lia. destruct (Z.ltb_spec (i - sh) w); [|lia].
    rewrite (bit_above w a (i + (w + 1 - sh))) by lia. destruct (Z.eqb_spec (i - (sh - 1)) 0); [lia|].
    by rewrite andb_false_r, !orb_false_r.
Qed.

(** The statement for one operation. *)
Definition rotate_spec (op : rotate) (w sh : Z) s s' : Prop :=
  let a := dr w s in
  let r := dr w s' in
  let n := if through_carry op then w + 1 else w in
  let k := sh mod n in
  sim_ok s' /\ only_dr w s s' /\
  (if through_carry op then is_rotl n (places op w k) (with_carry w a (cf s)) (with_carry w r (cf s'))
   else is_rotl n (places op w k) a r /\ cf s' = Z.testbit r (if leftwards op then 0 else w - 1)) /\
  FlagSync_All (RFL s') =
    rotate_flags (if k =? 1 then top_differs w (if leftwards op then a else r) else vf_of (RFL s)) (cf s') (RFL s).

Lemma land_mod_width w sh : width w -> w <> 32 -> Z.land sh (w - 1) = sh mod w.
Proof.
  intros [-> | [-> | ->]] H; [|..|done].
  - change (8 - 1) with (Z.ones 3). by rewrite Z.land_ones.
  - change (16 - 1) with (Z.ones 4). by rewrite Z.land_ones.
Qed.

Lemma ROL_correct ig s :
  sim_ok s -> shift_count ig s <> 0 -> rotate_spec ROL (opwidth (mode ig)) (shift_count ig s) s (O_ROL ig s).
Proof.
  intros Hs Hsh. pose proof (shift_count_range ig s Hs) as Hr. unfold O_ROL.
  set (w := opwidth (mode ig)). set (sh := shift_count ig s) in *. set (a := dr w s).
  pose proof (opwidth_ok (mode ig)) as Hw. fold w in Hw. pose proof (width_pos w Hw).
  assert (0 <= a < 2 ^ w) as Ha by (apply dr_range; lia).
  destruct (Z.eqb_spec sh 0); [done|].
  assert ((if w =? 32 then sh else Z.land sh (w - 1)) = sh mod w) as ->.
  { destruct (Z.eqb_spec w 32) as [->|]; [by rewrite Z.mod_small by lia|by apply land_mod_width]. }
  set (k := sh mod w). assert (0 <= k < w) as Hk by (apply Z.mod_pos_bound; lia).
  set (raft := u32 _). rewrite land_1.
  assert (forall i, 0 <= i < w -> Z.testbit raft i = Z.testbit a ((i - k) mod w)) as Hb.
  { intros i Hi. unfold raft. rewrite testbit_u32 by lia. by apply rotl_bits. }
  destruct (rotate_result w raft k (Z.testbit raft 0) a s Hw Hs (word_dr w s Hw)) as (H1 & H2 & H3 & H4 & H5).
  set (s' := flags _ _) in *. split; [done|]. split; [done|]. split; [|by rewrite H5, <- H4].
  cbn [through_carry leftwards]. split.
  - intros i Hi. rewrite H3, Z.mod_pow2_bits_low by lia. by apply Hb.
  - rewrite H4, H3. by rewrite Z.mod_pow2_bits_low by lia.
Qed.

Lemma ROR_correct ig s :
  sim_ok s -> shift_count ig s <> 0 -> rotate_spec ROR (opwidth (mode ig)) (shift_count ig s) s (O_ROR ig s).
Proof.
  intros Hs Hsh. pose proof (shift_count_range ig s Hs) as Hr. unfold O_ROR.
  set (w := opwidth (mode ig)). set (sh := shift_count ig s) in *. set (a := dr w s).
  pose proof (opwidth_ok (mode ig)) as Hw. fold w in Hw. pose proof (width_pos w Hw).
  assert (0 <= a < 2 ^ w) as Ha by (apply dr_range; lia).
  destruct (Z.eqb_spec sh 0); [done|].
  assert ((if w =? 32 then sh else Z.land sh (w - 1)) = sh mod w) as ->.
  { destruct (Z.eqb_spec w 32) as [->|]; [by rewrite Z.mod_small by lia|by apply land_mod_width]. }
  set (k := sh mod w). assert (0 <= k < w) as Hk by (apply Z.mod_pos_bound; lia).
  set (raft := u32 _).
  assert (forall i, 0 <= i < w -> Z.testbit raft i = Z.testbit a ((i + k) mod w)) as Hb.
  { intros i Hi. unfold raft. rewrite testbit_u32, Z.lor_spec, Z.shiftl_spec, Z.shiftr_spec by lia.
    destruct (Z.lt_ge_cases (i + k) w).
    - rewrite Z.mod_small by lia. rewrite (Z.testbit_neg_r a (i - (w - k))) by lia. apply orb_false_r.
    - rewrite <- (Z.mod_add (i + k) (-1)), Z.mod_small by lia. rewrite (bit_above w a (i + k)) by lia.
      rewrite orb_false_l. f_equal. lia. }
  assert (of_bool (truth (Z.land raft (2 ^ (w - 1)))) = of_bool (Z.testbit raft (w - 1))) as ->.
  { rewrite land_one_bit by lia. destruct (Z.testbit raft (w - 1)); [|done]. simpl. rewrite Z.mul_1_l.
    unfold truth. assert (0 < 2 ^ (w - 1)) by lia. by destruct (Z.eqb_spec (2 ^ (w - 1)) 0); [lia|]. }
  destruct (rotate_result w raft k (Z.testbit raft (w - 1)) raft s Hw Hs (u32_range _)) as (H1 & H2 & H3 & H4 & H5).
  set (s' := flags _ _) in *. split; [done|]. split; [done|]. split.
  - cbn [through_carry leftwards]. split.
    + intros i Hi. rewrite H3, Z.mod_pow2_bits_low by lia. unfold places. cbn [leftwards].
      rewrite Z.sub_opp_r. by apply Hb.
    + rewrite H4, H3. by rewrite Z.mod_pow2_bits_low by lia.
  - rewrite H5, <- H4. cbn [through_carry leftwards]. by rewrite H3, top_differs_mod by lia.
Qed.

Lemma rotate_none op w sh s :
  sim_ok s -> (if through_carry op then sh mod (w + 1) = 0 else False) -> 0 < w -> rotate_spec op w sh s s.
Proof.
  intros Hs Hk Hw. unfold rotate_spec. destruct (through_carry op); [|done]. rewrite Hk.
  split; [done|]. split; [done|]. split.
  - intros i Hi. unfold places. destruct (leftwards op); rewrite ?Z.opp_0, Z.sub_0_r, Z.mod_small by lia; done.
  - simpl Z.eqb. cbv iota. by rewrite FlagSync_All_eq by apply Hs.
Qed.

Lemma rc_count w sh : width w -> 0 <= sh < 32 -> (if w =? 32 then sh else sh mod (w + 1)) = sh mod (w + 1).
Proof. intros Hw Hsh. destruct (Z.eqb_spec w 32) as [->|]; [|done]. by rewrite Z.mod_small by lia. Qed.

Lemma RCL_correct ig s : sim_ok s -> rotate_spec RCL (opwidth (mode ig)) (shift_count ig s) s (O_RCL ig s).
Proof.
  intros Hs. pose proof (shift_count_range ig s Hs) as Hr. unfold O_RCL.
  set (w := opwidth (mode ig)). set (sh := shift_count ig s) in *. set (a := dr w s).
  pose proof (opwidth_ok (mode ig)) as Hw. fold w in Hw. pose proof (width_pos w Hw).
  assert (0 <= a < 2 ^ w) as Ha by (apply dr_range; lia).
  rewrite rc_count, carry_in by done. set (k := sh mod (w + 1)).
  assert (0 <= k <= w) as Hk by (pose proof (Z.mod_pos_bound sh (w + 1)); lia).
  destruct (Z.eqb_spec k 0) as [E|E]; [apply rotate_none; [done|done|lia]|].
  set (raft := if w =? 32 then _ else _). rewrite land_1, Z.shiftr_spec, Z.add_0_l by lia.
  assert (forall i, 0 <= i < w -> Z.testbit raft i = Z.testbit (with_carry w a (cf s)) ((i - k) mod (w + 1))) as Hb.
  { intros i Hi. rewrite <- rcl_bits by lia. unfold raft. destruct (Z.eqb_spec w 32) as [Ew|Ew].
    - destruct (Z.ltb_spec 1 k); rewrite !Z.lor_spec, !testbit_shl32, !Z.shiftl_spec by lia; rewrite ?Ew.
      + replace (33 - k) with (32 + 1 - k) by lia. rewrite <- !orb_assoc. f_equal. apply orb_comm.
      + rewrite Z.shiftr_spec, (bit_above w a (i + (32 + 1 - k))) by lia. by rewrite orb_false_r.
    - by rewrite testbit_u32 by lia. }
  destruct (rotate_result w raft k (Z.testbit a (w - k)) a s Hw Hs (word_dr w s Hw)) as (H1 & H2 & H3 & H4 & H5).
  set (s' := flags _ _) in *. split; [done|]. split; [done|]. split; [|by rewrite H5, <- H4].
  cbn [through_carry leftwards]. intros i Hi. rewrite (with_carry_bits w (dr w s')) by (apply dr_range || lia; lia).
  unfold places. cbn [leftwards]. fold k. destruct (Z.ltb_spec i w).
  - rewrite H3, Z.mod_pow2_bits_low by lia. apply Hb. lia.
  - assert (i = w) as -> by lia. rewrite Z.eqb_refl, H4, Z.mod_small, with_carry_bits by lia.
    by destruct (Z.ltb_spec (w - k) w); [|lia].
Qed.

Lemma rcr_bits w a k (c : bool) i :
  0 <= k <= w -> 0 <= a < 2 ^ w -> 0 <= i < w ->
  Z.testbit (Z.lor (Z.lor (Z.shiftr a k) (Z.shiftl a (w + 1 - k))) (Z.shiftl (of_bool c) (w - k))) i =
  Z.testbit (with_carry w a c) ((i + k) mod (w + 1)).
Proof.
  intros Hk Ha Hi. destruct (Z.eq_dec k 0) as [->|].
  - rewrite Z.add_0_r, Z.mod_small, with_carry_bits, !Z.lor_spec, !Z.shiftl_spec, Z.shiftr_spec by lia.
    rewrite (Z.testbit_neg_r a (i - (w + 1 - 0))), (Z.testbit_neg_r (of_bool c)) by lia. destruct (Z.ltb_spec i w); [|lia].
    by rewrite Z.add_0_r, !orb_false_r.
  - rewrite <- (Z.mod_add (i + k) (-1)) by lia.
    replace (i + k + -1 * (w + 1)) with (i - (w + 1 - k)) by lia. rewrite <- rcl_bits by lia.
    replace (w + 1 - (w + 1 - k)) with k by lia. replace (w + 1 - k - 1) with (w - k) by lia.
    rewrite !Z.lor_spec. by destruct (Z.testbit (Z.shiftr a k) i), (Z.testbit (Z.shiftl a _) i).
Qed.

Lemma RCR_correct ig s :
  sim_ok s -> shift_count ig s <> 0 -> rotate_spec RCR (opwidth (mode ig)) (shift_count ig s) s (O_RCR ig s).
Proof.
  intros Hs Hsh. pose proof (shift_count_range ig s Hs) as Hr. unfold O_RCR.
  set (w := opwidth (mode ig)). set (sh := shift_count ig s) in *. set (a := dr w s).
  pose proof (opwidth_ok (mode ig)) as Hw. fold w in Hw. pose proof (width_pos w Hw).
  assert (0 <= a < 2 ^ w) as Ha by (apply dr_range; lia). destruct (Z.eqb_spec sh 0); [done|].
  rewrite rc_count, carry_in by done. set (k := sh mod (w + 1)).
  assert (0 <= k <= w) as Hk by (pose proof (Z.mod_pos_bound sh (w + 1)); lia).
  assert (w = 32 -> k <> 0) as Hk32 by (intros ->; unfold k; rewrite Z.mod_small; lia).
  set (raft := if w =? 32 then _ else _). set (cy := if _ || _ then _ else _).
  set (c' := if k =? 0 then cf s else Z.testbit a (k - 1)).
  assert (cy = of_bool c') as ->.
  { unfold cy, c', truth. destruct (Z.eqb_spec k 0) as [E|E]; simpl negb.
    - destruct (Z.eqb_spec w 32); [tauto|]. done.
    - rewrite orb_true_r, land_1, Z.shiftr_spec, Z.add_0_l by lia. done. }
  assert (word raft) as Hraft.
  { unfold raft. destruct (w =? 32); [|apply u32_range].
    pose proof (word_shiftr a k ltac:(lia) (word_dr w s Hw)). destruct (1 <? k); auto with bits. }
  assert (forall i, 0 <= i < w -> Z.testbit raft i = Z.testbit (with_carry w a (cf s)) ((i + k) mod (w + 1))) as Hb.
  { intros i Hi. rewrite <- rcr_bits by lia. unfold raft. destruct (Z.eqb_spec w 32) as [Ew|Ew].
    - destruct (Z.ltb_spec 1 k); rewrite !Z.lor_spec, !testbit_shl32, !Z.shiftl_spec by lia; rewrite ?Ew.
      + replace (33 - k) with (32 + 1 - k) by lia. rewrite <- !orb_assoc. f_equal. apply orb_comm.
      + rewrite (Z.testbit_neg_r a (i - (32 + 1 - k))) by (specialize (Hk32 Ew); lia). by rewrite orb_false_r.
    - by rewrite testbit_u32 by lia. }
  destruct (rotate_result w raft k c' raft s Hw Hs Hraft) as (H1 & H2 & H3 & H4 & H5).
  set (s' := flags _ _) in *. split; [done|]. split; [done|]. split.
  - cbn [through_carry leftwards]. intros i Hi. rewrite (with_carry_bits w (dr w s')) by (apply dr_range || lia; lia).
    unfold places. cbn [leftwards]. fold k. rewrite Z.sub_opp_r. destruct (Z.ltb_spec i w).
    + rewrite H3, Z.mod_pow2_bits_low by lia. apply Hb. lia.
    + assert (i = w) as -> by lia. rewrite Z.eqb_refl, H4. unfold c'. destruct (Z.eqb_spec k 0) as [->|].
      * rewrite Z.add_0_r, Z.mod_small, with_carry_bits, Z.ltb_irrefl, Z.eqb_refl by lia. done.
      * replace (w + k) with (k - 1 + 1 * (w + 1)) by lia. rewrite Z.mod_add, Z.mod_small, with_carry_bits by lia.
        by destruct (Z.ltb_spec (k - 1) w); [|lia].
  - rewrite H5, <- H4. cbn [through_carry leftwards]. fold k. by rewrite H3, top_differs_mod by lia.
Qed.

(** The four rotates permute the bits of the operand, with the carry for
    RCL and RCR, by the count modulo the width, and set only carry and, for a
    rotation by one, overflow. *)
Theorem rotate_correct op ig s :
  sim_ok s ->
  let sh := shift_count ig s in
  let s' := rotate_op op ig s in
  if sh =? 0 then s' = s else rotate_spec op (opwidth (mode ig)) sh s s'.
Proof.
  intros Hs sh s'. pose proof (opwidth_ok (mode ig)) as Hw. pose proof (width_pos _ Hw).
  destruct (Z.eqb_spec sh 0) as [E|E].
  - unfold s', sh in *. destruct op; unfold rotate_op, O_ROL, O_ROR, O_RCL, O_RCR; rewrite E; try done.
    rewrite rc_count by (done || lia). by rewrite Z.mod_0_l by lia.
  - destruct op; [by apply ROL_correct|by apply ROR_correct|by apply RCL_correct|by apply RCR_correct].
Qed.

End shifts.
