(* ===== verification/SimMemSpec.v ===== *)
(** * String and stack operations of the simulated CPU over mapped memory *)

From stdpp Require Import base numbers list.
From Stdlib Require Import ZArith Lia.
From S2P Require Import Prelude Machine SimFlags SimFlagsSpec SimCpu SimAlu SimMem SimAluSpec.

Local Open Scope Z_scope.

(** ** Offsets of a string operation *)

(** [d] is the direction, [SR1] the offset as the loop keeps it: after a wrap
    downwards it is 0xffff, not the offset of the next element. *)
Definition stos_offset (d size SR1 di : Z) : Prop :=
  (d = 1 /\ SR1 = di) \/ (d = -1 /\ SR1 / size * size = di).

Lemma aligned_land size x : size = 1 \/ size = 2 \/ size = 4 -> x mod size = 0 -> Z.land x (size - 1) = 0.
Proof.
  intros [-> | [-> | ->]] E.
  - apply Z.land_0_r.
  - change (2 - 1) with (Z.ones 1). by rewrite Z.land_ones.
  - change (4 - 1) with (Z.ones 2). by rewrite Z.land_ones.
Qed.

(** The elements of the next piece. *)
Lemma piece_offsets d size i SR1 di k :
  size = 1 \/ size = 2 \/ size = 4 -> 0 <= SR1 < 65536 -> stos_offset d size SR1 di -> di mod size = 0 ->
  0 <= i ->
  (if (if d =? -1 then SR1 else 0x10000 - SR1) <? (if d =? -1 then i - 1 else i) * size
   then k = (if d =? -1 then SR1 else 0x10000 - SR1) / size + (if d <? 0 then 1 else 0) else k = i) ->
  (forall j, 0 <= j < k -> 0 <= di + j * (d * size) < 65536) /\ 0 <= k <= i /\
  (((if d =? -1 then SR1 else 0x10000 - SR1) <? (if d =? -1 then i - 1 else i) * size) = true ->
   0 < k /\ di + k * (d * size) = (if d =? -1 then - size else 65536)).
Proof.
  intros Hsize HSR Hoff Hdi Hi Hk.
  assert (exists q, di = q * size) as [q Hq].
  { exists (di / size). pose proof (Z.div_mod di size ltac:(lia)). lia. }
  destruct Hoff as [[-> ->] | [-> Ho]]; simpl in *.
  - destruct (Z.ltb_spec (65536 - di) (i * size)).
    + assert (k * size = 65536 - di) by (destruct Hsize as [-> | [-> | ->]]; Z.to_euclidean_division_equations; lia).
      split; [intros j Hj; nia|]. split; [nia|]. intros _. split; [nia|].
      lia.
    + split; [intros j Hj; nia|]. split; [lia|]. done.
  - assert (0 <= di <= SR1) by (rewrite <- Ho; destruct Hsize as [-> | [-> | ->]]; Z.to_euclidean_division_equations; lia).
    destruct (Z.ltb_spec SR1 ((i - 1) * size)).
    + assert ((k - 1) * size = di) by (rewrite <- Ho; destruct Hsize as [-> | [-> | ->]]; Z.to_euclidean_division_equations; lia).
      split; [intros j Hj; nia|]. split; [nia|]. intros _. split; [nia|].
      lia.
    + assert ((i - 1) * size <= di) by (rewrite <- Ho; destruct Hsize as [-> | [-> | ->]]; Z.to_euclidean_division_equations; lia).
      split; [intros j Hj; nia|]. split; [lia|]. done.
Qed.

#[local] Set Default Proof Using "Type".

Section memory.
Context {W : Type} `{BusLaws W}.
Context (code : Z -> IGen) (FindPC : Z -> Z) (SetSegProt : Z -> Z -> Sim W unit).
Implicit Types (ig : IGen) (s : sim W) (m : bytes).

(** No page fault is raised. *)
Definition safe {A} (c : Sim W A) s (Q : A -> sim W -> Prop) : Prop := wpx c s Q (fun _ _ => False).

(** [s'] is [s] with the memory [m]. *)
Definition mem_is s s' m : Prop :=
  exists w', s' = s <| world := w' |> /\ (forall b, flat w' b = m b) /\
             (forall b, mapped w' b <-> mapped (world s) b).

Definition mem s : bytes := flat (world s).

(** The [w] bits at [x] can be accessed. *)
Definition mapped_at s (w x : Z) : Prop :=
  0 <= x /\ x + w / 8 <= 2 ^ 32 /\ forall b, x <= b < x + w / 8 -> mapped (world s) b.

Lemma mem_is_refl s : mem_is s s (mem s).
Proof. exists (world s). by destruct s. Qed.

Lemma mem_is_mem s s' m b : mem_is s s' m -> mem s' b = m b.
Proof. intros (w' & -> & Hm & _). apply Hm. Qed.

Lemma cells_cases w : width w -> (cells w = 1 \/ cells w = 2 \/ cells w = 4)%nat.
Proof. intros [-> | [-> | ->]]; auto. Qed.

Lemma on_bus_law {A} (c : X pagefault W A) s (Q : A -> sim W -> Prop) :
  wpx c (world s) (fun a w' => Q a (s <| world := w' |>)) (fun _ _ => False) ->
  safe (access FindPC c) s Q.
Proof.
  intros Hc. unfold access. apply wpx_bind. unfold wpx, on_bus, wp in *.
  destruct (c (world s)) as [[[e|a] w']|f]; [done| |done]. exact Hc.
Qed.

Lemma rd_law w x s0 s m (Q : Z -> sim W -> Prop) :
  width w -> mem_is s0 s m -> mapped_at s0 w x ->
  (forall s', mem_is s0 s' m -> Q (load (cells w) m x) s') ->
  safe (rd FindPC w x) s Q.
Proof.
  intros Hw (w0 & -> & Hm & Hmap) (Hx & Hhi & Ha) HQ. apply on_bus_law.
  pose proof (proj2 (cells_width w Hw)) as Ec.
  eapply wpx_mono; [eapply bus_read_law; [by apply cells_cases|lia|rewrite Ec; lia|]| |done].
  - rewrite Ec. intros i Hi. apply Hmap, Ha. lia.
  - intros v w' [-> [Hf Hmp]]. cbn [world upd] in *.
    assert (load (cells w) (flat w0) x = load (cells w) m x) as -> by (apply load_ext; intros; apply Hm).
    apply HQ. exists w'. split; [done|]. split; intros b; [by rewrite Hf|]. by rewrite Hmp.
Qed.

Lemma wr_law w x v s0 s m (Q : unit -> sim W -> Prop) :
  width w -> mem_is s0 s m -> mapped_at s0 w x ->
  (forall s', mem_is s0 s' (store (cells w) (v mod 2 ^ w) x m) -> Q tt s') ->
  safe (wr FindPC w x v) s Q.
Proof.
  intros Hw (w0 & -> & Hm & Hmap) (Hx & Hhi & Ha) HQ. apply on_bus_law.
  pose proof (proj2 (cells_width w Hw)) as Ec.
  eapply wpx_mono; [eapply bus_write_law; [by apply cells_cases|lia|rewrite Ec; lia|]| |done].
  - rewrite Ec. intros i Hi. apply Hmap, Ha. lia.
  - intros [] w' [Hf Hmp]. cbn [world upd] in *.
    apply HQ. exists w'. split; [done|]. split; intros b.
    + rewrite Hf. unfold store. by destruct (_ && _).
    + by rewrite Hmp.
Qed.

Lemma peek_law {A} (f : sim W -> A) s (Q : A -> sim W -> Prop) : Q (f s) s -> safe (peek f) s Q.
Proof. intros HQ. by apply wpx_lift, wp_gets. Qed.

Lemma update_law (f : sim W -> sim W) s (Q : unit -> sim W -> Prop) : Q tt (f s) -> safe (update f) s Q.
Proof. intros HQ. by apply wpx_lift, wp_modify. Qed.

Lemma bind_law {A B} (c : Sim W A) (k : A -> Sim W B) s Q :
  safe c s (fun a s' => safe (k a) s' Q) -> safe (xbind c k) s Q.
Proof. apply wpx_bind. Qed.

Lemma ret_law {A} (a : A) s (Q : A -> sim W -> Prop) : Q a s -> safe (xret a : Sim W A) s Q.
Proof. apply wpx_ret. Qed.

Lemma load_width w m x : width w -> bytes_ok m -> 0 <= load (cells w) m x < 2 ^ w.
Proof.
  intros Hw Hm. pose proof (load_range (cells w) m x Hm) as Hr. by rewrite (proj1 (cells_width w Hw)) in Hr.
Qed.

(** ** Copying *)

(** [n] elements of [w] bits, one after the other. *)
Fixpoint copy (w step : Z) (n : nat) (dest src : Z) m : bytes :=
  match n with
  | O => m
  | S n => copy w step n (dest + step) (src + step) (store (cells w) (load (cells w) m src) dest m)
  end.

Definition elems_mapped s (w step : Z) (n : nat) (x : Z) : Prop :=
  forall k, 0 <= k < Z.of_nat n -> mapped_at s w (x + k * step).

Lemma width_bytes w : width w -> 1 <= w / 8 <= 4.
Proof. by intros [-> | [-> | ->]]. Qed.

Lemma elems_mapped_step s w step n x :
  1 <= w / 8 -> elems_mapped s w step (S n) x ->
  mapped_at s w x /\ elems_mapped s w step n (x + step) /\ (n <> O -> u32 (x + step) = x + step).
Proof.
  intros Hw Hm. assert (mapped_at s w x) as Hx by (specialize (Hm 0 ltac:(lia)); by rewrite Z.add_0_r in Hm).
  split; [done|]. split.
  - intros k Hk. specialize (Hm (k + 1) ltac:(lia)). by replace (x + step + k * step) with (x + (k + 1) * step) by lia.
  - intros Hn. specialize (Hm 1 ltac:(lia)) as (Hlo & Hhi & _). apply u32_small. lia.
Qed.

(** The loop of MOVS computes [copy]. *)
Lemma movs_loop_law w step n s0 s m dest src (Q : Z * Z -> sim W -> Prop) :
  width w -> mem_is s0 s m -> elems_mapped s0 w step n dest -> elems_mapped s0 w step n src ->
  (forall r s', mem_is s0 s' (copy w step n dest src m) -> Q r s') ->
  safe (movs_loop FindPC w step n dest src) s Q.
Proof.
  intros Hw. pose proof (width_bytes w Hw) as Hb. revert s m dest src.
  induction n as [|n IH]; intros s m dest src Hs Hd Hsr HQ; cbn [movs_loop]; [by apply ret_law, HQ|].
  apply elems_mapped_step in Hd as (Hd1 & Hd2 & Hd3); [|lia]. apply elems_mapped_step in Hsr as (Hs1 & Hs2 & Hs3); [|lia].
  apply bind_law, (rd_law w src s0 s m); [done..|]. intros s1 H1.
  apply bind_law, (wr_law w dest _ s0 s1 m); [done..|]. intros s2 H2.
  assert (load (cells w) m src mod 2 ^ w = load (cells w) m src) as E.
  { apply Z.mod_small, load_width; [done|]. intros b. destruct Hs as (w0 & -> & Hm & _). rewrite <- Hm. apply flat_ok. }
  rewrite E in H2. destruct n as [|n]; [cbn [movs_loop]; apply ret_law; by apply HQ|].
  rewrite Hd3, Hs3 by done. eapply IH; [exact H2|done..].
Qed.

(** A copy to a disjoint place moves the bytes. *)
Lemma copy_forward w n dest src m :
  width w ->
  let len := Z.of_nat n * (w / 8) in
  dest + len <= src \/ src + len <= dest -> bytes_ok m ->
  forall b, copy w (w / 8) n dest src m b = if (dest <=? b) && (b <? dest + len) then m (src + (b - dest)) else m b.
Proof.
  intros Hw len. unfold len. clear len. pose proof (width_bytes w Hw) as Hb. revert dest src m.
  induction n as [|n IH]; intros dest src m Hdis Hm b; cbn [copy]; [zbool; simpl; lia || done|].
  pose proof (proj2 (cells_width w Hw)) as Ec.
  rewrite IH; [|lia|by apply store_ok].
  replace (dest + w / 8 + Z.of_nat n * (w / 8)) with (dest + Z.of_nat (S n) * (w / 8)) by lia.
  destruct (Z.leb_spec (dest + w / 8) b); simpl.
  - destruct (Z.leb_spec dest b); [|lia]. destruct (Z.ltb_spec b (dest + Z.of_nat (S n) * (w / 8))); simpl;
      rewrite store_miss by lia; [f_equal; lia|done].
  - destruct (Z.leb_spec dest b); simpl; [|by apply store_miss; lia].
    destruct (Z.ltb_spec b (dest + Z.of_nat (S n) * (w / 8))); [|nia]. simpl.
    replace b with (dest + (b - dest)) at 1 by lia. rewrite store_hit by lia.
    apply load_digit; [done|lia].
Qed.

(** The same downwards: [lo] and [slo] are the lowest bytes of the blocks. *)
Lemma copy_backward w n dest src m :
  width w ->
  let len := Z.of_nat n * (w / 8) in
  let lo := dest - (Z.of_nat n - 1) * (w / 8) in
  let slo := src - (Z.of_nat n - 1) * (w / 8) in
  lo + len <= slo \/ slo + len <= lo -> bytes_ok m ->
  forall b, copy w (- (w / 8)) n dest src m b = if (lo <=? b) && (b <? lo + len) then m (slo + (b - lo)) else m b.
Proof.
  intros Hw. cbv zeta. pose proof (width_bytes w Hw) as Hb. revert dest src m.
  induction n as [|n IH]; intros dest src m Hdis Hm b; cbn [copy]; [zbool; simpl; lia || done|].
  pose proof (proj2 (cells_width w Hw)) as Ec. set (z := w / 8) in *. clearbody z.
  rewrite IH; [|nia|by apply store_ok].
  replace (dest + - z - (Z.of_nat n - 1) * z) with (dest - (Z.of_nat (S n) - 1) * z) by lia.
  replace (src + - z - (Z.of_nat n - 1) * z) with (src - (Z.of_nat (S n) - 1) * z) by lia.
  set (lo := dest - (Z.of_nat (S n) - 1) * z) in *. set (slo := src - (Z.of_nat (S n) - 1) * z) in *.
  assert (dest = lo + Z.of_nat n * z /\ src = slo + Z.of_nat n * z /\ Z.of_nat (S n) * z = Z.of_nat n * z + z) as (Ed & Es & El) by (unfold lo, slo; lia).
  assert (0 <= Z.of_nat n * z) by nia. clearbody lo slo. rewrite El in *. subst dest src.
  destruct (Z.leb_spec lo b); simpl; [|by apply store_miss; lia].
  destruct (Z.ltb_spec b (lo + Z.of_nat n * z)).
  - destruct (Z.ltb_spec b (lo + (Z.of_nat n * z + z))); [|lia]. apply store_miss. lia.
  - destruct (Z.ltb_spec b (lo + (Z.of_nat n * z + z))); [|apply store_miss; lia].
    replace b with (lo + Z.of_nat n * z + (b - (lo + Z.of_nat n * z))) at 1 by lia. rewrite store_hit by lia.
    rewrite load_digit by (done || lia). f_equal. lia.
Qed.

(** ** MOVS *)

Lemma has_bit (m k : Z) : 0 <= k -> has m (2 ^ k) = Z.testbit m k.
Proof.
  intros Hk. unfold has, truth. rewrite land_one_bit by done. assert (0 < 2 ^ k) by lia.
  destruct (Z.testbit m k); simpl of_bool; rewrite ?Z.mul_1_l, ?Z.mul_0_l; [|done].
  by destruct (Z.eqb_spec (2 ^ k) 0); [lia|].
Qed.

Lemma OPSIZE_width (m : Z) : OPSIZE m = opwidth m / 8.
Proof.
  unfold OPSIZE, opwidth. change (has m MBYTE) with (has m (2 ^ 2)). change (has m DATA16) with (has m (2 ^ 1)).
  rewrite !has_bit by lia. change (Z.lor DATA16 MBYTE) with (Z.lor (2 ^ 1) (2 ^ 2)).
  rewrite Z.land_lor_distr_r, !land_one_bit by lia. by destruct (Z.testbit m 2), (Z.testbit m 1).
Qed.

(** The step of a string operation, by the direction flag. *)
Definition string_step ig s : Z := df s * (opwidth (mode ig) / 8).

(** The lowest byte of the block of [n] elements that starts at [x]. *)
Definition string_low ig s (n x : Z) : Z := if df s =? -1 then x - (n - 1) * (opwidth (mode ig) / 8) else x.

(** Neither SI nor DI leaves its segment. *)
Definition no_wrap ig s (n x : Z) : Prop :=
  let size := opwidth (mode ig) / 8 in
  if df s =? -1 then (n - 1) * size <= x else x + n * size <= 0x10000.

Lemma df_cases s : df s = -1 \/ df s = 1.
Proof. unfold df. destruct (has _ _); auto. Qed.

Lemma pieces_whole ig s n x y :
  0 < n <= 0x10000 -> no_wrap ig s n x -> no_wrap ig s n y ->
  pieces (mode ig) (df s) n (if df s =? -1 then Z.min y x else 0x10000 - Z.max y x) = Some (n, 0).
Proof.
  intros Hn Hx Hy. unfold pieces, no_wrap in *. rewrite OPSIZE_width.
  pose proof (width_bytes _ (opwidth_ok (mode ig))) as Hb. set (size := opwidth (mode ig) / 8) in *. clearbody size.
  destruct (df_cases s) as [E | E]; rewrite E in *; simpl in *;
    rewrite u32_small by nia; zbool; done || lia.
Qed.

Lemma rep_count_range ig s : sim_ok s -> 0 <= rep_count ig s < 2 ^ 32 /\ (has (mode ig) ADDR16 = true -> rep_count ig s < 2 ^ 16).
Proof.
  intros [Hc _ _]. unfold rep_count. destruct (has (mode ig) (Z.lor MREP MREPNE)); [|lia].
  destruct (has (mode ig) ADDR16).
  - pose proof (reg_range 16 Ofs_ECX s ltac:(unfold width; lia) Hc). lia.
  - pose proof (reg_range 32 Ofs_ECX s ltac:(unfold width; lia) Hc). lia.
Qed.

(** Where MOVS and STOS write. *)
Definition string_dest ig s : Z :=
  u32 (CPULONG Ofs_XES s + reg (if has (mode ig) ADDR16 then 16 else 32) Ofs_EDI s).

(** C34: When the memory is mapped and, in 16-bit addressing, neither SI nor
    DI leaves its segment, REP MOVS copies element by element in the direction
    of DF; for disjoint blocks, upwards as well as downwards, every byte of
    the destination block becomes the byte of the source block at the same
    offset; it changes nothing else. *)
Theorem O_MOVS_MovD_correct ig s :
  sim_ok s ->
  let w := opwidth (mode ig) in
  let n := rep_count ig s in
  let step := string_step ig s in
  let dest := string_dest ig s in
  (has (mode ig) ADDR16 = true -> no_wrap ig s n (CPUWORD Ofs_ESI s) /\ no_wrap ig s n (CPUWORD Ofs_EDI s)) ->
  elems_mapped s w step (Z.to_nat n) dest -> elems_mapped s w step (Z.to_nat n) (mem_ref s) ->
  safe (O_MOVS_MovD FindPC ig) s (fun _ s' =>
    mem_is s s' (copy w step (Z.to_nat n) dest (mem_ref s) (mem s)) /\
    (let len := n * (w / 8) in
     let lo := string_low ig s n dest in
     let slo := string_low ig s n (mem_ref s) in
     lo + len <= slo \/ slo + len <= lo ->
     forall b, mem s' b = if (lo <=? b) && (b <? lo + len) then mem s (slo + (b - lo)) else mem s b)).
Proof.
  intros Hs w n step dest Hwrap Hd Hsr. pose proof (opwidth_ok (mode ig)) as Hw. fold w in Hw.
  pose proof (rep_count_range ig s Hs) as [Hn Hn16]. fold n in Hn, Hn16.
  assert (forall s', mem_is s s' (copy w step (Z.to_nat n) dest (mem_ref s) (mem s)) ->
    mem_is s s' (copy w step (Z.to_nat n) dest (mem_ref s) (mem s)) /\
    (let len := n * (w / 8) in
     let lo := string_low ig s n dest in
     let slo := string_low ig s n (mem_ref s) in
     lo + len <= slo \/ slo + len <= lo ->
     forall b, mem s' b = if (lo <=? b) && (b <? lo + len) then mem s (slo + (b - lo)) else mem s b)) as Hend.
  { intros s' Hm. split; [done|]. cbv zeta. intros Hdis b. rewrite (mem_is_mem _ _ _ b Hm).
    unfold step, string_step, string_low in *. fold w in Hdis |- *. destruct (df_cases s) as [E|E]; rewrite E in *; simpl in Hdis |- *.
    - replace (-1 * (w / 8)) with (- (w / 8)) by lia. rewrite copy_backward by (done || rewrite ?Z2Nat.id by lia; try done; apply flat_ok).
      by rewrite Z2Nat.id by lia.
    - rewrite Z.mul_1_l, copy_forward by (done || rewrite ?Z2Nat.id by lia; try done; apply flat_ok).
      by rewrite Z2Nat.id by lia. }
  unfold O_MOVS_MovD. apply bind_law, peek_law. cbn [id]. fold n. cbv zeta. fold (string_dest ig s). fold dest.
  cbn [movd_loop]. apply bind_law, peek_law. destruct (Z.eqb_spec n 0) as [E|E].
  { apply ret_law, Hend. rewrite E. apply mem_is_refl. }
  assert ((if has (mode ig) ADDR16 then
             pieces (mode ig) (df s) n (if df s =? -1 then Z.min (CPUWORD Ofs_EDI s) (CPUWORD Ofs_ESI s)
                                        else 0x10000 - Z.max (CPUWORD Ofs_EDI s) (CPUWORD Ofs_ESI s))
           else Some (n, 0)) = Some (n, 0)) as ->.
  { destruct (has (mode ig) ADDR16); [|done]. destruct (Hwrap eq_refl). specialize (Hn16 eq_refl).
    apply pieces_whole; [lia|done..]. }
  apply bind_law, peek_law. apply bind_law.
  change (df s * (opwidth (mode ig) / 8)) with step. fold w.
  apply (movs_loop_law w step (Z.to_nat n) s s (mem s)); [done|apply mem_is_refl|done..|].
  intros [r1 r2] s' Hm. simpl. apply ret_law. by apply Hend.
Qed.

(** ** STOS *)

Fixpoint fill_elems (w step : Z) (n : nat) (addr v : Z) m : bytes :=
  match n with O => m | S n => fill_elems w step n (addr + step) v (store (cells w) v addr m) end.

Lemma stos_loop_law w step n s0 s m addr v (Q : Z -> sim W -> Prop) :
  width w -> mem_is s0 s m -> elems_mapped s0 w step n addr -> v = dr w s0 ->
  (forall r s', mem_is s0 s' (fill_elems w step n addr v m) ->
     r = (if Nat.eqb n 0 then addr else u32 (addr + Z.of_nat n * step)) -> Q r s') ->
  safe (stos_loop FindPC w step n addr) s Q.
Proof.
  intros Hw. pose proof (width_bytes w Hw) as Hb. pose proof (width_pos w Hw). intros Hs Hd Hv. revert s m addr Hs Hd.
  induction n as [|n IH]; intros s m addr Hs Hd HQ; cbn [stos_loop]; [by apply ret_law, HQ|].
  apply elems_mapped_step in Hd as (Hd1 & Hd2 & Hd3); [|lia].
  apply bind_law, peek_law, bind_law. apply (wr_law w addr _ s0 s m); [done..|]. intros s1 Hs1.
  assert (dr w s mod 2 ^ w = v) as E.
  { destruct Hs as (w0 & -> & _). rewrite Hv. unfold dr. cbn [DR1 upd]. apply Z.mod_mod. lia. }
  rewrite E in Hs1. destruct n as [|n].
  { cbn [stos_loop]. apply ret_law, HQ; [done|]. simpl. f_equal. lia. }
  rewrite Hd3 by done. eapply IH; [exact Hs1|done|]. intros r s' Hm Hr. apply HQ; [done|]. rewrite Hr. cbn [Nat.eqb].
  f_equal. lia.
Qed.

(** Every byte of a filled area. *)
Lemma fill_forward w n addr v m :
  width w ->
  forall b, fill_elems w (w / 8) n addr v m b =
    if (addr <=? b) && (b <? addr + Z.of_nat n * (w / 8)) then v / 2 ^ (8 * ((b - addr) mod (w / 8))) mod 256 else m b.
Proof.
  intros Hw. pose proof (width_bytes w Hw) as Hb. revert addr m.
  induction n as [|n IH]; intros addr m b; cbn [fill_elems]; [zbool; simpl; lia || done|].
  pose proof (proj2 (cells_width w Hw)) as Ec. rewrite IH.
  replace (addr + w / 8 + Z.of_nat n * (w / 8)) with (addr + Z.of_nat (S n) * (w / 8)) by lia.
  destruct (Z.leb_spec (addr + w / 8) b); simpl.
  - destruct (Z.leb_spec addr b); [|lia]. destruct (Z.ltb_spec b (addr + Z.of_nat (S n) * (w / 8))); simpl;
      [|by rewrite store_miss by lia].
    replace (b - addr) with (b - (addr + w / 8) + 1 * (w / 8)) by lia. by rewrite Z.mod_add by lia.
  - destruct (Z.leb_spec addr b); simpl; [|by apply store_miss; lia].
    destruct (Z.ltb_spec b (addr + Z.of_nat (S n) * (w / 8))); [|nia]. simpl.
    replace b with (addr + (b - addr)) at 1 by lia. rewrite store_hit by lia. by rewrite (Z.mod_small (b - addr)) by lia.
Qed.

(** The same with the offset wrapping in a segment of 64K. *)
Fixpoint fill_wrap (w step : Z) (n : nat) (base di v : Z) m : bytes :=
  match n with
  | O => m
  | S n => fill_wrap w step n base ((di + step) mod 65536) v (store (cells w) v (base + di) m)
  end.

(** A piece that does not wrap. *)
Lemma fill_wrap_piece w step k n base di v m :
  0 <= di < 65536 -> (forall j, 0 <= j < Z.of_nat k -> 0 <= di + j * step < 65536) ->
  fill_wrap w step (k + n) base di v m =
  fill_wrap w step n base ((di + Z.of_nat k * step) mod 65536) v (fill_elems w step k (base + di) v m).
Proof.
  revert di m. induction k as [|k IH]; intros di m Hdi Hj.
  { simpl. by rewrite Z.add_0_r, Z.mod_small. }
  rewrite Nat.add_succ_l. cbn [fill_wrap fill_elems]. destruct k as [|k].
  { simpl. by rewrite Z.mul_1_l. }
  assert (0 <= di + step < 65536) as H1 by (specialize (Hj 1 ltac:(lia)); lia).
  rewrite (Z.mod_small (di + step)) by done. rewrite IH; [|done|].
  - f_equal; [f_equal; lia|]. f_equal; lia.
  - intros j Hj'. specialize (Hj (j + 1) ltac:(lia)). lia.
Qed.

Definition wrap_mapped s (w step : Z) (n base di : Z) : Prop :=
  forall k, 0 <= k < n -> mapped_at s w (base + (di + k * step) mod 65536).

Lemma df_mem s0 s m : mem_is s0 s m -> df s = df s0.
Proof. by intros (w' & -> & _). Qed.

Lemma fill_wrap_0 w step base di v m : fill_wrap w step 0 base di v m = m.
Proof. done. Qed.

Lemma stod_loop_law fuel ig s0 base v : forall s m i SR1 di AR1 (Q : unit -> sim W -> Prop),
  let w := opwidth (mode ig) in
  let size := w / 8 in
  let step := df s0 * size in
  has (mode ig) ADDR16 = true -> v = dr w s0 -> 0 <= base -> base mod size = 0 ->
  mem_is s0 s m -> 0 <= i < 2 ^ 16 -> (Z.to_nat i < fuel)%nat ->
  0 <= SR1 < 65536 -> 0 <= di < 65536 -> stos_offset (df s0) size SR1 di -> di mod size = 0 -> AR1 = base + di ->
  wrap_mapped s0 w step i base di ->
  (forall s', mem_is s0 s' (fill_wrap w step (Z.to_nat i) base di v m) -> Q tt s') ->
  safe (stod_loop FindPC fuel ig i SR1 AR1) s Q.
Proof.
  induction fuel as [|fuel IH]; [lia|].
  intros s m i SR1 di AR1 Q w size step H16 Hv Hbase Hbal Hs Hi Hfuel HSR Hdi Hoff Hal HAR Hmap HQ.
  pose proof (opwidth_ok (mode ig)) as Hw. fold w in Hw.
  assert (size = 1 \/ size = 2 \/ size = 4) as Hsize by (unfold size; destruct Hw as [-> | [-> | ->]]; auto).
  cbn [stod_loop]. apply bind_law, peek_law. rewrite (df_mem s0 s m) by done. rewrite OPSIZE_width. fold w. fold size. cbv zeta.
  set (minofs := if df s0 =? -1 then SR1 else _). set (bb := (if df s0 =? -1 then i - 1 else i) * size).
  assert (0 < i -> u32 bb = bb) as Hbb.
  { intros Hpos. apply u32_small. unfold bb. destruct (df s0 =? -1); nia. }
  assert (Z.land AR1 (size - 1) = 0) as ->.
  { apply aligned_land; [done|]. rewrite HAR, Zplus_mod, Hbal, Hal. apply Z.mod_0_l. lia. }
  rewrite H16, andb_true_l. change (truth 0) with false. rewrite andb_false_r.
  set (k := if minofs <? bb then minofs / size + (if df s0 <? 0 then 1 else 0) else i).
  destruct (piece_offsets (df s0) size i SR1 di k Hsize HSR Hoff Hal ltac:(lia)) as (Hpiece & Hki & Hsplit).
  { fold minofs bb. unfold k. by destruct (minofs <? bb). }
  fold minofs bb in Hsplit.
  assert ((if truth i && (minofs <? u32 bb)
           then (minofs / size + (if df s0 <? 0 then 1 else 0),
                 u32 (i - (minofs / size + (if df s0 <? 0 then 1 else 0)))) else (i, 0)) = (k, i - k)) as ->.
  { unfold truth. destruct (Z.eqb_spec i 0) as [E|E].
    - simpl. assert (k = 0) by lia. f_equal; lia.
    - simpl. rewrite Hbb by lia. unfold k in *. destruct (minofs <? bb); [|f_equal; lia]. f_equal. apply u32_small. lia. }
  apply bind_law.
  assert (elems_mapped s0 w step (Z.to_nat k) (base + di)) as Hel.
  { intros j Hj. specialize (Hmap j ltac:(lia)). rewrite Z.mod_small in Hmap by (apply Hpiece; lia).
    by replace (base + di + j * step) with (base + (di + j * step)) by lia. }
  rewrite HAR. apply (stos_loop_law w step (Z.to_nat k) s0 s m (base + di) v); try done.
  intros r s1 Hs1 Hr. destruct (Z.eqb_spec (i - k) 0) as [Ek|Ek].
  - apply ret_law, HQ. pose proof (fill_wrap_piece w step (Z.to_nat k) 0 base di v m Hdi) as Ef.
    rewrite Nat.add_0_r, fill_wrap_0 in Ef. replace i with k by lia. rewrite Ef; [done|].
    intros j Hj. apply Hpiece. lia.
  - assert ((minofs <? bb) = true) as Hb by (unfold k in *; destruct (minofs <? bb); [done|lia]).
    destruct (Hsplit Hb) as [Hk Hend]. fold step in Hend.
    assert (Nat.eqb (Z.to_nat k) 0 = false) as Ek0 by (apply Nat.eqb_neq; lia). rewrite Ek0, Z2Nat.id in Hr by lia.
    set (di' := if df s0 =? -1 then 65536 - size else 0).
    assert ((di + k * step) mod 65536 = di' /\ 0 <= di' < 65536 /\ di' = di + k * step - 65536 * df s0) as (Ed & Hdi' & Ed').
    { rewrite Hend. unfold di'. destruct (df_cases s0) as [E | E]; rewrite E; simpl; [|done].
      split; [|lia]. rewrite <- (Z.mod_add (- size) 1) by lia. rewrite Z.mod_small; lia. }
    pose proof (Hmap k ltac:(lia)) as Hnext. rewrite Ed in Hnext. destruct Hnext as (_ & Hhi & _). fold size in Hhi.
    apply (IH s1 (fill_elems w step (Z.to_nat k) (base + di) v m) (i - k) (if df s0 =? -1 then 0xffff else 0) di' _ Q); try done; try lia.
    + by destruct (df s0 =? -1).
    + unfold stos_offset, di'. destruct (df_cases s0) as [E | E]; rewrite E; [right|by left]. split; [done|].
      fold w. fold size. clearbody size. by destruct Hsize as [-> | [-> | ->]].
    + fold w. fold size. unfold di'. destruct (df s0 =? -1); [|apply Z.mod_0_l; lia].
      clear -Hsize. clearbody size. by destruct Hsize as [-> | [-> | ->]].
    + rewrite Hr. unfold u32. rewrite Zminus_mod_idemp_l. rewrite Z.mod_small; lia.
    + intros j Hj. specialize (Hmap (k + j) ltac:(lia)). fold w. fold size. fold step. rewrite <- Ed, Zplus_mod_idemp_l.
      by replace (di + k * step + j * step) with (di + (k + j) * step) by lia.
    + intros s' Hs'. apply HQ.
      replace (Z.to_nat i) with (Z.to_nat k + Z.to_nat (i - k))%nat by lia.
      rewrite fill_wrap_piece; [|done|intros j Hj; apply Hpiece; lia].
      by rewrite Z2Nat.id, Ed by lia.
Qed.

(** In 16-bit addressing REP STOS stores the working register at every
    offset it steps over modulo 64K, in pieces around the end of the segment,
    in both directions, and terminates. *)
Theorem O_MOVS_StoD_correct ig s :
  sim_ok s -> has (mode ig) ADDR16 = true ->
  let w := opwidth (mode ig) in
  let n := rep_count ig s in
  let di := CPUWORD Ofs_EDI s in
  let base := mem_ref s - di in
  let step := string_step ig s in
  0 <= base -> base mod (w / 8) = 0 -> di mod (w / 8) = 0 ->
  wrap_mapped s w step n base di ->
  safe (O_MOVS_StoD FindPC ig) s (fun _ s' =>
    mem_is s s' (fill_wrap w step (Z.to_nat n) base di (dr w s) (mem s))).
Proof.
  intros Hs H16 w n di base step Hbase Hbal Hal Hmap.
  pose proof (rep_count_range ig s Hs) as [Hn Hn16]. fold n in Hn, Hn16. specialize (Hn16 H16).
  assert (0 <= di < 65536) as Hdi by (apply (reg_range 16 Ofs_EDI s); [unfold width; lia|apply Hs]).
  pose proof (opwidth_ok (mode ig)) as Hw. fold w in Hw.
  unfold O_MOVS_StoD. apply bind_law, peek_law. cbn [id]. fold n di. cbv zeta.
  eapply (stod_loop_law _ ig s base (dr w s) s (mem s) n di di); try done; try lia.
  - apply mem_is_refl.
  - unfold stos_offset. destruct (df_cases s) as [E | E]; [right|by left]. split; [done|].
    fold w. pose proof (width_bytes w Hw). pose proof (Z.div_mod di (w / 8) ltac:(lia)). lia.
Qed.

End memory.
