(* ===== verification/SimStack.v ===== *)
(** * The stack of the simulated CPU: what is pushed is popped *)

From stdpp Require Import base numbers list.
From Stdlib Require Import ZArith Zbitwise Lia.
From S2P Require Import Prelude Machine SimFlags SimFlagsSpec SimCpu SimAlu SimMem SimAluSpec SimMulDiv SimMemSpec.

Local Open Scope Z_scope.

#[local] Set Default Proof Using "Type".

Section stack.
Context {W : Type} `{BusLaws W}.
Context (code : Z -> IGen) (FindPC : Z -> Z) (SetSegProt : Z -> Z -> Sim W unit).
Implicit Types (s : sim W) (m : bytes).

(** A register of 16 or 32 bits is pushed or popped by the two or three
    instructions from [pc] on. *)
Definition stack_mode (md w : Z) : Prop :=
  has md MNOREG = false /\ has md IMMED = false /\ has md SEGREG = false /\ has md MRETISP = false /\
  w = (if has md DATA16 then 16 else 32).

Definition pushes (pc w o : Z) : Prop :=
  op (code (pc + 1)) = O_PUSH2 /\ p0 (code (pc + 1)) = o /\ stack_mode (mode (code (pc + 1))) w /\ op (code (pc + 2)) = O_PUSH3.

Definition pops (pc w o : Z) : Prop :=
  op (code (pc + 1)) = O_POP2 /\ p0 (code (pc + 1)) = o /\ stack_mode (mode (code (pc + 1))) w /\ op (code (pc + 2)) = O_POP3.

(** The stack mask of a segment of 64K or 4G. *)
Definition stack_bits s (b : Z) : Prop := CPULONG Ofs_STACKM s = 2 ^ b - 1 /\ (b = 16 \/ b = 32).

Definition stack_ptr s (b : Z) : Z := CPULONG Ofs_ESP s mod 2 ^ b.
Definition stack_addr s (sp : Z) : Z := u32 (CPULONG Ofs_XSS s + sp).

Lemma land_mask b x : 0 <= b -> Z.land x (2 ^ b - 1) = x mod 2 ^ b.
Proof. intros Hb. rewrite <- Z.land_ones by done. by rewrite Z.ones_equiv, Z.sub_1_r. Qed.

Lemma u32_mod b x : b = 16 \/ b = 32 -> u32 x mod 2 ^ b = x mod 2 ^ b.
Proof.
  intros Hb. unfold u32. destruct Hb as [-> | ->]; [|by rewrite Z.mod_mod by lia].
  change (2 ^ 32) with (2 ^ 16 * 2 ^ 16). by rewrite Z.rem_mul_r, (Z.mul_comm (2 ^ 16)), Z.mod_add, Z.mod_mod by lia.
Qed.

Lemma stack_mode_width md w : stack_mode md w -> width w /\ w / 8 = (if has md DATA16 then 2 else 4).
Proof. intros (_ & _ & _ & _ & ->). destruct (has md DATA16); split; unfold width; auto; lia. Qed.

Lemma stack_mode_has md w :
  stack_mode md w ->
  (if has md (Z.lor SEGREG DATA16) then 16 else 32) = w /\ (if has md (Z.lor DATA16 SEGREG) then 16 else 32) = w.
Proof.
  intros (_ & _ & Hs & _ & ->). rewrite (Z.lor_comm DATA16).
  assert (has md (Z.lor SEGREG DATA16) = has md DATA16) as ->; [|done].
  unfold has in *. rewrite Z.land_lor_distr_r. unfold truth in *. destruct (Z.eqb_spec (Z.land md SEGREG) 0) as [->|]; [|done].
  by rewrite Z.lor_0_l.
Qed.

(** Running one push. *)
Lemma push_one fuel pc w o b s (Q : Z -> sim W -> Prop) :
  pushes pc w o -> stack_bits s b -> bytes_ok (cpu s) ->
  let sp := (stack_ptr s b - w / 8) mod 2 ^ b in
  let s0 := s <| currentIG := pc + 1 |> in
  mapped_at s0 w (stack_addr s sp) ->
  (forall s1, mem_is s0 s1 (store (cells w) (reg w o s) (stack_addr s sp) (mem s)) -> Q (pc + 2) (keep_esp sp s1)) ->
  safe (O_PUSH1 code FindPC (S fuel) pc) s Q.
Proof.
  intros (Hop & Ho & Hm & Hop3) (Hmask & Hb) Hc sp s0 Hmap HQ.
  destruct (stack_mode_width _ _ Hm) as [Hw Ew]. destruct (stack_mode_has _ _ Hm) as [Hh _].
  destruct Hm as (Hn & Hi & _).
  unfold O_PUSH1. apply bind_law, peek_law, bind_law. rewrite Hop, Z.eqb_refl. apply wpx_lift, wp_assert; [done|].
  apply bind_law. cbn [push_loop]. apply bind_law, peek_law. rewrite Hmask.
  assert (Z.land (u32 (if has (mode (code (pc + 1))) DATA16 then CPULONG Ofs_ESP s - 2 else CPULONG Ofs_ESP s - 4)) (2 ^ b - 1) = sp) as ->.
  { rewrite land_mask, u32_mod by lia. unfold sp, stack_ptr. rewrite Ew.
    destruct (has _ DATA16); by rewrite Zminus_mod_idemp_l. }
  apply bind_law, peek_law, bind_law, update_law, bind_law, peek_law. rewrite Hh, Hn, Hi, Ho.
  apply bind_law, (wr_law FindPC w _ _ s0 s0 (mem s)); [done| |done|].
  { change (mem s) with (mem s0). apply mem_is_refl. }
  intros s1 Hs1. change (reg w o (s <| currentIG := pc + 1 |>)) with (reg w o s) in Hs1.
  rewrite Z.mod_small in Hs1 by (by apply reg_range).
  replace (pc + 1 + 1) with (pc + 2) by lia. rewrite Hop3. simpl Z.eqb. cbv iota.
  apply ret_law, bind_law. rewrite Hop3, Z.eqb_refl. apply wpx_lift, wp_assert; [done|].
  apply bind_law, update_law, ret_law. by apply HQ.
Qed.

(** Running one pop. *)
Lemma pop_one fuel pc w o b s (Q : Z -> sim W -> Prop) :
  pops pc w o -> stack_bits s b -> o <> Ofs_ESP ->
  let sp := stack_ptr s b in
  let s0 := s <| currentIG := pc + 1 |> in
  let v := load (cells w) (mem s) (stack_addr s sp) in
  mapped_at s0 w (stack_addr s sp) ->
  (forall s1, mem_is s0 s1 (mem s) ->
     let s2 := set_dr 32 v (set_reg w o v s1) in
     Q (pc + 2) (keep_esp (Z.land (u32 (sp + w / 8)) (CPULONG Ofs_STACKM s2)) s2)) ->
  safe (O_POP1 code FindPC SetSegProt (S fuel) pc) s Q.
Proof.
  intros (Hop & Ho & Hm & Hop3) (Hmask & Hb) Hne sp s0 v Hmap HQ.
  destruct (stack_mode_width _ _ Hm) as [Hw Ew]. destruct (stack_mode_has _ _ Hm) as [_ Hh].
  destruct Hm as (Hn & _ & _ & Hr & _).
  unfold O_POP1. apply bind_law, peek_law, bind_law. rewrite Hop, Z.eqb_refl. apply wpx_lift, wp_assert; [done|].
  apply bind_law. cbn [pop_loop]. rewrite Hn, Hr, Hh, Ho. apply bind_law, peek_law. rewrite Hmask, land_mask by lia.
  change (CPULONG Ofs_ESP s mod 2 ^ b) with sp.
  apply bind_law, peek_law, bind_law, update_law, bind_law.
  apply (rd_law FindPC w _ s0 s0 (mem s)); [done| |done|].
  { change (mem s) with (mem s0). apply mem_is_refl. }
  intros s1 Hs1. fold v. apply bind_law, update_law. destruct (Z.eqb_spec o Ofs_ESP); [done|].
  simpl andb. cbv iota. replace (pc + 1 + 1) with (pc + 2) by lia.
  apply bind_law. unfold pop_dest. rewrite Hop3. simpl Z.eqb. cbv iota. apply ret_law. rewrite Hop3. simpl Z.eqb. cbv iota.
  apply ret_law, bind_law, update_law, bind_law. rewrite Hop3, Z.eqb_refl. apply wpx_lift, wp_assert; [done|].
  apply bind_law, update_law, ret_law. rewrite Z.add_0_r, <- Ew. by apply HQ.
Qed.

(** The stack pointer that is stored keeps the bits outside the mask. *)
Lemma keep_esp_value b sp e :
  b = 16 \/ b = 32 -> 0 <= sp < 2 ^ b -> word e ->
  Z.lor sp (Z.land e (not32 (2 ^ b - 1))) = e - e mod 2 ^ b + sp.
Proof.
  intros Hb Hsp He. assert (0 <= b <= 32) by lia.
  assert (Z.land e (not32 (2 ^ b - 1)) = Z.shiftl (e / 2 ^ b) b) as ->.
  { rewrite <- Z.shiftr_div_pow2 by lia. apply Z.bits_inj'. intros i Hi. rewrite Z.land_spec.
    destruct (Z.lt_ge_cases i 32) as [Hlt|Hge].
    - rewrite testbit_not32 by lia. rewrite Z.sub_1_r, <- Z.ones_equiv. destruct (Z.lt_ge_cases i b).
      + rewrite Z.ones_spec_low, Z.shiftl_spec_low by lia. apply andb_false_r.
      + rewrite Z.ones_spec_high, Z.shiftl_spec, Z.shiftr_spec by lia. rewrite andb_true_r. f_equal. lia.
    - rewrite Z.shiftl_spec, Z.shiftr_spec by lia. rewrite (proj2 (proj1 (word_bits e) He) i) by lia.
      replace (i - b + b) with i by lia. by rewrite (proj2 (proj1 (word_bits e) He) i) by lia. }
  rewrite Z.lor_comm, pair_lor by lia. pose proof (Z.div_mod e (2 ^ b) ltac:(lia)). lia.
Qed.

Lemma keep_esp_eq b sp s :
  stack_bits s b -> 0 <= sp < 2 ^ b -> bytes_ok (cpu s) ->
  keep_esp sp s = set_reg 32 Ofs_ESP (CPULONG Ofs_ESP s - stack_ptr s b + sp) s.
Proof.
  intros [Hmask Hb] Hsp Hc. unfold keep_esp. rewrite Hmask, keep_esp_value; [done|done|done|].
  apply (reg_range 32); [unfold width; lia|done].
Qed.

(** ESP when its low [b] bits become [sp]. *)
Definition esp_with (b sp : Z) s : Z := CPULONG Ofs_ESP s - stack_ptr s b + sp.

Lemma esp_with_spec b sp s :
  stack_bits s b -> bytes_ok (cpu s) -> 0 <= sp < 2 ^ b -> word (esp_with b sp s) /\ esp_with b sp s mod 2 ^ b = sp.
Proof.
  clear code FindPC SetSegProt. intros [_ Hb] Hc Hsp. assert (0 < 2 ^ b) by lia. unfold esp_with, stack_ptr, word, CPULONG.
  pose proof (reg_range 32 Ofs_ESP s ltac:(unfold width; lia) Hc) as He. set (e := reg 32 Ofs_ESP s) in *.
  pose proof (Z.div_mod e (2 ^ b) ltac:(lia)) as E.
  replace (e - e mod 2 ^ b) with (e / 2 ^ b * 2 ^ b) by lia.
  split; [|rewrite Z.add_comm, Z.mod_add by lia; by apply Z.mod_small].
  split; [pose proof (Z.div_pos e (2 ^ b)); nia|]. destruct Hb as [-> | ->]; Z.to_euclidean_division_equations; lia.
Qed.

(** Storing it. *)
Lemma keep_esp_spec b sp s :
  stack_bits s b -> bytes_ok (cpu s) -> 0 <= sp < 2 ^ b ->
  let s' := keep_esp sp s in
  CPULONG Ofs_ESP s' = esp_with b sp s /\ stack_ptr s' b = sp /\ bytes_ok (cpu s') /\
  (forall w o, width w -> apart w o 32 Ofs_ESP -> reg w o s' = reg w o s) /\
  mem s' = mem s /\ world s' = world s.
Proof.
  intros Hb Hc Hsp s'. unfold s'. rewrite (keep_esp_eq b) by done. fold (esp_with b sp s).
  destruct (esp_with_spec b sp s Hb Hc Hsp) as [Hw He].
  assert (width 32) as W32 by (unfold width; lia).
  assert (CPULONG Ofs_ESP (set_reg 32 Ofs_ESP (esp_with b sp s) s) = esp_with b sp s) as E
    by (unfold CPULONG; rewrite reg_set_same by done; by apply Z.mod_small).
  split; [done|]. split; [unfold stack_ptr; by rewrite E|]. split; [by apply store_ok|].
  split; [|done]. intros w o Hwo Ha. by apply reg_set_other.
Qed.

(** What a push does: the register goes to the slot below the stack pointer. *)
Record pushed (w o b : Z) s s' : Prop := {
  pushed_ptr : stack_ptr s' b = (stack_ptr s b - w / 8) mod 2 ^ b;
  pushed_esp : CPULONG Ofs_ESP s' = esp_with b (stack_ptr s' b) s;
  pushed_cpu : bytes_ok (cpu s');
  pushed_reg w' o' : width w' -> apart w' o' 32 Ofs_ESP -> reg w' o' s' = reg w' o' s;
  pushed_mem x : mem s' x = store (cells w) (reg w o s) (stack_addr s (stack_ptr s' b)) (mem s) x;
  pushed_mapped x : mapped (world s') x <-> mapped (world s) x;
}.

Lemma push_correct fuel pc w o b s :
  bytes_ok (cpu s) -> pushes pc w o -> stack_bits s b ->
  mapped_at s w (stack_addr s ((stack_ptr s b - w / 8) mod 2 ^ b)) ->
  safe (O_PUSH1 code FindPC (S fuel) pc) s (fun _ s' => pushed w o b s s').
Proof.
  intros Hc Hpush Hb Hmap. set (sp := (stack_ptr s b - w / 8) mod 2 ^ b) in *.
  assert (0 <= sp < 2 ^ b) as Hsp by (apply Z.mod_pos_bound; destruct Hb; lia).
  apply (push_one fuel pc w o b s); [done|done|done|done|]. fold sp.
  intros s1 (w1 & -> & Hm1 & Hmap1).
  destruct (keep_esp_spec b sp (s <| currentIG := pc + 1 |> <| world := w1 |>)) as (H1 & H2 & H3 & H4 & H5 & H6); [done..|].
  by constructor; rewrite ?H2.
Qed.

(** What a pop does. *)
Record popped (w o b : Z) s s' : Prop := {
  popped_reg : reg w o s' = load (cells w) (mem s) (stack_addr s (stack_ptr s b));
  popped_esp : CPULONG Ofs_ESP s' = esp_with b ((stack_ptr s b + w / 8) mod 2 ^ b) s;
  popped_other w' o' : width w' -> apart w' o' w o -> apart w' o' 32 Ofs_ESP -> reg w' o' s' = reg w' o' s;
  popped_mem x : mem s' x = mem s x;
}.

Lemma pop_correct fuel pc w o b s :
  bytes_ok (cpu s) -> pops pc w o -> stack_bits s b -> apart w o 32 Ofs_ESP -> apart w o 32 Ofs_STACKM ->
  mapped_at s w (stack_addr s (stack_ptr s b)) ->
  safe (O_POP1 code FindPC SetSegProt (S fuel) pc) s (fun _ s' => popped w o b s s').
Proof.
  intros Hc Hpop Hb A1 A2 Hmap.
  assert (width w) as Hw by (destruct Hpop as (_ & _ & Hm & _); exact (proj1 (stack_mode_width _ _ Hm))).
  assert (o <> Ofs_ESP) as Hne.
  { intros ->. unfold apart in A1. change (32 / 8) with 4 in A1. destruct Hw as [-> | [-> | ->]]; revert A1; vm_compute; intros [|]; done. }
  apply (pop_one fuel pc w o b s); [done..|]. intros s1 (w1 & -> & Hm1 & _). set (v := load _ _ _). cbv zeta.
  set (s2 := set_dr 32 v _).
  assert (forall w' o', width w' -> apart w' o' w o -> reg w' o' s2 = reg w' o' s) as R2
    by (intros w' o' Hw' Ha; unfold s2; by rewrite reg_set_dr, reg_set_other).
  assert (apart 32 Ofs_ESP w o /\ apart 32 Ofs_STACKM w o) as [A1' A2'] by (unfold apart in *; tauto).
  assert (stack_bits s2 b) as Hb2 by (split; [unfold CPULONG; rewrite R2 by (done || unfold width; lia); apply Hb|apply Hb]).
  rewrite (proj1 Hb2), land_mask, u32_mod by (destruct Hb; lia).
  assert (esp_with b ((stack_ptr s b + w / 8) mod 2 ^ b) s2 = esp_with b ((stack_ptr s b + w / 8) mod 2 ^ b) s) as E
    by (unfold esp_with, stack_ptr, CPULONG; by rewrite !R2 by (done || unfold width; lia)).
  destruct (keep_esp_spec b ((stack_ptr s b + w / 8) mod 2 ^ b) s2) as (H1 & _ & _ & H4 & H5 & _);
    [done|by apply store_ok|apply Z.mod_pos_bound; destruct Hb; lia|].
  constructor.
  - rewrite H4 by done. unfold s2. rewrite reg_set_dr, reg_set_same by done.
    apply Z.mod_small. pose proof (load_range (cells w) (mem s) (stack_addr s (stack_ptr s b)) (flat_ok _)) as Hr.
    by rewrite (proj1 (cells_width w Hw)) in Hr.
  - by rewrite H1.
  - intros w' o' Hw' Ha Hesp. by rewrite H4, R2.
  - intros x. rewrite H5. apply Hm1.
Qed.

(** C35: A register pushed and popped into another one arrives unchanged; ESP
    returns to its value, all other registers and all memory outside the slot
    are kept, also when the stack pointer wraps in a 64K stack. *)
Theorem push_pop_roundtrip fuel pc pc' w o1 o2 b s :
  sim_ok s -> pushes pc w o1 -> pops pc' w o2 -> stack_bits s b ->
  apart w o2 32 Ofs_ESP -> apart w o2 32 Ofs_STACKM ->
  let slot := stack_addr s ((stack_ptr s b - w / 8) mod 2 ^ b) in
  mapped_at s w slot ->
  safe (O_PUSH1 code FindPC (S fuel) pc ?; O_POP1 code FindPC SetSegProt (S fuel) pc') s (fun _ s' =>
    reg w o2 s' = reg w o1 s /\ CPULONG Ofs_ESP s' = CPULONG Ofs_ESP s /\
    (forall w' o', width w' -> apart w' o' w o2 -> apart w' o' 32 Ofs_ESP -> reg w' o' s' = reg w' o' s) /\
    (forall x, x < slot \/ slot + w / 8 <= x -> mem s' x = mem s x)).
Proof.
  intros Hs Hpush Hpop Hb A1 A2 slot Hmap.
  assert (width w) as Hw by (destruct Hpush as (_ & _ & Hm & _); exact (proj1 (stack_mode_width _ _ Hm))).
  apply bind_law. eapply wpx_mono; [apply push_correct; [apply Hs|done..]| |done].
  intros ? s1 Hp. assert (stack_addr s1 (stack_ptr s1 b) = slot) as Ea.
  { unfold stack_addr, slot, CPULONG. rewrite (pushed_reg _ _ _ _ _ Hp) by (unfold width; lia || apart_tac). by rewrite (pushed_ptr _ _ _ _ _ Hp). }
  assert (stack_bits s1 b) as Hb1.
  { split; [|apply Hb]. unfold CPULONG. rewrite (pushed_reg _ _ _ _ _ Hp) by (unfold width; lia || apart_tac). apply Hb. }
  eapply wpx_mono; [apply (pop_correct fuel pc' w o2 b s1); [apply Hp|done..|]| |done].
  { rewrite Ea. destruct Hmap as (M1 & M2 & M3). split; [done|]. split; [done|]. intros x Hx. by apply (pushed_mapped _ _ _ _ _ Hp), M3. }
  intros ? s2 [P1 P2 P3 P4]. pose proof (pushed_mem _ _ _ _ _ Hp) as Hm. rewrite (pushed_ptr _ _ _ _ _ Hp) in Hm. fold slot in Hm.
  refine (conj _ (conj _ (conj _ _))).
  - rewrite P1, Ea. erewrite load_ext by (intros; apply Hm). rewrite load_store, (proj1 (cells_width w Hw)).
    apply Z.mod_small, reg_range; [done|apply Hs].
  - rewrite P2. unfold esp_with. rewrite (pushed_esp _ _ _ _ _ Hp). unfold esp_with. rewrite (pushed_ptr _ _ _ _ _ Hp), Zplus_mod_idemp_l.
    replace (stack_ptr s b - w / 8 + w / 8) with (stack_ptr s b) by lia.
    rewrite (Z.mod_small (stack_ptr s b)) by (apply Z.mod_pos_bound; destruct Hb; lia). lia.
  - intros w' o' Hw' Ha Hesp. by rewrite P3, (pushed_reg _ _ _ _ _ Hp).
  - intros x Hx. rewrite P4, Hm. apply store_miss. rewrite (proj2 (cells_width w Hw)). lia.
Qed.

End stack.
