(* ===== verification/SimExample.v ===== *)
(** * The simulated CPU on concrete states

    A flat memory of one megabyte as an implementation of the [Bus], and the
    theorems about the simulated CPU applied to states over it. *)

From stdpp Require Import base numbers list.
From Stdlib Require Import ZArith Lia.
From S2P Require Import Prelude Machine SimFlags SimFlagsSpec SimCpu SimAlu SimMem SimAluSpec SimMulDiv SimShift SimMemSpec SimStack.

Local Open Scope Z_scope.

(** ** Memory *)

Definition ram : Type := bytes.
Definition RAM_SIZE : Z := 0x100000.

Definition ram_view (r : ram) : bytes := fun a => r a mod 256.
Definition in_ram (n : nat) (a : Z) : bool := (0 <=? a) && (a + Z.of_nat n <=? RAM_SIZE).

#[export] Instance ram_bus : Bus ram := {
  bus_read n a := fun r => Ok (if in_ram n a then inr (load n (ram_view r) a) else inl (MkPf a 4), r);
  bus_write n a v := fun r =>
    if in_ram n a then Ok (inr tt, store n v a (ram_view r)) else Ok (inl (MkPf a 6), r);
}.

Lemma ram_view_ok r : bytes_ok (ram_view r).
Proof. intros a. apply Z.mod_pos_bound. lia. Qed.

Lemma ram_view_store n v a r b : ram_view (store n v a (ram_view r)) b = store n v a (ram_view r) b.
Proof. apply Z.mod_small, store_ok, ram_view_ok. Qed.

Lemma in_ram_true n a :
  (n = 1 \/ n = 2 \/ n = 4)%nat -> (forall i, a <= i < a + Z.of_nat n -> 0 <= i < RAM_SIZE) -> in_ram n a = true.
Proof.
  intros Hn H. unfold in_ram. pose proof (H a ltac:(lia)). pose proof (H (a + Z.of_nat n - 1) ltac:(lia)).
  zbool; simpl; lia || done.
Qed.

#[export] Program Instance ram_laws : BusLaws ram := {
  flat := ram_view;
  mapped _ a := 0 <= a < RAM_SIZE;
}.
Next Obligation. apply ram_view_ok. Qed.
Next Obligation.
  intros n a r Hn Ha Hb Hm. unfold wpx, wp, bus_read, ram_bus. by rewrite in_ram_true by done.
Qed.
Next Obligation.
  intros n a v r Hn Ha Hb Hm. unfold wpx, wp, bus_write, ram_bus. rewrite in_ram_true by done.
  split; [|done]. intros b. apply ram_view_store.
Qed.

(** ** States and instructions *)

Definition image (l : list (Z * Z)) : bytes := foldr (fun '(o, v) f => store 4 v o f) (fun _ => 0) l.

Lemma image_ok l : bytes_ok (image l).
Proof. induction l as [|[o v] l IH]; simpl; [intros a; by unfold byte|by apply store_ok]. Qed.

(** A state with the registers [l] and the working register [d], all flags but
    carry clear. *)
Definition state (l : list (Z * Z)) (d m : Z) : sim ram :=
  MkSim (image l) (fun _ => false) (FlagSync_RFL EFLAGS_CF) d m 0 0 (fun a => a).

Lemma state_ok l d m : word d -> sim_ok (state l d m).
Proof. intros Hd. constructor; [apply image_ok|by apply flags_of_ok|done]. Qed.

Definition ins (o m a b : Z) : IGen := MkIGen o m a b 0 0 0 0.

Lemma ex_word d : (0 <=? d) && (d <? 2 ^ 32) = true -> word d.
Proof. intros H. unfold word. apply andb_prop in H as [H1 H2]. lia. Qed.

(** ** Arithmetic *)

(** ADC AX, 0x8000 with AX = 0x8000 and carry: 1, with carry and overflow. *)
Lemma arith_R_correct_witness :
  let ig := ins 32 (Z.lor DATA16 IMMED) 0x8000 0 in
  let s := state [] 0xabcd8000 0 in
  sim_ok s /\ dr 16 (O_ADC_R ig s) = 1 /\ FlagSync_All (RFL (O_ADC_R ig s)) = 0x801.
Proof.
  intros ig s. assert (sim_ok s) as Hs by (by apply state_ok, ex_word).
  assert (sim_ok s) as H by exact Hs. apply (arith_R_correct ADC ig s) in H as (_ & _ & Hr & Hf).
  split; [exact Hs|]. split; [exact Hr|exact Hf].
Defined.

(** SUB CL, DL with CL = 3 and DL = 5: borrow. *)
Lemma arith_FR_correct_witness :
  let ig := ins 41 MBYTE Ofs_CL 0 in
  let s := state [(Ofs_ECX, 0x1203)] 5 0 in
  sim_ok s /\ reg 8 Ofs_CL (O_SUB_FR ig s) = 0xfe /\ FlagSync_All (RFL (O_SUB_FR ig s)) = 0x91.
Proof.
  intros ig s. assert (sim_ok s) as Hs by (by apply state_ok, ex_word).
  assert (sim_ok s) as H by exact Hs. apply (arith_FR_correct SUB ig s) in H as (_ & _ & Hr & Hf).
  split; [exact Hs|]. split; [exact Hr|exact Hf].
Defined.

(** CMP -1, 1: less, but above. *)
Lemma cmp_condition_witness :
  let ig := ins 37 IMMED 1 0 in
  let s := state [] 0xffffffff 0 in
  sim_ok s /\ condition 0xc (RFL (O_CMP_R ig s)) = true /\ condition 7 (RFL (O_CMP_R ig s)) = true.
Proof.
  intros ig s. assert (sim_ok s) as Hs by (by apply state_ok, ex_word).
  pose proof (cmp_condition 0xc ig s Hs ltac:(lia)) as H1. pose proof (cmp_condition 7 ig s Hs ltac:(lia)) as H2.
  split; [exact Hs|]. split; [exact H1|exact H2].
Defined.

Lemma FlagSync_roundtrip_witness :
  0 <= 0x8d7 < 2 ^ 32 /\ FlagSync_All (FlagSync_RFL 0x8d7) = 0x8d5.
Proof. split; [lia|]. exact (FlagSync_roundtrip 0x8d7 ltac:(lia)). Defined.

Lemma incdec_correct_witness :
  let ig := ins 46 0 Ofs_EBX 0 in
  let s := state [(Ofs_EBX, 0x7fffffff)] 0xffffffff 0 in
  sim_ok s /\ dr 32 (O_INC ig s) = 0 /\ FlagSync_All (RFL (O_INC ig s)) = 0x55 /\
  reg 32 Ofs_EBX (O_INC_R ig s) = 0x80000000 /\ FlagSync_All (RFL (O_INC_R ig s)) = 0x895.
Proof.
  intros ig s. assert (sim_ok s) as Hs by (by apply state_ok, ex_word).
  assert (sim_ok s) as H by exact Hs.
  apply (incdec_correct INC ig s) in H as [(_ & _ & H1 & H2) (_ & _ & H3 & H4)].
  split; [exact Hs|]. split; [exact H1|]. split; [exact H2|]. split; [exact H3|exact H4].
Defined.

Lemma logic_correct_witness :
  let ig := ins 36 MBYTE Ofs_AL 0 in
  let s := state [(Ofs_EAX, 0x55)] 0x1ff 0 in
  sim_ok s /\ dr 8 (O_XOR_R ig s) = 0xaa /\ FlagSync_All (RFL (O_XOR_R ig s)) = 0x84.
Proof.
  intros ig s. assert (sim_ok s) as Hs by (by apply state_ok, ex_word).
  assert (sim_ok s) as H by exact Hs.
  apply (logic_correct XOR ig s) in H as [(_ & _ & H1 & H2) _].
  split; [exact Hs|]. split; [exact H1|exact H2].
Defined.

(** ** Multiplication and division *)

Lemma O_MUL_correct_witness :
  let ig := ins 50 DATA16 0 0 in
  let s := state [(Ofs_EAX, 0x12341000)] 0x1000 0 in
  sim_ok s /\ wide 16 (O_MUL ig s) = 0x1000000.
Proof.
  intros ig s. assert (sim_ok s) as Hs by (by apply state_ok, ex_word).
  pose proof (O_MUL_correct ig s Hs) as (_ & H & _). split; [exact Hs|exact H].
Defined.

(** IMUL EAX, -1, 5. *)
Lemma O_IMUL_correct_witness :
  let ig := ins 51 IMMED 0xffffffff Ofs_EAX in
  let s := state [] 5 0 in
  sim_ok s /\ reg 32 Ofs_EAX (O_IMUL ig s) = 0xfffffffb.
Proof.
  intros ig s. assert (sim_ok s) as Hs by (by apply state_ok, ex_word).
  assert (sim_ok (O_IMUL ig s) /\ imul_result ImulImm 32 ig (-5) (O_IMUL ig s)) as [_ H].
  { destruct (O_IMUL_correct ig s Hs) as (H1 & H2 & _); [vm_compute; intuition congruence|]. split; [exact H1|exact H2]. }
  split; [exact Hs|exact H].
Defined.

(** DIV BL with AX = 0x101, BL = 1: the quotient does not fit. *)
Lemma O_DIV_correct_witness :
  let ig := ins 52 MBYTE 0x40 0 in
  let s := state [(Ofs_EAX, 0x101); (Ofs_XCS, 0xf0000)] 1 0 in
  sim_ok s /\ TheCPU_err s <> EXCP00_DIVZ /\
  wp (O_DIV ig) s (fun _ s' => TheCPU_err s' = EXCP00_DIVZ /\ P0 s' = 0xf0040).
Proof.
  intros ig s. assert (sim_ok s) as Hs by (by apply state_ok, ex_word).
  assert (TheCPU_err s <> EXCP00_DIVZ) as He by (vm_compute; discriminate).
  split; [exact Hs|]. split; [exact He|].
  pose proof (O_DIV_correct ig s Hs He) as H. cbv zeta in H. refine (wp_mono (O_DIV ig) s _ _ H _).
  intros [] s' (H1 & H2 & _). split; [exact H1|exact H2].
Defined.

(** IDIV EBX with EDX:EAX = -7 and EBX = 2. *)
Lemma O_IDIV_correct_witness :
  let ig := ins 53 0 0 0 in
  let s := state [(Ofs_EAX, 0xfffffff9); (Ofs_EDX, 0xffffffff)] 2 0 in
  sim_ok s /\ TheCPU_err s <> EXCP00_DIVZ /\
  wp (O_IDIV ig) s (fun _ s' => quot_rem 32 s' = (0xfffffffd, 0xffffffff)).
Proof.
  intros ig s. assert (sim_ok s) as Hs by (by apply state_ok, ex_word).
  assert (TheCPU_err s <> EXCP00_DIVZ) as He by (vm_compute; discriminate).
  split; [exact Hs|]. split; [exact He|].
  pose proof (O_IDIV_correct ig s Hs He) as H. cbv zeta in H.
  change (host_overflow _ _ _) with false in H. cbv iota in H. refine (wp_mono (O_IDIV ig) s _ _ H _).
  intros [] s' (H1 & _). exact H1.
Defined.

(** ** Shifts and rotates *)

Lemma shift_correct_witness :
  let ig := ins 58 (Z.lor MBYTE IMMED) 1 0 in
  let s := state [] 0x81 0 in
  sim_ok s /\ dr 8 (O_SHL ig s) = 2 /\ FlagSync_All (RFL (O_SHL ig s)) = 0x801.
Proof.
  intros ig s. assert (sim_ok s) as Hs by (by apply state_ok, ex_word).
  pose proof (shift_correct SHL ig s Hs) as (_ & _ & H1 & H2).
  split; [exact Hs|]. split; [exact H1|exact H2].
Defined.

Lemma rotate_correct_witness :
  let ig := ins 56 (Z.lor MBYTE IMMED) 9 0 in
  let s := state [] 0x80 0 in
  sim_ok s /\ rotate_spec RCL 8 9 s (O_RCL ig s).
Proof.
  intros ig s. assert (sim_ok s) as Hs by (by apply state_ok, ex_word).
  pose proof (rotate_correct RCL ig s Hs) as H. split; [exact Hs|exact H].
Defined.

(** ** Strings *)

Lemma ram_mapped_at l d m w x : (0 <=? x) && (x + w / 8 <=? RAM_SIZE) = true -> mapped_at (state l d m) w x.
Proof.
  intros H. apply andb_prop in H as [H1 H2]. apply Z.leb_le in H1, H2.
  split; [done|]. unfold RAM_SIZE in *. split; [lia|]. intros b Hb. simpl. unfold RAM_SIZE. lia.
Qed.

Lemma ram_elems l d m w (f : Z -> Z) n k :
  0 <= k < Z.of_nat n ->
  forallb (fun k => (0 <=? f k) && (f k + w / 8 <=? RAM_SIZE)) (map Z.of_nat (seq 0 n)) = true ->
  mapped_at (state l d m) w (f k).
Proof.
  intros Hk H. rewrite forallb_forall in H. apply ram_mapped_at, H, in_map_iff.
  exists (Z.to_nat k). split; [lia|]. apply in_seq. lia.
Qed.

(** REP MOVSW of three words from 0x1000 to 0x20010, downwards. *)
Definition movsw : IGen := ins 101 (Z.lor (Z.lor ADDR16 DATA16) MREP) 0 0.
Definition movsw_state : sim ram :=
  state [(Ofs_ECX, 3); (Ofs_ESI, 0x1004); (Ofs_EDI, 0x14); (Ofs_XES, 0x20000); (Ofs_EFLAGS, EFLAGS_DF)] 0 0x1004.

Lemma O_MOVS_MovD_correct_witness :
  sim_ok movsw_state /\ df movsw_state = -1 /\
  safe (O_MOVS_MovD (fun _ => 0) movsw) movsw_state (fun _ s' => mem s' 0x20010 = mem movsw_state 0x1000 /\ mem s' 0x20015 = mem movsw_state 0x1005).
Proof.
  assert (sim_ok movsw_state) as Hs by (by apply state_ok, ex_word).
  split; [exact Hs|]. split; [reflexivity|].
  eapply wpx_mono; [apply (O_MOVS_MovD_correct (fun _ => 0) movsw movsw_state Hs)| |intros e s' []].
  - intros _. split; vm_compute; discriminate.
  - intros k Hk. apply (ram_elems _ _ _ _ (fun k => _ + _) 3 k Hk). vm_compute. reflexivity.
  - intros k Hk. apply (ram_elems _ _ _ _ (fun k => _ + _) 3 k Hk). vm_compute. reflexivity.
  - intros [] s' [_ H]. split; (rewrite H; [reflexivity|right; vm_compute; discriminate]).
Defined.

(** REP STOSB of four bytes that starts at ES:FFFE. *)
Definition stosb : IGen := ins 104 (Z.lor (Z.lor ADDR16 MBYTE) MREP) 0 0.
Definition stosb_state : sim ram :=
  state [(Ofs_ECX, 4); (Ofs_EDI, 0xfffe); (Ofs_XES, 0x20000)] 0x41 0x2fffe.

Lemma O_MOVS_StoD_correct_witness :
  sim_ok stosb_state /\
  safe (O_MOVS_StoD (fun _ => 0) stosb) stosb_state (fun _ s' => mem s' 0x20001 = 0x41).
Proof.
  assert (sim_ok stosb_state) as Hs by (by apply state_ok, ex_word).
  split; [exact Hs|].
  eapply wpx_mono; [apply (O_MOVS_StoD_correct (fun _ => 0) stosb stosb_state Hs)| |intros e s' []].
  - reflexivity.
  - vm_compute. discriminate.
  - reflexivity.
  - reflexivity.
  - intros k Hk. apply (ram_elems _ _ _ _ (fun k => _ + _) 4 k Hk). vm_compute. reflexivity.
  - intros [] s' H. rewrite (mem_is_mem _ _ _ _ H). reflexivity.
Defined.

(** ** The stack *)

(** PUSH EAX; POP EDX in a segment of 64K with SP = 2: the slot wraps. *)
Definition push_pop : Z -> IGen := fun pc =>
  match pc with
  | 0 => ins 85 0 0 0 | 1 => ins O_PUSH2 0 Ofs_EAX 0 | 2 => ins O_PUSH3 0 0 0
  | 3 => ins 89 0 0 0 | 4 => ins O_POP2 0 Ofs_EDX 0 | _ => ins O_POP3 0 0 0
  end.
Definition stack_state : sim ram :=
  state [(Ofs_EAX, 0xcafe); (Ofs_ESP, 0x10002); (Ofs_XSS, 0x30000); (Ofs_STACKM, 0xffff)] 0 0.

Lemma push_pop_roundtrip_witness :
  sim_ok stack_state /\
  safe (let? _ := O_PUSH1 push_pop (fun _ => 0) 5 0 in O_POP1 push_pop (fun _ => 0) (fun _ _ => xret tt) 5 3) stack_state
    (fun _ s' => reg 32 Ofs_EDX s' = 0xcafe /\ CPULONG Ofs_ESP s' = 0x10002).
Proof.
  assert (sim_ok stack_state) as Hs by (by apply state_ok, ex_word).
  split; [exact Hs|].
  eapply wpx_mono;
    [apply (push_pop_roundtrip push_pop (fun _ => 0) (fun _ _ => xret tt) 4 0 3 32 Ofs_EAX Ofs_EDX 16 stack_state Hs)
    | |intros e s' []].
  - repeat split; reflexivity.
  - repeat split; reflexivity.
  - split; [reflexivity|left; reflexivity].
  - right. vm_compute. discriminate.
  - left. vm_compute. discriminate.
  - by apply ram_mapped_at.
  - intros x s' (H1 & H2 & _). split; [exact H1|exact H2].
Defined.

(** ** Departures from the x86 *)

(** SAR of a 32-bit operand by one sets the overflow flag from bits 15 and 14
    of the result, the x86 clears it. *)
Lemma sar32_overflow_wrong :
  let s := O_SAR (ins 60 IMMED 1 0) (state [] 0x10000 0) in
  dr 32 s = 0x8000 /\ FlagSync_O (RFL s) = EFLAGS_OF.
Proof. by vm_compute. Qed.

(** The most negative dividend by -1 traps on the host, the x86 raises the
    divide error in the client. *)
Lemma idiv_traps_host :
  O_IDIV (ins 53 0 0 0) (state [(Ofs_EDX, 0x80000000)] 0xffffffff 0) = Fault DivisionByZero.
Proof. by vm_compute. Qed.

(** AAM does not check its base for 0, and takes AL as a signed number:
    AL = 0x80 with base 10 gives AX = 0xf4f8 for 0x0c08. *)
Lemma aam_base_0_traps_host : O_OPAX (ins 61 0 2 0xd4) (state [] 0 0) = Fault DivisionByZero.
Proof. by vm_compute. Qed.

Lemma aam_signed :
  match O_OPAX (MkIGen 61 0 2 0xd4 10 0 0 0) (state [(Ofs_EAX, 0x80)] 0 0) with
  | Ok (_, s) => CPUWORD Ofs_EAX s = 0xf4f8
  | Fault _ => False
  end.
Proof. by vm_compute. Qed.

(** BT of a 16-bit operand in memory takes the bit offset as unsigned: offset
    -1 reads the word 0x1ffe bytes above, the x86 the one below. *)
Lemma bitop_offset_unsigned :
  match O_BITOP (fun _ => 0) (ins 68 DATA16 0x03 Ofs_EAX) (state [(Ofs_EAX, 0xffff)] 0 0x4000) with
  | Ok (_, s) => mem_ref s = 0x5ffe
  | Fault _ => False
  end.
Proof. by vm_compute. Qed.

(** REP MOVSB of four bytes from DS:FFFE: after the wrap of SI the source is
    0x1fffe again, the x86 goes on at 0x10000. *)
Lemma movs_wrap_restarts :
  let s := (state [(Ofs_ECX, 4); (Ofs_ESI, 0xfffe); (Ofs_EDI, 0); (Ofs_XES, 0x20000)] 0 0x1fffe)
             <| world := fun a => if a =? 0x1fffe then 1 else if a =? 0x1ffff then 2
                                  else if a =? 0x10000 then 3 else if a =? 0x10001 then 4 else 0 |> in
  match O_MOVS_MovD (fun _ => 0) (ins 101 (Z.lor (Z.lor ADDR16 MBYTE) MREP) 0 0) s with
  | Ok (_, s') => load 4 (mem s') 0x20000 = 0x02010201
  | Fault _ => False
  end.
Proof. by vm_compute. Qed.
