(* ===== verification/Marks.v ===== *)
(** * Marks of translated code (simx86/memory.c)

    The CPU emulators keep, for every megabyte with translated code, a bit per
    guest byte that belongs to a translated block ([subpage]), a bit per block
    start ([nodemap]), and for each page with such code, which is then write
    protected, a copy of the page as it was translated ([pagemap]).  Pages that
    have been fetched but not marked yet wait in [clist].

    A pointer to a [tMpMap] is the number of its megabyte; using it after the
    map has been freed is a fault.  The host's pages have 4096 bytes. *)

From stdpp Require Import base numbers list.
From Stdlib Require Import ZArith Lia.
From S2P Require Import Prelude Machine SimMem.

Local Open Scope Z_scope.

(** ** Bits in arrays of 64-bit words *)

Definition words : Type := Z -> Z.
Definition set_bit (nr : Z) (w : words) : words :=
  fun i => if i =? nr / 64 then Z.lor (w i) (Z.shiftl 1 (nr mod 64)) else w i.
Definition clear_bit (nr : Z) (w : words) : words :=
  fun i => if i =? nr / 64 then Z.land (w i) (not64 (Z.shiftl 1 (nr mod 64))) else w i.
Definition test_bit (nr : Z) (w : words) : bool := Z.testbit (w (nr / 64)) (nr mod 64).

(** -1 is [(unsigned)-1]. *)
Definition find_bit64 (word : Z) : Z :=
  if word =? 0 then -1
  else if u32 word =? 0 then find_bit (Z.shiftr word 32) + 32 else find_bit (u32 word).

Definition find_bit64_from (word idx : Z) : Z :=
  if 64 <=? idx then -1
  else let w := Z.shiftr word idx in
       if w =? 0 then -1 else find_bit64 w + idx.

(** ** State *)

Definition HOST_PAGE_SIZE : Z := 4096.
Definition page_start (a : Z) : Z := a - a mod HOST_PAGE_SIZE.      (* a & HOST_PAGE_MASK *)
Definition CGRMASK : Z := 0xfffff.
Definition MEGA_SHIFT : Z := 20.
Definition NM_MASK : Z := 16383.
Definition pagespermega : Z := 256.
Definition CALIVE_CNT : Z := 10.
Definition CLIST_MAX : Z := 256.
Definition PROT_CODE : Z := 5.    (* PROT_READ | _PROT_EXEC *)
Definition PROT_RWX : Z := 7.

Record tMpMap := MkMpMap { mega : Z; subpage : words; nodemap : words; pagemap : Z -> option bytes }.
#[export] Instance eta_tMpMap : Eta tMpMap := fun m => MkMpMap m.(mega) m.(subpage) m.(nodemap) m.(pagemap).

Record cache_ent := MkCe { ce_addr : Z; alive_cnt : Z; ce_data : option bytes }.
#[export] Instance eta_cache_ent : Eta cache_ent := fun c => MkCe c.(ce_addr) c.(alive_cnt) c.(ce_data).

(** [clist] has [num_clist] entries; [guest] is guest memory with its caches. *)
Record marks (G : Type) := MkMarks { MpH : list tMpMap; LastMp : option Z; clist : list cache_ent; guest : G }.
Arguments MkMarks {G}. Arguments MpH {G}. Arguments LastMp {G}. Arguments clist {G}. Arguments guest {G}.
#[export] Instance eta_marks G : Eta (marks G) := fun s => MkMarks s.(MpH) s.(LastMp) s.(clist) s.(guest).

(** Guest memory as the marks need it: [mprotect_mapping] for the CPU emulator
    with its result, and a byte of memory. *)
Class CodeMem (G : Type) := {
  mprotect_mapping : Z -> Z -> Z -> M G Z;
  guest_byte : G -> Z -> Z;
}.

(** Where a page copy lives. *)
Inductive cloc := InCache (i : nat) | InMap (m page : Z).

Definition has_map (m : Z) (l : list tMpMap) : option tMpMap := find (fun M => mega M =? m) l.
Definition is_page (p : option bytes) : bool := match p with Some _ => true | None => false end.

Section marks.
Context {G : Type} `{CodeMem G}.
(** The contents of a fresh [malloc(HOST_PAGE_SIZE)]. *)
Context (junk : bytes).

Definition on_guest {A} (c : M G A) : M (marks G) A :=
  fun s => match c (guest s) with Ok (a, g) => Ok (a, s <| guest := g |>) | Fault e => Fault e end.

(** [*M] and an assignment to it. *)
Definition deref_map (m : Z) : M (marks G) tMpMap :=
  let! s := get in match has_map m (MpH s) with Some M => ret M | None => throw BadPointer end.
Definition upd_map (m : Z) (f : tMpMap -> tMpMap) : M (marks G) unit :=
  deref_map m ;;
  modify (fun s => s <| MpH ::= map (fun M => if mega M =? m then f M else M) |>).

(** ** Lookup *)

Definition FindM (addr : Z) : M (marks G) (option Z) :=
  let a2l := Z.shiftr addr MEGA_SHIFT in
  let! s := get in
  let search :=
    match has_map a2l (MpH s) with
    | Some _ => modify (fun s => s <| LastMp := Some a2l |>) ;; ret (Some a2l)
    | None => ret None
    end in
  match LastMp s with
  | Some m => let! M := deref_map m in if mega M =? a2l then ret (Some m) else search
  | None => search
  end.

Definition pagemap_at (m page : Z) : M (marks G) (option bytes) := let! M := deref_map m in ret (pagemap M page).
Definition subpage_bit (m nr : Z) : M (marks G) bool := let! M := deref_map m in ret (test_bit nr (subpage M)).
Definition nodemap_bit (m nr : Z) : M (marks G) bool := let! M := deref_map m in ret (test_bit nr (nodemap M)).

(** ** The cache of fetched pages *)

Fixpoint trim_clist (l : list cache_ent) : list cache_ent :=
  match l with
  | [] => []
  | c :: l => match trim_clist l with [] => if is_page (ce_data c) then [c] else [] | l => c :: l end
  end.

Definition holds (addr : Z) (c : cache_ent) : bool := is_page (ce_data c) && (ce_addr c =? addr).

(** [FindC]: the entry, taken out or kept alive. *)
Definition FindC (addr : Z) (remove : bool) : M (marks G) (option (nat * bytes)) :=
  let! s := get in
  match list_find (fun c => holds addr c = true) (clist s) with
  | Some (i, MkCe a n (Some p)) =>
    (if remove then modify (fun s => s <| clist ::= fun l => trim_clist (<[i := MkCe a n None]> l) |>)
     else modify (fun s => s <| clist ::= <[i := MkCe a CALIVE_CNT (Some p)]> |>)) ;;
    ret (Some (i, p))
  | _ => assert (negb remove) ;; ret None
  end.

Definition NewC (abeg : Z) : M (marks G) nat :=
  let! s := get in
  assert (Z.of_nat (length (clist s)) <? CLIST_MAX) ;;
  modify (fun s => s <| clist ::= fun l => l ++ [MkCe abeg CALIVE_CNT (Some junk)] |>) ;;
  ret (length (clist s)).

Definition drop_ent (all : bool) (c : cache_ent) : cache_ent :=
  match ce_data c with
  | None => c
  | Some _ =>
    if all then c <| ce_data := None |>
    else let n := alive_cnt c - 1 in
         if 0 <? n then c <| alive_cnt := n |> else c <| alive_cnt := n |> <| ce_data := None |>
  end.

Definition DropC (all : bool) : M (marks G) unit :=
  modify (fun s => s <| clist ::= fun l => trim_clist (map (drop_ent all) l) |>).

Definition e_mdrop : M (marks G) unit := DropC true.

(** ** Adding and removing pages *)

(** The map of the megabyte of [addr], made when there is none. *)
Definition get_map (addr : Z) : M (marks G) Z :=
  let! r := FindM addr in
  match r with
  | Some m => ret m
  | None =>
    let m := Z.shiftr addr MEGA_SHIFT in
    modify (fun s => s <| MpH ::= cons (MkMpMap m (fun _ => 0) (fun _ => 0) (fun _ => None)) |>) ;; ret m
  end.

Fixpoint AddMpMap_loop (fuel : nat) (m page addr aend : Z) : M (marks G) unit :=
  match fuel with
  | O => throw OutOfFuel
  | S fuel =>
    if aend <? addr then ret tt
    else
      let! (m, page) := if page =? pagespermega then let! m := get_map addr in ret (m, 0) else ret (m, page) in
      let! p := pagemap_at m page in
      (if is_page p then ret tt
       else
         let! e := FindC addr true in
         upd_map m (fun M => M <| pagemap ::= fun f i => if i =? page then option_map snd e else f i |>)) ;;
      AddMpMap_loop fuel m (page + 1) (u32 (addr + HOST_PAGE_SIZE)) aend
  end.

Definition AddMpMap (addr aend : Z) : M (marks G) unit :=
  let! m := get_map addr in
  AddMpMap_loop (S (S (Z.to_nat ((aend - addr) / HOST_PAGE_SIZE)))) m (addr / HOST_PAGE_SIZE mod pagespermega) addr aend.

(** Is nothing protected in the map? *)
Definition no_pages (M : tMpMap) : bool :=
  forallb (fun i => negb (is_page (pagemap M (Z.of_nat i)))) (seq 0 (Z.to_nat pagespermega)).

(** Whether the map has been removed as well. *)
Definition do_rm_page (m page : Z) : M (marks G) bool :=
  upd_map m (fun M => M <| pagemap ::= fun f i => if i =? page then None else f i |>) ;;
  let! M := deref_map m in
  if no_pages M then
    modify (fun s => s <| MpH ::= List.filter (fun M => negb (mega M =? m)) |>
                       <| LastMp ::= fun l => match l with Some m' => if m' =? m then None else l | None => None end |>) ;;
    ret true
  else ret false.

Fixpoint RmMpMap_loop (fuel : nat) (addr aend : Z) : M (marks G) unit :=
  match fuel with
  | O => throw OutOfFuel
  | S fuel =>
    if aend <? addr then ret tt
    else
      let page := addr / HOST_PAGE_SIZE in
      let! s := get in
      (match has_map (page / pagespermega) (MpH s) with
       | None => ret tt
       | Some M =>
         if is_page (pagemap M (page mod pagespermega))
         then do_rm_page (mega M) (page mod pagespermega) ;; ret tt else ret tt
       end) ;;
      RmMpMap_loop fuel (u32 (addr + HOST_PAGE_SIZE)) aend
  end.

Definition RmMpMap (addr aend : Z) : M (marks G) unit :=
  RmMpMap_loop (S (S (Z.to_nat ((aend - addr) / HOST_PAGE_SIZE)))) addr aend.

(** ** Protection queries *)

Definition e_querymprot (addr : Z) : M (marks G) bool :=
  let! r := FindM addr in
  match r with
  | None => ret false
  | Some m => let! p := pagemap_at m (addr / HOST_PAGE_SIZE mod pagespermega) in ret (is_page p)
  end.

(** [a2l] and [a2h] are page numbers, [r] the current map. *)
Fixpoint querymprotrange_loop (fuel : nat) (r : option Z) (a2l a2h : Z) : M (marks G) bool :=
  match fuel with
  | O => throw OutOfFuel
  | S fuel =>
    if a2h <? a2l then ret false
    else
      match r with
      | Some m =>
        let! p := pagemap_at m (a2l mod pagespermega) in
        if is_page p then ret true
        else
          let a2l := a2l + 1 in
          let! r := if a2l mod pagespermega =? 0 then FindM (u32 (a2l * HOST_PAGE_SIZE)) else ret r in
          querymprotrange_loop fuel r a2l a2h
      | None =>
        let a2l := a2l + pagespermega in
        let! r := FindM (u32 (a2l * HOST_PAGE_SIZE)) in
        querymprotrange_loop fuel r a2l a2h
      end
  end.

Definition e_querymprotrange (addr len : Z) : M (marks G) bool :=
  let! r := FindM addr in
  let a2l := addr / HOST_PAGE_SIZE in
  let a2h := (addr + len - 1) / HOST_PAGE_SIZE in
  let a2l := match r with Some _ => a2l | None => a2l - a2l mod pagespermega end in
  querymprotrange_loop (S (S (Z.to_nat (a2h - a2l)))) r a2l a2h.

Fixpoint querymprotrange_full_loop (fuel : nat) (r : option Z) (a2l a2h : Z) : M (marks G) bool :=
  match fuel with
  | O => throw OutOfFuel
  | S fuel =>
    match r with
    | None => ret false
    | Some m =>
      if a2h <? a2l then ret true
      else
        let! p := pagemap_at m (a2l mod pagespermega) in
        if negb (is_page p) then ret false
        else
          let a2l := a2l + 1 in
          let! r := if a2l mod pagespermega =? 0 then FindM (u32 (a2l * HOST_PAGE_SIZE)) else ret r in
          querymprotrange_full_loop fuel r a2l a2h
    end
  end.

Definition e_querymprotrange_full (addr len : Z) : M (marks G) bool :=
  let! r := FindM addr in
  let a2l := addr / HOST_PAGE_SIZE in
  let a2h := (addr + len - 1) / HOST_PAGE_SIZE in
  querymprotrange_full_loop (S (S (Z.to_nat (a2h - a2l)))) r a2l a2h.

(** ** Protecting pages *)

(** The loop over pages [a] to [aend] of [do_mprotect] ([want] false) and
    [e_munprotect] ([want] true): runs of pages whose protection is [want] are
    given to [flush]; [run] is the run so far. *)
Fixpoint protect_loop (flush : Z -> Z -> M (marks G) unit) (want : bool) (fuel : nat)
    (run : option (Z * Z)) (a aend : Z) : M (marks G) unit :=
  match fuel with
  | O => throw OutOfFuel
  | S fuel =>
    if aend <? a then ret tt
    else
      let! qp := e_querymprot a in
      let take := Bool.eqb qp want in
      let run := if take then Some (match run with Some (b, _) => b | None => a end, a) else run in
      let! run :=
        match run with
        | Some (b, e) => if (a =? aend) || negb take then flush b e ;; ret None else ret run
        | None => ret None
        end in
      protect_loop flush want fuel run (u32 (a + HOST_PAGE_SIZE)) aend
  end.

Definition protect_run (prot : Z) (b e : Z) : M (marks G) unit :=
  let! r := on_guest (mprotect_mapping b (e - b + HOST_PAGE_SIZE) prot) in
  if r <? 0 then throw LeaveDos else ret tt.

Definition pages_fuel (abeg aend : Z) : nat := S (S (Z.to_nat ((aend - abeg) / HOST_PAGE_SIZE))).

Definition do_mprotect (addr len : Z) : M (marks G) unit :=
  assert (truth len) ;;
  let abeg := page_start addr in
  let aend := page_start (u32 (addr + len - 1)) in
  protect_loop (fun b e => protect_run PROT_CODE b e ;; AddMpMap b (e + HOST_PAGE_SIZE - 1)) false
    (pages_fuel abeg aend) None abeg aend.

Definition e_mprotect (addr len : Z) : M (marks G) unit := do_mprotect addr len ;; DropC false.

Definition e_munprotect (addr len : Z) : M (marks G) unit :=
  let abeg := page_start addr in
  let aend := if len =? 0 then abeg else page_start (u32 (addr + len - 1)) in
  protect_loop (fun b e => protect_run PROT_RWX b e ;; RmMpMap b (e + HOST_PAGE_SIZE - 1)) true
    (pages_fuel abeg aend) None abeg aend.

(** ** Marks *)

(** The next byte; the map is looked up again in the next megabyte. *)
Definition next_byte (m abeg : Z) : M (marks G) Z :=
  if u32 (abeg + 1) mod 2 ^ MEGA_SHIFT =? 0 then
    let! r := FindM (u32 (abeg + 1)) in
    match r with Some m => ret m | None => throw AssertFailed end
  else ret m.

Fixpoint mark_loop (fuel : nat) (m abeg aend : Z) : M (marks G) unit :=
  match fuel with
  | O => throw OutOfFuel
  | S fuel =>
    if aend <? abeg then ret tt
    else
      let nr := Z.land abeg CGRMASK in
      let! b := subpage_bit m nr in
      assert (negb b) ;;
      upd_map m (fun M => M <| subpage ::= set_bit nr |>) ;;
      let! m := next_byte m abeg in
      mark_loop fuel m (u32 (abeg + 1)) aend
  end.

Definition e_markpage (addr len : Z) : M (marks G) unit :=
  assert (truth len) ;;
  e_mprotect addr len ;;
  let! r := FindM addr in
  match r with
  | None => throw AssertFailed
  | Some m =>
    upd_map m (fun M => M <| nodemap ::= set_bit (Z.land addr CGRMASK) |>) ;;
    mark_loop (S (Z.to_nat len)) m addr (u32 (addr + len - 1))
  end.

Fixpoint unmark_loop (fuel : nat) (m abeg aend : Z) : M (marks G) unit :=
  match fuel with
  | O => throw OutOfFuel
  | S fuel =>
    if aend <? abeg then ret tt
    else
      let nr := Z.land abeg CGRMASK in
      upd_map m (fun M => M <| nodemap ::= clear_bit nr |> <| subpage ::= clear_bit nr |>) ;;
      let! m := next_byte m abeg in
      unmark_loop fuel m (u32 (abeg + 1)) aend
  end.

(** Whole words of the search, [None] when it has reached [aend]. *)
Fixpoint querymark_loop (fuel : nat) (m idx abeg aend : Z) : M (marks G) (option bool * (Z * Z)) :=
  match fuel with
  | O => throw OutOfFuel
  | S fuel =>
    if aend <=? abeg then ret (None, (m, idx))
    else
      let! r := if Z.land abeg CGRMASK =? 0 then FindM abeg else ret (Some m) in
      match r with
      | None => ret (Some false, (m, idx))
      | Some m =>
        let idx := if Z.land abeg CGRMASK =? 0 then 0 else idx in
        let! M := deref_map m in
        if truth (subpage M idx) then ret (Some true, (m, idx))
        else querymark_loop fuel m (idx + 1) (u32 (abeg + 64)) aend
      end
  end.

Definition e_querymark (addr len : Z) : M (marks G) bool :=
  let! r := FindM addr in
  match r with
  | None => ret false
  | Some m =>
    if len =? 1 then subpage_bit m (Z.land addr CGRMASK)
    else
      let aend := u32 (addr + len) in
      let idx := Z.land addr CGRMASK / 64 in
      let mask := u64 (Z.shiftl (2 ^ 64 - 1) (Z.land addr 63)) in
      let mask_e := Z.shiftl 1 (Z.land aend 63) - 1 in
      let abeg := addr - Z.land addr 63 in
      let aend := aend - Z.land aend 63 in
      let! M := deref_map m in
      if abeg =? aend then ret (truth (Z.land (Z.land (subpage M idx) mask) mask_e))
      else if truth (Z.land (subpage M idx) mask) then ret true
      else
        let! (r, (m, idx)) :=
          querymark_loop (S (Z.to_nat ((aend - abeg) / 64))) m (idx + 1) (u32 (abeg + 64)) aend in
        match r with
        | Some b => ret b
        | None =>
          if mask_e =? 0 then ret false
          else
            let! r := if Z.land aend CGRMASK =? 0 then FindM aend else ret (Some m) in
            match r with
            | None => ret false
            | Some m =>
              let idx := if Z.land aend CGRMASK =? 0 then 0 else idx in
              let! M := deref_map m in ret (truth (Z.land (subpage M idx) mask_e))
            end
        end
  end.

Definition e_unmarkpage (addr len : Z) : M (marks G) bool :=
  let! r := FindM addr in
  match r with
  | None => ret false
  | Some m =>
    if len =? 0 then ret false
    else
      unmark_loop (S (Z.to_nat len)) m addr (u32 (addr + len - 1)) ;;
      let abeg := page_start addr in
      let aend := page_start (u32 (addr + len + HOST_PAGE_SIZE - 1)) in
      let! abeg :=
        if abeg =? addr then ret abeg
        else let! b := e_querymark abeg (addr - abeg) in ret (if b then abeg + HOST_PAGE_SIZE else abeg) in
      let! aend :=
        if aend =? addr + len then ret aend
        else let! b := e_querymark (u32 (addr + len)) (aend - (addr + len)) in
             ret (if b then aend - HOST_PAGE_SIZE else aend) in
      (if abeg <? aend then e_munprotect abeg (aend - abeg) else ret tt) ;;
      ret true
  end.

Fixpoint querymark_all_loop (fuel : nat) (m abeg aend : Z) : M (marks G) bool :=
  match fuel with
  | O => throw OutOfFuel
  | S fuel =>
    if aend <? abeg then ret true
    else
      let! b := subpage_bit m (Z.land abeg CGRMASK) in
      if negb b then ret false
      else
        let abeg := u32 (abeg + 1) in
        let! r := if Z.land abeg CGRMASK =? 0 then FindM abeg else ret (Some m) in
        match r with
        | None => ret false
        | Some m => querymark_all_loop fuel m abeg aend
        end
  end.

Definition e_querymark_all (addr len : Z) : M (marks G) bool :=
  let! r := FindM addr in
  match r with
  | None => ret false
  | Some m => querymark_all_loop (S (Z.to_nat len)) m addr (u32 (addr + len - 1))
  end.

Definition e_querynode (addr : Z) : M (marks G) bool :=
  let! r := FindM addr in
  match r with None => ret false | Some m => nodemap_bit m (Z.land addr CGRMASK) end.

(** ** Fetching code *)

Definition page_at (l : cloc) : M (marks G) bytes :=
  let! s := get in
  match l with
  | InCache i => match clist s !! i with Some (MkCe _ _ (Some p)) => ret p | _ => throw BadPointer end
  | InMap m page => let! p := pagemap_at m page in match p with Some p => ret p | None => throw BadPointer end
  end.

Definition upd_page (l : cloc) (f : bytes -> bytes) : M (marks G) unit :=
  match l with
  | InCache i => modify (fun s => s <| clist ::= alter (fun c => c <| ce_data ::= option_map f |>) i |>)
  | InMap m page => upd_map m (fun M => M <| pagemap ::= fun g i => if i =? page then option_map f (g i) else g i |>)
  end.

(** [MEMCPY_2UNIX(&p[off], addr, n)]. *)
Definition copy_in (l : cloc) (off addr n : Z) : M (marks G) unit :=
  let! s := get in
  upd_page l (fun p i => if (off <=? i) && (i <? off + n) then guest_byte (guest s) (addr + (i - off)) else p i).

(** The copy of a page: cached, in the map [r] (or the one of [addr]), or new. *)
Definition find_page (addr page : Z) (r : option Z) : M (marks G) (cloc * option Z) :=
  let! e := FindC addr false in
  match e with
  | Some (i, _) => ret (InCache i, r)
  | None =>
    let! r := match r with Some m => ret (Some m) | None => FindM addr end in
    let! p := match r with Some m => pagemap_at m page | None => ret None end in
    match r, p with
    | Some m, Some _ => ret (InMap m page, r)
    | _, _ => let! i := NewC addr in ret (InCache i, r)
    end
  end.

Definition e_fetch (addr len : Z) : M (marks G) (cloc * option cloc) :=
  assert (truth len && (len <=? HOST_PAGE_SIZE)) ;;
  let abeg := page_start addr in
  let aend := page_start (u32 (addr + len - 1)) in
  assert (Z.shiftr abeg MEGA_SHIFT =? Z.shiftr aend MEGA_SHIFT) ;;
  let page := abeg / HOST_PAGE_SIZE mod pagespermega in
  let! (p0, r) := find_page abeg page None in
  copy_in p0 (addr mod HOST_PAGE_SIZE) addr (if abeg =? aend then len else aend - addr) ;;
  if abeg =? aend then ret (p0, None)
  else
    let! (p1, _) := find_page aend (page + 1) r in
    copy_in p1 0 aend (u32 (addr + len - aend)) ;;
    ret (p0, Some p1).

Definition fB (c : bytes) (x : Z) : Z := c (x mod HOST_PAGE_SIZE).
Definition fW (c : bytes) (x : Z) : Z :=
  if truth (Z.land x 1) then Z.lor (Z.shiftl (fB c (x + 1)) 8) (fB c x)
  else load 2 c (x mod HOST_PAGE_SIZE / 2 * 2).
Definition fD (c : bytes) (x : Z) : Z :=
  if truth (Z.land x 3) then Z.lor (Z.shiftl (fW c (x + 2)) 16) (fW c x)
  else load 4 c (x mod HOST_PAGE_SIZE / 4 * 4).

(** The pages a fetch has returned. *)
Definition fetched (r : cloc * option cloc) : M (marks G) (bytes * bytes) :=
  let! c0 := page_at (fst r) in
  let! c1 := match snd r with Some l => page_at l | None => ret junk end in
  ret (c0, c1).

Definition jit_fetch_byte (x : Z) : M (marks G) Z :=
  let! r := e_fetch x 1 in
  let! (c0, _) := fetched r in ret (fB c0 x).

Definition same_mega (x y : Z) : bool := Z.shiftr x MEGA_SHIFT =? Z.shiftr y MEGA_SHIFT.
Definition same_page (x y : Z) : bool := page_start x =? page_start y.

Definition jit_fetch_word (x : Z) : M (marks G) Z :=
  if negb (same_mega x (u32 (x + 1))) then
    let! h := jit_fetch_byte (u32 (x + 1)) in
    let! l := jit_fetch_byte x in ret (Z.lor (Z.shiftl h 8) l)
  else
    let! r := e_fetch x 2 in
    let! (c0, c1) := fetched r in
    ret (if same_page x (u32 (x + 1)) then fW c0 x else Z.lor (Z.shiftl (fB c1 (x + 1)) 8) (fB c0 x)).

Definition jit_fetch_dword (x : Z) : M (marks G) Z :=
  if negb (same_mega x (u32 (x + 3))) then
    let! h := jit_fetch_word (u32 (x + 2)) in
    let! l := jit_fetch_word x in ret (Z.lor (Z.shiftl h 16) l)
  else
    let! r := e_fetch x 4 in
    let! (c0, c1) := fetched r in
    ret (if same_page x (u32 (x + 3)) then fD c0 x
         else if negb (truth (Z.land x 1)) then Z.lor (Z.shiftl (fW c1 (x + 2)) 16) (fW c0 x)
         else if truth (Z.land x 2) then Z.lor (Z.shiftl (Z.land (fD c1 (x + 1)) 0xffffff) 8) (fB c0 x)
         else Z.lor (Z.shiftl (fB c1 (x + 3)) 24) (Z.shiftr (fD c0 (x - 1)) 8)).

(** ** Dirty pages *)

Fixpoint dirty_word (fuel : nat) (p : bytes) (g : G) (p1 i word n : Z) : bool :=
  match fuel with
  | O => false
  | S fuel =>
    let n := find_bit64_from word (n + 1) in
    if n =? -1 then false
    else
      let bnum := i * 64 + n in
      if negb (p bnum =? guest_byte g (p1 + bnum)) then true else dirty_word fuel p g p1 i word n
  end.

Definition subpage_dirty (p : bytes) (g : G) (p1 : Z) (M : tMpMap) (page : Z) : bool :=
  existsb (fun i => dirty_word 65 p g p1 (Z.of_nat i) (subpage M (page * 64 + Z.of_nat i)) (-1)) (seq 0 64).

(** ** Searching block starts *)

(** The first map from the word [abeg] on: the word, the index in the map, the
    count [c] of words passed, or [None] past [aend]; [first] is the partial
    skip at the beginning. *)
Fixpoint skip_maps (fuel : nat) (i abeg aend c n : Z) : M (marks G) (option (Z * (Z * Z * Z * Z))) :=
  match fuel with
  | O => throw OutOfFuel
  | S fuel =>
    let addr2 := u32 (Z.shiftl abeg 6) - u32 (Z.shiftl abeg 6) mod 2 ^ MEGA_SHIFT in
    let! r := FindM addr2 in
    match r with
    | Some m => ret (Some (m, (i, abeg, c, n)))
    | None =>
      let abeg := Z.shiftr (u32 (addr2 + CGRMASK + 1)) 6 in
      if abeg <=? aend then skip_maps fuel 0 abeg aend (c + NM_MASK + 1 - i) 0 else ret None
    end
  end.

Fixpoint findnode_loop (fuel skips : nat) (m i abeg aend c n : Z) : M (marks G) (option (Z * (Z * Z))) :=
  match fuel with
  | O => throw OutOfFuel
  | S fuel =>
    if aend <? abeg then ret None
    else
      let! M := deref_map m in
      let f := find_bit64_from (nodemap M i) n in
      if negb (f =? -1) then ret (Some (f, (abeg, c)))
      else
        let abeg := abeg + 1 in
        let i := i + 1 in
        let c := c + 1 in
        if Z.land i NM_MASK =? 0 then
          let! r := skip_maps skips 0 abeg aend c 0 in
          match r with
          | None => ret None
          | Some (m, (i, abeg, c, _)) => findnode_loop fuel skips m i abeg aend c 0
          end
        else findnode_loop fuel skips m i abeg aend c 0
  end.

(** -1 when there is none. *)
Definition m_findnode (addr len : Z) : M (marks G) Z :=
  assert (truth len) ;;
  let last := u32 (addr + len - 1) in
  let n := addr mod 64 in
  let m := last mod 64 in
  let abeg := addr / 64 in
  let aend := last / 64 in
  let skips := S (Z.to_nat ((aend - abeg) / (NM_MASK + 1) + 1)) in
  let! r := skip_maps skips (Z.land abeg NM_MASK) abeg aend 0 n in
  match r with
  | None => ret (-1)
  | Some (mp, (i, abeg, c, n)) =>
    let! r := findnode_loop (S (S (Z.to_nat (aend - abeg)))) skips mp i abeg aend c n in
    match r with
    | None => ret (-1)
    | Some (f, (abeg, c)) =>
      if (abeg =? aend) && (m <? f) then ret (-1) else ret (u32 (addr - addr mod 64 + c * 64 + f))
    end
  end.

(** Back from the byte [ah + abeg] to the start of its block. *)
Fixpoint findnodestart_loop (fuel : nat) (once : bool) (m abeg ah : Z) : M (marks G) Z :=
  match fuel with
  | O => throw OutOfFuel
  | S fuel =>
    let! b := subpage_bit m abeg in
    if negb b then assert (negb once) ;; ret (-1)
    else
      let! n := nodemap_bit m abeg in
      if n then ret (ah + abeg)
      else if abeg =? 0 then
        assert (truth ah) ;;
        let ah := ah - (CGRMASK + 1) in
        let! r := FindM ah in
        match r with
        | None => throw AssertFailed
        | Some m => findnodestart_loop fuel true m CGRMASK ah
        end
      else findnodestart_loop fuel true m (abeg - 1) ah
  end.

Definition m_findnodestart (addr : Z) : M (marks G) Z :=
  let! r := FindM addr in
  match r with
  | None => ret (-1)
  | Some m => findnodestart_loop (S (S (Z.to_nat addr))) false m (Z.land addr CGRMASK) (addr - Z.land addr CGRMASK)
  end.

(** ** Start and end *)

Definition mprot_init : M (marks G) unit := modify (fun s => s <| MpH := [] |>).

(** Unprotect the pages of the map [m]; whether the map has been removed. *)
Fixpoint mprot_end_map (n : nat) (m i : Z) : M (marks G) bool :=
  match n with
  | O => ret false
  | S n =>
    let! p := pagemap_at m i in
    if is_page p then
      on_guest (mprotect_mapping (m * 2 ^ MEGA_SHIFT + i * HOST_PAGE_SIZE) HOST_PAGE_SIZE PROT_RWX) ;;
      let! gone := do_rm_page m i in
      if gone then ret true else mprot_end_map n m (i + 1)
    else mprot_end_map n m (i + 1)
  end.

Fixpoint mprot_end_maps (fuel : nat) (l : list tMpMap) : M (marks G) unit :=
  match fuel with
  | O => throw OutOfFuel
  | S fuel =>
    match l with
    | [] => ret tt
    | M :: l =>
      let! gone := mprot_end_map (Z.to_nat pagespermega) (mega M) 0 in
      if gone then let! s := get in mprot_end_maps fuel (MpH s) else mprot_end_maps fuel l
    end
  end.

Definition mprot_end : M (marks G) unit :=
  let! s := get in
  mprot_end_maps (S (length (MpH s) * S (length (MpH s)))) (MpH s) ;;
  modify (fun s => s <| MpH := [] |> <| LastMp := None |>).

End marks.
