(* ===== verification/MarksInv.v ===== *)
(** * Marks of translated code: what the maps say

    The maps seen as three predicates on guest addresses, their invariant, and
    the effect of single updates. *)

From stdpp Require Import base numbers list.
From Stdlib Require Import ZArith Lia.
From S2P Require Import Prelude Machine SimMem Marks.

Local Open Scope Z_scope.

(** ** Bits *)

Lemma test_set_bit i nr w : 0 <= i -> 0 <= nr -> test_bit i (set_bit nr w) = (i =? nr) || test_bit i w.
Proof.
  intros Hi Hn. unfold test_bit, set_bit. pose proof (Z.mod_pos_bound i 64 ltac:(lia)). pose proof (Z.mod_pos_bound nr 64 ltac:(lia)).
  pose proof (Z.div_mod i 64 ltac:(lia)) as Ei. pose proof (Z.div_mod nr 64 ltac:(lia)) as En.
  destruct (Z.eqb_spec (i / 64) (nr / 64)) as [E|E].
  - rewrite E, Z.lor_spec, Z.shiftl_1_l, Z.pow2_bits_eqb by lia. rewrite orb_comm. f_equal. zbool; lia || done.
  - zbool; [subst; done|done].
Qed.

Lemma test_clear_bit i nr w : 0 <= i -> 0 <= nr -> test_bit i (clear_bit nr w) = negb (i =? nr) && test_bit i w.
Proof.
  intros Hi Hn. unfold test_bit, clear_bit. pose proof (Z.mod_pos_bound i 64 ltac:(lia)). pose proof (Z.mod_pos_bound nr 64 ltac:(lia)).
  pose proof (Z.div_mod i 64 ltac:(lia)) as Ei. pose proof (Z.div_mod nr 64 ltac:(lia)) as En.
  destruct (Z.eqb_spec (i / 64) (nr / 64)) as [E|E].
  - rewrite E, Z.land_spec. unfold not64, u64. rewrite Z.mod_pow2_bits_low by lia.
    rewrite Z.lnot_spec, Z.shiftl_1_l, Z.pow2_bits_eqb by lia. rewrite andb_comm. f_equal. f_equal. zbool; lia || done.
  - zbool; [subst; done|done].
Qed.

Definition words_ok (w : words) : Prop := forall i, 0 <= w i < 2 ^ 64.

Lemma bounded_bits w : 0 <= w -> (forall i, 64 <= i -> Z.testbit w i = false) -> w < 2 ^ 64.
Proof.
  intros Hw H. destruct (Z.eq_dec w 0) as [->|]; [lia|]. apply Z.log2_lt_pow2; [lia|].
  destruct (Z.lt_ge_cases (Z.log2 w) 64) as [|Hge]; [done|]. specialize (H _ Hge). rewrite Z.bit_log2 in H by lia. done.
Qed.

Lemma word_bit_high w i : 0 <= w < 2 ^ 64 -> 64 <= i -> Z.testbit w i = false.
Proof.
  intros Hw Hi. destruct (Z.eq_dec w 0) as [->|]; [apply Z.testbit_0_l|].
  apply Z.bits_above_log2; [lia|]. assert (Z.log2 w < 64) by (apply Z.log2_lt_pow2; lia). lia.
Qed.

Lemma set_bit_ok nr w : 0 <= nr -> words_ok w -> words_ok (set_bit nr w).
Proof.
  intros Hn Hw i. unfold set_bit. destruct (_ =? _); [|apply Hw]. specialize (Hw i).
  pose proof (Z.mod_pos_bound nr 64 ltac:(lia)). rewrite Z.shiftl_1_l.
  assert (0 <= Z.lor (w i) (2 ^ (nr mod 64))) by (apply Z.lor_nonneg; split; lia). split; [done|].
  apply bounded_bits; [done|]. intros j Hj. rewrite Z.lor_spec, (word_bit_high (w i)), Z.pow2_bits_false by lia. done.
Qed.

Lemma clear_bit_ok nr w : 0 <= nr -> words_ok w -> words_ok (clear_bit nr w).
Proof.
  intros Hn Hw i. unfold clear_bit. destruct (_ =? _); [|apply Hw]. specialize (Hw i).
  assert (0 <= Z.land (w i) (not64 (Z.shiftl 1 (nr mod 64)))) by (apply Z.land_nonneg; lia). split; [done|].
  apply bounded_bits; [done|]. intros j Hj. by rewrite Z.land_spec, (word_bit_high (w i)) by lia.
Qed.

(** ** The list of maps *)

Lemma has_map_Some m l M : has_map m l = Some M -> M ∈ l /\ mega M = m.
Proof. intros H. apply find_some in H as [H1 H2]. split; [by apply list_elem_of_In|by apply Z.eqb_eq]. Qed.

Lemma has_map_upd m f l m' :
  (forall M, mega (f M) = mega M) ->
  has_map m' (map (fun M => if mega M =? m then f M else M) l) =
  (if m' =? m then f <$> has_map m' l else has_map m' l).
Proof.
  intros Hf. unfold has_map. induction l as [|M l IH]; simpl; [by destruct (_ =? _)|].
  assert (mega (if mega M =? m then f M else M) = mega M) as -> by (destruct (mega M =? m); [apply Hf|done]).
  destruct (Z.eqb_spec (mega M) m') as [<-|]; [|apply IH]. by destruct (mega M =? m).
Qed.

Lemma has_map_filter m l m' :
  has_map m' (List.filter (fun M => negb (mega M =? m)) l) = (if m' =? m then None else has_map m' l).
Proof.
  unfold has_map. induction l as [|M l IH]; simpl; [by destruct (_ =? _)|].
  destruct (Z.eqb_spec (mega M) m) as [E|E]; simpl; rewrite IH;
    destruct (Z.eqb_spec (mega M) m') as [<-|]; zbool; done || lia.
Qed.

(** ** What the maps say of an address *)

Section view.
Context {G : Type}.
Implicit Types s : marks G.

Definition map_of s (a : Z) : option tMpMap := has_map (a / 2 ^ 20) (MpH s).
Definition offset (a : Z) : Z := a mod 2 ^ 20.
Definition page_index (a : Z) : Z := a / HOST_PAGE_SIZE mod pagespermega.

Definition marked s (a : Z) : bool :=
  match map_of s a with Some M => test_bit (offset a) (subpage M) | None => false end.
Definition starts s (a : Z) : bool :=
  match map_of s a with Some M => test_bit (offset a) (nodemap M) | None => false end.
Definition copy_of s (a : Z) : option bytes := map_of s a ≫= fun M => pagemap M (page_index a).
Definition protected s (a : Z) : bool := is_page (copy_of s a).

Lemma land_CGRMASK a : Z.land a CGRMASK = offset a.
Proof. change CGRMASK with (Z.ones 20). by rewrite Z.land_ones. Qed.

Lemma offset_range a : 0 <= offset a < 2 ^ 20.
Proof. apply Z.mod_pos_bound. lia. Qed.

Lemma shiftr_mega a : Z.shiftr a MEGA_SHIFT = a / 2 ^ 20.
Proof. by rewrite Z.shiftr_div_pow2. Qed.

Lemma page_start_eq a : page_start a = a / HOST_PAGE_SIZE * HOST_PAGE_SIZE.
Proof. unfold page_start. pose proof (Z.div_mod a HOST_PAGE_SIZE ltac:(done)). lia. Qed.

(** Two addresses on one page. *)
Lemma page_same a b :
  a / HOST_PAGE_SIZE = b / HOST_PAGE_SIZE -> a / 2 ^ 20 = b / 2 ^ 20 /\ page_index a = page_index b.
Proof.
  intros E. unfold page_index. split; [|by rewrite E].
  change (2 ^ 20) with (HOST_PAGE_SIZE * 256). by rewrite <- !Z.div_div, E by (done || lia).
Qed.

Lemma page_differs a b :
  a / 2 ^ 20 = b / 2 ^ 20 -> page_index a = page_index b -> a / HOST_PAGE_SIZE = b / HOST_PAGE_SIZE.
Proof.
  intros E1 E2. unfold page_index in E2. change (2 ^ 20) with (HOST_PAGE_SIZE * 256) in E1. rewrite <- !Z.div_div in E1 by (done || lia).
  pose proof (Z.div_mod (a / HOST_PAGE_SIZE) pagespermega ltac:(done)).
  pose proof (Z.div_mod (b / HOST_PAGE_SIZE) pagespermega ltac:(done)). unfold pagespermega in *. lia.
Qed.

Lemma protected_page s a b : a / HOST_PAGE_SIZE = b / HOST_PAGE_SIZE -> protected s a = protected s b.
Proof. intros E. destruct (page_same a b E) as [E1 E2]. unfold protected, copy_of, map_of. by rewrite E1, E2. Qed.

Lemma offset_eqb a b : a / 2 ^ 20 = b / 2 ^ 20 -> (offset a =? offset b) = (a =? b).
Proof.
  intros E. unfold offset. pose proof (Z.div_mod a (2 ^ 20) ltac:(lia)). pose proof (Z.div_mod b (2 ^ 20) ltac:(lia)).
  zbool; lia || done.
Qed.

End view.

(** ** Guest memory

    What the marks rely on: in a [good] memory protecting pages succeeds, changes no byte, and
    makes the pages [clean]: no access to them goes around the check of their
    protection. *)

Class CodeMemLaws (G : Type) `{CodeMem G} := {
  good : G -> Prop;
  clean : G -> Z -> Prop;
  good_bytes g a : good g -> byte (guest_byte g a);
  mprotect_law b n prot g :
    good g -> 0 <= b -> b mod HOST_PAGE_SIZE = 0 -> 0 < n -> n mod HOST_PAGE_SIZE = 0 -> b + n <= 2 ^ 32 ->
    wp (mprotect_mapping b n prot) g (fun r g' =>
      0 <= r /\ good g' /\ (forall a, guest_byte g' a = guest_byte g a) /\
      (forall a, b <= a < b + n -> clean g' a) /\ (forall a, clean g a -> clean g' a));
}.

(** Address space the searches can step over without wrapping to 0. *)
Definition ADDR_END : Z := 2 ^ 32 - 2 ^ 20.

Section inv.
Context {G : Type} `{CodeMemLaws G}.
Context (junk : bytes).
Implicit Types s : marks G.
#[local] Set Default Proof Using "Type*".

Record marks_ok s : Prop := {
  ok_unique : NoDup (mega <$> MpH s);
  ok_mega M : M ∈ MpH s -> 0 <= mega M;
  ok_last m : LastMp s = Some m -> is_Some (has_map m (MpH s));
  ok_words M : M ∈ MpH s -> words_ok (subpage M) /\ words_ok (nodemap M);
  ok_pages a : 0 <= a -> marked s a = true -> protected s a = true;
  ok_clean a : 0 <= a -> protected s a = true -> clean (guest s) a;
  ok_good : good (guest s);
}.

(** A block starts at a marked byte. *)
Definition blocks_ok s : Prop := forall a, 0 <= a -> starts s a = true -> marked s a = true.

(** A query may only move [LastMp]. *)
Definition seen s s' : Prop := exists l, s' = s <| LastMp := l |> /\ (forall m, l = Some m -> is_Some (has_map m (MpH s))).

Lemma seen_refl s : marks_ok s -> seen s s.
Proof. intros Hs. exists (LastMp s). split; [by destruct s|apply Hs]. Qed.

Lemma seen_trans s s' s'' : seen s s' -> seen s' s'' -> seen s s''.
Proof using Type. intros (l & -> & H1) (l' & -> & H2). by exists l'. Qed.

Lemma seen_ok s s' : seen s s' -> marks_ok s -> marks_ok s'.
Proof. intros (l & -> & Hl) []. by constructor. Qed.

Lemma seen_MpH s s' : seen s s' -> MpH s' = MpH s.
Proof using Type. by intros (l & -> & _). Qed.

(** [c] gives a result in [P] and changes nothing that can be seen. *)
Definition finds {A} (c : M (marks G) A) s (P : A -> Prop) : Prop := wp c s (fun r s' => P r /\ seen s s').
Definition quiet {A} (c : M (marks G) A) s (r : A) : Prop := finds c s (fun r' => r' = r).

Lemma finds_ret {A} (a : A) s (P : A -> Prop) : marks_ok s -> P a -> finds (ret a) s P.
Proof. intros Hs Ha. split; [done|by apply seen_refl]. Qed.

Lemma finds_bind {A B} (c : M (marks G) A) (k : A -> M (marks G) B) s (P : A -> Prop) (Q : B -> Prop) :
  marks_ok s -> finds c s P -> (forall a s', P a -> marks_ok s' -> MpH s' = MpH s -> finds (k a) s' Q) -> finds (bind c k) s Q.
Proof.
  intros Hs Hc Hk. unfold finds. wp_step. eapply wp_mono; [exact Hc|]. intros a s' [Ha Hss].
  eapply wp_mono; [apply (Hk a s'); [done|by eapply seen_ok|by apply seen_MpH]|]. intros b s'' [Hb H2]. split; [done|by eapply seen_trans].
Qed.

Lemma finds_mono {A} (c : M (marks G) A) s (P Q : A -> Prop) : finds c s P -> (forall a, P a -> Q a) -> finds c s Q.
Proof. intros Hc HPQ. eapply wp_mono; [exact Hc|]. intros a s' [Ha Hs]. split; [by apply HPQ|done]. Qed.

Lemma quiet_ret {A} (a : A) s : marks_ok s -> quiet (ret a) s a.
Proof. intros Hs. by apply finds_ret. Qed.

Lemma quiet_bind {A B} (c : M (marks G) A) (k : A -> M (marks G) B) s a (Q : B -> Prop) :
  marks_ok s -> quiet c s a -> (forall s', marks_ok s' -> MpH s' = MpH s -> finds (k a) s' Q) -> finds (bind c k) s Q.
Proof. intros Hs Hc Hk. eapply finds_bind; [done|exact Hc|]. intros ? s' ->. apply Hk. Qed.

Lemma quiet_wp {A} (c : M (marks G) A) s a (Q : A -> marks G -> Prop) :
  quiet c s a -> (forall s', seen s s' -> Q a s') -> wp c s Q.
Proof. intros Hc HQ. eapply wp_mono; [exact Hc|]. intros ? s' [-> Hs']. by apply HQ. Qed.

Lemma quiet_deref m s M : marks_ok s -> has_map m (MpH s) = Some M -> quiet (deref_map m) s M.
Proof. intros Hs E. unfold quiet, finds, deref_map. wp_step. wp_step. rewrite E. wp_step. split; [done|by apply seen_refl]. Qed.

Lemma quiet_FindM a s : marks_ok s -> 0 <= a -> quiet (FindM a) s (mega <$> map_of s a).
Proof.
  intros Hs Ha. unfold FindM. rewrite shiftr_mega. unfold quiet, finds. wp_step. wp_step. unfold map_of.
  set (search := match has_map _ _ with Some _ => _ | None => _ end).
  assert (wp search s (fun r' s' => r' = mega <$> has_map (a / 2 ^ 20) (MpH s) /\ seen s s')) as Hsearch.
  { unfold search. destruct (has_map _ _) as [M|] eqn:E; repeat wp_step.
    - destruct (has_map_Some _ _ _ E) as [_ Em]. split; [by rewrite <- Em|]. exists (Some (a / 2 ^ 20)). split; [done|]. intros ? [= <-]. by exists M.
    - split; [done|by apply seen_refl]. }
  destruct (LastMp s) as [m|] eqn:El; [|done].
  destruct (ok_last _ Hs m El) as [M E]. wp_step. eapply quiet_wp; [by apply quiet_deref|]. intros s' Hs'.
  destruct (has_map_Some _ _ _ E) as [_ Em].
  destruct (Z.eqb_spec (mega M) (a / 2 ^ 20)) as [Ea|].
  - wp_step. split; [|done]. rewrite <- Ea, Em, E. simpl. by rewrite Em.
  - assert (s' = s <| LastMp := LastMp s' |>) as Eq by (by destruct Hs' as (l & -> & _)).
    unfold deref_map in *. revert Hsearch. unfold search.
    destruct (has_map (a / 2 ^ 20) _) as [M'|] eqn:E'; intros _; repeat wp_step.
    + destruct (has_map_Some _ _ _ E') as [_ Em']. split; [by rewrite <- Em'|]. exists (Some (a / 2 ^ 20)).
      split; [by rewrite Eq|]. intros ? [= <-]. by exists M'.
    + split; [done|done].
Qed.

(** ** Updates of one map *)

Definition with_map (m : Z) (f : tMpMap -> tMpMap) s : marks G :=
  s <| MpH ::= map (fun M => if mega M =? m then f M else M) |>.

Lemma wp_upd_mpmap m f s (Q : unit -> marks G -> Prop) :
  is_Some (has_map m (MpH s)) -> Q tt (with_map m f s) -> wp (upd_map m f) s Q.
Proof using Type. intros [M E] HQ. unfold upd_map, deref_map. repeat wp_step. rewrite E. by repeat wp_step. Qed.

Definition keeps_mega (f : tMpMap -> tMpMap) : Prop := forall M, mega (f M) = mega M.

Lemma with_map_has m f s m' :
  keeps_mega f -> has_map m' (MpH (with_map m f s)) = (if m' =? m then f <$> has_map m' (MpH s) else has_map m' (MpH s)).
Proof using Type. intros Hf. by apply has_map_upd. Qed.

Lemma map_of_with_map m f s a :
  keeps_mega f -> map_of (with_map m f s) a = (if a / 2 ^ 20 =? m then f <$> map_of s a else map_of s a).
Proof using Type. apply with_map_has. Qed.

Lemma with_map_mega m f s : keeps_mega f -> mega <$> MpH (with_map m f s) = mega <$> MpH s.
Proof using Type.
  intros Hf. unfold with_map. cbn [MpH upd]. induction (MpH s) as [|M l IH]; [done|].
  cbn [map]. rewrite !fmap_cons. f_equal; [|exact IH]. destruct (_ =? _); [apply Hf|done].
Qed.

Lemma with_map_last m f s m' :
  keeps_mega f -> marks_ok s -> LastMp s = Some m' -> is_Some (has_map m' (MpH (with_map m f s))).
Proof.
  intros Hf Hs E. destruct (ok_last _ Hs _ E) as [M EM]. rewrite with_map_has by done.
  destruct (_ =? _); [|by exists M]. rewrite EM. by exists (f M).
Qed.

Lemma with_map_pos m f s :
  keeps_mega f -> marks_ok s -> forall M, M ∈ MpH (with_map m f s) -> 0 <= mega M.
Proof.
  intros Hf Hs M HM. apply list_elem_of_fmap in HM as (M' & -> & HM'). pose proof (ok_mega _ Hs _ HM').
  destruct (_ =? _); [by rewrite Hf|done].
Qed.

Lemma with_map_words m f s :
  marks_ok s -> (forall M, words_ok (subpage M) -> words_ok (nodemap M) -> words_ok (subpage (f M)) /\ words_ok (nodemap (f M))) ->
  forall M, M ∈ MpH (with_map m f s) -> words_ok (subpage M) /\ words_ok (nodemap M).
Proof.
  intros Hs Hf M HM. apply list_elem_of_fmap in HM as (M' & -> & HM'). destruct (ok_words _ Hs _ HM').
  destruct (_ =? _); [by apply Hf|done].
Qed.

(** The maps and the page copies are the same, so are the cache and the guest. *)
Record same_pages s s' : Prop := {
  same_maps a : mega <$> map_of s' a = mega <$> map_of s a;
  same_copy a : copy_of s' a = copy_of s a;
  same_clist : clist s' = clist s;
  same_guest : guest s' = guest s;
}.

Lemma same_pages_refl s : same_pages s s.
Proof using Type. by constructor. Qed.

Lemma same_pages_trans s s' s'' : same_pages s s' -> same_pages s' s'' -> same_pages s s''.
Proof using Type. intros [] []. constructor; [intros a; by rewrite same_maps1|intros a; by rewrite same_copy1|congruence..]. Qed.

Lemma same_pages_has s s' a : same_pages s s' -> is_Some (map_of s' a) <-> is_Some (map_of s a).
Proof using Type. intros [Hm _ _ _]. specialize (Hm a). rewrite <- (fmap_is_Some mega (map_of s' a)), Hm. apply fmap_is_Some. Qed.

Lemma same_pages_protected s s' a : same_pages s s' -> protected s' a = protected s a.
Proof using Type. intros Hp. unfold protected. by rewrite (same_copy _ _ Hp). Qed.

Lemma seen_same s s' : seen s s' -> same_pages s s'.
Proof using Type. intros (l & -> & _). by constructor. Qed.

Lemma seen_view s s' a : seen s s' -> marked s' a = marked s a /\ starts s' a = starts s a.
Proof using Type. by intros (l & -> & _). Qed.

(** Updates that leave the page copies alone. *)
Definition only_bits (f : tMpMap -> tMpMap) : Prop := forall M, mega (f M) = mega M /\ pagemap (f M) = pagemap M.

Lemma only_bits_same m f s : only_bits f -> same_pages s (with_map m f s).
Proof using Type.
  intros Hf. constructor; [..|done|done]; intros a.
  - rewrite map_of_with_map by (intros M; apply Hf). destruct (_ =? _), (map_of s a) as [M|]; simpl; try done. f_equal. apply Hf.
  - unfold copy_of. rewrite map_of_with_map by (intros M; apply Hf).
    destruct (_ =? _), (map_of s a) as [M|]; simpl; try done. by rewrite (proj2 (Hf M)).
Qed.

Lemma only_bits_ok m f s :
  marks_ok s -> only_bits f ->
  (forall M, words_ok (subpage M) -> words_ok (nodemap M) -> words_ok (subpage (f M)) /\ words_ok (nodemap (f M))) ->
  (forall a, 0 <= a -> marked (with_map m f s) a = true -> protected s a = true) ->
  marks_ok (with_map m f s).
Proof.
  intros Hs Hf Hw Hp. pose proof (only_bits_same m f s Hf) as Hsame.
  assert (keeps_mega f) as Hk by (intros M; apply Hf). constructor.
  - rewrite with_map_mega by done. apply Hs.
  - by apply with_map_pos.
  - intros m' E. by apply with_map_last.
  - by apply with_map_words.
  - intros a Ha Hm. rewrite (same_pages_protected _ _ _ Hsame). by apply Hp.
  - intros a Ha. rewrite (same_pages_protected _ _ _ Hsame). by apply Hs.
  - apply Hs.
Qed.

(** ** Single bits *)

Definition mark_bit (a : Z) : tMpMap -> tMpMap := fun M => M <| subpage ::= set_bit (offset a) |>.
Definition node_bit (a : Z) : tMpMap -> tMpMap := fun M => M <| nodemap ::= set_bit (offset a) |>.
Definition unmark_bit (a : Z) : tMpMap -> tMpMap :=
  fun M => M <| nodemap ::= clear_bit (offset a) |> <| subpage ::= clear_bit (offset a) |>.

Lemma view_mark_bit a s x :
  is_Some (map_of s a) -> 0 <= a -> 0 <= x ->
  marked (with_map (a / 2 ^ 20) (mark_bit a) s) x = (x =? a) || marked s x /\
  starts (with_map (a / 2 ^ 20) (mark_bit a) s) x = starts s x.
Proof using Type.
  intros Hm Ha Hx. pose proof (offset_range a). pose proof (offset_range x). unfold marked, starts. rewrite map_of_with_map by done.
  destruct (Z.eqb_spec (x / 2 ^ 20) (a / 2 ^ 20)) as [E|E].
  - unfold map_of in *. rewrite E. destruct Hm as [M ->]. simpl. rewrite test_set_bit, offset_eqb by (done || lia). done.
  - split; [|done]. destruct (Z.eqb_spec x a) as [->|]; [done|]. done.
Qed.

Lemma view_node_bit a s x :
  is_Some (map_of s a) -> 0 <= a -> 0 <= x ->
  starts (with_map (a / 2 ^ 20) (node_bit a) s) x = (x =? a) || starts s x /\
  marked (with_map (a / 2 ^ 20) (node_bit a) s) x = marked s x.
Proof using Type.
  intros Hm Ha Hx. pose proof (offset_range a). pose proof (offset_range x). unfold marked, starts. rewrite map_of_with_map by done.
  destruct (Z.eqb_spec (x / 2 ^ 20) (a / 2 ^ 20)) as [E|E].
  - unfold map_of in *. rewrite E. destruct Hm as [M ->]. simpl. rewrite test_set_bit, offset_eqb by (done || lia). done.
  - split; [|done]. destruct (Z.eqb_spec x a) as [->|]; [done|]. done.
Qed.

Lemma view_unmark_bit a s x :
  is_Some (map_of s a) -> 0 <= a -> 0 <= x ->
  marked (with_map (a / 2 ^ 20) (unmark_bit a) s) x = negb (x =? a) && marked s x /\
  starts (with_map (a / 2 ^ 20) (unmark_bit a) s) x = negb (x =? a) && starts s x.
Proof using Type.
  intros Hm Ha Hx. pose proof (offset_range a). pose proof (offset_range x). unfold marked, starts. rewrite map_of_with_map by done.
  destruct (Z.eqb_spec (x / 2 ^ 20) (a / 2 ^ 20)) as [E|E].
  - unfold map_of in *. rewrite E. destruct Hm as [M ->]. simpl. rewrite !test_clear_bit, offset_eqb by (done || lia). done.
  - destruct (Z.eqb_spec x a) as [->|]; [done|]. by rewrite !andb_true_l.
Qed.

Lemma protected_has s a : protected s a = true -> is_Some (map_of s a).
Proof using Type. unfold protected, copy_of. destruct (map_of s a); [by eexists|done]. Qed.

Lemma marked_has s a : marked s a = true -> is_Some (map_of s a).
Proof using Type. unfold marked. destruct (map_of s a); [by eexists|done]. Qed.

End inv.
