(* ===== verification/MarksQuery.v ===== *)
(** * Marks of translated code: the queries *)

From stdpp Require Import base numbers list.
From Stdlib Require Import ZArith Zbitwise Lia.
From S2P Require Import Prelude Machine SimMem Marks MarksInv.

Local Open Scope Z_scope.

(** ** Words as sets of bits *)

Lemma truth_bit x : 0 <= x -> truth x = true <-> exists i, 0 <= i /\ Z.testbit x i = true.
Proof.
  intros Hx. unfold truth. destruct (Z.eqb_spec x 0) as [->|]; simpl.
  - split; [done|]. intros (i & _ & Hi). by rewrite Z.testbit_0_l in Hi.
  - split; [|done]. intros _. exists (Z.log2 x). split; [apply Z.log2_nonneg|]. apply Z.bit_log2. lia.
Qed.

Lemma mask_from_bit k i : 0 <= k < 64 -> 0 <= i -> Z.testbit (u64 (Z.shiftl (2 ^ 64 - 1) k)) i = (k <=? i) && (i <? 64).
Proof.
  intros Hk Hi. unfold u64. change (2 ^ 64 - 1) with (Z.ones 64). destruct (Z.ltb_spec i 64).
  - rewrite Z.mod_pow2_bits_low, Z.shiftl_spec by lia. destruct (Z.leb_spec k i).
    + rewrite Z.ones_spec_low by lia. done.
    + rewrite Z.testbit_neg_r by lia. done.
  - rewrite Z.mod_pow2_bits_high by lia. by rewrite andb_false_r.
Qed.

Lemma mask_below_bit k i : 0 <= k -> 0 <= i -> Z.testbit (Z.shiftl 1 k - 1) i = (i <? k).
Proof.
  intros Hk Hi. rewrite Z.shiftl_1_l, Z.sub_1_r, <- Z.ones_equiv. destruct (Z.ltb_spec i k).
  - by apply Z.ones_spec_low.
  - by apply Z.ones_spec_high.
Qed.

Lemma land_63 a : Z.land a 63 = a mod 64.
Proof. change 63 with (Z.ones 6). by rewrite Z.land_ones. Qed.

(** A word of the map is a run of 64 bytes. *)
Lemma block_of a i :
  a mod 64 = 0 -> 0 <= i < 64 ->
  (a + i) / 2 ^ 20 = a / 2 ^ 20 /\ offset (a + i) / 64 = offset a / 64 /\ offset (a + i) mod 64 = i /\ (a + i) / 64 = a / 64.
Proof. intros Ha Hi. unfold offset. Z.to_euclidean_division_equations. lia. Qed.

Lemma test_block a i w : a mod 64 = 0 -> 0 <= i < 64 -> test_bit (offset (a + i)) w = Z.testbit (w (offset a / 64)) i.
Proof. intros Ha Hi. destruct (block_of a i Ha Hi) as (_ & E1 & E2 & _). unfold test_bit. by rewrite E1, E2. Qed.

Section queries.
Context {G : Type} `{CodeMemLaws G}.
Implicit Types s : marks G.

Definition none_in s (lo hi : Z) : Prop := forall x, lo <= x < hi -> marked s x = false.
Definition some_in s (lo hi : Z) : Prop := exists x, lo <= x < hi /\ marked s x = true.
(** A megabyte without a map begins in the range. *)
Definition gap s (lo y : Z) : Prop := lo <= y /\ map_of s y = None.

Lemma block_marked s a M i :
  a mod 64 = 0 -> 0 <= i < 64 -> map_of s a = Some M -> marked s (a + i) = Z.testbit (subpage M (offset a / 64)) i.
Proof.
  intros Ha Hi HM. unfold marked, map_of in *. rewrite (proj1 (block_of a i Ha Hi)), HM. by apply test_block.
Qed.

Lemma map_of_words s a M : marks_ok s -> map_of s a = Some M -> words_ok (subpage M) /\ words_ok (nodemap M).
Proof. intros Hs HM. apply (ok_words _ Hs). by apply (has_map_Some (a / 2 ^ 20)). Qed.

(** The marks of one block under a mask that selects [lo] to [hi]. *)
Lemma block_some s a M mask lo hi :
  marks_ok s -> a mod 64 = 0 -> map_of s a = Some M -> 0 <= lo -> hi <= 64 ->
  (forall i, 0 <= i < 64 -> Z.testbit mask i = (lo <=? i) && (i <? hi)) ->
  truth (Z.land (subpage M (offset a / 64)) mask) = true <-> some_in s (a + lo) (a + hi).
Proof.
  intros Hs Ha HM Hlo Hhi Hmask. destruct (map_of_words _ _ _ Hs HM) as [Hw _]. specialize (Hw (offset a / 64)).
  rewrite truth_bit by (apply Z.land_nonneg; lia). split.
  - intros (i & Hi & Hb). rewrite Z.land_spec in Hb. apply andb_prop in Hb as [H1 H2].
    destruct (Z.lt_ge_cases i 64) as [Hlt|Hge]; [|by rewrite word_bit_high in H1].
    rewrite Hmask in H2 by lia. apply andb_prop in H2 as [H2 H3]. exists (a + i). split; [lia|]. by rewrite (block_marked s a M).
  - intros (x & Hx & Hb). exists (x - a). split; [lia|]. rewrite Z.land_spec, Hmask by lia.
    rewrite <- (block_marked s a M) by (done || lia). replace (a + (x - a)) with x by lia. rewrite Hb. zbool; simpl; lia || done.
Qed.

Lemma none_some s lo hi b : (b = true <-> some_in s lo hi) -> b = false -> none_in s lo hi.
Proof.
  intros Hb E x Hx. destruct (marked s x) eqn:Ex; [|done]. assert (b = true) by (apply Hb; by exists x). congruence.
Qed.

Lemma none_app s lo mid hi : none_in s lo mid -> none_in s mid hi -> none_in s lo hi.
Proof. intros H1 H2 x Hx. destruct (Z.lt_ge_cases x mid); [apply H1|apply H2]; lia. Qed.

Lemma some_widen s lo hi lo' hi' : some_in s lo hi -> lo' <= lo -> hi <= hi' -> some_in s lo' hi'.
Proof. intros (x & Hx & Hm) H1 H2. exists x. split; [lia|done]. Qed.

(** ** Simple queries *)

Lemma e_querymprot_quiet a s : marks_ok s -> 0 <= a -> quiet (e_querymprot a) s (protected s a).
Proof.
  intros Hs Ha. unfold e_querymprot, protected, copy_of. eapply quiet_bind; [done|by apply quiet_FindM|].
  intros s' Hs' E. destruct (map_of s a) as [M|] eqn:EM; simpl; [|by apply quiet_ret].
  unfold pagemap_at. eapply quiet_bind; [done| |intros s'' Hs'' _; by apply quiet_ret].
  eapply quiet_bind; [done|apply quiet_deref; [done|]|intros s'' Hs'' _; by apply quiet_ret].
  rewrite E. unfold map_of in EM. by rewrite (proj2 (has_map_Some _ _ _ EM)).
Qed.

Lemma subpage_bit_quiet s s' a M :
  marks_ok s' -> MpH s' = MpH s -> map_of s a = Some M -> quiet (subpage_bit (mega M) (offset a)) s' (marked s a).
Proof.
  intros Hs' E EM. unfold subpage_bit, marked. rewrite EM.
  eapply quiet_bind; [done|apply quiet_deref; [done|]|intros s'' Hs'' _; by apply quiet_ret].
  rewrite E. unfold map_of in EM. by rewrite (proj2 (has_map_Some _ _ _ EM)).
Qed.

Lemma nodemap_bit_quiet s s' a M :
  marks_ok s' -> MpH s' = MpH s -> map_of s a = Some M -> quiet (nodemap_bit (mega M) (offset a)) s' (starts s a).
Proof.
  intros Hs' E EM. unfold nodemap_bit, starts. rewrite EM.
  eapply quiet_bind; [done|apply quiet_deref; [done|]|intros s'' Hs'' _; by apply quiet_ret].
  rewrite E. unfold map_of in EM. by rewrite (proj2 (has_map_Some _ _ _ EM)).
Qed.

Lemma e_querynode_quiet a s : marks_ok s -> 0 <= a -> quiet (e_querynode a) s (starts s a).
Proof.
  intros Hs Ha. unfold e_querynode. eapply quiet_bind; [done|by apply quiet_FindM|].
  intros s' Hs' E. rewrite land_CGRMASK. destruct (map_of s a) as [M|] eqn:EM; simpl; [by apply nodemap_bit_quiet|].
  unfold starts. rewrite EM. by apply quiet_ret.
Qed.

(** ** [e_querymark] *)

(** Where the search stands: the map and the word of [abeg]. *)
Definition at_word s (m idx abeg : Z) : Prop :=
  abeg mod 64 = 0 /\ (offset abeg <> 0 -> exists M, map_of s abeg = Some M /\ m = mega M /\ idx = offset abeg / 64).

Definition loop_result s abeg aend (r : option bool * (Z * Z)) : Prop :=
  match r with
  | (Some true, _) => some_in s abeg aend
  | (Some false, _) => exists y, gap s abeg y /\ y < aend /\ none_in s abeg y
  | (None, (m, idx)) => none_in s abeg aend /\ at_word s m idx aend
  end.

Lemma next_word a : a mod 64 = 0 -> (a + 64) mod 64 = 0 /\ (offset (a + 64) <> 0 -> (a + 64) / 2 ^ 20 = a / 2 ^ 20 /\ offset (a + 64) / 64 = offset a / 64 + 1).
Proof. intros Ha. unfold offset. Z.to_euclidean_division_equations. lia. Qed.

Lemma querymark_loop_finds s fuel : forall m idx abeg aend s',
  marks_ok s' -> MpH s' = MpH s ->
  0 <= abeg <= aend -> aend mod 64 = 0 -> aend < 2 ^ 32 -> (Z.to_nat ((aend - abeg) / 64) < fuel)%nat ->
  at_word s m idx abeg ->
  finds (querymark_loop fuel m idx abeg aend) s' (loop_result s abeg aend).
Proof.
  induction fuel as [|fuel IH]; [lia|]. intros m idx abeg aend s' Hs' E Hab Hae Hlt Hfuel [Ha Hat]. cbn [querymark_loop].
  destruct (Z.leb_spec aend abeg).
  { assert (aend = abeg) as -> by lia. apply finds_ret; [done|]. split; [intros x Hx; lia|done]. }
  rewrite land_CGRMASK.
  assert (quiet (if offset abeg =? 0 then FindM abeg else ret (Some m)) s' (mega <$> map_of s abeg)) as Hr'.
  { destruct (Z.eqb_spec (offset abeg) 0) as [E0|E0].
    - unfold map_of. rewrite <- E. by apply quiet_FindM; [|lia].
    - destruct (Hat E0) as (M & HM & -> & _). rewrite HM. by apply quiet_ret. }
  eapply quiet_bind; [done|exact Hr'|]. intros s2 Hs2 E2. rewrite E in E2.
  destruct (map_of s abeg) as [M|] eqn:HM; simpl.
  2:{ apply finds_ret; [done|]. exists abeg. split; [by split|]. split; [done|]. intros x Hx. lia. }
  assert ((if offset abeg =? 0 then 0 else idx) = offset abeg / 64) as ->.
  { destruct (Z.eqb_spec (offset abeg) 0) as [E0|E0]; [by rewrite E0|]. by destruct (Hat E0) as (M' & _ & _ & ->). }
  assert (has_map (mega M) (MpH s) = Some M) as HM'.
  { unfold map_of in HM. by rewrite (proj2 (has_map_Some _ _ _ HM)). }
  eapply quiet_bind; [done|apply quiet_deref; [done|by rewrite E2]|]. intros s3 Hs3 E3. rewrite E2 in E3.
  assert (map_of s3 abeg = Some M) as HM3 by (unfold map_of in *; by rewrite E3).
  assert (truth (subpage M (offset abeg / 64)) = true <-> some_in s abeg (abeg + 64)) as Hany.
  { destruct (map_of_words _ _ _ Hs3 HM3) as [Hw _]. specialize (Hw (offset abeg / 64)).
    pose proof (block_some s3 abeg M (Z.ones 64) 0 64 Hs3 Ha HM3 ltac:(lia) ltac:(lia)) as Hblock.
    rewrite Z.land_ones, Z.mod_small, Z.add_0_r in Hblock by lia.
    unfold some_in, marked, map_of in *. rewrite E3 in Hblock. apply Hblock.
    intros i Hi. rewrite Z.ones_spec_low by lia. zbool; simpl; lia || done. }
  assert (abeg + 64 <= aend) as Hle by (Z.to_euclidean_division_equations; lia).
  destruct (truth _) eqn:Ew.
  { apply finds_ret; [done|]. eapply some_widen; [by apply Hany|lia|lia]. }
  destruct (next_word abeg Ha) as [Hn1 Hn2]. rewrite u32_small by lia.
  pose proof (none_some _ _ _ _ Hany eq_refl) as Hnone.
  eapply finds_mono.
  - apply (IH (mega M) _ (abeg + 64) aend s3); [done|done|lia|done|done| |split; [done|]].
    + replace (aend - abeg) with (aend - (abeg + 64) + 1 * 64) in Hfuel by lia. rewrite Z.div_add in Hfuel by lia.
      pose proof (Z.div_pos (aend - (abeg + 64)) 64). lia.
    + intros E0. destruct (Hn2 E0) as [En1 En2]. exists M. unfold map_of in *. by rewrite En1, En2.
  - intros [[[|]|] [m' idx']]; simpl.
    + intros Hx. eapply some_widen; [exact Hx|lia|lia].
    + intros (y & [Hy1 Hy2] & Hy3 & Hy4). exists y. split; [split; [lia|done]|]. split; [done|]. by eapply none_app.
    + intros [Hx1 Hx2]. split; [by eapply none_app|done].
Qed.

(** The answer for the range from [lo] to [hi]: exact up to the first megabyte
    without a map. *)
Definition mark_answer s (lo hi : Z) (b : bool) : Prop :=
  if b then some_in s lo hi else forall x, lo <= x < hi -> marked s x = true -> exists y, lo <= y <= x /\ map_of s y = None.

Lemma none_answer s lo hi : none_in s lo hi -> mark_answer s lo hi false.
Proof. intros Hn x Hx Hm. by rewrite Hn in Hm. Qed.

Lemma e_querymark_finds addr len s :
  marks_ok s -> 0 <= addr -> 0 <= len -> addr + len < 2 ^ 32 ->
  finds (e_querymark addr len) s (mark_answer s addr (addr + len)).
Proof.
  intros Hs Ha Hl Hend. unfold e_querymark. eapply quiet_bind; [done|by apply quiet_FindM|]. intros s1 Hs1 E1.
  destruct (map_of s addr) as [M|] eqn:HM; cbn [fmap option_fmap option_map].
  2:{ apply finds_ret; [done|]. intros x Hx Hm. exists addr. split; [lia|done]. }
  assert (has_map (mega M) (MpH s) = Some M) as HM'.
  { unfold map_of in HM. by rewrite (proj2 (has_map_Some _ _ _ HM)). }
  rewrite !land_CGRMASK, !land_63.
  destruct (Z.eqb_spec len 1) as [->|Hl1].
  { eapply finds_mono; [by apply (subpage_bit_quiet s)|]. intros b ->. unfold mark_answer. destruct (marked s addr) eqn:E.
    - exists addr. split; [lia|done].
    - apply none_answer. intros x Hx. by replace x with addr by lia. }
  rewrite u32_small by lia. set (aend := addr + len) in *.
  set (b := addr - addr mod 64). set (e := aend - aend mod 64).
  assert (b mod 64 = 0 /\ addr = b + addr mod 64 /\ 0 <= addr mod 64 < 64 /\ 0 <= b) as (Hb & Eb & Hb' & Hb0)
    by (unfold b; Z.to_euclidean_division_equations; lia).
  assert (e mod 64 = 0 /\ aend = e + aend mod 64 /\ 0 <= aend mod 64 < 64 /\ b <= e) as (He & Ee & He' & Hbe)
    by (unfold b, e; Z.to_euclidean_division_equations; lia).
  destruct (block_of b (addr mod 64) Hb Hb') as (Eb1 & Eb2 & _ & _). rewrite <- Eb in Eb1, Eb2.
  assert (map_of s b = Some M) as HMb by (unfold map_of in *; by rewrite <- Eb1).
  eapply quiet_bind; [done|apply quiet_deref; [done|by rewrite E1]|]. intros s2 Hs2 E2. rewrite E1 in E2. rewrite Eb2.
  assert (forall x mask lo hi M', map_of s x = Some M' -> x mod 64 = 0 -> 0 <= lo -> hi <= 64 ->
    (forall i, 0 <= i < 64 -> Z.testbit mask i = (lo <=? i) && (i <? hi)) ->
    truth (Z.land (subpage M' (offset x / 64)) mask) = true <-> some_in s (x + lo) (x + hi)) as Hblock
    by (intros; by apply block_some).
  destruct (Z.eqb_spec b e) as [E|E].
  { apply finds_ret; [done|]. rewrite <- Z.land_assoc.
    assert (truth (Z.land (subpage M (offset b / 64)) (Z.land (u64 (Z.shiftl (2 ^ 64 - 1) (addr mod 64))) (Z.shiftl 1 (aend mod 64) - 1)))
      = true <-> some_in s addr aend) as Hany.
    { enough (truth (Z.land (subpage M (offset b / 64)) (Z.land (u64 (Z.shiftl (2 ^ 64 - 1) (addr mod 64))) (Z.shiftl 1 (aend mod 64) - 1)))
        = true <-> some_in s (b + addr mod 64) (b + aend mod 64)) as Hx
        by (replace (b + addr mod 64) with addr in Hx by lia; replace (b + aend mod 64) with aend in Hx by lia; exact Hx).
      apply Hblock; [done|done|lia|lia|]. intros i Hi.
      rewrite Z.land_spec, mask_from_bit, mask_below_bit by lia. zbool; simpl; lia || done. }
    unfold mark_answer. destruct (truth _); [by apply Hany|]. by apply none_answer, (none_some _ _ _ _ Hany). }
  assert (b + 64 <= e) as Hbe' by (clear - Hb He Hbe E; Z.to_euclidean_division_equations; lia).
  assert (truth (Z.land (subpage M (offset b / 64)) (u64 (Z.shiftl (2 ^ 64 - 1) (addr mod 64)))) = true <-> some_in s addr (b + 64)) as Hany.
  { pose proof (Hblock b (u64 (Z.shiftl (2 ^ 64 - 1) (addr mod 64))) (addr mod 64) 64 M HMb Hb) as Hx.
    replace (b + addr mod 64) with addr in Hx by lia.
    apply Hx; [lia|lia|]. intros i Hi. rewrite mask_from_bit by lia. zbool; simpl; lia || done. }
  destruct (truth (Z.land (subpage M (offset b / 64)) _)) eqn:Ew.
  { apply finds_ret; [done|]. eapply some_widen; [by apply Hany|lia|lia]. }
  pose proof (none_some _ _ _ _ Hany eq_refl) as Hnone.
  destruct (next_word b Hb) as [Hn1 Hn2]. rewrite (u32_small (b + 64)) by lia.
  set (fuel := S (Z.to_nat ((e - b) / 64))).
  eapply (finds_bind (querymark_loop fuel _ _ _ _));
    [done|apply (querymark_loop_finds s fuel _ _ (b + 64) e s2); [done|done|lia|done|lia| |split; [done|]]|].
  { unfold fuel. replace (e - b) with (e - (b + 64) + 1 * 64) by lia. rewrite Z.div_add by lia.
    pose proof (Z.div_pos (e - (b + 64)) 64). lia. }
  { intros E0. destruct (Hn2 E0) as [En1 En2]. exists M. unfold map_of in *. by rewrite En1, En2. }
  intros [[[|]|] [m' idx']] s3 Hres Hs3 E3; rewrite E2 in E3; simpl in Hres.
  - apply finds_ret; [done|]. eapply some_widen; [exact Hres|lia|lia].
  - apply finds_ret; [done|]. destruct Hres as (y & [Hy1 Hy2] & Hy3 & Hy4). intros x Hx Hm. exists y. split; [|done].
    destruct (Z.lt_ge_cases x y); [|lia]. rewrite (none_app _ _ _ _ Hnone Hy4) in Hm; [done|lia].
  - destruct Hres as [Hy1 [_ Hat]]. pose proof (none_app _ _ _ _ Hnone Hy1) as Hn.
    destruct (Z.eqb_spec (Z.shiftl 1 (aend mod 64) - 1) 0) as [E0|E0].
    { apply finds_ret; [done|]. apply none_answer. assert (aend mod 64 = 0) as E64.
      { destruct (Z.eq_dec (aend mod 64) 0); [done|]. rewrite Z.shiftl_1_l in E0. pose proof (Z.pow_gt_1 2 (aend mod 64)). lia. }
      by rewrite Ee, E64, Z.add_0_r. }
    assert (quiet (if offset e =? 0 then FindM e else ret (Some m')) s3 (mega <$> map_of s e)) as Hr'.
    { destruct (Z.eqb_spec (offset e) 0) as [Eo|Eo].
      - unfold map_of. rewrite <- E3. by apply quiet_FindM; [|lia].
      - destruct (Hat Eo) as (M2 & HM2 & -> & _). rewrite HM2. by apply quiet_ret. }
    eapply quiet_bind; [done|exact Hr'|]. intros s4 Hs4 E4. rewrite E3 in E4.
    destruct (map_of s e) as [M2|] eqn:HM2; simpl.
    2:{ apply finds_ret; [done|]. intros x Hx Hm. exists e. split; [|done]. destruct (Z.lt_ge_cases x e); [|lia].
        rewrite Hn in Hm; [done|lia]. }
    assert ((if offset e =? 0 then 0 else idx') = offset e / 64) as ->.
    { destruct (Z.eqb_spec (offset e) 0) as [Eo|Eo]; [by rewrite Eo|]. by destruct (Hat Eo) as (M3 & _ & _ & ->). }
    eapply quiet_bind; [done|apply quiet_deref; [done|]|].
    { rewrite E4. unfold map_of in HM2. by rewrite (proj2 (has_map_Some _ _ _ HM2)). }
    intros s5 Hs5 _. apply finds_ret; [done|].
    assert (truth (Z.land (subpage M2 (offset e / 64)) (Z.shiftl 1 (aend mod 64) - 1)) = true <-> some_in s e aend) as Hany2.
    { pose proof (Hblock e (Z.shiftl 1 (aend mod 64) - 1) 0 (aend mod 64) M2 HM2 He) as Hx.
      replace (e + aend mod 64) with aend in Hx by lia. rewrite Z.add_0_r in Hx.
      apply Hx; [lia|lia|]. intros i Hi. rewrite mask_below_bit by lia. zbool; simpl; lia || done. }
    unfold mark_answer. destruct (truth (Z.land (subpage M2 _) _)).
    + eapply some_widen; [by apply Hany2|lia|lia].
    + apply none_answer. eapply none_app; [exact Hn|]. by apply (none_some _ _ _ _ Hany2).
Qed.

(** E_querymark, which tests 64 bytes at a time, finds a mark in the
    range whenever it says so, and misses one only behind a megabyte without a
    map. *)
Theorem e_querymark_correct addr len s :
  marks_ok s -> 0 <= addr -> 0 <= len -> addr + len < 2 ^ 32 ->
  finds (e_querymark addr len) s (mark_answer s addr (addr + len)).
Proof. apply e_querymark_finds. Qed.

End queries.
