(* ===== verification/MarksPages.v ===== *)
(** * Marks of translated code: protected pages

    The cache of fetched pages, the maps that are made and removed, and the
    runs of pages [do_mprotect] and [e_munprotect] work on. *)

From stdpp Require Import base numbers list.
From Stdlib Require Import ZArith Lia.
From S2P Require Import Prelude Machine SimMem Marks MarksInv MarksQuery.

Local Open Scope Z_scope.

(** ** Page arithmetic *)

Definition aligned (a : Z) : Prop := a mod HOST_PAGE_SIZE = 0.

Lemma page_start_spec a : aligned (page_start a) /\ page_start a <= a < page_start a + HOST_PAGE_SIZE.
Proof. unfold aligned, page_start, HOST_PAGE_SIZE. Z.to_euclidean_division_equations. lia. Qed.

Lemma aligned_next a : aligned a -> aligned (a + HOST_PAGE_SIZE).
Proof. unfold aligned, HOST_PAGE_SIZE. Z.to_euclidean_division_equations. lia. Qed.

Lemma aligned_start a : aligned a -> page_start a = a.
Proof. unfold aligned, page_start. lia. Qed.

Lemma page_start_le b a : aligned b -> b <= page_start a <-> b <= a.
Proof. unfold aligned, page_start, HOST_PAGE_SIZE. Z.to_euclidean_division_equations. lia. Qed.

Lemma page_start_lt a b : aligned b -> page_start a < b <-> a < b.
Proof. unfold aligned, page_start, HOST_PAGE_SIZE. Z.to_euclidean_division_equations. lia. Qed.

Lemma aligned_le a b : aligned a -> aligned b -> a < b <-> a + HOST_PAGE_SIZE <= b.
Proof. unfold aligned, HOST_PAGE_SIZE. Z.to_euclidean_division_equations. lia. Qed.

Lemma page_start_page a b : page_start a = page_start b <-> a / HOST_PAGE_SIZE = b / HOST_PAGE_SIZE.
Proof. rewrite !page_start_eq. unfold HOST_PAGE_SIZE. lia. Qed.

Lemma in_page a x : aligned a -> a <= x < a + HOST_PAGE_SIZE <-> x / HOST_PAGE_SIZE = a / HOST_PAGE_SIZE.
Proof. unfold aligned, HOST_PAGE_SIZE. Z.to_euclidean_division_equations. lia. Qed.

(** The next page: the next index, or the first one of the next megabyte. *)
Lemma page_next a :
  aligned a -> page_index a + 1 = pagespermega \/
  (page_index (a + HOST_PAGE_SIZE) = page_index a + 1 /\ (a + HOST_PAGE_SIZE) / 2 ^ 20 = a / 2 ^ 20).
Proof. unfold aligned, page_index, pagespermega, HOST_PAGE_SIZE. Z.to_euclidean_division_equations. lia. Qed.

Lemma page_wraps a : aligned a -> page_index a + 1 = pagespermega -> page_index (a + HOST_PAGE_SIZE) = 0.
Proof. unfold aligned, page_index, pagespermega, HOST_PAGE_SIZE. Z.to_euclidean_division_equations. lia. Qed.

Lemma page_index_range a : 0 <= page_index a < pagespermega.
Proof. by apply Z.mod_pos_bound. Qed.

(** ** The cache *)

Definition cached (l : list cache_ent) (a : Z) : option bytes := find (holds a) l ≫= ce_data.

Lemma holds_inv a c : holds a c = true -> exists p, c = MkCe a (alive_cnt c) (Some p).
Proof.
  unfold holds. destruct c as [b n [p|]]; simpl; [|done]. intros E. apply Z.eqb_eq in E as ->. by exists p.
Qed.

Lemma cached_find a l :
  match list_find (fun c => holds a c = true) l with
  | Some (i, c) => holds a c = true /\ l !! i = Some c /\ cached l a = ce_data c
  | None => cached l a = None
  end.
Proof.
  unfold cached. induction l as [|c l IH]; simpl; [done|].
  destruct (decide (holds a c = true)) as [E|E]; [by rewrite E|].
  apply not_true_is_false in E. rewrite E. destruct (list_find _ l) as [[i c']|]; simpl; [|done]. done.
Qed.

Lemma cached_kill a b i c l :
  holds a c = true -> l !! i = Some c -> b <> a -> cached (<[i := c <| ce_data := None |>]> l) b = cached l b.
Proof.
  intros Hc Hi Hb. unfold cached. revert i Hi. induction l as [|c' l IH]; intros [|i] Hi; simpl in *; try done.
  - injection Hi as ->. destruct (holds_inv _ _ Hc) as (p & ->). unfold holds. simpl.
    destruct (Z.eqb_spec a b); [lia|done].
  - destruct (holds b c'); [done|]. by apply IH.
Qed.

Lemma cached_trim l b : cached (trim_clist l) b = cached l b.
Proof.
  unfold cached. induction l as [|c l IH]; [done|]. cbn [trim_clist find].
  destruct (trim_clist l) as [|c' l']; cbn [find] in *.
  - assert (find (holds b) l ≫= ce_data = None) as E by (by rewrite <- IH).
    destruct c as [a n [p|]]; cbn [ce_data is_page find]; [|].
    + by destruct (holds b _); simpl in *; rewrite ?E.
    + unfold holds at 1. simpl. by rewrite E.
  - by destruct (holds b c).
Qed.

(** [l'] has no copy that is not in [l], and no more entries. *)
Definition clist_sub (l l' : list cache_ent) : Prop :=
  (length l' <= length l)%nat /\ forall a n p, MkCe a n (Some p) ∈ l' -> exists n', MkCe a n' (Some p) ∈ l.

Lemma clist_sub_refl l : clist_sub l l.
Proof. split; [done|]. intros a n p E. by exists n. Qed.

Lemma clist_sub_trans l l' l'' : clist_sub l l' -> clist_sub l' l'' -> clist_sub l l''.
Proof. intros [L1 H1] [L2 H2]. split; [lia|]. intros a n p E. destruct (H2 a n p E) as [n' E']. by apply (H1 a n' p). Qed.

Lemma clist_sub_trim l : clist_sub l (trim_clist l).
Proof.
  induction l as [|c l [IHl IH]]; [apply clist_sub_refl|]. cbn [trim_clist]. destruct (trim_clist l) as [|c' l'] eqn:E.
  - destruct c as [a n [p|]]; simpl; split; simpl; try lia; intros b k q Hin; [|by apply elem_of_nil in Hin].
    apply list_elem_of_singleton in Hin. exists k. rewrite Hin. by left.
  - split; [simpl in *; lia|]. intros b k q Hin. apply elem_of_cons in Hin as [<-|Hin]; [exists k; by left|].
    destruct (IH b k q Hin) as [k' Hk]. exists k'. by right.
Qed.

Lemma clist_sub_kill i a n l : clist_sub l (<[i := MkCe a n None]> l).
Proof.
  split; [by rewrite length_insert|]. intros b k q Hin. exists k. apply list_elem_of_lookup in Hin as [j Hj].
  destruct (decide (i = j)) as [<-|Hne]; [|rewrite list_lookup_insert_ne in Hj by done; by eapply list_elem_of_lookup_2].
  destruct (decide (i < length l)%nat); [rewrite list_lookup_insert_eq in Hj by done; done|].
  rewrite list_insert_ge in Hj by lia. by eapply list_elem_of_lookup_2.
Qed.

Section pages.
Context {G : Type} `{CodeMemLaws G}.
Implicit Types s : marks G.
#[local] Set Default Proof Using "Type*".

(** The cached copy is there and leaves the cache. *)
Lemma FindC_take a s p (Q : option (nat * bytes) -> marks G -> Prop) :
  cached (clist s) a = Some p ->
  (forall i l, (forall b, b <> a -> cached l b = cached (clist s) b) -> clist_sub (clist s) l -> Q (Some (i, p)) (s <| clist := l |>)) ->
  wp (FindC a true) s Q.
Proof using Type.
  intros Hp HQ. unfold FindC. wp_step. wp_step. pose proof (cached_find a (clist s)) as Hf.
  destruct (list_find _ _) as [[i c]|]; [|congruence]. destruct Hf as (Hh & Hi & E).
  destruct (holds_inv _ _ Hh) as (q & Eq). rewrite Eq in E |- *. simpl in E. assert (q = p) as -> by congruence.
  repeat wp_step. apply (HQ i (trim_clist (<[i := MkCe a (alive_cnt c) None]> (clist s)))).
  - intros b Hb. rewrite cached_trim. rewrite <- (cached_kill a b i c (clist s)) by done. f_equal. by rewrite Eq.
  - eapply clist_sub_trans; [apply clist_sub_kill|apply clist_sub_trim].
Qed.

(** ** Making maps *)

Record grown s s' : Prop := {
  gr_ok : marks_ok s';
  gr_marked a : marked s' a = marked s a;
  gr_starts a : starts s' a = starts s a;
  gr_copy a : copy_of s' a = copy_of s a;
  gr_maps a : is_Some (map_of s a) -> is_Some (map_of s' a);
  gr_clist : clist s' = clist s;
  gr_guest : guest s' = guest s;
}.

Lemma grown_protected s s' a : grown s s' -> protected s' a = protected s a.
Proof. intros Hg. unfold protected. by rewrite (gr_copy _ _ Hg). Qed.

Lemma get_map_correct a s :
  marks_ok s -> 0 <= a -> wp (get_map a) s (fun m s' => m = a / 2 ^ 20 /\ is_Some (map_of s' a) /\ grown s s').
Proof.
  intros Hs Ha. unfold get_map. wp_step. eapply quiet_wp; [by apply quiet_FindM|]. intros s1 Hs1.
  pose proof (seen_ok _ _ Hs1 Hs) as Hok1. pose proof (seen_MpH _ _ Hs1) as E1.
  assert (forall x, map_of s1 x = map_of s x) as Emap by (intros x; unfold map_of; by rewrite E1).
  destruct (map_of s a) as [M|] eqn:HM; cbn [fmap option_fmap option_map].
  - wp_step. split; [|split].
    + unfold map_of in HM. by destruct (has_map_Some _ _ _ HM).
    + rewrite Emap, HM. by exists M.
    + destruct (seen_same _ _ Hs1) as [_ _ Ec Eg].
      constructor; [done|..|done|done]; intros x; unfold marked, starts, copy_of; by rewrite Emap.
  - rewrite shiftr_mega. wp_step. wp_step. wp_step. set (M := MkMpMap _ _ _ _).
    assert (forall x, map_of (s1 <| MpH ::= cons M |>) x = if x / 2 ^ 20 =? a / 2 ^ 20 then Some M else map_of s x) as Emap'.
    { intros x. rewrite <- Emap. unfold map_of, has_map. simpl. rewrite Z.eqb_sym. by destruct (_ =? _). }
    assert (forall x, x / 2 ^ 20 = a / 2 ^ 20 -> map_of s x = None) as Hnone by (intros x E; unfold map_of in *; by rewrite E).
    split; [done|]. split; [rewrite Emap', Z.eqb_refl; by eexists|].
    assert (forall x, marked (s1 <| MpH ::= cons M |>) x = marked s x) as Hmarked.
    { intros x. unfold marked. rewrite Emap'. destruct (Z.eqb_spec (x / 2 ^ 20) (a / 2 ^ 20)) as [E|]; [|done].
      rewrite Hnone by done. apply Z.testbit_0_l. }
    assert (forall x, copy_of (s1 <| MpH ::= cons M |>) x = copy_of s x) as Hcopy.
    { intros x. unfold copy_of. rewrite Emap'. destruct (Z.eqb_spec (x / 2 ^ 20) (a / 2 ^ 20)) as [E|]; [|done].
      by rewrite Hnone by done. }
    destruct (seen_same _ _ Hs1) as [_ _ Ec Eg]. constructor; [|done| |done| |done|done].
    + pose proof Hs as [H1 Hpos H2 H3 H4 H5 H6]. destruct Hok1 as [_ _ H2' _ _ _ _]. constructor.
      * cbn [MpH upd]. rewrite E1. rewrite fmap_cons. constructor; [|done]. cbn [mega]. intros Hin.
        apply list_elem_of_fmap in Hin as (M' & EM' & Hin). unfold map_of, has_map in HM.
        apply list_elem_of_In in Hin. apply (find_none _ _ HM) in Hin. apply Z.eqb_neq in Hin. by apply Hin.
      * cbn [MpH upd]. rewrite E1. intros M' HM'. apply elem_of_cons in HM' as [->|HM']; [|by apply Hpos].
        cbn [mega]. apply Z.div_pos; lia.
      * intros m E. cbn [MpH LastMp upd] in *. unfold has_map. cbn [find]. destruct (mega M =? m); [by exists M|]. by apply H2'.
      * cbn [MpH upd]. rewrite E1. intros M' HM'. apply elem_of_cons in HM' as [->|HM']; [|by apply H3].
        split; intros i; simpl; lia.
      * intros x Hx. rewrite Hmarked. unfold protected. rewrite Hcopy. by apply H4.
      * intros x Hx. unfold protected. rewrite Hcopy. simpl. rewrite Eg. by apply H5.
      * simpl. by rewrite Eg.
    + intros x. unfold starts. rewrite Emap'. destruct (Z.eqb_spec (x / 2 ^ 20) (a / 2 ^ 20)) as [E|]; [|done].
      rewrite Hnone by done. apply Z.testbit_0_l.
    + intros x Hx. rewrite Emap'. destruct (_ =? _); [by eexists|done].
Qed.

(** ** Protecting

    Between [s0] and [s] the pages from [lo] to [p] that were not protected
    have got their copies from the cache; nothing else has changed. *)

Record added s0 (lo p : Z) s : Prop := {
  ad_ok : marks_ok s;
  ad_marked a : marked s a = marked s0 a;
  ad_starts a : starts s a = starts s0 a;
  ad_bytes a : guest_byte (guest s) a = guest_byte (guest s0) a;
  ad_clean a : clean (guest s0) a -> clean (guest s) a;
  ad_maps a : is_Some (map_of s0 a) -> is_Some (map_of s a);
  ad_copy a : 0 <= a ->
    copy_of s a = if (lo <=? a) && (a <? p) && negb (protected s0 a) then cached (clist s0) (page_start a) else copy_of s0 a;
  ad_cached a : aligned a -> p <= a -> cached (clist s) a = cached (clist s0) a;
  ad_clist : clist_sub (clist s0) (clist s);
}.

Lemma range_empty lo p a : p <= lo -> (lo <=? a) && (a <? p) = false.
Proof using Type. intros Hle. zbool; simpl; done || lia. Qed.

Lemma added_grown s s' p : grown s s' -> added s p p s'.
Proof.
  intros [H1 H2 H3 H4 H5 H6 H7]. constructor; try done.
  - intros a. by rewrite H7.
  - intros a. by rewrite H7.
  - intros a Ha. by rewrite range_empty.
  - intros a _ _. by rewrite H6.
  - rewrite H6. apply clist_sub_refl.
Qed.

Lemma added_refl s p : marks_ok s -> added s p p s.
Proof. intros Hs. by apply added_grown. Qed.

Lemma added_seen s s' p : marks_ok s -> seen s s' -> added s p p s'.
Proof.
  intros Hs Hss. pose proof (seen_ok _ _ Hss Hs). destruct (seen_same _ _ Hss). apply added_grown. constructor; try done.
  - intros a. apply (seen_view s s' a Hss).
  - intros a. apply (seen_view s s' a Hss).
  - intros a. by apply same_pages_has.
Qed.

Lemma added_protected s0 lo p s a : added s0 lo p s -> 0 <= a -> ~ (lo <= a < p) -> protected s a = protected s0 a.
Proof. intros Had Ha Hn. unfold protected. rewrite (ad_copy _ _ _ _ Had) by done. zbool; simpl; done || lia. Qed.

Lemma added_trans s0 lo p q s s' :
  0 <= lo -> lo <= p -> p <= q -> aligned p -> added s0 lo p s -> added s p q s' -> added s0 lo q s'.
Proof.
  intros H0lo Hlp Hpq Hp Had Hbd. constructor.
  - apply Hbd.
  - intros a. by rewrite (ad_marked _ _ _ _ Hbd), (ad_marked _ _ _ _ Had).
  - intros a. by rewrite (ad_starts _ _ _ _ Hbd), (ad_starts _ _ _ _ Had).
  - intros a. by rewrite (ad_bytes _ _ _ _ Hbd), (ad_bytes _ _ _ _ Had).
  - intros a Ha. by eapply ad_clean, ad_clean.
  - intros a Ha. by eapply ad_maps, ad_maps.
  - intros a Ha. rewrite (ad_copy _ _ _ _ Hbd), (ad_copy _ _ _ _ Had) by done.
    destruct (Z.ltb_spec a p).
    + replace (p <=? a) with false by (symmetry; apply Z.leb_gt; lia). simpl. zbool; simpl; done || lia.
    + rewrite (added_protected s0 lo p s a Had Ha) by lia.
      rewrite (ad_cached _ _ _ _ Had) by (try apply page_start_spec; by apply page_start_le).
      zbool; simpl; done || lia.
  - intros a Ha Hqa. rewrite (ad_cached _ _ _ _ Hbd), (ad_cached _ _ _ _ Had) by (done || lia). done.
  - eapply clist_sub_trans; [apply Had|apply Hbd].
Qed.

Definition set_copy (page : Z) (p : option bytes) (M : tMpMap) : tMpMap :=
  M <| pagemap ::= fun f i => if i =? page then p else f i |>.

Lemma set_copy_of m page p s a :
  copy_of (with_map m (set_copy page p) s) a =
  (if (a / 2 ^ 20 =? m) && (page_index a =? page) then map_of s a ≫= (fun _ => p) else copy_of s a).
Proof using Type.
  unfold copy_of. rewrite map_of_with_map by done. destruct (_ =? m); simpl; [|done].
  destruct (map_of s a) as [M|]; simpl; [|by destruct (_ =? _)]. by destruct (_ =? _).
Qed.

Lemma set_copy_view m page p s a :
  marked (with_map m (set_copy page p) s) a = marked s a /\ starts (with_map m (set_copy page p) s) a = starts s a.
Proof using Type. unfold marked, starts. rewrite map_of_with_map by done. by destruct (_ =? m), (map_of s a). Qed.

Lemma set_copy_has m page p s a : is_Some (map_of (with_map m (set_copy page p) s) a) <-> is_Some (map_of s a).
Proof using Type. rewrite map_of_with_map by done. destruct (_ =? m); [|done]. apply fmap_is_Some. Qed.

(** Whether [a] is on the page [b]. *)
Lemma on_page a b : aligned b -> (a / 2 ^ 20 =? b / 2 ^ 20) && (page_index a =? page_index b) = (b <=? a) && (a <? b + HOST_PAGE_SIZE).
Proof using Type.
  intros Hb. pose proof (in_page b a Hb) as Hin.
  destruct (Z.eqb_spec (a / 2 ^ 20) (b / 2 ^ 20)) as [E1|E1], (Z.eqb_spec (page_index a) (page_index b)) as [E2|E2]; simpl.
  - pose proof (page_differs a b E1 E2). zbool; simpl; done || lia.
  - assert (a / HOST_PAGE_SIZE <> b / HOST_PAGE_SIZE) by (intros E; by destruct (page_same a b E)). zbool; simpl; done || lia.
  - assert (a / HOST_PAGE_SIZE <> b / HOST_PAGE_SIZE) by (intros E; by destruct (page_same a b E)). zbool; simpl; done || lia.
  - assert (a / HOST_PAGE_SIZE <> b / HOST_PAGE_SIZE) by (intros E; by destruct (page_same a b E)). zbool; simpl; done || lia.
Qed.

Lemma set_copy_ok m page p s :
  marks_ok s ->
  (forall a, 0 <= a -> marked s a = true -> protected (with_map m (set_copy page p) s) a = true) ->
  (forall a, 0 <= a -> protected (with_map m (set_copy page p) s) a = true -> clean (guest s) a) ->
  marks_ok (with_map m (set_copy page p) s).
Proof.
  intros Hs Hm Hc. constructor.
  - rewrite with_map_mega by done. apply Hs.
  - by apply with_map_pos.
  - intros m' E. by apply with_map_last.
  - by apply with_map_words.
  - intros a Ha. rewrite (proj1 (set_copy_view m page p s a)). by apply Hm.
  - done.
  - apply Hs.
Qed.

Lemma map_of_has s a : is_Some (map_of s a) -> exists M, has_map (a / 2 ^ 20) (MpH s) = Some M /\ map_of s a = Some M /\ mega M = a / 2 ^ 20.
Proof using Type. intros [M E]. exists M. pose proof (has_map_Some _ _ _ E) as [_ Em]. by split. Qed.

Lemma quiet_pagemap_at s a : marks_ok s -> is_Some (map_of s a) -> quiet (pagemap_at (a / 2 ^ 20) (page_index a)) s (copy_of s a).
Proof.
  intros Hs Hm. destruct (map_of_has s a Hm) as (M & E1 & E2 & E3). unfold pagemap_at, copy_of. rewrite E2.
  eapply quiet_bind; [done|by apply quiet_deref|]. intros s' Hs' _. by apply quiet_ret.
Qed.

Lemma add_page_correct addr s :
  marks_ok s -> aligned addr -> 0 <= addr -> is_Some (map_of s addr) ->
  (protected s addr = false -> is_Some (cached (clist s) addr)) ->
  (forall a, addr <= a < addr + HOST_PAGE_SIZE -> clean (guest s) a) ->
  wp (let! p := pagemap_at (addr / 2 ^ 20) (page_index addr) in
      if is_page p then ret tt
      else
        let! e := FindC addr true in
        upd_map (addr / 2 ^ 20) (set_copy (page_index addr) (option_map snd e))) s
     (fun _ s' => added s addr (addr + HOST_PAGE_SIZE) s').
Proof.
  intros Hs Hal Ha Hmap Hcache Hclean. wp_step. eapply quiet_wp; [by apply quiet_pagemap_at|]. intros s1 Hss.
  pose proof (added_seen s s1 addr Hs Hss) as Had.
  assert (forall x, 0 <= x -> addr <= x < addr + HOST_PAGE_SIZE -> protected s x = protected s addr) as Hpage.
  { intros x Hx Hr. apply protected_page. by apply in_page. }
  destruct (is_page (copy_of s addr)) eqn:Ep.
  - wp_step. destruct Had as [H1 H2 H3 H4 H5 H6 H7 H8 H9]. constructor; try done.
    + intros x Hx. rewrite H7, range_empty by (done || lia). change (is_page (copy_of s addr)) with (protected s addr) in Ep.
      destruct ((addr <=? x) && (x <? addr + HOST_PAGE_SIZE)) eqn:E; [|done]. simpl. rewrite Hpage, Ep; [done|done|].
      revert E. zbool; simpl; done || lia.
    + intros x Hx Hle. apply H8; [done|]. unfold HOST_PAGE_SIZE in Hle. lia.
  - destruct (Hcache Ep) as [p Hp]. wp_step. rewrite <- (ad_cached _ _ _ _ Had addr) in Hp by (done || lia).
    eapply FindC_take; [exact Hp|]. intros i l Hl Hsub. set (s2 := s1 <| clist := l |>).
    pose proof (ad_ok _ _ _ _ Had) as Hok1.
    assert (marks_ok s2) as Hok2 by (by destruct Hok1; constructor).
    assert (forall x, map_of s2 x = map_of s1 x) as Emap by done.
    assert (is_Some (map_of s1 addr)) as Hmap1 by (by apply (ad_maps _ _ _ _ Had)).
    destruct (map_of_has s1 addr Hmap1) as (M & E1 & E2 & E3). cbn [option_map snd].
    apply wp_upd_mpmap; [by exists M|].
    assert (forall x, copy_of (with_map (addr / 2 ^ 20) (set_copy (page_index addr) (Some p)) s2) x =
      if (addr <=? x) && (x <? addr + HOST_PAGE_SIZE) then Some p else copy_of s1 x) as Hcopy.
    { intros x. rewrite set_copy_of, on_page by done. destruct ((addr <=? x) && _) eqn:E; [|done].
      assert (x / HOST_PAGE_SIZE = addr / HOST_PAGE_SIZE) as Ex by (apply in_page; [done|]; revert E; zbool; simpl; done || lia).
      rewrite Emap. unfold map_of. rewrite (proj1 (page_same _ _ Ex)). by rewrite E1. }
    constructor; cbn [guest with_map upd].
    + apply set_copy_ok; [done|..].
      * intros x Hx Hm. unfold protected. rewrite Hcopy. destruct (_ && _); [done|]. by apply (ok_pages _ Hok1).
      * intros x Hx. unfold protected. rewrite Hcopy. destruct ((addr <=? x) && _) eqn:E.
        -- intros _. apply (ad_clean _ _ _ _ Had), Hclean. revert E; zbool; simpl; done || lia.
        -- intros Hprot. by apply (ok_clean _ Hok1).
    + intros x. rewrite (proj1 (set_copy_view _ _ _ _ _)). apply (ad_marked _ _ _ _ Had).
    + intros x. rewrite (proj2 (set_copy_view _ _ _ _ _)). apply (ad_starts _ _ _ _ Had).
    + apply (ad_bytes _ _ _ _ Had).
    + apply (ad_clean _ _ _ _ Had).
    + intros x Hx. apply set_copy_has. by apply (ad_maps _ _ _ _ Had).
    + intros x Hx. rewrite Hcopy. rewrite (ad_copy _ _ _ _ Had), (range_empty addr addr) by (done || lia).
      destruct ((addr <=? x) && _) eqn:E; [|done]. simpl.
      assert (addr <= x < addr + HOST_PAGE_SIZE) as Hr by (revert E; zbool; simpl; done || lia).
      rewrite Hpage by done. unfold protected. rewrite Ep. simpl.
      rewrite <- Hp, (ad_cached _ _ _ _ Had) by (done || lia).
      f_equal. apply in_page, page_start_page in Hr; [|done]. rewrite Hr. symmetry. by apply aligned_start.
    + intros x Hx Hle. cbn [clist s2 upd]. unfold HOST_PAGE_SIZE in Hle. rewrite Hl by lia. apply (ad_cached _ _ _ _ Had); [done|lia].
    + eapply clist_sub_trans; [apply Had|exact Hsub].
Qed.

Lemma AddMpMap_loop_correct fuel e : forall m page addr s,
  marks_ok s -> aligned addr -> aligned e -> 0 <= addr <= e + HOST_PAGE_SIZE -> e + 2 * HOST_PAGE_SIZE <= 2 ^ 32 ->
  (Z.to_nat ((e + HOST_PAGE_SIZE - addr) / HOST_PAGE_SIZE) < fuel)%nat ->
  (page = page_index addr /\ m = addr / 2 ^ 20 /\ is_Some (map_of s addr)) \/ (page = pagespermega /\ page_index addr = 0) ->
  (forall a, aligned a -> addr <= a <= e -> protected s a = false -> is_Some (cached (clist s) a)) ->
  (forall a, addr <= a < e + HOST_PAGE_SIZE -> clean (guest s) a) ->
  wp (AddMpMap_loop fuel m page addr (e + HOST_PAGE_SIZE - 1)) s (fun _ s' => added s addr (e + HOST_PAGE_SIZE) s').
Proof.
  induction fuel as [|fuel IH]; [lia|]. intros m page addr s Hs Hal Hae Hr Hend Hfuel Hat Hcache Hclean.
  cbn [AddMpMap_loop]. pose proof (aligned_next e Hae) as Hae'. pose proof (aligned_next addr Hal) as Hal'.
  destruct (Z.ltb_spec (e + HOST_PAGE_SIZE - 1) addr).
  { wp_step. assert (addr = e + HOST_PAGE_SIZE) as <- by lia. by apply added_refl. }
  assert (addr + HOST_PAGE_SIZE <= e + HOST_PAGE_SIZE) as Hle by (apply aligned_le; [done|done|lia]).
  wp_step.
  assert (wp (if page =? pagespermega then let! m := get_map addr in ret (m, 0) else ret (m, page)) s (fun r s' =>
    r = (addr / 2 ^ 20, page_index addr) /\ is_Some (map_of s' addr) /\ added s addr addr s')) as Hget.
  { destruct Hat as [(-> & -> & Hmap)|[-> E0]].
    - pose proof (page_index_range addr). replace (page_index addr =? pagespermega) with false by (symmetry; apply Z.eqb_neq; lia).
      wp_step. split; [done|]. split; [done|]. by apply added_refl.
    - rewrite Z.eqb_refl. wp_step. eapply wp_mono; [apply get_map_correct; [done|lia]|]. intros m' s' (-> & Hmap & Hg). wp_step.
      rewrite E0. split; [done|]. split; [done|]. by apply added_grown. }
  eapply wp_mono; [exact Hget|]. intros ? s1 (-> & Hmap & Had). simpl.
  pose proof (ad_ok _ _ _ _ Had) as Hok1.
  eassert (wp _ s1 (fun _ s2 => added s1 addr (addr + HOST_PAGE_SIZE) s2)) as Hpage.
  { apply (add_page_correct addr s1); [done|done|lia|done|..].
    - intros Hp. rewrite (ad_cached _ _ _ _ Had) by (done || lia). apply Hcache; [done|unfold HOST_PAGE_SIZE in *; lia|].
      rewrite <- (added_protected _ _ _ _ _ Had); [done|lia|lia].
    - intros a Ha. apply (ad_clean _ _ _ _ Had), Hclean. lia. }
  rewrite u32_small by (unfold HOST_PAGE_SIZE in *; lia).
  assert (forall B (c : M (marks G) B) k Q, wp (bind c (fun b => bind (k b) (fun _ : unit =>
    AddMpMap_loop fuel (addr / 2 ^ 20) (page_index addr + 1) (addr + HOST_PAGE_SIZE) (e + HOST_PAGE_SIZE - 1)))) s1 Q <->
    wp (bind (bind c k) (fun _ => AddMpMap_loop fuel (addr / 2 ^ 20) (page_index addr + 1) (addr + HOST_PAGE_SIZE) (e + HOST_PAGE_SIZE - 1))) s1 Q)
    as Hassoc by (intros B c k Q; unfold wp, bind; by destruct (c s1) as [[]|]).
  apply Hassoc. wp_step. eapply wp_mono; [exact Hpage|]. intros [] s2 Had2. pose proof (ad_ok _ _ _ _ Had2) as Hok2.
  eapply wp_mono; [apply (IH _ _ (addr + HOST_PAGE_SIZE) s2); [done|done|done|unfold HOST_PAGE_SIZE in *; lia|lia|..]|].
  - replace (e + HOST_PAGE_SIZE - addr) with (e + HOST_PAGE_SIZE - (addr + HOST_PAGE_SIZE) + 1 * HOST_PAGE_SIZE) in Hfuel by lia.
    rewrite Z.div_add in Hfuel by done. pose proof (Z.div_pos (e + HOST_PAGE_SIZE - (addr + HOST_PAGE_SIZE)) HOST_PAGE_SIZE ltac:(lia) ltac:(done)). lia.
  - destruct (page_next addr Hal) as [E|[E1 E2]]; [right; split; [done|by apply page_wraps]|left].
    rewrite E1, E2. split; [done|]. split; [done|]. unfold map_of in *. rewrite E2. by apply (ad_maps _ _ _ _ Had2).
  - intros a Ha Hra Hp. rewrite (ad_cached _ _ _ _ Had2) by (done || lia).
    unfold HOST_PAGE_SIZE in Hra. rewrite (ad_cached _ _ _ _ Had) by (done || lia). apply Hcache; [done|lia|].
    rewrite <- (added_protected _ _ _ _ a Had), <- (added_protected _ _ _ _ a Had2); unfold HOST_PAGE_SIZE in *; done || lia.
  - intros a Ha. apply (ad_clean _ _ _ _ Had2), (ad_clean _ _ _ _ Had), Hclean. unfold HOST_PAGE_SIZE in *. lia.
  - intros [] s3 Had3. eapply (added_trans s addr addr _ s1); [lia|lia|lia|done|done|].
    eapply added_trans; [..|exact Had2|exact Had3]; unfold HOST_PAGE_SIZE in *; done || lia.
Qed.

Lemma AddMpMap_correct b e s :
  marks_ok s -> aligned b -> aligned e -> 0 <= b <= e -> e + 2 * HOST_PAGE_SIZE <= 2 ^ 32 ->
  (forall a, aligned a -> b <= a <= e -> protected s a = false -> is_Some (cached (clist s) a)) ->
  (forall a, b <= a < e + HOST_PAGE_SIZE -> clean (guest s) a) ->
  wp (AddMpMap b (e + HOST_PAGE_SIZE - 1)) s (fun _ s' => added s b (e + HOST_PAGE_SIZE) s').
Proof.
  intros Hs Hb He Hbe Hend Hcache Hclean. unfold AddMpMap. wp_step. eapply wp_mono; [apply get_map_correct; [done|lia]|].
  intros m s1 (-> & Hmap & Hg). pose proof (added_grown _ _ b Hg) as Had.
  eapply wp_mono; [apply (AddMpMap_loop_correct _ e); [apply Hg|done|done|unfold HOST_PAGE_SIZE; lia|done|..]|].
  - replace (e + HOST_PAGE_SIZE - b) with ((e + HOST_PAGE_SIZE - 1 - b) + 1) by lia. clear - Hbe. unfold HOST_PAGE_SIZE. Z.to_euclidean_division_equations. lia.
  - left. by split.
  - intros a Ha Hr Hp. rewrite (gr_clist _ _ Hg). apply Hcache; [done|done|]. by rewrite <- (grown_protected _ _ _ Hg).
  - intros a Ha. rewrite (gr_guest _ _ Hg). by apply Hclean.
  - intros [] s2 Had2. eapply added_trans; [..|exact Had|exact Had2]; unfold HOST_PAGE_SIZE; done || lia.
Qed.

(** ** Runs of pages *)

Lemma seen_protected s s' a : seen s s' -> protected s' a = protected s a.
Proof using Type. intros Hs. apply same_pages_protected. by apply seen_same. Qed.

(** [J p]: the pages below [p] have been dealt with. *)
Lemma protect_loop_correct (J : Z -> marks G -> Prop) flush want aend fuel :
  (forall p s, J p s -> marks_ok s) ->
  (forall p s s', J p s -> seen s s' -> J p s') ->
  (forall p s, aligned p -> 0 <= p <= aend -> J p s -> protected s p = negb want -> J (p + HOST_PAGE_SIZE) s) ->
  (forall b e s, aligned b -> aligned e -> 0 <= b <= e -> e <= aend -> J b s ->
     (forall a, b <= a < e + HOST_PAGE_SIZE -> protected s a = want) ->
     wp (flush b e) s (fun _ s' => J (e + HOST_PAGE_SIZE) s' /\ forall a, e + HOST_PAGE_SIZE <= a -> protected s' a = protected s a)) ->
  aligned aend -> aend + HOST_PAGE_SIZE < 2 ^ 32 ->
  forall run a s, aligned a -> 0 <= a <= aend + HOST_PAGE_SIZE ->
  (Z.to_nat ((aend + HOST_PAGE_SIZE - a) / HOST_PAGE_SIZE) < fuel)%nat ->
  (match run with
   | None => J a s
   | Some (b, e) => J b s /\ aligned b /\ 0 <= b <= e /\ e + HOST_PAGE_SIZE = a /\ a <= aend /\ (forall x, b <= x < a -> protected s x = want)
   end) ->
  wp (protect_loop flush want fuel run a aend) s (fun _ s' => J (aend + HOST_PAGE_SIZE) s').
Proof.
  intros Jok Jseen Jskip Jflush Hae Hend. induction fuel as [|fuel IH]; [lia|]. intros run a s Hal Hr Hfuel Hrun. cbn [protect_loop].
  pose proof (aligned_next a Hal) as Hal'. pose proof (aligned_next aend Hae) as Hae'.
  destruct (Z.ltb_spec aend a).
  { wp_step. destruct run as [[b e]|]; [lia|]. replace (aend + HOST_PAGE_SIZE) with a; [done|].
    apply (aligned_le aend a) in H1; [lia|done|done]. }
  assert (a + HOST_PAGE_SIZE <= aend + HOST_PAGE_SIZE) as Hle by (unfold HOST_PAGE_SIZE; lia).
  assert (marks_ok s) as Hs by (destruct run as [[b e]|]; eapply Jok, Hrun).
  wp_step. eapply quiet_wp; [apply e_querymprot_quiet; [done|lia]|]. intros s1 Hs1.
  assert (forall x, protected s1 x = protected s x) as Hprot by (intros x; by apply seen_protected).
  rewrite u32_small by (unfold HOST_PAGE_SIZE in *; lia).
  assert (forall x, a <= x < a + HOST_PAGE_SIZE -> protected s x = protected s a) as Hpage
    by (intros x Hx; by apply protected_page, in_page).
  assert ((Z.to_nat ((aend + HOST_PAGE_SIZE - (a + HOST_PAGE_SIZE)) / HOST_PAGE_SIZE) < fuel)%nat) as Hfuel'.
  { replace (aend + HOST_PAGE_SIZE - a) with (aend + HOST_PAGE_SIZE - (a + HOST_PAGE_SIZE) + 1 * HOST_PAGE_SIZE) in Hfuel by lia.
    rewrite Z.div_add in Hfuel by done. pose proof (Z.div_pos (aend + HOST_PAGE_SIZE - (a + HOST_PAGE_SIZE)) HOST_PAGE_SIZE ltac:(lia) ltac:(done)). lia. }
  destruct (Bool.eqb (protected s a) want) eqn:Et.
  - apply Bool.eqb_prop in Et. set (b := match run with Some (b, _) => b | None => a end).
    assert (J b s1 /\ aligned b /\ 0 <= b <= a /\ (forall x, b <= x < a + HOST_PAGE_SIZE -> protected s1 x = want)) as (HJ & Hb & Hba & Hall).
    { subst b. destruct run as [[b e]|].
      - destruct Hrun as (HJ & Hb & Hbe & He & _ & Hw). split; [by eapply Jseen|]. split; [done|]. split; [unfold HOST_PAGE_SIZE in *; lia|].
        intros x Hx. rewrite Hprot. destruct (Z.lt_ge_cases x a); [apply Hw; lia|rewrite Hpage by lia; done].
      - split; [by eapply Jseen|]. split; [done|]. split; [lia|]. intros x Hx. by rewrite Hprot, Hpage. }
    wp_step. destruct (Z.eqb_spec a aend) as [->|]; simpl.
    + wp_step. eapply wp_mono; [apply Jflush; done || lia|]. intros [] s2 [HJ2 _]. wp_step. apply IH; [done|unfold HOST_PAGE_SIZE in *; lia|done|done].
    + wp_step. apply IH; [done|unfold HOST_PAGE_SIZE in *; lia|done|]. split; [done|]. split; [done|]. split; [done|]. split; [done|]. split; [|done].
      apply aligned_le; [done|done|lia].
  - apply Bool.eqb_false_iff in Et. assert (protected s1 a = negb want) as Hw by (rewrite Hprot; by destruct (protected s a), want).
    wp_step. destruct run as [[b e]|].
    + destruct Hrun as (HJ & Hb & Hbe & He & Hae2 & Hrun). rewrite orb_true_r. wp_step.
      eapply wp_mono; [apply (Jflush b e s1); [done| |done|unfold HOST_PAGE_SIZE in *; lia|by eapply Jseen|]|].
      * revert Hal. rewrite <- He. unfold aligned, HOST_PAGE_SIZE. clear. Z.to_euclidean_division_equations. lia.
      * intros x Hx. rewrite Hprot. apply Hrun. lia.
      * intros [] s2 [HJ2 Hrest]. wp_step. apply IH; [done|unfold HOST_PAGE_SIZE in *; lia|done|]. rewrite He in HJ2, Hrest.
        apply Jskip; [done|lia|done|]. by rewrite Hrest.
    + wp_step. apply IH; [done|unfold HOST_PAGE_SIZE in *; lia|done|]. apply Jskip; [done|lia| |done]. by eapply Jseen.
Qed.

Lemma protect_run_correct prot b e s :
  marks_ok s -> aligned b -> aligned e -> 0 <= b <= e -> e + HOST_PAGE_SIZE <= 2 ^ 32 ->
  wp (protect_run prot b e) s (fun _ s' => exists g,
    s' = s <| guest := g |> /\ good g /\ (forall a, guest_byte g a = guest_byte (guest s) a) /\
    (forall a, b <= a < e + HOST_PAGE_SIZE -> clean g a) /\ (forall a, clean (guest s) a -> clean g a)).
Proof.
  intros Hs Hb He Hbe Hend. unfold protect_run. wp_step. unfold on_guest, wp at 1.
  assert ((e - b + HOST_PAGE_SIZE) mod HOST_PAGE_SIZE = 0) as Hn
    by (clear - Hb He; unfold aligned, HOST_PAGE_SIZE in *; Z.to_euclidean_division_equations; lia).
  pose proof (mprotect_law b (e - b + HOST_PAGE_SIZE) prot (guest s) (ok_good _ Hs) ltac:(lia) Hb ltac:(unfold HOST_PAGE_SIZE; lia) Hn ltac:(lia)) as Hlaw.
  unfold wp in Hlaw. destruct (mprotect_mapping _ _ _ _) as [[r g]|]; [|done]. destruct Hlaw as (Hr & Hgood & Hbytes & Hclean & Hkeep).
  destruct (Z.ltb_spec r 0); [lia|]. wp_step. exists g. split; [done|]. split; [done|]. split; [done|]. split; [|done].
  intros a Ha. apply Hclean. lia.
Qed.

End pages.
