(* ===== verification/MarksProt.v ===== *)
(** * Marks of translated code: [do_mprotect] and [e_munprotect] *)

From stdpp Require Import base numbers list.
From Stdlib Require Import ZArith Lia.
From S2P Require Import Prelude Machine SimMem Marks MarksInv MarksQuery MarksPages.

Local Open Scope Z_scope.

(** The page after the range. *)
Definition page_end (addr len : Z) : Z := page_start (addr + len - 1) + HOST_PAGE_SIZE.

Lemma page_end_spec addr len :
  0 < len -> aligned (page_end addr len) /\ addr + len <= page_end addr len < addr + len + HOST_PAGE_SIZE /\
  page_start addr + HOST_PAGE_SIZE <= page_end addr len.
Proof.
  intros Hl. unfold page_end. destruct (page_start_spec (addr + len - 1)) as [H1 H2]. destruct (page_start_spec addr) as [H3 H4].
  split; [by apply aligned_next|]. split; [lia|]. apply aligned_le; [done|by apply aligned_next|]. lia.
Qed.

Section prot.
Context {G : Type} `{CodeMemLaws G}.
Implicit Types s : marks G.
#[local] Set Default Proof Using "Type*".

Lemma added_guest s g p :
  marks_ok s -> good g -> (forall a, guest_byte g a = guest_byte (guest s) a) -> (forall a, clean (guest s) a -> clean g a) ->
  added s p p (s <| guest := g |>).
Proof.
  intros Hs Hg Hb Hc. constructor; try done.
  - destruct Hs as [E1 Epos E2 E3 E4 E5 E6]. constructor; try done. intros a Ha Hp. apply Hc. by apply E5.
  - intros a Ha. by rewrite range_empty.
  - apply clist_sub_refl.
Qed.

Lemma added_skip s p : marks_ok s -> aligned p -> protected s p = true -> added s p (p + HOST_PAGE_SIZE) s.
Proof.
  intros Hs Hp Hprot. constructor; try done; [|apply clist_sub_refl]. intros a Ha. destruct ((p <=? a) && _) eqn:E; [|done].
  rewrite (protected_page s a p), Hprot; [done|]. apply in_page; [done|]. revert E; zbool; simpl; done || lia.
Qed.

(** The pages of the range that are not protected are in the cache. *)
Definition fetched_range s (addr len : Z) : Prop :=
  forall a, aligned a -> page_start addr <= a < addr + len -> protected s a = false -> is_Some (cached (clist s) a).

Lemma do_mprotect_correct addr len s :
  marks_ok s -> 0 <= addr -> 0 < len -> addr + len <= ADDR_END -> fetched_range s addr len ->
  wp (do_mprotect addr len) s (fun _ s' => added s (page_start addr) (page_end addr len) s').
Proof.
  intros Hs Ha Hl Hend Hcache. unfold do_mprotect, ADDR_END in *. wp_step. wp_step; [unfold truth; zbool; simpl; done || lia|].
  rewrite u32_small by lia. destruct (page_start_spec addr) as [Hal Har]. destruct (page_start_spec (addr + len - 1)) as [Hel Her].
  assert (0 <= page_start addr) as Hab0 by (apply page_start_le; done).
  set (abeg := page_start addr) in *. unfold page_end. set (aend := page_start (addr + len - 1)) in *.
  assert (abeg <= aend) as Hle by (apply page_start_le; [done|lia]).
  eapply wp_mono; [apply (protect_loop_correct (fun p s' => abeg <= p /\ aligned p /\ added s abeg p s'))|];
    [..|by intros [] s' (_ & _ & Had)].
  all: try (unfold HOST_PAGE_SIZE in *; done || lia).
  - intros p s' (_ & _ & Had). apply Had.
  - intros p s' s'' (E1 & E2 & Had) Hss. split; [done|]. split; [done|].
    eapply added_trans; [..|exact Had|apply added_seen; [apply Had|done]]; done || lia.
  - intros p s' Hp Hr (E1 & _ & Had) Hprot. split; [unfold HOST_PAGE_SIZE; lia|]. split; [by apply aligned_next|].
    eapply added_trans; [..|exact Had|apply added_skip; [apply Had|done|done]]; unfold HOST_PAGE_SIZE; done || lia.
  - intros b e s' Hb He Hbe Hee (E1 & _ & Had) Hprot. wp_step.
    eapply wp_mono; [apply protect_run_correct; [apply Had|done|done|done|unfold HOST_PAGE_SIZE in *; lia]|].
    intros [] s1 (g & -> & Hgood & Hbytes & Hclean & Hkeep). pose proof (added_guest s' g b (ad_ok _ _ _ _ Had) Hgood Hbytes Hkeep) as Had1.
    eapply wp_mono; [apply AddMpMap_correct; [apply Had1|done|done|lia|unfold HOST_PAGE_SIZE in *; lia| |exact Hclean]|].
    + intros a Haa Hra _. cbn [clist upd]. rewrite (ad_cached _ _ _ _ Had) by (done || lia). apply Hcache; [done|lia|].
      rewrite <- (added_protected _ _ _ _ _ Had) by lia. apply Hprot. unfold HOST_PAGE_SIZE; lia.
    + intros [] s2 Had2. assert (b <= e + HOST_PAGE_SIZE) by (unfold HOST_PAGE_SIZE; lia).
      pose proof (added_trans s' b b (e + HOST_PAGE_SIZE) _ s2 ltac:(lia) ltac:(lia) ltac:(lia) Hb Had1 Had2) as Had3. split.
      * split; [lia|]. split; [by apply aligned_next|]. eapply added_trans; [..|exact Had|exact Had3]; done || lia.
      * intros a Haa. apply (added_protected _ _ _ _ _ Had3); lia.
  - unfold pages_fuel. clear - Hle. unfold HOST_PAGE_SIZE. Z.to_euclidean_division_equations. lia.
  - split; [done|]. split; [done|]. by apply added_refl.
Qed.

(** ** Removing pages *)

Record removed s0 (lo p : Z) s : Prop := {
  rm_ok : marks_ok s;
  rm_blocks : blocks_ok s;
  rm_marked a : 0 <= a -> marked s a = marked s0 a;
  rm_starts a : 0 <= a -> starts s a = starts s0 a;
  rm_bytes a : guest_byte (guest s) a = guest_byte (guest s0) a;
  rm_copy a : 0 <= a -> copy_of s a = if (lo <=? a) && (a <? p) then None else copy_of s0 a;
  rm_clist : clist s = clist s0;
}.

Lemma removed_refl s p : marks_ok s -> blocks_ok s -> removed s p p s.
Proof. intros Hs Hb. constructor; try done. intros a Ha. by rewrite range_empty. Qed.

Lemma removed_trans s0 lo p q s s' : lo <= p -> p <= q -> removed s0 lo p s -> removed s p q s' -> removed s0 lo q s'.
Proof.
  intros Hlp Hpq E1 E2. constructor.
  - apply E2.
  - apply E2.
  - intros a Ha. by rewrite (rm_marked _ _ _ _ E2), (rm_marked _ _ _ _ E1).
  - intros a Ha. by rewrite (rm_starts _ _ _ _ E2), (rm_starts _ _ _ _ E1).
  - intros a. by rewrite (rm_bytes _ _ _ _ E2), (rm_bytes _ _ _ _ E1).
  - intros a Ha. rewrite (rm_copy _ _ _ _ E2), (rm_copy _ _ _ _ E1) by done. zbool; simpl; done || lia.
  - by rewrite (rm_clist _ _ _ _ E2), (rm_clist _ _ _ _ E1).
Qed.

Lemma removed_seen s s' p : marks_ok s -> blocks_ok s -> seen s s' -> removed s p p s'.
Proof.
  intros Hs Hb Hss. destruct (added_seen s s' p Hs Hss) as [E1 E2 E3 E4 E5 E6 E7 E8]. constructor; try done.
  - intros a Ha. rewrite E2, E3. by apply Hb.
  - intros a Ha. rewrite E7, !range_empty by (done || lia). done.
  - by destruct (seen_same _ _ Hss).
Qed.

Lemma removed_skip s p : marks_ok s -> blocks_ok s -> aligned p -> protected s p = false -> removed s p (p + HOST_PAGE_SIZE) s.
Proof.
  intros Hs Hb Hp Hprot. constructor; try done. intros a Ha. destruct ((p <=? a) && _) eqn:E; [|done].
  assert (protected s a = false) as E2.
  { rewrite (protected_page s a p), Hprot; [done|]. apply in_page; [done|]. revert E; zbool; simpl; done || lia. }
  unfold protected in E2. by destruct (copy_of s a).
Qed.

Lemma removed_protected s0 lo p s a : removed s0 lo p s -> 0 <= a -> ~ (lo <= a < p) -> protected s a = protected s0 a.
Proof. intros Hrm Ha Hn. unfold protected. rewrite (rm_copy _ _ _ _ Hrm) by done. zbool; simpl; done || lia. Qed.

Lemma no_pages_spec (M : tMpMap) i : no_pages M = true -> 0 <= i < pagespermega -> pagemap M i = None.
Proof using Type.
  unfold no_pages. intros Hn Hi. pose proof (proj1 (forallb_forall _ _) Hn (Z.to_nat i)) as Hx.
  assert (In (Z.to_nat i) (seq 0 (Z.to_nat pagespermega))) as Hin by (apply in_seq; unfold pagespermega in *; lia).
  specialize (Hx Hin). cbv beta in Hx. rewrite Z2Nat.id in Hx by lia. by destruct (pagemap M i).
Qed.

(** Taking an empty map out. *)
Definition drop_map (m : Z) s : marks G :=
  s <| MpH ::= List.filter (fun M => negb (mega M =? m)) |>
    <| LastMp ::= fun l => match l with Some m' => if m' =? m then None else l | None => None end |>.

Lemma map_of_drop_map m s a : map_of (drop_map m s) a = if a / 2 ^ 20 =? m then None else map_of s a.
Proof using Type. unfold map_of, drop_map. cbn [MpH upd]. apply has_map_filter. Qed.

Lemma drop_map_removed m s p :
  marks_ok s -> blocks_ok s -> (forall a, a / 2 ^ 20 = m -> copy_of s a = None) -> removed s p p (drop_map m s).
Proof.
  intros Hs Hb Hnone.
  assert (forall a, 0 <= a -> a / 2 ^ 20 = m -> marked s a = false /\ starts s a = false) as Hm.
  { intros a Ha E. pose proof (ok_pages _ Hs a Ha) as Hp. pose proof (Hb a Ha) as Hst. unfold protected in Hp. rewrite Hnone in Hp by done.
    destruct (marked s a); [by specialize (Hp eq_refl)|]. destruct (starts s a); [by specialize (Hst eq_refl)|done]. }
  assert (forall a, 0 <= a -> marked (drop_map m s) a = marked s a) as Hmarked.
  { intros a Ha. destruct (Z.eqb_spec (a / 2 ^ 20) m) as [E|E].
    - rewrite (proj1 (Hm a Ha E)). unfold marked. by rewrite map_of_drop_map, (proj2 (Z.eqb_eq _ _) E).
    - unfold marked. by rewrite map_of_drop_map, (proj2 (Z.eqb_neq _ _) E). }
  assert (forall a, 0 <= a -> starts (drop_map m s) a = starts s a) as Hstarts.
  { intros a Ha. destruct (Z.eqb_spec (a / 2 ^ 20) m) as [E|E].
    - rewrite (proj2 (Hm a Ha E)). unfold starts. by rewrite map_of_drop_map, (proj2 (Z.eqb_eq _ _) E).
    - unfold starts. by rewrite map_of_drop_map, (proj2 (Z.eqb_neq _ _) E). }
  assert (forall a, copy_of (drop_map m s) a = copy_of s a) as Hcopy.
  { intros a. destruct (Z.eqb_spec (a / 2 ^ 20) m) as [E|E].
    - rewrite (Hnone a E). unfold copy_of. by rewrite map_of_drop_map, (proj2 (Z.eqb_eq _ _) E).
    - unfold copy_of. by rewrite map_of_drop_map, (proj2 (Z.eqb_neq _ _) E). }
  constructor; try done.
  - destruct Hs as [E1 Epos E2 E3 E4 E5 E6]. unfold drop_map. constructor; cbn [MpH LastMp guest upd].
    + eapply sublist_NoDup; [exact E1|]. apply fmap_sublist. clear. induction (MpH s) as [|M l IH]; [constructor|].
      simpl. destruct (negb _); by constructor.
    + intros M HM. apply Epos, list_elem_of_In. apply list_elem_of_In, filter_In in HM. apply HM.
    + intros m' E. rewrite has_map_filter. destruct (LastMp s) as [m2|] eqn:El; [|done].
      destruct (Z.eqb_spec m2 m) as [|Hne]; [done|]. injection E as ->.
      rewrite (proj2 (Z.eqb_neq _ _) Hne). by apply E2.
    + intros M HM. apply E3, list_elem_of_In. apply list_elem_of_In, filter_In in HM. apply HM.
    + intros a Ha Hma. change (marked (drop_map m s) a = true) in Hma. change (protected (drop_map m s) a = true).
      unfold protected. rewrite Hcopy. apply E4; [done|]. by rewrite <- Hmarked.
    + intros a Ha Hp. change (protected (drop_map m s) a = true) in Hp. apply E5; [done|].
      unfold protected in *. by rewrite <- Hcopy.
    + exact E6.
  - intros a Ha. rewrite Hmarked, Hstarts by done. by apply Hb.
  - intros a Ha. by rewrite range_empty, Hcopy.
Qed.

Lemma do_rm_page_correct a s :
  marks_ok s -> blocks_ok s -> aligned a -> 0 <= a -> is_Some (map_of s a) ->
  (forall x, a <= x < a + HOST_PAGE_SIZE -> marked s x = false) ->
  wp (do_rm_page (a / 2 ^ 20) (page_index a)) s (fun _ s' => removed s a (a + HOST_PAGE_SIZE) s').
Proof.
  intros Hs Hb Hal Ha Hmap Hnone. unfold do_rm_page. wp_step. destruct (map_of_has s a Hmap) as (M & E1 & E2 & E3).
  apply wp_upd_mpmap; [by exists M|]. set (s1 := with_map (a / 2 ^ 20) (set_copy (page_index a) None) s).
  change (with_map _ _ s) with s1.
  assert (forall x, copy_of s1 x = if (a <=? x) && (x <? a + HOST_PAGE_SIZE) then None else copy_of s x) as Hcopy.
  { intros x. unfold s1. rewrite set_copy_of, on_page by done. destruct (_ && _); [|done]. by destruct (map_of s x). }
  assert (removed s a (a + HOST_PAGE_SIZE) s1) as Hrm.
  { constructor; try done; try (intros; apply set_copy_view).
    - apply set_copy_ok; [done|..].
      + intros x Hx Hm. fold s1. unfold protected. rewrite Hcopy. destruct (_ && _) eqn:E; [|by apply (ok_pages _ Hs)].
        rewrite Hnone in Hm; [done|]. revert E. zbool; simpl; done || lia.
      + intros x Hx. fold s1. unfold protected. rewrite Hcopy. destruct (_ && _); [done|]. by apply (ok_clean _ Hs).
    - intros x Hx. unfold s1. rewrite (proj1 (set_copy_view _ _ _ _ _)), (proj2 (set_copy_view _ _ _ _ _)). by apply Hb. }
  pose proof (rm_ok _ _ _ _ Hrm) as Hok1.
  assert (is_Some (map_of s1 a)) as Hmap1 by (by apply set_copy_has).
  destruct (map_of_has s1 a Hmap1) as (M' & E4 & E5 & E6).
  wp_step. eapply quiet_wp; [by apply quiet_deref|]. intros s2 Hss.
  pose proof (removed_seen s1 s2 (a + HOST_PAGE_SIZE) Hok1 (rm_blocks _ _ _ _ Hrm) Hss) as Hrm2.
  assert (removed s a (a + HOST_PAGE_SIZE) s2) as Hrm3 by (eapply removed_trans; [..|exact Hrm|exact Hrm2]; unfold HOST_PAGE_SIZE; lia).
  destruct (no_pages M') eqn:En; [|by wp_step].
  wp_step. wp_step. wp_step. eapply removed_trans; [..|exact Hrm3|]; [unfold HOST_PAGE_SIZE; lia|done|].
  apply drop_map_removed; [apply Hrm3|apply Hrm3|].
  intros x Ex. unfold copy_of, map_of in *. rewrite (seen_MpH _ _ Hss), Ex, E4. simpl. apply no_pages_spec; [done|apply page_index_range].
Qed.

Lemma RmMpMap_loop_correct fuel e : forall addr s,
  marks_ok s -> blocks_ok s -> aligned addr -> aligned e -> 0 <= addr <= e + HOST_PAGE_SIZE -> e + HOST_PAGE_SIZE < 2 ^ 32 ->
  (Z.to_nat ((e + HOST_PAGE_SIZE - addr) / HOST_PAGE_SIZE) < fuel)%nat ->
  (forall x, addr <= x < e + HOST_PAGE_SIZE -> marked s x = false) ->
  wp (RmMpMap_loop fuel addr (e + HOST_PAGE_SIZE - 1)) s (fun _ s' => removed s addr (e + HOST_PAGE_SIZE) s').
Proof.
  induction fuel as [|fuel IH]; [lia|]. intros addr s Hs Hb Hal Hae Hr Hend Hfuel Hnone. cbn [RmMpMap_loop].
  pose proof (aligned_next e Hae) as Hae'. pose proof (aligned_next addr Hal) as Hal'.
  destruct (Z.ltb_spec (e + HOST_PAGE_SIZE - 1) addr).
  { wp_step. assert (addr = e + HOST_PAGE_SIZE) as <- by lia. by apply removed_refl. }
  assert (addr + HOST_PAGE_SIZE <= e + HOST_PAGE_SIZE) as Hle by (apply aligned_le; [done|done|lia]).
  wp_step. wp_step. wp_step.
  assert (addr / HOST_PAGE_SIZE / pagespermega = addr / 2 ^ 20) as -> by (by rewrite Z.div_div).
  change (addr / HOST_PAGE_SIZE mod pagespermega) with (page_index addr).
  eassert (wp _ s (fun (_ : unit) s' => removed s addr (addr + HOST_PAGE_SIZE) s')) as Hstep; [|eapply wp_mono; [exact Hstep|]].
  - destruct (has_map (addr / 2 ^ 20) (MpH s)) as [M|] eqn:E.
    + destruct (has_map_Some _ _ _ E) as [_ Em]. destruct (is_page (pagemap M (page_index addr))) eqn:Ep.
      * wp_step. rewrite Em. eapply wp_mono; [apply do_rm_page_correct; [done|done|done|lia|by exists M|]|].
        -- intros x Hx. apply Hnone. lia.
        -- intros ? s' Hrm. by wp_step.
      * wp_step. apply removed_skip; [done|done|done|]. unfold protected, copy_of, map_of. by rewrite E.
    + wp_step. apply removed_skip; [done|done|done|]. unfold protected, copy_of, map_of. by rewrite E.
  - intros [] s1 Hrm. rewrite u32_small by (unfold HOST_PAGE_SIZE in *; lia).
    eapply wp_mono; [apply IH; [apply Hrm|apply Hrm|done|done|unfold HOST_PAGE_SIZE in *; lia|done|..]|].
    + replace (e + HOST_PAGE_SIZE - addr) with (e + HOST_PAGE_SIZE - (addr + HOST_PAGE_SIZE) + 1 * HOST_PAGE_SIZE) in Hfuel by lia.
      rewrite Z.div_add in Hfuel by done. pose proof (Z.div_pos (e + HOST_PAGE_SIZE - (addr + HOST_PAGE_SIZE)) HOST_PAGE_SIZE ltac:(lia) ltac:(done)). lia.
    + intros x Hx. unfold HOST_PAGE_SIZE in Hx. rewrite (rm_marked _ _ _ _ Hrm) by lia. apply Hnone. unfold HOST_PAGE_SIZE. lia.
    + intros [] s2 Hrm2. eapply removed_trans; [..|exact Hrm|exact Hrm2]; unfold HOST_PAGE_SIZE in *; lia.
Qed.

Lemma e_munprotect_correct addr len s :
  marks_ok s -> blocks_ok s -> 0 <= addr -> 0 < len -> addr + len <= ADDR_END ->
  (forall x, page_start addr <= x < page_end addr len -> marked s x = false) ->
  wp (e_munprotect addr len) s (fun _ s' => removed s (page_start addr) (page_end addr len) s').
Proof.
  intros Hs Hb Ha Hl Hend Hnone. unfold e_munprotect, ADDR_END in *.
  replace (len =? 0) with false by (symmetry; apply Z.eqb_neq; lia). rewrite u32_small by lia.
  destruct (page_start_spec addr) as [Hal Har]. destruct (page_start_spec (addr + len - 1)) as [Hel Her].
  assert (0 <= page_start addr) as Hab0 by (apply page_start_le; done).
  unfold page_end in *. set (abeg := page_start addr) in *. set (aend := page_start (addr + len - 1)) in *.
  assert (abeg <= aend) as Hle by (apply page_start_le; [done|lia]).
  eapply wp_mono; [apply (protect_loop_correct (fun p s' => abeg <= p /\ aligned p /\ removed s abeg p s'))|];
    [..|by intros [] s' (_ & _ & Had)].
  all: try (unfold HOST_PAGE_SIZE in *; done || lia).
  - intros p s' (_ & _ & Hrm). apply Hrm.
  - intros p s' s'' (E1 & E2 & Hrm) Hss. split; [done|]. split; [done|].
    eapply removed_trans; [..|exact Hrm|apply removed_seen; [apply Hrm|apply Hrm|done]]; done || lia.
  - intros p s' Hp Hr (E1 & _ & Hrm) Hprot. split; [unfold HOST_PAGE_SIZE; lia|]. split; [by apply aligned_next|].
    eapply removed_trans; [..|exact Hrm|apply removed_skip; [apply Hrm|apply Hrm|done|done]]; unfold HOST_PAGE_SIZE; done || lia.
  - intros b e s' Hb' He Hbe Hee (E1 & _ & Hrm) Hprot. wp_step.
    eapply wp_mono; [apply protect_run_correct; [apply Hrm|done|done|done|unfold HOST_PAGE_SIZE in *; lia]|].
    intros [] s1 (g & -> & Hgood & Hbytes & Hclean & Hkeep).
    assert (removed s' b b (s' <| guest := g |>)) as Hrm1.
    { destruct (added_guest s' g b (rm_ok _ _ _ _ Hrm) Hgood Hbytes Hkeep) as [F1 F2 F3 F4 F5 F6 F7 F8]. constructor; try done.
      - apply Hrm.
      - intros a Haa. by rewrite range_empty. }
    eapply wp_mono; [apply RmMpMap_loop_correct; [apply Hrm1|apply Hrm1|done|done|unfold HOST_PAGE_SIZE in *; lia|unfold HOST_PAGE_SIZE in *; lia|..]|].
    + replace (e + HOST_PAGE_SIZE - b) with ((e + HOST_PAGE_SIZE - 1 - b) + 1) by lia. clear - Hbe. unfold HOST_PAGE_SIZE. Z.to_euclidean_division_equations. lia.
    + intros x Hx. rewrite (rm_marked _ _ _ _ Hrm1), (rm_marked _ _ _ _ Hrm) by lia. apply Hnone. unfold HOST_PAGE_SIZE in *. lia.
    + intros [] s2 Hrm2. assert (b <= e + HOST_PAGE_SIZE) by (unfold HOST_PAGE_SIZE; lia).
      pose proof (removed_trans s' b b (e + HOST_PAGE_SIZE) _ s2 ltac:(lia) ltac:(lia) Hrm1 Hrm2) as Hrm3. split.
      * split; [lia|]. split; [by apply aligned_next|]. eapply removed_trans; [..|exact Hrm|exact Hrm3]; done || lia.
      * intros a Haa. apply (removed_protected _ _ _ _ _ Hrm3); lia.
  - unfold pages_fuel. clear - Hle. unfold HOST_PAGE_SIZE. Z.to_euclidean_division_equations. lia.
  - split; [done|]. split; [done|]. by apply removed_refl.
Qed.

End prot.
