(* ===== verification/MarksMark.v ===== *)
(** * Marks of translated code: [e_markpage] and [e_unmarkpage]

    Marking a block adds exactly its bytes and its start and protects the pages
    it touches; unmarking takes them away and keeps a page protected exactly
    while it has a mark. *)

From stdpp Require Import base numbers list.
From Stdlib Require Import ZArith Lia.
From S2P Require Import Prelude Machine SimMem Marks MarksInv MarksQuery MarksPages MarksProt.

Local Open Scope Z_scope.

Definition in_range (addr len a : Z) : bool := (addr <=? a) && (a <? addr + len).

Lemma in_range_spec addr len a : in_range addr len a = true <-> addr <= a < addr + len.
Proof. unfold in_range. zbool; simpl; split; done || lia. Qed.

Lemma in_range_first addr len a :
  0 < len -> in_range addr len a = (a =? addr) || in_range (addr + 1) (len - 1) a.
Proof. intros Hl. unfold in_range. zbool; simpl; done || lia. Qed.

Lemma next_mega a : 0 <= a -> offset (a + 1) <> 0 -> (a + 1) / 2 ^ 20 = a / 2 ^ 20.
Proof. unfold offset. Z.to_euclidean_division_equations. lia. Qed.

Section mark.
Context {G : Type} `{CodeMemLaws G}.
Implicit Types s : marks G.
#[local] Set Default Proof Using "Type*".

Lemma quiet_next_byte a s :
  marks_ok s -> 0 <= a -> a + 1 < 2 ^ 32 -> (offset (a + 1) = 0 -> is_Some (map_of s (a + 1))) ->
  quiet (next_byte (a / 2 ^ 20) a) s ((a + 1) / 2 ^ 20).
Proof.
  intros Hs Ha Hlt Hmap. unfold next_byte. rewrite u32_small by lia. change ((a + 1) mod 2 ^ MEGA_SHIFT) with (offset (a + 1)).
  destruct (Z.eqb_spec (offset (a + 1)) 0) as [E|E].
  - destruct (map_of_has s (a + 1) (Hmap E)) as (M & E1 & E2 & E3).
    eapply quiet_bind; [done|apply quiet_FindM; [done|lia]|]. intros s' Hs' _. rewrite E2. cbn [fmap option_fmap option_map].
    rewrite E3. by apply quiet_ret.
  - rewrite next_mega by done. by apply quiet_ret.
Qed.

(** A run of single-byte updates of the bits. *)
Record bits s (mk st : Z -> bool) s' : Prop := {
  bt_ok : marks_ok s';
  bt_same : same_pages s s';
  bt_marked a : 0 <= a -> marked s' a = mk a;
  bt_starts a : 0 <= a -> starts s' a = st a;
}.

Lemma bits_seen s mk st s' s'' : bits s mk st s' -> seen s' s'' -> bits s mk st s''.
Proof.
  intros [E1 E2 E3 E4] Hss. constructor.
  - by eapply seen_ok.
  - eapply same_pages_trans; [exact E2|by apply seen_same].
  - intros a Ha. rewrite (proj1 (seen_view _ _ a Hss)). by apply E3.
  - intros a Ha. rewrite (proj2 (seen_view _ _ a Hss)). by apply E4.
Qed.

Lemma bits_trans s mk st s' s'' : bits s (marked s') (starts s') s' -> bits s' mk st s'' -> bits s mk st s''.
Proof. intros [E1 E2 _ _] [F1 F2 F3 F4]. constructor; [done|by eapply same_pages_trans|done|done]. Qed.

Lemma bits_refl s : marks_ok s -> bits s (marked s) (starts s) s.
Proof. intros Hs. constructor; [done|apply same_pages_refl|done|done]. Qed.

Lemma bits_ext s mk st mk' st' s' :
  bits s mk st s' -> (forall a, 0 <= a -> mk a = mk' a) -> (forall a, 0 <= a -> st a = st' a) -> bits s mk' st' s'.
Proof. intros [E1 E2 E3 E4] Hm Hst. constructor; [done|done|..]; intros a Ha; rewrite <- ?Hm, <- ?Hst; auto. Qed.

Lemma mark_byte_bits a s :
  marks_ok s -> 0 <= a -> protected s a = true ->
  bits s (fun x => (x =? a) || marked s x) (starts s) (with_map (a / 2 ^ 20) (mark_bit a) s).
Proof.
  intros Hs Ha Hp. pose proof (protected_has s a Hp) as Hmap.
  assert (forall x, 0 <= x -> _) as Hview by exact (fun x => view_mark_bit a s x Hmap Ha).
  constructor; [|by apply only_bits_same|by apply Hview|by apply Hview].
  apply only_bits_ok; [done|done|..].
  - intros M H1 H2. split; [apply set_bit_ok; [apply offset_range|done]|done].
  - intros x Hx. rewrite (proj1 (Hview x Hx)). destruct (Z.eqb_spec x a) as [->|]; [done|]. by apply (ok_pages _ Hs).
Qed.

Lemma node_byte_bits a s :
  marks_ok s -> 0 <= a -> is_Some (map_of s a) ->
  bits s (marked s) (fun x => (x =? a) || starts s x) (with_map (a / 2 ^ 20) (node_bit a) s).
Proof.
  intros Hs Ha Hmap. assert (forall x, 0 <= x -> _) as Hview by exact (fun x => view_node_bit a s x Hmap Ha).
  constructor; [|by apply only_bits_same|by apply Hview|by apply Hview].
  apply only_bits_ok; [done|done|..].
  - intros M H1 H2. split; [done|apply set_bit_ok; [apply offset_range|done]].
  - intros x Hx. rewrite (proj2 (Hview x Hx)). by apply (ok_pages _ Hs).
Qed.

Lemma unmark_byte_bits a s :
  marks_ok s -> 0 <= a -> is_Some (map_of s a) ->
  bits s (fun x => negb (x =? a) && marked s x) (fun x => negb (x =? a) && starts s x) (with_map (a / 2 ^ 20) (unmark_bit a) s).
Proof.
  intros Hs Ha Hmap. assert (forall x, 0 <= x -> _) as Hview by exact (fun x => view_unmark_bit a s x Hmap Ha).
  constructor; [|by apply only_bits_same|by apply Hview|by apply Hview].
  apply only_bits_ok; [done|done|..].
  - intros M H1 H2. split; apply clear_bit_ok; try done; apply offset_range.
  - intros x Hx. rewrite (proj1 (Hview x Hx)). intros E. apply andb_prop in E as [_ E]. by apply (ok_pages _ Hs).
Qed.

Lemma mark_loop_correct fuel : forall m addr len s,
  marks_ok s -> 0 <= addr -> 0 <= len -> addr + len < 2 ^ 32 -> 0 < addr + len -> (Z.to_nat len < fuel)%nat ->
  (0 < len -> m = addr / 2 ^ 20) ->
  (forall a, addr <= a < addr + len -> marked s a = false /\ protected s a = true) ->
  (offset (addr + len) = 0 -> is_Some (map_of s (addr + len))) ->
  wp (mark_loop fuel m addr (addr + len - 1)) s
     (fun _ s' => bits s (fun a => in_range addr len a || marked s a) (starts s) s').
Proof.
  induction fuel as [|fuel IH]; [lia|]. intros m addr len s Hs Ha Hl Hlt Hpos Hfuel Hm Hin Hend. cbn [mark_loop].
  destruct (Z.ltb_spec (addr + len - 1) addr).
  { wp_step. eapply bits_ext; [by apply bits_refl| |done]. intros a _. simpl.
    assert (in_range addr len a = false) as -> by (unfold in_range; zbool; simpl; done || lia). done. }
  rewrite Hm by lia. destruct (Hin addr ltac:(lia)) as [Hm0 Hp0]. pose proof (protected_has s addr Hp0) as Hmap.
  destruct (map_of_has s addr Hmap) as (M & E1 & E2 & E3).
  wp_step. rewrite land_CGRMASK. rewrite <- E3 at 1. eapply quiet_wp; [by apply (subpage_bit_quiet s s addr)|]. intros s1 Hss.
  wp_step. wp_step; [by rewrite Hm0|]. wp_step. pose proof (bits_seen _ _ _ _ _ (bits_refl s Hs) Hss) as Hb1.
  assert (forall x, 0 <= x -> protected s1 x = protected s x) as Hp1 by (intros x _; apply same_pages_protected, Hb1).
  assert (is_Some (map_of s1 addr)) as Hmap1 by (by apply (same_pages_has _ _ _ (bt_same _ _ _ _ Hb1))).
  destruct (map_of_has s1 addr Hmap1) as (M1 & F1 & F2 & F3). apply wp_upd_mpmap; [by exists M1|].
  set (s2 := with_map (addr / 2 ^ 20) (mark_bit addr) s1). change (with_map _ _ s1) with s2.
  assert (bits s1 (fun x => (x =? addr) || marked s1 x) (starts s1) s2) as Hb2
    by (apply mark_byte_bits; [apply Hb1|done|rewrite Hp1; done]).
  assert (bits s (fun x => (x =? addr) || marked s x) (starts s) s2) as Hb3.
  { eapply bits_trans; [eapply bits_ext; [exact Hb1|..]|eapply bits_ext; [exact Hb2|..]]; intros a Haa; simpl;
      rewrite ?(bt_marked _ _ _ _ Hb1), ?(bt_starts _ _ _ _ Hb1) by done; done. }
  assert (forall x, is_Some (map_of s2 x) <-> is_Some (map_of s x)) as Hmaps by (intros x; apply same_pages_has, Hb3).
  wp_step. eapply quiet_wp; [apply quiet_next_byte; [apply Hb3|done|lia|]|].
  { intros E. apply Hmaps. destruct (Z.eq_dec len 1) as [->|]; [by apply Hend|]. eapply protected_has, Hin. lia. }
  intros s3 Hss3. pose proof (bits_seen _ _ _ _ _ Hb3 Hss3) as Hb4. rewrite u32_small by lia.
  replace (addr + len - 1) with (addr + 1 + (len - 1) - 1) by lia.
  eapply wp_mono; [apply (IH _ (addr + 1) (len - 1)); [apply Hb4|lia|lia|lia|lia|lia|done|..]|].
  - intros a Haa. rewrite (bt_marked _ _ _ _ Hb4), (same_pages_protected _ _ _ (bt_same _ _ _ _ Hb4)) by lia.
    destruct (Hin a ltac:(lia)) as [-> ->]. zbool; simpl; done || lia.
  - replace (addr + 1 + (len - 1)) with (addr + len) by lia. intros E.
    apply (same_pages_has _ _ _ (bt_same _ _ _ _ Hb4)). by apply Hend.
  - intros [] s4 Hb5. eapply bits_trans; [eapply bits_ext; [exact Hb4|..]|eapply bits_ext; [exact Hb5|..]]; intros a Haa; simpl;
      rewrite ?(bt_marked _ _ _ _ Hb4), ?(bt_starts _ _ _ _ Hb4) by done; try done.
    rewrite (in_range_first addr len a) by lia. by destruct (a =? addr), (in_range _ _ a), (marked s a).
Qed.

Lemma unmark_loop_correct fuel : forall m addr len s,
  marks_ok s -> 0 <= addr -> 0 <= len -> addr + len < 2 ^ 32 -> 0 < addr + len -> (Z.to_nat len < fuel)%nat ->
  (0 < len -> m = addr / 2 ^ 20 /\ is_Some (map_of s addr)) ->
  (forall a, addr < a <= addr + len -> offset a = 0 -> is_Some (map_of s a)) ->
  wp (unmark_loop fuel m addr (addr + len - 1)) s
     (fun _ s' => bits s (fun a => negb (in_range addr len a) && marked s a) (fun a => negb (in_range addr len a) && starts s a) s').
Proof.
  induction fuel as [|fuel IH]; [lia|]. intros m addr len s Hs Ha Hl Hlt Hpos Hfuel Hm Hmaps. cbn [unmark_loop].
  destruct (Z.ltb_spec (addr + len - 1) addr).
  { wp_step. eapply bits_ext; [by apply bits_refl|..]; intros a _; simpl.
    all: assert (in_range addr len a = false) as -> by (unfold in_range; zbool; simpl; done || lia); done. }
  destruct (Hm ltac:(lia)) as [-> Hmap]. destruct (map_of_has s addr Hmap) as (M & E1 & E2 & E3).
  wp_step. rewrite land_CGRMASK. apply wp_upd_mpmap; [by exists M|].
  set (s1 := with_map (addr / 2 ^ 20) (unmark_bit addr) s). change (with_map _ _ s) with s1.
  pose proof (unmark_byte_bits addr s Hs Ha Hmap) as Hb1. fold s1 in Hb1.
  assert (forall x, is_Some (map_of s1 x) <-> is_Some (map_of s x)) as Hmaps1 by (intros x; apply same_pages_has, Hb1).
  wp_step. eapply quiet_wp; [apply quiet_next_byte; [apply Hb1|done|lia|]|].
  { intros E. apply Hmaps1, Hmaps; [lia|done]. }
  intros s2 Hss2. pose proof (bits_seen _ _ _ _ _ Hb1 Hss2) as Hb2. rewrite u32_small by lia.
  replace (addr + len - 1) with (addr + 1 + (len - 1) - 1) by lia.
  assert (forall x, is_Some (map_of s2 x) <-> is_Some (map_of s x)) as Hmaps2 by (intros x; apply same_pages_has, Hb2).
  eapply wp_mono; [apply (IH _ (addr + 1) (len - 1)); [apply Hb2|lia|lia|lia|lia|lia|..]|].
  - intros Hl'. split; [done|]. apply Hmaps2. destruct (Z.eq_dec (offset (addr + 1)) 0) as [E|E]; [by apply Hmaps; [lia|]|].
    unfold map_of. by rewrite next_mega.
  - intros a Haa E. apply Hmaps2, Hmaps; [lia|done].
  - intros [] s3 Hb3. eapply bits_trans; [eapply bits_ext; [exact Hb2|..]|eapply bits_ext; [exact Hb3|..]]; intros a Haa; simpl;
      rewrite ?(bt_marked _ _ _ _ Hb2), ?(bt_starts _ _ _ _ Hb2) by done; try done.
    all: rewrite (in_range_first addr len a) by lia; by destruct (a =? addr), (in_range _ _ a), (marked s a), (starts s a).
Qed.

(** ** [e_markpage] *)

Record block_added s (addr len : Z) s' : Prop := {
  ba_ok : marks_ok s';
  ba_blocks : blocks_ok s';
  ba_marked a : 0 <= a -> marked s' a = in_range addr len a || marked s a;
  ba_starts a : 0 <= a -> starts s' a = (a =? addr) || starts s a;
  ba_copy a : 0 <= a ->
    copy_of s' a = if (page_start addr <=? a) && (a <? page_end addr len) && negb (protected s a)
                   then cached (clist s) (page_start a) else copy_of s a;
  ba_protected a : page_start addr <= a < page_end addr len -> 0 <= a -> protected s' a = true;
  ba_bytes a : guest_byte (guest s') a = guest_byte (guest s) a;
  ba_maps a : is_Some (map_of s a) -> is_Some (map_of s' a);
  ba_clist : clist_sub (clist s) (clist s');
}.

Lemma clist_sub_drop all l : clist_sub l (map (drop_ent all) l).
Proof using Type.
  split; [by rewrite length_map|]. intros a n p Hin. apply list_elem_of_In, in_map_iff in Hin as ([b k [q|]] & E & Hin); [|done].
  apply list_elem_of_In in Hin. unfold drop_ent in E. cbn [ce_data] in E. exists k. destruct all; [done|]. cbv zeta in E.
  destruct (0 <? _); [|done]. injection E as <- _ <-. done.
Qed.

Lemma DropC_grown s all : marks_ok s -> wp (DropC all) s (fun _ s' => exists l, s' = s <| clist := l |> /\ clist_sub (clist s) l).
Proof.
  intros _. unfold DropC. wp_step. eexists. split; [done|]. eapply clist_sub_trans; [apply clist_sub_drop|apply clist_sub_trim].
Qed.

Lemma markpage_correct addr len s :
  marks_ok s -> blocks_ok s -> 0 <= addr -> 0 < len -> addr + len <= ADDR_END ->
  fetched_range s addr len -> (forall a, addr <= a < addr + len -> marked s a = false) ->
  (offset (addr + len) = 0 -> is_Some (map_of s (addr + len))) ->
  wp (e_markpage addr len) s (fun _ s' => block_added s addr len s').
Proof.
  intros Hs Hb Ha Hl Hend Hfetch Hnone Hlast. unfold e_markpage, e_mprotect. wp_step.
  wp_step; [unfold truth; zbool; simpl; done || lia|]. wp_step. wp_step.
  eapply wp_mono; [by apply do_mprotect_correct|]. intros [] s1 Had.
  eapply wp_mono; [apply (DropC_grown s1); apply Had|]. intros [] s2 (l & E2 & El).
  destruct (page_end_spec addr len Hl) as (Hpe1 & Hpe2 & Hpe3). destruct (page_start_spec addr) as [Hps1 Hps2].
  assert (forall a, 0 <= a -> page_start addr <= a < page_end addr len -> protected s1 a = true) as Hprot.
  { intros a Haa Hr. unfold protected. rewrite (ad_copy _ _ _ _ Had) by done. destruct (protected s a) eqn:Ep.
    - rewrite andb_false_r. exact Ep.
    - replace ((page_start addr <=? a) && (a <? page_end addr len) && negb false) with true by (zbool; simpl; done || lia).
      destruct (Hfetch (page_start a)) as [p Hp]; [apply page_start_spec| |by rewrite (protected_page s _ a)
        by (apply page_start_page, aligned_start, page_start_spec)|by rewrite Hp].
      split; [apply page_start_le; [done|lia]|]. revert Hr Hl. unfold page_end, page_start, HOST_PAGE_SIZE. clear. Z.to_euclidean_division_equations. lia. }
  assert (marks_ok s2) as Hok2 by (rewrite E2; destruct Had as [[] _ _ _ _ _ _ _ _]; by constructor).
  assert (forall a, protected s2 a = protected s1 a) as Ep2 by (intros a; by rewrite E2).
  assert (forall a, marked s2 a = marked s a /\ starts s2 a = starts s a) as Ev2.
  { intros a. rewrite E2. split; [apply (ad_marked _ _ _ _ Had)|apply (ad_starts _ _ _ _ Had)]. }
  assert (protected s2 addr = true) as Hp0 by (rewrite Ep2; apply Hprot; lia).
  pose proof (protected_has s2 addr Hp0) as Hmap. destruct (map_of_has s2 addr Hmap) as (M & F1 & F2 & F3).
  wp_step. eapply quiet_wp; [by apply quiet_FindM|]. intros s3 Hss3. rewrite F2. cbn [fmap option_fmap option_map]. rewrite F3.
  pose proof (bits_seen _ _ _ _ _ (bits_refl s2 Hok2) Hss3) as Hb3.
  assert (is_Some (map_of s3 addr)) as Hmap3 by (by apply (same_pages_has _ _ _ (bt_same _ _ _ _ Hb3))).
  wp_step. rewrite land_CGRMASK. destruct (map_of_has s3 addr Hmap3) as (M3 & G1 & _ & _). apply wp_upd_mpmap; [by exists M3|].
  set (s4 := with_map (addr / 2 ^ 20) (node_bit addr) s3). change (with_map _ _ s3) with s4.
  pose proof (node_byte_bits addr s3 (bt_ok _ _ _ _ Hb3) Ha Hmap3) as Hb4. fold s4 in Hb4.
  assert (bits s2 (marked s) (fun a => (a =? addr) || starts s a) s4) as Hb5.
  { eapply bits_trans; [eapply bits_ext; [exact Hb3|..]|eapply bits_ext; [exact Hb4|..]]; intros a Haa; simpl;
      rewrite ?(bt_marked _ _ _ _ Hb3), ?(bt_starts _ _ _ _ Hb3) by done; destruct (Ev2 a) as [? ?]; congruence. }
  rewrite u32_small by (unfold ADDR_END in *; lia).
  eapply wp_mono; [apply mark_loop_correct; [apply Hb5|lia|lia|unfold ADDR_END in *; lia|lia|lia|done|..]|].
  - intros a Haa. rewrite (bt_marked _ _ _ _ Hb5) by lia. rewrite (same_pages_protected _ _ _ (bt_same _ _ _ _ Hb5)), Ep2.
    split; [by apply Hnone|]. apply Hprot; lia.
  - intros E. apply (same_pages_has _ _ _ (bt_same _ _ _ _ Hb5)). rewrite E2. by apply (ad_maps _ _ _ _ Had), Hlast.
  - intros [] s5 Hb6.
    assert (forall a, copy_of s5 a = copy_of s1 a) as Hcopy.
    { intros a. rewrite (same_copy _ _ (bt_same _ _ _ _ Hb6)), (same_copy _ _ (bt_same _ _ _ _ Hb5)). by rewrite E2. }
    assert (forall a, 0 <= a -> marked s5 a = in_range addr len a || marked s a) as Hmk.
    { intros a Haa. by rewrite (bt_marked _ _ _ _ Hb6), (bt_marked _ _ _ _ Hb5). }
    assert (forall a, 0 <= a -> starts s5 a = (a =? addr) || starts s a) as Hst.
    { intros a Haa. by rewrite (bt_starts _ _ _ _ Hb6), (bt_starts _ _ _ _ Hb5). }
    constructor; [apply Hb6| |done|done|..].
    + intros a Haa. rewrite Hmk, Hst by done. destruct (Z.eqb_spec a addr) as [->|]; simpl.
      * intros _. apply orb_true_intro. left. apply in_range_spec. lia.
      * intros E. apply orb_true_intro. right. by apply Hb.
    + intros a Haa. rewrite Hcopy. by apply (ad_copy _ _ _ _ Had).
    + intros a Haa Hr. unfold protected. rewrite Hcopy. by apply Hprot.
    + intros a. rewrite (same_guest _ _ (bt_same _ _ _ _ Hb6)), (same_guest _ _ (bt_same _ _ _ _ Hb5)), E2. apply (ad_bytes _ _ _ _ Had).
    + intros a Hm. apply (same_pages_has _ _ _ (bt_same _ _ _ _ Hb6)), (same_pages_has _ _ _ (bt_same _ _ _ _ Hb5)). rewrite E2.
      by apply (ad_maps _ _ _ _ Had).
    + rewrite (same_clist _ _ (bt_same _ _ _ _ Hb6)), (same_clist _ _ (bt_same _ _ _ _ Hb5)), E2. eapply clist_sub_trans; [apply Had|exact El].
Qed.

(** ** [e_unmarkpage] *)

(** A byte of the page of [a] is marked. *)
Definition page_marked s (a : Z) : Prop := exists x, 0 <= x /\ page_start x = page_start a /\ marked s x = true.

(** Nothing new is copied, and the cache is the same. *)
Definition copies_sub s s' : Prop :=
  clist s' = clist s /\ forall a p, 0 <= a -> copy_of s' a = Some p -> copy_of s a = Some p.

Record block_removed s (addr len : Z) s' : Prop := {
  br_ok : marks_ok s';
  br_blocks : blocks_ok s';
  br_marked a : 0 <= a -> marked s' a = negb (in_range addr len a) && marked s a;
  br_starts a : 0 <= a -> starts s' a = negb (in_range addr len a) && starts s a;
  br_copy a : 0 <= a -> ~ (page_start addr <= a < page_end addr len) \/ page_marked s' a -> copy_of s' a = copy_of s a;
  br_free a : 0 <= a -> page_start addr <= a < page_end addr len -> ~ page_marked s' a -> copy_of s' a = None;
  br_bytes a : guest_byte (guest s') a = guest_byte (guest s) a;
  br_keep : copies_sub s s';
}.

Lemma copies_sub_refl s : copies_sub s s.
Proof using Type. done. Qed.

Lemma copies_sub_trans s s' s'' : copies_sub s s' -> copies_sub s' s'' -> copies_sub s s''.
Proof using Type. intros [E1 H1] [E2 H2]. split; [congruence|]. intros a p Ha E. by apply H1, H2. Qed.

Lemma copies_sub_seen s s' : seen s s' -> copies_sub s s'.
Proof using Type. intros (l & -> & _). by split. Qed.

(** Within a page the answer is exact. *)
Lemma page_answer s lo hi b :
  page_start lo = page_start (hi - 1) -> mark_answer s lo hi b -> b = true <-> some_in s lo hi.
Proof.
  intros E Hb. unfold mark_answer in Hb. destruct b; [done|]. split; [done|]. intros (x & Hx & Hm).
  destruct (Hb x Hx Hm) as (y & Hy & Hmap). destruct (marked_has s x Hm) as [M HM]. unfold map_of in *.
  assert (page_start y = page_start x) as Ey.
  { revert E Hx Hy. unfold page_start, HOST_PAGE_SIZE. clear. Z.to_euclidean_division_equations. lia. }
  apply page_start_page in Ey. destruct (page_same _ _ Ey) as [Ey' _]. rewrite Ey' in Hmap. congruence.
Qed.

(** [abeg] and [aend] after the checks of the first and the last page: no mark
    between them, one on every other page of the range. *)
Definition free_pages s (addr len b e : Z) : Prop :=
  aligned b /\ aligned e /\ page_start addr <= b /\ e <= page_end addr len /\
  (forall x, b <= x < e -> marked s x = false) /\
  (forall a, 0 <= a -> page_start addr <= a < page_end addr len -> ~ (b <= a < e) -> page_marked s a).

Lemma first_page s addr len (b : bool) :
  0 <= addr -> 0 < len -> (forall x, addr <= x < addr + len -> marked s x = false) ->
  (b = true <-> some_in s (page_start addr) addr) ->
  let abeg := if b then page_start addr + HOST_PAGE_SIZE else page_start addr in
  aligned abeg /\ page_start addr <= abeg /\ (forall x, abeg <= x < addr + len -> marked s x = false) /\
  (forall a, page_start addr <= a < abeg -> page_marked s a).
Proof.
  intros Ha Hl Hnone Hb. destruct (page_start_spec addr) as [Hp1 Hp2]. pose proof (aligned_next _ Hp1) as Hp3.
  assert (0 <= page_start addr) by (apply page_start_le; done).
  destruct b; (split; [done|]); (split; [unfold HOST_PAGE_SIZE; lia|]); split.
  - intros x Hx. apply Hnone. lia.
  - intros a Haa. destruct (proj1 Hb eq_refl) as (x & Hx & Hm). exists x. split; [lia|]. split; [|done].
    apply page_start_page. apply in_page in Haa; [|done]. rewrite Haa. apply in_page; [done|lia].
  - intros x Hx. destruct (Z.lt_ge_cases x addr); [|apply Hnone; lia].
    apply (none_some s (page_start addr) addr false Hb eq_refl). lia.
  - intros a Haa. lia.
Qed.

Lemma last_page s addr len (b : bool) :
  0 <= addr -> 0 < len -> (forall x, addr <= x < addr + len -> marked s x = false) ->
  (b = true <-> some_in s (addr + len) (page_end addr len)) ->
  let aend := if b then page_end addr len - HOST_PAGE_SIZE else page_end addr len in
  aligned aend /\ aend <= page_end addr len /\ (forall x, addr <= x < aend -> marked s x = false) /\
  (forall a, aend <= a < page_end addr len -> page_marked s a).
Proof.
  intros Ha Hl Hnone Hb. destruct (page_end_spec addr len Hl) as (Hp1 & Hp2 & Hp3).
  assert (aligned (page_end addr len - HOST_PAGE_SIZE)) as Hp4.
  { unfold page_end. replace (_ - _) with (page_start (addr + len - 1)) by lia. apply page_start_spec. }
  destruct b; (split; [done|]); (split; [unfold HOST_PAGE_SIZE; lia|]); split.
  - intros x Hx. apply Hnone. lia.
  - intros a Haa. destruct (proj1 Hb eq_refl) as (x & Hx & Hm). exists x. split; [lia|]. split; [|done].
    apply page_start_page. assert (a / HOST_PAGE_SIZE = (page_end addr len - HOST_PAGE_SIZE) / HOST_PAGE_SIZE) as ->
      by (apply in_page; [done|lia]). apply in_page; [done|lia].
  - intros x Hx. destruct (Z.lt_ge_cases x (addr + len)); [apply Hnone; lia|].
    apply (none_some s (addr + len) (page_end addr len) false Hb eq_refl). lia.
  - intros a Haa. lia.
Qed.

Lemma some_in_seen s s' lo hi : (forall x, marked s' x = marked s x) -> some_in s' lo hi <-> some_in s lo hi.
Proof. intros Hm. unfold some_in. by setoid_rewrite Hm. Qed.

Lemma bits_blocks s mk st s' : bits s mk st s' -> (forall a, 0 <= a -> st a = true -> mk a = true) -> blocks_ok s'.
Proof. intros Hb Hst a Ha. rewrite (bt_marked _ _ _ _ Hb), (bt_starts _ _ _ _ Hb) by done. by apply Hst. Qed.

(** The pages without marks are given up. *)
Lemma unprotect_free addr len b e s s4 :
  bits s (fun a => negb (in_range addr len a) && marked s a) (fun a => negb (in_range addr len a) && starts s a) s4 ->
  blocks_ok s -> free_pages s4 addr len b e -> 0 <= b -> e <= ADDR_END ->
  wp (if b <? e then e_munprotect b (e - b) else ret tt) s4 (fun _ s' => block_removed s addr len s').
Proof.
  intros Hbits Hb (Hb1 & He1 & Hlo & Hhi & Hfree & Hrest) Hb0 Hend.
  assert (blocks_ok s4) as Hb4.
  { eapply bits_blocks; [exact Hbits|]. intros a Ha. simpl. destruct (in_range addr len a); simpl; [done|]. by apply Hb. }
  eapply (wp_mono _ _ (fun _ s' => removed s4 b (Z.max b e) s')).
  { destruct (Z.ltb_spec b e).
    - assert (page_end b (e - b) = e) as Epe.
      { revert He1. unfold page_end, aligned, page_start, HOST_PAGE_SIZE. clear. Z.to_euclidean_division_equations. lia. }
      eapply wp_mono; [apply e_munprotect_correct; [apply Hbits|done|done|lia|lia|]|].
      + rewrite aligned_start, Epe by done. exact Hfree.
      + intros [] s5 Hrm. rewrite aligned_start, Epe in Hrm by done. by rewrite Z.max_r by lia.
    - wp_step. rewrite Z.max_l by lia. apply removed_refl; [apply Hbits|done]. }
  intros [] s5 Hrm.
  assert (forall a, 0 <= a -> marked s5 a = marked s4 a) as Em by (intros a Ha; apply Hrm; done).
  assert (forall a, page_marked s5 a <-> page_marked s4 a) as Epm.
  { intros a. split; intros (x & Hx & E & Hm); exists x; [rewrite <- Em|rewrite Em]; done. }
  assert (forall a, b <= a < e -> ~ page_marked s4 a) as Hnm.
  { intros a Ha (x & Hx & E & Hm). rewrite Hfree in Hm; [done|]. revert E Ha Hb1 He1. unfold aligned, page_start, HOST_PAGE_SIZE. clear.
    Z.to_euclidean_division_equations. lia. }
  assert (forall a, copy_of s4 a = copy_of s a) as Ec by (apply Hbits).
  constructor; [apply Hrm|apply Hrm|..].
  - intros a Ha. rewrite Em by done. by apply Hbits.
  - intros a Ha. rewrite (rm_starts _ _ _ _ Hrm) by done. by apply Hbits.
  - intros a Ha Hor. rewrite (rm_copy _ _ _ _ Hrm), Ec by done. rewrite Epm in Hor.
    destruct ((b <=? a) && (a <? Z.max b e)) eqn:E; [|done]. assert (b <= a < e) as Hr by (revert E; zbool; simpl; done || lia).
    destruct Hor as [Hn|Hn]; [lia|]. by apply Hnm in Hr.
  - intros a Haa Ha Hn. rewrite Epm in Hn. rewrite (rm_copy _ _ _ _ Hrm) by done.
    destruct ((b <=? a) && (a <? Z.max b e)) eqn:E; [done|]. exfalso. apply Hn, Hrest; [done|done|].
    revert E. zbool; simpl; done || lia.
  - intros a. rewrite (rm_bytes _ _ _ _ Hrm). by rewrite (same_guest _ _ (bt_same _ _ _ _ Hbits)).
  - split; [rewrite (rm_clist _ _ _ _ Hrm); apply Hbits|]. intros a p Ha. rewrite (rm_copy _ _ _ _ Hrm), Ec by done.
    by destruct ((b <=? a) && (a <? Z.max b e)).
Qed.

Lemma unmarkpage_correct addr len s :
  marks_ok s -> blocks_ok s -> 0 <= addr -> 0 < len -> addr + len + HOST_PAGE_SIZE <= ADDR_END ->
  is_Some (map_of s addr) -> (forall a, addr < a <= addr + len -> offset a = 0 -> is_Some (map_of s a)) ->
  wp (e_unmarkpage addr len) s (fun r s' => r = true /\ block_removed s addr len s').
Proof.
  intros Hs Hb Ha Hl Hend Hmap Hmaps. unfold ADDR_END in Hend.
  destruct (page_end_spec addr len Hl) as (Hp1 & Hp2 & Hp3). destruct (page_start_spec addr) as [Hp4 Hp5].
  assert (0 <= page_start addr) as Hp6 by (apply page_start_le; done).
  destruct (map_of_has s addr Hmap) as (M & E1 & E2 & E3). unfold e_unmarkpage.
  wp_step. eapply quiet_wp; [by apply quiet_FindM|]. intros s1 Hss1. rewrite E2. cbn [fmap option_fmap option_map]. rewrite E3.
  replace (len =? 0) with false by (symmetry; apply Z.eqb_neq; lia). rewrite u32_small by (unfold HOST_PAGE_SIZE in *; lia).
  pose proof (bits_seen _ _ _ _ _ (bits_refl s Hs) Hss1) as Hb1.
  wp_step. eapply wp_mono; [apply unmark_loop_correct; [apply Hb1|done|lia|unfold HOST_PAGE_SIZE in *; lia|lia|lia|..]|].
  { intros _. split; [done|]. by apply (same_pages_has _ _ _ (bt_same _ _ _ _ Hb1)). }
  { intros a Haa E. apply (same_pages_has _ _ _ (bt_same _ _ _ _ Hb1)). by apply Hmaps. }
  intros [] s2 Hb2'.
  assert (bits s (fun a => negb (in_range addr len a) && marked s a) (fun a => negb (in_range addr len a) && starts s a) s2) as Hb2.
  { eapply bits_trans; [eapply bits_ext; [exact Hb1|..]|eapply bits_ext; [exact Hb2'|..]]; intros a Haa; simpl;
      rewrite ?(bt_marked _ _ _ _ Hb1), ?(bt_starts _ _ _ _ Hb1) by done; done. }
  assert (forall x, addr <= x < addr + len -> marked s2 x = false) as Hnone.
  { intros x Hx. rewrite (bt_marked _ _ _ _ Hb2) by lia. by rewrite (proj2 (in_range_spec addr len x) Hx). }
  assert (page_start (u32 (addr + len + HOST_PAGE_SIZE - 1)) = page_end addr len) as ->.
  { rewrite u32_small by (unfold HOST_PAGE_SIZE in *; lia). unfold page_end, page_start, HOST_PAGE_SIZE. clear.
    Z.to_euclidean_division_equations. lia. }
  wp_step. eapply (wp_mono _ _ (fun r s3 => seen s2 s3 /\ exists b, r = (if b : bool then page_start addr + HOST_PAGE_SIZE else page_start addr) /\
    (b = true <-> some_in s2 (page_start addr) addr))).
  { destruct (Z.eqb_spec (page_start addr) addr) as [E|E].
    - wp_step. split; [apply seen_refl, Hb2|]. exists false. split; [done|]. split; [done|]. intros (x & Hx & _). lia.
    - wp_step. eapply wp_mono; [apply e_querymark_finds; [apply Hb2|done|lia|unfold HOST_PAGE_SIZE in *; lia]|].
      intros b s3 [Hans Hss]. wp_step. split; [done|]. exists b. split; [done|].
      replace (page_start addr + (addr - page_start addr)) with addr in Hans by lia. apply page_answer; [|done].
      apply page_start_page. transitivity (page_start addr / HOST_PAGE_SIZE); [done|]. symmetry. apply in_page; [done|lia]. }
  intros abeg s3 (Hss3 & b1 & -> & Hb1a). pose proof (seen_ok _ _ Hss3 (bt_ok _ _ _ _ Hb2)) as Hok3.
  assert (forall x, marked s3 x = marked s2 x) as Em3 by (intros x; by apply seen_view).
  wp_step. eapply (wp_mono _ _ (fun r s4 => seen s3 s4 /\ exists b, r = (if b : bool then page_end addr len - HOST_PAGE_SIZE else page_end addr len) /\
    (b = true <-> some_in s3 (addr + len) (page_end addr len)))).
  { destruct (Z.eqb_spec (page_end addr len) (addr + len)) as [E|E].
    - wp_step. split; [by apply seen_refl|]. exists false. split; [done|]. split; [done|]. intros (x & Hx & _). lia.
    - rewrite u32_small by (unfold HOST_PAGE_SIZE in *; lia).
      wp_step. eapply wp_mono; [apply e_querymark_finds; [done|lia|lia|unfold HOST_PAGE_SIZE in *; lia]|].
      intros b s4 [Hans Hss]. wp_step. split; [done|]. exists b. split; [done|].
      replace (addr + len + (page_end addr len - (addr + len))) with (page_end addr len) in Hans by lia. apply page_answer; [|done].
      revert E Hp1 Hp2. unfold page_end, aligned, page_start, HOST_PAGE_SIZE. clear. Z.to_euclidean_division_equations. lia. }
  intros aend s4 (Hss4 & b2 & -> & Hb2a). rewrite (some_in_seen _ _ _ _ Em3) in Hb2a.
  destruct (first_page s2 addr len b1 Ha Hl Hnone Hb1a) as (Ha1 & Ha2 & Ha3 & Ha4).
  destruct (last_page s2 addr len b2 Ha Hl Hnone Hb2a) as (He1 & He2 & He3 & He4).
  set (abeg := if b1 then _ else _) in *. set (aend := if b2 then _ else _) in *.
  assert (forall x, marked s4 x = marked s2 x) as Em4 by (intros x; rewrite <- Em3; by apply seen_view).
  wp_step. eapply wp_mono; [apply (unprotect_free addr len abeg aend s); [by eapply bits_seen, Hss4; eapply bits_seen|done| |lia|unfold HOST_PAGE_SIZE, ADDR_END in *; lia]|].
  - split; [done|]. split; [done|]. split; [done|]. split; [done|]. split.
    + intros x Hx. rewrite Em4. destruct (Z.lt_ge_cases x (addr + len)); [apply Ha3; lia|apply He3; lia].
    + intros a Haa Hr Hn. assert (page_marked s2 a) as (x & Hx & E & Hm).
      { destruct (Z.lt_ge_cases a abeg); [apply Ha4; lia|apply He4; lia]. }
      exists x. split; [done|]. split; [done|]. by rewrite Em4.
  - intros [] s5 Hbr. by wp_step.
Qed.

(** C19: e_markpage of an unmarked fetched block (when the block ends on a
    megabyte boundary, the next megabyte must have a map already: without one
    the code fails its assertion) marks exactly its bytes and its start,
    protects exactly the pages it touches, gives newly protected pages their
    fetched copies, changes no byte of memory and keeps the maps consistent. *)
Theorem e_markpage_correct addr len s :
  marks_ok s -> blocks_ok s -> 0 <= addr -> 0 < len -> addr + len <= ADDR_END ->
  fetched_range s addr len -> (forall a, addr <= a < addr + len -> marked s a = false) ->
  (offset (addr + len) = 0 -> is_Some (map_of s (addr + len))) ->
  wp (e_markpage addr len) s (fun _ s' => block_added s addr len s').
Proof. apply markpage_correct. Qed.

(** C20: On a range with a map in every megabyte from its start to the address
    behind it, e_unmarkpage removes exactly the marks and starts in the range,
    unprotects exactly the pages of the range that have no mark left, and
    keeps every other copy and the maps consistent. *)
Theorem e_unmarkpage_correct addr len s :
  marks_ok s -> blocks_ok s -> 0 <= addr -> 0 < len -> addr + len + HOST_PAGE_SIZE <= ADDR_END ->
  is_Some (map_of s addr) -> (forall a, addr < a <= addr + len -> offset a = 0 -> is_Some (map_of s a)) ->
  wp (e_unmarkpage addr len) s (fun r s' => r = true /\ block_removed s addr len s').
Proof. apply unmarkpage_correct. Qed.

Lemma copy_roundtrip addr len s s1 s2 a :
  block_added s addr len s1 -> block_removed s1 addr len s2 -> 0 <= a ->
  (page_marked s a -> page_marked s2 a) -> (page_marked s a -> protected s a = true) ->
  (page_marked s2 a -> page_marked s a) ->
  ~ (page_start addr <= a < page_end addr len) \/ page_marked s a \/ protected s a = false -> copy_of s2 a = copy_of s a.
Proof.
  intros B1 B2 Ha Hpm Hpp Hmp Hor. pose proof (ba_copy _ _ _ _ B1 a Ha) as Ec.
  destruct ((page_start addr <=? a) && (a <? page_end addr len)) eqn:Er; simpl in Ec.
  - assert (page_start addr <= a < page_end addr len) as Hr by (revert Er; zbool; simpl; done || lia).
    destruct Hor as [Hn|[Hm|Hp]]; [done|..].
    + rewrite (br_copy _ _ _ _ B2) by (try done; right; by apply Hpm). by rewrite Ec, Hpp.
    + assert (copy_of s a = None) as En by (unfold protected in Hp; by destruct (copy_of s a)).
      rewrite En. apply (br_free _ _ _ _ B2); [done|done|]. intros Hm. rewrite Hpp in Hp; [done|]. by apply Hmp.
  - rewrite (br_copy _ _ _ _ B2); [done|done|]. left. revert Er. zbool; simpl; done || lia.
Qed.

(** C21: Marking an unmarked fetched block (with a map behind it when it ends
    on a megabyte boundary, which e_markpage asserts) and unmarking it again
    completes and restores all marks, all block starts, all memory and the
    copies of all pages that were unprotected or have a mark. *)
Theorem mark_unmark_roundtrip addr len s :
  marks_ok s -> blocks_ok s -> 0 <= addr -> 0 < len -> addr + len + HOST_PAGE_SIZE <= ADDR_END ->
  fetched_range s addr len -> (forall a, addr <= a < addr + len -> marked s a = false) ->
  (offset (addr + len) = 0 -> is_Some (map_of s (addr + len))) ->
  wp (e_markpage addr len ;; e_unmarkpage addr len) s (fun r s' => r = true /\ marks_ok s' /\ forall a, 0 <= a ->
    marked s' a = marked s a /\ starts s' a = starts s a /\ guest_byte (guest s') a = guest_byte (guest s) a /\
    (~ (page_start addr <= a < page_end addr len) \/ page_marked s a \/ protected s a = false -> copy_of s' a = copy_of s a)).
Proof.
  intros Hs Hb Ha Hl Hend Hfetch Hnone Hlast.
  assert (addr + len <= ADDR_END) as Hend' by (unfold HOST_PAGE_SIZE in Hend; lia).
  assert (forall a, 0 <= a -> starts s a = true -> in_range addr len a = false) as Hst.
  { intros a Haa Es. destruct (in_range addr len a) eqn:Ein; [|done]. apply in_range_spec in Ein.
    rewrite <- (Hnone a Ein). symmetry. by apply Hb. }
  wp_step. eapply wp_mono; [apply (markpage_correct addr len s); done|]. intros [] s1 B1.
  assert (forall a, 0 <= a -> in_range addr len a = true -> is_Some (map_of s1 a)) as Hmap.
  { intros a Haa Hr. apply marked_has. by rewrite (ba_marked _ _ _ _ B1), Hr. }
  eapply wp_mono; [apply (unmarkpage_correct addr len s1); [apply B1|apply B1|done|done|done|..]|].
  - apply Hmap; [done|]. apply in_range_spec. lia.
  - intros a Haa E. destruct (Z.eq_dec a (addr + len)) as [->|]; [by apply (ba_maps _ _ _ _ B1), Hlast|].
    apply Hmap; [lia|apply in_range_spec; lia].
  - intros r s2 [-> B2]. split; [done|]. split; [apply B2|]. intros a Haa.
    assert (forall x, 0 <= x -> marked s2 x = marked s x) as Em.
    { intros x Hx. rewrite (br_marked _ _ _ _ B2), (ba_marked _ _ _ _ B1) by done. destruct (in_range addr len x) eqn:Ein; [|done].
      apply in_range_spec in Ein. by rewrite Hnone. }
    assert (starts s2 a = starts s a) as Es.
    { rewrite (br_starts _ _ _ _ B2), (ba_starts _ _ _ _ B1) by done. destruct (starts s a) eqn:Est; [by rewrite Hst, orb_true_r|].
      rewrite orb_false_r. destruct (Z.eqb_spec a addr) as [->|]; [|apply andb_false_r].
      by rewrite (proj2 (in_range_spec addr len addr)) by lia. }
    split; [by apply Em|]. split; [done|]. split; [by rewrite (br_bytes _ _ _ _ B2), (ba_bytes _ _ _ _ B1)|].
    intros Hor. assert (page_marked s a -> page_marked s2 a) as Hpm.
    { intros (x & Hx & E & Hm). exists x. split; [done|]. split; [done|]. by rewrite Em. }
    assert (page_marked s a -> protected s a = true) as Hpp.
    { intros (x & Hx & E & Hm). rewrite (protected_page s a x); [by apply (ok_pages _ Hs)|]. by apply page_start_page. }
    apply (copy_roundtrip addr len s s1 s2); try done. intros (x & Hx & E & Hm). exists x. split; [done|]. split; [done|].
    by rewrite <- Em.
Qed.

End mark.
