(* ===== verification/MarksFetch.v ===== *)
(** * Fetching code through the page copies

    [e_fetch] copies the fetched bytes into the copy of their page before the
    translator reads them; [jit_fetch_byte], [_word] and [_dword] are reads of
    guest memory whatever the alignment. *)

From stdpp Require Import base numbers list.
From Stdlib Require Import ZArith Lia.
From S2P Require Import Prelude Machine SimMem Marks MarksInv MarksQuery MarksPages.

Local Open Scope Z_scope.

(** ** Little-endian numbers from smaller ones *)

Lemma lor_shift_add k h l : 0 <= k -> 0 <= l < 2 ^ k -> Z.lor (Z.shiftl h k) l = l + 2 ^ k * h.
Proof.
  intros Hk Hl. rewrite Z.shiftl_mul_pow2 by done.
  assert (Z.land (h * 2 ^ k) l = 0) as E; [|rewrite <- Z.add_nocarry_lor by done; lia].
  apply Z.bits_inj'. intros i Hi. rewrite Z.land_spec, Z.bits_0. destruct (Z.lt_ge_cases i k).
  - rewrite Z.mul_pow2_bits_low by done. done.
  - rewrite <- (Z.mod_small l (2 ^ k)) by done. by rewrite Z.mod_pow2_bits_high, andb_false_r by lia.
Qed.

Lemma load_shift n f g a b : (forall i, 0 <= i < Z.of_nat n -> f (a + i) = g (b + i)) -> load n f a = load n g b.
Proof.
  revert a b. induction n as [|n IH]; intros a b Hfg; [done|]. simpl. pose proof (Hfg 0 ltac:(lia)) as E0. rewrite !Z.add_0_r in E0.
  rewrite E0, (IH (a + 1) (b + 1)); [done|]. intros i Hi. specialize (Hfg (i + 1) ltac:(lia)).
  by rewrite !(Z.add_comm i 1), !Z.add_assoc in Hfg.
Qed.

Lemma truth_land_ones y k : 0 <= k -> truth (Z.land y (Z.ones k)) = negb (y mod 2 ^ k =? 0).
Proof. intros Hk. unfold truth. by rewrite Z.land_ones. Qed.

Lemma fW_load c y : bytes_ok c -> y mod HOST_PAGE_SIZE + 1 < HOST_PAGE_SIZE -> fW c y = load 2 c (y mod HOST_PAGE_SIZE).
Proof.
  intros Hc Hy. unfold fW, fB. change 1 with (Z.ones 1) at 1. rewrite truth_land_ones by lia.
  destruct (Z.eqb_spec (y mod 2 ^ 1) 0) as [E|E]; simpl negb; cbv iota.
  - f_equal. revert E. unfold HOST_PAGE_SIZE. clear. Z.to_euclidean_division_equations. lia.
  - rewrite lor_shift_add by (try apply Hc; done).
    replace ((y + 1) mod HOST_PAGE_SIZE) with (y mod HOST_PAGE_SIZE + 1)
      by (revert Hy; unfold HOST_PAGE_SIZE; clear; Z.to_euclidean_division_equations; lia).
    simpl load. lia.
Qed.

Lemma fD_load c y : bytes_ok c -> y mod HOST_PAGE_SIZE + 3 < HOST_PAGE_SIZE -> fD c y = load 4 c (y mod HOST_PAGE_SIZE).
Proof.
  intros Hc Hy. unfold fD. change 3 with (Z.ones 2) at 1. rewrite truth_land_ones by lia.
  destruct (Z.eqb_spec (y mod 2 ^ 2) 0) as [E|E]; simpl negb; cbv iota.
  - f_equal. revert E. unfold HOST_PAGE_SIZE. clear. Z.to_euclidean_division_equations. lia.
  - assert ((y + 2) mod HOST_PAGE_SIZE = y mod HOST_PAGE_SIZE + 2) as E2
      by (revert Hy; unfold HOST_PAGE_SIZE; clear; Z.to_euclidean_division_equations; lia).
    rewrite !fW_load by (rewrite ?E2; done || lia). pose proof (load_range 2 c (y mod HOST_PAGE_SIZE) Hc) as Hr.
    rewrite lor_shift_add by (done || exact Hr). rewrite E2. symmetry. apply (load_app 2 2).
Qed.

Lemma land_2_mod x : Z.land x 2 = Z.land (x mod 4) 2.
Proof. change 2 with (Z.land (Z.ones 2) 2) at 1. rewrite Z.land_assoc. by rewrite Z.land_ones. Qed.

(** The last three offsets of a page are told apart by the low bits. *)
Lemma page_tail x :
  0 <= x -> page_start x <> page_start (x + 3) ->
  page_start (x + 3) = page_start x + HOST_PAGE_SIZE /\
  ((truth (Z.land x 1) = false /\ x mod HOST_PAGE_SIZE = 4094) \/
   (truth (Z.land x 1) = true /\ truth (Z.land x 2) = true /\ x mod HOST_PAGE_SIZE = 4095) \/
   (truth (Z.land x 1) = true /\ truth (Z.land x 2) = false /\ x mod HOST_PAGE_SIZE = 4093)).
Proof.
  intros Hx E. rewrite land_2_mod. change 1 with (Z.ones 1). rewrite truth_land_ones by lia.
  assert (page_start (x + 3) = page_start x + HOST_PAGE_SIZE /\
    (x mod HOST_PAGE_SIZE = 4093 \/ x mod HOST_PAGE_SIZE = 4094 \/ x mod HOST_PAGE_SIZE = 4095)) as [E1 E2].
  { revert E. unfold page_start, HOST_PAGE_SIZE. clear. Z.to_euclidean_division_equations. lia. }
  split; [done|].
  assert (x mod 4 = (x mod HOST_PAGE_SIZE) mod 4 /\ x mod 2 ^ 1 = (x mod HOST_PAGE_SIZE) mod 2) as [-> ->].
  { unfold HOST_PAGE_SIZE. clear. Z.to_euclidean_division_equations. lia. }
  destruct E2 as [-> |[-> | ->]]; [right; right|left|right; left]; vm_compute; done.
Qed.

Section fetch.
Context {G : Type} `{CodeMemLaws G}.
Context (junk : bytes).
Hypothesis junk_bytes : bytes_ok junk.
Implicit Types s : marks G.
#[local] Set Default Proof Using "Type*".

(** [l] is the copy [c] of the page [a]. *)
Definition holds_page s (l : cloc) (a : Z) (c : bytes) : Prop :=
  match l with
  | InCache i => exists n, clist s !! i = Some (MkCe a n (Some c))
  | InMap m page => m = a / 2 ^ 20 /\ page = page_index a /\ copy_of s a = Some c
  end.

(** Copies consist of bytes. *)
Record copies_ok s : Prop := {
  co_cache a n p : MkCe a n (Some p) ∈ clist s -> bytes_ok p;
  co_map a p : copy_of s a = Some p -> bytes_ok p;
}.

(** At most [n] new cache entries; nothing else has changed but the contents
    of copies. *)
Record fetch_step s (n : nat) s' : Prop := {
  fe_ok : marks_ok s';
  fe_copies : copies_ok s';
  fe_marked a : marked s' a = marked s a;
  fe_starts a : starts s' a = starts s a;
  fe_protected a : protected s' a = protected s a;
  fe_maps a : mega <$> map_of s' a = mega <$> map_of s a;
  fe_clist : (length (clist s') <= length (clist s) + n)%nat;
  fe_guest : guest s' = guest s;
}.

Lemma fetch_refl s : marks_ok s -> copies_ok s -> fetch_step s 0 s.
Proof. intros Hs Hc. constructor; done || lia. Qed.

Lemma fetch_trans s n n' s' s'' : fetch_step s n s' -> fetch_step s' n' s'' -> fetch_step s (n + n') s''.
Proof. intros [E1 E2 E3 E4 E5 E6 E7 E8] [F1 F2 F3 F4 F5 F6 F7 F8]. constructor; try done; try (intros; congruence). lia. Qed.

Lemma fetch_weaken s n n' s' : fetch_step s n s' -> (n <= n')%nat -> fetch_step s n' s'.
Proof. intros [E1 E2 E3 E4 E5 E6 E7 E8] Hn. constructor; try done. lia. Qed.

Lemma fetch_seen s s' : marks_ok s -> copies_ok s -> seen s s' -> fetch_step s 0 s'.
Proof.
  intros Hs Hc Hss. pose proof (seen_ok _ _ Hss Hs). pose proof (seen_same _ _ Hss) as Hp. pose proof Hp as [E1 E2 E3 E4]. constructor; try done.
  - destruct Hc as [C1 C2]. constructor; [intros a n p; rewrite E3; apply C1|intros a p; rewrite E2; apply C2].
  - intros a. by apply seen_view.
  - intros a. by apply seen_view.
  - intros a. by apply same_pages_protected.
  - rewrite E3. lia.
Qed.

Lemma holds_seen s s' l a c : seen s s' -> holds_page s l a c -> holds_page s' l a c.
Proof.
  intros Hss. destruct (seen_same _ _ Hss) as [E1 E2 E3 E4]. destruct l as [i|m page]; simpl; [by rewrite E3|by rewrite E2].
Qed.

Definition with_clist s (l : list cache_ent) : marks G := s <| clist := l |>.

Lemma fetch_clist s l n :
  marks_ok s -> copies_ok s -> (length l <= length (clist s) + n)%nat ->
  (forall a k p, MkCe a k (Some p) ∈ l -> bytes_ok p) -> fetch_step s n (with_clist s l).
Proof.
  intros Hs [C1 C2] Hl Hb. constructor; try done.
  by destruct Hs; constructor.
Qed.

(** A cached entry is kept alive. *)
Lemma FindC_keep a s (Q : option (nat * bytes) -> marks G -> Prop) :
  marks_ok s -> copies_ok s ->
  (forall s' i c, fetch_step s 0 s' -> holds_page s' (InCache i) a c ->
     (forall l b d, holds_page s l b d -> holds_page s' l b d) -> Q (Some (i, c)) s') ->
  Q None s -> wp (FindC a false) s Q.
Proof.
  intros Hs Hc HS HN. unfold FindC. wp_step. wp_step. pose proof (cached_find a (clist s)) as Hf.
  destruct (list_find _ _) as [[i c]|]; [|by repeat wp_step]. destruct Hf as (Hh & Hi & _).
  destruct (holds_inv _ _ Hh) as (p & E). rewrite E in Hi |- *. repeat wp_step.
  assert ((i < length (clist s))%nat) as Hlt by (by eapply lookup_lt_Some).
  apply (HS (with_clist s (<[i := MkCe a CALIVE_CNT (Some p)]> (clist s)))).
  - apply fetch_clist; [done|done|rewrite length_insert; lia|]. intros b k q Hin.
    apply list_elem_of_lookup in Hin as (j & Hj). destruct (decide (i = j)) as [<-|Hne].
    + rewrite list_lookup_insert_eq in Hj by done. injection Hj as <- _ <-. eapply (co_cache _ Hc a). by eapply list_elem_of_lookup_2.
    + rewrite list_lookup_insert_ne in Hj by done. eapply (co_cache _ Hc b). by eapply list_elem_of_lookup_2.
  - exists CALIVE_CNT. simpl. by apply list_lookup_insert_eq.
  - intros [j|m page] b d; simpl; [|done]. intros (k & Hj). destruct (decide (i = j)) as [<-|Hne].
    + rewrite Hi in Hj. injection Hj as <- _ <-. exists CALIVE_CNT. by apply list_lookup_insert_eq.
    + exists k. by rewrite list_lookup_insert_ne.
Qed.

Lemma NewC_correct a s :
  marks_ok s -> copies_ok s -> Z.of_nat (length (clist s)) < CLIST_MAX ->
  wp (NewC junk a) s (fun i s' => fetch_step s 1 s' /\ holds_page s' (InCache i) a junk /\
    (forall l b d, holds_page s l b d -> holds_page s' l b d)).
Proof.
  intros Hs Hc Hlt. unfold NewC. wp_step. wp_step. wp_step. wp_step; [by apply Z.ltb_lt|]. repeat wp_step. split; [|split].
  - apply (fetch_clist s (clist s ++ [MkCe a CALIVE_CNT (Some junk)])); [done|done|rewrite length_app; simpl; lia|].
    intros b k p Hin. apply elem_of_app in Hin as [Hin|Hin]; [by eapply co_cache|].
    apply list_elem_of_singleton in Hin. by injection Hin as _ _ ->.
  - exists CALIVE_CNT. simpl. rewrite lookup_app_r by lia. by rewrite Nat.sub_diag.
  - intros [j|m page] b d; simpl; [|done]. intros (k & Hj). exists k. rewrite lookup_app_l; [done|]. by eapply lookup_lt_Some.
Qed.

Lemma holds_bytes s l a c : copies_ok s -> holds_page s l a c -> bytes_ok c.
Proof using Type.
  intros [C1 C2] Hh. destruct l as [i|m page]; simpl in Hh.
  - destruct Hh as (k & Hi). eapply (C1 a k). by eapply list_elem_of_lookup_2.
  - destruct Hh as (_ & _ & Hi). by eapply C2.
Qed.

(** The map found for [a], if it has been looked up. *)
Definition map_known s (a : Z) (r : option Z) : Prop := r = None \/ r = mega <$> map_of s a.

Lemma find_page_correct a r s :
  marks_ok s -> copies_ok s -> 0 <= a -> Z.of_nat (length (clist s)) < CLIST_MAX -> map_known s a r ->
  wp (find_page junk a (page_index a) r) s (fun x s' =>
    fetch_step s 1 s' /\ (exists c, holds_page s' (fst x) a c) /\
    (forall l b d, holds_page s l b d -> holds_page s' l b d) /\ map_known s a (snd x)).
Proof.
  intros Hs Hc Ha Hlt Hr. unfold find_page. wp_step. apply FindC_keep; [done|done|..].
  { intros s' i c Hf Hh Hkeep. wp_step. split; [by eapply fetch_weaken, le_S; [exact Hf|]|]. split; [by exists c|]. done. }
  wp_step.
  eapply (quiet_wp _ _ (mega <$> map_of s a)).
  { destruct Hr as [->| ->]; [by apply quiet_FindM|]. destruct (map_of s a) as [M|] eqn:E; simpl; [by apply quiet_ret|].
    pose proof (quiet_FindM a s Hs Ha) as Hq. by rewrite E in Hq. }
  intros s1 Hss. pose proof (fetch_seen _ _ Hs Hc Hss) as Hf1.
  assert (map_of s1 a = map_of s a) as Em by (unfold map_of; by rewrite (seen_MpH _ _ Hss)).
  assert (copy_of s1 a = copy_of s a) as Ec by (unfold copy_of; by rewrite Em).
  wp_step. eapply (quiet_wp _ _ (copy_of s a)).
  { destruct (map_of s a) as [M|] eqn:E; simpl.
    - assert (is_Some (map_of s1 a)) as Hm by (by rewrite Em). pose proof (quiet_pagemap_at s1 a (fe_ok _ _ _ Hf1) Hm) as Hq.
      rewrite Ec in Hq. destruct (map_of_has s a ltac:(by exists M)) as (M' & E1 & E2 & E3). assert (M' = M) as -> by congruence. by rewrite E3.
    - unfold copy_of. rewrite E. apply quiet_ret, Hf1. }
  intros s2 Hss2. pose proof (fetch_seen _ _ (fe_ok _ _ _ Hf1) (fe_copies _ _ _ Hf1) Hss2) as Hf2.
  pose proof (fetch_trans _ _ _ _ _ Hf1 Hf2) as Hf.
  assert (forall l b d, holds_page s l b d -> holds_page s2 l b d) as Hkeep by (intros l b d Hh; by eapply holds_seen, holds_seen).
  assert (clist s2 = clist s) as Ecl by (rewrite (same_clist _ _ (seen_same _ _ Hss2)); by rewrite (same_clist _ _ (seen_same _ _ Hss))).
  assert (forall r', map_known s a r' -> wp (let! i := NewC junk a in ret (InCache i, r')) s2 (fun x s' =>
    fetch_step s 1 s' /\ (exists c, holds_page s' (fst x) a c) /\ (forall l b d, holds_page s l b d -> holds_page s' l b d) /\
    map_known s a (snd x))) as Hnew.
  { intros r' Hr'. wp_step. eapply wp_mono; [apply NewC_correct; [apply Hf|apply Hf|by rewrite Ecl]|].
    intros i s3 (Hf3 & Hh3 & Hk3). wp_step. split; [by eapply (fetch_trans _ 0 1)|]. split; [by exists junk|].
    split; [|done]. intros l b d Hh. by apply Hk3, Hkeep. }
  destruct (map_of s a) as [M|] eqn:E; cbn [fmap option_fmap option_map].
  - destruct (copy_of s a) as [c|] eqn:Ecp.
    + wp_step. split; [by eapply fetch_weaken, le_S|]. split; [|split; [done|right; by rewrite E]].
      exists c. simpl. destruct (has_map_Some _ _ _ E) as [_ ->]. split; [done|]. split; [done|].
      rewrite (same_copy _ _ (seen_same _ _ Hss2)), (same_copy _ _ (seen_same _ _ Hss)). done.
    + apply Hnew. right. by rewrite E.
  - apply Hnew. by left.
Qed.

(** [n] bytes of the copy at [off] replaced by guest memory. *)
Definition patched (g : G) (off addr n : Z) (p : bytes) : bytes :=
  fun i => if (off <=? i) && (i <? off + n) then guest_byte g (addr + (i - off)) else p i.

Lemma patched_ok g off addr n p : good g -> bytes_ok p -> bytes_ok (patched g off addr n p).
Proof. intros Hg Hp i. unfold patched. destruct (_ && _); [by apply good_bytes|apply Hp]. Qed.

Definition patch_map (page : Z) (f : bytes -> bytes) (M : tMpMap) : tMpMap :=
  M <| pagemap ::= fun g i => if i =? page then option_map f (g i) else g i |>.

Lemma copy_of_patch_map m page f s a :
  copy_of (with_map m (patch_map page f) s) a =
  (if (a / 2 ^ 20 =? m) && (page_index a =? page) then option_map f (copy_of s a) else copy_of s a).
Proof using Type.
  unfold copy_of. rewrite map_of_with_map by done. destruct (_ =? m); simpl; [|done].
  destruct (map_of s a) as [M|]; simpl; by destruct (_ =? _).
Qed.

Lemma copy_in_correct l off addr n a c s :
  marks_ok s -> copies_ok s -> aligned a -> holds_page s l a c ->
  wp (copy_in l off addr n) s (fun _ s' =>
    fetch_step s 0 s' /\ holds_page s' l a (patched (guest s) off addr n c) /\
    (forall l' b d, aligned b -> b <> a -> holds_page s l' b d -> holds_page s' l' b d)).
Proof.
  intros Hs Hc Hal Hh. pose proof (holds_bytes _ _ _ _ Hc Hh) as Hcb. unfold copy_in. wp_step. wp_step.
  set (f := fun p : bytes => _). destruct l as [i|m page]; cbn [upd_page].
  - destruct Hh as (k & Hi). wp_step. set (s' := _ <| clist ::= _ |>).
    assert (s' = with_clist s (<[i := MkCe a k (Some (f c))]> (clist s))) as ->.
    { unfold s', with_clist. cbn. f_equal. apply list_eq. intros j. destruct (decide (i = j)) as [<-|Hne].
      - rewrite list_lookup_alter_eq, Hi, list_lookup_insert_eq by (by eapply lookup_lt_Some). done.
      - by rewrite list_lookup_alter_ne, list_lookup_insert_ne. }
    split; [|split].
    + apply fetch_clist; [done|done|rewrite length_insert; lia|]. intros b k' q Hin.
      apply list_elem_of_lookup in Hin as (j & Hj). destruct (decide (i = j)) as [<-|Hne].
      * rewrite list_lookup_insert_eq in Hj by (by eapply lookup_lt_Some). injection Hj as <- _ <-. apply patched_ok; [apply Hs|done].
      * rewrite list_lookup_insert_ne in Hj by done. eapply (co_cache _ Hc b). by eapply list_elem_of_lookup_2.
    + exists k. simpl. apply list_lookup_insert_eq. by eapply lookup_lt_Some.
    + intros [j|m page] b d Hb Hne; simpl; [|done]. intros (k' & Hj). exists k'. rewrite list_lookup_insert_ne; [done|].
      intros ->. rewrite Hi in Hj. injection Hj as -> _ _. done.
  - destruct Hh as (-> & -> & Hcp). assert (is_Some (map_of s a)) as Hm by (unfold copy_of in Hcp; by destruct (map_of s a)).
    destruct (map_of_has s a Hm) as (M & E1 & E2 & E3). apply wp_upd_mpmap; [by exists M|].
    set (s' := with_map (a / 2 ^ 20) (patch_map (page_index a) f) s). change (with_map _ _ s) with s'.
    assert (forall b, copy_of s' b = if (a <=? b) && (b <? a + HOST_PAGE_SIZE) then option_map f (copy_of s b) else copy_of s b) as Ecp
      by (intros b; unfold s'; by rewrite copy_of_patch_map, on_page).
    assert (forall b, protected s' b = protected s b) as Ep.
    { intros b. unfold protected. rewrite Ecp. destruct (_ && _); [|done]. by destruct (copy_of s b). }
    assert (forall b, marked s' b = marked s b /\ starts s' b = starts s b) as Ev.
    { intros b. unfold marked, starts, s'. rewrite map_of_with_map by done. by destruct (_ =? _), (map_of s b). }
    split; [|split].
    + constructor; try done; try (intros b; apply Ev).
      * constructor.
        -- unfold s'. rewrite with_map_mega by done. apply Hs.
        -- by apply with_map_pos.
        -- intros m' E. by apply with_map_last.
        -- by apply with_map_words.
        -- intros b Hb. rewrite Ep, (proj1 (Ev b)). by apply Hs.
        -- intros b Hb. rewrite Ep. by apply Hs.
        -- apply Hs.
      * destruct Hc as [C1 C2]. constructor; [done|]. intros b p. rewrite Ecp. destruct (_ && _); [|by apply C2].
        destruct (copy_of s b) as [q|] eqn:Eq; [|done]. simpl. intros [= <-]. eapply patched_ok; [apply Hs|by eapply C2].
      * intros b. unfold s'. rewrite map_of_with_map by done. destruct (_ =? _); [|done]. by destruct (map_of s b).
      * simpl. lia.
    + simpl. split; [done|]. split; [done|]. rewrite Ecp, Hcp.
      replace ((a <=? a) && (a <? a + HOST_PAGE_SIZE)) with true by (unfold HOST_PAGE_SIZE; zbool; simpl; done || lia). done.
    + intros [j|m page] b d Hb Hne; simpl; [done|]. intros (-> & -> & Hd). split; [done|]. split; [done|]. rewrite Ecp.
      destruct (_ && _) eqn:E; [|done]. exfalso. apply Hne.
      assert (a <= b < a + HOST_PAGE_SIZE) as Hr by (revert E; zbool; simpl; done || lia).
      apply in_page, page_start_page in Hr; [|done]. rewrite !aligned_start in Hr by done. done.
Qed.

(** ** [e_fetch] *)

(** The bytes of the range that lie on the page [a] are in the copy. *)
Definition copied (g : G) (addr len a : Z) (c : bytes) : Prop :=
  forall x, addr <= x < addr + len -> page_start x = a -> c (x mod HOST_PAGE_SIZE) = guest_byte g x.

Lemma patched_hit g off addr n p x : off <= x - addr + off < off + n -> patched g off addr n p (x - addr + off) = guest_byte g x.
Proof using Type.
  intros Hx. unfold patched. replace ((off <=? x - addr + off) && (x - addr + off <? off + n)) with true by (zbool; simpl; done || lia).
  f_equal. lia.
Qed.

Lemma mod_page x : x mod HOST_PAGE_SIZE = x - page_start x.
Proof using Type. unfold page_start. lia. Qed.

Definition fetch_result (x : Z) (len : Z) s (r : bytes * bytes) : Prop :=
  bytes_ok (fst r) /\ bytes_ok (snd r) /\
  copied (guest s) x len (page_start x) (fst r) /\
  (page_start x <> page_start (x + len - 1) -> copied (guest s) x len (page_start (x + len - 1)) (snd r)).

Lemma page_at_quiet l a c s : marks_ok s -> holds_page s l a c -> quiet (page_at l) s c.
Proof.
  intros Hs Hh. unfold page_at. destruct l as [i|m page]; simpl in Hh.
  - destruct Hh as (k & Hi). unfold quiet, finds. wp_step. wp_step. rewrite Hi. wp_step. split; [done|by apply seen_refl].
  - destruct Hh as (-> & -> & Hcp). assert (is_Some (map_of s a)) as Hm by (unfold copy_of in Hcp; by destruct (map_of s a)).
    unfold quiet, finds. wp_step. wp_step. wp_step. eapply quiet_wp; [by apply quiet_pagemap_at|]. intros s' Hss. rewrite Hcp. by wp_step.
Qed.

Lemma fetch_correct x len s :
  marks_ok s -> copies_ok s -> 0 <= x -> 0 < len <= HOST_PAGE_SIZE -> x + len <= 2 ^ 32 ->
  x / 2 ^ 20 = (x + len - 1) / 2 ^ 20 -> Z.of_nat (length (clist s)) + 2 <= CLIST_MAX ->
  wp (let! r := e_fetch junk x len in fetched junk r) s (fun r s' => fetch_result x len s r /\ fetch_step s 2 s').
Proof.
  intros Hs Hc Hx Hl Hend Hmega Hroom. destruct (page_start_spec x) as [Hp1 Hp2].
  destruct (page_start_spec (x + len - 1)) as [Hp3 Hp4]. assert (0 <= page_start x) as Hp5 by (apply page_start_le; done).
  assert (forall a, page_start a / 2 ^ 20 = a / 2 ^ 20) as Hps.
  { intros a. apply page_same, page_start_page, aligned_start, page_start_spec. }
  unfold e_fetch. wp_step. wp_step.
  wp_step; [unfold truth; zbool; simpl; done || lia|]. rewrite u32_small by lia. rewrite !shiftr_mega, !Hps.
  wp_step. wp_step; [by apply Z.eqb_eq|]. set (abeg := page_start x) in *. set (aend := page_start (x + len - 1)) in *.
  change (abeg / HOST_PAGE_SIZE mod pagespermega) with (page_index abeg).
  wp_step. eapply wp_mono; [apply find_page_correct; [done|done|done|lia|by left]|].
  intros [p0 r] s1 (Hf1 & (c0 & Hc0) & Hk1 & Hr). simpl in Hc0, Hr. wp_step.
  eapply wp_mono; [apply (copy_in_correct p0 _ _ _ abeg c0); [apply Hf1|apply Hf1|done|done]|].
  intros [] s2 (Hf2 & Hh2 & Hk2). pose proof (fetch_trans _ _ _ _ _ Hf1 Hf2) as Hf12. rewrite (fe_guest _ _ _ Hf1) in Hh2.
  assert (forall n, (forall y, x <= y < x + len -> page_start y = abeg -> y < x + n) ->
    copied (guest s) x len abeg (patched (guest s) (x mod HOST_PAGE_SIZE) x n c0)) as Hcop.
  { intros n Hn y Hy Ey. specialize (Hn y Hy Ey). rewrite (mod_page y), Ey.
    replace (y - abeg) with (y - x + x mod HOST_PAGE_SIZE) by (rewrite (mod_page x); fold abeg; lia). apply patched_hit. lia. }
  destruct (Z.eqb_spec abeg aend) as [E|E].
  - wp_step. unfold fetched. wp_step. eapply quiet_wp; [by eapply page_at_quiet; [apply Hf2|]|]. intros s3 Hss.
    cbn [snd]. wp_step. wp_step. wp_step. split.
    + split; [eapply holds_bytes; [apply Hf2|exact Hh2]|]. split; [done|]. split; [|done]. cbn [fst]. apply Hcop. intros y Hy _. lia.
    + eapply fetch_weaken; [eapply fetch_trans; [exact Hf12|apply fetch_seen; [apply Hf2|apply Hf2|exact Hss]]|lia].
  - assert (aend = abeg + HOST_PAGE_SIZE) as Eae.
    { assert (abeg < aend) as Hlt by (assert (abeg <= aend) by (apply page_start_le; [done|lia]); lia).
      apply aligned_le in Hlt; [|done|done]. destruct (Z.lt_ge_cases (abeg + HOST_PAGE_SIZE) aend) as [Hlt2|]; [|lia].
      apply aligned_le in Hlt2; [|by apply aligned_next|done]. lia. }
    assert (page_index abeg + 1 = page_index aend) as Epi.
    { destruct (page_next abeg Hp1) as [Ew|[Ew _]]; [|rewrite Eae; lia]. exfalso.
      assert (abeg / 2 ^ 20 = aend / 2 ^ 20) as Hm by (unfold abeg, aend; by rewrite !Hps). rewrite Eae in Hm.
      revert Ew Hm Hp1. unfold aligned, page_index, pagespermega, HOST_PAGE_SIZE. clear. Z.to_euclidean_division_equations. lia. }
    rewrite Epi. wp_step. eapply wp_mono; [apply find_page_correct; [apply Hf2|apply Hf2|lia| |]|].
    + pose proof (fe_clist _ _ _ Hf12). lia.
    + destruct Hr as [->| ->]; [by left|right]. rewrite (fe_maps _ _ _ Hf12). unfold map_of.
      assert (abeg / 2 ^ 20 = aend / 2 ^ 20) as -> by (unfold abeg, aend; by rewrite !Hps). done.
    + intros [p1 r'] s3 (Hf3 & (c1 & Hc1) & Hk3 & _). simpl in Hc1. wp_step.
      eapply wp_mono; [apply (copy_in_correct p1 _ _ _ aend c1); [apply Hf3|apply Hf3|done|done]|].
      intros [] s4 (Hf4 & Hh4 & Hk4). pose proof (fetch_trans _ _ _ _ _ (fetch_trans _ _ _ _ _ Hf12 Hf3) Hf4) as Hf.
      rewrite (fe_guest _ _ _ Hf3), (fe_guest _ _ _ Hf2), (fe_guest _ _ _ Hf1) in Hh4.
      assert (holds_page s4 p0 abeg (patched (guest s) (x mod HOST_PAGE_SIZE) x (aend - x) c0)) as Hh0 by (by apply Hk4, Hk3).
      wp_step. unfold fetched. wp_step. eapply quiet_wp; [by eapply page_at_quiet; [apply Hf4|]|]. intros s5 Hss5. cbn [snd].
      wp_step. eapply quiet_wp; [eapply page_at_quiet; [by eapply seen_ok, Hf4|by eapply holds_seen]|]. intros s6 Hss6.
      wp_step. pose proof (seen_trans _ _ _ Hss5 Hss6) as Hss. split.
      * split; [eapply holds_bytes; [apply Hf4|exact Hh0]|]. split; [eapply holds_bytes; [apply Hf4|exact Hh4]|]. split; cbn [fst snd].
        -- apply Hcop. intros y Hy Ey. destruct (page_start_spec y). lia.
        -- intros _ y Hy Ey. fold aend in Ey |- *. rewrite (mod_page y), Ey. replace (y - aend) with (y - aend + 0) by lia. apply patched_hit.
           rewrite u32_small by lia. destruct (page_start_spec y). lia.
      * eapply fetch_weaken; [eapply fetch_trans; [exact Hf|apply fetch_seen; [apply Hf4|apply Hf4|exact Hss]]|lia].
Qed.

(** ** The code bytes the translator reads *)

Lemma copied_load g x len a c n y :
  copied g x len a c -> x <= y -> y + Z.of_nat n <= x + len -> a = page_start y -> y mod HOST_PAGE_SIZE + Z.of_nat n <= HOST_PAGE_SIZE ->
  load n c (y mod HOST_PAGE_SIZE) = load n (guest_byte g) y.
Proof using Type.
  intros Hc Hx Hy -> Hp. apply load_shift. intros i Hi. pose proof (mod_page y) as Em.
  assert (page_start (y + i) = page_start y) as Ep.
  { revert Hp Hi. unfold page_start, HOST_PAGE_SIZE. clear. Z.to_euclidean_division_equations. lia. }
  rewrite <- (Hc (y + i)); [|lia|done]. f_equal. rewrite (mod_page (y + i)), Ep. lia.
Qed.

Definition room s (n : Z) : Prop := Z.of_nat (length (clist s)) + n <= CLIST_MAX.

Lemma room_step s k s' n : fetch_step s k s' -> room s (n + Z.of_nat k) -> room s' n.
Proof using Type. intros Hf Hr. pose proof (fe_clist _ _ _ Hf). unfold room in *. lia. Qed.

Lemma jit_fetch_byte_correct x s :
  marks_ok s -> copies_ok s -> 0 <= x < 2 ^ 32 -> room s 2 ->
  wp (jit_fetch_byte junk x) s (fun r s' => r = guest_byte (guest s) x /\ fetch_step s 2 s').
Proof.
  intros Hs Hc Hx Hroom. unfold jit_fetch_byte. wp_step.
  pose proof (fetch_correct x 1 s Hs Hc ltac:(lia) ltac:(unfold HOST_PAGE_SIZE; lia) ltac:(lia) ltac:(f_equal; lia) Hroom) as Hf.
  unfold wp, bind in Hf |- *. destruct (e_fetch junk x 1 s) as [[r s1]|]; [|done]. destruct (fetched junk r s1) as [[[c0 c1] s2]|]; [|done].
  destruct Hf as ((_ & _ & H1 & _) & Hstep). split; [|done]. apply H1; [lia|done].
Qed.

(** The pages of a fetch that stays in its megabyte. *)
Lemma bind_fetched {B} x len (k : bytes -> bytes -> B) s Q :
  wp (let! r := e_fetch junk x len in fetched junk r) s (fun r s' => Q (k (fst r) (snd r)) s') ->
  wp (let! r := e_fetch junk x len in let! (c0, c1) := fetched junk r in ret (k c0 c1)) s Q.
Proof using Type.
  unfold wp, bind. destruct (e_fetch junk x len s) as [[r s1]|]; [|done]. by destruct (fetched junk r s1) as [[[c0 c1] s2]|].
Qed.

Lemma same_mega_spec x y : same_mega x y = true <-> x / 2 ^ 20 = y / 2 ^ 20.
Proof using Type. unfold same_mega. rewrite !shiftr_mega. apply Z.eqb_eq. Qed.

Lemma jit_fetch_word_correct x s :
  marks_ok s -> copies_ok s -> 0 <= x -> x + 1 < 2 ^ 32 -> room s 4 ->
  wp (jit_fetch_word junk x) s (fun r s' => r = load 2 (guest_byte (guest s)) x /\ fetch_step s 4 s').
Proof.
  intros Hs Hc Hx Hend Hroom. unfold jit_fetch_word. rewrite u32_small by lia.
  pose proof (good_bytes (guest s) x (ok_good _ Hs)) as Hb0. destruct (same_mega x (x + 1)) eqn:Em; simpl negb; cbv iota.
  - apply same_mega_spec in Em.
    apply (bind_fetched x 2 (fun c0 c1 => if same_page x (x + 1) then fW c0 x else Z.lor (Z.shiftl (fB c1 (x + 1)) 8) (fB c0 x))).
    eapply wp_mono; [apply fetch_correct; [done|done|lia|unfold HOST_PAGE_SIZE; lia|lia|by replace (x + 2 - 1) with (x + 1) by lia|unfold room in *; lia]|].
    intros [c0 c1] s' ((B0 & B1 & C0 & C1) & Hf). split; [|eapply fetch_weaken; [exact Hf|lia]]. cbn [fst snd] in *.
    replace (x + 2 - 1) with (x + 1) in C1 by lia. unfold same_page.
    destruct (Z.eqb_spec (page_start x) (page_start (x + 1))) as [E|E].
    + assert (x mod HOST_PAGE_SIZE + 1 < HOST_PAGE_SIZE) as Hm.
      { revert E. unfold page_start, HOST_PAGE_SIZE. clear. Z.to_euclidean_division_equations. lia. }
      rewrite fW_load by done. apply (copied_load _ x 2 (page_start x)); done || lia.
    + unfold fB. rewrite lor_shift_add by (try apply B0; done). rewrite (C0 x) by (done || lia). rewrite (C1 E (x + 1)) by (done || lia).
      simpl load. lia.
  - wp_step. eapply wp_mono; [apply jit_fetch_byte_correct; [done|done|lia|unfold room in *; lia]|]. intros h s1 [-> Hf1].
    wp_step. eapply wp_mono; [apply jit_fetch_byte_correct; [apply Hf1|apply Hf1|lia|]|].
    { eapply room_step; [exact Hf1|]. unfold room in *. lia. }
    intros l s2 [-> Hf2]. wp_step. rewrite (fe_guest _ _ _ Hf1). split; [|by eapply (fetch_trans _ 2 2)].
    rewrite lor_shift_add by done. simpl load. lia.
Qed.

Lemma dword_tail g x c0 c1 :
  good g -> 0 <= x -> bytes_ok c0 -> bytes_ok c1 -> page_start x <> page_start (x + 3) ->
  copied g x 4 (page_start x) c0 -> copied g x 4 (page_start (x + 3)) c1 ->
  (if negb (truth (Z.land x 1)) then Z.lor (Z.shiftl (fW c1 (x + 2)) 16) (fW c0 x)
   else if truth (Z.land x 2) then Z.lor (Z.shiftl (Z.land (fD c1 (x + 1)) 0xffffff) 8) (fB c0 x)
   else Z.lor (Z.shiftl (fB c1 (x + 3)) 24) (Z.shiftr (fD c0 (x - 1)) 8)) = load 4 (guest_byte g) x.
Proof.
  intros Hg Hx B0 B1 E C0 C1. assert (bytes_ok (guest_byte g)) as Hgb by (intros a; by apply good_bytes).
  pose proof (mod_page x) as Em. destruct (page_tail x Hx E) as (Ep & [(-> & Et)|[(-> & -> & Et)|(-> & -> & Et)]]); simpl negb; cbv iota.
  - assert (page_start (x + 2) = page_start (x + 3) /\ (x + 2) mod HOST_PAGE_SIZE = 0) as [E2 E3].
    { revert Et Ep. unfold page_start, HOST_PAGE_SIZE. clear. Z.to_euclidean_division_equations. lia. }
    rewrite !fW_load by (rewrite ?Et, ?E3; done).
    rewrite (copied_load g x 4 (page_start x) c0 2 x) by (rewrite ?Et; done || lia).
    rewrite (copied_load g x 4 (page_start (x + 3)) c1 2 (x + 2)) by (rewrite ?E3; done || lia).
    rewrite lor_shift_add by (try done; apply (load_range 2), Hgb). symmetry. apply (load_app 2 2).
  - assert (page_start (x + 1) = page_start (x + 3) /\ (x + 1) mod HOST_PAGE_SIZE = 0) as [E2 E3].
    { revert Et Ep. unfold page_start, HOST_PAGE_SIZE. clear. Z.to_euclidean_division_equations. lia. }
    rewrite fD_load by (rewrite ?E3; done). unfold fB. rewrite (C0 x) by (done || lia).
    change 0xffffff with (Z.ones 24). rewrite Z.land_ones by lia.
    rewrite (load_app 3 1), (Z.mul_comm (2 ^ _)). change (8 * Z.of_nat 3) with 24. rewrite Z.mod_add by lia.
    rewrite Z.mod_small by (apply (load_range 3), B1).
    rewrite (copied_load g x 4 (page_start (x + 3)) c1 3 (x + 1)) by (rewrite ?E3; done || lia).
    rewrite lor_shift_add by (try done; apply Hgb). done.
  - assert (page_start (x - 1) = page_start x /\ (x - 1) mod HOST_PAGE_SIZE = 4092) as [E2 E3].
    { revert Et Ep. unfold page_start, HOST_PAGE_SIZE. clear. Z.to_euclidean_division_equations. lia. }
    rewrite fD_load by (rewrite ?E3; done). rewrite E3. unfold fB. rewrite (C1 (x + 3)) by (done || lia).
    rewrite Z.shiftr_div_pow2 by lia. change (load 4 c0 4092) with (c0 4092 + 256 * load 3 c0 4093). rewrite <- Et.
    rewrite (Z.mul_comm 256), Z.div_add, Z.div_small by (apply B0 || done). rewrite Z.add_0_l.
    rewrite (copied_load g x 4 (page_start x) c0 3 x) by (rewrite ?Et; done || lia).
    rewrite lor_shift_add by (try done; apply (load_range 3), Hgb). rewrite (load_app 3 1).
    change (load 1 (guest_byte g) _) with (guest_byte g (x + 3) + 256 * 0). change (8 * Z.of_nat 3) with 24. lia.
Qed.

Lemma jit_fetch_dword_correct x s :
  marks_ok s -> copies_ok s -> 0 <= x -> x + 3 < 2 ^ 32 -> room s 8 ->
  wp (jit_fetch_dword junk x) s (fun r s' => r = load 4 (guest_byte (guest s)) x /\ fetch_step s 8 s').
Proof.
  intros Hs Hc Hx Hend Hroom. unfold jit_fetch_dword. rewrite !u32_small by lia. set (gb := guest_byte (guest s)).
  assert (bytes_ok gb) as Hgb by (intros a; apply good_bytes, Hs).
  destruct (same_mega x (x + 3)) eqn:Em; simpl negb; cbv iota.
  - apply same_mega_spec in Em.
    apply (bind_fetched x 4 (fun c0 c1 => if same_page x (x + 3) then fD c0 x
         else if negb (truth (Z.land x 1)) then Z.lor (Z.shiftl (fW c1 (x + 2)) 16) (fW c0 x)
         else if truth (Z.land x 2) then Z.lor (Z.shiftl (Z.land (fD c1 (x + 1)) 0xffffff) 8) (fB c0 x)
         else Z.lor (Z.shiftl (fB c1 (x + 3)) 24) (Z.shiftr (fD c0 (x - 1)) 8))).
    eapply wp_mono; [apply fetch_correct; [done|done|lia|unfold HOST_PAGE_SIZE; lia|lia|by replace (x + 4 - 1) with (x + 3) by lia|unfold room in *; lia]|].
    intros [c0 c1] s' ((B0 & B1 & C0 & C1) & Hf). split; [|eapply fetch_weaken; [exact Hf|lia]]. cbn [fst snd] in *.
    replace (x + 4 - 1) with (x + 3) in C1 by lia. unfold same_page.
    destruct (Z.eqb_spec (page_start x) (page_start (x + 3))) as [E|E].
    + assert (x mod HOST_PAGE_SIZE + 3 < HOST_PAGE_SIZE) as Hm.
      { revert E. unfold page_start, HOST_PAGE_SIZE. clear. Z.to_euclidean_division_equations. lia. }
      rewrite fD_load by done. apply (copied_load _ x 4 (page_start x)); done || lia.
    + specialize (C1 E). apply dword_tail; try done. apply Hs.
  - wp_step. eapply wp_mono; [apply jit_fetch_word_correct; [done|done|lia|lia|unfold room in *; lia]|]. intros h s1 [-> Hf1].
    wp_step. eapply wp_mono; [apply jit_fetch_word_correct; [apply Hf1|apply Hf1|lia|lia|]|].
    { eapply room_step; [exact Hf1|]. unfold room in *. lia. }
    intros l s2 [-> Hf2]. wp_step. rewrite (fe_guest _ _ _ Hf1). fold gb. split; [|by eapply (fetch_trans _ 4 4)].
    rewrite lor_shift_add by (try done; apply (load_range 2), Hgb). symmetry. apply (load_app 2 2).
Qed.

(** C22: Fetching a double word of code through the page copies returns the
    four bytes of memory at every alignment, across pages and megabytes, adds
    at most eight cache entries, and changes no mark and no memory. *)
Theorem jit_fetch_reads_memory x s :
  marks_ok s -> copies_ok s -> 0 <= x -> x + 3 < 2 ^ 32 -> room s 8 ->
  wp (jit_fetch_dword junk x) s (fun r s' => r = load 4 (guest_byte (guest s)) x /\ fetch_step s 8 s').
Proof. apply jit_fetch_dword_correct. Qed.

End fetch.
