(* ===== verification/MarksFind.v ===== *)
(** * Searching block starts, and dirty pages

    [m_findnode] returns the first start of a block in a range, [m_findnodestart]
    the start of the block a byte belongs to, [subpage_dirty] whether a marked
    byte of a page differs from its copy. *)

From stdpp Require Import base numbers list.
From Stdlib Require Import ZArith Lia.
From S2P Require Import Prelude Machine SimMem Marks MarksInv MarksQuery.

Local Open Scope Z_scope.

(** ** The lowest bit *)

Definition least_bit (w k : Z) : Prop := 0 <= k /\ Z.testbit w k = true /\ forall j, 0 <= j < k -> Z.testbit w j = false.

Lemma least_bit_exists w : 0 < w -> exists k, least_bit w k.
Proof.
  intros Hw. assert (forall n, (exists k, least_bit w k) \/ forall j, 0 <= j < Z.of_nat n -> Z.testbit w j = false) as Hsearch.
  { induction n as [|n [IH|IH]]; [right; lia|by left|].
    destruct (Z.testbit w (Z.of_nat n)) eqn:E.
    - left. exists (Z.of_nat n). split; [lia|]. by split.
    - right. intros j Hj. destruct (Z.eq_dec j (Z.of_nat n)) as [->|]; [done|]. apply IH. lia. }
  destruct (Hsearch (S (Z.to_nat (Z.log2 w)))) as [|Hn]; [done|]. pose proof (Z.log2_nonneg w).
  assert (Z.testbit w (Z.log2 w) = true) as E by (by apply Z.bit_log2). rewrite Hn in E by lia. done.
Qed.

Lemma odd_land_opp m : Z.odd m = true -> Z.land m (- m) = 1.
Proof.
  intros Hm. apply Z.odd_spec in Hm as [q ->]. replace (- (2 * q + 1)) with (Z.lnot (2 * q)) by (unfold Z.lnot; lia).
  apply Z.bits_inj'. intros i Hi. rewrite Z.land_spec, Z.lnot_spec by done. destruct (Z.eq_dec i 0) as [->|].
  - rewrite Z.testbit_odd_0, Z.testbit_even_0. done.
  - replace i with (Z.succ (i - 1)) by lia. rewrite Z.testbit_odd_succ, Z.testbit_even_succ by lia.
    rewrite andb_negb_r. symmetry. change 1 with (2 * 0 + 1). by rewrite Z.testbit_odd_succ, Z.testbit_0_l by lia.
Qed.

Lemma find_bit_least w k : least_bit w k -> find_bit w = k.
Proof.
  intros (Hk & Hb & Hlow). unfold find_bit. destruct (Z.eqb_spec w 0) as [->|Hw]; [by rewrite Z.testbit_0_l in Hb|].
  assert (w = Z.shiftl (w / 2 ^ k) k) as E.
  { rewrite Z.shiftl_mul_pow2 by done. pose proof (Z.div_mod w (2 ^ k) ltac:(lia)) as Ed.
    assert (w mod 2 ^ k = 0) as Em; [|lia]. apply Z.bits_inj'. intros i Hi. rewrite Z.bits_0.
    destruct (Z.lt_ge_cases i k); [rewrite Z.mod_pow2_bits_low by lia; apply Hlow; lia|by rewrite Z.mod_pow2_bits_high by lia]. }
  assert (Z.odd (w / 2 ^ k) = true) as Ho.
  { rewrite <- Z.bit0_odd, <- Z.shiftr_div_pow2, Z.shiftr_spec, Z.add_0_l by lia. done. }
  assert (- w = Z.shiftl (- (w / 2 ^ k)) k) as E2 by (rewrite E at 1; rewrite !Z.shiftl_mul_pow2 by done; lia).
  rewrite E2. rewrite E at 1. rewrite <- Z.shiftl_land, odd_land_opp by done. rewrite Z.shiftl_1_l. by apply Z.log2_pow2.
Qed.

Lemma least_bit_shiftr w k n : 0 <= n -> least_bit (Z.shiftr w n) k -> Z.testbit w (k + n) = true /\ forall j, n <= j < k + n -> Z.testbit w j = false.
Proof.
  intros Hn (Hk & Hb & Hl). rewrite Z.shiftr_spec in Hb by done. split; [done|]. intros j Hj.
  specialize (Hl (j - n) ltac:(lia)). rewrite Z.shiftr_spec in Hl by lia. by replace (j - n + n) with j in Hl by lia.
Qed.

Lemma find_bit64_least w k : 0 < w < 2 ^ 64 -> least_bit w k -> find_bit64 w = k.
Proof.
  intros Hw Hl. unfold find_bit64. replace (w =? 0) with false by (symmetry; apply Z.eqb_neq; lia).
  assert (k < 64) as Hk.
  { destruct (Z.lt_ge_cases k 64); [done|]. destruct Hl as (_ & Hb & _). by rewrite word_bit_high in Hb by lia. }
  destruct (Z.eqb_spec (u32 w) 0) as [E|E].
  - assert (forall j, 0 <= j < 32 -> Z.testbit w j = false) as Hlow.
    { intros j Hj. rewrite <- (Z.mod_pow2_bits_low w 32) by lia. change (w mod 2 ^ 32) with (u32 w). by rewrite E, Z.testbit_0_l. }
    destruct Hl as (Hk0 & Hb & Hl). assert (32 <= k) by (destruct (Z.lt_ge_cases k 32); [|done]; rewrite Hlow in Hb; done || lia).
    assert (least_bit (Z.shiftr w 32) (k - 32)) as Hl2.
    { split; [lia|]. rewrite Z.shiftr_spec by lia. replace (k - 32 + 32) with k by lia. split; [done|].
      intros j Hj. rewrite Z.shiftr_spec by lia. apply Hl. lia. }
    rewrite (find_bit_least _ _ Hl2). lia.
  - destruct Hl as (Hk0 & Hb & Hl). apply find_bit_least. split; [done|].
    assert (k < 32) as Hk2.
    { destruct (Z.lt_ge_cases k 32); [done|]. exfalso. apply E. apply Z.bits_inj'. intros i Hi. rewrite Z.bits_0. unfold u32.
      destruct (Z.lt_ge_cases i 32); [rewrite Z.mod_pow2_bits_low by lia; apply Hl; lia|by rewrite Z.mod_pow2_bits_high by lia]. }
    unfold u32. rewrite Z.mod_pow2_bits_low by lia. split; [done|]. intros j Hj. rewrite Z.mod_pow2_bits_low by lia. by apply Hl.
Qed.

(** The first bit from [n] on. *)
Lemma find_bit64_from_correct w n :
  0 <= w < 2 ^ 64 -> 0 <= n ->
  (find_bit64_from w n = -1 /\ forall j, n <= j -> Z.testbit w j = false) \/
  (exists f, find_bit64_from w n = f /\ n <= f < 64 /\ Z.testbit w f = true /\ forall j, n <= j < f -> Z.testbit w j = false).
Proof.
  intros Hw Hn. unfold find_bit64_from. destruct (Z.leb_spec 64 n).
  { left. split; [done|]. intros j Hj. apply word_bit_high; lia. }
  destruct (Z.eqb_spec (Z.shiftr w n) 0) as [E|E].
  { left. split; [done|]. intros j Hj. replace j with (j - n + n) by lia. rewrite <- Z.shiftr_spec by lia. by rewrite E, Z.testbit_0_l. }
  right. assert (0 < Z.shiftr w n < 2 ^ 64) as Hr.
  { rewrite Z.shiftr_div_pow2 in * by lia. pose proof (Z.pow_pos_nonneg 2 n ltac:(lia) Hn).
    pose proof (Z.div_pos w (2 ^ n)). pose proof (Z.div_le_upper_bound w (2 ^ n) (2 ^ 64 - 1)). nia. }
  destruct (least_bit_exists (Z.shiftr w n)) as [k Hk]; [lia|]. exists (k + n).
  rewrite (find_bit64_least _ k) by done. destruct (least_bit_shiftr w k n Hn Hk) as [Hb Hl].
  split; [done|]. split; [|done]. split; [destruct Hk; lia|].
  destruct (Z.lt_ge_cases (k + n) 64); [done|]. by rewrite word_bit_high in Hb by lia.
Qed.

Section find.
Context {G : Type} `{CodeMemLaws G}.
Implicit Types s : marks G.
#[local] Set Default Proof Using "Type*".

Definition no_start s (lo hi : Z) : Prop := forall x, lo <= x < hi -> starts s x = false.

Lemma no_start_app s lo mid hi : no_start s lo mid -> no_start s mid hi -> no_start s lo hi.
Proof. intros E1 E2 x Hx. destruct (Z.lt_ge_cases x mid); [apply E1|apply E2]; lia. Qed.

Lemma no_start_map s a hi : map_of s a = None -> hi <= (a / 2 ^ 20 + 1) * 2 ^ 20 -> no_start s a hi.
Proof.
  intros E Hhi x Hx. unfold starts, map_of in *.
  assert (x / 2 ^ 20 = a / 2 ^ 20) as -> by (Z.to_euclidean_division_equations; lia). by rewrite E.
Qed.

Lemma land_NM a : Z.land a NM_MASK = a mod 2 ^ 14.
Proof. change NM_MASK with (Z.ones 14). by rewrite Z.land_ones. Qed.

(** Words are numbered through the address space; a map has 2^14 of them. *)
Lemma word_start s w M f :
  map_of s (64 * w) = Some M -> 0 <= f < 64 -> starts s (64 * w + f) = Z.testbit (nodemap M (w mod 2 ^ 14)) f.
Proof.
  intros HM Hf. assert ((64 * w) mod 64 = 0) as Ha by (rewrite Z.mul_comm; by apply Z.mod_mul).
  destruct (block_of (64 * w) f Ha Hf) as (E1 & E2 & E3 & _). unfold starts, map_of in *. rewrite E1, HM.
  unfold test_bit. rewrite E2, E3. f_equal. f_equal. unfold offset. change (2 ^ 20) with (64 * 2 ^ 14).
  rewrite Z.mul_mod_distr_l, Z.mul_comm, Z.div_mul by lia. done.
Qed.

(** Where the search goes on: at [w] itself, or at the first word of a later map. *)
Definition skipped s (w last n : Z) (r : option (Z * (Z * Z * Z * Z))) (c : Z) : Prop :=
  match r with
  | None => no_start s (64 * w + n) (64 * (last + 1))
  | Some (m, (i, w', c', n')) =>
      (w' = w /\ n' = n \/ w < w') /\ i = w' mod 2 ^ 14 /\ c' - c = w' - w /\ 0 <= n' < 64 /\ no_start s (64 * w + n) (64 * w' + n') /\
      (exists M, map_of s (64 * w') = Some M /\ m = mega M)
  end.

Lemma skip_maps_finds fuel : forall w last c n s,
  marks_ok s -> 0 <= w -> 64 * last + 64 < ADDR_END -> w <= last + 1 -> 0 <= n < 64 ->
  (Z.to_nat (last / 2 ^ 14 - w / 2 ^ 14) < fuel)%nat ->
  finds (skip_maps fuel (w mod 2 ^ 14) w last c n) s (fun r => skipped s w last n r c).
Proof.
  induction fuel as [|fuel IH]; [lia|]. intros w last c n s Hs Hw Hend Hle Hn Hfuel. unfold ADDR_END in Hend. cbn [skip_maps].
  rewrite Z.shiftl_mul_pow2 by lia. change (2 ^ 6) with 64. rewrite (Z.mul_comm w). rewrite (u32_small (64 * w)) by lia.
  change ((64 * w) mod 2 ^ MEGA_SHIFT) with (offset (64 * w)). set (a2 := 64 * w - offset (64 * w)).
  assert (a2 = (w / 2 ^ 14) * 2 ^ 20) as Ea2 by (unfold a2, offset; Z.to_euclidean_division_equations; lia).
  assert (a2 / 2 ^ 20 = 64 * w / 2 ^ 20) as Em by (rewrite Ea2, Z.div_mul by lia; Z.to_euclidean_division_equations; lia).
  assert (map_of s a2 = map_of s (64 * w)) as Emap by (unfold map_of; by rewrite Em).
  eapply quiet_bind; [done|apply quiet_FindM; [done|Z.to_euclidean_division_equations; lia]|]. intros s1 Hs1 E1. rewrite Emap.
  destruct (map_of s (64 * w)) as [M|] eqn:HM; cbn [fmap option_fmap option_map].
  { apply finds_ret; [done|]. repeat split; try lia.
    - intros x Hx. lia.
    - by exists M. }
  assert (u32 (a2 + CGRMASK + 1) = (w / 2 ^ 14 + 1) * 2 ^ 20) as ->
    by (unfold CGRMASK; rewrite u32_small by (Z.to_euclidean_division_equations; lia); lia).
  rewrite Z.shiftr_div_pow2 by lia. replace ((w / 2 ^ 14 + 1) * 2 ^ 20 / 2 ^ 6) with ((w / 2 ^ 14 + 1) * 2 ^ 14)
    by (change (2 ^ 20) with (2 ^ 14 * 2 ^ 6); by rewrite Z.mul_assoc, Z.div_mul by lia).
  set (w2 := (w / 2 ^ 14 + 1) * 2 ^ 14).
  assert (no_start s (64 * w + n) (64 * w2)) as Hno.
  { intros x Hx. apply (no_start_map s (64 * w) (64 * w2)); [done| |lia]. unfold w2. Z.to_euclidean_division_equations; lia. }
  destruct (Z.leb_spec w2 last).
  - replace 0 with (w2 mod 2 ^ 14) at 1 by (unfold w2; by apply Z.mod_mul).
    eapply finds_mono; [apply (IH w2 last _ 0 s1); [done|unfold w2; Z.to_euclidean_division_equations; lia|done|lia|lia|]|].
    + unfold w2 in *. rewrite Z.div_mul by lia. pose proof (Z.div_le_lower_bound last (2 ^ 14) (w / 2 ^ 14 + 1) ltac:(lia) ltac:(lia)). lia.
    + intros [[m [[[i w'] c'] n']]|]; simpl.
      * intros (F1 & F2 & F3 & F4 & F5 & F6). assert (w < w2) by (unfold w2; Z.to_euclidean_division_equations; lia). repeat split; try done; try lia.
        -- unfold NM_MASK in F3. unfold w2 in F3 |- *. Z.to_euclidean_division_equations; lia.
        -- eapply no_start_app; [exact Hno|]. unfold no_start, starts, map_of in *. rewrite E1 in F5. by rewrite Z.add_0_r in F5.
        -- unfold map_of in *. by rewrite E1 in F6.
      * intros F. eapply no_start_app; [exact Hno|]. unfold no_start, starts, map_of in *. rewrite E1 in F. by rewrite Z.add_0_r in F.
  - apply finds_ret; [done|]. intros x Hx. apply Hno. lia.
Qed.

Definition node_found s (w last n c : Z) (r : option (Z * (Z * Z))) : Prop :=
  match r with
  | None => no_start s (64 * w + n) (64 * (last + 1))
  | Some (f, (w', c')) =>
      w <= w' <= last /\ c' - c = w' - w /\ 0 <= f < 64 /\ starts s (64 * w' + f) = true /\
      64 * w + n <= 64 * w' + f /\ no_start s (64 * w + n) (64 * w' + f)
  end.

Lemma node_found_later s w n w2 n2 last c c2 r :
  no_start s (64 * w + n) (64 * w2 + n2) -> w <= w2 -> 64 * w + n <= 64 * w2 + n2 -> c2 - c = w2 - w ->
  node_found s w2 last n2 c2 r -> node_found s w last n c r.
Proof.
  intros Hno Hle Hle2 Hc Hr. destruct r as [[f [w' c']]|]; simpl in *.
  - destruct Hr as (F1 & F2 & F3 & F4 & F5 & F6). repeat split; try lia; try done. by eapply no_start_app.
  - by eapply no_start_app.
Qed.

Lemma node_found_same s s' w last n c r : (forall a, starts s' a = starts s a) -> node_found s' w last n c r -> node_found s w last n c r.
Proof.
  intros Es. destruct r as [[f [w' c']]|]; simpl.
  - intros (F1 & F2 & F3 & F4 & F5 & F6). rewrite Es in F4. repeat split; try lia; try done. intros x Hx. rewrite <- Es. by apply F6.
  - intros F x Hx. rewrite <- Es. by apply F.
Qed.

Lemma same_MpH_view s s' : MpH s' = MpH s -> (forall a, map_of s' a = map_of s a) /\ (forall a, starts s' a = starts s a).
Proof. intros E. unfold starts, map_of. rewrite E. done. Qed.

Lemma findnode_loop_finds fuel skips : forall m w last c n s,
  marks_ok s -> 0 <= w <= last + 1 -> 64 * last + 64 < ADDR_END -> 0 <= n < 64 ->
  (Z.to_nat (last + 1 - w) < fuel)%nat -> (Z.to_nat (last / 2 ^ 14 - w / 2 ^ 14) < skips)%nat ->
  (w <= last -> exists M, map_of s (64 * w) = Some M /\ m = mega M) ->
  finds (findnode_loop fuel skips m (w mod 2 ^ 14) w last c n) s (node_found s w last n c).
Proof.
  induction fuel as [|fuel IH]; [lia|]. intros m w last c n s Hs Hw Hend Hn Hfuel Hskips Hm. cbn [findnode_loop].
  destruct (Z.ltb_spec last w).
  { apply finds_ret; [done|]. intros x Hx. lia. }
  destruct (Hm ltac:(lia)) as (M & HM & ->).
  eapply quiet_bind; [done|apply quiet_deref; [done|]|].
  { unfold map_of in HM. by rewrite (proj2 (has_map_Some _ _ _ HM)). }
  intros s1 Hs1 E1. destruct (map_of_words _ _ _ Hs HM) as [_ Hwords]. specialize (Hwords (w mod 2 ^ 14)).
  destruct (find_bit64_from_correct (nodemap M (w mod 2 ^ 14)) n Hwords ltac:(lia)) as [[-> Hnone]|(f & -> & Hf & Hb & Hlow)].
  2:{ replace (f =? -1) with false by (symmetry; apply Z.eqb_neq; lia). apply finds_ret; [done|].
      repeat split; try lia.
      - by rewrite (word_start s w M) by (done || lia).
      - intros x Hx. replace x with (64 * w + (x - 64 * w)) by lia. rewrite (word_start s w M) by (done || lia). apply Hlow. lia. }
  rewrite Z.eqb_refl. simpl negb. cbv iota.
  assert (no_start s (64 * w + n) (64 * (w + 1) + 0)) as Hno.
  { intros x Hx. replace x with (64 * w + (x - 64 * w)) by lia. rewrite (word_start s w M) by (done || lia). apply Hnone. lia. }
  destruct (same_MpH_view _ _ E1) as [Em1 Es1].
  rewrite land_NM, Zplus_mod_idemp_l.
  assert ((Z.to_nat (last / 2 ^ 14 - (w + 1) / 2 ^ 14) < skips)%nat) as Hskips'.
  { pose proof (Z.div_le_mono w (w + 1) (2 ^ 14) ltac:(lia) ltac:(lia)). lia. }
  destruct (Z.eqb_spec ((w + 1) mod 2 ^ 14) 0) as [E|E].
  - replace (skip_maps skips 0) with (skip_maps (G := G) skips ((w + 1) mod 2 ^ 14)) by (by rewrite E).
    eapply finds_bind; [done|apply (skip_maps_finds skips (w + 1) last (c + 1) 0 s1); [done|lia|done|lia|lia|done]|].
    intros [[m' [[[i w'] c'] n']]|] s2 Hsk Hs2 E2.
    + simpl in Hsk. destruct Hsk as (F1 & -> & F3 & F4 & F5 & (M' & F6 & ->)).
      destruct (same_MpH_view _ _ E2) as [Em2 Es2].
      destruct (Z.lt_ge_cases last w') as [Hlast|Hlast].
      * destruct fuel as [|fuel]; [lia|]. cbn [findnode_loop]. replace (last <? w') with true by (symmetry; by apply Z.ltb_lt).
        apply finds_ret; [done|]. simpl. intros x Hx. destruct (Z.lt_ge_cases x (64 * (w + 1))); [apply Hno; lia|].
        rewrite <- Es1. apply F5. lia.
      * pose proof (Z.div_le_mono (w + 1) w' (2 ^ 14) ltac:(lia) ltac:(lia)).
        eapply finds_mono; [apply (IH _ w' last c' 0 s2); [done|lia|done|lia|lia|lia|]|].
        -- intros _. exists M'. by rewrite Em2.
        -- intros r Hr. apply (node_found_later s w n w' 0 last c c'); [|lia|lia|lia|].
           ++ rewrite Z.add_0_r. intros x Hx. destruct (Z.lt_ge_cases x (64 * (w + 1))); [apply Hno; lia|].
              rewrite <- Es1. apply F5. lia.
           ++ revert Hr. apply node_found_same. intros a. by rewrite Es2.
    + apply finds_ret; [done|]. simpl in *. intros x Hx. destruct (Z.lt_ge_cases x (64 * (w + 1))); [apply Hno; lia|].
      rewrite <- Es1. apply Hsk. lia.
  - assert (w mod 2 ^ 14 + 1 = (w + 1) mod 2 ^ 14) as -> by (revert E; clear; Z.to_euclidean_division_equations; lia).
    eapply finds_mono; [apply (IH _ (w + 1) last _ 0 s1); [done|lia|done|lia|lia|done|]|].
    + intros _. exists M. rewrite Em1. split; [|done]. rewrite <- HM. unfold map_of. f_equal.
      revert E. clear. Z.to_euclidean_division_equations. lia.
    + intros r Hr. apply (node_found_later s w n (w + 1) 0 last c (c + 1)); [exact Hno|lia|lia|lia|].
      revert Hr. by apply node_found_same.
Qed.

(** ** [m_findnode] *)

Definition first_start s (addr len r : Z) : Prop :=
  (r = -1 /\ no_start s addr (addr + len)) \/ (addr <= r < addr + len /\ starts s r = true /\ no_start s addr r).

Lemma m_findnode_finds addr len s :
  marks_ok s -> 0 <= addr -> 0 < len -> addr + len + 64 <= ADDR_END ->
  finds (m_findnode addr len) s (first_start s addr len).
Proof.
  intros Hs Ha Hl Hend. unfold m_findnode, ADDR_END in *. unfold finds. wp_step.
  wp_step; [unfold truth; zbool; simpl; done || lia|]. rewrite u32_small by lia. rewrite land_NM.
  set (last := (addr + len - 1) / 64). set (w := addr / 64).
  assert (0 <= w <= last /\ addr = 64 * w + addr mod 64 /\ 0 <= addr mod 64 < 64 /\ addr + len - 1 = 64 * last + (addr + len - 1) mod 64 /\
    0 <= (addr + len - 1) mod 64 < 64) as (Hw & Ew & Hn & El & Hm) by (unfold w, last; Z.to_euclidean_division_equations; lia).
  set (n := addr mod 64) in *. set (m := (addr + len - 1) mod 64) in *. set (skips := S (Z.to_nat ((last - w) / (NM_MASK + 1) + 1))).
  assert (Z.to_nat (last / 2 ^ 14 - w / 2 ^ 14) < skips)%nat as Hskips.
  { unfold skips, NM_MASK. clear - Hw. Z.to_euclidean_division_equations. lia. }
  wp_step. eapply wp_mono; [apply (skip_maps_finds skips w last 0 n s); [done|lia|unfold ADDR_END; lia|lia|lia|done]|].
  intros [[mp [[[i w'] c'] n']]|] s1 [Hsk Hss]; simpl in Hsk; pose proof (seen_ok _ _ Hss Hs) as Hs1;
    destruct (same_MpH_view _ _ (seen_MpH _ _ Hss)) as [Em1 Es1].
  2:{ wp_step. split; [|done]. left. split; [done|]. intros x Hx. apply Hsk. lia. }
  destruct Hsk as (F1 & -> & F3 & F4 & F5 & (M & F6 & ->)).
  wp_step. set (fuel := S (S (Z.to_nat (last - w')))).
  eapply (wp_mono _ _ (fun r s' => node_found s w last n 0 r /\ seen s s')).
  { destruct (Z.lt_ge_cases last w') as [Hlt|Hge].
    - unfold fuel. cbn [findnode_loop]. replace (last <? w') with true by (symmetry; by apply Z.ltb_lt). wp_step. split; [|done].
      simpl. intros x Hx. apply F5. lia.
    - eapply wp_mono; [apply (findnode_loop_finds fuel skips (mega M) w' last c' n' s1);
        [done|lia|unfold ADDR_END; lia|lia|unfold fuel; lia| |]|].
      + pose proof (Z.div_le_mono w w' (2 ^ 14) ltac:(lia) ltac:(lia)). lia.
      + intros _. exists M. by rewrite Em1.
      + intros r s2 [Hr Hss2]. split; [|by eapply seen_trans]. apply (node_found_later s w n w' n' last 0 c'); [exact F5|lia| |lia|].
        * lia.
        * revert Hr. by apply node_found_same. }
  intros [[f [w2 c2]]|] s2 [Hr Hss2]; simpl in Hr.
  2:{ wp_step. split; [|done]. left. split; [done|]. intros x Hx. apply Hr. lia. }
  destruct Hr as (G1 & G2 & G3 & G4 & G5 & G6).
  destruct ((w2 =? last) && (m <? f)) eqn:E.
  - wp_step. split; [|done]. left. split; [done|]. intros x Hx. apply G6. revert E. zbool; simpl; done || lia.
  - wp_step. split; [|done]. right. fold n. rewrite u32_small by lia.
    replace (addr - n + c2 * 64 + f) with (64 * w2 + f) by lia. split; [|split; [done|]].
    + split; [lia|]. destruct (Z.eq_dec w2 last) as [->|]; [|lia]. revert E. zbool; simpl; done || lia.
    + intros x Hx. apply G6. lia.
Qed.

(** ** [m_findnodestart] *)

(** [a] belongs to a block that starts at [r]. *)
Definition in_block s (r a : Z) : Prop := 0 <= r <= a /\ starts s r = true /\ forall x, r <= x <= a -> marked s x = true.
Definition last_start s (a r : Z) : Prop := r <= a /\ starts s r = true /\ forall x, r < x <= a -> starts s x = false.

Lemma findnodestart_loop_finds s fuel : forall once a M s',
  marks_ok s' -> MpH s' = MpH s -> 0 <= a -> map_of s a = Some M -> (exists r, in_block s r a /\ (Z.to_nat (a - r) < fuel)%nat) ->
  finds (findnodestart_loop fuel once (mega M) (offset a) (a - offset a)) s' (last_start s a).
Proof.
  induction fuel as [|fuel IH]; intros once a M s' Hs' E Ha HM (r & (Hr & Hst & Hin) & Hfuel); [lia|]. cbn [findnodestart_loop].
  eapply quiet_bind; [done|by apply (subpage_bit_quiet s)|]. intros s1 Hs1 E1. rewrite E in E1.
  rewrite (Hin a) by lia. simpl negb. cbv iota.
  eapply quiet_bind; [done|by apply (nodemap_bit_quiet s)|]. intros s2 Hs2 E2. rewrite E1 in E2.
  destruct (starts s a) eqn:Es.
  { apply finds_ret; [done|]. replace (a - offset a + offset a) with a by lia. split; [done|]. split; [done|]. intros x Hx. lia. }
  assert (r < a) as Hlt by (destruct (Z.eq_dec r a) as [->|]; [congruence|lia]).
  assert (exists r0, in_block s r0 (a - 1) /\ (Z.to_nat (a - 1 - r0) < fuel)%nat) as Hprev.
  { exists r. split; [|lia]. split; [lia|]. split; [done|]. intros x Hx. apply Hin. lia. }
  assert (marked s (a - 1) = true) as Hm by (apply Hin; lia). destruct (marked_has s (a - 1) Hm) as [M' HM'].
  assert (forall c, last_start s (a - 1) c -> last_start s a c) as Hlast.
  { intros c (F1 & F2 & F3). split; [lia|]. split; [done|]. intros x Hx. destruct (Z.eq_dec x a) as [->|]; [done|]. apply F3. lia. }
  pose proof (offset_range a) as Ho. destruct (Z.eqb_spec (offset a) 0) as [E0|E0].
  - eapply (quiet_bind _ _ _ tt); [done|unfold truth; replace (a - offset a =? 0) with false by (symmetry; apply Z.eqb_neq; lia); by apply quiet_ret|].
    intros s3 Hs3 E3. rewrite E2 in E3.
    assert (a - offset a - (CGRMASK + 1) = a - 1 - offset (a - 1) /\ offset (a - 1) = CGRMASK) as [Ea Eo].
    { revert E0 Ha Hlt Hr. unfold offset, CGRMASK. clear. Z.to_euclidean_division_equations. lia. }
    rewrite Ea. eapply quiet_bind; [done|apply quiet_FindM; [done|]|].
    { unfold offset. Z.to_euclidean_division_equations. lia. }
    intros s4 Hs4 E4. rewrite E3 in E4.
    assert (map_of s3 (a - 1 - offset (a - 1)) = Some M') as ->.
    { unfold map_of in *. rewrite E3, <- HM'. f_equal. unfold offset. clear. Z.to_euclidean_division_equations. lia. }
    cbn [fmap option_fmap option_map]. rewrite <- Eo. eapply finds_mono; [apply (IH true (a - 1) M' s4); done || lia|exact Hlast].
  - assert (offset a - 1 = offset (a - 1) /\ a - offset a = a - 1 - offset (a - 1) /\ a / 2 ^ 20 = (a - 1) / 2 ^ 20) as (-> & -> & Em).
    { revert E0 Ha. unfold offset. clear. Z.to_euclidean_division_equations. lia. }
    assert (M' = M) as -> by (unfold map_of in *; rewrite Em in HM; congruence).
    eapply finds_mono; [apply (IH true (a - 1) M s2); done || lia|exact Hlast].
Qed.

Lemma m_findnodestart_finds a s :
  marks_ok s -> 0 <= a -> (marked s a = true -> exists r, in_block s r a) ->
  finds (m_findnodestart a) s (fun r => if marked s a then last_start s a r else r = -1).
Proof.
  intros Hs Ha Hblock. unfold m_findnodestart. eapply quiet_bind; [done|by apply quiet_FindM|]. intros s1 Hs1 E1.
  rewrite !land_CGRMASK. destruct (map_of s a) as [M|] eqn:HM; cbn [fmap option_fmap option_map].
  2:{ unfold marked. rewrite HM. by apply finds_ret. }
  destruct (marked s a) eqn:Em.
  - apply findnodestart_loop_finds; try done. destruct (Hblock eq_refl) as (r & Hr). exists r. split; [done|]. destruct Hr. lia.
  - cbn [findnodestart_loop]. eapply quiet_bind; [done|by apply (subpage_bit_quiet s)|]. intros s2 Hs2 E2. rewrite Em. simpl negb. cbv iota.
    eapply (quiet_bind _ _ _ tt); [done|by apply quiet_ret|]. intros s3 Hs3 _. by apply finds_ret.
Qed.

(** ** [subpage_dirty] *)

Lemma dirty_word_iff p g p1 i word : 0 <= word < 2 ^ 64 -> forall fuel n,
  -1 <= n -> (Z.to_nat (63 - n) < fuel)%nat ->
  dirty_word fuel p g p1 i word n = true <->
  exists b, n < b < 64 /\ Z.testbit word b = true /\ p (i * 64 + b) <> guest_byte g (p1 + (i * 64 + b)).
Proof.
  intros Hw. induction fuel as [|fuel IH]; intros n Hn Hfuel; [lia|]. cbn [dirty_word].
  destruct (find_bit64_from_correct word (n + 1) Hw ltac:(lia)) as [[-> Hnone]|(f & -> & Hf & Hb & Hlow)].
  - rewrite Z.eqb_refl. split; [done|]. intros (b & Hb & Ht & _). rewrite Hnone in Ht by lia. done.
  - replace (f =? -1) with false by (symmetry; apply Z.eqb_neq; lia).
    destruct (Z.eqb_spec (p (i * 64 + f)) (guest_byte g (p1 + (i * 64 + f)))) as [E|E]; simpl.
    + rewrite IH by lia. split; intros (b & Hbr & Ht & Hne); exists b; (split; [|done]); [lia|].
      destruct (Z.lt_trichotomy b f) as [Hlt|[->|]]; [rewrite Hlow in Ht by lia; done|done|lia].
    + split; [|done]. intros _. exists f. split; [lia|done].
Qed.

Lemma subpage_dirty_iff p g p1 M page :
  words_ok (subpage M) -> 0 <= page ->
  subpage_dirty p g p1 M page = true <->
  exists b, 0 <= b < HOST_PAGE_SIZE /\ test_bit (page * HOST_PAGE_SIZE + b) (subpage M) = true /\ p b <> guest_byte g (p1 + b).
Proof.
  intros Hw Hp. unfold subpage_dirty. rewrite existsb_exists. unfold HOST_PAGE_SIZE.
  assert (forall i b, 0 <= i < 64 -> 0 <= b < 64 ->
    test_bit (page * 4096 + (i * 64 + b)) (subpage M) = Z.testbit (subpage M (page * 64 + i)) b) as Hbit.
  { intros i b Hi Hb. unfold test_bit. replace ((page * 4096 + (i * 64 + b)) / 64) with (page * 64 + i) by (Z.to_euclidean_division_equations; lia).
    replace ((page * 4096 + (i * 64 + b)) mod 64) with b by (Z.to_euclidean_division_equations; lia). done. }
  split.
  - intros (i & Hi & Hd). apply in_seq in Hi. apply dirty_word_iff in Hd; [|apply Hw|lia|lia].
    destruct Hd as (b & Hb & Ht & Hne). exists (Z.of_nat i * 64 + b). split; [lia|]. split; [|done]. by rewrite Hbit by lia.
  - intros (b & Hb & Ht & Hne). exists (Z.to_nat (b / 64)). split; [apply in_seq; Z.to_euclidean_division_equations; lia|].
    assert (b = b / 64 * 64 + b mod 64) as Eb by (Z.to_euclidean_division_equations; lia).
    rewrite Z2Nat.id by (Z.to_euclidean_division_equations; lia). apply dirty_word_iff; [apply Hw|lia|lia|].
    exists (b mod 64). rewrite <- Eb. split; [Z.to_euclidean_division_equations; lia|]. split; [|done].
    rewrite <- Hbit by (Z.to_euclidean_division_equations; lia). by rewrite <- Eb.
Qed.

(** M_findnode terminates and returns the first block start in the range,
    or -1 when there is none, skipping megabytes without a map. *)
Theorem m_findnode_correct addr len s :
  marks_ok s -> 0 <= addr -> 0 < len -> addr + len + 64 <= ADDR_END ->
  finds (m_findnode addr len) s (first_start s addr len).
Proof. apply m_findnode_finds. Qed.

(** [subpage_dirty] is true exactly when a marked byte of the page differs from
    its copy. *)
Theorem subpage_dirty_correct p g p1 M page :
  words_ok (subpage M) -> 0 <= page ->
  subpage_dirty p g p1 M page = true <->
  exists b, 0 <= b < HOST_PAGE_SIZE /\ test_bit (page * HOST_PAGE_SIZE + b) (subpage M) = true /\ p b <> guest_byte g (p1 + b).
Proof. apply subpage_dirty_iff. Qed.

End find.
