(* ===== verification/Tlb.v ===== *)
(** * Guest memory through the software TLB (src/src/base/misc/dos2linux.c,
    [mprotect_mapping] of src/src/base/lib/mapping/mapping.c,
    [emu_pagefault_handler] of simx86/codegen-sim.c)

    The CPU simulator reads and writes guest memory through a cache of 4096
    pages that are known to be plain memory; everything else is checked: the VGA
    windows, the memory of DPMI clients, ROM and the pages that are protected
    because code on them has been translated. *)

From stdpp Require Import base numbers list.
From Stdlib Require Import ZArith Lia.
From S2P Require Import Prelude Dosmem Machine SimMem Marks.

Local Open Scope Z_scope.

(** ** State

    [V] is the state of the emulated video hardware. *)

Record gmem (V : Type) := MkGmem {
  phys : dosmem;
  unprotected_page_cache : Z -> Z;
  unprotected_page_unixaddr_tlb : Z -> Z;
  video : V;
}.
Arguments MkGmem {V}. Arguments phys {V}. Arguments unprotected_page_cache {V}.
Arguments unprotected_page_unixaddr_tlb {V}. Arguments video {V}.
#[export] Instance eta_gmem V : Eta (gmem V) :=
  fun g => MkGmem g.(phys) g.(unprotected_page_cache) g.(unprotected_page_unixaddr_tlb) g.(video).

(** What the accesses ask other parts of the program; [vga_read] and
    [vga_write] access 1, 2 or 4 bytes of video memory. *)
Record access_env (V : Type) := MkAccessEnv {
  ae_mem :> mem_env;
  memcheck_rom : Z -> bool;
  dpmi_read_access : Z -> bool;
  dpmi_write_access : Z -> bool;
  mmio_traced : Z -> bool;                       (* config.mmio_tracing && mmio_check(addr) *)
  vga_read : nat -> Z -> gmem V -> Z * gmem V;
  vga_write : nat -> Z -> Z -> gmem V -> gmem V;
}.
Arguments ae_mem {V}. Arguments memcheck_rom {V}. Arguments dpmi_read_access {V}. Arguments dpmi_write_access {V}.
Arguments mmio_traced {V}. Arguments vga_read {V}. Arguments vga_write {V}.

Definition NO_PAGE : Z := 0xffffffff.
Definition page_hash (addr : Z) : Z := addr / PAGE_SIZE mod PAGE_SIZE.
Definition page_of (addr : Z) : Z := addr - addr mod PAGE_SIZE.      (* addr & _PAGE_MASK *)

(** [static dosaddr_t unprotected_page_cache[PAGE_SIZE] = {0xffffffff}]. *)
Definition initial_page_cache : Z -> Z := fun i => if i =? 0 then NO_PAGE else 0.
Definition initial_tlb : Z -> Z := fun _ => 0.

(** ** The cache *)

Fixpoint invalidate_pages (n : nat) (page : Z) (c : Z -> Z) : Z -> Z :=
  match n with
  | O => c
  | S n => invalidate_pages n (page + 1) (fun i => if i =? page mod PAGE_SIZE then NO_PAGE else c i)
  end.

Definition invalidate_unprotected_page_cache {V} (addr len : Z) (g : gmem V) : gmem V :=
  g <| unprotected_page_cache ::=
    invalidate_pages (Z.to_nat (u32 (addr + len - 1) / PAGE_SIZE + 1 - addr / PAGE_SIZE)) (addr / PAGE_SIZE) |>.

(** The host pointer, [None] for NULL. *)
Definition unprotected_dosaddr_to_unixaddr {V} (g : gmem V) (addr len : Z) : option Z :=
  let h := page_hash addr in
  if unprotected_page_cache g h =? page_of (u32 (addr + len - 1)) then
    let p := unprotected_page_unixaddr_tlb g h + addr mod PAGE_SIZE in
    if p =? 0 then None else Some p
  else None.

Definition set_unprotected_page {V} (addr uaddr : Z) (g : gmem V) : gmem V :=
  let h := page_hash addr in
  g <| unprotected_page_cache ::= fun c i => if i =? h then page_of addr else c i |>
    <| unprotected_page_unixaddr_tlb ::= fun t i => if i =? h then page_of uaddr else t i |>.

(** [mprotect_mapping(MAPPING_CPUEMU, ...)]: the pages leave the cache; [jit] is
    the [mprotect] of the JIT's own mapping of guest memory, if there is one. *)
Definition mprotect_cpuemu {V} (jit : option (Z -> Z -> Z -> Z)) (targ mapsize protect : Z) : M (gmem V) Z :=
  modify (invalidate_unprotected_page_cache targ mapsize) ;;
  ret (match jit with None => 0 | Some mprotect => mprotect targ mapsize protect end).

Section access.
Context {V E : Type} `{CodeMem (gmem V)} (env : access_env V).

Definition sim_pagefault_handler : Type := Z -> Z -> Z -> Z -> X E (marks (gmem V)) unit.
Context (handler : sim_pagefault_handler).

Definition mem_get : X E (marks (gmem V)) (gmem V) := lift (gets guest).
Definition mem_update (f : gmem V -> gmem V) : X E (marks (gmem V)) unit := lift (modify (fun s => s <| guest ::= f |>)).

(** A whole access of the VGA emulator. *)
Definition mem_vga_read (n : nat) (addr : Z) : X E (marks (gmem V)) Z :=
  let? g := mem_get in
  let (v, g) := vga_read env n addr g in mem_update (fun _ => g) ?; xret v.

Definition UNIX_READ (n : nat) (p : Z) : X E (marks (gmem V)) Z := let? g := mem_get in xret (load n (host (phys g)) p).
Definition UNIX_WRITE (n : nat) (p v : Z) : X E (marks (gmem V)) unit :=
  mem_update (fun g => g <| phys ::= fun d => d <| host ::= store n v p |> |>).

Definition unix_addr (addr : Z) : X E (marks (gmem V)) Z := let? g := mem_get in xret (dosaddr_to_unixaddr env (phys g) addr).
Definition fast_addr (addr len : Z) : X E (marks (gmem V)) (option Z) :=
  let? g := mem_get in xret (unprotected_dosaddr_to_unixaddr g addr len).

Definition check_read_pagefault (addr uaddr : Z) : X E (marks (gmem V)) unit :=
  let cache :=
    let? qp := lift (e_querymprot addr) in
    if negb qp && negb (memcheck_rom env addr) then mem_update (set_unprotected_page addr uaddr) else xret tt in
  if ALIAS_SIZE <=? addr then
    (if dpmi_read_access env addr then xret tt else handler addr 4 0 0) ?;
    if dpmi_write_access env addr then cache else xret tt
  else cache.

(** The tail the reads share: the access when the page is not in the cache. *)
Definition slow_read (n : nat) (addr : Z) : X E (marks (gmem V)) Z :=
  if vga_write_access env addr then mem_vga_read n addr
  else if mmio_traced env addr then let? p := unix_addr addr in UNIX_READ n p
  else
    let? uaddr := unix_addr addr in
    check_read_pagefault addr uaddr ?; UNIX_READ n uaddr.

Definition do_read_byte (addr : Z) : X E (marks (gmem V)) Z :=
  let? p := fast_addr addr 1 in
  match p with Some p => UNIX_READ 1 p | None => slow_read 1 addr end.

Definition do_read_word (addr : Z) : X E (marks (gmem V)) Z :=
  let? p := fast_addr addr 2 in
  match p with
  | Some p => UNIX_READ 2 p
  | None =>
    if u32 (addr + 1) mod PAGE_SIZE =? 0 then
      let? l := do_read_byte addr in
      let? h := do_read_byte (u32 (addr + 1)) in xret (Z.lor l (Z.shiftl h 8))
    else slow_read 2 addr
  end.

Definition do_read_dword (addr : Z) : X E (marks (gmem V)) Z :=
  let? p := fast_addr addr 4 in
  match p with
  | Some p => UNIX_READ 4 p
  | None =>
    if u32 (addr + 3) mod PAGE_SIZE <? 3 then
      let? l := do_read_word addr in
      let? h := do_read_word (u32 (addr + 2)) in xret (Z.lor l (Z.shiftl h 16))
    else slow_read 4 addr
  end.

Definition do_read_qword (addr : Z) : X E (marks (gmem V)) Z :=
  let? l := do_read_dword addr in
  let? h := do_read_dword (u32 (addr + 4)) in xret (Z.lor l (Z.shiftl h 32)).

(** Whether the access has been refused. *)
Definition check_write_pagefault (addr uaddr op len : Z) : X E (marks (gmem V)) bool :=
  if (ALIAS_SIZE <=? addr) && negb (dpmi_write_access env addr) then
    handler addr (6 + of_bool (dpmi_read_access env addr)) op len ?; xret true
  else
    let? qp := lift (e_querymprot addr) in
    (if qp then handler addr (-1) op len
     else if negb (memcheck_rom env addr) then mem_update (set_unprotected_page addr uaddr) else xret tt) ?;
    xret false.

Definition slow_write (n : nat) (addr v : Z) : X E (marks (gmem V)) unit :=
  if vga_write_access env addr then mem_update (vga_write env n addr v)
  else
    let? uaddr := unix_addr addr in
    let? refused := check_write_pagefault addr uaddr v (Z.of_nat n) in
    if refused then xret tt else UNIX_WRITE n uaddr v.

Definition do_write_byte (addr v : Z) : X E (marks (gmem V)) unit :=
  let? p := fast_addr addr 1 in
  match p with Some p => UNIX_WRITE 1 p v | None => slow_write 1 addr v end.

Definition do_write_word (addr v : Z) : X E (marks (gmem V)) unit :=
  let? p := fast_addr addr 2 in
  match p with
  | Some p => UNIX_WRITE 2 p v
  | None =>
    if u32 (addr + 1) mod PAGE_SIZE =? 0 then
      do_write_byte addr (Z.land v 0xff) ?; do_write_byte (u32 (addr + 1)) (Z.shiftr v 8)
    else slow_write 2 addr v
  end.

Definition do_write_dword (addr v : Z) : X E (marks (gmem V)) unit :=
  let? p := fast_addr addr 4 in
  match p with
  | Some p => UNIX_WRITE 4 p v
  | None =>
    if u32 (addr + 3) mod PAGE_SIZE <? 3 then
      do_write_word addr (Z.land v 0xffff) ?; do_write_word (u32 (addr + 2)) (Z.shiftr v 16)
    else slow_write 4 addr v
  end.

Definition do_write_qword (addr v : Z) : X E (marks (gmem V)) unit :=
  do_write_dword addr (Z.land v 0xffffffff) ?; do_write_dword (u32 (addr + 4)) (Z.shiftr v 32).

(** [read_byte] ... [write_qword] and [sim_read_byte] ... [sim_write_qword] are
    these with a handler of their own; [n] is the number of bytes. *)
Definition do_read (n : nat) (addr : Z) : X E (marks (gmem V)) Z :=
  match n with
  | 1%nat => do_read_byte addr
  | 2%nat => do_read_word addr
  | 4%nat => do_read_dword addr
  | 8%nat => do_read_qword addr
  | _ => lift (throw OutOfBounds)
  end.

Definition do_write (n : nat) (addr v : Z) : X E (marks (gmem V)) unit :=
  match n with
  | 1%nat => do_write_byte addr v
  | 2%nat => do_write_word addr v
  | 4%nat => do_write_dword addr v
  | 8%nat => do_write_qword addr v
  | _ => lift (throw OutOfBounds)
  end.

End access.

(** [update_aliasmap]: the remapped pages leave the cache. *)
Definition update_aliasmap_cached {V} (dosaddr mapsize unixaddr : Z) (g : gmem V) : gmem V :=
  if ALIAS_SIZE <=? dosaddr then g
  else invalidate_unprotected_page_cache dosaddr mapsize (g <| phys ::= update_aliasmap dosaddr mapsize unixaddr |>).

(** ** Handlers *)

Section handlers.
Context {V : Type} `{CodeMem (gmem V)}.

(** [default_sim_pagefault_handler]: [e_invalidate] drops the translated code. *)
Definition default_sim_pagefault_handler {E} (e_invalidate : Z -> Z -> M (marks (gmem V)) unit) : sim_pagefault_handler (V := V) (E := E) :=
  fun addr err op len => if err =? -1 then lift (e_invalidate addr len) else lift (throw LeaveDos).

(** [emu_pagefault_handler] up to the jump: [InvalidateNodeRangeFromFault] of
    trees.c, the LDT of msdos.c. *)
Definition emu_pagefault_handler (in_emu_cpu : bool) (e_invalidate InvalidateNodeRangeFromFault : Z -> Z -> M (marks (gmem V)) unit)
    (msdos_ldt_access : Z -> bool) (emu_ldt_write : Z -> Z -> Z -> M (marks (gmem V)) unit) :
    sim_pagefault_handler (V := V) (E := pagefault) :=
  fun addr err op len =>
    if negb in_emu_cpu then default_sim_pagefault_handler e_invalidate addr err op len
    else if err =? -1 then
      lift (let! m := e_querymark addr len in if m then InvalidateNodeRangeFromFault addr len else ret tt)
    else if truth (Z.land err 2) && msdos_ldt_access addr then lift (emu_ldt_write addr op len)
    else jump (MkPf addr err).

End handlers.
