(* ===== verification/TlbSpec.v ===== *)
(** * Guest memory through the software TLB: correctness

    The cache of unprotected pages only ever holds plain pages with their host
    addresses; an access returns what the page table says, whether it hits or
    not; a write to a page with translated code always reaches the handler
    first.  The memory is a [CodeMem] for the marks and a [Bus] for the
    simulated CPU. *)

From stdpp Require Import base numbers list.
From Stdlib Require Import ZArith Lia.
From S2P Require Import Prelude Dosmem Machine SimMem Marks MarksInv MarksQuery MarksPages MarksProt MarksMark MarksFetch Tlb.

Local Open Scope Z_scope.

(** ** Pages *)

Lemma page_of_spec a : page_of a mod PAGE_SIZE = 0 /\ page_of a <= a < page_of a + PAGE_SIZE.
Proof. unfold page_of, PAGE_SIZE. Z.to_euclidean_division_equations. lia. Qed.

Lemma page_of_start a : page_of a = page_start a.
Proof. done. Qed.

(** Two pages with the same hash that meet in an access are the same page. *)
Lemma hash_meets a b :
  0 <= a -> a <= b < a + PAGE_SIZE -> page_hash a = page_hash (page_of b) -> page_of a = page_of b.
Proof. unfold page_hash, page_of, PAGE_SIZE. Z.to_euclidean_division_equations. lia. Qed.

Lemma page_of_idem a : page_of (page_of a) = page_of a.
Proof. unfold page_of, PAGE_SIZE. Z.to_euclidean_division_equations. lia. Qed.

Lemma page_hash_page a : page_hash (page_of a) = page_hash a.
Proof. unfold page_hash, page_of, PAGE_SIZE. Z.to_euclidean_division_equations. lia. Qed.

Lemma page_hash_range a : 0 <= page_hash a < PAGE_SIZE.
Proof. apply Z.mod_pos_bound. done. Qed.

Lemma no_page a : page_of a <> NO_PAGE.
Proof. unfold page_of, PAGE_SIZE, NO_PAGE. Z.to_euclidean_division_equations. lia. Qed.

(** ** Invalidation *)

Lemma invalidate_pages_spec n : forall page c i,
  invalidate_pages n page c i = NO_PAGE \/
  (invalidate_pages n page c i = c i /\ forall k, page <= k < page + Z.of_nat n -> k mod PAGE_SIZE <> i).
Proof.
  induction n as [|n IH]; intros page c i; simpl.
  { right. split; [done|]. intros k Hk. lia. }
  destruct (IH (page + 1) (fun i => if i =? page mod PAGE_SIZE then NO_PAGE else c i) i) as [E|[E Hk]]; [by left|].
  destruct (Z.eqb_spec i (page mod PAGE_SIZE)) as [Ei|Hi]; [left; exact E|]. right. split; [done|]. intros k Hk'.
  destruct (Z.eq_dec k page) as [->|]; [done|]. apply Hk. lia.
Qed.

Lemma invalidate_entry {V} addr len (g : gmem V) i :
  unprotected_page_cache (invalidate_unprotected_page_cache addr len g) i = NO_PAGE \/
  unprotected_page_cache (invalidate_unprotected_page_cache addr len g) i = unprotected_page_cache g i.
Proof. unfold invalidate_unprotected_page_cache. simpl. edestruct invalidate_pages_spec as [E|[E _]]; [by left; rewrite E|by right; rewrite E]. Qed.

Lemma invalidate_gone {V} addr len (g : gmem V) a :
  0 <= addr -> 0 < len -> addr + len <= 2 ^ 32 -> page_of addr <= a < addr + len ->
  unprotected_page_cache (invalidate_unprotected_page_cache addr len g) (page_hash a) = NO_PAGE.
Proof.
  intros Ha Hl Hend Hr. unfold invalidate_unprotected_page_cache. simpl. rewrite u32_small by lia.
  edestruct invalidate_pages_spec as [E|[_ Hk]]; [exact E|]. exfalso. apply (Hk (a / PAGE_SIZE)); [|done].
  unfold page_of, PAGE_SIZE in *. Z.to_euclidean_division_equations. lia.
Qed.

Section spec.
Context {V : Type} (env : access_env V) (jit : option (Z -> Z -> Z -> Z)).
#[local] Set Default Proof Using "Type".

Definition gbyte (g : gmem V) (a : Z) : Z := READ_BYTE env (phys g) a.

#[local] Instance gmem_code_mem : CodeMem (gmem V) :=
  {| mprotect_mapping := mprotect_cpuemu jit; guest_byte := gbyte |}.

(** The host's [mprotect] succeeds. *)
Hypothesis jit_ok : forall f b n p, jit = Some f -> 0 <= f b n p.

(** The attributes of memory are those of pages; the host's memory above the
    page table consists of whole pages. *)
Record env_ok : Prop := {
  eo_vga a b : page_of a = page_of b -> vga_write_access env a = vga_write_access env b;
  eo_rom a b : page_of a = page_of b -> memcheck_rom env a = memcheck_rom env b;
  eo_read a b : page_of a = page_of b -> dpmi_read_access env a = dpmi_read_access env b;
  eo_write a b : page_of a = page_of b -> dpmi_write_access env a = dpmi_write_access env b;
  eo_above a : ALIAS_SIZE <= a -> above_alias env a = above_alias env (page_of a) + a mod PAGE_SIZE;
  eo_above_page a : ALIAS_SIZE <= a -> above_alias env (page_of a) mod PAGE_SIZE = 0 /\ 0 < above_alias env (page_of a);
}.
Hypothesis Henv : env_ok.

Definition pages_ok (d : dosmem) : Prop := forall pg, 0 <= pg -> lowmem_aliasmap d pg mod PAGE_SIZE = 0 /\ 0 < lowmem_aliasmap d pg.

Abbreviation unix := (dosaddr_to_unixaddr env).

(** What may be cached: memory that is neither video memory nor ROM and that
    the DPMI client, if it is its own, may write. *)
Definition below_dpmi (a : Z) : bool := a <? ALIAS_SIZE.
Definition plain (a : Z) : bool :=
  negb (vga_write_access env a) && negb (memcheck_rom env a) &&
  (below_dpmi a || (dpmi_read_access env a && dpmi_write_access env a)).

Definition entry_ok (g : gmem V) (i : Z) : Prop :=
  let c := unprotected_page_cache g i in
  c = NO_PAGE \/ (c = 0 /\ i <> 0) \/
  (c mod PAGE_SIZE = 0 /\ 0 <= c < 2 ^ 32 /\ page_hash c = i /\ plain c = true /\ unprotected_page_unixaddr_tlb g i = unix (phys g) c).

Record guest_ok (g : gmem V) : Prop := {
  go_pages : pages_ok (phys g);
  go_bytes : bytes_ok (host (phys g));
  go_cache i : 0 <= i < PAGE_SIZE -> entry_ok g i;
}.

Definition page_clean (g : gmem V) (a : Z) : Prop := unprotected_page_cache g (page_hash a) <> page_of a.

Lemma unix_page d a : 0 <= a -> pages_ok d -> unix d a = unix d (page_of a) + a mod PAGE_SIZE /\ unix d (page_of a) mod PAGE_SIZE = 0 /\ 0 < unix d (page_of a).
Proof using Henv.
  intros Ha Hd. unfold dosaddr_to_unixaddr. destruct (page_of_spec a) as [E1 E2].
  assert ((page_of a <? ALIAS_SIZE) = (a <? ALIAS_SIZE)) as ->.
  { unfold ALIAS_SIZE, PAGE_SIZE in *. zbool; try done; Z.to_euclidean_division_equations; lia. }
  destruct (Z.ltb_spec a ALIAS_SIZE).
  - assert (page_of a / PAGE_SIZE = a / PAGE_SIZE) as -> by (unfold page_of, PAGE_SIZE; Z.to_euclidean_division_equations; lia).
    rewrite E1. destruct (Hd (a / PAGE_SIZE)) as [F1 F2]; [by apply Z.div_pos|]. rewrite Z.add_0_r. done.
  - split; [by apply (eo_above Henv)|by apply (eo_above_page Henv)].
Qed.

Lemma unix_in_page d a i : 0 <= a -> pages_ok d -> 0 <= i -> a mod PAGE_SIZE + i < PAGE_SIZE -> unix d (a + i) = unix d a + i.
Proof using Henv.
  intros Ha Hd Hi Hm. destruct (unix_page d a Ha Hd) as [-> _]. destruct (unix_page d (a + i) ltac:(lia) Hd) as [-> _].
  assert (page_of (a + i) = page_of a /\ (a + i) mod PAGE_SIZE = a mod PAGE_SIZE + i) as [-> ->]; [|lia].
  revert Hm Hi. unfold page_of, PAGE_SIZE. clear. Z.to_euclidean_division_equations. lia.
Qed.

Lemma plain_page a b : page_of a = page_of b -> plain a = plain b.
Proof using Henv.
  intros E. unfold plain, below_dpmi. rewrite (eo_vga Henv a b), (eo_rom Henv a b), (eo_read Henv a b), (eo_write Henv a b) by done.
  assert ((a <? ALIAS_SIZE) = (b <? ALIAS_SIZE)) as ->; [|done].
  revert E. unfold page_of, ALIAS_SIZE, PAGE_SIZE. zbool; try done; Z.to_euclidean_division_equations; lia.
Qed.

(** ** A hit in the cache *)

Lemma fast_hit g a len p :
  guest_ok g -> 0 <= a -> 1 <= len <= 8 -> a + len <= 2 ^ 32 ->
  unprotected_dosaddr_to_unixaddr g a len = Some p ->
  p = unix (phys g) a /\ plain a = true /\ page_of a = page_of (a + len - 1) /\ unprotected_page_cache g (page_hash a) = page_of a.
Proof using Henv.
  intros Hg Ha Hl Hend. unfold unprotected_dosaddr_to_unixaddr. rewrite u32_small by lia.
  destruct (Z.eqb_spec (unprotected_page_cache g (page_hash a)) (page_of (a + len - 1))) as [E|]; [|done].
  destruct (_ =? 0); [done|]. intros [= <-].
  destruct (go_cache _ Hg (page_hash a) (page_hash_range a)) as [F|[[F1 F2]|(F1 & F2 & F3 & F4 & F5)]].
  - by destruct (no_page (a + len - 1)); rewrite <- E.
  - exfalso. apply F2. assert (page_of (a + len - 1) = 0) as E0 by congruence. revert E0.
    unfold page_hash, page_of, PAGE_SIZE. clear - Ha Hl. Z.to_euclidean_division_equations. lia.
  - rewrite E in F3, F4, F5. assert (page_of a = page_of (a + len - 1)) as Ep.
    { apply hash_meets; [done|unfold PAGE_SIZE; lia|done]. }
    rewrite <- Ep in F4, F5. split; [|split; [|split; [done|congruence]]].
    + rewrite F5. symmetry. by apply unix_page, Hg.
    + rewrite (plain_page a (page_of a)); [done|by rewrite page_of_idem].
Qed.

(** ** The memory as the marks need it *)

Lemma invalidate_ok addr len g : guest_ok g -> guest_ok (invalidate_unprotected_page_cache addr len g).
Proof using Type.
  intros [G1 G2 G3]. constructor; [done|done|]. intros i Hi. unfold entry_ok.
  destruct (invalidate_entry addr len g i) as [->| ->]; [by left|]. by apply G3.
Qed.

Lemma guest_ok_bytes g a : guest_ok g -> byte (gbyte g a).
Proof using Type. intros Hg. apply Hg. Qed.

Lemma mprotect_cpuemu_law b n prot g :
  guest_ok g -> 0 <= b -> b mod HOST_PAGE_SIZE = 0 -> 0 < n -> n mod HOST_PAGE_SIZE = 0 -> b + n <= 2 ^ 32 ->
  wp (mprotect_cpuemu jit b n prot) g (fun r g' =>
    0 <= r /\ guest_ok g' /\ (forall a, gbyte g' a = gbyte g a) /\
    (forall a, b <= a < b + n -> page_clean g' a) /\ (forall a, page_clean g a -> page_clean g' a)).
Proof using jit_ok.
  intros Hg Hb Hbm Hn Hnm Hend. unfold mprotect_cpuemu. wp_step. wp_step. wp_step. split; [|split; [|split; [done|split]]].
  - destruct jit as [f|] eqn:E; [by apply (jit_ok f)|done].
  - by apply invalidate_ok.
  - intros a Ha. unfold page_clean. rewrite invalidate_gone; [|done|done|done|].
    + intros E. by destruct (no_page a).
    + split; [|lia]. transitivity b; [|lia]. apply page_of_spec.
  - intros a Ha. unfold page_clean in *. destruct (invalidate_entry b n g (page_hash a)) as [->| ->]; [|done].
    intros E. by destruct (no_page a).
Qed.

#[local] Instance gmem_laws : CodeMemLaws (gmem V) :=
  {| good := guest_ok; clean := page_clean; good_bytes := guest_ok_bytes; mprotect_law := mprotect_cpuemu_law |}.

(** ** Reads *)

Section reads.
Context {E : Type} (handler : sim_pagefault_handler (V := V) (E := E)).
Implicit Types s : marks (gmem V).

(** Only the cache of pages and [LastMp] may differ. *)
Record access_step s s' : Prop := {
  as_ok : marks_ok s';
  as_MpH : MpH s' = MpH s;
  as_clist : clist s' = clist s;
  as_phys : phys (guest s') = phys (guest s);
  as_video : video (guest s') = video (guest s);
}.

Lemma step_refl s : marks_ok s -> access_step s s.
Proof. intros Hs. by constructor. Qed.

Lemma step_trans s s' s'' : access_step s s' -> access_step s' s'' -> access_step s s''.
Proof. intros [] []. constructor; congruence. Qed.

Lemma step_seen s s' : marks_ok s -> seen s s' -> access_step s s'.
Proof. intros Hs Hss. pose proof (seen_ok _ _ Hss Hs). destruct Hss as (l & -> & _). by constructor. Qed.

Definition readable (a : Z) : bool := negb (vga_write_access env a) && (below_dpmi a || dpmi_read_access env a).

Lemma readable_page a b : page_of a = page_of b -> readable a = readable b.
Proof using Henv.
  intros Ep. unfold readable, below_dpmi. rewrite (eo_vga Henv a b), (eo_read Henv a b) by done.
  assert ((a <? ALIAS_SIZE) = (b <? ALIAS_SIZE)) as ->; [|done].
  revert Ep. unfold page_of, ALIAS_SIZE, PAGE_SIZE. zbool; try done; Z.to_euclidean_division_equations; lia.
Qed.

Lemma set_page_ok s a :
  marks_ok s -> 0 <= a < 2 ^ 32 -> plain a = true -> protected s a = false ->
  access_step s (s <| guest ::= set_unprotected_page a (unix (phys (guest s)) a) |>).
Proof using Henv.
  intros Hs Ha Hp Hprot. pose proof (ok_good _ Hs) as Hg. pose proof Hs as [E1 Epos E2 E3 E4 E5 _].
  assert (unix (phys (guest s)) (page_of a) = page_of (unix (phys (guest s)) a)) as Eu.
  { destruct (unix_page (phys (guest s)) a ltac:(lia) (go_pages _ Hg)) as (F1 & F2 & F3). rewrite F1. unfold page_of, PAGE_SIZE in *.
    revert F2. clear. Z.to_euclidean_division_equations. lia. }
  constructor; try done. constructor; try done.
  - intros b Hb Hpb. specialize (E5 b Hb Hpb). unfold clean in *. simpl in *. unfold page_clean in *. simpl.
    destruct (Z.eqb_spec (page_hash b) (page_hash a)); [|done]. intros Epg.
    assert (protected s a = protected s b) as Hx by (by apply protected_page, page_start_page).
    change (protected s b = true) in Hpb. congruence.
  - destruct Hg as [G1 G2 G3]. constructor; [done|done|]. intros i Hi. unfold entry_ok. simpl.
    destruct (Z.eqb_spec i (page_hash a)) as [->|]; [|by apply G3]. right; right.
    destruct (page_of_spec a) as [P1 P2]. split; [done|]. split; [unfold PAGE_SIZE in *; Z.to_euclidean_division_equations; lia|].
    split; [apply page_hash_page|]. split; [|done]. rewrite <- Hp. apply plain_page, page_of_idem.
Qed.

Lemma check_read_pagefault_correct s a :
  marks_ok s -> 0 <= a < 2 ^ 32 -> readable a = true ->
  wpx (check_read_pagefault env handler a (unix (phys (guest s)) a)) s (fun _ s' => access_step s s') (fun _ _ => False).
Proof using Henv.
  intros Hs Ha Hr. unfold readable, below_dpmi in Hr. apply andb_prop in Hr as [Hv Hr]. unfold check_read_pagefault.
  set (cache := let? qp := lift (e_querymprot a) in _).
  assert ((a <? ALIAS_SIZE) || (dpmi_read_access env a && dpmi_write_access env a) = true ->
    wpx cache s (fun _ s' => access_step s s') (fun _ _ => False)) as Hcache.
  { intros Hw. unfold cache. wpx_step. wpx_step. eapply quiet_wp; [apply e_querymprot_quiet; [done|lia]|]. intros s' Hss.
    pose proof (step_seen _ _ Hs Hss) as Hst. destruct (protected s a) eqn:Ep; simpl; [by wpx_step|].
    destruct (memcheck_rom env a) eqn:Er; simpl; [by wpx_step|]. unfold mem_update. wpx_step.
    rewrite <- (as_phys _ _ Hst). eapply step_trans; [exact Hst|]. apply set_page_ok; [apply Hst|done| |by rewrite (seen_protected _ _ _ Hss)].
    unfold plain, below_dpmi. by rewrite Hv, Er, Hw. }
  destruct (Z.leb_spec ALIAS_SIZE a) as [Hle|Hlt].
  - replace (a <? ALIAS_SIZE) with false in * by (symmetry; apply Z.ltb_ge; lia). simpl in Hr. rewrite Hr.
    wpx_step. wpx_step. destruct (dpmi_write_access env a); [apply Hcache; by rewrite Hr|]. wpx_step. by apply step_refl.
  - apply Hcache. replace (a <? ALIAS_SIZE) with true by (symmetry; apply Z.ltb_lt; lia). done.
Qed.

Lemma load_unix g a n :
  guest_ok g -> 0 <= a -> a mod PAGE_SIZE + Z.of_nat n <= PAGE_SIZE ->
  load n (host (phys g)) (unix (phys g) a) = load n (gbyte g) a.
Proof using Henv.
  intros Hg Ha Hn. apply load_shift. intros i Hi. unfold gbyte, READ_BYTE. f_equal. symmetry.
  apply unix_in_page; [done|apply Hg|lia|lia].
Qed.

Definition reads (n : nat) (a : Z) (c : X E (marks (gmem V)) Z) : Prop := forall s,
  marks_ok s -> wpx c s (fun v s' => v = load n (gbyte (guest s)) a /\ access_step s s') (fun _ _ => False).

Lemma slow_read_correct n a :
  0 <= a < 2 ^ 32 -> a mod PAGE_SIZE + Z.of_nat n <= PAGE_SIZE -> readable a = true -> reads n a (slow_read env handler n a).
Proof using Henv.
  intros Ha Hn Hr s Hs. unfold slow_read. assert (vga_write_access env a = false) as ->.
  { unfold readable in Hr. by destruct (vga_write_access env a). }
  unfold unix_addr, UNIX_READ, mem_get. destruct (mmio_traced env a).
  - repeat wpx_step. split; [|by apply step_refl]. apply load_unix; [apply Hs|lia|done].
  - wpx_step. wpx_step. wpx_step. wpx_step. wpx_step. eapply wpx_mono; [by apply check_read_pagefault_correct| |done].
    intros [] s' Hst. repeat wpx_step. split; [|done]. rewrite (as_phys _ _ Hst). apply load_unix; [apply Hs|lia|done].
Qed.

(** A hit, or the slow path. *)
Lemma fast_read_correct n a (slow : X E (marks (gmem V)) Z) :
  0 <= a -> (1 <= n <= 8)%nat -> a + Z.of_nat n <= 2 ^ 32 -> reads n a slow ->
  reads n a (let? p := fast_addr a (Z.of_nat n) in match p with Some p => UNIX_READ n p | None => slow end).
Proof using Henv.
  intros Ha Hn Hend Hslow s Hs. unfold fast_addr, mem_get. wpx_step. wpx_step. wpx_step. wpx_step.
  destruct (unprotected_dosaddr_to_unixaddr (guest s) a (Z.of_nat n)) as [p|] eqn:Ef; [|by apply Hslow].
  apply fast_hit in Ef; [|apply Hs|done|lia|done]. destruct Ef as (-> & _ & Ep & _).
  unfold UNIX_READ, mem_get. repeat wpx_step. split; [|by apply step_refl]. apply load_unix; [apply Hs|done|].
  revert Ep Ha Hn. unfold page_of, PAGE_SIZE. clear. Z.to_euclidean_division_equations. lia.
Qed.

Lemma split_read k m (a : Z) (c1 c2 : X E (marks (gmem V)) Z) :
  reads k a c1 -> reads m (a + Z.of_nat k) c2 ->
  reads (k + m) a (let? l := c1 in let? h := c2 in xret (Z.lor l (Z.shiftl h (8 * Z.of_nat k)))).
Proof.
  intros H1 H2 s Hs. wpx_step. eapply wpx_mono; [by apply H1| |done]. intros l s1 [-> Hst1]. wpx_step.
  eapply wpx_mono; [apply H2, Hst1| |done]. intros h s2 [-> Hst2]. wpx_step. split; [|by eapply step_trans].
  rewrite load_app, Z.lor_comm. assert (gbyte (guest s1) = gbyte (guest s)) as -> by (unfold gbyte; by rewrite (as_phys _ _ Hst1)).
  apply lor_shift_add; [lia|]. apply load_range. intros b. apply guest_ok_bytes, Hs.
Qed.

Lemma do_read_byte_correct a : 0 <= a < 2 ^ 32 -> readable a = true -> reads 1 a (do_read_byte env handler a).
Proof using Henv.
  intros Ha Hr. unfold do_read_byte. apply (fast_read_correct 1); [lia|lia|lia|]. apply slow_read_correct; [done| |done].
  unfold PAGE_SIZE. pose proof (Z.mod_pos_bound a 4096). lia.
Qed.

Lemma do_read_word_correct a :
  0 <= a -> a + 2 <= 2 ^ 32 -> (forall x, a <= x < a + 2 -> readable x = true) -> reads 2 a (do_read_word env handler a).
Proof using Henv.
  intros Ha Hend Hr. unfold do_read_word. apply (fast_read_correct 2); [lia|lia|lia|]. rewrite u32_small by lia.
  destruct (Z.eqb_spec ((a + 1) mod PAGE_SIZE) 0).
  - apply (split_read 1 1); apply do_read_byte_correct; try apply Hr; lia.
  - apply slow_read_correct; [lia| |apply Hr; lia]. unfold PAGE_SIZE in *. Z.to_euclidean_division_equations. lia.
Qed.

Lemma do_read_dword_correct a :
  0 <= a -> a + 4 <= 2 ^ 32 -> (forall x, a <= x < a + 4 -> readable x = true) -> reads 4 a (do_read_dword env handler a).
Proof using Henv.
  intros Ha Hend Hr. unfold do_read_dword. apply (fast_read_correct 4); [lia|lia|lia|]. rewrite !u32_small by lia.
  destruct (Z.ltb_spec ((a + 3) mod PAGE_SIZE) 3).
  - apply (split_read 2 2); apply do_read_word_correct; try lia; intros x Hx; apply Hr; lia.
  - apply slow_read_correct; [lia| |apply Hr; lia]. unfold PAGE_SIZE in *. Z.to_euclidean_division_equations. lia.
Qed.

Lemma do_read_qword_correct a :
  0 <= a -> a + 8 <= 2 ^ 32 -> (forall x, a <= x < a + 8 -> readable x = true) -> reads 8 a (do_read_qword env handler a).
Proof using Henv.
  intros Ha Hend Hr. unfold do_read_qword. rewrite u32_small by lia.
  apply (split_read 4 4); apply do_read_dword_correct; try lia; intros x Hx; apply Hr; lia.
Qed.

(** ** Writes *)

Definition injective (d : dosmem) : Prop := forall a b, 0 <= a < 2 ^ 32 -> 0 <= b < 2 ^ 32 -> unix d a = unix d b -> a = b.

Definition writable s (a : Z) : Prop := plain a = true /\ protected s a = false.

Record write_step s (n : nat) (a v : Z) s' : Prop := {
  ws_ok : marks_ok s';
  ws_MpH : MpH s' = MpH s;
  ws_clist : clist s' = clist s;
  ws_table : lowmem_aliasmap (phys (guest s')) = lowmem_aliasmap (phys (guest s));
  ws_video : video (guest s') = video (guest s);
  ws_bytes b : 0 <= b < 2 ^ 32 -> gbyte (guest s') b = store n v a (gbyte (guest s)) b;
}.

Definition writes (n : nat) (a v : Z) (c : X E (marks (gmem V)) unit) : Prop := forall s,
  marks_ok s -> injective (phys (guest s)) -> (forall x, a <= x < a + Z.of_nat n -> writable s x) ->
  wpx c s (fun _ s' => write_step s n a v s') (fun _ _ => False).

Lemma unix_table d d' a : lowmem_aliasmap d' = lowmem_aliasmap d -> unix d' a = unix d a.
Proof. intros Et. unfold dosaddr_to_unixaddr. by rewrite Et. Qed.

Definition store_at (n : nat) (p v : Z) s : marks (gmem V) := s <| guest ::= fun g => g <| phys ::= fun d => d <| host ::= store n v p |> |> |>.

Lemma store_at_ok n p v s : marks_ok s -> marks_ok (store_at n p v s).
Proof.
  intros [E1 Epos E2 E3 E4 E5 [G1 G2 G3]]. constructor; try done. constructor; [done|by apply store_ok|exact G3].
Qed.

Lemma store_at_step n a v s :
  marks_ok s -> injective (phys (guest s)) -> 0 <= a -> a + Z.of_nat n <= 2 ^ 32 -> a mod PAGE_SIZE + Z.of_nat n <= PAGE_SIZE ->
  write_step s n a v (store_at n (unix (phys (guest s)) a) v s).
Proof using Henv.
  intros Hs Hinj Ha Hend Hn. constructor; try done; [by apply store_at_ok|]. intros b Hb. unfold gbyte, READ_BYTE.
  rewrite (unix_table (phys (guest s)) (phys (guest (store_at _ _ _ _)))) by done. simpl. set (d := phys (guest s)). assert (pages_ok d) as Hd by (apply (ok_good _ Hs)).
  assert (forall i, 0 <= i < Z.of_nat n -> unix d (a + i) = unix d a + i) as Hlin by (intros i Hi; apply unix_in_page; [done|done|lia|lia]).
  unfold store. destruct ((a <=? b) && (b <? a + Z.of_nat n)) eqn:Er.
  - assert (a <= b < a + Z.of_nat n) as Hr by (revert Er; zbool; simpl; done || lia).
    assert (unix d b = unix d a + (b - a)) as -> by (rewrite <- Hlin by lia; f_equal; lia).
    replace (unix d a + (b - a) - unix d a) with (b - a) by lia.
    replace ((unix d a <=? unix d a + (b - a)) && (unix d a + (b - a) <? unix d a + Z.of_nat n)) with true by (zbool; simpl; done || lia).
    done.
  - destruct ((unix d a <=? unix d b) && (unix d b <? unix d a + Z.of_nat n)) eqn:Eu; [|done]. exfalso.
    assert (unix d a <= unix d b < unix d a + Z.of_nat n) as Hr by (revert Eu; zbool; simpl; done || lia).
    assert (unix d b = unix d (a + (unix d b - unix d a))) as Eb by (rewrite Hlin by lia; lia).
    apply Hinj in Eb; [|done|lia]. revert Er. zbool; simpl; done || lia.
Qed.

Lemma write_after s s1 n a v s' : access_step s s1 -> write_step s1 n a v s' -> write_step s n a v s'.
Proof.
  intros Hst [W1 W2 W3 W4 W5 W6]. constructor; [done|..].
  - by rewrite W2, (as_MpH _ _ Hst).
  - by rewrite W3, (as_clist _ _ Hst).
  - by rewrite W4, (as_phys _ _ Hst).
  - by rewrite W5, (as_video _ _ Hst).
  - intros b Hb. rewrite W6 by done. unfold gbyte. by rewrite (as_phys _ _ Hst).
Qed.

Lemma slow_write_correct n a v :
  0 <= a -> a + Z.of_nat n <= 2 ^ 32 -> (0 < n)%nat -> a mod PAGE_SIZE + Z.of_nat n <= PAGE_SIZE -> writes n a v (slow_write env handler n a v).
Proof using Henv.
  intros Ha Hend Hn0 Hn s Hs Hinj Hw. destruct (Hw a ltac:(lia)) as [Hp Hprot]. pose proof Hp as Hp'. unfold slow_write. unfold plain, below_dpmi in Hp.
  apply andb_prop in Hp as [Hp Hacc]. apply andb_prop in Hp as [Hv Hrom].
  destruct (vga_write_access env a); [done|]. destruct (memcheck_rom env a) eqn:Er; [done|].
  unfold unix_addr, mem_get. wpx_step. wpx_step. wpx_step. wpx_step. wpx_step. unfold check_write_pagefault.
  assert ((ALIAS_SIZE <=? a) && negb (dpmi_write_access env a) = false) as ->.
  { destruct (Z.leb_spec ALIAS_SIZE a); [|done]. replace (a <? ALIAS_SIZE) with false in Hacc by (symmetry; apply Z.ltb_ge; lia).
    simpl in Hacc. apply andb_prop in Hacc as [_ ->]. done. }
  wpx_step. wpx_step. eapply quiet_wp; [apply e_querymprot_quiet; [done|lia]|]. intros s1 Hss. rewrite Hprot.
  pose proof (step_seen _ _ Hs Hss) as Hst. wpx_step. rewrite Er. simpl negb. cbv iota. unfold mem_update. wpx_step. wpx_step.
  assert (access_step s1 (s1 <| guest ::= set_unprotected_page a (unix (phys (guest s)) a) |>)) as Hst2.
  { rewrite <- (as_phys _ _ Hst). apply set_page_ok; [apply Hst|lia|done|by rewrite (seen_protected _ _ _ Hss)]. }
  pose proof (step_trans _ _ _ Hst Hst2) as Hst3. unfold UNIX_WRITE, mem_update. wpx_step.
  eapply write_after; [exact Hst3|]. set (s2 := s1 <| guest ::= _ |>) in *. rewrite <- (as_phys _ _ Hst3).
  apply store_at_step; [apply Hst3|by rewrite (as_phys _ _ Hst3)|done|done|done].
Qed.

Lemma fast_write_correct n a v (slow : X E (marks (gmem V)) unit) :
  0 <= a -> (1 <= n <= 8)%nat -> a + Z.of_nat n <= 2 ^ 32 -> writes n a v slow ->
  writes n a v (let? p := fast_addr a (Z.of_nat n) in match p with Some p => UNIX_WRITE n p v | None => slow end).
Proof using Henv.
  intros Ha Hn Hend Hslow s Hs Hinj Hw. unfold fast_addr, mem_get. wpx_step. wpx_step. wpx_step. wpx_step.
  destruct (unprotected_dosaddr_to_unixaddr (guest s) a (Z.of_nat n)) as [p|] eqn:Ef; [|by apply Hslow].
  apply fast_hit in Ef; [|apply Hs|done|lia|done]. destruct Ef as (-> & _ & Ep & _).
  unfold UNIX_WRITE, mem_update. wpx_step. apply store_at_step; [done|done|done|done|].
  revert Ep Ha Hn. unfold page_of, PAGE_SIZE. clear. Z.to_euclidean_division_equations. lia.
Qed.

Lemma store_split k m v a f b : store (k + m) v a f b = store m (Z.shiftr v (8 * Z.of_nat k)) (a + Z.of_nat k) (store k (Z.land v (Z.ones (8 * Z.of_nat k))) a f) b.
Proof.
  unfold store. rewrite Nat2Z.inj_add. destruct (Z.ltb_spec b (a + Z.of_nat k)) as [Hlt|Hge].
  - replace (a + Z.of_nat k <=? b) with false by (symmetry; apply Z.leb_gt; lia). rewrite andb_true_r, andb_false_l.
    destruct (Z.leb_spec a b); [|done]. replace (b <? a + (Z.of_nat k + Z.of_nat m)) with true by (symmetry; apply Z.ltb_lt; lia).
    simpl. change 256 with (2 ^ 8). apply Z.bits_inj'. intros i Hi. destruct (Z.lt_ge_cases i 8).
    + rewrite !Z.mod_pow2_bits_low, !Z.shiftr_spec, Z.land_spec, Z.ones_spec_low by lia. by rewrite andb_true_r.
    + by rewrite !Z.mod_pow2_bits_high by lia.
  - rewrite andb_false_r. replace (a <=? b) with true by (symmetry; apply Z.leb_le; lia).
    replace (a + Z.of_nat k <=? b) with true by (symmetry; apply Z.leb_le; lia). rewrite !andb_true_l, Z.add_assoc.
    destruct (b <? _); [|done]. rewrite Z.shiftr_shiftr by lia. f_equal. f_equal. lia.
Qed.

Lemma split_write k m a v c1 c2 :
  writes k a (Z.land v (Z.ones (8 * Z.of_nat k))) c1 -> writes m (a + Z.of_nat k) (Z.shiftr v (8 * Z.of_nat k)) c2 ->
  writes (k + m) a v (c1 ?; c2).
Proof.
  intros H1 H2 s Hs Hinj Hw. wpx_step. eapply wpx_mono; [apply H1; [done|done|intros x Hx; apply Hw; lia]| |done]. intros [] s1 W1.
  eapply wpx_mono; [apply H2; [apply W1|..]| |done].
  - intros x y Hx Hy. rewrite !(unix_table _ _ _ (ws_table _ _ _ _ _ W1)). by apply Hinj.
  - intros x Hx. destruct (Hw x ltac:(lia)) as [P1 P2]. split; [done|]. unfold protected, copy_of, map_of in *. by rewrite (ws_MpH _ _ _ _ _ W1).
  - intros [] s2 W2. destruct W1 as [A1 A2 A3 A4 A5 A6], W2 as [B1 B2 B3 B4 B5 B6]. constructor; [done|congruence..|].
    intros b Hb. rewrite B6, store_split by done. unfold store at 1 2. destruct (_ && _); [done|]. by apply A6.
Qed.

Lemma do_write_byte_correct a v : 0 <= a < 2 ^ 32 -> writes 1 a v (do_write_byte env handler a v).
Proof using Henv.
  intros Ha. apply (fast_write_correct 1); [lia|lia|lia|]. apply slow_write_correct; [lia|lia|lia|].
  unfold PAGE_SIZE. pose proof (Z.mod_pos_bound a 4096). lia.
Qed.

Lemma do_write_word_correct a v : 0 <= a -> a + 2 <= 2 ^ 32 -> writes 2 a v (do_write_word env handler a v).
Proof using Henv.
  intros Ha Hend. unfold do_write_word. apply (fast_write_correct 2); [lia|lia|lia|]. rewrite u32_small by lia.
  destruct (Z.eqb_spec ((a + 1) mod PAGE_SIZE) 0).
  - apply (split_write 1 1); apply do_write_byte_correct; lia.
  - apply slow_write_correct; [lia|lia|lia|]. unfold PAGE_SIZE in *. Z.to_euclidean_division_equations. lia.
Qed.

Lemma do_write_dword_correct a v : 0 <= a -> a + 4 <= 2 ^ 32 -> writes 4 a v (do_write_dword env handler a v).
Proof using Henv.
  intros Ha Hend. unfold do_write_dword. apply (fast_write_correct 4); [lia|lia|lia|]. rewrite !u32_small by lia.
  destruct (Z.ltb_spec ((a + 3) mod PAGE_SIZE) 3).
  - apply (split_write 2 2); apply do_write_word_correct; lia.
  - apply slow_write_correct; [lia|lia|lia|]. unfold PAGE_SIZE in *. Z.to_euclidean_division_equations. lia.
Qed.

Lemma do_write_qword_correct a v : 0 <= a -> a + 8 <= 2 ^ 32 -> writes 8 a v (do_write_qword env handler a v).
Proof using Henv.
  intros Ha Hend. unfold do_write_qword. rewrite u32_small by lia. apply (split_write 4 4); apply do_write_dword_correct; lia.
Qed.

(** ** Translated code *)

Lemma protected_miss s a len :
  marks_ok s -> 0 <= a -> 1 <= len <= 8 -> a + len <= 2 ^ 32 -> protected s a = true ->
  unprotected_dosaddr_to_unixaddr (guest s) a len = None.
Proof using Henv.
  intros Hs Ha Hl Hend Hp. destruct (unprotected_dosaddr_to_unixaddr (guest s) a len) as [p|] eqn:Ef; [|done].
  apply fast_hit in Ef; [|apply Hs|done|done|done]. destruct Ef as (_ & _ & _ & Ec). by destruct (ok_clean _ Hs a Ha Hp).
Qed.

Lemma slow_write_protected n a v s (Q : unit -> marks (gmem V) -> Prop) R :
  marks_ok s -> 0 <= a -> protected s a = true -> vga_write_access env a = false ->
  (below_dpmi a || dpmi_write_access env a) = true ->
  (forall s1, access_step s s1 ->
     wpx (handler a (-1) v (Z.of_nat n)) s1 (fun _ s2 => Q tt (store_at n (unix (phys (guest s)) a) v s2)) R) ->
  wpx (slow_write env handler n a v) s Q R.
Proof.
  intros Hs Ha Hp Hv Hacc Hh. unfold slow_write. rewrite Hv. unfold unix_addr, mem_get. do 5 wpx_step. unfold check_write_pagefault.
  assert ((ALIAS_SIZE <=? a) && negb (dpmi_write_access env a) = false) as ->.
  { unfold below_dpmi in Hacc. destruct (Z.leb_spec ALIAS_SIZE a); [|done].
    replace (a <? ALIAS_SIZE) with false in Hacc by (symmetry; apply Z.ltb_ge; lia). simpl in Hacc. by rewrite Hacc. }
  wpx_step. wpx_step. eapply quiet_wp; [by apply e_querymprot_quiet|]. intros s1 Hss. rewrite Hp. wpx_step.
  eapply wpx_mono; [apply Hh; by apply step_seen|..|done]. intros [] s2 HQ. wpx_step. unfold UNIX_WRITE, mem_update. wpx_step. exact HQ.
Qed.

Lemma write_protected n a v s (Q : unit -> marks (gmem V) -> Prop) R :
  (n = 1 \/ n = 2 \/ n = 4)%nat -> marks_ok s -> 0 <= a -> a + Z.of_nat n <= 2 ^ 32 -> a mod PAGE_SIZE + Z.of_nat n <= PAGE_SIZE ->
  protected s a = true -> vga_write_access env a = false -> (below_dpmi a || dpmi_write_access env a) = true ->
  (forall s1, access_step s s1 ->
     wpx (handler a (-1) v (Z.of_nat n)) s1 (fun _ s2 => Q tt (store_at n (unix (phys (guest s)) a) v s2)) R) ->
  wpx (do_write env handler n a v) s Q R.
Proof using Henv.
  intros Hn Hs Ha Hend Hpg Hp Hv Hacc Hh.
  pose proof (protected_miss s a (Z.of_nat n) Hs Ha ltac:(lia) Hend Hp) as Hmiss.
  pose proof (slow_write_protected n a v s Q R Hs Ha Hp Hv Hacc Hh) as Hslow.
  destruct Hn as [->|[->| ->]]; cbn [do_write]; unfold do_write_byte, do_write_word, do_write_dword, fast_addr, mem_get;
    do 4 wpx_step; change (Z.of_nat 1) with 1 in *; change (Z.of_nat 2) with 2 in *; change (Z.of_nat 4) with 4 in *; rewrite Hmiss.
  - exact Hslow.
  - rewrite u32_small by lia. replace ((a + 1) mod PAGE_SIZE =? 0) with false; [exact Hslow|].
    symmetry. apply Z.eqb_neq. revert Hpg Ha. unfold PAGE_SIZE. clear. Z.to_euclidean_division_equations. lia.
  - rewrite u32_small by lia. replace ((a + 3) mod PAGE_SIZE <? 3) with false; [exact Hslow|].
    symmetry. apply Z.ltb_ge. revert Hpg Ha. unfold PAGE_SIZE. clear. Z.to_euclidean_division_equations. lia.
Qed.

End reads.

(** ** Remapping *)

Lemma update_aliasmap_cached_ok dosaddr mapsize unixaddr g :
  guest_ok g -> 0 <= dosaddr -> dosaddr mod PAGE_SIZE = 0 -> 0 < mapsize -> mapsize mod PAGE_SIZE = 0 ->
  dosaddr + mapsize <= ALIAS_SIZE -> unixaddr mod PAGE_SIZE = 0 -> 0 < unixaddr ->
  guest_ok (update_aliasmap_cached dosaddr mapsize unixaddr g).
Proof.
  intros [G1 G2 G3] Hd Hdm Hm Hmm Hend Hu Hu0. unfold update_aliasmap_cached. replace (ALIAS_SIZE <=? dosaddr) with false by (symmetry; apply Z.leb_gt; lia).
  set (g' := g <| phys ::= _ |>).
  assert (forall pg, lowmem_aliasmap (phys g') pg =
    let i := pg - dosaddr / PAGE_SIZE in if (0 <=? i) && (i <? mapsize / PAGE_SIZE) then unixaddr + i * PAGE_SIZE else lowmem_aliasmap (phys g) pg) as Etab.
  { intros pg. unfold g', update_aliasmap. simpl. replace (ALIAS_SIZE <=? dosaddr) with false by (symmetry; apply Z.leb_gt; lia). done. }
  constructor.
  - intros pg Hpg. change (phys (invalidate_unprotected_page_cache dosaddr mapsize g')) with (phys g'). rewrite Etab. simpl.
    destruct ((0 <=? _) && _) eqn:E; [|by apply G1].
    assert (0 <= pg - dosaddr / PAGE_SIZE) by (revert E; zbool; simpl; done || lia). rewrite Z.mod_add by done.
    split; [done|]. unfold PAGE_SIZE in *. lia.
  - change (phys (invalidate_unprotected_page_cache dosaddr mapsize g')) with (phys g'). unfold g', update_aliasmap. simpl. by destruct (_ <=? _).
  - intros i Hi. unfold entry_ok. destruct (invalidate_entry dosaddr mapsize g' i) as [->|Ec]; [by left|].
    rewrite Ec. destruct (G3 i Hi) as [F|[F|(F1 & F2 & F3 & F4 & F5)]]; [by left|by right; left|].
    change (unprotected_page_cache g' i) with (unprotected_page_cache g i) in *. set (c := unprotected_page_cache g i) in *.
    destruct (Z.lt_ge_cases c dosaddr) as [Hlt|Hge]; [|destruct (Z.lt_ge_cases c (dosaddr + mapsize)) as [Hlt2|Hge2]].
    2:{ left. assert (unprotected_page_cache (invalidate_unprotected_page_cache dosaddr mapsize g') (page_hash c) = NO_PAGE) as Egone.
        { apply invalidate_gone; [done|done|unfold ALIAS_SIZE in *; lia|]. destruct (page_of_spec dosaddr). lia. }
        rewrite F3, Ec in Egone. exact Egone. }
    all: right; right; do 4 (split; [done|]).
    all: change (unprotected_page_unixaddr_tlb (invalidate_unprotected_page_cache dosaddr mapsize g') i) with (unprotected_page_unixaddr_tlb g i).
    all: change (phys (invalidate_unprotected_page_cache dosaddr mapsize g')) with (phys g'); rewrite F5.
    all: unfold dosaddr_to_unixaddr; destruct (c <? ALIAS_SIZE); [|done]; rewrite Etab; simpl.
    all: replace ((0 <=? c / PAGE_SIZE - dosaddr / PAGE_SIZE) && (c / PAGE_SIZE - dosaddr / PAGE_SIZE <? mapsize / PAGE_SIZE)) with false; [done|].
    all: symmetry; revert F1 Hdm Hmm; unfold PAGE_SIZE; zbool; simpl; try done; Z.to_euclidean_division_equations; lia.
Qed.

(** ** The memory of the simulated CPU *)

Section bus.
Context (handler : sim_pagefault_handler (V := V) (E := pagefault)).

#[local] Instance mem_bus : Bus (marks (gmem V)) :=
  {| bus_read := do_read env handler; bus_write := do_write env handler |}.

Definition in_space (a : Z) : bool := (0 <=? a) && (a <? 2 ^ 32).
Definition mem_flat (s : marks (gmem V)) : bytes := fun a => if in_space a then u8 (gbyte (guest s) a) else 0.
Definition mem_mapped (s : marks (gmem V)) (a : Z) : Prop :=
  marks_ok s /\ injective (phys (guest s)) /\ in_space a = true /\ writable s a.

Lemma mem_flat_ok s : bytes_ok (mem_flat s).
Proof. intros a. unfold mem_flat. destruct (in_space a); [apply u8_range|done]. Qed.

Lemma in_space_spec a : in_space a = true <-> 0 <= a < 2 ^ 32.
Proof. unfold in_space. zbool; simpl; split; done || lia. Qed.

Lemma mem_flat_gbyte s a : marks_ok s -> 0 <= a < 2 ^ 32 -> mem_flat s a = gbyte (guest s) a.
Proof.
  intros Hs Ha. unfold mem_flat. rewrite (proj2 (in_space_spec a)) by done. apply u8_small. apply (guest_ok_bytes (guest s)), Hs.
Qed.

Lemma plain_readable a : plain a = true -> readable a = true.
Proof.
  unfold plain, readable. intros Hp. apply andb_prop in Hp as [Hp Ha]. apply andb_prop in Hp as [-> _].
  destruct (below_dpmi a); [done|]. simpl in *. by apply andb_prop in Ha as [-> _].
Qed.

Lemma mem_read_law n a s :
  (n = 1 \/ n = 2 \/ n = 4)%nat -> 0 <= a -> a + Z.of_nat n <= 2 ^ 32 -> (forall i, a <= i < a + Z.of_nat n -> mem_mapped s i) ->
  wpx (do_read env handler n a) s
    (fun v s' => v = load n (mem_flat s) a /\ ((forall b, mem_flat s' b = mem_flat s b) /\ (forall b, mem_mapped s' b <-> mem_mapped s b)))
    (fun _ _ => False).
Proof using Henv.
  intros Hn Ha Hend Hm. destruct (Hm a ltac:(lia)) as (Hs & Hinj & _ & _).
  assert (forall x, a <= x < a + Z.of_nat n -> readable x = true) as Hr by (intros x Hx; apply plain_readable, (Hm x Hx)).
  assert (reads n a (do_read env handler n a)) as Hread.
  { destruct Hn as [->|[->| ->]]; [apply do_read_byte_correct; [lia|apply Hr; lia]|by apply do_read_word_correct|by apply do_read_dword_correct]. }
  eapply wpx_mono; [by apply Hread| |done]. intros v s' [-> Hst]. split; [|split].
  - apply load_ext. intros b Hb. symmetry. apply mem_flat_gbyte; [done|lia].
  - intros b. unfold mem_flat, gbyte. by rewrite (as_phys _ _ Hst).
  - intros b. unfold mem_mapped, writable, protected, copy_of, map_of. rewrite (as_phys _ _ Hst), (as_MpH _ _ Hst).
    split; intros (_ & F); (split; [|exact F]); [done|apply Hst].
Qed.

Lemma mem_write_law n a v s :
  (n = 1 \/ n = 2 \/ n = 4)%nat -> 0 <= a -> a + Z.of_nat n <= 2 ^ 32 -> (forall i, a <= i < a + Z.of_nat n -> mem_mapped s i) ->
  wpx (do_write env handler n a v) s
    (fun _ s' => (forall b, mem_flat s' b = store n v a (mem_flat s) b) /\ (forall b, mem_mapped s' b <-> mem_mapped s b))
    (fun _ _ => False).
Proof using Henv.
  intros Hn Ha Hend Hm. destruct (Hm a ltac:(lia)) as (Hs & Hinj & _ & _).
  assert (writes n a v (do_write env handler n a v)) as Hwrite.
  { destruct Hn as [->|[->| ->]]; [apply do_write_byte_correct; lia|by apply do_write_word_correct|by apply do_write_dword_correct]. }
  eapply wpx_mono; [apply Hwrite; [done|done|intros x Hx; apply (Hm x Hx)]| |done]. intros [] s' W. split.
  - intros b. destruct (in_space b) eqn:Eb.
    + apply in_space_spec in Eb. rewrite (mem_flat_gbyte s') by (apply W || done). rewrite (ws_bytes _ _ _ _ _ W) by done.
      unfold store. by rewrite mem_flat_gbyte.
    + unfold mem_flat at 1. rewrite Eb. rewrite store_miss; [unfold mem_flat; by rewrite Eb|].
      destruct (Z.lt_ge_cases b a); [by left|]. right. destruct (Z.lt_ge_cases b (a + Z.of_nat n)); [|done].
      assert (in_space b = true) by (apply in_space_spec; lia). congruence.
  - intros b. unfold mem_mapped, writable, protected, copy_of, map_of, injective. rewrite (ws_MpH _ _ _ _ _ W).
    assert (forall x, unix (phys (guest s')) x = unix (phys (guest s)) x) as Eu by (intros x; apply unix_table, W).
    setoid_rewrite Eu. split; intros (_ & F); (split; [|exact F]); [done|apply W].
Qed.

#[local] Instance mem_bus_laws : BusLaws (marks (gmem V)) :=
  {| flat := mem_flat; mapped := mem_mapped; flat_ok := mem_flat_ok; bus_read_law := mem_read_law; bus_write_law := mem_write_law |}.

(** C18: On plain memory the accesses through the cache of unprotected pages
    refine an array of bytes: a read returns the bytes of the page table, also
    across pages, a write changes exactly the written bytes, and both keep the
    memory plain; this discharges the bus interface the CPU simulator is
    proved against. *)
Theorem memory_refines_bytes n a v s :
  (n = 1 \/ n = 2 \/ n = 4)%nat -> 0 <= a -> a + Z.of_nat n <= 2 ^ 32 -> (forall i, a <= i < a + Z.of_nat n -> mem_mapped s i) ->
  wpx (do_read env handler n a) s
    (fun r s' => r = load n (mem_flat s) a /\ ((forall b, mem_flat s' b = mem_flat s b) /\ (forall b, mem_mapped s' b <-> mem_mapped s b)))
    (fun _ _ => False) /\
  wpx (do_write env handler n a v) s
    (fun _ s' => (forall b, mem_flat s' b = store n v a (mem_flat s) b) /\ (forall b, mem_mapped s' b <-> mem_mapped s b))
    (fun _ _ => False).
Proof using Henv. intros Hn Ha Hend Hm. split; [by apply mem_read_law|by apply mem_write_law]. Qed.

End bus.

Section properties.
Context {E : Type} (handler : sim_pagefault_handler (V := V) (E := E)).

(** A read returns the bytes of the page table, whether it hits the cache or not. *)
Theorem memory_read_correct n a s :
  (n = 1 \/ n = 2 \/ n = 4 \/ n = 8)%nat -> 0 <= a -> a + Z.of_nat n <= 2 ^ 32 ->
  (forall x, a <= x < a + Z.of_nat n -> readable x = true) -> marks_ok s ->
  wpx (do_read env handler n a) s (fun v s' => v = load n (gbyte (guest s)) a /\ access_step s s') (fun _ _ => False).
Proof using Henv.
  intros Hn Ha Hend Hr Hs. assert (reads n a (do_read env handler n a)) as Hread; [|by apply Hread].
  destruct Hn as [->|[->|[->| ->]]]; [apply do_read_byte_correct; [lia|apply Hr; lia]|by apply do_read_word_correct|
    by apply do_read_dword_correct|by apply do_read_qword_correct].
Qed.

(** A write to a page with translated code calls the handler first. *)
Theorem protected_write_reaches_handler n a v s (Q : unit -> marks (gmem V) -> Prop) R :
  (n = 1 \/ n = 2 \/ n = 4)%nat -> marks_ok s -> 0 <= a -> a + Z.of_nat n <= 2 ^ 32 -> a mod PAGE_SIZE + Z.of_nat n <= PAGE_SIZE ->
  protected s a = true -> vga_write_access env a = false -> (below_dpmi a || dpmi_write_access env a) = true ->
  (forall s1, access_step s s1 ->
     wpx (handler a (-1) v (Z.of_nat n)) s1 (fun _ s2 => Q tt (store_at n (dosaddr_to_unixaddr env (phys (guest s)) a) v s2)) R) ->
  wpx (do_write env handler n a v) s Q R.
Proof using Henv. apply write_protected. Qed.

End properties.

(** What a write does with code on its page: blocks at the written bytes are
    dropped first. *)
Definition write_seen (drop_code : Z -> Z -> M (marks (gmem V)) unit) (n : nat) (a v : Z) (s : marks (gmem V))
    (Q : unit -> marks (gmem V) -> Prop) : Prop :=
  forall s1, access_step s s1 ->
    (some_in s a (a + Z.of_nat n) ->
       wp (drop_code a (Z.of_nat n)) s1 (fun _ s2 => Q tt (store_at n (dosaddr_to_unixaddr env (phys (guest s)) a) v s2))) /\
    (none_in s a (a + Z.of_nat n) -> Q tt (store_at n (dosaddr_to_unixaddr env (phys (guest s)) a) v s1)).

(** A write to a page with translated code asks for the blocks that cover the
    written bytes to be dropped before the bytes change. *)
Theorem protected_write_seen n a v s Q R e_invalidate drop_code ldt ldt_write :
  (n = 1 \/ n = 2 \/ n = 4)%nat -> marks_ok s -> 0 <= a -> a + Z.of_nat n < 2 ^ 32 -> a mod PAGE_SIZE + Z.of_nat n <= PAGE_SIZE ->
  protected s a = true -> vga_write_access env a = false -> (below_dpmi a || dpmi_write_access env a) = true ->
  write_seen drop_code n a v s Q ->
  wpx (do_write env (emu_pagefault_handler true e_invalidate drop_code ldt ldt_write) n a v) s Q R.
Proof using Henv.
  intros Hn Hs Ha Hend Hpg Hp Hv Hacc Hseen. apply write_protected; try done; [lia|]. intros s1 Hst. unfold emu_pagefault_handler.
  simpl negb. cbv iota. change (-1 =? -1) with true. cbv iota. wpx_step. wp_step.
  eapply wp_mono; [apply e_querymark_finds; [apply Hst|done|lia|done]|]. intros b s2 [Hans Hss]. apply page_answer in Hans.
  2:{ revert Hpg Ha Hn. unfold page_start, HOST_PAGE_SIZE, PAGE_SIZE. clear. Z.to_euclidean_division_equations. lia. }
  assert (forall x, marked s1 x = marked s x) as Em by (intros x; unfold marked, map_of; by rewrite (as_MpH _ _ Hst)).
  rewrite (some_in_seen _ _ _ _ Em) in Hans.
  pose proof (step_trans _ _ _ Hst (step_seen _ _ (as_ok _ _ Hst) Hss)) as Hst2. destruct (Hseen s2 Hst2) as [Hsome Hnone].
  destruct b; [by apply Hsome, Hans|]. wp_step. apply Hnone. by apply (none_some _ _ _ _ Hans).
Qed.

(** Remapping pages of DOS memory keeps the cache correct: every entry
    that survives still names a plain page with its host address under the new
    page table. *)
Theorem remap_keeps_cache dosaddr mapsize unixaddr g :
  guest_ok g -> 0 <= dosaddr -> dosaddr mod PAGE_SIZE = 0 -> 0 < mapsize -> mapsize mod PAGE_SIZE = 0 ->
  dosaddr + mapsize <= ALIAS_SIZE -> unixaddr mod PAGE_SIZE = 0 -> 0 < unixaddr ->
  guest_ok (update_aliasmap_cached dosaddr mapsize unixaddr g).
Proof. apply update_aliasmap_cached_ok. Qed.

End spec.
