(* ===== verification/TlbExample.v ===== *)
(** * Marks and memory accesses at concrete states

    A flat guest memory with the cache as the program starts, a map with one
    marked block, and the properties of the marks and of the memory accesses
    there; inputs on which the code fails. *)

From stdpp Require Import base numbers list.
From Stdlib Require Import ZArith Lia.
From S2P Require Import Prelude Dosmem Machine SimMem Marks MarksInv MarksQuery MarksPages MarksProt MarksMark MarksFetch MarksFind Tlb TlbSpec.

Local Open Scope Z_scope.

(** ** Memory *)

Definition flat_base : Z := 0x10000000.
Definition flat_mem_env : mem_env :=
  MkMemEnv flat_base (fun a => flat_base + a) (fun _ => false) (fun _ => false)
    (fun _ _ _ d => d) (fun _ _ _ d => d) (fun _ _ _ d => d) (fun _ _ _ d => d) (fun _ _ _ d => d).
Definition flat_env : access_env unit :=
  MkAccessEnv unit flat_mem_env (fun _ => false) (fun _ => true) (fun _ => true) (fun _ => false) (fun _ _ g => (0, g)) (fun _ _ _ g => g).
Definition flat_guest : gmem unit :=
  MkGmem (MkDosmem (fun p => p mod 251) (fun pg => flat_base + pg * PAGE_SIZE)) initial_page_cache initial_tlb tt.

Definition no_jit : option (Z -> Z -> Z -> Z) := None.
Lemma no_jit_ok f (b n p : Z) : no_jit = Some f -> 0 <= f b n p.
Proof. done. Qed.

Lemma flat_env_ok : env_ok flat_env.
Proof.
  constructor; try done; intros a Ha; simpl; [unfold page_of; lia|].
  destruct (page_of_spec a) as [E1 E2]. rewrite Z.add_mod, E1 by done. split; [done|]. unfold flat_base, ALIAS_SIZE, PAGE_SIZE in *. lia.
Qed.

Lemma flat_guest_ok : guest_ok flat_env flat_guest.
Proof.
  constructor.
  - intros pg Hpg. simpl. rewrite Z.mod_add by done. split; [done|]. unfold flat_base, PAGE_SIZE. lia.
  - intros p. simpl. unfold byte. pose proof (Z.mod_pos_bound p 251). lia.
  - intros i Hi. unfold entry_ok. simpl. unfold initial_page_cache. destruct (Z.eqb_spec i 0); [by left|by right; left].
Qed.

Abbreviation flat_state := (marks (gmem unit)).
#[local] Instance flat_code_mem : CodeMem (gmem unit) := gmem_code_mem flat_env no_jit.
#[local] Instance flat_laws : CodeMemLaws (gmem unit) := gmem_laws flat_env no_jit no_jit_ok.

Lemma flat_injective (s : flat_state) : phys (guest s) = phys flat_guest -> injective flat_env (phys (guest s)).
Proof.
  intros -> a b Ha Hb. unfold dosaddr_to_unixaddr. cbn [lowmem_aliasmap phys flat_guest above_alias ae_mem flat_env flat_mem_env].
  assert (forall x, flat_base + x / PAGE_SIZE * PAGE_SIZE + x mod PAGE_SIZE = flat_base + x) as E
    by (intros x; unfold PAGE_SIZE; Z.to_euclidean_division_equations; lia).
  rewrite !E. destruct (_ <? _), (_ <? _); lia.
Qed.

(** ** States: a fetched page, and a block of 8 bytes at 0x1004 *)

Definition fetched_state : flat_state := MkMarks [] None [MkCe 0x1000 10 (Some (fun _ => 0))] flat_guest.

Definition block_map : tMpMap :=
  MkMpMap 0 (fun i => if i =? 64 then 0xff0 else 0) (fun i => if i =? 64 then 0x10 else 0)
    (fun i => if i =? 1 then Some (fun _ => 0) else None).
Definition block_state : flat_state := MkMarks [block_map] None [] flat_guest.

Lemma empty_ok c : marks_ok (MkMarks [] None c flat_guest : flat_state).
Proof. constructor; try done; [by apply NoDup_nil|intros M HM; by apply elem_of_nil in HM..|apply flat_guest_ok]. Qed.

Lemma block_map_of a : map_of block_state a = if a / 2 ^ 20 =? 0 then Some block_map else None.
Proof. unfold map_of, has_map. cbn [MpH block_state find]. change (mega block_map) with 0. rewrite Z.eqb_sym. by destruct (_ =? 0). Qed.

Lemma block_bit w a : 0 <= a < 2 ^ 20 -> test_bit a (fun i => if i =? 64 then w else 0) = true -> a / 64 = 64.
Proof.
  intros Ha. unfold test_bit. destruct (Z.eqb_spec (a / 64) 64); [done|]. by rewrite Z.testbit_0_l.
Qed.

Lemma block_page a : 0 <= a -> a / 2 ^ 20 = 0 -> offset a / 64 = 64 -> page_index a = 1.
Proof. unfold offset, page_index, HOST_PAGE_SIZE, pagespermega. intros. Z.to_euclidean_division_equations. lia. Qed.

Lemma block_state_marked a : 0 <= a -> marked block_state a = true -> a / 2 ^ 20 = 0 /\ offset a / 64 = 64.
Proof.
  intros Ha. unfold marked. rewrite block_map_of. destruct (Z.eqb_spec (a / 2 ^ 20) 0); [|done].
  intros Hb. split; [done|]. eapply block_bit; [apply offset_range|exact Hb].
Qed.

Lemma block_ok : marks_ok block_state.
Proof.
  constructor; try done.
  - simpl. apply NoDup_singleton.
  - intros M HM. by apply list_elem_of_singleton in HM as ->.
  - intros M HM. apply list_elem_of_singleton in HM as ->. split; intros i; simpl; destruct (_ =? _); lia.
  - intros a Ha Hm. destruct (block_state_marked a Ha Hm) as [E1 E2]. unfold protected, copy_of. rewrite block_map_of, E1. simpl.
    by rewrite (block_page a Ha E1 E2).
  - intros a Ha. unfold protected, copy_of. rewrite block_map_of. destruct (Z.eqb_spec (a / 2 ^ 20) 0) as [E|]; [|done]. simpl.
    destruct (Z.eqb_spec (page_index a) 1) as [E1|]; [|done]. intros _. unfold clean. simpl. unfold page_clean. simpl. unfold initial_page_cache.
    assert (page_hash a = 1 /\ page_of a = 4096) as [-> ->]; [|done].
    revert E E1 Ha. unfold page_index, page_hash, page_of, HOST_PAGE_SIZE, PAGE_SIZE, pagespermega. clear. Z.to_euclidean_division_equations. lia.
  - apply flat_guest_ok.
Qed.

Lemma block_blocks : blocks_ok block_state.
Proof.
  intros a Ha. unfold starts, marked. rewrite block_map_of. destruct (_ =? 0); [|done]. simpl. unfold test_bit.
  destruct (offset a / 64 =? 64); [|by rewrite Z.testbit_0_l].
  change 0x10 with (2 ^ 4). pose proof (Z.mod_pos_bound (offset a) 64 ltac:(lia)).
  rewrite Z.pow2_bits_eqb by lia. by intros E%Z.eqb_eq; rewrite <- E.
Qed.

(** ** The properties there *)

Lemma fetched_at_page (a : Z) : aligned a -> 0x1000 <= a < 0x100c -> a = 0x1000.
Proof. unfold aligned, HOST_PAGE_SIZE. intros. Z.to_euclidean_division_equations. lia. Qed.

Lemma fetched_in_range : fetched_range fetched_state 0x1004 8.
Proof. intros a Ha Hr _. rewrite (fetched_at_page a Ha Hr). by eexists. Qed.

Lemma e_markpage_correct_witness :
  wp (e_markpage 0x1004 8) fetched_state (fun _ s' => block_added fetched_state 0x1004 8 s').
Proof.
  apply (e_markpage_correct 0x1004 8 fetched_state);
    [apply empty_ok|done|done|done|done|apply fetched_in_range|done|intros Hoff; discriminate Hoff].
Defined.

Lemma mark_unmark_roundtrip_witness :
  wp (e_markpage 0x1004 8 ;; e_unmarkpage 0x1004 8) fetched_state (fun r s' => r = true /\ marks_ok s' /\ forall a, 0 <= a ->
    marked s' a = marked fetched_state a /\ starts s' a = starts fetched_state a /\
    guest_byte (guest s') a = guest_byte (guest fetched_state) a /\
    (~ (page_start 0x1004 <= a < page_end 0x1004 8) \/ page_marked fetched_state a \/ protected fetched_state a = false ->
     copy_of s' a = copy_of fetched_state a)).
Proof.
  apply (mark_unmark_roundtrip 0x1004 8 fetched_state);
    [apply empty_ok|done|done|done|done|apply fetched_in_range|done|intros Hoff; discriminate Hoff].
Defined.

Lemma block_has : is_Some (map_of block_state 0x1004).
Proof. by eexists. Qed.

Lemma block_offset a : 0x1004 < a <= 0x100c -> offset a <> 0.
Proof. unfold offset. intros. Z.to_euclidean_division_equations. lia. Qed.

Lemma e_unmarkpage_correct_witness :
  wp (e_unmarkpage 0x1004 8) block_state (fun r s' => r = true /\ block_removed block_state 0x1004 8 s').
Proof.
  apply (e_unmarkpage_correct 0x1004 8 block_state);
    [apply block_ok|apply block_blocks|done|done|done|apply block_has|intros a Ha Hoff; by destruct (block_offset a Ha)].
Defined.

Lemma e_querymark_correct_witness : finds (e_querymark 0xff0 32) block_state (mark_answer block_state 0xff0 (0xff0 + 32)).
Proof. apply (e_querymark_correct 0xff0 32 block_state); [apply block_ok|done|done|done]. Defined.

Lemma m_findnode_correct_witness : finds (m_findnode 0xff0 64) block_state (first_start block_state 0xff0 64).
Proof. apply (m_findnode_correct 0xff0 64 block_state); [apply block_ok|done|done|done]. Defined.

Lemma subpage_dirty_correct_witness :
  subpage_dirty (fun _ => 0) flat_guest 0x1000 block_map 1 = true <->
  exists b, 0 <= b < HOST_PAGE_SIZE /\ test_bit (1 * HOST_PAGE_SIZE + b) (subpage block_map) = true /\ 0 <> guest_byte flat_guest (0x1000 + b).
Proof.
  apply (subpage_dirty_correct (fun _ => 0) flat_guest 0x1000 block_map 1); [|done].
  apply (ok_words block_state block_ok block_map), list_elem_of_singleton. done.
Defined.

Definition zero_page : bytes := fun _ => 0.
Lemma zero_page_ok : bytes_ok zero_page.
Proof. done. Qed.

Definition empty_state : flat_state := MkMarks [] None [] flat_guest.

Lemma empty_copies : copies_ok empty_state.
Proof. constructor; [intros a n p Hin; by apply elem_of_nil in Hin|done]. Qed.

(** A dword that crosses a page. *)
Lemma jit_fetch_reads_memory_witness :
  wp (jit_fetch_dword zero_page 0xffd) empty_state (fun r s' => r = load 4 (guest_byte flat_guest) 0xffd /\ fetch_step empty_state 8 s').
Proof.
  apply (jit_fetch_reads_memory zero_page zero_page_ok 0xffd empty_state); [apply empty_ok|apply empty_copies|done|done|done].
Defined.

Definition no_handler {E} : sim_pagefault_handler (V := unit) (E := E) := fun _ _ _ _ => xret tt.

Lemma memory_read_correct_witness :
  wpx (do_read (E := unit) flat_env no_handler 8 0x1ffd) empty_state
    (fun v s' => v = load 8 (gbyte flat_env flat_guest) 0x1ffd /\ access_step flat_env no_jit no_jit_ok empty_state s') (fun _ _ => False).
Proof.
  apply (memory_read_correct flat_env no_jit no_jit_ok flat_env_ok no_handler 8 0x1ffd empty_state); [by do 3 right|done|done| |apply empty_ok].
  intros x Hx. unfold readable, below_dpmi. simpl. by rewrite orb_true_r.
Defined.

Lemma block_writable a : 0x3000 <= a < 0x4000 -> writable flat_env block_state a.
Proof.
  intros Ha. split.
  - unfold plain, below_dpmi. simpl. by rewrite orb_true_r.
  - unfold protected, copy_of. rewrite block_map_of. destruct (_ =? 0); [|done]. simpl.
    destruct (Z.eqb_spec (page_index a) 1) as [E|]; [|done]. exfalso. revert E Ha.
    unfold page_index, HOST_PAGE_SIZE, pagespermega. clear. Z.to_euclidean_division_equations. lia.
Qed.

Lemma memory_refines_bytes_witness :
  wpx (do_read (E := pagefault) flat_env no_handler 4 0x3001) block_state
    (fun r s' => r = load 4 (mem_flat flat_env block_state) 0x3001 /\
       ((forall b, mem_flat flat_env s' b = mem_flat flat_env block_state b) /\
        (forall b, mem_mapped flat_env no_jit no_jit_ok s' b <-> mem_mapped flat_env no_jit no_jit_ok block_state b)))
    (fun _ _ => False) /\
  wpx (do_write (E := pagefault) flat_env no_handler 4 0x3001 0x12345678) block_state
    (fun _ s' => (forall b, mem_flat flat_env s' b = store 4 0x12345678 0x3001 (mem_flat flat_env block_state) b) /\
       (forall b, mem_mapped flat_env no_jit no_jit_ok s' b <-> mem_mapped flat_env no_jit no_jit_ok block_state b))
    (fun _ _ => False).
Proof.
  apply (memory_refines_bytes flat_env no_jit no_jit_ok flat_env_ok no_handler 4 0x3001 0x12345678 block_state); [by do 2 right|done|done|].
  intros i Hi. split; [apply block_ok|]. split; [by apply flat_injective|]. split; [apply in_space_spec; lia|]. apply block_writable. lia.
Defined.

(** A write into the block, with a handler that drops nothing. *)
Lemma protected_write_seen_witness :
  wpx (do_write flat_env (emu_pagefault_handler true (fun _ _ => ret tt) (fun _ _ => ret tt) (fun _ => false) (fun _ _ _ => ret tt)) 2 0x1006 7)
    block_state (fun _ s' => guest_byte (guest s') 0x1006 = 7 /\ guest_byte (guest s') 0x1007 = 0) (fun _ _ => False).
Proof.
  apply (protected_write_seen flat_env no_jit no_jit_ok flat_env_ok 2 0x1006 7 block_state); [by right; left|apply block_ok|done|done|done|done|done|done|].
  assert (forall s1 : flat_state, phys (guest s1) = phys flat_guest ->
    guest_byte (guest (store_at (V := unit) 2 (dosaddr_to_unixaddr flat_env (phys (guest block_state)) 0x1006) 7 s1)) 0x1006 = 7 /\
    guest_byte (guest (store_at (V := unit) 2 (dosaddr_to_unixaddr flat_env (phys (guest block_state)) 0x1006) 7 s1)) 0x1007 = 0) as Hstore.
  { intros [? ? ? [ph c t v]] Eph. simpl in Eph. subst ph. vm_compute. done. }
  intros s1 Hst. split; intros _; [simpl|]; by apply Hstore, Hst.
Defined.

Lemma remap_keeps_cache_witness :
  guest_ok flat_env (update_aliasmap_cached 0xd0000 0x4000 0x20000000 flat_guest).
Proof. apply (remap_keeps_cache flat_env 0xd0000 0x4000 0x20000000 flat_guest); [apply flat_guest_ok|done..]. Defined.

(** ** Where the code fails *)

(** A block that ends with its megabyte, when the next one has no map: the
    marks are made, then [assert(M)] fails. *)
Definition mega_end_state : flat_state := MkMarks [] None [MkCe 0xff000 10 (Some zero_page)] flat_guest.

Lemma markpage_mega_end_fails : e_markpage 0xffff8 8 mega_end_state = Fault AssertFailed.
Proof. vm_compute. done. Qed.

(** A marked byte in the range behind a megabyte without a map is not found. *)
Definition second_mega : tMpMap := MkMpMap 1 (set_bit 4 (fun _ => 0)) (set_bit 4 (fun _ => 0)) (fun i => if i =? 0 then Some zero_page else None).
Definition second_mega_state : flat_state := MkMarks [second_mega] None [] flat_guest.

Lemma querymark_gap_misses :
  marked second_mega_state 0x100004 = true /\
  outcome (fun b _ => b) (e_querymark 0xffff0 0x20) second_mega_state = Some false.
Proof. vm_compute. done. Qed.

(** [{0xffffffff}] initialises the first entry of the page cache only: before
    the last page has been used, an access across the end of the address space
    hits the entry 0 of its hash and uses a NULL page. *)
Lemma initial_cache_hits_null : unprotected_dosaddr_to_unixaddr flat_guest 0xfffffffe 4 = Some 0xffe.
Proof. vm_compute. done. Qed.
