(* ===== verification/MarksRange.v ===== *)
(** * Marks of translated code: protection of a range *)

From stdpp Require Import base numbers list.
From Stdlib Require Import ZArith Lia.
From S2P Require Import Prelude Machine SimMem Marks MarksInv MarksQuery MarksPages MarksProt MarksMark MarksFetch.

Local Open Scope Z_scope.

Section range.
Context {G : Type} `{CodeMemLaws G}.
Implicit Types s : marks G.
#[local] Set Default Proof Using "Type*".

(** The first byte of page number [i]. *)
Definition page_addr (i : Z) : Z := i * HOST_PAGE_SIZE.

Lemma page_addr_mega i : page_addr i / 2 ^ 20 = i / pagespermega.
Proof using Type. unfold page_addr, HOST_PAGE_SIZE, pagespermega. Z.to_euclidean_division_equations. lia. Qed.

Lemma page_addr_index i : page_index (page_addr i) = i mod pagespermega.
Proof using Type. unfold page_index, page_addr. by rewrite Z.div_mul. Qed.

Definition page_protected s (i : Z) : Prop := protected s (page_addr i) = true.

(** The map [r] is the one of page [a2l]; without one the search is at the
    start of a megabyte. *)
Lemma querymprotrange_loop_finds s a2h fuel : forall r a2l s',
  marks_ok s' -> MpH s' = MpH s -> 0 <= a2l -> page_addr (a2h + pagespermega + 1) < 2 ^ 32 ->
  r = mega <$> map_of s (page_addr a2l) -> (r = None -> a2l mod pagespermega = 0) -> (Z.to_nat (a2h + 1 - a2l) < fuel)%nat ->
  finds (querymprotrange_loop fuel r a2l a2h) s' (fun b => b = true <-> exists i, a2l <= i <= a2h /\ page_protected s i).
Proof.
  induction fuel as [|fuel IH]; [lia|]. intros r a2l s' Hs' E Ha Hend Hr Hal Hfuel. cbn [querymprotrange_loop].
  destruct (Z.ltb_spec a2h a2l).
  { apply finds_ret; [done|]. split; [done|]. intros (i & Hi & _). lia. }
  assert (forall x s1, marks_ok s1 -> MpH s1 = MpH s -> a2l <= x <= a2h + pagespermega ->
    quiet (FindM (u32 (page_addr x))) s1 (mega <$> map_of s (page_addr x))) as Hfind.
  { intros x s1 Hs1 E1 Hx. unfold page_addr, HOST_PAGE_SIZE, pagespermega in *. rewrite u32_small by lia.
    assert (map_of s (x * 4096) = map_of s1 (x * 4096)) as -> by (unfold map_of; by rewrite E1). apply quiet_FindM; [done|lia]. }
  destruct r as [m|].
  - destruct (map_of s (page_addr a2l)) as [M|] eqn:HM; [|done]. injection Hr as ->.
    assert (page_protected s a2l <-> is_page (pagemap M (a2l mod pagespermega)) = true) as Hp.
    { unfold page_protected, protected, copy_of. by rewrite HM, page_addr_index. }
    eapply (quiet_bind _ _ _ (pagemap M (a2l mod pagespermega))); [done| |].
    { unfold pagemap_at. eapply quiet_bind; [done|apply quiet_deref; [done|]|intros; by apply quiet_ret].
      rewrite E. unfold map_of in HM. by rewrite (proj2 (has_map_Some _ _ _ HM)). }
    intros s1 Hs1 E1. destruct (is_page _) eqn:Ep.
    { apply finds_ret; [done|]. split; [|done]. intros _. exists a2l. split; [lia|by apply Hp]. }
    cbn zeta. assert (forall (b : bool), (b = true <-> exists i, a2l + 1 <= i <= a2h /\ page_protected s i) -> b = true <-> exists i, a2l <= i <= a2h /\ page_protected s i) as Hstep.
    { intros b ->. split; intros (i & Hi & Hpi); exists i; (split; [|done]); [lia|]. destruct (Z.eq_dec i a2l) as [->|]; [|lia].
      apply Hp in Hpi. congruence. }
    eapply (quiet_bind _ _ _ (mega <$> map_of s (page_addr (a2l + 1)))); [done| |].
    { destruct (Z.eqb_spec ((a2l + 1) mod pagespermega) 0) as [E0|E0]; [apply Hfind; [done|congruence|unfold pagespermega; lia]|].
      unfold map_of. rewrite page_addr_mega.
      assert ((a2l + 1) / pagespermega = a2l / pagespermega) as -> by (revert E0; unfold pagespermega; clear; Z.to_euclidean_division_equations; lia).
      unfold map_of in HM. rewrite page_addr_mega in HM. rewrite HM. by apply quiet_ret. }
    intros s2 Hs2 E2. eapply finds_mono; [apply IH; [done|congruence|lia|done|done| |lia]|exact Hstep].
    intros En. destruct (Z.eq_dec ((a2l + 1) mod pagespermega) 0) as [|E0]; [done|exfalso].
    unfold map_of in En, HM. rewrite page_addr_mega in En, HM.
    assert ((a2l + 1) / pagespermega = a2l / pagespermega) as E3 by (revert E0; unfold pagespermega; clear; Z.to_euclidean_division_equations; lia).
    by rewrite E3, HM in En.
  - destruct (map_of s (page_addr a2l)) as [M|] eqn:HM; [done|]. specialize (Hal eq_refl). cbn zeta.
    eapply (quiet_bind _ _ _ (mega <$> map_of s (page_addr (a2l + pagespermega)))); [done|apply Hfind; [done|done|unfold pagespermega; lia]|].
    intros s2 Hs2 E2. eapply finds_mono; [apply IH; [done|congruence|unfold pagespermega; lia|done|done| |unfold pagespermega; lia]|].
    + intros _. revert Hal. unfold pagespermega. clear. Z.to_euclidean_division_equations. lia.
    + intros b ->. split; intros (i & Hi & Hpi); exists i; (split; [|done]); [unfold pagespermega in *; lia|].
      destruct (Z.lt_ge_cases i (a2l + pagespermega)) as [Hlt|]; [exfalso|lia]. unfold page_protected, protected, copy_of, map_of in *.
      rewrite page_addr_mega in *. assert (i / pagespermega = a2l / pagespermega) as E3
        by (revert Hal Hlt Hi; unfold pagespermega; clear; Z.to_euclidean_division_equations; lia).
      by rewrite E3, HM in Hpi.
Qed.

(** Some page of the range is protected. *)
Lemma e_querymprotrange_finds addr len s :
  marks_ok s -> 0 <= addr -> 0 < len -> addr + len <= ADDR_END - 2 ^ 13 ->
  finds (e_querymprotrange addr len) s (fun b => b = true <-> exists a, page_start addr <= a < addr + len /\ protected s a = true).
Proof.
  intros Hs Ha Hl Hend. unfold ADDR_END in Hend. unfold e_querymprotrange.
  eapply quiet_bind; [done|by apply quiet_FindM|]. intros s1 Hs1 E1. cbn zeta.
  set (lo := addr / HOST_PAGE_SIZE). set (hi := (addr + len - 1) / HOST_PAGE_SIZE).
  assert (map_of s (page_addr lo) = map_of s addr) as Elo.
  { unfold map_of. f_equal. unfold page_addr, lo, HOST_PAGE_SIZE. Z.to_euclidean_division_equations. lia. }
  assert (0 <= lo /\ page_addr (hi + pagespermega + 1) < 2 ^ 32) as [Hlo Hhi]
    by (unfold lo, hi, page_addr, pagespermega, HOST_PAGE_SIZE in *; Z.to_euclidean_division_equations; lia).
  assert (forall i, lo <= i <= hi -> page_protected s i -> exists a, page_start addr <= a < addr + len /\ protected s a = true) as Hto.
  { intros i Hi Hp. exists (page_addr i). split; [|done]. rewrite page_start_eq. unfold page_addr, lo, hi, HOST_PAGE_SIZE in *.
    Z.to_euclidean_division_equations. lia. }
  assert (forall a, page_start addr <= a < addr + len -> protected s a = true -> exists i, lo <= i <= hi /\ page_protected s i) as Hfrom.
  { intros a Haa Hp. exists (a / HOST_PAGE_SIZE). split.
    - rewrite page_start_eq in Haa. unfold lo, hi, HOST_PAGE_SIZE in *. Z.to_euclidean_division_equations. lia.
    - unfold page_protected. rewrite <- Hp. apply protected_page. unfold page_addr. by rewrite Z.div_mul. }
  destruct (map_of s addr) as [M|] eqn:HM; cbn [fmap option_fmap option_map].
  - eapply finds_mono; [apply (querymprotrange_loop_finds s hi); [done|done|done|done|by rewrite Elo|done|lia]|].
    intros b ->. split; [intros (i & Hi & Hp); by eapply Hto|intros (a & Haa & Hp); by eapply Hfrom].
  - set (lo' := lo - lo mod pagespermega).
    assert (lo' mod pagespermega = 0 /\ 0 <= lo' <= lo /\ lo' / pagespermega = lo / pagespermega) as (F1 & F2 & F3)
      by (unfold lo', pagespermega; clear - Hlo; Z.to_euclidean_division_equations; lia).
    assert (map_of s (page_addr lo') = None) as Elo'.
    { rewrite <- Elo. unfold map_of. rewrite !page_addr_mega. by rewrite F3. }
    eapply finds_mono; [apply (querymprotrange_loop_finds s hi); [done|done|lia|done|by rewrite Elo'|done|lia]|].
      intros b ->. split; [|intros (a & Haa & Hp); destruct (Hfrom a Haa Hp) as (i & Hi & Hpi); exists i; split; [lia|done]].
      intros (i & Hi & Hp). apply (Hto i); [|done]. destruct (Z.lt_ge_cases i lo) as [Hlt|]; [exfalso|lia].
      unfold page_protected, protected, copy_of, map_of in Hp, Elo'. rewrite page_addr_mega in Hp, Elo'.
      assert (i / pagespermega = lo' / pagespermega) as E3 by (revert F3 F1 Hi Hlt; unfold lo', pagespermega; clear; Z.to_euclidean_division_equations; lia).
      by rewrite E3, Elo' in Hp.
Qed.

(** All pages up to [a2h] are protected when the answer is yes. *)
Lemma querymprotrange_full_loop_finds s a2h fuel : forall r a2l s',
  marks_ok s' -> MpH s' = MpH s -> 0 <= a2l -> page_addr (a2h + 1) < 2 ^ 32 ->
  r = mega <$> map_of s (page_addr a2l) -> (Z.to_nat (a2h + 1 - a2l) < fuel)%nat ->
  finds (querymprotrange_full_loop fuel r a2l a2h) s' (fun b => b = true -> forall i, a2l <= i <= a2h -> page_protected s i).
Proof.
  induction fuel as [|fuel IH]; [lia|]. intros r a2l s' Hs' E Ha Hend Hr Hfuel. cbn [querymprotrange_full_loop].
  destruct r as [m|]; [|by apply finds_ret]. destruct (map_of s (page_addr a2l)) as [M|] eqn:HM; [|done]. injection Hr as ->.
  destruct (Z.ltb_spec a2h a2l); [apply finds_ret; [done|lia]|].
  eapply (quiet_bind _ _ _ (pagemap M (a2l mod pagespermega))); [done| |].
  { unfold pagemap_at. eapply quiet_bind; [done|apply quiet_deref; [done|]|intros; by apply quiet_ret].
    rewrite E. unfold map_of in HM. by rewrite (proj2 (has_map_Some _ _ _ HM)). }
  intros s1 Hs1 E1. destruct (is_page _) eqn:Ep; cbn [negb]; [|by apply finds_ret]. cbn zeta.
  assert (page_protected s a2l) as Hp by (unfold page_protected, protected, copy_of; by rewrite HM, page_addr_index).
  eapply (quiet_bind _ _ _ (mega <$> map_of s (page_addr (a2l + 1)))); [done| |].
  { destruct (Z.eqb_spec ((a2l + 1) mod pagespermega) 0) as [E0|E0].
    - unfold page_addr, HOST_PAGE_SIZE in *. rewrite u32_small by lia.
      assert (map_of s ((a2l + 1) * 4096) = map_of s1 ((a2l + 1) * 4096)) as -> by (unfold map_of; by rewrite E1, E).
      apply quiet_FindM; [done|lia].
    - unfold map_of. rewrite page_addr_mega.
      assert ((a2l + 1) / pagespermega = a2l / pagespermega) as -> by (revert E0; unfold pagespermega; clear; Z.to_euclidean_division_equations; lia).
      unfold map_of in HM. rewrite page_addr_mega in HM. rewrite HM. by apply quiet_ret. }
  intros s2 Hs2 E2. eapply finds_mono; [apply IH; [done|congruence|lia|done|done|lia]|].
  intros b Hb Eb i Hi. destruct (Z.eq_dec i a2l) as [->|]; [done|]. apply Hb; [done|lia].
Qed.

Lemma e_querymprotrange_full_finds addr len s :
  marks_ok s -> 0 <= addr -> 0 < len -> addr + len <= ADDR_END ->
  finds (e_querymprotrange_full addr len) s (fun b => b = true -> forall a, page_start addr <= a < addr + len -> protected s a = true).
Proof.
  intros Hs Ha Hl Hend. unfold ADDR_END in Hend. unfold e_querymprotrange_full.
  eapply quiet_bind; [done|by apply quiet_FindM|]. intros s1 Hs1 E1. cbn zeta.
  set (lo := addr / HOST_PAGE_SIZE). set (hi := (addr + len - 1) / HOST_PAGE_SIZE).
  assert (map_of s (page_addr lo) = map_of s addr) as Elo.
  { unfold map_of. f_equal. unfold page_addr, lo, HOST_PAGE_SIZE. Z.to_euclidean_division_equations. lia. }
  assert (0 <= lo /\ page_addr (hi + 1) < 2 ^ 32) as [Hlo Hhi]
    by (unfold lo, hi, page_addr, HOST_PAGE_SIZE in *; Z.to_euclidean_division_equations; lia).
  eapply finds_mono; [apply (querymprotrange_full_loop_finds s hi); [done|done|done|done|by rewrite Elo|lia]|].
  intros b Hb Eb a Haa. rewrite <- (Hb Eb (a / HOST_PAGE_SIZE)); [apply protected_page; unfold page_addr; by rewrite Z.div_mul|].
  rewrite page_start_eq in Haa. unfold lo, hi, HOST_PAGE_SIZE in *. Z.to_euclidean_division_equations. lia.
Qed.

End range.

(** ** Marks of translated code: pages that can be marked

    A page that has been fetched is in the cache or protected, as [e_markpage]
    wants it; fetching one page keeps the others. *)

Section avail.
Context {G : Type} `{CodeMemLaws G}.
Context (junk : bytes).
Implicit Types s : marks G.
Hypothesis junk_bytes : bytes_ok junk.
#[local] Set Default Proof Using "Type*".

(** There is a copy of the page [a]. *)
Definition available s (a : Z) : Prop := exists l c, holds_page s l a c.

Lemma available_spec s a : aligned a -> available s a <-> protected s a = true \/ is_Some (cached (clist s) a).
Proof using Type.
  intros Ha. split.
  - intros ([i|m page] & c & Hh); simpl in Hh.
    + right. destruct Hh as (n & Hi). unfold cached. destruct (find (holds a) (clist s)) as [e|] eqn:E.
      * apply find_some in E as [_ E]. destruct (holds_inv _ _ E) as [p ->]. by eexists.
      * exfalso. apply list_elem_of_lookup_2, list_elem_of_In in Hi. pose proof (find_none _ _ E _ Hi) as Hn. unfold holds in Hn. simpl in Hn.
        by rewrite Z.eqb_refl in Hn.
    + left. destruct Hh as (_ & _ & Hc). unfold protected. by rewrite Hc.
  - intros [Hp|[p Hp]].
    + unfold protected in Hp. destruct (copy_of s a) as [c|] eqn:E; [|done]. exists (InMap (a / 2 ^ 20) (page_index a)), c. done.
    + unfold cached in Hp. destruct (find (holds a) (clist s)) as [e|] eqn:E; [|done]. apply find_some in E as [Hin E].
      destruct (holds_inv _ _ E) as [c Ee]. apply list_elem_of_In, list_elem_of_lookup in Hin as [i Hi]. rewrite Ee in Hi. exists (InCache i), c. by exists (alive_cnt e).
Qed.

Lemma available_range s addr len :
  fetched_range s addr len <-> forall a, aligned a -> page_start addr <= a < addr + len -> available s a.
Proof using Type.
  split.
  - intros Hf a Ha Hr. apply available_spec; [done|]. destruct (protected s a) eqn:E; [by left|right]. by apply Hf.
  - intros Hf a Ha Hr Hp. destruct (proj1 (available_spec s a Ha) (Hf a Ha Hr)); [congruence|done].
Qed.

Lemma jit_fetch_byte_available x s :
  marks_ok s -> copies_ok s -> 0 <= x < 2 ^ 32 -> room s 2 ->
  wp (jit_fetch_byte junk x) s (fun r s' => fetch_step s 1 s' /\ available s' (page_start x) /\
    forall b, aligned b -> available s b -> available s' b).
Proof.
  intros Hs Hc Hx Hroom. unfold room in Hroom. destruct (page_start_spec x) as [Hp1 Hp2].
  assert (0 <= page_start x) as Hp5 by (apply page_start_le; [done|lia]).
  unfold jit_fetch_byte, e_fetch. wp_step. wp_step. wp_step; [done|]. replace (x + 1 - 1) with x by lia. rewrite u32_small by lia.
  wp_step. wp_step; [apply Z.eqb_refl|]. set (a := page_start x) in *. change (a / HOST_PAGE_SIZE mod pagespermega) with (page_index a).
  wp_step. eapply wp_mono; [apply find_page_correct; [done|done|done|done|lia|by left]|].
  intros [p0 r] s1 (Hf1 & (c0 & Hc0) & Hk1 & _). simpl in Hc0. wp_step. rewrite Z.eqb_refl.
  eapply wp_mono; [apply (copy_in_correct p0 _ _ _ a c0); [apply Hf1|apply Hf1|done|done]|].
  intros [] s2 (Hf2 & Hh2 & Hk2). pose proof (fetch_trans _ _ _ _ _ Hf1 Hf2) as Hf12. wp_step. cbn beta.
  assert (available s2 a) as Hav by (by eexists p0, _).
  assert (forall b, aligned b -> available s b -> available s2 b) as Hkeep.
  { intros b Hb (l & d & Hl). destruct (Z.eq_dec b a) as [->|Hne]; [done|]. exists l, d. apply Hk2; [done|done|]. by apply Hk1. }
  wp_step. unfold fetched. wp_step. cbn [fst snd].
  eapply quiet_wp; [by eapply page_at_quiet; [apply Hf2|]|]. intros s3 Hss. wp_step. wp_step. wp_step. wp_step.
  assert (forall b, available s2 b -> available s3 b) as Hseen by (intros b (l & d & Hl); exists l, d; by eapply holds_seen).
  split; [|split; [by apply Hseen|intros b Hb Hab; by apply Hseen, Hkeep]].
  eapply (fetch_trans _ 1 0); [exact Hf12|]. apply fetch_seen; [apply Hf2|apply Hf2|done].
Qed.

(** Fetching a byte of each page from [a] on. *)
Fixpoint fetch_pages (fuel : nat) (a aend : Z) : M (marks G) unit :=
  match fuel with
  | O => throw OutOfFuel
  | S fuel => if aend <? a then ret tt else jit_fetch_byte junk a ;; fetch_pages fuel (u32 (a + HOST_PAGE_SIZE)) aend
  end.

Lemma fetch_pages_available fuel : forall a aend s,
  marks_ok s -> copies_ok s -> aligned a -> aligned aend -> 0 <= a -> a <= aend + HOST_PAGE_SIZE -> aend + HOST_PAGE_SIZE < 2 ^ 32 ->
  room s ((aend - a) / HOST_PAGE_SIZE + 2) -> ((aend - a) / HOST_PAGE_SIZE + 1 < Z.of_nat fuel) ->
  wp (fetch_pages fuel a aend) s (fun _ s' => exists n, fetch_step s n s' /\ (forall b, aligned b -> a <= b <= aend -> available s' b) /\
    forall b, aligned b -> available s b -> available s' b).
Proof.
  induction fuel as [|fuel IH]; intros a aend s Hs Hc Ha He Ha0 Hle Hend Hroom Hfuel.
  { exfalso. revert Hle Hfuel. clear. unfold HOST_PAGE_SIZE. intros. Z.to_euclidean_division_equations. lia. }
  cbn [fetch_pages]. destruct (Z.ltb_spec aend a).
  { wp_step. exists 0%nat. split; [by apply fetch_refl|]. split; [intros; lia|done]. }
  assert ((aend - a) / HOST_PAGE_SIZE = (aend - (a + HOST_PAGE_SIZE)) / HOST_PAGE_SIZE + 1) as Ediv
    by (unfold HOST_PAGE_SIZE; clear; Z.to_euclidean_division_equations; lia).
  assert (0 <= (aend - a) / HOST_PAGE_SIZE) as Hnn by (apply Z.div_pos; unfold HOST_PAGE_SIZE; lia).
  wp_step. eapply wp_mono; [apply jit_fetch_byte_available; [done|done|unfold HOST_PAGE_SIZE in *; lia|unfold room in *; lia]|].
  intros x s1 (Hf1 & Hav & Hk1). cbn beta. rewrite u32_small by (unfold HOST_PAGE_SIZE in *; lia).
  assert (a + HOST_PAGE_SIZE <= aend + HOST_PAGE_SIZE) by lia.
  eapply wp_mono; [apply (IH (a + HOST_PAGE_SIZE) aend s1); [apply Hf1|apply Hf1|by apply aligned_next|done|unfold HOST_PAGE_SIZE; lia|done|done| |lia]|].
  { pose proof (fe_clist _ _ _ Hf1). unfold room in *. lia. }
  intros [] s2 (n & Hf2 & Hav2 & Hk2). exists (1 + n)%nat. split; [by eapply fetch_trans|]. split.
  - intros b Hb Hr. destruct (Z.eq_dec b a) as [->|Hne].
    + apply Hk2; [done|]. by rewrite aligned_start in Hav.
    + apply Hav2; [done|]. assert (a < b) as Hlt by lia. apply aligned_le in Hlt; [lia|done|done].
  - intros b Hb Hab. apply Hk2; [done|]. by apply Hk1.
Qed.

End avail.
