(* ===== verification/Fhmap.v ===== *)
(** * Lists with a head and the hash map of the translator (ulist.h, fhmap.h)

    [ulist_add] and [ulist_del] on a store of pointers and the lists it
    represents; then the map of simx86/trees.h, whose buckets are such lists,
    and the finite map it stands for.  The heads are the elements of the array
    [bs] of the map, the entries are embedded in the nodes of the client: an
    entry has the number of its node, so [ulist_entry] and [container_of] are
    the identity; NULL is [None]. *)

From stdpp Require Import base numbers list gmap.
From Stdlib Require Import ZArith Lia.
From S2P Require Import Prelude Machine SimMem.

Local Open Scope Z_scope.

(** A [struct ulist_head *]: a head, or the [list] field of an entry. *)
Inductive lptr := Head (h : Z) | Ent (e : Z).
#[export] Instance lptr_eq_dec : EqDecision lptr. Proof. solve_decision. Defined.

Record ulist_head := MkHead { next : option lptr; prev : option lptr }.
#[export] Instance eta_ulist_head : Eta ulist_head := fun x => MkHead x.(next) x.(prev).

Record ulist_ent := MkEnt { list_of : ulist_head; head_of : Z }.
#[export] Instance eta_ulist_ent : Eta ulist_ent := fun x => MkEnt x.(list_of) x.(head_of).

Record cells := MkCells { heads : Z -> ulist_head; ents : gmap Z ulist_ent }.
#[export] Instance eta_cells : Eta cells := fun x => MkCells x.(heads) x.(ents).

(** [*p] and an assignment to it. *)
Definition deref_cell (p : lptr) : M cells ulist_head :=
  let! s := get in
  match p with
  | Head h => ret (heads s h)
  | Ent e => match ents s !! e with Some x => ret (list_of x) | None => throw BadPointer end
  end.

Definition set_cell (p : lptr) (f : ulist_head -> ulist_head) : M cells unit :=
  deref_cell p ;;
  modify (fun s =>
    match p with
    | Head h => s <| heads ::= fun g i => if i =? h then f (g i) else g i |>
    | Ent e => s <| ents ::= alter (fun x => x <| list_of ::= f |>) e |>
    end).

Definition ulist_add (entry head : Z) : M cells unit :=
  let! h := deref_cell (Head head) in
  let nx := next h in
  match nx with Some n => set_cell n (fun c => c <| prev := Some (Ent entry) |>) | None => ret tt end ;;
  set_cell (Ent entry) (fun c => c <| next := nx |>) ;;
  set_cell (Ent entry) (fun c => c <| prev := Some (Head head) |>) ;;
  modify (fun s => s <| ents ::= alter (fun x => x <| head_of := head |>) entry |>) ;;
  set_cell (Head head) (fun c => c <| next := Some (Ent entry) |>).

Definition ulist_del (entry : Z) : M cells unit :=
  let! c := deref_cell (Ent entry) in
  match next c with Some n => set_cell n (fun d => d <| prev := prev c |>) | None => ret tt end ;;
  match prev c with Some p => set_cell p (fun d => d <| next := next c |>) | None => throw BadPointer end.

Definition ulist_empty (head : Z) : M cells bool :=
  let! h := deref_cell (Head head) in ret (match next h with None => true | Some _ => false end).

(** The entry a list pointer is embedded in; there is none around a head. *)
Definition ulist_entry (p : option lptr) : M cells (option Z) :=
  match p with None => ret None | Some (Ent e) => ret (Some e) | Some (Head _) => throw BadPointer end.

(** ** What the cells represent *)

Definition cell (s : cells) (p : lptr) : option ulist_head :=
  match p with Head h => Some (heads s h) | Ent e => list_of <$> ents s !! e end.

(** The cells from [p] on, in the list of [h], are [l]. *)
Fixpoint chain (s : cells) (h : Z) (p : lptr) (l : list Z) : Prop :=
  next <$> cell s p =
    Some (match l with [] => None | e :: _ => Some (Ent e) end) /\
  match l with
  | [] => True
  | e :: l => prev <$> cell s (Ent e) = Some (Some p) /\ head_of <$> ents s !! e = Some h /\ chain s h (Ent e) l
  end.

(** The list of [h] has the entries [l]. *)
Definition is_list (s : cells) (h : Z) (l : list Z) : Prop := NoDup l /\ chain s h (Head h) l.

(** ** Single assignments *)

Definition put (s : cells) (p : lptr) (f : ulist_head -> ulist_head) : cells :=
  match p with
  | Head h => s <| heads ::= fun g i => if i =? h then f (g i) else g i |>
  | Ent e => s <| ents ::= alter (fun x => x <| list_of ::= f |>) e |>
  end.

Lemma wp_deref_cell s p c (Q : ulist_head -> cells -> Prop) :
  cell s p = Some c -> Q c s -> wp (deref_cell p) s Q.
Proof.
  intros E HQ. unfold deref_cell. repeat wp_step. destruct p as [h|e]; simpl in E.
  - injection E as <-. by wp_step.
  - destruct (ents s !! e); [|done]. injection E as <-. by wp_step.
Qed.

Lemma wp_set_cell s p f (Q : unit -> cells -> Prop) :
  is_Some (cell s p) -> Q tt (put s p f) -> wp (set_cell p f) s Q.
Proof. intros [c E] HQ. unfold set_cell. wp_step. eapply wp_deref_cell; [exact E|]. cbn beta. wp_step. exact HQ. Qed.

Lemma cell_put s p f q : cell (put s p f) q = if decide (p = q) then f <$> cell s q else cell s q.
Proof.
  destruct (decide (p = q)) as [->|Hne].
  - destruct q as [h|e]; simpl; [by rewrite Z.eqb_refl|]. rewrite lookup_alter_eq. by destruct (ents s !! e).
  - destruct p as [h|e], q as [h'|e']; simpl; try done.
    + destruct (Z.eqb_spec h' h); [congruence|done].
    + rewrite lookup_alter_ne by congruence. done.
Qed.

Lemma head_of_put s p f e : head_of <$> ents (put s p f) !! e = head_of <$> ents s !! e.
Proof.
  destruct p as [h|e']; simpl; [done|]. destruct (decide (e' = e)) as [->|].
  - rewrite lookup_alter_eq. by destruct (ents s !! e).
  - by rewrite lookup_alter_ne.
Qed.

Lemma alloc_put s p f e : is_Some (ents (put s p f) !! e) <-> is_Some (ents s !! e).
Proof. rewrite <- !(fmap_is_Some head_of). by rewrite head_of_put. Qed.

Lemma cell_ent s e : is_Some (cell s (Ent e)) <-> is_Some (ents s !! e).
Proof. simpl. apply fmap_is_Some. Qed.

(** ** Chains *)

(** A chain depends on [next] of its first cell and on its entries. *)
Lemma chain_frame s s' h p l :
  next <$> cell s' p = next <$> cell s p -> (forall e, e ∈ l -> ents s' !! e = ents s !! e) ->
  chain s h p l -> chain s' h p l.
Proof.
  revert p. induction l as [|e l IH]; intros p Hp Hl; cbn [chain]; intros [H1 H2]; (split; [by rewrite Hp|]); [done|].
  destruct H2 as (H3 & H4 & H5). assert (ents s' !! e = ents s !! e) as Ee by (apply Hl; left).
  split; [|split].
  - cbn [cell]. by rewrite Ee.
  - by rewrite Ee.
  - apply IH; [|intros x Hx; apply Hl; by right|done]. cbn [cell]. by rewrite Ee.
Qed.

Lemma is_list_frame s s' h l :
  heads s' h = heads s h -> (forall e, e ∈ l -> ents s' !! e = ents s !! e) -> is_list s h l -> is_list s' h l.
Proof. intros Hh Hl [H1 H2]. split; [done|]. apply (chain_frame s); [|done|done]. simpl. by rewrite Hh. Qed.

Lemma chain_heads s h p l e : chain s h p l -> e ∈ l -> head_of <$> ents s !! e = Some h.
Proof.
  revert p. induction l as [|x l IH]; intros p; [by intros _ H%elem_of_nil|].
  intros (_ & _ & H3 & H4) [->|He]%elem_of_cons; [done|by eapply IH].
Qed.

Lemma is_list_head s h l e : is_list s h l -> e ∈ l -> head_of <$> ents s !! e = Some h.
Proof. intros [_ Hc]. by apply (chain_heads s h (Head h)). Qed.

Lemma is_list_alloc s h l e : is_list s h l -> e ∈ l -> is_Some (ents s !! e).
Proof. intros Hl He. pose proof (is_list_head _ _ _ _ Hl He) as E. destruct (ents s !! e); [by eexists|done]. Qed.

(** Lists of different heads share no entry. *)
Lemma is_list_disjoint s h h' l l' e : is_list s h l -> is_list s h' l' -> e ∈ l -> e ∈ l' -> h = h'.
Proof. intros H1 H2 E1 E2. pose proof (is_list_head _ _ _ _ H1 E1). pose proof (is_list_head _ _ _ _ H2 E2). congruence. Qed.

Lemma is_list_first s h l : is_list s h l -> next (heads s h) = Ent <$> hd_error l.
Proof. intros [_ Hc]. destruct l; destruct Hc as [E _]; simpl in E; by injection E. Qed.

(** Nothing outside the list [l] of [h] and the entry [e] changes. *)
Definition only_list (s s' : cells) (h e : Z) (l : list Z) : Prop :=
  (forall h', h' <> h -> heads s' h' = heads s h') /\
  (forall x, x <> e -> x ∉ l -> ents s' !! x = ents s !! x) /\
  (forall x, is_Some (ents s' !! x) <-> is_Some (ents s !! x)).

Lemma put_other_ent s p f e : p <> Ent e -> ents (put s p f) !! e = ents s !! e.
Proof. intros Hp. destruct p; simpl; [done|]. rewrite lookup_alter_ne; [done|congruence]. Qed.

Lemma put_other_head s p f h : p <> Head h -> heads (put s p f) h = heads s h.
Proof. intros Hp. destruct p; simpl; [|done]. destruct (Z.eqb_spec h h0); [congruence|done]. Qed.

(** ** [ulist_add] and [ulist_del] *)

Definition set_head (s : cells) (e h : Z) : cells := s <| ents ::= alter (fun x => x <| head_of := h |>) e |>.

Definition added (s : cells) (e h : Z) : cells :=
  let s1 := match next (heads s h) with Some n => put s n (fun c => c <| prev := Some (Ent e) |>) | None => s end in
  let s2 := put s1 (Ent e) (fun c => c <| next := next (heads s h) |>) in
  let s3 := put s2 (Ent e) (fun c => c <| prev := Some (Head h) |>) in
  put (set_head s3 e h) (Head h) (fun c => c <| next := Some (Ent e) |>).

Lemma ulist_add_eq s e h (Q : unit -> cells -> Prop) :
  is_Some (ents s !! e) -> (forall n, next (heads s h) = Some n -> is_Some (cell s n)) ->
  Q tt (added s e h) -> wp (ulist_add e h) s Q.
Proof.
  intros He Hn HQ. unfold ulist_add. wp_step. eapply wp_deref_cell; [done|]. cbn beta zeta.
  wp_step. set (s1 := match next (heads s h) with Some n => put s n (fun c => c <| prev := Some (Ent e) |>) | None => s end).
  assert (is_Some (ents s1 !! e)) as H1.
  { unfold s1. destruct (next (heads s h)); [by apply alloc_put|done]. }
  apply (wp_mono _ _ (fun _ s' => s' = s1)).
  { unfold s1. destruct (next (heads s h)) as [n|]; [apply wp_set_cell; [by apply Hn|done]|by wp_step]. }
  intros [] ? ->. wp_step. apply wp_set_cell; [by apply cell_ent|]. wp_step. apply wp_set_cell; [by apply cell_ent, alloc_put|].
  wp_step. wp_step. apply wp_set_cell; [by eexists|]. exact HQ.
Qed.

Lemma cell_set_head s e h q : cell (set_head s e h) q = cell s q.
Proof.
  destruct q as [h'|e']; simpl; [done|]. destruct (decide (e = e')) as [->|].
  - rewrite lookup_alter_eq. by destruct (ents s !! e').
  - by rewrite lookup_alter_ne.
Qed.

(** The cells of a list. *)
Lemma chain_cell s h p l e : chain s h p l -> e ∈ l -> is_Some (cell s (Ent e)).
Proof. intros Hc He. pose proof (chain_heads _ _ _ _ _ Hc He) as E. apply cell_ent. destruct (ents s !! e); [by eexists|done]. Qed.

Lemma ents_ext s s' e : cell s' (Ent e) = cell s (Ent e) -> head_of <$> ents s' !! e = head_of <$> ents s !! e -> ents s' !! e = ents s !! e.
Proof. simpl. destruct (ents s' !! e) as [[]|], (ents s !! e) as [[]|]; simpl; congruence. Qed.

(** [ulist_add] puts the entry in front. *)
Lemma added_list s e h l : is_list s h l -> e ∉ l -> is_Some (ents s !! e) -> is_list (added s e h) h (e :: l).
Proof.
  intros [Hnd Hc] Hel He. split; [by apply NoDup_cons|]. set (s' := added s e h).
  assert (next (heads s h) = Ent <$> hd_error l) as Hn by (by apply is_list_first).
  assert (forall x, x <> e -> hd_error l <> Some x -> ents s' !! x = ents s !! x) as Hother.
  { intros x Hx Hl. unfold s', added. rewrite put_other_ent by done. unfold set_head. cbn [ents upd].
    rewrite lookup_alter_ne, !put_other_ent by congruence. rewrite Hn. destruct l as [|y l]; simpl; [done|].
    rewrite lookup_alter_ne; [done|]. simpl in Hl. congruence. }
  assert (cell s' (Ent e) = Some (MkHead (Ent <$> hd_error l) (Some (Head h)))) as Ece.
  { unfold s', added. rewrite cell_put, cell_set_head, decide_False, !cell_put, !decide_True by done. rewrite Hn.
    destruct l as [|y l]; cbn [fmap option_fmap option_map hd_error].
    - destruct (proj2 (cell_ent s e) He) as [[] ->]. done.
    - rewrite cell_put, decide_False by (intros [= ->]; apply Hel; by left).
      destruct (proj2 (cell_ent s e) He) as [[] ->]. done. }
  split; [unfold s', added; rewrite cell_put, decide_True by done; done|].
  split; [by rewrite Ece|]. split.
  { unfold s', added. rewrite head_of_put. unfold set_head. cbn [ents upd]. rewrite lookup_alter_eq.
    match goal with |- head_of <$> (_ <$> ?o) = _ => destruct o eqn:Ex; [done|exfalso] end.
    apply (f_equal (fmap head_of)) in Ex. rewrite !head_of_put, Hn in Ex. destruct He as [x He].
    destruct l; cbn [fmap option_fmap option_map hd_error] in Ex; rewrite ?head_of_put, He in Ex; done. }
  destruct l as [|y l]; simpl in Hn; [by cbn [chain]; rewrite Ece|]. destruct Hc as (_ & H3 & H4 & H5).
  apply NoDup_cons in Hnd as [Hy Hnd]. apply not_elem_of_cons in Hel as [Hey Hel].
  split; [by rewrite Ece|].
  assert (cell s' (Ent y) = (fun c => c <| prev := Some (Ent e) |>) <$> cell s (Ent y)) as Ecy.
  { unfold s', added. rewrite cell_put, cell_set_head, decide_False, !cell_put, !decide_False by congruence.
    rewrite Hn. cbn [fmap option_fmap option_map]. by rewrite cell_put, decide_True. }
  split; [|split].
  - rewrite Ecy. destruct (cell s (Ent y)); [done|by simpl in H3].
  - unfold s', added. rewrite head_of_put. unfold set_head. cbn [ents upd]. rewrite lookup_alter_ne, !head_of_put by done.
    rewrite Hn. cbn [fmap option_fmap option_map]. by rewrite head_of_put.
  - apply (chain_frame s); [..|done].
    + rewrite Ecy. by destruct (cell s (Ent y)) as [[]|].
    + intros x Hx. apply Hother; [set_solver|]. simpl. intros [= ->]. done.
Qed.

Lemma added_only s e h l : is_list s h l -> only_list s (added s e h) h e l.
Proof.
  intros Hl. pose proof (is_list_first _ _ _ Hl) as Hn. unfold added. rewrite Hn. split; [|split].
  - intros h' Hh. rewrite put_other_head by congruence. unfold set_head. cbn [heads upd].
    rewrite !put_other_head by done. destruct l; simpl; [done|]. done.
  - intros x Hx Hxl. rewrite put_other_ent by done. unfold set_head. cbn [ents upd].
    rewrite lookup_alter_ne, !put_other_ent by congruence. destruct l as [|y l]; simpl; [done|].
    rewrite lookup_alter_ne; [done|]. set_solver.
  - intros x. rewrite alloc_put. unfold set_head. cbn [ents upd]. rewrite lookup_alter_is_Some, !alloc_put.
    destruct l as [|y l]; cbn [fmap option_fmap option_map hd_error]; [done|]. apply alloc_put.
Qed.

Lemma ulist_add_spec s e h l :
  is_list s h l -> e ∉ l -> is_Some (ents s !! e) ->
  wp (ulist_add e h) s (fun _ s' => is_list s' h (e :: l) /\ only_list s s' h e l).
Proof.
  intros Hl He Ha. apply ulist_add_eq; [done| |split; [by apply added_list|by apply added_only]].
  intros n En. rewrite (is_list_first _ _ _ Hl) in En. destruct l as [|y l]; [done|]. injection En as <-.
  apply cell_ent. eapply is_list_alloc; [exact Hl|by left].
Qed.

(** The last cell of a chain that starts at [p]. *)
Fixpoint last_cell (p : lptr) (l : list Z) : lptr := match l with [] => p | x :: l => last_cell (Ent x) l end.

Lemma last_cell_in p l : last_cell p l = p \/ exists x, x ∈ l /\ last_cell p l = Ent x.
Proof.
  revert p. induction l as [|y l IH]; intros p; simpl; [by left|]. right.
  destruct (IH (Ent y)) as [->|(x & Hx & ->)]; [exists y|exists x]; (split; [|done]); [left|by right].
Qed.

Lemma chain_split s h p l1 e l2 :
  chain s h p (l1 ++ e :: l2) ->
  cell s (Ent e) = Some (MkHead (Ent <$> hd_error l2) (Some (last_cell p l1))) /\ chain s h (Ent e) l2.
Proof.
  revert p. induction l1 as [|x l1 IH]; intros p; cbn [app chain last_cell].
  - intros (_ & H2 & H3 & H4). split; [|done].
    assert (next <$> cell s (Ent e) = Some (Ent <$> hd_error l2)) as Hn by (destruct l2; apply H4).
    destruct (cell s (Ent e)) as [[]|]; simpl in *; congruence.
  - intros (_ & _ & _ & H4). by apply IH.
Qed.

(** What [ulist_del] does to the cells, with [q] before and [n] after the entry. *)
Record unlinks (s s' : cells) (q : lptr) (n : option Z) : Prop := {
  un_next r : r <> q -> next <$> cell s' r = next <$> cell s r;
  un_next_q : is_Some (cell s q) -> next <$> cell s' q = Some (Ent <$> n);
  un_prev x : Some x <> n -> prev <$> cell s' (Ent x) = prev <$> cell s (Ent x);
  un_prev_n x : n = Some x -> is_Some (cell s (Ent x)) -> prev <$> cell s' (Ent x) = Some (Some q);
  un_head x : head_of <$> ents s' !! x = head_of <$> ents s !! x;
}.

Lemma chain_unlinks s s' h e l1 l2 p :
  NoDup (l1 ++ e :: l2) -> p ∉ Ent <$> l1 ++ e :: l2 -> chain s h p (l1 ++ e :: l2) -> is_Some (cell s p) ->
  unlinks s s' (last_cell p l1) (hd_error l2) -> chain s' h p (l1 ++ l2).
Proof.
  revert p. induction l1 as [|x l1 IH]; intros p Hnd Hp Hc Hsp U; cbn [app last_cell] in *.
  - destruct (chain_split _ _ _ [] _ _ Hc) as [_ Hc2]. apply NoDup_cons in Hnd as [_ Hnd].
    destruct l2 as [|y l2]; cbn [chain]; [by rewrite (un_next_q _ _ _ _ U)|].
    destruct Hc2 as (_ & H2 & H3 & H4). split; [by rewrite (un_next_q _ _ _ _ U)|].
    split; [apply (un_prev_n _ _ _ _ U); [done|]; destruct (cell s (Ent y)); [by eexists|done]|].
    split; [by rewrite (un_head _ _ _ _ U)|]. apply (chain_frame s); [| |done].
    + apply (un_next _ _ _ _ U). set_solver.
    + intros z Hz. apply NoDup_cons in Hnd as [Hy Hnd].
      assert (next <$> cell s' (Ent z) = next <$> cell s (Ent z)) as E1 by (apply (un_next _ _ _ _ U); set_solver).
      assert (prev <$> cell s' (Ent z) = prev <$> cell s (Ent z)) as E2.
      { apply (un_prev _ _ _ _ U). simpl. intros [= ->]. done. }
      apply ents_ext; [|apply (un_head _ _ _ _ U)]. revert E1 E2.
      destruct (cell s' (Ent z)) as [[]|], (cell s (Ent z)) as [[]|]; simpl; congruence.
  - destruct Hc as (H1 & H2 & H3 & H4). apply NoDup_cons in Hnd as [Hx Hnd].
    assert (p <> last_cell (Ent x) l1) as Hq.
    { destruct (last_cell_in (Ent x) l1) as [->|(z & Hz & ->)]; intros ->; apply Hp; set_solver. }
    cbn [chain]. split; [by rewrite (un_next _ _ _ _ U)|]. split; [|split; [by rewrite (un_head _ _ _ _ U)|]].
    + rewrite (un_prev _ _ _ _ U); [done|]. intros E. apply Hx. destruct l2; [done|]. injection E as <-. set_solver.
    + apply IH; [done|set_solver|done| |done]. destruct (cell s (Ent x)); [by eexists|done].
Qed.

Definition deleted (s : cells) (c : ulist_head) (q : lptr) : cells :=
  let s1 := match next c with Some n => put s n (fun d => d <| prev := prev c |>) | None => s end in
  put s1 q (fun d => d <| next := next c |>).

Lemma deleted_unlinks s q n :
  unlinks s (deleted s (MkHead (Ent <$> n) (Some q)) q) q n.
Proof.
  unfold deleted. cbn [next prev]. destruct n as [y|]; cbn [fmap option_fmap option_map]; constructor.
  - intros r Hr. rewrite cell_put, decide_False, cell_put by done. case_decide as E; [subst|done]. by destruct (cell s (Ent y)).
  - intros [c Ec]. rewrite cell_put, decide_True, cell_put by done. case_decide; rewrite Ec; done.
  - intros x Hx. rewrite cell_put. case_decide as E; [subst q|]; rewrite cell_put, decide_False by congruence; [|done]. by destruct (cell s (Ent x)).
  - intros x [= ->] [c Ec]. rewrite cell_put. case_decide as E; [subst q|]; rewrite cell_put, decide_True, Ec by done; done.
  - intros x. by rewrite !head_of_put.
  - intros r Hr. by rewrite cell_put, decide_False by done.
  - intros [c Ec]. by rewrite cell_put, decide_True, Ec by done.
  - intros x Hx. rewrite cell_put. case_decide as E; [subst q|done]. by destruct (cell s (Ent x)).
  - done.
  - intros x. by rewrite head_of_put.
Qed.

Lemma ulist_del_spec s e h l1 l2 :
  is_list s h (l1 ++ e :: l2) ->
  wp (ulist_del e) s (fun _ s' => is_list s' h (l1 ++ l2) /\ only_list s s' h e (l1 ++ l2)).
Proof.
  intros [Hnd Hc]. destruct (chain_split _ _ _ _ _ _ Hc) as [Ece Hc2]. set (q := last_cell (Head h) l1) in *.
  assert (forall y, hd_error l2 = Some y -> is_Some (cell s (Ent y))) as Hsome.
  { intros y Ey. eapply chain_cell; [exact Hc|]. destruct l2; [done|]. injection Ey as <-. set_solver. }
  assert (is_Some (cell s q)) as Hq.
  { unfold q. destruct (last_cell_in (Head h) l1) as [->|(x & Hx & ->)]; [by eexists|].
    eapply chain_cell; [exact Hc|]. set_solver. }
  unfold ulist_del. wp_step. eapply wp_deref_cell; [exact Ece|]. cbn [next prev].
  wp_step. apply (wp_mono _ _ (fun _ s1 => s1 = match Ent <$> hd_error l2 with Some n => put s n (fun d => d <| prev := Some q |>) | None => s end)).
  { destruct (hd_error l2) as [y|]; cbn [fmap option_fmap option_map]; [|by wp_step]. apply wp_set_cell; [by apply Hsome|done]. }
  intros [] ? ->. apply wp_set_cell.
  { destruct (hd_error l2) as [y|]; cbn [fmap option_fmap option_map]; [|done]. rewrite cell_put. case_decide; [by apply fmap_is_Some|done]. }
  change (put _ q _) with (deleted s (MkHead (Ent <$> hd_error l2) (Some q)) q).
  pose proof (deleted_unlinks s q (hd_error l2)) as U. split.
  - split; [apply NoDup_app in Hnd as (N1 & N2 & N3); apply NoDup_cons in N3 as [N3 N4]; apply NoDup_app; set_solver|].
    apply (chain_unlinks s _ h e); [done| |done|by eexists|done]. intros E. apply list_elem_of_fmap in E as (? & ? & _). done.
  - unfold deleted. cbn [next prev]. assert (forall y, hd_error l2 = Some y -> y ∈ l1 ++ l2) as Hy.
    { intros y Ey. destruct l2; [done|]. injection Ey as <-. set_solver. }
    assert (q = Head h \/ exists x, x ∈ l1 /\ q = Ent x) as Hq' by apply last_cell_in.
    split; [|split].
    + intros h' Hh. rewrite put_other_head by (destruct Hq' as [->|(? & _ & ->)]; congruence).
      destruct (hd_error l2) as [y|]; cbn [fmap option_fmap option_map]; [by rewrite put_other_head|done].
    + intros x Hx Hxl. rewrite put_other_ent by (destruct Hq' as [->|(? & ? & ->)]; [done|set_solver]).
      destruct (hd_error l2) as [y|]; [|done]. cbn [fmap option_fmap option_map]. rewrite put_other_ent; [done|].
      intros [= ->]. apply Hxl. by apply Hy.
    + intros x. rewrite alloc_put. destruct (hd_error l2) as [y|]; [apply alloc_put|done].
Qed.

Lemma ulist_entry_spec s (l : list Z) (Q : option Z -> cells -> Prop) :
  Q (hd_error l) s -> wp (ulist_entry (Ent <$> hd_error l)) s Q.
Proof. intros HQ. destruct l; simpl; by wp_step. Qed.

(** ** Theorems *)

(** [ulist_add] puts an entry in front of a list, and changes no other list. *)
Theorem ulist_add_correct s e h l :
  is_list s h l -> e ∉ l -> is_Some (ents s !! e) ->
  wp (ulist_add e h) s (fun _ s' => is_list s' h (e :: l) /\ only_list s s' h e l).
Proof. apply ulist_add_spec. Qed.

(** [ulist_del] takes an entry out of its list wherever it stands, and changes no other list. *)
Theorem ulist_del_correct s e h l1 l2 :
  is_list s h (l1 ++ e :: l2) ->
  wp (ulist_del e) s (fun _ s' => is_list s' h (l1 ++ l2) /\ only_list s s' h e (l1 ++ l2)).
Proof. apply ulist_del_spec. Qed.

(** ** Hash map with buckets in most recently used order (lib/misc/fhmap.h)

    The map of simx86/trees.h: FH_ZONED and FH_STATS are 0, the buckets are the
    heads of ulist.h, and a node is found again from its entry.  The key of a
    node is read from the client's memory, [kv]. *)

Record fhmap := MkFh { p2size : Z; bs : cells }.
#[export] Instance eta_fhmap : Eta fhmap := fun x => MkFh x.(p2size) x.(bs).

Definition on_cells {A} (c : M cells A) : M fhmap A := zoom bs (fun t s => s <| bs := t |>) c.

Fixpoint popcount (p : positive) : Z :=
  match p with xH => 1 | xO p => popcount p | xI p => 1 + popcount p end.

(** The array of buckets is static, hence empty. *)
Definition fh_init (size p2min : Z) : M fhmap unit :=
  assert (match size with Zpos p => popcount p =? 1 | _ => false end) ;;
  assert (p2min <=? find_bit size) ;;
  modify (fun s => s <| p2size := find_bit size |>).

Definition default_fmhash_fn (s : fhmap) (key : Z) : Z := Z.land key (Z.shiftl 1 (p2size s) - 1).
Definition fh_find_b (key : Z) : M fhmap Z := gets (fun s => default_fmhash_fn s key).

(** NULL is [None] *)
Fixpoint fh_find_loop (fuel : nat) (kv : Z -> option Z) (key b : Z) (pos : option Z) : M cells (option Z) :=
  match fuel with
  | O => throw OutOfFuel
  | S fuel =>
    match pos with
    | None => ret None
    | Some e =>
      match kv e with
      | None => throw BadPointer
      | Some k =>
        if k =? key then
          let! h := deref_cell (Head b) in
          let! first := ulist_entry (next h) in
          (if bool_decide (Some e = first) then ret tt else ulist_del e ;; ulist_add e b) ;;
          ret (Some e)
        else
          let! c := deref_cell (Ent e) in
          let! pos := ulist_entry (next c) in
          fh_find_loop fuel kv key b pos
      end
    end
  end.

Definition fh_find_pos (kv : Z -> option Z) (key : Z) : M fhmap (option Z) :=
  let! b := fh_find_b key in
  on_cells
    (let! h := deref_cell (Head b) in
     let! pos := ulist_entry (next h) in
     let! s := get in
     fh_find_loop (S (S (size (ents s)))) kv key b pos).

Definition fh_add (kv : Z -> option Z) (value : Z) : M fhmap unit :=
  match kv value with
  | None => throw BadPointer
  | Some key => let! b := fh_find_b key in on_cells (ulist_add value b)
  end.

Definition fh_del (value : Z) : M fhmap unit := on_cells (ulist_del value).

(** *** The finite map it stands for *)

Definition bucket (s : fhmap) (b : Z) : Prop := 0 <= b < 2 ^ p2size s.

(** [bk] are the entries of each bucket, [m] maps keys to nodes. *)
Record buckets_ok (kv : Z -> option Z) (s : fhmap) (bk : Z -> list Z) (m : gmap Z Z) : Prop := {
  bk_list b : bucket s b -> is_list (bs s) b (bk b);
  bk_in b e : bucket s b -> e ∈ bk b -> exists k, kv e = Some k /\ m !! k = Some e /\ default_fmhash_fn s k = b;
  bk_has k e : m !! k = Some e -> kv e = Some k /\ e ∈ bk (default_fmhash_fn s k);
}.

Definition fh_ok (kv : Z -> option Z) (s : fhmap) (m : gmap Z Z) : Prop :=
  0 <= p2size s /\ exists bk, buckets_ok kv s bk m.

Lemma hash_bucket s key : 0 <= p2size s -> bucket s (default_fmhash_fn s key).
Proof.
  intros Hp. unfold bucket, default_fmhash_fn. rewrite Z.shiftl_1_l, Z.sub_1_r, <- Z.ones_equiv, Z.land_ones by done.
  apply Z.mod_pos_bound. lia.
Qed.

Lemma is_list_length s h l : is_list s h l -> (length l <= size (ents s))%nat.
Proof.
  intros Hl. rewrite <- (size_dom (D:=gset Z)). rewrite <- (size_list_to_set (C:=gset Z) l) by apply Hl. apply subseteq_size.
  intros e He. apply elem_of_list_to_set in He. apply elem_of_dom. by eapply is_list_alloc.
Qed.

(** The loop over the rest [l2] of the bucket. *)
Lemma fh_find_loop_spec kv key b l2 : forall l1 fuel s,
  is_list s b (l1 ++ l2) -> (length l2 < fuel)%nat -> Forall (fun e => is_Some (kv e)) l2 ->
  wp (fh_find_loop fuel kv key b (hd_error l2)) s (fun r s' =>
    match r with
    | None => s' = s /\ Forall (fun e => kv e <> Some key) l2
    | Some e => exists l3 l4, l2 = l3 ++ e :: l4 /\ kv e = Some key /\ Forall (fun e => kv e <> Some key) l3 /\
        is_list s' b (e :: l1 ++ l3 ++ l4) /\ only_list s s' b e (l1 ++ l3 ++ l4)
    end).
Proof.
  induction l2 as [|e l2 IH]; intros l1 fuel s Hl Hf Hkv; (destruct fuel as [|fuel]; [simpl in Hf; lia|]); cbn [fh_find_loop hd_error].
  { wp_step. split; [done|by apply Forall_nil]. }
  apply Forall_cons in Hkv as [[k Ek] Hkv]. rewrite Ek. destruct (Z.eqb_spec k key) as [->|Hne].
  - wp_step. eapply wp_deref_cell; [done|]. cbn beta. rewrite (is_list_first _ _ _ Hl). wp_step. apply ulist_entry_spec.
    wp_step.
    apply (wp_mono _ _ (fun _ s' => is_list s' b (e :: l1 ++ l2) /\ only_list s s' b e (l1 ++ l2))).
    2:{ intros [] s' Hs'. wp_step. exists [], l2. split; [done|]. split; [done|]. split; [by apply Forall_nil|exact Hs']. } case_bool_decide as E.
    + wp_step. destruct l1 as [|x l1]; simpl in E.
      * split; [done|]. split; [done|]. split; [done|]. done.
      * injection E as <-. destruct Hl as [Hnd _]. apply NoDup_cons in Hnd as [Hx _]. exfalso. apply Hx. set_solver.
    + wp_step. eapply wp_mono; [by apply ulist_del_spec|]. intros [] s1 [Hl1 Ho1].
      eapply wp_mono; [apply ulist_add_spec; [done| |]|].
      * destruct Hl as [Hnd _]. apply NoDup_app in Hnd as (N1 & N2 & N3). apply NoDup_cons in N3 as [N3 N4]. set_solver.
      * apply Ho1. eapply is_list_alloc; [exact Hl|set_solver].
      * intros [] s2 [Hl2 Ho2]. split; [done|]. destruct Ho1 as (A1 & A2 & A3), Ho2 as (B1 & B2 & B3). split; [|split].
        -- intros h' Hh. by rewrite B1, A1.
        -- intros x Hx Hxl. by rewrite B2, A2.
        -- intros x. by rewrite B3.
  - assert (is_list s b (l1 ++ e :: l2)) as Hl' by done. destruct Hl' as [_ Hc].
    destruct (chain_split _ _ _ _ _ _ Hc) as [Ec _]. wp_step. eapply wp_deref_cell; [exact Ec|]. cbn [next].
    wp_step. apply ulist_entry_spec. eapply wp_mono; [apply (IH (l1 ++ [e])); [by rewrite <- app_assoc|simpl in Hf; lia|done]|].
    intros [x|] s'; cbn beta iota.
    + intros (l3 & l4 & -> & E & Hn & Hl1 & Ho). exists (e :: l3), l4. rewrite <- app_assoc in Hl1, Ho.
      split; [done|]. split; [done|]. split; [|done]. apply Forall_cons. split; [congruence|done].
    + intros [-> Hn]. split; [done|]. apply Forall_cons. split; [congruence|done].
Qed.

Section map.
Context (kv : Z -> option Z).
Implicit Types (s : fhmap) (m : gmap Z Z).

Lemma hash_same s s' key : p2size s' = p2size s -> default_fmhash_fn s' key = default_fmhash_fn s key.
Proof. unfold default_fmhash_fn. by intros ->. Qed.

(** The entries of one bucket change. *)
Lemma buckets_update s s' bk m m' b e l :
  0 <= p2size s -> p2size s' = p2size s -> buckets_ok kv s bk m -> bucket s b ->
  is_list (bs s') b l -> only_list (bs s) (bs s') b e (bk b) -> (forall b', bucket s b' -> b' <> b -> e ∉ bk b') ->
  (forall x, x ∈ l -> exists k, kv x = Some k /\ m' !! k = Some x /\ default_fmhash_fn s k = b) ->
  (forall k x, default_fmhash_fn s k <> b -> m' !! k = Some x <-> m !! k = Some x) ->
  (forall k x, m' !! k = Some x -> default_fmhash_fn s k = b -> kv x = Some k /\ x ∈ l) ->
  buckets_ok kv s' (fun i => if i =? b then l else bk i) m'.
Proof.
  intros Hp Ep Hb Hbb Hl (O1 & O2 & _) Hother Hin Hm Hl'. constructor.
  - intros i Hi. assert (bucket s i) as Hi' by (unfold bucket in *; by rewrite <- Ep). destruct (Z.eqb_spec i b) as [->|Hne]; [done|].
    apply (is_list_frame (bs s)); [by apply O1| |by apply Hb]. intros x Hx. apply O2.
    + intros ->. by eapply Hother.
    + intros Hx'. apply Hne. eapply is_list_disjoint; [by apply Hb|by apply Hb|exact Hx|exact Hx'].
  - intros i x Hi Hx. setoid_rewrite (hash_same s s' _ Ep).
    assert (bucket s i) as Hi' by (unfold bucket in *; by rewrite <- Ep).
    destruct (Z.eqb_spec i b) as [->|Hne]; [by apply Hin|]. destruct (bk_in _ _ _ _ Hb i x Hi' Hx) as (k & E1 & E2 & E3).
    exists k. split; [done|]. split; [|done]. apply Hm; [congruence|done].
  - intros k x E. rewrite (hash_same s s') by done. destruct (Z.eqb_spec (default_fmhash_fn s k) b) as [E'|Hne]; [by apply Hl'|].
    apply Hb. by apply Hm.
Qed.

Lemma fh_find_spec s m key :
  fh_ok kv s m -> wp (fh_find_pos kv key) s (fun r s' => r = m !! key /\ fh_ok kv s' m /\
    forall x, is_Some (ents (bs s') !! x) <-> is_Some (ents (bs s) !! x)).
Proof.
  intros [Hp [bk Hb]]. unfold fh_find_pos, fh_find_b. wp_step. wp_step. apply wp_zoom.
  set (b := default_fmhash_fn s key). pose proof (hash_bucket s key Hp : bucket s b) as Hbb.
  pose proof (bk_list _ _ _ _ Hb b Hbb) as Hl. pose proof (is_list_length _ _ _ Hl) as Hlen.
  wp_step. eapply wp_deref_cell; [done|]. rewrite (is_list_first _ _ _ Hl). wp_step. apply ulist_entry_spec. wp_step. wp_step.
  eapply wp_mono; [apply (fh_find_loop_spec kv key b (bk b) []); [done|lia|]|].
  { apply Forall_forall. intros x Hx. destruct (bk_in _ _ _ _ Hb b x Hbb Hx) as (k & Ek & _). by exists k. }
  intros [e|] c'.
  - intros (l3 & l4 & Ebk & Ekv & Hn & Hl1 & Ho). cbn [app] in Hl1, Ho.
    assert (e ∈ bk b) as He by (rewrite Ebk; set_solver).
    destruct (bk_in _ _ _ _ Hb b e Hbb He) as (k & E1 & E2 & E3). assert (k = key) as -> by congruence.
    split; [done|]. split; [|apply Ho]. split; [done|].
    exists (fun i => if i =? b then e :: l3 ++ l4 else bk i). apply (buckets_update s _ bk m m b e); try done.
    + destruct Ho as (O1 & O2 & O3). split; [done|]. split; [|done]. intros x Hx Hxl. apply O2; [done|].
      intros Hx'. apply Hxl. rewrite Ebk. set_solver.
    + intros b' Hb' Hne Heb. apply Hne. eapply is_list_disjoint; [by apply Hb|exact Hl|exact Heb|exact He].
    + intros x Hx. apply (bk_in _ _ _ _ Hb b x Hbb). rewrite Ebk. set_solver.
    + intros k x E E'. destruct (bk_has _ _ _ _ Hb k x E) as [F1 F2]. split; [done|]. rewrite E' in F2. rewrite Ebk in F2. set_solver.
  - intros [-> Hn]. split; [|split; [|done]].
    + destruct (m !! key) as [e|] eqn:E; [|done]. destruct (bk_has _ _ _ _ Hb key e E) as [F1 F2].
      rewrite Forall_forall in Hn. by destruct (Hn e F2).
    + split; [done|]. exists bk. destruct Hb. by constructor.
Qed.

Lemma fh_add_spec s m value key :
  fh_ok kv s m -> kv value = Some key -> m !! key = None -> (forall k, m !! k <> Some value) ->
  is_Some (ents (bs s) !! value) ->
  wp (fh_add kv value) s (fun _ s' => fh_ok kv s' (<[key := value]> m) /\
    forall x, is_Some (ents (bs s') !! x) <-> is_Some (ents (bs s) !! x)).
Proof.
  intros [Hp [bk Hb]] Ek Em Hnew Ha. unfold fh_add, fh_find_b. rewrite Ek. wp_step. wp_step. apply wp_zoom.
  set (b := default_fmhash_fn s key). pose proof (hash_bucket s key Hp : bucket s b) as Hbb.
  assert (forall b', bucket s b' -> value ∉ bk b') as Hout.
  { intros b' Hb' Hin. destruct (bk_in _ _ _ _ Hb b' value Hb' Hin) as (k & _ & E & _). by apply (Hnew k). }
  eapply wp_mono; [apply ulist_add_spec; [by apply (bk_list _ _ _ _ Hb)|by apply Hout|done]|].
  intros [] c' [Hl Ho]. split; [|apply Ho]. split; [done|].
  exists (fun i => if i =? b then value :: bk b else bk i). apply (buckets_update s _ bk m _ b value); try done.
  - intros b' Hb' _. by apply Hout.
  - intros x [->|Hx]%elem_of_cons; [exists key; by rewrite lookup_insert_eq|].
    destruct (bk_in _ _ _ _ Hb b x Hbb Hx) as (k & E1 & E2 & E3). exists k. split; [done|]. split; [|done].
    rewrite lookup_insert_ne; [done|]. intros <-. congruence.
  - intros k x Hne. rewrite lookup_insert_ne; [done|]. by intros <-.
  - intros k x E E'. apply lookup_insert_Some in E as [[<- <-]|[Hne E]]; [split; [done|left]|].
    destruct (bk_has _ _ _ _ Hb k x E) as [F1 F2]. rewrite E' in F2. split; [done|by right].
Qed.

Lemma fh_del_spec s m value key :
  fh_ok kv s m -> m !! key = Some value ->
  wp (fh_del value) s (fun _ s' => fh_ok kv s' (delete key m) /\
    forall x, is_Some (ents (bs s') !! x) <-> is_Some (ents (bs s) !! x)).
Proof.
  intros [Hp [bk Hb]] Em. unfold fh_del. apply wp_zoom.
  destruct (bk_has _ _ _ _ Hb key value Em) as [Ek Hin]. set (b := default_fmhash_fn s key) in *.
  pose proof (hash_bucket s key Hp : bucket s b) as Hbb. pose proof (bk_list _ _ _ _ Hb b Hbb) as Hl.
  apply list_elem_of_split in Hin as (l1 & l2 & El). rewrite El in Hl.
  assert (NoDup (l1 ++ value :: l2)) as Hnd by apply Hl.
  assert (value ∉ l1 ++ l2) as Hout.
  { apply NoDup_app in Hnd as (N1 & N2 & N3). apply NoDup_cons in N3 as [N3 N4]. set_solver. }
  eapply wp_mono; [by apply ulist_del_spec|]. intros [] c' [Hl' Ho]. split; [|apply Ho]. split; [done|].
  exists (fun i => if i =? b then l1 ++ l2 else bk i). apply (buckets_update s _ bk m _ b value); try done.
  - destruct Ho as (O1 & O2 & O3). split; [done|]. split; [|done]. intros x Hx Hxl. apply O2; [done|].
    intros Hx'. apply Hxl. rewrite El. set_solver.
  - intros b' Hb' Hne Hv. apply Hne. eapply is_list_disjoint; [by apply Hb|exact Hl|exact Hv|set_solver].
  - intros x Hx. destruct (bk_in _ _ _ _ Hb b x Hbb) as (k & E1 & E2 & E3); [rewrite El; set_solver|].
    exists k. split; [done|]. split; [|done]. rewrite lookup_delete_ne; [done|]. intros <-.
    assert (x = value) as -> by congruence. done.
  - intros k x Hne. rewrite lookup_delete_ne; [done|]. by intros <-.
  - intros k x E E'. apply lookup_delete_Some in E as [Hne E]. destruct (bk_has _ _ _ _ Hb k x E) as [F1 F2].
    rewrite E', El in F2. split; [done|]. assert (x <> value) by (intros ->; congruence). set_solver.
Qed.

(** The keys and the other entries may be read from a changed memory. *)
Lemma fh_ok_ext (kv' : Z -> option Z) s m :
  (forall k e, m !! k = Some e -> kv' e = kv e) -> fh_ok kv s m -> fh_ok kv' s m.
Proof.
  intros E [Hp [bk Hb]]. split; [done|]. exists bk. constructor.
  - apply Hb.
  - intros b e Hbb He. destruct (bk_in _ _ _ _ Hb b e Hbb He) as (k & E1 & E2 & E3). exists k. split; [|done].
    by rewrite (E k e).
  - intros k e Em. destruct (bk_has _ _ _ _ Hb k e Em). split; [|done]. by rewrite (E k e).
Qed.

(** ... and an entry that is in no bucket may be freed. *)
Lemma fh_ok_ents s s' m :
  p2size s' = p2size s -> heads (bs s') = heads (bs s) -> (forall k e, m !! k = Some e -> ents (bs s') !! e = ents (bs s) !! e) ->
  fh_ok kv s m -> fh_ok kv s' m.
Proof.
  intros E1 E2 E3 [Hp [bk Hb]]. split; [by rewrite E1|]. exists bk. constructor.
  - intros b Hbb. assert (bucket s b) as Hbb' by (unfold bucket in *; by rewrite <- E1).
    apply (is_list_frame (bs s)); [by rewrite E2| |by apply Hb]. intros e He.
    destruct (bk_in _ _ _ _ Hb b e Hbb' He) as (k & _ & Em & _). by apply (E3 k).
  - intros b e Hbb He. setoid_rewrite (hash_same s s' _ E1).
    apply (bk_in _ _ _ _ Hb); [unfold bucket in *; by rewrite <- E1|done].
  - intros k e Em. rewrite (hash_same s s') by done. by apply Hb.
Qed.

Lemma fh_ok_empty s : 0 <= p2size s -> (forall b, next (heads (bs s) b) = None) -> fh_ok kv s ∅.
Proof.
  intros Hp Hh. split; [done|]. exists (fun _ => []). constructor.
  - intros b _. split; [constructor|]. simpl. by rewrite Hh.
  - intros b e _ He. by apply elem_of_nil in He.
  - intros k e E. by rewrite lookup_empty in E.
Qed.

End map.

(** *** Theorems *)

(** C16: A lookup in the hash map, which moves the entry it finds to the front
    of its bucket through the linked list, terminates, returns what the finite
    map of the nodes returns and keeps the buckets consistent. *)
Theorem fh_find_correct kv s m key :
  fh_ok kv s m -> wp (fh_find_pos kv key) s (fun r s' => r = m !! key /\ fh_ok kv s' m).
Proof. intros Hs. eapply wp_mono; [by apply fh_find_spec|]. by intros r s' (? & ? & _). Qed.

(** [fh_add] adds a binding. *)
Theorem fh_add_correct kv s m value key :
  fh_ok kv s m -> kv value = Some key -> m !! key = None -> (forall k, m !! k <> Some value) ->
  is_Some (ents (bs s) !! value) ->
  wp (fh_add kv value) s (fun _ s' => fh_ok kv s' (<[key := value]> m)).
Proof. intros ? ? ? ? ?. eapply wp_mono; [by apply fh_add_spec|]. by intros [] s' [? _]. Qed.

(** [fh_del] removes one. *)
Theorem fh_del_correct kv s m value key :
  fh_ok kv s m -> m !! key = Some value -> wp (fh_del value) s (fun _ s' => fh_ok kv s' (delete key m)).
Proof. intros ? ?. eapply wp_mono; [by apply fh_del_spec|]. by intros [] s' [? _]. Qed.
