(* ===== verification/Trees.v ===== *)
(** * The tree of translated blocks (simx86/trees.c)

    A node holds the code translated from one block of guest memory; nodes are
    found by their address in a hash map (Fhmap.v), their guest bytes are marked
    (Marks.v), and the exits of a node may be patched to jump to another one.
    A pointer to a node or into a code buffer is a number, NULL is 0 or [None];
    a node that has been freed is not in [nodes], a freed buffer not in [bufs].

    The code is the one of the CPU simulator, [CodeGen_sim]: a buffer of
    intermediate instructions, each at its own address in [code].  Locks, debug
    output and profiling are left out. *)

From stdpp Require Import base numbers list gmap.
From Stdlib Require Import ZArith Lia.
From S2P Require Import Prelude Machine SimCpu SimMem Marks Fhmap.

Local Open Scope Z_scope.

Definition FHSIZE : Z := 1024 * 128.
Definition ZONE_P2SZ : Z := 17.
Definition MTRAP : Z := 0x4000000.
Definition F_SLFL : Z := 4.
Definition NODELIFE : Z := 200.
Definition JMP_LINK : Z := 114.
Definition JMP_TAILCODE : Z := 112.

Inductive branch := BT | BN.
#[export] Instance branch_eq_dec : EqDecision branch. Proof. solve_decision. Defined.

Record linkdesc := MkLink { l_link : Z; l_target : Z; l_ref : option Z }.
#[export] Instance eta_linkdesc : Eta linkdesc := fun x => MkLink x.(l_link) x.(l_target) x.(l_ref).

Record backref := MkRef { b_ref : Z; b_branch : branch }.
#[export] Instance backref_eq_dec : EqDecision backref. Proof. solve_decision. Defined.

Record Addr2Pc := MkPc { daddr : Z; dnpc : Z }.

(** [key] is an [int]. *)
Record TNode := MkNode {
  key : Z; alive : Z; n_len : Z; n_addr : Z; n_flags : Z; seqlen : Z; seqnum : Z;
  clink_t : linkdesc; clink_nt : linkdesc; bkr : list backref; n_cs : Z; n_mode : Z; meta : list Addr2Pc;
}.
#[export] Instance eta_TNode : Eta TNode := fun x =>
  MkNode x.(key) x.(alive) x.(n_len) x.(n_addr) x.(n_flags) x.(seqlen) x.(seqnum)
    x.(clink_t) x.(clink_nt) x.(bkr) x.(n_cs) x.(n_mode) x.(meta).

Record trees (G : Type) := MkTrees {
  nodes : gmap Z TNode; CollectTree : fhmap; tmarks : marks G;
  code : Z -> IGen; bufs : gset Z; BrokenCodePtr : Z;
}.
Arguments MkTrees {G}. Arguments nodes {G}. Arguments CollectTree {G}. Arguments tmarks {G}.
Arguments code {G}. Arguments bufs {G}. Arguments BrokenCodePtr {G}.
#[export] Instance eta_trees G : Eta (trees G) := fun x =>
  MkTrees x.(nodes) x.(CollectTree) x.(tmarks) x.(code) x.(bufs) x.(BrokenCodePtr).

Section trees.
Context {G : Type} `{CodeMem G}.
Context (UseLinker : bool).
Implicit Types s : trees G.

Definition on_map {A} (c : M fhmap A) : M (trees G) A := zoom CollectTree (fun t s => s <| CollectTree := t |>) c.
Definition on_marks {A} (c : M (marks G) A) : M (trees G) A := zoom tmarks (fun t s => s <| tmarks := t |>) c.

(** [*p] and an assignment to it. *)
Definition deref_node (p : Z) : M (trees G) TNode :=
  let! s := get in match nodes s !! p with Some n => ret n | None => throw BadPointer end.
Definition set_node (p : Z) (f : TNode -> TNode) : M (trees G) unit :=
  deref_node p ;; modify (fun s => s <| nodes ::= alter f p |>).

Definition clink (b : branch) (n : TNode) : linkdesc := match b with BT => clink_t n | BN => clink_nt n end.
Definition set_clink (b : branch) (f : linkdesc -> linkdesc) (n : TNode) : TNode :=
  match b with BT => n <| clink_t ::= f |> | BN => n <| clink_nt ::= f |> end.
Definition set_ref (b : branch) (r : option Z) : TNode -> TNode := set_clink b (fun L => L <| l_ref := r |>).

(** ** Code buffers *)

Definition CodeGen_sim (p : Z) (ig : IGen) : M (trees G) unit :=
  modify (fun s => s <| code ::= fun c i =>
    if i =? p then
      if has (mode ig) MPATCH then
        MkIGen (op ig) (Z.lor (mode ig) (Z.land (mode (c p)) CKSIGN)) (p0 ig) (p1 ig) (p2 ig) (p3 ig) (p4 ig) (link ig)
      else ig
    else c i |>).

Definition FreeGenCodeBuf (p : Z) : M (trees G) unit :=
  if p =? 0 then ret tt
  else let! s := get in
       if bool_decide (p ∈ bufs s) then modify (fun s => s <| bufs ::= fun b => b ∖ {[p]} |>) else throw BadPointer.

(** ** The map of nodes *)

(** [fh_key_from_value], an [unsigned] *)
Definition key_of s (p : Z) : option Z := (fun n => u32 (key n)) <$> nodes s !! p.

Definition avltr_init : M (trees G) unit := on_map (fh_init FHSIZE ZONE_P2SZ).

Definition avltr_probe (p : Z) : M (trees G) unit := let! s := get in on_map (fh_add (key_of s) p).

(** [fh_del] and [free]; the list entry goes with the node. *)
Definition avltr_delete (p : Z) : M (trees G) unit :=
  on_map (fh_del p) ;;
  deref_node p ;;
  modify (fun s => s <| nodes ::= delete p |> <| CollectTree ::= fun t => t <| bs ::= fun c => c <| ents ::= delete p |> |> |>).

Definition FindTree (k : Z) : M (trees G) (option Z) :=
  let! s := get in
  let! r := on_map (fh_find_pos (key_of s) (u32 k)) in
  match r with
  | None => ret None
  | Some p =>
    let! n := deref_node p in
    assert (truth (n_addr n)) ;;
    set_node p (fun n => n <| alive := NODELIFE |>) ;;
    ret (Some p)
  end.

Definition Move2Tree (p : Z) : M (trees G) unit :=
  set_node p (fun n => n <| alive := NODELIFE |>) ;; avltr_probe p.

(** The key goes through an [int]. *)
Definition find_node (a l : Z) : M (trees G) (option Z) :=
  let! k := on_marks (m_findnode a l) in
  if k =? -1 then ret None
  else
    let! r := FindTree (i32 k) in
    match r with Some p => ret (Some p) | None => throw AssertFailed end.

Definition find_node_start (a l : Z) : M (trees G) (option Z) :=
  let! k := on_marks (m_findnodestart a) in
  if k =? -1 then find_node a l
  else
    let! r := FindTree (i32 k) in
    match r with Some p => ret (Some p) | None => throw AssertFailed end.

(** ** The node linker *)

Definition linknode (LG g : Z) (b : branch) : M (trees G) unit :=
  let! lg := deref_node LG in
  let! n := deref_node g in
  let L := clink b lg in
  if negb (l_target L =? u32 (key n)) || negb (truth (l_link L)) || has (n_mode n) MTRAP || has (n_mode lg) MTRAP then ret tt
  else
    (match l_ref L with Some _ => throw LeaveDos | None => ret tt end) ;;
    CodeGen_sim (n_addr lg + l_link L) (MkIGen JMP_LINK (Z.lor MPATCH MLINK) (l_target L) 0 0 0 0 (n_addr n)) ;;
    set_node LG (set_ref b (Some g)) ;;
    set_node g (fun n => n <| bkr ::= cons (MkRef LG b) |>) ;;
    if g =? LG then set_node g (fun n => n <| n_flags ::= Z.lor F_SLFL |>) else ret tt.

(** NULL for [LG] is 0. *)
Definition NodeLinker (LG g : Z) : M (trees G) unit :=
  if negb UseLinker then ret tt
  else if LG =? 0 then ret tt
  else linknode LG g BT ;; linknode LG g BN.

(** The first back-reference from [g] is taken out; [None] when there is none. *)
Fixpoint remove_ref (g : Z) (l : list backref) : option (list backref) :=
  match l with
  | [] => None
  | B :: l => if b_ref B =? g then Some l else cons B <$> remove_ref g l
  end.

(** Patch the exit of [h] back to a return to the interpreter. *)
Definition unlink_code (h : Z) (b : branch) : M (trees G) unit :=
  let! n := deref_node h in
  CodeGen_sim (n_addr n + l_link (clink b n))
    (MkIGen JMP_LINK MPATCH (l_target (clink b n)) (u32 (key n)) 0 0 0 0) ;;
  set_node h (set_ref b None).

Definition unlinknode (g : Z) (b : branch) : M (trees G) unit :=
  let! n := deref_node g in
  match l_ref (clink b n) with
  | None => ret tt
  | Some h =>
    let! m := deref_node h in
    match remove_ref g (bkr m) with
    | None => throw LeaveDos
    | Some l => set_node h (fun m => m <| bkr := l |>) ;; unlink_code g b
    end
  end.

(** The loop over the back-references [l] of [g]. *)
Fixpoint unlink_refs (g : Z) (l : list backref) : M (trees G) unit :=
  match l with
  | [] => ret tt
  | B :: l =>
    let! h := deref_node (b_ref B) in
    let! n := deref_node g in
    (if l_target (clink (b_branch B) h) =? u32 (key n) then ret tt else throw LeaveDos) ;;
    unlink_code (b_ref B) (b_branch B) ;;
    set_node g (fun n => n <| bkr := l |>) ;;
    unlink_refs g l
  end.

Definition NodeUnlinker (g : Z) : M (trees G) unit :=
  let! n := deref_node g in
  if negb UseLinker then ret tt
  else unlink_refs g (bkr n) ;; unlinknode g BT ;; unlinknode g BN.

(** ** Removing nodes *)

Definition RemoveNode_unlocked (g : Z) : M (trees G) unit :=
  let! n := deref_node g in
  on_marks (e_unmarkpage (u32 (key n)) (seqlen n)) ;;
  NodeUnlinker g ;;
  let! n := deref_node g in
  assert (match bkr n, l_ref (clink_t n), l_ref (clink_nt n) with [], None, None => truth (n_addr n) | _, _, _ => false end) ;;
  avltr_delete g.

Definition RemoveNode (g : Z) : M (trees G) unit :=
  let! n := deref_node g in
  RemoveNode_unlocked g ;;
  FreeGenCodeBuf (n_addr n).

(** The first instruction of [A] whose code starts at [ebase] or later. *)
Definition BreakNode (g eip : Z) : M (trees G) unit :=
  (if eip =? 0 then throw LeaveDos else ret tt) ;;
  let! n := deref_node g in
  let ebase := eip - n_addr n in
  match find (fun A => ebase <=? daddr A) (take (Z.to_nat (seqnum n)) (meta n)) with
  | Some A => CodeGen_sim (n_addr n + daddr A) (MkIGen JMP_TAILCODE MPATCH (u32 (key n + dnpc A)) 0 0 0 0 0)
  | None => ret tt
  end.

Definition in_code (a l h : Z) : bool := (l <=? a) && (a <? h).

(** The buffer of the node when it is the one being run. *)
Definition BreakNodeHook (g eip : Z) : M (trees G) (option Z) :=
  let! n := deref_node g in
  if in_code eip (n_addr n) (n_addr n + n_len n) then
    match meta n !! Z.to_nat (seqnum n - 1) with
    | None => throw OutOfBounds
    | Some A => (if in_code eip (n_addr n) (n_addr n + daddr A) then BreakNode g eip else ret tt) ;; ret (Some (n_addr n))
    end
  else ret None.

(** [RANGE_INTERSECT] *)
Definition range_intersect (al ah l h : Z) : bool := (l <? ah) && (al <? h).

Fixpoint invalidate_loop (fuel : nat) (g : option Z) (al ah eip rc : Z) : M (trees G) Z :=
  match fuel with
  | O => throw OutOfFuel
  | S fuel =>
    match g with
    | None => ret rc
    | Some g =>
      let! n := deref_node g in
      if ah <=? key n then ret rc
      else
        let ahG := i32 (key n + seqlen n) in
        assert (truth (n_addr n)) ;;
        let! rc :=
          if range_intersect (key n) ahG al ah then
            let! p := if eip =? 0 then ret None else BreakNodeHook g eip in
            RemoveNode_unlocked g ;;
            match p with Some p => ret p | None => FreeGenCodeBuf (n_addr n) ;; ret rc end
          else ret rc in
        if ah <=? ahG then ret rc
        else
          let! g := find_node (u32 ahG) (u32 (ah - ahG)) in
          invalidate_loop fuel g al ah eip rc
    end
  end.

(** 0 is NULL; [al] is an [int]. *)
Definition DoInvalidateNodeRange (al len eip : Z) : M (trees G) Z :=
  let ah := i32 (al + len) in
  let! g := find_node_start (u32 al) (u32 len) in
  invalidate_loop (S (S (Z.to_nat (ah - al)))) g al ah eip 0.

Definition InvalidateNodeRange (al len : Z) : M (trees G) unit := DoInvalidateNodeRange al len 0 ;; ret tt.

Definition InvalidateNodeRangeFromFault (al len eip : Z) : M (trees G) unit :=
  let! p := DoInvalidateNodeRange al len eip in modify (fun s => s <| BrokenCodePtr := p |>).

(** [ExecOne] after [Exec] *)
Definition exec_done : M (trees G) unit :=
  let! s := get in
  if truth (BrokenCodePtr s) then FreeGenCodeBuf (BrokenCodePtr s) ;; modify (fun s => s <| BrokenCodePtr := 0 |>) else ret tt.

(** ** Invalidation of memory *)

(** [PAGE_ALIGN] *)
Definition page_align (a : Z) : Z := page_start (u32 (a + HOST_PAGE_SIZE - 1)).

Definition do_invalidate (data cnt : Z) : M (trees G) unit :=
  InvalidateNodeRange (i32 (page_start data)) (i32 (page_align (u32 (data + cnt)) - page_start data)).

Definition e_invalidate_unlocked (data cnt : Z) : M (trees G) unit :=
  let! b := on_marks (e_querymprotrange data cnt) in
  if negb b then ret tt
  else
    let! b := on_marks (e_querymark data cnt) in
    if negb b then ret tt else InvalidateNodeRange (i32 data) cnt.

Definition e_invalidate (data cnt : Z) : M (trees G) unit := e_invalidate_unlocked data cnt.

Definition _e_invalidate_full (data cnt : Z) : M (trees G) unit :=
  let! b := on_marks (e_querymprotrange data cnt) in
  if negb b then ret tt else do_invalidate data cnt.

Definition e_invalidate_full (data cnt : Z) : M (trees G) unit := _e_invalidate_full data cnt.

Definition e_invalidate_page_full (data : Z) : M (trees G) bool :=
  let data := page_start data in
  let! b := on_marks (e_querymprotrange data HOST_PAGE_SIZE) in
  if negb b then ret false else do_invalidate data HOST_PAGE_SIZE ;; ret true.

(** ** Dirty pages (memory.c) *)

(** [r] is the current map, [page] the page in it. *)
Fixpoint invalidate_dirty_loop (fuel : nat) (r : option Z) (page addr aend : Z) : M (trees G) unit :=
  match fuel with
  | O => throw OutOfFuel
  | S fuel =>
    if aend <? addr then ret tt
    else
      let '(r, page) := if page =? pagespermega then (None, 0) else (r, page) in
      let! r := match r with Some m => ret (Some m) | None => on_marks (FindM addr) end in
      match r with
      | None =>
        let inc := pagespermega - 1 - page in
        invalidate_dirty_loop fuel None pagespermega (u32 (u32 (addr + inc * HOST_PAGE_SIZE) + HOST_PAGE_SIZE)) aend
      | Some m =>
        let! M := on_marks (deref_map m) in
        let! s := get in
        let dirty := match pagemap M page with Some p => subpage_dirty p (guest (tmarks s)) addr M page | None => false end in
        let! r := if dirty then e_invalidate_page_full addr ;; ret None else ret (Some m) in
        invalidate_dirty_loop fuel r (page + 1) (u32 (addr + HOST_PAGE_SIZE)) aend
      end
  end.

Definition e_invalidate_dirty (addr aend : Z) : M (trees G) unit :=
  invalidate_dirty_loop (S (S (Z.to_nat ((aend - addr) / HOST_PAGE_SIZE)))) None (addr / HOST_PAGE_SIZE mod pagespermega) addr aend.

Definition e_invalidate_page_dirty (addr : Z) : M (trees G) unit :=
  let! r := on_marks (FindM addr) in
  match r with
  | None => ret tt
  | Some m =>
    let! M := on_marks (deref_map m) in
    let! s := get in
    let page := addr / HOST_PAGE_SIZE mod pagespermega in
    match pagemap M page with
    | Some p => if subpage_dirty p (guest (tmarks s)) addr M page then e_invalidate_page_full addr ;; ret tt else ret tt
    | None => ret tt
    end
  end.

(** The address of the page [i] of a map when it is dirty. *)
Definition dirty_page (g : G) (M : tMpMap) (i : nat) : option Z :=
  let addr := mega M * 2 ^ MEGA_SHIFT + Z.of_nat i * HOST_PAGE_SIZE in
  match pagemap M (Z.of_nat i) with
  | Some p => if subpage_dirty p g addr M (Z.of_nat i) then Some addr else None
  | None => None
  end.

Definition dirty_pages (s : marks G) : list Z :=
  MpH s ≫= fun M => omap (dirty_page (guest s) M) (seq 0 (Z.to_nat pagespermega)).

(** [again]: the first dirty page, then from the start. *)
Fixpoint invalidate_dirty_full (fuel : nat) : M (trees G) unit :=
  match fuel with
  | O => throw OutOfFuel
  | S fuel =>
    let! s := get in
    match dirty_pages (tmarks s) with
    | [] => ret tt
    | addr :: _ => e_invalidate_page_full addr ;; invalidate_dirty_full fuel
    end
  end.

Definition e_invalidate_dirty_full : M (trees G) unit :=
  let! s := get in invalidate_dirty_full (S (Z.to_nat pagespermega * length (MpH (tmarks s)))).

(** Physical addresses through the mapping layer; [None] is -1. *)
Context (physaddr_to_dosaddr : Z -> Z -> option Z).

Definition e_invalidate_pa (pa cnt : Z) : M (trees G) unit :=
  match physaddr_to_dosaddr pa cnt with None => ret tt | Some addr => e_invalidate addr cnt end.

Definition e_invalidate_full_pa (pa cnt : Z) : M (trees G) unit :=
  match physaddr_to_dosaddr pa cnt with None => ret tt | Some addr => e_invalidate_full addr cnt end.

(** ** Queries and node creation *)

(** [FindPC] with [TheCPU.key]; 0 when there is no node. *)
Definition FindPC (cpu_key addr : Z) : M (trees G) Z :=
  let! r := FindTree cpu_key in
  match r with
  | None => ret 0
  | Some g =>
    let! n := deref_node g in
    let i := match list_find (fun A => addr < n_addr n + daddr A) (take (Z.to_nat (seqnum n + 1)) (meta n)) with
             | Some (i, _) => Z.of_nat i | None => seqnum n + 1 end in
    assert ((0 <? i) && (i <=? seqnum n)) ;;
    match meta n !! Z.to_nat (i - 1) with
    | Some A => ret (u32 (key n + dnpc A))
    | None => throw OutOfBounds
    end
  end.

(** The rest of [Close] of codegen.c, from the node that [ProduceCode] has made. *)
Definition close_node (g cs md : Z) : M (trees G) unit :=
  Move2Tree g ;;
  let! n := deref_node g in
  on_marks (e_markpage (u32 (key n)) (seqlen n)) ;;
  set_node g (fun n => n <| n_cs := cs |>) ;;
  set_node g (fun n => n <| n_mode := md |>) ;;
  if has md MSSTP then ret tt else NodeLinker g g.

End trees.
