(* ===== verification/TreesLinks.v ===== *)
(** * The tree of translated blocks: links between nodes

    The exits that are linked and the back-references of their targets are
    inverse to each other, and the code of every exit agrees with its link:
    patched to jump to the start of the linked node, or returning to the
    interpreter.  Unlinking a node cuts every link from it and to it. *)

From stdpp Require Import base numbers list gmap.
From Stdlib Require Import ZArith Lia.
From S2P Require Import Prelude Machine SimCpu SimMem Marks Fhmap Trees.

Local Open Scope Z_scope.

Implicit Types (N : gmap Z TNode) (n : TNode) (l : list backref).

(** ** The graph of links *)

(** An exit can be linked once; it is linked to the node of its target, which
    knows it. *)
Record links_ok N : Prop := {
  lk_fwd p n b q : N !! p = Some n -> l_ref (clink b n) = Some q ->
    exists m, N !! q = Some m /\ l_target (clink b n) = u32 (key m) /\ MkRef p b ∈ bkr m /\ l_link (clink b n) <> 0;
  lk_bwd q m p b : N !! q = Some m -> MkRef p b ∈ bkr m -> exists n, N !! p = Some n /\ l_ref (clink b n) = Some q;
  lk_nodup q m : N !! q = Some m -> NoDup (bkr m);
}.

(** Cut the exits in [R]. *)
Definition cut_refs (R : Z -> branch -> bool) l : list backref := List.filter (fun x => negb (R (b_ref x) (b_branch x))) l.
Definition cut_link (c : bool) (L : linkdesc) : linkdesc := if c then L <| l_ref := None |> else L.
Definition cut_node (R : Z -> branch -> bool) (p : Z) n : TNode :=
  n <| clink_t ::= cut_link (R p BT) |> <| clink_nt ::= cut_link (R p BN) |> <| bkr ::= cut_refs R |>.

(** [N'] is [N] without the links in [R]. *)
Definition cut (R : Z -> branch -> bool) N N' : Prop := forall p, N' !! p = cut_node R p <$> N !! p.

Lemma clink_cut R p n b : clink b (cut_node R p n) = cut_link (R p b) (clink b n).
Proof. by destruct b. Qed.

Lemma cut_link_fields c L : l_link (cut_link c L) = l_link L /\ l_target (cut_link c L) = l_target L.
Proof. by destruct c. Qed.

Lemma cut_link_ref c L : l_ref (cut_link c L) = if c then None else l_ref L.
Proof. by destruct c. Qed.

Lemma elem_of_cut R l x : x ∈ cut_refs R l <-> x ∈ l /\ R (b_ref x) (b_branch x) = false.
Proof. unfold cut_refs. rewrite !list_elem_of_In, filter_In. by rewrite negb_true_iff. Qed.

Lemma cut_refs_none R l : (forall x, x ∈ l -> R (b_ref x) (b_branch x) = false) -> cut_refs R l = l.
Proof.
  induction l as [|x l IH]; intros Hl; [done|]. cbn [cut_refs List.filter]. rewrite Hl by (by left). cbn [negb].
  f_equal. apply IH. intros y Hy. apply Hl. by right.
Qed.

Lemma cut_refs_app R l l' : cut_refs R (l ++ l') = cut_refs R l ++ cut_refs R l'.
Proof. apply List.filter_app. Qed.

Lemma cut_link_false L : cut_link false L = L.
Proof. done. Qed.

Lemma cut_none N : cut (fun _ _ => false) N N.
Proof.
  intros p. destruct (N !! p) as [n|]; [|done]. simpl. f_equal. unfold cut_node. cbn [upd cut_link].
  rewrite cut_refs_none by done. by destruct n.
Qed.

Lemma cut_refs_trans R1 R2 l : cut_refs R2 (cut_refs R1 l) = cut_refs (fun p b => R1 p b || R2 p b) l.
Proof.
  induction l as [|x l IH]; [done|]. cbn [cut_refs List.filter]. destruct (R1 _ _); cbn [negb orb]; [exact IH|].
  cbn [cut_refs List.filter]. destruct (R2 _ _); cbn [negb]; [exact IH|]. f_equal. exact IH.
Qed.

Lemma cut_trans R1 R2 N N1 N2 : cut R1 N N1 -> cut R2 N1 N2 -> cut (fun p b => R1 p b || R2 p b) N N2.
Proof.
  intros H1 H2 p. rewrite H2, H1. destruct (N !! p) as [n|]; [|done]. simpl. f_equal. destruct n.
  unfold cut_node. simpl. f_equal; [by destruct (R1 p BT), (R2 p BT)|by destruct (R1 p BN), (R2 p BN)|apply cut_refs_trans].
Qed.

Lemma cut_ext R R' N N' : (forall p b, R p b = R' p b) -> cut R N N' -> cut R' N N'.
Proof.
  intros E Hc p. rewrite Hc. destruct (N !! p) as [n|]; [|done]. simpl. f_equal. destruct n.
  unfold cut_node. simpl. rewrite !E. f_equal. apply List.filter_ext. intros x. by rewrite E.
Qed.

Lemma links_cut R N N' : cut R N N' -> links_ok N -> links_ok N'.
Proof.
  intros Hc [Hf Hb Hn]. constructor.
  - intros p n b q E Er. rewrite Hc in E. destruct (N !! p) as [n0|] eqn:E0; [|done]. injection E as <-.
    rewrite clink_cut in *. destruct (cut_link_fields (R p b) (clink b n0)) as [-> ->]. rewrite cut_link_ref in Er.
    destruct (R p b) eqn:ER; [done|]. destruct (Hf p n0 b q E0 Er) as (m & E1 & E2 & E3 & E4).
    exists (cut_node R q m). rewrite Hc, E1. split; [done|]. split; [done|]. split; [|done]. by apply elem_of_cut.
  - intros q m p b E Hin. rewrite Hc in E. destruct (N !! q) as [m0|] eqn:E0; [|done]. injection E as <-.
    apply elem_of_cut in Hin as [Hin ER]. cbn [b_ref b_branch] in ER. destruct (Hb q m0 p b E0 Hin) as (n & E1 & E2).
    exists (cut_node R p n). rewrite Hc, E1. split; [done|]. rewrite clink_cut, cut_link_ref, ER. done.
  - intros q m E. rewrite Hc in E. destruct (N !! q) as [m0|] eqn:E0; [|done]. injection E as <-.
    unfold cut_node. cbn [bkr upd]. unfold cut_refs. apply NoDup_ListNoDup, List.NoDup_filter, NoDup_ListNoDup. by eapply Hn.
Qed.

(** The exits that are linked to [q] are its back-references. *)
Lemma refs_of N q m p b : links_ok N -> N !! q = Some m -> MkRef p b ∈ bkr m <-> exists n, N !! p = Some n /\ l_ref (clink b n) = Some q.
Proof.
  intros Hl Em. split; [by apply Hl|]. intros (n & En & Er). destruct (lk_fwd _ Hl p n b q En Er) as (m' & E' & _ & Hin & _). congruence.
Qed.

(** ** Code of the exits *)

(** Code buffers do not overlap, and the two exits of a node are different. *)
Definition region_ok n : Prop :=
  n_addr n <> 0 /\ 0 < n_len n /\ (forall b, 0 <= l_link (clink b n) < n_len n) /\
  (l_link (clink_t n) <> 0 -> l_link (clink_t n) <> l_link (clink_nt n)).

Record regions_ok N : Prop := {
  rg_node p n : N !! p = Some n -> region_ok n;
  rg_disj p p' n n' : N !! p = Some n -> N !! p' = Some n' -> p <> p' ->
    n_addr n + n_len n <= n_addr n' \/ n_addr n' + n_len n' <= n_addr n;
}.

Definition slot (b : branch) n : Z := n_addr n + l_link (clink b n).

(** [code] agrees with the links of all nodes but [x]. *)
Definition code_ok N (c : Z -> IGen) (x : option Z) : Prop :=
  forall p n b, N !! p = Some n -> x <> Some p -> l_link (clink b n) <> 0 ->
  op (c (slot b n)) = JMP_LINK /\ p0 (c (slot b n)) = l_target (clink b n) /\
  match l_ref (clink b n) with
  | Some q => has (mode (c (slot b n))) MLINK = true /\ exists m, N !! q = Some m /\ link (c (slot b n)) = n_addr m
  | None => has (mode (c (slot b n))) MLINK = false
  end.

Lemma slot_inj N p p' n n' b b' :
  regions_ok N -> N !! p = Some n -> N !! p' = Some n' -> l_link (clink b n) <> 0 -> l_link (clink b' n') <> 0 ->
  slot b n = slot b' n' -> p = p' /\ b = b'.
Proof.
  intros [Hr Hd] E E' Hl Hl' Es. unfold slot in Es.
  pose proof (Hr p n E) as (_ & _ & R1 & R2). pose proof (Hr p' n' E') as (_ & _ & R3 & _).
  specialize (R1 b). specialize (R3 b'). destruct (Z.eq_dec p p') as [<-|Hne].
  - split; [done|]. rewrite E in E'. injection E' as <-. destruct b, b'; try done; simpl in *; exfalso; apply R2; lia.
  - destruct (Hd p p' n n' E E' Hne); lia.
Qed.

(** Two nodes that agree on everything but links and back-references. *)
Definition same_block n n' : Prop :=
  key n' = key n /\ n_len n' = n_len n /\ n_addr n' = n_addr n /\ seqlen n' = seqlen n /\ seqnum n' = seqnum n /\
  n_cs n' = n_cs n /\ n_mode n' = n_mode n /\ meta n' = meta n /\
  forall b, l_link (clink b n') = l_link (clink b n) /\ l_target (clink b n') = l_target (clink b n).

Lemma same_block_refl n : same_block n n.
Proof. by repeat split. Qed.

Lemma same_block_trans n n' n'' : same_block n n' -> same_block n' n'' -> same_block n n''.
Proof.
  intros (?&?&?&?&?&?&?&?&Hb) (?&?&?&?&?&?&?&?&Hb'). repeat split; try congruence; destruct (Hb b), (Hb' b); congruence.
Qed.

Lemma same_block_cut R p n : same_block n (cut_node R p n).
Proof. repeat split; rewrite clink_cut; apply cut_link_fields. Qed.

Definition same_blocks N N' : Prop :=
  forall p, match N !! p, N' !! p with Some n, Some n' => same_block n n' | None, None => True | _, _ => False end.

Lemma same_blocks_refl N : same_blocks N N.
Proof. intros p. destruct (N !! p); [apply same_block_refl|done]. Qed.

Lemma same_blocks_trans N N' N'' : same_blocks N N' -> same_blocks N' N'' -> same_blocks N N''.
Proof.
  intros H1 H2 p. specialize (H1 p). specialize (H2 p).
  destruct (N !! p), (N' !! p), (N'' !! p); try done. by eapply same_block_trans.
Qed.

Lemma same_blocks_cut R N N' : cut R N N' -> same_blocks N N'.
Proof. intros Hc p. rewrite Hc. destruct (N !! p); [apply same_block_cut|done]. Qed.

Lemma same_blocks_alter f p N : (forall n, N !! p = Some n -> same_block n (f n)) -> same_blocks N (alter f p N).
Proof.
  intros Hf r. destruct (decide (p = r)) as [<-|].
  - rewrite lookup_alter_eq. destruct (N !! p) as [n|]; [by apply Hf|done].
  - rewrite lookup_alter_ne by done. destruct (N !! r); [apply same_block_refl|done].
Qed.

Lemma same_block_sym n n' : same_block n n' -> same_block n' n.
Proof. intros (?&?&?&?&?&?&?&?&Hb). repeat split; try congruence; destruct (Hb b); congruence. Qed.

Lemma same_blocks_look N N' p n' : same_blocks N N' -> N' !! p = Some n' -> exists n, N !! p = Some n /\ same_block n n'.
Proof. intros Hb E. specialize (Hb p). rewrite E in Hb. destruct (N !! p) as [n|]; [by exists n|done]. Qed.

Lemma same_blocks_look' N N' p n : same_blocks N N' -> N !! p = Some n -> exists n', N' !! p = Some n' /\ same_block n n'.
Proof. intros Hb E. specialize (Hb p). rewrite E in Hb. destruct (N' !! p) as [n'|]; [by exists n'|done]. Qed.

Lemma region_same n n' : same_block n n' -> region_ok n -> region_ok n'.
Proof.
  intros (_&El&Ea&_&_&_&_&_&Hb) (R0 & R1 & R2 & R3). unfold region_ok.
  pose proof (proj1 (Hb BT)) as Ht. pose proof (proj1 (Hb BN)) as Hn. simpl in Ht, Hn. rewrite El, Ea, Ht, Hn.
  split; [done|]. split; [done|]. split; [|done]. intros b. rewrite (proj1 (Hb b)). apply R2.
Qed.

Lemma regions_same N N' : same_blocks N N' -> regions_ok N -> regions_ok N'.
Proof.
  intros Hs [Hr Hd]. constructor.
  - intros p n' E. destruct (same_blocks_look _ _ _ _ Hs E) as (n & E1 & Hb). eapply region_same; [exact Hb|by eapply Hr].
  - intros p p' n' m' E E' Hne. destruct (same_blocks_look _ _ _ _ Hs E) as (n & E1 & (_&L1&A1&_)).
    destruct (same_blocks_look _ _ _ _ Hs E') as (m & E2 & (_&L2&A2&_)). rewrite L1, A1, L2, A2. by eapply Hd.
Qed.

(** ** Patching *)

Definition patched (c : Z -> IGen) (p : Z) (ig : IGen) : Z -> IGen := fun i =>
  if i =? p then
    if has (mode ig) MPATCH then
      MkIGen (op ig) (Z.lor (mode ig) (Z.land (mode (c p)) CKSIGN)) (p0 ig) (p1 ig) (p2 ig) (p3 ig) (p4 ig) (link ig)
    else ig
  else c i.

Definition unlinked_exit (b : branch) n : IGen := MkIGen JMP_LINK MPATCH (l_target (clink b n)) (u32 (key n)) 0 0 0 0.
Definition linked_exit (b : branch) n m : IGen := MkIGen JMP_LINK (Z.lor MPATCH MLINK) (l_target (clink b n)) 0 0 0 0 (n_addr m).

Lemma patched_other c p ig i : i <> p -> patched c p ig i = c i.
Proof. intros Hi. unfold patched. by destruct (Z.eqb_spec i p). Qed.

Lemma patched_mlink c p ig : has (mode ig) MPATCH = true ->
  op (patched c p ig p) = op ig /\ p0 (patched c p ig p) = p0 ig /\ link (patched c p ig p) = link ig /\
  has (mode (patched c p ig p)) MLINK = has (mode ig) MLINK.
Proof.
  intros Hm. unfold patched. rewrite Z.eqb_refl, Hm. cbn [op p0 link mode]. repeat split.
  unfold has. rewrite Z.land_lor_distr_l, <- Z.land_assoc. change (Z.land CKSIGN MLINK) with 0. by rewrite Z.land_0_r, Z.lor_0_r.
Qed.

Lemma slot_same b n n' : same_block n n' -> slot b n' = slot b n.
Proof. intros (_&_&E&_&_&_&_&_&Hb). unfold slot. by rewrite E, (proj1 (Hb b)). Qed.

Lemma same_block_set_ref b r n : same_block n (set_ref b r n).
Proof. unfold set_ref. destruct b; repeat split; by destruct b. Qed.

Lemma clink_set b b' r n :
  l_ref (clink b' (set_ref b r n)) = if decide (b' = b) then r else l_ref (clink b' n).
Proof. by destruct b, b'. Qed.

(** One exit is patched and its [l_ref] set to match. *)
Lemma code_patch N c x p n b r ig :
  regions_ok N -> code_ok N c x -> N !! p = Some n -> l_link (clink b n) <> 0 ->
  op ig = JMP_LINK -> p0 ig = l_target (clink b n) -> has (mode ig) MPATCH = true ->
  match r with
  | Some q => has (mode ig) MLINK = true /\ exists m, N !! q = Some m /\ link ig = n_addr m
  | None => has (mode ig) MLINK = false
  end ->
  code_ok (alter (set_ref b r) p N) (patched c (slot b n) ig) x.
Proof.
  intros Hr Hc En Hl Eo Ep Em Hlink r' n' b' E' Hx Hl'.
  set (N' := alter (set_ref b r) p N) in *.
  assert (same_blocks N N') as Hs by (apply same_blocks_alter; intros; apply same_block_set_ref).
  destruct (same_blocks_look _ _ _ _ Hs E') as (n0 & E0 & Hb). rewrite (slot_same b' n0 n' Hb).
  assert (l_link (clink b' n0) <> 0) as Hl0 by (by rewrite <- (proj1 (proj2 (proj2 (proj2 (proj2 (proj2 (proj2 (proj2 (proj2 Hb)))))))  b'))).
  assert (l_target (clink b' n') = l_target (clink b' n0)) as Et by (apply Hb). rewrite Et.
  assert (forall q m, N !! q = Some m -> exists m', N' !! q = Some m' /\ n_addr m' = n_addr m) as Haddr.
  { intros q m Eq. destruct (same_blocks_look' _ _ _ _ Hs Eq) as (m' & E1 & Hb'). exists m'. split; [done|]. apply Hb'. }
  destruct (decide (p = r' /\ b = b')) as [[<- <-]|Hne].
  - rewrite E0 in En. injection En as ->. destruct (patched_mlink c (slot b n) ig Em) as (-> & -> & -> & ->).
    split; [done|]. split; [done|]. unfold N' in E'. rewrite lookup_alter_eq, E0 in E'. injection E' as <-.
    rewrite clink_set, decide_True by done. destruct r as [q|]; [|done]. destruct Hlink as (H1 & m & H2 & H3). split; [done|].
    destruct (Haddr q m H2) as (m' & F1 & F2). exists m'. split; [done|congruence].
  - assert (slot b' n0 <> slot b n) as Hslot.
    { intros Es. apply Hne. by destruct (slot_inj N r' p n0 n b' b Hr E0 En Hl0 Hl Es). }
    rewrite patched_other by done. destruct (Hc r' n0 b' E0 Hx Hl0) as (H1 & H2 & H3). split; [done|]. split; [done|].
    assert (l_ref (clink b' n') = l_ref (clink b' n0)) as ->.
    { unfold N' in E'. destruct (decide (p = r')) as [<-|Hp].
      - rewrite lookup_alter_eq, E0 in E'. injection E' as <-. rewrite clink_set, decide_False; [done|]. intros ->. by apply Hne.
      - rewrite lookup_alter_ne, E0 in E' by done. by injection E' as <-. }
    destruct (l_ref (clink b' n0)) as [q|]; [|done]. destruct H3 as (H3 & m & H4 & H5). split; [done|].
    destruct (Haddr q m H4) as (m' & F1 & F2). exists m'. split; [done|congruence].
Qed.

(** Changes that leave links and blocks alone. *)
Lemma code_same N N' c x :
  same_blocks N N' -> (forall p n n' b, N !! p = Some n -> N' !! p = Some n' -> l_ref (clink b n') = l_ref (clink b n)) ->
  code_ok N c x -> code_ok N' c x.
Proof.
  intros Hs Hr Hc p n' b E' Hx Hl. destruct (same_blocks_look _ _ _ _ Hs E') as (n & E & Hb).
  rewrite (slot_same b n n' Hb), (Hr p n n' b E E'). assert (l_target (clink b n') = l_target (clink b n)) as -> by apply Hb.
  assert (l_link (clink b n') = l_link (clink b n)) as El by apply Hb. rewrite El in Hl.
  destruct (Hc p n b E Hx Hl) as (H1 & H2 & H3). split; [done|]. split; [done|].
  destruct (l_ref (clink b n)) as [q|]; [|done]. destruct H3 as (H3 & m & H4 & H5). split; [done|].
  destruct (same_blocks_look' _ _ _ _ Hs H4) as (m' & E1 & Hb'). exists m'. split; [done|]. rewrite H5. symmetry. apply Hb'.
Qed.

(** ** Cutting the links from one node to another *)

Definition from (p : Z) (D : branch -> bool) : Z -> branch -> bool := fun r b => (r =? p) && D b.

Lemma cut_star N p q D n :
  links_ok N -> N !! p = Some n -> (forall b, D b = true -> l_ref (clink b n) = Some q) ->
  cut (from p D) N
    (alter (fun m => m <| bkr ::= cut_refs (from p D) |>) q
      (alter (fun n => n <| clink_t ::= cut_link (D BT) |> <| clink_nt ::= cut_link (D BN) |>) p N)).
Proof.
  intros Hl En HD r.
  assert (forall m, r <> q -> N !! r = Some m -> cut_refs (from p D) (bkr m) = bkr m) as Hbk.
  { intros m Hr Em. apply cut_refs_none. intros [p' b'] Hx. cbn [b_ref b_branch]. unfold from.
    destruct (Z.eqb_spec p' p) as [->|]; [|done]. destruct (D b') eqn:ED; [|done]. exfalso. apply Hr.
    destruct (lk_bwd _ Hl _ _ _ _ Em Hx) as (n' & E1 & E2). rewrite En in E1. injection E1 as <-. rewrite HD in E2 by done. congruence. }
  destruct (decide (q = r)) as [<-|Hq].
  - rewrite lookup_alter_eq. destruct (decide (p = q)) as [->|Hp].
    + rewrite lookup_alter_eq, En. simpl. f_equal. unfold cut_node, from. rewrite Z.eqb_refl. by destruct n.
    + rewrite lookup_alter_ne by done. destruct (N !! q) as [m|]; [|done]. simpl. f_equal. unfold cut_node, from.
      replace (q =? p) with false by (symmetry; apply Z.eqb_neq; congruence). by destruct m.
  - rewrite lookup_alter_ne by done. destruct (decide (p = r)) as [<-|Hp].
    + rewrite lookup_alter_eq, En. simpl. f_equal. unfold cut_node. cbn [upd bkr clink_t clink_nt].
      rewrite (Hbk n) by congruence. unfold from. rewrite Z.eqb_refl. by destruct n.
    + rewrite lookup_alter_ne by done. destruct (N !! r) as [m|] eqn:Em; [|done]. simpl. f_equal. unfold cut_node. cbn [upd bkr].
      rewrite (Hbk m) by done. unfold from. replace (r =? p) with false by (symmetry; apply Z.eqb_neq; congruence). by destruct m.
Qed.

Lemma remove_ref_some g l :
  (exists x, x ∈ l /\ b_ref x = g) ->
  exists l1 B l2, l = l1 ++ B :: l2 /\ b_ref B = g /\ (forall x, x ∈ l1 -> b_ref x <> g) /\ remove_ref g l = Some (l1 ++ l2).
Proof.
  induction l as [|B l IH]; intros (x & Hx & E); [by apply elem_of_nil in Hx|]. cbn [remove_ref].
  destruct (Z.eqb_spec (b_ref B) g) as [Eb|Hne].
  - exists [], B, l. split; [done|]. split; [done|]. split; [|done]. intros y Hy. by apply elem_of_nil in Hy.
  - apply elem_of_cons in Hx as [->|Hx]; [done|]. destruct IH as (l1 & B' & l2 & -> & EB & Hn & ->); [by exists x|].
    exists (B :: l1), B', l2. split; [done|]. split; [done|]. split; [|done].
    intros y [->|Hy]%elem_of_cons; [done|by apply Hn].
Qed.

Lemma cut_refs_skip R l1 B l2 : R (b_ref B) (b_branch B) = true -> cut_refs R (l1 ++ B :: l2) = cut_refs R (l1 ++ l2).
Proof. intros HB. rewrite !cut_refs_app. cbn [cut_refs List.filter]. by rewrite HB. Qed.

Lemma cut_refs_mid R l1 B l2 :
  R (b_ref B) (b_branch B) = true -> (forall x, x ∈ l1 ++ l2 -> R (b_ref x) (b_branch x) = false) ->
  cut_refs R (l1 ++ B :: l2) = l1 ++ l2.
Proof.
  intros HB Hx. rewrite cut_refs_app. cbn [cut_refs List.filter]. rewrite HB. cbn [negb].
  f_equal; apply cut_refs_none; intros x H; apply Hx; set_solver.
Qed.

(** One edge: it is the only reference of [p] among the rest. *)
Lemma remove_ref_one p b l :
  NoDup l -> MkRef p b ∈ l -> (forall b', b' <> b -> MkRef p b' ∉ l) ->
  remove_ref p l = Some (cut_refs (from p (fun b' => bool_decide (b' = b))) l).
Proof.
  intros Hnd Hin Hno. destruct (remove_ref_some p l) as (l1 & B & l2 & -> & EB & Hn & ->); [by eexists|].
  assert (B = MkRef p b) as ->.
  { destruct B as [p' b']. simpl in EB. subst p'. f_equal. destruct (decide (b' = b)); [done|]. exfalso. apply (Hno b'); [done|]. set_solver. }
  f_equal. symmetry. apply cut_refs_mid.
  - unfold from. simpl. by rewrite Z.eqb_refl, bool_decide_eq_true_2.
  - intros [p' b'] Hx. unfold from. simpl. destruct (Z.eqb_spec p' p) as [->|]; [|done]. simpl. apply bool_decide_eq_false_2. intros ->.
    apply NoDup_app in Hnd as (N1 & N2 & N3). apply NoDup_cons in N3 as [N3 N4]. set_solver.
Qed.

(** Both exits lead to the same node: two removals take both. *)
Lemma remove_ref_both p l :
  NoDup l -> MkRef p BT ∈ l -> MkRef p BN ∈ l ->
  exists l', remove_ref p l = Some l' /\ remove_ref p l' = Some (cut_refs (from p (fun _ => true)) l).
Proof.
  intros Hnd Ht Hn. destruct (remove_ref_some p l) as (l1 & [p1 b1] & l2 & El & EB & Hl1 & ->); [by eexists|]. simpl in EB. subst p1.
  exists (l1 ++ l2). split; [done|]. set (b2 := match b1 with BT => BN | BN => BT end).
  rewrite El in Hnd. apply NoDup_app in Hnd as (N1 & N2 & N3). apply NoDup_cons in N3 as [N3 N4].
  assert (MkRef p b1 ∉ l1 ++ l2) as Hout by set_solver.
  assert (NoDup (l1 ++ l2)) as Hnd' by (apply NoDup_app; set_solver).
  assert (MkRef p b2 ∈ l1 ++ l2) as Hin.
  { assert (MkRef p b2 ∈ l) as H2 by (by destruct b1). rewrite El in H2. unfold b2 in *.
    apply elem_of_app in H2 as [H2|[H2|H2]%elem_of_cons]; [set_solver| |set_solver]. by destruct b1. }
  rewrite (remove_ref_one p b2) by (try done; intros b' Hb'; replace b' with b1 by (unfold b2 in *; by destruct b1, b'); done).
  f_equal. rewrite El, cut_refs_skip by (unfold from; cbn [b_ref b_branch]; by rewrite Z.eqb_refl).
  unfold cut_refs. apply filter_ext_in. intros [p' b'] Hx. unfold from. cbn [b_ref b_branch]. f_equal.
  destruct (Z.eqb_spec p' p) as [->|]; [|done]. simpl. apply bool_decide_eq_true_2. apply list_elem_of_In in Hx.
  unfold b2. destruct b1, b'; done.
Qed.

(** ** Running the unlinker *)

Definition edge N (p : Z) (b : branch) : option Z := N !! p ≫= fun n => l_ref (clink b n).
Definition to (g : Z) N : Z -> branch -> bool := fun p b => bool_decide (edge N p b = Some g).

Section run.
Context {G : Type} `{CodeMem G}.
Context (UseLinker : bool).
Implicit Types s : trees G.

Definition rest_same s s' : Prop :=
  CollectTree s' = CollectTree s /\ tmarks s' = tmarks s /\ bufs s' = bufs s /\ BrokenCodePtr s' = BrokenCodePtr s.

(** The links in [R] have been cut, nothing else has changed. *)
Record unlinked (R : Z -> branch -> bool) (x : option Z) s s' : Prop := {
  ul_cut : cut R (nodes s) (nodes s');
  ul_code : code_ok (nodes s') (code s') x;
  ul_rest : rest_same s s';
  ul_slots i : (forall p n b, nodes s !! p = Some n -> edge (nodes s) p b <> None -> i <> slot b n) -> code s' i = code s i;
}.

(** What the linker works on. *)
Definition net_ok (x : option Z) s : Prop := links_ok (nodes s) /\ regions_ok (nodes s) /\ code_ok (nodes s) (code s) x.

Lemma net_unlinked R x s s' : net_ok x s -> unlinked R x s s' -> net_ok x s'.
Proof.
  intros (H1 & H2 & H3) [U1 U2 _ _]. split; [by eapply links_cut|]. split; [|done].
  eapply regions_same; [by eapply same_blocks_cut|done].
Qed.

Lemma edge_cut R N N' p b : cut R N N' -> edge N' p b = if R p b then None else edge N p b.
Proof.
  intros Hc. unfold edge. rewrite Hc. destruct (N !! p) as [n|]; simpl; [|by destruct (R p b)].
  rewrite clink_cut, cut_link_ref. done.
Qed.

Lemma unlinked_trans R1 R2 x s s1 s2 :
  unlinked R1 x s s1 -> unlinked R2 x s1 s2 -> unlinked (fun p b => R1 p b || R2 p b) x s s2.
Proof.
  intros [C1 D1 (E1 & E2 & E3 & E4) S1] [C2 D2 (F1 & F2 & F3 & F4) S2]. constructor.
  - by eapply cut_trans.
  - done.
  - repeat split; congruence.
  - intros i Hi. rewrite S2, S1; [done|done|]. intros p n b En Hed Es.
    rewrite C1 in En. destruct (nodes s !! p) as [n0|] eqn:E0; [|done]. injection En as <-.
    rewrite (edge_cut _ _ _ p b C1) in Hed. destruct (R1 p b); [done|]. apply (Hi p n0 b E0 Hed).
    rewrite Es. apply slot_same. apply same_block_cut.
Qed.

Lemma unlinked_ext R R' x s s' : (forall p b, R p b = R' p b) -> unlinked R x s s' -> unlinked R' x s s'.
Proof. intros E [C D F S]. constructor; [by eapply cut_ext|done..]. Qed.

(** Only the exits that are linked matter. *)
Lemma unlinked_more R R' x s s' :
  links_ok (nodes s) -> (forall p b, edge (nodes s) p b <> None -> R p b = R' p b) -> unlinked R x s s' -> unlinked R' x s s'.
Proof.
  intros Hl E [C D F S]. constructor; [|done..]. intros p. rewrite C. destruct (nodes s !! p) as [n|] eqn:En; [|done]. simpl. f_equal.
  assert (forall b, cut_link (R p b) (clink b n) = cut_link (R' p b) (clink b n)) as HL.
  { intros b. destruct (l_ref (clink b n)) eqn:Er.
    - rewrite (E p b); [done|]. unfold edge. rewrite En. simpl. by rewrite Er.
    - destruct (clink b n) as [? ? ?]; simpl in Er; subst. by destruct (R p b), (R' p b). }
  assert (cut_refs R (bkr n) = cut_refs R' (bkr n)) as HB.
  { apply filter_ext_in. intros [p' b'] Hx. cbn [b_ref b_branch]. f_equal. apply E. apply list_elem_of_In in Hx.
    destruct (lk_bwd _ Hl _ _ _ _ En Hx) as (n' & E1 & E2). unfold edge. rewrite E1. simpl. by rewrite E2. }
  pose proof (HL BT) as HT. pose proof (HL BN) as HN. destruct n. unfold cut_node. simpl in *. by rewrite HT, HN, HB.
Qed.

Lemma unlinked_refl x s : net_ok x s -> unlinked (fun _ _ => false) x s s.
Proof. intros (_ & _ & Hc). constructor; [apply cut_none|done|done|done]. Qed.

Lemma wp_deref_node p n s (Q : TNode -> trees G -> Prop) : nodes s !! p = Some n -> Q n s -> wp (deref_node p) s Q.
Proof. intros E HQ. unfold deref_node. wp_step. wp_step. rewrite E. by wp_step. Qed.

Lemma wp_set_node p f s (Q : unit -> trees G -> Prop) :
  is_Some (nodes s !! p) -> Q tt (s <| nodes ::= alter f p |>) -> wp (set_node p f) s Q.
Proof. intros [n E] HQ. unfold set_node. wp_step. eapply wp_deref_node; [exact E|]. cbn beta. by wp_step. Qed.

Lemma unlink_code_eq h b n s (Q : unit -> trees G -> Prop) :
  nodes s !! h = Some n ->
  Q tt (s <| code ::= fun c => patched c (slot b n) (unlinked_exit b n) |> <| nodes ::= alter (set_ref b None) h |>) ->
  wp (unlink_code h b) s Q.
Proof.
  intros E HQ. unfold unlink_code. wp_step. eapply wp_deref_node; [exact E|]. cbn beta.
  wp_step. unfold CodeGen_sim. wp_step. apply wp_set_node; [by eexists|]. exact HQ.
Qed.

(** The patched state of [unlink_code], whatever is done to the back-references. *)
Lemma unlink_code_ok x s p n b N' :
  net_ok x s -> nodes s !! p = Some n -> l_link (clink b n) <> 0 ->
  same_blocks (alter (set_ref b None) p (nodes s)) N' ->
  (forall r m m' b', alter (set_ref b None) p (nodes s) !! r = Some m -> N' !! r = Some m' -> l_ref (clink b' m') = l_ref (clink b' m)) ->
  code_ok N' (patched (code s) (slot b n) (unlinked_exit b n)) x.
Proof.
  intros (_ & Hr & Hc) En Hl Hs Hrefs. eapply code_same; [exact Hs|exact Hrefs|]. by apply code_patch.
Qed.

(** One exit of [p] that leads to [q], with the back-reference taken out first
    or last. *)
Lemma unlinked_one x s p n b q m :
  net_ok x s -> nodes s !! p = Some n -> l_ref (clink b n) = Some q -> nodes s !! q = Some m ->
  let D := fun b' => bool_decide (b' = b) in
  let N' := alter (fun m => m <| bkr := cut_refs (from p D) (bkr m) |>) q (alter (set_ref b None) p (nodes s)) in
  unlinked (from p D) x s (s <| code ::= fun c => patched c (slot b n) (unlinked_exit b n) |> <| nodes := N' |>).
Proof.
  intros Hnet En Er Em D N'. destruct Hnet as (Hl & Hr & Hc).
  destruct (lk_fwd _ Hl _ _ _ _ En Er) as (m' & _ & _ & _ & Hlink).
  constructor; cbn [nodes code upd].
  - replace N' with (alter (fun m => m <| bkr ::= cut_refs (from p D) |>) q
      (alter (fun n => n <| clink_t ::= cut_link (D BT) |> <| clink_nt ::= cut_link (D BN) |>) p (nodes s))).
    { apply (cut_star _ _ _ _ n); [done|done|]. intros b' Hb'. apply bool_decide_eq_true in Hb'. by subst. }
    unfold N'. f_equal. apply alter_ext. intros n' _. unfold D, set_ref. by destruct b, n'.
  - apply (unlink_code_ok x s p n b); [done|done|done| |].
    + apply same_blocks_alter. intros n' _. by repeat split.
    + intros r m0 m1 b' E0 E1. unfold N' in E1. destruct (decide (q = r)) as [<-|Hq].
      * rewrite lookup_alter_eq, E0 in E1. injection E1 as <-. by destruct b'.
      * rewrite lookup_alter_ne in E1 by done. congruence.
  - done.
  - intros i Hi. rewrite patched_other; [done|]. apply (Hi p n b En). unfold edge. rewrite En. simpl. by rewrite Er.
Qed.

Lemma unlink_refs_spec x g : forall l s n,
  net_ok x s -> nodes s !! g = Some n -> bkr n = l ->
  wp (unlink_refs g l) s (fun _ s' => unlinked (to g (nodes s)) x s s').
Proof.
  induction l as [|[p b] l IH]; intros s n Hnet En El; cbn [unlink_refs].
  - wp_step. eapply unlinked_ext; [|by apply unlinked_refl]. intros p b. symmetry. apply bool_decide_eq_false_2.
    unfold edge. destruct (nodes s !! p) as [m|] eqn:Em; [|done]. simpl. intros Er.
    destruct (lk_fwd _ (proj1 Hnet) _ _ _ _ Em Er) as (n' & E1 & _ & Hin & _). rewrite En in E1. injection E1 as <-.
    rewrite El in Hin. by apply elem_of_nil in Hin.
  - cbn [b_ref b_branch]. destruct (lk_bwd _ (proj1 Hnet) g n p b En) as (h & Eh & Er); [rewrite El; by left|].
    destruct (lk_fwd _ (proj1 Hnet) _ _ _ _ Eh Er) as (n' & E1 & Et & _ & _). rewrite En in E1. injection E1 as <-.
    wp_step. eapply wp_deref_node; [exact Eh|]. cbn beta. wp_step. eapply wp_deref_node; [exact En|]. cbn beta.
    wp_step. rewrite Et, Z.eqb_refl. wp_step. wp_step. eapply unlink_code_eq; [exact Eh|]. cbn beta.
    set (D := fun b' => bool_decide (b' = b)).
    assert (NoDup (bkr n)) as Hnd by (eapply lk_nodup; [apply Hnet|exact En]). rewrite El in Hnd.
    assert (cut_refs (from p D) (bkr n) = l) as Ecut.
    { rewrite El. apply NoDup_cons in Hnd as [Hx _]. apply (cut_refs_mid _ [] (MkRef p b) l).
      - unfold from, D. simpl. by rewrite Z.eqb_refl, bool_decide_eq_true_2.
      - intros [p' b'] Hin. unfold from, D. simpl. destruct (Z.eqb_spec p' p) as [->|]; [|done]. apply bool_decide_eq_false_2. intros ->. done. }
    pose proof (unlinked_one x s p h b g n Hnet Eh Er En) as U. cbn zeta in U. fold D in U.
    set (s1 := s <| code ::= _ |> <| nodes := _ |>) in U.
    wp_step. apply wp_set_node.
    { cbn [nodes upd]. apply lookup_alter_is_Some. by eexists. }
    match goal with |- wp _ ?s' _ => assert (s' = s1) as -> end.
    { unfold s1. cbn [upd nodes CollectTree tmarks code bufs BrokenCodePtr]. f_equal. apply alter_ext. intros n' En'.
      assert (bkr n' = bkr n) as Eb; [|by rewrite Eb, Ecut]. destruct (decide (p = g)) as [->|Hpg].
      - rewrite lookup_alter_eq, En in En'. injection En' as <-. unfold set_ref. by destruct b.
      - rewrite lookup_alter_ne, En in En' by done. by injection En' as <-. }
    assert (nodes s1 !! g = Some (cut_node (from p D) g n)) as En1 by (by rewrite (ul_cut _ _ _ _ U), En).
    eapply wp_mono; [apply (IH s1 _ (net_unlinked _ _ _ _ Hnet U) En1)|].
    { exact Ecut. }
    intros [] s2 U2. eapply unlinked_ext; [|eapply unlinked_trans; [exact U|exact U2]].
    intros r b'. unfold to. rewrite (edge_cut _ _ _ r b' (ul_cut _ _ _ _ U)). unfold from, D.
    destruct (Z.eqb_spec r p) as [->|Hrp]; [|done]. cbn [andb].
    destruct (decide (b' = b)) as [->|Hbb]; [|by rewrite (bool_decide_eq_false_2 (b' = b))].
    assert (edge (nodes s) p b = Some g) as -> by (unfold edge; by rewrite Eh).
    rewrite (bool_decide_eq_true_2 (b = b)) by done. cbn [orb]. symmetry. by apply bool_decide_eq_true_2.
Qed.

Lemma unlinknode_none g b s n (Q : unit -> trees G -> Prop) :
  nodes s !! g = Some n -> l_ref (clink b n) = None -> Q tt s -> wp (unlinknode g b) s Q.
Proof. intros En Er HQ. unfold unlinknode. wp_step. eapply wp_deref_node; [exact En|]. cbn beta. rewrite Er. by wp_step. Qed.

(** The state after a forward link has been taken down. *)
Lemma unlinknode_eq g b s n q m l (Q : unit -> trees G -> Prop) :
  nodes s !! g = Some n -> l_ref (clink b n) = Some q -> nodes s !! q = Some m -> remove_ref g (bkr m) = Some l ->
  Q tt (s <| code ::= fun c => patched c (slot b n) (unlinked_exit b n) |>
          <| nodes := alter (set_ref b None) g (alter (fun m => m <| bkr := l |>) q (nodes s)) |>) ->
  wp (unlinknode g b) s Q.
Proof.
  intros En Er Em El HQ. unfold unlinknode. wp_step. eapply wp_deref_node; [exact En|]. cbn beta. rewrite Er.
  wp_step. eapply wp_deref_node; [exact Em|]. cbn beta. rewrite El. wp_step. apply wp_set_node; [by eexists|].
  destruct (decide (q = g)) as [->|Hq].
  - eapply (unlink_code_eq _ _ (n <| bkr := l |>)); [cbn [nodes upd]; by rewrite lookup_alter_eq, En|].
    assert (slot b (n <| bkr := l |>) = slot b n /\ unlinked_exit b (n <| bkr := l |>) = unlinked_exit b n) as [-> ->] by (by destruct b).
    exact HQ.
  - eapply (unlink_code_eq _ _ n); [cbn [nodes upd]; by rewrite lookup_alter_ne|]. exact HQ.
Qed.

(** Setting a link and a list of back-references commute. *)
Lemma alter_ref_bkr b r g f q N :
  alter (set_ref b r) g (alter (fun m => m <| bkr ::= f |>) q N) = alter (fun m => m <| bkr ::= f |>) q (alter (set_ref b r) g N).
Proof.
  destruct (decide (q = g)) as [->|Hne]; [|by rewrite alter_alter_ne].
  rewrite !alter_alter_eq. apply alter_ext. intros n _. unfold set_ref. by destruct b, n.
Qed.

Lemma alter_const_bkr l m q N : N !! q = Some m -> forall f, f (bkr m) = l ->
  alter (fun m => m <| bkr := l |>) q N = alter (fun m => m <| bkr ::= f |>) q N.
Proof. intros Em f Hf. apply alter_ext. intros m' E. rewrite Em in E. injection E as <-. cbn [upd]. by rewrite Hf. Qed.

(** A forward link that no other exit of the node shares. *)
Lemma unlinknode_one x g b s n q :
  net_ok x s -> nodes s !! g = Some n -> l_ref (clink b n) = Some q ->
  (forall b', b' <> b -> l_ref (clink b' n) <> Some q) ->
  wp (unlinknode g b) s (fun _ s' => unlinked (from g (fun b' => bool_decide (b' = b))) x s s').
Proof.
  intros Hnet En Er Hno. destruct (lk_fwd _ (proj1 Hnet) _ _ _ _ En Er) as (m & Em & _ & Hin & _).
  set (D := fun b' => bool_decide (b' = b)).
  eapply unlinknode_eq; [exact En|exact Er|exact Em| |].
  { apply (remove_ref_one g b); [eapply lk_nodup; [apply Hnet|exact Em]|exact Hin|]. intros b' Hb' Hin'.
    destruct (lk_bwd _ (proj1 Hnet) _ _ _ _ Em Hin') as (n' & E1 & E2). rewrite En in E1. injection E1 as <-. by apply (Hno b'). }
  fold D. rewrite (alter_const_bkr _ m q _ Em (cut_refs (from g D))) by done. rewrite alter_ref_bkr.
  by apply (unlinked_one x s g n b q m).
Qed.

(** Both exits lead to [q]. *)
Lemma unlinknode_both x g s n q :
  net_ok x s -> nodes s !! g = Some n -> l_ref (clink_t n) = Some q -> l_ref (clink_nt n) = Some q ->
  wp (unlinknode g BT ;; unlinknode g BN) s (fun _ s' => unlinked (from g (fun _ => true)) x s s').
Proof.
  intros Hnet En Et Enn. pose proof Hnet as (Hl & Hr & Hc).
  destruct (lk_fwd _ Hl g n BT q En Et) as (m & Em & _ & Hin & Hlt). destruct (lk_fwd _ Hl g n BN q En Enn) as (m' & Em' & _ & Hin' & Hln).
  rewrite Em in Em'. injection Em' as <-.
  destruct (remove_ref_both g (bkr m)) as (l1 & R1 & R2); [by eapply lk_nodup|done|done|].
  set (R := from g (fun _ => true)) in *.
  wp_step. eapply unlinknode_eq; [exact En|exact Et|exact Em|exact R1|].
  rewrite (alter_ref_bkr BT None g (fun _ => l1)).
  set (N1 := alter (set_ref BT None) g (nodes s)). set (s1 := s <| code ::= _ |> <| nodes := _ |>).
  set (N2 := alter (set_ref BN None) g N1).
  assert (exists n1, nodes s1 !! g = Some n1 /\ l_ref (clink_nt n1) = Some q /\ same_block n n1) as (n1 & En1 & Er1 & Hb1).
  { unfold s1, N1. cbn [nodes upd]. destruct (decide (q = g)) as [->|Hq].
    - rewrite !lookup_alter_eq, En. eexists. split; [done|]. split; [exact Enn|]. repeat split; by destruct b.
    - rewrite lookup_alter_ne, lookup_alter_eq, En by done. eexists. split; [done|]. split; [exact Enn|]. apply same_block_set_ref. }
  assert (exists m1, nodes s1 !! q = Some m1 /\ bkr m1 = l1) as (m1 & Em1 & Eb1).
  { unfold s1, N1. cbn [nodes upd]. rewrite lookup_alter_eq. destruct (decide (g = q)) as [->|Hq].
    - rewrite lookup_alter_eq, En. by eexists.
    - rewrite lookup_alter_ne, Em by done. by eexists. }
  eapply unlinknode_eq; [exact En1|exact Er1|exact Em1|rewrite Eb1; exact R2|].
  match goal with |- unlinked _ _ _ ?t => set (s2 := t) end.
  assert (nodes s2 = alter (fun m0 => m0 <| bkr ::= cut_refs R |>) q N2) as EN.
  { change (alter (set_ref BN None) g (alter (fun m0 => m0 <| bkr := cut_refs R (bkr m) |>) q
      (alter (fun m0 => m0 <| bkr := l1 |>) q N1)) = alter (fun m0 => m0 <| bkr ::= cut_refs R |>) q N2).
    rewrite (alter_alter_eq _ _ N1 q). rewrite (alter_ref_bkr BN None g (fun _ => cut_refs R (bkr m))).
    fold N2. apply alter_ext. intros m' E'. assert (bkr m' = bkr m) as Eb; [|by rewrite <- Eb].
    unfold N2, N1 in E'. destruct (decide (g = q)) as [->|Hq].
    - rewrite !lookup_alter_eq, Em in E'. by injection E' as <-.
    - rewrite !lookup_alter_ne, Em in E' by done. by injection E' as <-. }
  assert (code s2 = patched (patched (code s) (slot BT n) (unlinked_exit BT n)) (slot BN n) (unlinked_exit BN n)) as EC.
  { assert (unlinked_exit BN n1 = unlinked_exit BN n) as E1.
    { unfold unlinked_exit. destruct Hb1 as (Ek&_&_&_&_&_&_&_&Hb). by rewrite Ek, (proj2 (Hb BN)). }
    change (code s2) with (patched (patched (code s) (slot BT n) (unlinked_exit BT n)) (slot BN n1) (unlinked_exit BN n1)).
    by rewrite (slot_same BN n n1 Hb1), E1. }
  assert (edge (nodes s) g BT <> None /\ edge (nodes s) g BN <> None) as [He1 He2] by (unfold edge; rewrite En; simpl; by rewrite Et, Enn).
  constructor; rewrite ?EN, ?EC.
  - replace (alter (fun m0 => m0 <| bkr ::= cut_refs R |>) q N2) with
      (alter (fun m => m <| bkr ::= cut_refs R |>) q
        (alter (fun n => n <| clink_t ::= cut_link true |> <| clink_nt ::= cut_link true |>) g (nodes s))).
    { apply (cut_star _ _ _ (fun _ => true) n); [done|done|]. intros [] _; done. }
    f_equal. unfold N2, N1. by rewrite alter_alter_eq.
  - assert (exists n2, N1 !! g = Some n2 /\ same_block n n2) as (n2 & En2 & Hb2).
    { unfold N1. rewrite lookup_alter_eq, En. eexists. split; [done|apply same_block_set_ref]. }
    eapply (code_same N2).
    + apply same_blocks_alter. intros n' _. by repeat split.
    + intros r m0 m2 b' E0 E2. destruct (decide (q = r)) as [<-|Hq].
      * rewrite lookup_alter_eq, E0 in E2. injection E2 as <-. by destruct b'.
      * rewrite lookup_alter_ne in E2 by done. congruence.
    + rewrite <- (slot_same BN n n2 Hb2). apply (code_patch N1).
      * eapply regions_same; [|exact Hr]. apply same_blocks_alter. intros; apply same_block_set_ref.
      * by apply code_patch.
      * done.
      * by rewrite (proj1 (proj2 (proj2 (proj2 (proj2 (proj2 (proj2 (proj2 (proj2 Hb2))))))) BN)).
      * done.
      * cbn [unlinked_exit p0]. symmetry. apply Hb2.
      * done.
      * done.
  - done.
  - intros i Hi. rewrite !patched_other; [done|by apply (Hi g n BT)|by apply (Hi g n BN)].
Qed.

(** A forward link, if any, that no other exit shares. *)
Lemma unlinknode_alone x g b s n :
  net_ok x s -> nodes s !! g = Some n ->
  (forall b' q, b' <> b -> l_ref (clink b n) = Some q -> l_ref (clink b' n) <> Some q) ->
  wp (unlinknode g b) s (fun _ s' => unlinked (from g (fun b' => bool_decide (b' = b))) x s s').
Proof.
  intros Hnet En Hno. destruct (l_ref (clink b n)) as [q|] eqn:Er.
  - eapply unlinknode_one; [done|exact En|exact Er|]. intros b' Hb. by apply Hno.
  - eapply unlinknode_none; [exact En|exact Er|].
    eapply unlinked_more; [apply Hnet| |by apply unlinked_refl]. intros p b' He. symmetry. unfold from.
    destruct (Z.eqb_spec p g) as [->|]; [|done]. apply bool_decide_eq_false_2. intros ->. apply He. unfold edge. by rewrite En.
Qed.

(** The two forward links. *)
Lemma unlinknodes_spec x g s n :
  net_ok x s -> nodes s !! g = Some n ->
  wp (unlinknode g BT ;; unlinknode g BN) s (fun _ s' => unlinked (from g (fun _ => true)) x s s').
Proof.
  intros Hnet En. destruct (decide (is_Some (l_ref (clink_t n)) /\ l_ref (clink_nt n) = l_ref (clink_t n))) as [[[q Et] E2]|Hne].
  { apply (unlinknode_both x g s n q); [done|done|done|congruence]. }
  wp_step. eapply wp_mono; [apply (unlinknode_alone x g BT s n); [done|done|]|].
  { intros [] q Hb Eq E; [done|]. apply Hne. split; [by exists q|]. cbn [clink] in *. congruence. }
  intros [] s1 U1. set (D := fun b' => bool_decide (b' = BT)) in *.
  assert (nodes s1 !! g = Some (cut_node (from g D) g n)) as E1 by (by rewrite (ul_cut _ _ _ _ U1), En).
  eapply wp_mono; [apply (unlinknode_alone x g BN s1 _ (net_unlinked _ _ _ _ Hnet U1) E1)|].
  { intros [] q Hb _; [|done]. rewrite clink_cut, cut_link_ref. unfold from. by rewrite Z.eqb_refl. }
  intros [] s2 U2. eapply unlinked_ext; [|eapply unlinked_trans; [exact U1|exact U2]].
  intros p b. unfold from, D. destruct (p =? g); [|done]. by destruct b.
Qed.

(** All links of [g]: those to it and those from it. *)
Definition around (g : Z) N : Z -> branch -> bool := fun p b => (p =? g) || to g N p b.

(** Nothing is linked when the linker is off. *)
Definition linker_ok s : Prop := UseLinker = false -> forall p b, edge (nodes s) p b = None.

Lemma NodeUnlinker_spec x g s n :
  linker_ok s -> net_ok x s -> nodes s !! g = Some n ->
  wp (NodeUnlinker UseLinker g) s (fun _ s' => unlinked (around g (nodes s)) x s s').
Proof using Type.
  intros Hu Hnet En. unfold NodeUnlinker. wp_step. eapply wp_deref_node; [exact En|]. cbn beta. unfold linker_ok in Hu.
  destruct UseLinker; cbn [negb].
  2:{ wp_step. eapply unlinked_more; [apply Hnet| |by apply unlinked_refl]. intros p b He. destruct He. by apply Hu. }
  wp_step. eapply wp_mono; [by eapply unlink_refs_spec|]. intros [] s1 U1. cbn beta.
  eapply wp_mono; [eapply unlinknodes_spec; [by eapply net_unlinked|by rewrite (ul_cut _ _ _ _ U1), En]|].
  intros [] s2 U2. eapply unlinked_ext; [|eapply unlinked_trans; [exact U1|exact U2]].
  intros p b. unfold around, from. by destruct (p =? g), (to g (nodes s) p b).
Qed.

(** What is left of [g]. *)
Lemma around_clean x g s s' n :
  net_ok x s -> nodes s !! g = Some n -> unlinked (around g (nodes s)) x s s' ->
  exists n', nodes s' !! g = Some n' /\ same_block n n' /\ bkr n' = [] /\ l_ref (clink_t n') = None /\ l_ref (clink_nt n') = None.
Proof.
  intros Hnet En U. exists (cut_node (around g (nodes s)) g n). rewrite (ul_cut _ _ _ _ U), En. split; [done|]. split; [apply same_block_cut|].
  assert (forall b, around g (nodes s) g b = true) as Ha by (intros b; unfold around; by rewrite Z.eqb_refl).
  pose proof (clink_cut (around g (nodes s)) g n) as Hc.
  split; [|split].
  - unfold cut_node. cbn [bkr upd]. destruct (cut_refs _ (bkr n)) as [|[p b] l] eqn:E; [done|exfalso].
    assert (MkRef p b ∈ cut_refs (around g (nodes s)) (bkr n)) as Hin by (rewrite E; by left).
    apply elem_of_cut in Hin as [Hin Hr]. cbn [b_ref b_branch] in Hr. destruct (lk_bwd _ (proj1 Hnet) _ _ _ _ En Hin) as (m & E1 & E2).
    unfold around, to in Hr. apply orb_false_elim in Hr as [_ Hr]. apply bool_decide_eq_false in Hr. apply Hr. unfold edge. by rewrite E1.
  - change (l_ref (clink BT (cut_node (around g (nodes s)) g n)) = None). by rewrite Hc, cut_link_ref, Ha.
  - change (l_ref (clink BN (cut_node (around g (nodes s)) g n)) = None). by rewrite Hc, cut_link_ref, Ha.
Qed.

(** ** Fields the links do not depend on *)

Definition netlike n n' : Prop :=
  key n' = key n /\ n_len n' = n_len n /\ n_addr n' = n_addr n /\ clink_t n' = clink_t n /\ clink_nt n' = clink_nt n /\ bkr n' = bkr n.

Lemma netlike_clink n n' b : netlike n n' -> clink b n' = clink b n.
Proof using Type. intros (_&_&_&H1&H2&_). by destruct b. Qed.

Lemma edge_netlike f p q b N : (forall n, netlike n (f n)) -> edge (alter f p N) q b = edge N q b.
Proof using Type.
  intros Hf. unfold edge. destruct (decide (p = q)) as [<-|]; [|by rewrite lookup_alter_ne].
  rewrite lookup_alter_eq. destruct (N !! p) as [n|]; [|done]. simpl. by rewrite (netlike_clink _ _ b (Hf n)).
Qed.

Lemma look_netlike f p N q n' :
  (forall n, netlike n (f n)) -> alter f p N !! q = Some n' -> exists n, N !! q = Some n /\ netlike n n'.
Proof using Type.
  intros Hf E. destruct (decide (p = q)) as [<-|].
  - rewrite lookup_alter_eq in E. destruct (N !! p) as [n|]; [|done]. injection E as <-. by exists n.
  - rewrite lookup_alter_ne in E by done. exists n'. by repeat split.
Qed.

Lemma look_netlike' f p N q n :
  (forall n, netlike n (f n)) -> N !! q = Some n -> exists n', alter f p N !! q = Some n' /\ netlike n n'.
Proof using Type.
  intros Hf E. destruct (decide (p = q)) as [<-|].
  - rewrite lookup_alter_eq, E. by eexists.
  - rewrite lookup_alter_ne by done. exists n. by repeat split.
Qed.

Lemma links_netlike f p N : (forall n, netlike n (f n)) -> links_ok N -> links_ok (alter f p N).
Proof using Type.
  intros Hf [Hfw Hb Hn]. constructor.
  - intros q n' b r E Er. destruct (look_netlike _ _ _ _ _ Hf E) as (n & E0 & Hl). rewrite (netlike_clink _ _ b Hl) in *.
    destruct (Hfw q n b r E0 Er) as (m & F1 & F2 & F3 & F4). destruct (look_netlike' f p _ _ _ Hf F1) as (m' & G1 & Hl').
    exists m'. destruct Hl' as (-> & _ & _ & _ & _ & ->). done.
  - intros q m' r b E Hin. destruct (look_netlike _ _ _ _ _ Hf E) as (m & E0 & Hl). destruct Hl as (_&_&_&_&_&Eb). rewrite Eb in Hin.
    destruct (Hb q m r b E0 Hin) as (n & F1 & F2). destruct (look_netlike' f p _ _ _ Hf F1) as (n' & G1 & Hl').
    exists n'. by rewrite (netlike_clink _ _ b Hl').
  - intros q m' E. destruct (look_netlike _ _ _ _ _ Hf E) as (m & E0 & (_&_&_&_&_&->)). by eapply Hn.
Qed.

Lemma regions_netlike f p N : (forall n, netlike n (f n)) -> regions_ok N -> regions_ok (alter f p N).
Proof using Type.
  intros Hf [Hr Hd]. constructor.
  - intros q n' E. destruct (look_netlike _ _ _ _ _ Hf E) as (n & E0 & Hl). destruct (Hr q n E0) as (R0 & R1 & R2 & R3).
    destruct (Hl) as (_&El&Ea&Et&Enn&_). unfold region_ok. rewrite El, Ea, Et, Enn. split; [done|]. split; [done|]. split; [|done].
    intros b. rewrite (netlike_clink _ _ b Hl). apply R2.
  - intros q q' n' m' E E' Hne. destruct (look_netlike _ _ _ _ _ Hf E) as (n & E0 & (_&->&->&_)).
    destruct (look_netlike _ _ _ _ _ Hf E') as (m & E1 & (_&->&->&_)). by eapply Hd.
Qed.

Lemma code_netlike f p N c x : (forall n, netlike n (f n)) -> code_ok N c x -> code_ok (alter f p N) c x.
Proof using Type.
  intros Hf Hc q n' b E Hx. destruct (look_netlike _ _ _ _ _ Hf E) as (n & E0 & Hl). unfold slot. rewrite (netlike_clink _ _ b Hl).
  assert (n_addr n' = n_addr n) as -> by apply Hl. intros Hlink. destruct (Hc q n b E0 Hx Hlink) as (H1 & H2 & H3). unfold slot in H1, H2, H3.
  split; [done|]. split; [done|]. destruct (l_ref (clink b n)) as [r|]; [|done]. destruct H3 as (H3 & m & F1 & F2). split; [done|].
  destruct (look_netlike' f p _ _ _ Hf F1) as (m' & G1 & Hl'). exists m'. split; [done|]. rewrite F2. symmetry. apply Hl'.
Qed.

(** ** Running the linker *)

(** An exit is linked when the target fits and neither node is traced. *)
Definition links_to (b : branch) (lg n : TNode) : bool :=
  (l_target (clink b lg) =? u32 (key n)) && truth (l_link (clink b lg)) && negb (has (n_mode n) MTRAP) && negb (has (n_mode lg) MTRAP).

Lemma links_add N LG g b lg n :
  links_ok N -> N !! LG = Some lg -> N !! g = Some n -> links_to b lg n = true -> l_ref (clink b lg) = None ->
  links_ok (alter (fun m => m <| bkr ::= cons (MkRef LG b) |>) g (alter (set_ref b (Some g)) LG N)).
Proof.
  intros Hl Elg En Hto Er. set (N1 := alter (set_ref b (Some g)) LG N). set (N2 := alter _ g N1).
  assert (forall p m, N2 !! p = Some m -> exists m0, N !! p = Some m0 /\ same_block m0 m /\
    (forall b', l_ref (clink b' m) = if decide (p = LG /\ b' = b) then Some g else l_ref (clink b' m0)) /\
    bkr m = (if decide (p = g) then cons (MkRef LG b) else id) (bkr m0)) as Hinv.
  { intros p m Em. unfold N2 in Em. assert (exists m1, N1 !! p = Some m1 /\ same_block m1 m /\ (forall b', clink b' m = clink b' m1) /\
      bkr m = (if decide (p = g) then cons (MkRef LG b) else id) (bkr m1)) as (m1 & E1 & S1 & C1 & B1).
    { destruct (decide (p = g)) as [->|Hp].
      - rewrite lookup_alter_eq in Em. destruct (N1 !! g) as [m1|]; [|done]. injection Em as <-. exists m1. split; [done|]. by repeat split.
      - rewrite lookup_alter_ne in Em by done. exists m. split; [done|]. split; [apply same_block_refl|done]. }
    unfold N1 in E1. destruct (decide (p = LG)) as [->|Hp].
    - rewrite lookup_alter_eq, Elg in E1. assert (m1 = set_ref b (Some g) lg) as -> by (by injection E1).
      exists lg. split; [done|]. split; [eapply same_block_trans; [apply same_block_set_ref|exact S1]|]. split.
      + intros b'. rewrite C1, clink_set. destruct (decide (b' = b)); [rewrite decide_True by done; done|rewrite decide_False; [done|]]. intros [_ ?]. done.
      + rewrite B1. unfold set_ref. by destruct b.
    - rewrite lookup_alter_ne in E1 by done. exists m1. split; [done|]. split; [done|]. split; [|done].
      intros b'. rewrite C1, decide_False; [done|]. by intros [? _]. }
  assert (forall p m0, N !! p = Some m0 -> exists m, N2 !! p = Some m) as Hdom.
  { intros p m0 E. assert (is_Some (N2 !! p)) as [m Em]; [|by exists m]. unfold N2, N1. apply lookup_alter_is_Some, lookup_alter_is_Some. by eexists. }
  unfold links_to in Hto. apply andb_prop in Hto as [Hto _]. apply andb_prop in Hto as [Hto _]. apply andb_prop in Hto as [Htgt Hlink].
  apply Z.eqb_eq in Htgt. constructor.
  - intros p m b' q Em Eq. destruct (Hinv p m Em) as (m0 & E0 & S0 & C0 & B0).
    assert (l_target (clink b' m) = l_target (clink b' m0) /\ l_link (clink b' m) = l_link (clink b' m0)) as [-> ->] by (split; apply S0).
    rewrite C0 in Eq. destruct (decide (p = LG /\ b' = b)) as [[-> ->]|Hne].
    + injection Eq as <-. destruct (Hdom g n En) as [m' Em']. exists m'. destruct (Hinv g m' Em') as (n0 & F0 & S1 & _ & B1).
      rewrite En in F0. injection F0 as <-. rewrite Elg in E0. injection E0 as <-. split; [done|]. split; [by rewrite (proj1 S1)|].
      split; [rewrite B1, decide_True by done; left|]. unfold truth in Hlink. by destruct (Z.eqb_spec (l_link (clink b lg)) 0).
    + destruct (lk_fwd _ Hl p m0 b' q E0 Eq) as (m1 & F1 & F2 & F3 & F4). destruct (Hdom q m1 F1) as [m' Em']. exists m'.
      destruct (Hinv q m' Em') as (n0 & F0 & S1 & _ & B1). rewrite F1 in F0. injection F0 as <-. split; [done|].
      split; [by rewrite (proj1 S1)|]. split; [|done]. rewrite B1. destruct (decide (q = g)); [by right|done].
  - intros q m p b' Em Hin. destruct (Hinv q m Em) as (m0 & E0 & S0 & C0 & B0). rewrite B0 in Hin.
    assert ((q = g /\ p = LG /\ b' = b) \/ MkRef p b' ∈ bkr m0) as [(-> & -> & ->)|Hin'].
    { destruct (decide (q = g)); [|by right]. apply elem_of_cons in Hin as [[= -> ->]|Hin]; [by left|by right]. }
    + destruct (Hdom LG lg Elg) as [m' Em']. exists m'. split; [done|]. destruct (Hinv LG m' Em') as (? & _ & _ & C1 & _). by rewrite C1, decide_True.
    + destruct (lk_bwd _ Hl q m0 p b' E0 Hin') as (n' & F1 & F2). destruct (Hdom p n' F1) as [m' Em']. exists m'. split; [done|].
      destruct (Hinv p m' Em') as (n0 & F0 & _ & C1 & _). rewrite F1 in F0. injection F0 as <-. rewrite C1, decide_False; [done|].
      intros [-> ->]. congruence.
  - intros q m Em. destruct (Hinv q m Em) as (m0 & E0 & _ & _ & B0). pose proof (lk_nodup _ Hl q m0 E0) as Hnd. rewrite B0.
    destruct (decide (q = g)) as [->|]; [|done]. apply NoDup_cons. split; [|done]. intros Hin.
    destruct (lk_bwd _ Hl g m0 LG b E0 Hin) as (n' & F1 & F2). congruence.
Qed.

(** The links of [s'] are those of [s], and [b] of [LG] leads to [g] when it can. *)
Record linked (LG g : Z) (b : branch) (x : option Z) s s' : Prop := {
  ln_net : net_ok x s';
  ln_same : same_blocks (nodes s) (nodes s');
  ln_rest : rest_same s s';
  ln_edge p b' : edge (nodes s') p b' =
    if decide (p = LG /\ b' = b) then
      match nodes s !! LG, nodes s !! g with
      | Some lg, Some n => if links_to b lg n then Some g else edge (nodes s) p b'
      | _, _ => None
      end
    else edge (nodes s) p b';
  ln_code lg n i : nodes s !! LG = Some lg -> nodes s !! g = Some n -> (links_to b lg n = true -> i <> slot b lg) -> code s' i = code s i;
}.

Lemma edge_alter f p b q N :
  edge (alter f p N) q b = if decide (q = p) then N !! p ≫= fun n => l_ref (clink b (f n)) else edge N q b.
Proof.
  unfold edge. case_decide as E; [subst; rewrite lookup_alter_eq; by destruct (N !! p)|]. by rewrite lookup_alter_ne by congruence.
Qed.

Lemma linknode_spec LG g b x s lg n :
  net_ok x s -> nodes s !! LG = Some lg -> nodes s !! g = Some n -> (links_to b lg n = true -> l_ref (clink b lg) = None) ->
  wp (linknode LG g b) s (fun _ s' => linked LG g b x s s').
Proof.
  intros Hnet Elg En Hfree. unfold linknode. wp_step. eapply wp_deref_node; [exact Elg|]. cbn beta. wp_step. eapply wp_deref_node; [exact En|].
  cbn beta zeta. destruct (links_to b lg n) eqn:Hto; pose proof Hto as Hto'; unfold links_to in Hto.
  2:{ assert (negb (l_target (clink b lg) =? u32 (key n)) || negb (truth (l_link (clink b lg))) || has (n_mode n) MTRAP || has (n_mode lg) MTRAP = true) as ->.
      { revert Hto. destruct (l_target _ =? _), (truth _), (has (n_mode n) MTRAP), (has (n_mode lg) MTRAP); done. }
      wp_step. constructor; [done|apply same_blocks_refl|done| |done]. intros p b'. case_decide as E; [|done]. destruct E as [-> ->]. by rewrite Elg, En, Hto'. }
  assert (negb (l_target (clink b lg) =? u32 (key n)) || negb (truth (l_link (clink b lg))) || has (n_mode n) MTRAP || has (n_mode lg) MTRAP = false) as ->.
  { revert Hto. destruct (l_target _ =? _), (truth _), (has (n_mode n) MTRAP), (has (n_mode lg) MTRAP); done. }
  specialize (Hfree eq_refl). rewrite Hfree. wp_step. wp_step. wp_step. unfold CodeGen_sim. wp_step.
  wp_step. apply wp_set_node; [by eexists|]. wp_step.
  apply wp_set_node; [cbn [nodes upd]; apply lookup_alter_is_Some; by eexists|].
  set (N' := alter (fun m => m <| bkr ::= cons (MkRef LG b) |>) g (alter (set_ref b (Some g)) LG (nodes s))).
  set (N2 := if g =? LG then alter (fun n => n <| n_flags ::= Z.lor F_SLFL |>) g N' else N').
  apply (wp_mono _ _ (fun _ s' => s' = s <| code ::= fun c => patched c (slot b lg) (linked_exit b lg n) |> <| nodes := N2 |>)).
  { unfold N2. destruct (Z.eqb_spec g LG); [|wp_step; done].
    apply wp_set_node; [cbn [nodes upd]; apply lookup_alter_is_Some, lookup_alter_is_Some; by eexists|]. done. }
  intros [] s' ->. destruct Hnet as (Hl & Hr & Hc).
  assert (forall m, netlike m (m <| n_flags ::= Z.lor F_SLFL |>)) as Hfl by (by intros m).
  assert (code_ok N' (patched (code s) (slot b lg) (linked_exit b lg n)) x) as HC.
  { apply (code_same (alter (set_ref b (Some g)) LG (nodes s))).
    - apply same_blocks_alter. by repeat split.
    - intros p m m' b' E1 E2. unfold N' in E2. destruct (decide (g = p)) as [<-|Hp].
      + rewrite lookup_alter_eq, E1 in E2. injection E2 as <-. by destruct b'.
      + rewrite lookup_alter_ne in E2 by done. congruence.
    - apply code_patch; try done.
      + unfold links_to in Hto'. intros E0. rewrite E0 in Hto'. cbn in Hto'. by rewrite andb_false_r in Hto'.
      + split; [done|]. by exists n. }
  assert (same_blocks (nodes s) N') as HS.
  { eapply same_blocks_trans; [apply same_blocks_alter; intros; apply same_block_set_ref|]. apply same_blocks_alter. by repeat split. }
  assert (links_ok N') as HL by (by apply (links_add _ LG g b lg n)).
  assert (regions_ok N') as HR by (by eapply regions_same).
  constructor; cbn [nodes upd].
  - unfold N2. split; [|split]; cbn [nodes code upd]; destruct (g =? LG); try done; [by apply links_netlike|by apply regions_netlike|by apply code_netlike].
  - unfold N2. destruct (g =? LG); [|done]. eapply same_blocks_trans; [exact HS|]. apply same_blocks_alter. by repeat split.
  - done.
  - intros p b'. assert (edge N2 p b' = edge N' p b') as -> by (unfold N2; destruct (g =? LG); [by apply edge_netlike|done]).
    assert (edge N' p b' = edge (alter (set_ref b (Some g)) LG (nodes s)) p b') as ->.
    { unfold N', edge. destruct (decide (g = p)) as [<-|Hp]; [|by rewrite lookup_alter_ne].
      rewrite lookup_alter_eq. destruct (alter _ _ _ !! g) as [m|]; [|done]. by destruct b'. }
    rewrite edge_alter, Elg, En. cbn [mbind option_bind]. rewrite clink_set. destruct (decide (p = LG)) as [->|Hp].
    + destruct (decide (b' = b)) as [->|Hb]; [rewrite decide_True by done; by rewrite Hto'|].
      rewrite decide_False by (by intros [_ ?]). unfold edge. by rewrite Elg.
    + by rewrite decide_False by (by intros [? _]).
  - intros lg' n' i E1 E2 Hi. assert (lg' = lg) as -> by congruence. assert (n' = n) as -> by congruence. cbn [code upd]. unfold patched.
    destruct (Z.eqb_spec i (slot b lg)); [|done]. by destruct Hi.
Qed.

(** Both exits of [LG]. *)
Record links_made (LG g : Z) (x : option Z) s s' : Prop := {
  lm_net : net_ok x s';
  lm_same : same_blocks (nodes s) (nodes s');
  lm_rest : rest_same s s';
  lm_edge p b : edge (nodes s') p b =
    match nodes s !! LG, nodes s !! g with
    | Some lg, Some n => if (p =? LG) && links_to b lg n then Some g else edge (nodes s) p b
    | _, _ => None
    end;
  lm_code lg n i : nodes s !! LG = Some lg -> nodes s !! g = Some n -> (forall b, links_to b lg n = true -> i <> slot b lg) -> code s' i = code s i;
}.

Lemma links_to_same b lg n lg' n' : same_block lg lg' -> same_block n n' -> links_to b lg' n' = links_to b lg n.
Proof using Type.
  intros (_&_&_&_&_&_&M1&_&B1) (K&_&_&_&_&_&M2&_&_). unfold links_to. destruct (B1 b) as [-> ->]. by rewrite K, M1, M2.
Qed.

Lemma linknodes_spec LG g x s lg n :
  net_ok x s -> nodes s !! LG = Some lg -> nodes s !! g = Some n -> (forall b, links_to b lg n = true -> l_ref (clink b lg) = None) ->
  wp (linknode LG g BT ;; linknode LG g BN) s (fun _ s' => links_made LG g x s s').
Proof using Type.
  intros Hnet Elg En Hfree. wp_step. eapply wp_mono; [apply (linknode_spec _ _ _ x s lg n); auto|]. intros [] s1 [N1 S1 R1 E1 C1].
  destruct (same_blocks_look' _ _ _ _ S1 Elg) as (lg1 & Elg1 & B1). destruct (same_blocks_look' _ _ _ _ S1 En) as (n1 & En1 & B2).
  eapply wp_mono; [apply (linknode_spec _ _ _ x s1 lg1 n1); [done|done|done|]|].
  { rewrite (links_to_same BN lg n) by done. intros Hto. specialize (E1 LG BN). rewrite decide_False in E1 by (by intros [_ ?]).
    unfold edge in E1. rewrite Elg1, Elg in E1. cbn [mbind option_bind] in E1. rewrite E1. by apply (Hfree BN). }
  intros [] s2 [N2 S2 R2 E2 C2]. constructor; [done|by eapply same_blocks_trans| | |].
  { destruct R1 as (?&?&?&?), R2 as (?&?&?&?). repeat split; congruence. }
  2:{ intros lg' n' i F1 F2 Hi. assert (lg' = lg) as -> by congruence. assert (n' = n) as -> by congruence. rewrite (C2 lg1 n1 i Elg1 En1).
    - apply (C1 lg n i Elg En). apply Hi.
    - rewrite (links_to_same BN lg n) by done. intros Hto. destruct B1 as (_&_&Ea&_&_&_&_&_&Hl). unfold slot. rewrite Ea, (proj1 (Hl BN)). by apply Hi. }
  intros p b. rewrite E2, Elg1, En1, Elg, En, E1, Elg, En, (links_to_same BN lg n) by done.
  destruct (Z.eqb_spec p LG) as [->|Hp]; [|by rewrite !decide_False by (by intros [? _])].
  destruct b; cbn [andb].
  - rewrite (decide_False (P := LG = LG /\ BT = BN)) by (by intros [_ ?]). by rewrite decide_True.
  - rewrite decide_True by done. rewrite decide_False by (by intros [_ ?]). done.
Qed.

End run.
