(* ===== verification/TreesInv.v ===== *)
(** * The tree of translated blocks: invariant and lookups

    The nodes of the tree are the blocks of the marks (MarksInv.v): their guest
    bytes are the marked bytes, and block starts are their keys. *)

From stdpp Require Import base numbers list gmap.
From Stdlib Require Import ZArith Lia.
From S2P Require Import Prelude Machine SimCpu SimMem Marks MarksInv MarksMark MarksFind Fhmap Trees TreesLinks.

Local Open Scope Z_scope.

Implicit Types (N : gmap Z TNode) (T : gmap Z Z) (n : TNode).

(** Keys are compared as [int]: the blocks considered lie below 2^31, with
    room for the longest block. *)
Definition TREE_END : Z := 2 ^ 31 - 2 ^ 17.

Record block_ok (k : Z) n : Prop := {
  bo_key : key n = k;
  bo_low : 0 <= k;
  bo_len : 0 < seqlen n < 2 ^ 16;
  bo_high : k + seqlen n <= TREE_END;
  bo_edge : offset (k + seqlen n) <> 0;
  bo_meta : 0 < seqnum n /\ length (meta n) = S (Z.to_nat (seqnum n));
  bo_code : Forall (fun A => 0 <= daddr A < n_len n) (take (Z.to_nat (seqnum n)) (meta n));
  bo_order i j A B : (i <= j < Z.to_nat (seqnum n))%nat -> meta n !! i = Some A -> meta n !! j = Some B -> daddr A <= daddr B;
}.

Section inv.
Context {G : Type} `{CodeMemLaws G}.
Context (UseLinker : bool).
Implicit Types s : trees G.
#[local] Set Default Proof Using "Type*".

(** [T] maps the start of each block to its node; [x] is a node that is just
    being added or removed. *)
Record trees_ok s T (x : option Z) : Prop := {
  tr_net : net_ok x s;
  tr_off : linker_ok UseLinker s;
  tr_map : fh_ok (key_of s) (CollectTree s) T;
  tr_node k p : T !! k = Some p -> exists n, nodes s !! p = Some n /\ block_ok k n;
  tr_dom p n : nodes s !! p = Some n -> x <> Some p -> exists k, T !! k = Some p;
  tr_marks : marks_ok (tmarks s);
  tr_starts a : 0 <= a -> starts (tmarks s) a = true <-> is_Some (T !! a);
  tr_marked a : 0 <= a -> marked (tmarks s) a = true <->
    exists k p n, T !! k = Some p /\ nodes s !! p = Some n /\ k <= a < k + seqlen n;
  tr_disj k k' p p' n n' : T !! k = Some p -> T !! k' = Some p' -> nodes s !! p = Some n -> nodes s !! p' = Some n' ->
    k < k' -> k + seqlen n <= k';
  tr_bufs p n : nodes s !! p = Some n -> n_addr n ∈ bufs s;
}.

Lemma tree_blocks s T x : trees_ok s T x -> blocks_ok (tmarks s).
Proof.
  intros Hs a Ha Hst. apply (tr_starts _ _ _ Hs a Ha) in Hst as [p Ep]. destruct (tr_node _ _ _ Hs a p Ep) as (n & En & Hb).
  apply (tr_marked _ _ _ Hs a Ha). exists a, p, n. split; [done|]. split; [done|]. pose proof (bo_len _ _ Hb). lia.
Qed.

Lemma block_key k n : block_ok k n -> u32 (key n) = k.
Proof using Type. intros Hb. rewrite (bo_key _ _ Hb). pose proof (bo_low _ _ Hb). pose proof (bo_high _ _ Hb). pose proof (bo_len _ _ Hb).
  apply u32_small. unfold TREE_END in *. lia. Qed.

Lemma tree_key s T x k p n : trees_ok s T x -> T !! k = Some p -> nodes s !! p = Some n -> block_ok k n.
Proof. intros Hs Et En. destruct (tr_node _ _ _ Hs k p Et) as (n' & En' & Hb). congruence. Qed.

Lemma tree_inj s T x k k' p : trees_ok s T x -> T !! k = Some p -> T !! k' = Some p -> k = k'.
Proof.
  intros Hs E E'. destruct (tr_node _ _ _ Hs k p E) as (n & En & Hb). destruct (tr_node _ _ _ Hs k' p E') as (n' & En' & Hb').
  rewrite <- (bo_key _ _ Hb), <- (bo_key _ _ Hb'). congruence.
Qed.

Lemma tree_block s T x a : trees_ok s T x -> 0 <= a -> marked (tmarks s) a = true -> exists r, in_block (tmarks s) r a.
Proof.
  intros Hs Ha Hm. apply (tr_marked _ _ _ Hs a Ha) in Hm as (k & p & n & Et & En & Hk).
  pose proof (tree_key _ _ _ _ _ _ Hs Et En) as Hb. pose proof (bo_low _ _ Hb). exists k. split; [lia|]. split.
  - apply (tr_starts _ _ _ Hs); [lia|]. by exists p.
  - intros y Hy. apply (tr_marked _ _ _ Hs); [lia|]. exists k, p, n. split; [done|]. split; [done|]. lia.
Qed.

(** ** What a lookup may change: [alive] and [LastMp] *)

Definition relived n n' : Prop := n' = n <| alive := alive n' |>.

Record calm s s' : Prop := {
  cm_nodes p : match nodes s !! p, nodes s' !! p with Some n, Some n' => relived n n' | None, None => True | _, _ => False end;
  cm_seen : seen (tmarks s) (tmarks s');
  cm_code : code s' = code s;
  cm_bufs : bufs s' = bufs s;
  cm_broken : BrokenCodePtr s' = BrokenCodePtr s;
  cm_ents p : is_Some (ents (bs (CollectTree s')) !! p) <-> is_Some (ents (bs (CollectTree s)) !! p);
}.

Lemma relived_refl n : relived n n.
Proof using Type. by destruct n. Qed.

Lemma relived_trans n n' n'' : relived n n' -> relived n' n'' -> relived n n''.
Proof using Type. unfold relived. intros -> ->. by destruct n. Qed.

Lemma relived_netlike n n' : relived n n' -> netlike n n'.
Proof using Type. intros ->. by repeat split. Qed.

Lemma relived_same n n' : relived n n' -> same_block n n'.
Proof using Type. intros ->. repeat split; by destruct b. Qed.

Lemma calm_refl s : marks_ok (tmarks s) -> calm s s.
Proof. intros Hs. constructor; try done; [|by apply seen_refl]. intros p. destruct (nodes s !! p); [apply relived_refl|done]. Qed.

Lemma calm_trans s s' s'' : calm s s' -> calm s' s'' -> calm s s''.
Proof.
  intros [A1 A2 A3 A4 A5 A6] [B1 B2 B3 B4 B5 B6]. constructor; try congruence.
  - intros p. specialize (A1 p). specialize (B1 p). destruct (nodes s !! p), (nodes s' !! p), (nodes s'' !! p); try done. by eapply relived_trans.
  - by eapply seen_trans.
  - intros p. by rewrite B6.
Qed.

Lemma calm_same s s' : calm s s' -> same_blocks (nodes s) (nodes s').
Proof. intros Hc p. pose proof (cm_nodes _ _ Hc p). destruct (nodes s !! p), (nodes s' !! p); try done. by apply relived_same. Qed.

Lemma calm_look s s' p n' : calm s s' -> nodes s' !! p = Some n' -> exists n, nodes s !! p = Some n /\ relived n n'.
Proof. intros Hc E. pose proof (cm_nodes _ _ Hc p) as Hp. rewrite E in Hp. destruct (nodes s !! p) as [n|]; [by exists n|done]. Qed.

Lemma calm_look' s s' p n : calm s s' -> nodes s !! p = Some n -> exists n', nodes s' !! p = Some n' /\ relived n n'.
Proof. intros Hc E. pose proof (cm_nodes _ _ Hc p) as Hp. rewrite E in Hp. destruct (nodes s' !! p) as [n'|]; [by exists n'|done]. Qed.

Lemma calm_edge s s' p b : calm s s' -> edge (nodes s') p b = edge (nodes s) p b.
Proof.
  intros Hc. unfold edge. pose proof (cm_nodes _ _ Hc p) as Hp. destruct (nodes s !! p) as [n|], (nodes s' !! p) as [n'|]; try done.
  simpl. by rewrite (netlike_clink n n' b (relived_netlike _ _ Hp)).
Qed.

(** The links survive a change of [alive]. *)
Lemma calm_net x s s' : calm s s' -> net_ok x s -> net_ok x s'.
Proof.
  intros Hc (Hl & Hr & Hcode). pose proof (calm_same _ _ Hc) as Hs. split; [|split].
  - constructor.
    + intros p n' b q E Er. destruct (calm_look _ _ _ _ Hc E) as (n & E0 & Hrl). rewrite (netlike_clink _ _ b (relived_netlike _ _ Hrl)) in *.
      destruct (lk_fwd _ Hl p n b q E0 Er) as (m & F1 & F2 & F3 & F4). destruct (calm_look' _ _ _ _ Hc F1) as (m' & G1 & Hm).
      exists m'. destruct (relived_netlike _ _ Hm) as (-> & _ & _ & _ & _ & ->). done.
    + intros q m' p b E Hin. destruct (calm_look _ _ _ _ Hc E) as (m & E0 & Hrl). destruct (relived_netlike _ _ Hrl) as (_&_&_&_&_&Eb).
      rewrite Eb in Hin. destruct (lk_bwd _ Hl q m p b E0 Hin) as (n & F1 & F2). destruct (calm_look' _ _ _ _ Hc F1) as (n' & G1 & Hn).
      exists n'. by rewrite (netlike_clink _ _ b (relived_netlike _ _ Hn)).
    + intros q m' E. destruct (calm_look _ _ _ _ Hc E) as (m & E0 & Hrl). destruct (relived_netlike _ _ Hrl) as (_&_&_&_&_&->).
      by eapply lk_nodup.
  - by eapply regions_same.
  - rewrite (cm_code _ _ Hc). eapply code_same; [exact Hs| |exact Hcode]. intros p n n' b E E'.
    destruct (calm_look _ _ _ _ Hc E') as (n0 & E0 & Hrl). rewrite E in E0. injection E0 as <-.
    by rewrite (netlike_clink _ _ b (relived_netlike _ _ Hrl)).
Qed.

Lemma same_key_of s s' p : same_blocks (nodes s) (nodes s') -> key_of s' p = key_of s p.
Proof using Type.
  intros Hs. unfold key_of. specialize (Hs p). destruct (nodes s !! p), (nodes s' !! p); try done. simpl. by rewrite (proj1 Hs).
Qed.

Lemma block_ok_same k n n' : same_block n n' -> block_ok k n -> block_ok k n'.
Proof using Type. intros (E1&E0&_&E2&E3&_&_&E4&_) []. constructor; rewrite ?E1, ?E0, ?E2, ?E3, ?E4; done. Qed.

(** Lookups keep the invariant. *)
Lemma calm_ok s s' T x : calm s s' -> trees_ok s T x -> fh_ok (key_of s) (CollectTree s') T -> trees_ok s' T x.
Proof.
  intros Hc Hs Hf. pose proof (calm_same _ _ Hc) as Hsm. constructor.
  - eapply calm_net; [exact Hc|apply Hs].
  - intros Hu p b. rewrite (calm_edge _ _ _ _ Hc). by apply (tr_off _ _ _ Hs).
  - eapply fh_ok_ext; [|exact Hf]. intros k p _. by apply same_key_of.
  - intros k p E. destruct (tr_node _ _ _ Hs k p E) as (n & En & Hb). destruct (same_blocks_look' _ _ _ _ Hsm En) as (n' & En' & Hbb).
    exists n'. split; [done|]. by eapply block_ok_same.
  - intros p n' E Hx. destruct (same_blocks_look _ _ _ _ Hsm E) as (n & En & _). by eapply (tr_dom _ _ _ Hs).
  - eapply seen_ok; [apply Hc|apply Hs].
  - intros a Ha. rewrite (proj2 (seen_view _ _ a (cm_seen _ _ Hc))). by apply (tr_starts _ _ _ Hs).
  - intros a Ha. rewrite (proj1 (seen_view _ _ a (cm_seen _ _ Hc))). rewrite (tr_marked _ _ _ Hs a Ha). split.
    + intros (k & p & n & E1 & E2 & E3). destruct (same_blocks_look' _ _ _ _ Hsm E2) as (n' & F1 & F2). exists k, p, n'.
      destruct F2 as (_&_&_&->&_). done.
    + intros (k & p & n' & E1 & E2 & E3). destruct (same_blocks_look _ _ _ _ Hsm E2) as (n & F1 & F2). exists k, p, n.
      destruct F2 as (_&_&_&F2&_). rewrite F2 in E3. done.
  - intros k k' p p' n n' E1 E2 E3 E4 Hk. destruct (same_blocks_look _ _ _ _ Hsm E3) as (m & F1 & (_&_&_&->&_)).
    destruct (same_blocks_look _ _ _ _ Hsm E4) as (m' & F2 & _). by eapply (tr_disj _ _ _ Hs k k' p p' m m').
  - intros p n' E. destruct (same_blocks_look _ _ _ _ Hsm E) as (n & E0 & (_&_&->&_)). rewrite (cm_bufs _ _ Hc). by eapply (tr_bufs _ _ _ Hs).
Qed.

(** ** [FindTree] *)

Lemma FindTree_spec s T x k :
  trees_ok s T x -> wp (FindTree k) s (fun r s' => r = T !! u32 k /\ calm s s' /\ trees_ok s' T x).
Proof.
  intros Hs. unfold FindTree. wp_step. wp_step. wp_step. apply wp_zoom. eapply wp_mono; [apply fh_find_spec, Hs|].
  intros r c (-> & Hf & He). cbn beta. set (s1 := s <| CollectTree := c |>).
  assert (calm s s1) as Hc1.
  { constructor; try done; [|apply seen_refl, Hs]. intros p. unfold s1. cbn [nodes upd]. destruct (nodes s !! p); [apply relived_refl|done]. }
  assert (trees_ok s1 T x) as Hs1 by (by eapply calm_ok). destruct (T !! u32 k) as [p|] eqn:Et; [|wp_step; done].
  destruct (tr_node _ _ _ Hs (u32 k) p Et) as (n & En & Hb).
  wp_step. eapply (wp_deref_node _ n); [done|]. cbn beta. wp_step. wp_step.
  { pose proof (rg_node _ (proj1 (proj2 (tr_net _ _ _ Hs))) p n En) as (Ha & _). unfold truth. by destruct (Z.eqb_spec (n_addr n) 0). }
  wp_step. apply wp_set_node; [by exists n|]. wp_step. split; [done|].
  match goal with |- calm _ ?t /\ _ => set (s2 := t) end.
  assert (calm s1 s2) as Hc2.
  { constructor; try done; [|apply seen_refl, Hs]. intros q. unfold s2, s1. cbn [nodes upd]. destruct (decide (p = q)) as [<-|Hq].
    - rewrite lookup_alter_eq, En. simpl. by destruct n.
    - rewrite lookup_alter_ne by done. destruct (nodes s !! q); [apply relived_refl|done]. }
  split; [by eapply calm_trans|]. eapply calm_ok; [exact Hc2|done|]. eapply fh_ok_ext; [|exact Hf]. done.
Qed.

(** A query of the marks. *)
Lemma wp_marks_finds {A} (c : M (marks G) A) s T x (P : A -> Prop) :
  trees_ok s T x -> finds c (tmarks s) P -> wp (on_marks c) s (fun r s' => P r /\ calm s s' /\ trees_ok s' T x).
Proof.
  intros Hs Hc. apply wp_zoom. eapply wp_mono; [exact Hc|]. intros r t [HP Hss]. split; [done|].
  assert (calm s (s <| tmarks := t |>)) as Hcm.
  { constructor; try done. intros p. cbn [nodes upd]. destruct (nodes s !! p); [apply relived_refl|done]. }
  split; [done|]. eapply calm_ok; [exact Hcm|done|]. apply Hs.
Qed.

Lemma i32_u32 k : 0 <= k < 2 ^ 32 -> u32 (i32 k) = k.
Proof using Type. intros Hk. unfold i32, u32. rewrite Zminus_mod_idemp_l. replace (k + 2 ^ 31 - 2 ^ 31) with k by lia. by apply Z.mod_small. Qed.

(** The node that covers [a], or else the first one that starts in the range. *)
Definition node_from s T (a l : Z) (covered : bool) (r : option Z) : Prop :=
  match r with
  | None => covered = false /\ no_start (tmarks s) a (a + l)
  | Some p => exists k n, T !! k = Some p /\ nodes s !! p = Some n /\
      if covered then k <= a < k + seqlen n else a <= k < a + l /\ no_start (tmarks s) a k
  end.

Lemma node_from_calm s s' T a l c r : calm s s' -> node_from s T a l c r -> node_from s' T a l c r.
Proof.
  intros Hc. assert (forall lo hi, no_start (tmarks s) lo hi -> no_start (tmarks s') lo hi) as Hn.
  { intros lo hi Hn y Hy. rewrite (proj2 (seen_view _ _ y (cm_seen _ _ Hc))). by apply Hn. }
  destruct r as [p|]; simpl; [|intros [E1 E2]; split; [done|by apply Hn]]. intros (k & n & E1 & E2 & E3). destruct (calm_look' _ _ _ _ Hc E2) as (n' & E4 & Hr).
  exists k, n'. split; [done|]. split; [done|]. assert (seqlen n' = seqlen n) as -> by (by rewrite Hr).
  destruct c; [done|]. destruct E3 as [E5 E6]. split; [done|by apply Hn].
Qed.

Lemma find_node_spec s T x a l :
  trees_ok s T x -> 0 <= a -> 0 < l -> a + l <= TREE_END + 2 ^ 16 ->
  wp (find_node a l) s (fun r s' => node_from s' T a l false r /\ calm s s' /\ trees_ok s' T x).
Proof.
  intros Hs Ha Hl Hend. unfold TREE_END in Hend. unfold find_node. wp_step.
  eapply wp_mono; [eapply wp_marks_finds; [exact Hs|apply m_findnode_finds; [apply Hs|done|done|unfold ADDR_END; lia]]|].
  intros k s1 (Hk & Hc1 & Hs1). cbn beta. destruct Hk as [[-> Hno]|(Hk & Hst & Hno)].
  - rewrite Z.eqb_refl. wp_step. split; [|done]. split; [done|]. intros y Hy. rewrite (proj2 (seen_view _ _ y (cm_seen _ _ Hc1))). by apply Hno.
  - replace (k =? -1) with false by (symmetry; apply Z.eqb_neq; lia). wp_step.
    eapply wp_mono; [by apply FindTree_spec|]. intros r s2 (-> & Hc2 & Hs2). cbn beta. rewrite i32_u32 by lia.
    apply (tr_starts _ _ _ Hs) in Hst as [p Ep]; [|lia]. rewrite Ep. wp_step. split; [|split; [by eapply calm_trans|done]].
    apply (node_from_calm s); [by eapply calm_trans|]. destruct (tr_node _ _ _ Hs k p Ep) as (n & En & Hb). exists k, n. done.
Qed.

Lemma find_node_start_spec s T x a l :
  trees_ok s T x -> 0 <= a -> 0 < l -> a + l <= TREE_END + 2 ^ 16 ->
  wp (find_node_start a l) s (fun r s' => node_from s' T a l (marked (tmarks s) a) r /\ calm s s' /\ trees_ok s' T x).
Proof.
  intros Hs Ha Hl Hend. unfold find_node_start. wp_step.
  eapply wp_mono; [eapply wp_marks_finds; [exact Hs|apply m_findnodestart_finds; [apply Hs|done|]]|].
  { intros Hm. by eapply tree_block. }
  intros r s1 (Hr & Hc1 & Hs1). cbn beta. destruct (marked (tmarks s) a) eqn:Em.
  - destruct Hr as (Hra & Hst & Hno). destruct (proj1 (tr_marked _ _ _ Hs a Ha) Em) as (k & p & n & Et & En & Hk).
    pose proof (tree_key _ _ _ _ _ _ Hs Et En) as Hb. pose proof (bo_low _ _ Hb) as Hlow.
    assert (r = k) as ->.
    { assert (k <= r) as Hkr.
      { destruct (Z.le_gt_cases k r); [done|]. assert (starts (tmarks s) k = true) as Hsk by (apply (tr_starts _ _ _ Hs); [done|by exists p]).
        rewrite Hno in Hsk; [done|lia]. }
      destruct (Z.eq_dec k r); [done|]. apply (tr_starts _ _ _ Hs) in Hst as [p' Ep']; [|lia].
      destruct (tr_node _ _ _ Hs r p' Ep') as (n' & En' & _).
      pose proof (tr_disj _ _ _ Hs k r p p' n n' Et Ep' En En' ltac:(lia)). lia. }
    replace (k =? -1) with false by (symmetry; apply Z.eqb_neq; lia). wp_step.
    eapply wp_mono; [by apply FindTree_spec|]. intros r s2 (-> & Hc2 & Hs2). cbn beta. unfold TREE_END in Hend. rewrite i32_u32 by lia.
    rewrite Et. wp_step. split; [|split; [by eapply calm_trans|done]]. apply (node_from_calm s); [by eapply calm_trans|]. by exists k, n.
  - rewrite Hr, Z.eqb_refl. eapply wp_mono; [by apply find_node_spec|]. intros r' s2 (Hn & Hc2 & Hs2).
    split; [done|]. split; [by eapply calm_trans|done].
Qed.

End inv.
