(* ===== verification/TreesRemove.v ===== *)
(** * The tree of translated blocks: removing nodes *)

From stdpp Require Import base numbers list gmap.
From Stdlib Require Import ZArith Lia.
From S2P Require Import Prelude Machine SimCpu SimMem Marks MarksInv MarksMark MarksFind Fhmap Trees TreesLinks TreesInv.

Local Open Scope Z_scope.

Implicit Types (N : gmap Z TNode) (T : gmap Z Z) (n : TNode).

Section remove.
Context {G : Type} `{CodeMemLaws G}.
Context (UseLinker : bool).
Implicit Types s : trees G.
#[local] Set Default Proof Using "Type*".

Abbreviation trees_ok := (trees_ok UseLinker).

(** The node [g] of the block at [k] is gone, with its links and its marks. *)
Record node_removed (k g : Z) n s s' : Prop := {
  nr_nodes p : nodes s' !! p = if decide (p = g) then None else cut_node (around g (nodes s)) p <$> nodes s !! p;
  nr_marks : block_removed (tmarks s) k (seqlen n) (tmarks s');
  nr_code i : (forall p n b, nodes s !! p = Some n -> edge (nodes s) p b <> None -> i <> slot b n) -> code s' i = code s i;
  nr_bufs : bufs s' = bufs s;
  nr_broken : BrokenCodePtr s' = BrokenCodePtr s;
}.

Lemma in_block_spec k len a : in_range k len a = true <-> k <= a < k + len.
Proof using Type. unfold in_range. zbool; simpl; split; (done || lia). Qed.

(** A node without links can be deleted from the net. *)
Lemma net_delete s g n c :
  net_ok (Some g) s -> nodes s !! g = Some n -> bkr n = [] -> l_ref (clink_t n) = None -> l_ref (clink_nt n) = None ->
  net_ok None (s <| nodes ::= delete g |> <| CollectTree := c |>).
Proof.
  intros (Hl & Hr & Hc) En Hb Ht Hnt.
  assert (forall p m b, nodes s !! p = Some m -> l_ref (clink b m) <> Some g) as Hno.
  { intros p m b Em Er. destruct (lk_fwd _ Hl _ _ _ _ Em Er) as (n' & E1 & _ & Hin & _). rewrite En in E1. injection E1 as <-.
    rewrite Hb in Hin. by apply elem_of_nil in Hin. }
  assert (forall p m, delete g (nodes s) !! p = Some m -> p <> g /\ nodes s !! p = Some m) as Hdel.
  { intros p m E. apply lookup_delete_Some in E as [E1 E2]. done. }
  split; [|split]; cbn [nodes code upd].
  - constructor.
    + intros p m b q E Er. apply Hdel in E as [Hp E]. destruct (lk_fwd _ Hl _ _ _ _ E Er) as (m' & F1 & F2 & F3 & F4). exists m'.
      split; [|done]. rewrite lookup_delete_ne; [done|]. intros <-. exact (Hno p m b E Er).
    + intros q m p b E Hin. apply Hdel in E as [Hq E]. destruct (lk_bwd _ Hl _ _ _ _ E Hin) as (m' & F1 & F2). exists m'. split; [|done].
      rewrite lookup_delete_ne; [done|]. intros <-. rewrite En in F1. injection F1 as <-. destruct b; simpl in F2; congruence.
    + intros q m E. apply Hdel in E as [_ E]. by eapply lk_nodup.
  - constructor.
    + intros p m E. apply Hdel in E as [_ E]. by eapply rg_node.
    + intros p p' m m' E E'. apply Hdel in E as [_ E]. apply Hdel in E' as [_ E']. by eapply rg_disj.
  - intros p m b E _ Hlink. apply Hdel in E as [Hp E]. destruct (Hc p m b E) as (H1 & H2 & H3); [congruence|done|].
    split; [done|]. split; [done|]. destruct (l_ref (clink b m)) as [q|] eqn:Er; [|done]. destruct H3 as (H3 & m' & F1 & F2). split; [done|].
    exists m'. split; [|done]. rewrite lookup_delete_ne; [done|]. intros <-. exact (Hno p m b E Er).
Qed.

Lemma avltr_delete_spec g k n s T :
  fh_ok (key_of s) (CollectTree s) T -> T !! k = Some g -> nodes s !! g = Some n -> (forall k', T !! k' = Some g -> k' = k) ->
  wp (avltr_delete g) s (fun _ s' => exists c, s' = s <| nodes ::= delete g |> <| CollectTree := c |> /\
    fh_ok (key_of s') c (delete k T)).
Proof.
  intros Hf Et En Hinj. unfold avltr_delete. wp_step. apply wp_zoom. eapply wp_mono; [by eapply fh_del_spec|].
  intros [] c [Hf' _]. cbn beta. wp_step. eapply (wp_deref_node _ n); [done|]. cbn beta. wp_step.
  eexists. split; [reflexivity|]. eapply (fh_ok_ext (key_of s)).
  - intros k' p E. apply lookup_delete_Some in E as [Hk E]. unfold key_of. cbn [nodes upd]. rewrite lookup_delete_ne; [done|].
    intros <-. apply Hk. symmetry. by apply Hinj.
  - eapply fh_ok_ents; [..|exact Hf']; [done|done|]. intros k' p E. apply lookup_delete_Some in E as [Hk E]. cbn [bs ents upd CollectTree].
    rewrite lookup_delete_ne; [done|]. intros <-. apply Hk. symmetry. by apply Hinj.
Qed.

(** The block of [k] has its map, also where it crosses into the next megabyte. *)
Lemma block_maps s T x k g n :
  trees_ok s T x -> T !! k = Some g -> nodes s !! g = Some n ->
  is_Some (map_of (tmarks s) k) /\ forall a, k < a <= k + seqlen n -> offset a = 0 -> is_Some (map_of (tmarks s) a).
Proof.
  intros Hs Et En. pose proof (tree_key _ _ _ _ _ _ _ Hs Et En) as Hb. pose proof (bo_low _ _ Hb). pose proof (bo_len _ _ Hb).
  assert (forall a, k <= a < k + seqlen n -> is_Some (map_of (tmarks s) a)) as Hm.
  { intros a Ha. apply marked_has. apply (tr_marked _ _ _ _ Hs); [lia|]. by exists k, g, n. }
  split; [apply Hm; lia|]. intros a Ha Hoff. apply Hm. destruct (Z.eq_dec a (k + seqlen n)) as [->|]; [|lia]. by destruct (bo_edge _ _ Hb).
Qed.

(** The invariant without the node: [s2] is [s] after unmarking, unlinking and deleting. *)
Lemma removed_ok s T x k g n s' :
  trees_ok s T x -> x = None \/ x = Some g -> T !! k = Some g -> nodes s !! g = Some n ->
  node_removed k g n s s' -> net_ok None s' -> fh_ok (key_of s') (CollectTree s') (delete k T) ->
  trees_ok s' (delete k T) None.
Proof.
  intros Hs Hx Et En Hrm Hnet Hf. pose proof (tree_key _ _ _ _ _ _ _ Hs Et En) as Hb. pose proof (bo_low _ _ Hb). pose proof (bo_len _ _ Hb).
  pose proof (nr_marks _ _ _ _ _ Hrm) as Hbr.
  assert (forall p n', nodes s' !! p = Some n' -> p <> g /\ exists n0, nodes s !! p = Some n0 /\ same_block n0 n') as Hlook.
  { intros p n' E. rewrite (nr_nodes _ _ _ _ _ Hrm) in E. case_decide as Ep; [done|]. split; [done|].
    destruct (nodes s !! p) as [n0|]; [|done]. exists n0. split; [done|]. assert (n' = cut_node (around g (nodes s)) p n0) as -> by (by injection E).
    apply same_block_cut. }
  assert (forall p n0, p <> g -> nodes s !! p = Some n0 -> exists n', nodes s' !! p = Some n' /\ same_block n0 n') as Hlook'.
  { intros p n0 Hp E. rewrite (nr_nodes _ _ _ _ _ Hrm), decide_False, E by done. eexists. split; [done|apply same_block_cut]. }
  assert (forall k' p, T !! k' = Some p -> k' <> k -> p <> g) as Hother.
  { intros k' p E Hk ->. apply Hk. by eapply tree_inj. }
  constructor.
  - done.
  - intros Hu p b. unfold edge. rewrite (nr_nodes _ _ _ _ _ Hrm). case_decide; [done|]. pose proof (tr_off _ _ _ _ Hs Hu p b) as He.
    unfold edge in He. destruct (nodes s !! p) as [m|]; [|done]. simpl in *. rewrite clink_cut, cut_link_ref, He. by destruct (around _ _ _ _).
  - done.
  - intros k' p E. apply lookup_delete_Some in E as [Hk E]. destruct (tr_node _ _ _ _ Hs k' p E) as (m & Em & Hbm).
    destruct (Hlook' p m) as (m' & E1 & E2); [by eapply Hother|done|]. exists m'. split; [done|]. by eapply block_ok_same.
  - intros p n' E _. destruct (Hlook p n' E) as (Hp & n0 & E0 & _). destruct (tr_dom _ _ _ _ Hs p n0 E0) as [k' Ek].
    { destruct Hx as [->| ->]; congruence. }
    exists k'. rewrite lookup_delete_ne; [done|]. intros <-. congruence.
  - apply (br_ok _ _ _ _ Hbr).
  - intros a Ha. rewrite (br_starts _ _ _ _ Hbr a Ha). destruct (decide (a = k)) as [->|Hne].
    + rewrite (proj2 (in_block_spec k (seqlen n) k)) by lia. simpl. rewrite lookup_delete_eq. split; [done|by intros []].
    + rewrite lookup_delete_ne by done. rewrite <- (tr_starts _ _ _ _ Hs a Ha). destruct (in_range k (seqlen n) a) eqn:Ein; [|done].
      apply in_block_spec in Ein. simpl. split; [done|]. intros Hst. apply (tr_starts _ _ _ _ Hs a Ha) in Hst as [p Ep].
      destruct (tr_node _ _ _ _ Hs a p Ep) as (m & Em & _). pose proof (tr_disj _ _ _ _ Hs k a g p n m Et Ep En Em). lia.
  - intros a Ha. rewrite (br_marked _ _ _ _ Hbr a Ha). split.
    + intros E. apply andb_prop in E as [Ein Em]. apply (tr_marked _ _ _ _ Hs a Ha) in Em as (k' & p & m & E1 & E2 & E3).
      assert (k' <> k) as Hk. { intros ->. assert (m = n) as -> by congruence. rewrite (proj2 (in_block_spec k (seqlen n) a)) in Ein by done. done. }
      destruct (Hlook' p m) as (m' & F1 & (_&_&_&F2&_)); [by eapply Hother|done|]. exists k', p, m'. rewrite F2.
      split; [by rewrite lookup_delete_ne|done].
    + intros (k' & p & m' & E1 & E2 & E3). apply lookup_delete_Some in E1 as [Hk E1]. destruct (Hlook p m' E2) as (Hp & m & F1 & (_&_&_&F2&_)).
      rewrite F2 in E3. apply andb_true_intro. split; [|apply (tr_marked _ _ _ _ Hs a Ha); by exists k', p, m].
      destruct (in_range k (seqlen n) a) eqn:Ein; [|done]. apply in_block_spec in Ein. destruct (Z.lt_trichotomy k k') as [Hlt|[->|Hlt]]; [|done|].
      * pose proof (tr_disj _ _ _ _ Hs k k' g p n m Et E1 En F1 Hlt). lia.
      * pose proof (tr_disj _ _ _ _ Hs k' k p g m n E1 Et F1 En Hlt). lia.
  - intros k1 k2 p1 p2 m1 m2 E1 E2 F1 F2 Hk. apply lookup_delete_Some in E1 as [_ E1]. apply lookup_delete_Some in E2 as [_ E2].
    destruct (Hlook _ _ F1) as (_ & n1 & G1 & (_&_&_&->&_)). destruct (Hlook _ _ F2) as (_ & n2 & G2 & _).
    by eapply (tr_disj _ _ _ _ Hs k1 k2 p1 p2 n1 n2).
  - intros p m' E. destruct (Hlook p m' E) as (_ & m & F1 & (_&_&->&_)). rewrite (nr_bufs _ _ _ _ _ Hrm). by eapply (tr_bufs _ _ _ _ Hs).
Qed.

Lemma RemoveNode_unlocked_spec s T x k g n :
  trees_ok s T x -> x = None \/ x = Some g -> T !! k = Some g -> nodes s !! g = Some n ->
  wp (RemoveNode_unlocked UseLinker g) s (fun _ s' => trees_ok s' (delete k T) None /\ node_removed k g n s s').
Proof.
  intros Hs Hx Et En. pose proof (tree_key _ _ _ _ _ _ _ Hs Et En) as Hb. pose proof (bo_low _ _ Hb) as Hlow. pose proof (bo_len _ _ Hb) as Hlen.
  pose proof (bo_high _ _ Hb) as Hhigh. destruct (block_maps _ _ _ _ _ _ Hs Et En) as [Hmap Hmaps].
  unfold RemoveNode_unlocked. wp_step. eapply (wp_deref_node _ n); [done|]. cbn beta. rewrite (block_key _ _ Hb).
  wp_step. apply wp_zoom. eapply wp_mono.
  { apply unmarkpage_correct; [apply Hs|by eapply tree_blocks|done|lia|unfold TREE_END, HOST_PAGE_SIZE, ADDR_END in *; lia|done|done]. }
  intros r t [-> Hbr]. cbn beta. set (s1 := s <| tmarks := t |>). assert (net_ok x s1) as Hnet1 by apply Hs.
  assert (net_ok (Some g) s1) as Hnet1'.
  { destruct Hnet1 as (N1 & N2 & N3). split; [done|]. split; [done|]. intros p m b E1 E2. refine (N3 p m b E1 _). destruct Hx as [->| ->]; congruence. }
  wp_step. eapply wp_mono; [apply (NodeUnlinker_spec _ (Some g) g s1 n); [apply Hs|done|done]|]. intros [] s2 U. cbn beta.
  destruct (around_clean _ _ _ _ _ Hnet1' En U) as (n2 & E2 & B2 & K2 & T2 & NT2). pose proof (net_unlinked _ _ _ _ Hnet1' U) as Hnet2.
  wp_step. eapply (wp_deref_node _ n2); [done|]. cbn beta. wp_step. wp_step.
  { rewrite K2, T2, NT2. pose proof (rg_node _ (proj1 (proj2 Hnet2)) g n2 E2) as (Ha & _). unfold truth. by destruct (Z.eqb_spec (n_addr n2) 0). }
  pose proof (ul_rest _ _ _ _ U) as (R1 & R2 & R3 & R4).
  assert (forall p, key_of s2 p = key_of s p) as Hkey.
  { intros p. apply (same_key_of s1 s2). by eapply same_blocks_cut, U. }
  eapply wp_mono; [apply (avltr_delete_spec g k n2 s2 T); [|done|done|intros k' E'; by eapply tree_inj]|].
  { rewrite R1. eapply fh_ok_ext; [|apply Hs]. intros k' p _. apply Hkey. }
  intros [] s' (c & -> & Hf). assert (node_removed k g n s (s2 <| nodes ::= delete g |> <| CollectTree := c |>)) as Hrm.
  { constructor; cbn [nodes tmarks code bufs BrokenCodePtr upd].
    - intros p. case_decide as Ep; [subst; apply lookup_delete_eq|]. rewrite lookup_delete_ne by done. by rewrite (ul_cut _ _ _ _ U).
    - rewrite R2. exact Hbr.
    - intros i Hi. by rewrite (ul_slots _ _ _ _ U).
    - by rewrite R3.
    - by rewrite R4. }
  split; [|done]. eapply removed_ok; [exact Hs|exact Hx|exact Et|exact En|exact Hrm| |exact Hf]. by eapply net_delete.
Qed.

Lemma RemoveNode_spec s T k g n :
  trees_ok s T None -> T !! k = Some g -> nodes s !! g = Some n ->
  wp (RemoveNode UseLinker g) s (fun _ s' => trees_ok s' (delete k T) None /\
    block_removed (tmarks s) k (seqlen n) (tmarks s') /\ bufs s' = bufs s ∖ {[n_addr n]} /\ nodes s' !! g = None /\
    (forall p b, edge (nodes s') p b = if bool_decide (p = g) || bool_decide (edge (nodes s) p b = Some g) then None else edge (nodes s) p b)).
Proof.
  intros Hs Et En. unfold RemoveNode. wp_step. eapply (wp_deref_node _ n); [done|]. cbn beta. wp_step.
  eapply wp_mono; [apply (RemoveNode_unlocked_spec s T None k g n); [done|by left|done|done]|]. intros [] s1 [Hs1 Hrm]. cbn beta.
  unfold FreeGenCodeBuf. pose proof (rg_node _ (proj1 (proj2 (tr_net _ _ _ _ Hs))) g n En) as (Ha & _).
  replace (n_addr n =? 0) with false by (symmetry; by apply Z.eqb_neq). wp_step. wp_step.
  rewrite (nr_bufs _ _ _ _ _ Hrm), bool_decide_eq_true_2 by exact (tr_bufs _ _ _ _ Hs g n En). wp_step. split; [|split; [apply Hrm|split; [|split]]].
  - destruct Hs1. constructor; try done. intros p m E. cbn [bufs upd]. apply elem_of_difference. split; [by eapply tr_bufs|].
    rewrite elem_of_singleton. cbn [nodes upd] in E. rewrite (nr_nodes _ _ _ _ _ Hrm) in E. case_decide as Ep; [done|].
    destruct (nodes s !! p) as [m0|] eqn:Em; [|done]. injection E as <-. change (n_addr m0 <> n_addr n).
    pose proof (proj1 (proj2 (TreesInv.tr_net _ _ _ _ Hs))) as Hr. pose proof (rg_node _ Hr p m0 Em) as (_ & ? & _).
    pose proof (rg_node _ Hr g n En) as (_ & ? & _). destruct (rg_disj _ Hr p g m0 n Em En Ep); lia.
  - cbn [bufs upd]. by rewrite (nr_bufs _ _ _ _ _ Hrm).
  - cbn [nodes upd]. by rewrite (nr_nodes _ _ _ _ _ Hrm), decide_True.
  - intros p b. cbn [nodes upd]. unfold edge at 1. rewrite (nr_nodes _ _ _ _ _ Hrm). case_decide as Ep.
    + by rewrite bool_decide_eq_true_2.
    + rewrite (bool_decide_eq_false_2 (p = g)) by done. cbn [orb]. unfold edge. destruct (nodes s !! p) as [m|] eqn:Em; cbn [fmap option_fmap option_map mbind option_bind].
      * rewrite clink_cut, cut_link_ref. unfold around, to, edge. rewrite Em. cbn [mbind option_bind]. by replace (p =? g) with false by (symmetry; by apply Z.eqb_neq).
      * by case_bool_decide.
Qed.

(** C10: RemoveNode frees the node and its buffer, removes its marks, unlinks
    every exit to and from it, in the code as in the descriptors, and keeps
    all other links and nodes. *)
Theorem RemoveNode_correct s T k g n :
  trees_ok s T None -> T !! k = Some g -> nodes s !! g = Some n ->
  wp (RemoveNode UseLinker g) s (fun _ s' => trees_ok s' (delete k T) None /\
    block_removed (tmarks s) k (seqlen n) (tmarks s') /\ bufs s' = bufs s ∖ {[n_addr n]} /\ nodes s' !! g = None /\
    (forall p b, edge (nodes s') p b = if bool_decide (p = g) || bool_decide (edge (nodes s) p b = Some g) then None else edge (nodes s) p b)).
Proof. apply RemoveNode_spec. Qed.

End remove.
