(* ===== verification/TreesSpec.v ===== *)
(** * The tree of translated blocks: invalidation and creation *)

From stdpp Require Import base numbers list gmap.
From Stdlib Require Import ZArith Lia.
From S2P Require Import Prelude Machine SimCpu SimMem Marks MarksInv MarksQuery MarksMark MarksFind Fhmap Trees TreesLinks TreesInv TreesRemove.

Local Open Scope Z_scope.

Implicit Types (N : gmap Z TNode) (T : gmap Z Z) (n : TNode).

(** ** The block being run *)

(** The code at [eip] belongs to the node. *)
Definition runs (eip : Z) n : bool := truth eip && in_code eip (n_addr n) (n_addr n + n_len n).

Definition tail_exit n (A : Addr2Pc) : IGen := MkIGen JMP_TAILCODE MPATCH (u32 (key n + dnpc A)) 0 0 0 0 0.

(** The instruction after [eip], where the run is to stop: none after the last. *)
Definition next_insn (eip : Z) n : option Addr2Pc :=
  match meta n !! Z.to_nat (seqnum n - 1) with
  | Some L =>
    if in_code eip (n_addr n) (n_addr n + daddr L)
    then find (fun A => eip - n_addr n <=? daddr A) (take (Z.to_nat (seqnum n)) (meta n)) else None
  | None => None
  end.

(** [eip] is before the last instruction, after which the run ends anyway. *)
Definition stoppable (eip : Z) n : Prop := exists L, meta n !! pred (Z.to_nat (seqnum n)) = Some L /\ eip < n_addr n + daddr L.

Definition broken (eip : Z) n (c : Z -> IGen) : Z -> IGen :=
  match next_insn eip n with Some A => patched c (n_addr n + daddr A) (tail_exit n A) | None => c end.

Lemma broken_same eip n n' c c' i : same_block n n' -> c' i = c i -> broken eip n' c' i = broken eip n c i.
Proof.
  intros (K&_&A&_&Q&_&_&M&_) E. unfold broken, next_insn, tail_exit. rewrite K, A, Q, M.
  destruct (meta n !! _) as [L|]; [|done]. destruct (in_code _ _ _); [|done]. destruct (find _ _) as [B|]; [|done].
  unfold patched. destruct (Z.eqb_spec i (n_addr n + daddr B)) as [->|]; [|done]. by rewrite E.
Qed.

Section spec.
Context {G : Type} `{CodeMemLaws G}.
Context (UseLinker : bool).
Implicit Types s : trees G.
#[local] Set Default Proof Using "Type*".

Abbreviation trees_ok := (trees_ok UseLinker).

Definition with_code s (c : Z -> IGen) : trees G := s <| code := c |>.

(** Code in the buffer of [g] is not code of another node. *)
Lemma net_patch s g n i ig :
  net_ok None s -> nodes s !! g = Some n -> n_addr n <= i < n_addr n + n_len n ->
  net_ok (Some g) (with_code s (patched (code s) i ig)).
Proof.
  intros (Hl & Hr & Hc) En Hi. split; [done|]. split; [done|]. intros p m b Em Hx Hlink. cbn [code nodes with_code upd] in *.
  rewrite patched_other; [by refine (Hc p m b Em _ Hlink)|]. intros Es. destruct (rg_node _ Hr p m Em) as (_ & _ & R & _). specialize (R b). unfold slot in Es.
  destruct (rg_disj _ Hr p g m n Em En); [congruence| |]; lia.
Qed.

Lemma trees_exempt s T g : trees_ok s T None -> trees_ok s T (Some g).
Proof.
  intros []. constructor; try done.
  - destruct tr_net as (N1 & N2 & N3). split; [done|]. split; [done|]. intros p n b E _. by refine (N3 p n b E _).
  - intros p n E _. by eapply tr_dom.
Qed.

Lemma trees_code s T g c : trees_ok s T None -> net_ok (Some g) (with_code s c) -> trees_ok (with_code s c) T (Some g).
Proof. intros Hs Hn. destruct (trees_exempt _ _ g Hs). by constructor. Qed.

Lemma BreakNodeHook_spec s T k g n eip :
  trees_ok s T None -> T !! k = Some g -> nodes s !! g = Some n -> eip <> 0 ->
  wp (BreakNodeHook g eip) s (fun p s' => p = (if runs eip n then Some (n_addr n) else None) /\
    trees_ok s' T (Some g) /\ s' = if runs eip n then with_code s (broken eip n (code s)) else s).
Proof.
  intros Hs Et En Hne. pose proof (tree_key _ _ _ _ _ _ _ Hs Et En) as Hb. unfold BreakNodeHook. wp_step. eapply (wp_deref_node _ n); [done|].
  cbn beta. unfold runs. replace (truth eip) with true by (unfold truth; by destruct (Z.eqb_spec eip 0)). cbn [andb].
  destruct (in_code eip (n_addr n) (n_addr n + n_len n)) eqn:Ein; [|wp_step; split; [done|split; [by apply trees_exempt|done]]].
  destruct (bo_meta _ _ Hb) as [Hsq Hlen]. destruct (lookup_lt_is_Some_2 (meta n) (Z.to_nat (seqnum n - 1))) as [L EL]; [lia|].
  rewrite EL. unfold broken, next_insn. rewrite EL. wp_step.
  assert (with_code s (code s) = s) as Eid by (by destruct s).
  destruct (in_code eip (n_addr n) (n_addr n + daddr L)).
  2:{ wp_step. wp_step. split; [done|]. rewrite Eid. split; [by apply trees_exempt|done]. }
  unfold BreakNode. wp_step. replace (eip =? 0) with false by (symmetry; by apply Z.eqb_neq). wp_step. wp_step. eapply (wp_deref_node _ n); [done|].
  cbn beta zeta. destruct (find _ _) as [A|] eqn:Ef.
  - unfold CodeGen_sim. wp_step. wp_step. split; [done|]. split; [|done]. apply (trees_code s T g); [done|].
    apply (net_patch s g n); [apply Hs|done|]. apply find_some in Ef as [Ef _]. apply list_elem_of_In in Ef.
    pose proof (proj1 (Forall_forall _ _) (bo_code _ _ Hb) A Ef) as Hd. cbn beta in Hd. lia.
  - wp_step. wp_step. split; [done|]. rewrite Eid. split; [by apply trees_exempt|done].
Qed.

(** ** One node of the loop *)

(** Freeing the buffer of a node that is gone. *)
Lemma free_ok s T b : trees_ok s T None -> (forall p n, nodes s !! p = Some n -> n_addr n <> b) ->
  trees_ok (s <| bufs ::= fun l => l ∖ {[b]} |>) T None.
Proof.
  intros [] Hb. constructor; try done. intros p n E. cbn [bufs upd]. apply elem_of_difference. split; [by eapply tr_bufs|].
  rewrite elem_of_singleton. by eapply Hb.
Qed.

Record dropped (eip rc k g : Z) n s T s' (rc' : Z) : Prop := {
  dr_ok : trees_ok s' (delete k T) None;
  dr_rc : rc' = if runs eip n then n_addr n else rc;
  dr_nodes p n' : p <> g -> nodes s !! p = Some n' -> exists n'', nodes s' !! p = Some n'' /\ same_block n' n'';
  dr_bytes a : guest_byte (guest (tmarks s')) a = guest_byte (guest (tmarks s)) a;
  dr_copy a : 0 <= a -> marked (tmarks s') a = true -> marked (tmarks s) a = true /\ copy_of (tmarks s') a = copy_of (tmarks s) a;
  dr_keep : copies_sub (tmarks s) (tmarks s');
  dr_bufs : bufs s' = if runs eip n then bufs s else bufs s ∖ {[n_addr n]};
  dr_code i : (forall p n b, nodes s !! p = Some n -> i <> slot b n) ->
    code s' i = (if runs eip n then broken eip n (code s) else code s) i;
  dr_broken : BrokenCodePtr s' = BrokenCodePtr s;
}.

Lemma drop_node_spec s T k g n eip rc :
  trees_ok s T None -> T !! k = Some g -> nodes s !! g = Some n ->
  wp (let! p := if eip =? 0 then ret None else BreakNodeHook g eip in
      RemoveNode_unlocked UseLinker g ;;
      match p with Some p => ret p | None => FreeGenCodeBuf (n_addr n) ;; ret rc end) s
    (fun rc' s' => dropped eip rc k g n s T s' rc').
Proof.
  intros Hs Et En. wp_step.
  eapply (wp_mono _ _ (fun p s' => p = (if runs eip n then Some (n_addr n) else None) /\ trees_ok s' T (Some g) /\
    s' = if runs eip n then with_code s (broken eip n (code s)) else s)).
  { destruct (Z.eqb_spec eip 0) as [->|Hne]; [|by eapply BreakNodeHook_spec]. wp_step. split; [done|]. split; [by apply trees_exempt|done]. }
  intros p s1 (-> & Hs1 & Es1). cbn beta. assert (nodes s1 = nodes s /\ tmarks s1 = tmarks s /\ bufs s1 = bufs s /\ BrokenCodePtr s1 = BrokenCodePtr s /\
    code s1 = if runs eip n then broken eip n (code s) else code s) as (E1 & E2 & E3 & E4 & E5) by (rewrite Es1; by destruct (runs eip n)).
  clear Es1. wp_step. eapply wp_mono; [apply (RemoveNode_unlocked_spec UseLinker s1 T (Some g) k g n); [done|by right|done|by rewrite E1]|].
  intros [] s2 [Hs2 Hrm]. cbn beta.
  assert (forall p n', nodes s2 !! p = Some n' -> n_addr n' <> n_addr n) as Haddr.
  { intros p n' E. rewrite (nr_nodes _ _ _ _ _ Hrm) in E. case_decide as Ep; [done|]. rewrite E1 in E.
    destruct (nodes s !! p) as [m|] eqn:Em; [|done]. injection E as <-.
    change (n_addr m <> n_addr n). pose proof (proj1 (proj2 (tr_net _ _ _ _ Hs))) as Hr. pose proof (rg_node _ Hr p m Em) as (_ & ? & _).
    pose proof (rg_node _ Hr g n En) as (_ & ? & _). destruct (rg_disj _ Hr p g m n Em En Ep); lia. }
  assert (forall s3 rc', nodes s3 = nodes s2 -> tmarks s3 = tmarks s2 -> code s3 = code s2 -> BrokenCodePtr s3 = BrokenCodePtr s2 ->
    trees_ok s3 (delete k T) None -> rc' = (if runs eip n then n_addr n else rc) -> bufs s3 = (if runs eip n then bufs s else bufs s ∖ {[n_addr n]}) ->
    dropped eip rc k g n s T s3 rc') as Hdone.
  { intros s3 rc' F1 F2 F3 F4 Hok Hrc Hbufs. constructor; [done|done|..].
    - intros p n' Hp E. rewrite F1, (nr_nodes _ _ _ _ _ Hrm), decide_False, E1, E by done. eexists. split; [done|apply same_block_cut].
    - intros a. rewrite F2, (br_bytes _ _ _ _ (nr_marks _ _ _ _ _ Hrm)). by rewrite E2.
    - intros a Ha Hm. rewrite F2 in *. pose proof (nr_marks _ _ _ _ _ Hrm) as Hbr. rewrite E2 in Hbr. split.
      + rewrite (br_marked _ _ _ _ Hbr a Ha) in Hm. by apply andb_prop in Hm as [_ Hm].
      + apply (br_copy _ _ _ _ Hbr a Ha). right. by exists a.
    - rewrite F2, <- E2. exact (br_keep _ _ _ _ (nr_marks _ _ _ _ _ Hrm)).
    - done.
    - intros i Hi. rewrite F3, (nr_code _ _ _ _ _ Hrm); [by rewrite E5|]. intros p m b Em _. rewrite E1 in Em. exact (Hi p m b Em).
    - rewrite F4, (nr_broken _ _ _ _ _ Hrm). exact E4. }
  pose proof (nr_bufs _ _ _ _ _ Hrm) as Eb. rewrite E3 in Eb. destruct (runs eip n).
  - wp_step. by apply Hdone.
  - wp_step. unfold FreeGenCodeBuf. pose proof (rg_node _ (proj1 (proj2 (tr_net _ _ _ _ Hs))) g n En) as (Ha & _).
    replace (n_addr n =? 0) with false by (symmetry; by apply Z.eqb_neq). wp_step. wp_step. rewrite Eb, bool_decide_eq_true_2 by exact (tr_bufs _ _ _ _ Hs g n En).
    wp_step. wp_step. apply Hdone; try done; [by apply free_ok|]. cbn [bufs upd]. by rewrite Eb.
Qed.

(** ** The loop *)

(** [n] reaches into the range. *)
Definition hits (al ah k : Z) n : Prop := al < k + seqlen n /\ k < ah.

(** The blocks of [T] at [k], gone or left. *)
Definition gone s T T' (k p : Z) n : Prop := T !! k = Some p /\ nodes s !! p = Some n /\ T' !! k = None.

(** From [s], [T] to [s'], [T'] by removing blocks that hit the range. *)
Record invalidated (al ah eip : Z) s T s' T' (rc : Z) : Prop := {
  iv_ok : trees_ok s' T' None;
  iv_sub k p : T' !! k = Some p -> T !! k = Some p;
  iv_gone k p n : gone s T T' k p n -> hits al ah k n;
  iv_left k p n : T' !! k = Some p -> nodes s !! p = Some n -> exists n', nodes s' !! p = Some n' /\ same_block n n';
  iv_bytes a : guest_byte (guest (tmarks s')) a = guest_byte (guest (tmarks s)) a;
  iv_copy a : 0 <= a -> marked (tmarks s') a = true -> marked (tmarks s) a = true /\ copy_of (tmarks s') a = copy_of (tmarks s) a;
  iv_keep : copies_sub (tmarks s) (tmarks s');
  iv_rc : (rc = 0 /\ forall k p n, gone s T T' k p n -> runs eip n = false) \/
    (exists k p n, gone s T T' k p n /\ runs eip n = true /\ rc = n_addr n);
  iv_bufs b : b ∈ bufs s' <-> b ∈ bufs s /\ ((forall k p n, gone s T T' k p n -> n_addr n <> b) \/ b = rc);
  iv_code i : (forall p n b, nodes s !! p = Some n -> i <> slot b n) ->
    (forall k p n, gone s T T' k p n -> runs eip n = false) /\ code s' i = code s i \/
    exists k p n, gone s T T' k p n /\ runs eip n = true /\ code s' i = broken eip n (code s) i;
  iv_broken : BrokenCodePtr s' = BrokenCodePtr s;
}.

Lemma runs_range eip n : runs eip n = true -> n_addr n <= eip < n_addr n + n_len n.
Proof using Type. unfold runs, in_code. intros E. apply andb_prop in E as [_ E]. revert E. zbool; simpl; (done || lia). Qed.

Lemma runs_one s p q n m eip : regions_ok (nodes s) -> nodes s !! p = Some n -> nodes s !! q = Some m ->
  runs eip n = true -> runs eip m = true -> p = q.
Proof using Type.
  intros Hr En Em Hn Hm. apply runs_range in Hn. apply runs_range in Hm. destruct (Z.eq_dec p q); [done|].
  destruct (rg_disj _ Hr p q n m En Em); [done|lia..].
Qed.

Lemma invalidated_refl al ah eip s T : trees_ok s T None -> invalidated al ah eip s T s T 0.
Proof.
  intros Hs. assert (forall k p n, ~ gone s T T k p n) as Hno by (intros k p n (E1 & _ & E2); congruence).
  constructor; try done.
  - intros k p n Hg. by apply Hno in Hg.
  - intros k p n _ E. exists n. split; [done|apply same_block_refl].
  - left. split; [done|]. intros k p n Hg. by apply Hno in Hg.
  - intros b. split; [|by intros [? _]]. intros Hb. split; [done|]. left. intros k p n Hg. by apply Hno in Hg.
  - intros i _. left. split; [|done]. intros k p n Hg. by apply Hno in Hg.
Qed.

(** One more node. *)
Lemma invalidated_step al ah eip s T s1 T1 rc k g n0 n s2 rc2 :
  trees_ok s T None -> invalidated al ah eip s T s1 T1 rc -> T1 !! k = Some g -> nodes s !! g = Some n0 -> nodes s1 !! g = Some n -> same_block n0 n ->
  hits al ah k n0 -> dropped eip rc k g n s1 T1 s2 rc2 -> invalidated al ah eip s T s2 (delete k T1) rc2.
Proof.
  intros Hs Hi Et En0 En Hsame Hhit Hd. pose proof Hsame as (_&El&Ea&_).
  assert (runs eip n = runs eip n0) as Eruns by (unfold runs; by rewrite El, Ea).
  assert (T !! k = Some g) as Etk by (by apply (iv_sub _ _ _ _ _ _ _ _ Hi)).
  assert (forall k' p m, gone s T (delete k T1) k' p m <-> gone s T T1 k' p m \/ (k' = k /\ p = g /\ m = n0)) as Hgone.
  { intros k' p m. unfold gone. rewrite lookup_delete_None. split.
    - intros (E1 & E2 & [<-|E3]); [right|by left]. assert (p = g) as -> by congruence. split; [done|]. split; [done|congruence].
    - intros [(E1 & E2 & E3)|(-> & -> & ->)]; [split; [done|split; [done|by right]]|split; [done|split; [done|by left]]]. }
  pose proof (proj1 (proj2 (tr_net _ _ _ _ Hs))) as Hreg.
  assert (forall k' p m, gone s T T1 k' p m -> p <> g) as Hne.
  { intros k' p m (E1 & E2 & E3) ->. assert (k' = k) as -> by (by eapply (tree_inj _ s T)). congruence. }
  constructor.
  - apply Hd.
  - intros k' p E. apply lookup_delete_Some in E as [_ E]. by apply (iv_sub _ _ _ _ _ _ _ _ Hi).
  - intros k' p m Hg. apply Hgone in Hg as [Hg|(-> & -> & ->)]; [by eapply (iv_gone _ _ _ _ _ _ _ _ Hi)|done].
  - intros k' p m E Em. apply lookup_delete_Some in E as [Hk E]. destruct (iv_left _ _ _ _ _ _ _ _ Hi k' p m E Em) as (m1 & E1 & B1).
    destruct (dr_nodes _ _ _ _ _ _ _ _ _ Hd p m1) as (m2 & E2 & B2); [|done|].
    { intros ->. apply Hk. symmetry. eapply (tree_inj _ s1 T1); [apply Hi|exact E|exact Et]. }
    exists m2. split; [done|by eapply same_block_trans].
  - intros a. rewrite (dr_bytes _ _ _ _ _ _ _ _ _ Hd). apply Hi.
  - intros a Ha Hm. destruct (dr_copy _ _ _ _ _ _ _ _ _ Hd a Ha Hm) as [Hm1 ->]. by apply (iv_copy _ _ _ _ _ _ _ _ Hi).
  - eapply copies_sub_trans; [apply Hi|apply Hd].
  - rewrite (dr_rc _ _ _ _ _ _ _ _ _ Hd), Eruns. destruct (runs eip n0) eqn:Er.
    + right. exists k, g, n0. split; [apply Hgone; by right|]. split; [done|congruence].
    + destruct (iv_rc _ _ _ _ _ _ _ _ Hi) as [[-> Hno]|(k' & p & m & F1 & F2 & F3)].
      * left. split; [done|]. intros k' p m Hg. apply Hgone in Hg as [Hg|(-> & -> & ->)]; [by eapply Hno|done].
      * right. exists k', p, m. split; [apply Hgone; by left|done].
  - intros b. rewrite (dr_bufs _ _ _ _ _ _ _ _ _ Hd), (dr_rc _ _ _ _ _ _ _ _ _ Hd), Eruns.
    assert (n_addr n0 <> 0 /\ 0 < n_len n0) as [Hna Hnl] by (destruct (rg_node _ Hreg g n0 En0) as (? & ? & _); done).
    assert (forall k' p m, gone s T T1 k' p m -> n_addr m <> n_addr n0) as Hdiff.
    { intros k' p m Hg. pose proof Hg as (_ & Em & _). pose proof (rg_node _ Hreg p m Em) as (_ & ? & _).
      destruct (rg_disj _ Hreg p g m n0 Em En0); [by eapply Hne|lia..]. }
    assert (n_addr n0 ∈ bufs s) as Hin by (by eapply (tr_bufs _ _ _ _ Hs)).
    destruct (runs eip n0) eqn:Er.
    + rewrite (iv_bufs _ _ _ _ _ _ _ _ Hi). rewrite Ea. split.
      * intros [Hb [Hno|Hrc]]; (split; [done|]).
        -- destruct (Z.eq_dec b (n_addr n0)) as [->|Hbn]; [by right|]. left. intros k' p m Hg.
           apply Hgone in Hg as [Hg|(-> & -> & ->)]; [by eapply Hno|congruence].
        -- subst b. destruct (iv_rc _ _ _ _ _ _ _ _ Hi) as [[Hz _]|(k' & p & m & F1 & F2 & F3)].
           ++ left. rewrite Hz. intros k' p m Hg. by apply (rg_node _ Hreg p), Hg.
           ++ exfalso. eapply Hne; [exact F1|]. eapply runs_one; [exact Hreg|apply F1|exact En0|done|done].
      * intros [Hb Hor]. split; [done|]. left. intros k' p m Hg. destruct Hor as [Hno| ->]; [apply (Hno k' p m), Hgone; by left|by eapply Hdiff].
    + rewrite elem_of_difference, elem_of_singleton, (iv_bufs _ _ _ _ _ _ _ _ Hi), Ea. split.
      * intros [[Hb Hor] Hbn]. split; [done|]. destruct Hor as [Hno| ->]; [left|by right]. intros k' p m Hg.
        apply Hgone in Hg as [Hg|(-> & -> & ->)]; [by eapply Hno|congruence].
      * intros [Hb [Hno| ->]].
        -- split; [|intros ->; apply (Hno k g n0); [apply Hgone; by right|done]]. split; [done|]. left. intros k' p m Hg. apply (Hno k' p m), Hgone. by left.
        -- split; [split; [done|by right]|]. intros E. destruct (iv_rc _ _ _ _ _ _ _ _ Hi) as [[Hz _]|(k' & p & m & F1 & F2 & F3)]; [congruence|].
           eapply Hdiff; [exact F1|congruence].
  - intros i Hi'. pose proof (dr_code _ _ _ _ _ _ _ _ _ Hd i) as Hc. rewrite Eruns in Hc.
    assert (forall p n1 b, nodes s1 !! p = Some n1 -> i <> slot b n1) as Hslots.
    { intros p n1 b E. destruct (tr_dom _ _ _ _ (iv_ok _ _ _ _ _ _ _ _ Hi) p n1 E) as [k' Ek]; [done|].
      destruct (tr_node _ _ _ _ Hs k' p) as (m & Em & _); [by apply (iv_sub _ _ _ _ _ _ _ _ Hi)|].
      destruct (iv_left _ _ _ _ _ _ _ _ Hi k' p m Ek Em) as (m' & F1 & F2). assert (n1 = m') as -> by congruence.
      rewrite (slot_same b m m' F2). exact (Hi' p m b Em). }
    specialize (Hc Hslots). destruct (iv_code _ _ _ _ _ _ _ _ Hi i Hi') as [[Hno Ec]|(k' & p & m & F1 & F2 & F3)].
    + destruct (runs eip n0) eqn:Er.
      * right. exists k, g, n0. split; [apply Hgone; by right|]. split; [done|]. rewrite Hc. by apply broken_same.
      * left. split; [|by rewrite Hc]. intros k' p m Hg. apply Hgone in Hg as [Hg|(-> & -> & ->)]; [by eapply Hno|done].
    + right. exists k', p, m. split; [apply Hgone; by left|]. split; [done|]. rewrite Hc.
      destruct (runs eip n0) eqn:Er; [|done]. exfalso. eapply Hne; [exact F1|]. eapply runs_one; [exact Hreg|apply F1|exact En0|done|done].
  - rewrite (dr_broken _ _ _ _ _ _ _ _ _ Hd). apply Hi.
Qed.

(** A lookup in between. *)
Lemma invalidated_calm al ah eip s T s1 T1 rc s2 :
  trees_ok s T None -> invalidated al ah eip s T s1 T1 rc -> calm s1 s2 -> trees_ok s2 T1 None -> invalidated al ah eip s T s2 T1 rc.
Proof.
  intros Hs [] Hc Hok. constructor; try done.
  - intros k p n E En. destruct (iv_left0 k p n E En) as (n1 & E1 & B1). destruct (calm_look' _ _ _ _ Hc E1) as (n2 & E2 & R2).
    exists n2. split; [done|]. eapply same_block_trans; [exact B1|by apply relived_same].
  - intros a. rewrite <- iv_bytes0. by destruct (cm_seen _ _ Hc) as (l & -> & _).
  - intros a Ha. rewrite (proj1 (seen_view _ _ a (cm_seen _ _ Hc))), (same_copy _ _ (seen_same _ _ (cm_seen _ _ Hc))). by apply iv_copy0.
  - eapply copies_sub_trans; [exact iv_keep0|]. apply copies_sub_seen, Hc.
  - intros b. by rewrite (cm_bufs _ _ Hc).
  - intros i Hi. rewrite (cm_code _ _ Hc). by apply iv_code0.
  - by rewrite (cm_broken _ _ Hc).
Qed.

(** Blocks below [pos] no longer reach into the range. *)
Definition cleared al ah s1 T1 (pos : Z) : Prop :=
  forall k p n, T1 !! k = Some p -> nodes s1 !! p = Some n -> k < pos -> ~ hits al ah k n.

Lemma cleared_calm al ah s1 T1 pos s2 : calm s1 s2 -> cleared al ah s1 T1 pos -> cleared al ah s2 T1 pos.
Proof.
  intros Hc Hcl k p n2 E E2. destruct (calm_look _ _ _ _ Hc E2) as (n1 & E1 & R). unfold hits.
  assert (seqlen n2 = seqlen n1) as -> by (by rewrite R). by eapply Hcl.
Qed.

(** The node at hand: the first that may reach into the range. *)
Definition at_node al ah s1 T1 (g : option Z) : Prop :=
  match g with
  | None => cleared al ah s1 T1 ah
  | Some p => exists k n, T1 !! k = Some p /\ nodes s1 !! p = Some n /\ al < k + seqlen n /\ cleared al ah s1 T1 k
  end.

(** The next node after the one at [k], which is gone. *)
Lemma next_node al ah s1 T1 k g n s2 T2 s3 r :
  trees_ok s1 T1 None -> T1 !! k = Some g -> nodes s1 !! g = Some n -> cleared al ah s1 T1 k -> al < k + seqlen n ->
  T2 = delete k T1 ->
  (forall p m, p <> g -> nodes s1 !! p = Some m -> exists m', nodes s2 !! p = Some m' /\ same_block m m') ->
  calm s2 s3 -> trees_ok s3 T2 None -> k + seqlen n < ah -> node_from s3 T2 (k + seqlen n) (ah - (k + seqlen n)) false r ->
  at_node al ah s3 T2 r.
Proof.
  intros Hs1 Et En Hcl Hhit -> Hn Hc Hs3 Hlt Hr. pose proof (tree_key _ _ _ _ _ _ _ Hs1 Et En) as Hb. pose proof (bo_low _ _ Hb) as Hlow.
  pose proof (bo_len _ _ Hb) as Hlen.
  assert (cleared al ah s3 (delete k T1) (k + seqlen n)) as Hcl3.
  { intros k' p n3 E E3 Hk'. apply lookup_delete_Some in E as [Hkk E]. destruct (tr_node _ _ _ _ Hs1 k' p E) as (m & Em & Hbm).
    assert (p <> g) as Hp by (intros ->; apply Hkk; by eapply (tree_inj _ s1 T1)).
    destruct (Hn p m Hp Em) as (m' & E2 & (_&_&_&Q1&_)). destruct (calm_look' _ _ _ _ Hc E2) as (m3 & E3' & R).
    assert (n3 = m3) as -> by congruence. assert (seqlen m3 = seqlen m) as Eq by (by rewrite R). unfold hits. rewrite Eq.
    destruct (Z.lt_ge_cases k' k); [by eapply Hcl|]. pose proof (tr_disj _ _ _ _ Hs1 k k' g p n m Et E En Em). lia. }
  assert (forall k' p n3, delete k T1 !! k' = Some p -> no_start (tmarks s3) (k + seqlen n) k' -> nodes s3 !! p = Some n3 ->
    cleared al ah s3 (delete k T1) k') as Hext.
  { intros k' p n3 E Hno E3 k2 p2 n2 F1 F2 Hk2. destruct (Z.lt_ge_cases k2 (k + seqlen n)); [by eapply Hcl3|].
    exfalso. assert (starts (tmarks s3) k2 = true) as Hst by (apply (tr_starts _ _ _ _ Hs3); [lia|by exists p2]). rewrite Hno in Hst; [done|lia]. }
  destruct r as [p|]; simpl in Hr.
  - destruct Hr as (k' & n' & E1 & E2 & E3 & E4). exists k', n'. split; [done|]. split; [done|].
    pose proof (tree_key _ _ _ _ _ _ _ Hs3 E1 E2) as Hb'. pose proof (bo_len _ _ Hb'). split; [lia|by eapply Hext].
  - destruct Hr as [_ Hr]. replace (k + seqlen n + (ah - (k + seqlen n))) with ah in Hr by lia. intros k2 p2 n2 F1 F2 Hk2.
    destruct (Z.lt_ge_cases k2 (k + seqlen n)); [by eapply Hcl3|].
    exfalso. assert (starts (tmarks s3) k2 = true) as Hst by (apply (tr_starts _ _ _ _ Hs3); [lia|by exists p2]). rewrite Hr in Hst; [done|lia].
Qed.

Lemma invalidate_loop_spec al ah eip s T : trees_ok s T None -> 0 <= al < ah -> ah <= TREE_END + 2 ^ 16 ->
  forall fuel g s1 T1 rc,
  invalidated al ah eip s T s1 T1 rc -> at_node al ah s1 T1 g ->
  (forall p k, g = Some p -> T1 !! k = Some p -> (Z.to_nat (ah - Z.max al k) < fuel)%nat) -> (0 < fuel)%nat ->
  wp (invalidate_loop UseLinker fuel g al ah eip rc) s1 (fun rc' s' =>
    exists T', invalidated al ah eip s T s' T' rc' /\ cleared al ah s' T' ah).
Proof.
  intros Hs Hal Hah. unfold TREE_END in Hah. induction fuel as [|fuel IH]; [lia|]. intros g s1 T1 rc Hi Hat Hfuel _. cbn [invalidate_loop].
  destruct g as [g|]; [|wp_step; by exists T1]. destruct Hat as (k & n & Et & En & Hhit & Hcl).
  pose proof (iv_ok _ _ _ _ _ _ _ _ Hi) as Hs1. pose proof (tree_key _ _ _ _ _ _ _ Hs1 Et En) as Hb.
  pose proof (bo_key _ _ Hb) as Ek. pose proof (bo_low _ _ Hb) as Hlow. pose proof (bo_len _ _ Hb) as Hlen. pose proof (bo_high _ _ Hb) as Hhigh.
  unfold TREE_END in Hhigh. specialize (Hfuel g k eq_refl Et).
  wp_step. eapply (wp_deref_node _ n); [done|]. cbn beta zeta. rewrite Ek. destruct (Z.leb_spec ah k).
  { wp_step. exists T1. split; [done|]. intros k' p' n' E1 E2 Hk'. destruct (Z.lt_ge_cases k' k); [by eapply Hcl|]. unfold hits. lia. }
  rewrite i32_small by lia. wp_step. wp_step.
  { pose proof (rg_node _ (proj1 (proj2 (tr_net _ _ _ _ Hs1))) g n En) as (Ha & _). unfold truth. by destruct (Z.eqb_spec (n_addr n) 0). }
  assert (range_intersect k (k + seqlen n) al ah = true) as -> by (unfold range_intersect; zbool; simpl; (done || lia)).
  destruct (tr_node _ _ _ _ Hs k g) as (n0 & En0 & Hb0); [by apply (iv_sub _ _ _ _ _ _ _ _ Hi)|].
  destruct (iv_left _ _ _ _ _ _ _ _ Hi k g n0 Et En0) as (n1 & En1 & Hsame). assert (n1 = n) as -> by congruence.
  wp_step. eapply wp_mono; [by apply (drop_node_spec s1 T1 k g n eip rc)|]. intros rc2 s2 Hd. cbn beta.
  assert (invalidated al ah eip s T s2 (delete k T1) rc2) as Hi2.
  { eapply invalidated_step; [exact Hs|exact Hi|exact Et|exact En0|exact En|exact Hsame| |exact Hd].
    split; [|done]. destruct Hsame as (_&_&_&<-&_). done. }
  destruct (Z.leb_spec ah (k + seqlen n)).
  { wp_step. exists (delete k T1). split; [done|]. intros k' p' n' E1 E2 Hk'. apply lookup_delete_Some in E1 as [Hkk E1].
    destruct (tr_node _ _ _ _ Hs1 k' p' E1) as (m & Em & Hbm).
    assert (p' <> g) as Hp by (intros ->; apply Hkk; by eapply (tree_inj _ s1 T1)).
    destruct (dr_nodes _ _ _ _ _ _ _ _ _ Hd p' m Hp Em) as (m' & E2' & (_&_&_&Q1&_)). assert (n' = m') as -> by congruence. unfold hits. rewrite Q1.
    destruct (Z.lt_ge_cases k' k); [by eapply Hcl|]. pose proof (tr_disj _ _ _ _ Hs1 k k' g p' n m Et E1 En Em). lia. }
  rewrite !u32_small by lia. wp_step.
  eapply wp_mono; [apply (find_node_spec UseLinker s2 (delete k T1) None); [apply Hd|lia|lia|unfold TREE_END; lia]|].
  intros r s3 (Hr & Hc & Hs3). cbn beta. apply (IH r s3 (delete k T1) rc2).
  - by eapply invalidated_calm.
  - eapply (next_node al ah s1 T1 k g n s2 (delete k T1) s3 r); try done. apply Hd.
  - intros p k' -> E'. destruct Hr as (k2 & n2 & F1 & F2 & F3 & _). assert (k' = k2) as -> by (by eapply (tree_inj _ s3 (delete k T1))). lia.
  - lia.
Qed.

(** What [DoInvalidateNodeRange] leaves: no block of the tree reaches into the
    range, and every other block is still there. *)
Record range_invalidated (al ah eip : Z) s T s' T' (rc : Z) : Prop := {
  ri_inv : invalidated al ah eip s T s' T' rc;
  ri_tree k p n : T !! k = Some p -> nodes s !! p = Some n -> T' !! k = None <-> hits al ah k n;
  ri_marks a : al <= a < ah -> marked (tmarks s') a = false;
}.

Lemma range_done al ah eip s T s' T' rc :
  trees_ok s T None -> 0 <= al -> invalidated al ah eip s T s' T' rc -> cleared al ah s' T' ah -> range_invalidated al ah eip s T s' T' rc.
Proof.
  intros Hs Hal Hi Hcl. constructor; [done|..].
  - intros k p n Et En. split; [intros E; by eapply (iv_gone _ _ _ _ _ _ _ _ Hi k p n)|]. intros Hh. destruct (T' !! k) as [p'|] eqn:E; [exfalso|done].
    assert (p' = p) as -> by (apply (iv_sub _ _ _ _ _ _ _ _ Hi) in E; congruence).
    destruct (iv_left _ _ _ _ _ _ _ _ Hi k p n E En) as (n' & E' & (_&_&_&Q&_)). apply (Hcl k p n' E E'); [apply Hh|].
    unfold hits in *. by rewrite Q.
  - intros a Ha. destruct (marked (tmarks s') a) eqn:Em; [exfalso|done]. pose proof (iv_ok _ _ _ _ _ _ _ _ Hi) as Hs'.
    apply (tr_marked _ _ _ _ Hs') in Em as (k & p & n & E1 & E2 & E3); [|lia].
    apply (Hcl k p n E1 E2); [lia|]. split; lia.
Qed.

Lemma DoInvalidateNodeRange_spec al len eip s T :
  trees_ok s T None -> 0 <= al -> 0 < len -> al + len <= TREE_END + 2 ^ 16 ->
  wp (DoInvalidateNodeRange UseLinker al len eip) s (fun rc s' => exists T', range_invalidated al (al + len) eip s T s' T' rc).
Proof.
  intros Hs Hal Hlen Hend. pose proof Hend as Hend'. unfold TREE_END in Hend. unfold DoInvalidateNodeRange. rewrite !u32_small, i32_small by lia.
  wp_step. eapply wp_mono; [by apply (find_node_start_spec UseLinker s T None)|]. intros g s1 (Hg & Hc & Hs1). cbn beta.
  assert (invalidated al (al + len) eip s T s1 T 0) as Hi by (eapply invalidated_calm; [done|by apply invalidated_refl|done|done]).
  assert (forall k, cleared al (al + len) s1 T k <-> (forall k' p n, T !! k' = Some p -> nodes s1 !! p = Some n -> k' < k -> k' + seqlen n <= al \/ al + len <= k')) as Hcl.
  { intros k. unfold cleared, hits. split; intros Hx k' p n E1 E2 E3; specialize (Hx k' p n E1 E2 E3); lia. }
  assert (at_node al (al + len) s1 T g) as Hat.
  { assert (forall k', marked (tmarks s) al = false -> no_start (tmarks s1) al k' -> cleared al (al + len) s1 T k') as Hnot.
    { intros k' Hm Hno. apply Hcl. intros k2 p2 n2 E1 E2 Hk2. destruct (Z.lt_ge_cases k2 al).
      - left. destruct (Z.le_gt_cases (k2 + seqlen n2) al); [done|]. exfalso. rewrite <- (proj1 (seen_view _ _ al (cm_seen _ _ Hc))) in Hm.
        assert (marked (tmarks s1) al = true); [|congruence]. apply (tr_marked _ _ _ _ Hs1 al Hal). exists k2, p2, n2. split; [done|]. split; [done|]. lia.
      - exfalso. assert (starts (tmarks s1) k2 = true) as Hst by (apply (tr_starts _ _ _ _ Hs1); [lia|by exists p2]). rewrite Hno in Hst; [done|lia]. }
    destruct g as [p|]; simpl in Hg.
    - destruct Hg as (k & n & E1 & E2 & E3). exists k, n. split; [done|]. split; [done|].
      pose proof (tree_key _ _ _ _ _ _ _ Hs1 E1 E2) as Hb. pose proof (bo_len _ _ Hb). destruct (marked (tmarks s) al) eqn:Em.
      + split; [lia|]. apply Hcl. intros k2 p2 n2 F1 F2 Hk2. left. pose proof (tr_disj _ _ _ _ Hs1 k2 k p2 p n2 n F1 E1 F2 E2 Hk2). lia.
      + destruct E3 as [E3 E4]. split; [lia|]. by apply Hnot.
    - destruct Hg as [Em Hno]. by apply Hnot. }
  eapply wp_mono; [apply (invalidate_loop_spec al (al + len) eip s T Hs ltac:(lia) Hend' _ g s1 T 0); [exact Hi|exact Hat| |lia]|].
  - intros p k _ _. lia.
  - intros rc s' (T' & Hi' & Hcl'). exists T'. by apply range_done.
Qed.

(** ** Theorems *)

(** C8: DoInvalidateNodeRange terminates and removes exactly the blocks that
    reach into the range with their marks, links and buffers, keeps all others
    and the memory, and keeps the buffer of the block that runs, which it
    returns. *)
Theorem invalidate_range_correct al len eip s T :
  trees_ok s T None -> 0 <= al -> 0 < len -> al + len <= TREE_END + 2 ^ 16 ->
  wp (DoInvalidateNodeRange UseLinker al len eip) s (fun rc s' => exists T', range_invalidated al (al + len) eip s T s' T' rc).
Proof. apply DoInvalidateNodeRange_spec. Qed.

(** The first instruction that starts at the fault or later. *)
Lemma next_insn_at eip k n i A B :
  block_ok k n -> (S i < Z.to_nat (seqnum n))%nat -> meta n !! i = Some A -> meta n !! S i = Some B ->
  daddr A < eip - n_addr n <= daddr B -> stoppable eip n -> next_insn eip n = Some B.
Proof using Type.
  intros Hb Hi EA EB Hr [L [EL HL]]. unfold next_insn. replace (Z.to_nat (seqnum n - 1)) with (pred (Z.to_nat (seqnum n))) by lia. rewrite EL.
  assert (0 <= daddr A < n_len n) as HA.
  { apply (proj1 (Forall_forall _ _) (bo_code _ _ Hb) A), list_elem_of_lookup. exists i. apply lookup_take_Some. split; [done|lia]. }
  unfold in_code. replace (_ && _) with true by (symmetry; apply andb_true_intro; split; [apply Z.leb_le|apply Z.ltb_lt]; lia).
  assert (forall l1 l2, Forall (fun x => daddr x < eip - n_addr n) l1 -> find (fun x => eip - n_addr n <=? daddr x) (l1 ++ B :: l2) = Some B) as Hfind.
  { intros l1 l2 Hl. induction Hl as [|x l1 Hx _ IH]; simpl; [by rewrite (proj2 (Z.leb_le _ _) (proj2 Hr))|].
    destruct (Z.leb_spec (eip - n_addr n) (daddr x)); [lia|done]. }
  assert (take (Z.to_nat (seqnum n)) (meta n) !! S i = Some B) as ET by (apply lookup_take_Some; split; [done|lia]).
  rewrite <- (take_drop_middle _ _ _ ET). apply Hfind. apply Forall_forall. intros x Hx. apply list_elem_of_lookup in Hx as [j Hj].
  apply lookup_take_Some in Hj as [Hj Hji]. apply lookup_take_Some in Hj as [Hj _]. pose proof (bo_order _ _ Hb j i x A ltac:(lia) Hj EA). lia.
Qed.

(** The end of the run frees the buffer it has kept. *)
Lemma exec_done_spec s p : BrokenCodePtr s = p -> p <> 0 -> p ∈ bufs s ->
  wp exec_done s (fun _ s' => s' = s <| bufs := bufs s ∖ {[p]} |> <| BrokenCodePtr := 0 |>).
Proof using Type.
  intros E Hp Hin. unfold exec_done, FreeGenCodeBuf. wp_step. wp_step. rewrite E. unfold truth. destruct (Z.eqb_spec p 0); [done|]. cbn [negb].
  wp_step. wp_step. wp_step. rewrite bool_decide_eq_true_2 by done. wp_step. wp_step. done.
Qed.


End spec.
