(* ===== verification/TreesAdd.v ===== *)
(** * The tree of translated blocks: adding and linking nodes *)

From stdpp Require Import base numbers list gmap.
From Stdlib Require Import ZArith Lia.
From S2P Require Import Prelude Machine SimCpu SimMem Marks MarksInv MarksProt MarksMark MarksFind Fhmap Trees TreesLinks TreesInv TreesRemove.

Local Open Scope Z_scope.

Implicit Types (N : gmap Z TNode) (T : gmap Z Z) (n : TNode).

Section add.
Context {G : Type} `{CodeMemLaws G}.
Context (UseLinker : bool) (junk : bytes).
Implicit Types s : trees G.
#[local] Set Default Proof Using "Type*".

Abbreviation trees_ok := (trees_ok UseLinker).

(** Only links have changed. *)
Lemma links_trees s s' T x :
  trees_ok s T x -> net_ok x s' -> linker_ok UseLinker s' -> same_blocks (nodes s) (nodes s') -> rest_same s s' -> trees_ok s' T x.
Proof.
  intros Hs Hnet Hoff Hsm (R1 & R2 & R3 & R4). constructor; [done|done|..].
  - rewrite R1. eapply fh_ok_ext; [|apply Hs]. intros k p _. by apply same_key_of.
  - intros k p E. destruct (tr_node _ _ _ _ Hs k p E) as (n & En & Hb). destruct (same_blocks_look' _ _ _ _ Hsm En) as (n' & En' & Hbb).
    exists n'. split; [done|]. by eapply block_ok_same.
  - intros p n' E Hx. destruct (same_blocks_look _ _ _ _ Hsm E) as (n & En & _). by eapply (tr_dom _ _ _ _ Hs).
  - rewrite R2. apply Hs.
  - intros a Ha. rewrite R2. by apply (tr_starts _ _ _ _ Hs).
  - intros a Ha. rewrite R2, (tr_marked _ _ _ _ Hs a Ha). split.
    + intros (k & p & n & E1 & E2 & E3). destruct (same_blocks_look' _ _ _ _ Hsm E2) as (n' & F1 & (_&_&_&F2&_)). exists k, p, n'. by rewrite F2.
    + intros (k & p & n' & E1 & E2 & E3). destruct (same_blocks_look _ _ _ _ Hsm E2) as (n & F1 & (_&_&_&F2&_)). exists k, p, n. by rewrite <- F2.
  - intros k k' p p' n n' E1 E2 E3 E4 Hk. destruct (same_blocks_look _ _ _ _ Hsm E3) as (m & F1 & (_&_&_&->&_)).
    destruct (same_blocks_look _ _ _ _ Hsm E4) as (m' & F2 & _). by eapply (tr_disj _ _ _ _ Hs k k' p p' m m').
  - intros p n' E. destruct (same_blocks_look _ _ _ _ Hsm E) as (n & E0 & (_&_&->&_)). rewrite R3. by eapply (tr_bufs _ _ _ _ Hs).
Qed.

(** Which exits are linked after [NodeLinker]. *)
Definition new_edge s (LG g : Z) (p : Z) (b : branch) : option Z :=
  match nodes s !! LG, nodes s !! g with
  | Some lg, Some n => if UseLinker && (p =? LG) && links_to b lg n then Some g else edge (nodes s) p b
  | _, _ => None
  end.

Definition may_link (b : branch) (lg n : TNode) : Prop := UseLinker = true /\ links_to b lg n = true.

Lemma NodeLinker_spec LG g s T lg n :
  trees_ok s T None -> LG <> 0 -> nodes s !! LG = Some lg -> nodes s !! g = Some n ->
  (forall b, links_to b lg n = true -> l_ref (clink b lg) = None) ->
  wp (NodeLinker UseLinker LG g) s (fun _ s' => trees_ok s' T None /\ same_blocks (nodes s) (nodes s') /\ rest_same s s' /\
    (forall p b, edge (nodes s') p b = new_edge s LG g p b) /\ (forall i, (forall b, may_link b lg n -> i <> slot b lg) -> code s' i = code s i)).
Proof.
  intros Hs HLG Elg En Hfree. unfold NodeLinker, new_edge. rewrite Elg, En. pose proof (tr_off _ _ _ _ Hs) as Hoff. unfold linker_ok in Hoff.
  replace (LG =? 0) with false by (symmetry; by apply Z.eqb_neq).
  destruct (UseLinker) eqn:Eu; cbn [negb andb].
  2:{ wp_step. split; [done|]. split; [apply same_blocks_refl|]. split; [done|]. by split. }
  eapply wp_mono; [eapply linknodes_spec; [apply Hs|exact Elg|exact En|exact Hfree]|]. intros [] s' [M1 M2 M3 M4 M5].
  split; [|split; [done|split; [done|split]]].
  - rewrite <- Eu. eapply links_trees; [rewrite Eu; exact Hs|done| |done|done]. intros Hu. congruence.
  - intros p b. by rewrite M4, Elg, En.
  - intros i Hi. apply (M5 lg n i Elg En). intros b Hto. by apply Hi.
Qed.

(** ** [close_node] *)

(** A node as [ProduceCode] makes it, for guest memory that has been fetched
    and holds no block. *)
Record fresh_node s T (g k : Z) n : Prop := {
  fr_node : nodes s !! g = Some n;
  fr_ptr : g <> 0;
  fr_block : block_ok k n;
  fr_out k' : T !! k' <> Some g;
  fr_ent : is_Some (ents (bs (CollectTree s)) !! g);
  fr_links : bkr n = [] /\ forall b, l_ref (clink b n) = None;
  fr_fetched : fetched_range (tmarks s) k (seqlen n);
  fr_free a : k <= a < k + seqlen n -> marked (tmarks s) a = false;
}.

Lemma fresh_none s T x g k n : trees_ok s T x -> fresh_node s T g k n -> T !! k = None.
Proof.
  intros Hs Hf. destruct (T !! k) as [p|] eqn:E; [exfalso|done]. destruct (tr_node _ _ _ _ Hs k p E) as (m & Em & Hb).
  pose proof (bo_len _ _ Hb). pose proof (bo_low _ _ Hb). pose proof (bo_len _ _ (fr_block _ _ _ _ _ Hf)).
  assert (marked (tmarks s) k = true) as E2; [|rewrite (fr_free _ _ _ _ _ Hf) in E2; [done|lia]].
  apply (tr_marked _ _ _ _ Hs); [done|]. exists k, p, m. split; [done|]. split; [done|]. lia.
Qed.

(** A change of [alive], [n_cs] and [n_mode]. *)
Definition dressed n n' : Prop := netlike n n' /\ seqlen n' = seqlen n /\ seqnum n' = seqnum n /\ meta n' = meta n.

Lemma dressed_block k n n' : dressed n n' -> block_ok k n -> block_ok k n'.
Proof using Type.
  intros ((E1&E2&_&_&_&_)&E3&E4&E5) []. constructor; rewrite ?E1, ?E2, ?E3, ?E4, ?E5; done.
Qed.

Lemma added_ok s T g k n n' c t :
  trees_ok s T (Some g) -> fresh_node s T g k n -> dressed n n' ->
  let s' := s <| nodes ::= insert g n' |> <| CollectTree := c |> <| tmarks := t |> in
  net_ok None s' -> fh_ok (key_of s) c (<[k := g]> T) -> block_added (tmarks s) k (seqlen n) t ->
  trees_ok s' (<[k := g]> T) None.
Proof.
  intros Hs Hf Hd s' Hnet Hfh Hba. pose proof (fr_node _ _ _ _ _ Hf) as En. pose proof (fresh_none _ _ _ _ _ _ Hs Hf) as Hk.
  pose proof (fr_block _ _ _ _ _ Hf) as Hb. pose proof (bo_low _ _ Hb) as Hlow. pose proof (bo_len _ _ Hb) as Hlen.
  pose proof (proj1 Hd) as Hnl. pose proof (proj1 (proj2 Hd)) as Esq.
  assert (forall p, p <> g -> nodes s' !! p = nodes s !! p) as Hother by (intros p Hp; apply lookup_insert_ne; congruence).
  assert (nodes s' !! g = Some n') as En' by apply lookup_insert_eq.
  assert (forall k' p, T !! k' = Some p -> p <> g) as Hne by (intros k' p E ->; by eapply (fr_out _ _ _ _ _ Hf)).
  assert (forall k' p m, T !! k' = Some p -> nodes s !! p = Some m -> k' + seqlen m <= k \/ k + seqlen n <= k') as Hdisj.
  { intros k' p m E1 E2. pose proof (tree_key _ _ _ _ _ _ _ Hs E1 E2) as Hb'. pose proof (bo_low _ _ Hb'). pose proof (bo_len _ _ Hb').
    destruct (Z.le_gt_cases (k' + seqlen m) k); [by left|]. destruct (Z.le_gt_cases (k + seqlen n) k'); [by right|]. exfalso.
    assert (marked (tmarks s) (Z.max k k') = true) as Hm.
    { apply (tr_marked _ _ _ _ Hs); [lia|]. exists k', p, m. split; [done|]. split; [done|]. lia. }
    rewrite (fr_free _ _ _ _ _ Hf) in Hm; [done|lia]. }
  constructor.
  - done.
  - intros Hu p b. unfold edge. destruct (decide (p = g)) as [->|Hp].
    + rewrite En'. simpl. rewrite (netlike_clink _ _ b Hnl). apply (fr_links _ _ _ _ _ Hf).
    + rewrite Hother by done. by apply (tr_off _ _ _ _ Hs).
  - eapply fh_ok_ext; [|exact Hfh]. intros k' p _. unfold key_of. destruct (decide (p = g)) as [->|Hp]; [|by rewrite Hother].
    rewrite En', En. simpl. by rewrite (proj1 Hnl).
  - intros k' p E. apply lookup_insert_Some in E as [[<- <-]|[Hkk E]].
    + exists n'. split; [done|by eapply dressed_block].
    + destruct (tr_node _ _ _ _ Hs k' p E) as (m & Em & Hbm). exists m. split; [|done]. rewrite Hother; [done|by eapply Hne].
  - intros p m E _. destruct (decide (p = g)) as [->|Hp]; [exists k; by rewrite lookup_insert_eq|].
    rewrite Hother in E by done. destruct (tr_dom _ _ _ _ Hs p m E) as [k' Ek]; [congruence|]. exists k'.
    rewrite lookup_insert_ne; [done|]. intros <-. congruence.
  - apply Hba.
  - intros a Ha. cbn [tmarks upd s']. rewrite (ba_starts _ _ _ _ Hba a Ha). destruct (Z.eqb_spec a k) as [->|Hak]; simpl.
    + rewrite lookup_insert_eq. split; [by eexists|done].
    + rewrite lookup_insert_ne by done. by apply (tr_starts _ _ _ _ Hs).
  - intros a Ha. cbn [tmarks upd s']. rewrite (ba_marked _ _ _ _ Hba a Ha), orb_true_iff, (in_block_spec k (seqlen n) a), (tr_marked _ _ _ _ Hs a Ha). split.
    + intros [Hin|(k' & p & m & E1 & E2 & E3)].
      * exists k, g, n'. rewrite lookup_insert_eq, Esq. done.
      * exists k', p, m. rewrite Hother by (by eapply Hne). rewrite lookup_insert_ne; [done|]. intros <-. congruence.
    + intros (k' & p & m & E1 & E2 & E3). apply lookup_insert_Some in E1 as [[<- <-]|[Hkk E1]].
      * left. assert (m = n') as -> by congruence. by rewrite <- Esq.
      * right. exists k', p, m. rewrite Hother in E2 by (by eapply Hne). done.
  - intros k1 k2 p1 p2 m1 m2 E1 E2 F1 F2 Hlt. apply lookup_insert_Some in E1 as [[<- <-]|[Hk1 E1]]; apply lookup_insert_Some in E2 as [[<- <-]|[Hk2 E2]].
    + lia.
    + assert (m1 = n') as -> by congruence. rewrite Esq. rewrite Hother in F2 by (by eapply Hne). pose proof (Hdisj k2 p2 m2 E2 F2).
      pose proof (bo_len _ _ (tree_key _ _ _ _ _ _ _ Hs E2 F2)). lia.
    + rewrite Hother in F1 by (by eapply Hne). pose proof (Hdisj k1 p1 m1 E1 F1). lia.
    + rewrite Hother in F1 by (by eapply Hne). rewrite Hother in F2 by (by eapply Hne). by eapply (tr_disj _ _ _ _ Hs k1 k2 p1 p2 m1 m2).
  - intros p m E. change (n_addr m ∈ bufs s). destruct (decide (p = g)) as [->|Hp].
    + assert (m = n') as -> by congruence. destruct Hnl as (_&_&->&_). by eapply (tr_bufs _ _ _ _ Hs).
    + rewrite Hother in E by done. by eapply (tr_bufs _ _ _ _ Hs).
Qed.

Lemma net_alter x s f p c t :
  (forall n, netlike n (f n)) -> net_ok x s -> net_ok x (s <| nodes ::= alter f p |> <| CollectTree := c |> <| tmarks := t |>).
Proof using Type.
  intros Hf (H1 & H2 & H3). split; [by apply links_netlike|]. split; [by apply regions_netlike|by apply code_netlike].
Qed.

Lemma alter_to_insert (f : TNode -> TNode) N p n : N !! p = Some n -> alter f p N = <[p := f n]> N.
Proof using Type.
  intros E. apply map_eq. intros q. destruct (decide (p = q)) as [<-|Hq].
  - by rewrite lookup_alter_eq, lookup_insert_eq, E.
  - by rewrite lookup_alter_ne, lookup_insert_ne.
Qed.

(** The node that [close_node] adds to the tree. *)
Definition closed (cs md : Z) n : TNode := n <| alive := NODELIFE |> <| n_cs := cs |> <| n_mode := md |>.

(** Its exits to itself are linked, others are not. *)
Definition self_edge (g cs md : Z) n (b : branch) : option Z :=
  if UseLinker && negb (has md MSSTP) && links_to b (closed cs md n) (closed cs md n) then Some g else None.

Record block_closed (g k cs md : Z) n s T s' : Prop := {
  bc_ok : trees_ok s' (<[k := g]> T) None;
  bc_marks : block_added (tmarks s) k (seqlen n) (tmarks s');
  bc_node : exists n', nodes s' !! g = Some n' /\ same_block (closed cs md n) n';
  bc_others p n' : p <> g -> nodes s !! p = Some n' -> exists n'', nodes s' !! p = Some n'' /\ same_block n' n'';
  bc_edge p b : edge (nodes s') p b = if decide (p = g) then self_edge g cs md n b else edge (nodes s) p b;
  bc_bufs : bufs s' = bufs s;
  bc_code i : (forall b, self_edge g cs md n b <> None -> i <> slot b n) -> code s' i = code s i;
}.

Lemma close_node_spec g k cs md n s T :
  trees_ok s T (Some g) -> net_ok None s -> fresh_node s T g k n ->
  wp (close_node UseLinker g cs md) s (fun _ s' => block_closed g k cs md n s T s').
Proof.
  intros Hs Hnet Hf. pose proof (fr_node _ _ _ _ _ Hf) as En. pose proof (fresh_none _ _ _ _ _ _ Hs Hf) as Hk.
  pose proof (fr_block _ _ _ _ _ Hf) as Hb. pose proof (bo_low _ _ Hb) as Hlow. pose proof (bo_len _ _ Hb) as Hlen.
  pose proof (bo_high _ _ Hb) as Hhigh. unfold TREE_END in Hhigh.
  set (f1 := fun m : TNode => m <| alive := NODELIFE |>). set (f2 := fun m : TNode => m <| n_cs := cs |>). set (f3 := fun m : TNode => m <| n_mode := md |>).
  set (N1 := alter f1 g (nodes s)). assert (N1 !! g = Some (f1 n)) as En1 by (unfold N1; by rewrite lookup_alter_eq, En).
  unfold close_node, Move2Tree, avltr_probe. wp_step. wp_step. apply wp_set_node; [by exists n|]. wp_step. wp_step. apply wp_zoom.
  set (s1 := s <| nodes ::= alter f1 g |>). assert (forall p, key_of s1 p = key_of s p) as Hkey.
  { intros p. unfold key_of, s1. cbn [nodes upd]. destruct (decide (g = p)) as [<-|Hp]; [|by rewrite lookup_alter_ne].
    rewrite lookup_alter_eq. by destruct (nodes s !! g). }
  eapply wp_mono; [apply (fh_add_spec (key_of s1) (CollectTree s) T g k)|].
  { eapply fh_ok_ext; [|apply Hs]. intros k' p _. apply Hkey. }
  { rewrite Hkey. unfold key_of. rewrite En. simpl. by rewrite (block_key _ _ Hb). }
  { done. }
  { apply (fr_out _ _ _ _ _ Hf). }
  { apply (fr_ent _ _ _ _ _ Hf). }
  intros [] c [Hfh _]. cbn beta. wp_step. eapply (wp_deref_node _ (f1 n)); [exact En1|]. cbn beta.
  assert (u32 (key (f1 n)) = k /\ seqlen (f1 n) = seqlen n) as [-> ->] by (split; [by apply (block_key k n)|done]).
  wp_step. apply wp_zoom. eapply wp_mono.
  { apply (markpage_correct k (seqlen n) (tmarks s)); [apply Hs|by eapply tree_blocks|done|lia|unfold ADDR_END; lia|apply Hf|apply Hf|].
    intros E. by destruct (bo_edge _ _ Hb). }
  intros [] t Hba. cbn beta. wp_step. apply wp_set_node; [by exists (f1 n)|].
  set (N2 := alter f2 g N1). assert (N2 !! g = Some (f2 (f1 n))) as En2 by (unfold N2; by rewrite lookup_alter_eq, En1).
  wp_step. apply wp_set_node; [by exists (f2 (f1 n))|].
  set (n' := closed cs md n). set (s4 := s <| nodes ::= insert g n' |> <| CollectTree := c |> <| tmarks := t |>).
  assert (alter f3 g N2 = <[g := n']> (nodes s)) as EN.
  { apply map_eq. intros p. unfold N2, N1. destruct (decide (g = p)) as [<-|Hp].
    - by rewrite !lookup_alter_eq, lookup_insert_eq, En.
    - by rewrite !lookup_alter_ne, lookup_insert_ne. }
  match goal with |- wp _ ?z _ => assert (z = s4) as -> end.
  { unfold s4, s1. cbn [upd nodes CollectTree tmarks code bufs BrokenCodePtr]. f_equal. exact EN. }
  assert (net_ok None s4) as Hnet4.
  { unfold s4. unfold net_ok. cbn [nodes code upd]. rewrite <- EN. destruct Hnet as (H1 & H2 & H3).
    assert (forall m, netlike m (f1 m)) as L1 by (by intros m). assert (forall m, netlike m (f2 m)) as L2 by (by intros m).
    assert (forall m, netlike m (f3 m)) as L3 by (by intros m). unfold N2, N1.
    split; [by repeat apply links_netlike|]. split; [by repeat apply regions_netlike|by repeat apply code_netlike]. }
  assert (dressed n n') as Hd by (by repeat split).
  assert (trees_ok s4 (<[k := g]> T) None) as Hs4.
  { apply (added_ok s T g k n n' c t); [done|done|done|exact Hnet4| |done]. eapply fh_ok_ext; [|exact Hfh]. intros k' p _. by rewrite Hkey. }
  assert (nodes s4 !! g = Some n') as En4 by apply lookup_insert_eq.
  assert (forall p b, edge (nodes s4) p b = if decide (p = g) then None else edge (nodes s) p b) as Eedge.
  { intros p b. unfold edge. case_decide as Ep; [subst p; rewrite En4; apply (fr_links _ _ _ _ _ Hf)|].
    unfold s4. cbn [nodes upd]. by rewrite lookup_insert_ne. }
  assert (forall s', trees_ok s' (<[k := g]> T) None -> same_blocks (nodes s4) (nodes s') -> rest_same s4 s' ->
    (forall p b, edge (nodes s') p b = if decide (p = g) then self_edge g cs md n b else edge (nodes s) p b) ->
    (forall i, (forall b, self_edge g cs md n b <> None -> i <> slot b n) -> code s' i = code s4 i) -> block_closed g k cs md n s T s') as Hdone.
  { intros s' Hok Hsm (R1 & R2 & R3 & R4) He Hcd. constructor; [done|by rewrite R2|..].
    - by eapply same_blocks_look'.
    - intros p m Hp Em. apply (same_blocks_look' _ _ _ _ Hsm). unfold s4. cbn [nodes upd]. by rewrite lookup_insert_ne.
    - done.
    - by rewrite R3.
    - exact Hcd. }
  destruct (has md MSSTP) eqn:Emd.
  { wp_step. apply Hdone; [done|apply same_blocks_refl|done| |done]. intros p b. rewrite Eedge. unfold self_edge. rewrite Emd. simpl.
    rewrite andb_false_r. done. }
  eapply wp_mono; [apply (NodeLinker_spec g g s4 (<[k := g]> T) n' n'); [done|apply Hf|done|done|]|].
  { intros b _. apply (fr_links _ _ _ _ _ Hf). }
  intros [] s' (Hok & Hsm & Hr & He & Hcd). apply Hdone; [done|done|done| |].
  2:{ intros i Hi. apply Hcd. intros b [Hu Hto]. apply (Hi b). unfold self_edge. fold n'. by rewrite Emd, Hu, Hto. }
  intros p b. rewrite He. unfold new_edge. rewrite En4, Eedge.
  unfold self_edge. rewrite Emd. fold n'. simpl. rewrite andb_true_r. destruct (Z.eqb_spec p g) as [->|Hp].
  - rewrite !decide_True by done. by rewrite andb_true_r.
  - rewrite !decide_False by done. by rewrite andb_false_r.
Qed.

(** ** Theorems *)


End add.

(** ** The tree of translated blocks: a new node

    What [ProduceCode] adds to the nodes, their buffers and the code. *)

(** The list entry of a node that has been allocated with [calloc]. *)
Definition blank_ent : ulist_ent := MkEnt (MkHead None None) 0.

Section new.
Context {G : Type} `{CodeMemLaws G}.
Context (UseLinker : bool).
Implicit Types s : trees G.
#[local] Set Default Proof Using "Type*".

Abbreviation trees_ok := (trees_ok UseLinker).

(** The state with the node [n] at [g] and the code [c]. *)
Definition with_node (g : Z) n (c : Z -> IGen) s : trees G :=
  s <| nodes ::= insert g n |> <| CollectTree ::= fun t => t <| bs ::= fun x => x <| ents ::= insert g blank_ent |> |> |>
    <| code := c |> <| bufs ::= fun b => {[n_addr n]} ∪ b |>.

Lemma with_node_look g n c s p m : nodes (with_node g n c s) !! p = Some m <-> g = p /\ n = m \/ g <> p /\ nodes s !! p = Some m.
Proof using Type. apply lookup_insert_Some. Qed.

(** The exits of the code in the buffer of [n] return to the interpreter. *)
Definition exits_return n (c : Z -> IGen) : Prop := forall b, l_link (clink b n) <> 0 ->
  op (c (slot b n)) = JMP_LINK /\ p0 (c (slot b n)) = l_target (clink b n) /\ has (mode (c (slot b n))) MLINK = false.

(** The buffer of [n] is apart from those of the other nodes. *)
Definition buf_free s n : Prop :=
  forall p m, nodes s !! p = Some m -> n_addr n + n_len n <= n_addr m \/ n_addr m + n_len m <= n_addr n.

(** A node and code that are new. *)
Record new_node s (g k : Z) n (c : Z -> IGen) : Prop := {
  nw_ptr : g <> 0;
  nw_none : nodes s !! g = None;
  nw_block : block_ok k n;
  nw_region : region_ok n;
  nw_free : buf_free s n;
  nw_links : bkr n = [] /\ forall b, l_ref (clink b n) = None;
  nw_exits : exits_return n c;
  nw_code i : ~ (n_addr n <= i < n_addr n + n_len n) -> c i = code s i;
}.

Lemma slot_region n b : region_ok n -> n_addr n <= slot b n < n_addr n + n_len n.
Proof using Type. intros (_ & _ & Hl & _). unfold slot. specialize (Hl b). lia. Qed.

Lemma net_new s g k n c : net_ok None s -> new_node s g k n c -> net_ok None (with_node g n c s).
Proof.
  intros ([L1 L2 L3] & [R1 R2] & C) Hn. pose proof (nw_none _ _ _ _ _ Hn) as Hg. destruct (nw_links _ _ _ _ _ Hn) as [Hb Hr].
  assert (forall p m, nodes s !! p = Some m -> nodes (with_node g n c s) !! p = Some m) as Hold.
  { intros p m E. apply with_node_look. right. split; [congruence|done]. }
  split; [|split].
  - constructor.
    + intros p m b q E Er. apply with_node_look in E as [[<- <-]|[Hp E]]; [by rewrite Hr in Er|].
      destruct (L1 p m b q E Er) as (m' & F1 & F2). exists m'. split; [by apply Hold|done].
    + intros q m p b E Hin. apply with_node_look in E as [[<- <-]|[Hp E]]; [rewrite Hb in Hin; by apply elem_of_nil in Hin|].
      destruct (L2 q m p b E Hin) as (n' & F1 & F2). exists n'. split; [by apply Hold|done].
    + intros q m E. apply with_node_look in E as [[<- <-]|[Hp E]]; [rewrite Hb; by apply NoDup_nil|by eapply L3].
  - constructor.
    + intros p m E. apply with_node_look in E as [[<- <-]|[Hp E]]; [apply Hn|by eapply R1].
    + intros p p' m m' E E' Hne. pose proof (nw_free _ _ _ _ _ Hn) as Hf.
      apply with_node_look in E as [[<- <-]|[Hp E]]; apply with_node_look in E' as [[<- <-]|[Hp' E']]; [done|by eapply Hf| |by eapply R2].
      destruct (Hf p m E); [by right|by left].
  - intros p m b E Hx Hl. apply with_node_look in E as [[<- <-]|[Hp E]].
    + destruct (nw_exits _ _ _ _ _ Hn b Hl) as (E1 & E2 & E3). by rewrite Hr.
    + assert (code (with_node g n c s) (slot b m) = code s (slot b m)) as ->.
      { apply (nw_code _ _ _ _ _ Hn). pose proof (slot_region m b (R1 p m E)) as Hi. destruct (nw_free _ _ _ _ _ Hn p m E); lia. }
      assert (None <> Some p) as Hp0 by done. destruct (C p m b E Hp0 Hl) as (E1 & E2 & E3). split; [done|]. split; [done|].
      destruct (l_ref (clink b m)) as [q|]; [|done]. destruct E3 as (E3 & m' & E4 & E5). split; [done|]. exists m'. split; [by apply Hold|done].
Qed.

Lemma net_weaken x s : net_ok None s -> net_ok x s.
Proof using Type. intros (H1 & H2 & H3). split; [done|]. split; [done|]. intros p n b E _ Hl. by apply (H3 p n b E). Qed.

Lemma tree_not_new s T x g k k' n c : trees_ok s T x -> new_node s g k n c -> T !! k' <> Some g.
Proof. intros Hs Hn E. destruct (tr_node _ _ _ _ Hs k' g E) as (m & Em & _). pose proof (nw_none _ _ _ _ _ Hn). congruence. Qed.

Lemma with_node_ok s T g k n c :
  trees_ok s T None -> new_node s g k n c -> trees_ok (with_node g n c s) T (Some g) /\ net_ok None (with_node g n c s).
Proof.
  intros Hs Hn. pose proof (nw_none _ _ _ _ _ Hn) as Hg. pose proof (net_new s g k n c (tr_net _ _ _ _ Hs) Hn) as Hnet.
  split; [|done]. set (s' := with_node g n c s) in *.
  assert (forall k' p, T !! k' = Some p -> p <> g) as Hne by (intros k' p E ->; by eapply tree_not_new).
  assert (forall k' p m, T !! k' = Some p -> nodes s' !! p = Some m -> nodes s !! p = Some m) as Hold.
  { intros k' p m E Em. apply with_node_look in Em as [[<- _]|[_ Em]]; [by destruct (Hne k' g E)|done]. }
  assert (forall p m, nodes s !! p = Some m -> nodes s' !! p = Some m) as Hold'.
  { intros p m Em. apply with_node_look. right. split; [congruence|done]. }
  constructor.
  - by apply net_weaken.
  - intros Hu p b. unfold edge. destruct (decide (p = g)) as [->|Hp].
    + unfold s', with_node. cbn [nodes upd]. rewrite lookup_insert_eq. simpl. apply (nw_links _ _ _ _ _ Hn).
    + unfold s', with_node. cbn [nodes upd]. rewrite lookup_insert_ne by done. by apply (tr_off _ _ _ _ Hs).
  - apply (fh_ok_ents _ (CollectTree s)); [done|done| |].
    + intros k' p E. unfold s', with_node. cbn [CollectTree bs ents upd]. rewrite lookup_insert_ne; [done|]. intros <-. by destruct (Hne k' g E).
    + eapply fh_ok_ext; [|apply Hs]. intros k' p E. unfold key_of, s', with_node. cbn [nodes upd].
      rewrite lookup_insert_ne; [done|]. intros <-. by destruct (Hne k' g E).
  - intros k' p E. destruct (tr_node _ _ _ _ Hs k' p E) as (m & Em & Hb). exists m. split; [by apply Hold'|done].
  - intros p m E Hx. apply with_node_look in E as [[<- _]|[_ E]]; [done|]. by eapply (tr_dom _ _ _ _ Hs).
  - apply Hs.
  - intros a Ha. by apply (tr_starts _ _ _ _ Hs).
  - intros a Ha. change (tmarks s') with (tmarks s). rewrite (tr_marked _ _ _ _ Hs a Ha). split; intros (k' & p & m & E1 & E2 & E3); exists k', p, m.
    + split; [done|]. split; [by apply Hold'|done].
    + split; [done|]. split; [by eapply Hold|done].
  - intros k1 k2 p1 p2 m1 m2 E1 E2 F1 F2. apply (tr_disj _ _ _ _ Hs k1 k2 p1 p2 m1 m2); [done|done|by eapply Hold|by eapply Hold].
  - intros p m E. unfold s', with_node. cbn [bufs upd]. apply with_node_look in E as [[_ <-]|[_ E]]; [set_solver|].
    pose proof (tr_bufs _ _ _ _ Hs p m E). set_solver.
Qed.

(** [close_node] of a node that is new. *)
Lemma fresh_new s T g k n c :
  trees_ok s T None -> new_node s g k n c -> fetched_range (tmarks s) k (seqlen n) ->
  (forall a, k <= a < k + seqlen n -> marked (tmarks s) a = false) -> fresh_node (with_node g n c s) T g k n.
Proof.
  intros Hs Hn Hfe Hfr. constructor.
  - apply lookup_insert_eq.
  - apply Hn.
  - apply Hn.
  - intros k'. by eapply tree_not_new.
  - unfold with_node. cbn [CollectTree bs ents upd]. rewrite lookup_insert_eq. by eexists.
  - apply Hn.
  - done.
  - done.
Qed.

Lemma close_node_new s T g k n c cs md :
  trees_ok s T None -> new_node s g k n c -> fetched_range (tmarks s) k (seqlen n) ->
  (forall a, k <= a < k + seqlen n -> marked (tmarks s) a = false) ->
  wp (close_node UseLinker g cs md) (with_node g n c s) (fun _ s' => block_closed UseLinker g k cs md n (with_node g n c s) T s').
Proof.
  intros Hs Hn Hfe Hfr. destruct (with_node_ok s T g k n c Hs Hn) as [Hs' Hnet]. apply close_node_spec; [done|done|by apply fresh_new].
Qed.

End new.
