(* ===== verification/TreesDirty.v ===== *)
(** * The tree of translated blocks: invalidation of memory *)

From stdpp Require Import base numbers list gmap.
From Stdlib Require Import ZArith Lia.
From S2P Require Import Prelude Machine SimCpu SimMem Marks MarksInv MarksQuery MarksRange MarksMark MarksFind Fhmap Trees TreesLinks TreesInv TreesRemove TreesSpec.

Local Open Scope Z_scope.

Implicit Types (N : gmap Z TNode) (T : gmap Z Z) (n : TNode).

Section dirty.
Context {G : Type} `{CodeMemLaws G}.
Context (UseLinker : bool).
Implicit Types s : trees G.
#[local] Set Default Proof Using "Type*".

Abbreviation trees_ok := (trees_ok UseLinker).
Abbreviation range_invalidated := (range_invalidated UseLinker).

(** No block reaches into a range without marks. *)
Lemma nothing_hit al ah eip s s' T :
  trees_ok s T None -> 0 <= al < ah -> calm s s' -> trees_ok s' T None -> (forall a, al <= a < ah -> marked (tmarks s) a = false) ->
  range_invalidated al ah eip s T s' T 0.
Proof.
  intros Hs Hal Hc Hs' Hno. apply range_done; [done|lia|eapply invalidated_calm; [done|by apply invalidated_refl|done|done]|].
  intros k p n Et En _ [H1 H2]. pose proof (tree_key _ _ _ _ _ _ _ Hs' Et En) as Hb. pose proof (bo_low _ _ Hb). pose proof (bo_len _ _ Hb).
  specialize (Hno (Z.max al k) ltac:(lia)). rewrite <- (proj1 (seen_view _ _ _ (cm_seen _ _ Hc))) in Hno.
  assert (marked (tmarks s') (Z.max al k) = true); [|congruence]. apply (tr_marked _ _ _ _ Hs'); [lia|]. exists k, p, n. split; [done|]. split; [done|]. lia.
Qed.

(** A lookup first. *)
Lemma invalidated_after al ah eip s s1 T s2 T2 rc :
  trees_ok s T None -> calm s s1 -> trees_ok s1 T None -> 0 <= al -> range_invalidated al ah eip s1 T s2 T2 rc -> range_invalidated al ah eip s T s2 T2 rc.
Proof.
  intros Hs Hc Hs1 Hal [[I1 I2 I3 I4 I5 I6 K I7 I8 I9 I10] R2 R3].
  assert (forall k p n1, gone s1 T T2 k p n1 -> exists n, gone s T T2 k p n /\ relived n n1) as Hg.
  { intros k p n1 (E1 & E2 & E3). destruct (calm_look _ _ _ _ Hc E2) as (n & En & R). by exists n. }
  assert (forall k p n, gone s T T2 k p n -> exists n1, gone s1 T T2 k p n1 /\ relived n n1) as Hg'.
  { intros k p n (E1 & E2 & E3). destruct (calm_look' _ _ _ _ Hc E2) as (n1 & En & R). by exists n1. }
  assert (forall n n1, relived n n1 -> runs eip n1 = runs eip n /\ seqlen n1 = seqlen n /\ n_addr n1 = n_addr n) as Hr by (by intros n n1 ->).
  constructor; [constructor|..].
  - done.
  - done.
  - intros k p n Hgo. destruct (Hg' _ _ _ Hgo) as (n1 & G1 & R). destruct (Hr _ _ R) as (_ & Q & _). specialize (I3 k p n1 G1). unfold hits in *. by rewrite <- Q.
  - intros k p n E En. destruct (calm_look' _ _ _ _ Hc En) as (n1 & E1 & R). destruct (I4 k p n1 E E1) as (n2 & E2 & B). exists n2.
    split; [done|]. eapply same_block_trans; [by apply relived_same|done].
  - intros a. rewrite I5. by destruct (cm_seen _ _ Hc) as (l & -> & _).
  - intros a Ha Hm. rewrite <- (proj1 (seen_view _ _ a (cm_seen _ _ Hc))), <- (same_copy _ _ (seen_same _ _ (cm_seen _ _ Hc))). by apply I6.
  - eapply copies_sub_trans; [|exact K]. apply copies_sub_seen, Hc.
  - destruct I7 as [[Hz Hno]|(k & p & n1 & G1 & G2 & G3)].
    + left. split; [done|]. intros k p n Hgo. destruct (Hg' _ _ _ Hgo) as (n1 & G1 & R). rewrite <- (proj1 (Hr _ _ R)). by eapply Hno.
    + right. destruct (Hg _ _ _ G1) as (n & Gn & R). destruct (Hr _ _ R) as (Q1 & _ & Q2). exists k, p, n. split; [done|]. split; congruence.
  - intros b. rewrite I8, (cm_bufs _ _ Hc). split; intros [Hb [Hno|]]; (split; [done|]); try (by right); left; intros k p n Hgo.
    + destruct (Hg' _ _ _ Hgo) as (n1 & G1 & R). destruct (Hr _ _ R) as (_ & _ & Q). specialize (Hno k p n1 G1). congruence.
    + destruct (Hg _ _ _ Hgo) as (n1 & G1 & R). destruct (Hr _ _ R) as (_ & _ & Q). specialize (Hno k p n1 G1). congruence.
  - intros i Hi. rewrite <- (cm_code _ _ Hc). destruct (I9 i) as [[Hno Ec]|(k & p & n1 & G1 & G2 & G3)].
    + intros p n1 b E. destruct (calm_look _ _ _ _ Hc E) as (n & En & R). rewrite (slot_same b n n1); [by eapply Hi|by apply relived_same].
    + left. split; [|done]. intros k p n Hgo. destruct (Hg' _ _ _ Hgo) as (n1 & G1 & R). rewrite <- (proj1 (Hr _ _ R)). by eapply Hno.
    + right. destruct (Hg _ _ _ G1) as (n & Gn & R). exists k, p, n. split; [done|]. split; [by rewrite <- (proj1 (Hr _ _ R))|].
      rewrite G3. apply broken_same; [by apply relived_same|done].
  - by rewrite I10, (cm_broken _ _ Hc).
  - intros k p n Et En. destruct (calm_look' _ _ _ _ Hc En) as (n1 & E1 & R). destruct (Hr _ _ R) as (_ & Q & _). rewrite (R2 k p n1 Et E1).
    unfold hits. by rewrite Q.
  - done.
Qed.

Lemma InvalidateNodeRange_spec al len s T :
  trees_ok s T None -> 0 <= al -> 0 < len -> al + len <= TREE_END + 2 ^ 16 ->
  wp (InvalidateNodeRange UseLinker al len) s (fun _ s' => exists T' rc, range_invalidated al (al + len) 0 s T s' T' rc).
Proof.
  intros Hs Hal Hlen Hend. unfold InvalidateNodeRange. wp_step. eapply wp_mono; [by eapply DoInvalidateNodeRange_spec|].
  intros rc s' (T' & Hr). cbn beta. wp_step. by exists T', rc.
Qed.

(** Marked bytes are on protected pages. *)
Lemma unprotected_unmarked s T x al ah :
  trees_ok s T x -> 0 <= al -> ~ (exists a, page_start al <= a < ah /\ protected (tmarks s) a = true) ->
  forall a, al <= a < ah -> marked (tmarks s) a = false.
Proof.
  intros Hs Hal Hno a Ha. destruct (marked (tmarks s) a) eqn:Em; [exfalso|done]. apply Hno. exists a. split; [|by apply (ok_pages _ (tr_marks _ _ _ _ Hs)); [lia|]].
  rewrite page_start_eq. unfold HOST_PAGE_SIZE in *. Z.to_euclidean_division_equations. lia.
Qed.

(** Every byte that is marked can be reached by the search for marks. *)
Definition reachable s (al ah : Z) : Prop :=
  forall x y, al <= y <= x -> x < ah -> marked (tmarks s) x = true -> is_Some (map_of (tmarks s) y).

Lemma e_invalidate_spec data cnt s T :
  trees_ok s T None -> 0 <= data -> 0 < cnt -> data + cnt <= TREE_END + 2 ^ 16 -> reachable s data (data + cnt) ->
  wp (e_invalidate UseLinker data cnt) s (fun _ s' => exists T' rc, range_invalidated data (data + cnt) 0 s T s' T' rc).
Proof.
  intros Hs Hd Hcnt Hend Hreach. pose proof Hend as Hend'. unfold TREE_END in Hend. unfold e_invalidate, e_invalidate_unlocked. wp_step.
  eapply wp_mono; [eapply wp_marks_finds; [exact Hs|apply e_querymprotrange_finds; [apply Hs|done|done|unfold ADDR_END; lia]]|].
  intros b s1 (Hb & Hc1 & Hs1). cbn beta. destruct b; cbn [negb].
  2:{ wp_step. exists T, 0. apply nothing_hit; [done|lia|done|done|]. eapply unprotected_unmarked; [done|done|]. intros Hx. by apply Hb in Hx. }
  wp_step. eapply wp_mono; [eapply wp_marks_finds; [exact Hs1|apply e_querymark_finds; [apply Hs1|done|lia|lia]]|].
  intros b2 s2 (Hb2 & Hc2 & Hs2). cbn beta. assert (calm s s2) as Hc by (by eapply calm_trans). destruct b2; cbn [negb].
  - rewrite i32_small by lia. eapply wp_mono; [by apply InvalidateNodeRange_spec|]. intros [] s3 (T3 & rc & Hr). exists T3, rc.
    by apply (invalidated_after data (data + cnt) 0 s s2 T s3 T3 rc).
  - wp_step. exists T, 0. apply nothing_hit; [done|lia|done|done|]. intros a Ha. destruct (marked (tmarks s) a) eqn:Em; [exfalso|done].
    unfold mark_answer in Hb2. destruct (Hb2 a Ha) as (y & Hy & Hmap).
    { by rewrite (proj1 (seen_view _ _ a (cm_seen _ _ Hc1))). }
    assert (is_Some (map_of (tmarks s1) y)) as [M HM]; [|congruence].
    rewrite <- (fmap_is_Some mega), (same_maps _ _ (seen_same _ _ (cm_seen _ _ Hc1))), fmap_is_Some. apply (Hreach a y); [lia|lia|done].
Qed.

(** Whole pages. *)
Definition page_up (a : Z) : Z := page_start (a + HOST_PAGE_SIZE - 1).

Lemma e_invalidate_full_spec data cnt s T :
  trees_ok s T None -> 0 <= data -> 0 < cnt -> data + cnt + HOST_PAGE_SIZE <= TREE_END + 2 ^ 16 ->
  wp (e_invalidate_full UseLinker data cnt) s (fun _ s' => exists T' rc, range_invalidated (page_start data) (page_up (data + cnt)) 0 s T s' T' rc).
Proof.
  intros Hs Hd Hcnt Hend. unfold TREE_END, HOST_PAGE_SIZE in Hend. unfold e_invalidate_full, _e_invalidate_full. wp_step.
  assert (0 <= page_start data <= data /\ data + cnt <= page_up (data + cnt) < data + cnt + HOST_PAGE_SIZE) as [Hlo Hhi].
  { unfold page_up. rewrite !page_start_eq. unfold HOST_PAGE_SIZE. Z.to_euclidean_division_equations. lia. }
  unfold HOST_PAGE_SIZE in Hhi.
  eapply wp_mono; [eapply wp_marks_finds; [exact Hs|apply e_querymprotrange_finds; [apply Hs|done|done|unfold ADDR_END; lia]]|].
  intros b s1 (Hb & Hc1 & Hs1). cbn beta. destruct b; cbn [negb].
  - unfold do_invalidate, page_align. rewrite (u32_small (data + cnt)), u32_small by (unfold HOST_PAGE_SIZE; lia). fold (page_up (data + cnt)).
    rewrite (i32_small (page_start data)), i32_small by lia.
    eapply wp_mono; [apply (InvalidateNodeRange_spec _ _ s1 T); [done|lia|lia|unfold TREE_END; lia]|]. intros [] s3 (T3 & rc & Hr). exists T3, rc.
    replace (page_start data + (page_up (data + cnt) - page_start data)) with (page_up (data + cnt)) in Hr by lia.
    apply (invalidated_after _ _ 0 s s1 T s3 T3 rc); done || lia.
  - wp_step. exists T, 0. apply nothing_hit; [done|lia|done|done|]. intros a Ha. destruct (marked (tmarks s) a) eqn:Em; [exfalso|done].
    assert (false = true); [|done]. apply Hb. pose proof (ok_pages _ (tr_marks _ _ _ _ Hs) a ltac:(lia) Em) as Hp.
    exists (Z.max (page_start data) (page_start a)). assert (page_start a <= a < page_start a + 4096 /\ page_start a mod 4096 = 0 /\ page_start data mod 4096 = 0 /\ page_up (data + cnt) mod 4096 = 0) as (P1 & P2 & P3 & P4).
    { unfold page_up. rewrite !page_start_eq. unfold HOST_PAGE_SIZE. Z.to_euclidean_division_equations. lia. }
    assert (page_start data <= page_start a) as P5 by (clear - P1 P2 P3 Ha; Z.to_euclidean_division_equations; lia).
    rewrite Z.max_r by done. split.
    + split; [done|]. assert (page_start a < page_up (data + cnt)) by lia.
      assert (page_up (data + cnt) = page_start (data + cnt - 1) + 4096) as E.
      { unfold page_up. rewrite !page_start_eq. unfold HOST_PAGE_SIZE. clear. Z.to_euclidean_division_equations. lia. }
      assert (page_start (data + cnt - 1) <= data + cnt - 1 /\ page_start (data + cnt - 1) mod 4096 = 0) as [P6 P7].
      { rewrite !page_start_eq. unfold HOST_PAGE_SIZE. clear. Z.to_euclidean_division_equations. lia. }
      rewrite E in *. clear - H1 P2 P6 P7. Z.to_euclidean_division_equations. lia.
    + rewrite <- Hp. apply protected_page. rewrite !page_start_eq. unfold HOST_PAGE_SIZE. clear. Z.to_euclidean_division_equations. lia.
Qed.

Lemma e_invalidate_page_full_spec data s T :
  trees_ok s T None -> 0 <= data -> page_start data + HOST_PAGE_SIZE <= TREE_END + 2 ^ 16 ->
  wp (e_invalidate_page_full UseLinker data) s (fun _ s' => exists T' rc,
    range_invalidated (page_start data) (page_start data + HOST_PAGE_SIZE) 0 s T s' T' rc).
Proof.
  intros Hs Hd Hend. unfold TREE_END, HOST_PAGE_SIZE in Hend. unfold e_invalidate_page_full. set (pg := page_start data) in *.
  assert (0 <= pg /\ pg mod 4096 = 0) as [Hlo Hal].
  { unfold pg. rewrite page_start_eq. unfold HOST_PAGE_SIZE. clear - Hd. Z.to_euclidean_division_equations. lia. }
  assert (page_start pg = pg /\ page_start (pg + 4096 + 4096 - 1) = pg + 4096) as [E1 E2].
  { rewrite !page_start_eq. unfold HOST_PAGE_SIZE. clear - Hal. Z.to_euclidean_division_equations. lia. }
  wp_step. eapply wp_mono; [eapply wp_marks_finds; [exact Hs|apply e_querymprotrange_finds; [apply Hs|done|done|unfold ADDR_END, HOST_PAGE_SIZE; lia]]|].
  intros b s1 (Hb & Hc1 & Hs1). cbn beta. destruct b; cbn [negb].
  - unfold do_invalidate, page_align. rewrite (u32_small (pg + HOST_PAGE_SIZE)), u32_small by (unfold HOST_PAGE_SIZE; lia).
    change HOST_PAGE_SIZE with 4096. rewrite E1, E2, !i32_small by lia. wp_step.
    eapply wp_mono; [apply (InvalidateNodeRange_spec _ _ s1 T); [done|lia|lia|unfold TREE_END; lia]|]. intros [] s3 (T3 & rc & Hr). cbn beta. wp_step.
    exists T3, rc. replace (pg + (pg + 4096 - pg)) with (pg + 4096) in Hr by lia. apply (invalidated_after _ _ 0 s s1 T s3 T3 rc); done || lia.
  - wp_step. exists T, 0. apply nothing_hit; [done|unfold HOST_PAGE_SIZE; lia|done|done|]. eapply unprotected_unmarked; [done|done|]. intros Hx. by apply Hb in Hx.
Qed.

(** ** Dirty pages *)

(** A marked byte that is not the one that was translated. *)
Definition stale (m : marks G) (a : Z) : Prop :=
  marked m a = true /\ exists p, copy_of m a = Some p /\ p (a mod HOST_PAGE_SIZE) <> guest_byte (guest m) a.

(** The translated code is that of the memory. *)
Definition coherent (m : marks G) : Prop :=
  forall a, 0 <= a -> marked m a = true -> exists p, copy_of m a = Some p /\ p (a mod HOST_PAGE_SIZE) = guest_byte (guest m) a.

Lemma not_stale_coherent m : marks_ok m -> (forall a, 0 <= a -> ~ stale m a) -> coherent m.
Proof.
  intros Hm Hno a Ha Hma. pose proof (ok_pages _ Hm a Ha Hma) as Hp. unfold protected in Hp. destruct (copy_of m a) as [p|] eqn:Ep; [|done].
  exists p. split; [done|]. destruct (Z.eq_dec (p (a mod HOST_PAGE_SIZE)) (guest_byte (guest m) a)); [done|]. exfalso. apply (Hno a Ha). split; [done|]. by exists p.
Qed.

Lemma has_map_in m M : marks_ok m -> M ∈ MpH m -> has_map (mega M) (MpH m) = Some M.
Proof.
  intros Hm HM. pose proof (ok_unique _ Hm) as Hu. unfold has_map. induction (MpH m) as [|M0 l IH]; [by apply elem_of_nil in HM|].
  rewrite fmap_cons in Hu. apply NoDup_cons in Hu as [Hn Hu]. simpl. destruct (Z.eqb_spec (mega M0) (mega M)) as [E|E].
  - apply elem_of_cons in HM as [->|HM]; [done|]. exfalso. apply Hn. rewrite E. by apply list_elem_of_fmap_2.
  - apply elem_of_cons in HM as [->|HM]; [done|]. by apply IH.
Qed.

(** A page of a map is dirty when one of its bytes is stale. *)
Lemma subpage_dirty_stale m M i p :
  marks_ok m -> M ∈ MpH m -> 0 <= i < pagespermega -> pagemap M i = Some p ->
  let addr := mega M * 2 ^ 20 + i * HOST_PAGE_SIZE in
  subpage_dirty p (guest m) addr M i = true <-> exists a, addr <= a < addr + HOST_PAGE_SIZE /\ stale m a.
Proof.
  intros Hm HM Hi Ep addr. rewrite subpage_dirty_iff by (by apply (ok_words _ Hm) || lia).
  assert (forall b, 0 <= b < HOST_PAGE_SIZE -> (addr + b) / 2 ^ 20 = mega M /\ offset (addr + b) = i * HOST_PAGE_SIZE + b /\
    (addr + b) mod HOST_PAGE_SIZE = b /\ page_index (addr + b) = i) as Hb.
  { intros b Hb. unfold offset, page_index, addr, HOST_PAGE_SIZE, pagespermega in *. clear - Hb Hi. Z.to_euclidean_division_equations. lia. }
  assert (forall b, 0 <= b < HOST_PAGE_SIZE -> stale m (addr + b) <->
    test_bit (i * HOST_PAGE_SIZE + b) (subpage M) = true /\ p b <> guest_byte (guest m) (addr + b)) as Hst.
  { intros b Hbr. destruct (Hb b Hbr) as (B1 & B2 & B3 & B4). unfold stale, marked, copy_of, map_of. rewrite B1, (has_map_in m M Hm HM), B2, B3, <- B4.
    cbn [mbind option_bind]. rewrite B4, Ep. split; [intros (? & q & [= <-] & ?); done|intros [? ?]; split; [done|by exists p]]. }
  split.
  - intros (b & Hbr & H1 & H2). exists (addr + b). split; [lia|]. by apply Hst.
  - intros (a & Ha & Hs). exists (a - addr). assert (0 <= a - addr < HOST_PAGE_SIZE) as Hr by lia. split; [done|].
    apply Hst; [done|]. by replace (addr + (a - addr)) with a by lia.
Qed.

Lemma dirty_pages_spec m x :
  marks_ok m -> x ∈ dirty_pages m <-> 0 <= x /\ x mod HOST_PAGE_SIZE = 0 /\ exists a, x <= a < x + HOST_PAGE_SIZE /\ stale m a.
Proof.
  intros Hm. unfold dirty_pages. rewrite list_elem_of_bind. split.
  - intros (M & Hx & HM). apply list_elem_of_omap in Hx as (j & Hj & E). rewrite elem_of_seq in Hj. unfold dirty_page in E.
    change (2 ^ MEGA_SHIFT) with (2 ^ 20) in E. change (Z.to_nat pagespermega) with 256%nat in Hj.
    destruct (pagemap M (Z.of_nat j)) as [p|] eqn:Ep; [|done]. destruct (subpage_dirty _ _ _ _ _) eqn:Ed; [|done]. injection E as <-.
    pose proof (ok_mega _ Hm M HM). split; [unfold HOST_PAGE_SIZE; lia|]. split.
    + unfold HOST_PAGE_SIZE. clear. Z.to_euclidean_division_equations. lia.
    + apply (subpage_dirty_stale m M (Z.of_nat j) p); [done|done|unfold pagespermega; lia|done|done].
  - intros (Hx0 & Hx & a & Ha & Hst). pose proof Hst as (Hma & q & Hq & _). unfold marked in Hma. destruct (map_of m a) as [M|] eqn:HM; [|done].
    destruct (has_map_Some _ _ _ HM) as [HMin HMm]. assert (0 <= page_index a < 256) as Hi by (apply Z.mod_pos_bound; done).
    exists M. split; [|done]. apply list_elem_of_omap. exists (Z.to_nat (page_index a)). split; [apply elem_of_seq; change (Z.to_nat pagespermega) with 256%nat; lia|].
    unfold dirty_page. rewrite Z2Nat.id by lia. change (2 ^ MEGA_SHIFT) with (2 ^ 20). unfold copy_of in Hq. rewrite HM in Hq. cbn [mbind option_bind] in Hq. rewrite Hq.
    assert (mega M * 2 ^ 20 + page_index a * HOST_PAGE_SIZE = x) as Ex.
    { rewrite HMm. unfold page_index, pagespermega, HOST_PAGE_SIZE in *. clear - Hx Ha. Z.to_euclidean_division_equations. lia. }
    assert (subpage_dirty q (guest m) (mega M * 2 ^ 20 + page_index a * HOST_PAGE_SIZE) M (page_index a) = true) as ->; [|by rewrite Ex].
    apply (subpage_dirty_stale m M (page_index a) q); [done|done|done|done|]. exists a. by rewrite Ex.
Qed.

(** From [s], [T] to [s'], [T'] by dropping blocks that touch a page with a stale byte. *)
Record pages_dropped s T s' T' : Prop := {
  pd_ok : trees_ok s' T' None;
  pd_sub k p : T' !! k = Some p -> T !! k = Some p;
  pd_left k p n : T' !! k = Some p -> nodes s !! p = Some n -> exists n', nodes s' !! p = Some n' /\ same_block n n';
  pd_gone k p n : T !! k = Some p -> nodes s !! p = Some n -> T' !! k = None ->
    exists a b, k <= a < k + seqlen n /\ a / HOST_PAGE_SIZE = b / HOST_PAGE_SIZE /\ stale (tmarks s) b;
  pd_bytes a : guest_byte (guest (tmarks s')) a = guest_byte (guest (tmarks s)) a;
  pd_copy a : 0 <= a -> marked (tmarks s') a = true -> marked (tmarks s) a = true /\ copy_of (tmarks s') a = copy_of (tmarks s) a;
  pd_keep : copies_sub (tmarks s) (tmarks s');
}.

Lemma pages_refl s T : trees_ok s T None -> pages_dropped s T s T.
Proof.
  intros Hs. constructor; try done.
  - intros k p n _ E. exists n. split; [done|apply same_block_refl].
  - intros k p n E _ E'. congruence.
Qed.

Lemma pages_calm s T s1 T1 s2 : pages_dropped s T s1 T1 -> calm s1 s2 -> trees_ok s2 T1 None -> pages_dropped s T s2 T1.
Proof.
  intros [D1 D2 D3 D4 D5 D6 D7] Hc Hs2. constructor; try done.
  - intros k p n E En. destruct (D3 k p n E En) as (n1 & E1 & B1). destruct (calm_look' _ _ _ _ Hc E1) as (n2 & E2 & R2).
    exists n2. split; [done|]. eapply same_block_trans; [exact B1|by apply relived_same].
  - intros a. rewrite <- D5. by destruct (cm_seen _ _ Hc) as (l & -> & _).
  - intros a Ha. rewrite (proj1 (seen_view _ _ a (cm_seen _ _ Hc))), (same_copy _ _ (seen_same _ _ (cm_seen _ _ Hc))). by apply D6.
  - eapply copies_sub_trans; [exact D7|apply copies_sub_seen, Hc].
Qed.

Lemma stale_before s T s1 T1 a : pages_dropped s T s1 T1 -> 0 <= a -> stale (tmarks s1) a -> stale (tmarks s) a.
Proof.
  intros Hd Ha (Hm & p & Hp & Hne). destruct (pd_copy _ _ _ _ Hd a Ha Hm) as [Hm' Ec]. split; [done|]. exists p. rewrite <- Ec, <- (pd_bytes _ _ _ _ Hd a). done.
Qed.

Lemma pages_step s T s1 T1 pg s2 T2 rc a :
  trees_ok s T None -> pages_dropped s T s1 T1 -> 0 <= pg -> pg mod HOST_PAGE_SIZE = 0 -> pg <= a < pg + HOST_PAGE_SIZE -> stale (tmarks s1) a ->
  range_invalidated pg (pg + HOST_PAGE_SIZE) 0 s1 T1 s2 T2 rc -> pages_dropped s T s2 T2.
Proof.
  intros Hs Hd Hpg Hal Ha Hst [Hi Ht Hmk]. pose proof Hd as [D1 D2 D3 D4 D5 D6 D7]. constructor.
  - apply Hi.
  - intros k p E. apply D2. by apply (iv_sub _ _ _ _ _ _ _ _ _ Hi).
  - intros k p n E En. destruct (D3 k p n) as (n1 & E1 & B1); [by apply (iv_sub _ _ _ _ _ _ _ _ _ Hi)|done|].
    destruct (iv_left _ _ _ _ _ _ _ _ _ Hi k p n1 E E1) as (n2 & E2 & B2). exists n2. split; [done|by eapply same_block_trans].
  - intros k p n E En E2. destruct (T1 !! k) as [p1|] eqn:E1; [|by eapply D4].
    assert (p1 = p) as -> by (apply D2 in E1; congruence). destruct (D3 k p n E1 En) as (n1 & F1 & (_&_&_&Q&_)).
    destruct (iv_gone _ _ _ _ _ _ _ _ _ Hi k p n1) as [H1 H2]; [done|]. rewrite Q in H1.
    pose proof (tree_key _ _ _ _ _ _ _ Hs E En) as Hb. pose proof (bo_len _ _ Hb). exists (Z.max pg k), a. split; [lia|]. split.
    + clear - Hal Ha H2 Hpg. unfold HOST_PAGE_SIZE in *. Z.to_euclidean_division_equations. lia.
    + eapply stale_before; [exact Hd|lia|done].
  - intros x. rewrite (iv_bytes _ _ _ _ _ _ _ _ _ Hi). apply D5.
  - intros x Hx Hm. destruct (iv_copy _ _ _ _ _ _ _ _ _ Hi x Hx Hm) as [Hm1 ->]. by apply D6.
  - eapply copies_sub_trans; [exact D7|]. by eapply iv_keep.
Qed.

(** A page with a marked byte is in the part of memory that blocks can be in. *)
Lemma marked_low s T x a : trees_ok s T x -> 0 <= a -> marked (tmarks s) a = true -> a < TREE_END.
Proof.
  intros Hs Ha Hm. apply (tr_marked _ _ _ _ Hs a Ha) in Hm as (k & p & n & E1 & E2 & E3).
  pose proof (bo_high _ _ (tree_key _ _ _ _ _ _ _ Hs E1 E2)). lia.
Qed.

(** Dropping a dirty page. *)
Lemma drop_page_spec s T pg a :
  trees_ok s T None -> 0 <= pg -> pg mod HOST_PAGE_SIZE = 0 -> pg <= a < pg + HOST_PAGE_SIZE -> stale (tmarks s) a ->
  wp (e_invalidate_page_full UseLinker pg) s (fun _ s' => exists T' rc, range_invalidated pg (pg + HOST_PAGE_SIZE) 0 s T s' T' rc).
Proof.
  intros Hs Hpg Hal Ha Hst. assert (page_start pg = pg) as E by (unfold page_start; lia).
  pose proof (marked_low _ _ _ a Hs ltac:(lia) (proj1 Hst)). unfold HOST_PAGE_SIZE, TREE_END in *.
  eapply wp_mono; [apply (e_invalidate_page_full_spec pg s T); [done|done|rewrite E; unfold TREE_END, HOST_PAGE_SIZE; lia]|].
  rewrite E. done.
Qed.

Lemma invalidate_dirty_full_spec s T fuel : forall s1 T1,
  trees_ok s T None -> pages_dropped s T s1 T1 -> (size (list_to_set (dirty_pages (tmarks s1)) : gset Z) < fuel)%nat ->
  wp (invalidate_dirty_full UseLinker fuel) s1 (fun _ s' => exists T', pages_dropped s T s' T' /\ coherent (tmarks s')).
Proof.
  induction fuel as [|fuel IH]; [lia|]. intros s1 T1 Hs Hd Hf. cbn [invalidate_dirty_full]. wp_step. wp_step.
  pose proof (pd_ok _ _ _ _ Hd) as Hs1. pose proof (tr_marks _ _ _ _ Hs1) as Hm.
  destruct (dirty_pages (tmarks s1)) as [|x l] eqn:E.
  - wp_step. exists T1. split; [done|]. apply not_stale_coherent; [done|]. intros a Ha Hst.
    assert (page_start a ∈ dirty_pages (tmarks s1)) as Hin; [|rewrite E in Hin; by apply elem_of_nil in Hin].
    apply dirty_pages_spec; [done|]. rewrite page_start_eq. unfold HOST_PAGE_SIZE.
    split; [clear - Ha; Z.to_euclidean_division_equations; lia|]. split; [by apply Z.mod_mul|].
    exists a. split; [clear; Z.to_euclidean_division_equations; lia|done].
  - destruct (proj1 (dirty_pages_spec (tmarks s1) x Hm)) as (Hx0 & Hal & a & Ha & Hst); [rewrite E; by left|].
    wp_step. eapply wp_mono; [by apply (drop_page_spec s1 T1 x a)|]. intros r s2 (T2 & rc & Hr). cbn beta.
    assert (pages_dropped s T s2 T2) as Hd2 by (by apply (pages_step s T s1 T1 x s2 T2 rc a)).
    apply (IH s2 T2); [done|done|]. eapply Nat.lt_le_trans; [|apply Nat.lt_succ_r, Hf].
    apply subset_size. rewrite <- E. pose proof (ri_inv _ _ _ _ _ _ _ _ _ Hr) as Hi. pose proof (tr_marks _ _ _ _ (pd_ok _ _ _ _ Hd2)) as Hm2. split.
    + intros y Hy. apply elem_of_list_to_set in Hy. apply elem_of_list_to_set. apply dirty_pages_spec in Hy as (Y1 & Y2 & b & Y3 & Y4); [|done].
      apply dirty_pages_spec; [done|]. split; [done|]. split; [done|]. exists b. split; [done|]. destruct Y4 as (Mb & q & Cq & Nq).
      destruct (iv_copy _ _ _ _ _ _ _ _ _ Hi b) as [Mb' Cb]; [lia|done|]. split; [done|]. exists q. rewrite <- Cb, <- (iv_bytes _ _ _ _ _ _ _ _ _ Hi). done.
    + intros Hsub. assert (x ∈ (list_to_set (dirty_pages (tmarks s1)) : gset Z)) as Hin by (rewrite E; apply elem_of_list_to_set; by left).
      apply Hsub in Hin. apply elem_of_list_to_set in Hin. apply dirty_pages_spec in Hin as (_ & _ & b & Hb & Hsb); [|done].
      pose proof (proj1 Hsb) as Mb. rewrite (ri_marks _ _ _ _ _ _ _ _ _ Hr) in Mb by done. done.
Qed.

Lemma length_omap_le {A B} (f : A -> option B) (l : list A) : (length (omap f l) <= length l)%nat.
Proof using Type.
  induction l as [|x l IH]; [done|]. change (omap f (x :: l)) with (match f x with Some y => y :: omap f l | None => omap f l end).
  destruct (f x); cbn [length]; lia.
Qed.

Lemma dirty_pages_length (m : marks G) : (length (dirty_pages m) <= 256 * length (MpH m))%nat.
Proof using Type.
  unfold dirty_pages. induction (MpH m) as [|M l IH]; [simpl; lia|]. rewrite bind_cons, length_app. cbn [length].
  assert (length (omap (dirty_page (guest m) M) (seq 0 (Z.to_nat pagespermega))) <= 256)%nat; [|lia].
  etransitivity; [apply length_omap_le|]. by rewrite length_seq.
Qed.

Lemma size_list_to_set_le (l : list Z) : (size (list_to_set l : gset Z) <= length l)%nat.
Proof using Type.
  induction l as [|x l IH]; [done|]. rewrite list_to_set_cons, size_union_alt, size_singleton. cbn [length].
  assert (size ((list_to_set l : gset Z) ∖ {[x]}) <= size (list_to_set l : gset Z))%nat; [|lia]. apply subseteq_size. set_solver.
Qed.

Lemma e_invalidate_dirty_full_spec s T :
  trees_ok s T None ->
  wp (e_invalidate_dirty_full UseLinker) s (fun _ s' => exists T', pages_dropped s T s' T' /\ coherent (tmarks s')).
Proof.
  intros Hs. unfold e_invalidate_dirty_full. wp_step. wp_step. apply (invalidate_dirty_full_spec s T _ s T); [done|by apply pages_refl|].
  pose proof (dirty_pages_length (tmarks s)) as Hl. pose proof (size_list_to_set_le (dirty_pages (tmarks s))) as Hl2. change (Z.to_nat pagespermega) with 256%nat. lia.
Qed.

(** ** A range of pages *)

(** The pages from [lo] up to [hi] are as they were translated. *)
Definition clean_from s (lo hi : Z) : Prop := forall a, lo <= a < hi -> ~ stale (tmarks s) a.

(** [page] and the map [r] belong to [addr]. *)
Definition at_page s (r : option Z) (page addr : Z) : Prop :=
  (page = pagespermega /\ offset addr = 0) \/
  (page = page_index addr /\ forall m, r = Some m -> exists M, map_of (tmarks s) addr = Some M /\ mega M = m).

Lemma clean_calm s s' lo hi : calm s s' -> clean_from s lo hi -> clean_from s' lo hi.
Proof.
  intros Hc Hcl a Ha (Hm & p & Hp & Hne). apply (Hcl a Ha). pose proof (cm_seen _ _ Hc) as Hss.
  rewrite (proj1 (seen_view _ _ a Hss)) in Hm. rewrite (same_copy _ _ (seen_same _ _ Hss)) in Hp. split; [done|]. exists p. split; [done|].
  by destruct Hss as (l & Es & _); rewrite Es in Hne.
Qed.

Lemma next_page_start addr : 0 <= addr -> addr mod HOST_PAGE_SIZE = 0 ->
  (page_index addr + 1 = pagespermega /\ offset (addr + HOST_PAGE_SIZE) = 0) \/
  (page_index addr + 1 = page_index (addr + HOST_PAGE_SIZE) /\ (addr + HOST_PAGE_SIZE) / 2 ^ 20 = addr / 2 ^ 20).
Proof using Type.
  intros Ha Hal. unfold page_index, offset, pagespermega, HOST_PAGE_SIZE in *. Z.to_euclidean_division_equations. lia.
Qed.

(** After the page [addr] has been checked. *)
Lemma at_page_next s addr M : 0 <= addr -> addr mod HOST_PAGE_SIZE = 0 -> map_of (tmarks s) addr = Some M ->
  forall r, r = None \/ r = Some (mega M) -> at_page s r (page_index addr + 1) (addr + HOST_PAGE_SIZE).
Proof using Type.
  intros Ha Hal HM r Hr. destruct (next_page_start addr Ha Hal) as [E|[E1 E2]]; [by left|right]. split; [done|].
  intros m ->. exists M. destruct Hr as [|[= ->]]; [done|]. split; [|done]. unfold map_of in *. by rewrite E2.
Qed.

Lemma at_page_none s page addr : page = page_index addr -> at_page s None page addr.
Proof using Type. intros ->. right. split; [done|]. by intros m [=]. Qed.

(** One page: it is dropped when it is dirty. *)
Lemma check_page_spec s T addr M :
  trees_ok s T None -> 0 <= addr -> addr mod HOST_PAGE_SIZE = 0 -> map_of (tmarks s) addr = Some M ->
  wp (let dirty := match pagemap M (page_index addr) with
                   | Some p => subpage_dirty p (guest (tmarks s)) addr M (page_index addr) | None => false end in
      if dirty then e_invalidate_page_full UseLinker addr ;; ret None else ret (Some (mega M))) s
    (fun r s' => exists T', (r = Some (mega M) /\ s' = s /\ T' = T /\ clean_from s addr (addr + HOST_PAGE_SIZE)) \/
      (r = None /\ exists a rc, addr <= a < addr + HOST_PAGE_SIZE /\ stale (tmarks s) a /\ range_invalidated addr (addr + HOST_PAGE_SIZE) 0 s T s' T' rc)).
Proof.
  intros Hs Ha Hal HM. pose proof (tr_marks _ _ _ _ Hs) as Hm. destruct (has_map_Some _ _ _ HM) as [HMin HMm].
  assert (addr = mega M * 2 ^ 20 + page_index addr * HOST_PAGE_SIZE) as Eaddr.
  { rewrite HMm. unfold page_index, pagespermega, HOST_PAGE_SIZE in *. clear - Hal Ha. Z.to_euclidean_division_equations. lia. }
  assert (0 <= page_index addr < pagespermega) as Hi by (by apply Z.mod_pos_bound).
  assert (copy_of (tmarks s) addr = pagemap M (page_index addr)) as Ecopy by (unfold copy_of; by rewrite HM).
  cbn zeta. destruct (pagemap M (page_index addr)) as [p|] eqn:Ep.
  - pose proof (subpage_dirty_stale (tmarks s) M (page_index addr) p Hm HMin Hi Ep) as Hd. cbn zeta in Hd. rewrite <- Eaddr in Hd.
    destruct (subpage_dirty _ _ _ _ _).
    + destruct (proj1 Hd eq_refl) as (a & Har & Hst). wp_step. eapply wp_mono; [by apply (drop_page_spec s T addr a)|].
      intros r s' (T' & rc & Hr). cbn beta. wp_step. exists T'. right. split; [done|]. by exists a, rc.
    + wp_step. exists T. left. split; [done|]. split; [done|]. split; [done|]. intros a Har Hst. assert (false = true); [|done]. apply Hd. by exists a.
  - wp_step. exists T. left. split; [done|]. split; [done|]. split; [done|]. intros a Har (_ & p & Hp & _).
    assert (a / HOST_PAGE_SIZE = addr / HOST_PAGE_SIZE) as E by (clear - Har Hal; unfold HOST_PAGE_SIZE in *; Z.to_euclidean_division_equations; lia).
    destruct (page_same _ _ E) as [E1 E2]. unfold copy_of, map_of in Hp, Ecopy. rewrite E1, E2 in Hp. congruence.
Qed.

Lemma invalidate_dirty_loop_spec s T addr0 aend : trees_ok s T None -> 0 <= addr0 -> aend < ADDR_END ->
  forall fuel r page addr s1 T1,
  pages_dropped s T s1 T1 -> addr0 <= addr -> addr mod HOST_PAGE_SIZE = 0 -> at_page s1 r page addr -> clean_from s1 addr0 addr ->
  (Z.to_nat ((aend - addr) / HOST_PAGE_SIZE + 1) < fuel)%nat ->
  wp (invalidate_dirty_loop UseLinker fuel r page addr aend) s1 (fun _ s' => exists T', pages_dropped s T s' T' /\ clean_from s' addr0 (aend + 1)).
Proof.
  intros Hs Hlo0 Hend. unfold ADDR_END in Hend. induction fuel as [|fuel IH]; [lia|]. intros r page addr s1 T1 Hd Hlo Hal Hat Hcl Hf. cbn [invalidate_dirty_loop].
  destruct (Z.ltb_spec aend addr) as [|Hle0].
  { wp_step. exists T1. split; [done|]. intros a Ha. apply Hcl. lia. }
  pose proof (pd_ok _ _ _ _ Hd) as Hs1.
  assert (forall x, addr + HOST_PAGE_SIZE <= x -> x mod HOST_PAGE_SIZE = 0 -> (Z.to_nat ((aend - x) / HOST_PAGE_SIZE + 1) < fuel)%nat) as Hfuel.
  { intros x Hx Hxal. assert (0 <= (aend - addr) / HOST_PAGE_SIZE) by (apply Z.div_pos; unfold HOST_PAGE_SIZE in *; lia).
    assert ((aend - x) / HOST_PAGE_SIZE <= (aend - addr) / HOST_PAGE_SIZE - 1) as Hle; [|lia].
    replace ((aend - addr) / HOST_PAGE_SIZE - 1) with ((aend - addr + -1 * HOST_PAGE_SIZE) / HOST_PAGE_SIZE) by (rewrite Z.div_add by done; lia). apply Z.div_le_mono; [done|]. unfold HOST_PAGE_SIZE in *. lia. }
  set (rp := if page =? pagespermega then (None, 0) else (r, page)).
  assert (exists r', rp = (r', page_index addr) /\ forall m, r' = Some m -> exists M, map_of (tmarks s1) addr = Some M /\ mega M = m) as (r' & -> & Hr').
  { unfold rp. destruct Hat as [[-> Hoff]|[-> Hm]].
    - exists None. rewrite Z.eqb_refl. split; [|by intros m [=]]. f_equal. unfold page_index, offset, pagespermega, HOST_PAGE_SIZE in *.
      clear - Hoff. Z.to_euclidean_division_equations. lia.
    - exists r. assert (page_index addr < pagespermega) by (by apply Z.mod_pos_bound). replace (page_index addr =? pagespermega) with false by (symmetry; apply Z.eqb_neq; lia). done. }
  wp_step. apply (wp_mono _ _ (fun r2 s2 => r2 = mega <$> map_of (tmarks s1) addr /\ calm s1 s2 /\ trees_ok s2 T1 None)).
  { destruct r' as [m|].
    - destruct (Hr' m eq_refl) as (M & HM & <-). wp_step. rewrite HM. split; [done|]. split; [apply calm_refl, Hs1|done].
    - eapply wp_mono; [eapply wp_marks_finds; [exact Hs1|apply quiet_FindM; [apply Hs1|lia]]|]. done. }
  intros r2 s2 (-> & Hc & Hs2). cbn beta. pose proof (pages_calm _ _ _ _ _ Hd Hc Hs2) as Hd2. pose proof (clean_calm _ _ _ _ Hc Hcl) as Hcl2.
  pose proof (seen_MpH _ _ (cm_seen _ _ Hc)) as EMp.
  destruct (map_of (tmarks s1) addr) as [M|] eqn:HM; cbn [fmap option_fmap option_map].
  - assert (map_of (tmarks s2) addr = Some M) as HM2 by (unfold map_of; by rewrite EMp).
    destruct (has_map_Some _ _ _ HM2) as [HMin HMm].
    wp_step. eapply wp_mono; [eapply wp_marks_finds; [exact Hs2|apply (quiet_deref _ _ M); [apply Hs2|]]|].
    { by apply has_map_in; [apply Hs2|]. }
    intros M' s3 (-> & Hc3 & Hs3). cbn beta. pose proof (pages_calm _ _ _ _ _ Hd2 Hc3 Hs3) as Hd3. pose proof (clean_calm _ _ _ _ Hc3 Hcl2) as Hcl3.
    assert (map_of (tmarks s3) addr = Some M) as HM3 by (unfold map_of; by rewrite (seen_MpH _ _ (cm_seen _ _ Hc3))).
    wp_step. wp_step. wp_step. eapply wp_mono; [apply (check_page_spec s3 T1 addr M); [done|lia|done|done]|].
    rewrite u32_small by (unfold HOST_PAGE_SIZE; lia).
    intros r4 s4 (T4 & [(-> & -> & -> & Hclp)|(-> & a & rc & Ha & Hst & Hr)]); cbn beta.
    + apply (IH _ _ _ s3 T1); [done|unfold HOST_PAGE_SIZE; lia| | | |].
      * unfold HOST_PAGE_SIZE in *. clear - Hal. Z.to_euclidean_division_equations. lia.
      * apply (at_page_next s3 addr M); [lia|done|done|by right].
      * intros b Hb. destruct (Z.lt_ge_cases b addr); [apply Hcl3; lia|apply Hclp; lia].
      * apply Hfuel; [lia|]. unfold HOST_PAGE_SIZE in *. clear - Hal. Z.to_euclidean_division_equations. lia.
    + assert (pages_dropped s T s4 T4) as Hd4 by (apply (pages_step s T s3 T1 addr s4 T4 rc a); done || lia).
      apply (IH _ _ _ s4 T4); [done|unfold HOST_PAGE_SIZE; lia| | | |].
      * unfold HOST_PAGE_SIZE in *. clear - Hal. Z.to_euclidean_division_equations. lia.
      * destruct (next_page_start addr ltac:(lia) Hal) as [E|[E1 E2]]; [by left|by apply at_page_none].
      * intros b Hb Hsb. destruct (Z.lt_ge_cases b addr).
        -- apply (Hcl3 b); [lia|]. destruct Hsb as (Mb & q & Cq & Nq). pose proof (ri_inv _ _ _ _ _ _ _ _ _ Hr) as Hi.
           destruct (iv_copy _ _ _ _ _ _ _ _ _ Hi b) as [Mb' Cb]; [lia|done|]. split; [done|]. exists q. rewrite <- Cb, <- (iv_bytes _ _ _ _ _ _ _ _ _ Hi). done.
        -- pose proof (proj1 Hsb) as Mb. rewrite (ri_marks _ _ _ _ _ _ _ _ _ Hr) in Mb by lia. done.
      * apply Hfuel; [lia|]. unfold HOST_PAGE_SIZE in *. clear - Hal. Z.to_euclidean_division_equations. lia.
  - cbn zeta. set (nx := (addr / 2 ^ 20 + 1) * 2 ^ 20).
    assert (u32 (u32 (addr + (pagespermega - 1 - page_index addr) * HOST_PAGE_SIZE) + HOST_PAGE_SIZE) = nx) as ->.
    { assert (addr + (pagespermega - 1 - page_index addr) * HOST_PAGE_SIZE + HOST_PAGE_SIZE = nx /\ 0 <= page_index addr < 256) as [E E2].
      { unfold nx, page_index, pagespermega, HOST_PAGE_SIZE in *. clear - Hal Hlo Hlo0. Z.to_euclidean_division_equations. lia. }
      assert (nx < 2 ^ 32) by (unfold nx; clear - Hle0 Hend Hlo H0; Z.to_euclidean_division_equations; lia).
      unfold pagespermega, HOST_PAGE_SIZE in *. rewrite (u32_small (addr + _)) by lia. rewrite u32_small; lia. }
    assert (addr + HOST_PAGE_SIZE <= nx /\ nx mod HOST_PAGE_SIZE = 0 /\ offset nx = 0) as (E1 & E2 & E3).
    { unfold nx, offset, HOST_PAGE_SIZE in *. clear - Hal Hlo Hlo0. Z.to_euclidean_division_equations. lia. }
    apply (IH _ _ _ s2 T1); [done|unfold HOST_PAGE_SIZE in *; lia|done|by left| |by apply Hfuel].
    intros b Hb Hsb. destruct (Z.lt_ge_cases b addr) as [Hlt|Hge]; [apply (Hcl2 b); [lia|done]|].
    pose proof (proj1 Hsb) as Mb. unfold marked, map_of in Mb. assert (b / 2 ^ 20 = addr / 2 ^ 20) as Eb by (unfold nx in Hb; clear - Hb Hge; Z.to_euclidean_division_equations; lia).
      unfold map_of in HM. rewrite Eb, EMp, HM in Mb. done.
Qed.

Lemma e_invalidate_dirty_spec addr aend s T :
  trees_ok s T None -> 0 <= addr <= aend -> addr mod HOST_PAGE_SIZE = 0 -> aend < ADDR_END ->
  wp (e_invalidate_dirty UseLinker addr aend) s (fun _ s' => exists T', pages_dropped s T s' T' /\ clean_from s' addr (aend + 1)).
Proof.
  intros Hs Ha Hal Hend. unfold e_invalidate_dirty.
  apply (invalidate_dirty_loop_spec s T addr aend Hs ltac:(lia) Hend _ _ _ addr s T); [by apply pages_refl|lia|done|by apply at_page_none| |].
  - intros a Hx. lia.
  - assert (0 <= (aend - addr) / HOST_PAGE_SIZE) by (apply Z.div_pos; unfold HOST_PAGE_SIZE in *; lia). lia.
Qed.

(** ** Theorems *)

(** C14: e_invalidate drops exactly the blocks that reach into the range when
    no part of the range before a marked byte lacks a map of marks. *)
Theorem e_invalidate_correct data cnt s T :
  trees_ok s T None -> 0 <= data -> 0 < cnt -> data + cnt <= TREE_END + 2 ^ 16 -> reachable s data (data + cnt) ->
  wp (e_invalidate UseLinker data cnt) s (fun _ s' => exists T' rc, range_invalidated data (data + cnt) 0 s T s' T' rc).
Proof. apply e_invalidate_spec. Qed.

(** [e_invalidate_full] drops every block that reaches into the pages of the
    range, the ones before and after in those pages included. *)
Theorem e_invalidate_full_correct data cnt s T :
  trees_ok s T None -> 0 <= data -> 0 < cnt -> data + cnt + HOST_PAGE_SIZE <= TREE_END + 2 ^ 16 ->
  wp (e_invalidate_full UseLinker data cnt) s (fun _ s' => exists T' rc, range_invalidated (page_start data) (page_up (data + cnt)) 0 s T s' T' rc).
Proof. apply e_invalidate_full_spec. Qed.

(** [e_invalidate_dirty] drops blocks only because of a stale byte in one of
    their pages, and leaves no stale byte in the range. *)
Theorem e_invalidate_dirty_correct addr aend s T :
  trees_ok s T None -> 0 <= addr <= aend -> addr mod HOST_PAGE_SIZE = 0 -> aend < ADDR_END ->
  wp (e_invalidate_dirty UseLinker addr aend) s (fun _ s' => exists T', pages_dropped s T s' T' /\ clean_from s' addr (aend + 1)).
Proof. apply e_invalidate_dirty_spec. Qed.

(** C13: e_invalidate_dirty_full terminates, drops a block only when a page it
    touches has a byte that is not the translated one, and afterwards every
    translated byte is the byte in memory. *)
Theorem dirty_full_coherent s T :
  trees_ok s T None ->
  wp (e_invalidate_dirty_full UseLinker) s (fun _ s' => exists T', pages_dropped s T s' T' /\ coherent (tmarks s')).
Proof. apply e_invalidate_dirty_full_spec. Qed.

End dirty.
