(* ===== verification/TlbTrees.v ===== *)
(** * Writes to translated code (simx86/codegen-sim.c, trees.c)

    A write of the simulated CPU goes through the software TLB (Tlb.v); when
    its page is protected the fault handler drops the blocks that cover the
    written bytes (Trees.v), then the write is made.  Here the two meet: the
    tree of blocks is kept in the state that an access may change, next to the
    video hardware. *)

From stdpp Require Import base numbers list gmap.
From Stdlib Require Import ZArith Lia.
From S2P Require Import Prelude Dosmem Machine SimCpu SimMem Marks MarksInv MarksQuery MarksPages MarksProt MarksMark MarksFetch Tlb TlbSpec Fhmap Trees TreesLinks TreesInv TreesRemove TreesSpec TreesAdd TreesDirty.

Local Open Scope Z_scope.

(** What [trees] has beside the marks. *)
Record code_tree := MkCodeTree {
  ct_nodes : gmap Z TNode; ct_map : fhmap; ct_code : Z -> IGen; ct_bufs : gset Z; ct_broken : Z;
}.

Section handler.
Context {V : Type} `{CodeMem (gmem V)} (UseLinker : bool).
(** The tree in the state of the program. *)
Context (get_tree : V -> code_tree) (put_tree : code_tree -> V -> V).
Implicit Types m : marks (gmem V).

Definition trees_of m : trees (gmem V) :=
  let r := get_tree (video (guest m)) in MkTrees (ct_nodes r) (ct_map r) m (ct_code r) (ct_bufs r) (ct_broken r).
Definition tree_in (s : trees (gmem V)) : code_tree := MkCodeTree (nodes s) (CollectTree s) (code s) (bufs s) (BrokenCodePtr s).
Definition marks_of (s : trees (gmem V)) : marks (gmem V) :=
  (tmarks s) <| guest ::= fun g => g <| video ::= put_tree (tree_in s) |> |>.

Definition on_trees {A} (c : M (trees (gmem V)) A) : M (marks (gmem V)) A := zoom trees_of (fun s _ => marks_of s) c.

(** [emu_pagefault_handler] with [currentIG] at [eip] *)
Definition sim_fault_handler (in_emu_cpu : bool) (eip : Z) (msdos_ldt_access : Z -> bool)
    (emu_ldt_write : Z -> Z -> Z -> M (marks (gmem V)) unit) : sim_pagefault_handler (V := V) (E := pagefault) :=
  emu_pagefault_handler in_emu_cpu (fun a len => on_trees (e_invalidate UseLinker a len))
    (fun a len => on_trees (InvalidateNodeRangeFromFault UseLinker a len eip)) msdos_ldt_access emu_ldt_write.

End handler.

(** The trees of [s'] and [s] are the same, and their marks agree. *)
Section same.
Context {G1 G2 : Type} `{CodeMemLaws G1} `{CodeMemLaws G2}.
Context (UseLinker : bool).

Lemma trees_remarked (s : trees G1) (s' : trees G2) T :
  TreesInv.trees_ok UseLinker s T None -> nodes s' = nodes s -> CollectTree s' = CollectTree s -> code s' = code s -> bufs s' = bufs s ->
  marks_ok (tmarks s') -> MpH (tmarks s') = MpH (tmarks s) -> TreesInv.trees_ok UseLinker s' T None.
Proof.
  intros Hs En Et Ec Eb Hm EM. pose proof (tr_map _ _ _ _ Hs) as Hmap. destruct Hs as [H3 H4 _ H6 H7 _ H9 H10 H11 H12].
  assert (forall a, starts (tmarks s') a = starts (tmarks s) a /\ marked (tmarks s') a = marked (tmarks s) a) as Ev.
  { intros a. unfold starts, marked, map_of. by rewrite EM. }
  constructor; unfold net_ok, linker_ok, key_of in *; rewrite ?En, ?Et, ?Ec, ?Eb; try done.
  - intros a Ha. rewrite (proj1 (Ev a)). by apply H9.
  - intros a Ha. rewrite (proj2 (Ev a)). by apply H10.
Qed.

End same.

Section write.
Context {V : Type} (env : access_env V) (jit : option (Z -> Z -> Z -> Z)).
Hypothesis jit_ok : forall f b n p, jit = Some f -> 0 <= f b n p.
Hypothesis Henv : env_ok env.
Context (UseLinker : bool).
Context (get_tree : V -> code_tree) (put_tree : code_tree -> V -> V).
Hypothesis get_put : forall r v, get_tree (put_tree r v) = r.
#[local] Instance write_code_mem : CodeMem (gmem V) := gmem_code_mem env jit.
#[local] Instance write_laws : CodeMemLaws (gmem V) := gmem_laws env jit jit_ok.
Implicit Types (m : marks (gmem V)) (s : trees (gmem V)) (T : gmap Z Z) (nd : TNode).
#[local] Set Default Proof Using "Type*".

Abbreviation trees_ok := (TreesInv.trees_ok UseLinker).
Abbreviation trees_of := (trees_of get_tree).
Abbreviation marks_of := (marks_of put_tree).

Lemma video_ok m f : marks_ok m -> marks_ok (m <| guest ::= fun g => g <| video ::= f |> |>).
Proof using Type. intros [E1 E2 E3 E4 E5 E6 [G1 G2 G3]]. constructor; try done. Qed.

Lemma put_ok s T : trees_ok s T None -> trees_ok (trees_of (marks_of s)) T None.
Proof.
  intros Hs. unfold TlbTrees.trees_of. cbn [guest video marks_of upd]. apply (trees_remarked UseLinker s); [done|..].
  1-4: cbn [nodes CollectTree code bufs]; unfold TlbTrees.marks_of; cbn [guest video upd]; by rewrite get_put.
  - apply video_ok, Hs.
  - done.
Qed.

(** From [m], [T] to [m'], [T'] by the write of [n] bytes [v] at [a], by the
    operation at [eip]: the blocks that cover one of the bytes are gone when
    the bytes change. *)
Record code_written (n : nat) (a v eip : Z) m T m' T' : Prop := {
  cw_ok : trees_ok (trees_of m') T' None;
  cw_sub k p : T' !! k = Some p -> T !! k = Some p;
  cw_gone k p nd : T !! k = Some p -> nodes (trees_of m) !! p = Some nd -> T' !! k = None <-> hits a (a + Z.of_nat n) k nd;
  cw_left k p nd : T' !! k = Some p -> nodes (trees_of m) !! p = Some nd -> exists nd', nodes (trees_of m') !! p = Some nd' /\ same_block nd nd';
  cw_run k p nd : T !! k = Some p -> nodes (trees_of m) !! p = Some nd -> hits a (a + Z.of_nat n) k nd -> runs eip nd = true ->
    BrokenCodePtr (trees_of m') = n_addr nd /\ n_addr nd ∈ bufs (trees_of m');
  cw_bytes : exists m2, trees_ok (trees_of m2) T' None /\ (forall b, gbyte env (guest m2) b = gbyte env (guest m) b) /\
    m' = store_at n (dosaddr_to_unixaddr env (phys (guest m)) a) v m2;
}.

Lemma store_kept n p v m T : trees_ok (trees_of m) T None -> trees_ok (trees_of (store_at n p v m)) T None.
Proof using Type.
  intros Hs. apply (trees_remarked UseLinker (trees_of m)); try done. apply (store_at_ok env jit jit_ok). apply (tr_marks _ _ _ _ Hs).
Qed.

Lemma written_of n a v eip m m1 T s2 T' rc :
  trees_ok (trees_of m) T None -> access_step env jit jit_ok m m1 ->
  range_invalidated UseLinker a (a + Z.of_nat n) eip (trees_of m1) T s2 T' rc ->
  code_written n a v eip m T (store_at n (dosaddr_to_unixaddr env (phys (guest m)) a) v (marks_of (s2 <| BrokenCodePtr := rc |>))) T'.
Proof.
  intros Hs Hst [Hi Ht _]. set (s3 := s2 <| BrokenCodePtr := rc |>). set (m' := store_at _ _ _ (marks_of s3)).
  assert (trees_ok s3 T' None) as Hs3 by (destruct (iv_ok _ _ _ _ _ _ _ _ _ Hi); by constructor).
  assert (trees_of m1 = (trees_of m) <| tmarks := m1 |>) as E1 by (unfold TlbTrees.trees_of; by rewrite (as_video _ _ _ _ _ Hst)). rewrite E1 in *.
  assert (nodes (trees_of m') = nodes s2 /\ bufs (trees_of m') = bufs s2 /\ BrokenCodePtr (trees_of m') = rc) as (E2 & E3 & E4).
  { unfold TlbTrees.trees_of, m', store_at, TlbTrees.marks_of. cbn [guest video upd nodes bufs BrokenCodePtr]. by rewrite get_put. }
  pose proof (proj1 (proj2 (tr_net _ _ _ _ Hs))) as Hreg.
  constructor.
  - by apply store_kept, put_ok.
  - apply Hi.
  - intros k p nd Et En. by apply (Ht k p nd).
  - intros k p nd Et En. rewrite E2. by apply (iv_left _ _ _ _ _ _ _ _ _ Hi k p nd).
  - intros k p nd Et En Hh Hrun. rewrite E3, E4.
    assert (gone ((trees_of m) <| tmarks := m1 |>) T T' k p nd) as Hg by (split; [done|]; split; [done|by apply (Ht k p nd)]).
    assert (rc = n_addr nd) as ->.
    { destruct (iv_rc _ _ _ _ _ _ _ _ _ Hi) as [[_ Hno]|(k' & p' & nd' & F1 & F2 & F3)]; [rewrite (Hno k p nd Hg) in Hrun; done|].
      pose proof F1 as (_ & G1 & _). change (nodes (trees_of m) !! p' = Some nd') in G1. assert (p' = p) as -> by (by eapply (runs_one (trees_of m))). assert (nd' = nd) as -> by congruence. done. }
    split; [done|]. apply (iv_bufs _ _ _ _ _ _ _ _ _ Hi). split; [by apply (tr_bufs _ _ _ _ Hs p)|by right].
  - exists (marks_of s3). split; [by apply put_ok|]. split; [|done]. intros b. transitivity (gbyte env (guest m1) b).
    + exact (iv_bytes _ _ _ _ _ _ _ _ _ Hi b).
    + unfold gbyte. by rewrite (as_phys _ _ _ _ _ Hst).
Qed.

(** C17: A write of 1, 2 or 4 bytes by the simulated CPU, inside one protected
    page that it may access, outside the VGA windows and below the end of the
    address range of translated code, goes through the fault handler: every
    block that covers a written byte is removed from the tree before the bytes
    change, every other block is kept, then exactly these bytes change. Of a
    removed block that is running the buffer is kept. *)
Theorem self_modifying_write n a v eip m T ldt ldt_write :
  (n = 1 \/ n = 2 \/ n = 4)%nat -> trees_ok (trees_of m) T None -> 0 <= a -> a + Z.of_nat n <= TREE_END -> a mod PAGE_SIZE + Z.of_nat n <= PAGE_SIZE ->
  protected m a = true -> vga_write_access env a = false -> (below_dpmi a || dpmi_write_access env a) = true ->
  wpx (do_write env (sim_fault_handler UseLinker get_tree put_tree true eip ldt ldt_write) n a v) m
    (fun _ m' => exists T', code_written n a v eip m T m' T') (fun _ _ => False).
Proof.
  intros Hn Hs Ha Hend Hpg Hp Hv Hacc. unfold TREE_END in Hend. pose proof (tr_marks _ _ _ _ Hs) as Hm. change (tmarks (trees_of m)) with m in Hm.
  apply (protected_write_seen env jit jit_ok Henv); try done; [lia|]. intros m1 Hst.
  assert (trees_ok (trees_of m1) T None) as Hs1.
  { apply (trees_remarked UseLinker (trees_of m)); [done|..|apply Hst|apply Hst]; unfold TlbTrees.trees_of; by rewrite (as_video _ _ _ _ _ Hst). }
  assert (nodes (trees_of m1) = nodes (trees_of m) /\ bufs (trees_of m1) = bufs (trees_of m)) as [En1 Eb1] by (unfold TlbTrees.trees_of; by rewrite (as_video _ _ _ _ _ Hst)).
  split.
  - intros _. apply wp_zoom. unfold InvalidateNodeRangeFromFault. wp_step.
    eapply wp_mono; [apply (DoInvalidateNodeRange_spec UseLinker a (Z.of_nat n) eip (trees_of m1) T); [done|done|lia|unfold TREE_END; lia]|].
    intros rc s2 (T' & Hr). cbn beta. wp_step. exists T'.
    set (s3 := s2 <| BrokenCodePtr := rc |>). eapply written_of; [done|exact Hst|exact Hr].
  - intros Hno. exists T. pose proof (nothing_hit UseLinker a (a + Z.of_nat n) eip _ _ T Hs ltac:(lia) (calm_refl (trees_of m) Hm) Hs Hno) as Hr.
    constructor.
    + by apply store_kept.
    + done.
    + intros k p nd Et En. by apply (ri_tree _ _ _ _ _ _ _ _ _ Hr k p nd).
    + intros k p nd Et En. exists nd. split; [|apply same_block_refl]. change (nodes (trees_of m1) !! p = Some nd). by rewrite En1.
    + intros k p nd Et En Hh _. apply (ri_tree _ _ _ _ _ _ _ _ _ Hr k p nd Et En) in Hh. congruence.
    + exists m1. split; [done|]. split; [|done]. intros b. unfold gbyte. by rewrite (as_phys _ _ _ _ _ Hst).
Qed.

End write.
