(* ===== verification/Produce.v ===== *)
(** * From instructions to a block (simx86/codegen.c, interp.c)

    The instructions that have been translated, each with its intermediate
    code, and the steps that make a block of them: [NewIMeta], the calls of
    [Gen] for the end of a block, [OptimizeCode], [ProduceCode], [Close] and
    [DoClose].  [InstrMeta] up to [CurrIMeta] is a list; fields of an [IGen]
    that its operation does not use are 0. *)

From stdpp Require Import base numbers list gmap.
From Stdlib Require Import ZArith Lia.
From S2P Require Import Prelude Machine SimCpu SimMem Marks MarksRange Fhmap Trees TreesAdd.

Local Open Scope Z_scope.

Definition MAXINODES : Z := 4096.
Definition NUMGENS : Z := 16.
Definition MAX_GEND_BYTES_PER_OP : Z := 76.
Definition IGEN_SIZE : Z := 32.    (* sizeof(IGen) *)
Definition MOPT : Z := 0x10000000.
Definition F_PREJ : Z := 0x10.
Definition L_REG_op : Z := 10.
Definition L_IMM_op : Z := 13.
Definition O_PUSH1_op : Z := 85.
Definition O_POP1_op : Z := 89.
Definition O_MOVS_SavA_op : Z := 102.
Definition EXCP01_SSTP : Z := 2.

Record IMeta := MkIMeta { npc : Z; i_flags : Z; gen : list IGen }.
#[export] Instance eta_IMeta : Eta IMeta := fun x => MkIMeta x.(npc) x.(i_flags) x.(gen).

(** [CurrIMeta] is [length I - 1]. *)
Definition NewIMeta (pc override : Z) (I : list IMeta) : option (list IMeta) :=
  if Z.of_nat (length I) - 1 <? MAXINODES - 2 + override then Some (I ++ [MkIMeta pc 0 []]) else None.

(** ** The peephole optimizer *)

Definition removable (lastIG firstIG : IGen) : bool :=
  has (mode firstIG) MOPT && (mode firstIG =? mode lastIG) &&
  (((op lastIG =? O_PUSH3) && (op firstIG =? O_PUSH1_op)) ||
   ((op lastIG =? O_POP3) && (op firstIG =? O_POP1_op)) ||
   ((op lastIG =? O_MOVS_SavA_op) && (op firstIG =? L_REG_op))).

(** The code of an instruction and of the next one. *)
Definition optimize (l l1 : list IGen) : list IGen * list IGen :=
  match last l, l1 with
  | Some lastIG, firstIG :: l1' =>
    if removable lastIG firstIG then (if op lastIG =? O_MOVS_SavA_op then l else removelast l, l1') else (l, l1)
  | _, _ => (l, l1)
  end.

(** The code of a block, instruction by instruction. *)
Fixpoint optimized (l : list IGen) (rest : list IMeta) : list (list IGen) :=
  match rest with
  | [] => [l]
  | I1 :: rest => let (l, l1) := optimize l (gen I1) in l :: optimized l1 rest
  end.

Definition block_code (I : list IMeta) : list IGen :=
  match I with [] => [] | I0 :: rest => concat (optimized (gen I0) rest) end.

Section produce.
Context {G : Type} `{CodeMem G}.
Context (UseLinker : bool) (junk : bytes).
(** [calloc] for a node and [mspace_malloc] for a buffer; 0 is NULL. *)
Context (calloc : trees G -> Z) (mspace_malloc : trees G -> Z -> Z).
Implicit Types s : trees G.

(** [Gen]: one more operation of the last instruction. *)
Definition Gen (ig : IGen) (I : list IMeta) : M (trees G) (list IMeta) :=
  match last I with
  | None => throw OutOfBounds
  | Some GL =>
    if NUMGENS <=? Z.of_nat (length (gen GL)) then throw LeaveDos
    else ret (removelast I ++ [GL <| gen ::= fun l => l ++ [ig] |>])
  end.

Definition JMPGen (o md pc : Z) (I : list IMeta) : M (trees G) (list IMeta) :=
  let! I := if has md MTRAP then Gen (MkIGen L_IMM_op md Ofs_ERR EXCP01_SSTP 0 0 0 0) I else ret I in
  Gen (MkIGen o md pc 0 0 0 0 0) I.

(** [I->gen[I->ngen-1]] and [I1->gen[0]] are read whatever [ngen] is. *)
Definition OptimizeCode (I0 I1 : IMeta) : M (trees G) (IMeta * IMeta) :=
  match gen I0, gen I1 with
  | _ :: _, _ :: _ => let (l, l1) := optimize (gen I0) (gen I1) in ret (I0 <| gen := l |>, I1 <| gen := l1 |>)
  | _, _ => throw OutOfBounds
  end.

Definition AllocGenCodeBuf (n : Z) : M (trees G) Z :=
  let! s := get in
  let p := mspace_malloc s n in
  assert (truth p) ;; modify (fun s => s <| bufs ::= fun b => {[p]} ∪ b |>) ;; ret p.

(** The operations of one instruction, to [cp] in the buffer [base]. *)
Fixpoint produce_gen (base cp : Z) (l : list IGen) (n : TNode) : M (trees G) (Z * TNode) :=
  match l with
  | [] => ret (cp, n)
  | IG :: l =>
    let! n :=
      if op IG =? JMP_LINK then
        let k := u32 (cp - base) in
        assert (truth k) ;;
        let exit L := L <| l_link := k |> <| l_target := p0 IG |> in
        ret (match l with [] => n <| clink_t ::= exit |> | _ => n <| clink_nt ::= exit |> end)
      else ret n in
    CodeGen_sim cp IG ;;
    (if MAX_GEND_BYTES_PER_OP <? IGEN_SIZE then throw LeaveDos else ret tt) ;;
    produce_gen base (cp + IGEN_SIZE) l n
  end.

Definition i16 (x : Z) : Z := (x + 2 ^ 15) mod 2 ^ 16 - 2 ^ 15.

(** The instructions [I0] and [rest] of the block that starts at [k]. *)
Fixpoint produce_loop (base cp k : Z) (I0 : IMeta) (rest : list IMeta) (n : TNode) : M (trees G) (Z * TNode) :=
  let one I0 := let! (cp', n) := produce_gen base cp (gen I0) n in
    ret (cp', n <| n_flags ::= fun f => u16 (Z.lor f (i_flags I0)) |>
                <| meta ::= fun l => l ++ [MkPc (u32 (cp - base)) (i16 (npc I0 - k))] |>) in
  match rest with
  | [] => one I0
  | I1 :: rest =>
    let! (I0, I1) := OptimizeCode I0 I1 in
    let! (cp, n) := one I0 in
    produce_loop base cp k I1 rest n
  end.

Definition blank_node : TNode :=
  MkNode 0 0 0 0 0 0 0 (MkLink 0 0 None) (MkLink 0 0 None) [] 0 0 [].

Definition gen_buf_size (I : list IMeta) : Z := zsum (fun I => Z.of_nat (length (gen I)) * MAX_GEND_BYTES_PER_OP) I.

(** The node is filled in before anything else reads it. *)
Definition ProduceCode (PC : Z) (I : list IMeta) : M (trees G) Z :=
  let! s := get in
  let g := calloc s in
  assert (truth g) ;;
  match I with
  | [] => throw LeaveDos
  | I0 :: rest =>
    let k := npc I0 in
    let! base := AllocGenCodeBuf (gen_buf_size I + 32) in
    let! (cp, n) := produce_loop base base k I0 rest (blank_node <| key := k |> <| seqnum := u16 (Z.of_nat (length I)) |>) in
    (if gen_buf_size I <? cp - base then throw LeaveDos else ret tt) ;;
    let n := n <| meta ::= fun l => l ++ [MkPc (u32 (cp - base)) 0] |> <| n_len := u32 (cp - base) |>
               <| seqlen := u16 (PC - k) |> <| n_addr := base |> in
    modify (fun s => s <| nodes ::= insert g n |>
      <| CollectTree ::= fun t => t <| bs ::= fun x => x <| ents ::= insert g blank_ent |> |> |>) ;;
    ret g
  end.

Definition Close (PC cs md : Z) (I : list IMeta) : M (trees G) Z :=
  assert (negb (match I with [] => true | _ => false end)) ;;
  let! g := ProduceCode PC I in
  close_node UseLinker g cs md ;; ret g.

(** The tail of a block that does not end with a jump. *)
Definition add_tail (PC md : Z) (linked : bool) (I : list IMeta) : M (trees G) (list IMeta) :=
  match last I ≫= fun GL => last (gen GL) with
  | None => throw OutOfBounds
  | Some ig => if op ig <? JMP_TAILCODE then JMPGen (if linked then JMP_LINK else JMP_TAILCODE) md PC I else ret I
  end.

(** The blocks in the range of the new one are dropped; [true] when its pages
    are gone and a prejit thread gives up. *)
Definition clear_range (P0 PC flags : Z) : M (trees G) bool :=
  let! marked := on_marks (e_querymark P0 (PC - P0)) in
  if negb marked then ret false
  else
    InvalidateNodeRange UseLinker (i32 P0) (PC - P0) ;;
    let! full := on_marks (e_querymprotrange_full P0 (PC - P0)) in
    if full : bool then ret false
    else if has flags F_PREJ then ret true
    else
      let abeg := page_start P0 in
      let aend := page_start PC in
      on_marks (fetch_pages junk (S (S (Z.to_nat ((aend - abeg) / HOST_PAGE_SIZE)))) abeg aend) ;; ret false.

(** [nextG] is the node at [PC] when there is one. *)
Definition DoClose (PC cs md flags : Z) (nextG : option Z) (I : list IMeta) : M (trees G) (option Z) :=
  match I with
  | [] => throw AssertFailed
  | I0 :: _ =>
    let P0 := u32 (npc I0) in
    let! I := add_tail PC md (match nextG with Some _ => true | None => false end) I in
    assert (P0 <? PC) ;;
    let! quit := clear_range P0 PC flags in
    if quit : bool then ret None
    else
      let! g := Close PC cs md I in
      (match nextG with Some h => NodeLinker UseLinker g h | None => ret tt end) ;;
      ret (Some g)
  end.

End produce.
