(* ===== verification/ProduceSpec.v ===== *)
(** * From instructions to a block: the node that is made

    [ProduceCode] writes the optimized operations to the buffer one after the
    other; the exits of the node are its jumps, unlinked. *)

From stdpp Require Import base numbers list gmap sorting.
From Stdlib Require Import ZArith Lia.
From S2P Require Import Prelude Machine SimCpu SimMem Marks MarksInv MarksRange Fhmap Trees TreesLinks TreesInv TreesAdd Produce.

Local Open Scope Z_scope.

Implicit Types (n : TNode) (c : Z -> IGen) (l : list IGen).

(** An operation as the translator makes it. *)
Definition fresh_op (g : IGen) : Prop := has (mode g) MPATCH = false /\ (op g = JMP_LINK -> has (mode g) MLINK = false).

(** The optimizer does not leave an instruction without operations. *)
Definition solid l : Prop :=
  match l with [] => False | [g] => has (mode g) MOPT = false | _ :: _ :: _ => True end.

(** The instructions of a block from [k] up to [PC]. *)
Record insns_ok (k PC : Z) (I : list IMeta) : Prop := {
  in_first : exists I0 g l rest, I = I0 :: rest /\ npc I0 = k /\ gen I0 = g :: l /\ op g <> JMP_LINK;
  in_ops : Forall (fun I => solid (gen I) /\ Forall fresh_op (gen I)) I;
  in_count : Z.of_nat (length I) <= MAXINODES /\ Forall (fun I => Z.of_nat (length (gen I)) <= NUMGENS) I;
  in_low : 0 <= k;
  in_len : 0 < PC - k < 2 ^ 16;
  in_high : PC <= TREE_END;
  in_edge : offset PC <> 0;
}.

(** ** The optimizer *)

Lemma optimize_cases l l1 :
  optimize l l1 = (l, l1) \/
  exists a f b, l1 = f :: b /\ last l = Some a /\ removable a f = true /\
    optimize l l1 = (if op a =? O_MOVS_SavA_op then l else removelast l, b).
Proof.
  unfold optimize. destruct (last l) as [a|] eqn:El; [|by left]. destruct l1 as [|f b]; [by left|]. destruct (removable a f) eqn:Er; [|by left].
  right. by exists a, f, b.
Qed.

Lemma removable_opt a f : removable a f = true -> has (mode f) MOPT = true /\ has (mode a) MOPT = true.
Proof. unfold removable. intros E. apply andb_prop in E as [E _]. apply andb_prop in E as [E1 E2]. apply Z.eqb_eq in E2. by rewrite <- E2. Qed.

Lemma optimize_ops (P : IGen -> Prop) l l1 l' l1' :
  optimize l l1 = (l', l1') -> Forall P l -> Forall P l1 -> Forall P l' /\ Forall P l1'.
Proof.
  intros E Hl H1. destruct (optimize_cases l l1) as [E'|(a & f & b & -> & _ & _ & E')]; rewrite E in E'; injection E' as -> ->; [done|].
  apply Forall_cons in H1 as [_ H1]. split; [|done]. destruct (_ =? _); [done|]. apply Forall_forall. intros x Hx. rewrite Forall_forall in Hl. apply Hl.
  clear - Hx. induction l as [|y l IH]; [done|]. destruct l as [|z l]; [by apply elem_of_nil in Hx|]. apply elem_of_cons in Hx as [->|Hx]; [by left|right; by apply IH].
Qed.

Lemma optimize_length l l1 l' l1' : optimize l l1 = (l', l1') -> (length l' <= length l)%nat /\ (length l1' <= length l1)%nat.
Proof.
  intros E. destruct (optimize_cases l l1) as [E'|(a & f & b & -> & _ & _ & E')]; rewrite E in E'; injection E' as -> ->; [lia|]. simpl.
  split; [|lia]. destruct (_ =? _); [lia|]. clear. induction l as [|y l IH]; [done|]. destruct l; simpl in *; lia.
Qed.

(** The next instruction keeps an operation. *)
Lemma optimize_next l l1 l' l1' : optimize l l1 = (l', l1') -> solid l1 -> l1' <> [].
Proof.
  intros E Hs. destruct (optimize_cases l l1) as [E'|(a & f & b & -> & _ & Er & E')]; rewrite E in E'; injection E' as -> ->.
  - by intros ->.
  - intros ->. simpl in Hs. destruct (removable_opt _ _ Er). congruence.
Qed.

(** The first instruction keeps its first operation. *)
Lemma optimize_first g l l1 l' l1' : optimize (g :: l) l1 = (l', l1') -> solid (g :: l) -> exists t, l' = g :: t.
Proof.
  intros E Hs. destruct (optimize_cases (g :: l) l1) as [E'|(a & f & b & -> & El & Er & E')]; rewrite E in E'; injection E' as -> ->; [by eexists|].
  destruct (_ =? _); [by eexists|]. destruct l as [|h l]; [|by eexists]. simpl in El, Hs. injection El as ->. destruct (removable_opt _ _ Er). congruence.
Qed.

(** ** The exits *)

(** The code of a block, one list for each of its instructions. *)
Definition block_parts (I : list IMeta) : list (list IGen) := match I with [] => [] | I0 :: rest => optimized (gen I0) rest end.

(** Where the code of instruction [i] starts. *)
Definition insn_start (parts : list (list IGen)) (i : nat) : Z := IGEN_SIZE * Z.of_nat (length (concat (take i parts))).

(** The code has a jump to [t] at [k]: the jump that ends its instruction is
    the one taken, any other jump is the one not taken. *)
Definition exit_at (parts : list (list IGen)) (b : branch) (k t : Z) : Prop :=
  exists (i j : nat) l g, parts !! i = Some l /\ l !! j = Some g /\ op g = JMP_LINK /\ t = p0 g /\
    k = insn_start parts i + IGEN_SIZE * Z.of_nat j /\ b = (if decide (S j = length l) then BT else BN).

(** [L] is the last exit of its kind, or is blank when there is none. *)
Definition last_exit (parts : list (list IGen)) (b : branch) L : Prop :=
  (l_link L = 0 /\ l_target L = 0 /\ forall k t, ~ exit_at parts b k t) \/
  (exit_at parts b (l_link L) (l_target L) /\ forall k t, exit_at parts b k t -> k <= l_link L).

(** The exits of the code at [off], in order. *)
Fixpoint exits (off : Z) l : list (branch * Z * Z) :=
  match l with
  | [] => []
  | g :: l => (if op g =? JMP_LINK then [(match l with [] => BT | _ => BN end, off, p0 g)] else []) ++ exits (off + IGEN_SIZE) l
  end.

Fixpoint all_exits (off : Z) (parts : list (list IGen)) : list (branch * Z * Z) :=
  match parts with [] => [] | l :: parts => exits off l ++ all_exits (off + IGEN_SIZE * Z.of_nat (length l)) parts end.

Definition record_exit (b : branch) L (e : branch * Z * Z) : linkdesc :=
  let '(b', k, t) := e in if decide (b' = b) then L <| l_link := k |> <| l_target := t |> else L.

Lemma insn_start_mono parts i j : (i <= j)%nat -> insn_start parts i <= insn_start parts j.
Proof.
  intros Hij. unfold insn_start, IGEN_SIZE. enough (length (concat (take i parts)) <= length (concat (take j parts)))%nat by lia.
  replace j with (i + (j - i))%nat by lia. rewrite <- take_take_drop, concat_app, length_app. lia.
Qed.

Lemma exits_elem b k t l : forall off, (b, k, t) ∈ exits off l <->
  exists j g, l !! j = Some g /\ op g = JMP_LINK /\ t = p0 g /\ k = off + IGEN_SIZE * Z.of_nat j /\ b = (if decide (S j = length l) then BT else BN).
Proof.
  induction l as [|g l IH]; intros off; cbn [exits]; [split; [by intros ?%elem_of_nil|by intros (j & g & ? & _)]|].
  rewrite elem_of_app, IH. split.
  - intros [E|(j & g' & E & E1 & E2 & E3 & E4)].
    + destruct (Z.eqb_spec (op g) JMP_LINK); [|by apply elem_of_nil in E]. apply list_elem_of_singleton in E. injection E as -> -> ->.
      exists 0%nat, g. split; [done|]. split; [done|]. split; [done|]. split; [lia|]. by destruct l.
    + exists (S j), g'. split; [done|]. split; [done|]. split; [done|]. split; [lia|]. rewrite E4. cbn [length]. repeat case_decide; congruence || lia.
  - intros ([|j] & g' & E & E1 & E2 & E3 & E4).
    + left. injection E as ->. rewrite E1, Z.eqb_refl. apply list_elem_of_singleton. rewrite E2, E3, E4. unfold IGEN_SIZE. rewrite Z.mul_0_r, Z.add_0_r. by destruct l.
    + right. exists j, g'. split; [done|]. split; [done|]. split; [done|]. split; [lia|]. rewrite E4. cbn [length]. repeat case_decide; congruence || lia.
Qed.

Lemma all_exits_elem b k t parts : forall off, (b, k, t) ∈ all_exits off parts <-> exit_at parts b (k - off) t.
Proof.
  induction parts as [|l parts IH]; intros off; cbn [all_exits]; [split; [by intros ?%elem_of_nil|by intros (i & j & l & g & ? & _)]|].
  rewrite elem_of_app, exits_elem, IH. unfold exit_at. split.
  - intros [(j & g & E & E1 & E2 & E3 & E4)|(i & j & l' & g & E & E1 & E2 & E3 & E4 & E5)].
    + exists 0%nat, j, l, g. unfold insn_start. cbn [take concat length]. split; [done|]. split; [done|]. split; [done|]. split; [done|]. split; [lia|done].
    + exists (S i), j, l', g. unfold insn_start in *. cbn [take concat]. rewrite length_app. repeat (split; [done || lia|]). done.
  - intros ([|i] & j & l' & g & E & E1 & E2 & E3 & E4 & E5).
    + left. injection E as ->. exists j, g. unfold insn_start in E4. cbn [take concat length] in E4. repeat (split; [done || lia|]). done.
    + right. exists i, j, l', g. unfold insn_start in *. cbn [take concat] in E4. rewrite length_app in E4. repeat (split; [done || lia|]). done.
Qed.

Lemma exits_bounds l e : forall off, e ∈ exits off l -> off <= e.1.2 < off + IGEN_SIZE * Z.of_nat (length l).
Proof.
  destruct e as [[b k] t]. intros off Hin. apply exits_elem in Hin as (j & g & E & _ & _ & -> & _). apply lookup_lt_Some in E. unfold IGEN_SIZE. simpl. lia.
Qed.

Definition before (e1 e2 : branch * Z * Z) : Prop := e1.1.2 <= e2.1.2.

Lemma exits_sorted l : forall off, StronglySorted before (exits off l).
Proof.
  induction l as [|g l IH]; intros off; cbn [exits]; [constructor|]. apply StronglySorted_app_2; [|destruct (_ =? _); repeat constructor|apply IH].
  intros e1 e2 H1 H2. apply exits_bounds in H2. destruct (op g =? JMP_LINK); [|by apply elem_of_nil in H1].
  apply list_elem_of_singleton in H1 as ->. unfold before, IGEN_SIZE in *. simpl. lia.
Qed.

Lemma all_exits_sorted parts : forall off, StronglySorted before (all_exits off parts).
Proof.
  induction parts as [|l parts IH]; intros off; cbn [all_exits]; [constructor|]. apply StronglySorted_app_2; [|apply exits_sorted|apply IH].
  intros e1 [[b k] t] H1 H2. apply exits_bounds in H1. apply all_exits_elem in H2 as (i & j & l2 & g & _ & _ & _ & _ & E & _).
  unfold before, insn_start, IGEN_SIZE in *. simpl. lia.
Qed.

Lemma record_last b es : forall L, StronglySorted before es ->
  foldl (record_exit b) L es = L /\ (forall k t, (b, k, t) ∉ es) \/
  exists k t, (b, k, t) ∈ es /\ foldl (record_exit b) L es = L <| l_link := k |> <| l_target := t |> /\ forall k' t', (b, k', t') ∈ es -> k' <= k.
Proof.
  induction es as [|[[b' k] t] es IH] using rev_ind; intros L Hs; [left; split; [done|by intros k t ?%elem_of_nil]|].
  pose proof (StronglySorted_app_1_l _ _ _ Hs) as Hs1. rewrite foldl_app. cbn [foldl record_exit]. case_decide as Eb.
  - subst b'. right. exists k, t. split; [set_solver|]. split.
    + destruct (IH L Hs1) as [[-> _]|(k' & t' & _ & -> & _)]; [done|by destruct L].
    + intros k' t' [Hin|Hin]%elem_of_app; [|apply list_elem_of_singleton in Hin; injection Hin; lia].
      apply (StronglySorted_app_1_elem_of _ _ _ (b, k', t') (b, k, t) Hs); [done|by left].
  - destruct (IH L Hs1) as [[E Hno]|(k' & t' & Hin & E & Hmax)].
    + left. split; [done|]. intros k' t' [Hin|Hin]%elem_of_app; [by eapply Hno|apply list_elem_of_singleton in Hin; injection Hin; congruence].
    + right. exists k', t'. split; [set_solver|]. split; [done|]. intros k2 t2 [Hin2|Hin2]%elem_of_app; [by eapply Hmax|apply list_elem_of_singleton in Hin2; injection Hin2; congruence].
Qed.

Lemma record_last_exit parts b : last_exit parts b (foldl (record_exit b) (MkLink 0 0 None) (all_exits 0 parts)).
Proof.
  assert (forall k t, (b, k, t) ∈ all_exits 0 parts <-> exit_at parts b k t) as E by (intros k t; by rewrite all_exits_elem, Z.sub_0_r).
  destruct (record_last b (all_exits 0 parts) (MkLink 0 0 None) (all_exits_sorted parts 0)) as [[-> Hno]|(k & t & Hin & -> & Hmax)]; [left|right].
  - split; [done|]. split; [done|]. intros k t. rewrite <- E. apply Hno.
  - cbn. split; [by apply E|]. intros k' t'. rewrite <- E. apply Hmax.
Qed.

(** ** The loops *)

(** The operations [l] from [cp] on. *)
Fixpoint laid c (cp : Z) l : Prop := match l with [] => True | g :: l => c cp = g /\ laid c (cp + IGEN_SIZE) l end.

Lemma laid_ext c c' l : forall cp, (forall i, cp <= i < cp + IGEN_SIZE * Z.of_nat (length l) -> c' i = c i) -> laid c cp l -> laid c' cp l.
Proof.
  unfold IGEN_SIZE. induction l as [|g l IH]; intros cp E Hl; [done|]. destruct Hl as [Hg Hl]. simpl length in E. split; [rewrite E; [done|lia]|].
  apply IH; [|done]. unfold IGEN_SIZE. intros i Hi. apply E. lia.
Qed.

Lemma laid_app c l l' : forall cp, laid c cp (l ++ l') <-> laid c cp l /\ laid c (cp + IGEN_SIZE * Z.of_nat (length l)) l'.
Proof.
  induction l as [|g l IH]; intros cp; [simpl; rewrite Z.mul_0_r, Z.add_0_r; tauto|]. cbn [app laid length]. rewrite IH.
  replace (cp + IGEN_SIZE * Z.of_nat (S (length l))) with (cp + IGEN_SIZE + IGEN_SIZE * Z.of_nat (length l)) by lia. tauto.
Qed.

Section loops.
Context {G : Type} `{CodeMemLaws G}.
Implicit Types s : trees G.
#[local] Set Default Proof Using "Type*".

(** The node [n] after [cp - base] bytes of code. *)
Record partial (base cp : Z) n c c0 : Prop := {
  pa_le : base <= cp;
  pa_link b : l_link (clink b n) <> 0 ->
    0 < l_link (clink b n) < cp - base /\
    let i := base + l_link (clink b n) in op (c i) = JMP_LINK /\ p0 (c i) = l_target (clink b n) /\ has (mode (c i)) MLINK = false;
  pa_diff : l_link (clink_t n) <> 0 -> l_link (clink_t n) <> l_link (clink_nt n);
  pa_ref b : l_ref (clink b n) = None;
  pa_bkr : bkr n = [];
  pa_out i : ~ (base <= i < cp) -> c i = c0 i;
}.

Definition new_exit (k : Z) (g : IGen) L : linkdesc := L <| l_link := k |> <| l_target := p0 g |>.
Definition with_exit (last : bool) (k : Z) (g : IGen) n : TNode :=
  if op g =? JMP_LINK then (if last then n <| clink_t ::= new_exit k g |> else n <| clink_nt ::= new_exit k g |>) else n.

Definition put_code (c : Z -> IGen) (cp : Z) (g : IGen) : Z -> IGen := fun i => if i =? cp then g else c i.

Lemma partial_step b0 base cp n c c0 g :
  partial base cp n c c0 -> fresh_op g -> (cp = base -> op g <> JMP_LINK) ->
  partial base (cp + IGEN_SIZE) (with_exit b0 (cp - base) g n) (put_code c cp g) c0.
Proof using Type.
  intros [P1 P2 P3 P4 P5 P6] [_ Hg] Hfirst. unfold IGEN_SIZE. set (n' := with_exit b0 (cp - base) g n).
  assert (forall b, clink b n' = clink b n \/ (op g = JMP_LINK /\ b = (if b0 then BT else BN) /\ clink b n' = new_exit (cp - base) g (clink b n))) as Hc.
  { intros b. unfold n', with_exit. destruct (Z.eqb_spec (op g) JMP_LINK); [|by left].
    destruct b0, b; try (by left); right; done. }
  assert (forall b, l_link (clink b n) <> cp - base \/ cp - base = 0) as Hne.
  { intros b. destruct (Z.eq_dec (l_link (clink b n)) 0); [lia|]. pose proof (P2 b ltac:(done)). lia. }
  assert (forall b, l_link (clink b n) < cp - base \/ (l_link (clink b n) = 0 /\ cp = base)) as Hlt.
  { intros b. destruct (Z.eq_dec (l_link (clink b n)) 0); [lia|]. pose proof (P2 b ltac:(done)). lia. }
  constructor.
  - lia.
  - intros b. destruct (Hc b) as [->|(Eg & _ & ->)].
    + intros Hl. destruct (P2 b Hl) as (Hr & E). split; [lia|]. unfold put_code. destruct (Z.eqb_spec (base + l_link (clink b n)) cp); [lia|done].
    + cbn [new_exit l_link l_target upd]. intros Hl. split; [lia|]. unfold put_code. replace (base + (cp - base)) with cp by lia. rewrite Z.eqb_refl.
      split; [done|]. split; [done|by apply Hg].
  - change (clink_t n') with (clink BT n'). change (clink_nt n') with (clink BN n').
    destruct (Hc BT) as [->|(Eg & E1 & ->)]; destruct (Hc BN) as [->|(Eg' & E2 & ->)]; [done|..]; cbn [new_exit l_link upd].
    + intros Ht. destruct (Hlt BT) as [|[? _]]; [lia|done].
    + intros Ht. destruct (Hlt BN) as [|[_ E]]; [lia|]. lia.
    + destruct b0; congruence.
  - intros b. destruct (Hc b) as [->|(_ & _ & ->)]; apply P4.
  - unfold n', with_exit. destruct (_ =? _); [destruct b0|]; exact P5.
  - intros i Hi. unfold put_code. destruct (Z.eqb_spec i cp); [lia|]. apply P6. lia.
Qed.

(** The exits [es] are recorded one after the other. *)
Definition links_put (es : list (branch * Z * Z)) n n' : Prop := forall b, clink b n' = foldl (record_exit b) (clink b n) es.

(** Nothing of the node but its exits. *)
Definition same_but_links n n' : Prop := n' = n <| clink_t := clink_t n' |> <| clink_nt := clink_nt n' |>.

Lemma CodeGen_fresh p g s (Q : unit -> trees G -> Prop) :
  has (mode g) MPATCH = false -> (forall c, (forall i, c i = put_code (code s) p g i) -> Q tt (s <| code := c |>)) -> wp (CodeGen_sim p g) s Q.
Proof using Type.
  intros Hm HQ. unfold CodeGen_sim. wp_step. rewrite Hm. apply (HQ (put_code (code s) p g)). done.
Qed.

Lemma partial_ext base cp n c c' c0 : (forall i, c' i = c i) -> partial base cp n c c0 -> partial base cp n c' c0.
Proof using Type. intros E [P1 P2 P3 P4 P5 P6]. constructor; try done.
  - intros b Hl. cbv zeta. rewrite !E. exact (P2 b Hl).
  - intros i Hi. rewrite E. auto.
Qed.

Lemma produce_gen_spec base c0 l : forall cp n s,
  partial base cp n (code s) c0 -> Forall fresh_op l -> (cp = base -> match l with g :: _ => op g <> JMP_LINK | [] => True end) ->
  cp - base + IGEN_SIZE * Z.of_nat (length l) < 2 ^ 32 ->
  wp (produce_gen base cp l n) s (fun r s' => fst r = cp + IGEN_SIZE * Z.of_nat (length l) /\ same_but_links n (snd r) /\
    links_put (exits (cp - base) l) n (snd r) /\ exists c, s' = s <| code := c |> /\ partial base (fst r) (snd r) c c0 /\ laid c cp l /\ forall i, i < cp -> c i = code s i).
Proof using Type.
  induction l as [|g l IH]; intros cp n s Hp Hl Hfirst Hsz; cbn [produce_gen].
  { wp_step. cbn [fst snd length]. split; [lia|]. split; [by destruct n|]. split; [done|]. exists (code s). split; [by destruct s|]. done. }
  apply Forall_cons in Hl as [Hg Hl]. pose proof (pa_le _ _ _ _ _ Hp) as Hle. cbn [length] in *. unfold IGEN_SIZE in *.
  set (last := match l with [] => true | _ => false end). set (n1 := with_exit last (cp - base) g n).
  wp_step. eapply (wp_mono _ _ (fun r s' => r = n1 /\ s' = s)).
  { unfold n1, with_exit. destruct (Z.eqb_spec (op g) JMP_LINK) as [E|]; [|wp_step; done]. rewrite u32_small by lia.
    wp_step. wp_step. { unfold truth. destruct (Z.eqb_spec (cp - base) 0); [|done]. destruct Hfirst; [lia|done]. }
    wp_step. by destruct l. }
  intros r s1 [-> ->]. cbn beta. wp_step. apply CodeGen_fresh; [apply Hg|]. intros c1 Hc1. wp_step. change (MAX_GEND_BYTES_PER_OP <? 32) with false. cbv iota. wp_step.
  assert (partial base (cp + 32) n1 (code (s <| code := c1 |>)) c0) as Hp1.
  { eapply partial_ext; [exact Hc1|]. apply (partial_step last); done. }
  eapply wp_mono; [apply (IH (cp + 32) n1 (s <| code := c1 |>)); [exact Hp1|done|lia|lia]|].
  intros [cp' n'] s' (E1 & E2 & E3 & c & -> & Hp' & Hlaid & Hbelow). cbn [fst snd] in *. split; [lia|]. split; [|split].
  - unfold same_but_links in *. rewrite E2. unfold n1, with_exit. destruct (_ =? _); [destruct last|]; by destruct n.
  - intros b. rewrite (E3 b). cbn [exits]. rewrite foldl_app. unfold IGEN_SIZE. replace (cp + 32 - base) with (cp - base + 32) by lia. f_equal.
    unfold n1, with_exit. destruct (_ =? _); [|done]. by destruct l, b.
  - exists c. split; [done|]. split; [done|]. split.
    + split; [|done]. rewrite Hbelow by lia. cbn [code upd]. rewrite Hc1. unfold put_code. by rewrite Z.eqb_refl.
    + intros i Hi. rewrite Hbelow by lia. cbn [code upd]. rewrite Hc1. unfold put_code. destruct (Z.eqb_spec i cp); [lia|done].
Qed.

(** The table of instructions: where the code of each one starts. *)
Fixpoint metas (off k : Z) (I0 : IMeta) (rest : list IMeta) : list Addr2Pc :=
  match rest with
  | [] => [MkPc off (i16 (npc I0 - k))]
  | I1 :: rest => let (l, l1) := optimize (gen I0) (gen I1) in
    MkPc off (i16 (npc I0 - k)) :: metas (off + IGEN_SIZE * Z.of_nat (length l)) k (I1 <| gen := l1 |>) rest
  end.

Lemma metas_length k rest : forall off I0, length (metas off k I0 rest) = S (length rest).
Proof using Type.
  induction rest as [|I1 rest IH]; intros off I0; [done|]. cbn [metas]. destruct (optimize _ _). cbn [length]. by rewrite IH.
Qed.

Lemma metas_range k rest : forall off I0, 0 <= off -> gen I0 <> [] -> Forall (fun I => solid (gen I)) rest ->
  Forall (fun A => off <= daddr A < off + IGEN_SIZE * Z.of_nat (length (concat (optimized (gen I0) rest)))) (metas off k I0 rest).
Proof using Type.
  unfold IGEN_SIZE. induction rest as [|I1 rest IH]; intros off I0 Hoff Hne Hs; cbn [metas optimized].
  { apply Forall_singleton. simpl. rewrite app_nil_r. destruct (gen I0); [done|]. cbn [length]. lia. }
  apply Forall_cons in Hs as [Hs1 Hs]. destruct (optimize (gen I0) (gen I1)) as [l l1] eqn:E. pose proof (optimize_next _ _ _ _ E Hs1) as Hne1.
  specialize (IH (off + 32 * Z.of_nat (length l)) (I1 <| gen := l1 |>)). cbn [gen upd] in IH. cbn [concat]. rewrite length_app.
  assert (exists A, A ∈ metas (off + 32 * Z.of_nat (length l)) k (I1 <| gen := l1 |>) rest) as [A HA].
  { pose proof (metas_length k rest (off + 32 * Z.of_nat (length l)) (I1 <| gen := l1 |>)) as Hlen.
    destruct (metas _ _ _ _) as [|A ?]; [done|]. exists A. by left. }
  specialize (IH ltac:(lia) Hne1 Hs). pose proof (proj1 (Forall_forall _ _) IH A HA) as HA'. simpl in HA'.
  apply Forall_cons. split; [simpl; lia|]. eapply Forall_impl; [exact IH|]. simpl. lia.
Qed.

Lemma metas_lookup k rest : forall off I0 i I', (I0 :: rest) !! i = Some I' ->
  metas off k I0 rest !! i = Some (MkPc (off + insn_start (optimized (gen I0) rest) i) (i16 (npc I' - k))).
Proof using Type.
  unfold insn_start. induction rest as [|I1 rest IH]; intros off I0 i I' E; cbn [metas optimized].
  - destruct i as [|i]; [|done]. injection E as ->. cbn [take concat length lookup list_lookup]. by rewrite Z.mul_0_r, Z.add_0_r.
  - destruct (optimize (gen I0) (gen I1)) as [l l1]. destruct i as [|i].
    + injection E as ->. cbn [take concat length lookup list_lookup]. by rewrite Z.mul_0_r, Z.add_0_r.
    + cbn [take concat]. rewrite lookup_cons, length_app, Nat2Z.inj_add, Z.mul_add_distr_l, Z.add_assoc.
      destruct i as [|i].
      * injection E as <-. exact (IH (off + IGEN_SIZE * Z.of_nat (length l)) (I1 <| gen := l1 |>) 0%nat (I1 <| gen := l1 |>) eq_refl).
      * exact (IH (off + IGEN_SIZE * Z.of_nat (length l)) (I1 <| gen := l1 |>) (S i) I' E).
Qed.

Definition filled (ms : list Addr2Pc) n n' : Prop :=
  n' = n <| clink_t := clink_t n' |> <| clink_nt := clink_nt n' |> <| n_flags := n_flags n' |> <| meta := meta n ++ ms |>.

Lemma produce_loop_spec base k c0 rest : forall I0 cp n s,
  partial base cp n (code s) c0 -> Forall fresh_op (gen I0) -> gen I0 <> [] ->
  Forall (fun I => solid (gen I) /\ Forall fresh_op (gen I)) rest ->
  (cp = base -> exists g t, gen I0 = g :: t /\ op g <> JMP_LINK /\ solid (gen I0)) ->
  cp - base + IGEN_SIZE * Z.of_nat (length (concat (optimized (gen I0) rest))) < 2 ^ 32 ->
  wp (produce_loop base cp k I0 rest n) s (fun r s' =>
    fst r = cp + IGEN_SIZE * Z.of_nat (length (concat (optimized (gen I0) rest))) /\ filled (metas (cp - base) k I0 rest) n (snd r) /\
    links_put (all_exits (cp - base) (optimized (gen I0) rest)) n (snd r) /\
    exists c, s' = s <| code := c |> /\ partial base (fst r) (snd r) c c0 /\ laid c cp (concat (optimized (gen I0) rest)) /\
      forall i, i < cp -> c i = code s i).
Proof using Type.
  assert (forall l cp n s (Q : Z * TNode -> trees G -> Prop) I0,
    partial base cp n (code s) c0 -> Forall fresh_op l -> (cp = base -> match l with g :: _ => op g <> JMP_LINK | [] => True end) ->
    cp - base + IGEN_SIZE * Z.of_nat (length l) < 2 ^ 32 ->
    (forall n' c, let cp' := cp + IGEN_SIZE * Z.of_nat (length l) in
      filled [MkPc (cp - base) (i16 (npc I0 - k))] n n' -> links_put (exits (cp - base) l) n n' -> partial base cp' n' c c0 -> laid c cp l -> (forall i, i < cp -> c i = code s i) ->
      Q (cp', n') (s <| code := c |>)) ->
    wp (let! (cp', n) := produce_gen base cp l n in
        ret (cp', n <| n_flags ::= fun f => u16 (Z.lor f (i_flags I0)) |>
                <| meta ::= fun ms => ms ++ [MkPc (u32 (cp - base)) (i16 (npc I0 - k))] |>)) s Q) as Hone.
  { intros l cp n s Q I0 Hp Hl Hf Hsz HQ. pose proof (pa_le _ _ _ _ _ Hp). wp_step. eapply wp_mono; [by apply produce_gen_spec|].
    intros [cp' n'] s' (E1 & E2 & E3 & c & -> & Hp' & Hlaid & Hb). cbn [fst snd] in *. subst cp'. wp_step. unfold IGEN_SIZE in *. rewrite u32_small by lia.
    apply HQ; [|exact E3|by destruct Hp'; constructor|done|done]. unfold filled. unfold same_but_links in E2. rewrite E2. by destruct n. }
  induction rest as [|I1 rest IH]; intros I0 cp n s Hp Hops Hne Hrest Hfirst Hsz; cbn [produce_loop optimized metas] in *.
  - simpl concat in *. rewrite app_nil_r in *. apply Hone; [done|done| |done|].
    { intros E. destruct (Hfirst E) as (g & t & -> & Hg & _). done. }
    intros n' c Hf Hx Hp' Hlaid Hb. cbn [fst snd all_exits]. rewrite app_nil_r. split; [done|]. split; [done|]. split; [done|]. by exists c.
  - apply Forall_cons in Hrest as [[Hs1 Hops1] Hrest]. wp_step. unfold OptimizeCode.
    destruct (gen I0) as [|x xs] eqn:E0; [done|]. destruct (gen I1) as [|y ys] eqn:E1; [done|]. rewrite <- E0, <- E1 in *.
    destruct (optimize (gen I0) (gen I1)) as [l l1] eqn:Eo. cbn [concat] in *. rewrite length_app in *.
    destruct (optimize_ops _ _ _ _ _ Eo Hops Hops1) as [Hl Hl1]. wp_step. wp_step. pose proof (pa_le _ _ _ _ _ Hp) as Hle.
    assert (cp = base -> exists g t, l = g :: t /\ op g <> JMP_LINK) as Hfirst'.
    { intros E. destruct (Hfirst E) as (g & t & Eg & Hg & Hsol). rewrite Eg in Eo, Hsol. destruct (optimize_first _ _ _ _ _ Eo Hsol) as [t' ->]. by exists g, t'. }
    apply (Hone l cp n s _ (I0 <| gen := l |>)); [done|done| |unfold IGEN_SIZE in *; lia|].
    { intros E. destruct (Hfirst' E) as (g & t & -> & Hg). done. }
    intros n' c Hf Hx Hp' Hlaid Hb. cbn beta. set (cp' := cp + IGEN_SIZE * Z.of_nat (length l)) in *.
    eapply wp_mono; [apply (IH (I1 <| gen := l1 |>) cp' n' (s <| code := c |>)); [exact Hp'|done|by eapply optimize_next|done| |]|].
    { intros E. exfalso. assert (cp = base /\ l = []) as [E2 ->].
      { unfold cp', IGEN_SIZE in E. destruct l; simpl in E; lia || (split; [lia|done]). }
      by destruct (Hfirst' E2) as (g & t & ? & _). }
    { unfold cp', IGEN_SIZE in *. cbn [gen upd]. lia. }
    intros [cp2 n2] s2 (F1 & F2 & F2x & c2 & -> & F3 & F4 & F5). cbn [fst snd gen upd code] in *. unfold cp' in *. unfold IGEN_SIZE in *. split; [lia|]. split; [|split].
    + unfold filled in *. rewrite F2, Hf. replace (cp + 32 * Z.of_nat (length l) - base) with (cp - base + 32 * Z.of_nat (length l)) by lia.
      destruct n. simpl. rewrite <- app_assoc. done.
    + intros b. rewrite (F2x b), (Hx b). cbn [all_exits]. rewrite foldl_app. unfold IGEN_SIZE.
      by replace (cp + 32 * Z.of_nat (length l) - base) with (cp - base + 32 * Z.of_nat (length l)) by lia.
    + exists c2. split; [done|]. split; [done|]. split.
      * apply laid_app. split; [|done]. eapply laid_ext; [|exact Hlaid]. unfold IGEN_SIZE. intros i Hi. apply F5. lia.
      * intros i Hi. rewrite F5 by lia. by apply Hb.
Qed.

End loops.

(** ** The node *)

Lemma optimized_length rest : forall l,
  (length (concat (optimized l rest)) <= length l + sum_list_with (fun I => length (gen I)) rest)%nat.
Proof.
  induction rest as [|I1 rest IH]; intros l; cbn [optimized]; [simpl; rewrite app_nil_r; lia|].
  destruct (optimize l (gen I1)) as [l' l1] eqn:E. destruct (optimize_length _ _ _ _ E). cbn [concat]. rewrite length_app. specialize (IH l1). simpl. lia.
Qed.

Lemma gen_buf_size_eq I : gen_buf_size I = MAX_GEND_BYTES_PER_OP * Z.of_nat (sum_list_with (fun I => length (gen I)) I).
Proof. unfold gen_buf_size. induction I as [|I0 I IH]; [done|]. cbn [zsum foldr sum_list_with] in *. unfold zsum in *. rewrite IH. lia. Qed.

Lemma sum_le (n : nat) I : Forall (fun I => Z.of_nat (length (gen I)) <= Z.of_nat n) I ->
  (sum_list_with (fun I => length (gen I)) I <= n * length I)%nat.
Proof. induction 1; simpl; lia. Qed.

Section node.
Context {G : Type} `{CodeMemLaws G}.
Context (calloc : trees G -> Z) (mspace_malloc : trees G -> Z -> Z).
Implicit Types s : trees G.

(** The allocators find new memory. *)
Hypothesis calloc_new : forall s, calloc s <> 0 /\ nodes s !! calloc s = None.
Hypothesis malloc_new : forall s z, 0 < z -> mspace_malloc s z <> 0 /\
  forall p m, nodes s !! p = Some m -> mspace_malloc s z + z <= n_addr m \/ n_addr m + n_len m <= mspace_malloc s z.
#[local] Set Default Proof Using "Type*".

(** The node [g] made for the instructions [I] from [k] up to [PC]. *)
Record produced (k PC : Z) (I : list IMeta) (g : Z) n c s : Prop := {
  pr_new : new_node s g k n c;
  pr_seqlen : seqlen n = PC - k;
  pr_code : laid c (n_addr n) (block_code I);
  pr_len : n_len n = IGEN_SIZE * Z.of_nat (length (block_code I));
  pr_meta : exists I0 rest, I = I0 :: rest /\ meta n = metas 0 k I0 rest ++ [MkPc (n_len n) 0];
  pr_insns i I' : I !! i = Some I' -> meta n !! i = Some (MkPc (insn_start (block_parts I) i) (i16 (npc I' - k)));
  pr_exits b : last_exit (block_parts I) b (clink b n);
}.

Lemma ProduceCode_spec k PC I s :
  insns_ok k PC I ->
  wp (ProduceCode calloc mspace_malloc PC I) s (fun g s' => exists n c, s' = with_node g n c s /\ produced k PC I g n c s).
Proof.
  intros [(I0 & x & l & rest & -> & Ek & Ex & Hx) Hops [Hmax Hgens] Hlow Hlen Hhigh Hedge].
  pose proof (optimized_length rest (gen I0)) as Hol. apply Forall_cons in Hops as [[Hs0 Hops0] Hops].
  assert (sum_list_with (fun I => length (gen I)) (I0 :: rest) <= 16 * length (I0 :: rest))%nat as Hsum by (apply sum_le; exact Hgens).
  assert (gen_buf_size (I0 :: rest) = 76 * Z.of_nat (sum_list_with (fun I => length (gen I)) (I0 :: rest))) as Hgb by apply gen_buf_size_eq.
  set (code0 := concat (optimized (gen I0) rest)) in *. cbn [sum_list_with] in Hsum, Hgb. unfold MAXINODES in Hmax.
  assert (gen I0 <> []) as Hne0 by (by rewrite Ex).
  assert (0 < length (gen I0))%nat as Hpos by (destruct (gen I0); [done|simpl; lia]).
  unfold ProduceCode. wp_step. wp_step. destruct (calloc_new s) as [Hg0 Hg]. set (g := calloc s) in *.
  wp_step. wp_step; [unfold truth; by destruct (Z.eqb_spec g 0)|].
  wp_step. unfold AllocGenCodeBuf. wp_step. wp_step. set (size := gen_buf_size (I0 :: rest) + 32) in *.
  destruct (malloc_new s size ltac:(unfold size; lia)) as [Hb0 Hb]. set (base := mspace_malloc s size) in *.
  wp_step. wp_step; [unfold truth; by destruct (Z.eqb_spec base 0)|]. wp_step. wp_step. wp_step. wp_step. cbn zeta.
  set (s1 := s <| bufs ::= fun b => {[base]} ∪ b |>). set (n0 := blank_node <| key := _ |> <| seqnum := _ |>).
  assert (Forall (fun I => solid (gen I)) rest) as Hsol by (eapply Forall_impl; [exact Hops|]; by intros ? [? _]).
  assert (partial base base n0 (code s1) (code s)) as Hp0 by (constructor; try done; by intros []).
  assert (wp (produce_loop base base (npc I0) I0 rest n0) s1 (fun r s' =>
    fst r = base + IGEN_SIZE * Z.of_nat (length code0) /\ filled (metas (base - base) (npc I0) I0 rest) n0 (snd r) /\
    links_put (all_exits (base - base) (optimized (gen I0) rest)) n0 (snd r) /\
    exists c, s' = s1 <| code := c |> /\ partial base (fst r) (snd r) c (code s) /\ laid c base code0 /\ forall i, i < base -> c i = code s1 i)) as Hloop.
  { apply produce_loop_spec; try done.
    - intros _. exists x, l. done.
    - unfold IGEN_SIZE. fold code0. simpl length in *. lia. }
  eapply wp_mono; [exact Hloop|]. intros [cp n1] s2 (E1 & E2 & Hput & c & -> & Hp & Hlaid & _). cbn [fst snd] in *. rewrite Z.sub_diag in E2, Hput.
  assert (cp - base = IGEN_SIZE * Z.of_nat (length code0)) as Ecp by lia. unfold IGEN_SIZE in *. simpl length in *.
  assert (0 < length code0)%nat as Hcl.
  { pose proof (metas_range (npc I0) rest 0 I0 ltac:(lia) Hne0 Hsol) as Hr. pose proof (metas_length (npc I0) rest 0 I0) as Hml.
    destruct (metas 0 (npc I0) I0 rest) as [|A ?]; [done|]. apply Forall_cons in Hr as [Hr _]. unfold IGEN_SIZE in Hr. fold code0 in Hr. lia. }
  wp_step. replace (gen_buf_size (I0 :: rest) <? cp - base) with false by (symmetry; apply Z.ltb_ge; lia). wp_step. wp_step. wp_step. wp_step.
  set (n := n1 <| meta ::= _ |> <| n_len := _ |> <| seqlen := _ |> <| n_addr := base |>).
  assert (u32 (cp - base) = cp - base) as Eu by (apply u32_small; lia).
  assert (n_len n = 32 * Z.of_nat (length code0) /\ n_addr n = base) as [Enl Ena] by (split; [cbn; lia|done]).
  assert (seqlen n = PC - k) as Esq by (unfold n; cbn [seqlen upd]; rewrite Ek; apply u16_small; lia).
  assert (forall b, clink b n = clink b n1) as Ecl by (by intros []).
  assert (meta n = metas 0 k I0 rest ++ [MkPc (n_len n) 0]) as Emeta.
  { unfold n. cbn [meta n_len upd]. rewrite E2. cbn [meta upd]. by rewrite Ek. }
  assert (key n = k /\ seqnum n = Z.of_nat (S (length rest)) /\ bkr n = []) as (Ekey & Esn & Ebk).
  { unfold n. rewrite E2. cbn [key seqnum bkr upd]. split; [exact Ek|]. split; [|done]. change (u16 (Z.of_nat (S (length rest))) = Z.of_nat (S (length rest))).
    apply u16_small. lia. }
  exists n, c. split; [done|]. constructor; [constructor|..].
  - done.
  - done.
  - constructor; rewrite ?Ekey, ?Esq, ?Esn, ?Emeta, ?Enl; try done; try lia.
    + replace (k + (PC - k)) with PC by lia. done.
    + split; [lia|]. rewrite length_app, metas_length. simpl. lia.
    + rewrite take_app_le by (rewrite metas_length; lia). rewrite take_ge by (rewrite metas_length; lia).
      eapply Forall_impl; [by apply metas_range|]. unfold IGEN_SIZE. fold code0. simpl. intros A HA. lia.
    + rewrite Nat2Z.id. intros i j A B Hij EA EB. rewrite lookup_app_l in EA, EB by (rewrite metas_length; lia).
      destruct (lookup_lt_is_Some_2 (I0 :: rest) i) as [IA HIA]; [simpl; lia|]. destruct (lookup_lt_is_Some_2 (I0 :: rest) j) as [IB HIB]; [simpl; lia|].
      rewrite (metas_lookup _ _ _ _ _ _ HIA) in EA. rewrite (metas_lookup _ _ _ _ _ _ HIB) in EB. injection EA as <-. injection EB as <-. simpl.
      pose proof (insn_start_mono (optimized (gen I0) rest) i j). lia.
  - split; [by rewrite Ena|]. split; [lia|]. split.
    + intros b. rewrite Ecl. destruct (Z.eq_dec (l_link (clink b n1)) 0); [lia|]. destruct (pa_link _ _ _ _ _ Hp b); [done|]. lia.
    + intros Ht. exact (pa_diff _ _ _ _ _ Hp Ht).
  - intros p m Em. rewrite Ena, Enl. destruct (Hb p m Em); [left; lia|right; lia].
  - split; [done|]. intros b. rewrite Ecl. apply Hp.
  - intros b. unfold slot. rewrite Ecl, Ena. intros Hl. by apply (pa_link _ _ _ _ _ Hp b).
  - intros i Hi. apply Hp. lia.
  - done.
  - by rewrite Ena.
  - rewrite Enl. unfold IGEN_SIZE. done.
  - by exists I0, rest.
  - intros i I' EI. rewrite Emeta. apply lookup_app_l_Some. cbn [block_parts]. rewrite <- Ek. exact (metas_lookup (npc I0) rest 0 I0 i I' EI).
  - intros b. rewrite Ecl, (Hput b). replace (clink b n0) with (MkLink 0 0 None) by (by destruct b). apply record_last_exit.
Qed.


End node.
