(* ===== verification/CloseSpec.v ===== *)
(** * From instructions to a block: closing

    [DoClose] drops what is in the way, has the pages at hand that
    [e_markpage] needs, adds the block and links it. *)

From stdpp Require Import base numbers list gmap.
From Stdlib Require Import ZArith Lia.
From S2P Require Import Prelude Machine SimCpu SimMem Marks MarksInv MarksQuery MarksPages MarksProt MarksMark MarksFetch MarksRange Fhmap Trees TreesLinks TreesInv TreesRemove TreesSpec TreesAdd TreesDirty Produce ProduceSpec.

Local Open Scope Z_scope.

Implicit Types (T : gmap Z Z) (n : TNode).

Section close.
Context {G : Type} `{CodeMemLaws G}.
Context (UseLinker : bool) (junk : bytes).
Hypothesis junk_bytes : bytes_ok junk.
Implicit Types s : trees G.
#[local] Set Default Proof Using "Type*".

Abbreviation trees_ok := (trees_ok UseLinker).
Abbreviation range_invalidated := (range_invalidated UseLinker).

(** ** Pages *)

Lemma copy_nonneg (m : marks G) a p : marks_ok m -> copy_of m a = Some p -> 0 <= a.
Proof using Type.
  intros Hm E. unfold copy_of, map_of in E. destruct (has_map (a / 2 ^ 20) (MpH m)) as [M|] eqn:EM; [|done].
  apply has_map_Some in EM as [Hin EM]. pose proof (ok_mega _ Hm M Hin). destruct (Z.le_gt_cases 0 a); [done|exfalso].
  assert (a / 2 ^ 20 < 0) by (apply Z.div_lt_upper_bound; lia). lia.
Qed.

Lemma copies_sub_ok (m m' : marks G) : marks_ok m' -> copies_sub m m' -> copies_ok m -> copies_ok m'.
Proof using Type.
  intros Hm [E Hs] [C1 C2]. constructor.
  - intros a k p. rewrite E. apply C1.
  - intros a p Ep. apply (C2 a), Hs; [by eapply copy_nonneg|done].
Qed.

Lemma copies_seen (m m' : marks G) : marks_ok m -> seen m m' -> copies_ok m -> copies_ok m'.
Proof using Type. intros Hm Hss. apply copies_sub_ok; [by eapply seen_ok|by apply copies_sub_seen]. Qed.

Lemma copies_added (m m' : marks G) k len : block_added m k len m' -> copies_ok m -> copies_ok m'.
Proof using Type.
  intros Hb [C1 C2]. constructor.
  - intros a n p Hin. destruct (proj2 (ba_clist _ _ _ _ Hb) a n p Hin) as [n' Hin']. by eapply C1.
  - intros a p E. rewrite (ba_copy _ _ _ _ Hb) in E by (eapply copy_nonneg; [apply Hb|exact E]). destruct (_ && negb _); [|by eapply C2].
    unfold cached in E. destruct (find _ (clist m)) as [e|] eqn:Ef; [|done]. apply find_some in Ef as [Hin Eh].
    destruct (holds_inv _ _ Eh) as [q Eq]. rewrite Eq in E, Hin. simpl in E. injection E as ->. eapply C1. by apply list_elem_of_In.
Qed.

(** A step that leaves the marks alone. *)
Lemma trees_fetch s T x m k : trees_ok s T x -> fetch_step (tmarks s) k m -> trees_ok (s <| tmarks := m |>) T x.
Proof using Type.
  intros Hs Hf. constructor; try apply Hs.
  - apply Hf.
  - intros a Ha. cbn [tmarks upd]. rewrite (fe_starts _ _ _ Hf). by apply (tr_starts _ _ _ _ Hs).
  - intros a Ha. cbn [tmarks upd]. rewrite (fe_marked _ _ _ Hf). by apply (tr_marked _ _ _ _ Hs).
Qed.

(** From [s], [T] to [s'], [T']: the blocks in the range are gone. *)
Record range_cleared (al ah : Z) s T s' T' : Prop := {
  rc_ok : trees_ok s' T' None;
  rc_sub k p : T' !! k = Some p -> T !! k = Some p;
  rc_tree k p n : T !! k = Some p -> nodes s !! p = Some n -> T' !! k = None <-> hits al ah k n;
  rc_left k p n : T' !! k = Some p -> nodes s !! p = Some n -> exists n', nodes s' !! p = Some n' /\ same_block n n';
  rc_free a : al <= a < ah -> marked (tmarks s') a = false;
  rc_bytes a : guest_byte (guest (tmarks s')) a = guest_byte (guest (tmarks s)) a;
}.

Lemma range_cleared_of al ah eip s T s' T' rc : range_invalidated al ah eip s T s' T' rc -> range_cleared al ah s T s' T'.
Proof using Type. intros [Hi Ht Hm]. constructor; try done; apply Hi. Qed.

Lemma range_cleared_fetch al ah s T s' T' k m :
  range_cleared al ah s T s' T' -> fetch_step (tmarks s') k m -> range_cleared al ah s T (s' <| tmarks := m |>) T'.
Proof using Type.
  intros [R1 R2 R3 R4 R5 R6] Hf. constructor; try done.
  - by eapply trees_fetch.
  - intros a Ha. cbn [tmarks upd]. rewrite (fe_marked _ _ _ Hf). by apply R5.
  - intros a. cbn [tmarks upd]. rewrite (fe_guest _ _ _ Hf). apply R6.
Qed.

Lemma fetched_seen (m m' : marks G) al len : seen m m' -> fetched_range m al len -> fetched_range m' al len.
Proof using Type.
  intros Hss Hf a Ha Hr Hp. pose proof (seen_same _ _ Hss) as Hsame. rewrite (same_clist _ _ Hsame).
  apply Hf; [done|done|]. by rewrite <- (same_pages_protected _ _ a Hsame).
Qed.

Lemma fetch_room al ah : al <= ah -> (page_start ah - page_start al) / HOST_PAGE_SIZE <= (ah - al) / HOST_PAGE_SIZE + 1 /\ page_start al <= page_start ah.
Proof using Type. rewrite !page_start_eq. unfold HOST_PAGE_SIZE. clear. intros. Z.to_euclidean_division_equations. lia. Qed.

Lemma clear_range_spec al ah flags s T :
  trees_ok s T None -> 0 <= al < ah -> ah <= TREE_END -> reachable s al ah -> copies_ok (tmarks s) ->
  room (tmarks s) ((ah - al) / HOST_PAGE_SIZE + 3) -> fetched_range (tmarks s) al (ah - al) ->
  wp (clear_range UseLinker junk al ah flags) s (fun q s' => exists T', range_cleared al ah s T s' T' /\
    copies_ok (tmarks s') /\ if q : bool then has flags F_PREJ = true else fetched_range (tmarks s') al (ah - al)).
Proof.
  intros Hs Hal Hend Hreach Hcop Hroom Hfet. pose proof Hend as Hend'. unfold TREE_END in Hend. unfold clear_range. wp_step.
  eapply wp_mono; [eapply wp_marks_finds; [exact Hs|apply e_querymark_finds; [apply Hs|lia|lia|lia]]|].
  intros b s1 (Hb & Hc1 & Hs1). cbn beta. replace (al + (ah - al)) with ah in Hb by lia. destruct b; cbn [negb].
  2:{ wp_step. exists T. split; [|split; [eapply copies_seen; [apply Hs|apply Hc1|done]|by eapply fetched_seen; [apply Hc1|]]]. eapply range_cleared_of, (nothing_hit UseLinker al ah 0); [done|lia|done|done|].
    intros a Ha. destruct (marked (tmarks s) a) eqn:Em; [exfalso|done]. destruct (Hb a Ha Em) as (y & Hy & Hmap).
    destruct (Hreach a y ltac:(lia) ltac:(lia) Em) as [? ?]. congruence. }
  wp_step. rewrite i32_small by lia.
  eapply wp_mono; [apply (InvalidateNodeRange_spec UseLinker al (ah - al) s1 T); [done|lia|lia|unfold TREE_END; lia]|].
  intros [] s2 (T2 & rc & Hinv). replace (al + (ah - al)) with ah in Hinv by lia.
  assert (range_invalidated al ah 0 s T s2 T2 rc) as Hinv' by (apply (invalidated_after UseLinker al ah 0 s s1 T s2 T2 rc); [done|done|done|lia|done]).
  clear Hinv. pose proof (iv_ok _ _ _ _ _ _ _ _ _ (ri_inv _ _ _ _ _ _ _ _ _ Hinv')) as Hs2.
  pose proof (iv_keep _ _ _ _ _ _ _ _ _ (ri_inv _ _ _ _ _ _ _ _ _ Hinv')) as Hkeep.
  wp_step. eapply wp_mono; [eapply wp_marks_finds; [exact Hs2|apply e_querymprotrange_full_finds; [apply Hs2|lia|lia|unfold ADDR_END; lia]]|].
  intros b s3 (Hb3 & Hc3 & Hs3). cbn beta. replace (al + (ah - al)) with ah in Hb3 by lia.
  assert (range_cleared al ah s T s3 T2) as Hcl.
  { destruct (range_cleared_of _ _ _ _ _ _ _ _ Hinv') as [R1 R2 R3 R4 R5 R6]. constructor; try done.
    - intros k p n E En. destruct (R4 k p n E En) as (n1 & E1 & B1). destruct (calm_look' _ _ _ _ Hc3 E1) as (n2 & E2 & Rl).
      exists n2. split; [done|]. eapply same_block_trans; [exact B1|by apply relived_same].
    - intros a Ha. rewrite (proj1 (seen_view _ _ a (cm_seen _ _ Hc3))). by apply R5.
    - intros a. rewrite <- R6. by destruct (cm_seen _ _ Hc3) as (l & -> & _). }
  assert (copies_sub (tmarks s) (tmarks s3)) as Hkeep3 by (eapply copies_sub_trans; [exact Hkeep|apply copies_sub_seen, Hc3]).
  assert (copies_ok (tmarks s3)) as Hcop3 by (eapply copies_sub_ok; [apply Hs3|exact Hkeep3|done]).
  destruct b.
  { wp_step. exists T2. split; [done|]. split; [done|]. intros a Ha Hr Hp. replace (al + (ah - al)) with ah in Hr by lia.
    rewrite (same_pages_protected _ _ a (seen_same _ _ (cm_seen _ _ Hc3))) in Hp. rewrite (Hb3 eq_refl a Hr) in Hp. done. }
  destruct (has flags F_PREJ) eqn:Ef; [wp_step; by exists T2|]. wp_step. apply wp_zoom.
  destruct (fetch_room al ah ltac:(lia)) as [Hr1 Hr2]. destruct (page_start_spec al) as [Hp1 Hp2]. destruct (page_start_spec ah) as [Hp3 Hp4].
  assert (0 <= page_start al) by (apply page_start_le; [done|lia]).
  assert (0 <= (page_start ah - page_start al) / HOST_PAGE_SIZE) by (apply Z.div_pos; [lia|unfold HOST_PAGE_SIZE; lia]).
  eapply wp_mono; [apply (fetch_pages_available junk junk_bytes); [apply Hs3|done|done|done|done|unfold HOST_PAGE_SIZE; lia|unfold HOST_PAGE_SIZE; lia| |lia]|].
  { unfold room in *. rewrite (proj1 Hkeep3). lia. }
  intros [] m (k & Hf & Hav & _). cbn beta. wp_step. exists T2. split; [by eapply range_cleared_fetch|].
  split; [apply Hf|]. apply available_range. intros a Ha Hr. apply Hav; [done|]. replace (al + (ah - al)) with ah in Hr by lia. split; [lia|].
  revert Hr Ha. rewrite !page_start_eq. unfold aligned, HOST_PAGE_SIZE. clear. intros. Z.to_euclidean_division_equations. lia.
Qed.

(** ** The end of a block *)

Definition tail_ops (PC md : Z) (linked : bool) : list IGen :=
  (if has md MTRAP then [MkIGen L_IMM_op md Ofs_ERR EXCP01_SSTP 0 0 0 0] else []) ++
  [MkIGen (if linked then JMP_LINK else JMP_TAILCODE) md PC 0 0 0 0 0].

(** The instructions with a tail when the last one does not jump. *)
Definition tailed (PC md : Z) (linked : bool) (I : list IMeta) : list IMeta :=
  match last I with
  | None => I
  | Some GL =>
    match last (gen GL) with
    | Some ig => if op ig <? JMP_TAILCODE then removelast I ++ [GL <| gen ::= fun l => l ++ tail_ops PC md linked |>] else I
    | None => I
    end
  end.

(** The mode of a block is no mark of a patched operation, and there is room. *)
Definition tail_ok (md : Z) (I : list IMeta) : Prop :=
  has md MPATCH = false /\ has md MLINK = false /\ forall GL, last I = Some GL -> Z.of_nat (length (gen GL)) + 2 <= NUMGENS.

Lemma Gen_spec ig I GL s (Q : list IMeta -> trees G -> Prop) :
  Z.of_nat (length (gen GL)) < NUMGENS -> Q (I ++ [GL <| gen ::= fun l => l ++ [ig] |>]) s -> wp (Gen ig (I ++ [GL])) s Q.
Proof using Type.
  intros Hl HQ. unfold Gen. rewrite last_snoc. destruct (Z.leb_spec NUMGENS (Z.of_nat (length (gen GL)))); [lia|]. wp_step. by rewrite removelast_last.
Qed.

Lemma JMPGen_spec linked md PC I GL s (Q : list IMeta -> trees G -> Prop) :
  Z.of_nat (length (gen GL)) + 2 <= NUMGENS ->
  Q (I ++ [GL <| gen ::= fun l => l ++ tail_ops PC md linked |>]) s ->
  wp (JMPGen (if linked then JMP_LINK else JMP_TAILCODE) md PC (I ++ [GL])) s Q.
Proof using Type.
  intros Hl HQ. unfold JMPGen, tail_ops in *. wp_step. destruct (has md MTRAP).
  - apply Gen_spec; [lia|]. apply Gen_spec; [cbn [gen upd]; rewrite length_app; simpl; lia|]. cbn [gen upd]. rewrite <- app_assoc. exact HQ.
  - wp_step. apply Gen_spec; [lia|]. exact HQ.
Qed.

Lemma add_tail_spec PC md linked I k s :
  insns_ok k PC I -> tail_ok md I ->
  wp (add_tail PC md linked I) s (fun I' s' => s' = s /\ I' = tailed PC md linked I /\ insns_ok k PC I' /\ exists I0 rest, I' = I0 :: rest).
Proof using Type.
  intros Hin (Hm1 & Hm2 & Hroom). unfold add_tail, tailed. destruct (in_first _ _ _ Hin) as (I0 & g & l & rest & EI & Ek & Eg & Hg).
  destruct (last I) as [GL|] eqn:El; [|apply last_None in El; congruence]. apply last_Some in El as [I' ->].
  pose proof (in_ops _ _ _ Hin) as Hops. apply Forall_app in Hops as [Hops1 Hops2]. apply Forall_singleton in Hops2 as [Hsol Hfr].
  cbn [mbind option_bind]. destruct (last (gen GL)) as [ig|] eqn:Eig; [|apply last_None in Eig; by rewrite Eig in Hsol].
  assert (I' ++ [GL] = I0 :: rest) as EI' by done.
  destruct (op ig <? JMP_TAILCODE); [|wp_step; split; [done|]; split; [done|]; split; [done|by exists I0, rest]].
  specialize (Hroom GL eq_refl). rewrite removelast_last.
  set (GL' := GL <| gen ::= fun l => l ++ tail_ops PC md linked |>).
  apply JMPGen_spec; [done|]. split; [done|]. split; [done|].
  assert (exists I0' l' rest', I' ++ [GL'] = I0' :: rest' /\ npc I0' = k /\ gen I0' = g :: l') as (I0' & l' & rest' & E1 & E2 & E3).
  { destruct I' as [|x I']; simpl in EI |- *; injection EI as <- <-; [|by exists x, l, (I' ++ [GL'])]. exists GL', (l ++ tail_ops PC md linked), [].
    split; [done|]. split; [done|]. unfold GL'. cbn [gen upd]. by rewrite Eg. }
  split; [|by exists I0', rest']. destruct Hin as [_ _ [C1 C2] H1 H2 H3 H4]. apply Forall_app in C2 as [C2 C3]. constructor; try done.
  - by exists I0', g, l', rest'.
  - apply Forall_app. split; [done|]. apply Forall_singleton. unfold GL'. cbn [gen upd]. split.
    + destruct (gen GL) as [|x xs]; [done|]. unfold tail_ops. by destruct (has md MTRAP), xs.
    + apply Forall_app. split; [done|]. unfold tail_ops. apply Forall_app. split; [destruct (has md MTRAP); [|done]|]; apply Forall_singleton; by split.
  - split; [by rewrite length_app in C1 |- *|]. apply Forall_app. split; [done|]. apply Forall_singleton. unfold GL', tail_ops. cbn [gen upd].
    destruct (has md MTRAP); rewrite !length_app; simpl; lia.
Qed.

(** ** Exits and code *)

Lemma concat_lookup {A} (parts : list (list A)) : forall i j l x, parts !! i = Some l -> l !! j = Some x ->
  concat parts !! (length (concat (take i parts)) + j)%nat = Some x.
Proof using Type.
  induction parts as [|l0 parts IH]; intros i j l x Ei Ej; [done|]. destruct i as [|i]; cbn [take concat].
  - injection Ei as ->. rewrite lookup_app_l; [done|by eapply lookup_lt_Some].
  - rewrite length_app, <- Nat.add_assoc, lookup_app_r, Nat.add_comm, Nat.add_sub by lia. by eapply IH.
Qed.

Lemma exit_code parts b k t : exit_at parts b k t -> exists (j : nat) x, k = IGEN_SIZE * Z.of_nat j /\ concat parts !! j = Some x /\ op x = JMP_LINK /\ p0 x = t.
Proof using Type.
  intros (i & j & l & g & E & E1 & E2 & -> & -> & _). exists (length (concat (take i parts)) + j)%nat, g.
  split; [unfold insn_start; lia|]. split; [by eapply concat_lookup|done].
Qed.

Lemma laid_lookup c l : forall cp (j : nat) x, laid c cp l -> l !! j = Some x -> c (cp + IGEN_SIZE * Z.of_nat j) = x.
Proof using Type.
  induction l as [|g l IH]; intros cp j x Hl E; [done|]. destruct Hl as [Hg Hl]. destruct j as [|j]; [injection E as <-; by rewrite Z.mul_0_r, Z.add_0_r|].
  rewrite <- (IH _ j x Hl E). f_equal. lia.
Qed.

(** The optimizer keeps the last operation of the last instruction. *)
Lemma optimize_last l l1 l' l1' : optimize l l1 = (l', l1') -> solid l1 -> last l1' = last l1.
Proof using Type.
  intros E Hs. destruct (optimize_cases l l1) as [E'|(a & f & b & -> & _ & Er & E')]; rewrite E in E'; injection E' as -> ->; [done|].
  destruct b as [|y b]; [simpl in Hs; destruct (removable_opt _ _ Er); congruence|by rewrite last_cons_cons].
Qed.

Lemma optimized_last rest : forall l x, last l = Some x -> Forall (fun I => solid (gen I)) rest ->
  exists ps p, optimized l rest = ps ++ [p] /\ last p = match last rest with Some GL => last (gen GL) | None => last l end.
Proof using Type.
  induction rest as [|I1 rest IH]; intros l x El Hs; cbn [optimized]; [by exists [], l|]. apply Forall_cons in Hs as [Hs1 Hs].
  destruct (optimize l (gen I1)) as [l' l1] eqn:E. pose proof (optimize_last _ _ _ _ E Hs1) as Hlast.
  destruct (last (gen I1)) as [y|] eqn:Ey; [|apply last_None in Ey; by rewrite Ey in Hs1].
  destruct (IH l1 y Hlast Hs) as (ps & p & -> & Ep). exists (l' :: ps), p. split; [done|]. rewrite Ep. destruct rest as [|I2 rest]; [simpl; congruence|].
  rewrite last_cons_cons. destruct (last (I2 :: rest)) eqn:E2; [done|]. by apply last_None in E2.
Qed.

(** The block ends with a jump to [PC]. *)
Definition falls_to (PC : Z) (I : list IMeta) : Prop := exists x, last I ≫= (fun GL => last (gen GL)) = Some x /\ op x = JMP_LINK /\ p0 x = PC.

Lemma block_code_first k PC I : insns_ok k PC I -> exists g l, block_code I = g :: l /\ op g <> JMP_LINK.
Proof using Type.
  intros Hin. destruct (in_first _ _ _ Hin) as (I0 & g & l & rest & -> & _ & Eg & Hg). pose proof (in_ops _ _ _ Hin) as Hops.
  apply Forall_cons in Hops as [[Hs _] _]. unfold block_code. rewrite Eg in *. destruct rest as [|I1 rest]; cbn [optimized concat]; [rewrite app_nil_r; by exists g, l|].
  destruct (optimize (g :: l) (gen I1)) as [l' l1] eqn:E. destruct (optimize_first _ _ _ _ _ E Hs) as [t ->]. cbn [concat app]. by exists g, (t ++ concat (optimized l1 rest)).
Qed.

(** A block that ends with a jump to [PC] has it as the exit that is taken. *)
Lemma falls_exit k PC I L : insns_ok k PC I -> falls_to PC I -> last_exit (block_parts I) BT L -> l_link L <> 0 /\ l_target L = PC.
Proof using Type.
  intros Hin (x & El & Ex & Ep) HL. destruct (block_code_first k PC I Hin) as (g0 & l0 & Ec & Hg0).
  destruct (in_first _ _ _ Hin) as (I0 & g & l & rest & -> & _ & Eg & _). pose proof (in_ops _ _ _ Hin) as Hops.
  apply Forall_cons in Hops as [[Hs0 _] Hops]. destruct (last (gen I0)) as [y|] eqn:Ey; [|apply last_None in Ey; by rewrite Ey in Hs0].
  destruct (optimized_last rest (gen I0) y Ey) as (ps & p & Eps & Elp); [eapply Forall_impl; [exact Hops|by intros ? [? _]]|].
  change (block_code (I0 :: rest)) with (concat (optimized (gen I0) rest)) in Ec. cbn [block_parts] in HL. rewrite Eps in HL, Ec.
  assert (last p = Some x) as Hp.
  { rewrite Elp. destruct rest as [|I1 rest]; [by simpl in El; rewrite <- El|]. rewrite last_cons_cons in El. by destruct (last (I1 :: rest)). }
  apply last_Some in Hp as [p' ->].
  assert (exit_at (ps ++ [p' ++ [x]]) BT (IGEN_SIZE * Z.of_nat (length (concat ps) + length p')) PC) as Hx.
  { exists (length ps), (length p'), (p' ++ [x]), x. rewrite !list_lookup_middle by done. split; [done|]. split; [done|]. split; [done|]. split; [done|]. split.
    - unfold insn_start. rewrite take_app_length. lia.
    - rewrite length_app. simpl. by rewrite decide_True by lia. }
  destruct HL as [(_ & _ & Hno)|[He Hmax]]; [by destruct (Hno _ _ Hx)|].
  specialize (Hmax _ _ Hx). destruct (exit_code _ _ _ _ He) as (j & z & Ej & Ez & Hz & Hzt). unfold IGEN_SIZE in *. rewrite Ej in *.
  rewrite concat_app in Ez, Ec. cbn [concat] in Ez, Ec. rewrite app_nil_r, app_assoc in Ez, Ec.
  assert (j = length (concat ps ++ p'))%nat as ->.
  { apply lookup_lt_Some in Ez. rewrite !length_app in *. simpl in Ez. lia. }
  rewrite list_lookup_middle in Ez by done. injection Ez as <-. split; [|congruence]. intros E0.
  destruct (concat ps ++ p') as [|w ws]; [|simpl in E0; lia]. injection Ec as <- _. done.
Qed.

(** ** The new block *)

Context (calloc : trees G -> Z) (mspace_malloc : trees G -> Z -> Z).
Hypothesis calloc_new : forall s, calloc s <> 0 /\ nodes s !! calloc s = None.
Hypothesis malloc_new : forall s z, 0 < z -> mspace_malloc s z <> 0 /\
  forall p m, nodes s !! p = Some m -> mspace_malloc s z + z <= n_addr m \/ n_addr m + n_len m <= mspace_malloc s z.

(** The exit [b] of the new node [n] at [g] leads to the node [h] behind it, to
    [n] itself, or back to the interpreter. *)
Definition exit_target (N : gmap Z TNode) (g md : Z) (h : option Z) n (b : branch) : option Z :=
  let self := if UseLinker && negb (has md MSSTP) && links_to b n n then Some g else None in
  match h with
  | Some p => match N !! p with Some m => if UseLinker && links_to b n m then Some p else self | None => self end
  | None => self
  end.

(** Operation [j] in the buffer of [n] is [x], patched only if it is an exit
    that is linked. *)
Definition coded s n (j : nat) (x : IGen) : Prop :=
  let w := code s (n_addr n + IGEN_SIZE * Z.of_nat j) in
  op w = op x /\ p0 w = p0 x /\ ((forall b, l_link (clink b n) = IGEN_SIZE * Z.of_nat j -> l_ref (clink b n) = None) -> w = x).

(** From [s], [T] to [s'], [T'] by the block of [I] at [k]; [h] is the node at [PC]. *)
Record block_made (k PC cs md : Z) (h : option Z) (I : list IMeta) s T (g : Z) s' T' : Prop := {
  bm_ok : trees_ok s' T' None;
  bm_tree k' p : T' !! k' = Some p <->
    k' = k /\ p = g \/ k' <> k /\ T !! k' = Some p /\ forall n, nodes s !! p = Some n -> ~ hits k PC k' n;
  bm_node : exists n, nodes s' !! g = Some n /\ seqlen n = PC - k /\ n_cs n = cs /\ n_mode n = md /\
    n_len n = IGEN_SIZE * Z.of_nat (length (block_code I)) /\
    (forall i I', I !! i = Some I' -> meta n !! i = Some (MkPc (insn_start (block_parts I) i) (i16 (npc I' - k)))) /\
    (forall b, last_exit (block_parts I) b (clink b n)) /\
    (forall b, l_ref (clink b n) = exit_target (nodes s') g md h n b) /\
    (forall j x, block_code I !! j = Some x -> coded s' n j x);
  bm_bytes a : guest_byte (guest (tmarks s')) a = guest_byte (guest (tmarks s)) a;
  bm_copies : copies_ok (tmarks s');
  bm_falls p m : h = Some p -> UseLinker = true -> nodes s' !! p = Some m -> has md MTRAP = false -> has (n_mode m) MTRAP = false ->
    falls_to PC I -> edge (nodes s') g BT = Some p;
}.

(** The node at [PC] is behind the range. *)
Lemma next_stays k PC s T s1 T1 h :
  trees_ok s T None -> range_cleared k PC s T s1 T1 -> T !! PC = Some h ->
  T1 !! PC = Some h /\ exists m, nodes s1 !! h = Some m /\ block_ok PC m.
Proof using Type.
  intros Hs Hc E. destruct (tr_node _ _ _ _ Hs PC h E) as (m & Em & Hb).
  assert (T1 !! PC = Some h) as E1.
  { destruct (T1 !! PC) as [p|] eqn:Ep; [apply (rc_sub _ _ _ _ _ _ Hc) in Ep; congruence|].
    apply (rc_tree _ _ _ _ _ _ Hc PC h m E Em) in Ep. destruct Ep. lia. }
  split; [done|]. destruct (rc_left _ _ _ _ _ _ Hc PC h m E1 Em) as (m' & Em' & B). exists m'. split; [done|by eapply block_ok_same].
Qed.

Lemma Close_spec k PC cs md I s T :
  trees_ok s T None -> insns_ok k PC I -> fetched_range (tmarks s) k (PC - k) -> (forall a, k <= a < PC -> marked (tmarks s) a = false) ->
  wp (Close UseLinker calloc mspace_malloc PC cs md I) s (fun g s' => exists n c, produced k PC I g n c s /\
    block_closed UseLinker g k cs md n (with_node g n c s) T s').
Proof.
  intros Hs Hin Hfet Hfree. unfold Close. wp_step. wp_step; [by destruct (in_first _ _ _ Hin) as (I0 & ? & ? & rest & -> & _)|]. wp_step.
  eapply wp_mono; [by apply (ProduceCode_spec calloc mspace_malloc calloc_new malloc_new k PC I)|].
  intros g s1 (n & c & -> & Hp). cbn beta. wp_step. pose proof (pr_seqlen _ _ _ _ _ _ _ Hp) as Esq.
  eapply wp_mono; [apply (close_node_new UseLinker s T g k n c); [done|apply Hp|by rewrite Esq|]|].
  { intros a Ha. apply Hfree. lia. }
  intros [] s' Hc. wp_step. by exists n, c.
Qed.

(** What is linked to the node at [PC] is not linked to the block itself. *)
Lemma self_not_next g k PC cs md n n' m b :
  block_ok k n -> block_ok PC m -> same_block (closed cs md n) n' -> k <> PC -> links_to b n' m = true -> self_edge UseLinker g cs md n b = None.
Proof using Type.
  intros Hb Hm Hsame Hne Hl. unfold self_edge. destruct (UseLinker && negb (has md MSSTP)); [|done]. cbn [andb].
  destruct (links_to b (closed cs md n) (closed cs md n)) eqn:E; [exfalso|done].
  unfold links_to in E, Hl. destruct Hsame as (_&_&_&_&_&_&_&_&Hcl). destruct (Hcl b) as [_ Et].
  apply andb_prop in E as [E _]. apply andb_prop in E as [E _]. apply andb_prop in E as [E _]. apply Z.eqb_eq in E.
  apply andb_prop in Hl as [Hl _]. apply andb_prop in Hl as [Hl _]. apply andb_prop in Hl as [Hl _]. apply Z.eqb_eq in Hl.
  rewrite Et in Hl. rewrite (block_key PC m Hm) in Hl. change (u32 (key (closed cs md n))) with (u32 (key n)) in E. rewrite (block_key k n Hb) in E. congruence.
Qed.

Lemma coded_of k PC cs md I s0 g n c s n' j x :
  produced k PC I g n c s0 -> net_ok None s -> nodes s !! g = Some n' -> same_block (closed cs md n) n' ->
  (forall i, (forall b, i = slot b n' -> l_ref (clink b n') = None) -> code s i = c i) ->
  block_code I !! j = Some x -> coded s n' j x.
Proof using Type.
  intros Hp (Hl & _ & Hc) En' B Hcode Ex. pose proof B as (_&_&Ea&_&_&_&_&_&Hlinks). change (n_addr (closed cs md n)) with (n_addr n) in Ea.
  pose proof (laid_lookup _ _ _ _ _ (pr_code _ _ _ _ _ _ _ Hp) Ex) as Ec. rewrite <- Ea in Ec. unfold coded. cbv zeta. set (i := n_addr n' + IGEN_SIZE * Z.of_nat j) in *.
  assert ((forall b, l_link (clink b n') = IGEN_SIZE * Z.of_nat j -> l_ref (clink b n') = None) -> code s i = x) as Hsame.
  { intros Hno. rewrite <- Ec. apply Hcode. intros b Ei. apply Hno. unfold i, slot in Ei. lia. }
  assert (forall b q, l_link (clink b n') = IGEN_SIZE * Z.of_nat j -> l_ref (clink b n') = Some q -> op (code s i) = op x /\ p0 (code s i) = p0 x) as Hlinked.
  { intros b q Eb Er. destruct (lk_fwd _ Hl g n' b q En' Er) as (_ & _ & _ & _ & Hne). destruct (Hc g n' b En' ltac:(done) Hne) as (H1 & H2 & _).
    unfold slot in H1, H2. rewrite Eb in H1, H2. fold i in H1, H2. destruct (Hlinks b) as [E1 E2]. rewrite E1 in Eb, Hne. rewrite E2 in H2.
    assert (forall b, clink b (closed cs md n) = clink b n) as Ecl by (by intros []). rewrite Ecl in Eb, Hne, H2.
    destruct (pr_exits _ _ _ _ _ _ _ Hp b) as [[? _]|[He _]]; [lia|]. destruct (exit_code _ _ _ _ He) as (j' & y & Ej & Ey & Hy & Ht).
    assert (j' = j) as -> by (unfold IGEN_SIZE in *; lia). change (concat (block_parts I)) with (concat (block_parts I)) in Ey.
    assert (block_code I = concat (block_parts I)) as Eb2 by (by destruct I). rewrite Eb2 in Ex. assert (y = x) as <- by congruence. split; congruence. }
  assert (forall b, l_link (clink b n') = IGEN_SIZE * Z.of_nat j /\ (exists q, l_ref (clink b n') = Some q) \/ (l_link (clink b n') = IGEN_SIZE * Z.of_nat j -> l_ref (clink b n') = None)) as Hdec.
  { intros b. destruct (l_ref (clink b n')) as [q|]; [|by right]. destruct (Z.eq_dec (l_link (clink b n')) (IGEN_SIZE * Z.of_nat j)); [left; split; [done|by exists q]|by right]. }
  destruct (Hdec BT) as [[E (q & Eq)]|HT]; [destruct (Hlinked BT q E Eq); by split|]. destruct (Hdec BN) as [[E (q & Eq)]|HN]; [destruct (Hlinked BN q E Eq); by split|].
  rewrite Hsame by (by intros []). done.
Qed.

(** The new block, when the exits of its node [n3] are as they should be. *)
Lemma made_of k PC cs md h I s T s1 T1 g n c s2 s3 :
  trees_ok s T None -> range_cleared k PC s T s1 T1 -> copies_ok (tmarks s1) -> insns_ok k PC I -> T1 !! k = None ->
  (forall p, h = Some p -> T1 !! PC = Some p) ->
  produced k PC I g n c s1 -> block_closed UseLinker g k cs md n (with_node g n c s1) T1 s2 ->
  trees_ok s3 (<[k := g]> T1) None -> same_blocks (nodes s2) (nodes s3) -> tmarks s3 = tmarks s2 ->
  (forall n3 b, nodes s3 !! g = Some n3 -> same_block (closed cs md n) n3 -> l_ref (clink b n3) = exit_target (nodes s3) g md h n3 b) ->
  (forall n3 i, nodes s3 !! g = Some n3 -> same_block (closed cs md n) n3 ->
    (forall b, i = slot b n3 -> exit_target (nodes s3) g md h n3 b = None) -> code s3 i = c i) ->
  block_made k PC cs md h I s T g s3 (<[k := g]> T1).
Proof using Type.
  intros Hs Hc Hcop Hin Ek1 Hnext Hp Hbc Hs3 Hsm Em Hed Hcd. pose proof (in_len _ _ _ Hin) as Hlen. destruct (bc_node _ _ _ _ _ _ _ _ _ Hbc) as (n1 & En1 & B1).
  destruct (same_blocks_look' _ _ _ _ Hsm En1) as (n3 & En3 & B2). pose proof (same_block_trans _ _ _ B1 B2) as B.
  pose proof B as (_&El&_&Es&_&Ecs&Emd&Eme&Hlinks). assert (forall b, clink b (closed cs md n) = clink b n) as Ecl by (by intros []).
  assert (forall b, last_exit (block_parts I) b (clink b n3)) as Hexits.
  { intros b. unfold last_exit. destruct (Hlinks b) as [-> ->]. rewrite Ecl. apply (pr_exits _ _ _ _ _ _ _ Hp). }
  constructor; [done|..].
  - intros k' p. rewrite lookup_insert_Some. split.
    + intros [[<- <-]|[Hk E]]; [by left|right]. pose proof (rc_sub _ _ _ _ _ _ Hc _ _ E) as E0. split; [congruence|]. split; [done|].
      intros m Em' Hh. apply (rc_tree _ _ _ _ _ _ Hc k' p m E0 Em') in Hh. congruence.
    + intros [[-> ->]|(Hk & E & Hno)]; [by left|right]. split; [congruence|]. destruct (tr_node _ _ _ _ Hs k' p E) as (m & Em' & _).
      destruct (T1 !! k') as [p'|] eqn:E1; [apply (rc_sub _ _ _ _ _ _ Hc) in E1; congruence|]. apply (rc_tree _ _ _ _ _ _ Hc k' p m E Em') in E1. by apply Hno in E1.
  - exists n3. split; [done|]. rewrite Es, Ecs, Emd, El, Eme. split; [apply Hp|]. split; [done|]. split; [done|]. split; [apply Hp|].
    split; [apply (pr_insns _ _ _ _ _ _ _ Hp)|]. split; [done|]. split; [by intros b; apply Hed|].
    intros j x Ex. apply (coded_of k PC cs md I s1 g n c s3 n3 j x); [done|apply Hs3|done|done| |done].
    intros i Hi. apply (Hcd n3); [done|done|]. intros b Eb. rewrite <- Hed by done. by apply Hi.
  - intros a. rewrite Em, (ba_bytes _ _ _ _ (bc_marks _ _ _ _ _ _ _ _ _ Hbc)). apply Hc.
  - rewrite Em. eapply copies_added; [apply Hbc|exact Hcop].
  - intros p m -> Hu Ep Hmd Hm Hfalls. unfold edge. rewrite En3. cbn [mbind option_bind]. rewrite (Hed n3 BT En3 B). unfold exit_target. rewrite Ep, Hu.
    destruct (falls_exit k PC I _ Hin Hfalls (Hexits BT)) as [Hne Ht].
    destruct (tr_node _ _ _ _ Hs3 PC p) as (m' & Em' & Hbm); [rewrite lookup_insert_ne by lia; by apply Hnext|]. assert (m' = m) as -> by congruence.
    replace (links_to BT n3 m) with true; [done|]. symmetry. unfold links_to. rewrite Ht, (block_key PC m Hbm), Z.eqb_refl, Emd, Hm.
    change (n_mode (closed cs md n)) with md. rewrite Hmd. unfold truth. by destruct (Z.eqb_spec (l_link (clink BT n3)) 0).
Qed.

Lemma DoClose_spec k PC cs md flags nextG I s T :
  trees_ok s T None -> insns_ok k PC I -> tail_ok md I -> (forall h, nextG = Some h -> T !! PC = Some h) ->
  reachable s k PC -> copies_ok (tmarks s) -> room (tmarks s) ((PC - k) / HOST_PAGE_SIZE + 3) -> fetched_range (tmarks s) k (PC - k) ->
  wp (DoClose UseLinker junk calloc mspace_malloc PC cs md flags nextG I) s (fun r s' =>
    match r with
    | None => has flags F_PREJ = true /\ (exists T', range_cleared k PC s T s' T') /\ copies_ok (tmarks s')
    | Some g => exists T', block_made k PC cs md nextG (tailed PC md (bool_decide (is_Some nextG)) I) s T g s' T'
    end).
Proof.
  intros Hs Hin Htail Hnext Hreach Hcop Hroom Hfet. unfold DoClose. pose proof (in_low _ _ _ Hin) as Hlow. pose proof (in_len _ _ _ Hin) as Hlen.
  pose proof (in_high _ _ _ Hin) as Hhigh. pose proof Hhigh as Hhigh'. unfold TREE_END in Hhigh.
  destruct (in_first _ _ _ Hin) as (I0 & g0 & l0 & rest0 & EI & Ek & _). rewrite EI, Ek. rewrite <- EI. rewrite u32_small by lia.
  wp_step. replace (match nextG with Some _ => true | None => false end) with (bool_decide (is_Some nextG)) by (by destruct nextG).
  set (linked := bool_decide (is_Some nextG)). eapply wp_mono; [by apply (add_tail_spec PC md linked I k s)|].
  intros I1 s0 (-> & -> & Hin1 & _). cbn beta. set (I1 := tailed PC md linked I) in *.
  wp_step. wp_step; [apply Z.ltb_lt; lia|]. wp_step.
  eapply wp_mono; [apply (clear_range_spec k PC flags s T); done || lia|]. intros q s1 (T1 & Hc & Hq). cbn beta.
  destruct Hq as [Hcop1 Hq]. destruct q; [wp_step; split; [done|split; [by exists T1|done]]|]. wp_step.
  pose proof (rc_ok _ _ _ _ _ _ Hc) as Hs1.
  eapply wp_mono; [apply (Close_spec k PC cs md I1 s1 T1); [done|done|done|apply Hc]|].
  intros g s2 (n & c & Hp & Hbc). cbn beta. wp_step. pose proof (pr_new _ _ _ _ _ _ _ Hp) as Hnew.
  assert (T1 !! k = None) as Ek1 by (eapply (fresh_none UseLinker _ T1 (Some g) g k n); [by apply (with_node_ok UseLinker s1 T1 g k n c)|apply (fresh_new UseLinker); try done; [by rewrite (pr_seqlen _ _ _ _ _ _ _ Hp)|rewrite (pr_seqlen _ _ _ _ _ _ _ Hp); intros a Ha; apply Hc; lia]]).
  assert (forall n3 b, same_block (closed cs md n) n3 -> links_to b (closed cs md n) (closed cs md n) = links_to b n3 n3) as Hself.
  { intros n3 b B3. symmetry. by apply links_to_same. }
  destruct nextG as [h|].
  2:{ wp_step. wp_step. exists (<[k := g]> T1). apply (made_of k PC cs md None I1 s T s1 T1 g n c s2 s2); try done; [apply Hbc|apply same_blocks_refl|..]; intros n3.
    - intros b En3 B3. pose proof (bc_edge _ _ _ _ _ _ _ _ _ Hbc g b) as He. rewrite decide_True in He by done.
      unfold edge in He. rewrite En3 in He. cbn [mbind option_bind] in He. rewrite He. unfold exit_target, self_edge. by rewrite Hself with n3 b.
    - intros i En3 B3 Hi. rewrite (bc_code _ _ _ _ _ _ _ _ _ Hbc); [done|]. intros b Hse ->. apply Hse. unfold self_edge. rewrite (Hself n3 b B3).
      apply (Hi b). symmetry. by apply (slot_same b (closed cs md n) n3). }
  destruct (next_stays k PC s T s1 T1 h Hs Hc (Hnext h eq_refl)) as (EPC & m1 & Em1 & Hbm).
  assert (h <> g) as Hhg by (intros ->; pose proof (nw_none _ _ _ _ _ Hnew); congruence).
  assert (nodes (with_node g n c s1) !! h = Some m1) as Em1' by (unfold with_node; cbn [nodes upd]; by rewrite lookup_insert_ne).
  destruct (bc_others _ _ _ _ _ _ _ _ _ Hbc h m1 Hhg Em1') as (m2 & Em2 & Bm).
  destruct (bc_node _ _ _ _ _ _ _ _ _ Hbc) as (n1 & En1 & B1).
  assert (forall b, links_to b n1 m2 = true -> l_ref (clink b n1) = None) as Hfree.
  { intros b Hl. pose proof (bc_edge _ _ _ _ _ _ _ _ _ Hbc g b) as He. rewrite decide_True in He by done.
    unfold edge in He. rewrite En1 in He. cbn [mbind option_bind] in He. rewrite He.
    apply (self_not_next g k PC cs md n n1 m2 b); [apply Hnew|by eapply block_ok_same|done|lia|done]. }
  eapply wp_mono; [apply (NodeLinker_spec UseLinker g h s2 (<[k := g]> T1) n1 m2); [apply Hbc|apply Hnew|done|done|done]|].
  intros [] s3 (Hs3 & Hsm & (_ & Er & _) & He & Hcd). wp_step. exists (<[k := g]> T1).
  destruct (same_blocks_look' _ _ _ _ Hsm Em2) as (m3 & Em3 & Bm3). destruct (same_blocks_look' _ _ _ _ Hsm En1) as (n3 & En3 & Bn3).
  assert (forall b, links_to b n1 m2 = links_to b n3 m3) as Hto by (intros b; symmetry; by apply links_to_same).
  apply (made_of k PC cs md (Some h) I1 s T s1 T1 g n c s2 s3); try done; [by intros p [= <-]|..]; intros n4.
  - intros b En4 B4. assert (n4 = n3) as -> by congruence. specialize (He g b). unfold new_edge, edge in He. rewrite En3, En1, Em2 in He. cbn [mbind option_bind] in He.
    rewrite He, Z.eqb_refl, andb_true_r, Hto. unfold exit_target. rewrite Em3. destruct (UseLinker && links_to b n3 m3); [done|].
    pose proof (bc_edge _ _ _ _ _ _ _ _ _ Hbc g b) as He2. rewrite decide_True in He2 by done. unfold edge in He2. rewrite En1 in He2. cbn [mbind option_bind] in He2.
    rewrite He2. unfold self_edge. by rewrite (Hself n3 b B4).
  - intros i En4 B4 Hi. assert (n4 = n3) as -> by congruence. rewrite Hcd.
    + rewrite (bc_code _ _ _ _ _ _ _ _ _ Hbc); [done|]. intros b Hse ->. specialize (Hi b). rewrite (slot_same b (closed cs md n) n3 B4) in Hi. specialize (Hi eq_refl).
      unfold exit_target in Hi. rewrite Em3 in Hi. unfold self_edge in Hse. rewrite (Hself n3 b B4) in Hse. destruct (UseLinker && links_to b n3 m3); [done|]. by apply Hse.
    + intros b [Hu Hl] ->. specialize (Hi b). rewrite (slot_same b n1 n3 Bn3) in Hi. specialize (Hi eq_refl). unfold exit_target in Hi. rewrite Em3, Hu, <- Hto, Hl in Hi. done.
Qed.


End close.
