(* ===== verification/TreesSteps.v ===== *)
(** * The tree of translated blocks: runs

    The entry points of the translator as steps; what holds in every state
    that they lead to, and that each of them completes. *)

From stdpp Require Import base numbers list gmap relations.
From Stdlib Require Import ZArith Lia.
From S2P Require Import Prelude Machine SimCpu SimMem Marks MarksInv MarksQuery MarksPages MarksProt MarksMark MarksFetch MarksRange Fhmap Trees TreesLinks TreesInv TreesRemove TreesSpec TreesAdd TreesDirty Produce ProduceSpec CloseSpec.

Local Open Scope Z_scope.

Implicit Types (T : gmap Z Z) (n : TNode).

(** What the interpreter, the fault handler and the devices ask for. *)
Inductive request :=
  | Fetch (x : Z)
  | Find (k : Z)
  | CloseBlock (PC cs md flags : Z) (nextG : option Z) (I : list IMeta)
  | Fault_at (addr len eip : Z)
  | Invalidate (data cnt : Z)
  | InvalidateFull (data cnt : Z)
  | CheckDirty (addr aend : Z)
  | CheckAllDirty.

Section steps.
Context {G : Type} `{CodeMemLaws G}.
Context (UseLinker : bool) (junk : bytes).
Hypothesis junk_bytes : bytes_ok junk.
Context (calloc : trees G -> Z) (mspace_malloc : trees G -> Z -> Z).
Hypothesis calloc_new : forall s, calloc s <> 0 /\ nodes s !! calloc s = None.
Hypothesis malloc_new : forall s z, 0 < z -> mspace_malloc s z <> 0 /\
  forall p m, nodes s !! p = Some m -> mspace_malloc s z + z <= n_addr m \/ n_addr m + n_len m <= mspace_malloc s z.
Implicit Types s : trees G.
#[local] Set Default Proof Using "Type*".

Abbreviation trees_ok := (trees_ok UseLinker).

(** The code that serves a request. *)
Definition serve (r : request) : M (trees G) unit :=
  match r with
  | Fetch x => on_marks (jit_fetch_byte junk x) ;; ret tt
  | Find k => FindTree k ;; ret tt
  | CloseBlock PC cs md flags nextG L => DoClose UseLinker junk calloc mspace_malloc PC cs md flags nextG L ;; ret tt
  | Fault_at addr len eip => InvalidateNodeRangeFromFault UseLinker addr len eip
  | Invalidate data cnt => e_invalidate UseLinker data cnt
  | InvalidateFull data cnt => e_invalidate_full UseLinker data cnt
  | CheckDirty addr aend => e_invalidate_dirty UseLinker addr aend
  | CheckAllDirty => e_invalidate_dirty_full UseLinker
  end.

(** The requests that are made in a state. *)
Definition legal s (r : request) : Prop :=
  match r with
  | Fetch x => 0 <= x < 2 ^ 32 /\ room (tmarks s) 2
  | Find k => True
  | CloseBlock PC cs md flags nextG L => exists k, insns_ok k PC L /\ tail_ok md L /\
      (forall h, nextG = Some h -> key_of s h = Some PC) /\
      reachable s k PC /\ room (tmarks s) ((PC - k) / HOST_PAGE_SIZE + 3) /\ fetched_range (tmarks s) k (PC - k)
  | Fault_at addr len eip => 0 <= addr /\ 0 < len /\ addr + len <= TREE_END + 2 ^ 16
  | Invalidate data cnt => 0 <= data /\ 0 < cnt /\ data + cnt <= TREE_END + 2 ^ 16 /\ reachable s data (data + cnt)
  | InvalidateFull data cnt => 0 <= data /\ 0 < cnt /\ data + cnt + HOST_PAGE_SIZE <= TREE_END + 2 ^ 16
  | CheckDirty addr aend => 0 <= addr <= aend /\ addr mod HOST_PAGE_SIZE = 0 /\ aend < ADDR_END
  | CheckAllDirty => True
  end.

(** Writes of the guest, through the marks and page cache as they are. *)
Record guest_step s s' : Prop := {
  gs_marks : marks_ok (tmarks s');
  gs_view : exists m, s' = s <| tmarks := m |>;
  gs_starts a : starts (tmarks s') a = starts (tmarks s) a;
  gs_marked a : marked (tmarks s') a = marked (tmarks s) a;
  gs_copies : copies_sub (tmarks s) (tmarks s');
}.

Inductive step s : trees G -> Prop :=
  | step_request r u s' : legal s r -> serve r s = Ok (u, s') -> step s s'
  | step_guest s' : guest_step s s' -> step s s'.

(** The state of the program: the blocks [T] in the tree, and the copies. *)
Definition sound s : Prop := exists T, trees_ok s T None /\ copies_ok (tmarks s).

Definition start s : Prop := trees_ok s ∅ None /\ copies_ok (tmarks s).

Lemma sound_sub s T T' s' : trees_ok s T None -> copies_ok (tmarks s) -> trees_ok s' T' None -> copies_sub (tmarks s) (tmarks s') -> sound s'.
Proof.
  intros Hs Hc Hs' Hsub. exists T'. split; [done|]. eapply copies_sub_ok; [apply Hs'|exact Hsub|exact Hc].
Qed.

Lemma serve_sound s r : sound s -> legal s r -> wp (serve r) s (fun _ s' => sound s').
Proof.
  intros (T & Hs & Hc) Hl. destruct r as [x|k|PC cs md flags nextG L|addr len eip|data cnt|data cnt|addr aend|]; cbn [serve legal] in *.
  - destruct Hl as [Hx Hr]. wp_step. apply wp_zoom. eapply wp_mono; [apply jit_fetch_byte_available; [done|apply Hs|done|done|]|].
    { unfold room in *. lia. }
    intros v m (Hf & _). cbn beta. wp_step. exists T. split; [by eapply trees_fetch|apply Hf].
  - wp_step. eapply wp_mono; [by apply FindTree_spec|]. intros v s' (_ & Hcm & Hs'). cbn beta. wp_step.
    eapply (sound_sub s T T); [done|done|done|apply copies_sub_seen, Hcm].
  - destruct Hl as (k & Hin & Ht & Hn & Hre & Hr & Hf). wp_step.
    eapply wp_mono; [apply (DoClose_spec UseLinker junk junk_bytes calloc mspace_malloc calloc_new malloc_new k PC cs md flags nextG L s T); try done|].
    { intros h Eh. specialize (Hn h Eh). unfold key_of in Hn. destruct (nodes s !! h) as [n|] eqn:En; [|done]. injection Hn as Hn.
      destruct (tr_dom _ _ _ _ Hs h n En) as [k' Ek]; [done|]. pose proof (tree_key _ _ _ _ _ _ _ Hs Ek En) as Hb. rewrite (block_key _ _ Hb) in Hn. congruence. }
    intros [g|] s' Hd; cbn beta; wp_step; [destruct Hd as [T' Hd]; exists T'; split; apply Hd|].
    destruct Hd as (_ & (T' & Hd) & Hc'). exists T'. split; [apply Hd|done].
  - destruct Hl as (Ha & Hl & He). unfold InvalidateNodeRangeFromFault. wp_step.
    eapply wp_mono; [by apply (DoInvalidateNodeRange_spec UseLinker addr len eip s T)|]. intros p s' (T' & [Hi _ _]). cbn beta. wp_step.
    eapply (sound_sub s T T'); [done|done| |exact (iv_keep _ _ _ _ _ _ _ _ _ Hi)]. destruct (iv_ok _ _ _ _ _ _ _ _ _ Hi). by constructor.
  - destruct Hl as (Ha & Hl & He & Hr). eapply wp_mono; [by apply (e_invalidate_spec UseLinker data cnt s T)|]. intros _ s' (T' & rc & [Hi _ _]).
    eapply (sound_sub s T T'); [done|done|apply Hi|by eapply iv_keep].
  - destruct Hl as (Ha & Hl & He). eapply wp_mono; [by apply (e_invalidate_full_spec UseLinker data cnt s T)|]. intros _ s' (T' & rc & [Hi _ _]).
    eapply (sound_sub s T T'); [done|done|apply Hi|by eapply iv_keep].
  - destruct Hl as (Ha & Hl & He). eapply wp_mono; [by apply (e_invalidate_dirty_spec UseLinker addr aend s T)|]. intros _ s' (T' & Hd & _).
    eapply (sound_sub s T T'); [done|done|apply Hd|apply Hd].
  - eapply wp_mono; [by apply (e_invalidate_dirty_full_spec UseLinker s T)|]. intros _ s' (T' & Hd & _).
    eapply (sound_sub s T T'); [done|done|apply Hd|apply Hd].
Qed.

Lemma guest_sound s s' : sound s -> guest_step s s' -> sound s'.
Proof.
  intros (T & Hs & Hc) [Hm [m ->] E1 E2 Hk]. apply (sound_sub s T T); [done|done| |done].
  constructor; try apply Hs; [done|..]; intros a Ha; rewrite ?E1, ?E2; by apply Hs.
Qed.

Lemma steps_sound s s' : sound s -> rtc step s s' -> sound s'.
Proof.
  intros Hs Hr. induction Hr as [s|s s1 s' Hst _ IH]; [done|]. apply IH. destruct Hst as [r u s1 Hl E|s1 Hg]; [|by eapply guest_sound].
  pose proof (serve_sound s r Hs Hl) as Hw. unfold wp in Hw. by rewrite E in Hw.
Qed.

(** C5: In every state that closing blocks, faults, invalidations, dirty
    checks, fetches and guest writes lead to, nodes do not overlap, the hash
    map finds exactly the live nodes, the marked bytes are exactly those of
    the nodes, every linked exit jumps to the node of its target, and back-
    references and code buffers match. *)
Theorem runs_sound s0 s : start s0 -> rtc step s0 s ->
  exists T, trees_ok s T None /\ copies_ok (tmarks s).
Proof. intros [H1 H2] Hr. eapply (steps_sound s0 s); [by exists ∅|done]. Qed.

(** C6: In every reachable state each request within its bounds completes: no
    loop runs on, no assertion or exit of the emulator is hit, no freed node
    or buffer is used. *)
Theorem requests_complete s0 s r : start s0 -> rtc step s0 s -> legal s r -> exists u s', serve r s = Ok (u, s') /\ step s s'.
Proof.
  intros [H1 H2] Hr Hl. assert (sound s) as Hs by (eapply steps_sound; [by exists ∅|exact Hr]).
  pose proof (serve_sound s r Hs Hl) as Hw. unfold wp in Hw. destruct (serve r s) as [[u s']|] eqn:E; [|done].
  exists u, s'. split; [done|by eapply step_request].
Qed.

End steps.
