(* ===== verification/TreesExample.v ===== *)
(** * Translated blocks at concrete states

    An empty tree over one fetched page, two blocks closed in it, and the
    properties of the tree and of the production of blocks there; inputs on
    which the code fails. *)

From stdpp Require Import base numbers list gmap relations.
From Stdlib Require Import ZArith Lia.
From S2P Require Import Prelude Dosmem Machine SimCpu SimMem Marks MarksInv MarksQuery MarksPages MarksProt MarksMark MarksFetch MarksFind MarksRange Tlb TlbSpec TlbExample Fhmap Trees TreesLinks TreesInv TreesRemove TreesSpec TreesAdd TreesDirty TlbTrees Produce ProduceSpec CloseSpec TreesSteps.

Local Open Scope Z_scope.

#[local] Existing Instance flat_code_mem.
#[local] Existing Instance flat_laws.

Abbreviation flat_trees := (trees (gmem unit)).

(** ** Allocators: above all that is in use *)

Definition above (f : Z -> TNode -> Z) (s : flat_trees) : Z := 1 + map_fold (fun p n m => Z.max (f p n) m) 0 (nodes s).
Definition calloc_above : flat_trees -> Z := above (fun p _ => p).
Definition malloc_above (s : flat_trees) (_ : Z) : Z := above (fun _ n => n_addr n + n_len n) s.

Lemma above_all f s : 0 < above f s /\ forall p n, nodes s !! p = Some n -> f p n < above f s.
Proof.
  unfold above. assert (forall m : gmap Z TNode, 0 <= map_fold (fun p n m => Z.max (f p n) m) 0 m /\
    forall p n, m !! p = Some n -> f p n <= map_fold (fun p n m => Z.max (f p n) m) 0 m) as Hm; [|destruct (Hm (nodes s)) as [H1 H2]; split; [lia|intros p n E; specialize (H2 p n E); lia]].
  intros m. apply (map_fold_weak_ind (fun r m => 0 <= r /\ forall p n, m !! p = Some n -> f p n <= r)).
  - split; [done|]. intros p n E. by rewrite lookup_empty in E.
  - intros p n m' r _ [H1 H2]. split; [lia|]. intros q k E. apply lookup_insert_Some in E as [[<- <-]|[_ E]]; [lia|]. specialize (H2 q k E). lia.
Qed.

Lemma calloc_above_new s : calloc_above s <> 0 /\ nodes s !! calloc_above s = None.
Proof.
  destruct (above_all (fun p _ => p) s) as [H1 H2]. fold (calloc_above s) in *. split; [lia|].
  destruct (nodes s !! calloc_above s) as [n|] eqn:E; [|done]. specialize (H2 _ n E). unfold calloc_above in *. lia.
Qed.

Lemma malloc_above_new s z : 0 < z -> malloc_above s z <> 0 /\
  forall p m, nodes s !! p = Some m -> malloc_above s z + z <= n_addr m \/ n_addr m + n_len m <= malloc_above s z.
Proof.
  intros Hz. destruct (above_all (fun _ n => n_addr n + n_len n) s) as [H1 H2]. unfold malloc_above. split; [lia|].
  intros p m E. specialize (H2 p m E). cbn beta in H2. lia.
Qed.

(** ** The tree before a block *)

Definition no_code : Z -> IGen := fun _ => MkIGen 0 0 0 0 0 0 0 0.
Definition tree0 : flat_trees := MkTrees ∅ (MkFh ZONE_P2SZ (MkCells (fun _ => MkHead None None) ∅)) fetched_state no_code ∅ 0.

Abbreviation tree_ok := (trees_ok true).

Lemma tree0_ok : tree_ok tree0 ∅ None.
Proof.
  assert (forall p n, nodes tree0 !! p <> Some n) as Hno by (intros p n E; change (nodes tree0) with (∅ : gmap Z TNode) in E; by rewrite lookup_empty in E).
  constructor.
  - split; [|split].
    + constructor; [intros p n b q E|intros p m q b E|intros p m E]; by apply Hno in E.
    + constructor; [intros p n E|intros p q n m E]; by apply Hno in E.
    + intros p n b E. by apply Hno in E.
  - by intros Hl.
  - by apply fh_ok_empty.
  - intros k p E. by rewrite lookup_empty in E.
  - intros p n E. by apply Hno in E.
  - apply empty_ok.
  - intros a Ha. split; [done|]. intros [p E]. by rewrite lookup_empty in E.
  - intros a Ha. split; [done|]. intros (k & p & n & E & _). by rewrite lookup_empty in E.
  - intros k k' p p' n n' E. by rewrite lookup_empty in E.
  - intros p n E. by apply Hno in E.
Qed.

Lemma tree0_copies : copies_ok (tmarks tree0).
Proof. constructor; [|done]. intros a n p Hin. apply list_elem_of_singleton in Hin. by injection Hin as -> -> ->. Qed.

Lemma tree0_fetched k len : 0x1000 <= k -> k + len <= 0x2000 -> fetched_range (tmarks tree0) k len.
Proof.
  intros Hk Hl a Ha Hr _. rewrite page_start_eq in Hr. assert (a = 0x1000) as ->; [|by eexists].
  unfold aligned, HOST_PAGE_SIZE in *. revert Ha Hr Hk Hl. clear. intros. Z.to_euclidean_division_equations. lia.
Qed.

(** ** Two blocks *)

(** From 0x1008: an immediate, and a jump to itself or to 0x1004. *)
Definition loop_insns : list IMeta :=
  [MkIMeta 0x1008 0 [MkIGen L_IMM_op 0 4 7 0 0 0 0];
   MkIMeta 0x100a 0 [MkIGen JMP_LINK 0 0x1008 0 0 0 0 0; MkIGen JMP_LINK 0 0x1004 0 0 0 0 0]].

(** From 0x1004: two pushes, which run on into the loop. *)
Definition push_insn (pc o : Z) : IMeta :=
  MkIMeta pc 0 [MkIGen O_PUSH1_op MOPT 0 0 0 0 0 0; MkIGen O_PUSH2 MOPT o 0 0 0 0 0; MkIGen O_PUSH3 MOPT 0 0 0 0 0 0].
Definition push_block : list IMeta := [push_insn 0x1004 4; push_insn 0x1006 12].

Abbreviation do_close := (DoClose true zero_page calloc_above malloc_above).
Definition run_to (c : M flat_trees (option Z)) (s : flat_trees) : flat_trees := match c s with Ok (_, s') => s' | Fault _ => s end.

Definition close_loop : M flat_trees (option Z) := do_close 0x100c 0 0 0 None loop_insns.
Definition tree1 : flat_trees := run_to close_loop tree0.
Definition close_push : M flat_trees (option Z) := do_close 0x1008 0 0 0 (Some 1) push_block.
Definition tree2 : flat_trees := run_to close_push tree1.

Example close_loop_runs : outcome (fun r s => (r, n_addr <$> nodes s !! 1, edge (nodes s) 1 BT, edge (nodes s) 1 BN)) close_loop tree0 = Some (Some 1, Some 1, None, Some 1).
Proof. vm_compute. done. Qed.
Example close_push_runs : outcome (fun r s => (r, edge (nodes s) 2 BT, edge (nodes s) 1 BT)) close_push tree1 = Some (Some 2, Some 1, None).
Proof. vm_compute. done. Qed.

Lemma loop_ok : insns_ok 0x1008 0x100c loop_insns.
Proof.
  constructor; [|repeat constructor|split; [done|repeat (apply Forall_cons; split; [done|]); by apply Forall_nil]|done|done|done|done].
  by exists (MkIMeta 0x1008 0 [MkIGen L_IMM_op 0 4 7 0 0 0 0]), (MkIGen L_IMM_op 0 4 7 0 0 0 0), [], [MkIMeta 0x100a 0 [MkIGen JMP_LINK 0 0x1008 0 0 0 0 0; MkIGen JMP_LINK 0 0x1004 0 0 0 0 0]].
Qed.

Lemma push_ok : insns_ok 0x1004 0x1008 push_block.
Proof.
  constructor; [|repeat constructor; intros E; discriminate E|split; [done|repeat (apply Forall_cons; split; [done|]); by apply Forall_nil]|done|done|done|done].
  by exists (push_insn 0x1004 4), (MkIGen O_PUSH1_op MOPT 0 0 0 0 0 0), [MkIGen O_PUSH2 MOPT 4 0 0 0 0 0; MkIGen O_PUSH3 MOPT 0 0 0 0 0 0], [push_insn 0x1006 12].
Qed.

Lemma loop_tail : tail_ok 0 loop_insns.
Proof. split; [done|]. split; [done|]. by intros GL [= <-]. Qed.

Lemma push_tail : tail_ok 0 push_block.
Proof. split; [done|]. split; [done|]. by intros GL [= <-]. Qed.

Lemma close_loop_made : wp close_loop tree0 (fun r s' =>
    match r with
    | None => has 0 F_PREJ = true /\ (exists T', range_cleared true 0x1008 0x100c tree0 ∅ s' T') /\ copies_ok (tmarks s')
    | Some g => exists T', block_made true 0x1008 0x100c 0 0 None (tailed 0x100c 0 (bool_decide (is_Some (@None Z))) loop_insns) tree0 ∅ g s' T'
    end).
Proof.
  refine (DoClose_spec true zero_page zero_page_ok calloc_above malloc_above calloc_above_new malloc_above_new 0x1008 0x100c 0 0 0 None loop_insns tree0 ∅ _ _ _ _ _ _ _ _).
  - apply tree0_ok.
  - apply loop_ok.
  - apply loop_tail.
  - intros h [=].
  - intros x y _ _ [=].
  - apply tree0_copies.
  - vm_compute. discriminate.
  - apply tree0_fetched; lia.
Qed.

(** A result that is known for its value. *)
Lemma run_value {A B} (c : M flat_trees A) (f : A -> flat_trees -> B) s b Q :
  outcome f c s = Some b -> wp c s Q -> exists r s', c s = Ok (r, s') /\ f r s' = b /\ Q r s'.
Proof. unfold outcome, wp. intros E Hw. destruct (c s) as [[r s']|]; [|done]. injection E as <-. by exists r, s'. Qed.

Definition T1 : gmap Z Z := {[0x1008 := 1]}.

Lemma tree1_made : block_made true 0x1008 0x100c 0 0 None loop_insns tree0 ∅ 1 tree1 T1.
Proof.
  destruct (run_value close_loop (fun r _ => r) tree0 (Some 1) _ ltac:(vm_compute; done) close_loop_made) as (r & s' & E & -> & T' & Hm).
  unfold tree1, run_to. rewrite E. assert (T' = T1) as <-; [|exact Hm].
  apply map_eq. intros k. apply option_eq. intros p. rewrite (bm_tree _ _ _ _ _ _ _ _ _ _ _ _ Hm k p). unfold T1. rewrite lookup_singleton_Some, lookup_empty.
  split; [intros [[-> ->]|(_ & E0 & _)]; [split; reflexivity|discriminate E0]|intros [<- <-]; left; split; reflexivity].
Qed.

Lemma tree1_ok : tree_ok tree1 T1 None.
Proof. apply (bm_ok _ _ _ _ _ _ _ _ _ _ _ _ tree1_made). Qed.

Lemma tree1_copies : copies_ok (tmarks tree1).
Proof. apply (bm_copies _ _ _ _ _ _ _ _ _ _ _ _ tree1_made). Qed.

Lemma tree1_node : exists n, nodes tree1 !! 1 = Some n /\ seqlen n = 4 /\ n_len n = 96 /\ n_addr n = 1.
Proof.
  destruct (bm_node _ _ _ _ _ _ _ _ _ _ _ _ tree1_made) as (n & En & Es & _ & _ & El & _). exists n. split; [done|]. split; [done|]. split; [done|].
  assert (n_addr <$> nodes tree1 !! 1 = Some 1) as Ea by (vm_compute; reflexivity). rewrite En in Ea. by injection Ea.
Qed.

Lemma T1_lookup : T1 !! 0x1008 = Some 1.
Proof. vm_compute. reflexivity. Qed.

(** The marked bytes are those of the loop. *)
Lemma tree1_marked a : 0 <= a -> marked (tmarks tree1) a = true <-> 0x1008 <= a < 0x100c.
Proof.
  intros Ha. rewrite (tr_marked _ _ _ _ tree1_ok a Ha). destruct tree1_node as (n & En & Es & _). split.
  - intros (k & p & m & E1 & E2 & E3). unfold T1 in E1. apply lookup_singleton_Some in E1 as [<- <-]. assert (m = n) as -> by congruence. lia.
  - intros Hr. exists 0x1008, 1, n. split; [apply T1_lookup|]. split; [done|]. lia.
Qed.

Lemma tree1_fetched k len : 0x1000 <= k -> k + len <= 0x2000 -> fetched_range (tmarks tree1) k len.
Proof.
  intros Hk Hl a Ha Hr Hp. exfalso. rewrite page_start_eq in Hr. assert (a = 0x1000) as ->.
  { unfold aligned, HOST_PAGE_SIZE in *. revert Ha Hr Hk Hl. clear. intros. Z.to_euclidean_division_equations. lia. }
  assert (protected (tmarks tree1) 0x1000 = true); [|congruence]. vm_compute. reflexivity.
Qed.

Definition T2 : gmap Z Z := {[0x1004 := 2; 0x1008 := 1]}.

(** ** The properties there *)

Lemma fh_find_correct_witness :
  wp (fh_find_pos (key_of tree1) 0x1008) (CollectTree tree1) (fun r s' => r = T1 !! 0x1008 /\ fh_ok (key_of tree1) s' T1).
Proof. exact (fh_find_correct (key_of tree1) (CollectTree tree1) T1 0x1008 (tr_map _ _ _ _ tree1_ok)). Defined.


Lemma push_reachable : reachable tree1 0x1004 0x1008.
Proof. intros x y Hy Hx Hm. apply tree1_marked in Hm; lia. Qed.

Lemma close_push_made : wp close_push tree1 (fun r s' =>
    match r with
    | None => has 0 F_PREJ = true /\ (exists T', range_cleared true 0x1004 0x1008 tree1 T1 s' T') /\ copies_ok (tmarks s')
    | Some g => exists T', block_made true 0x1004 0x1008 0 0 (Some 1) (tailed 0x1008 0 (bool_decide (is_Some (Some 1))) push_block) tree1 T1 g s' T'
    end).
Proof.
  refine (DoClose_spec true zero_page zero_page_ok calloc_above malloc_above calloc_above_new malloc_above_new 0x1004 0x1008 0 0 0 (Some 1) push_block tree1 T1 _ _ _ _ _ _ _ _).
  - apply tree1_ok.
  - apply push_ok.
  - apply push_tail.
  - intros h [= <-]. apply T1_lookup.
  - apply push_reachable.
  - apply tree1_copies.
  - vm_compute. discriminate.
  - apply tree1_fetched; lia.
Qed.


Lemma tree2_made : exists T', block_made true 0x1004 0x1008 0 0 (Some 1) (tailed 0x1008 0 (bool_decide (is_Some (Some 1))) push_block) tree1 T1 2 tree2 T'.
Proof.
  destruct (run_value close_push (fun r _ => r) tree1 (Some 2) _ ltac:(vm_compute; done) close_push_made) as (r & s' & E & -> & T' & Hm).
  unfold tree2, run_to. rewrite E. by exists T'.
Qed.

Lemma tree2_ok : exists T', tree_ok tree2 T' None.
Proof. destruct tree2_made as [T' Hm]. exists T'. apply Hm. Qed.

Definition buf2 : Z := match nodes tree2 !! 2 with Some n => n_addr n | None => 0 end.

Lemma tree2_node : exists n, nodes tree2 !! 2 = Some n /\ seqlen n = 4 /\ n_len n = 160 /\ n_addr n = 98.
Proof.
  assert ((fun n => (seqlen n, n_len n, n_addr n)) <$> nodes tree2 !! 2 = Some (4, 160, 98)) as E by (vm_compute; reflexivity).
  destruct (nodes tree2 !! 2) as [n|]; [|discriminate E]. exists n. by injection E as -> -> ->.
Qed.

Lemma tree2_nodes : exists lg n, nodes tree2 !! 1 = Some lg /\ nodes tree2 !! 2 = Some n /\ l_ref (clink_t lg) = None /\
  l_target (clink_nt lg) = 0x1008 /\ u32 (key n) = 0x1004.
Proof.
  assert ((fun n => (l_ref (clink_t n), l_target (clink_nt n))) <$> nodes tree2 !! 1 = Some (None, 0x1008)) as E1 by (vm_compute; reflexivity).
  assert ((fun n => u32 (key n)) <$> nodes tree2 !! 2 = Some 0x1004) as E2 by (vm_compute; reflexivity).
  destruct (nodes tree2 !! 1) as [lg|] eqn:Elg; [|discriminate E1]. destruct (nodes tree2 !! 2) as [n|] eqn:En; [|discriminate E2].
  injection E1 as F1 F2. injection E2 as F3. exists lg, n. split; [reflexivity|]. split; [reflexivity|]. split; [exact F1|]. split; [exact F2|exact F3].
Qed.


Lemma RemoveNode_correct_witness : exists n,
  wp (RemoveNode true 1) tree1 (fun _ s' => tree_ok s' (delete 0x1008 T1) None /\
    block_removed (tmarks tree1) 0x1008 (seqlen n) (tmarks s') /\ bufs s' = bufs tree1 ∖ {[n_addr n]} /\ nodes s' !! 1 = None /\
    (forall p b, edge (nodes s') p b = if bool_decide (p = 1) || bool_decide (edge (nodes tree1) p b = Some 1) then None else edge (nodes tree1) p b)).
Proof.
  destruct tree1_node as (n & En & _). exists n. exact (RemoveNode_correct true tree1 T1 0x1008 1 n tree1_ok T1_lookup En).
Defined.

Lemma invalidate_range_correct_witness :
  wp (DoInvalidateNodeRange true 0x1009 1 0) tree1 (fun rc s' => exists T', range_invalidated true 0x1009 (0x1009 + 1) 0 tree1 T1 s' T' rc).
Proof. refine (invalidate_range_correct true 0x1009 1 0 tree1 T1 tree1_ok _ _ _); unfold TREE_END; lia. Defined.


(** There the second push is replaced by a return to it. *)
Example first_push_stops : outcome (fun _ s => (fun n => (op (code s (n_addr n + 64)), p0 (code s (n_addr n + 64)))) <$> nodes tree2 !! 2)
  (InvalidateNodeRangeFromFault true 0x1006 1 (buf2 + 32)) tree2 = Some (Some (JMP_TAILCODE, 0x1006)).
Proof. vm_compute. done. Qed.

Lemma byte_reachable : reachable tree1 0x1009 (0x1009 + 1).
Proof.
  intros x y Hy Hx Hm. assert (y = x) as -> by lia. unfold marked in Hm. by destruct (map_of (tmarks tree1) x).
Qed.

Lemma e_invalidate_correct_witness :
  wp (e_invalidate true 0x1009 1) tree1 (fun _ s' => exists T' rc, range_invalidated true 0x1009 (0x1009 + 1) 0 tree1 T1 s' T' rc).
Proof. refine (e_invalidate_correct true 0x1009 1 tree1 T1 tree1_ok _ _ _ byte_reachable); unfold TREE_END; lia. Defined.

Lemma e_invalidate_dirty_correct_witness :
  wp (e_invalidate_dirty true 0x1000 0x1fff) tree1 (fun _ s' => exists T', pages_dropped true tree1 T1 s' T' /\ clean_from s' 0x1000 (0x1fff + 1)).
Proof. refine (e_invalidate_dirty_correct true 0x1000 0x1fff tree1 T1 tree1_ok _ _ _); [lia|reflexivity|unfold ADDR_END; lia]. Defined.

Lemma dirty_full_coherent_witness :
  wp (e_invalidate_dirty_full true) tree1 (fun _ s' => exists T', pages_dropped true tree1 T1 s' T' /\ coherent (tmarks s')).
Proof. exact (dirty_full_coherent true tree1 T1 tree1_ok). Defined.

(** ** The same tree next to the memory of the simulated CPU *)

Definition tree_env : access_env code_tree :=
  MkAccessEnv code_tree flat_mem_env (fun _ => false) (fun _ => true) (fun _ => true) (fun _ => false) (fun _ _ g => (0, g)) (fun _ _ _ g => g).

Lemma tree_env_ok : env_ok tree_env.
Proof. destruct flat_env_ok. by constructor. Qed.

Definition with_tree (r : code_tree) (m : flat_state) : marks (gmem code_tree) :=
  MkMarks (MpH m) (LastMp m) (clist m)
    (MkGmem (phys (guest m)) (unprotected_page_cache (guest m)) (unprotected_page_unixaddr_tlb (guest m)) r).

#[local] Instance tree_code_mem : CodeMem (gmem code_tree) := write_code_mem tree_env no_jit.
#[local] Instance tree_laws : CodeMemLaws (gmem code_tree) := write_laws tree_env no_jit no_jit_ok.

Lemma with_tree_ok r m : marks_ok m -> marks_ok (with_tree r m).
Proof. intros [E1 E2 E3 E4 E5 E6 [G1 G2 G3]]. constructor; try done. Qed.

Abbreviation tree_of_memory := (trees_of (fun r : code_tree => r)).

Lemma with_tree_trees (s : flat_trees) T : tree_ok s T None -> TreesInv.trees_ok true (tree_of_memory (with_tree (tree_in s) (tmarks s))) T None.
Proof. intros Hs. refine (trees_remarked true s (tree_of_memory (with_tree (tree_in s) (tmarks s))) T Hs eq_refl eq_refl eq_refl eq_refl _ eq_refl). apply with_tree_ok, Hs. Qed.

Definition memory1 : marks (gmem code_tree) := with_tree (tree_in tree1) (tmarks tree1).

Lemma memory1_ok : TreesInv.trees_ok true (tree_of_memory memory1) T1 None.
Proof. exact (with_tree_trees tree1 T1 tree1_ok). Qed.

(** A word over the loop. *)
Lemma self_modifying_write_witness :
  wpx (do_write tree_env (sim_fault_handler true (fun r => r) (fun r _ => r) true 1 (fun _ => false) (fun _ _ _ => ret tt)) 2 0x1009 0x9090) memory1
    (fun _ m' => exists T', code_written tree_env no_jit no_jit_ok true (fun r => r) 2 0x1009 0x9090 1 memory1 T1 m' T') (fun _ _ => False).
Proof.
  refine (self_modifying_write tree_env no_jit no_jit_ok tree_env_ok true (fun r => r) (fun r _ => r) (fun _ _ => eq_refl) 2 0x1009 0x9090 1 memory1 T1
    (fun _ => false) (fun _ _ _ => ret tt) _ memory1_ok _ _ _ _ _ _); [by right; left|lia|unfold TREE_END; lia|done|vm_compute; reflexivity|reflexivity..].
Defined.

(** ** A run: the loop is closed, then a device writes to it *)

Abbreviation flat_step := (step true zero_page calloc_above malloc_above).
Abbreviation flat_serve := (serve true zero_page calloc_above malloc_above).

Definition close_request : request := CloseBlock 0x100c 0 0 0 None loop_insns.

Lemma close_legal : legal tree0 close_request.
Proof.
  exists 0x1008. split; [apply loop_ok|]. split; [apply loop_tail|]. split; [intros h [=]|]. split; [intros x y _ _ [=]|].
  split; [vm_compute; discriminate|apply tree0_fetched; lia].
Qed.

Lemma close_served : flat_serve close_request tree0 = Ok (tt, tree1).
Proof.
  destruct (run_value close_loop (fun r _ => r) tree0 (Some 1) _ ltac:(vm_compute; done) close_loop_made) as (r & s' & E & _).
  change (flat_serve close_request) with (close_loop ;; ret tt). unfold tree1, run_to. unfold bind. rewrite E. reflexivity.
Qed.

Lemma first_run : rtc flat_step tree0 tree1.
Proof. apply rtc_once. exact (step_request true zero_page calloc_above malloc_above tree0 close_request tt tree1 close_legal close_served). Qed.

Lemma runs_sound_witness : exists T, tree_ok tree1 T None /\ copies_ok (tmarks tree1).
Proof.
  exact (runs_sound true zero_page zero_page_ok calloc_above malloc_above calloc_above_new malloc_above_new tree0 tree1 (conj tree0_ok tree0_copies) first_run).
Defined.

Lemma requests_complete_witness : exists u s', flat_serve (Invalidate 0x1009 1) tree1 = Ok (u, s') /\ flat_step tree1 s'.
Proof.
  refine (requests_complete true zero_page zero_page_ok calloc_above malloc_above calloc_above_new malloc_above_new tree0 tree1 (Invalidate 0x1009 1) (conj tree0_ok tree0_copies) first_run _).
  split; [lia|]. split; [lia|]. split; [unfold TREE_END; lia|apply byte_reachable].
Defined.

(** ** Where the code fails *)

(** Three pushes that are merged are four operations, and the second push has
    one: when that one writes over the third push, its own operation is made
    the end of the block, and the third push stays as it was. *)
Definition close_push3 : M flat_trees (option Z) :=
  do_close 0x1006 0 0 0 None [push_insn 0x1000 4; push_insn 0x1002 12; push_insn 0x1004 8].

Lemma merged_push_not_stopped :
  outcome (fun _ s => (op (code s 33), op (code s 65), p0 (code s 65), op (code s 97), p0 (code s 97)))
    (close_push3 ;; InvalidateNodeRangeFromFault true 0x1004 1 65) tree0 = Some (O_PUSH2, JMP_TAILCODE, 0x1002, O_PUSH2, 8).
Proof. vm_compute. done. Qed.


(** A jump to the start of its block that the instruction before it writes
    over: the end that is put in its place is lost when its link is cut, and
    the jump is taken. *)
Definition close_jump : M flat_trees (option Z) :=
  do_close 0x1004 0 0 0 None [MkIMeta 0x1000 0 [MkIGen L_IMM_op 0 4 7 0 0 0 0; MkIGen L_IMM_op 0 8 7 0 0 0 0]; MkIMeta 0x1002 0 [MkIGen JMP_LINK 0 0x1000 0 0 0 0 0]].

Lemma linked_jump_not_stopped :
  outcome (fun _ s => (op (code s 65), p0 (code s 65))) (close_jump ;; InvalidateNodeRangeFromFault true 0x1002 1 33) tree0 = Some (JMP_LINK, 0x1000).
Proof. vm_compute. done. Qed.

(** A second fault of the instruction that runs: its block is gone by then, so
    the buffer that was kept for it is never freed. *)
Lemma second_fault_leaks :
  outcome (fun _ s => (BrokenCodePtr s, bool_decide (1 ∈ bufs s)))
    (InvalidateNodeRangeFromFault true 0x1009 1 1 ;; InvalidateNodeRangeFromFault true 0x100a 1 1) tree1 = Some (0, true).
Proof. vm_compute. reflexivity. Qed.

(** The program counter of an instruction is kept in 16 signed bits: one that
    starts 0x8000 bytes into its block counts as before the block. *)
Definition long_block : list IMeta :=
  [MkIMeta 0x11000 0 [MkIGen L_IMM_op 0 4 7 0 0 0 0]; MkIMeta 0x19000 0 [MkIGen JMP_TAILCODE 0 0x19001 0 0 0 0 0]].
Lemma long_block_pc : outcome (fun g s => match nodes s !! g with Some n => dnpc <$> meta n !! 1%nat | None => None end)
  (ProduceCode calloc_above malloc_above 0x19001 long_block) tree0 = Some (Some (-0x8000)).
Proof. vm_compute. reflexivity. Qed.

(** The length of a block is kept in 16 bits: 0x10000 bytes of guest code
    become a node of length 0. *)
Lemma long_block_length : outcome (fun g s => seqlen <$> nodes s !! g) (ProduceCode calloc_above malloc_above 0x21000 long_block) tree0 = Some (Some 0).
Proof. vm_compute. reflexivity. Qed.

(** An invalidation of a range that ends at 2^31 compares with a negative end. *)
Lemma signed_end_keeps_block :
  outcome (fun _ s => bool_decide (is_Some (nodes s !! 1))) (DoInvalidateNodeRange true 0x1008 (2 ^ 31 - 0x1008) 0) tree1 = Some true.
Proof. vm_compute. reflexivity. Qed.

(** After a block in the way has been dropped its page is fetched again, one
    byte of it: nobody has written to the page, but it counts as dirty. *)
Definition true_page : bytes := fun o => guest_byte flat_guest (0x1000 + o).
Definition true_tree0 : flat_trees := tree0 <| tmarks := MkMarks [] None [MkCe 0x1000 10 (Some true_page)] flat_guest |>.
Definition overlap_block : list IMeta := [MkIMeta 0x1006 0 [MkIGen L_IMM_op 0 4 7 0 0 0 0]].
Lemma refetched_page_dirty :
  outcome (fun _ s => dirty_pages (tmarks s)) close_loop true_tree0 = Some [] /\
  outcome (fun _ s => dirty_pages (tmarks s)) (close_loop ;; do_close 0x100a 0 0 0 None overlap_block) true_tree0 = Some [0x1000].
Proof. vm_compute. done. Qed.
