(* ===== verification/SimPeephole.v ===== *)
(** * The peephole optimizer on pushes (simx86/codegen.c, codegen-sim.c)

    [OptimizeCode] drops the [O_PUSH3] of a push and the [O_PUSH1] of the next
    one; the simulator then runs both in one loop, which stores the stack
    pointer once.  Without a page fault the outcome is the same. *)

From stdpp Require Import base numbers list.
From Stdlib Require Import ZArith Lia.
From S2P Require Import Prelude Machine SimFlags SimFlagsSpec SimCpu SimAlu SimMem SimAluSpec SimMulDiv SimMemSpec SimStack SimExample Produce.

Local Open Scope Z_scope.

Section peephole.
Context {W : Type} `{BusLaws W}.
Implicit Types (s : sim W) (l : list IGen).
#[local] Set Default Proof Using "Type*".

(** The operations [l] from [pc] on. *)
Fixpoint at_code (code : Z -> IGen) (pc : Z) l : Prop :=
  match l with [] => True | g :: l => code pc = g /\ at_code code (pc + 1) l end.

Lemma at_code_app code l l' : forall pc, at_code code pc (l ++ l') <-> at_code code pc l /\ at_code code (pc + Z.of_nat (length l)) l'.
Proof.
  induction l as [|g l IH]; intros pc; [simpl; rewrite Z.add_0_r; tauto|]. cbn [app at_code length]. rewrite IH.
  replace (pc + 1 + Z.of_nat (length l)) with (pc + Z.of_nat (S (length l))) by lia. tauto.
Qed.

(** States that differ in the instruction being run only. *)
Record alike s s' : Prop := {
  al_cpu a : cpu s' a = cpu s a;
  al_revect : int_revectored s' = int_revectored s;
  al_flags : RFL s' = RFL s;
  al_dr : DR1 s' = DR1 s;
  al_mem_ref : mem_ref s' = mem_ref s;
  al_P0 : P0 s' = P0 s;
  al_world : world s' = world s;
}.

(** A write depends on the world only, and on [FindPC] only when it faults. *)
Lemma wr_world FindPC FindPC' w x v s s2 (Q Q2 : unit -> sim W -> Prop) :
  world s2 = world s -> safe (wr FindPC w x v) s Q -> (forall m, Q tt (s <| world := m |>) -> Q2 tt (s2 <| world := m |>)) ->
  safe (wr FindPC' w x v) s2 Q2.
Proof.
  intros Ew Hs HQ. unfold wr, sim_write, access, safe, wpx, wp, on_bus, xbind, bind in *. rewrite Ew.
  destruct (bus_write _ _ _ (world s)) as [[[f|[]] m]|e]; cbn in *; [destruct Hs|by apply HQ|done].
Qed.

Lemma bind_inv {A B} (c : Sim W A) (k : A -> Sim W B) s Q : safe (xbind c k) s Q -> safe c s (fun a s' => safe (k a) s' Q).
Proof. unfold safe, wpx, wp, xbind, bind. by destruct (c s) as [[[e|a] s']|e]. Qed.

Lemma peek_inv {A} (f : sim W -> A) s (Q : A -> sim W -> Prop) : safe (peek f) s Q -> Q (f s) s.
Proof. done. Qed.

Lemma update_inv (f : sim W -> sim W) s (Q : unit -> sim W -> Prop) : safe (update f) s Q -> Q tt (f s).
Proof. done. Qed.

(** What a push instruction reads besides the stack pointer. *)
Definition reads_same s s2 (g : IGen) : Prop :=
  has (mode g) MNOREG = true \/ has (mode g) IMMED = true \/ forall w, width w -> reg w (p0 g) s2 = reg w (p0 g) s.

Lemma push_value_same s s2 g w :
  width w -> DR1 s2 = DR1 s -> reads_same s s2 g ->
  (if has (mode g) MNOREG then dr w s2 else if has (mode g) IMMED then p0 g else reg w (p0 g) s2) =
  (if has (mode g) MNOREG then dr w s else if has (mode g) IMMED then p0 g else reg w (p0 g) s).
Proof.
  intros Hw Ed Hr. unfold dr. rewrite Ed. destruct Hr as [->|[->|Hr]]; [done|by destruct (has _ MNOREG)|]. by rewrite Hr.
Qed.

(** The part [ops] of a loop, from states that differ in ESP. *)
Lemma push_loop_part (code code2 : Z -> IGen) FindPC FindPC2 (Q Q2 : Z * Z -> sim W -> Prop) ops : forall fuel fuel2 pc pc2 sp sp2 s s2,
  ops <> [] -> at_code code pc ops -> at_code code2 pc2 ops -> Forall (fun g => op g = O_PUSH2) ops ->
  op (code (pc + Z.of_nat (length ops))) <> O_PUSH2 ->
  world s2 = world s -> DR1 s2 = DR1 s -> CPULONG Ofs_STACKM s2 = CPULONG Ofs_STACKM s -> CPULONG Ofs_XSS s2 = CPULONG Ofs_XSS s ->
  Forall (reads_same s s2) ops ->
  (forall k, Z.land (u32 (sp2 - k)) (CPULONG Ofs_STACKM s) = Z.land (u32 (sp - k)) (CPULONG Ofs_STACKM s)) ->
  safe (push_loop code FindPC fuel pc sp) s Q -> (length ops <= fuel2)%nat ->
  (forall m i i' x, let sp := Z.land x (CPULONG Ofs_STACKM s) in
    Q (pc + Z.of_nat (length ops), sp) (s <| world := m |> <| currentIG := i |>) ->
    let s2' := s2 <| world := m |> <| currentIG := i' |> in let pc2 := pc2 + Z.of_nat (length ops) in
    if op (code2 pc2) =? O_PUSH2 then safe (push_loop code2 FindPC2 (fuel2 - length ops) pc2 sp) s2' Q2 else Q2 (pc2, sp) s2') ->
  safe (push_loop code2 FindPC2 fuel2 pc2 sp2) s2 Q2.
Proof.
  induction ops as [|g ops IH]; intros fuel fuel2 pc pc2 sp sp2 s s2 Hne Hc Hc2 Hops Hstop Ew Ed Em Ex Hr Hsp Hs Hf HQ; [done|].
  destruct Hc as [Eg Hc], Hc2 as [Eg2 Hc2]. apply Forall_cons in Hops as [Hg Hops]. apply Forall_cons in Hr as [Hrg Hr].
  destruct fuel as [|fuel]; [destruct Hs|]. destruct fuel2 as [|fuel2]; [simpl in Hf; lia|]. cbn [push_loop] in *. rewrite Eg in Hs. rewrite Eg2.
  set (w := if has (mode g) (Z.lor SEGREG DATA16) then 16 else 32) in *. assert (width w) as Hw by (unfold w, width; destruct (has _ _); lia).
  set (d := if has (mode g) DATA16 then 2 else 4).
  assert (forall z, u32 (if has (mode g) DATA16 then z - 2 else z - 4) = u32 (z - d)) as Ed' by (intros z; unfold d; by destruct (has (mode g) DATA16)).
  set (x := u32 (sp - d)) in *. set (sp' := Z.land x (CPULONG Ofs_STACKM s)).
  apply bind_law, peek_law. rewrite Em. apply bind_law, peek_law, bind_law, update_law, bind_law, peek_law, bind_law.
  rewrite Ed', Hsp. fold x sp'. change (CPULONG Ofs_XSS s2) with (CPULONG Ofs_XSS s2).
  change (dr w (s2 <| currentIG := pc2 |>)) with (dr w s2). change (reg w (p0 g) (s2 <| currentIG := pc2 |>)) with (reg w (p0 g) s2).
  rewrite (push_value_same s s2 g w Hw Ed Hrg), Ex.
  apply bind_inv, peek_inv, bind_inv, peek_inv, bind_inv, update_inv, bind_inv, peek_inv, bind_inv in Hs. rewrite Ed' in Hs. fold x sp' in Hs.
  eapply (wr_world FindPC FindPC2 w); [|exact Hs|]; [exact Ew|].
  intros m Hm. cbn beta in Hm. simpl length in *.
  replace (pc + Z.of_nat (S (length ops))) with (pc + 1 + Z.of_nat (length ops)) in * by lia.
  replace (pc2 + Z.of_nat (S (length ops))) with (pc2 + 1 + Z.of_nat (length ops)) in * by lia.
  destruct ops as [|g' ops].
  - simpl length in *. rewrite Z.add_0_r in *. destruct (Z.eqb_spec (op (code (pc + 1))) O_PUSH2); [done|].
    specialize (HQ m pc pc2 x Hm). fold sp' in HQ. cbn zeta in HQ. replace (S fuel2 - 1)%nat with fuel2 in HQ by lia. rewrite Z.add_0_r in HQ.
    destruct (op (code2 (pc2 + 1)) =? O_PUSH2); [exact HQ|]. apply ret_law. exact HQ.
  - assert (op (code (pc + 1)) = O_PUSH2 /\ op (code2 (pc2 + 1)) = O_PUSH2) as [E1 E2].
    { destruct Hc as [-> _], Hc2 as [-> _]. apply Forall_cons in Hops as [-> _]. done. }
    rewrite E1 in Hm. rewrite E2. change (O_PUSH2 =? O_PUSH2) with true in *. cbv iota in *.
    apply (IH fuel fuel2 (pc + 1) (pc2 + 1) sp' sp' (s <| currentIG := pc |> <| world := m |>)); try done. simpl in *; lia.
Qed.

Lemma assert_inv (c : bool) s (Q : unit -> sim W -> Prop) : safe (lift (assert c)) s Q -> Q tt s.
Proof. destruct c; [done|]. intros []. Qed.

Lemma assert_law (c : bool) s (Q : unit -> sim W -> Prop) : c = true -> Q tt s -> safe (lift (assert c)) s Q.
Proof. by intros ->. Qed.

(** A push of the registers and values [ops]. *)
Definition push_insns (ops : list IGen) : Prop := ops <> [] /\ Forall (fun g => op g = O_PUSH2) ops.

(** It does not push ESP. *)
Definition no_esp (g : IGen) : Prop :=
  has (mode g) MNOREG = true \/ has (mode g) IMMED = true \/ forall w, width w -> apart w (p0 g) 32 Ofs_ESP.

(** What is left of the ESP of a push in the next one. *)
Lemma keep_esp_twice b x sp s m i i' :
  bytes_ok (cpu s) -> stack_bits s b -> let sp1 := Z.land x (CPULONG Ofs_STACKM s) in let sp2 := Z.land sp (CPULONG Ofs_STACKM s) in
  forall m0 i0, let s1 := keep_esp sp1 (s <| world := m0 |> <| currentIG := i0 |>) in
  alike (keep_esp sp2 (s1 <| world := m |> <| currentIG := i |>)) (keep_esp sp2 (s <| world := m |> <| currentIG := i' |>)).
Proof.
  intros Hc Hb sp1 sp2 m0 i0 s1. pose proof Hb as [Em Hb'].
  assert (forall y, 0 <= Z.land y (CPULONG Ofs_STACKM s) < 2 ^ b) as Hr.
  { intros y. rewrite Em, land_mask by lia. apply Z.mod_pos_bound. lia. }
  set (s0 := s <| world := m0 |> <| currentIG := i0 |>) in *.
  destruct (keep_esp_spec b sp1 s0 Hb Hc (Hr x)) as (E1 & E2 & E3 & E4 & _). fold s1 in E1, E2, E3, E4.
  assert (stack_bits s1 b) as Hb1.
  { split; [|done]. unfold CPULONG. rewrite E4; [exact Em|unfold width; lia|right; vm_compute; discriminate]. }
  rewrite (keep_esp_eq b sp2 (s1 <| world := m |> <| currentIG := i |>)) by (done || apply Hr).
  rewrite (keep_esp_eq b sp2 (s <| world := m |> <| currentIG := i' |>)) by (done || apply Hr).
  change (CPULONG Ofs_ESP (s1 <| world := m |> <| currentIG := i |>)) with (CPULONG Ofs_ESP s1).
  change (stack_ptr (s1 <| world := m |> <| currentIG := i |>) b) with (stack_ptr s1 b). rewrite E1, E2. unfold esp_with.
  change (CPULONG Ofs_ESP (s <| world := m |> <| currentIG := i' |>)) with (CPULONG Ofs_ESP s).
  change (stack_ptr (s <| world := m |> <| currentIG := i' |>) b) with (stack_ptr s b).
  change (CPULONG Ofs_ESP s0) with (CPULONG Ofs_ESP s). change (stack_ptr s0 b) with (stack_ptr s b).
  replace (CPULONG Ofs_ESP s - stack_ptr s b + sp1 - sp1 + sp2) with (CPULONG Ofs_ESP s - stack_ptr s b + sp2) by lia.
  constructor; try done. intros a. unfold s1. rewrite (keep_esp_eq b sp1 s0) by (done || apply Hr). unfold set_reg. cbn [cpu upd]. unfold store.
  by destruct (_ && _).
Qed.

Lemma push_merge_spec (code code2 : Z -> IGen) FindPC FindPC2 P1 A P3 Q1 B Q3 l' l1' pc pc2 fuel fuel2 b s (Q : Z -> sim W -> Prop) :
  bytes_ok (cpu s) -> stack_bits s b -> push_insns A -> push_insns B -> Forall no_esp B ->
  op P3 = O_PUSH3 -> op Q3 = O_PUSH3 -> removable P3 Q1 = true ->
  optimize (P1 :: A ++ [P3]) (Q1 :: B ++ [Q3]) = (l', l1') ->
  at_code code pc ((P1 :: A ++ [P3]) ++ Q1 :: B ++ [Q3]) -> at_code code2 pc2 (l' ++ l1') ->
  (length A + length B <= fuel2)%nat ->
  safe (let? pc' := O_PUSH1 code FindPC fuel pc in O_PUSH1 code FindPC fuel (pc' + 1)) s Q ->
  safe (O_PUSH1 code2 FindPC2 fuel2 pc2) s (fun pc2' s2 => pc2' = pc2 + Z.of_nat (length (l' ++ l1')) - 1 /\
    exists pc' s1, Q pc' s1 /\ alike s1 s2).
Proof.
  intros Hc Hb [HA HA2] [HB HB2] Hesp EP3 EQ3 Hrem Eo Hcode Hcode2 Hfuel Hs.
  assert (l' = P1 :: A /\ l1' = B ++ [Q3]) as [-> ->].
  { unfold optimize in Eo. rewrite app_comm_cons, last_snoc, Hrem, EP3 in Eo. change (O_PUSH3 =? O_MOVS_SavA_op) with false in Eo.
    rewrite removelast_last in Eo. by injection Eo as <- <-. }
  assert (at_code code (pc + 1) A /\ code (pc + 1 + Z.of_nat (length A)) = P3 /\
    at_code code (pc + 1 + Z.of_nat (length A) + 2) B /\ code (pc + 1 + Z.of_nat (length A) + 2 + Z.of_nat (length B)) = Q3) as (C1 & C2 & C3 & C4).
  { cbn [app at_code] in Hcode. destruct Hcode as [_ Hcode]. rewrite <- app_assoc in Hcode. apply at_code_app in Hcode as [C1 Hcode]. cbn [app at_code] in Hcode.
    destruct Hcode as (C2 & _ & Hcode). apply at_code_app in Hcode as [C3 [C4 _]].
    replace (pc + 1 + Z.of_nat (length A) + 1 + 1) with (pc + 1 + Z.of_nat (length A) + 2) in * by lia. done. }
  assert (at_code code2 (pc2 + 1) A /\ at_code code2 (pc2 + 1 + Z.of_nat (length A)) B /\
    code2 (pc2 + 1 + Z.of_nat (length A) + Z.of_nat (length B)) = Q3) as (D1 & D2 & D3).
  { cbn [app at_code] in Hcode2. destruct Hcode2 as [_ Hcode2]. apply at_code_app in Hcode2 as [D1 Hcode2].
    apply at_code_app in Hcode2 as [D2 [D3 _]]. done. }
  clear Hcode Hcode2. replace (pc2 + Z.of_nat (length ((P1 :: A) ++ B ++ [Q3])) - 1) with (pc2 + 1 + Z.of_nat (length A) + Z.of_nat (length B))
    by (rewrite !length_app; simpl; lia).
  assert (forall c c' ops, ops <> [] -> Forall (fun g => op g = O_PUSH2) ops -> at_code c c' ops -> op (c c') = O_PUSH2) as Hfirst.
  { intros c c' [|g ops] Hne Hops Hat; [done|]. destruct Hat as [-> _]. by apply Forall_cons in Hops as [-> _]. }
  unfold O_PUSH1 in Hs. apply bind_inv, bind_inv, peek_inv, bind_inv, assert_inv, bind_inv in Hs.
  unfold O_PUSH1. apply bind_law, peek_law, bind_law, assert_law; [apply Z.eqb_eq; exact (Hfirst code2 _ A HA HA2 D1)|]. apply bind_law.
  eapply (push_loop_part code code2 FindPC FindPC2 _ _ A fuel fuel2 (pc + 1) (pc2 + 1)); [done|done|done|done|by rewrite C2, EP3|done..| |done|exact Hs|lia|].
  { apply Forall_forall. intros g _. right. right. done. }
  intros m i i' x sp HQ s2' pcB. cbn beta iota in HQ. unfold pcB. rewrite (Hfirst code2 _ B HB HB2 D2). change (O_PUSH2 =? O_PUSH2) with true. cbv iota.
  apply bind_inv, assert_inv, bind_inv, update_inv in HQ. set (s0 := s <| world := m |> <| currentIG := i |>) in *. set (s1 := keep_esp sp s0) in *.
  change (safe (O_PUSH1 code FindPC fuel (pc + 1 + Z.of_nat (length A) + 1)) s1 Q) in HQ. unfold O_PUSH1 in HQ.
  apply bind_inv, peek_inv, bind_inv, assert_inv, bind_inv in HQ. replace (pc + 1 + Z.of_nat (length A) + 1 + 1) with (pc + 1 + Z.of_nat (length A) + 2) in HQ by lia.
  pose proof Hb as [Em Hb'].
  assert (0 <= sp < 2 ^ b) as Hsp by (unfold sp; rewrite Em, land_mask by lia; apply Z.mod_pos_bound; lia).
  destruct (keep_esp_spec b sp s0 Hb Hc Hsp) as (E1 & E2 & E3 & E4 & _). fold s1 in E1, E2, E3, E4.
  assert (width 32) as W32 by (unfold width; lia).
  assert (CPULONG Ofs_STACKM s1 = CPULONG Ofs_STACKM s /\ CPULONG Ofs_XSS s1 = CPULONG Ofs_XSS s) as [F1 F2].
  { unfold CPULONG. split; (rewrite E4; [done|done|right; vm_compute; discriminate]). }
  eapply (push_loop_part code code2 FindPC FindPC2 _ _ B fuel (fuel2 - length A) _ _ _ _ s1 s2'); [done|done|done|done|by rewrite C4, EQ3|done|done|by rewrite F1|by rewrite F2| | |exact HQ|lia|].
  { eapply Forall_impl; [exact Hesp|]. intros g [Hg|[Hg|Hg]]; [by left|by right; left|right; right]. intros w Hw. rewrite E4; [done|done|by apply Hg]. }
  { intros k. rewrite F1, Em, !land_mask, !u32_mod by lia. rewrite <- (Zminus_mod_idemp_l (CPULONG Ofs_ESP s1)). fold (stack_ptr s1 b). by rewrite E2. }
  intros m2 i2 i2' x2 sp2 HQ2 s3 pcE. cbn beta iota in HQ2. unfold pcE. rewrite D3, EQ3. change (O_PUSH3 =? O_PUSH2) with false. cbv iota.
  rewrite C4, EQ3 in HQ2. apply bind_inv, assert_inv, bind_inv, update_inv in HQ2.
  apply bind_law, assert_law; [done|]. apply bind_law, update_law, ret_law. split; [done|].
  eexists _, _. split; [exact HQ2|]. unfold sp2. rewrite F1. exact (keep_esp_twice b x x2 s m2 i2 i2' Hc Hb m i).
Qed.

(** C15: When two pushes run without a page fault, their code after the
    peephole optimizer, one loop that stores ESP once, leaves the same
    registers, flags and memory, for 16 and 32 bit stacks, unless the second
    pushes ESP. *)
Theorem push_merge_correct (code code2 : Z -> IGen) FindPC FindPC2 P1 A P3 Q1 B Q3 l' l1' pc pc2 fuel fuel2 b s (Q : Z -> sim W -> Prop) :
  bytes_ok (cpu s) -> stack_bits s b -> push_insns A -> push_insns B -> Forall no_esp B ->
  op P3 = O_PUSH3 -> op Q3 = O_PUSH3 -> removable P3 Q1 = true ->
  optimize (P1 :: A ++ [P3]) (Q1 :: B ++ [Q3]) = (l', l1') ->
  at_code code pc ((P1 :: A ++ [P3]) ++ Q1 :: B ++ [Q3]) -> at_code code2 pc2 (l' ++ l1') ->
  (length A + length B <= fuel2)%nat ->
  safe (let? pc' := O_PUSH1 code FindPC fuel pc in O_PUSH1 code FindPC fuel (pc' + 1)) s Q ->
  safe (O_PUSH1 code2 FindPC2 fuel2 pc2) s (fun pc2' s2 => pc2' = pc2 + Z.of_nat (length (l' ++ l1')) - 1 /\
    exists pc' s1, Q pc' s1 /\ alike s1 s2).
Proof. apply push_merge_spec. Qed.

End peephole.

(** ** Merged pushes at a concrete state *)

(** PUSH EAX; PUSH EDX, as translated and as optimized. *)
Definition push_code (o : Z) : list IGen := [ins O_PUSH1_op MOPT 0 0; ins O_PUSH2 MOPT o 0; ins O_PUSH3 MOPT 0 0].
Definition code_of (l : list IGen) : Z -> IGen := fun i => nth (Z.to_nat i) l (ins 0 0 0 0).
Definition two_pushes : Z -> IGen := code_of (push_code Ofs_EAX ++ push_code Ofs_EDX).
Definition merged_pushes : Z -> IGen :=
  code_of [ins O_PUSH1_op MOPT 0 0; ins O_PUSH2 MOPT Ofs_EAX 0; ins O_PUSH2 MOPT Ofs_EDX 0; ins O_PUSH3 MOPT 0 0].

Definition push_state (sp : Z) : sim ram :=
  state [(Ofs_EAX, 0xcafe); (Ofs_EDX, 0xf00d); (Ofs_ESP, sp); (Ofs_XSS, 0); (Ofs_STACKM, 0xffffffff)] 0 0.

Definition pushed (pc : Z) (s : sim ram) : Prop := pc = 5 /\ CPULONG Ofs_ESP s = 0x1ff8 /\ load 4 (ram_view (world s)) 0x1ff8 = 0xf00d /\ load 4 (ram_view (world s)) 0x1ffc = 0xcafe.

Lemma push_merge_correct_witness :
  safe (O_PUSH1 merged_pushes (fun _ => 0) 2 0) (push_state 0x2000) (fun pc' s2 => pc' = 0 + Z.of_nat 4 - 1 /\
    exists pc s1, pushed pc s1 /\ alike s1 s2).
Proof.
  refine (push_merge_correct two_pushes merged_pushes (fun _ => 0) (fun _ => 0)
    (ins O_PUSH1_op MOPT 0 0) [ins O_PUSH2 MOPT Ofs_EAX 0] (ins O_PUSH3 MOPT 0 0)
    (ins O_PUSH1_op MOPT 0 0) [ins O_PUSH2 MOPT Ofs_EDX 0] (ins O_PUSH3 MOPT 0 0)
    [ins O_PUSH1_op MOPT 0 0; ins O_PUSH2 MOPT Ofs_EAX 0] [ins O_PUSH2 MOPT Ofs_EDX 0; ins O_PUSH3 MOPT 0 0]
    0 0 5 2 32 (push_state 0x2000) pushed _ _ _ _ _ _ _ _ _ _ _ _ _).
  - apply image_ok.
  - split; [reflexivity|by right].
  - split; [done|by apply Forall_singleton].
  - split; [done|by apply Forall_singleton].
  - apply Forall_singleton. right. right. intros w [->|[->| ->]]; (left; vm_compute; discriminate) || (right; vm_compute; discriminate).
  - reflexivity.
  - reflexivity.
  - reflexivity.
  - reflexivity.
  - by repeat split.
  - by repeat split.
  - simpl. lia.
  - vm_compute. by repeat split.
Defined.

(** A page fault in the second push: the instruction that faults is the second
    push, the stack pointer and the memory are those in the middle of the first
    one, so that the restart overwrites what it has pushed. *)
Lemma merged_push_faults :
  outcome (fun r s => (match r with inl _ => true | inr _ => false end, CPULONG Ofs_ESP s, currentIG s, load 4 (ram_view (world s)) 0))
    (O_PUSH1 merged_pushes (fun pc => pc) 2 0) (push_state 4) = Some (true, 4, 2, 0xcafe) /\
  outcome (fun r s => (match r with inl _ => true | inr _ => false end, CPULONG Ofs_ESP s, currentIG s, load 4 (ram_view (world s)) 0))
    (let? pc := O_PUSH1 two_pushes (fun pc => pc) 5 0 in O_PUSH1 two_pushes (fun pc => pc) 5 (pc + 1)) (push_state 4) = Some (true, 0, 4, 0xcafe).
Proof. vm_compute. done. Qed.
